(* ===== verification/_CoqProject ===== *)
-Q . S2P
Prelude.v
FreeQueue.v
Request.v
BlockHash.v
BlockPool.v
EncoderCache.v
Heapq.v
RequestQueue.v
KVCacheSpec.v
KVCacheConfig.v
CacheManagers.v
CacheHit.v
Coordinator.v
ManagerSpecs.v
KVCacheManager.v
CacheInvariant.v
Admission.v
KVService.v
Scheduler.v
SchedulerInvariant.v
SchedulerStep.v
SchedulerRun.v
SchedulerTheorems.v
NgramProposer.v
OffloadPolicy.v
OffloadManager.v
Detokenizer.v
OutputProcessor.v
Logprobs.v
MMCache.v
MMCacheTheorems.v
ScalarType.v
LogitsProcessors.v
BlockTable.v
InputBatch.v
BatchInvariant.v
BatchMoves.v
BatchTheorems.v
