(* ===== verification/Prelude.v ===== *)
(** * The core of vLLM's V1 engine

    A verification library for the Python code that decides, between the web server and the
    kernels, which tokens of which requests are computed next, where their KV cache lives, and what
    text goes back to the caller.  File names below are relative to [src/vllm/]; the library has one
    or a few files for each part of the program, and this file, the root, holds what they share.

    ** How the program fits together

    A request enters at the front end ([OutputProcessor]), which keeps its text state and splits it
    into children when several completions are asked for.  The [Scheduler] queues it
    ([RequestQueue]) and, step after step, chooses the tokens to compute.  For every choice it asks
    the KV cache manager ([KVCacheManager]) for blocks: the coordinator ([Coordinator]) passes the
    call to one manager per KV cache group ([CacheManagers]), and these draw on one shared pool
    ([BlockPool]), whose free blocks form a linked queue ([FreeQueue]) and whose full blocks are
    found again by the hashes a request carries ([BlockHash]).  Multimodal items claim room in the
    encoder cache ([EncoderCache]).  What groups, block sizes and numbers of blocks there are is
    settled at start-up from the formats of the layers ([KVCacheSpec], [KVCacheConfig]).

    A worker mirrors the running requests in its persistent batch ([InputBatch]), with the block
    tables ([BlockTable]) that map tokens to cache slots and the logits processors
    ([LogitsProcessors]) that follow the batch by recorded updates.  It may draft tokens by n-gram
    lookup ([NgramProposer]) and offload blocks to host memory ([OffloadManager], with a policy of
    [OffloadPolicy]).  Weights are described by [ScalarType].  Sampled tokens go back to the
    scheduler, which applies the stop conditions ([Request]), and on to the front end, which
    detokenizes them and looks for stop strings ([Detokenizer]).

    ** How code is modelled

    A method that changes state or raises is a program of the monad [M S A] below: it returns a value
    or an exception together with the state at that moment, so mutations made before a raise are
    kept, as in Python.  [zoom] runs a component inside the state of its owner, so that calls
    compose as in the code.  Objects that several holders share live in stores and are reached by a
    location: the blocks (a block is an index of the pool's list), the requests (by [obj_id]), the
    parents and the collectors of the front end.  Views of torch tensors that alias ([swap_states])
    are modelled by the memory they share.  Dicts are finite maps where their order is irrelevant
    and association lists where it matters; Python's unbounded integers are [Z] or [nat], and
    integers of fixed width (group ids of a block hash, identifiers of scalar types) are kept in
    their ranges, with the exception the code raises outside of them.

    Interfaces of the code are type classes with laws: [RequestQueue], [EncoderManager] with
    [EncoderManagerLaws], [CachePolicy] with [CachePolicyLaws], [LogitsProcessorLaws], [Decoder].
    Their clients are proved from the laws and every implementation discharges them.  [Cachetools]
    with [CachetoolsLaws] stands for a third-party cache; [ListCache] shows that its laws can hold.

    ** Parts, files and theorems

    - The pool.  [FreeQueue] ([FreeKVCacheBlockQueue] and [KVCacheBlock] of
      v1/core/kv_cache_utils.py) models the list threaded through the block objects, with its
      sentinels; [free_queue_refines_list]: any calls behave as on a plain list.  [BlockPool]
      (v1/core/block_pool.py) has the record [BlockPool] with the blocks, the queue and the
      prefix-cache index; [block_pool_invariant], and the exact behaviour of allocation, caching and
      freeing ([get_new_blocks_correct], [cache_full_blocks_correct], [free_then_allocate_order]).
    - Hashes.  [BlockHash] (v1/core/kv_cache_utils.py, v1/request.py): the incremental hasher computes
      the hashes of all full blocks ([request_hashes_exact]), equal hashes mean equal prefixes when
      the hash function has no collision ([block_hash_identifies_prefix]), packing a hash with its
      group loses nothing ([block_hash_with_group_id_roundtrip]).
    - Cache groups.  [CacheManagers] and [CacheHit] (v1/core/single_type_kv_cache_manager.py) model
      every manager class; [ManagerSpecs] states what each operation keeps and returns;
      [find_longest_cache_hit_correct]: the hit is aligned, cached and the longest.  [Coordinator]
      (v1/core/kv_cache_coordinator.py) puts groups together; [hybrid_find_correct]: the iteration
      over attention types ends, with the longest common hit.
    - The KV cache manager.  [KVCacheManager] (v1/core/kv_cache_manager.py) is the scheduler's view.
      [CacheInvariant] proves that reference counts are exactly the holdings of the requests after
      any calls ([kv_cache_manager_invariant]) and that a call touches no other request
      ([kv_cache_manager_isolation]).  [Admission] proves [allocate_slots_correct]: a refusal happens
      exactly for want of blocks, an accepted request has all its blocks.  [KVService] states the
      same as the contract the scheduler uses.
    - Start-up.  [KVCacheSpec] (v1/kv_cache_interface.py) has the formats; [KVCacheConfig]
      (v1/core/kv_cache_utils.py) the memory checks, grouping, tensor layout and the length search
      ([get_kv_cache_configs_correct], [get_kv_cache_config_from_groups_correct],
      [estimate_max_model_len_correct]).
    - Requests and queues.  [Request] (v1/request.py, v1/core/sched/utils.py) has the object and the
      stop conditions ([check_stop_correct], [check_sequence_repetition_exact]).  [RequestQueue]
      (v1/core/sched/request_queue.py) has both queues, with Python's [heapq] in [Heapq]; the heap
      behaves as a sorted list ([priority_queue_refines_sorted_list]).
    - The encoder cache.  [EncoderCache] (v1/core/encoder_cache_manager.py):
      [encoder_cache_invariant], [can_allocate_correct], [encoder_budget_admits_every_item].
    - The scheduler.  [Scheduler] (v1/core/sched/scheduler.py, async_scheduler.py, output.py) has the
      record [Scheduler] and every operation.  [SchedulerInvariant] says what a state in order is,
      [SchedulerStep] follows [schedule] phase by phase, [SchedulerRun] the calls between steps, and
      [SchedulerTheorems] concludes: [schedule_correct], [update_from_output_correct],
      [add_request_correct], [finish_requests_correct], and for a system with one step in flight
      [scheduler_invariant].
    - The worker.  [BlockTable] (v1/worker/block_table.py): [compute_slot_mapping_correct], no two
      tokens share a slot.  [LogitsProcessors] (v1/sample/logits_processor/state.py, interface.py,
      builtin.py): processors fed with updates keep at each index what the request there asks for
      ([processors_follow_batch]).  [InputBatch] (v1/worker/gpu_input_batch.py) has the record
      [InputBatch], with one [Row] for the array elements of an index.  [BatchInvariant] reads it as
      a map from request ids to entries, [BatchMoves] proves that condensing and swapping do not
      change this map, and [BatchTheorems] that any sequence of calls refines the same calls on the
      map, with the processors in step ([persistent_batch_correct], [batch_metadata_correct]).
    - Drafts and offloading.  [NgramProposer] (v1/spec_decode/ngram_proposer.py) is equivalent to a
      search by definition ([propose_correct]).  [OffloadPolicy] (v1/kv_offload/cpu/policies) has the
      two policies behind one interface, [OffloadManager] (v1/kv_offload/cpu/manager.py,
      reuse_manager.py) the slots ([offload_slots], [prepare_store_correct],
      [prepared_load_protected]).
    - The front end.  [Detokenizer] (v1/engine/detokenizer.py, tokenizers/detokenizer_utils.py):
      [check_stop_strings_correct].  [OutputProcessor] (v1/engine/output_processor.py,
      parallel_sampling.py): the pieces a caller receives add up to the final text
      ([output_stream_correct]); children are merged once and in order
      ([parallel_sampling_correct]).  [Logprobs] (logprobs.py, v1/engine/logprobs.py, and the
      rows of v1/outputs.py) has the log probabilities of a request in both containers, which read the
      same ([flat_logprobs_equivalent]) and hold what was sampled ([sampled_logprobs_correct]).
      [MMCache] (utils/cache.py, multimodal/cache.py and the callers in multimodal/processing and
      v1/engine/input_processor.py) has the caches of processed multimodal items on both sides of the
      process boundary; [MMCacheTheorems] relates runs of the two: the engine core restores what the
      front end left out ([mm_caches_mirrored]), and storing an item ends ([setitem_stores]).
    - Number formats.  [ScalarType] (scalar_type.py): identifiers lead back to their type
      ([scalar_ids_correct]), ranges are exact ([scalar_range_correct]).

    Most parts also have examples, concrete runs computed in the kernel, of code that does not do
    what it means to: for instance [swap_loses_mask] and [condense_leaves_mask] in [BatchTheorems],
    [mixed_modalities_diverge] and [second_item_never_stored] in [MMCacheTheorems].

    ** Loops and fuel

    A loop without a structural measure takes fuel, and running out of it is the exception
    [OutOfFuel], which the theorems exclude where they say what a call returns.
    - [hasher_loop] (BlockHash): one more than the number of tokens; a turn hashes a block of them.
    - [align_loop] (CacheHit): one more than the blocks of the first group; a turn drops one.
    - [hit_loop] (Coordinator): one more than the longest hit; a turn shortens the hit or stops.
    - [evict_loop] (EncoderCache): one more than the items that can be freed; a turn frees one.
    - [walk] (FreeQueue), which lists the queue: any number above its length, and the well-formed
      queue says that the list ends.
    - [siftdown], [siftup], [heap_drain] (Heapq): the position, the length, the length.
    - [search_loop] (KVCacheConfig): one more than the model length, the interval that is halved.
    - [search_loop] (NgramProposer): twice the tokens and one; a turn advances in the tokens or
      shortens the match.
    - [skip_empty], [condense_loop] (InputBatch): the last index and one, the number of holes and one.
    - [make_room], [_remove_old_if_needed], [clear_loop] (MMCache): the number of keys, where every key
      of the order is stored; otherwise these loops may never end ([setitem_phantom]).
    - [schedule_running], [schedule_waiting], [allocate_or_preempt], [preempt_all] (Scheduler):
      bounded by the requests that run and wait; a turn takes one of them or preempts one.
    - [abort_requests] (OutputProcessor): an argument, more than the depth of parents over children,
      which is two.

    ** Assumptions

    Hash functions, tokenizers, the random numbers and the model are code outside of the repository
    and parameters.  Theorems name what they ask of them; [block_hash_identifies_prefix] asks that a
    hash function has no collision.  The theorems about the scheduler are for text requests on
    attention layers with a synchronous scheduler and without drafts, LoRA limits or Mamba
    splitting; the definitions have these cases.  Those about the persistent batch are for models
    that generate; they ask that between the calls a request's output only grows, which leaves
    out the truncation after a failed KV load, and that the first of two swapped requests restricts
    no token ids, for which [swap_states] is wrong.  Cache hits are found without EAGLE and
    without context parallelism, and request hashes are exact where multimodal items end before the
    incomplete block.  Those about offloading ask that no store call names a hash twice and that only
    outstanding loads are completed.  [mm_caches_mirrored] asks that a hash stands for
    the content of its item and that the front end processes every request without raising.

    ** Not modelled

    - The arithmetic: model definitions, kernels, attention backends, the sampler, draft models and
      compilation are tensor programs over PyTorch and CUDA; the model runner appears as the output
      it sends to the scheduler and as the calls it makes on its batch.  What the logits processors
      do to the logits, the sampling metadata on the device, and the placeholders that asynchronous
      scheduling repairs in it belong here.
    - The transports: KV connectors, engine processes, sockets, and the HTTP and offline entry
      points.  The scheduler has no connector here.
    - Code around third-party libraries: grammar compilers, multimodal processors (a parameter of
      [MMCache]), tool and reasoning parsers over regular expressions and JSON; and the caches of
      multimodal items in shared memory.
    - What only observes: metrics, tracing, logging and statistics.  Log probabilities are data that the
      output processor passes through; its model leaves them out, and [Logprobs] has their own.
    - Settings and their validation, the bundled lmdeploy, which is a second engine with a scheduler
      of its own, benchmarks, examples and tests.

    ** This file

    Python exceptions as values, the state-and-exception monad with its weakest-precondition
    calculus and the tactics that drive it, [zoom], Python's slicing and integer division, and the
    generic lemmas on lists that the components share. *)

From stdpp Require Import base list gmap strings sorting.
From Stdlib Require Import ZArith Lia.

(** ** Exceptions and results *)

Inductive exn :=
  | AssertionError
  | ValueError
  | RuntimeError
  | KeyError
  | IndexError
  | OverflowError
  | NotImplementedError
  | StopIteration
  | ZeroDivisionError
  | OtherException
  | OutOfFuel.

#[export] Instance exn_eq_dec : EqDecision exn.
Proof. solve_decision. Defined.

Inductive res (A : Type) :=
  | Ok (a : A)
  | Err (e : exn).
Arguments Ok {A} a.
Arguments Err {A} e.

#[export] Instance res_ret : MRet res := λ A a, Ok a.
#[export] Instance res_bind : MBind res := λ A B f m,
  match m with Ok a => f a | Err e => Err e end.

Lemma Ok_inj {A} (a b : A) : Ok a = Ok b → a = b.
Proof. by intros [= ->]. Qed.

(** ** The state-and-exception monad

    A Python method that raises keeps the mutations made before the raise, so
    the final state is returned in both cases. *)

Definition M (S A : Type) : Type := S → res A * S.

#[export] Instance M_ret {S} : MRet (M S) := λ A a s, (Ok a, s).
#[export] Instance M_bind {S} : MBind (M S) := λ A B f m s,
  match m s with
  | (Ok a, s') => f a s'
  | (Err e, s') => (Err e, s')
  end.

Definition raise {S A} (e : exn) : M S A := λ s, (Err e, s).
Definition gets {S A} (f : S → A) : M S A := λ s, (Ok (f s), s).
Definition modify {S} (f : S → S) : M S unit := λ s, (Ok tt, f s).
Definition assert_ {S} (b : bool) : M S unit :=
  if b then mret tt else raise AssertionError.
Definition lift_res {S A} (r : res A) : M S A := λ s, (r, s).
Definition lift_opt {S A} (e : exn) (o : option A) : M S A :=
  match o with Some a => mret a | None => raise e end.

(** [for x in l: body x] *)
Fixpoint for_each {S A} (l : list A) (body : A → M S unit) : M S unit :=
  match l with
  | [] => mret tt
  | x :: r => body x ;; for_each r body
  end.

(** [acc = a; for x in l: acc = body acc x; return acc] *)
Fixpoint fold_each {S A B} (l : list A) (a : B) (body : B → A → M S B) : M S B :=
  match l with
  | [] => mret a
  | x :: r => a' ← body a x; fold_each r a' body
  end.

(** [try: m finally: fin], where [fin] does not raise. *)
Definition try_finally {S A} (m : M S A) (fin : S → S) : M S A := λ s,
  let '(r, s') := m s in (r, fin s').

(** ** Running a component inside a larger state *)

Record lens (S T : Type) := Lens { lget : S → T; lset : T → S → S }.
Arguments Lens {S T} _ _.
Arguments lget {S T} _ _.
Arguments lset {S T} _ _ _.

Definition zoom {S T A} (l : lens S T) (m : M T A) : M S A := λ s,
  match m (lget l s) with (r, t) => (r, lset l t s) end.

(** ** Weakest preconditions

    [wp m Q E s]: started in [s], [m] either returns [a] in [s'] with
    [Q a s'], or raises [e] in [s'] with [E e s'].  Every [m] is a total
    function, so this is total correctness. *)

Definition wp {S A} (m : M S A) (Q : A → S → Prop) (E : exn → S → Prop)
    (s : S) : Prop :=
  match m s with
  | (Ok a, s') => Q a s'
  | (Err e, s') => E e s'
  end.

(** No exception escapes. *)
Definition no_exn {S} : exn → S → Prop := λ _ _, False.

Section wp_rules.
Context {S : Type}.
Implicit Types s : S.

Lemma wp_ret {A} (a : A) Q E s : Q a s → wp (mret a) Q E s.
Proof. done. Qed.

Lemma wp_bind {A B} (m : M S A) (f : A → M S B) Q E s :
  wp m (λ a s', wp (f a) Q E s') E s → wp (m ≫= f) Q E s.
Proof. unfold wp, mbind, M_bind. by destruct (m s) as [[a|e] s']. Qed.

Lemma wp_raise {A} e Q (E : exn → S → Prop) s : E e s → wp (raise e : M S A) Q E s.
Proof. done. Qed.

Lemma wp_gets {A} (f : S → A) Q E s : Q (f s) s → wp (gets f) Q E s.
Proof. done. Qed.

Lemma wp_modify (f : S → S) Q E s : Q tt (f s) → wp (modify f) Q E s.
Proof. done. Qed.

Lemma wp_assert b Q E s : b = true → Q tt s → wp (assert_ b) Q E s.
Proof. by intros ->. Qed.

Lemma wp_lift_some {A} e (o : option A) a Q E s :
  o = Some a → Q a s → wp (lift_opt e o) Q E s.
Proof. by intros ->. Qed.

Lemma wp_lift_res {A} (r : res A) (Q : A → S → Prop) (E : exn → S → Prop) s :
  (∀ a, r = Ok a → Q a s) → (∀ e, r = Err e → E e s) → wp (lift_res r) Q E s.
Proof. intros H1 H2. destruct r as [a|e]; [exact (H1 a eq_refl)|exact (H2 e eq_refl)]. Qed.

Lemma wp_assert_cases b Q (E : exn → S → Prop) s :
  (b = true → Q tt s) → (b = false → E AssertionError s) → wp (assert_ b) Q E s.
Proof. intros H1 H2. destruct b; [exact (H1 eq_refl)|exact (H2 eq_refl)]. Qed.

Lemma wp_bind_assoc {A B C} (m : M S A) (f : A → M S B) (g : B → M S C) Q E s :
  wp ((m ≫= f) ≫= g) Q E s → wp (m ≫= λ a, f a ≫= g) Q E s.
Proof. unfold wp, mbind, M_bind. by destruct (m s) as [[a|e] s']. Qed.

Lemma wp_if {A} (b : bool) (m1 m2 : M S A) Q E s :
  (b = true → wp m1 Q E s) → (b = false → wp m2 Q E s) →
  wp (if b then m1 else m2) Q E s.
Proof. destruct b; auto. Qed.

Lemma wp_mono {A} (m : M S A) (Q Q' : A → S → Prop) (E E' : exn → S → Prop) s :
  wp m Q E s →
  (∀ a s', Q a s' → Q' a s') → (∀ e s', E e s' → E' e s') →
  wp m Q' E' s.
Proof. unfold wp. destruct (m s) as [[a|e] s']; auto. Qed.

(** A body that establishes the loop invariant for each element. *)
Lemma wp_for_each {A} (l : list A) (body : A → M S unit)
    (I : list A → S → Prop) (E : exn → S → Prop) s :
  (∀ done_ x rest s', l = done_ ++ x :: rest → I done_ s' →
     wp (body x) (λ _ s'', I (done_ ++ [x]) s'') E s') →
  I [] s →
  wp (for_each l body) (λ _ s', I l s') E s.
Proof.
  intros Hbody HI.
  assert (∀ rest done_ s', l = done_ ++ rest → I done_ s' →
    wp (for_each rest body) (λ _ s'', I l s'') E s') as H; [|by apply (H l [])].
  induction rest as [|x rest IH]; intros done_ s' Hl Hi; simpl.
  - apply wp_ret. rewrite app_nil_r in Hl. by subst.
  - apply wp_bind. eapply wp_mono; [by eapply Hbody| |done].
    intros [] s'' Hi'. apply (IH (done_ ++ [x])); [|done].
    by rewrite <-app_assoc.
Qed.

(** A loop whose body keeps an invariant that ignores the position. *)
Lemma wp_for_each_inv {A} (l : list A) (body : A → M S unit)
    (I : S → Prop) (E : exn → S → Prop) s :
  (∀ x s', x ∈ l → I s' → wp (body x) (λ _ s'', I s'') E s') →
  I s → wp (for_each l body) (λ _ s', I s') E s.
Proof.
  intros Hb HI. apply (wp_for_each l body (λ _, I)); [|done].
  intros d x r s' -> Hi. apply Hb; [set_solver|done].
Qed.

Lemma wp_fold_each {A B} (l : list A) (a : B) (body : B → A → M S B)
    (I : list A → B → S → Prop) (E : exn → S → Prop) s :
  (∀ done_ x rest b s', l = done_ ++ x :: rest → I done_ b s' →
     wp (body b x) (λ b' s'', I (done_ ++ [x]) b' s'') E s') →
  I [] a s →
  wp (fold_each l a body) (λ b s', I l b s') E s.
Proof.
  intros Hbody HI.
  assert (∀ rest done_ b s', l = done_ ++ rest → I done_ b s' →
    wp (fold_each rest b body) (λ b' s'', I l b' s'') E s') as H;
    [|by apply (H l [])].
  induction rest as [|x rest IH]; intros done_ b s' Hl Hi; simpl.
  - apply wp_ret. rewrite app_nil_r in Hl. by subst.
  - apply wp_bind. eapply wp_mono; [by eapply Hbody| |done].
    intros b' s'' Hi'. apply (IH (done_ ++ [x])); [|done].
    by rewrite <-app_assoc.
Qed.

Lemma wp_elim {A} (m : M S A) Q E s r s' :
  wp m Q E s → m s = (r, s') → match r with Ok a => Q a s' | Err e => E e s' end.
Proof. unfold wp. intros Hm Er. by rewrite Er in Hm. Qed.

Lemma wp_no_exn_run {A} (m : M S A) Q s :
  wp m Q no_exn s → ∃ a s', m s = (Ok a, s') ∧ Q a s'.
Proof. unfold wp. destruct (m s) as [[a|e] s'] eqn:?; [eauto|done]. Qed.
End wp_rules.

Lemma wp_zoom {S T A} (l : lens S T) (m : M T A) Q E s :
  wp m (λ a t, Q a (lset l t s)) (λ e t, E e (lset l t s)) (lget l s) →
  wp (zoom l m) Q E s.
Proof. unfold wp, zoom. by destruct (m (lget l s)) as [[a|e] t]. Qed.

(** One symbolic-execution step of a monadic program. *)
Ltac wp_step :=
  lazymatch goal with
  | |- wp (mbind _ _) _ _ _ => apply wp_bind
  | |- wp (mret _) _ _ _ => apply wp_ret
  | |- wp (raise _) _ _ _ => apply wp_raise
  | |- wp (gets _) _ _ _ => apply wp_gets
  | |- wp (modify _) _ _ _ => apply wp_modify
  | |- wp (zoom _ _) _ _ _ => apply wp_zoom
  | |- wp (if ?b then _ else _) _ _ _ =>
      let H := fresh "Hif" in apply wp_if; intros H
  end.
Ltac wp_steps := repeat (wp_step; cbn beta).

(** Decides a closed goal by computation. *)
Ltac decide_now := apply (bool_decide_unpack _); vm_compute; exact I.

(** Case analysis on the decisions of the goal only. *)
Ltac goal_decide :=
  repeat match goal with |- context [@decide ?P ?d] => destruct (@decide P d) end.

(** ** Python integers and lists *)

(** [vllm.utils.math_utils.cdiv], [-(a // -b)]. *)
Definition cdiv (a b : Z) : Z := - (a / - b).

(** [a // b] and [a % b] *)
Definition py_div (a b : Z) : res Z :=
  if bool_decide (b = 0%Z) then Err ZeroDivisionError else Ok (a / b)%Z.
Definition py_mod (a b : Z) : res Z :=
  if bool_decide (b = 0%Z) then Err ZeroDivisionError else Ok (a mod b)%Z.

(** [min(l)] and [max(l)] of a non-empty list of integers *)
Definition py_max (l : list Z) : res Z :=
  match l with [] => Err ValueError | x :: r => Ok (foldl Z.max x r) end.
Definition py_min (l : list Z) : res Z :=
  match l with [] => Err ValueError | x :: r => Ok (foldl Z.min x r) end.

(** A comprehension whose body may raise. *)
Fixpoint map_res {A B} (f : A → res B) (l : list A) : res (list B) :=
  match l with [] => Ok [] | x :: r => y ← f x; ys ← map_res f r; Ok (y :: ys) end.

(** [set(l)] up to order: the first occurrences. *)
Fixpoint distinct {A} `{EqDecision A} (l : list A) : list A :=
  match l with [] => [] | x :: r => x :: filter (λ y, y ≠ x) (distinct r) end.

(** [range(n)] and [range(a, b)] *)
Definition range (a b : Z) : list Z := seqZ a (b - a).

(** Python's index normalisation: a negative index counts from the end. *)
Definition py_index (len i : Z) : Z := if bool_decide (i < 0)%Z then (i + len)%Z else i.

(** [l[i]] : [IndexError] out of range. *)
Definition py_get {A} (l : list A) (i : Z) : res A :=
  let j := py_index (Z.of_nat (length l)) i in
  if bool_decide (j < 0)%Z then Err IndexError
  else match l !! Z.to_nat j with Some a => Ok a | None => Err IndexError end.

(** The bounds of a slice are clipped to the list. *)
Definition py_clip (len i : Z) : Z := Z.max 0 (Z.min len (py_index len i)).

(** [l[i:j]] *)
Definition slice {A} (i j : Z) (l : list A) : list A :=
  let n := Z.of_nat (length l) in
  let i' := py_clip n i in
  let j' := py_clip n j in
  take (Z.to_nat (j' - i')) (drop (Z.to_nat i') l).

(** [l[i:]] *)
Definition slice_from {A} (i : Z) (l : list A) : list A :=
  slice i (Z.of_nat (length l)) l.

(** [sum(l)] *)
Fixpoint sumZ (l : list Z) : Z :=
  match l with [] => 0%Z | x :: r => (x + sumZ r)%Z end.

Lemma cdiv_spec a b : (0 < b)%Z → (a ≤ b * cdiv a b < a + b)%Z.
Proof.
  intros Hb. unfold cdiv.
  pose proof (Z.div_mod a (- b) ltac:(lia)).
  pose proof (Z.mod_neg_bound a (- b) ltac:(lia)). nia.
Qed.

Lemma cdiv_le a b n : (0 < b)%Z → (a ≤ b * n ↔ cdiv a b ≤ n)%Z.
Proof. intros Hb. pose proof (cdiv_spec a b Hb). split; nia. Qed.

Lemma cdiv_nonneg a b : (0 < b)%Z → (0 ≤ a)%Z → (0 ≤ cdiv a b)%Z.
Proof. intros Hb Ha. pose proof (cdiv_spec a b Hb). nia. Qed.

Lemma cdiv_0 b : (0 < b)%Z → cdiv 0 b = 0%Z.
Proof. intros. unfold cdiv. by rewrite Z.div_0_l by lia. Qed.

Lemma cdiv_mul a b : (0 < b)%Z → cdiv (b * a) b = a.
Proof.
  intros. pose proof (cdiv_spec (b * a) b ltac:(lia)).
  assert (cdiv (b * a) b - a < 1 ∧ -1 < cdiv (b * a) b - a)%Z by (split; nia). lia.
Qed.

Lemma cdiv_mono a a' b : (0 < b)%Z → (a ≤ a')%Z → (cdiv a b ≤ cdiv a' b)%Z.
Proof.
  intros Hb Ha. apply cdiv_le; [done|]. pose proof (cdiv_spec a' b Hb). lia.
Qed.

Lemma slice_pos {A} (i j : Z) (l : list A) :
  (0 ≤ i)%Z → (0 ≤ j)%Z →
  slice i j l = take (Z.to_nat j - Z.to_nat i) (drop (Z.to_nat i) l).
Proof.
  intros Hi Hj. unfold slice, py_clip, py_index.
  rewrite !bool_decide_eq_false_2 by lia.
  set (n := Z.of_nat (length l)).
  destruct (decide (i ≤ n)%Z).
  - replace (Z.to_nat (0 `max` (n `min` i))) with (Z.to_nat i) by lia.
    rewrite <-(firstn_all (drop (Z.to_nat i) l)) at 2.
    rewrite take_take, length_drop. f_equal. lia.
  - rewrite !drop_ge by lia. by rewrite !take_nil.
Qed.

Lemma slice_from_pos {A} (i : Z) (l : list A) :
  (0 ≤ i)%Z → slice_from i l = drop (Z.to_nat i) l.
Proof.
  intros Hi. unfold slice_from. rewrite slice_pos by lia.
  apply take_ge. rewrite length_drop. lia.
Qed.

Lemma length_slice {A} (i j : Z) (l : list A) :
  (0 ≤ i)%Z → (i ≤ j)%Z → (j ≤ Z.of_nat (length l))%Z →
  Z.of_nat (length (slice i j l)) = (j - i)%Z.
Proof. intros. rewrite slice_pos, length_take, length_drop by lia. lia. Qed.

Lemma py_get_nat {A} (l : list A) (i : nat) a :
  l !! i = Some a → py_get l (Z.of_nat i) = Ok a.
Proof.
  intros Hl. unfold py_get, py_index.
  rewrite !(bool_decide_eq_false_2 (Z.of_nat i < 0)%Z) by lia.
  by rewrite Nat2Z.id, Hl.
Qed.

Lemma sumZ_app l1 l2 : sumZ (l1 ++ l2) = (sumZ l1 + sumZ l2)%Z.
Proof. induction l1; simpl; lia. Qed.

Lemma foldl_max_spec (l : list Z) (a : Z) :
  (a ≤ foldl Z.max a l ∧ (∀ x, x ∈ l → x ≤ foldl Z.max a l) ∧
   (foldl Z.max a l = a ∨ foldl Z.max a l ∈ l))%Z.
Proof.
  revert a. induction l as [|x l IH]; intros a; simpl.
  { split_and!; [lia|by intros ? ?%elem_of_nil|by left]. }
  destruct (IH (Z.max a x)) as (H1 & H2 & H3). split_and!; [lia| |].
  - intros y [->|Hy]%elem_of_cons; [lia|auto].
  - rewrite elem_of_cons. destruct H3 as [->|]; [|auto]. lia.
Qed.

Lemma foldl_min_spec (l : list Z) (a : Z) :
  (foldl Z.min a l ≤ a ∧ (∀ x, x ∈ l → foldl Z.min a l ≤ x) ∧
   (foldl Z.min a l = a ∨ foldl Z.min a l ∈ l))%Z.
Proof.
  revert a. induction l as [|x l IH]; intros a; simpl.
  { split_and!; [lia|by intros ? ?%elem_of_nil|by left]. }
  destruct (IH (Z.min a x)) as (H1 & H2 & H3). split_and!; [lia| |].
  - intros y [->|Hy]%elem_of_cons; [lia|auto].
  - rewrite elem_of_cons. destruct H3 as [->|]; [|auto]. lia.
Qed.

Lemma map_res_ok {A B} (f : A → res B) (l : list A) ys :
  map_res f l = Ok ys ↔ Forall2 (λ x y, f x = Ok y) l ys.
Proof.
  revert ys. induction l as [|x l IH]; intros ys; simpl.
  - split; [by intros [= <-]|by intros ->%Forall2_nil_inv_l].
  - destruct (f x) as [y|e] eqn:E; simpl.
    + destruct (map_res f l) as [ys'|e]; simpl.
      * split.
        -- intros [= <-]. constructor; [done|]. by apply IH.
        -- intros (y' & l' & Hy & Hl & ->)%Forall2_cons_inv_l. rewrite E in Hy. simplify_eq.
           apply IH in Hl. by simplify_eq.
      * split; [done|]. intros (y' & l' & _ & Hl & ->)%Forall2_cons_inv_l. by apply IH in Hl.
    + split; [done|]. intros (y' & l' & Hy & _ & ->)%Forall2_cons_inv_l. by rewrite E in Hy.
Qed.

(** Inversion of computations that return. *)
Lemma res_bind_ok {A B} (m : res A) (f : A → res B) b :
  (m ≫= f) = Ok b ↔ ∃ a, m = Ok a ∧ f a = Ok b.
Proof. destruct m; simpl; [naive_solver|by split; [|intros (? & ? & _)]]. Qed.

Lemma M_bind_ok {S A B} (m : M S A) (f : A → M S B) s b s' :
  (m ≫= f) s = (Ok b, s') ↔ ∃ a s1, m s = (Ok a, s1) ∧ f a s1 = (Ok b, s').
Proof. unfold mbind, M_bind. destruct (m s) as [[a|e] s1]; naive_solver. Qed.

Lemma py_div_ok a b q : py_div a b = Ok q ↔ b ≠ 0%Z ∧ q = (a / b)%Z.
Proof. unfold py_div. case_bool_decide; naive_solver. Qed.
Lemma py_mod_ok a b q : py_mod a b = Ok q ↔ b ≠ 0%Z ∧ q = (a mod b)%Z.
Proof. unfold py_mod. case_bool_decide; naive_solver. Qed.
Lemma py_max_ok l m : py_max l = Ok m → m ∈ l ∧ ∀ x, x ∈ l → (x ≤ m)%Z.
Proof.
  destruct l as [|a l]; [done|]. intros [= <-]. destruct (foldl_max_spec l a) as (H1 & H2 & H3).
  split; [by apply elem_of_cons|]. intros x [->|Hx]%elem_of_cons; auto.
Qed.
Lemma py_min_ok l m : py_min l = Ok m → m ∈ l ∧ ∀ x, x ∈ l → (m ≤ x)%Z.
Proof.
  destruct l as [|a l]; [done|]. intros [= <-]. destruct (foldl_min_spec l a) as (H1 & H2 & H3).
  split; [by apply elem_of_cons|]. intros x [->|Hx]%elem_of_cons; auto.
Qed.

Lemma map_res_elem {A B} (f : A → res B) (l : list A) ys x :
  map_res f l = Ok ys → x ∈ l → ∃ y, y ∈ ys ∧ f x = Ok y.
Proof.
  revert ys. induction l as [|a l IH]; simpl; intros ys H Hx; [by apply elem_of_nil in Hx|].
  apply res_bind_ok in H as (y & Hy & (ys' & Hys & [= <-])%res_bind_ok).
  apply elem_of_cons in Hx as [->|Hx]; [exists y; split; [left|done]|].
  destruct (IH _ Hys Hx) as (z & ? & ?). exists z. split; [by right|done].
Qed.

Lemma elem_of_concat {A} (ls : list (list A)) x : x ∈ concat ls ↔ ∃ l, l ∈ ls ∧ x ∈ l.
Proof. setoid_rewrite list_elem_of_In. setoid_rewrite in_concat. firstorder. Qed.

Lemma distinct_elem {A} `{EqDecision A} (l : list A) x : x ∈ distinct l ↔ x ∈ l.
Proof.
  induction l as [|y l IH]; simpl; [done|].
  rewrite !elem_of_cons, list_elem_of_filter, IH. destruct (decide (x = y)); tauto.
Qed.

Lemma distinct_NoDup {A} `{EqDecision A} (l : list A) : NoDup (distinct l).
Proof.
  induction l as [|y l IH]; simpl; [constructor|]. constructor; [|by apply NoDup_filter].
  rewrite list_elem_of_filter. tauto.
Qed.

Lemma filter_id {A} (P : A → Prop) `{∀ x, Decision (P x)} (l : list A) :
  (∀ x, x ∈ l → P x) → filter P l = l.
Proof.
  induction l as [|a l IH]; intros HP; [done|].
  rewrite filter_cons_True by (apply HP; left). rewrite IH; [done|].
  intros x Hx. apply HP. by right.
Qed.

Lemma filter_none {A} (P : A → Prop) `{∀ x, Decision (P x)} (l : list A) :
  (∀ x, x ∈ l → ¬ P x) → filter P l = [].
Proof.
  induction l as [|a l IH]; intros HP; [done|].
  rewrite filter_cons_False by (apply HP; left). apply IH. intros x Hx. apply HP. by right.
Qed.

Lemma filter_ext_in {A} (P Q : A → Prop) `{∀ x, Decision (P x), ∀ x, Decision (Q x)}
    (l : list A) :
  (∀ x, x ∈ l → P x ↔ Q x) → filter P l = filter Q l.
Proof.
  induction l as [|a l IH]; intros HP; [done|].
  rewrite !filter_cons, IH by (intros x Hx; apply HP; by right).
  apply decide_ext, HP. by left.
Qed.

(** ** Python dictionaries in insertion order

    Used where the code depends on the iteration order of a dict; assigning to
    an existing key keeps its position. *)

Section dict.
Context {K V : Type} `{EqDecision K}.
Implicit Types (d : list (K * V)) (k : K) (v : V).

Fixpoint dict_get d k : option V :=
  match d with
  | [] => None
  | (k', v) :: r => if decide (k = k') then Some v else dict_get r k
  end.

Fixpoint dict_set d k v : list (K * V) :=
  match d with
  | [] => [(k, v)]
  | (k', v') :: r => if decide (k = k') then (k', v) :: r else (k', v') :: dict_set r k v
  end.

Fixpoint dict_del d k : list (K * V) :=
  match d with
  | [] => []
  | (k', v') :: r => if decide (k = k') then r else (k', v') :: dict_del r k
  end.

Lemma dict_get_Some d k v : dict_get d k = Some v → (k, v) ∈ d.
Proof.
  induction d as [|[k' v'] d IH]; simpl; [done|].
  case_decide; [intros; simplify_eq; left|right; auto].
Qed.

Lemma dict_get_None d k : dict_get d k = None ↔ k ∉ d.*1.
Proof.
  induction d as [|[k' v'] d IH]; simpl; [split; [intros _; apply not_elem_of_nil|done]|].
  rewrite not_elem_of_cons. case_decide; [split; [done|tauto]|]. rewrite IH. tauto.
Qed.

Lemma dict_get_elem d k v : NoDup d.*1 → (k, v) ∈ d → dict_get d k = Some v.
Proof.
  induction d as [|[k' v'] d IH]; simpl; [intros _ H; by apply elem_of_nil in H|].
  intros [Hk Hnd]%NoDup_cons [E|Hin]%elem_of_cons; [simplify_eq; by case_decide|].
  case_decide; [|auto]. subst. exfalso. apply Hk. apply list_elem_of_fmap. by exists (k', v).
Qed.

Lemma dict_get_set d k v k' :
  dict_get (dict_set d k v) k' = if decide (k' = k) then Some v else dict_get d k'.
Proof.
  induction d as [|[k0 v0] d IH]; simpl; [done|].
  repeat (case_decide; simpl; subst); try done; congruence.
Qed.

Lemma dict_set_keys d k v :
  (dict_set d k v).*1 = if bool_decide (k ∈ d.*1) then d.*1 else d.*1 ++ [k].
Proof.
  induction d as [|[k0 v0] d IH]; [done|]. cbn [dict_set].
  rewrite (bool_decide_ext (k ∈ ((k0, v0) :: d).*1) (k = k0 ∨ k ∈ d.*1))
    by (rewrite fmap_cons; apply elem_of_cons).
  destruct (decide (k = k0)) as [->|Hk]; rewrite !fmap_cons; cbn [fst].
  - rewrite bool_decide_eq_true_2; auto.
  - rewrite IH, (bool_decide_ext (k = k0 ∨ k ∈ d.*1) (k ∈ d.*1)) by tauto.
    by case_bool_decide.
Qed.

Lemma dict_set_NoDup d k v : NoDup d.*1 → NoDup (dict_set d k v).*1.
Proof.
  intros Hnd. rewrite dict_set_keys. case_bool_decide; [done|].
  apply NoDup_app. split_and!; [done| |apply NoDup_singleton].
  intros x Hx ->%list_elem_of_singleton. done.
Qed.

Lemma dict_del_keys d k : NoDup d.*1 → (dict_del d k).*1 = filter (λ k', k' ≠ k) d.*1.
Proof.
  induction d as [|[k0 v0] d IH]; [done|]. rewrite fmap_cons. cbn [fst dict_del].
  intros [Hk Hnd]%NoDup_cons. destruct (decide (k = k0)) as [->|Hk0].
  - rewrite filter_cons_False by auto. symmetry.
    apply filter_id. by intros x Hx ->.
  - rewrite filter_cons_True by auto. rewrite fmap_cons. cbn [fst]. by rewrite IH.
Qed.

Lemma dict_del_NoDup d k : NoDup d.*1 → NoDup (dict_del d k).*1.
Proof. intros Hnd. rewrite dict_del_keys by done. by apply NoDup_filter. Qed.

Lemma dict_get_del d k k' :
  NoDup d.*1 → dict_get (dict_del d k) k' = if decide (k' = k) then None else dict_get d k'.
Proof.
  induction d as [|[k0 v0] d IH]; cbn [dict_get dict_del].
  { intros _. by destruct (decide (k' = k)). }
  rewrite fmap_cons. cbn [fst]. intros [Hk Hnd]%NoDup_cons.
  destruct (decide (k = k0)) as [->|Hk0]; cbn [dict_get].
  - destruct (decide (k' = k0)) as [->|]; [|done]. by apply dict_get_None.
  - rewrite IH by done. destruct (decide (k' = k0)) as [->|]; [|done].
    by rewrite decide_False by congruence.
Qed.

Lemma dict_elem_del d k k' v :
  NoDup d.*1 → (k', v) ∈ dict_del d k ↔ k' ≠ k ∧ (k', v) ∈ d.
Proof.
  intros Hnd. split.
  - intros Hin. apply dict_get_elem in Hin; [|by apply dict_del_NoDup].
    rewrite dict_get_del in Hin by done. case_decide; [done|].
    split; [done|]. by apply dict_get_Some.
  - intros [Hne Hin]. apply dict_get_Some. rewrite dict_get_del by done.
    rewrite decide_False by done. by apply dict_get_elem.
Qed.

Lemma dict_del_perm d k v : dict_get d k = Some v → d ≡ₚ (k, v) :: dict_del d k.
Proof.
  induction d as [|[k' v'] d IH]; [done|]. cbn [dict_get dict_del].
  destruct (decide (k = k')) as [->|]; [by intros [= ->]|]. intros Hd. rewrite (IH Hd) at 1. apply Permutation_swap.
Qed.

Lemma dict_set_fresh d k v : k ∉ d.*1 → dict_set d k v = d ++ [(k, v)].
Proof.
  induction d as [|[k' v'] d IH]; [done|]. rewrite fmap_cons. intros [Hne Hk]%not_elem_of_cons.
  cbn [dict_set]. rewrite decide_False by done. by rewrite IH.
Qed.
End dict.

(** ** Hint databases *)

Create HintDb py_arith.
#[export] Hint Resolve cdiv_nonneg cdiv_mono : py_arith.
Create HintDb heap.
