(* ===== verification/FreeQueue.v ===== *)
(** * The free block queue

    [vllm/v1/core/kv_cache_utils.py]: the [KVCacheBlock] objects and
    [FreeKVCacheBlockQueue], the doubly linked list of free blocks that is
    threaded through the [prev_free_block]/[next_free_block] fields of the
    blocks.  Objects live in a store indexed by locations, so that the aliasing
    the Python code relies on (the pool's block table, the request's block
    lists and the queue all share the same objects) is explicit.

    The theorems relate every operation to the same operation on a plain list
    of locations (the abstract queue). *)

From stdpp Require Import base functions list gmap.
From Stdlib Require Import ZArith Lia.
From S2P Require Import Prelude.

(** ** Objects *)

Abbreviation loc := nat (only parsing).
Abbreviation bytes := (list Z) (only parsing).
Abbreviation BlockHash := bytes (only parsing).
Abbreviation BlockHashWithGroupId := bytes (only parsing).

Record KVCacheBlock := mkBlock {
  block_id : Z;
  ref_cnt : Z;
  _block_hash : option BlockHashWithGroupId;
  prev_free_block : option loc;
  next_free_block : option loc;
  is_null : bool
}.

Definition new_KVCacheBlock (id : Z) : KVCacheBlock :=
  mkBlock id 0 None None None false.

#[export] Instance KVCacheBlock_inhabited : Inhabited KVCacheBlock :=
  populate (new_KVCacheBlock (-1)).

Definition with_ref_cnt (n : Z) (k : KVCacheBlock) : KVCacheBlock :=
  mkBlock (block_id k) n (_block_hash k) (prev_free_block k)
    (next_free_block k) (is_null k).
Definition with_hash (h : option BlockHashWithGroupId) (k : KVCacheBlock) :=
  mkBlock (block_id k) (ref_cnt k) h (prev_free_block k)
    (next_free_block k) (is_null k).
Definition with_prev (p : option loc) (k : KVCacheBlock) :=
  mkBlock (block_id k) (ref_cnt k) (_block_hash k) p
    (next_free_block k) (is_null k).
Definition with_next (n : option loc) (k : KVCacheBlock) :=
  mkBlock (block_id k) (ref_cnt k) (_block_hash k) (prev_free_block k)
    n (is_null k).
Definition with_null (b : bool) (k : KVCacheBlock) :=
  mkBlock (block_id k) (ref_cnt k) (_block_hash k) (prev_free_block k)
    (next_free_block k) b.

(** The store of block objects together with the queue's own attributes. *)
Record FreeKVCacheBlockQueue := mkQueue {
  objs : gmap loc KVCacheBlock;
  next_loc : loc;
  num_free_blocks : Z;
  fake_free_list_head : loc;
  fake_free_list_tail : loc
}.
Abbreviation fq := FreeKVCacheBlockQueue.

Definition block (s : fq) (b : loc) : KVCacheBlock := objs s !!! b.

Definition upd_block (b : loc) (f : KVCacheBlock → KVCacheBlock) (s : fq) : fq :=
  mkQueue (<[b := f (block s b)]> (objs s)) (next_loc s) (num_free_blocks s)
    (fake_free_list_head s) (fake_free_list_tail s).
Definition upd_num (f : Z → Z) (s : fq) : fq :=
  mkQueue (objs s) (next_loc s) (f (num_free_blocks s))
    (fake_free_list_head s) (fake_free_list_tail s).
Definition set_fakes (h t : loc) (s : fq) : fq :=
  mkQueue (objs s) (next_loc s) (num_free_blocks s) h t.

(** [KVCacheBlock(block_id=id)]: a new object at a location not used before. *)
Definition alloc_block (id : Z) : M fq loc := λ s,
  (Ok (next_loc s),
   mkQueue (<[next_loc s := new_KVCacheBlock id]> (objs s)) (S (next_loc s))
     (num_free_blocks s) (fake_free_list_head s) (fake_free_list_tail s)).

(** Attribute reads and writes. *)
Definition get_prev (b : loc) : M fq (option loc) :=
  gets (λ s, prev_free_block (block s b)).
Definition get_next (b : loc) : M fq (option loc) :=
  gets (λ s, next_free_block (block s b)).
Definition set_prev (b : loc) (p : option loc) : M fq unit :=
  modify (upd_block b (with_prev p)).
Definition set_next (b : loc) (n : option loc) : M fq unit :=
  modify (upd_block b (with_next n)).

(** [block_hash.setter] asserts that the block has no hash yet. *)
Definition set_block_hash (b : loc) (h : BlockHashWithGroupId) : M fq unit :=
  old ← gets (λ s, _block_hash (block s b));
  assert_ (bool_decide (old = None)) ;;
  modify (upd_block b (with_hash (Some h))).
Definition reset_hash (b : loc) : M fq unit :=
  modify (upd_block b (with_hash None)).

(** ** Queue operations *)

Definition init_links (blocks : list loc) : M fq unit :=
  for_each (seq 0 (length blocks)) (λ i,
    (if bool_decide (0 < i)
     then set_prev (blocks !!! i) (Some (blocks !!! (i - 1))) else mret tt) ;;
    (if bool_decide (i < length blocks - 1)
     then set_next (blocks !!! i) (Some (blocks !!! (i + 1))) else mret tt)).

Definition FreeKVCacheBlockQueue_init (blocks : list loc) : M fq unit :=
  modify (upd_num (λ _, Z.of_nat (length blocks))) ;;
  init_links blocks ;;
  h ← alloc_block (-1);
  t ← alloc_block (-1);
  modify (set_fakes h t) ;;
  match blocks, last blocks with
  | b0 :: _, Some bl =>
      set_next h (Some b0) ;;
      set_prev b0 (Some h) ;;
      set_prev t (Some bl) ;;
      set_next bl (Some t)
  | _, _ =>
      set_next h (Some t) ;;
      set_prev t (Some h)
  end.

Definition popleft : M fq loc :=
  h ← gets fake_free_list_head;
  t ← gets fake_free_list_tail;
  first ← get_next h;
  match first with
  | None =>
      n ← gets num_free_blocks;
      assert_ (bool_decide (n = 0%Z)) ;; raise ValueError
  | Some first_block =>
      if bool_decide (first_block = t) then
        n ← gets num_free_blocks;
        assert_ (bool_decide (n = 0%Z)) ;; raise ValueError
      else
        second ← get_next first_block;
        match second with
        | None => raise RuntimeError
        | Some second_block =>
            set_next h (Some second_block) ;;
            set_prev second_block (Some h) ;;
            set_prev first_block None ;;
            set_next first_block None ;;
            modify (upd_num (λ n, n - 1)%Z) ;;
            mret first_block
        end
  end.

(** The body of [for _ in range(n)] in [popleft_n]; the loop variables are the
    current block and the list of popped blocks. *)
Definition popleft_n_body (acc : option loc * list loc) (_ : nat)
    : M fq (option loc * list loc) :=
  match acc with
  | (None, _) => raise AssertionError
  | (Some curr, ret) =>
      nxt ← get_next curr;
      set_prev curr None ;;
      set_next curr None ;;
      mret (nxt, ret ++ [curr])
  end.

Definition popleft_n (n : Z) : M fq (list loc) :=
  if bool_decide (n = 0%Z) then mret []
  else
    nf ← gets num_free_blocks;
    assert_ (bool_decide (n ≤ nf)%Z) ;;
    modify (upd_num (λ m, m - n)%Z) ;;
    h ← gets fake_free_list_head;
    curr ← get_next h;
    r ← fold_each (seq 0 (Z.to_nat n)) (curr, []) popleft_n_body;
    match r with
    | (Some curr_block, ret) =>
        set_next h (Some curr_block) ;;
        set_prev curr_block (Some h) ;;
        mret ret
    | (None, ret) => mret ret
    end.

Definition remove (b : loc) : M fq unit :=
  p ← get_prev b;
  n ← get_next b;
  match p, n with
  | Some p, Some n =>
      set_next p (Some n) ;;
      set_prev n (Some p) ;;
      set_prev b None ;;
      set_next b None ;;
      modify (upd_num (λ m, m - 1)%Z)
  | _, _ => raise RuntimeError
  end.

Definition append (b : loc) : M fq unit :=
  t ← gets fake_free_list_tail;
  lastb ← get_prev t;
  match lastb with
  | None => raise RuntimeError
  | Some last_block =>
      set_next last_block (Some b) ;;
      set_prev b (Some last_block) ;;
      set_next b (Some t) ;;
      set_prev t (Some b) ;;
      modify (upd_num (λ m, m + 1)%Z)
  end.

Definition append_n (blocks : list loc) : M fq unit :=
  if bool_decide (length blocks = 0) then mret tt
  else
    t ← gets fake_free_list_tail;
    lastb ← get_prev t;
    match lastb with
    | None => raise AssertionError
    | Some last0 =>
        last_block ← fold_each blocks last0 (λ last_block b,
          set_prev b (Some last_block) ;;
          set_next last_block (Some b) ;;
          mret b);
        set_next last_block (Some t) ;;
        set_prev t (Some last_block) ;;
        modify (upd_num (λ m, m + Z.of_nat (length blocks))%Z)
    end.

(** [get_all_free_blocks] walks the list until a block without successor; the
    walk is bounded by [fuel] here. *)
Fixpoint walk (fuel : nat) (s : fq) (curr : loc) (ret : list loc) : res (list loc) :=
  match fuel with
  | O => Err OutOfFuel
  | S fuel =>
      match next_free_block (block s curr) with
      | None => Ok ret
      | Some nxt => walk fuel s nxt (ret ++ [curr])
      end
  end.

Definition get_all_free_blocks (fuel : nat) : M fq (list loc) :=
  h ← gets fake_free_list_head;
  first ← get_next h;
  match first with
  | None => raise RuntimeError
  | Some curr => r ← gets (λ s, walk fuel s curr []); lift_res r
  end.

(** ** Link structure *)

(** The two link fields seen as functions; writes to the store become function
    updates. *)
Definition nx (s : fq) : loc → option loc := λ b, next_free_block (block s b).
Definition pv (s : fq) : loc → option loc := λ b, prev_free_block (block s b).

(** [seg n p a l z]: following [n] from [a] visits [l] and then reaches [z],
    and [p] is the inverse walk. *)
Fixpoint seg (n p : loc → option loc) (a : loc) (l : list loc) (z : loc) : Prop :=
  match l with
  | [] => n a = Some z ∧ p z = Some a
  | b :: r => n a = Some b ∧ p b = Some a ∧ seg n p b r z
  end.

Lemma NoDup_middle (l1 l2 : list loc) x :
  NoDup (l1 ++ x :: l2) ↔ (x ∉ l1 ∧ x ∉ l2) ∧ NoDup (l1 ++ l2).
Proof. by rewrite <-Permutation_middle, NoDup_cons, not_elem_of_app. Qed.

(** Membership and duplicate-freedom facts about concrete list shapes: pull
    the named elements out of the list, then decide by congruence. *)
Ltac nodup :=
  repeat (progress (rewrite <-?app_assoc in *; simpl app in *));
  repeat match goal with
    | H : NoDup (_ :: _) |- _ => apply NoDup_cons in H as [? ?]
    | H : NoDup (_ ++ _ :: _) |- _ => apply NoDup_middle in H as [[? ?] ?]
    | H : NoDup (_ ++ _ ++ _) |- _ => rewrite app_assoc in H
    | H : _ ∉ _ :: _ |- _ => apply not_elem_of_cons in H as [? ?]
    | H : _ ∉ _ ++ _ |- _ => apply not_elem_of_app in H as [? ?]
    end;
  repeat match goal with
    | |- context [_ ∉ _ ++ _] => rewrite not_elem_of_app
    | |- context [_ ∉ _ :: _] => rewrite not_elem_of_cons
    | |- context [NoDup (_ :: _)] => rewrite NoDup_cons
    | |- context [NoDup (_ ++ _ :: _)] => rewrite NoDup_middle
    | |- context [NoDup (_ ++ _ ++ _)] => rewrite app_assoc
    end;
  repeat split; auto using not_elem_of_nil; try congruence.

Section seg_lemmas.
Implicit Types n p : loc → option loc.

Lemma seg_app n p a l1 b l2 z :
  seg n p a (l1 ++ b :: l2) z ↔ seg n p a l1 b ∧ seg n p b l2 z.
Proof. revert a. induction l1 as [|c l1 IH]; intros a; simpl; [tauto|]. rewrite IH. tauto. Qed.

Lemma seg_frame n p n' p' a l z :
  seg n p a l z →
  (∀ b, b ∈ a :: l → n' b = n b) → (∀ b, b ∈ l ++ [z] → p' b = p b) →
  seg n' p' a l z.
Proof.
  revert a. induction l as [|c l IH]; intros a H Hn Hp; simpl in *.
  - rewrite Hn, Hp by set_solver. done.
  - destruct H as (H1 & H2 & H3). rewrite Hn, Hp by set_solver.
    repeat split; try done. apply IH; set_solver.
Qed.

Lemma seg_first n p a l z : seg n p a l z → n a = Some (hd z l).
Proof. destruct l; simpl; tauto. Qed.

Lemma seg_last n p a l z : seg n p a l z → p z = last (a :: l).
Proof.
  destruct l as [|c l _] using rev_ind; [by intros []|].
  intros (_ & _ & H)%seg_app. by rewrite app_comm_cons, last_snoc.
Qed.

Lemma seg_mem n p a l z b :
  seg n p a l z → b ∈ l → is_Some (n b) ∧ is_Some (p b).
Proof.
  revert a. induction l as [|c l IH]; intros a H Hb; [set_solver|].
  destruct H as (H1 & H2 & H3). apply elem_of_cons in Hb as [->|Hb].
  - rewrite H2, (seg_first _ _ _ _ _ H3). eauto.
  - by apply (IH c).
Qed.

Lemma seg_upd_next n p a l z q v :
  seg n p a l z → q ∉ a :: l → seg (<[q := v]> n) p a l z.
Proof.
  intros H Hq. eapply seg_frame; [done| |done].
  intros b Hb. apply fn_lookup_insert_ne. by intros ->.
Qed.

Lemma seg_upd_prev n p a l z r v :
  seg n p a l z → r ∉ l ++ [z] → seg n (<[r := v]> p) a l z.
Proof.
  intros H Hq. eapply seg_frame; [done|done|].
  intros b Hb. apply fn_lookup_insert_ne. by intros ->.
Qed.

(** Joining two segments across a pair of writes. *)
Lemma seg_link n p a l1 q r l2 z :
  seg n p a l1 q → seg n p r l2 z →
  q ∉ a :: l1 → r ∉ l1 ++ [q] → q ∉ r :: l2 → r ∉ l2 ++ [z] →
  seg (<[q := Some r]> n) (<[r := Some q]> p) a (l1 ++ q :: r :: l2) z.
Proof.
  intros. rewrite !seg_app. simpl. rewrite !fn_lookup_insert.
  repeat split; auto using seg_upd_next, seg_upd_prev.
Qed.

Lemma seg_link_nil n p q r l2 z :
  seg n p r l2 z → q ∉ r :: l2 → r ∉ l2 ++ [z] →
  seg (<[q := Some r]> n) (<[r := Some q]> p) q (r :: l2) z.
Proof.
  intros. simpl. rewrite !fn_lookup_insert.
  repeat split; auto using seg_upd_next, seg_upd_prev.
Qed.

Lemma seg_link_end n p a l1 q z :
  seg n p a l1 q → q ∉ a :: l1 → z ∉ l1 ++ [q] →
  seg (<[q := Some z]> n) (<[z := Some q]> p) a (l1 ++ [q]) z.
Proof.
  intros. rewrite seg_app. simpl. rewrite !fn_lookup_insert.
  repeat split; auto using seg_upd_next, seg_upd_prev.
Qed.

(** Unlinking [b] from between its neighbours. *)
Lemma seg_unlink n p a l1 b l2 z q r :
  seg n p a (l1 ++ b :: l2) z → NoDup (a :: l1 ++ b :: l2 ++ [z]) →
  p b = Some q → n b = Some r →
  seg (<[q := Some r]> n) (<[r := Some q]> p) a (l1 ++ l2) z.
Proof.
  rewrite seg_app. intros [H1 H2] Hnd Hq Hr.
  pose proof (seg_first _ _ _ _ _ H2) as Hr'. rewrite Hr in Hr'. simplify_eq.
  destruct l1 as [|c l1 _] using rev_ind.
  - destruct H1 as [_ H1]. rewrite Hq in H1. simplify_eq.
    destruct l2 as [|d l2].
    + simpl. by rewrite !fn_lookup_insert.
    + destruct H2 as (_ & _ & H2). apply seg_link_nil; [done|nodup..].
  - apply seg_app in H1 as [H0 [_ H1]]. rewrite Hq in H1. simplify_eq.
    destruct l2 as [|d l2].
    + rewrite app_nil_r. apply seg_link_end; [done|nodup..].
    + destruct H2 as (_ & _ & H2). rewrite <-app_assoc.
      apply seg_link; [done|done|nodup..].
Qed.

(** Linking a new [b] before the end [z]. *)
Lemma seg_snoc n p a l z b q :
  seg n p a l z → NoDup (a :: l ++ [z]) → b ∉ a :: l ++ [z] → p z = Some q →
  seg (<[b := Some z]> (<[q := Some b]> n)) (<[z := Some b]> (<[b := Some q]> p))
    a (l ++ [b]) z.
Proof.
  intros H Hnd Hb Hq. apply seg_link_end; [|nodup..].
  destruct l as [|c l _] using rev_ind.
  - destruct H as [_ H]. rewrite Hq in H. simplify_eq. simpl.
    by rewrite !fn_lookup_insert.
  - apply seg_app in H as [H0 [_ H]]. rewrite Hq in H. simplify_eq.
    apply seg_link_end; [done|nodup..].
Qed.
End seg_lemmas.

(** The links of a well-formed queue: a segment from the fake head to the fake
    tail, and no link outside it. *)
Record linked (n p : loc → option loc) (h : loc) (l : list loc) (t : loc) : Prop := {
  linked_seg : seg n p h l t;
  linked_nodup : NoDup (h :: l ++ [t]);
  linked_tail : n t = None;
  linked_head : p h = None;
  linked_out : ∀ b, b ∉ h :: l ++ [t] → n b = None ∧ p b = None
}.

Ltac fn_cases :=
  unfold insert, fn_insert in *; repeat case_decide; try congruence.

Lemma seg_ext n p n' p' a l z :
  seg n p a l z → (∀ x, n' x = n x) → (∀ x, p' x = p x) → seg n' p' a l z.
Proof. intros H Hn Hp. eapply seg_frame; eauto. Qed.

Lemma linked_unlink n p n' p' h l1 b l2 t q r :
  linked n p h (l1 ++ b :: l2) t → p b = Some q → n b = Some r →
  (∀ x, n' x = (<[b := None]> (<[q := Some r]> n) : loc → option loc) x) →
  (∀ x, p' x = (<[b := None]> (<[r := Some q]> p) : loc → option loc) x) →
  linked n' p' h (l1 ++ l2) t.
Proof.
  intros [Hs Hnd Ht Hh Ho] Hq Hr Hn Hp.
  rewrite <-app_assoc in Hnd. simpl in Hnd.
  pose proof (seg_unlink _ _ _ _ _ _ _ _ _ Hs Hnd Hq Hr) as Hs'.
  apply seg_app in Hs as [Hs1 Hs2].
  apply seg_last in Hs1 as Hq'. rewrite Hq in Hq'.
  apply seg_first in Hs2 as Hr'. rewrite Hr in Hr'.
  assert (Hqin : q ∈ h :: l1).
  { symmetry in Hq'. apply last_Some in Hq' as [? ->]. set_solver. }
  assert (Hrin : r ∈ l2 ++ [t]) by (injection Hr' as ->; destruct l2; set_solver).
  assert (Hb : b ∉ h :: l1 ∧ b ∉ l2 ++ [t]) by nodup.
  assert (Hqt : q ≠ t ∧ r ≠ h).
  { split; intros ->; [assert (t ∉ h :: l1) by nodup|assert (h ∉ l2 ++ [t]) by nodup]; done. }
  destruct Hb as [Hb1 Hb2], Hqt as [Hqt Hrh].
  split.
  - eapply seg_ext; [|done..].
    apply seg_upd_next; [apply seg_upd_prev; [done|]|]; nodup.
  - nodup.
  - rewrite Hn. fn_cases.
  - rewrite Hp. fn_cases.
  - intros x Hx. rewrite Hn, Hp.
    assert (x = b ∨ x ∉ h :: (l1 ++ b :: l2) ++ [t]) as Hx'
      by (destruct (decide (x = b)); [by left|right; nodup]).
    assert (x ≠ q ∧ x ≠ r) as [] by (split; intros ->; set_solver).
    destruct Hx' as [->|Hx']; [fn_cases; done|].
    destruct (Ho x Hx') as [??]. fn_cases; done.
Qed.

Lemma linked_snoc n p n' p' h l t b q :
  linked n p h l t → b ∉ h :: l ++ [t] → p t = Some q →
  (∀ x, n' x = (<[b := Some t]> (<[q := Some b]> n) : loc → option loc) x) →
  (∀ x, p' x = (<[t := Some b]> (<[b := Some q]> p) : loc → option loc) x) →
  linked n' p' h (l ++ [b]) t.
Proof.
  intros [Hs Hnd Ht Hh Ho] Hb Hq Hn Hp.
  assert (Hqin : q ∈ h :: l).
  { apply seg_last in Hs. rewrite Hq in Hs. symmetry in Hs.
    apply last_Some in Hs as [? ->]. set_solver. }
  assert (q ≠ t) by (intros ->; assert (t ∉ h :: l) by nodup; done).
  assert (b ≠ t ∧ b ≠ h ∧ h ≠ t) as (? & ? & ?) by nodup.
  split.
  - eapply seg_ext; [by eapply seg_snoc|done..].
  - nodup.
  - rewrite Hn. fn_cases.
  - rewrite Hp. fn_cases.
  - intros x Hx. rewrite Hn, Hp.
    assert (x ≠ b ∧ x ≠ t ∧ x ∉ h :: l ++ [t]) as (? & ? & Hx') by nodup.
    assert (x ≠ q) by (intros ->; set_solver).
    destruct (Ho x Hx') as [??]. fn_cases; done.
Qed.

(** ** Representation of an abstract queue *)

(** Everything but the links: what the queue operations never touch. *)
Definition meta (k : KVCacheBlock) :=
  (block_id k, ref_cnt k, _block_hash k, is_null k).

Record same_meta (s s' : fq) : Prop := {
  sm_head : fake_free_list_head s' = fake_free_list_head s;
  sm_tail : fake_free_list_tail s' = fake_free_list_tail s;
  sm_next : next_loc s' = next_loc s;
  sm_meta : ∀ b, meta (block s' b) = meta (block s b)
}.

#[export] Instance same_meta_refl : Reflexive same_meta.
Proof. by split. Qed.
#[export] Instance same_meta_trans : Transitive same_meta.
Proof. intros s1 s2 s3 [] []. split; congruence. Qed.

Record rep (s : fq) (l : list loc) : Prop := {
  rep_linked : linked (nx s) (pv s) (fake_free_list_head s) l (fake_free_list_tail s);
  rep_num : num_free_blocks s = Z.of_nat (length l)
}.

Lemma block_upd s b f x :
  block (upd_block b f s) x = if decide (b = x) then f (block s b) else block s x.
Proof.
  unfold block, upd_block. simpl. case_decide; subst.
  - apply lookup_total_insert_eq.
  - by apply lookup_total_insert_ne.
Qed.

Lemma nx_upd s b f x :
  nx (upd_block b f s) x =
  if decide (b = x) then next_free_block (f (block s b)) else nx s x.
Proof. unfold nx. rewrite block_upd. by case_decide. Qed.
Lemma pv_upd s b f x :
  pv (upd_block b f s) x =
  if decide (b = x) then prev_free_block (f (block s b)) else pv s x.
Proof. unfold pv. rewrite block_upd. by case_decide. Qed.
Lemma nx_num s f x : nx (upd_num f s) x = nx s x.
Proof. done. Qed.
Lemma pv_num s f x : pv (upd_num f s) x = pv s x.
Proof. done. Qed.
Lemma block_num s f x : block (upd_num f s) x = block s x.
Proof. done. Qed.

#[export] Hint Rewrite block_upd nx_upd pv_upd nx_num pv_num block_num : heap.

Lemma nx_block s b : next_free_block (block s b) = nx s b.
Proof. done. Qed.
Lemma pv_block s b : prev_free_block (block s b) = pv s b.
Proof. done. Qed.

(** Decide an equation between link or metadata reads of updated stores. *)
Ltac heap_eq :=
  intros; unfold insert, fn_insert; autorewrite with heap; simpl;
  rewrite ?nx_block, ?pv_block in *;
  repeat (case_decide; subst; simpl; rewrite ?nx_block, ?pv_block in * );
  try congruence; try done.

Lemma meta_next k o : meta (with_next o k) = meta k. Proof. done. Qed.
Lemma meta_prev k o : meta (with_prev o k) = meta k. Proof. done. Qed.

Lemma same_meta_upd s b f : (∀ k, meta (f k) = meta k) → same_meta s (upd_block b f s).
Proof. intros Hf. split; try done. intros x. rewrite block_upd. case_decide; subst; auto. Qed.
Lemma same_meta_num s f : same_meta s (upd_num f s).
Proof. by split. Qed.

Ltac same_meta_tac :=
  repeat first
    [ reflexivity
    | apply same_meta_num
    | apply same_meta_upd; done
    | etransitivity; [| apply same_meta_num]
    | etransitivity; [| apply same_meta_upd; done] ].

(** ** Operation specifications *)

Ltac fq_steps :=
  unfold get_prev, get_next, set_prev, set_next, set_block_hash, reset_hash in *;
  wp_steps; rewrite ?nx_block, ?pv_block.

Section specs.
Implicit Types (s : fq) (l : list loc) (b : loc).

Lemma rep_mem s l b : rep s l → b ∈ l → is_Some (nx s b) ∧ is_Some (pv s b).
Proof. intros [[] _]. by eapply seg_mem. Qed.

Lemma rep_not_ends s l b :
  rep s l → b ∈ l → b ≠ fake_free_list_head s ∧ b ≠ fake_free_list_tail s.
Proof.
  intros [[_ Hnd _ _ _] _] [l1 [l2 ->]]%list_elem_of_split. nodup.
Qed.

Lemma rep_NoDup s l : rep s l → NoDup l.
Proof. intros [[_ Hnd _ _ _] _]. apply NoDup_cons in Hnd as [_ Hnd]. apply NoDup_app in Hnd. tauto. Qed.

Lemma remove_spec s l1 b l2 :
  rep s (l1 ++ b :: l2) →
  wp (remove b) (λ _ s', rep s' (l1 ++ l2) ∧ same_meta s s') no_exn s.
Proof.
  intros Hrep. pose proof (rep_mem s _ b Hrep ltac:(set_solver)) as [[r Hr] [q Hq]].
  destruct Hrep as [Hl Hn]. unfold remove. fq_steps. rewrite Hq, Hr. fq_steps.
  split; [split|same_meta_tac].
  - eapply linked_unlink; [exact Hl|done|done|..]; heap_eq.
  - simpl. rewrite Hn, !length_app. simpl. lia.
Qed.

Lemma remove_invalid s l b :
  rep s l → b ∉ l → remove b s = (Err RuntimeError, s).
Proof.
  intros [[_ _ Ht Hh Ho] _] Hb.
  assert (nx s b = None ∨ pv s b = None) as H.
  { destruct (decide (b = fake_free_list_head s)) as [->|]; [by right|].
    destruct (decide (b = fake_free_list_tail s)) as [->|]; [by left|].
    left. apply Ho. nodup. }
  unfold remove, get_prev, get_next, gets, mbind, M_bind.
  rewrite nx_block, pv_block. destruct H as [->| ->]; [|done]. by destruct (pv s b).
Qed.

(** [popleft] on a non-empty queue performs the same writes as [remove] on
    its first block. *)
Lemma popleft_remove s x l :
  rep s (x :: l) → popleft s = (Ok x, (remove x s).2).
Proof.
  intros Hrep. pose proof (rep_not_ends s _ x Hrep ltac:(set_solver)) as [_ Hx].
  destruct Hrep as [[(H1 & H2 & H3) _ _ _ _] _]. apply seg_first in H3.
  unfold popleft, remove, get_prev, get_next, set_prev, set_next, gets, modify,
    mbind, M_bind.
  rewrite !nx_block, !pv_block, H1, H2, bool_decide_eq_false_2 by done.
  by rewrite nx_block, H3.
Qed.

Lemma popleft_spec s x l :
  rep s (x :: l) →
  wp popleft (λ y s', y = x ∧ rep s' l ∧ same_meta s s') no_exn s.
Proof.
  intros Hrep. unfold wp. rewrite (popleft_remove s x l) by done.
  apply (remove_spec s [] x l) in Hrep. apply wp_no_exn_run in Hrep as (? & s' & E & ?).
  by rewrite E.
Qed.

Lemma popleft_empty s : rep s [] → popleft s = (Err ValueError, s).
Proof.
  intros [[[H1 H2] _ _ _ _] Hn]. unfold popleft, get_next, gets, mbind, M_bind.
  rewrite nx_block, H1, bool_decide_eq_true_2 by done. by rewrite Hn.
Qed.

Lemma append_spec s l b :
  rep s l → b ∉ l → b ≠ fake_free_list_head s → b ≠ fake_free_list_tail s →
  wp (append b) (λ _ s', rep s' (l ++ [b]) ∧ same_meta s s') no_exn s.
Proof.
  intros [Hl Hn] Hb Hh Ht. unfold append. fq_steps.
  pose proof (seg_last _ _ _ _ _ (linked_seg _ _ _ _ _ Hl)) as Hq.
  destruct (last (fake_free_list_head s :: l)) as [q|] eqn:E;
    [|by apply last_None in E].
  rewrite Hq. fq_steps.
  assert (q ≠ fake_free_list_tail s).
  { apply last_Some in E as [l' E]. pose proof (linked_nodup _ _ _ _ _ Hl) as Hnd.
    rewrite app_comm_cons, E in Hnd. nodup. }
  assert (b ≠ q) by (apply last_Some in E as [l' E]; assert (q ∈ fake_free_list_head s :: l)
    by (rewrite E; set_solver); set_solver).
  split; [split|same_meta_tac].
  - eapply linked_snoc; [exact Hl|set_solver|exact Hq|..]; heap_eq.
  - simpl. rewrite Hn, length_app. simpl. lia.
Qed.
End specs.

Definition linkedS (s : fq) (l : list loc) : Prop :=
  linked (nx s) (pv s) (fake_free_list_head s) l (fake_free_list_tail s).

(** The store in which the fake head is connected to the first block of [l]. *)
Definition relink (s : fq) (l : list loc) : fq :=
  upd_block (hd (fake_free_list_tail s) l) (with_prev (Some (fake_free_list_head s)))
    (upd_block (fake_free_list_head s)
       (with_next (Some (hd (fake_free_list_tail s) l))) s).

Section loops.
Implicit Types (s : fq) (l : list loc) (b : loc).

Lemma relink_id s l : linkedS s l → linkedS (relink s l) l.
Proof.
  intros Hl. pose proof (seg_first _ _ _ _ _ (linked_seg _ _ _ _ _ Hl)) as H1.
  assert (pv s (hd (fake_free_list_tail s) l) = Some (fake_free_list_head s)) as H2.
  { destruct l; apply (linked_seg _ _ _ _ _ Hl). }
  destruct Hl as [Hs Hnd Ht Hh Ho].
  assert (∀ x, nx (relink s l) x = nx s x) as Hn by (unfold relink; heap_eq).
  assert (∀ x, pv (relink s l) x = pv s x) as Hp by (unfold relink; heap_eq).
  split; simpl; try done.
  - by eapply seg_ext.
  - by rewrite Hn.
  - by rewrite Hp.
  - intros b Hb. rewrite Hn, Hp. auto.
Qed.

Lemma pop_step s x l :
  linkedS (relink s (x :: l)) (x :: l) →
  nx s x = Some (hd (fake_free_list_tail s) l) ∧
  linkedS (relink (upd_block x (with_next None) (upd_block x (with_prev None) s)) l) l.
Proof.
  intros Hl. pose proof (linked_seg _ _ _ _ _ Hl) as (_ & Hp & Hs).
  apply seg_first in Hs as Hn.
  pose proof (linked_nodup _ _ _ _ _ Hl) as Hnd. simpl in Hnd, Hp, Hn.
  assert (Hhx : fake_free_list_head s ≠ x) by nodup.
  assert (Hne : hd (fake_free_list_tail s) l ≠ x ∧
                hd (fake_free_list_tail s) l ≠ fake_free_list_head s)
    by (destruct l; nodup).
  assert (Hnx : nx s x = Some (hd (fake_free_list_tail s) l)).
  { rewrite <-Hn. unfold relink. heap_eq. }
  split; [done|]. destruct Hne.
  eapply (linked_unlink _ _ _ _ _ [] x l); [exact Hl|exact Hp|exact Hn|..];
    unfold relink; heap_eq.
Qed.

Lemma popleft_n_loop js ret s l :
  linkedS (relink s l) l → length js ≤ length l →
  wp (fold_each js (Some (hd (fake_free_list_tail s) l), ret) popleft_n_body)
    (λ r s', let l' := drop (length js) l in
       r = (Some (hd (fake_free_list_tail s) l'), ret ++ take (length js) l) ∧
       linkedS (relink s' l') l' ∧ same_meta s s' ∧
       num_free_blocks s' = num_free_blocks s) no_exn s.
Proof.
  revert ret s l. induction js as [|j js IH]; intros ret s l Hl Hlen; simpl.
  { fq_steps. by rewrite app_nil_r. }
  destruct l as [|x l]; simpl in Hlen; [lia|].
  apply pop_step in Hl as [Hx Hl]. unfold popleft_n_body at 1. simpl hd.
  fq_steps. rewrite Hx. eapply wp_mono; [apply (IH (ret ++ [x]) _ l Hl); lia| |done].
  intros r s' (-> & Hl' & Hm & Hnum). split_and!; try done.
  - by rewrite <-app_assoc.
  - etransitivity; [|exact Hm]. same_meta_tac.
Qed.

Lemma popleft_n_spec n s l :
  rep s l → n ≤ length l →
  wp (popleft_n (Z.of_nat n))
    (λ r s', r = take n l ∧ rep s' (drop n l) ∧ same_meta s s') no_exn s.
Proof.
  intros Hrep Hn. pose proof Hrep as [Hl Hnum]. unfold popleft_n.
  destruct (decide (n = 0)) as [->|Hn0]; [by rewrite bool_decide_eq_true_2|].
  rewrite bool_decide_eq_false_2 by lia. rewrite Nat2Z.id. fq_steps.
  apply wp_assert; [apply bool_decide_eq_true_2; lia|]. fq_steps.
  rewrite nx_num. cbn [fake_free_list_head upd_num].
  rewrite (seg_first _ _ _ _ _ (linked_seg _ _ _ _ _ Hl)).
  set (s1 := upd_num _ s). eapply wp_mono.
  { change (fake_free_list_tail s) with (fake_free_list_tail s1).
    apply (popleft_n_loop (seq 0 n) [] s1 l);
      [by apply (relink_id s1 l)|by rewrite length_seq]. }
  2: done.
  rewrite length_seq. intros r s' (-> & Hl' & Hm & Hnum'). fq_steps.
  assert (fake_free_list_head s = fake_free_list_head s' ∧
          fake_free_list_tail s1 = fake_free_list_tail s') as [-> ->].
  { by rewrite (sm_head _ _ Hm), (sm_tail _ _ Hm). }
  split_and!; [done| |].
  - split; [exact Hl'|]. simpl. rewrite Hnum', length_drop. simpl. lia.
  - transitivity s1; [same_meta_tac|]. etransitivity; [exact Hm|]. same_meta_tac.
Qed.

Lemma popleft_n_too_many n s l :
  rep s l → length l < n → popleft_n (Z.of_nat n) s = (Err AssertionError, s).
Proof.
  intros [_ Hnum] Hn. unfold popleft_n. rewrite bool_decide_eq_false_2 by lia.
  unfold gets, mbind, M_bind, assert_. by rewrite bool_decide_eq_false_2 by lia.
Qed.

(** The store in which [q] is connected to the fake tail. *)
Definition cap (s : fq) (q : loc) : fq :=
  upd_block (fake_free_list_tail s) (with_prev (Some q))
    (upd_block q (with_next (Some (fake_free_list_tail s))) s).

Lemma cap_id s l q :
  linkedS s l → pv s (fake_free_list_tail s) = Some q → linkedS (cap s q) l.
Proof.
  intros Hl Hq. pose proof (seg_last _ _ _ _ _ (linked_seg _ _ _ _ _ Hl)) as E.
  assert (nx s q = Some (fake_free_list_tail s)) as Hn.
  { rewrite Hq in E. destruct l as [|c l _] using rev_ind.
    - injection E as ->. apply (linked_seg _ _ _ _ _ Hl).
    - rewrite app_comm_cons, last_snoc in E. injection E as ->.
      pose proof (linked_seg _ _ _ _ _ Hl) as H. by apply seg_app in H as (_ & H & _). }
  destruct Hl as [Hs Hnd Ht Hh Ho].
  assert (∀ x, nx (cap s q) x = nx s x) as Hn' by (unfold cap; heap_eq).
  assert (∀ x, pv (cap s q) x = pv s x) as Hp' by (unfold cap; heap_eq).
  split; simpl; try done.
  - by eapply seg_ext.
  - by rewrite Hn'.
  - by rewrite Hp'.
  - intros b Hb. rewrite Hn', Hp'. auto.
Qed.

Lemma cap_step s l q b :
  linkedS (cap s q) l → b ∉ fake_free_list_head s :: l ++ [fake_free_list_tail s] →
  q ≠ fake_free_list_tail s → b ≠ q →
  linkedS (cap (upd_block q (with_next (Some b)) (upd_block b (with_prev (Some q)) s)) b)
    (l ++ [b]).
Proof.
  intros Hl Hb Hq Hbq. assert (b ≠ fake_free_list_tail s) by nodup.
  eapply (linked_snoc _ _ _ _ _ _ _ b q); [exact Hl|exact Hb|..];
    unfold cap; heap_eq.
Qed.

Lemma append_n_loop bs s l q :
  linkedS (cap s q) l → q ∈ fake_free_list_head s :: l →
  NoDup bs → (∀ b, b ∈ bs → b ∉ fake_free_list_head s :: l ++ [fake_free_list_tail s]) →
  wp (fold_each bs q (λ last_block b,
        set_prev b (Some last_block) ;; set_next last_block (Some b) ;; mret b))
    (λ q' s', linkedS (cap s' q') (l ++ bs) ∧ same_meta s s' ∧
       num_free_blocks s' = num_free_blocks s) no_exn s.
Proof.
  revert s l q. induction bs as [|b bs IH]; intros s l q Hl Hq Hnd Hbs; simpl.
  { fq_steps. by rewrite app_nil_r. }
  assert (Hb : b ∉ fake_free_list_head s :: l ++ [fake_free_list_tail s])
    by (apply Hbs; set_solver).
  pose proof (linked_nodup _ _ _ _ _ Hl) as Hnd'. simpl in Hnd'.
  assert (fake_free_list_tail s ∉ fake_free_list_head s :: l) by nodup.
  assert (q ≠ fake_free_list_tail s) by (by intros ->).
  assert (b ≠ q) by (intros ->; clear -Hb Hq; set_solver).
  fq_steps. rewrite (cons_middle b l bs), app_assoc.
  eapply wp_mono; [apply (IH _ (l ++ [b]) b)| |done].
  - by apply cap_step.
  - simpl. set_solver.
  - apply NoDup_cons in Hnd. tauto.
  - intros c Hc. simpl. specialize (Hbs c ltac:(set_solver)).
    assert (c ≠ b) by (intros ->; apply NoDup_cons in Hnd; tauto). nodup.
  - intros q' s' (? & Hm & ?). split_and!; try done.
    etransitivity; [|exact Hm]. same_meta_tac.
Qed.

Lemma append_n_spec bs s l :
  rep s l → NoDup bs →
  (∀ b, b ∈ bs → b ∉ fake_free_list_head s :: l ++ [fake_free_list_tail s]) →
  wp (append_n bs) (λ _ s', rep s' (l ++ bs) ∧ same_meta s s') no_exn s.
Proof.
  intros Hrep Hnd Hbs. pose proof Hrep as [Hl Hnum]. unfold append_n.
  destruct (decide (length bs = 0)) as [E0|E0].
  { apply nil_length_inv in E0 as ->. apply wp_ret. by rewrite app_nil_r. }
  rewrite bool_decide_eq_false_2 by done.
  fq_steps. pose proof (seg_last _ _ _ _ _ (linked_seg _ _ _ _ _ Hl)) as Hq.
  destruct (last (fake_free_list_head s :: l)) as [q|] eqn:E;
    [|by apply last_None in E].
  rewrite Hq. apply wp_bind. eapply wp_mono; [apply (append_n_loop bs s l q)| |done].
  - by apply cap_id.
  - apply last_Some in E as [l' ->]. set_solver.
  - done.
  - done.
  - intros q' s' (Hl' & Hm & Hnum'). fq_steps.
    rewrite <-(sm_tail _ _ Hm). split.
    + split; [exact Hl'|]. simpl. rewrite Hnum', length_app. lia.
    + etransitivity; [exact Hm|]. same_meta_tac.
Qed.

Lemma walk_spec s a l t fuel ret :
  seg (nx s) (pv s) a l t → nx s t = None → length l < fuel →
  walk fuel s (hd t l) ret = Ok (ret ++ l).
Proof.
  revert fuel ret a. induction l as [|x l IH]; intros fuel ret a Hs Ht Hf;
    (destruct fuel as [|fuel]; simpl in Hf; [lia|]); simpl.
  - rewrite nx_block, Ht. by rewrite app_nil_r.
  - destruct Hs as (_ & _ & Hs). rewrite nx_block, (seg_first _ _ _ _ _ Hs).
    rewrite (IH fuel _ x) by (done || lia). by rewrite <-app_assoc.
Qed.

Lemma get_all_free_blocks_spec s l fuel :
  rep s l → length l < fuel → get_all_free_blocks fuel s = (Ok l, s).
Proof.
  intros [Hl _] Hf. unfold get_all_free_blocks, get_next, gets, lift_res, mbind, M_bind.
  rewrite nx_block, (seg_first _ _ _ _ _ (linked_seg _ _ _ _ _ Hl)).
  by erewrite walk_spec; [|apply Hl|apply Hl|].
Qed.
End loops.

(** ** Construction *)

Section init.
Implicit Types (s : fq) (l : list loc) (b : loc).

Lemma seg_intro n p a l z :
  (∀ i x y, (a :: l ++ [z]) !! i = Some x → (a :: l ++ [z]) !! S i = Some y →
     n x = Some y ∧ p y = Some x) →
  seg n p a l z.
Proof.
  revert a. induction l as [|b l IH]; intros a H; simpl.
  - by apply (H 0).
  - destruct (H 0 a b) as [??]; [done..|]. split_and!; [done..|].
    apply IH. intros i. apply (H (S i)).
Qed.

Lemma seg_lookup n p a l z i x y :
  seg n p a l z → (a :: l ++ [z]) !! i = Some x → (a :: l ++ [z]) !! S i = Some y →
  n x = Some y ∧ p y = Some x.
Proof.
  revert a i. induction l as [|b l IH]; intros a i H Hx Hy; destruct i as [|i]; simpl in *.
  - by simplify_eq.
  - destruct i; simpl in *; by simplify_eq.
  - destruct H as (? & ? & _). by simplify_eq.
  - destruct H as (_ & _ & H). by eapply (IH b i).
Qed.

(** The links after the first [i] iterations of the constructor's loop. *)
Record init_inv (blocks : list loc) (s0 : fq) (i : nat) (s : fq) : Prop := {
  ii_in : ∀ j x, blocks !! j = Some x →
    pv s x = (if bool_decide (0 < j < i) then blocks !! (j - 1) else None) ∧
    nx s x = (if bool_decide (j < i) then blocks !! S j else None);
  ii_out : ∀ x, x ∉ blocks → pv s x = None ∧ nx s x = None;
  ii_meta : same_meta s0 s;
  ii_num : num_free_blocks s = num_free_blocks s0
}.

Lemma init_inv_step blocks s0 i x s :
  NoDup blocks → blocks !! i = Some x → init_inv blocks s0 i s →
  wp ((if bool_decide (0 < i)
       then set_prev x (Some (blocks !!! (i - 1))) else mret tt) ;;
      (if bool_decide (i < length blocks - 1)
       then set_next x (Some (blocks !!! (i + 1))) else mret tt))
    (λ _ s', init_inv blocks s0 (S i) s') no_exn s.
Proof.
  intros Hnd Hx [Hin Hout Hm Hnum].
  assert (Hinj : ∀ j y, blocks !! j = Some y → y = x → j = i).
  { intros j y Hj ->. by eapply NoDup_lookup. }
  apply lookup_lt_Some in Hx as Hi.
  assert (Hpv : ∀ s', (∀ y, pv s' y = if bool_decide (x = y ∧ 0 < i)
      then blocks !! (i - 1) else pv s y) → (∀ y, nx s' y = if bool_decide (x = y)
      then blocks !! S i else nx s y) → same_meta s s' →
      num_free_blocks s' = num_free_blocks s → init_inv blocks s0 (S i) s').
  { intros s' Hp Hn Hm' Hnum'. split; [| |by transitivity s|congruence].
    - intros j y Hj. rewrite Hp, Hn. destruct (Hin j y Hj) as [-> ->].
      destruct (decide (x = y)) as [->|Hxy].
      + assert (j = i) as -> by eauto. rewrite (bool_decide_eq_true_2 (y = y)) by done.
        split; repeat case_bool_decide; try done; lia.
      + assert (j ≠ i) by (intros ->; congruence).
        split; repeat case_bool_decide; try tauto; lia.
    - intros y Hy. rewrite Hp, Hn. assert (x ≠ y).
      { intros ->. apply Hy. by eapply list_elem_of_lookup_2. }
      rewrite !bool_decide_eq_false_2 by tauto. auto. }
  assert (Hlast : ¬ i < length blocks - 1 → nx s x = blocks !! S i).
  { intros. destruct (Hin i x Hx) as [_ ->]. rewrite bool_decide_eq_false_2 by lia.
    symmetry. apply lookup_ge_None. lia. }
  assert (∀ j, j < length blocks → Some (blocks !!! j) = blocks !! j) as Htot.
  { intros j Hj. apply lookup_lt_is_Some_2 in Hj as [y Hy].
    by rewrite (list_lookup_total_correct _ _ _ Hy), Hy. }
  do 2 case_bool_decide; fq_steps; apply Hpv; rewrite ?Nat.add_1_r;
    intros; rewrite ?Htot by lia; try same_meta_tac; try done;
    repeat case_bool_decide; autorewrite with heap; repeat case_decide;
    simpl; rewrite ?nx_block, ?pv_block; try tauto; try congruence; try lia;
    subst; rewrite ?Hlast by lia; try done; tauto.
Qed.

Lemma init_links_spec blocks s :
  NoDup blocks → (∀ b, nx s b = None ∧ pv s b = None) →
  wp (init_links blocks) (λ _ s', init_inv blocks s (length blocks) s') no_exn s.
Proof.
  intros Hnd Hs. unfold init_links. eapply wp_mono.
  { apply (wp_for_each _ _ (λ d s', init_inv blocks s (length d) s')).
    - intros d i rest s' E Hinv.
      assert (i = length d ∧ i < length blocks) as [-> Hi].
      { assert (seq 0 (length blocks) !! length d = Some i) as H
          by (rewrite E; by apply list_lookup_middle).
        apply lookup_seq in H. simpl in H. lia. }
      apply lookup_lt_is_Some_2 in Hi as [x Hx].
      rewrite (list_lookup_total_correct _ _ _ Hx).
      eapply wp_mono; [by apply init_inv_step| |done].
      simpl. intros _ s''. by rewrite length_app, Nat.add_1_r.
    - split; try done; [intros j x Hj; destruct (Hs x) as [-> ->]|].
      { rewrite !bool_decide_eq_false_2 by (simpl; lia). done. }
      intros x _. by destruct (Hs x). }
  - simpl. intros _ s'. by rewrite length_seq.
  - done.
Qed.

Lemma block_alloc id s x :
  block (alloc_block id s).2 x =
  if decide (next_loc s = x) then new_KVCacheBlock id else block s x.
Proof.
  unfold block, alloc_block. simpl. case_decide; subst.
  - apply lookup_total_insert_eq.
  - by apply lookup_total_insert_ne.
Qed.

(** The constructor links the blocks to their neighbours, [n] and [p], and then the two ends to the
    sentinels [h] and [t]. *)
Section init_links.
Context (n p n' p' : loc → option loc) (h : loc) (blocks : list loc) (t q : loc).
Context (Hnd : NoDup (h :: blocks ++ [t])) (Hq : last (h :: blocks) = Some q).
Context (Hin : ∀ j x, blocks !! j = Some x →
     p x = (if bool_decide (0 < j) then blocks !! (j - 1) else None) ∧ n x = blocks !! S j).
Context (Hout : ∀ x, x ∉ blocks → p x = None ∧ n x = None).
Context (Hn : ∀ x, n' x = (<[q := Some t]> (<[h := Some (hd t blocks)]> n) : loc → option loc) x).
Context (Hp : ∀ x, p' x = (<[t := Some q]> (<[hd t blocks := Some h]> p) : loc → option loc) x).

#[local] Lemma init_distinct : NoDup blocks ∧ h ∉ blocks ∧ t ∉ blocks ∧ h ≠ t ∧ q ≠ t.
Proof.
  clear Hin Hout Hn Hp.
  assert (NoDup blocks) as Hndb by (apply NoDup_cons in Hnd as [_ H]; apply NoDup_app in H; tauto).
  split; [done|]. assert (h ∉ blocks ∧ t ∉ blocks ∧ h ≠ t) as (Hh & Ht & Hht) by nodup. split_and!; [done..|].
  intros ->. apply last_Some in Hq as [l' E].
  assert (t ∈ h :: blocks) as [->|]%elem_of_cons by (rewrite E; set_solver); done.
Qed.

(** The last element of the list, if it is no sentinel, is the last block. *)
#[local] Lemma init_last : (blocks = [] ∧ q = h) ∨ (q ∈ blocks ∧ q ≠ h ∧ ∀ j x, blocks !! j = Some x → x = q ↔ S j = length blocks).
Proof.
  destruct init_distinct as (Hndb & Hh & _). clear Hin Hout Hn Hp.
  destruct blocks as [|c bs _] using rev_ind; [left; simpl in Hq; split; congruence|]. right.
  rewrite app_comm_cons, last_snoc in Hq. injection Hq as ->.
  split; [set_solver|]. split; [set_solver|]. intros j x Hj. rewrite length_app. simpl. split.
  - intros ->. enough (j = length bs) by lia. eapply NoDup_lookup; [exact Hndb|exact Hj|]. by apply list_lookup_middle.
  - intros Hl. replace j with (length bs) in Hj by lia. rewrite list_lookup_middle in Hj by done. congruence.
Qed.

#[local] Lemma init_first : hd t blocks ≠ h ∧ (blocks = [] ∨ hd t blocks ≠ t) ∧ ∀ j, blocks !! j = Some (hd t blocks) → j = 0.
Proof.
  destruct init_distinct as (Hndb & Hh & Ht & Hht & _). clear Hin Hout Hn Hp Hq.
  destruct blocks as [|c bs]; simpl; [split; [congruence|by split; [left|]]|].
  split; [by intros ->; apply Hh; left|]. split; [right; by intros ->; apply Ht; left|].
  intros j Hj. by eapply (NoDup_lookup (c :: bs) j 0).
Qed.

#[local] Lemma init_seg j x y :
  (h :: blocks ++ [t]) !! j = Some x → (h :: blocks ++ [t]) !! S j = Some y → n' x = Some y ∧ p' y = Some x.
Proof.
  intros Hx Hy. destruct init_distinct as (Hndb & Hh & Ht & Hht & Hqt), init_first as (Hhdh & Hhdt & Hhd).
  pose proof init_last as Hl.
  destruct j as [|j].
  - simpl in Hx. injection Hx as <-.
    assert (y = hd t blocks) as -> by (destruct blocks; simpl in Hy; by simplify_eq).
    rewrite Hn, Hp. destruct Hl as [[E ->]|(Hqb & Hqh & _)]; [rewrite E; simpl; fn_cases; done|].
    destruct Hhdt as [E|]; [rewrite E in Hqb; set_solver|]. fn_cases. done.
  - simpl in Hx, Hy. apply lookup_app_Some in Hy as [Hy|[Hlen Hy]].
    + rewrite lookup_app_l in Hx by (apply lookup_lt_Some in Hy; lia).
      destruct (Hin j x Hx) as [_ Hnx]. destruct (Hin (S j) y Hy) as [Hpy _].
      apply lookup_lt_Some in Hy as Hlt.
      assert (x ≠ q).
      { destruct Hl as [[E _]|(_ & _ & Hl)]; [by rewrite E in Hx|]. rewrite (Hl j x Hx). lia. }
      assert (x ≠ h ∧ y ≠ t) as []
        by (split; intros ->; [apply Hh|apply Ht]; by eapply list_elem_of_lookup_2).
      assert (y ≠ hd t blocks) by (intros ->; apply Hhd in Hy; lia).
      rewrite bool_decide_eq_true_2 in Hpy by lia. simpl in Hpy.
      rewrite Nat.sub_0_r in Hpy. rewrite Hn, Hp. fn_cases. split; congruence.
    + rewrite list_lookup_singleton in Hy. case_match; [|done]. simplify_eq.
      rewrite lookup_app_l in Hx by lia. apply lookup_lt_Some in Hx as Hlt.
      assert (x = q) as ->.
      { destruct Hl as [[E _]|(_ & _ & Hl)]; [by rewrite E in Hx|]. apply (Hl j x Hx). lia. }
      rewrite Hn, Hp. fn_cases. done.
Qed.

Lemma linked_init : linked n' p' h blocks t.
Proof.
  destruct init_distinct as (Hndb & Hh & Ht & Hht & Hqt), init_first as (Hhdh & Hhdt & Hhd).
  split; [apply seg_intro, init_seg|done|..].
  - rewrite Hn. destruct (Hout t Ht). fn_cases.
  - rewrite Hp. destruct (Hout h Hh). fn_cases.
  - intros x Hx. rewrite Hn, Hp. destruct (Hout x ltac:(nodup)) as [Hpx Hnx].
    assert (x ≠ q) by (intros ->; destruct init_last as [[_ ->]|(? & _)]; set_solver).
    assert (x ≠ h ∧ x ≠ t) as [] by (split; intros ->; set_solver).
    assert (x ≠ hd t blocks) by (intros ->; destruct blocks; set_solver).
    fn_cases. done.
Qed.
End init_links.

Lemma wp_alloc id (Q : loc → fq → Prop) E s :
  Q (next_loc s) (alloc_block id s).2 → wp (alloc_block id) Q E s.
Proof. done. Qed.

(** The two sentinel objects are fresh and come without links. *)
Lemma block_alloc_fakes s x :
  let h := next_loc s in
  block (set_fakes h (S h) (alloc_block (-1) (alloc_block (-1) s).2).2) x =
  if decide (x = h ∨ x = S h) then new_KVCacheBlock (-1) else block s x.
Proof.
  cbv zeta.
  change (block (set_fakes _ _ ?s') x) with (block s' x).
  rewrite !block_alloc. simpl. repeat case_decide; try done; try lia; naive_solver.
Qed.

(** A new queue over [blocks] holds exactly [blocks], in order, and leaves
    the blocks' metadata alone. *)
Lemma init_spec blocks s :
  NoDup blocks → (∀ b, b ∈ blocks → b < next_loc s) →
  (∀ b, nx s b = None ∧ pv s b = None) →
  wp (FreeKVCacheBlockQueue_init blocks)
    (λ _ s', rep s' blocks ∧ next_loc s' = S (S (next_loc s)) ∧
       fake_free_list_head s' = next_loc s ∧ fake_free_list_tail s' = S (next_loc s) ∧
       ∀ b, b < next_loc s → meta (block s' b) = meta (block s b)) no_exn s.
Proof.
  intros Hnd Hlt Hs. unfold FreeKVCacheBlockQueue_init. do 2 wp_step.
  wp_step. eapply wp_mono; [by apply init_links_spec| |done].
  intros _ s1 [Hin Hout Hm Hnum]. simpl in Hnum.
  pose proof (sm_next _ _ Hm) as Hnext. simpl in Hnext.
  assert (Hmeta : ∀ b, meta (block s1 b) = meta (block s b)) by apply Hm.
  wp_step. apply wp_alloc. wp_step. apply wp_alloc. wp_step. wp_step.
  change (next_loc (alloc_block (-1) s1).2) with (S (next_loc s1)).
  rewrite <-Hnext in *. clear Hnext Hm.
  pose proof (block_alloc_fakes s1) as Hblk. cbv zeta in Hblk.
  set (h := next_loc s1) in *.
  set (s3 := set_fakes h (S h) _) in *.
  assert (h ∉ blocks ∧ S h ∉ blocks) as [Hhb Htb]
    by (split; intros ?%Hlt; unfold h in *; lia).
  assert (Hnp : ∀ x, nx s3 x = nx s1 x ∧ pv s3 x = pv s1 x).
  { intros x. unfold nx, pv. rewrite Hblk. case_decide as Hx; [|done].
    assert (x ∉ blocks) as [Hp Hn]%Hout by (by destruct Hx; subst).
    unfold nx, pv in Hp, Hn. by rewrite Hp, Hn. }
  assert (Hnd' : NoDup (h :: blocks ++ [S h])).
  { apply NoDup_cons. split; [nodup; lia|]. apply NoDup_app.
    split_and!; [done|set_solver|apply NoDup_singleton]. }
  assert (Hlink : ∀ q s4, last (h :: blocks) = Some q →
    (∀ x, nx s4 x = (<[q := Some (S h)]> (<[h := Some (hd (S h) blocks)]> (nx s3)) : loc → option loc) x) →
    (∀ x, pv s4 x = (<[S h := Some q]> (<[hd (S h) blocks := Some h]> (pv s3)) : loc → option loc) x) →
    linked (nx s4) (pv s4) h blocks (S h)).
  { intros q s4 Hq Hn Hp. eapply linked_init; [done|done| | |exact Hn|exact Hp].
    - intros j x Hj. destruct (Hnp x) as [-> ->]. destruct (Hin j x Hj) as [-> ->].
      apply lookup_lt_Some in Hj.
      split; repeat case_bool_decide; try done; lia.
    - intros x Hx. destruct (Hnp x) as [-> ->]. by apply Hout. }
  assert (Hmeta3 : ∀ b, b < h → meta (block s3 b) = meta (block s b)).
  { intros b Hb. rewrite Hblk, decide_False by (intros [|]; lia). apply Hmeta. }
  destruct blocks as [|b0 bs] eqn:Eb.
  - fq_steps. split_and!; try done.
    + split; [apply (Hlink h); [done|heap_eq..]|done].
    + intros b Hb. rewrite <-Hmeta3 by done.
      autorewrite with heap. repeat case_decide; subst; try done; lia.
  - destruct (last (b0 :: bs)) as [q|] eqn:Eq; [|by apply last_None in Eq].
    assert (q ≠ h ∧ b0 ≠ S h) as [].
    { apply last_Some in Eq as [l' Eq]. split; intros ->; [apply Hhb; rewrite Eq|apply Htb]; set_solver. }
    fq_steps. split_and!; try done.
    + split; [apply (Hlink q); [done|heap_eq..]|done].
    + intros b Hb. rewrite <-Hmeta3 by done.
      autorewrite with heap. repeat case_decide; subst; try done; lia.
Qed.
End init.

(** ** Refinement of the abstract queue *)

(** The queue's interface as commands, and what each does to a list. *)
Inductive qcmd :=
  | CPopleft
  | CPopleftN (n : nat)
  | CRemove (b : loc)
  | CAppend (b : loc)
  | CAppendN (bs : list loc).

Definition run_qcmd (c : qcmd) : M fq (list loc) :=
  match c with
  | CPopleft => b ← popleft; mret [b]
  | CPopleftN n => popleft_n (Z.of_nat n)
  | CRemove b => remove b ;; mret []
  | CAppend b => append b ;; mret []
  | CAppendN bs => append_n bs ;; mret []
  end.

Definition spec_qcmd (c : qcmd) (l : list loc) : res (list loc) * list loc :=
  match c with
  | CPopleft => match l with [] => (Err ValueError, l) | b :: r => (Ok [b], r) end
  | CPopleftN n =>
      if bool_decide (n ≤ length l) then (Ok (take n l), drop n l)
      else (Err AssertionError, l)
  | CRemove b =>
      if bool_decide (b ∈ l) then (Ok [], filter (λ x, x ≠ b) l)
      else (Err RuntimeError, l)
  | CAppend b => (Ok [], l ++ [b])
  | CAppendN bs => (Ok [], l ++ bs)
  end.

(** Only blocks that are not free already may be appended. *)
Definition legal_qcmd (blocks : list loc) (c : qcmd) (l : list loc) : Prop :=
  match c with
  | CAppend b => b ∈ blocks ∧ b ∉ l
  | CAppendN bs => NoDup bs ∧ Forall (λ b, b ∈ blocks ∧ b ∉ l) bs
  | _ => True
  end.

Fixpoint run_qcmds (cs : list qcmd) (s : fq) : list (res (list loc)) * fq :=
  match cs with
  | [] => ([], s)
  | c :: cs => let '(r, s1) := run_qcmd c s in
               let '(rs, s2) := run_qcmds cs s1 in (r :: rs, s2)
  end.

Fixpoint spec_qcmds (cs : list qcmd) (l : list loc) : list (res (list loc)) * list loc :=
  match cs with
  | [] => ([], l)
  | c :: cs => let '(r, l1) := spec_qcmd c l in
               let '(rs, l2) := spec_qcmds cs l1 in (r :: rs, l2)
  end.

Fixpoint legal_qcmds (blocks : list loc) (cs : list qcmd) (l : list loc) : Prop :=
  match cs with
  | [] => True
  | c :: cs => legal_qcmd blocks c l ∧ legal_qcmds blocks cs (spec_qcmd c l).2
  end.

#[export] Instance legal_qcmd_dec blocks c l : Decision (legal_qcmd blocks c l).
Proof. destruct c; simpl; apply _. Defined.
#[export] Instance legal_qcmds_dec blocks cs l : Decision (legal_qcmds blocks cs l).
Proof. revert l. induction cs; simpl; apply _. Defined.

Lemma filter_ne_middle (l1 l2 : list loc) b :
  b ∉ l1 → b ∉ l2 → filter (λ x, x ≠ b) (l1 ++ b :: l2) = l1 ++ l2.
Proof.
  intros H1 H2.
  assert (∀ l : list loc, b ∉ l → filter (λ x, x ≠ b) l = l) as Hid.
  { induction l as [|c l IH]; intros Hb; [done|].
    apply not_elem_of_cons in Hb as [??].
    rewrite filter_cons_True by done. by rewrite IH. }
  rewrite filter_app, filter_cons_False by auto. by rewrite !Hid.
Qed.

Lemma wp_run {A} (m : M fq A) (Q : A → fq → Prop) s :
  wp m Q no_exn s → ∃ a s', m s = (Ok a, s') ∧ Q a s'.
Proof. apply wp_no_exn_run. Qed.

Lemma qcmd_refines blocks c s l :
  rep s l → legal_qcmd blocks c l →
  (∀ b, b ∈ blocks → b ≠ fake_free_list_head s ∧ b ≠ fake_free_list_tail s) →
  ∃ s', run_qcmd c s = ((spec_qcmd c l).1, s') ∧ rep s' (spec_qcmd c l).2 ∧
        same_meta s s'.
Proof.
  intros Hrep Hlegal Hends. destruct c as [|n|b|b|bs]; simpl in *.
  - destruct l as [|x l].
    + exists s. unfold mbind, M_bind. by rewrite (popleft_empty s Hrep).
    + apply popleft_spec in Hrep as (y & s' & E & -> & ? & ?)%wp_run.
      exists s'. unfold mbind, M_bind. by rewrite E.
  - case_bool_decide as Hn.
    + apply (popleft_n_spec n) in Hrep as (y & s' & E & -> & ? & ?)%wp_run; eauto.
    + exists s. rewrite (popleft_n_too_many n s l) by (done || lia). done.
  - case_bool_decide as Hb.
    + apply list_elem_of_split in Hb as (l1 & l2 & ->).
      apply rep_NoDup in Hrep as Hnd. apply NoDup_middle in Hnd as [[??] _].
      apply remove_spec in Hrep as ([] & s' & E & ? & ?)%wp_run.
      exists s'. rewrite filter_ne_middle by done. unfold mbind, M_bind. by rewrite E.
    + exists s. unfold mbind, M_bind. by rewrite (remove_invalid s l b).
  - destruct Hlegal as [Hin Hnot]. destruct (Hends b Hin).
    apply (append_spec _ _ b) in Hrep as ([] & s' & E & ? & ?)%wp_run; [|done..].
    exists s'. unfold mbind, M_bind. by rewrite E.
  - destruct Hlegal as [Hnd Hbs].
    apply (append_n_spec bs) in Hrep as ([] & s' & E & ? & ?)%wp_run; [|done|].
    + exists s'. unfold mbind, M_bind. by rewrite E.
    + rewrite Forall_forall in Hbs. intros b Hb. destruct (Hbs b Hb) as [Hin ?]. destruct (Hends b Hin). nodup.
Qed.

Lemma qcmds_refines blocks cs s l :
  rep s l → legal_qcmds blocks cs l →
  (∀ b, b ∈ blocks → b ≠ fake_free_list_head s ∧ b ≠ fake_free_list_tail s) →
  (run_qcmds cs s).1 = (spec_qcmds cs l).1 ∧
  rep (run_qcmds cs s).2 (spec_qcmds cs l).2.
Proof.
  revert s l. induction cs as [|c cs IH]; intros s l Hrep Hlegal Hends; [done|].
  destruct Hlegal as [Hc Hcs].
  destruct (qcmd_refines blocks c s l) as (s1 & E & Hrep1 & Hm); [done..|].
  simpl. rewrite E. destruct (spec_qcmd c l) as [r l1] eqn:El. simpl in *.
  destruct (IH s1 l1) as [H1 H2]; [done..| |].
  { by rewrite (sm_head _ _ Hm), (sm_tail _ _ Hm). }
  destruct (run_qcmds cs s1), (spec_qcmds cs l1). simpl in *. by subst.
Qed.

(** A store holding [n] fresh blocks with ids [0..n-1], as built by
    [BlockPool.__init__]. *)
Definition fresh_blocks (n : nat) : fq :=
  mkQueue (list_to_map ((λ i, (i, new_KVCacheBlock (Z.of_nat i))) <$> seq 0 n)) n 0 0 0.

Lemma fresh_blocks_lookup n b :
  objs (fresh_blocks n) !! b =
  if bool_decide (b < n) then Some (new_KVCacheBlock (Z.of_nat b)) else None.
Proof.
  simpl. case_bool_decide as Hb.
  - apply elem_of_list_to_map_1.
    + rewrite <-list_fmap_compose. simpl. rewrite list_fmap_id. apply NoDup_seq.
    + apply list_elem_of_fmap. exists b. split; [done|]. apply elem_of_seq. lia.
  - apply not_elem_of_list_to_map_1. rewrite <-list_fmap_compose. simpl.
    rewrite list_fmap_id, elem_of_seq. lia.
Qed.

Lemma fresh_blocks_block n b :
  b < n → block (fresh_blocks n) b = new_KVCacheBlock (Z.of_nat b).
Proof.
  intros Hb. unfold block. apply lookup_total_correct.
  rewrite fresh_blocks_lookup. by rewrite bool_decide_eq_true_2.
Qed.

Lemma fresh_blocks_links n b :
  nx (fresh_blocks n) b = None ∧ pv (fresh_blocks n) b = None.
Proof.
  unfold nx, pv, block. rewrite lookup_total_alt, fresh_blocks_lookup.
  by case_bool_decide.
Qed.

(** C19: the doubly linked free list implements a queue.  Build a queue over
    [n] blocks and run any sequence of [popleft], [popleft_n], [remove],
    [append] and [append_n] calls in which only blocks that are not free are
    appended: every call returns (or raises) what the same call on a plain
    list does, and [get_all_free_blocks] then returns that list. *)
Theorem free_queue_refines_list n cs :
  legal_qcmds (seq 0 n) cs (seq 0 n) →
  let '(_, s) := FreeKVCacheBlockQueue_init (seq 0 n) (fresh_blocks n) in
  let '(rs, s') := run_qcmds cs s in
  let '(rs_spec, l) := spec_qcmds cs (seq 0 n) in
  rs = rs_spec ∧
  get_all_free_blocks (S (length l)) s' = (Ok l, s') ∧
  num_free_blocks s' = Z.of_nat (length l).
Proof.
  intros Hlegal.
  assert (Hinit := init_spec (seq 0 n) (fresh_blocks n) (NoDup_seq 0 n)).
  destruct (wp_run _ _ _ (Hinit ltac:(intros b; rewrite elem_of_seq; simpl; lia)
    (fresh_blocks_links n))) as (a & s & -> & Hrep & _ & Hh & Ht & _).
  destruct (qcmds_refines (seq 0 n) cs s (seq 0 n)) as [H1 H2]; [done..| |].
  { intros b. rewrite Hh, Ht, elem_of_seq. simpl. lia. }
  destruct (run_qcmds cs s) as [rs s'], (spec_qcmds cs (seq 0 n)) as [rs' l].
  simpl in *. split_and!; [done| |apply H2].
  apply get_all_free_blocks_spec; [done|lia].
Qed.

Lemma free_queue_refines_list_witness :
  let cs := [CPopleft; CPopleftN 2; CAppend 0; CRemove 3; CPopleftN 9;
             CRemove 3; CAppendN [2; 1]] in
  legal_qcmds (seq 0 5) cs (seq 0 5) ∧
  let '(_, s) := FreeKVCacheBlockQueue_init (seq 0 5) (fresh_blocks 5) in
  let '(rs, s') := run_qcmds cs s in
  let '(rs_spec, l) := spec_qcmds cs (seq 0 5) in
  rs = rs_spec ∧
  get_all_free_blocks (S (length l)) s' = (Ok l, s') ∧
  num_free_blocks s' = Z.of_nat (length l).
Proof.
  assert (legal_qcmds (seq 0 5) [CPopleft; CPopleftN 2; CAppend 0; CRemove 3; CPopleftN 9;
             CRemove 3; CAppendN [2; 1]] (seq 0 5)) as H.
  { decide_now. }
  split; [exact H|]. exact (free_queue_refines_list 5 _ H).
Defined.
