(* ===== verification/Request.v ===== *)
(** * Requests

    [vllm/v1/request.py]: the [Request] object, its status, its constructor
    and its read-only properties; [vllm/v1/core/sched/utils.py]: the stop
    conditions checked after every new token.

    [arrival_time] (a float used for comparisons only) is a [Z]; [obj_id] is
    Python's [id(self)].  Sampling parameters are reduced to the fields these
    files read. *)

From stdpp Require Import base list gmap strings.
From Stdlib Require Import ZArith Lia.
From S2P Require Import Prelude FreeQueue.
Local Open Scope Z_scope.

(** ** Data *)

Inductive RequestStatus :=
  | WAITING
  | WAITING_FOR_STRUCTURED_OUTPUT_GRAMMAR
  | WAITING_FOR_REMOTE_KVS
  | WAITING_FOR_STREAMING_REQ
  | RUNNING
  | PREEMPTED
  | FINISHED_STOPPED
  | FINISHED_LENGTH_CAPPED
  | FINISHED_ABORTED
  | FINISHED_IGNORED
  | FINISHED_ERROR
  | FINISHED_REPETITION.

#[export] Instance RequestStatus_eq_dec : EqDecision RequestStatus.
Proof. solve_decision. Defined.

(** [enum.auto()] numbers the members from 1. *)
Definition status_value (s : RequestStatus) : Z :=
  match s with
  | WAITING => 1
  | WAITING_FOR_STRUCTURED_OUTPUT_GRAMMAR => 2
  | WAITING_FOR_REMOTE_KVS => 3
  | WAITING_FOR_STREAMING_REQ => 4
  | RUNNING => 5
  | PREEMPTED => 6
  | FINISHED_STOPPED => 7
  | FINISHED_LENGTH_CAPPED => 8
  | FINISHED_ABORTED => 9
  | FINISHED_IGNORED => 10
  | FINISHED_ERROR => 11
  | FINISHED_REPETITION => 12
  end.

Definition status_is_finished (s : RequestStatus) : bool :=
  status_value PREEMPTED <? status_value s.

Inductive FinishReason := STOP | LENGTH | ABORT | ERROR | REPETITION.

(** [_FINISHED_REASON_MAP] *)
Definition status_get_finished_reason (s : RequestStatus) : option FinishReason :=
  match s with
  | FINISHED_STOPPED => Some STOP
  | FINISHED_LENGTH_CAPPED => Some LENGTH
  | FINISHED_ABORTED => Some ABORT
  | FINISHED_IGNORED => Some LENGTH
  | FINISHED_ERROR => Some ERROR
  | WAITING_FOR_STREAMING_REQ => Some STOP
  | FINISHED_REPETITION => Some REPETITION
  | _ => None
  end.

Inductive StopReason := StopInt (t : Z) | StopStr (s : string).

Record RepetitionDetectionParams := mkRepetition {
  max_pattern_size : Z;
  min_pattern_size : Z;
  min_count : Z
}.

Record SamplingParams := mkSampling {
  sp_max_tokens : option Z;
  min_tokens : Z;
  eos_token_id : option Z;
  stop_token_ids : option (list Z);
  repetition_detection : option RepetitionDetectionParams;
  sp_skip_reading_prefix_cache : option bool
}.

Record PoolingParams := mkPooling {
  pp_skip_reading_prefix_cache : option bool
}.

#[export] Instance PoolingParams_eq_dec : EqDecision PoolingParams.
Proof. solve_decision. Defined.

Record LoRARequest := mkLoRA { lora_name : string; lora_int_id : Z }.

(** [MultiModalFeatureSpec] with its [PlaceholderRange] flattened. *)
Record MultiModalFeatureSpec := mkFeature {
  identifier : string;
  mm_offset : Z;
  mm_length : Z;
  is_embed : option (list bool)
}.

(** [PlaceholderRange.embeds_cumsum]: the running count of embedding positions. *)
Fixpoint cumsum_from (acc : Z) (l : list bool) : list Z :=
  match l with
  | [] => []
  | b :: r => let acc' := acc + (if b then 1 else 0) in acc' :: cumsum_from acc' r
  end.
Definition embeds_cumsum (f : MultiModalFeatureSpec) : option (list Z) :=
  cumsum_from 0 <$> is_embed f.

Definition get_num_embeds (f : MultiModalFeatureSpec) : res Z :=
  match embeds_cumsum f with
  | None => Ok (mm_length f)
  | Some c => py_get c (-1)
  end.

Definition get_embeds_indices_in_range (f : MultiModalFeatureSpec)
    (start_idx end_idx : Z) : res (Z * Z) :=
  match embeds_cumsum f with
  | None => Ok (start_idx, end_idx)
  | Some c =>
      embeds_start_idx ← (if 0 <? start_idx then py_get c (start_idx - 1) else Ok 0);
      embeds_end_idx ← py_get c (end_idx - 1);
      Ok (embeds_start_idx, embeds_end_idx)
  end.

Record Request := mkRequest {
  request_id : string;
  obj_id : Z;
  client_index : Z;
  priority : Z;
  arrival_time : Z;
  sampling_params : option SamplingParams;
  pooling_params : option PoolingParams;
  lora_request : option LoRARequest;
  structured_output_request : bool;
  status : RequestStatus;
  stop_reason : option StopReason;
  max_tokens : Z;
  prompt_token_ids : option (list Z);
  prompt_embeds : option (list bytes);
  _prompt_embeds_per_block_hashes : gmap (Z * Z) bytes;
  num_prompt_tokens : Z;
  _output_token_ids : list Z;
  _all_token_ids : list Z;
  num_output_placeholders : Z;
  discard_latest_async_tokens : bool;
  spec_token_ids : list Z;
  num_computed_tokens : Z;
  cache_salt : option string;
  mm_features : list MultiModalFeatureSpec;
  num_cached_tokens : Z;
  is_prefill_chunk : bool;
  num_preemptions : Z;
  num_external_computed_tokens : Z;
  block_hashes : list BlockHash;
  skip_reading_prefix_cache : bool;
  resumable : bool
}.

Definition set_arrival_time (v : Z) (r : Request) : Request :=
    mkRequest (request_id r) (obj_id r) (client_index r) (priority r) v
    (sampling_params r) (pooling_params r) (lora_request r) (structured_output_request
    r) (status r) (stop_reason r) (max_tokens r) (prompt_token_ids r) (prompt_embeds
    r) (_prompt_embeds_per_block_hashes r) (num_prompt_tokens r) (_output_token_ids r)
    (_all_token_ids r) (num_output_placeholders r) (discard_latest_async_tokens r)
    (spec_token_ids r) (num_computed_tokens r) (cache_salt r) (mm_features r)
    (num_cached_tokens r) (is_prefill_chunk r) (num_preemptions r)
    (num_external_computed_tokens r) (block_hashes r) (skip_reading_prefix_cache r)
    (resumable r).
Definition set_sampling_params (v : option SamplingParams) (r : Request) : Request :=
    mkRequest (request_id r) (obj_id r) (client_index r) (priority r) (arrival_time r)
    v (pooling_params r) (lora_request r) (structured_output_request r) (status r)
    (stop_reason r) (max_tokens r) (prompt_token_ids r) (prompt_embeds r)
    (_prompt_embeds_per_block_hashes r) (num_prompt_tokens r) (_output_token_ids r)
    (_all_token_ids r) (num_output_placeholders r) (discard_latest_async_tokens r)
    (spec_token_ids r) (num_computed_tokens r) (cache_salt r) (mm_features r)
    (num_cached_tokens r) (is_prefill_chunk r) (num_preemptions r)
    (num_external_computed_tokens r) (block_hashes r) (skip_reading_prefix_cache r)
    (resumable r).
Definition set_status (v : RequestStatus) (r : Request) : Request :=
    mkRequest (request_id r) (obj_id r) (client_index r) (priority r) (arrival_time r)
    (sampling_params r) (pooling_params r) (lora_request r) (structured_output_request
    r) v (stop_reason r) (max_tokens r) (prompt_token_ids r) (prompt_embeds r)
    (_prompt_embeds_per_block_hashes r) (num_prompt_tokens r) (_output_token_ids r)
    (_all_token_ids r) (num_output_placeholders r) (discard_latest_async_tokens r)
    (spec_token_ids r) (num_computed_tokens r) (cache_salt r) (mm_features r)
    (num_cached_tokens r) (is_prefill_chunk r) (num_preemptions r)
    (num_external_computed_tokens r) (block_hashes r) (skip_reading_prefix_cache r)
    (resumable r).
Definition set_stop_reason (v : option StopReason) (r : Request) : Request :=
    mkRequest (request_id r) (obj_id r) (client_index r) (priority r) (arrival_time r)
    (sampling_params r) (pooling_params r) (lora_request r) (structured_output_request
    r) (status r) v (max_tokens r) (prompt_token_ids r) (prompt_embeds r)
    (_prompt_embeds_per_block_hashes r) (num_prompt_tokens r) (_output_token_ids r)
    (_all_token_ids r) (num_output_placeholders r) (discard_latest_async_tokens r)
    (spec_token_ids r) (num_computed_tokens r) (cache_salt r) (mm_features r)
    (num_cached_tokens r) (is_prefill_chunk r) (num_preemptions r)
    (num_external_computed_tokens r) (block_hashes r) (skip_reading_prefix_cache r)
    (resumable r).
Definition set_prompt_token_ids (v : option (list Z)) (r : Request) : Request :=
    mkRequest (request_id r) (obj_id r) (client_index r) (priority r) (arrival_time r)
    (sampling_params r) (pooling_params r) (lora_request r) (structured_output_request
    r) (status r) (stop_reason r) (max_tokens r) v (prompt_embeds r)
    (_prompt_embeds_per_block_hashes r) (num_prompt_tokens r) (_output_token_ids r)
    (_all_token_ids r) (num_output_placeholders r) (discard_latest_async_tokens r)
    (spec_token_ids r) (num_computed_tokens r) (cache_salt r) (mm_features r)
    (num_cached_tokens r) (is_prefill_chunk r) (num_preemptions r)
    (num_external_computed_tokens r) (block_hashes r) (skip_reading_prefix_cache r)
    (resumable r).
Definition set_prompt_embeds_per_block_hashes (v : gmap (Z * Z) bytes) (r : Request) : Request :=
    mkRequest (request_id r) (obj_id r) (client_index r) (priority r) (arrival_time r)
    (sampling_params r) (pooling_params r) (lora_request r) (structured_output_request
    r) (status r) (stop_reason r) (max_tokens r) (prompt_token_ids r) (prompt_embeds
    r) v (num_prompt_tokens r) (_output_token_ids r) (_all_token_ids r)
    (num_output_placeholders r) (discard_latest_async_tokens r) (spec_token_ids r)
    (num_computed_tokens r) (cache_salt r) (mm_features r) (num_cached_tokens r)
    (is_prefill_chunk r) (num_preemptions r) (num_external_computed_tokens r)
    (block_hashes r) (skip_reading_prefix_cache r) (resumable r).
Definition set_num_prompt_tokens (v : Z) (r : Request) : Request :=
    mkRequest (request_id r) (obj_id r) (client_index r) (priority r) (arrival_time r)
    (sampling_params r) (pooling_params r) (lora_request r) (structured_output_request
    r) (status r) (stop_reason r) (max_tokens r) (prompt_token_ids r) (prompt_embeds
    r) (_prompt_embeds_per_block_hashes r) v (_output_token_ids r) (_all_token_ids r)
    (num_output_placeholders r) (discard_latest_async_tokens r) (spec_token_ids r)
    (num_computed_tokens r) (cache_salt r) (mm_features r) (num_cached_tokens r)
    (is_prefill_chunk r) (num_preemptions r) (num_external_computed_tokens r)
    (block_hashes r) (skip_reading_prefix_cache r) (resumable r).
Definition set_output_token_ids (v : list Z) (r : Request) : Request :=
    mkRequest (request_id r) (obj_id r) (client_index r) (priority r) (arrival_time r)
    (sampling_params r) (pooling_params r) (lora_request r) (structured_output_request
    r) (status r) (stop_reason r) (max_tokens r) (prompt_token_ids r) (prompt_embeds
    r) (_prompt_embeds_per_block_hashes r) (num_prompt_tokens r) v (_all_token_ids r)
    (num_output_placeholders r) (discard_latest_async_tokens r) (spec_token_ids r)
    (num_computed_tokens r) (cache_salt r) (mm_features r) (num_cached_tokens r)
    (is_prefill_chunk r) (num_preemptions r) (num_external_computed_tokens r)
    (block_hashes r) (skip_reading_prefix_cache r) (resumable r).
Definition set_all_token_ids (v : list Z) (r : Request) : Request :=
    mkRequest (request_id r) (obj_id r) (client_index r) (priority r) (arrival_time r)
    (sampling_params r) (pooling_params r) (lora_request r) (structured_output_request
    r) (status r) (stop_reason r) (max_tokens r) (prompt_token_ids r) (prompt_embeds
    r) (_prompt_embeds_per_block_hashes r) (num_prompt_tokens r) (_output_token_ids r)
    v (num_output_placeholders r) (discard_latest_async_tokens r) (spec_token_ids r)
    (num_computed_tokens r) (cache_salt r) (mm_features r) (num_cached_tokens r)
    (is_prefill_chunk r) (num_preemptions r) (num_external_computed_tokens r)
    (block_hashes r) (skip_reading_prefix_cache r) (resumable r).
Definition set_num_output_placeholders (v : Z) (r : Request) : Request :=
    mkRequest (request_id r) (obj_id r) (client_index r) (priority r) (arrival_time r)
    (sampling_params r) (pooling_params r) (lora_request r) (structured_output_request
    r) (status r) (stop_reason r) (max_tokens r) (prompt_token_ids r) (prompt_embeds
    r) (_prompt_embeds_per_block_hashes r) (num_prompt_tokens r) (_output_token_ids r)
    (_all_token_ids r) v (discard_latest_async_tokens r) (spec_token_ids r)
    (num_computed_tokens r) (cache_salt r) (mm_features r) (num_cached_tokens r)
    (is_prefill_chunk r) (num_preemptions r) (num_external_computed_tokens r)
    (block_hashes r) (skip_reading_prefix_cache r) (resumable r).
Definition set_discard_latest_async_tokens (v : bool) (r : Request) : Request :=
    mkRequest (request_id r) (obj_id r) (client_index r) (priority r) (arrival_time r)
    (sampling_params r) (pooling_params r) (lora_request r) (structured_output_request
    r) (status r) (stop_reason r) (max_tokens r) (prompt_token_ids r) (prompt_embeds
    r) (_prompt_embeds_per_block_hashes r) (num_prompt_tokens r) (_output_token_ids r)
    (_all_token_ids r) (num_output_placeholders r) v (spec_token_ids r)
    (num_computed_tokens r) (cache_salt r) (mm_features r) (num_cached_tokens r)
    (is_prefill_chunk r) (num_preemptions r) (num_external_computed_tokens r)
    (block_hashes r) (skip_reading_prefix_cache r) (resumable r).
Definition set_spec_token_ids (v : list Z) (r : Request) : Request :=
    mkRequest (request_id r) (obj_id r) (client_index r) (priority r) (arrival_time r)
    (sampling_params r) (pooling_params r) (lora_request r) (structured_output_request
    r) (status r) (stop_reason r) (max_tokens r) (prompt_token_ids r) (prompt_embeds
    r) (_prompt_embeds_per_block_hashes r) (num_prompt_tokens r) (_output_token_ids r)
    (_all_token_ids r) (num_output_placeholders r) (discard_latest_async_tokens r) v
    (num_computed_tokens r) (cache_salt r) (mm_features r) (num_cached_tokens r)
    (is_prefill_chunk r) (num_preemptions r) (num_external_computed_tokens r)
    (block_hashes r) (skip_reading_prefix_cache r) (resumable r).
Definition set_num_computed_tokens (v : Z) (r : Request) : Request :=
    mkRequest (request_id r) (obj_id r) (client_index r) (priority r) (arrival_time r)
    (sampling_params r) (pooling_params r) (lora_request r) (structured_output_request
    r) (status r) (stop_reason r) (max_tokens r) (prompt_token_ids r) (prompt_embeds
    r) (_prompt_embeds_per_block_hashes r) (num_prompt_tokens r) (_output_token_ids r)
    (_all_token_ids r) (num_output_placeholders r) (discard_latest_async_tokens r)
    (spec_token_ids r) v (cache_salt r) (mm_features r) (num_cached_tokens r)
    (is_prefill_chunk r) (num_preemptions r) (num_external_computed_tokens r)
    (block_hashes r) (skip_reading_prefix_cache r) (resumable r).
Definition set_mm_features (v : list MultiModalFeatureSpec) (r : Request) : Request :=
    mkRequest (request_id r) (obj_id r) (client_index r) (priority r) (arrival_time r)
    (sampling_params r) (pooling_params r) (lora_request r) (structured_output_request
    r) (status r) (stop_reason r) (max_tokens r) (prompt_token_ids r) (prompt_embeds
    r) (_prompt_embeds_per_block_hashes r) (num_prompt_tokens r) (_output_token_ids r)
    (_all_token_ids r) (num_output_placeholders r) (discard_latest_async_tokens r)
    (spec_token_ids r) (num_computed_tokens r) (cache_salt r) v (num_cached_tokens r)
    (is_prefill_chunk r) (num_preemptions r) (num_external_computed_tokens r)
    (block_hashes r) (skip_reading_prefix_cache r) (resumable r).
Definition set_num_cached_tokens (v : Z) (r : Request) : Request :=
    mkRequest (request_id r) (obj_id r) (client_index r) (priority r) (arrival_time r)
    (sampling_params r) (pooling_params r) (lora_request r) (structured_output_request
    r) (status r) (stop_reason r) (max_tokens r) (prompt_token_ids r) (prompt_embeds
    r) (_prompt_embeds_per_block_hashes r) (num_prompt_tokens r) (_output_token_ids r)
    (_all_token_ids r) (num_output_placeholders r) (discard_latest_async_tokens r)
    (spec_token_ids r) (num_computed_tokens r) (cache_salt r) (mm_features r) v
    (is_prefill_chunk r) (num_preemptions r) (num_external_computed_tokens r)
    (block_hashes r) (skip_reading_prefix_cache r) (resumable r).
Definition set_is_prefill_chunk (v : bool) (r : Request) : Request :=
    mkRequest (request_id r) (obj_id r) (client_index r) (priority r) (arrival_time r)
    (sampling_params r) (pooling_params r) (lora_request r) (structured_output_request
    r) (status r) (stop_reason r) (max_tokens r) (prompt_token_ids r) (prompt_embeds
    r) (_prompt_embeds_per_block_hashes r) (num_prompt_tokens r) (_output_token_ids r)
    (_all_token_ids r) (num_output_placeholders r) (discard_latest_async_tokens r)
    (spec_token_ids r) (num_computed_tokens r) (cache_salt r) (mm_features r)
    (num_cached_tokens r) v (num_preemptions r) (num_external_computed_tokens r)
    (block_hashes r) (skip_reading_prefix_cache r) (resumable r).
Definition set_num_preemptions (v : Z) (r : Request) : Request :=
    mkRequest (request_id r) (obj_id r) (client_index r) (priority r) (arrival_time r)
    (sampling_params r) (pooling_params r) (lora_request r) (structured_output_request
    r) (status r) (stop_reason r) (max_tokens r) (prompt_token_ids r) (prompt_embeds
    r) (_prompt_embeds_per_block_hashes r) (num_prompt_tokens r) (_output_token_ids r)
    (_all_token_ids r) (num_output_placeholders r) (discard_latest_async_tokens r)
    (spec_token_ids r) (num_computed_tokens r) (cache_salt r) (mm_features r)
    (num_cached_tokens r) (is_prefill_chunk r) v (num_external_computed_tokens r)
    (block_hashes r) (skip_reading_prefix_cache r) (resumable r).
Definition set_num_external_computed_tokens (v : Z) (r : Request) : Request :=
    mkRequest (request_id r) (obj_id r) (client_index r) (priority r) (arrival_time r)
    (sampling_params r) (pooling_params r) (lora_request r) (structured_output_request
    r) (status r) (stop_reason r) (max_tokens r) (prompt_token_ids r) (prompt_embeds
    r) (_prompt_embeds_per_block_hashes r) (num_prompt_tokens r) (_output_token_ids r)
    (_all_token_ids r) (num_output_placeholders r) (discard_latest_async_tokens r)
    (spec_token_ids r) (num_computed_tokens r) (cache_salt r) (mm_features r)
    (num_cached_tokens r) (is_prefill_chunk r) (num_preemptions r) v (block_hashes r)
    (skip_reading_prefix_cache r) (resumable r).
Definition set_block_hashes (v : list BlockHash) (r : Request) : Request :=
    mkRequest (request_id r) (obj_id r) (client_index r) (priority r) (arrival_time r)
    (sampling_params r) (pooling_params r) (lora_request r) (structured_output_request
    r) (status r) (stop_reason r) (max_tokens r) (prompt_token_ids r) (prompt_embeds
    r) (_prompt_embeds_per_block_hashes r) (num_prompt_tokens r) (_output_token_ids r)
    (_all_token_ids r) (num_output_placeholders r) (discard_latest_async_tokens r)
    (spec_token_ids r) (num_computed_tokens r) (cache_salt r) (mm_features r)
    (num_cached_tokens r) (is_prefill_chunk r) (num_preemptions r)
    (num_external_computed_tokens r) v (skip_reading_prefix_cache r) (resumable r).

#[export] Instance Request_inhabited : Inhabited Request :=
  populate (mkRequest "" 0 0 0 0 None None None false WAITING None 0 None None ∅ 0 [] []
    0 false [] 0 None [] 0 false 0 0 [] false false).

(** ** Operations *)

Definition num_tokens (r : Request) : Z := Z.of_nat (length (_all_token_ids r)).
Definition num_tokens_with_spec (r : Request) : Z :=
  Z.of_nat (length (_all_token_ids r)) + Z.of_nat (length (spec_token_ids r)).
Definition num_output_tokens (r : Request) : Z :=
  Z.of_nat (length (_output_token_ids r)).
Definition num_encoder_inputs (r : Request) : Z := Z.of_nat (length (mm_features r)).
Definition has_encoder_inputs (r : Request) : bool := 0 <? num_encoder_inputs r.
Definition use_structured_output (r : Request) : bool := structured_output_request r.
Definition is_finished (r : Request) : bool := status_is_finished (status r).
Definition get_finished_reason (r : Request) : option FinishReason :=
  status_get_finished_reason (status r).

Definition get_num_encoder_embeds (r : Request) (input_id : Z) : res Z :=
  if input_id <? num_encoder_inputs r then
    f ← py_get (mm_features r) input_id; get_num_embeds f
  else Err AssertionError.

Definition get_skip_reading_prefix_cache (sp : option SamplingParams)
    (pp : option PoolingParams) : bool :=
  match sp ≫= sp_skip_reading_prefix_cache with
  | Some b => b
  | None =>
      match pp ≫= pp_skip_reading_prefix_cache with
      | Some b => b
      | None => false
      end
  end.

Definition length_from_prompt_token_ids_or_embeds
    (ids : option (list Z)) (embeds : option (list bytes)) : res Z :=
  match ids, embeds with
  | None, None => Err ValueError
  | None, Some e => Ok (Z.of_nat (length e))
  | Some t, None => Ok (Z.of_nat (length t))
  | Some t, Some e =>
      if bool_decide (length e = length t) then Ok (Z.of_nat (length t))
      else Err ValueError
  end.

(** [Request.__init__] up to the first block-hash computation. *)
Definition Request_fields (request_id : string) (obj_id client_index priority arrival_time : Z)
    (sp : option SamplingParams) (pp : option PoolingParams)
    (lora : option LoRARequest) (structured : bool)
    (ids : option (list Z)) (embeds : option (list bytes))
    (salt : option string) (mm : list MultiModalFeatureSpec) (resumable : bool)
    : res Request :=
  '(st, mt) ← (match pp, sp with
    | Some _, _ => Ok (WAITING, 1)
    | None, Some p =>
        match sp_max_tokens p with
        | None => Err AssertionError
        | Some m =>
            Ok (if structured then WAITING_FOR_STRUCTURED_OUTPUT_GRAMMAR else WAITING, m)
        end
    | None, None => Err ValueError
    end);
  n ← length_from_prompt_token_ids_or_embeds ids embeds;
  Ok (mkRequest request_id obj_id client_index priority arrival_time sp pp lora
        structured st None mt ids embeds ∅ n [] (default (replicate (Z.to_nat n) 0) ids)
        0 false [] 0 salt mm (-1) false 0 0 []
        (get_skip_reading_prefix_cache sp pp) resumable).

(** [Request.__lt__] *)
Definition request_lt (a b : Request) : bool :=
  if bool_decide (priority a ≠ priority b) then priority a <? priority b
  else if bool_decide (arrival_time a ≠ arrival_time b)
  then arrival_time a <? arrival_time b
  else if bool_decide (request_id a ≠ request_id b)
  then String.ltb (request_id a) (request_id b)
  else obj_id a <? obj_id b.

(** ** Stop conditions ([sched/utils.py]) *)

(** [for x in l: if not p(x): return False] then [return True] *)
Fixpoint all_res {A} (p : A → res bool) (l : list A) : res bool :=
  match l with
  | [] => Ok true
  | x :: r => b ← p x; if (b : bool) then all_res p r else Ok false
  end.

Definition _has_repeating_pattern (token_ids : list Z)
    (pattern_len repetition_min_count : Z) : res bool :=
  all_res (λ n,
    target_token ← py_get token_ids (- n);
    all_res (λ m,
      t ← py_get token_ids (- (pattern_len * m + n));
      Ok (bool_decide (t = target_token)))
      (range 1 repetition_min_count))
    (range 1 (pattern_len + 1)).

Fixpoint repetition_loop (token_ids : list Z) (count : Z) (lens : list Z) : res bool :=
  match lens with
  | [] => Ok false
  | pattern_len :: rest =>
      if Z.of_nat (length token_ids) <? pattern_len * count then Ok false
      else
        b ← _has_repeating_pattern token_ids pattern_len count;
        if (b : bool) then Ok true else repetition_loop token_ids count rest
  end.

Definition check_sequence_repetition (token_ids : list Z)
    (params : RepetitionDetectionParams) : res bool :=
  let max_size := max_pattern_size params in
  let min_size := if min_pattern_size params <=? 0 then 1 else min_pattern_size params in
  let count := min_count params in
  if (max_size <=? 0) || (count <? 2) || (max_size <? min_size) then Ok false
  else repetition_loop token_ids count (range min_size (max_size + 1)).

Definition check_stop (max_model_len : Z) : M Request bool :=
  pp ← gets pooling_params;
  assert_ (bool_decide (pp = None)) ;;
  sp ← gets sampling_params;
  match sp with
  | None => raise AssertionError
  | Some sp =>
      n_out ← gets num_output_tokens;
      if n_out <? min_tokens sp then mret false
      else
        out ← gets _output_token_ids;
        last_token_id ← lift_res (py_get out (-1));
        if bool_decide (Some last_token_id = eos_token_id sp) then
          modify (set_status FINISHED_STOPPED) ;; mret true
        else if bool_decide (last_token_id ∈ default [] (stop_token_ids sp)) then
          modify (set_status FINISHED_STOPPED) ;;
          modify (set_stop_reason (Some (StopInt last_token_id))) ;; mret true
        else
          n_tok ← gets num_tokens;
          mt ← gets max_tokens;
          if (max_model_len <=? n_tok) || (mt <=? n_out) then
            modify (set_status FINISHED_LENGTH_CAPPED) ;; mret true
          else
            match repetition_detection sp with
            | None => mret false
            | Some params =>
                rep ← lift_res (check_sequence_repetition out params);
                if (rep : bool) then
                  modify (set_status FINISHED_REPETITION) ;;
                  modify (set_stop_reason (Some (StopStr "repetition_detected"))) ;;
                  mret true
                else mret false
            end
  end.

(** ** Repetition detection *)

Lemma py_get_neg {A} (l : list A) (k : nat) :
  (1 ≤ k ≤ length l)%nat →
  ∃ a, py_get l (- Z.of_nat k) = Ok a ∧ reverse l !! (k - 1)%nat = Some a.
Proof.
  intros Hk. destruct (lookup_lt_is_Some_2 (reverse l) (k - 1)) as [a Ha].
  { rewrite length_reverse. lia. }
  exists a. split; [|done]. rewrite reverse_lookup in Ha by lia.
  unfold py_get, py_index. rewrite (bool_decide_eq_true_2 (- Z.of_nat k < 0)) by lia.
  rewrite bool_decide_eq_false_2 by lia.
  replace (Z.to_nat (- Z.of_nat k + Z.of_nat (length l)))
    with (length l - S (k - 1))%nat by lia. by rewrite Ha.
Qed.

Lemma all_res_spec {A} (p : A → res bool) (P : A → Prop) l :
  (∀ x, x ∈ l → ∃ b, p x = Ok b ∧ (b = true ↔ P x)) →
  ∃ b, all_res p l = Ok b ∧ (b = true ↔ ∀ x, x ∈ l → P x).
Proof.
  induction l as [|x l IH]; intros H.
  - exists true. split; [done|]. split; [|done]. intros _ x Hx. by apply elem_of_nil in Hx.
  - destruct (H x ltac:(left)) as (b & Hb & HP).
    destruct IH as (b' & Hb' & HP'); [intros y Hy; apply H; by right|].
    simpl. rewrite Hb. simpl. destruct b; [exists b'|exists false].
    + split; [done|]. rewrite HP'. split.
      * intros Hl y [->|Hy]%elem_of_cons; [by apply HP|auto].
      * intros Hl y Hy. apply Hl. by right.
    + split; [done|]. split; [done|]. intros Hl. apply HP, Hl. by left.
Qed.

Lemma elem_of_range a b x : x ∈ range a b ↔ a ≤ x < b.
Proof. unfold range. rewrite elem_of_seqZ. lia. Qed.

Lemma lookup_concat_replicate {A} (p : list A) (mc i : nat) :
  (i < length p * mc)%nat →
  concat (replicate mc p) !! i = p !! (i mod length p)%nat.
Proof.
  revert i. induction mc as [|mc IH]; intros i Hi; [lia|]. simpl.
  destruct (decide (i < length p)%nat) as [H|H].
  - rewrite lookup_app_l by done. by rewrite Nat.mod_small.
  - rewrite lookup_app_r by lia. rewrite IH by lia. f_equal.
    rewrite <-(Nat.Div0.mod_add (i - length p) 1). f_equal. lia.
Qed.

Lemma length_concat_replicate {A} (p : list A) (mc : nat) :
  length (concat (replicate mc p)) = (length p * mc)%nat.
Proof. induction mc; simpl; rewrite ?length_app; lia. Qed.

Lemma reverse_concat_replicate {A} (p : list A) (mc : nat) :
  reverse (concat (replicate mc p)) = concat (replicate mc (reverse p)).
Proof.
  assert (∀ (q : list A) n, concat (replicate n q) ++ q = q ++ concat (replicate n q)) as Hc.
  { intros q. induction n as [|n IH]; simpl; [by rewrite app_nil_r|].
    by rewrite <-app_assoc, IH. }
  induction mc as [|mc IH]; [done|]. simpl. by rewrite reverse_app, IH, Hc.
Qed.

(** A list starts with [mc] copies of its first [pl] elements iff the entries
    at equal offsets of the copies agree. *)
Lemma take_periodic {A} (l : list A) (pl mc : nat) :
  (0 < pl)%nat → (pl * mc ≤ length l)%nat → (0 < mc)%nat →
  (∀ j m, (j < pl)%nat → (m < mc)%nat → l !! (pl * m + j)%nat = l !! j) ↔
  take (pl * mc) l = concat (replicate mc (take pl l)).
Proof.
  intros Hpl Hlen Hmc.
  assert (Hp : length (take pl l) = pl) by (rewrite length_take; nia).
  split.
  - intros H. apply list_eq. intros i.
    destruct (decide (i < pl * mc)%nat) as [Hi|Hi].
    + rewrite lookup_take_lt by done. rewrite lookup_concat_replicate by (rewrite Hp; lia).
      rewrite Hp. pose proof (Nat.mod_upper_bound i pl ltac:(lia)).
      rewrite lookup_take_lt by done.
      rewrite <-(H (i mod pl)%nat (i / pl)%nat); [f_equal; apply Nat.div_mod_eq|done|].
      apply Nat.Div0.div_lt_upper_bound. lia.
    + rewrite lookup_take_ge by lia. symmetry. apply lookup_ge_None.
      rewrite length_concat_replicate, Hp. lia.
  - intros H j m Hj Hm.
    assert (∀ i, (i < pl * mc)%nat → l !! i = l !! (i mod pl)%nat) as Hi.
    { intros i Hi. rewrite <-(lookup_take_lt l (pl * mc) i), H by done.
      rewrite lookup_concat_replicate by (rewrite Hp; lia). rewrite Hp.
      apply lookup_take_lt. apply Nat.mod_upper_bound. lia. }
    rewrite Hi by nia. f_equal. rewrite Nat.add_comm, Nat.mul_comm, Nat.Div0.mod_add.
    by apply Nat.mod_small.
Qed.

Lemma has_repeating_pattern_spec (t : list Z) (pl mc : nat) :
  (0 < pl)%nat → (pl * mc ≤ length t)%nat → (0 < mc)%nat →
  ∃ b, _has_repeating_pattern t (Z.of_nat pl) (Z.of_nat mc) = Ok b ∧
    (b = true ↔ ∃ pre p, length p = pl ∧ t = pre ++ concat (replicate mc p)).
Proof.
  intros Hpl Hlen Hmc.
  destruct (all_res_spec (λ n,
    target_token ← py_get t (- n);
    all_res (λ m, t0 ← py_get t (- (Z.of_nat pl * m + n));
      Ok (bool_decide (t0 = target_token))) (range 1 (Z.of_nat mc)))
    (λ n, ∀ m, m ∈ range 1 (Z.of_nat mc) →
       reverse t !! (Z.to_nat (Z.of_nat pl * m + n) - 1)%nat =
       reverse t !! (Z.to_nat n - 1)%nat) (range 1 (Z.of_nat pl + 1)))
    as (b & Hb & HP).
  { intros n [Hn1 Hn2]%elem_of_range.
    destruct (py_get_neg t (Z.to_nat n)) as (a & Ha & Hr); [nia|].
    rewrite Z2Nat.id in Ha by lia. rewrite Ha, Hr. simpl. apply all_res_spec.
    intros m [Hm1 Hm2]%elem_of_range.
    destruct (py_get_neg t (Z.to_nat (Z.of_nat pl * m + n))) as (c & Hc & Hrc); [nia|].
    rewrite Z2Nat.id in Hc by nia. rewrite Hc, Hrc. simpl.
    eexists. split; [done|]. rewrite bool_decide_eq_true. split; congruence. }
  exists b. split; [exact Hb|]. rewrite HP.
  transitivity (take (pl * mc) (reverse t) = concat (replicate mc (take pl (reverse t)))).
  { rewrite <-take_periodic by (rewrite ?length_reverse; lia). split.
    - intros H j m Hj Hm. destruct m as [|m]; [f_equal; lia|].
      specialize (H (Z.of_nat j + 1) ltac:(apply elem_of_range; lia)
        (Z.of_nat (S m)) ltac:(apply elem_of_range; lia)).
      replace (Z.to_nat (Z.of_nat pl * Z.of_nat (S m) + (Z.of_nat j + 1)) - 1)%nat
        with (pl * S m + j)%nat in H by nia.
      by replace (Z.to_nat (Z.of_nat j + 1) - 1)%nat with j in H by lia.
    - intros H n [Hn1 Hn2]%elem_of_range m [Hm1 Hm2]%elem_of_range.
      specialize (H (Z.to_nat n - 1)%nat (Z.to_nat m) ltac:(lia) ltac:(lia)).
      rewrite <-H. f_equal. nia. }
  split.
  - intros H. exists (reverse (drop (pl * mc) (reverse t))), (reverse (take pl (reverse t))).
    split; [rewrite length_reverse, length_take, length_reverse; nia|].
    rewrite <-(reverse_involutive t) at 1. rewrite <-(take_drop (pl * mc) (reverse t)) at 1.
    by rewrite H, reverse_app, reverse_concat_replicate.
  - intros (pre & p & Hp & ->).
    rewrite reverse_app, reverse_concat_replicate.
    rewrite take_app_le by (rewrite length_concat_replicate, length_reverse; lia).
    rewrite take_ge by (rewrite length_concat_replicate, length_reverse; lia).
    f_equal. f_equal. destruct mc as [|mc]; [lia|]. simpl. rewrite <-app_assoc.
    symmetry. rewrite <-Hp, <-(length_reverse p). apply take_app_length.
Qed.

(** The tail of [t] is [mc] copies of some pattern of length [pl]. *)
Definition ends_with_repetition (t : list Z) (pl mc : Z) : Prop :=
  ∃ pre p, Z.of_nat (length p) = pl ∧ t = pre ++ concat (replicate (Z.to_nat mc) p).

Lemma ends_with_repetition_length t pl mc :
  0 ≤ mc → ends_with_repetition t pl mc → pl * mc ≤ Z.of_nat (length t).
Proof.
  intros Hmc (pre & p & <- & ->). rewrite length_app, length_concat_replicate. nia.
Qed.

Lemma repetition_loop_spec (t : list Z) (mc lo hi : Z) :
  2 ≤ mc → 1 ≤ lo →
  ∃ b, repetition_loop t mc (range lo hi) = Ok b ∧
    (b = true ↔ ∃ pl, lo ≤ pl < hi ∧ ends_with_repetition t pl mc).
Proof.
  intros Hmc Hlo. remember (Z.to_nat (hi - lo)) as n eqn:Hn.
  revert lo Hlo Hn. induction n as [|n IH]; intros lo Hlo Hn.
  - exists false. unfold range. rewrite seqZ_nil by lia. split; [done|].
    split; [done|]. intros (pl & ? & _). lia.
  - unfold range. rewrite seqZ_cons by lia. simpl.
    replace (Z.pred (hi - lo)) with (hi - Z.succ lo) by lia. fold (range (Z.succ lo) hi).
    destruct (Z.ltb_spec (Z.of_nat (length t)) (lo * mc)) as [Hlt|Hge].
    + exists false. split; [done|]. split; [done|]. intros (pl & Hpl & H).
      apply ends_with_repetition_length in H; nia.
    + destruct (has_repeating_pattern_spec t (Z.to_nat lo) (Z.to_nat mc)) as (b & Hb & HP);
        [nia..|].
      rewrite !Z2Nat.id in Hb by lia. rewrite Hb. simpl.
      assert (b = true ↔ ends_with_repetition t lo mc) as HP'.
      { rewrite HP. unfold ends_with_repetition. split; intros (pre & p & H1 & H2);
          exists pre, p; (split; [lia|done]). }
      destruct (IH (Z.succ lo) ltac:(lia) ltac:(lia)) as (b' & Hb' & HPb').
      destruct b.
      * exists true. split; [done|]. split; [|done]. intros _. exists lo.
        split; [lia|]. by apply HP'.
      * exists b'. split; [done|]. rewrite HPb'. split.
        -- intros (pl & ? & ?). exists pl. split; [lia|done].
        -- intros (pl & ? & H). exists pl. split; [|done].
           enough (pl ≠ lo) by lia. intros ->. apply HP' in H. done.
Qed.

Lemma check_sequence_repetition_spec t params :
  ∃ b, check_sequence_repetition t params = Ok b ∧
    (b = true ↔
       2 ≤ min_count params ∧
       ∃ pl, Z.max 1 (min_pattern_size params) ≤ pl ≤ max_pattern_size params ∧
             ends_with_repetition t pl (min_count params)).
Proof.
  unfold check_sequence_repetition.
  set (lo := if min_pattern_size params <=? 0 then 1 else min_pattern_size params).
  assert (Hlo : lo = Z.max 1 (min_pattern_size params))
    by (unfold lo; destruct (Z.leb_spec (min_pattern_size params) 0); lia).
  destruct (Z.leb_spec (max_pattern_size params) 0) as [Hmax|Hmax]; simpl.
  { exists false. split; [done|]. split; [done|]. intros (_ & pl & ? & _). lia. }
  destruct (Z.ltb_spec (min_count params) 2) as [Hmc|Hmc]; simpl.
  { exists false. split; [done|]. split; [done|]. intros (? & _). lia. }
  destruct (Z.ltb_spec (max_pattern_size params) lo) as [Hl|Hl]; simpl.
  { exists false. split; [done|]. split; [done|]. intros (_ & pl & ? & _). lia. }
  destruct (repetition_loop_spec t (min_count params) lo (max_pattern_size params + 1))
    as (b & Hb & HP); [lia..|].
  exists b. split; [done|]. rewrite HP. split.
  - intros (pl & ? & ?). split; [done|]. exists pl. split; [lia|done].
  - intros (_ & pl & ? & ?). exists pl. split; [lia|done].
Qed.

(** C24: repetition detection is exact.  For every token list and every
    parameter setting the check terminates without an exception, and it
    reports a repetition exactly when at least two copies are requested and
    the output ends in that many copies of one pattern whose length lies
    between the (clamped) minimum and the maximum. *)
Theorem check_sequence_repetition_exact t params :
  ∃ b, check_sequence_repetition t params = Ok b ∧
    (b = true ↔
       2 ≤ min_count params ∧
       ∃ pl, Z.max 1 (min_pattern_size params) ≤ pl ≤ max_pattern_size params ∧
             ends_with_repetition t pl (min_count params)).
Proof. exact (check_sequence_repetition_spec t params). Qed.

(** ** Stopping *)

(** What makes a request stop after its last token, in the order the code
    tests it. *)
Definition stops_with (max_model_len : Z) (sp : SamplingParams) (r : Request)
    (last_token : Z) (st : RequestStatus) (reason : option StopReason) : Prop :=
  let capped := max_model_len ≤ num_tokens r ∨ max_tokens r ≤ num_output_tokens r in
  let repeats := ∃ p b, repetition_detection sp = Some p ∧
     check_sequence_repetition (_output_token_ids r) p = Ok b ∧ b = true in
  match st with
  | FINISHED_STOPPED =>
      (Some last_token = eos_token_id sp ∧ reason = stop_reason r) ∨
      (Some last_token ≠ eos_token_id sp ∧ last_token ∈ default [] (stop_token_ids sp) ∧
       reason = Some (StopInt last_token))
  | FINISHED_LENGTH_CAPPED =>
      Some last_token ≠ eos_token_id sp ∧ last_token ∉ default [] (stop_token_ids sp) ∧
      capped ∧ reason = stop_reason r
  | FINISHED_REPETITION =>
      Some last_token ≠ eos_token_id sp ∧ last_token ∉ default [] (stop_token_ids sp) ∧
      ¬ capped ∧ repeats ∧ reason = Some (StopStr "repetition_detected")
  | _ => False
  end.

(** What the branches of [check_stop] give: the request, or the request with a status and reason. *)
Definition stop_outcome (mml : Z) (sp : SamplingParams) (r : Request) (last_token : Z) (x : res bool * Request) : Prop :=
  ∃ b r', x = (Ok b, r') ∧ (b = false → r' = r) ∧
    (b = true → ∃ st reason, r' = set_stop_reason reason (set_status st r) ∧
       status_is_finished st = true ∧ stops_with mml sp r last_token st reason) ∧
    (b = true ↔ min_tokens sp ≤ num_output_tokens r ∧ ∃ st reason, stops_with mml sp r last_token st reason).

Lemma stop_outcome_stop mml sp r last_token st reason r' :
  min_tokens sp ≤ num_output_tokens r → stops_with mml sp r last_token st reason → status_is_finished st = true →
  r' = set_stop_reason reason (set_status st r) → stop_outcome mml sp r last_token (Ok true, r').
Proof. intros Hmin Hs Hf E. exists true, r'. split_and!; [done|done|by exists st, reason|]. split; [|done]. intros _. split; [done|by exists st, reason]. Qed.

Lemma stop_outcome_go mml sp r last_token :
  ¬ (min_tokens sp ≤ num_output_tokens r ∧ ∃ st reason, stops_with mml sp r last_token st reason) →
  stop_outcome mml sp r last_token (Ok false, r).
Proof. intros Hn. exists false, r. by split_and!. Qed.

Lemma check_stop_spec mml sp r out last_token :
  pooling_params r = None → sampling_params r = Some sp →
  _output_token_ids r = out ++ [last_token] → stop_outcome mml sp r last_token (check_stop mml r).
Proof.
  intros Hpp Hsp Hout.
  assert (Hlast : py_get (_output_token_ids r) (-1) = Ok last_token).
  { destruct (py_get_neg (_output_token_ids r) 1) as (a & Ha & Hr).
    - rewrite Hout, length_app. simpl. lia.
    - rewrite Hout, reverse_snoc in Hr. simpl in Hr. simplify_eq. done. }
  unfold check_stop, gets, modify, assert_, lift_res, mbind, M_bind, mret, M_ret.
  simpl. rewrite (bool_decide_eq_true_2 _ Hpp). simpl. rewrite Hsp. simpl.
  destruct (Z.ltb_spec (num_output_tokens r) (min_tokens sp)) as [Hmin|Hmin]; [apply stop_outcome_go; intros [? _]; lia|].
  rewrite Hlast. destruct (check_sequence_repetition_spec (_output_token_ids r)
    (default (mkRepetition 0 0 0) (repetition_detection sp))) as (rb & Hrb & _).
  case_bool_decide as Heos; [by apply (stop_outcome_stop _ _ _ _ FINISHED_STOPPED (stop_reason r)); [|left| |destruct r]|].
  case_bool_decide as Hstop; [by eapply (stop_outcome_stop _ _ _ _ FINISHED_STOPPED); [|right| |]|].
  destruct ((mml <=? num_tokens r) || (max_tokens r <=? num_output_tokens r)) eqn:Hcap.
  { apply orb_true_iff in Hcap. rewrite !Z.leb_le in Hcap.
    by apply (stop_outcome_stop _ _ _ _ FINISHED_LENGTH_CAPPED (stop_reason r)); [| | |destruct r]. }
  apply orb_false_iff in Hcap. rewrite !Z.leb_gt in Hcap.
  assert (Hno : ∀ st reason, stops_with mml sp r last_token st reason →
    ∃ p, repetition_detection sp = Some p ∧
      check_sequence_repetition (_output_token_ids r) p = Ok true).
  { intros [] reason; simpl; try done; try naive_solver.
    - intros (? & ? & [?|?] & ?); lia. }
  destruct (repetition_detection sp) as [p|] eqn:Erep; simpl in Hrb.
  2: { apply stop_outcome_go. intros (_ & st & reason & H). by destruct (Hno _ _ H) as (? & ? & _). }
  rewrite Hrb. destruct rb.
  - eapply (stop_outcome_stop _ _ _ _ FINISHED_REPETITION); [done| |done|done].
    simpl. split_and!; try done; [lia|]. eauto.
  - apply stop_outcome_go. intros (_ & st & reason & H). destruct (Hno _ _ H) as (p' & ? & Hp). simplify_eq. congruence.
Qed.

(** C23: [check_stop] on a generative request that has produced a token
    never raises.  Below [min_tokens] it reports no stop; otherwise it reports
    a stop exactly when the last token is EOS or a stop token, a length cap is
    reached, or the output repeats; on a stop only the status and the stop
    reason of the request change, the new status is a finished one and it is
    the one the first applicable test prescribes; with no stop the request is
    untouched. *)
Theorem check_stop_correct mml sp r out last_token :
  pooling_params r = None → sampling_params r = Some sp →
  _output_token_ids r = out ++ [last_token] →
  ∃ b r', check_stop mml r = (Ok b, r') ∧
    (b = false → r' = r) ∧
    (b = true → ∃ st reason, r' = set_stop_reason reason (set_status st r) ∧
       status_is_finished st = true ∧ stops_with mml sp r last_token st reason) ∧
    (b = true ↔ min_tokens sp ≤ num_output_tokens r ∧
       ∃ st reason, stops_with mml sp r last_token st reason).
Proof. exact (check_stop_spec mml sp r out last_token). Qed.

Lemma check_stop_correct_witness :
  let sp := mkSampling (Some 8) 1 (Some 2) (Some [7]) (Some (mkRepetition 2 1 3)) None in
  let r0 := Request_fields "r" 0 0 0 0 (Some sp) None None false (Some [1; 1]) None None [] false in
  let r := match r0 with
    | Ok r => set_output_token_ids [5; 3; 5; 3; 5; 3] (set_all_token_ids [1; 1; 5; 3; 5; 3; 5; 3] r)
    | Err _ => inhabitant end in
  (pooling_params r = None ∧ sampling_params r = Some sp ∧
   _output_token_ids r = [5; 3; 5; 3; 5] ++ [3]) ∧
  ∃ b r', check_stop 100 r = (Ok b, r') ∧
    (b = false → r' = r) ∧
    (b = true → ∃ st reason, r' = set_stop_reason reason (set_status st r) ∧
       status_is_finished st = true ∧ stops_with 100 sp r 3 st reason) ∧
    (b = true ↔ min_tokens sp ≤ num_output_tokens r ∧
       ∃ st reason, stops_with 100 sp r 3 st reason).
Proof.
  split; [vm_compute; tauto|].
  apply (check_stop_correct 100 _ _ [5; 3; 5; 3; 5] 3); reflexivity.
Defined.
