(* ===== verification/BlockHash.v ===== *)
(** * Block hashes

    [vllm/v1/core/kv_cache_utils.py]: the packing of a block hash with its KV
    cache group id, the extra keys mixed into a block hash, the incremental
    block hasher a [Request] carries, and [BlockHashListWithBlockSize];
    [vllm/v1/request.py]: the methods that recompute hashes when tokens are
    appended; [vllm/v1/core/sched/scheduler.py]: the streaming-session update.

    The hash functions ([caching_hash_fn], [hashlib.sha256]) are third-party
    code and parameters of the model, as is the random [NONE_HASH]. *)

From stdpp Require Import base list gmap strings.
From Stdlib Require Import ZArith Lia.
From S2P Require Import Prelude FreeQueue Request.
Local Open Scope Z_scope.

(** ** Packing a hash with its group id *)

(** [n.to_bytes(k, "big")] and [int.from_bytes(b, "big")] *)
Fixpoint be_bytes (k : nat) (n : Z) : bytes :=
  match k with
  | O => []
  | S k => be_bytes k (n / 256) ++ [n mod 256]
  end.
Definition to_bytes_be (k : nat) (n : Z) : res bytes :=
  if (0 <=? n) && (n <? 256 ^ Z.of_nat k) then Ok (be_bytes k n) else Err OverflowError.
Definition from_bytes_be (b : bytes) : Z := foldl (λ acc x, acc * 256 + x) 0 b.

Definition make_block_hash_with_group_id (block_hash : BlockHash) (group_id : Z)
    : res BlockHashWithGroupId :=
  g ← to_bytes_be 4 group_id; Ok (block_hash ++ g).

(** [key[:-4]] and [key[-4:]] *)
Definition get_block_hash (key : BlockHashWithGroupId) : BlockHash := slice 0 (-4) key.
Definition get_group_id (key : BlockHashWithGroupId) : Z :=
  from_bytes_be (slice_from (-4) key).

(** [VLLM_KV_EVENTS_USE_INT_BLOCK_HASHES] selects the representation. *)
Inductive ExternalBlockHash := ExtBytes (b : bytes) | ExtInt (n : Z).
Definition maybe_convert_block_hash (use_int : bool) (hash_bytes : BlockHash)
    : ExternalBlockHash :=
  if use_int then ExtInt (Z.land (from_bytes_be hash_bytes) (Z.shiftl 1 64 - 1))
  else ExtBytes hash_bytes.

(** ** Extra keys *)

(** The heterogeneous Python values that occur in an extra-key tuple. *)
Inductive pyval :=
  | PyStr (s : string)
  | PyPair (s : string) (n : Z)
  | PyBytes (b : bytes).

#[export] Instance pyval_eq_dec : EqDecision pyval.
Proof. solve_decision. Defined.

Definition need_extra_keys (r : Request) : bool :=
  bool_decide (mm_features r ≠ []) || bool_decide (is_Some (lora_request r))
  || bool_decide (is_Some (cache_salt r)).

(** The [while] loop of [_gen_mm_extra_hash_keys], over the features from
    [curr_mm_idx] on. *)
Fixpoint mm_keys_loop (start_token_idx end_token_idx : Z)
    (feats : list MultiModalFeatureSpec) (curr_mm_idx : Z) (extra_keys : list pyval)
    : list pyval * Z :=
  match feats with
  | [] => (extra_keys, curr_mm_idx)
  | f :: rest =>
      let offset := mm_offset f in
      let len := mm_length f in
      if offset <? end_token_idx then
        if offset + len <=? start_token_idx then
          mm_keys_loop start_token_idx end_token_idx rest (curr_mm_idx + 1) extra_keys
        else
          let extra_keys := extra_keys ++ [PyPair (identifier f) (offset - start_token_idx)] in
          if offset + len <=? end_token_idx then
            mm_keys_loop start_token_idx end_token_idx rest (curr_mm_idx + 1) extra_keys
          else (extra_keys, curr_mm_idx)
      else (extra_keys, curr_mm_idx)
  end.

Definition _gen_mm_extra_hash_keys (r : Request)
    (start_token_idx end_token_idx start_mm_idx : Z) : res (list pyval * Z) :=
  let feats := mm_features r in
  match last feats with
  | None => Ok ([], start_mm_idx)
  | Some last_pos =>
      if mm_offset last_pos + mm_length last_pos <=? start_token_idx then
        Ok ([], start_mm_idx)
      else if start_mm_idx <? 0 then
        if - start_mm_idx <=? Z.of_nat (length feats) then
          let idx := Z.of_nat (length feats) + start_mm_idx in
          Ok (mm_keys_loop start_token_idx end_token_idx
                (drop (Z.to_nat idx) feats) idx [])
        else Err AssertionError
      else
        Ok (mm_keys_loop start_token_idx end_token_idx
              (drop (Z.to_nat start_mm_idx) feats) start_mm_idx [])
  end.

Definition _gen_lora_extra_hash_keys (r : Request) : list pyval :=
  match lora_request r with None => [] | Some l => [PyStr (lora_name l)] end.

Section hashing.
(** The hash functions and the seed of the hash chain. *)
Context (sha256 : bytes → bytes).
Context (hash_fn : BlockHash * list Z * option (list pyval) → bytes).
Context (NONE_HASH : BlockHash).

Definition _gen_prompt_embeds_extra_hash_keys (start_token_idx end_token_idx : Z)
    : M Request (list pyval) :=
  e ← gets prompt_embeds;
  match e with
  | None => mret []
  | Some rows =>
      cache ← gets _prompt_embeds_per_block_hashes;
      match cache !! (start_token_idx, end_token_idx) with
      | Some h => mret [PyBytes h]
      | None =>
          let h := sha256 (concat (slice start_token_idx end_token_idx rows)) in
          modify (set_prompt_embeds_per_block_hashes
                    (<[(start_token_idx, end_token_idx) := h]> cache)) ;;
          mret [PyBytes h]
      end
  end.

Definition generate_block_hash_extra_keys (start_token_idx end_token_idx start_mm_idx : Z)
    : M Request (option (list pyval) * Z) :=
  r ← gets id;
  '(mm_extra_keys, new_start_mm_idx) ←
    lift_res (_gen_mm_extra_hash_keys r start_token_idx end_token_idx start_mm_idx);
  let lora_extra_keys := _gen_lora_extra_hash_keys r in
  let cache_salt_keys :=
    match cache_salt r with
    | Some salt =>
        if bool_decide (start_token_idx = 0) && bool_decide (salt ≠ ""%string)
        then [PyStr salt] else []
    | None => []
    end in
  prompt_embeds_keys ← _gen_prompt_embeds_extra_hash_keys start_token_idx end_token_idx;
  let extra_keys :=
    lora_extra_keys ++ mm_extra_keys ++ cache_salt_keys ++ prompt_embeds_keys in
  if bool_decide (extra_keys = []) then mret (None, new_start_mm_idx)
  else mret (Some extra_keys, new_start_mm_idx).

(** [if not parent_block_hash]: [None] and the empty string are both falsy. *)
Definition hash_block_tokens (parent_block_hash : option BlockHash)
    (curr_block_token_ids : list Z) (extra_keys : option (list pyval)) : BlockHash :=
  let parent := match parent_block_hash with
                | Some [] | None => NONE_HASH
                | Some h => h
                end in
  hash_fn (parent, curr_block_token_ids, extra_keys).

(** ** The request's block hasher *)

Section hasher.
Context (block_size : Z).

(** The [while True] loop; every iteration consumes a block, so the number of
    full blocks left bounds it. *)
Fixpoint hasher_loop (fuel : nat) (start_token_idx curr_mm_idx : Z)
    (prev : option BlockHash) (new_block_hashes : list BlockHash)
    : M Request (list BlockHash) :=
  match fuel with
  | O => raise OutOfFuel
  | S fuel =>
      let end_token_idx := start_token_idx + block_size in
      n ← gets num_tokens;
      if n <? end_token_idx then mret new_block_hashes
      else
        '(extra_keys, next_mm_idx) ←
          generate_block_hash_extra_keys start_token_idx end_token_idx curr_mm_idx;
        toks ← gets _all_token_ids;
        let block_tokens := slice start_token_idx end_token_idx toks in
        let block_hash := hash_block_tokens prev block_tokens extra_keys in
        hasher_loop fuel (start_token_idx + block_size) next_mm_idx
          (Some block_hash) (new_block_hashes ++ [block_hash])
  end.

Definition request_block_hasher : M Request (list BlockHash) :=
  hashes ← gets block_hashes;
  let start_token_idx := Z.of_nat (length hashes) * block_size in
  n ← gets num_tokens;
  if n <? start_token_idx + block_size then mret []
  else
    let curr_mm_idx := if 0 <? start_token_idx then -1 else 0 in
    hasher_loop (S (Z.to_nat n)) start_token_idx curr_mm_idx (last hashes) [].

(** [Request.update_block_hashes] with the block hasher installed. *)
Definition update_block_hashes : M Request unit :=
  new ← request_block_hasher;
  modify (λ r, set_block_hashes (block_hashes r ++ new) r).

Definition append_output_token_ids (token_ids : list Z) : M Request unit :=
  modify (λ r, set_output_token_ids (_output_token_ids r ++ token_ids) r) ;;
  modify (λ r, set_all_token_ids (_all_token_ids r ++ token_ids) r) ;;
  update_block_hashes.

(** [Request.__init__] *)
Definition Request_init (request_id : string) (obj_id client_index priority arrival_time : Z)
    (sp : option SamplingParams) (pp : option PoolingParams)
    (lora : option LoRARequest) (structured : bool)
    (ids : option (list Z)) (embeds : option (list bytes))
    (salt : option string) (mm : list MultiModalFeatureSpec) (resumable : bool)
    : res Request :=
  r ← Request_fields request_id obj_id client_index priority arrival_time sp pp lora
        structured ids embeds salt mm resumable;
  let '(res_, r') := update_block_hashes r in
  _ ← res_; Ok r'.

(** ** Streaming sessions *)

(** [vllm.v1.request.StreamingUpdate] *)
Record StreamingUpdate := mkUpdate {
  su_mm_features : list MultiModalFeatureSpec;
  su_prompt_token_ids : option (list Z);
  su_arrival_time : Z;
  su_sampling_params : option SamplingParams
}.

Definition shift_feature (base : Z) (f : MultiModalFeatureSpec) : MultiModalFeatureSpec :=
  mkFeature (identifier f) (mm_offset f + base) (mm_length f) (is_embed f).

(** [Scheduler._update_request_as_session], on the session; the returned flag
    tells whether [num_waiting_for_streaming_input] is decremented. *)
Definition _update_request_as_session (update : StreamingUpdate) : M Request bool :=
  computed ← gets num_computed_tokens;
  n_prompt ← gets num_prompt_tokens;
  toks ← gets _all_token_ids;
  let kept_output_tokens := slice n_prompt computed toks in
  modify (set_all_token_ids (slice 0 computed toks)) ;;
  modify (set_output_token_ids []) ;;
  prompt ← gets prompt_token_ids;
  match prompt with
  | None => raise AssertionError
  | Some p =>
      modify (set_prompt_token_ids (Some (p ++ kept_output_tokens))) ;;
      (if bool_decide (su_mm_features update = []) then mret tt
       else
         base ← gets num_tokens;
         modify (λ r, set_mm_features
                   (mm_features r ++ (shift_feature base <$> su_mm_features update)) r)) ;;
      let new := default [] (su_prompt_token_ids update) in
      modify (λ r, set_all_token_ids (_all_token_ids r ++ new) r) ;;
      modify (λ r, set_prompt_token_ids ((λ p, p ++ new) <$> prompt_token_ids r) r) ;;
      update_block_hashes ;;
      modify (λ r, set_num_prompt_tokens
                (Z.of_nat (length (default [] (prompt_token_ids r)))) r) ;;
      modify (set_arrival_time (su_arrival_time update)) ;;
      modify (set_sampling_params (su_sampling_params update)) ;;
      st ← gets status;
      modify (set_status WAITING) ;;
      mret (bool_decide (st = WAITING_FOR_STREAMING_REQ))
  end.
End hasher.
End hashing.

(** ** Coarser block hashes *)

Record BlockHashListWithBlockSize := mkHashList {
  bhl_block_hashes : list BlockHash;
  scale_factor : Z
}.

Definition BlockHashListWithBlockSize_init (block_hashes : list BlockHash)
    (hash_block_size target_block_size : Z) : res BlockHashListWithBlockSize :=
  if bool_decide (target_block_size mod hash_block_size = 0) then
    Ok (mkHashList block_hashes (target_block_size / hash_block_size))
  else Err AssertionError.

Definition bhl_len (l : BlockHashListWithBlockSize) : Z :=
  Z.of_nat (length (bhl_block_hashes l)) / scale_factor l.

Definition bhl_get_value_at (l : BlockHashListWithBlockSize) (idx : Z) : res BlockHash :=
  let base := idx * scale_factor l in
  let end_ := base + scale_factor l in
  merged_hash ← py_get (bhl_block_hashes l) base;
  foldl (λ acc i, m ← acc; h ← py_get (bhl_block_hashes l) i; Ok (m ++ h))
    (Ok merged_hash) (range (base + 1) end_).

(** [l[start:stop]] with the bounds clipped as [slice.indices] does. *)
Definition bhl_getitem_slice (l : BlockHashListWithBlockSize) (start stop : Z)
    : res (list BlockHash) :=
  foldr (λ i acc, h ← bhl_get_value_at l i; r ← acc; Ok (h :: r)) (Ok [])
    (range (py_clip (bhl_len l) start) (py_clip (bhl_len l) stop)).
Definition bhl_iter (l : BlockHashListWithBlockSize) : res (list BlockHash) :=
  foldr (λ i acc, h ← bhl_get_value_at l i; r ← acc; Ok (h :: r)) (Ok [])
    (range 0 (bhl_len l)).

(** ** Packing round trip *)

Lemma length_be_bytes k n : length (be_bytes k n) = k.
Proof. revert n. induction k as [|k IH]; intros n; [done|]. simpl. rewrite length_app, IH. simpl. lia. Qed.

Lemma from_bytes_be_bytes k n :
  0 ≤ n < 256 ^ Z.of_nat k → from_bytes_be (be_bytes k n) = n.
Proof.
  unfold from_bytes_be. revert n. induction k as [|k IH]; intros n Hn; simpl in *; [lia|].
  rewrite foldl_app. simpl.
  replace (Z.of_nat (S k)) with (Z.of_nat k + 1) in Hn by lia.
  rewrite Z.pow_add_r in Hn by lia.
  rewrite IH; [pose proof (Z.div_mod n 256 ltac:(lia)); lia|].
  split; [apply Z.div_pos; lia|apply Z.div_lt_upper_bound; lia].
Qed.

Lemma slice_app_suffix {A} (l k : list A) n :
  0 < n → length k = Z.to_nat n →
  slice 0 (- n) (l ++ k) = l ∧ slice_from (- n) (l ++ k) = k.
Proof.
  intros Hn Hk. unfold slice_from, slice, py_clip, py_index. rewrite length_app.
  rewrite (bool_decide_eq_true_2 (- n < 0)) by lia.
  rewrite !bool_decide_eq_false_2 by lia. split.
  - replace (Z.to_nat (Z.max 0 (Z.min _ 0))) with 0%nat by lia. simpl.
    rewrite drop_0, take_app_le by lia. apply take_ge. lia.
  - rewrite Z.max_r, Z.min_r by lia.
    rewrite drop_app_length' by lia. apply take_ge. lia.
Qed.

Lemma make_block_hash_cases h g :
  make_block_hash_with_group_id h g =
  if bool_decide (0 ≤ g < 2 ^ 32) then Ok (h ++ be_bytes 4 g) else Err OverflowError.
Proof.
  unfold make_block_hash_with_group_id, to_bytes_be.
  change (256 ^ Z.of_nat 4) with (2 ^ 32).
  case_bool_decide as Hg.
  - replace ((0 <=? g) && (g <? 2 ^ 32)) with true; [done|]. lia.
  - replace ((0 <=? g) && (g <? 2 ^ 32)) with false; [done|]. lia.
Qed.

Lemma block_hash_unpack h g :
  0 ≤ g < 2 ^ 32 →
  get_block_hash (h ++ be_bytes 4 g) = h ∧ get_group_id (h ++ be_bytes 4 g) = g.
Proof.
  intros Hg. unfold get_block_hash, get_group_id.
  pose proof (slice_app_suffix h (be_bytes 4 g) 4 ltac:(lia)
    ltac:(by rewrite length_be_bytes)) as [H1 H2].
  change (- (4)) with (-4) in *. rewrite H1, H2. split; [done|].
  apply from_bytes_be_bytes. change (256 ^ Z.of_nat 4) with (2 ^ 32). lia.
Qed.

(** C25: packing a block hash with its KV-cache group id is lossless and
    partial exactly where the code raises: a group id outside [0, 2^32) raises
    [OverflowError]; otherwise both components are recovered, so two packed
    keys are equal only if hash and group id are. *)
Theorem block_hash_with_group_id_roundtrip h g :
  (¬ (0 ≤ g < 2 ^ 32) → make_block_hash_with_group_id h g = Err OverflowError) ∧
  (0 ≤ g < 2 ^ 32 →
     ∃ key, make_block_hash_with_group_id h g = Ok key ∧
       get_block_hash key = h ∧ get_group_id key = g ∧
       ∀ h' g', make_block_hash_with_group_id h' g' = Ok key → h' = h ∧ g' = g).
Proof.
  rewrite make_block_hash_cases. case_bool_decide as Hg; [|done].
  split; [done|]. intros _. exists (h ++ be_bytes 4 g).
  destruct (block_hash_unpack h g Hg) as [H1 H2]. split_and!; [done..|].
  intros h' g'. rewrite make_block_hash_cases. case_bool_decide as Hg'; [|done].
  intros E%Ok_inj. destruct (block_hash_unpack h' g' Hg') as [H1' H2'].
  rewrite E in H1', H2'. split; congruence.
Qed.

(** ** Extra keys of one block *)

(** Features in prompt order that do not overlap, as the multimodal processor
    produces them ("we assume mm_features are sorted by mm_position.offset"). *)
Fixpoint feats_ok (l : list MultiModalFeatureSpec) : Prop :=
  match l with
  | [] => True
  | f :: r => 0 ≤ mm_length f ∧ (∀ g, g ∈ r → mm_offset f + mm_length f ≤ mm_offset g) ∧
              feats_ok r
  end.

Definition mm_end (f : MultiModalFeatureSpec) : Z := mm_offset f + mm_length f.

(** The multimodal keys of the block [s, e): one per overlapping feature. *)
Definition ref_mm_keys (l : list MultiModalFeatureSpec) (s e : Z) : list pyval :=
  (λ f, PyPair (identifier f) (mm_offset f - s)) <$>
    filter (λ f, mm_offset f < e ∧ s < mm_end f) l.

Lemma ref_mm_keys_none l s e :
  (∀ f, f ∈ l → e ≤ mm_offset f ∨ mm_end f ≤ s) → ref_mm_keys l s e = [].
Proof.
  intros H. unfold ref_mm_keys. induction l as [|f l IH]; [done|].
  rewrite filter_cons_False by (specialize (H f ltac:(left)); lia).
  apply IH. intros g Hg. apply H. by right.
Qed.

Lemma ref_mm_keys_cons_in f l s e :
  mm_offset f < e ∧ s < mm_end f →
  ref_mm_keys (f :: l) s e = PyPair (identifier f) (mm_offset f - s) :: ref_mm_keys l s e.
Proof. intros H. unfold ref_mm_keys. by rewrite filter_cons_True. Qed.
Lemma ref_mm_keys_cons_out f l s e :
  ¬ (mm_offset f < e ∧ s < mm_end f) → ref_mm_keys (f :: l) s e = ref_mm_keys l s e.
Proof. intros H. unfold ref_mm_keys. by rewrite filter_cons_False. Qed.
Lemma ref_mm_keys_app l1 l2 s e :
  ref_mm_keys (l1 ++ l2) s e = ref_mm_keys l1 s e ++ ref_mm_keys l2 s e.
Proof. unfold ref_mm_keys. by rewrite filter_app, fmap_app. Qed.

Lemma mm_keys_loop_spec s e l idx acc :
  feats_ok l → s ≤ e →
  ∃ l1 l2, l = l1 ++ l2 ∧ (∀ f, f ∈ l1 → mm_end f ≤ e) ∧
    mm_keys_loop s e l idx acc = (acc ++ ref_mm_keys l s e, idx + Z.of_nat (length l1)).
Proof.
  intros Hok Hse. revert idx acc. induction l as [|f l IH]; intros idx acc.
  { exists [], []. simpl. rewrite app_nil_r, Z.add_0_r. set_solver. }
  destruct Hok as (Hlen & Hlater & Hok). unfold mm_end in *. simpl.
  assert (Hstop : ∀ l', (∀ g, g ∈ l → e ≤ mm_offset g) → l' = acc ++ ref_mm_keys (f :: l) s e →
    ∃ l1 l2, f :: l = l1 ++ l2 ∧ (∀ g, g ∈ l1 → mm_offset g + mm_length g ≤ e) ∧
      (l', idx) = (acc ++ ref_mm_keys (f :: l) s e, idx + Z.of_nat (length l1))).
  { intros l' _ ->. exists [], (f :: l). split_and!; [done|set_solver|f_equal; simpl; lia]. }
  destruct (Z.ltb_spec (mm_offset f) e) as [H1|H1].
  - destruct (Z.leb_spec (mm_offset f + mm_length f) s) as [H2|H2].
    + destruct (IH Hok (idx + 1) acc) as (l1 & l2 & -> & Hl1 & ->).
      exists (f :: l1), l2. split_and!; [done| |].
      * intros g [->|Hg]%elem_of_cons; [lia|auto].
      * rewrite (ref_mm_keys_cons_out f) by (unfold mm_end; lia). f_equal. simpl. lia.
    + destruct (Z.leb_spec (mm_offset f + mm_length f) e) as [H3|H3].
      * destruct (IH Hok (idx + 1) (acc ++ [PyPair (identifier f) (mm_offset f - s)]))
          as (l1 & l2 & -> & Hl1 & ->).
        exists (f :: l1), l2. split_and!; [done| |].
        -- intros g [->|Hg]%elem_of_cons; [lia|auto].
        -- rewrite (ref_mm_keys_cons_in f) by (unfold mm_end; lia).
           rewrite <-app_assoc. f_equal. simpl. lia.
      * apply Hstop; [intros g Hg; specialize (Hlater g Hg); lia|].
        rewrite ref_mm_keys_cons_in by (unfold mm_end; lia).
        rewrite ref_mm_keys_none; [done|].
        intros g Hg. left. specialize (Hlater g Hg). lia.
  - assert (∀ g, g ∈ l → e ≤ mm_offset g)
      by (intros g Hg; specialize (Hlater g Hg); lia).
    apply Hstop; [done|].
    rewrite ref_mm_keys_none; [by rewrite app_nil_r|].
    intros g [->|Hg]%elem_of_cons; left; auto.
Qed.

(** The cursor into the features that the hasher carries from block to block
    is sound for a block starting at [s] when everything it skips has ended. *)
Definition mm_idx_ok (l : list MultiModalFeatureSpec) (s idx : Z) : Prop :=
  (idx = -1 ∧ ∀ f, f ∈ take (length l - 1) l → mm_end f ≤ s) ∨
  (0 ≤ idx ≤ Z.of_nat (length l) ∧ ∀ f, f ∈ take (Z.to_nat idx) l → mm_end f ≤ s).

Lemma feats_ok_app l1 l2 : feats_ok (l1 ++ l2) → feats_ok l2.
Proof. induction l1 as [|f l1 IH]; [done|]. intros (_ & _ & H). auto. Qed.

Lemma feats_ok_ends l f g : feats_ok (l ++ [g]) → f ∈ l → mm_end f ≤ mm_end g.
Proof.
  induction l as [|h l IH]; intros Hok Hf; [by apply elem_of_nil in Hf|].
  simpl in Hok. destruct Hok as (_ & Hl & Hok).
  apply elem_of_cons in Hf as [->|Hf]; [|auto].
  specialize (Hl g ltac:(set_solver)). apply feats_ok_app in Hok as [? _]. unfold mm_end. lia.
Qed.

Lemma gen_mm_loop l s e idx :
  feats_ok l → s ≤ e → 0 ≤ idx ≤ Z.of_nat (length l) →
  (∀ f, f ∈ take (Z.to_nat idx) l → mm_end f ≤ s) →
  ∃ idx', mm_keys_loop s e (drop (Z.to_nat idx) l) idx [] = (ref_mm_keys l s e, idx') ∧
    mm_idx_ok l e idx'.
Proof.
  intros Hok Hse Hidx Hpre.
  rewrite <-(take_drop (Z.to_nat idx) l) in Hok. apply feats_ok_app in Hok.
  destruct (mm_keys_loop_spec s e (drop (Z.to_nat idx) l) idx [] Hok Hse)
    as (l1 & l2 & Hd & Hl1 & ->).
  eexists. split.
  - f_equal. rewrite <-(take_drop (Z.to_nat idx) l) at 2. rewrite ref_mm_keys_app.
    rewrite (ref_mm_keys_none (take _ l)); [done|]. intros f Hf. right. auto.
  - right. assert (length l = Z.to_nat idx + length l1 + length l2)%nat as Hlen.
    { rewrite <-(take_drop (Z.to_nat idx) l), Hd, !length_app, length_take. lia. }
    split; [lia|]. intros f Hf.
    replace (Z.to_nat (idx + Z.of_nat (length l1))) with (Z.to_nat idx + length l1)%nat in Hf by lia.
    rewrite <-(take_drop (Z.to_nat idx) l), Hd in Hf.
    rewrite take_app, length_take in Hf.
    rewrite (take_ge (take _ l)) in Hf by (rewrite length_take; lia).
    apply elem_of_app in Hf as [Hf|Hf].
    + specialize (Hpre f Hf). lia.
    + apply Hl1. replace (_ - _)%nat with (length l1) in Hf by lia.
      by rewrite take_app_length in Hf.
Qed.

Lemma gen_mm_spec r s e idx :
  feats_ok (mm_features r) → s ≤ e → mm_idx_ok (mm_features r) s idx →
  ∃ idx', _gen_mm_extra_hash_keys r s e idx = Ok (ref_mm_keys (mm_features r) s e, idx') ∧
    mm_idx_ok (mm_features r) e idx'.
Proof.
  intros Hok Hse Hidx. unfold _gen_mm_extra_hash_keys.
  set (l := mm_features r) in *.
  assert (Hmono : mm_idx_ok l e idx).
  { destruct Hidx as [[-> H]|[? H]]; [left|right]; (split; [done|]);
      intros f Hf; specialize (H f Hf); lia. }
  destruct (last l) as [g|] eqn:El.
  2: { apply last_None in El. exists idx. by rewrite El in *. }
  apply last_Some in El as [l0 El].
  destruct (Z.leb_spec (mm_offset g + mm_length g) s) as [Hend|Hend].
  { exists idx. split; [|done]. rewrite ref_mm_keys_none; [done|].
    intros f Hf. right. rewrite El in Hf, Hok.
    apply elem_of_app in Hf as [Hf| ->%list_elem_of_singleton].
    - pose proof (feats_ok_ends l0 f g Hok Hf). unfold mm_end in *. lia.
    - unfold mm_end. lia. }
  assert (Hlen : length l = S (length l0)) by (rewrite El, length_app; simpl; lia).
  destruct Hidx as [[-> Hpre]|[Hrange Hpre]].
  - simpl.
    destruct (gen_mm_loop l s e (Z.of_nat (length l) - 1)) as (idx' & E & ?); [done..|lia| |].
    { intros f Hf. apply Hpre.
      by replace (Z.to_nat (Z.of_nat (length l) - 1)) with (length l - 1)%nat in Hf by lia. }
    exists idx'. split; [|done]. change (Z.of_nat (length l) + -1) with (Z.of_nat (length l) - 1).
    rewrite E. by replace (- (-1) <=? Z.of_nat (length l)) with true by lia.
  - replace (idx <? 0) with false by lia.
    destruct (gen_mm_loop l s e idx) as (idx' & E & ?); [done..|].
    exists idx'. by rewrite E.
Qed.

(** ** The hasher against a from-scratch reference *)

Section reference.
Context (sha256 : bytes → bytes).
Context (hash_fn : BlockHash * list Z * option (list pyval) → bytes).
Context (NONE_HASH : BlockHash).
Context (block_size : Z).
Context (Hbs : 0 < block_size).

(** All the extra keys of the block [s, e), computed from the request alone. *)
Definition ref_extra (r : Request) (s e : Z) : option (list pyval) :=
  let keys :=
    _gen_lora_extra_hash_keys r ++ ref_mm_keys (mm_features r) s e ++
    (match cache_salt r with
     | Some salt => if bool_decide (s = 0) && bool_decide (salt ≠ ""%string)
                    then [PyStr salt] else []
     | None => []
     end) ++
    (match prompt_embeds r with
     | Some rows => [PyBytes (sha256 (concat (slice s e rows)))]
     | None => []
     end) in
  if bool_decide (keys = []) then None else Some keys.

(** The hash chain over blocks [i, i + n), from scratch. *)
Fixpoint ref_chain (r : Request) (prev : option BlockHash) (i : Z) (n : nat)
    : list BlockHash :=
  match n with
  | O => []
  | S n =>
      let s := i * block_size in
      let h := hash_block_tokens hash_fn NONE_HASH prev
                 (slice s (s + block_size) (_all_token_ids r))
                 (ref_extra r s (s + block_size)) in
      h :: ref_chain r (Some h) (i + 1) n
  end.

Definition num_full_blocks_of (r : Request) : nat := Z.to_nat (num_tokens r / block_size).
Definition ref_hashes (r : Request) : list BlockHash :=
  ref_chain r None 0 (num_full_blocks_of r).

(** The memo table of prompt-embedding hashes only holds correct entries. *)
Definition cache_ok (r : Request) : Prop :=
  ∀ s e h, _prompt_embeds_per_block_hashes r !! (s, e) = Some h →
    ∃ rows, prompt_embeds r = Some rows ∧ h = sha256 (concat (slice s e rows)).

Notation setc := set_prompt_embeds_per_block_hashes.

Lemma generate_spec s e idx r :
  feats_ok (mm_features r) → cache_ok r → mm_idx_ok (mm_features r) s idx → s ≤ e →
  ∃ c idx', generate_block_hash_extra_keys sha256 s e idx r =
      (Ok (ref_extra r s e, idx'), setc c r) ∧
    cache_ok (setc c r) ∧ mm_idx_ok (mm_features r) e idx'.
Proof.
  intros Hf Hc Hi Hse. destruct (gen_mm_spec r s e idx Hf Hse Hi) as (idx' & E & Hi').
  assert (∃ c, _gen_prompt_embeds_extra_hash_keys sha256 s e r =
     (Ok (match prompt_embeds r with
          | Some rows => [PyBytes (sha256 (concat (slice s e rows)))]
          | None => [] end), setc c r) ∧ cache_ok (setc c r)) as (c & Ec & Hc').
  { unfold _gen_prompt_embeds_extra_hash_keys, gets, modify, mbind, M_bind, mret, M_ret.
    destruct (prompt_embeds r) as [rows|] eqn:Er.
    - destruct (_ !! _) as [h|] eqn:Eh.
      + exists (_prompt_embeds_per_block_hashes r). destruct (Hc _ _ _ Eh) as (rows' & ? & ->).
        simplify_eq. by destruct r.
      + eexists. split; [done|]. intros s' e' h'. simpl.
        destruct (decide ((s', e') = (s, e))) as [[= -> ->]|Hne].
        * rewrite lookup_insert_eq. intros [= <-]. eauto.
        * rewrite lookup_insert_ne by done. apply Hc.
    - exists (_prompt_embeds_per_block_hashes r). by destruct r. }
  exists c, idx'. split; [|done].
  unfold generate_block_hash_extra_keys, gets, lift_res, mbind, M_bind. simpl.
  rewrite E, Ec. unfold ref_extra. by case_bool_decide.
Qed.

Lemma ref_chain_setc c r prev i n : ref_chain (setc c r) prev i n = ref_chain r prev i n.
Proof. revert prev i. induction n as [|n IH]; intros; simpl; [done|]. by rewrite IH. Qed.

Lemma hasher_loop_spec n fuel i idx prev acc r :
  feats_ok (mm_features r) → cache_ok r →
  mm_idx_ok (mm_features r) (i * block_size) idx →
  (n < fuel)%nat → 0 ≤ i → num_tokens r / block_size = i + Z.of_nat n →
  ∃ c, hasher_loop sha256 hash_fn NONE_HASH block_size fuel (i * block_size) idx prev acc r =
      (Ok (acc ++ ref_chain r prev i n), setc c r) ∧ cache_ok (setc c r).
Proof.
  revert fuel i idx prev acc r.
  induction n as [|n IH]; intros fuel i idx prev acc r Hf Hc Hidx Hfuel Hi Hn;
    (destruct fuel as [|fuel]; [lia|]); simpl;
    unfold gets, mbind, M_bind, mret, M_ret.
  - assert (num_tokens r < i * block_size + block_size) as Hlt.
    { pose proof (Z.mul_succ_div_gt (num_tokens r) block_size Hbs). nia. }
    replace (num_tokens r <? i * block_size + block_size) with true by lia.
    exists (_prompt_embeds_per_block_hashes r). rewrite app_nil_r. by destruct r.
  - assert (i * block_size + block_size ≤ num_tokens r) as Hle.
    { pose proof (Z.mul_div_le (num_tokens r) block_size Hbs). nia. }
    replace (num_tokens r <? i * block_size + block_size) with false by lia.
    destruct (generate_spec (i * block_size) (i * block_size + block_size) idx r)
      as (c & idx' & -> & Hc' & Hidx'); [done..|lia|].
    replace (i * block_size + block_size) with ((i + 1) * block_size) in * by lia.
    set (h := hash_block_tokens _ _ _ _ _).
    destruct (IH fuel (i + 1) idx' (Some h) (acc ++ [h]) (setc c r)) as (c' & E & Hc'');
      [done..|lia|lia|change (num_tokens (setc c r)) with (num_tokens r); lia|].
    exists c'. split; [|done]. rewrite E, <-app_assoc, ref_chain_setc. done.
Qed.

(** A tail block that was left incomplete may only overlap the last feature. *)
Definition tail_feats_ok (r : Request) (nblocks : nat) : Prop :=
  nblocks = 0%nat ∨
  ∀ f, f ∈ take (length (mm_features r) - 1) (mm_features r) →
    mm_end f ≤ Z.of_nat nblocks * block_size.

Lemma length_ref_chain r prev i n : length (ref_chain r prev i n) = n.
Proof. revert prev i. induction n as [|n IH]; intros; simpl; [done|]. by rewrite IH. Qed.

Lemma ref_chain_app r prev i n m :
  ref_chain r prev i (n + m) =
  ref_chain r prev i n ++
  ref_chain r (match last (ref_chain r prev i n) with Some h => Some h | None => prev end)
    (i + Z.of_nat n) m.
Proof.
  revert prev i. induction n as [|n IH]; intros prev i; simpl; [by rewrite Z.add_0_r|].
  f_equal. rewrite IH. f_equal. f_equal; [|lia].
  destruct (ref_chain r _ (i + 1) n) as [|h l] eqn:E; [done|].
  rewrite last_cons_cons. destruct (last (h :: l)) eqn:E'; [done|by apply last_None in E'].
Qed.

Lemma update_block_hashes_spec k r :
  feats_ok (mm_features r) → cache_ok r → tail_feats_ok r k →
  (k ≤ num_full_blocks_of r)%nat → block_hashes r = ref_chain r None 0 k →
  ∃ c, update_block_hashes sha256 hash_fn NONE_HASH block_size r =
      (Ok tt, set_block_hashes (ref_hashes r) (setc c r)) ∧ cache_ok (setc c r).
Proof.
  intros Hf Hc Ht Hk Hr. unfold update_block_hashes, request_block_hasher, gets, modify,
    mbind, M_bind, mret, M_ret.
  assert (Hlen : length (block_hashes r) = k) by (rewrite Hr; apply length_ref_chain).
  rewrite Hlen. unfold num_full_blocks_of in Hk.
  assert (Hnt : 0 ≤ num_tokens r) by (unfold num_tokens; lia).
  pose proof (Z.div_pos (num_tokens r) block_size Hnt Hbs) as Hdiv.
  pose proof (Z.mul_div_le (num_tokens r) block_size Hbs) as Hd1.
  pose proof (Z.mul_succ_div_gt (num_tokens r) block_size Hbs) as Hd2.
  unfold ref_hashes, num_full_blocks_of.
  set (q := num_tokens r / block_size) in *.
  destruct (Z.ltb_spec (num_tokens r) (Z.of_nat k * block_size + block_size)) as [Hlt|Hge].
  - exists (_prompt_embeds_per_block_hashes r). assert (Z.to_nat q = k) as -> by nia.
    rewrite app_nil_r, Hr. by destruct r.
  - assert (Z.of_nat k < q) by nia.
    destruct (hasher_loop_spec (Z.to_nat q - k) (S (Z.to_nat (num_tokens r))) (Z.of_nat k)
      (if 0 <? Z.of_nat k * block_size then -1 else 0) (last (block_hashes r)) [] r)
      as (c & -> & Hc'); [done|done| |nia|lia|lia|].
    { destruct Ht as [->|Ht].
      - right. simpl. split; [lia|]. intros f Hin. simpl in Hin. by apply elem_of_nil in Hin.
      - destruct (Z.ltb_spec 0 (Z.of_nat k * block_size)) as [Hpos|Hpos].
        + left. split; [done|]. done.
        + right. split; [lia|]. intros f Hin. simpl in Hin. by apply elem_of_nil in Hin. }
    exists c. split; [|done].
    replace (Z.to_nat q) with (k + (Z.to_nat q - k))%nat at 2 by lia.
    rewrite ref_chain_app, <-Hr. simpl. f_equal. f_equal. f_equal.
    f_equal. by destruct (last (block_hashes r)).
Qed.

(** Changing only fields the chain does not read, or appending tokens, keeps
    the hashes of the blocks that were already full. *)
Definition same_hash_inputs (r r' : Request) : Prop :=
  lora_request r' = lora_request r ∧ mm_features r' = mm_features r ∧
  cache_salt r' = cache_salt r ∧ prompt_embeds r' = prompt_embeds r.

Lemma ref_extra_ext r r' s e : same_hash_inputs r r' → ref_extra r' s e = ref_extra r s e.
Proof.
  intros (Hl & Hm & Hs & He). unfold ref_extra, _gen_lora_extra_hash_keys.
  by rewrite Hl, Hm, Hs, He.
Qed.

Lemma ref_chain_ext r r' t prev i n :
  same_hash_inputs r r' → _all_token_ids r' = _all_token_ids r ++ t →
  0 ≤ i → (i + Z.of_nat n) * block_size ≤ num_tokens r →
  ref_chain r' prev i n = ref_chain r prev i n.
Proof.
  intros Hsame Htok. unfold num_tokens. revert prev i.
  induction n as [|n IH]; intros prev i Hi Hn; simpl; [done|].
  rewrite Htok, (ref_extra_ext r r') by done.
  rewrite !slice_pos by lia. rewrite drop_app_le by nia.
  rewrite take_app_le by (rewrite length_drop; nia).
  f_equal. apply IH; lia.
Qed.

Definition hashes_exact (r : Request) : Prop :=
  feats_ok (mm_features r) ∧ cache_ok r ∧ block_hashes r = ref_hashes r.

Lemma num_full_mono r r' t :
  _all_token_ids r' = _all_token_ids r ++ t →
  (num_full_blocks_of r ≤ num_full_blocks_of r')%nat.
Proof.
  intros Htok. unfold num_full_blocks_of, num_tokens. rewrite Htok, length_app.
  apply Z2Nat.inj_le; [apply Z.div_pos; lia..|]. apply Z.div_le_mono; lia.
Qed.

Lemma num_full_bound r : Z.of_nat (num_full_blocks_of r) * block_size ≤ num_tokens r.
Proof.
  unfold num_full_blocks_of. rewrite Z2Nat.id by (apply Z.div_pos; unfold num_tokens; lia).
  pose proof (Z.mul_div_le (num_tokens r) block_size Hbs). lia.
Qed.

Lemma num_full_0 r : num_full_blocks_of r = 0%nat → num_tokens r < block_size.
Proof.
  unfold num_full_blocks_of. intros H.
  pose proof (Z.mul_succ_div_gt (num_tokens r) block_size Hbs). nia.
Qed.

Definition feats_inside (r : Request) : Prop :=
  ∀ f, f ∈ mm_features r → mm_end f ≤ num_tokens r.

(** The request after tokens are appended: its hashes and memo are brought up to date. *)
Lemma append_tokens_spec toks r :
  hashes_exact r → tail_feats_ok r (num_full_blocks_of r) →
  let r1 := set_all_token_ids (_all_token_ids r ++ toks) (set_output_token_ids (_output_token_ids r ++ toks) r) in
  ∃ c, append_output_token_ids sha256 hash_fn NONE_HASH block_size toks r =
      (Ok tt, set_block_hashes (ref_hashes r1) (setc c r1)) ∧
    hashes_exact (set_block_hashes (ref_hashes r1) (setc c r1)).
Proof.
  intros (Hf & Hc & Hr) Ht r1.
  assert (Hle : (num_full_blocks_of r ≤ num_full_blocks_of r1)%nat)
    by (by eapply num_full_mono).
  assert (Hex : ref_chain r1 None 0 (num_full_blocks_of r) = block_hashes r).
  { rewrite Hr. eapply ref_chain_ext; [done|done|lia|].
    pose proof (num_full_bound r). lia. }
  destruct (update_block_hashes_spec (num_full_blocks_of r) r1) as (c & E & Hc'); try done.
  exists c. split; [exact E|]. split; [exact Hf|]. split; [exact Hc'|].
  unfold ref_hashes. change (num_full_blocks_of (set_block_hashes _ _)) with (num_full_blocks_of r1).
  simpl. symmetry. eapply (ref_chain_ext r1 _ []); [done|by rewrite app_nil_r|lia|].
  pose proof (num_full_bound r1). lia.
Qed.

Lemma append_hashes_exact toks r :
  hashes_exact r → feats_inside r → tail_feats_ok r (num_full_blocks_of r) →
  ∃ r', append_output_token_ids sha256 hash_fn NONE_HASH block_size toks r = (Ok tt, r') ∧
    hashes_exact r' ∧ feats_inside r' ∧ tail_feats_ok r' (num_full_blocks_of r') ∧
    _all_token_ids r' = _all_token_ids r ++ toks.
Proof.
  intros Hr Hin Ht. destruct (append_tokens_spec toks r Hr Ht) as (c & E & Hr').
  set (r1 := set_all_token_ids _ _) in *. exists (set_block_hashes (ref_hashes r1) (setc c r1)).
  split; [exact E|]. split_and!; try done.
  - intros f Hfin. specialize (Hin f Hfin). unfold num_tokens in *. simpl.
    rewrite length_app. lia.
  - change (num_full_blocks_of (set_block_hashes _ _)) with (num_full_blocks_of r1).
    assert (Hle : (num_full_blocks_of r ≤ num_full_blocks_of r1)%nat) by (by eapply num_full_mono).
    destruct (decide (num_full_blocks_of r1 = 0%nat)) as [|Hk]; [by left|]. right.
    intros f Hfin. destruct Ht as [Ht|Ht].
    + apply num_full_0 in Ht. assert (mm_end f ≤ num_tokens r).
      { apply Hin. by eapply elem_of_take in Hfin as (i & ?%list_elem_of_lookup_2 & _). }
      nia.
    + specialize (Ht f Hfin). nia.
Qed.

Lemma appends_hashes_exact chunks r :
  hashes_exact r → feats_inside r → tail_feats_ok r (num_full_blocks_of r) →
  ∃ r', for_each chunks (append_output_token_ids sha256 hash_fn NONE_HASH block_size) r
      = (Ok tt, r') ∧
    hashes_exact r' ∧ _all_token_ids r' = _all_token_ids r ++ concat chunks.
Proof.
  revert r. induction chunks as [|t chunks IH]; intros r Hr Hin Ht.
  - exists r. simpl. by rewrite app_nil_r.
  - destruct (append_hashes_exact t r) as (r1 & E & Hr1 & Hin1 & Ht1 & Htok1); [done..|].
    destruct (IH r1) as (r' & E' & Hr' & Htok'); [done..|].
    exists r'. simpl. unfold mbind, M_bind. rewrite E, E'. split; [done|]. split; [done|].
    by rewrite Htok', Htok1, <-app_assoc.
Qed.

Lemma Request_fields_fresh id o ci pr at_ sp pp lora st ids embeds salt mm rs r :
  Request_fields id o ci pr at_ sp pp lora st ids embeds salt mm rs = Ok r →
  block_hashes r = [] ∧ _prompt_embeds_per_block_hashes r = ∅ ∧ mm_features r = mm.
Proof.
  unfold Request_fields. intros H.
  destruct (match pp with Some _ => _ | None => _ end) as [[]|]; [|done]. simpl in H.
  destruct (length_from_prompt_token_ids_or_embeds ids embeds); [|done].
  simpl in H. by simplify_eq.
Qed.

Lemma Request_init_exact id o ci pr at_ sp pp lora st ids embeds salt mm rs r :
  feats_ok mm →
  Request_init sha256 hash_fn NONE_HASH block_size
    id o ci pr at_ sp pp lora st ids embeds salt mm rs = Ok r →
  hashes_exact r ∧ mm_features r = mm.
Proof.
  intros Hmm. unfold Request_init. destruct (Request_fields _ _ _ _ _ _ _ _ _ _ _ _ _ _)
    as [r0|] eqn:E0; [|done]. apply Request_fields_fresh in E0 as (Hb & Hc & Hm). simpl.
  destruct (update_block_hashes_spec 0 r0) as (c & E & Hc').
  - by rewrite Hm.
  - intros s e h. by rewrite Hc.
  - by left.
  - lia.
  - done.
  - rewrite E. intros [= <-]. split; [|done]. split_and!; try done; [by simpl; rewrite Hm|].
    unfold ref_hashes. change (num_full_blocks_of (set_block_hashes _ _)) with (num_full_blocks_of r0).
    simpl. symmetry. eapply (ref_chain_ext r0 _ []); [done|by rewrite app_nil_r|lia|].
    pose proof (num_full_bound r0). lia.
Qed.
End reference.

Lemma created_tail bs r : 0 < bs → (∀ f, f ∈ take (length (mm_features r) - 1) (mm_features r) → mm_end f ≤ num_tokens r / bs * bs) →
  tail_feats_ok bs r (num_full_blocks_of bs r).
Proof.
  intros Hbs Htail. right. intros f Hf. specialize (Htail f Hf). unfold num_full_blocks_of.
  rewrite Z2Nat.id; [done|]. apply Z.div_pos; unfold num_tokens; lia.
Qed.

(** C11: the incremental block hasher is exact.  A request whose
    multimodal features are in prompt order, do not overlap and end inside the
    prompt, and of which only the last one reaches past the last full block of
    the prompt, is created with the block hashes of its prompt; after any
    sequence of [append_output_token_ids] calls its [block_hashes] are the
    hashes of all its full blocks computed from scratch - whatever the chunk
    boundaries of the appends were. *)
Theorem request_hashes_exact sha256 hash_fn NONE_HASH block_size
    id o ci pr at_ sp pp lora st ids embeds salt mm rs r chunks :
  0 < block_size → feats_ok mm →
  Request_init sha256 hash_fn NONE_HASH block_size
    id o ci pr at_ sp pp lora st ids embeds salt mm rs = Ok r →
  (∀ f, f ∈ mm → mm_end f ≤ num_tokens r) →
  (∀ f, f ∈ take (length mm - 1) mm → mm_end f ≤ num_tokens r / block_size * block_size) →
  block_hashes r = ref_hashes sha256 hash_fn NONE_HASH block_size r ∧
  ∃ r', for_each chunks (append_output_token_ids sha256 hash_fn NONE_HASH block_size) r
      = (Ok tt, r') ∧
    _all_token_ids r' = _all_token_ids r ++ concat chunks ∧
    block_hashes r' = ref_hashes sha256 hash_fn NONE_HASH block_size r'.
Proof.
  intros Hbs Hmm Hinit Hin Htail.
  apply (Request_init_exact sha256 hash_fn NONE_HASH block_size Hbs) in Hinit as [Hr Hm]; [|done].
  split; [apply Hr|].
  destruct (appends_hashes_exact sha256 hash_fn NONE_HASH block_size Hbs chunks r)
    as (r' & E & (_ & _ & Hr') & Htok); [done| | |by eauto].
  - intros f Hf. apply Hin. by rewrite <-Hm.
  - apply created_tail; [done|]. by rewrite Hm.
Qed.

Lemma request_hashes_exact_witness :
  let sha := (λ b : bytes, b) in
  let hf := (λ x : BlockHash * list Z * option (list pyval), 7 :: fst (fst x) ++ snd (fst x)) in
  let sp := mkSampling (Some 4) 0 None None None None in
  let mm := [mkFeature "img" 1 4 None] in
  ∃ r, (0 < 4 ∧ feats_ok mm ∧
    Request_init sha hf [1] 4 "r" 0 0 0 0 (Some sp) None None false
      (Some [10; 11; 11; 11; 11; 12]) None None mm false = Ok r) ∧
  block_hashes r = ref_hashes sha hf [1] 4 r ∧
  ∃ r', for_each [[13]; [14; 15; 16]] (append_output_token_ids sha hf [1] 4) r = (Ok tt, r') ∧
    _all_token_ids r' = _all_token_ids r ++ [13; 14; 15; 16] ∧
    block_hashes r' = ref_hashes sha hf [1] 4 r'.
Proof.
  intros sha hf sp mm. eexists. split.
  - split; [lia|]. split; [|reflexivity].
    simpl. split_and!; [lia| |done]. intros g Hg. by apply elem_of_nil in Hg.
  - apply (request_hashes_exact sha hf [1] 4 "r" 0 0 0 0 (Some sp) None None false
      (Some [10; 11; 11; 11; 11; 12]) None None mm false _ [[13]; [14; 15; 16]]).
    + lia.
    + simpl. split_and!; [lia| |done]. intros g Hg. by apply elem_of_nil in Hg.
    + reflexivity.
    + intros f Hf. apply list_elem_of_singleton in Hf as ->. vm_compute. discriminate.
    + intros f Hf. simpl in Hf. by apply elem_of_nil in Hf.
Defined.

(** ** What a block hash identifies *)

Lemma ref_chain_lookup sha256 hash_fn NONE_HASH bs r prev i n j h :
  0 < bs →
  ref_chain sha256 hash_fn NONE_HASH bs r prev i n !! j = Some h →
  h = hash_block_tokens hash_fn NONE_HASH
        (match j with O => prev | S j' => ref_chain sha256 hash_fn NONE_HASH bs r prev i n !! j' end)
        (slice ((i + Z.of_nat j) * bs) ((i + Z.of_nat j) * bs + bs) (_all_token_ids r))
        (ref_extra sha256 r ((i + Z.of_nat j) * bs) ((i + Z.of_nat j) * bs + bs)).
Proof.
  intros Hbs. revert prev i j. induction n as [|n IH]; intros prev i j H; [done|].
  destruct j as [|j]; simpl in H.
  - simplify_eq. by rewrite Z.add_0_r.
  - apply IH in H as ->. replace (i + 1 + Z.of_nat j) with (i + Z.of_nat (S j)) by lia.
    by destruct j.
Qed.

(** The hashes of a request are different from each other: a chain that came back to
    an earlier hash would lead back to its seed. *)
Lemma ref_hashes_NoDup sha256 hash_fn NONE_HASH bs r :
  0 < bs → (∀ x y, hash_fn x = hash_fn y → x = y) → (∀ x, hash_fn x ≠ []) → (∀ x, hash_fn x ≠ NONE_HASH) →
  NoDup (ref_hashes sha256 hash_fn NONE_HASH bs r).
Proof.
  intros Hbs Hinj Hne Hseed. unfold ref_hashes. generalize (num_full_blocks_of bs r) as n. intros n.
  set (l := ref_chain _ _ _ _ _ _ _ _).
  assert (∀ i j h, (i < j)%nat → l !! i = Some h → l !! j = Some h → False) as Hno.
  { induction i as [|i IH]; intros [|j] h Hlt Hi Hj; try lia;
      pose proof (ref_chain_lookup _ _ _ _ _ _ _ _ _ _ Hbs Hi) as Ei;
      pose proof (ref_chain_lookup _ _ _ _ _ _ _ _ _ _ Hbs Hj) as Ej; fold l in Ei, Ej;
      (destruct (l !! j) as [q|] eqn:Lj; [|apply lookup_ge_None in Lj; apply lookup_lt_Some in Hj; lia]);
      rewrite Ei in Ej; unfold hash_block_tokens in Ej; apply Hinj in Ej;
      pose proof (ref_chain_lookup _ _ _ _ _ _ _ _ _ _ Hbs Lj) as Eq; fold l in Eq; unfold hash_block_tokens in Eq.
    - destruct q as [|b q]; [by apply (Hne _ (eq_sym Eq))|]. rewrite Lj in Ej. apply (f_equal (λ x, x.1.1)) in Ej. cbn in Ej. eapply Hseed. etransitivity; [symmetry; exact Eq|done].
    - destruct (l !! i) as [p|] eqn:Li; [|apply lookup_ge_None in Li; apply lookup_lt_Some in Hi; lia].
      pose proof (ref_chain_lookup _ _ _ _ _ _ _ _ _ _ Hbs Li) as Ep. fold l in Ep. unfold hash_block_tokens in Ep.
      destruct q as [|b q]; [by apply (Hne _ (eq_sym Eq))|]. destruct p as [|b' p]; [by apply (Hne _ (eq_sym Ep))|].
      rewrite ?Li, ?Lj in Ej. apply (f_equal (λ x, x.1.1)) in Ej. cbn in Ej. apply (IH j (b :: q)); [lia|by rewrite Ej|done]. }
  apply NoDup_alt. intros i j h Hi Hj. destruct (lt_eq_lt_dec i j) as [[Hlt|]|Hlt]; [|done|]; exfalso; eauto.
Qed.

Lemma take_slice_blocks (l1 l2 : list Z) bs i :
  0 < bs →
  (∀ j, (j ≤ i)%nat → slice (Z.of_nat j * bs) (Z.of_nat j * bs + bs) l1 =
                      slice (Z.of_nat j * bs) (Z.of_nat j * bs + bs) l2) →
  take (Z.to_nat ((Z.of_nat i + 1) * bs)) l1 = take (Z.to_nat ((Z.of_nat i + 1) * bs)) l2.
Proof.
  intros Hbs.
  assert (Hstep : ∀ (l : list Z) j, take (Z.to_nat ((Z.of_nat j + 1) * bs)) l =
    take (Z.to_nat (Z.of_nat j * bs)) l ++ slice (Z.of_nat j * bs) (Z.of_nat j * bs + bs) l).
  { intros l j. rewrite slice_pos by lia.
    replace (Z.to_nat ((Z.of_nat j + 1) * bs)) with
      (Z.to_nat (Z.of_nat j * bs) + (Z.to_nat (Z.of_nat j * bs + bs) - Z.to_nat (Z.of_nat j * bs)))%nat
      by lia.
    by rewrite take_take_drop. }
  induction i as [|i IH]; intros H; rewrite !Hstep, H by done.
  - by rewrite !take_0.
  - f_equal. replace (Z.of_nat (S i)) with (Z.of_nat i + 1) by lia. apply IH. auto.
Qed.

(** The hashes of the reference identify the prefix. *)
Lemma ref_hash_identifies_prefix sha256 hash_fn NONE_HASH bs r1 r2 i h :
  0 < bs →
  (∀ x y, hash_fn x = hash_fn y → x = y) → (∀ x, hash_fn x ≠ []) →
  ref_hashes sha256 hash_fn NONE_HASH bs r1 !! i = Some h →
  ref_hashes sha256 hash_fn NONE_HASH bs r2 !! i = Some h →
  take (Z.to_nat ((Z.of_nat i + 1) * bs)) (_all_token_ids r1) =
  take (Z.to_nat ((Z.of_nat i + 1) * bs)) (_all_token_ids r2) ∧
  ∀ j, (j ≤ i)%nat →
    ref_extra sha256 r1 (Z.of_nat j * bs) (Z.of_nat j * bs + bs) =
    ref_extra sha256 r2 (Z.of_nat j * bs) (Z.of_nat j * bs + bs).
Proof.
  intros Hbs Hinj Hne. unfold ref_hashes.
  generalize (num_full_blocks_of bs r1) as n1, (num_full_blocks_of bs r2) as n2.
  intros n1 n2 H1 H2.
  assert (Hall : ∀ j, (j ≤ i)%nat →
    slice (Z.of_nat j * bs) (Z.of_nat j * bs + bs) (_all_token_ids r1) =
    slice (Z.of_nat j * bs) (Z.of_nat j * bs + bs) (_all_token_ids r2) ∧
    ref_extra sha256 r1 (Z.of_nat j * bs) (Z.of_nat j * bs + bs) =
    ref_extra sha256 r2 (Z.of_nat j * bs) (Z.of_nat j * bs + bs)).
  { revert h H1 H2. induction i as [|i IH]; intros h H1 H2 j Hj;
      pose proof (ref_chain_lookup _ _ _ _ _ _ _ _ _ _ Hbs H1) as E1;
      pose proof (ref_chain_lookup _ _ _ _ _ _ _ _ _ _ Hbs H2) as E2;
      rewrite E1 in E2; unfold hash_block_tokens in E2; apply Hinj in E2; simplify_eq.
    - assert (j = 0%nat) as -> by lia. done.
    - rewrite !Z.add_0_l in *.
      destruct (decide (j = S i)) as [->|]; [done|].
      destruct (ref_chain _ _ _ _ r1 _ _ _ !! i) as [p1|] eqn:P1.
      2: { apply lookup_ge_None in P1. apply lookup_lt_Some in H1. lia. }
      destruct (ref_chain _ _ _ _ r2 _ _ _ !! i) as [p2|] eqn:P2.
      2: { apply lookup_ge_None in P2. apply lookup_lt_Some in H2. lia. }
      assert (p1 = p2) as ->.
      { assert (p1 ≠ [] ∧ p2 ≠ []) as [].
        { split; intros ->; [apply (ref_chain_lookup _ _ _ _ _ _ _ _ _ _ Hbs) in P1
                            |apply (ref_chain_lookup _ _ _ _ _ _ _ _ _ _ Hbs) in P2];
            symmetry in P1 || symmetry in P2; by eapply Hne. }
        by destruct p1, p2. }
      apply (IH p2); [done..|lia]. }
  split; [|intros j Hj; by apply Hall].
  apply take_slice_blocks; [done|]. intros j Hj. by apply Hall.
Qed.

(** A request as the code makes it: created with multimodal features as [request_hashes_exact] asks
    for them, and extended by any appends. *)
Inductive made (sha256 : bytes → bytes) (hash_fn : BlockHash * list Z * option (list pyval) → bytes) (NONE_HASH : BlockHash) (bs : Z) (r : Request) : Prop :=
  | made_by id o ci pr at_ sp pp lora st ids embeds salt mm rs r0 chunks :
      feats_ok mm →
      Request_init sha256 hash_fn NONE_HASH bs id o ci pr at_ sp pp lora st ids embeds salt mm rs = Ok r0 →
      (∀ f, f ∈ mm → mm_end f ≤ num_tokens r0) →
      (∀ f, f ∈ take (length mm - 1) mm → mm_end f ≤ num_tokens r0 / bs * bs) →
      for_each chunks (append_output_token_ids sha256 hash_fn NONE_HASH bs) r0 = (Ok tt, r) →
      made sha256 hash_fn NONE_HASH bs r.

Lemma made_exact sha256 hash_fn NONE_HASH bs r : 0 < bs → made sha256 hash_fn NONE_HASH bs r →
  block_hashes r = ref_hashes sha256 hash_fn NONE_HASH bs r.
Proof.
  intros Hbs [id o ci pr at_ sp pp lora st ids embeds salt mm rs r0 chunks Hmm Hinit Hin Htail Hrun].
  apply (Request_init_exact sha256 hash_fn NONE_HASH bs Hbs) in Hinit as [Hr Hm]; [|done]. subst mm.
  destruct (appends_hashes_exact sha256 hash_fn NONE_HASH bs Hbs chunks r0) as (r' & E & (_ & _ & Hr') & _); [done|done|by apply created_tail|].
  rewrite Hrun in E. by injection E as ->.
Qed.

(** C12: a block hash identifies what the block's KV contents depend on.  With a collision-free hash
    function, two requests that were created and extended by the code (under the conditions of
    [request_hashes_exact]) and carry the same [i]-th block hash agree on all tokens of their first
    [i + 1] blocks and on the list of extra keys (of the LoRA, the multimodal items and their
    positions, the cache salt and the prompt embeddings) of every one of those blocks. *)
Theorem block_hash_identifies_prefix sha256 hash_fn NONE_HASH bs r1 r2 i h :
  0 < bs →
  (∀ x y, hash_fn x = hash_fn y → x = y) → (∀ x, hash_fn x ≠ []) →
  made sha256 hash_fn NONE_HASH bs r1 → made sha256 hash_fn NONE_HASH bs r2 →
  block_hashes r1 !! i = Some h → block_hashes r2 !! i = Some h →
  take (Z.to_nat ((Z.of_nat i + 1) * bs)) (_all_token_ids r1) =
  take (Z.to_nat ((Z.of_nat i + 1) * bs)) (_all_token_ids r2) ∧
  ∀ j, (j ≤ i)%nat →
    ref_extra sha256 r1 (Z.of_nat j * bs) (Z.of_nat j * bs + bs) =
    ref_extra sha256 r2 (Z.of_nat j * bs) (Z.of_nat j * bs + bs).
Proof.
  intros Hbs Hinj Hne M1 M2. rewrite (made_exact _ _ _ _ _ Hbs M1), (made_exact _ _ _ _ _ Hbs M2). by apply ref_hash_identifies_prefix.
Qed.

#[export] Instance pyval_countable : Countable pyval.
Proof.
  refine (inj_countable'
    (λ v, match v with PyStr s => inl (inl s) | PyPair s n => inl (inr (s, n))
                     | PyBytes b => inr b end)
    (λ x, match x with inl (inl s) => PyStr s | inl (inr (s, n)) => PyPair s n
                     | inr b => PyBytes b end) _).
  by intros [].
Defined.

(** A collision-free hash function, for the witnesses. *)
Definition enc_hash (x : BlockHash * list Z * option (list pyval)) : bytes :=
  [Zpos (encode x)].

Definition text_request (id : string) (lora : option LoRARequest) (salt : option string)
    (mm : list MultiModalFeatureSpec) (toks : list Z)
    (hash_fn : BlockHash * list Z * option (list pyval) → bytes) (NONE_HASH : bytes)
    (bs : Z) : Request :=
  match Request_init (λ b, b) hash_fn NONE_HASH bs id 0 0 0 0
          (Some (mkSampling (Some 16) 0 None None None None)) None lora false
          (Some toks) None salt mm true with
  | Ok r => r
  | Err _ => inhabitant
  end.

Lemma enc_hash_inj x y : enc_hash x = enc_hash y → x = y.
Proof.
  unfold enc_hash. intros E.
  assert (encode x = encode y) as E' by (by injection E). by apply (inj encode) in E'.
Qed.

Lemma text_request_made id toks chunks :
  let r0 := text_request id None None [] toks enc_hash [0] 2 in
  match Request_init (λ b, b) enc_hash [0] 2 id 0 0 0 0 (Some (mkSampling (Some 16) 0 None None None None)) None None false
    (Some toks) None None [] true with Ok _ => True | Err _ => False end →
  (for_each chunks (append_output_token_ids (λ b, b) enc_hash [0] 2) r0).1 = Ok tt →
  made (λ b, b) enc_hash [0] 2 (for_each chunks (append_output_token_ids (λ b, b) enc_hash [0] 2) r0).2.
Proof.
  unfold text_request. destruct (Request_init _ _ _ _ _ _ _ _ _ _ _ _ _ _ _ _ _ _) as [r0|] eqn:E; [|done]. intros _ Hrun.
  econstructor; [|exact E| | |rewrite <-Hrun; apply surjective_pairing]; [done|by intros f Hf%elem_of_nil..].
Qed.

Lemma block_hash_identifies_prefix_witness :
  let append c r := (append_output_token_ids (λ b, b) enc_hash [0] 2 c r).2 in
  let r1 := append [3; 4] (text_request "a" None None [] [1; 2] enc_hash [0] 2) in
  let r2 := append [5] (text_request "b" None None [] [1; 2; 3; 4] enc_hash [0] 2) in
  ∃ h, block_hashes r1 !! 1%nat = Some h ∧
    take 4 (_all_token_ids r1) = take 4 (_all_token_ids r2) ∧
    ∀ j, (j ≤ 1)%nat →
      ref_extra (λ b, b) r1 (Z.of_nat j * 2) (Z.of_nat j * 2 + 2) =
      ref_extra (λ b, b) r2 (Z.of_nat j * 2) (Z.of_nat j * 2 + 2).
Proof.
  intros append r1 r2. eexists. split; [reflexivity|].
  eapply (block_hash_identifies_prefix (λ b, b) enc_hash [0] 2 r1 r2 1).
  - lia.
  - exact enc_hash_inj.
  - discriminate.
  - apply (text_request_made "a" [1; 2] [[3; 4]]); by vm_compute.
  - apply (text_request_made "b" [1; 2; 3; 4] [[5]]); by vm_compute.
  - reflexivity.
  - reflexivity.
Defined.

(** ** Where the keys fall short *)

(** The extra keys of a LoRA name and of a cache salt are
    indistinguishable.  Whatever the hash function, a base-model request whose
    cache salt is the string [n] and a LoRA request for the adapter named [n]
    with the same first block of tokens get the same hash for that block,
    although the KV contents they need differ. *)
Theorem lora_and_salt_collide sha256 hash_fn NONE_HASH bs n lid r1 r2 :
  0 < bs → bs ≤ num_tokens r1 → n ≠ ""%string →
  _all_token_ids r1 = _all_token_ids r2 →
  mm_features r1 = [] → mm_features r2 = [] →
  prompt_embeds r1 = None → prompt_embeds r2 = None →
  lora_request r1 = Some (mkLoRA n lid) → cache_salt r1 = None →
  lora_request r2 = None → cache_salt r2 = Some n →
  ∃ h, ref_hashes sha256 hash_fn NONE_HASH bs r1 !! 0%nat = Some h ∧
       ref_hashes sha256 hash_fn NONE_HASH bs r2 !! 0%nat = Some h.
Proof.
  intros Hbs Hlen Hn Htok Hm1 Hm2 He1 He2 Hl1 Hs1 Hl2 Hs2.
  assert (Hfull : num_full_blocks_of bs r2 = num_full_blocks_of bs r1)
    by (unfold num_full_blocks_of, num_tokens; by rewrite Htok).
  assert (Hex : ref_extra sha256 r1 0 bs = ref_extra sha256 r2 0 bs).
  { unfold ref_extra, _gen_lora_extra_hash_keys.
    rewrite Hm1, Hm2, He1, He2, Hl1, Hs1, Hl2, Hs2. simpl.
    by rewrite (bool_decide_eq_true_2 (n ≠ ""%string)). }
  unfold ref_hashes. rewrite Hfull.
  assert (∃ k, num_full_blocks_of bs r1 = S k) as [k ->].
  { unfold num_full_blocks_of. pose proof (Z.div_le_mono bs (num_tokens r1) bs Hbs Hlen).
    rewrite Z.div_same in * by lia. exists (Z.to_nat (num_tokens r1 / bs) - 1)%nat. lia. }
  simpl. rewrite Z.mul_0_l, Z.add_0_l, Htok, Hex. eauto.
Qed.

Lemma lora_and_salt_collide_witness :
  let hf := (λ x : BlockHash * list Z * option (list pyval), snd (fst x)) in
  let r1 := text_request "lora" (Some (mkLoRA "sql" 1)) None [] [1; 2; 3] hf [0] 2 in
  let r2 := text_request "base" None (Some "sql"%string) [] [1; 2; 3] hf [0] 2 in
  ∃ h, ref_hashes (λ b, b) hf [0] 2 r1 !! 0%nat = Some h ∧
       ref_hashes (λ b, b) hf [0] 2 r2 !! 0%nat = Some h.
Proof.
  intros hf r1 r2.
  apply (lora_and_salt_collide (λ b, b) hf [0] 2 "sql" 1 r1 r2);
    try reflexivity; [vm_compute; discriminate|discriminate].
Defined.

(** A block that is completed by generated tokens only records the
    last multimodal item.  Two prompts of 14 tokens (block size 8) whose last
    block holds two images and which differ in the first of them: once two
    tokens are generated the requests have the same block hashes, for every
    hash function, while the from-scratch hashes tell them apart whenever the
    hash function is collision-free. *)
Theorem tail_block_forgets_image hash_fn :
  let mm (a : string) := [mkFeature a 8 2 None; mkFeature "b" 11 2 None] in
  let toks := [1; 2; 3; 4; 5; 6; 7; 8; 0; 0; 9; 0; 0; 9] in
  let run a :=
    (append_output_token_ids (λ b, b) hash_fn [0] 8 [20; 21]
       (text_request "r" None None (mm a) toks hash_fn [0] 8)).2 in
  block_hashes (run "cat"%string) = block_hashes (run "dog"%string) ∧
  ((∀ x y, hash_fn x = hash_fn y → x = y) →
     ref_hashes (λ b, b) hash_fn [0] 8 (run "cat"%string) ≠
     ref_hashes (λ b, b) hash_fn [0] 8 (run "dog"%string)).
Proof.
  cbv zeta. split; [vm_compute; reflexivity|].
  intros Hinj E. vm_compute in E. injection E as E. apply Hinj in E. discriminate.
Qed.

(** A streaming-session update leaves a stale block hash behind.
    With block size 4, a session of three prompt tokens samples one token [7],
    which completes the first block and hashes it; the update discards the
    sampled token and continues the prompt with [8; 9].  The request then holds
    the tokens [1; 2; 3; 8; 9], but its only block hash is still the hash of
    [1; 2; 3; 7]: it differs from the hash of its own first block, and equals
    the first block hash of an unrelated request whose prompt is
    [1; 2; 3; 7]. *)
Theorem session_update_keeps_stale_hash hash_fn :
  let r0 := text_request "s" None None [] [1; 2; 3] hash_fn [0] 4 in
  let r1 := (append_output_token_ids (λ b, b) hash_fn [0] 4 [7]
               (set_num_computed_tokens 3 r0)).2 in
  let '(out, r2) := _update_request_as_session (λ b, b) hash_fn [0] 4
                      (mkUpdate [] (Some [8; 9]) 1 None) r1 in
  let other := text_request "o" None None [] [1; 2; 3; 7] hash_fn [0] 4 in
  out = Ok false ∧ _all_token_ids r2 = [1; 2; 3; 8; 9] ∧
  prompt_token_ids r2 = Some [1; 2; 3; 8; 9] ∧ _output_token_ids r2 = [] ∧
  block_hashes r2 = block_hashes other ∧
  ((∀ x y, hash_fn x = hash_fn y → x = y) →
     block_hashes r2 ≠ ref_hashes (λ b, b) hash_fn [0] 4 r2).
Proof.
  vm_compute. split_and!; try reflexivity.
  intros Hinj E. injection E as E. apply Hinj in E. discriminate.
Qed.

(** ** Coarser block hashes *)

Lemma foldl_merge (l : list BlockHash) (acc : BlockHash) (base n : nat) :
  (base + n ≤ length l)%nat →
  foldl (λ acc i, m ← acc; h ← py_get l i; Ok (m ++ h)) (Ok acc)
    (seqZ (Z.of_nat base) (Z.of_nat n)) = Ok (acc ++ concat (take n (drop base l))).
Proof.
  revert acc base. induction n as [|n IH]; intros acc base Hle.
  { by rewrite seqZ_nil, take_0, app_nil_r by lia. }
  rewrite seqZ_cons by lia. destruct (lookup_lt_is_Some_2 l base) as [h Hh]; [lia|].
  rewrite (drop_S _ h) by done. simpl. rewrite (py_get_nat _ _ _ Hh). simpl.
  replace (Z.succ (Z.of_nat base)) with (Z.of_nat (S base)) by lia.
  replace (Z.pred (Z.of_nat (S n))) with (Z.of_nat n) by lia.
  rewrite IH by lia. by rewrite <-app_assoc.
Qed.

Lemma bhl_value_spec l k idx :
  scale_factor l = Z.of_nat (S k) →
  (idx * S k + S k ≤ length (bhl_block_hashes l))%nat →
  bhl_get_value_at l (Z.of_nat idx) =
    Ok (concat (take (S k) (drop (idx * S k) (bhl_block_hashes l)))).
Proof.
  intros Hs Hle. unfold bhl_get_value_at. rewrite Hs.
  destruct (lookup_lt_is_Some_2 (bhl_block_hashes l) (idx * S k)) as [h Hh]; [lia|].
  replace (Z.of_nat idx * Z.of_nat (S k)) with (Z.of_nat (idx * S k)) by lia.
  rewrite (py_get_nat _ _ _ Hh). cbn [mbind res_bind]. unfold range.
  replace (Z.of_nat (idx * S k) + 1) with (Z.of_nat (S (idx * S k))) by lia.
  replace (Z.of_nat (idx * S k) + Z.of_nat (S k) - Z.of_nat (S (idx * S k))) with (Z.of_nat k) by lia.
  rewrite foldl_merge by lia. by rewrite (drop_S _ h (idx * S k)).
Qed.

Lemma foldr_values l k n :
  scale_factor l = Z.of_nat (S k) → (n * S k ≤ length (bhl_block_hashes l))%nat →
  ∀ i, (i ≤ n)%nat →
  foldr (λ i acc, h ← bhl_get_value_at l i; r ← acc; Ok (h :: r)) (Ok [])
    (seqZ (Z.of_nat i) (Z.of_nat (n - i))) =
  Ok ((λ j, concat (take (S k) (drop (j * S k) (bhl_block_hashes l)))) <$> seq i (n - i)).
Proof.
  intros Hs Hn i Hi. remember (n - i)%nat as m eqn:Hm. revert i Hi Hm.
  induction m as [|m IH]; intros i Hi Hm; [done|].
  rewrite seqZ_cons by lia. simpl. rewrite (bhl_value_spec l k i) by (done || nia).
  cbn [mbind res_bind].
  replace (Z.succ (Z.of_nat i)) with (Z.of_nat (S i)) by lia.
  replace (Z.pred (Z.of_nat (S m))) with (Z.of_nat m) by lia.
  by rewrite (IH (S i)) by lia.
Qed.

(** [BlockHashListWithBlockSize] views a list of hashes at block size
    [bs] as hashes at block size [bs * k]: construction fails exactly when the
    target is not a multiple; otherwise the view has one entry per [k] complete
    source hashes, entry [j] is the concatenation of the [k] hashes it covers,
    iteration never raises, and a view entry determines its source hashes when
    these all have the same length. *)
Theorem block_hash_list_scale hashes bs target :
  0 < bs → 0 < target →
  (target mod bs ≠ 0 → BlockHashListWithBlockSize_init hashes bs target = Err AssertionError) ∧
  (target mod bs = 0 →
    ∃ l k, BlockHashListWithBlockSize_init hashes bs target = Ok l ∧
      target = bs * Z.of_nat (S k) ∧
      bhl_len l = Z.of_nat (length hashes / S k) ∧
      bhl_iter l = Ok ((λ j, concat (take (S k) (drop (j * S k) hashes)))
                         <$> seq 0 (length hashes / S k)) ∧
      ∀ w xs ys, Forall (λ h, length h = w) xs → Forall (λ h, length h = w) ys →
        length xs = S k → length ys = S k → (0 < w)%nat →
        concat (xs : list BlockHash) = concat ys → xs = ys).
Proof.
  intros Hbs Ht. unfold BlockHashListWithBlockSize_init.
  split; intros Hmod; [by rewrite bool_decide_eq_false_2|].
  rewrite bool_decide_eq_true_2 by done.
  pose proof (Z.div_mod target bs ltac:(lia)) as Hdm.
  assert (0 < target / bs) by nia.
  set (q := target / bs) in *. exists (mkHashList hashes q), (Z.to_nat q - 1)%nat.
  assert (Hq : q = Z.of_nat (S (Z.to_nat q - 1))) by lia.
  assert (Hlen : bhl_len (mkHashList hashes q) = Z.of_nat (length hashes / S (Z.to_nat q - 1))).
  { unfold bhl_len. rewrite Nat2Z.inj_div, <-Hq. done. }
  split_and!; [done|lia|exact Hlen| |].
  - unfold bhl_iter, range. rewrite Hlen, Z.sub_0_r.
    pose proof (foldr_values (mkHashList hashes q) (Z.to_nat q - 1)
      (length hashes / S (Z.to_nat q - 1)) Hq) as Hv.
    simpl bhl_block_hashes in Hv.
    specialize (Hv ltac:(rewrite Nat.mul_comm; apply Nat.Div0.mul_div_le) 0%nat ltac:(lia)).
    by rewrite Nat.sub_0_r in Hv.
  - clear. intros w xs ys Hx Hy Hlx Hly Hw. revert xs ys Hx Hy Hlx Hly.
    generalize (S (Z.to_nat q - 1)) as n. intros n.
    induction n as [|n IH]; intros xs ys Hx Hy Hlx Hly E.
    + apply nil_length_inv in Hlx as ->. by apply nil_length_inv in Hly as ->.
    + destruct xs as [|x xs], ys as [|y ys]; try done.
      apply Forall_cons in Hx as [Hx Hxs]. apply Forall_cons in Hy as [Hy Hys].
      simpl in *. apply app_inj_1 in E as [-> E]; [|congruence].
      f_equal. apply IH; auto.
Qed.

Lemma block_hash_list_scale_witness :
  ∃ l k, BlockHashListWithBlockSize_init [[1]; [2]; [3]; [4]; [5]] 16 32 = Ok l ∧
      32 = 16 * Z.of_nat (S k) ∧
      bhl_len l = Z.of_nat (5 / S k) ∧
      bhl_iter l = Ok ((λ j, concat (take (S k) (drop (j * S k) [[1]; [2]; [3]; [4]; [5]])))
                         <$> seq 0 (5 / S k)) ∧
      ∀ w xs ys, Forall (λ h, length h = w) xs → Forall (λ h, length h = w) ys →
        length xs = S k → length ys = S k → (0 < w)%nat →
        concat (xs : list BlockHash) = concat ys → xs = ys.
Proof.
  apply (block_hash_list_scale [[1]; [2]; [3]; [4]; [5]] 16 32); [lia|lia|reflexivity].
Defined.
