(* ===== verification/BlockPool.v ===== *)
(** * The block pool

    [vllm/v1/core/block_pool.py]: [BlockHashToBlockMap], the prefix-cache
    index, and [BlockPool], which owns every block object, the free queue of
    [FreeQueue] and the index.  The metrics collector, which only observes, is
    left out.

    The invariant [pool_ok s free] ties the three views of a block together
    (its reference count, its place in the free queue, its hash and the
    index); every operation keeps it, also when it raises. *)

From stdpp Require Import base list gmap strings.
From Stdlib Require Import ZArith Lia.
From S2P Require Import Prelude FreeQueue Request BlockHash.
Local Open Scope Z_scope.

(** ** The index from block hash to blocks *)

(** A hash maps to one block, or to a dict from block id to block. *)
Inductive KVCacheBlocksEntry :=
  | One (b : loc)
  | Many (d : list (Z * loc)).

Abbreviation BlockHashToBlockMap := (gmap BlockHashWithGroupId KVCacheBlocksEntry).

Definition get_one_block (key : BlockHashWithGroupId) (m : BlockHashToBlockMap)
    : res (option loc) :=
  match m !! key with
  | None => Ok None
  | Some (One b) => Ok (Some b)
  | Some (Many []) => Err StopIteration
  | Some (Many ((_, b) :: _)) => Ok (Some b)
  end.

(** [ids] reads the attribute [block_id] of a block object. *)
Definition map_insert (ids : loc → Z) (key : BlockHashWithGroupId) (b : loc)
    (m : BlockHashToBlockMap) : BlockHashToBlockMap :=
  match m !! key with
  | None => <[key := One b]> m
  | Some (One b0) => <[key := Many (dict_set [(ids b0, b0)] (ids b) b)]> m
  | Some (Many d) => <[key := Many (dict_set d (ids b) b)]> m
  end.

Definition map_pop (ids : loc → Z) (key : BlockHashWithGroupId) (id : Z)
    (m : BlockHashToBlockMap) : option loc * BlockHashToBlockMap :=
  match m !! key with
  | None => (None, m)
  | Some (One b) =>
      if bool_decide (ids b = id) then (Some b, delete key m)
      else (None, <[key := One b]> (delete key m))
  | Some (Many d) =>
      let d' := dict_del d id in
      (dict_get d id,
       if bool_decide (d' = []) then delete key m
       else <[key := Many d']> (delete key m))
  end.

(** ** Events *)

Inductive KVCacheEvent :=
  | BlockStored (ev_block_hashes : list ExternalBlockHash)
      (ev_parent_block_hash : option ExternalBlockHash) (ev_token_ids : list Z)
      (ev_block_size : Z) (ev_lora_id : option Z) (ev_lora_name : option string)
      (ev_extra_keys : option (list (option (list pyval))))
  | BlockRemoved (ev_block_hashes : list ExternalBlockHash)
  | AllBlocksCleared.

(** ** State *)

Record BlockPool := mkPool {
  pool_fq : fq;
  num_gpu_blocks : Z;
  enable_caching : bool;
  hash_block_size : Z;
  pool_blocks : list loc;
  cached_block_hash_to_block : BlockHashToBlockMap;
  null_block : loc;
  enable_kv_cache_events : bool;
  kv_event_queue : list KVCacheEvent
}.

Definition set_pool_fq (q : fq) (s : BlockPool) : BlockPool :=
  mkPool q (num_gpu_blocks s) (enable_caching s) (hash_block_size s) (pool_blocks s)
    (cached_block_hash_to_block s) (null_block s) (enable_kv_cache_events s)
    (kv_event_queue s).
Definition set_cached (m : BlockHashToBlockMap) (s : BlockPool) : BlockPool :=
  mkPool (pool_fq s) (num_gpu_blocks s) (enable_caching s) (hash_block_size s)
    (pool_blocks s) m (null_block s) (enable_kv_cache_events s) (kv_event_queue s).
Definition set_event_queue (l : list KVCacheEvent) (s : BlockPool) : BlockPool :=
  mkPool (pool_fq s) (num_gpu_blocks s) (enable_caching s) (hash_block_size s)
    (pool_blocks s) (cached_block_hash_to_block s) (null_block s)
    (enable_kv_cache_events s) l.

Definition fqL : lens BlockPool fq := Lens pool_fq set_pool_fq.

(** Attributes of a block object. *)
Definition blk (s : BlockPool) (b : loc) : KVCacheBlock := block (pool_fq s) b.
Definition ids (s : BlockPool) (b : loc) : Z := block_id (blk s b).
Definition set_ref_cnt (b : loc) (f : Z → Z) : M BlockPool unit :=
  zoom fqL (modify (upd_block b (λ k, with_ref_cnt (f (ref_cnt k)) k))).

Definition append_event (e : KVCacheEvent) : M BlockPool unit :=
  modify (λ s, set_event_queue (kv_event_queue s ++ [e]) s).

(** ** Operations *)

(** The block objects [KVCacheBlock(idx) for idx in range(n)] are the locations
    [0 .. n-1] of the initial store. *)
Definition BlockPool_init (n : Z) (caching : bool) (hash_bs : Z) (events : bool)
    : res BlockPool :=
  if bool_decide (0 < n) then
    let bs := seq 0 (Z.to_nat n) in
    let '(r, q) :=
      (FreeKVCacheBlockQueue_init bs ;;
       nb ← popleft;
       modify (upd_block nb (with_null true)) ;;
       mret nb) (fresh_blocks (Z.to_nat n)) in
    nb ← r;
    Ok (mkPool q n caching hash_bs bs ∅ nb events [])
  else Err AssertionError.

Definition get_num_free_blocks (s : BlockPool) : Z := num_free_blocks (pool_fq s).

(** [get_usage] returns a float; here the pair of its numerator and
    denominator. *)
Definition get_usage (s : BlockPool) : Z * Z :=
  let total := num_gpu_blocks s - 1 in
  if bool_decide (total = 0) then (0, 1) else (total - get_num_free_blocks s, total).

Fixpoint get_cached_loop (block_hash : BlockHash) (group_ids : list Z)
    (m : BlockHashToBlockMap) (cached_blocks : list loc) : res (option (list loc)) :=
  match group_ids with
  | [] => Ok (Some cached_blocks)
  | group_id :: rest =>
      key ← make_block_hash_with_group_id block_hash group_id;
      ob ← get_one_block key m;
      match ob with
      | None => Ok None
      | Some b => get_cached_loop block_hash rest m (cached_blocks ++ [b])
      end
  end.

Definition get_cached_block (block_hash : BlockHash) (kv_cache_group_ids : list Z)
    (s : BlockPool) : res (option (list loc)) :=
  get_cached_loop block_hash kv_cache_group_ids (cached_block_hash_to_block s) [].

Section pool.
(** [VLLM_KV_EVENTS_USE_INT_BLOCK_HASHES] and [hashlib.sha256]. *)
Context (use_int : bool) (sha256 : bytes → bytes).

Definition _maybe_evict_cached_block (b : loc) : M BlockPool bool :=
  bh ← gets (λ s, _block_hash (blk s b));
  match bh with
  | None => mret false
  | Some block_hash =>
      popped ← (λ s,
        let '(o, m) := map_pop (ids s) block_hash (ids s b)
                         (cached_block_hash_to_block s) in
        (Ok o, set_cached m s));
      match popped with
      | None => mret false
      | Some _ =>
          zoom fqL (reset_hash b) ;;
          ev ← gets enable_kv_cache_events;
          (if (ev : bool) then
             append_event
               (BlockRemoved [maybe_convert_block_hash use_int (get_block_hash block_hash)])
           else mret tt) ;;
          mret true
      end
  end.

Definition get_new_blocks (num_blocks : Z) : M BlockPool (list loc) :=
  nf ← gets get_num_free_blocks;
  if nf <? num_blocks then raise ValueError
  else
    ret ← zoom fqL (popleft_n num_blocks);
    caching ← gets enable_caching;
    (if (caching : bool) then
       for_each ret (λ b,
         _maybe_evict_cached_block b ;;
         rc ← gets (λ s, ref_cnt (blk s b));
         assert_ (bool_decide (rc = 0)) ;;
         set_ref_cnt b (λ n, n + 1))
     else
       for_each ret (λ b,
         rc ← gets (λ s, ref_cnt (blk s b));
         assert_ (bool_decide (rc = 0)) ;;
         set_ref_cnt b (λ n, n + 1))) ;;
    mret ret.

Definition touch (bs : list loc) : M BlockPool unit :=
  for_each bs (λ b,
    k ← gets (λ s, blk s b);
    (if bool_decide (ref_cnt k = 0) && negb (is_null k)
     then zoom fqL (remove b) else mret tt) ;;
    set_ref_cnt b (λ n, n + 1)).

Definition free_blocks (ordered_blocks : list loc) : M BlockPool unit :=
  for_each ordered_blocks (λ b, set_ref_cnt b (λ n, n - 1)) ;;
  to_free ← gets (λ s,
    filter (λ b, ref_cnt (blk s b) = 0 ∧ is_null (blk s b) = false) ordered_blocks);
  zoom fqL (append_n to_free).

(** The iteration order of the Python set is a parameter: [block_ids] lists its
    elements. *)
Definition evict_blocks (block_ids : list Z) : M BlockPool unit :=
  for_each block_ids (λ block_id,
    bs ← gets pool_blocks;
    assert_ (block_id <? Z.of_nat (length bs)) ;;
    b ← lift_res (py_get bs block_id);
    _maybe_evict_cached_block b ;;
    mret tt).

Definition reset_prefix_cache : M BlockPool bool :=
  used ← gets (λ s, num_gpu_blocks s - get_num_free_blocks s);
  if bool_decide (used ≠ 1) then mret false
  else
    modify (set_cached ∅) ;;
    bs ← gets pool_blocks;
    for_each bs (λ b, zoom fqL (reset_hash b)) ;;
    ev ← gets enable_kv_cache_events;
    (if (ev : bool) then append_event AllBlocksCleared else mret tt) ;;
    mret true.

Definition take_events : M BlockPool (list KVCacheEvent) :=
  ev ← gets enable_kv_cache_events;
  if negb ev then mret []
  else events ← gets kv_event_queue; modify (set_event_queue []) ;; mret events.

(** *** Caching full blocks *)

(** The block hashes at the granularity of [block_size]: the request's own list
    or the coarser view of it. *)
Inductive HashView := HVList (l : list BlockHash) | HVScaled (l : BlockHashListWithBlockSize).

Definition hv_get (v : HashView) (i : Z) : res BlockHash :=
  match v with HVList l => py_get l i | HVScaled l => bhl_get_value_at l i end.
Definition hv_slice_from (v : HashView) (i : Z) : res (list BlockHash) :=
  match v with
  | HVList l => Ok (slice_from i l)
  | HVScaled l => bhl_getitem_slice l i (bhl_len l)
  end.

(** The loop over [enumerate(new_full_blocks)]; [i] is the index and the result
    is [new_hashes]. *)
Fixpoint cache_loop (group_id : Z) (new_block_hashes : list BlockHash) (i : Z)
    (bs : list loc) (new_hashes : list ExternalBlockHash)
    : M BlockPool (list ExternalBlockHash) :=
  match bs with
  | [] => mret new_hashes
  | b :: rest =>
      k ← gets (λ s, blk s b);
      if is_null k then cache_loop group_id new_block_hashes (i + 1) rest new_hashes
      else
        assert_ (bool_decide (_block_hash k = None)) ;;
        block_hash ← lift_res (py_get new_block_hashes i);
        key ← lift_res (make_block_hash_with_group_id block_hash group_id);
        zoom fqL (set_block_hash b key) ;;
        modify (λ s, set_cached (map_insert (ids s) key b (cached_block_hash_to_block s)) s) ;;
        cache_loop group_id new_block_hashes (i + 1) rest
          (new_hashes ++ [maybe_convert_block_hash use_int block_hash])
  end.

(** The extra keys of every non-null block in the range; [r] is the request
    with its memo of prompt-embedding hashes. *)
Fixpoint event_keys_loop (bs : list loc) (block_size : Z) (idxs : list Z) (curr_mm_idx : Z)
    (acc : list (option (list pyval))) (r : Request)
    : M BlockPool (list (option (list pyval)) * Request) :=
  match idxs with
  | [] => mret (acc, r)
  | i :: rest =>
      b ← lift_res (py_get bs i);
      k ← gets (λ s, blk s b);
      if is_null k then event_keys_loop bs block_size rest curr_mm_idx acc r
      else
        let block_start := i * block_size in
        let block_end := block_start + block_size in
        let '(x, r') := generate_block_hash_extra_keys sha256 block_start block_end
                          curr_mm_idx r in
        '(extra_keys, idx) ← lift_res x;
        event_keys_loop bs block_size rest idx (acc ++ [extra_keys]) r'
  end.

(** The result is the request, whose memo of prompt-embedding hashes may have
    grown. *)
Definition cache_full_blocks (request : Request) (bs : list loc)
    (num_cached_blocks num_full_blocks block_size kv_cache_group_id : Z)
    : M BlockPool Request :=
  if num_full_blocks <=? num_cached_blocks then mret request
  else
    let new_full_blocks := slice num_cached_blocks num_full_blocks bs in
    assert_ (num_full_blocks <=? Z.of_nat (length (block_hashes request))) ;;
    hbs ← gets hash_block_size;
    hv ← (if bool_decide (block_size = hbs) then mret (HVList (block_hashes request))
          else
            l ← lift_res (BlockHashListWithBlockSize_init (block_hashes request) hbs block_size);
            mret (HVScaled l));
    new_block_hashes ← lift_res (hv_slice_from hv num_cached_blocks);
    new_hashes ← cache_loop kv_cache_group_id new_block_hashes 0 new_full_blocks [];
    ev ← gets enable_kv_cache_events;
    if negb ev then mret request
    else
      parent ← (if bool_decide (num_cached_blocks = 0) then mret None
                else
                  h ← lift_res (hv_get hv (num_cached_blocks - 1));
                  mret (Some (maybe_convert_block_hash use_int h)));
      '(extra_keys_list, request') ←
        event_keys_loop bs block_size (range num_cached_blocks num_full_blocks) 0 [] request;
      append_event
        (BlockStored new_hashes parent
           (slice (num_cached_blocks * block_size) (num_full_blocks * block_size)
              (_all_token_ids request))
           block_size
           (lora_int_id <$> lora_request request) (lora_name <$> lora_request request)
           (if bool_decide (extra_keys_list = []) then None else Some extra_keys_list)) ;;
      mret request'.
End pool.

(** ** The index represents the hash fields *)

Definition members (e : option KVCacheBlocksEntry) : list (Z * loc) :=
  match e with
  | None => []
  | Some (One b) => [(Z.of_nat b, b)]
  | Some (Many d) => d
  end.

(** [m] maps each key to exactly the blocks below [n] whose hash field [h]
    holds it; no entry is an empty dict. *)
Record index_ok (h : loc → option BlockHashWithGroupId) (n : nat)
    (m : BlockHashToBlockMap) : Prop := {
  ix_nodup : ∀ key, NoDup (members (m !! key)).*1;
  ix_mem : ∀ key id b,
    (id, b) ∈ members (m !! key) ↔ id = Z.of_nat b ∧ (b < n)%nat ∧ h b = Some key;
  ix_nonempty : ∀ key, m !! key ≠ Some (Many [])
}.

Section index.
Context (h : loc → option BlockHashWithGroupId) (n : nat) (m : BlockHashToBlockMap).
Context (bid : loc → Z) (Hbid : ∀ b, (b < n)%nat → bid b = Z.of_nat b).
Context (Hm : index_ok h n m).

Lemma one_id key b : m !! key = Some (One b) → (b < n)%nat ∧ h b = Some key.
Proof.
  intros E. pose proof (ix_mem _ _ _ Hm key (Z.of_nat b) b) as [H _].
  rewrite E in H. destruct H as (_ & ? & ?); [left|done].
Qed.

Lemma index_update h' m' key l :
  (∀ k, k ≠ key → m' !! k = m !! k) →
  members (m' !! key) = l → m' !! key ≠ Some (Many []) →
  NoDup l.*1 →
  (∀ id b, (id, b) ∈ l ↔ id = Z.of_nat b ∧ (b < n)%nat ∧ h' b = Some key) →
  (∀ b k, k ≠ key → h' b = Some k ↔ h b = Some k) →
  index_ok h' n m'.
Proof.
  intros Hne E Hno Hnd Hl Hh. split.
  - intros k. destruct (decide (k = key)) as [->|Hk]; [by rewrite E|].
    rewrite Hne by done. apply Hm.
  - intros k id b. destruct (decide (k = key)) as [->|Hk]; [by rewrite E|].
    rewrite Hne, Hh by done. apply Hm.
  - intros k. destruct (decide (k = key)) as [->|Hk]; [done|].
    rewrite Hne by done. apply Hm.
Qed.

Lemma members_insert key b :
  (b < n)%nat →
  members (map_insert bid key b m !! key) = dict_set (members (m !! key)) (Z.of_nat b) b.
Proof.
  intros Hb. unfold map_insert. rewrite <-(Hbid b) by done.
  destruct (m !! key) as [[b0|d]|] eqn:E; rewrite lookup_insert_eq; simpl.
  - apply one_id in E as [??]. by rewrite (Hbid b0).
  - done.
  - by rewrite (Hbid b).
Qed.

Lemma dict_set_nonempty {K V} `{EqDecision K} (d : list (K * V)) k v : dict_set d k v ≠ [].
Proof. destruct d as [|[k' v'] d]; simpl; [done|]. by case_decide. Qed.

Lemma index_insert h' key b :
  (b < n)%nat → h b = None →
  (∀ x, h' x = if decide (x = b) then Some key else h x) →
  index_ok h' n (map_insert bid key b m).
Proof.
  intros Hb Hhb Hh'. eapply (index_update _ _ key).
  - intros k Hk. unfold map_insert.
    destruct (m !! key) as [[]|]; by rewrite lookup_insert_ne by done.
  - by apply members_insert.
  - unfold map_insert. destruct (m !! key) as [[]|] eqn:E; rewrite lookup_insert_eq; [..|done].
    + by simpl; case_decide.
    + intros [= E']. by apply dict_set_nonempty in E'.
  - apply dict_set_NoDup, Hm.
  - intros id x.
    assert (NoDup (dict_set (members (m !! key)) (Z.of_nat b) b).*1) as Hnd
      by apply dict_set_NoDup, Hm.
    split.
    + intros Hin. apply dict_get_elem in Hin; [|done]. rewrite dict_get_set in Hin.
      rewrite Hh'. case_decide as E.
      * simplify_eq. by rewrite decide_True.
      * apply dict_get_Some, Hm in Hin as (-> & ? & ?).
        rewrite decide_False by congruence. done.
    + intros (-> & Hx & E). rewrite Hh' in E. apply dict_get_Some.
      rewrite dict_get_set. case_decide as E1.
      * subst. by rewrite decide_True.
      * rewrite decide_False by lia. apply dict_get_elem; [apply Hm|]. by apply Hm.
  - intros x k Hk. rewrite Hh'. case_decide; [|done]. subst. rewrite Hhb. split; congruence.
Qed.

Lemma members_pop key b :
  (b < n)%nat → h b = Some key →
  (map_pop bid key (bid b) m).1 = Some b ∧
  members ((map_pop bid key (bid b) m).2 !! key) = dict_del (members (m !! key)) (Z.of_nat b) ∧
  (map_pop bid key (bid b) m).2 !! key ≠ Some (Many []).
Proof.
  intros Hb Hh. pose proof (ix_mem _ _ _ Hm key (Z.of_nat b) b) as [_ Hin].
  specialize (Hin ltac:(done)). pose proof (ix_nodup _ _ _ Hm key) as Hnd.
  unfold map_pop. rewrite (Hbid b) by done. destruct (m !! key) as [[b0|d]|] eqn:E; simpl in *.
  - apply list_elem_of_singleton in Hin. simplify_eq.
    rewrite Hbid, bool_decide_eq_true_2 by done. simpl. rewrite lookup_delete_eq.
    by rewrite decide_True.
  - apply (dict_get_elem _ _ _ Hnd) in Hin. split; [done|]. case_bool_decide as E1.
    + rewrite lookup_delete_eq. by rewrite E1.
    + rewrite lookup_insert_eq. split; [done|]. congruence.
  - by apply elem_of_nil in Hin.
Qed.

Lemma index_pop h' key b :
  (b < n)%nat → h b = Some key →
  (∀ x, h' x = if decide (x = b) then None else h x) →
  index_ok h' n (map_pop bid key (bid b) m).2.
Proof.
  intros Hb Hhb Hh'. destruct (members_pop key b Hb Hhb) as (_ & E & Hne).
  eapply (index_update _ _ key).
  - intros k Hk. unfold map_pop. destruct (m !! key) as [[b0|d]|]; simpl; [..|done];
      case_bool_decide; simpl; by rewrite ?lookup_insert_ne, ?lookup_delete_ne by done.
  - exact E.
  - done.
  - apply dict_del_NoDup, Hm.
  - intros id x. rewrite dict_elem_del by apply Hm. rewrite (ix_mem _ _ _ Hm), Hh'.
    case_decide as Ex; [subst|].
    + split; [intros (? & ? & ?); congruence|intros (? & ? & ?); congruence].
    + split; [tauto|]. intros (-> & ? & ?). split; [lia|done].
  - intros x k Hk. rewrite Hh'. case_decide; [|done]. subst. rewrite Hhb. split; congruence.
Qed.

Lemma get_one_block_spec key :
  match get_one_block key m with
  | Ok (Some b) => (b < n)%nat ∧ h b = Some key
  | Ok None => ∀ b, (b < n)%nat → h b ≠ Some key
  | Err _ => False
  end.
Proof.
  pose proof (ix_mem _ _ _ Hm key) as Hmem. pose proof (ix_nonempty _ _ _ Hm key) as Hne.
  unfold get_one_block. destruct (m !! key) as [[b|[|[i b] d]]|] eqn:E; simpl in *.
  - by apply one_id.
  - done.
  - destruct (Hmem i b) as [H _]. destruct H as (_ & ? & ?); [left|done].
  - intros b Hb Hh. destruct (Hmem (Z.of_nat b) b) as [_ H].
    specialize (H ltac:(done)). by apply elem_of_nil in H.
Qed.
End index.

Lemma index_ok_ext h h' n m : (∀ b, (b < n)%nat → h' b = h b) → index_ok h n m → index_ok h' n m.
Proof.
  intros E [H1 H2 H3]. split; [done| |done]. intros key id b. rewrite H2.
  split; intros (? & Hb & ?); (split; [done|split; [done|]]); specialize (E b Hb); congruence.
Qed.

Lemma index_empty h n : (∀ b, (b < n)%nat → h b = None) → index_ok h n ∅.
Proof.
  intros Hh. split; intros key; rewrite lookup_empty; simpl.
  - apply NoDup_nil_2.
  - intros id b. split; [by intros H%elem_of_nil|]. intros (_ & Hb & E). by rewrite Hh in E.
  - done.
Qed.

(** ** The pool's invariant *)

Definition nblocks (s : BlockPool) : nat := Z.to_nat (num_gpu_blocks s).

(** [free] is the free queue; [pend] holds blocks that left it and whose
    reference count has not been raised yet (or the reverse).  A block other
    than the null block 0 is in one of the two exactly when its reference
    count is 0. *)
Record pool_wf (s : BlockPool) (free pend : list loc) : Prop := {
  pw_pos : 0 < num_gpu_blocks s;
  pw_blocks : pool_blocks s = seq 0 (nblocks s);
  pw_rep : rep (pool_fq s) free;
  pw_ends : fake_free_list_head (pool_fq s) = nblocks s ∧
            fake_free_list_tail (pool_fq s) = S (nblocks s);
  pw_null : null_block s = 0%nat;
  pw_ids : ∀ b, (b < nblocks s)%nat →
    ids s b = Z.of_nat b ∧ is_null (blk s b) = bool_decide (b = 0%nat);
  pw_nodup : NoDup (free ++ pend);
  pw_free : ∀ b, b ∈ free ++ pend ↔ (0 < b < nblocks s)%nat ∧ ref_cnt (blk s b) = 0;
  pw_ref : ∀ b, (0 < b < nblocks s)%nat → 0 ≤ ref_cnt (blk s b);
  pw_null_hash : _block_hash (blk s 0%nat) = None;
  pw_index : index_ok (λ b, _block_hash (blk s b)) (nblocks s) (cached_block_hash_to_block s)
}.
Abbreviation pool_ok s free := (pool_wf s free []).

(** What no operation changes. *)
Record pool_frame (s s' : BlockPool) : Prop := {
  pf_num : num_gpu_blocks s' = num_gpu_blocks s;
  pf_caching : enable_caching s' = enable_caching s;
  pf_hbs : hash_block_size s' = hash_block_size s;
  pf_blocks : pool_blocks s' = pool_blocks s;
  pf_null : null_block s' = null_block s;
  pf_events : enable_kv_cache_events s' = enable_kv_cache_events s
}.
#[export] Instance pool_frame_refl : Reflexive pool_frame.
Proof. by split. Qed.
#[export] Instance pool_frame_trans : Transitive pool_frame.
Proof. intros s1 s2 s3 [] []. split; congruence. Qed.

Lemma rep_upd q b f l :
  (∀ k, prev_free_block (f k) = prev_free_block k ∧ next_free_block (f k) = next_free_block k) →
  rep q l → rep (upd_block b f q) l.
Proof.
  intros Hf [[Hs Hnd Ht Hh Ho] Hn].
  assert (∀ x, nx (upd_block b f q) x = nx q x) as En.
  { intros x. rewrite nx_upd. case_decide; [|done]. subst. by destruct (Hf (block q x)). }
  assert (∀ x, pv (upd_block b f q) x = pv q x) as Ep.
  { intros x. rewrite pv_upd. case_decide; [|done]. subst. by destruct (Hf (block q x)). }
  split; [|done]. split; simpl; try done.
  - by eapply seg_ext.
  - by rewrite En.
  - by rewrite Ep.
  - intros x Hx. rewrite En, Ep. auto.
Qed.

Lemma same_meta_blk q q' b :
  same_meta q q' →
  block_id (block q' b) = block_id (block q b) ∧ ref_cnt (block q' b) = ref_cnt (block q b) ∧
  _block_hash (block q' b) = _block_hash (block q b) ∧ is_null (block q' b) = is_null (block q b).
Proof. intros [_ _ _ H]. specialize (H b). unfold meta in H. by simplify_eq. Qed.

(** A queue operation: only the free and pending lists move. *)
Lemma pool_wf_queue s free pend q' free' pend' :
  pool_wf s free pend → rep q' free' → same_meta (pool_fq s) q' →
  free' ++ pend' ≡ₚ free ++ pend →
  pool_wf (set_pool_fq q' s) free' pend'.
Proof.
  intros [] Hrep Hm Hp.
  assert (∀ b, meta (block q' b) = meta (blk s b)) as Hmeta by apply Hm.
  split; unfold ids, blk, nblocks in *; simpl; try done.
  - by rewrite (sm_head _ _ Hm), (sm_tail _ _ Hm).
  - intros b Hb. destruct (same_meta_blk _ _ b Hm) as (-> & _ & _ & ->). auto.
  - by rewrite Hp.
  - intros b. rewrite Hp. destruct (same_meta_blk _ _ b Hm) as (_ & -> & _). auto.
  - intros b Hb. destruct (same_meta_blk _ _ b Hm) as (_ & -> & _). auto.
  - destruct (same_meta_blk _ _ 0%nat Hm) as (_ & _ & -> & _). done.
  - eapply index_ok_ext; [|done]. intros b _. simpl.
    by destruct (same_meta_blk _ _ b Hm) as (_ & _ & -> & _).
Qed.

(** Only reference counts and hashes of the store change. *)
Definition upd_pool (b : loc) (f : KVCacheBlock → KVCacheBlock) (s : BlockPool) : BlockPool :=
  set_pool_fq (upd_block b f (pool_fq s)) s.

Lemma blk_upd s b f x : blk (upd_pool b f s) x = if decide (b = x) then f (blk s b) else blk s x.
Proof. apply block_upd. Qed.
Lemma blk_set_cached m s x : blk (set_cached m s) x = blk s x. Proof. done. Qed.
Lemma blk_set_events l s x : blk (set_event_queue l s) x = blk s x. Proof. done. Qed.
#[export] Hint Rewrite blk_upd blk_set_cached blk_set_events : heap.


Lemma pool_wf_ref s free pend pend' b g :
  pool_wf s free pend → (b < nblocks s)%nat →
  (b ≠ 0%nat → 0 ≤ g (ref_cnt (blk s b)) ∧
     (b ∈ free ++ pend' ↔ g (ref_cnt (blk s b)) = 0)) →
  NoDup (free ++ pend') → (∀ x, x ≠ b ∨ x = 0%nat → x ∈ pend' ↔ x ∈ pend) →
  pool_wf (upd_pool b (λ k, with_ref_cnt (g (ref_cnt k)) k) s) free pend'.
Proof.
  intros [] Hb Hg Hnd Hx. set (f := λ k, with_ref_cnt (g (ref_cnt k)) k).
  assert (∀ x, block_id (blk (upd_pool b f s) x) = block_id (blk s x) ∧
     _block_hash (blk (upd_pool b f s) x) = _block_hash (blk s x) ∧
     is_null (blk (upd_pool b f s) x) = is_null (blk s x)) as Hk.
  { intros x. rewrite blk_upd. case_decide; [subst; done|done]. }
  split; try done.
  - by apply rep_upd.
  - intros x Hx'. unfold ids. destruct (Hk x) as (-> & _ & ->). by apply pw_ids0.
  - intros x. change (nblocks (upd_pool b f s)) with (nblocks s). rewrite blk_upd.
    specialize (pw_free0 x). rewrite elem_of_app in *.
    case_decide as E; [subst x; simpl|].
    + destruct (decide (b = 0%nat)) as [->|H0].
      * rewrite Hx, pw_free0 by auto. lia.
      * destruct Hg as [_ Hg]; [done|]. rewrite ?elem_of_app in Hg. rewrite Hg.
        split; [split; [lia|done]|tauto].
    + by rewrite Hx by auto.
  - intros x Hx'. rewrite blk_upd. case_decide; [subst; simpl; apply Hg; lia|]. by apply pw_ref0.
  - destruct (Hk 0%nat) as (_ & -> & _). done.
  - eapply index_ok_ext; [|exact pw_index0]. intros x _. by destruct (Hk x) as (_ & -> & _).
Qed.

Lemma pool_wf_hash s free pend b o m :
  pool_wf s free pend → (0 < b < nblocks s)%nat →
  (∀ h, (∀ x, h x = if decide (x = b) then o else _block_hash (blk s x)) →
     index_ok h (nblocks s) m) →
  pool_wf (set_cached m (upd_pool b (with_hash o) s)) free pend.
Proof.
  intros [] Hb Hm.
  assert (∀ x, block_id (blk (upd_pool b (with_hash o) s) x) = block_id (blk s x) ∧
     ref_cnt (blk (upd_pool b (with_hash o) s) x) = ref_cnt (blk s x) ∧
     is_null (blk (upd_pool b (with_hash o) s) x) = is_null (blk s x)) as Hk.
  { intros x. rewrite blk_upd. case_decide; [subst; done|done]. }
  split; try done.
  - by apply rep_upd.
  - intros x Hx'. unfold ids. rewrite blk_set_cached. destruct (Hk x) as (-> & _ & ->). by apply pw_ids0.
  - intros x. rewrite blk_set_cached. destruct (Hk x) as (_ & -> & _). apply pw_free0.
  - intros x. rewrite blk_set_cached. destruct (Hk x) as (_ & -> & _). apply pw_ref0.
  - rewrite blk_set_cached, blk_upd. case_decide; [lia|done].
  - apply Hm. intros x. rewrite blk_set_cached, blk_upd.
    repeat case_decide; subst; done.
Qed.

Lemma pool_wf_events s free pend l :
  pool_wf s free pend → pool_wf (set_event_queue l s) free pend.
Proof. by intros []. Qed.

(** ** Operation specifications *)

Ltac pool_steps :=
  unfold append_event, set_ref_cnt, set_block_hash, reset_hash in *; wp_steps; simpl.

Lemma with_hash_id k : _block_hash k = None → with_hash None k = k.
Proof. destruct k; simpl. by intros ->. Qed.

Section specs.
Context (use_int : bool) (sha256 : bytes → bytes).
Implicit Types (s : BlockPool) (free pend : list loc).

Lemma evict_spec s free pend b :
  pool_wf s free pend → (b < nblocks s)%nat →
  wp (_maybe_evict_cached_block use_int b)
    (λ r s', pool_wf s' free pend ∧ pool_frame s s' ∧
       r = bool_decide (is_Some (_block_hash (blk s b))) ∧
       ∀ x, blk s' x = if decide (b = x) then with_hash None (blk s x) else blk s x)
    no_exn s.
Proof.
  intros Hok Hb. unfold _maybe_evict_cached_block. wp_steps.
  destruct (_block_hash (blk s b)) as [key|] eqn:Eh; wp_steps.
  2:{ split_and!; try done. intros x. case_decide; [|done]. subst. by rewrite with_hash_id. }
  assert (0 < b)%nat as Hb0.
  { destruct b; [|lia]. by rewrite (pw_null_hash _ _ _ Hok) in Eh. }
  assert (∀ c, (c < nblocks s)%nat → ids s c = Z.of_nat c) as Hids by apply Hok.
  pose proof (members_pop _ _ _ (ids s) Hids (pw_index _ _ _ Hok) key b Hb Eh) as (E1 & _).
  unfold wp at 1.
  destruct (map_pop (ids s) key (ids s b) (cached_block_hash_to_block s)) as [o m] eqn:Em.
  simpl in E1. subst o.
  assert (pool_wf (set_cached m (upd_pool b (with_hash None) s)) free pend) as Hok'.
  { apply pool_wf_hash; [done|lia|]. intros h Hh.
    change m with (None : option loc, m).2.
    replace m with (map_pop (ids s) key (ids s b) (cached_block_hash_to_block s)).2
      by by rewrite Em.
    exact (index_pop _ _ _ (ids s) Hids (pw_index _ _ _ Hok) h key b Hb Eh Hh). }
  assert (∀ x, blk (set_cached m (upd_pool b (with_hash None) s)) x =
    if decide (b = x) then with_hash None (blk s x) else blk s x) as Hblk.
  { intros x. rewrite blk_set_cached, blk_upd. repeat case_decide; by subst. }
  pool_steps; (split; [|split; [by split|split; [done|exact Hblk]]]); [|exact Hok'].
  exact (pool_wf_events _ _ _ _ Hok').
Qed.

Definition ref_of (s : BlockPool) (b : loc) : Z := ref_cnt (blk s b).
Definition hash_of (s : BlockPool) (b : loc) : option BlockHashWithGroupId := _block_hash (blk s b).

Lemma set_ref_spec s free pend pend' b g :
  pool_wf s free pend → (b < nblocks s)%nat →
  (b ≠ 0%nat → 0 ≤ g (ref_of s b) ∧ (b ∈ free ++ pend' ↔ g (ref_of s b) = 0)) →
  NoDup (free ++ pend') → (∀ x, x ≠ b ∨ x = 0%nat → x ∈ pend' ↔ x ∈ pend) →
  wp (set_ref_cnt b g)
    (λ _ s', pool_wf s' free pend' ∧ pool_frame s s' ∧
       (∀ x, ref_of s' x = if decide (x = b) then g (ref_of s x) else ref_of s x) ∧
       (∀ x, hash_of s' x = hash_of s x)) no_exn s.
Proof.
  intros Hok Hb Hg Hnd Hx. pool_steps.
  split; [exact (pool_wf_ref s free pend pend' b g Hok Hb Hg Hnd Hx)|].
  split; [by split|]. unfold ref_of, hash_of, blk. simpl.
  split; intros x; rewrite block_upd; goal_decide; by subst.
Qed.

(** The reference count of a pending block goes up: it becomes used. *)
Lemma use_pending_spec s free b pend :
  pool_wf s free (b :: pend) →
  wp (rc ← gets (λ s, ref_cnt (blk s b)); assert_ (bool_decide (rc = 0)) ;;
      set_ref_cnt b (λ n, n + 1))
    (λ _ s', pool_wf s' free pend ∧ pool_frame s s' ∧
       (∀ x, ref_of s' x = if decide (x = b) then 1 else ref_of s x) ∧
       (∀ x, hash_of s' x = hash_of s x)) no_exn s.
Proof.
  intros Hok. pose proof (pw_free _ _ _ Hok b) as [[Hb Hr] _]; [apply elem_of_app; right; left|].
  pose proof (pw_nodup _ _ _ Hok) as Hnd. wp_steps.
  apply wp_assert; [by apply bool_decide_eq_true_2|].
  eapply wp_mono; [apply (set_ref_spec s free (b :: pend) pend b (λ n, n + 1) Hok)| |done].
  - lia.
  - intros _. unfold ref_of. rewrite Hr. split; [lia|]. apply NoDup_middle in Hnd.
    rewrite elem_of_app. split; [tauto|lia].
  - apply NoDup_middle in Hnd. tauto.
  - intros x Hx. rewrite elem_of_cons. split; [auto|]. intros [->|]; [|done]. lia.
  - intros _ s' (? & ? & Hr' & ?). split_and!; try done. intros x. rewrite Hr'.
    case_decide; [|done]. subst. unfold ref_of. by rewrite Hr.
Qed.

(** The allocation loop after the blocks [done_] of [l], with ([c]) or without
    evicting each block from the index first. *)
Record alloc_inv s free (l : list loc) (c : bool) (done_ : list loc) s' : Prop := {
  ai_wf : ∀ rest, l = done_ ++ rest → pool_wf s' free rest;
  ai_frame : pool_frame s s';
  ai_ref : ∀ x, ref_of s' x = if decide (x ∈ done_) then 1 else ref_of s x;
  ai_hash : ∀ x, hash_of s' x = if decide (x ∈ done_ ∧ c = true) then None else hash_of s x
}.

Lemma decide_snoc {B} (x y : loc) (l : list loc) (P : Prop) `{Decision P} (a b : B) :
  (if decide (x = y ∧ P) then a else if decide (x ∈ l ∧ P) then a else b) =
  if decide (x ∈ l ++ [y] ∧ P) then a else b.
Proof.
  pose proof (elem_of_app l [y] x) as E1. pose proof (list_elem_of_singleton x y) as E2.
  goal_decide; try done; tauto.
Qed.

Lemma alloc_step s free l c done_ b rest s' :
  l = done_ ++ b :: rest → alloc_inv s free l c done_ s' →
  wp ((if c then _maybe_evict_cached_block use_int b ;; mret tt else mret tt) ;;
      (rc ← gets (λ s, ref_cnt (blk s b)); assert_ (bool_decide (rc = 0)) ;;
       set_ref_cnt b (λ n, n + 1)))
    (λ _ s'', alloc_inv s free l c (done_ ++ [b]) s'') no_exn s'.
Proof.
  intros Hl [Hwf Hf Hr Hh]. specialize (Hwf _ Hl).
  pose proof (pw_free _ _ _ Hwf b) as [[Hb _] _]; [apply elem_of_app; right; left|].
  apply wp_bind. eapply (wp_mono _ (λ _ s1, pool_wf s1 free (b :: rest) ∧ pool_frame s s1 ∧
    (∀ x, ref_of s1 x = ref_of s' x) ∧
    (∀ x, hash_of s1 x = if decide (x = b ∧ c = true) then None else hash_of s' x))).
  - destruct c.
    + apply wp_bind. eapply wp_mono; [apply evict_spec; [done|lia]| |done].
      intros _ s1 (? & Hf1 & _ & Hk). wp_steps. split_and!; try done.
      * by transitivity s'.
      * intros x. unfold ref_of. rewrite Hk. by goal_decide.
      * intros x. unfold hash_of. rewrite Hk. goal_decide; try done; naive_solver.
    + wp_steps. split_and!; try done. intros x. goal_decide; naive_solver.
  - intros _ s1 (Hwf1 & Hf1 & Hr1 & Hh1).
    eapply wp_mono; [by apply use_pending_spec| |done].
    intros _ s2 (Hwf2 & Hf2 & Hr2 & Hh2). split.
    + intros rest' Hl'. subst l. rewrite <-app_assoc in Hl'. simplify_list_eq. done.
    + by transitivity s1.
    + intros x. rewrite Hr2, Hr1, Hr. pose proof (elem_of_app done_ [b] x) as E1.
      pose proof (list_elem_of_singleton x b) as E2. goal_decide; try done; tauto.
    + intros x. rewrite Hh2, Hh1, Hh. by apply (decide_snoc x b done_).
  - done.
Qed.

Lemma alloc_loop_spec s free l c :
  pool_wf s free l →
  wp (if c : bool then
        for_each l (λ b,
          _maybe_evict_cached_block use_int b ;;
          rc ← gets (λ s, ref_cnt (blk s b));
          assert_ (bool_decide (rc = 0)) ;;
          set_ref_cnt b (λ n, n + 1))
      else
        for_each l (λ b,
          rc ← gets (λ s, ref_cnt (blk s b));
          assert_ (bool_decide (rc = 0)) ;;
          set_ref_cnt b (λ n, n + 1)))
    (λ _ s', alloc_inv s free l c l s') no_exn s.
Proof.
  intros Hok.
  assert (alloc_inv s free l c [] s) as Hinv.
  { split; [|done|..].
    - intros rest E. simpl in E. by subst rest.
    - intros x. rewrite decide_False; [done|apply not_elem_of_nil].
    - intros x. rewrite decide_False; [done|]. intros [H _]. by apply elem_of_nil in H. }
  destruct c; apply wp_for_each; try done; intros d b rest s' Hl Hi.
  - pose proof (alloc_step _ _ _ _ _ _ _ _ Hl Hi) as H. unfold wp in *.
    unfold mbind, M_bind, mret, M_ret in *.
    by destruct (_maybe_evict_cached_block use_int b s') as [[]].
  - exact (alloc_step _ _ _ _ _ _ _ _ Hl Hi).
Qed.

(** Allocation of [n] blocks: the first [n] of the free queue, in order. *)
Lemma get_new_blocks_spec s free n :
  pool_ok s free → 0 ≤ n →
  wp (get_new_blocks use_int n)
    (λ r s', n ≤ Z.of_nat (length free) ∧
       r = take (Z.to_nat n) free ∧ pool_ok s' (drop (Z.to_nat n) free) ∧ pool_frame s s' ∧
       (∀ x, ref_of s' x = if decide (x ∈ r) then 1 else ref_of s x) ∧
       (∀ x, hash_of s' x =
          if decide (x ∈ r ∧ enable_caching s = true) then None else hash_of s x))
    (λ e s', e = ValueError ∧ s' = s ∧ Z.of_nat (length free) < n) s.
Proof.
  intros Hok Hn. pose proof (rep_num _ _ (pw_rep _ _ _ Hok)) as Hnum.
  unfold get_new_blocks. wp_steps. unfold get_num_free_blocks in Hif. rewrite Hnum in Hif.
  { split_and!; [done|done|lia]. }
  unfold get_num_free_blocks in Hif. rewrite Hnum in Hif.
  set (k := Z.to_nat n). replace n with (Z.of_nat k) by lia.
  eapply wp_mono; [apply (popleft_n_spec k _ free); [apply Hok|lia]| |done].
  intros ret q (-> & Hrep & Hm). simpl.
  set (s1 := set_pool_fq q s).
  assert (pool_wf s1 (drop k free) (take k free)) as Hok1.
  { eapply pool_wf_queue; [done..|]. by rewrite app_nil_r, Permutation_app_comm, take_drop. }
  wp_step. wp_step. cbn beta. wp_step.
  eapply wp_mono; [exact (alloc_loop_spec s1 (drop k free) (take k free) (enable_caching s) Hok1)| |done].
  intros _ s2 [Hwf Hf Hr Hh]. wp_steps.
  assert (∀ x, ref_of s1 x = ref_of s x ∧ hash_of s1 x = hash_of s x) as Hs1.
  { intros x. destruct (same_meta_blk _ _ x Hm) as (_ & E1 & E2 & _). done. }
  split_and!; [lia|done|by apply Hwf; rewrite app_nil_r|by destruct Hf|..].
  - intros x. rewrite Hr. by destruct (Hs1 x) as [-> _].
  - intros x. rewrite Hh. by destruct (Hs1 x) as [_ ->].
Qed.

Definition occ (x : loc) (bs : list loc) : Z := Z.of_nat (length (filter (λ y, y = x) bs)).

Lemma occ_snoc x bs b : occ x (bs ++ [b]) = occ x bs + if decide (x = b) then 1 else 0.
Proof.
  unfold occ. rewrite filter_app, length_app, filter_cons, filter_nil.
  goal_decide; subst; simpl; congruence || lia.
Qed.

Lemma occ_nonneg x bs : 0 ≤ occ x bs. Proof. unfold occ. lia. Qed.

Lemma occ_not_in x bs : x ∉ bs → occ x bs = 0.
Proof.
  intros Hx. unfold occ. rewrite filter_none; [done|]. by intros y Hy ->.
Qed.

Lemma filter_notin_snoc (l d : list loc) b :
  filter (λ x, x ∉ d ++ [b]) l = filter (λ x, x ≠ b) (filter (λ x, x ∉ d) l).
Proof.
  rewrite list_filter_filter. apply list_filter_iff. intros x.
  rewrite not_elem_of_app, not_elem_of_cons. split; [tauto|]. intros [??].
  split_and!; auto using not_elem_of_nil.
Qed.

Lemma filter_ne_notin (l : list loc) b : b ∉ l → filter (λ x, x ≠ b) l = l.
Proof. intros Hb. apply filter_id. by intros x Hx ->. Qed.

Lemma nblocks_frame s s' : pool_frame s s' → nblocks s' = nblocks s.
Proof. intros Hf. unfold nblocks. by rewrite (pf_num _ _ Hf). Qed.

(** A block without references is taken off the free queue before it gains one. *)
Lemma unfree_spec s l b :
  pool_ok s l → (b < nblocks s)%nat →
  wp (if bool_decide (ref_cnt (blk s b) = 0) && negb (is_null (blk s b)) then zoom fqL (remove b) else mret tt)
    (λ _ s1, pool_wf s1 (filter (λ x, x ≠ b) l) (if decide (b ∈ l) then [b] else []) ∧ pool_frame s s1 ∧
       (∀ x, ref_of s1 x = ref_of s x ∧ hash_of s1 x = hash_of s x)) no_exn s.
Proof.
  intros Hwf Hb. destruct (pw_free _ _ _ Hwf b) as [Hfree1 Hfree2]. rewrite app_nil_r in *.
  destruct (pw_ids _ _ _ Hwf b ltac:(lia)) as [_ Enull]. rewrite Enull.
  destruct (decide (b ∈ l)) as [Hin|Hout].
  - destruct (Hfree1 Hin) as [? E0].
    rewrite E0, (bool_decide_eq_false_2 (b = 0%nat)) by lia. simpl.
    pose proof (rep_NoDup _ _ (pw_rep _ _ _ Hwf)) as Hnd.
    apply list_elem_of_split in Hin as (l1 & l2 & El). rewrite El in *.
    apply NoDup_middle in Hnd as [[??] ?]. rewrite filter_ne_middle by done.
    apply wp_zoom. eapply wp_mono; [apply remove_spec, Hwf| |done].
    intros _ q [Hq Hm]. simpl. split_and!; [|by split|].
    + eapply pool_wf_queue; [exact Hwf|done|done|]. by rewrite <-!Permutation_middle, !app_nil_r.
    + intros x. destruct (same_meta_blk _ _ x Hm) as (_ & E1 & E2 & _). done.
  - apply wp_if; intros E.
    { exfalso. apply Hout, Hfree2. apply andb_prop in E as [E1 E2].
      apply bool_decide_eq_true_1 in E1. apply negb_true_iff, bool_decide_eq_false_1 in E2.
      split; [lia|done]. }
    apply wp_ret. rewrite filter_id; [done|]. by intros x Hx ->.
Qed.

(** A cache hit: the touched blocks leave the free queue and gain one reference
    per occurrence. *)
Lemma touch_spec s free bs :
  pool_ok s free → (∀ b, b ∈ bs → (b < nblocks s)%nat) →
  wp (touch bs)
    (λ _ s', pool_ok s' (filter (λ x, x ∉ bs) free) ∧ pool_frame s s' ∧
       (∀ x, ref_of s' x = ref_of s x + occ x bs) ∧ (∀ x, hash_of s' x = hash_of s x))
    no_exn s.
Proof.
  intros Hok Hbs. apply (wp_for_each bs _ (λ d s',
    pool_ok s' (filter (λ x, x ∉ d) free) ∧ pool_frame s s' ∧
    (∀ x, ref_of s' x = ref_of s x + occ x d) ∧ (∀ x, hash_of s' x = hash_of s x)) no_exn).
  2:{ split_and!; try done; [|intros x; unfold occ; simpl; lia].
      rewrite filter_id; [done|]. intros x _. apply not_elem_of_nil. }
  intros d b rest s' -> (Hwf & Hf & Hr & Hh).
  assert (b < nblocks s)%nat as Hb by (apply Hbs, elem_of_app; right; left).
  assert (nblocks s' = nblocks s) as En by (by apply nblocks_frame).
  set (l := filter (λ x, x ∉ d) free) in *.
  wp_step. wp_step. wp_step. eapply wp_mono; [apply (unfree_spec s' l b Hwf); lia| |done].
  intros _ s1 (Hwf1 & Hf1 & Hs1). pose proof (pw_nodup _ _ _ Hwf1) as Hnd1.
  eapply wp_mono; [apply (set_ref_spec s1 _ _ [] b (λ n, n + 1) Hwf1)| |done].
  - rewrite (nblocks_frame s' s1), En by done. exact Hb.
  - intros Hb0. destruct (Hs1 b) as [-> _].
    pose proof (pw_ref _ _ _ Hwf b ltac:(lia)) as Hpos. fold (ref_of s' b) in Hpos.
    rewrite app_nil_r, list_elem_of_filter. split; [lia|]. split; [tauto|lia].
  - rewrite app_nil_r. apply NoDup_app in Hnd1. tauto.
  - intros x Hx. destruct (decide (b ∈ l)) as [Hin|]; [|done].
    rewrite list_elem_of_singleton. split; [by intros H%elem_of_nil|]. intros ->.
    destruct Hx as [Hx| ->]; [done|].
    destruct (pw_free _ _ _ Hwf 0%nat) as [H _]. rewrite app_nil_r in H. apply H in Hin. lia.
  - intros _ s2 (Hwf2 & Hf2 & Hr2 & Hh2). rewrite filter_notin_snoc. split_and!.
    + done.
    + by transitivity s'; [|transitivity s1].
    + intros x. rewrite Hr2. destruct (Hs1 x) as [-> _]. rewrite Hr, occ_snoc. goal_decide; lia.
    + intros x. rewrite Hh2. destruct (Hs1 x) as [_ ->]. apply Hh.
Qed.

(** A list a request may give back: its blocks other than the null block are
    distinct and referenced. *)
Definition freeable (s : BlockPool) (bs : list loc) : Prop :=
  Forall (λ b, (b < nblocks s)%nat ∧ (b ≠ 0%nat → 1 ≤ ref_of s b)) bs ∧
  NoDup (filter (λ b, b ≠ 0%nat) bs).

(** The blocks that no other request references, in the order given. *)
Definition last_refs (s : BlockPool) (bs : list loc) : list loc :=
  filter (λ b, b ≠ 0%nat ∧ ref_of s b = 1) bs.

Lemma freeable_middle s d b rest :
  freeable s (d ++ b :: rest) →
  (b < nblocks s)%nat ∧ (b ≠ 0%nat → 1 ≤ ref_of s b ∧ b ∉ d ∧ b ∉ rest).
Proof.
  intros [Hall Hnd]. rewrite Forall_forall in Hall.
  destruct (Hall b ltac:(apply elem_of_app; right; left)) as [Hb Hr].
  split; [done|]. intros H0. split; [auto|].
  rewrite filter_app, filter_cons_True in Hnd by done.
  apply NoDup_middle in Hnd as [[H1 H2] _]. rewrite list_elem_of_filter in H1, H2. tauto.
Qed.

Lemma occ_app x l1 l2 : occ x (l1 ++ l2) = occ x l1 + occ x l2.
Proof. unfold occ. rewrite filter_app, length_app. lia. Qed.

Lemma occ_freeable s b bs : freeable s bs → b ∈ bs → b ≠ 0%nat → occ b bs = 1.
Proof.
  intros Hfr [d [rest ->]]%list_elem_of_split H0.
  destruct (freeable_middle _ _ _ _ Hfr) as [_ H]. destruct (H H0) as (_ & Hd & Hrest).
  change (b :: rest) with ([b] ++ rest).
  rewrite !occ_app, (occ_not_in b d), (occ_not_in b rest) by done.
  unfold occ. rewrite filter_cons_True by done. simpl. lia.
Qed.

Lemma free_loop_spec s free bs :
  pool_ok s free → freeable s bs →
  wp (for_each bs (λ b, set_ref_cnt b (λ n, n - 1)))
    (λ _ s', pool_wf s' free (last_refs s bs) ∧ pool_frame s s' ∧
       (∀ x, ref_of s' x = ref_of s x - occ x bs) ∧ (∀ x, hash_of s' x = hash_of s x))
    no_exn s.
Proof.
  intros Hok Hfr. apply (wp_for_each bs _ (λ d s',
    pool_wf s' free (last_refs s d) ∧ pool_frame s s' ∧
    (∀ x, ref_of s' x = ref_of s x - occ x d) ∧ (∀ x, hash_of s' x = hash_of s x)) no_exn).
  2:{ split_and!; try done. intros x. unfold occ. simpl. lia. }
  intros d b rest s' -> (Hwf & Hf & Hr & Hh).
  destruct (freeable_middle _ _ _ _ Hfr) as [Hb Hb0].
  pose proof (pw_nodup _ _ _ Hwf) as Hnd. rewrite <-(nblocks_frame s s' Hf) in Hb.
  assert (last_refs s (d ++ [b]) = last_refs s d ++ last_refs s [b]) as El by apply filter_app.
  assert (b ≠ 0%nat → ref_of s' b = ref_of s b) as Hrb.
  { intros H0. rewrite Hr, (occ_not_in b d); [lia|]. apply Hb0. done. }
  pose proof (pw_free _ _ _ Hwf b) as Hfree. fold (ref_of s' b) in Hfree.
  eapply wp_mono; [apply (set_ref_spec s' free (last_refs s d) (last_refs s (d ++ [b]))
    b (λ n, n - 1) Hwf Hb)| |done].
  - intros H0. destruct (Hb0 H0) as (H1 & H2 & H3). rewrite Hrb by done. split; [lia|].
    rewrite El, app_assoc, elem_of_app. unfold last_refs at 2.
    rewrite list_elem_of_filter, list_elem_of_singleton.
    split.
    + intros [Hin|]; [|lia]. apply Hfree in Hin. rewrite Hrb in Hin by done. lia.
    + intros E. right. split_and!; done || lia.
  - rewrite El, app_assoc. apply NoDup_app. split_and!; [done| |].
    + intros x Hx [[Hx0 _] ->%list_elem_of_singleton]%list_elem_of_filter.
      apply Hfree in Hx. rewrite Hrb in Hx by done. pose proof (Hb0 Hx0). lia.
    + apply NoDup_filter, NoDup_singleton.
  - intros x Hx. rewrite El, elem_of_app. unfold last_refs at 2.
    rewrite list_elem_of_filter, list_elem_of_singleton. intuition congruence.
  - intros _ s1 (Hwf1 & Hf1 & Hr1 & Hh1). split_and!; [done|by transitivity s'|..].
    + intros x. rewrite Hr1, Hr, occ_snoc. goal_decide; lia.
    + intros x. by rewrite Hh1.
Qed.

(** Giving blocks back: the blocks that lose their last reference go to the end
    of the free queue, in the given order, and keep their hashes. *)
Lemma free_blocks_spec s free bs :
  pool_ok s free → freeable s bs →
  wp (free_blocks bs)
    (λ _ s', pool_ok s' (free ++ last_refs s bs) ∧ pool_frame s s' ∧
       (∀ x, ref_of s' x = ref_of s x - occ x bs) ∧ (∀ x, hash_of s' x = hash_of s x))
    no_exn s.
Proof.
  intros Hok Hfr. unfold free_blocks. wp_step.
  eapply wp_mono; [by apply free_loop_spec| |done].
  intros _ s1 (Hwf & Hf & Hr & Hh). wp_steps.
  assert (filter (λ b, ref_cnt (blk s1 b) = 0 ∧ is_null (blk s1 b) = false) bs =
          last_refs s bs) as ->.
  { apply filter_ext_in. intros b Hin.
    pose proof (proj1 Hfr) as Hall. rewrite Forall_forall in Hall. destruct (Hall b Hin) as [Hb _].
    destruct (pw_ids _ _ _ Hwf b) as [_ ->]; [by rewrite (nblocks_frame s s1)|].
    rewrite bool_decide_eq_false. fold (ref_of s1 b). rewrite Hr.
    destruct (decide (b = 0%nat)); [tauto|]. rewrite (occ_freeable s b bs); [|done..]. lia. }
  eapply wp_mono; [apply (append_n_spec (last_refs s bs) _ free)| |done].
  - apply Hwf.
  - pose proof (pw_nodup _ _ _ Hwf) as Hnd. apply NoDup_app in Hnd. tauto.
  - intros b Hb. pose proof (pw_nodup _ _ _ Hwf) as Hnd. apply NoDup_app in Hnd as (_ & Hnd & _).
    assert (b < nblocks s1)%nat by (apply (pw_free _ _ _ Hwf b), elem_of_app; by right).
    destruct (pw_ends _ _ _ Hwf) as [Eh Et]. cbn [lget fqL]. rewrite Eh, Et.
    rewrite elem_of_cons, elem_of_app, list_elem_of_singleton.
    intros [-> |[Hin| ->]]; [lia| |lia]. by apply (Hnd b).
  - intros _ q [Hq Hm]. simpl. split_and!.
    + eapply pool_wf_queue; [exact Hwf|done|done|]. by rewrite app_nil_r.
    + by destruct Hf.
    + intros x. destruct (same_meta_blk _ _ x Hm) as (_ & E1 & E2 & _).
      etransitivity; [exact E1|]. apply Hr.
    + intros x. destruct (same_meta_blk _ _ x Hm) as (_ & E1 & E2 & _).
      etransitivity; [exact E2|]. apply Hh.
Qed.

(** Giving an unhashed block a hash and entering it into the index. *)
Lemma set_hash_spec s free b key :
  pool_ok s free → (0 < b < nblocks s)%nat → hash_of s b = None →
  wp (zoom fqL (set_block_hash b key) ;;
      modify (λ s, set_cached (map_insert (ids s) key b (cached_block_hash_to_block s)) s))
    (λ _ s', pool_ok s' free ∧ pool_frame s s' ∧ (∀ x, ref_of s' x = ref_of s x) ∧
       kv_event_queue s' = kv_event_queue s ∧
       (∀ x, hash_of s' x = if decide (x = b) then Some key else hash_of s x)) no_exn s.
Proof.
  intros Hok Hb Hn. pool_steps. apply wp_assert; [by apply bool_decide_eq_true_2|].
  pool_steps.
  set (s1 := lset fqL (upd_block b (with_hash (Some key)) (lget fqL s)) s).
  assert (∀ c, (c < nblocks s)%nat → ids s1 c = Z.of_nat c) as Hids.
  { intros c Hc. destruct (pw_ids _ _ _ Hok c Hc) as [E _]. rewrite <-E.
    unfold ids, blk, s1. simpl. rewrite block_upd. goal_decide; by subst. }
  assert (∀ x, blk s1 x = if decide (x = b) then with_hash (Some key) (blk s x) else blk s x) as Hblk.
  { intros x. unfold blk, s1. simpl. rewrite block_upd. goal_decide; by subst. }
  split_and!.
  - apply (pool_wf_hash s free [] b (Some key)); [done|lia|]. intros h Hh.
    apply (index_insert (λ b, _block_hash (blk s b)) _ _ (ids s1) Hids (pw_index _ _ _ Hok) h key b);
      [lia|done|done].
  - by split.
  - intros x. unfold ref_of. rewrite blk_set_cached, Hblk. by goal_decide.
  - done.
  - intros x. unfold hash_of. rewrite blk_set_cached, Hblk. by goal_decide.
Qed.

(** Whatever happens, also a raise, the invariant, the free queue and the
    reference counts stay. *)
Record kept (s s' : BlockPool) : Prop := {
  kp_frame : pool_frame s s';
  kp_ref : ∀ x, ref_of s' x = ref_of s x
}.
#[export] Instance kept_refl : Reflexive kept.
Proof. by split. Qed.
#[export] Instance kept_trans : Transitive kept.
Proof.
  intros s1 s2 s3 [F1 H1] [F2 H2]. split; [by transitivity s2|]. intros x. by rewrite H2.
Qed.

Definition keeps {A} (m : M BlockPool A) (n : nat) : Prop := ∀ s free,
  pool_ok s free → nblocks s = n →
  wp m (λ _ s', pool_ok s' free ∧ kept s s') (λ _ s', pool_ok s' free ∧ kept s s') s.

Lemma keeps_ret {A} (a : A) n : keeps (mret a) n.
Proof. intros s free Hok Hn. by split. Qed.
Lemma keeps_raise {A} e n : keeps (raise e : M BlockPool A) n.
Proof. intros s free Hok Hn. by split. Qed.
Lemma keeps_gets {A} (f : BlockPool → A) n : keeps (gets f) n.
Proof. intros s free Hok Hn. by split. Qed.
Lemma keeps_lift {A} (r : res A) n : keeps (lift_res r) n.
Proof. intros s free Hok Hn. by destruct r; split. Qed.
Lemma keeps_assert b n : keeps (assert_ b) n.
Proof. destruct b; [apply keeps_ret|apply keeps_raise]. Qed.
Lemma keeps_event e n : keeps (append_event e) n.
Proof. intros s free Hok Hn. split; [exact (pool_wf_events _ _ _ _ Hok)|by split]. Qed.
Lemma keeps_bind {A B} (m : M BlockPool A) (f : A → M BlockPool B) n :
  keeps m n → (∀ a, keeps (f a) n) → keeps (m ≫= f) n.
Proof.
  intros Hm Hf s free Hok Hn. apply wp_bind. eapply wp_mono; [by apply Hm| |done].
  intros a s1 [Hok1 Hf1]. eapply wp_mono; [apply Hf; [done|]|..].
  - by rewrite (nblocks_frame s s1 (kp_frame _ _ Hf1)).
  - intros b s2 [??]. split; [done|by transitivity s1].
  - intros e s2 [??]. split; [done|by transitivity s1].
Qed.
Lemma keeps_if {A} (b : bool) (m1 m2 : M BlockPool A) n :
  keeps m1 n → keeps m2 n → keeps (if b then m1 else m2) n.
Proof. by destruct b. Qed.
Lemma keeps_for_each {A} (l : list A) (body : A → M BlockPool unit) n :
  (∀ x, x ∈ l → keeps (body x) n) → keeps (for_each l body) n.
Proof.
  induction l as [|x l IH]; intros Hb; simpl; [apply keeps_ret|].
  apply keeps_bind; [apply Hb; left|]. intros _. apply IH. intros y Hy. apply Hb. by right.
Qed.
Lemma keeps_evict b n : (b < n)%nat → keeps (_maybe_evict_cached_block use_int b) n.
Proof.
  intros Hb s free Hok <-. eapply wp_mono; [by apply evict_spec| |done].
  intros _ s' (Hok' & Hf & _ & Hb'). split; [done|]. split; [done|].
  intros x. unfold ref_of. rewrite Hb'. by goal_decide.
Qed.

Lemma keeps_events_loop bs size idxs c acc r n :
  keeps (event_keys_loop sha256 bs size idxs c acc r) n.
Proof.
  revert c acc r. induction idxs as [|i idxs IH]; intros c acc r; simpl; [apply keeps_ret|].
  apply keeps_bind; [apply keeps_lift|]. intros b.
  apply keeps_bind; [apply keeps_gets|]. intros k. apply keeps_if; [apply IH|].
  destruct (generate_block_hash_extra_keys _ _ _ _ _) as [x r'].
  apply keeps_bind; [apply keeps_lift|]. intros [e j]. apply IH.
Qed.

Lemma keeps_cache_loop gid nbh i bs acc n :
  Forall (λ b, (b < n)%nat) bs → keeps (cache_loop use_int gid nbh i bs acc) n.
Proof.
  intros Hbs. revert i acc. induction Hbs as [|b bs Hb _ IH]; intros i acc; simpl; [apply keeps_ret|].
  intros s free Hok Hn. wp_steps; [by apply IH|].
  apply wp_assert_cases; [|by split]. intros E%bool_decide_eq_true_1. wp_step.
  apply wp_lift_res; [|by split]. intros h _. wp_step.
  apply wp_lift_res; [|by split]. intros key _. apply wp_bind_assoc, wp_bind.
  destruct (pw_ids _ _ _ Hok b ltac:(lia)) as [_ Enull].
  rewrite Enull in Hif. apply bool_decide_eq_false_1 in Hif.
  eapply wp_mono; [apply (set_hash_spec s free b key)|..]; [done|lia|done| |done].
  intros _ s1 (Hok1 & Hf1 & Hr1 & _). assert (kept s s1) by by split.
  eapply wp_mono; [apply IH; [done|]|..].
  - by rewrite (nblocks_frame s s1 Hf1).
  - intros a s2 [??]. split; [done|by transitivity s1].
  - intros e s2 [??]. split; [done|by transitivity s1].
Qed.

Lemma keeps_cache_full_blocks r bs c f size gid n :
  Forall (λ b, (b < n)%nat) bs → keeps (cache_full_blocks use_int sha256 r bs c f size gid) n.
Proof.
  intros Hbs. unfold cache_full_blocks. apply keeps_if; [apply keeps_ret|].
  apply keeps_bind; [apply keeps_assert|]. intros _.
  apply keeps_bind; [apply keeps_gets|]. intros hbs.
  apply keeps_bind.
  { apply keeps_if; [apply keeps_ret|]. apply keeps_bind; [apply keeps_lift|].
    intros l. apply keeps_ret. }
  intros hv. apply keeps_bind; [apply keeps_lift|]. intros nbh.
  apply keeps_bind.
  { apply keeps_cache_loop. unfold slice. by apply Forall_take, Forall_drop. }
  intros nh. apply keeps_bind; [apply keeps_gets|]. intros ev.
  apply keeps_if; [apply keeps_ret|]. apply keeps_bind.
  { apply keeps_if; [apply keeps_ret|]. apply keeps_bind; [apply keeps_lift|].
    intros h. apply keeps_ret. }
  intros parent. apply keeps_bind; [apply keeps_events_loop|]. intros [ek r'].
  apply keeps_bind; [apply keeps_event|]. intros _. apply keeps_ret.
Qed.

Lemma py_get_elem {A} (l : list A) i a : py_get l i = Ok a → a ∈ l.
Proof.
  unfold py_get. case_bool_decide; [done|]. destruct (l !! _) eqn:E; [|done].
  intros [= ->]. by eapply list_elem_of_lookup_2.
Qed.

Lemma keeps_evict_blocks is_ n : keeps (evict_blocks use_int is_) n.
Proof.
  apply keeps_for_each. intros i _ s free Hok Hn. wp_steps.
  apply wp_assert_cases; [|by split]. intros _. wp_step.
  apply wp_lift_res; [|by split]. intros b Hb%py_get_elem.
  rewrite (pw_blocks _ _ _ Hok), elem_of_seq in Hb. wp_step.
  eapply wp_mono; [apply (keeps_evict b (nblocks s)); [lia|done..]|auto..].
Qed.

(** [take_events] returns the events in order and empties the queue. *)
Lemma keeps_take_events n : keeps take_events n.
Proof.
  intros s free Hok Hn. unfold take_events. wp_steps; (split; [|by split]); [done|].
  exact (pool_wf_events _ _ _ _ Hok).
Qed.

(** The loop that clears the hash of every block. *)
Lemma reset_loop_spec s bs :
  wp (for_each bs (λ b, zoom fqL (reset_hash b)))
    (λ _ s', ∃ q, s' = set_pool_fq q s ∧
       (∀ l, rep (pool_fq s) l → rep q l) ∧
       fake_free_list_head q = fake_free_list_head (pool_fq s) ∧
       fake_free_list_tail q = fake_free_list_tail (pool_fq s) ∧
       ∀ x, block q x = if decide (x ∈ bs) then with_hash None (blk s x) else blk s x) no_exn s.
Proof.
  apply (wp_for_each bs _ (λ d s', ∃ q, s' = set_pool_fq q s ∧
       (∀ l, rep (pool_fq s) l → rep q l) ∧
       fake_free_list_head q = fake_free_list_head (pool_fq s) ∧
       fake_free_list_tail q = fake_free_list_tail (pool_fq s) ∧
       ∀ x, block q x = if decide (x ∈ d) then with_hash None (blk s x) else blk s x) no_exn).
  - intros d b rest s' -> (q & -> & Hrep & Hh & Ht & Hblk). pool_steps.
    eexists. split; [reflexivity|]. split_and!; try done.
    + intros l Hl. by apply rep_upd, Hrep.
    + intros x. rewrite block_upd, !Hblk. pose proof (elem_of_app d [b] x) as E1.
      pose proof (list_elem_of_singleton x b) as E2.
      goal_decide; subst; try done; naive_solver.
  - exists (pool_fq s). split; [by destruct s|]. by split_and!.
Qed.

(** [reset_prefix_cache] succeeds exactly when no block but the null block is in
    use, and then no block keeps a hash. *)
Lemma reset_spec s free :
  pool_ok s free →
  wp reset_prefix_cache
    (λ r s', pool_ok s' free ∧ pool_frame s s' ∧
       r = bool_decide (Z.of_nat (length free) = num_gpu_blocks s - 1) ∧
       (∀ x, ref_of s' x = ref_of s x) ∧
       if r then (∀ x, (x < nblocks s)%nat → hash_of s' x = None) ∧
                 cached_block_hash_to_block s' = ∅
       else s' = s) no_exn s.
Proof.
  intros Hok. pose proof (rep_num _ _ (pw_rep _ _ _ Hok)) as Hnum.
  unfold reset_prefix_cache. wp_step. wp_step. unfold get_num_free_blocks. rewrite Hnum.
  apply wp_if; intros Hif; [apply bool_decide_eq_true_1 in Hif|apply bool_decide_eq_false_1 in Hif].
  { apply wp_ret. rewrite bool_decide_eq_false_2 by lia. done. }
  wp_steps. eapply wp_mono; [apply reset_loop_spec| |done].
  intros _ s1 (q & -> & Hrep & Hh & Ht & Hblk). wp_step. wp_step.
  rewrite bool_decide_eq_true_2 by lia. simpl in Hblk. rewrite (pw_blocks _ _ _ Hok) in Hblk.
  set (s2 := set_pool_fq q (set_cached ∅ s)).
  assert (∀ x, (x < nblocks s)%nat → blk s2 x = with_hash None (blk s x)) as Hin.
  { intros x Hx. unfold blk at 1, s2. simpl. rewrite Hblk, decide_True; [done|].
    apply elem_of_seq. lia. }
  assert (∀ x, ref_of s2 x = ref_of s x) as Hr.
  { intros x. unfold ref_of, blk at 1, s2. simpl. rewrite Hblk. by goal_decide. }
  assert (pool_ok s2 free) as Hok2.
  { destruct Hok. split; try done.
    - by apply Hrep.
    - simpl. by rewrite Hh, Ht.
    - intros b Hb. unfold ids. rewrite Hin by done. by apply pw_ids0.
    - intros b. rewrite pw_free0. fold (ref_of s2 b) (ref_of s b). by rewrite Hr.
    - intros b Hb. fold (ref_of s2 b). rewrite Hr. by apply pw_ref0.
    - rewrite Hin; [done|]. unfold nblocks. lia.
    - apply index_empty. intros b Hb. by rewrite Hin. }
  assert (∀ x, (x < nblocks s)%nat → hash_of s2 x = None) as Hhash.
  { intros x Hx. unfold hash_of. by rewrite Hin. }
  wp_step. eapply (wp_mono _ (λ _ s', pool_ok s' free ∧ pool_frame s s' ∧
    (∀ x, blk s' x = blk s2 x) ∧ cached_block_hash_to_block s' = ∅) _ no_exn); [| |done].
  - apply wp_if; intros _; [apply wp_modify|apply wp_ret].
    + split; [exact (pool_wf_events _ _ _ _ Hok2)|]. split; [by split|done].
    + split; [done|]. split; [by split|done].
  - intros _ s3 (? & ? & E & ?). wp_steps. unfold ref_of, hash_of.
    split_and!; try done; intros x; rewrite E; [apply Hr|apply Hhash].
Qed.

(** Caching full blocks with the request's own hashes: block [j] gets the key of
    hash [i + j]. *)
Definition cacheable (s : BlockPool) (bs : list loc) : Prop :=
  Forall (λ b, (b < nblocks s)%nat ∧ (b ≠ 0%nat → hash_of s b = None)) bs ∧
  NoDup (filter (λ b, b ≠ 0%nat) bs).

Lemma cacheable_cons s b bs :
  cacheable s (b :: bs) → cacheable s bs ∧ (b < nblocks s)%nat ∧
  (b ≠ 0%nat → hash_of s b = None ∧ b ∉ bs).
Proof.
  intros [Hall Hnd]. apply Forall_cons in Hall as [[Hb Hh] Hall].
  destruct (decide (b = 0%nat)) as [->|H0].
  - rewrite filter_cons_False in Hnd by auto. done.
  - rewrite filter_cons_True in Hnd by done. apply NoDup_cons in Hnd as [Hn Hnd].
    rewrite list_elem_of_filter in Hn. split; [done|]. split; [done|]. intros _. split; [auto|tauto].
Qed.

(** The blocks other than the null block, each with its entry of [l]. *)
Definition nonnull {A} (bs : list loc) (l : list A) : list (loc * A) :=
  filter (λ p, p.1 ≠ 0%nat) (zip bs l).

Lemma cache_loop_spec s free gid nbh i bs acc :
  pool_ok s free → cacheable s bs → 0 ≤ gid < 2 ^ 32 → (i + length bs ≤ length nbh)%nat →
  wp (cache_loop use_int gid nbh (Z.of_nat i) bs acc)
    (λ nh s', nh = acc ++ (maybe_convert_block_hash use_int ∘ snd <$> nonnull bs (drop i nbh)) ∧
       pool_ok s' free ∧ pool_frame s s' ∧ (∀ x, ref_of s' x = ref_of s x) ∧
       kv_event_queue s' = kv_event_queue s ∧
       (∀ j b h, bs !! j = Some b → b ≠ 0%nat → nbh !! (i + j)%nat = Some h →
          hash_of s' b = Some (h ++ be_bytes 4 gid)) ∧
       (∀ x, x = 0%nat ∨ x ∉ bs → hash_of s' x = hash_of s x)) no_exn s.
Proof.
  intros Hok Hc Hg. revert s i acc Hok Hc. induction bs as [|b bs IH]; intros s i acc Hok Hc Hlen; simpl.
  { apply wp_ret. unfold nonnull. simpl. by rewrite app_nil_r. }
  apply cacheable_cons in Hc as (Hc & Hb & Hb0). simpl in Hlen.
  destruct (pw_ids _ _ _ Hok b Hb) as [_ Enull].
  replace (Z.of_nat i + 1) with (Z.of_nat (S i)) by lia.
  wp_steps; rewrite Enull in Hif; [apply bool_decide_eq_true_1 in Hif|apply bool_decide_eq_false_1 in Hif].
  - subst b. eapply wp_mono; [apply IH; [done..|lia]| |done].
    intros ? s' (-> & ? & ? & ? & ? & Hj & Hx). split_and!; try done.
    + destruct (lookup_lt_is_Some_2 nbh i) as [h Eh]; [lia|].
      rewrite (drop_S nbh h i Eh). unfold nonnull. simpl. rewrite filter_cons_False by auto. done.
    + intros [|j] b h; simpl; [congruence|]. intros. apply (Hj j b h); [done..|].
      by replace (S i + j)%nat with (i + S j)%nat by lia.
    + intros x [->|Hn]; apply Hx; [by left|]. right. intros ?. apply Hn. by right.
  - destruct (Hb0 Hif) as [Hnone Hnin]. apply wp_assert; [by apply bool_decide_eq_true_2|].
    destruct (lookup_lt_is_Some_2 nbh i) as [h Eh]; [lia|].
    rewrite (py_get_nat nbh i h Eh). wp_step. apply wp_lift_res; [|done]. intros ? [= <-].
    wp_step. rewrite make_block_hash_cases, bool_decide_eq_true_2 by done.
    apply wp_lift_res; [|done]. intros ? [= <-]. apply wp_bind_assoc, wp_bind.
    eapply wp_mono; [apply (set_hash_spec s free b); [done|lia|done]| |done].
    intros _ s1 (Hok1 & Hf1 & Hr1 & He1 & Hh1).
    eapply wp_mono; [apply (IH s1 (S i)); [done| |lia]| |done].
    + destruct Hc as [Hall Hnd]. split; [|done]. rewrite Forall_forall in *.
      intros x Hx. destruct (Hall x Hx) as [Hx1 Hx2]. rewrite (nblocks_frame s s1) by done.
      split; [done|]. intros H0. rewrite Hh1, decide_False; [auto|]. by intros ->.
    + intros ? s2 (-> & Hok2 & Hf2 & Hr2 & He2 & Hj2 & Hx2). split_and!.
      * rewrite (drop_S nbh h i Eh), <-app_assoc. unfold nonnull. simpl.
        by rewrite filter_cons_True by done.
      * done.
      * by transitivity s1.
      * intros x. by rewrite Hr2.
      * by rewrite He2.
      * intros [|j] b' h'; simpl.
        -- intros [= <-] _ E'. rewrite Nat.add_0_r in E'.
           pose proof (eq_trans (eq_sym Eh) E') as [= <-]. rewrite Hx2 by auto. by rewrite Hh1, decide_True.
        -- intros ?? E. apply (Hj2 j b' h'); [done..|].
           by replace (S i + j)%nat with (i + S j)%nat by lia.
      * intros x Hx. rewrite Hx2, Hh1, decide_False; [done|..].
        -- intros ->. destruct Hx as [?|Hx]; [done|]. apply Hx. left.
        -- destruct Hx as [|Hx]; [by left|right]. intros ?. apply Hx. by right.
Qed.

Abbreviation setc := set_prompt_embeds_per_block_hashes.

Lemma mm_idx_ok_mono l e e' idx : mm_idx_ok l e idx → e ≤ e' → mm_idx_ok l e' idx.
Proof.
  intros [[-> H]|[? H]] Hs; [left|right]; (split; [done|]); intros f Hf; specialize (H f Hf); lia.
Qed.

(** The extra keys of an event are those the block hasher used. *)
Definition event_keys (r : Request) (size : Z) (bs : list loc) (i : nat) :=
  (λ p : loc * nat, ref_extra sha256 r (Z.of_nat p.2 * size) (Z.of_nat p.2 * size + size)) <$>
    nonnull bs (seq i (length bs)).

Lemma event_loop_spec s free bs size n i idx acc r c0 :
  pool_ok s free → Forall (λ b, (b < nblocks s)%nat) bs → 0 ≤ size →
  feats_ok (mm_features r) → BlockHash.cache_ok sha256 (setc c0 r) →
  mm_idx_ok (mm_features r) (Z.of_nat i * size) idx → (i + n ≤ length bs)%nat →
  ∃ c, BlockHash.cache_ok sha256 (setc c r) ∧
    event_keys_loop sha256 bs size (seqZ (Z.of_nat i) (Z.of_nat n)) idx acc (setc c0 r) s =
    (Ok (acc ++ event_keys r size (take n (drop i bs)) i, setc c r), s).
Proof.
  intros Hok Hbs Hsz Hf. revert i idx acc c0.
  induction n as [|n IH]; intros i idx acc c0 Hc Hidx Hlen.
  { exists c0. split; [done|]. simpl. by rewrite app_nil_r. }
  destruct (lookup_lt_is_Some_2 bs i) as [b Eb]; [lia|].
  rewrite seqZ_cons by lia. replace (Z.succ (Z.of_nat i)) with (Z.of_nat (S i)) by lia.
  replace (Z.pred (Z.of_nat (S n))) with (Z.of_nat n) by lia. simpl.
  unfold mbind, M_bind, lift_res, gets. rewrite (@py_get_nat loc bs i b Eb).
  rewrite Forall_forall in Hbs. specialize (Hbs b ltac:(by eapply list_elem_of_lookup_2)).
  destruct (pw_ids _ _ _ Hok b Hbs) as [_ ->].
  assert (Hk : event_keys r size (take (S n) (drop i bs)) i =
    (if bool_decide (b = 0%nat) then []
     else [ref_extra sha256 r (Z.of_nat i * size) (Z.of_nat i * size + size)]) ++
    event_keys r size (take n (drop (S i) bs)) (S i)).
  { unfold event_keys, nonnull. rewrite (drop_S bs b i Eb). simpl.
    rewrite filter_cons. simpl. case_bool_decide; goal_decide; done. }
  rewrite Hk. case_bool_decide as E0.
  - apply IH; [done| |lia]. eapply mm_idx_ok_mono; [done|]. lia.
  - destruct (generate_spec sha256 (Z.of_nat i * size) (Z.of_nat i * size + size) idx (setc c0 r))
      as (c1 & idx' & E & Hc1 & Hidx'); [done..|lia|].
    rewrite E. change (setc c1 (setc c0 r)) with (setc c1 r) in *.
    change (ref_extra sha256 (setc c0 r)) with (ref_extra sha256 r). simpl.
    destruct (IH (S i) idx' (acc ++ [ref_extra sha256 r (Z.of_nat i * size) (Z.of_nat i * size + size)]) c1)
      as (c & Hc' & Ec); [done| |lia|].
    { eapply mm_idx_ok_mono; [exact Hidx'|]. lia. }
    exists c. split; [done|]. rewrite Ec. by rewrite <-app_assoc.
Qed.

(** The event [cache_full_blocks] reports for the blocks [c .. f-1]. *)
Definition stored_event (r : Request) (bs : list loc) (c f : nat) (size : Z) : KVCacheEvent :=
  let new := take (f - c) (drop c bs) in
  let keys := event_keys r size new c in
  BlockStored (maybe_convert_block_hash use_int ∘ snd <$> nonnull new (drop c (block_hashes r)))
    (if bool_decide (c = 0%nat) then None
     else maybe_convert_block_hash use_int <$> block_hashes r !! (c - 1)%nat)
    (slice (Z.of_nat c * size) (Z.of_nat f * size) (_all_token_ids r)) size
    (lora_int_id <$> lora_request r) (lora_name <$> lora_request r)
    (if bool_decide (keys = []) then None else Some keys).

Lemma cache_full_blocks_spec s free r bs c f gid :
  pool_ok s free → (c < f)%nat → (f ≤ length bs)%nat → (f ≤ length (block_hashes r))%nat →
  0 ≤ hash_block_size s → 0 ≤ gid < 2 ^ 32 →
  Forall (λ b, (b < nblocks s)%nat) bs → cacheable s (take (f - c) (drop c bs)) →
  feats_ok (mm_features r) → BlockHash.cache_ok sha256 r →
  wp (cache_full_blocks use_int sha256 r bs (Z.of_nat c) (Z.of_nat f) (hash_block_size s) gid)
    (λ r' s', (∃ m, r' = setc m r) ∧ BlockHash.cache_ok sha256 r' ∧ pool_ok s' free ∧ pool_frame s s' ∧
       (∀ x, ref_of s' x = ref_of s x) ∧
       kv_event_queue s' = kv_event_queue s ++
         (if enable_kv_cache_events s then [stored_event r bs c f (hash_block_size s)] else []) ∧
       (∀ j b h, (c ≤ j < f)%nat → bs !! j = Some b → b ≠ 0%nat → block_hashes r !! j = Some h →
          hash_of s' b = Some (h ++ be_bytes 4 gid)) ∧
       (∀ x, x = 0%nat ∨ x ∉ take (f - c) (drop c bs) → hash_of s' x = hash_of s x)) no_exn s.
Proof.
  intros Hok Hcf Hlen Hh Hsz Hg Hbs Hc Hfe Hca. unfold cache_full_blocks.
  rewrite (proj2 (Z.leb_gt (Z.of_nat f) (Z.of_nat c))) by lia. wp_step.
  apply wp_assert; [lia|]. wp_step. wp_step. wp_step. rewrite bool_decide_eq_true_2 by done.
  wp_step. cbn [hv_slice_from]. wp_step. apply wp_lift_res; [|done]. intros ? [= <-]. wp_step.
  rewrite slice_from_pos, slice_pos, !Nat2Z.id by lia.
  eapply wp_mono; [apply (cache_loop_spec s free gid _ 0); [done..|]| |done].
  { rewrite length_take, !length_drop. simpl. lia. }
  intros nh s1 (-> & Hok1 & Hf1 & Hr1 & He1 & Hj1 & Hx1). rewrite drop_0. simpl app.
  assert (∀ j b h, (c ≤ j < f)%nat → bs !! j = Some b → b ≠ 0%nat →
    block_hashes r !! j = Some h → hash_of s1 b = Some (h ++ be_bytes 4 gid)) as Hj.
  { intros j b h Hj Eb H0 Eh. apply (Hj1 (j - c)%nat b h); [|done|].
    - rewrite lookup_take_lt, lookup_drop by lia. rewrite <-Eb. f_equal. lia.
    - rewrite lookup_drop, <-Eh. f_equal. lia. }
  wp_step. wp_step. cbn beta. rewrite (pf_events _ _ Hf1). apply wp_if; intros Hif.
  { apply negb_true_iff in Hif. rewrite Hif, app_nil_r.
    split_and!; try done. exists (_prompt_embeds_per_block_hashes r). by destruct r. }
  apply negb_false_iff in Hif. rewrite Hif. wp_step.
  eapply (wp_mono _ (λ p s', s' = s1 ∧ p = if bool_decide (c = 0%nat) then None
     else maybe_convert_block_hash use_int <$> block_hashes r !! (c - 1)%nat) _ no_exn); [| |done].
  { rewrite (bool_decide_ext (Z.of_nat c = 0) (c = 0%nat)) by lia.
    case_bool_decide; [by apply wp_ret|]. wp_step.
    destruct (lookup_lt_is_Some_2 (block_hashes r) (c - 1)) as [h Eh]; [lia|].
    cbn [hv_get]. replace (Z.of_nat c - 1) with (Z.of_nat (c - 1)) by lia.
    rewrite (py_get_nat _ _ _ Eh), Eh. apply wp_lift_res; [|done]. by intros ? [= <-]. }
  intros p s' [-> ->]. wp_step.
  assert (r = setc (_prompt_embeds_per_block_hashes r) r) as Er by by destruct r.
  assert (Forall (λ b, (b < nblocks s1)%nat) bs) as Hbs1 by by rewrite (nblocks_frame s s1).
  destruct (event_loop_spec s1 free bs (hash_block_size s) (f - c) c 0 [] r
    (_prompt_embeds_per_block_hashes r)) as (m & Hm & Em); try done.
  { right. split; [lia|]. intros g Hg'. by apply elem_of_nil in Hg'. }
  { lia. }
  rewrite <-Er in Em. replace (Z.of_nat (f - c)) with (Z.of_nat f - Z.of_nat c) in Em by lia.
  unfold wp at 1, range. rewrite Em. wp_steps. split_and!; try done.
  - by exists m.
  - exact (pool_wf_events _ _ _ _ Hok1).
  - by destruct Hf1.
  - simpl. rewrite He1. done.
Qed.

Lemma get_cached_loop_spec s free h gids acc gs :
  pool_ok s free → Forall (λ g, 0 ≤ g < 2 ^ 32) gids →
  let hit b g := (b < nblocks s)%nat ∧ hash_of s b = Some (h ++ be_bytes 4 g) in
  Forall2 hit acc gs →
  match get_cached_loop h gids (cached_block_hash_to_block s) acc with
  | Ok (Some bs) => Forall2 hit bs (gs ++ gids)
  | Ok None => ∃ g, g ∈ gids ∧ ∀ b, ¬ hit b g
  | Err _ => False
  end.
Proof.
  intros Hok Hg hit. revert acc gs. induction Hg as [|g gids Hg _ IH]; intros acc gs Hacc; simpl.
  { by rewrite app_nil_r. }
  rewrite make_block_hash_cases, bool_decide_eq_true_2 by done. simpl.
  pose proof (get_one_block_spec _ _ _ (pw_index _ _ _ Hok) (h ++ be_bytes 4 g)) as H1.
  destruct (get_one_block _ _) as [[b|]|]; simpl; [| |done].
  - specialize (IH (acc ++ [b]) (gs ++ [g])). rewrite <-app_assoc in IH.
    destruct (get_cached_loop _ _ _ _) as [[bs|]|].
    + apply IH, Forall2_app; [done|]. by apply Forall2_cons.
    + destruct IH as (g' & ? & ?); [apply Forall2_app; [done|by apply Forall2_cons]|].
      exists g'. split; [by right|done].
    + apply IH, Forall2_app; [done|by apply Forall2_cons].
  - exists g. split; [left|]. intros b [Hb E]. by apply (H1 b Hb).
Qed.

(** A fresh pool: block 0 is the null block, the others are free in order. *)
Lemma BlockPool_init_spec n caching hbs ev :
  0 < n →
  ∃ s, BlockPool_init n caching hbs ev = Ok s ∧ pool_ok s (seq 1 (Z.to_nat n - 1)) ∧
    num_gpu_blocks s = n ∧ enable_caching s = caching ∧ hash_block_size s = hbs ∧
    enable_kv_cache_events s = ev ∧ kv_event_queue s = [] ∧
    (∀ b, (b < Z.to_nat n)%nat → hash_of s b = None).
Proof.
  intros Hn. unfold BlockPool_init. rewrite bool_decide_eq_true_2 by done.
  set (N := Z.to_nat n). destruct N as [|m] eqn:EN; [lia|].
  assert (wp (FreeKVCacheBlockQueue_init (seq 0 (S m)) ;;
       nb ← popleft; modify (upd_block nb (with_null true)) ;; mret nb)
    (λ nb q, nb = 0%nat ∧ rep q (seq 1 m) ∧
       fake_free_list_head q = S m ∧ fake_free_list_tail q = S (S m) ∧
       ∀ b, (b < S m)%nat → meta (block q b) =
         (Z.of_nat b, 0, None, bool_decide (b = 0%nat))) no_exn (fresh_blocks (S m))) as Hwp.
  { wp_step. eapply wp_mono; [apply init_spec| |done].
    - apply NoDup_seq.
    - intros b. rewrite elem_of_seq. simpl. lia.
    - apply fresh_blocks_links.
    - intros _ q (Hrep & _ & Hh & Ht & Hm). wp_step.
      eapply wp_mono; [apply (popleft_spec q 0%nat (seq 1 m)), Hrep| |done].
      intros nb q2 (-> & Hrep2 & Hm2). wp_steps. split_and!.
      + done.
      + by apply rep_upd.
      + simpl. by rewrite (sm_head _ _ Hm2), Hh.
      + simpl. by rewrite (sm_tail _ _ Hm2), Ht.
      + intros b Hb. rewrite block_upd.
        assert (meta (block q2 b) = (Z.of_nat b, 0, None, false)) as E.
        { rewrite (sm_meta _ _ Hm2), Hm by done. by rewrite fresh_blocks_block. }
        goal_decide; [subst b|by rewrite bool_decide_eq_false_2 by congruence].
        rewrite bool_decide_eq_true_2 by done. unfold meta in E |- *. simpl in *.
        by injection E as -> -> -> _. }
  apply wp_no_exn_run in Hwp as (nb & q & -> & -> & Hrep & Hh & Ht & Hm). simpl.
  eexists. split; [reflexivity|].
  assert (∀ b, (b < S m)%nat → block_id (block q b) = Z.of_nat b ∧ ref_cnt (block q b) = 0 ∧
    _block_hash (block q b) = None ∧ is_null (block q b) = bool_decide (b = 0%nat)) as Hb.
  { intros b Hb. specialize (Hm b Hb). unfold meta in Hm. by simplify_eq. }
  rewrite Nat.sub_0_r. split; [|split_and!; try done; intros b ?; by apply Hb].
  split; simpl; try (unfold nblocks; simpl; fold N; rewrite EN); try done.
  - intros b ?. unfold ids, blk. simpl. split; by apply Hb.
  - rewrite app_nil_r. apply NoDup_seq.
  - intros b. rewrite app_nil_r, elem_of_seq. split; [|lia].
    intros ?. split; [lia|]. apply Hb. lia.
  - intros b ?. unfold blk. simpl. destruct (Hb b) as (_ & -> & _); lia.
  - apply Hb. lia.
  - apply index_empty. intros b ?. by apply Hb.
Qed.
End specs.

(** ** The pool as a state machine

    One step per public method.  A client touches and caches blocks of the
    pool, and gives back only blocks it holds; everything else is free. *)
Inductive pool_step (use_int : bool) (sha256 : bytes → bytes) (s : BlockPool) : BlockPool → Prop :=
  | step_get_new_blocks k :
      0 ≤ k → pool_step use_int sha256 s (get_new_blocks use_int k s).2
  | step_touch bs :
      Forall (λ b, (b < nblocks s)%nat) bs → pool_step use_int sha256 s (touch bs s).2
  | step_free_blocks bs :
      freeable s bs → pool_step use_int sha256 s (free_blocks bs s).2
  | step_cache_full_blocks r bs c f size gid :
      Forall (λ b, (b < nblocks s)%nat) bs →
      pool_step use_int sha256 s (cache_full_blocks use_int sha256 r bs c f size gid s).2
  | step_evict_blocks l : pool_step use_int sha256 s (evict_blocks use_int l s).2
  | step_reset_prefix_cache : pool_step use_int sha256 s (reset_prefix_cache s).2
  | step_take_events : pool_step use_int sha256 s (take_events s).2.

Definition pool_inv (s : BlockPool) : Prop := ∃ free, pool_ok s free.

Lemma wp_snd {A} (m : M BlockPool A) Q E (P : BlockPool → Prop) s :
  wp m Q E s → (∀ a s', Q a s' → P s') → (∀ e s', E e s' → P s') → P (m s).2.
Proof. unfold wp. destruct (m s) as [[a|e] s']; simpl; eauto. Qed.

Lemma pool_step_inv use_int sha256 s s' :
  pool_step use_int sha256 s s' → pool_inv s →
  pool_inv s' ∧ num_gpu_blocks s' = num_gpu_blocks s.
Proof.
  set (P := λ s1, pool_inv s1 ∧ num_gpu_blocks s1 = num_gpu_blocks s).
  assert (∀ s1 free, pool_ok s1 free → pool_frame s s1 → P s1) as Hfin.
  { intros s1 free Hok Hf. split; [by exists free|apply Hf]. }
  assert (∀ A (m : M BlockPool A) free, pool_ok s free → keeps m (nblocks s) → P (m s).2) as Hkeeps.
  { intros A m free Hok Hm. eapply (wp_snd m _ _ P); [by apply Hm|..]; intros ? s1 [H1 H2]; apply (Hfin s1 free H1), H2. }
  intros Hs [free Hok]. fold (P s').
  destruct Hs as [k Hk|bs Hbs|bs Hbs|r bs c f size gid Hbs|l| |].
  - eapply (wp_snd _ _ _ P); [by apply get_new_blocks_spec|..].
    + intros r s1 (_ & _ & ? & ? & _). eauto.
    + intros e s1 (_ & -> & _). by apply (Hfin s free).
  - rewrite Forall_forall in Hbs.
    eapply (wp_snd _ _ _ P); [by apply touch_spec|naive_solver|done].
  - eapply (wp_snd _ _ _ P); [by apply free_blocks_spec|naive_solver|done].
  - by eapply Hkeeps, keeps_cache_full_blocks.
  - by eapply Hkeeps, keeps_evict_blocks.
  - eapply (wp_snd _ _ _ P); [by apply reset_spec|naive_solver|done].
  - by eapply Hkeeps, keeps_take_events.
Qed.

Lemma pool_reachable_inv use_int sha256 n caching hbs ev s0 s :
  BlockPool_init n caching hbs ev = Ok s0 → rtc (pool_step use_int sha256) s0 s →
  pool_inv s ∧ num_gpu_blocks s = n.
Proof.
  intros Hinit Hs.
  assert (pool_inv s0 ∧ num_gpu_blocks s0 = n) as H0.
  { destruct (decide (0 < n)) as [Hn|Hn].
    - destruct (BlockPool_init_spec n caching hbs ev Hn) as (s1 & E & Hok & Hnum & _).
      rewrite E in Hinit. apply Ok_inj in Hinit as ->.
      split; [by exists (seq 1 (Z.to_nat n - 1))|exact Hnum].
    - unfold BlockPool_init in Hinit. by rewrite bool_decide_eq_false_2 in Hinit. }
  clear Hinit. induction Hs as [s|s s1 s2 Hstep _ IH]; [done|].
  apply IH. destruct (pool_step_inv _ _ _ _ Hstep (proj1 H0)). split; [done|]. etransitivity; [done|apply H0].
Qed.

(** Free and used blocks partition the pool without its null block. *)
Lemma pool_conservation s free :
  pool_ok s free →
  Z.of_nat (length free) +
    Z.of_nat (length (filter (λ b, 0 < ref_of s b) (seq 1 (nblocks s - 1)))) =
  num_gpu_blocks s - 1.
Proof.
  intros Hok. pose proof (pw_pos _ _ _ Hok).
  assert (free ≡ₚ filter (λ b, ¬ 0 < ref_of s b) (seq 1 (nblocks s - 1))) as Hp.
  { apply NoDup_Permutation.
    - pose proof (pw_nodup _ _ _ Hok) as Hnd. by rewrite app_nil_r in Hnd.
    - apply NoDup_filter, NoDup_seq.
    - intros b. pose proof (pw_free _ _ _ Hok b) as Hf. rewrite app_nil_r in Hf.
      rewrite Hf, list_elem_of_filter, elem_of_seq. fold (ref_of s b).
      pose proof (pw_ref _ _ _ Hok b) as Hr. fold (ref_of s b) in Hr.
      unfold nblocks in *. split; [lia|]. intros [? ?]. split; [lia|].
      specialize (Hr ltac:(lia)). lia. }
  rewrite Hp. unfold nblocks in *.
  pose proof (Permutation_length (filter_app_complement (λ b, 0 < ref_of s b)
    (seq 1 (Z.to_nat (num_gpu_blocks s) - 1)))) as E.
  rewrite length_app, length_seq in E. lia.
Qed.

(** ** Properties *)

(** C7: from a new pool of [n] blocks, after any sequence of calls (also
    calls that raise), the free queue lists each block other than the null
    block 0 exactly when its reference count is 0, no count is negative, free
    and used blocks add up to [n - 1], and the prefix-cache index answers a key
    with a block that carries it whenever there is one, and never raises. *)
Theorem block_pool_invariant use_int sha256 n caching hbs ev s0 s :
  BlockPool_init n caching hbs ev = Ok s0 → rtc (pool_step use_int sha256) s0 s →
  ∃ free,
    get_all_free_blocks (S (length free)) (pool_fq s) = (Ok free, pool_fq s) ∧
    NoDup free ∧ get_num_free_blocks s = Z.of_nat (length free) ∧
    (∀ b, b ∈ free ↔ (0 < b < Z.to_nat n)%nat ∧ ref_of s b = 0) ∧
    (∀ b, (0 < b < Z.to_nat n)%nat → 0 ≤ ref_of s b) ∧
    get_num_free_blocks s +
      Z.of_nat (length (filter (λ b, 0 < ref_of s b) (seq 1 (Z.to_nat n - 1)))) = n - 1 ∧
    ∀ key,
      match get_one_block key (cached_block_hash_to_block s) with
      | Ok (Some b) => (b < Z.to_nat n)%nat ∧ hash_of s b = Some key
      | Ok None => ∀ b, (b < Z.to_nat n)%nat → hash_of s b ≠ Some key
      | Err _ => False
      end.
Proof.
  intros Hinit Hs. destruct (pool_reachable_inv _ _ _ _ _ _ _ _ Hinit Hs) as [[free Hok] <-].
  pose proof (pw_free _ _ _ Hok) as Hf. pose proof (pw_nodup _ _ _ Hok) as Hnd.
  rewrite app_nil_r in *. pose proof (rep_num _ _ (pw_rep _ _ _ Hok)) as Hnum.
  exists free. split_and!; try done.
  - apply get_all_free_blocks_spec; [apply Hok|lia].
  - apply Hok.
  - unfold get_num_free_blocks. rewrite Hnum. by apply pool_conservation.
  - intros key. apply (get_one_block_spec _ _ _ (pw_index _ _ _ Hok)).
Qed.

(** C26: [get_new_blocks k] raises [ValueError], changing nothing, exactly
    when fewer than [k] blocks are free; otherwise it returns the [k] blocks at
    the head of the free queue, each with one reference and (with caching on)
    no hash any more, and touches no other block. *)
Theorem get_new_blocks_correct use_int s free k :
  pool_ok s free → 0 ≤ k →
  match get_new_blocks use_int k s with
  | (Ok r, s') =>
      k ≤ Z.of_nat (length free) ∧ r = take (Z.to_nat k) free ∧
      pool_ok s' (drop (Z.to_nat k) free) ∧
      (∀ b, ref_of s' b = if decide (b ∈ r) then 1 else ref_of s b) ∧
      (∀ b, hash_of s' b =
         if decide (b ∈ r ∧ enable_caching s = true) then None else hash_of s b)
  | (Err e, s') => e = ValueError ∧ s' = s ∧ Z.of_nat (length free) < k
  end.
Proof.
  intros Hok Hk. pose proof (get_new_blocks_spec use_int s free k Hok Hk) as H. unfold wp in H.
  destruct (get_new_blocks use_int k s) as [[r|e] s']; [|done].
  destruct H as (? & ? & ? & _ & ? & ?). done.
Qed.


(** Least-recently-freed eviction order.  After giving blocks back, [k]
    new blocks are taken first from those that were free before, then from the
    ones just released, in the order in which they were given back. *)
Theorem free_then_allocate_order use_int s free bs k :
  pool_ok s free → freeable s bs →
  (k ≤ length free + length (last_refs s bs))%nat →
  ∃ s1 s2, free_blocks bs s = (Ok tt, s1) ∧
    get_new_blocks use_int (Z.of_nat k) s1 = (Ok (take k (free ++ last_refs s bs)), s2) ∧
    (∀ b, b ∈ drop k (free ++ last_refs s bs) → hash_of s2 b = hash_of s b) ∧
    (∀ b, b ∈ bs → b ∉ last_refs s bs → b ≠ 0%nat → 1 ≤ ref_of s2 b).
Proof.
  intros Hok Hfr Hk.
  destruct (wp_no_exn_run _ _ _ (free_blocks_spec s free bs Hok Hfr))
    as ([] & s1 & E1 & Hok1 & Hf1 & Hr1 & Hh1).
  pose proof (get_new_blocks_spec use_int s1 _ (Z.of_nat k) Hok1 ltac:(lia)) as H.
  unfold wp in H. destruct (get_new_blocks _ _ s1) as [[r|e] s2] eqn:E2.
  2:{ destruct H as (_ & _ & H). rewrite length_app in H. lia. }
  rewrite Nat2Z.id in H. destruct H as (_ & -> & Hok2 & _ & Hr2 & Hh2).
  exists s1, s2. split_and!; try done.
  - intros b Hb. rewrite Hh2, decide_False; [apply Hh1|]. intros [Hin _].
    pose proof (pw_nodup _ _ _ Hok1) as Hnd. rewrite app_nil_r in Hnd.
    rewrite <-(take_drop k (free ++ _)) in Hnd. apply NoDup_app in Hnd as (_ & Hnd & _).
    by apply (Hnd b).
  - intros b Hb Hn H0. rewrite Hr2. goal_decide; [lia|]. rewrite Hr1, (occ_freeable s) by done.
    destruct Hfr as [Hall _]. rewrite Forall_forall in Hall. destruct (Hall b Hb) as [_ H1].
    specialize (H1 H0). unfold last_refs in Hn. rewrite list_elem_of_filter in Hn.
    destruct (decide (ref_of s b = 1)); [tauto|lia].
Qed.

#[export] Instance freeable_dec s bs : Decision (freeable s bs).
Proof. apply _. Defined.
#[export] Instance cacheable_dec s bs : Decision (cacheable s bs).
Proof. apply _. Defined.

(** ** Witnesses *)

(** A pool of four blocks, and the run that allocates two blocks, caches one
    and gives both back. *)
Definition pool4 : BlockPool :=
  match BlockPool_init 4 true 2 true with Ok s => s | Err _ => mkPool (fresh_blocks 0) 0 true 0 [] ∅ 0 true [] end.

Definition hashed_request : Request :=
  text_request "r" None (Some "salt"%string) [] [7; 8; 9] enc_hash [1] 2.

Lemma pool4_init : BlockPool_init 4 true 2 true = Ok pool4.
Proof. vm_compute. reflexivity. Qed.

Lemma pool4_ok : pool_ok pool4 [1; 2; 3]%nat.
Proof.
  destruct (BlockPool_init_spec 4 true 2 true ltac:(lia)) as (s & E & Hok & _).
  rewrite pool4_init in E. by apply Ok_inj in E as ->.
Qed.

Definition pool4_used : BlockPool := (get_new_blocks false 2 pool4).2.

Lemma get_new_blocks_ok use_int s free k :
  pool_ok s free → 0 ≤ k ≤ Z.of_nat (length free) →
  pool_ok (get_new_blocks use_int k s).2 (drop (Z.to_nat k) free).
Proof.
  intros Hok Hk. pose proof (get_new_blocks_spec use_int s free k Hok ltac:(lia)) as H.
  unfold wp in H. destruct (get_new_blocks use_int k s) as [[r|e] s']; simpl; [apply H|lia].
Qed.

Lemma pool4_used_ok : pool_ok pool4_used [3]%nat.
Proof. apply (get_new_blocks_ok false pool4 [1; 2; 3]%nat 2 pool4_ok). simpl. lia. Qed.

Lemma block_pool_invariant_witness :
  let s := (free_blocks [2; 1]%nat
    (cache_full_blocks false (λ b, b) hashed_request [1; 2]%nat 0 1 2 0
      (get_new_blocks false 2 pool4).2).2).2 in
  ∃ free,
    get_all_free_blocks (S (length free)) (pool_fq s) = (Ok free, pool_fq s) ∧
    NoDup free ∧ get_num_free_blocks s = Z.of_nat (length free) ∧
    (∀ b, b ∈ free ↔ (0 < b < 4)%nat ∧ ref_of s b = 0) ∧
    (∀ b, (0 < b < 4)%nat → 0 ≤ ref_of s b) ∧
    get_num_free_blocks s +
      Z.of_nat (length (filter (λ b, 0 < ref_of s b) (seq 1 3))) = 3 ∧
    ∀ key,
      match get_one_block key (cached_block_hash_to_block s) with
      | Ok (Some b) => (b < 4)%nat ∧ hash_of s b = Some key
      | Ok None => ∀ b, (b < 4)%nat → hash_of s b ≠ Some key
      | Err _ => False
      end.
Proof.
  cbv zeta. eapply (block_pool_invariant false (λ b, b) 4 true 2 true pool4); [exact pool4_init|].
  eapply rtc_l; [apply (step_get_new_blocks _ _ _ 2); lia|].
  eapply rtc_l; [apply (step_cache_full_blocks _ _ _ hashed_request [1; 2]%nat 0 1 2 0)|].
  { decide_now. }
  eapply rtc_l; [apply (step_free_blocks _ _ _ [2; 1]%nat)|apply rtc_refl].
  decide_now.
Defined.

Lemma get_new_blocks_correct_witness :
  match get_new_blocks false 2 pool4 with
  | (Ok r, s') =>
      2 ≤ 3 ∧ r = [1; 2]%nat ∧ pool_ok s' [3]%nat ∧
      (∀ b, ref_of s' b = if decide (b ∈ r) then 1 else ref_of pool4 b) ∧
      (∀ b, hash_of s' b =
         if decide (b ∈ r ∧ enable_caching pool4 = true) then None else hash_of pool4 b)
  | (Err e, s') => e = ValueError ∧ s' = pool4 ∧ 3 < 2
  end.
Proof. apply (get_new_blocks_correct false pool4 [1; 2; 3]%nat 2); [exact pool4_ok|lia]. Defined.


Lemma free_then_allocate_order_witness :
  ∃ s1 s2, free_blocks [2; 1]%nat pool4_used = (Ok tt, s1) ∧
    get_new_blocks false 2 s1 = (Ok [3; 2]%nat, s2) ∧
    (∀ b, b ∈ [1]%nat → hash_of s2 b = hash_of pool4_used b) ∧
    (∀ b, b ∈ [2; 1]%nat → b ∉ [2; 1]%nat → b ≠ 0%nat → 1 ≤ ref_of s2 b).
Proof.
  apply (free_then_allocate_order false pool4_used [3]%nat [2; 1]%nat 2).
  - exact pool4_used_ok.
  - decide_now.
  - vm_compute. lia.
Defined.
