(* ===== verification/EncoderCache.v ===== *)
(** * The encoder cache managers

    [vllm/v1/core/encoder_cache_manager.py]: [EncoderCacheManager], which shares
    encoder outputs of equal multimodal items between requests and evicts the
    oldest unreferenced ones, [EncoderDecoderCacheManager], which only counts,
    and [compute_mm_encoder_budget].  The class [EncoderManager] is what the
    scheduler uses of either; [EncoderManagerLaws] is what both promise to it. *)

From stdpp Require Import base list gmap strings relations.
From Stdlib Require Import ZArith Lia.
From S2P Require Import Prelude FreeQueue Request.
Local Open Scope Z_scope.

(** ** [EncoderCacheManager] *)

Record EncoderCacheManager := mkEnc {
  cache_size : Z;
  num_free_slots : Z;
  num_freeable_slots : Z;
  enc_cached : gmap string (gset string);
  freeable : list (string * Z);
  freed : list string
}.

Definition EncoderCacheManager_init (size : Z) : EncoderCacheManager :=
  mkEnc size size size ∅ [] [].

Definition set_free_slots (f : Z → Z) (s : EncoderCacheManager) : EncoderCacheManager :=
  mkEnc (cache_size s) (f (num_free_slots s)) (num_freeable_slots s) (enc_cached s)
    (freeable s) (freed s).
Definition set_freeable_slots (f : Z → Z) (s : EncoderCacheManager) : EncoderCacheManager :=
  mkEnc (cache_size s) (num_free_slots s) (f (num_freeable_slots s)) (enc_cached s)
    (freeable s) (freed s).
Definition set_enc_cached (m : gmap string (gset string)) (s : EncoderCacheManager)
    : EncoderCacheManager :=
  mkEnc (cache_size s) (num_free_slots s) (num_freeable_slots s) m (freeable s) (freed s).
Definition set_freeable (l : list (string * Z)) (s : EncoderCacheManager) : EncoderCacheManager :=
  mkEnc (cache_size s) (num_free_slots s) (num_freeable_slots s) (enc_cached s) l (freed s).
Definition set_freed (l : list string) (s : EncoderCacheManager) : EncoderCacheManager :=
  mkEnc (cache_size s) (num_free_slots s) (num_freeable_slots s) (enc_cached s) (freeable s) l.

Definition enc_reset : M EncoderCacheManager unit :=
  modify (set_enc_cached ∅) ;;
  modify (set_freeable []) ;;
  modify (set_freed []) ;;
  modify (λ s, set_free_slots (λ _, cache_size s) s) ;;
  modify (λ s, set_freeable_slots (λ _, cache_size s) s).

(** [request.mm_features[input_id].identifier] *)
Definition mm_hash_of (r : Request) (input_id : Z) : res string :=
  f ← py_get (mm_features r) input_id; Ok (identifier f).

Definition check_and_update_cache (r : Request) (input_id : Z) : M EncoderCacheManager bool :=
  mm_hash ← lift_res (mm_hash_of r input_id);
  cached ← gets enc_cached;
  match cached !! mm_hash with
  | None => mret false
  | Some refs =>
      (if bool_decide (refs = ∅) then
         l ← gets freeable;
         n ← lift_opt KeyError (dict_get l mm_hash);
         modify (set_freeable (dict_del l mm_hash)) ;;
         modify (set_freeable_slots (λ k, k - n))
       else mret tt) ;;
      modify (set_enc_cached (<[mm_hash := refs ∪ {[request_id r]}]> cached)) ;;
      mret true
  end.

(** [while num_embeds > self.num_free_slots]: every iteration takes an entry off
    [freeable], whose length bounds the loop. *)
Fixpoint evict_loop (fuel : nat) (num_embeds : Z) : M EncoderCacheManager unit :=
  match fuel with
  | O => raise OutOfFuel
  | S fuel =>
      free ← gets num_free_slots;
      if num_embeds <=? free then mret tt
      else
        l ← gets freeable;
        match l with
        | [] => raise KeyError
        | (mm_hash, num_free_embeds) :: rest =>
            modify (set_freeable rest) ;;
            cached ← gets enc_cached;
            (if bool_decide (is_Some (cached !! mm_hash))
             then modify (set_enc_cached (delete mm_hash cached)) else raise KeyError) ;;
            modify (λ s, set_freed (freed s ++ [mm_hash]) s) ;;
            modify (set_free_slots (λ k, k + num_free_embeds)) ;;
            evict_loop fuel num_embeds
        end
  end.

Definition can_allocate (r : Request) (input_id encoder_compute_budget num_embeds_to_schedule : Z)
    : M EncoderCacheManager bool :=
  num_embeds ← lift_res (get_num_encoder_embeds r input_id);
  if encoder_compute_budget <? num_embeds then mret false
  else
    let num_embeds := num_embeds + num_embeds_to_schedule in
    free ← gets num_free_slots;
    if num_embeds <=? free then mret true
    else
      reclaimable ← gets num_freeable_slots;
      if reclaimable <? num_embeds then mret false
      else
        l ← gets freeable;
        evict_loop (S (length l)) num_embeds ;; mret true.

Definition allocate (r : Request) (input_id : Z) : M EncoderCacheManager unit :=
  mm_hash ← lift_res (mm_hash_of r input_id);
  modify (λ s, match enc_cached s !! mm_hash with
               | None => set_enc_cached (<[mm_hash := ∅]> (enc_cached s)) s
               | Some _ => s
               end) ;;
  num_encoder_embeds ← lift_res (get_num_encoder_embeds r input_id);
  free ← gets num_free_slots;
  assert_ (num_encoder_embeds <=? free) ;;
  reclaimable ← gets num_freeable_slots;
  assert_ (num_encoder_embeds <=? reclaimable) ;;
  modify (λ s, set_enc_cached
    (<[mm_hash := default ∅ (enc_cached s !! mm_hash) ∪ {[request_id r]}]> (enc_cached s)) s) ;;
  modify (set_free_slots (λ k, k - num_encoder_embeds)) ;;
  modify (set_freeable_slots (λ k, k - num_encoder_embeds)).

Definition free_encoder_input (r : Request) (input_id : Z) : M EncoderCacheManager unit :=
  mm_hash ← lift_res (mm_hash_of r input_id);
  cached ← gets enc_cached;
  let refs := default ∅ (cached !! mm_hash) in
  if bool_decide (refs = ∅) then mret tt
  else
    let refs := refs ∖ {[request_id r]} in
    modify (set_enc_cached (<[mm_hash := refs]> cached)) ;;
    if bool_decide (refs = ∅) then
      num_encoder_embeds ← lift_res (get_num_encoder_embeds r input_id);
      modify (λ s, set_freeable (dict_set (freeable s) mm_hash num_encoder_embeds) s) ;;
      modify (set_freeable_slots (λ k, k + num_encoder_embeds))
    else mret tt.

Definition input_ids (r : Request) : list Z := range 0 (num_encoder_inputs r).

Definition get_cached_input_ids (r : Request) (s : EncoderCacheManager) : list Z :=
  filter (λ i, match mm_hash_of r i with
               | Ok h => bool_decide (is_Some (enc_cached s !! h))
               | Err _ => false
               end = true) (input_ids r).

Definition get_freed_mm_hashes : M EncoderCacheManager (list string) :=
  l ← gets freed; modify (set_freed []) ;; mret l.

Section enc_free.
(** The iteration order of a set of input ids. *)
Context (set_order : list Z → list Z).

Definition enc_free (r : Request) : M EncoderCacheManager unit :=
  ids ← gets (get_cached_input_ids r);
  for_each (set_order ids) (free_encoder_input r).
End enc_free.

(** ** [EncoderDecoderCacheManager] *)

Record EncoderDecoderCacheManager := mkEncDec {
  ed_cache_size : Z;
  ed_num_free_slots : Z;
  ed_allocated : list string;
  ed_to_free : list string
}.

Definition EncoderDecoderCacheManager_init (size : Z) : EncoderDecoderCacheManager :=
  mkEncDec size size [] [].
Definition ed_reset : M EncoderDecoderCacheManager unit :=
  modify (λ s, mkEncDec (ed_cache_size s) (ed_cache_size s) [] []).
Definition ed_check_and_update_cache (r : Request) (input_id : Z)
    : M EncoderDecoderCacheManager bool := mret false.
Definition ed_can_allocate (r : Request)
    (input_id encoder_compute_budget num_embeds_to_schedule : Z)
    : M EncoderDecoderCacheManager bool :=
  num_encoder_embeds ← lift_res (get_num_encoder_embeds r input_id);
  if encoder_compute_budget <? num_encoder_embeds then mret false
  else
    free ← gets ed_num_free_slots;
    mret (num_encoder_embeds + num_embeds_to_schedule <=? free).
Definition ed_allocate (r : Request) (input_id : Z) : M EncoderDecoderCacheManager unit :=
  n ← lift_res (get_num_encoder_embeds r input_id);
  modify (λ s, mkEncDec (ed_cache_size s) (ed_num_free_slots s - n) (ed_allocated s) (ed_to_free s)) ;;
  mm_hash ← lift_res (mm_hash_of r input_id);
  modify (λ s, mkEncDec (ed_cache_size s) (ed_num_free_slots s) (ed_allocated s ++ [mm_hash])
                 (ed_to_free s)).
Definition ed_free_encoder_input (r : Request) (input_id : Z) : M EncoderDecoderCacheManager unit :=
  n ← lift_res (get_num_encoder_embeds r input_id);
  modify (λ s, mkEncDec (ed_cache_size s) (ed_num_free_slots s + n) (ed_allocated s) (ed_to_free s)).
Definition ed_free (r : Request) : M EncoderDecoderCacheManager unit :=
  for_each (input_ids r) (ed_free_encoder_input r).
Definition ed_get_cached_input_ids (r : Request) (s : EncoderDecoderCacheManager) : list Z :=
  input_ids r.
Definition ed_get_freed_mm_hashes : M EncoderDecoderCacheManager (list string) :=
  to_free ← gets ed_to_free;
  modify (λ s, mkEncDec (ed_cache_size s) (ed_num_free_slots s) [] (ed_allocated s)) ;;
  mret to_free.

(** ** What the scheduler uses of either manager *)

Class EncoderManager (E : Type) := {
  em_check_and_update_cache : Request → Z → M E bool;
  em_can_allocate : Request → Z → Z → Z → M E bool;
  em_allocate : Request → Z → M E unit;
  em_free_encoder_input : Request → Z → M E unit;
  em_free : Request → M E unit;
  em_get_cached_input_ids : Request → E → list Z;
  em_get_freed_mm_hashes : M E (list string);
  em_reset : M E unit
}.

(** [set_order]: the iteration order of a set of input ids. *)
Definition enc_manager (set_order : list Z → list Z) : EncoderManager EncoderCacheManager := {|
  em_check_and_update_cache := check_and_update_cache;
  em_can_allocate := can_allocate;
  em_allocate := allocate;
  em_free_encoder_input := free_encoder_input;
  em_free := enc_free set_order;
  em_get_cached_input_ids := get_cached_input_ids;
  em_get_freed_mm_hashes := get_freed_mm_hashes;
  em_reset := enc_reset
|}.

#[export] Instance ed_manager : EncoderManager EncoderDecoderCacheManager := {|
  em_check_and_update_cache := ed_check_and_update_cache;
  em_can_allocate := ed_can_allocate;
  em_allocate := ed_allocate;
  em_free_encoder_input := ed_free_encoder_input;
  em_free := ed_free;
  em_get_cached_input_ids := ed_get_cached_input_ids;
  em_get_freed_mm_hashes := ed_get_freed_mm_hashes;
  em_reset := ed_reset
|}.

(** What a request without encoder inputs may rely on: there is nothing of it to
    free, and the freed hashes can always be collected. *)
Class EncoderManagerLaws (E : Type) `{EncoderManager E} := {
  law_text_ids r s : mm_features r = [] → em_get_cached_input_ids r s = [];
  law_text_free r s : mm_features r = [] → em_free r s = (Ok tt, s);
  law_freed s : ∃ l s', em_get_freed_mm_hashes s = (Ok l, s') 
}.

Lemma text_input_ids r : mm_features r = [] → input_ids r = [].
Proof. intros Hr. unfold input_ids, num_encoder_inputs. by rewrite Hr. Qed.

Lemma enc_manager_laws set_order :
  set_order [] = [] → @EncoderManagerLaws EncoderCacheManager (enc_manager set_order).
Proof.
  intros Ho. split.
  - intros r s Hr. unfold em_get_cached_input_ids, enc_manager, get_cached_input_ids. by rewrite text_input_ids.
  - intros r s Hr. unfold em_free, enc_manager, enc_free, get_cached_input_ids, gets, mbind, M_bind.
    by rewrite text_input_ids, filter_nil, Ho.
  - intros s. by eexists _, _.
Qed.

#[export] Instance ed_manager_laws : EncoderManagerLaws EncoderDecoderCacheManager.
Proof.
  split.
  - intros r s Hr. by apply text_input_ids.
  - intros r s Hr. unfold em_free, ed_manager, ed_free. by rewrite text_input_ids.
  - intros s. by eexists _, _.
Qed.

(** ** The budget *)

(** The fields of [SchedulerConfig] the function reads. *)
Record EncoderBudgetConfig := mkBudgetConfig {
  disable_chunked_mm_input : bool;
  max_num_batched_tokens : Z;
  max_num_encoder_input_tokens : Z;
  config_encoder_cache_size : Z
}.

(** [mm_max_toks_per_item] maps each modality to its largest item. *)
Definition compute_mm_encoder_budget (c : EncoderBudgetConfig)
    (mm_max_toks_per_item : list (string * Z)) : res (Z * Z) :=
  match mm_max_toks_per_item.*2 with
  | [] => Ok (0, 0)
  | n :: rest =>
      let max_tokens_per_mm_item := foldl Z.max n rest in
      if disable_chunked_mm_input c && (max_num_batched_tokens c <? max_tokens_per_mm_item)
      then Err ValueError
      else Ok (Z.max (max_num_encoder_input_tokens c) max_tokens_per_mm_item,
               Z.max (config_encoder_cache_size c) max_tokens_per_mm_item)
  end.

(** ** The invariant *)

Lemma dict_set_new {K V} `{EqDecision K} (d : list (K * V)) k v :
  k ∉ d.*1 → dict_set d k v = d ++ [(k, v)].
Proof.
  induction d as [|[k' v'] d IH]; [done|]. rewrite fmap_cons, not_elem_of_cons. cbn [fst dict_set].
  intros [??]. rewrite decide_False, IH by done. done.
Qed.

Lemma sum_dict_del {K} `{EqDecision K} (d : list (K * Z)) k n :
  dict_get d k = Some n → sumZ (dict_del d k).*2 = sumZ d.*2 - n.
Proof.
  induction d as [|[k' v'] d IH]; [done|]. cbn [dict_get dict_del].
  destruct (decide (k = k')); rewrite !fmap_cons; cbn [sumZ snd]; intros H.
  - simplify_eq. lia.
  - rewrite IH by done. lia.
Qed.

Section enc.
(** The number of embeddings of the item with a given hash. *)
Context (size : string → Z).
Context (Hsize : ∀ h, 0 ≤ size h).
Implicit Types (s : EncoderCacheManager) (r : Request).

(** Items with the same hash have the same number of embeddings. *)
Definition sized r : Prop :=
  Forall (λ f, get_num_embeds f = Ok (size (identifier f))) (mm_features r).

Definition total (m : gmap string (gset string)) : Z :=
  map_fold (λ h _ acc, size h + acc) 0 m.

Record enc_ok s : Prop := {
  eo_free : num_free_slots s = cache_size s - total (enc_cached s);
  eo_nonneg : 0 ≤ num_free_slots s;
  eo_freeable : num_freeable_slots s = num_free_slots s + sumZ (freeable s).*2;
  eo_keys : NoDup (freeable s).*1;
  eo_sizes : ∀ h n, (h, n) ∈ freeable s → n = size h;
  eo_refs : ∀ h, enc_cached s !! h = Some ∅ ↔ h ∈ (freeable s).*1
}.

Lemma total_new m h refs : m !! h = None → total (<[h := refs]> m) = size h + total m.
Proof. intros Hm. unfold total. apply (map_fold_insert_L (λ h _ acc, size h + acc)); [|done]. intros. lia. Qed.

Lemma total_delete m h refs : m !! h = Some refs → total m = size h + total (delete h m).
Proof. intros Hm. unfold total. eapply (map_fold_delete_L (λ h _ acc, size h + acc)); [|done]. intros. lia. Qed.

Lemma total_old m h refs refs' : m !! h = Some refs → total (<[h := refs']> m) = total m.
Proof.
  intros Hm. rewrite (total_delete _ h refs'), (total_delete m h refs) by
    (done || apply lookup_insert_eq). by rewrite delete_insert_eq.
Qed.

Lemma total_nonneg m : 0 ≤ total m.
Proof.
  induction m as [|h refs m Hm IH] using map_ind; [done|].
  rewrite total_new by done. pose proof (Hsize h). lia.
Qed.

Lemma sum_freeable_nonneg s : enc_ok s → 0 ≤ sumZ (freeable s).*2.
Proof.
  intros Hok. pose proof (eo_sizes _ Hok) as Hs. induction (freeable s) as [|[h n] l IH]; [done|].
  rewrite fmap_cons. cbn [sumZ snd]. pose proof (Hs h n ltac:(left)) as ->.
  pose proof (Hsize h). specialize (IH ltac:(intros h' n' ?; apply Hs; by right)). lia.
Qed.

(** Reading the hash and the size of an input. *)
Lemma mm_hash_size r i h :
  sized r → mm_hash_of r i = Ok h → get_num_encoder_embeds r i = Ok (size h).
Proof.
  unfold sized, mm_hash_of, get_num_encoder_embeds, num_encoder_inputs. intros Hs.
  destruct (py_get (mm_features r) i) as [f|] eqn:E; [|done]. intros [= <-]. simpl.
  rewrite Forall_forall in Hs. unfold py_get, py_index in E.
  destruct (Z.ltb_spec i (Z.of_nat (length (mm_features r)))) as [Hi|Hi].
  - apply Hs. destruct (bool_decide _); [done|].
    destruct (_ !! _) eqn:E'; [|done]. simplify_eq. by eapply list_elem_of_lookup_2.
  - rewrite (bool_decide_eq_false_2 (i < 0)), (bool_decide_eq_false_2 (i < 0)) in E by lia.
    rewrite lookup_ge_None_2 in E by lia. done.
Qed.

Lemma enc_init_ok n : 0 ≤ n → enc_ok (EncoderCacheManager_init n).
Proof.
  intros Hn. split; simpl; try lia.
  - unfold total. rewrite map_fold_empty. lia.
  - apply NoDup_nil_2.
  - by intros h k ?%elem_of_nil.
  - intros h. rewrite lookup_empty. split; [done|by intros ?%elem_of_nil].
Qed.

Lemma freeable_get s h :
  enc_ok s → enc_cached s !! h = Some ∅ → dict_get (freeable s) h = Some (size h).
Proof.
  intros Hok Hh. apply (eo_refs _ Hok) in Hh. destruct (dict_get (freeable s) h) as [n|] eqn:E.
  - by rewrite (eo_sizes _ Hok h n) by (by apply dict_get_Some).
  - by apply dict_get_None in E.
Qed.

(** A reference is added to an entry: it leaves [freeable]. *)
Definition enc_reference (h rid : string) (refs : gset string) s : EncoderCacheManager :=
  mkEnc (cache_size s) (num_free_slots s)
    (num_freeable_slots s - if decide (refs = ∅) then size h else 0)
    (<[h := refs ∪ {[rid]}]> (enc_cached s))
    (if decide (refs = ∅) then dict_del (freeable s) h else freeable s) (freed s).

Lemma enc_reference_ok h rid refs s :
  enc_ok s → enc_cached s !! h = Some refs → enc_ok (enc_reference h rid refs s).
Proof.
  intros Hok Hh. pose proof Hok as []. unfold enc_reference. split; simpl.
  - by rewrite (total_old _ h refs).
  - done.
  - destruct (decide (refs = ∅)) as [->|]; [|lia].
    rewrite (sum_dict_del _ h (size h)) by by apply freeable_get. lia.
  - destruct (decide _); [by apply dict_del_NoDup|done].
  - intros h' n. destruct (decide _); [|apply eo_sizes0].
    rewrite dict_elem_del by done. intros [_ ?]. auto.
  - intros h'. assert (h' ∈ (if decide (refs = ∅) then dict_del (freeable s) h
                           else freeable s).*1 ↔ h' ≠ h ∧ h' ∈ (freeable s).*1) as ->.
    { destruct (decide (refs = ∅)) as [E|E].
      - rewrite dict_del_keys, list_elem_of_filter by done. tauto.
      - split; [|tauto]. intros Hin. split; [|done]. intros ->. apply eo_refs0 in Hin. congruence. }
    rewrite <-eo_refs0. destruct (decide (h' = h)) as [->|].
    + rewrite lookup_insert_eq. split; [intros [= E]|tauto]. set_solver.
    + rewrite lookup_insert_ne by done. tauto.
Qed.

Lemma check_spec r i s :
  sized r → enc_ok s →
  wp (check_and_update_cache r i)
    (λ b s', ∃ h, mm_hash_of r i = Ok h ∧ enc_ok s' ∧
       match enc_cached s !! h with
       | None => b = false ∧ s' = s
       | Some refs => b = true ∧ s' = enc_reference h (request_id r) refs s
       end)
    (λ e s', s' = s ∧ mm_hash_of r i = Err e) s.
Proof.
  intros Hs Hok. unfold check_and_update_cache. wp_step. apply wp_lift_res; [|done].
  intros h Hh. wp_steps. destruct (enc_cached s !! h) as [refs|] eqn:E.
  2:{ apply wp_ret. exists h. by rewrite E. }
  pose proof (enc_reference_ok h (request_id r) refs s Hok E) as Hok'.
  assert (∀ s', s' = enc_reference h (request_id r) refs s →
    ∃ h, mm_hash_of r i = Ok h ∧ enc_ok s' ∧
       match enc_cached s !! h with
       | None => true = false ∧ s' = s
       | Some refs => true = true ∧ s' = enc_reference h (request_id r) refs s
       end) as Hfin.
  { intros s' ->. exists h. by rewrite E. }
  wp_step. unfold enc_reference in *. destruct (decide (refs = ∅)) as [->|Hne].
  - rewrite bool_decide_eq_true_2 by done. wp_steps.
    eapply wp_lift_some; [by apply freeable_get|]. wp_steps. apply Hfin. by destruct s.
  - rewrite bool_decide_eq_false_2 by done. wp_steps. apply Hfin.
    rewrite Z.sub_0_r. by destruct s.
Qed.

(** The oldest unreferenced entries [es] are evicted. *)
Definition enc_evict (es rest : list (string * Z)) s : EncoderCacheManager :=
  mkEnc (cache_size s) (num_free_slots s + sumZ es.*2) (num_freeable_slots s)
    (foldl (λ m h, delete h m) (enc_cached s) es.*1) rest (freed s ++ es.*1).

Lemma enc_evict_cons h n es rest s :
  enc_evict ((h, n) :: es) rest s = enc_evict es rest (enc_evict [(h, n)] (es ++ rest) s).
Proof.
  unfold enc_evict. rewrite !fmap_cons, !fmap_nil. simpl. f_equal; [lia|].
  by rewrite <-app_assoc.
Qed.

Lemma enc_evict1_ok h n l s :
  enc_ok s → freeable s = (h, n) :: l → enc_ok (enc_evict [(h, n)] l s).
Proof.
  intros Hok E. pose proof (sum_freeable_nonneg s Hok) as Hsum. destruct Hok. rewrite E in *.
  rewrite fmap_cons in *. simpl in *.
  pose proof (eo_sizes0 h n ltac:(left)) as ->.
  apply NoDup_cons in eo_keys0 as [Hh Hnd].
  assert (enc_cached s !! h = Some ∅) as Hc by (apply eo_refs0; left).
  split; simpl.
  - rewrite (total_delete (enc_cached s) h ∅) in eo_free0 by done. lia.
  - pose proof (Hsize h). lia.
  - rewrite eo_freeable0. lia.
  - done.
  - intros h' n' ?. apply eo_sizes0. by right.
  - intros h'. destruct (decide (h' = h)) as [->|Hne].
    + rewrite lookup_delete_eq. split; done.
    + rewrite lookup_delete_ne, eo_refs0, elem_of_cons by done. tauto.
Qed.

Lemma evict_loop_spec fuel k s :
  enc_ok s → k ≤ num_freeable_slots s → (length (freeable s) < fuel)%nat →
  ∃ es rest, freeable s = es ++ rest ∧
    evict_loop fuel k s = (Ok tt, enc_evict es rest s) ∧
    enc_ok (enc_evict es rest s) ∧ k ≤ num_free_slots s + sumZ es.*2 ∧
    ∀ es' x, es = es' ++ [x] → num_free_slots s + sumZ es'.*2 < k.
Proof.
  revert s. induction fuel as [|fuel IH]; intros s Hok Hk Hlen; [lia|].
  cbn [evict_loop]. unfold gets, modify, mbind, M_bind, mret, M_ret.
  destruct (Z.leb_spec k (num_free_slots s)) as [Hle|Hgt].
  { exists [], (freeable s). assert (enc_evict [] (freeable s) s = s) as ->.
    { unfold enc_evict. rewrite fmap_nil. simpl. rewrite Z.add_0_r, app_nil_r. by destruct s. }
    split_and!; try done; [simpl; lia|]. intros [|??] ??; done. }
  destruct (freeable s) as [|[h n] l] eqn:E.
  { pose proof (eo_freeable _ Hok) as H. rewrite E in H. simpl in H. lia. }
  pose proof (enc_evict1_ok h n l s Hok E) as Hok1.
  assert (is_Some (enc_cached s !! h)) as Hc.
  { exists ∅. apply (eo_refs _ Hok). rewrite E. left. }
  destruct (IH (enc_evict [(h, n)] l s)) as (es & rest & El & Er & Hok2 & Hk2 & Hmin); [done..| |].
  { simpl. simpl in Hlen. lia. }
  simpl in El. exists ((h, n) :: es), rest. rewrite enc_evict_cons, <-El.
  split_and!; [by rewrite El| |done| |].
  - cbn [enc_cached set_freeable].
    rewrite (bool_decide_eq_true_2 (is_Some (enc_cached s !! h))) by done.
    rewrite <-Er. f_equal. unfold enc_evict. simpl. by rewrite Z.add_0_r.
  - rewrite fmap_cons. simpl in *. lia.
  - intros [|x' es'] x; intros [= <- Hes].
    + simpl. lia.
    + rewrite fmap_cons. specialize (Hmin es' x Hes). simpl in *. lia.
Qed.

Lemma can_allocate_spec r i budget k s n :
  enc_ok s → get_num_encoder_embeds r i = Ok n →
  ∃ es rest, freeable s = es ++ rest ∧
    can_allocate r i budget k s =
      (Ok (bool_decide (n ≤ budget ∧ n + k ≤ num_freeable_slots s)), enc_evict es rest s) ∧
    enc_ok (enc_evict es rest s) ∧
    (n ≤ budget ∧ n + k ≤ num_freeable_slots s → n + k ≤ num_free_slots s + sumZ es.*2) ∧
    (¬ (n ≤ budget ∧ n + k ≤ num_freeable_slots s) → es = []) ∧
    ∀ es' x, es = es' ++ [x] → num_free_slots s + sumZ es'.*2 < n + k.
Proof.
  intros Hok Hn. unfold can_allocate, lift_res, gets, mbind, M_bind. rewrite Hn.
  pose proof (sum_freeable_nonneg s Hok). pose proof (eo_freeable _ Hok).
  assert (enc_evict [] (freeable s) s = s) as E0.
  { unfold enc_evict. rewrite fmap_nil. simpl. rewrite Z.add_0_r, app_nil_r. by destruct s. }
  destruct (Z.ltb_spec budget n).
  { exists [], (freeable s). rewrite E0, bool_decide_eq_false_2 by lia.
    split_and!; try done; [lia|]. by intros [|??]. }
  destruct (Z.leb_spec (n + k) (num_free_slots s)).
  { exists [], (freeable s). rewrite E0, bool_decide_eq_true_2 by lia.
    split_and!; try done; [simpl; lia|]. by intros [|??]. }
  destruct (Z.ltb_spec (num_freeable_slots s) (n + k)).
  { exists [], (freeable s). rewrite E0, bool_decide_eq_false_2 by lia.
    split_and!; try done; [lia|]. by intros [|??]. }
  destruct (evict_loop_spec (S (length (freeable s))) (n + k) s)
    as (es & rest & El & Er & Hok' & Hk' & Hmin); [done|lia|lia|].
  exists es, rest. cbn beta. rewrite Er, bool_decide_eq_true_2 by lia.
  split_and!; try done. lia.
Qed.

(** The state after a successful [allocate]. *)
Definition enc_allocated (h rid : string) s : EncoderCacheManager :=
  mkEnc (cache_size s) (num_free_slots s - size h) (num_freeable_slots s - size h)
    (<[h := {[rid]}]> (enc_cached s)) (freeable s) (freed s).

Lemma allocate_spec r i s h :
  sized r → enc_ok s → mm_hash_of r i = Ok h → enc_cached s !! h = None →
  size h ≤ num_free_slots s →
  allocate r i s = (Ok tt, enc_allocated h (request_id r) s) ∧
  enc_ok (enc_allocated h (request_id r) s).
Proof.
  intros Hs Hok Hh Hc Hle. pose proof (sum_freeable_nonneg s Hok) as Hsum.
  split.
  - unfold allocate, lift_res, gets, modify, assert_, mbind, M_bind, mret, M_ret.
    rewrite Hh, Hc, (mm_hash_size r i h) by done.
    cbn -[Z.leb Z.add Z.sub].
    pose proof (eo_freeable _ Hok) as Hf.
    rewrite (proj2 (Z.leb_le _ _) Hle). cbn -[Z.leb Z.add Z.sub].
    rewrite (proj2 (Z.leb_le (size h) (num_freeable_slots s))) by lia.
    cbn -[Z.leb Z.add Z.sub]. rewrite lookup_insert_eq, insert_insert_eq. simpl.
    by rewrite (left_id_L ∅ (∪)).
  - destruct Hok. split; simpl; try done; try lia.
    + rewrite total_new by done. lia.
    + intros h'. rewrite <-eo_refs0. destruct (decide (h' = h)) as [->|].
      * rewrite lookup_insert_eq, Hc. split; [intros [= E]; set_solver|done].
      * by rewrite lookup_insert_ne.
Qed.

(** A request gives its reference up; an entry without references becomes
    reclaimable, behind those that already are. *)
Definition enc_unref (h rid : string) (refs : gset string) s : EncoderCacheManager :=
  let last_ := decide (refs ∖ {[rid]} = ∅) in
  mkEnc (cache_size s) (num_free_slots s)
    (num_freeable_slots s + if last_ then size h else 0)
    (<[h := refs ∖ {[rid]}]> (enc_cached s))
    (if last_ then freeable s ++ [(h, size h)] else freeable s) (freed s).

Lemma sumZ_snoc (l : list (string * Z)) h n : sumZ (l ++ [(h, n)]).*2 = sumZ l.*2 + n.
Proof. rewrite fmap_app, sumZ_app. simpl. lia. Qed.

Lemma enc_unref_ok h rid refs s :
  enc_ok s → enc_cached s !! h = Some refs → refs ≠ ∅ → enc_ok (enc_unref h rid refs s).
Proof.
  intros Hok Hh Hne. pose proof Hok as [].
  assert (h ∉ (freeable s).*1) as Hout by (intros Hin; apply eo_refs0 in Hin; congruence).
  unfold enc_unref. split; simpl.
  - by rewrite (total_old _ h refs).
  - done.
  - destruct (decide _); [rewrite sumZ_snoc|]; lia.
  - destruct (decide _); [|done]. rewrite fmap_app. apply NoDup_app. split_and!; [done| |].
    + by intros x Hx ->%list_elem_of_singleton.
    + apply NoDup_singleton.
  - intros h' n. destruct (decide _); [|apply eo_sizes0].
    intros [Hin|[= -> ->]%list_elem_of_singleton]%elem_of_app; [auto|done].
  - intros h'. destruct (decide (h' = h)) as [->|].
    + rewrite lookup_insert_eq. destruct (decide _) as [E|E].
      * rewrite fmap_app, elem_of_app. simpl. rewrite list_elem_of_singleton, E. tauto.
      * split; [intros [= H]; done|tauto].
    + rewrite lookup_insert_ne, eo_refs0 by done. destruct (decide _); [|done].
      rewrite fmap_app, elem_of_app. simpl. rewrite list_elem_of_singleton. tauto.
Qed.

Lemma free_encoder_input_spec r i s h :
  sized r → enc_ok s → mm_hash_of r i = Ok h →
  let refs := default ∅ (enc_cached s !! h) in
  free_encoder_input r i s =
    (Ok tt, if decide (refs = ∅) then s else enc_unref h (request_id r) refs s) ∧
  enc_ok (free_encoder_input r i s).2.
Proof.
  intros Hs Hok Hh refs.
  assert (free_encoder_input r i s =
    (Ok tt, if decide (refs = ∅) then s else enc_unref h (request_id r) refs s)) as E.
  { unfold free_encoder_input, lift_res, gets, modify, mbind, M_bind, mret, M_ret.
    rewrite Hh. cbn beta iota. fold refs. rewrite (mm_hash_size r i h) by done.
    destruct (decide (refs = ∅)) as [E|E]; [by rewrite bool_decide_eq_true_2|].
    rewrite bool_decide_eq_false_2 by done. unfold enc_unref.
    destruct (decide (refs ∖ {[request_id r]} = ∅)) as [E1|E1].
    - rewrite bool_decide_eq_true_2 by done. cbn -[Z.add].
      rewrite dict_set_new; [done|]. intros Hin. apply (eo_refs _ Hok) in Hin.
      apply E. unfold refs. by rewrite Hin.
    - rewrite bool_decide_eq_false_2 by done. cbn. by rewrite Z.add_0_r. }
  split; [done|]. rewrite E. simpl. destruct (decide (refs = ∅)) as [|Hne]; [done|].
  apply enc_unref_ok; [done| |done]. unfold refs in *.
  by destruct (enc_cached s !! h).
Qed.

(** Every operation keeps the invariant whatever it returns or raises. *)
Definition enc_keeps {A} (m : M EncoderCacheManager A) : Prop :=
  ∀ s, enc_ok s → enc_ok (m s).2 ∧ cache_size (m s).2 = cache_size s.

Lemma enc_keeps_free_input r i : sized r → enc_keeps (free_encoder_input r i).
Proof.
  intros Hs s Hok. destruct (mm_hash_of r i) as [h|e] eqn:Hh.
  - destruct (free_encoder_input_spec r i s h Hs Hok Hh) as [E H]. split; [done|].
    rewrite E. simpl. by destruct (decide _).
  - unfold free_encoder_input, lift_res, mbind, M_bind. by rewrite Hh.
Qed.

Lemma enc_keeps_free order r : sized r → enc_keeps (enc_free order r).
Proof.
  intros Hs. assert (∀ l, enc_keeps (for_each l (free_encoder_input r))) as Hl.
  { induction l as [|i l IH]; intros s Hok; [done|]. simpl. unfold mbind, M_bind.
    destruct (enc_keeps_free_input r i Hs s Hok) as [Hok1 E1].
    destruct (free_encoder_input r i s) as [[[]|e] s1]; simpl in *; [|done].
    destruct (IH s1 Hok1) as [H1 H2]. split; [done|congruence]. }
  intros s Hok. apply Hl, Hok.
Qed.

Lemma enc_keeps_can_allocate r i b k : sized r → enc_keeps (can_allocate r i b k).
Proof.
  intros Hs s Hok. destruct (get_num_encoder_embeds r i) as [n|e] eqn:En.
  - destruct (can_allocate_spec r i b k s n Hok En) as (es & rest & _ & -> & ? & _). done.
  - unfold can_allocate, lift_res, mbind, M_bind. by rewrite En.
Qed.

Lemma enc_keeps_check r i : sized r → enc_keeps (check_and_update_cache r i).
Proof.
  intros Hs s Hok. pose proof (check_spec r i s Hs Hok) as H. unfold wp in H.
  destruct (check_and_update_cache r i s) as [[b|e] s']; [|by destruct H as [-> _]].
  destruct H as (h & _ & Hok' & H). split; [done|].
  destruct (enc_cached s !! h); by destruct H as [_ ->].
Qed.


Lemma foldl_delete (m : gmap string (gset string)) (l : list string) h :
  foldl (λ m h, delete h m) m l !! h = if decide (h ∈ l) then None else m !! h.
Proof.
  revert m. induction l as [|x l IH]; intros m; cbn [foldl].
  { by rewrite decide_False by apply not_elem_of_nil. }
  rewrite IH. destruct (decide (h = x)) as [->|Hne].
  - rewrite lookup_delete_eq, (decide_True (P:=x ∈ x :: l)) by left. by destruct (decide _).
  - rewrite lookup_delete_ne by done. apply decide_ext. rewrite elem_of_cons. tauto.
Qed.

(** Capacity held by entries some request references. *)
Definition total_ref (m : gmap string (gset string)) : Z :=
  map_fold (λ h refs acc, if decide (refs = ∅) then acc else size h + acc) 0 m.

Lemma total_ref_new m h refs :
  m !! h = None → total_ref (<[h := refs]> m) = (if decide (refs = ∅) then 0 else size h) + total_ref m.
Proof.
  intros Hm. unfold total_ref.
  rewrite (map_fold_insert_L (λ h refs acc, if decide (refs = ∅) then acc else size h + acc));
    [|intros; goal_decide; lia|done].
  goal_decide; lia.
Qed.

Lemma total_split m l :
  NoDup l.*1 → (∀ h, m !! h = Some ∅ ↔ h ∈ l.*1) → (∀ h n, (h, n) ∈ l → n = size h) →
  total m = total_ref m + sumZ l.*2.
Proof.
  revert m. induction l as [|[h n] l IH]; intros m Hnd Hm Hs.
  - simpl. rewrite Z.add_0_r. clear Hnd Hs. induction m as [|h refs m Hh IH] using map_ind; [done|].
    rewrite total_new, total_ref_new by done. destruct (decide (refs = ∅)) as [->|].
    + destruct (Hm h) as [H _]. rewrite lookup_insert_eq in H.
      exfalso. by eapply elem_of_nil, H.
    + rewrite IH; [done|]. intros h'. rewrite <-Hm. destruct (decide (h' = h)) as [->|].
      * rewrite lookup_insert_eq, Hh. split; congruence.
      * by rewrite lookup_insert_ne.
  - rewrite fmap_cons in *. simpl in *. apply NoDup_cons in Hnd as [Hh Hnd].
    pose proof (Hs h n ltac:(left)) as ->.
    assert (m !! h = Some ∅) as Hmh by (apply Hm; left).
    rewrite <-(insert_delete_id m h ∅ Hmh).
    rewrite total_new, total_ref_new by apply lookup_delete_eq. rewrite decide_True by done.
    rewrite (IH (delete h m)); [lia|done| |].
    + intros h'. destruct (decide (h' = h)) as [->|].
      * by rewrite lookup_delete_eq.
      * rewrite lookup_delete_ne, Hm, elem_of_cons by done. tauto.
    + intros h' n' ?. apply Hs. by right.
Qed.
End enc.

(** ** The manager as a state machine *)

Inductive enc_step (size : string → Z) (order : list Z → list Z) (s : EncoderCacheManager)
    : EncoderCacheManager → Prop :=
  | estep_check r i : sized size r → enc_step size order s (check_and_update_cache r i s).2
  | estep_can_allocate r i budget k :
      sized size r → enc_step size order s (can_allocate r i budget k s).2
  | estep_allocate r i h :
      sized size r → mm_hash_of r i = Ok h → enc_cached s !! h = None →
      size h ≤ num_free_slots s → enc_step size order s (allocate r i s).2
  | estep_free_input r i : sized size r → enc_step size order s (free_encoder_input r i s).2
  | estep_free r : sized size r → enc_step size order s (enc_free order r s).2
  | estep_get_freed : enc_step size order s (get_freed_mm_hashes s).2
  | estep_reset : enc_step size order s (enc_reset s).2.

Lemma enc_step_ok size order s s' :
  (∀ h, 0 ≤ size h) → 0 ≤ cache_size s → enc_step size order s s' →
  enc_ok size s → enc_ok size s' ∧ cache_size s' = cache_size s.
Proof.
  intros Hsize Hn Hs Hok. destruct Hs as [r i Hr|r i b k Hr|r i h Hr Hh Hc Hle|r i Hr|r Hr| |].
  - by apply enc_keeps_check.
  - by apply enc_keeps_can_allocate.
  - destruct (allocate_spec size Hsize r i s h Hr Hok Hh Hc Hle) as [-> ?]. done.
  - by apply enc_keeps_free_input.
  - by apply enc_keeps_free.
  - split; [by destruct Hok; split|done].
  - split; [by apply enc_init_ok|done].
Qed.

(** C28: in every state reachable from a new encoder cache by calls whose
    [allocate]s were cleared by the cache, the free slots are the capacity minus
    all cached items, the reclaimable slots are the capacity minus the items
    some request references, neither is negative, and the items that can be
    evicted are exactly the cached ones without references. *)
Theorem encoder_cache_invariant size order n s :
  (∀ h, 0 ≤ size h) → 0 ≤ n →
  rtc (enc_step size order) (EncoderCacheManager_init n) s →
  num_free_slots s = n - total size (enc_cached s) ∧ 0 ≤ num_free_slots s ∧
  num_freeable_slots s = n - total_ref size (enc_cached s) ∧
  num_free_slots s ≤ num_freeable_slots s ∧
  NoDup (freeable s).*1 ∧
  ∀ h k, (h, k) ∈ freeable s ↔ enc_cached s !! h = Some ∅ ∧ k = size h.
Proof.
  intros Hsize Hn Hs.
  assert (∀ s0, enc_ok size s0 → cache_size s0 = n → rtc (enc_step size order) s0 s →
    enc_ok size s ∧ cache_size s = n) as Hinv.
  { clear Hs. intros s0 Hok Hc Hs. induction Hs as [s|s s1 s2 Hstep _ IH]; [done|].
    destruct (enc_step_ok size order s s1 Hsize ltac:(lia) Hstep Hok) as [Hok1 Hc1].
    apply IH; [done|lia]. }
  destruct (Hinv _ (enc_init_ok size n Hn) eq_refl Hs) as [Hok Hc].
  pose proof (sum_freeable_nonneg size Hsize s Hok) as Hsum. destruct Hok.
  pose proof (total_split size (enc_cached s) (freeable s) eo_keys0 eo_refs0 eo_sizes0).
  split_and!; [lia|lia|lia|lia|done|].
  intros h k. split.
  - intros Hin. pose proof (eo_sizes0 h k Hin). split; [|done].
    apply eo_refs0, list_elem_of_fmap. by exists (h, k).
  - intros [Hc' ->]. apply eo_refs0, list_elem_of_fmap in Hc' as ([h' k'] & -> & Hin).
    simpl. by pose proof (eo_sizes0 h' k' Hin) as ->.
Qed.

(** C29: [can_allocate] answers yes exactly when the item fits the
    compute budget and, together with what is already promised, the reclaimable
    slots.  It evicts only if the free slots are too few: then the oldest
    unreferenced items, no more than needed, reported once each in [freed], and
    afterwards the promised items and this one fit in the free slots. *)
Theorem can_allocate_correct size r i budget promised s n :
  (∀ h, 0 ≤ size h) → enc_ok size s → get_num_encoder_embeds r i = Ok n →
  let yes := bool_decide (n ≤ budget ∧ n + promised ≤ num_freeable_slots s) in
  ∃ evicted rest s',
    freeable s = evicted ++ rest ∧ can_allocate r i budget promised s = (Ok yes, s') ∧
    freeable s' = rest ∧ freed s' = freed s ++ evicted.*1 ∧
    num_freeable_slots s' = num_freeable_slots s ∧
    (∀ h, enc_cached s' !! h = if decide (h ∈ evicted.*1) then None else enc_cached s !! h) ∧
    (yes = true → n + promised ≤ num_free_slots s') ∧
    (yes = false → s' = s) ∧
    (∀ first last_, evicted = first ++ [last_] →
       num_free_slots s + sumZ first.*2 < n + promised).
Proof.
  intros Hsize Hok Hn yes.
  destruct (can_allocate_spec size Hsize r i budget promised s n Hok Hn)
    as (es & rest & El & E & Hok' & Hfit & Hno & Hmin).
  exists es, rest, (enc_evict es rest s). split_and!; try done.
  - intros h. apply foldl_delete.
  - intros Hy. apply Hfit. by apply bool_decide_eq_true_1 in Hy.
  - intros Hy. apply bool_decide_eq_false_1 in Hy. rewrite (Hno Hy) in *. simpl in El. subst rest.
    unfold enc_evict. simpl. rewrite Z.add_0_r, app_nil_r. by destruct s.
Qed.

(** C30: the encoder budgets computed at start-up admit every item.  The
    computation fails exactly when chunking is disabled and some item exceeds
    the token budget of a step; otherwise a cache of the returned size without
    referenced items grants any single item no larger than its modality's
    maximum. *)
Theorem encoder_budget_admits_every_item size c items :
  (∀ h, 0 ≤ size h) → items ≠ [] → Forall (λ p, 0 ≤ p.2) items →
  match compute_mm_encoder_budget c items with
  | Err e => e = ValueError ∧ disable_chunked_mm_input c = true ∧
             ∃ p, p ∈ items ∧ max_num_batched_tokens c < p.2
  | Ok (compute, cache) =>
      (disable_chunked_mm_input c = true → Forall (λ p, p.2 ≤ max_num_batched_tokens c) items) ∧
      ∀ r i n p s, enc_ok size s → cache_size s = cache →
        total_ref size (enc_cached s) = 0 →
        p ∈ items → n ≤ p.2 → get_num_encoder_embeds r i = Ok n →
        (can_allocate r i compute 0 s).1 = Ok true
  end.
Proof.
  intros Hsize Hne Hpos. unfold compute_mm_encoder_budget.
  destruct items as [|[h0 n0] items]; [done|]. rewrite fmap_cons. cbn [snd].
  destruct (foldl_max_spec items.*2 n0) as (H1 & H2 & H3). set (mx := foldl Z.max n0 items.*2) in *.
  assert (∀ p, p ∈ (h0, n0) :: items → p.2 ≤ mx) as Hall.
  { intros p [->|Hp]%elem_of_cons; [done|]. apply H2, list_elem_of_fmap. eauto. }
  destruct (disable_chunked_mm_input c && (max_num_batched_tokens c <? mx)) eqn:E.
  - apply andb_prop in E as [? E]. apply Z.ltb_lt in E. split_and!; [done..|].
    destruct H3 as [H3|H3]; [exists (h0, n0); split; [left|simpl; lia]|].
    apply list_elem_of_fmap in H3 as (p & Ep & Hp). exists p. split; [by right|lia].
  - split.
    + intros Hd. rewrite Hd in E. simpl in E. apply Z.ltb_ge in E. rewrite Forall_forall.
      intros p Hp. specialize (Hall p Hp). lia.
    + intros r i n p s Hok Hc Hr Hp Hn En. specialize (Hall p Hp).
      destruct (can_allocate_spec size Hsize r i (Z.max (max_num_encoder_input_tokens c) mx) 0 s n Hok En)
        as (es & rest & _ & -> & _). simpl.
      rewrite bool_decide_eq_true_2; [done|]. split; [lia|].
      pose proof (total_split size _ _ (eo_keys _ _ Hok) (eo_refs _ _ Hok) (eo_sizes _ _ Hok)) as Ht.
      destruct Hok. lia.
Qed.

(** ** Witnesses *)

Definition two_images : Request :=
  set_mm_features [mkFeature "a" 0 2 None; mkFeature "b" 2 2 None] inhabitant.

(** A cache of three slots in which item [a] was encoded and released. *)
Definition enc_released : EncoderCacheManager :=
  (enc_free id two_images (allocate two_images 0 (EncoderCacheManager_init 3)).2).2.

Lemma enc_released_run : rtc (enc_step (λ _, 2) id) (EncoderCacheManager_init 3) enc_released.
Proof.
  eapply rtc_l; [apply (estep_allocate _ _ _ two_images 0 "a"%string)|].
  - repeat constructor.
  - reflexivity.
  - reflexivity.
  - vm_compute. discriminate.
  - apply rtc_once, (estep_free _ _ _ two_images). repeat constructor.
Qed.

Lemma enc_released_ok : enc_ok (λ _, 2) enc_released.
Proof.
  assert (sized (λ _, 2) two_images) as Hs by repeat constructor.
  apply enc_keeps_free; [done|].
  destruct (allocate_spec (λ _, 2) ltac:(intros; lia) two_images 0 (EncoderCacheManager_init 3) "a"%string)
    as [-> Hok];
    [done|apply enc_init_ok; lia|done|done|vm_compute; discriminate|exact Hok].
Qed.

Lemma encoder_cache_invariant_witness :
  let s := enc_released in
  num_free_slots s = 3 - total (λ _, 2) (enc_cached s) ∧ 0 ≤ num_free_slots s ∧
  num_freeable_slots s = 3 - total_ref (λ _, 2) (enc_cached s) ∧
  num_free_slots s ≤ num_freeable_slots s ∧
  NoDup (freeable s).*1 ∧
  ∀ h k, (h, k) ∈ freeable s ↔ enc_cached s !! h = Some ∅ ∧ k = 2.
Proof.
  apply (encoder_cache_invariant (λ _, 2) id 3 enc_released); [intros; lia|lia|exact enc_released_run].
Defined.

Lemma can_allocate_correct_witness :
  ∃ evicted rest s',
    freeable enc_released = evicted ++ rest ∧
    can_allocate two_images 1 5 0 enc_released = (Ok true, s') ∧
    evicted ≠ [] ∧ freeable s' = rest.
Proof.
  destruct (can_allocate_correct (λ _, 2) two_images 1 5 0 enc_released 2) as
    (es & rest & s' & E1 & E2 & E3 & _ & _ & _ & Hyes & _); [intros; lia|exact enc_released_ok|reflexivity|].
  exists es, rest, s'. split; [exact E1|]. split; [exact E2|]. split; [|exact E3].
  intros ->. vm_compute in E2. injection E2 as <-. vm_compute in E1, E3. congruence.
Defined.

Lemma encoder_budget_admits_every_item_witness :
  compute_mm_encoder_budget (mkBudgetConfig false 8 1 1) [("image"%string, 2)] = Ok (2, 2) ∧
  (can_allocate two_images 0 2 0 (EncoderCacheManager_init 2)).1 = Ok true.
Proof.
  split; [reflexivity|].
  pose proof (encoder_budget_admits_every_item (λ _, 2) (mkBudgetConfig false 8 1 1)
    [("image"%string, 2)]) as H.
  destruct H as [_ H]; [intros; lia|discriminate|repeat constructor; simpl; lia|].
  apply (H two_images 0 2 ("image"%string, 2)).
  - apply enc_init_ok. lia.
  - reflexivity.
  - reflexivity.
  - left.
  - simpl. lia.
  - reflexivity.
Defined.
