(* ===== verification/Heapq.v ===== *)
(** * Python's [heapq]

    The binary heap of the standard library, on lists, as [request_queue.py]
    uses it: [heappush], [heappop] and [heapify] with the two sift loops as
    CPython writes them.  The comparison [lt] is a parameter; the theorems ask
    that its complement is a total preorder. *)

From stdpp Require Import base list sorting.
From Stdlib Require Import Lia.
From S2P Require Import Prelude.

(** ** The operations *)

Section heapq.
Context {A : Type} (lt : A → A → bool).

(** [_siftdown(heap, startpos, pos)] with [newitem = heap[pos]] read before; the
    position decreases, which bounds the loop. *)
Fixpoint siftdown_loop (fuel : nat) (newitem : A) (startpos pos : nat) (heap : list A)
    : res (list A) :=
  match fuel with
  | O => Err OutOfFuel
  | S fuel =>
      if bool_decide (startpos < pos) then
        let parentpos := (pos - 1) / 2 in
        match heap !! parentpos with
        | None => Err IndexError
        | Some parent =>
            if lt newitem parent
            then siftdown_loop fuel newitem startpos parentpos (<[pos := parent]> heap)
            else Ok (<[pos := newitem]> heap)
        end
      else Ok (<[pos := newitem]> heap)
  end.

Definition siftdown (startpos pos : nat) (heap : list A) : res (list A) :=
  match heap !! pos with
  | None => Err IndexError
  | Some newitem => siftdown_loop (S pos) newitem startpos pos heap
  end.

(** [_siftup(heap, pos)]: move the smaller child up until a leaf is hit, then sift
    down from there.  The position more than doubles. *)
Fixpoint siftup_loop (fuel : nat) (newitem : A) (startpos pos : nat) (heap : list A)
    : res (list A) :=
  match fuel with
  | O => Err OutOfFuel
  | S fuel =>
      let childpos := 2 * pos + 1 in
      match heap !! childpos with
      | None => siftdown startpos pos (<[pos := newitem]> heap)
      | Some c =>
          match heap !! (childpos + 1) with
          | Some c2 =>
              if lt c c2
              then siftup_loop fuel newitem startpos childpos (<[pos := c]> heap)
              else siftup_loop fuel newitem startpos (childpos + 1) (<[pos := c2]> heap)
          | None => siftup_loop fuel newitem startpos childpos (<[pos := c]> heap)
          end
      end
  end.

Definition siftup (pos : nat) (heap : list A) : res (list A) :=
  match heap !! pos with
  | None => Err IndexError
  | Some newitem => siftup_loop (S (length heap)) newitem pos pos heap
  end.

Definition heappush (heap : list A) (item : A) : res (list A) :=
  siftdown 0 (length heap) (heap ++ [item]).

Definition heappop (heap : list A) : res (A * list A) :=
  match last heap with
  | None => Err IndexError
  | Some lastelt =>
      match take (length heap - 1) heap with
      | [] => Ok (lastelt, [])
      | (returnitem :: _) as rest =>
          h ← siftup 0 (<[0 := lastelt]> rest); Ok (returnitem, h)
      end
  end.

(** [for i in reversed(range(n)): _siftup(x, i)] *)
Fixpoint heapify_loop (n : nat) (heap : list A) : res (list A) :=
  match n with
  | O => Ok heap
  | S i => h ← siftup i heap; heapify_loop i h
  end.

Definition heapify (heap : list A) : res (list A) :=
  heapify_loop (length heap / 2) heap.

(** [while heap: yield heappop(heap)] *)
Fixpoint heap_drain (fuel : nat) (heap : list A) : res (list A) :=
  match heap with
  | [] => Ok []
  | _ =>
      match fuel with
      | O => Err OutOfFuel
      | S fuel => '(x, h) ← heappop heap; r ← heap_drain fuel h; Ok (x :: r)
      end
  end.

(** ** Correctness *)

Definition le (a b : A) : Prop := lt b a = false.
Context (le_trans : ∀ a b c, le a b → le b c → le a c).
Context (lt_le : ∀ a b, lt a b = true → le a b).

Abbreviation par i := ((i - 1) / 2).

Lemma par_lt i : 0 < i → par i < i.
Proof. intros. apply Nat.Div0.div_lt_upper_bound. lia. Qed.

Lemma par_child i p : 0 < i → par i = p ↔ i = 2 * p + 1 ∨ i = 2 * p + 2.
Proof.
  intros Hi. split.
  - intros <-. pose proof (Nat.div_mod_eq (i - 1) 2). pose proof (Nat.mod_upper_bound (i - 1) 2). lia.
  - intros [-> | ->].
    + replace (2 * p + 1 - 1) with (p * 2) by lia. by rewrite Nat.div_mul by lia.
    + replace (2 * p + 2 - 1) with (1 + p * 2) by lia. by rewrite Nat.div_add by lia.
Qed.

Lemma le_refl a : le a a.
Proof. destruct (lt a a) eqn:E; [by apply lt_le|done]. Qed.

(** The heap order below [s]: every item whose parent is at [s] or later is not
    smaller than the parent. *)
Definition heap_from (s : nat) (l : list A) : Prop :=
  ∀ i a b, 0 < i → s ≤ par i → l !! i = Some b → l !! par i = Some a → le a b.
Abbreviation heap_ok l := (heap_from 0 l).

(** The heap order with a hole at [pos]: it holds away from the hole, and the
    children of the hole are not smaller than its parent. *)
Record heap_hole (s pos : nat) (l : list A) : Prop := {
  hh_away : ∀ i a b, 0 < i → s ≤ par i → i ≠ pos → par i ≠ pos →
    l !! i = Some b → l !! par i = Some a → le a b;
  hh_grand : ∀ i a b, 0 < i → par i = pos → s < pos →
    l !! i = Some b → l !! par pos = Some a → le a b
}.

(** [pos] is in the subtree rooted at [s]. *)
Inductive below (s : nat) : nat → Prop :=
  | below_root : below s s
  | below_child p : 0 < p → below s (par p) → below s p.

Lemma below_ge s p : below s p → s ≤ p.
Proof. induction 1; [done|]. pose proof (par_lt p ltac:(done)). lia. Qed.

Lemma below_par s p : below s p → s < p → below s (par p) ∧ s ≤ par p.
Proof.
  intros Hb Hlt. inversion Hb as [|p' Hp Hpar]; subst; [lia|].
  split; [done|by apply below_ge].
Qed.

Lemma insert_perm (l : list A) i a x : l !! i = Some a → a :: <[i := x]> l ≡ₚ x :: l.
Proof.
  intros Hl. assert (i < length l) by by eapply lookup_lt_Some.
  rewrite insert_take_drop by done. rewrite <-(take_drop_middle l i a Hl) at 3.
  rewrite <-!Permutation_middle. apply perm_swap.
Qed.

(** Moving [y] from [j] to the hole [i] moves the hole to [j]. *)
Lemma move_perm (l : list A) i j x y :
  i ≠ j → i < length l → l !! j = Some y → <[j := x]> (<[i := y]> l) ≡ₚ <[i := x]> l.
Proof.
  intros Hij Hi Hj. destruct (lookup_lt_is_Some_2 l i Hi) as [a Ha].
  assert (<[i := y]> l !! j = Some y) as Hj' by by rewrite list_lookup_insert_ne.
  pose proof (insert_perm (<[i := y]> l) j y x Hj') as P1.
  pose proof (insert_perm l i a y Ha) as P2. pose proof (insert_perm l i a x Ha) as P3.
  apply (Permutation_cons_inv (a := y)), (Permutation_cons_inv (a := a)).
  rewrite P1, (perm_swap x a), P2, (perm_swap y a), P3. apply perm_swap.
Qed.

Lemma lookup_insert_cases (l : list A) p x i b :
  <[p := x]> l !! i = Some b → (i = p ∧ b = x ∧ p < length l) ∨ (i ≠ p ∧ l !! i = Some b).
Proof.
  intros H. destruct (decide (i = p)) as [->|Hne].
  - left. pose proof (lookup_lt_Some _ _ _ H) as Hl. rewrite length_insert in Hl.
    rewrite list_lookup_insert_eq in H by done. by simplify_eq.
  - right. by rewrite list_lookup_insert_ne in H by done.
Qed.

(** Filling the hole. *)
Lemma heap_fill s pos l x :
  heap_hole s pos l →
  (∀ i b, 0 < i → par i = pos → l !! i = Some b → le x b) →
  (s < pos → ∀ a, l !! par pos = Some a → le a x) →
  heap_from s (<[pos := x]> l).
Proof.
  intros Hh Hx Hup i a b Hi Hs Hb Ha. pose proof (par_lt i Hi).
  apply lookup_insert_cases in Hb as [(-> & -> & _)|[Hne Hb]].
  - apply lookup_insert_cases in Ha as [(? & _)|[_ Ha]]; [lia|]. apply Hup; [lia|done].
  - apply lookup_insert_cases in Ha as [(E & -> & _)|[Hne2 Ha]]; [by eapply Hx|].
    by eapply (hh_away _ _ _ Hh).
Qed.

(** Moving a smaller hole parent down. *)
Lemma heap_hole_up s pos l parent :
  below s pos → s < pos → heap_hole s pos l → l !! par pos = Some parent →
  heap_hole s (par pos) (<[pos := parent]> l) ∧
  ∀ i b, 0 < i → par i = par pos → <[pos := parent]> l !! i = Some b → le parent b.
Proof.
  intros Hbel Hlt Hh Hp. destruct (below_par s pos Hbel Hlt) as [Hbel' Hge].
  pose proof (par_lt pos ltac:(lia)) as Hpp.
  assert (∀ i b, 0 < i → par i = par pos → <[pos := parent]> l !! i = Some b → le parent b) as Hsib.
  { intros i b Hi Hpi [(_ & -> & _)|[Hne Hb]]%lookup_insert_cases; [apply le_refl|].
    eapply (hh_away _ _ _ Hh i); [done|lia|done|lia|done|by rewrite Hpi]. }
  split; [|done]. split.
  - intros i a b Hi Hs Hne1 Hne2 [(-> & _)|[Hne Hb]]%lookup_insert_cases; [done|].
    intros [(E & -> & _)|[Hne' Ha]]%lookup_insert_cases.
    + by eapply (hh_grand _ _ _ Hh i).
    + by eapply (hh_away _ _ _ Hh i).
  - intros i a b Hi Hpi Hs Hb Ha. pose proof (par_lt (par pos) ltac:(lia)).
    apply lookup_insert_cases in Ha as [(? & _)|[_ Ha]]; [lia|].
    apply (le_trans a parent); [|by eapply Hsib].
    destruct (below_par s (par pos) Hbel' Hs) as [_ ?].
    eapply (hh_away _ _ _ Hh (par pos)); [lia|done|lia|lia|done|done].
Qed.

Lemma siftdown_loop_spec fuel x s pos l :
  pos < fuel → pos < length l → below s pos → heap_hole s pos l →
  (∀ i b, 0 < i → par i = pos → l !! i = Some b → le x b) →
  ∃ l', siftdown_loop fuel x s pos l = Ok l' ∧ heap_from s l' ∧ l' ≡ₚ <[pos := x]> l.
Proof.
  revert pos l. induction fuel as [|fuel IH]; intros pos l Hf Hpos Hb Hh Hx; [lia|]. cbn [siftdown_loop].
  case_bool_decide as Hlt.
  2:{ eexists. split; [done|]. split; [|done]. apply heap_fill; [done..|lia]. }
  pose proof (par_lt pos ltac:(lia)) as Hpp.
  destruct (lookup_lt_is_Some_2 l (par pos)) as [parent Hp]; [lia|]. rewrite Hp.
  destruct (lt x parent) eqn:Ex.
  - destruct (heap_hole_up s pos l parent Hb Hlt Hh Hp) as [Hh' Hsib].
    destruct (IH (par pos) (<[pos := parent]> l)) as (l' & E & Hl' & Hperm).
    + lia.
    + rewrite length_insert. lia.
    + by apply below_par.
    + done.
    + intros i b Hi Hpi Hib. apply (le_trans x parent); [by apply lt_le|by eapply Hsib].
    + exists l'. split; [done|]. split; [done|]. rewrite Hperm. apply move_perm; [lia|done..].
  - eexists. split; [done|]. split; [|done]. apply heap_fill; [done..|].
    intros _ a Ha. by simplify_eq.
Qed.

Lemma siftdown_spec s pos l x :
  l !! pos = Some x → below s pos → heap_hole s pos l →
  (∀ i b, 0 < i → par i = pos → l !! i = Some b → le x b) →
  ∃ l', siftdown s pos l = Ok l' ∧ heap_from s l' ∧ l' ≡ₚ l.
Proof.
  intros Hx Hb Hh Hc. unfold siftdown. rewrite Hx.
  destruct (siftdown_loop_spec (S pos) x s pos l) as (l' & E & Hl' & Hp);
    [lia|by eapply lookup_lt_Some|done..|].
  exists l'. split; [done|]. split; [done|]. by rewrite Hp, list_insert_id.
Qed.

(** Moving the smaller child [c] into the hole. *)
Lemma heap_hole_down s pos l child c :
  s ≤ pos → heap_hole s pos l → pos < length l → 0 < child → par child = pos →
  l !! child = Some c → (∀ i b, 0 < i → par i = pos → l !! i = Some b → le c b) →
  heap_hole s child (<[pos := c]> l).
Proof.
  intros Hsp Hh Hpos Hc0 Hpc Hc Hmin. pose proof (par_lt child Hc0) as Hlt. split.
  - intros i a b Hi Hs Hne1 Hne2 Hb Ha. pose proof (par_lt i Hi).
    apply lookup_insert_cases in Hb as [(-> & -> & _)|[Hne Hb]].
    + apply lookup_insert_cases in Ha as [(? & _)|[_ Ha]]; [lia|].
      eapply (hh_grand _ _ _ Hh child); [done|done|lia|done|done].
    + apply lookup_insert_cases in Ha as [(E & -> & _)|[Hne' Ha]]; [by eapply Hmin|].
      by eapply (hh_away _ _ _ Hh i).
  - intros i a b Hi Hpi _ Hb Ha. pose proof (par_lt i Hi). rewrite Hpc in Ha.
    apply lookup_insert_cases in Ha as [(_ & -> & _)|[? _]]; [|done].
    apply lookup_insert_cases in Hb as [(? & _)|[_ Hb]]; [lia|].
    eapply (hh_away _ _ _ Hh i); [done|lia|lia|lia|done|by rewrite Hpi].
Qed.

Lemma siftup_loop_spec fuel x s pos l :
  length l < pos + fuel → pos < length l → below s pos → heap_hole s pos l →
  ∃ l', siftup_loop fuel x s pos l = Ok l' ∧ heap_from s l' ∧ l' ≡ₚ <[pos := x]> l.
Proof.
  revert pos l. induction fuel as [|fuel IH]; intros pos l Hf Hpos Hb Hh; [lia|].
  cbn [siftup_loop]. pose proof (below_ge _ _ Hb) as Hge.
  assert (∀ i b, 0 < i → par i = pos → l !! i = Some b →
    (i = 2 * pos + 1 ∨ i = 2 * pos + 1 + 1)) as Hch.
  { intros i b Hi Hpi _. apply par_child in Hpi; lia. }
  assert (par (2 * pos + 1) = pos ∧ par (2 * pos + 1 + 1) = pos) as [Hc1 Hc2]
    by (split; apply par_child; lia).
  assert (∀ child c, 0 < child → par child = pos → l !! child = Some c → pos < child →
    (∀ i b, 0 < i → par i = pos → l !! i = Some b → le c b) →
    ∃ l', siftup_loop fuel x s child (<[pos := c]> l) = Ok l' ∧ heap_from s l' ∧
      l' ≡ₚ <[pos := x]> l) as Hstep.
  { intros child c H0 Hpc Hc Hlt Hmin. pose proof (lookup_lt_Some _ _ _ Hc).
    destruct (IH child (<[pos := c]> l)) as (l' & E & Hl' & Hp).
    - rewrite length_insert. lia.
    - by rewrite length_insert.
    - apply below_child; [done|]. by rewrite Hpc.
    - by eapply heap_hole_down.
    - exists l'. split; [done|]. split; [done|]. rewrite Hp. apply move_perm; [lia|done..]. }
  destruct (l !! (2 * pos + 1)) as [c|] eqn:E1.
  - destruct (l !! (2 * pos + 1 + 1)) as [c2|] eqn:E2.
    + destruct (lt c c2) eqn:Ec.
      * apply Hstep; [lia|done|done|lia|]. intros i b Hi Hpi Hib.
        destruct (Hch i b Hi Hpi Hib) as [-> | ->]; simplify_eq; [apply le_refl|by apply lt_le].
      * apply Hstep; [lia|done|done|lia|]. intros i b Hi Hpi Hib.
        destruct (Hch i b Hi Hpi Hib) as [-> | ->]; simplify_eq; [done|apply le_refl].
    + apply Hstep; [lia|done|done|lia|]. intros i b Hi Hpi Hib.
      destruct (Hch i b Hi Hpi Hib) as [-> | ->]; simplify_eq. apply le_refl.
  - assert (∀ i b, 0 < i → par i = pos → <[pos := x]> l !! i = Some b → False) as Hleaf.
    { intros i b Hi Hpi Hib. pose proof (par_lt i Hi).
      rewrite list_lookup_insert_ne in Hib by lia.
      pose proof (lookup_lt_Some _ _ _ Hib) as Hl. apply lookup_ge_None in E1.
      destruct (Hch i b Hi Hpi Hib) as [-> | ->]; lia. }
    destruct (siftdown_spec s pos (<[pos := x]> l) x) as (l' & E & Hl' & Hp).
    + by apply list_lookup_insert_eq.
    + done.
    + split; [|intros i a b Hi Hpi _ Hib; by destruct (Hleaf i b)].
      intros i a b Hi Hs Hne1 Hne2. rewrite !list_lookup_insert_ne by done.
      by eapply (hh_away _ _ _ Hh i).
    + intros i b Hi Hpi Hib. by destruct (Hleaf i b).
    + by exists l'.
Qed.

Lemma siftup_spec pos l :
  pos < length l → heap_from (S pos) l →
  ∃ l', siftup pos l = Ok l' ∧ heap_from pos l' ∧ l' ≡ₚ l.
Proof.
  intros Hpos Hl. destruct (lookup_lt_is_Some_2 l pos Hpos) as [x Hx].
  unfold siftup. rewrite Hx.
  destruct (siftup_loop_spec (S (length l)) x pos pos l) as (l' & E & Hl' & Hp).
  - lia.
  - done.
  - constructor.
  - split; [|lia]. intros i a b Hi Hs _ Hne. apply Hl; [done|lia].
  - exists l'. split; [done|]. split; [done|]. by rewrite Hp, list_insert_id.
Qed.

Lemma below_0 p : below 0 p.
Proof.
  induction p as [p IH] using lt_wf_ind. destruct p as [|p]; [constructor|].
  apply below_child; [lia|]. apply IH, par_lt. lia.
Qed.

Lemma heappush_spec l x :
  heap_ok l → ∃ l', heappush l x = Ok l' ∧ heap_ok l' ∧ l' ≡ₚ x :: l.
Proof.
  intros Hl. unfold heappush.
  destruct (siftdown_spec 0 (length l) (l ++ [x]) x) as (l' & E & Hl' & Hp).
  - apply list_lookup_middle. done.
  - apply below_0.
  - split.
    + intros i a b Hi _ Hne Hne' Hb Ha. apply lookup_app_Some in Hb as [Hb|[Hge Hb]].
      * pose proof (lookup_lt_Some _ _ _ Hb). pose proof (par_lt i Hi).
        rewrite lookup_app_l in Ha by lia. eapply (Hl i); [done|lia|done|done].
      * apply list_lookup_singleton_Some in Hb as [? _]. lia.
    + intros i a b Hi Hpi _ Hb. pose proof (par_lt i Hi).
      apply lookup_lt_Some in Hb. rewrite length_app in Hb. simpl in Hb. lia.
  - intros i b Hi Hpi Hb. pose proof (par_lt i Hi).
    apply lookup_lt_Some in Hb. rewrite length_app in Hb. simpl in Hb. lia.
  - exists l'. split; [done|]. split; [done|]. rewrite Hp. symmetry. apply Permutation_cons_append.
Qed.

(** The first item of a heap is a least one. *)
Lemma heap_min l i m b : heap_ok l → l !! 0 = Some m → l !! i = Some b → le m b.
Proof.
  intros Hl Hm. revert b. induction i as [i IH] using lt_wf_ind. intros b Hb.
  destruct (decide (i = 0)) as [->|H0]; [simplify_eq; apply le_refl|].
  pose proof (par_lt i ltac:(lia)) as Hlt. pose proof (lookup_lt_Some _ _ _ Hb).
  destruct (lookup_lt_is_Some_2 l (par i)) as [a Ha]; [lia|].
  apply (le_trans m a); [by apply (IH (par i))|]. eapply (Hl i); [lia|lia|done|done].
Qed.

Lemma heappop_spec l :
  heap_ok l → l ≠ [] →
  ∃ m t l', l = m :: t ∧ heappop l = Ok (m, l') ∧ heap_ok l' ∧ m :: l' ≡ₚ l ∧
    ∀ y, y ∈ l → le m y.
Proof.
  intros Hl Hne. destruct l as [|m t]; [done|]. exists m, t.
  assert (∀ y, y ∈ m :: t → le m y) as Hmin.
  { intros y [i Hi]%list_elem_of_lookup. by eapply heap_min. }
  destruct t as [|e t _] using rev_ind.
  { exists []. split; [done|]. split; [done|]. split; [|done]. intros i a b _ _ ?. done. }
  unfold heappop. rewrite app_comm_cons, last_snoc, length_app. simpl length.
  replace (S (length t) + 1 - 1) with (length (m :: t)) by (simpl; lia).
  rewrite take_app_length.
  destruct (siftup_spec 0 (e :: t)) as (l' & E & Hl' & Hp).
  - simpl. lia.
  - intros i a b Hi Hs Hb Ha. destruct (decide (par i = 0)) as [E|E]; [lia|].
    pose proof (par_lt i Hi). destruct i as [|i]; [lia|].
    assert ((m :: t ++ [e]) !! S i = Some b) as Hb'
      by (simpl; simpl in Hb; by apply lookup_app_l_Some).
    assert ((m :: t ++ [e]) !! par (S i) = Some a) as Ha'.
    { destruct (par (S i)) as [|p]; [lia|]. simpl in *. by apply lookup_app_l_Some. }
    eapply (Hl (S i)); [lia|lia|done|done].
  - exists l'. split_and!; [done| |done| |done].
    + change (<[0:=e]> (m :: t)) with (e :: t). by rewrite E.
    + rewrite Hp. simpl. by rewrite Permutation_app_comm.
Qed.

Lemma heapify_loop_spec n l :
  n ≤ length l → heap_from n l →
  ∃ l', heapify_loop n l = Ok l' ∧ heap_ok l' ∧ l' ≡ₚ l.
Proof.
  revert l. induction n as [|n IH]; intros l Hn Hl; [by exists l|]. cbn [heapify_loop].
  destruct (siftup_spec n l) as (l1 & E & Hl1 & Hp1); [lia|done|]. rewrite E. simpl.
  destruct (IH l1) as (l' & E' & Hl' & Hp'); [rewrite Hp1; lia|done|].
  exists l'. split; [done|]. split; [done|]. by rewrite Hp'.
Qed.

Lemma heapify_spec l : ∃ l', heapify l = Ok l' ∧ heap_ok l' ∧ l' ≡ₚ l.
Proof.
  apply heapify_loop_spec; [apply Nat.Div0.div_le_upper_bound; lia|].
  intros i a b Hi Hs Hb _. exfalso. apply lookup_lt_Some in Hb.
  destruct (par_child i (par i) Hi) as [H _]. specialize (H eq_refl).
  pose proof (Nat.div_mod_eq (length l) 2). pose proof (Nat.mod_upper_bound (length l) 2). lia.
Qed.

(** Draining a heap yields its items in order. *)
Lemma heap_drain_spec fuel l :
  heap_ok l → length l ≤ fuel →
  ∃ r, heap_drain fuel l = Ok r ∧ r ≡ₚ l ∧ StronglySorted le r.
Proof.
  revert l. induction fuel as [|fuel IH]; intros l Hl Hf.
  { destruct l; [|simpl in Hf; lia]. exists []. split; [done|]. split; [done|constructor]. }
  destruct l as [|m t]; [exists []; split; [done|]; split; [done|constructor]|].
  destruct (heappop_spec (m :: t) Hl) as (m' & t' & l' & [= <- <-] & E & Hl' & Hp & Hmin); [done|].
  cbn [heap_drain]. rewrite E. simpl.
  destruct (IH l') as (r & Er & Hpr & Hs); [done| |].
  { apply Permutation_length in Hp. simpl in *. lia. }
  rewrite Er. simpl. exists (m :: r). split; [done|]. split; [by rewrite Hpr|].
  constructor; [done|]. apply Forall_forall. intros y Hy. apply Hmin. rewrite <-Hp, <-Hpr. by right.
Qed.
End heapq.
