(* ===== verification/RequestQueue.v ===== *)
(** * Request queues

    [vllm/v1/core/sched/request_queue.py]: the abstract class [RequestQueue] as a
    type class of operations, its two implementations ([FCFSRequestQueue] on a
    deque and [PriorityRequestQueue] on a [heapq] heap ordered by
    [Request.__lt__]), and the laws the scheduler relies on, which both
    implementations satisfy.

    A request is equal to another one exactly when both are the same object
    ([Request] defines no [__eq__]); [obj_id] is the identity. *)

From stdpp Require Import base list sorting strings sets.
From Stdlib Require Import ZArith Lia.
From S2P Require Import Prelude FreeQueue Request Heapq.

Inductive SchedulingPolicy := FCFS | PRIORITY.

(** ** The interface

    A queue holds references to request objects; [queue_touch] is what becomes of
    it when the objects change under it. *)

Class RequestQueue (Q : Type) := {
  empty_queue : Q;
  add_request : Request → Q → res Q;
  pop_request : Q → res (Request * Q);
  peek_request : Q → res Request;
  prepend_request : Request → Q → res Q;
  prepend_requests : list Request → Q → res Q;
  remove_request : Request → Q → res Q;
  remove_requests : list Request → Q → res Q;
  queue_len : Q → nat;
  queue_iter : Q → res (list Request);
  queue_touch : (Request → Request) → Q → Q
}.

Definition queue_bool {Q} `{RequestQueue Q} (q : Q) : bool := bool_decide (0 < queue_len q).

Definition same (a b : Request) : bool := bool_decide (obj_id a = obj_id b).

(** [l.remove(x)]: the first item equal to [x]. *)
Fixpoint list_remove (x : Request) (l : list Request) : option (list Request) :=
  match l with
  | [] => None
  | y :: r => if same y x then Some r else (y ::.) <$> list_remove x r
  end.

Definition drop_all (xs l : list Request) : list Request :=
  filter (λ y, obj_id y ∉ obj_id <$> xs) l.

(** ** First come, first served *)

Definition FCFSRequestQueue := list Request.

#[export] Instance fcfs_queue : RequestQueue FCFSRequestQueue := {
  empty_queue := [];
  add_request x q := Ok (q ++ [x]);
  pop_request q := match q with [] => Err IndexError | x :: r => Ok (x, r) end;
  peek_request q := match q with [] => Err IndexError | x :: _ => Ok x end;
  prepend_request x q := Ok (x :: q);
  prepend_requests xs q := Ok (foldl (λ q x, x :: q) q xs);
  remove_request x q := match list_remove x q with Some q' => Ok q' | None => Err ValueError end;
  remove_requests xs q := Ok (drop_all xs q);
  queue_len q := length q;
  queue_iter q := Ok q;
  queue_touch f q := f <$> q
}.

(** ** Priority *)

Record PriorityRequestQueue := mkPQ { _heap : list Request }.

Definition pq_add (x : Request) (q : PriorityRequestQueue) : res PriorityRequestQueue :=
  h ← heappush request_lt (_heap q) x; Ok (mkPQ h).
Definition pq_pop (q : PriorityRequestQueue) : res (Request * PriorityRequestQueue) :=
  '(x, h) ← heappop request_lt (_heap q); Ok (x, mkPQ h).
Definition pq_peek (q : PriorityRequestQueue) : res Request :=
  match _heap q with [] => Err IndexError | x :: _ => Ok x end.
Fixpoint pq_add_all (xs : list Request) (q : PriorityRequestQueue) : res PriorityRequestQueue :=
  match xs with [] => Ok q | x :: r => q' ← pq_add x q; pq_add_all r q' end.
Definition pq_remove (x : Request) (q : PriorityRequestQueue) : res PriorityRequestQueue :=
  match list_remove x (_heap q) with
  | None => Err ValueError
  | Some l => h ← heapify request_lt l; Ok (mkPQ h)
  end.
Definition pq_remove_all (xs : list Request) (q : PriorityRequestQueue)
    : res PriorityRequestQueue :=
  h ← heapify request_lt (drop_all xs (_heap q)); Ok (mkPQ h).

#[export] Instance priority_queue : RequestQueue PriorityRequestQueue := {
  empty_queue := mkPQ [];
  add_request := pq_add;
  pop_request := pq_pop;
  peek_request := pq_peek;
  prepend_request := pq_add;
  prepend_requests := pq_add_all;
  remove_request := pq_remove;
  remove_requests := pq_remove_all;
  queue_len q := length (_heap q);
  queue_iter q := heap_drain request_lt (length (_heap q)) (_heap q);
  queue_touch f q := mkPQ (f <$> _heap q)
}.

(** [create_request_queue]: one of the two queues. *)
Definition create_request_queue (p : SchedulingPolicy) : FCFSRequestQueue + PriorityRequestQueue :=
  match p with PRIORITY => inr empty_queue | FCFS => inl empty_queue end.

(** ** The laws *)

(** [queue_rep q l]: [q] holds the requests [l], in the order in which iteration
    yields and popping removes them. *)
Class RequestQueueLaws (Q : Type) `{RequestQueue Q} (queue_rep : Q → list Request → Prop) := {
  law_empty : queue_rep empty_queue [];
  law_iter q l : queue_rep q l → queue_iter q = Ok l;
  law_len q l : queue_rep q l → queue_len q = length l;
  law_peek q l : queue_rep q l →
    peek_request q = match l with [] => Err IndexError | x :: _ => Ok x end;
  law_pop q l : queue_rep q l →
    match l with
    | [] => pop_request q = Err IndexError
    | x :: r => ∃ q', pop_request q = Ok (x, q') ∧ queue_rep q' r
    end;
  law_add q l x : queue_rep q l →
    ∃ q' l', add_request x q = Ok q' ∧ queue_rep q' l' ∧ l' ≡ₚ x :: l;
  law_prepend q l x : queue_rep q l →
    ∃ q' l', prepend_request x q = Ok q' ∧ queue_rep q' l' ∧ l' ≡ₚ x :: l;
  law_prepend_all q l xs : queue_rep q l →
    ∃ q' l', prepend_requests xs q = Ok q' ∧ queue_rep q' l' ∧ l' ≡ₚ xs ++ l;
  law_remove q l x : queue_rep q l →
    match remove_request x q with
    | Ok q' => ∃ l' y, queue_rep q' l' ∧ l ≡ₚ y :: l' ∧ obj_id y = obj_id x
    | Err e => e = ValueError ∧ ∀ y, y ∈ l → obj_id y ≠ obj_id x
    end;
  law_remove_all q l xs : queue_rep q l →
    ∃ q' l', remove_requests xs q = Ok q' ∧ queue_rep q' l' ∧
      l' ≡ₚ drop_all xs l
}.

(** ** [Request.__lt__] is a total order *)

Lemma string_compare_refl s : String.compare s s = Eq.
Proof. induction s as [|c s IH]; [done|]. simpl. unfold Ascii.compare. by rewrite N.compare_refl. Qed.

Lemma string_lt_trans s1 s2 s3 :
  String.ltb s1 s2 = true → String.ltb s2 s3 = true → String.ltb s1 s3 = true.
Proof.
  unfold String.ltb. revert s2 s3.
  induction s1 as [|c1 s1 IH]; intros [|c2 s2] [|c3 s3]; simpl; try done.
  unfold Ascii.compare.
  destruct (N.compare_spec (Ascii.N_of_ascii c1) (Ascii.N_of_ascii c2)) as [E1|E1|E1];
    destruct (N.compare_spec (Ascii.N_of_ascii c2) (Ascii.N_of_ascii c3)) as [E2|E2|E2]; try done.
  - rewrite E1, E2, N.compare_refl. apply IH.
  - intros _ _. rewrite E1. by rewrite (proj2 (N.compare_lt_iff _ _) E2).
  - intros _ _. rewrite <-E2. by rewrite (proj2 (N.compare_lt_iff _ _) E1).
  - intros _ _. by rewrite (proj2 (N.compare_lt_iff _ _) (N.lt_trans _ _ _ E1 E2)).
Qed.

Lemma string_ltb_cases s1 s2 :
  (String.ltb s1 s2 = true ∧ String.ltb s2 s1 = false ∧ s1 ≠ s2) ∨
  (s1 = s2 ∧ String.ltb s1 s2 = false) ∨
  (String.ltb s2 s1 = true ∧ String.ltb s1 s2 = false ∧ s1 ≠ s2).
Proof.
  unfold String.ltb. rewrite (String.compare_antisym s2 s1).
  destruct (String.compare s1 s2) eqn:E; simpl.
  - right. left. split; [by apply String.compare_eq_iff|done].
  - left. split_and!; [done..|]. intros ->. by rewrite string_compare_refl in E.
  - right. right. split_and!; [done..|]. intros ->. by rewrite string_compare_refl in E.
Qed.

(** [a] does not come after [b]. *)
Abbreviation request_le := (le request_lt).

Lemma request_lt_spec a b :
  request_lt a b = true ↔
  (priority a < priority b ∨ priority a = priority b ∧
   (arrival_time a < arrival_time b ∨ arrival_time a = arrival_time b ∧
    (String.ltb (request_id a) (request_id b) = true ∨
     request_id a = request_id b ∧ obj_id a < obj_id b)))%Z.
Proof.
  unfold request_lt. repeat case_bool_decide; rewrite ?Z.ltb_lt;
    destruct (string_ltb_cases (request_id a) (request_id b)) as [(E1 & E2 & E3)|[(E1 & E2)|(E1 & E2 & E3)]];
    try congruence; intuition (try lia; try congruence).
Qed.

Lemma request_le_spec a b :
  request_le a b ↔
  (priority a < priority b ∨ priority a = priority b ∧
   (arrival_time a < arrival_time b ∨ arrival_time a = arrival_time b ∧
    (String.ltb (request_id a) (request_id b) = true ∨
     request_id a = request_id b ∧ obj_id a ≤ obj_id b)))%Z.
Proof.
  unfold le. rewrite <-not_true_iff_false, request_lt_spec.
  assert (∀ (p q : Z) (P : Prop), ¬ (q < p ∨ q = p ∧ P) ↔ p < q ∨ p = q ∧ ¬ P)%Z as Hlex.
  { intros p q P. destruct (Z.lt_trichotomy p q) as [|[->|]]; intuition lia. }
  rewrite Hlex, Hlex.
  destruct (string_ltb_cases (request_id a) (request_id b)) as [(E1 & E2 & E3)|[(E1 & E2)|(E1 & E2 & E3)]].
  - rewrite E1, E2. intuition congruence.
  - rewrite E1 in *. rewrite E2. assert (¬ (obj_id b < obj_id a)%Z ↔ (obj_id a ≤ obj_id b)%Z) by lia.
    intuition congruence.
  - rewrite E1, E2. intuition congruence.
Qed.

Lemma request_le_trans a b c : request_le a b → request_le b c → request_le a c.
Proof.
  rewrite !request_le_spec. pose proof (string_lt_trans (request_id a) (request_id b) (request_id c)).
  intros [?|[? [?|[? [?|[? ?]]]]]] [?|[? [?|[? [?|[? ?]]]]]]; intuition (try lia; try congruence).
Qed.

Lemma request_lt_le a b : request_lt a b = true → request_le a b.
Proof. rewrite request_lt_spec, request_le_spec. intuition lia. Qed.

Lemma request_le_antisym a b : request_le a b → request_le b a → obj_id a = obj_id b.
Proof.
  rewrite !request_le_spec.
  destruct (string_ltb_cases (request_id a) (request_id b)) as [(E1 & E2 & E3)|[(E1 & E2)|(E1 & E2 & E3)]];
    intuition (lia || congruence).
Qed.

(** ** Both queues satisfy the laws *)

Lemma list_remove_spec x l :
  match list_remove x l with
  | Some l' => ∃ y, l ≡ₚ y :: l' ∧ obj_id y = obj_id x
  | None => ∀ y, y ∈ l → obj_id y ≠ obj_id x
  end.
Proof.
  induction l as [|z l IH]; simpl; [by intros y ?%elem_of_nil|].
  unfold same. case_bool_decide as E; [by exists z|].
  destruct (list_remove x l) as [l'|]; simpl.
  - destruct IH as (y & Hp & Hy). exists y. split; [|done]. rewrite Hp. apply perm_swap.
  - by intros y [->|Hy]%elem_of_cons; [|apply IH].
Qed.

Lemma foldl_prepend (xs q : list Request) : foldl (λ q x, x :: q) q xs = rev xs ++ q.
Proof. revert q. induction xs as [|x xs IH]; intros q; [done|]. simpl. by rewrite IH, <-app_assoc. Qed.

#[export] Instance fcfs_laws : RequestQueueLaws FCFSRequestQueue (=).
Proof.
  split; simpl.
  - done.
  - by intros q l ->.
  - by intros q l ->.
  - by intros q l ->.
  - intros q l ->. destruct l as [|x r]; [done|]. by exists r.
  - intros q l x ->. eexists _, _. split; [done|]. split; [done|]. symmetry. apply Permutation_cons_append.
  - intros q l x ->. by eexists _, _.
  - intros q l xs ->. eexists _, _. split; [done|]. split; [done|].
    rewrite foldl_prepend. by rewrite <-Permutation_rev.
  - intros q l x ->. pose proof (list_remove_spec x l) as H.
    destruct (list_remove x l) as [l'|]; [|done]. destruct H as (y & ? & ?). by exists l', y.
  - intros q l xs ->. by eexists _, _.
Qed.

Abbreviation rheap_ok := (heap_from request_lt 0).

(** The heap order holds and [l] is what draining the heap yields. *)
Definition pq_rep (q : PriorityRequestQueue) (l : list Request) : Prop :=
  rheap_ok (_heap q) ∧ queue_iter q = Ok l.

Lemma pq_rep_intro h : rheap_ok h → ∃ l, pq_rep (mkPQ h) l ∧ l ≡ₚ h ∧ StronglySorted request_le l.
Proof.
  intros Hh. destruct (heap_drain_spec request_lt request_le_trans request_lt_le (length h) h Hh)
    as (r & E & Hp & Hs); [lia|]. by exists r.
Qed.

Lemma pq_rep_sorted q l : pq_rep q l → l ≡ₚ _heap q ∧ StronglySorted request_le l.
Proof.
  destruct q as [h]. intros [Hh E]. destruct (pq_rep_intro h Hh) as (r & [_ E'] & Hp & Hs).
  rewrite E in E'. apply Ok_inj in E' as ->. done.
Qed.

Lemma pq_add_spec q l x :
  pq_rep q l → ∃ q' l', pq_add x q = Ok q' ∧ pq_rep q' l' ∧ l' ≡ₚ x :: l.
Proof.
  intros Hq. pose proof (pq_rep_sorted q l Hq) as [Hp _]. destruct Hq as [Hh _].
  destruct (heappush_spec request_lt request_le_trans request_lt_le (_heap q) x Hh)
    as (h & E & Hh' & Hp').
  destruct (pq_rep_intro h Hh') as (l' & Hq' & Hl' & _).
  exists (mkPQ h), l'. unfold pq_add. rewrite E. split; [done|]. split; [done|].
  by rewrite Hl', Hp', Hp.
Qed.

Lemma heapify_rep h : ∃ h' l', heapify request_lt h = Ok h' ∧ pq_rep (mkPQ h') l' ∧ l' ≡ₚ h.
Proof.
  destruct (heapify_spec request_lt request_le_trans request_lt_le h) as (h' & E & Hh' & Hp).
  destruct (pq_rep_intro h' Hh') as (l' & Hq' & Hl' & _).
  exists h', l'. split; [done|]. split; [done|]. by rewrite Hl'.
Qed.

Lemma pq_pop_spec q l :
  pq_rep q l →
  match l with
  | [] => pq_pop q = Err IndexError
  | x :: r => pq_peek q = Ok x ∧ ∃ q', pq_pop q = Ok (x, q') ∧ pq_rep q' r
  end.
Proof.
  intros Hq. pose proof (pq_rep_sorted q l Hq) as [Hp _]. destruct Hq as [Hh Hi].
  destruct q as [h]. unfold pq_pop, pq_peek. simpl in *.
  destruct h as [|m t].
  { apply Permutation_nil_r in Hp as ->. done. }
  destruct (heappop_spec request_lt request_le_trans request_lt_le (m :: t) Hh)
    as (m' & t' & h' & [= <- <-] & E & Hh' & Hp' & _); [done|].
  simpl in Hi. rewrite E in Hi |- *. simpl in *.
  assert (length t = length h') as El by (apply Permutation_length in Hp'; simpl in Hp'; lia).
  rewrite El in Hi.
  destruct (heap_drain request_lt (length h') h') as [r|] eqn:Er; [|done]. simpl in Hi.
  apply Ok_inj in Hi as <-. split; [done|]. by exists (mkPQ h').
Qed.

#[export] Instance pq_laws : RequestQueueLaws PriorityRequestQueue pq_rep.
Proof.
  split; simpl.
  - split; [|done]. by intros i a b.
  - by intros q l [_ ?].
  - intros q l Hq%pq_rep_sorted. by rewrite (Permutation_length (proj1 Hq)).
  - intros q l Hq. pose proof (pq_rep_sorted q l Hq) as [Hp _]. apply pq_pop_spec in Hq.
    destruct l as [|x r]; [|apply Hq]. apply Permutation_nil in Hp. unfold pq_peek. by rewrite Hp.
  - intros q l Hq%pq_pop_spec. destruct l; [done|apply Hq].
  - intros. by apply pq_add_spec.
  - intros. by apply pq_add_spec.
  - intros q l xs. revert q l. induction xs as [|x xs IH]; intros q l Hq; [by exists q, l|].
    destruct (pq_add_spec q l x Hq) as (q1 & l1 & E & Hq1 & Hp1). simpl. rewrite E. simpl.
    destruct (IH q1 l1 Hq1) as (q' & l' & E' & Hq' & Hp'). exists q', l'.
    split; [done|]. split; [done|]. by rewrite Hp', Hp1, <-Permutation_middle.
  - intros q l x Hq%pq_rep_sorted. destruct Hq as [Hp _]. unfold pq_remove.
    pose proof (list_remove_spec x (_heap q)) as H.
    destruct (list_remove x (_heap q)) as [h|].
    + destruct H as (y & Hy & Ey). destruct (heapify_rep h) as (h' & l' & -> & Hq' & Hp').
      exists l', y. split; [done|]. split; [|done]. by rewrite Hp, Hy, Hp'.
    + split; [done|]. intros y Hy. apply H. by rewrite <-Hp.
  - intros q l xs Hq%pq_rep_sorted. destruct Hq as [Hp _]. unfold pq_remove_all.
    destruct (heapify_rep (drop_all xs (_heap q))) as (h' & l' & -> & Hq' & Hp').
    exists (mkPQ h'), l'. split; [done|]. split; [done|]. unfold drop_all in *. by rewrite Hp', Hp.
Qed.

(** ** The priority queue as a sorted list *)

Inductive queue_cmd :=
  | QAdd (x : Request)
  | QPrependAll (xs : list Request)
  | QPop
  | QPeek
  | QRemove (x : Request)
  | QRemoveAll (xs : list Request).

Definition cmd_requests (c : queue_cmd) : list Request :=
  match c with
  | QAdd x | QRemove x => [x]
  | QPrependAll xs | QRemoveAll xs => xs
  | QPop | QPeek => []
  end.

(** A command's result and the queue after it; a raise leaves the queue alone. *)
Definition run_queue_cmd {Q} `{RequestQueue Q} (c : queue_cmd) (q : Q) : res (option Request) * Q :=
  let upd (r : res Q) := match r with Ok q' => (Ok None, q') | Err e => (Err e, q) end in
  match c with
  | QAdd x => upd (add_request x q)
  | QPrependAll xs => upd (prepend_requests xs q)
  | QPop => match pop_request q with Ok (x, q') => (Ok (Some x), q') | Err e => (Err e, q) end
  | QPeek => (x ← peek_request q; Ok (Some x), q)
  | QRemove x => upd (remove_request x q)
  | QRemoveAll xs => upd (remove_requests xs q)
  end.

Fixpoint run_queue_cmds {Q} `{RequestQueue Q} (cs : list queue_cmd) (q : Q)
    : list (res (option Request)) * Q :=
  match cs with
  | [] => ([], q)
  | c :: cs => let '(r, q1) := run_queue_cmd c q in
               let '(rs, q2) := run_queue_cmds cs q1 in (r :: rs, q2)
  end.

(** The specification: a list kept sorted by insertion. *)
Fixpoint insert_sorted (x : Request) (l : list Request) : list Request :=
  match l with
  | [] => [x]
  | y :: r => if request_lt x y then x :: l else y :: insert_sorted x r
  end.

Definition spec_queue_cmd (c : queue_cmd) (l : list Request)
    : res (option Request) * list Request :=
  match c with
  | QAdd x => (Ok None, insert_sorted x l)
  | QPrependAll xs => (Ok None, foldl (λ l x, insert_sorted x l) l xs)
  | QPop => match l with [] => (Err IndexError, l) | x :: r => (Ok (Some x), r) end
  | QPeek => match l with [] => (Err IndexError, l) | x :: _ => (Ok (Some x), l) end
  | QRemove x => match list_remove x l with Some r => (Ok None, r) | None => (Err ValueError, l) end
  | QRemoveAll xs => (Ok None, drop_all xs l)
  end.

Fixpoint spec_queue_cmds (cs : list queue_cmd) (l : list Request)
    : list (res (option Request)) * list Request :=
  match cs with
  | [] => ([], l)
  | c :: cs => let '(r, l1) := spec_queue_cmd c l in
               let '(rs, l2) := spec_queue_cmds cs l1 in (r :: rs, l2)
  end.

Lemma insert_sorted_perm x l : insert_sorted x l ≡ₚ x :: l.
Proof.
  induction l as [|y l IH]; simpl; [done|]. destruct (request_lt x y); [done|].
  rewrite IH. apply perm_swap.
Qed.

Lemma insert_sorted_sorted x l :
  StronglySorted request_le l → StronglySorted request_le (insert_sorted x l).
Proof.
  induction 1 as [|y l Hs IH Hy]; simpl; [repeat constructor|].
  destruct (request_lt x y) eqn:E.
  - apply request_lt_le in E as Hxy. constructor; [by constructor|]. constructor; [done|].
    eapply Forall_impl; [exact Hy|]. intros z Hz. by eapply request_le_trans.
  - constructor; [done|]. rewrite Forall_forall. intros z Hz.
    rewrite insert_sorted_perm in Hz. apply elem_of_cons in Hz as [->|Hz]; [done|].
    rewrite Forall_forall in Hy. auto.
Qed.

Lemma list_remove_sorted x l r :
  StronglySorted request_le l → list_remove x l = Some r → StronglySorted request_le r.
Proof.
  intros Hs. revert r. induction Hs as [|y l Hs IH Hy]; intros r; simpl; [done|].
  destruct (same y x); [by intros [= <-]|].
  pose proof (list_remove_spec x l) as Hrm.
  destruct (list_remove x l) as [l'|]; simpl; [|done]. intros [= <-].
  destruct Hrm as (z & Hp & _). constructor; [by apply IH|].
  rewrite Forall_forall in *. intros w Hw. apply Hy. rewrite Hp. by right.
Qed.

Lemma filter_sorted (P : Request → Prop) `{∀ x, Decision (P x)} l :
  StronglySorted request_le l → StronglySorted request_le (filter P l).
Proof.
  induction 1 as [|y l Hs IH Hy]; [constructor|].
  rewrite filter_cons. destruct (decide (P y)); [|done]. constructor; [done|].
  rewrite Forall_forall in *. intros w [_ Hw]%list_elem_of_filter. auto.
Qed.

Section sorted_sim.
(** The request objects in play: one object per identity. *)
Context (U : list Request).
Context (HU : ∀ a b, a ∈ U → b ∈ U → obj_id a = obj_id b → a = b).

Lemma sorted_unique l1 l2 :
  l1 ⊆ U → StronglySorted request_le l1 → StronglySorted request_le l2 → l1 ≡ₚ l2 → l1 = l2.
Proof.
  intros Hin Hs1 Hs2 Hp. apply (StronglySorted_unique_strong request_le); [|done..].
  intros a b Ha Hb Hab Hba. apply HU; [auto| |by apply request_le_antisym].
  apply Hin. by rewrite Hp.
Qed.

Lemma queue_cmd_sim c q l :
  pq_rep q l → l ⊆ U → cmd_requests c ⊆ U →
  (run_queue_cmd c q).1 = (spec_queue_cmd c l).1 ∧
  pq_rep (run_queue_cmd c q).2 (spec_queue_cmd c l).2 ∧ (spec_queue_cmd c l).2 ⊆ U.
Proof.
  intros Hq Hin Hc. pose proof (pq_rep_sorted q l Hq) as [_ Hs].
  assert (∀ q' l1 l2, pq_rep q' l1 → l2 ⊆ U → StronglySorted request_le l2 → l1 ≡ₚ l2 →
    pq_rep q' l2 ∧ l2 ⊆ U) as Hfin.
  { intros q' l1 l2 Hq' Hin2 Hs2 Hp. pose proof (pq_rep_sorted q' l1 Hq') as [_ Hs1].
    assert (l2 = l1) as -> by (by apply sorted_unique). done. }
  destruct c as [x|xs| | |x|xs]; simpl run_queue_cmd; simpl spec_queue_cmd; simpl cmd_requests in Hc.
  - destruct (law_add q l x Hq) as (q' & l' & E & Hq' & Hp). simpl in E. rewrite E. simpl.
    split; [done|]. apply (Hfin q' l'); [done| |by apply insert_sorted_sorted|by rewrite insert_sorted_perm].
    intros y. rewrite insert_sorted_perm. set_solver.
  - destruct (law_prepend_all q l xs Hq) as (q' & l' & E & Hq' & Hp). simpl in E. rewrite E. simpl.
    assert (foldl (λ l x, insert_sorted x l) l xs ≡ₚ xs ++ l ∧
      StronglySorted request_le (foldl (λ l x, insert_sorted x l) l xs)) as [Hp2 Hs2].
    { clear -Hs. revert l Hs. induction xs as [|x xs IH]; intros l Hs; [done|]. simpl.
      destruct (IH (insert_sorted x l)) as [Hp Hs']; [by apply insert_sorted_sorted|].
      split; [|done]. by rewrite Hp, insert_sorted_perm, <-Permutation_middle. }
    split; [done|]. apply (Hfin q' l'); [done| |done|by rewrite Hp2].
    intros y. rewrite Hp2. set_solver.
  - pose proof (law_pop q l Hq) as H. destruct l as [|x r]; simpl in H.
    + by rewrite H.
    + destruct H as (q' & E & Hq'). rewrite E. simpl. split_and!; [done|done|set_solver].
  - pose proof (law_peek q l Hq) as H. simpl in H. rewrite H. by destruct l.
  - pose proof (law_remove q l x Hq) as H. simpl in H.
    pose proof (list_remove_spec x l) as Hrm.
    destruct (pq_remove x q) as [q'|e]; destruct (list_remove x l) as [r|] eqn:Er.
    + destruct H as (l' & y & Hq' & Hp & Hy). destruct Hrm as (y' & Hp' & Hy'). simpl.
      assert (y ∈ l ∧ y' ∈ l) as [Hyl Hyl'] by (split; [rewrite Hp; left|rewrite Hp'; left]).
      assert (y = y') as <- by (apply HU; [auto|auto|congruence]).
      split; [done|]. apply (Hfin q' l'); [done| |by eapply list_remove_sorted|].
      * intros z Hz. apply Hin. rewrite Hp'. by right.
      * apply (Permutation_cons_inv (a := y)). by rewrite <-Hp, Hp'.
    + destruct H as (l' & y & _ & Hp & Hy). exfalso. apply (Hrm y); [|done]. rewrite Hp. left.
    + destruct Hrm as (y & Hp & Hy). exfalso. apply (proj2 H y); [|done]. rewrite Hp. left.
    + by destruct H as [-> _].
  - destruct (law_remove_all q l xs Hq) as (q' & l' & E & Hq' & Hp). simpl in E. rewrite E. simpl.
    split; [done|]. apply (Hfin q' l'); [done| |by apply filter_sorted|done].
    intros y [_ Hy]%list_elem_of_filter. auto.
Qed.
End sorted_sim.

(** C31: the heap-based priority queue behaves as a list of requests kept sorted
    by (priority, arrival time, request id, identity).  Any sequence of adds,
    prepends, pops, peeks and removals gives the same results and the same
    [IndexError]s and [ValueError]s on both, and iteration yields the sorted
    list. *)
Theorem priority_queue_refines_sorted_list (U : list Request) (cs : list queue_cmd) :
  (∀ a b, a ∈ U → b ∈ U → obj_id a = obj_id b → a = b) →
  Forall (λ c, cmd_requests c ⊆ U) cs →
  let '(rs, q) := run_queue_cmds cs (empty_queue : PriorityRequestQueue) in
  let '(rs_spec, l) := spec_queue_cmds cs [] in
  rs = rs_spec ∧ queue_iter q = Ok l ∧ queue_len q = length l ∧ StronglySorted request_le l.
Proof.
  intros HU Hcs.
  assert (∀ q l, pq_rep q l → l ⊆ U →
    (run_queue_cmds cs q).1 = (spec_queue_cmds cs l).1 ∧
    pq_rep (run_queue_cmds cs q).2 (spec_queue_cmds cs l).2) as Hsim.
  { induction Hcs as [|c cs Hc _ IH]; intros q l Hq Hin; [done|]. simpl.
    destruct (queue_cmd_sim U HU c q l Hq Hin Hc) as (E1 & Hq1 & Hin1).
    destruct (run_queue_cmd c q) as [r q1], (spec_queue_cmd c l) as [r' l1]. simpl in *.
    destruct (IH q1 l1 Hq1 Hin1) as [E2 Hq2].
    destruct (run_queue_cmds cs q1), (spec_queue_cmds cs l1). simpl in *. by subst. }
  destruct (Hsim empty_queue [] law_empty) as [E Hq]; [by intros ? ?%elem_of_nil|].
  destruct (run_queue_cmds cs empty_queue) as [rs q], (spec_queue_cmds cs []) as [rs' l]. simpl in *.
  split_and!; [done|apply Hq|exact (law_len q l Hq)|by apply (pq_rep_sorted q)].
Qed.

(** Setting requests aside keeps their order.  Popping the first [k]
    requests of a queue one by one, prepending each to a fresh queue, and
    prepending that queue back restores the original queue. *)
Theorem fcfs_skip_and_restore (q : FCFSRequestQueue) k :
  k ≤ length q →
  let step '(skipped, q) := x_q ← pop_request q; s ← prepend_request x_q.1 skipped; Ok (s, x_q.2) in
  ∃ skipped rest,
    Nat.iter k (λ st, s ← st; step s) (Ok ((empty_queue, q) : FCFSRequestQueue * FCFSRequestQueue)) =
      Ok (skipped, rest) ∧
    queue_len rest = queue_len q - k ∧
    (l ← queue_iter skipped; prepend_requests l rest) = Ok q.
Proof.
  intros Hk. cbv zeta.
  assert (Nat.iter k (λ st, s ← st; (λ '(skipped, q),
      x_q ← pop_request q; s ← prepend_request x_q.1 skipped; Ok (s, x_q.2)) s)
      (Ok ((empty_queue, q) : FCFSRequestQueue * FCFSRequestQueue)) =
    Ok (rev (take k q) : FCFSRequestQueue, drop k q : FCFSRequestQueue)) as E.
  { induction k as [|k IH]; [done|]. rewrite Nat.iter_succ, IH by lia. simpl.
    destruct (lookup_lt_is_Some_2 q k) as [x Hx]; [lia|].
    rewrite (drop_S q x k Hx), (take_S_r q k x Hx), rev_app_distr. done. }
  eexists _, _. split; [exact E|]. simpl. split; [by rewrite length_drop|].
  by rewrite foldl_prepend, rev_involutive, take_drop.
Qed.

Definition prio_request (id : string) (oid prio at_ : Z) : Request :=
  match Request_fields id oid 0 prio at_ (Some (mkSampling (Some 16%Z) 0 None None None None)) None
          None false (Some [1%Z]) None None [] false with
  | Ok r => r
  | Err _ => inhabitant
  end.

Lemma priority_queue_refines_sorted_list_witness :
  let a := prio_request "a" 1 5 10 in
  let b := prio_request "b" 2 0 20 in
  let c := prio_request "c" 3 0 15 in
  let cs := [QAdd a; QAdd b; QPeek; QAdd c; QPop; QRemove b; QRemove b; QPop; QPop] in
  let '(rs, q) := run_queue_cmds cs (empty_queue : PriorityRequestQueue) in
  let '(rs_spec, l) := spec_queue_cmds cs [] in
  rs = rs_spec ∧ queue_iter q = Ok l ∧ queue_len q = length l ∧ StronglySorted request_le l.
Proof.
  cbv zeta.
  apply (priority_queue_refines_sorted_list
    [prio_request "a" 1 5 10; prio_request "b" 2 0 20; prio_request "c" 3 0 15]).
  - intros x y Hx Hy E.
    repeat (apply elem_of_cons in Hx as [->|Hx]); try (by apply elem_of_nil in Hx);
    repeat (apply elem_of_cons in Hy as [->|Hy]); try (by apply elem_of_nil in Hy);
      reflexivity || discriminate E.
  - repeat (apply Forall_cons; split; [simpl; set_solver|]). by apply Forall_nil.
Defined.

Lemma fcfs_skip_and_restore_witness :
  let q := [prio_request "a" 1 5 10; prio_request "b" 2 0 20; prio_request "c" 3 0 15] in
  let step '(skipped, q) := x_q ← pop_request q; s ← prepend_request x_q.1 skipped; Ok (s, x_q.2) in
  ∃ skipped rest,
    Nat.iter 2 (λ st, s ← st; step s) (Ok ((empty_queue, q) : FCFSRequestQueue * FCFSRequestQueue)) =
      Ok (skipped, rest) ∧
    queue_len rest = queue_len (q : FCFSRequestQueue) - 2 ∧
    (l ← queue_iter skipped; prepend_requests l rest) = Ok q.
Proof.
  apply (fcfs_skip_and_restore
    [prio_request "a" 1 5 10; prio_request "b" 2 0 20; prio_request "c" 3 0 15] 2).
  simpl. lia.
Defined.
