(* ===== verification/KVCacheSpec.v ===== *)
(** * KV cache formats

    [vllm/v1/kv_cache_interface.py]: the format of one layer's KV cache (a
    dataclass per attention type), the page size in bytes, the memory a request
    of maximal length needs, the [merge] class methods, and the configuration
    records built from them. *)

From stdpp Require Import base list strings.
From Stdlib Require Import ZArith Lia.
From S2P Require Import Prelude.
Local Open Scope Z_scope.

(** ** The engine configuration

    The fields of [VllmConfig] the KV cache code reads. *)
Record VllmConfig := mkVllmConfig {
  max_model_len : Z;
  original_max_model_len : Z;
  decode_context_parallel_size : Z;
  prefill_context_parallel_size : Z;
  vc_max_num_batched_tokens : Z;
  vc_max_num_encoder_input_tokens : Z;
  mamba_cache_mode : string;
  num_gpu_blocks_override : option Z;
  disable_hybrid_kv_cache_manager : bool
}.

Definition set_max_model_len (n : Z) (c : VllmConfig) : VllmConfig :=
  mkVllmConfig n (original_max_model_len c) (decode_context_parallel_size c)
    (prefill_context_parallel_size c) (vc_max_num_batched_tokens c)
    (vc_max_num_encoder_input_tokens c) (mamba_cache_mode c) (num_gpu_blocks_override c)
    (disable_hybrid_kv_cache_manager c).

(** ** Layer formats *)

(** [torch.dtype], by name. *)
Definition dtype := string.

(** The fields of [AttentionSpec], with [block_size] of [KVCacheSpec]. *)
Record AttentionFields := mkAttn {
  a_block_size : Z;
  num_kv_heads : Z;
  head_size : Z;
  a_dtype : dtype;
  page_size_padded : option Z
}.

Inductive LayerSpec :=
  | FullAttentionSpec (a : AttentionFields) (head_size_v : Z)
      (sliding_window attention_chunk_size : option Z)
  | MLAAttentionSpec (a : AttentionFields) (head_size_v : Z)
      (sliding_window attention_chunk_size : option Z) (cache_dtype_str : option string)
  | SinkFullAttentionSpec (a : AttentionFields) (head_size_v : Z)
      (sliding_window attention_chunk_size : option Z) (sink_len : option Z)
  | ChunkedLocalAttentionSpec (a : AttentionFields) (attention_chunk_size : Z)
  | SlidingWindowSpec (a : AttentionFields) (sliding_window : Z)
  | MambaSpec (block_size : Z) (shapes : list (list Z)) (dtypes : list dtype)
      (page_size_padded : option Z) (mamba_type mamba_cache_mode : string)
      (num_speculative_blocks : Z)
  | EncoderOnlyAttentionSpec (a : AttentionFields)
  | CrossAttentionSpec (a : AttentionFields).

#[export] Instance AttentionFields_eq_dec : EqDecision AttentionFields.
Proof. solve_decision. Defined.
#[export] Instance LayerSpec_eq_dec : EqDecision LayerSpec.
Proof. solve_decision. Defined.

(** A spec is the format of one layer or, for a group of layers of one type but
    different sizes, [UniformTypeKVCacheSpecs]. *)
Inductive KVCacheSpec :=
  | Layer (l : LayerSpec)
  | UniformTypeKVCacheSpecs (block_size : Z) (kv_cache_specs : list (string * LayerSpec)).

(** [isinstance(spec, FullAttentionSpec)]: MLA and sink attention are subclasses. *)
Definition is_full (l : LayerSpec) : bool :=
  match l with
  | FullAttentionSpec _ _ _ _ | MLAAttentionSpec _ _ _ _ _ | SinkFullAttentionSpec _ _ _ _ _ => true
  | _ => false
  end.
Definition is_mla (l : LayerSpec) : bool :=
  match l with MLAAttentionSpec _ _ _ _ _ => true | _ => false end.
Definition is_sliding (l : LayerSpec) : bool :=
  match l with SlidingWindowSpec _ _ => true | _ => false end.
Definition is_chunked (l : LayerSpec) : bool :=
  match l with ChunkedLocalAttentionSpec _ _ => true | _ => false end.

(** The fields of [AttentionSpec], for its subclasses. *)
Definition attn (l : LayerSpec) : option AttentionFields :=
  match l with
  | FullAttentionSpec a _ _ _ | MLAAttentionSpec a _ _ _ _ | SinkFullAttentionSpec a _ _ _ _
  | ChunkedLocalAttentionSpec a _ | SlidingWindowSpec a _ | EncoderOnlyAttentionSpec a
  | CrossAttentionSpec a => Some a
  | MambaSpec _ _ _ _ _ _ _ => None
  end.

Definition layer_block_size (l : LayerSpec) : Z :=
  match l with
  | MambaSpec bs _ _ _ _ _ _ => bs
  | _ => match attn l with Some a => a_block_size a | None => 0 end
  end.
Definition spec_block_size (s : KVCacheSpec) : Z :=
  match s with Layer l => layer_block_size l | UniformTypeKVCacheSpecs bs _ => bs end.

(** [replace(spec, block_size=n)] *)
Definition attn_with_block_size (n : Z) (a : AttentionFields) : AttentionFields :=
  mkAttn n (num_kv_heads a) (head_size a) (a_dtype a) (page_size_padded a).
Definition copy_with_new_block_size (n : Z) (l : LayerSpec) : LayerSpec :=
  match l with
  | FullAttentionSpec a v w c => FullAttentionSpec (attn_with_block_size n a) v w c
  | MLAAttentionSpec a v w c d => MLAAttentionSpec (attn_with_block_size n a) v w c d
  | SinkFullAttentionSpec a v w c k => SinkFullAttentionSpec (attn_with_block_size n a) v w c k
  | ChunkedLocalAttentionSpec a c => ChunkedLocalAttentionSpec (attn_with_block_size n a) c
  | SlidingWindowSpec a w => SlidingWindowSpec (attn_with_block_size n a) w
  | MambaSpec _ sh dt pp ty md nb => MambaSpec n sh dt pp ty md nb
  | EncoderOnlyAttentionSpec a => EncoderOnlyAttentionSpec (attn_with_block_size n a)
  | CrossAttentionSpec a => CrossAttentionSpec (attn_with_block_size n a)
  end.

Section sizes.
(** [get_dtype_size]: the bytes of one element of a [torch.dtype]. *)
Context (get_dtype_size : dtype → Z).

Definition prod (l : list Z) : Z := foldr Z.mul 1 l.

(** *** Page sizes *)

Definition real_page_size_bytes (l : LayerSpec) : Z :=
  match l with
  | FullAttentionSpec a v _ _ | SinkFullAttentionSpec a v _ _ _ =>
      a_block_size a * num_kv_heads a * (head_size a + v) * get_dtype_size (a_dtype a)
  | MLAAttentionSpec a _ _ _ d =>
      if bool_decide (d = Some "fp8_ds_mla"%string) then a_block_size a * 656
      else a_block_size a * num_kv_heads a * head_size a * get_dtype_size (a_dtype a)
  | ChunkedLocalAttentionSpec a _ | SlidingWindowSpec a _ | EncoderOnlyAttentionSpec a
  | CrossAttentionSpec a =>
      2 * a_block_size a * num_kv_heads a * head_size a * get_dtype_size (a_dtype a)
  | MambaSpec _ shapes dtypes _ _ _ _ =>
      sumZ (zip_with (λ sh d, prod sh * get_dtype_size d) shapes dtypes)
  end.

Definition layer_page_size_padded (l : LayerSpec) : option Z :=
  match l with MambaSpec _ _ _ pp _ _ _ => pp | _ => attn l ≫= page_size_padded end.

(** [page_size_bytes] of [AttentionSpec] and [MambaSpec]. *)
Definition layer_page_size_bytes (l : LayerSpec) : res Z :=
  match layer_page_size_padded l with
  | None => Ok (real_page_size_bytes l)
  | Some p => if real_page_size_bytes l <=? p then Ok p else Err AssertionError
  end.

Definition page_size_bytes (s : KVCacheSpec) : res Z :=
  match s with
  | Layer l => layer_page_size_bytes l
  | UniformTypeKVCacheSpecs _ specs =>
      ps ← map_res (λ p, layer_page_size_bytes p.2) specs; Ok (sumZ ps)
  end.

(** *** Memory of a request of maximal length *)

Definition full_max_tokens (c : VllmConfig) : Z :=
  let dcp := decode_context_parallel_size c in
  let pcp := prefill_context_parallel_size c in
  if 1 <? dcp * pcp then cdiv (max_model_len c) (dcp * pcp) else max_model_len c.

Definition layer_max_memory_usage_bytes (c : VllmConfig) (l : LayerSpec) : res Z :=
  match l with
  | FullAttentionSpec a _ _ _ | MLAAttentionSpec a _ _ _ _ | SinkFullAttentionSpec a _ _ _ _ =>
      p ← layer_page_size_bytes l; Ok (cdiv (full_max_tokens c) (a_block_size a) * p)
  | ChunkedLocalAttentionSpec a chunk =>
      let num_tokens := Z.min (chunk + vc_max_num_batched_tokens c) (max_model_len c) in
      p ← layer_page_size_bytes l; Ok (cdiv num_tokens (a_block_size a) * p)
  | SlidingWindowSpec a window =>
      if bool_decide (decode_context_parallel_size c = 1) then
        let num_tokens := Z.min (window - 1 + vc_max_num_batched_tokens c) (max_model_len c) in
        p ← layer_page_size_bytes l; Ok ((cdiv num_tokens (a_block_size a) + 1) * p)
      else Err AssertionError
  | MambaSpec bs _ _ _ _ _ nb =>
      p ← layer_page_size_bytes l;
      Ok (if bool_decide (mamba_cache_mode c = "all"%string)
          then cdiv (max_model_len c) bs * p
          else if bool_decide (mamba_cache_mode c = "align"%string)
          then p * (2 + nb) else p * (1 + nb))
  | EncoderOnlyAttentionSpec _ => Ok 0
  | CrossAttentionSpec a =>
      p ← layer_page_size_bytes l;
      Ok (cdiv (vc_max_num_encoder_input_tokens c) (a_block_size a) * p)
  end.

Definition spec_max_memory_usage_bytes (c : VllmConfig) (s : KVCacheSpec) : res Z :=
  match s with
  | Layer l => layer_max_memory_usage_bytes c l
  | UniformTypeKVCacheSpecs _ specs =>
      pages ← map_res (λ p, m ← layer_max_memory_usage_bytes c p.2;
                            q ← layer_page_size_bytes p.2; Ok (cdiv m q)) specs;
      max_num_pages ← py_max pages;
      p ← page_size_bytes s;
      Ok (max_num_pages * p)
  end.
End sizes.

(** ** Merging the specs of a group of layers *)

(** [FullAttentionSpec.merge_window_sizes] on the set of the given sizes. *)
Definition merge_window_sizes (window_sizes : list (option Z)) : res (option Z) :=
  match distinct (omap id window_sizes) with
  | [] => Ok None
  | [w] => Ok (Some w)
  | _ => Err ValueError
  end.

Definition sliding_window_of (l : LayerSpec) : option Z :=
  match l with
  | FullAttentionSpec _ _ w _ | MLAAttentionSpec _ _ w _ _ | SinkFullAttentionSpec _ _ w _ _ => w
  | SlidingWindowSpec _ w => Some w
  | _ => None
  end.
Definition chunk_size_of (l : LayerSpec) : option Z :=
  match l with
  | FullAttentionSpec _ _ _ c | MLAAttentionSpec _ _ _ c _ | SinkFullAttentionSpec _ _ _ c _ => c
  | ChunkedLocalAttentionSpec _ c => Some c
  | _ => None
  end.
Definition cache_dtype_of (l : LayerSpec) : option string :=
  match l with MLAAttentionSpec _ _ _ _ d => d | _ => None end.

(** [FullAttentionSpec.merge] and [SinkFullAttentionSpec.merge], which differ in
    the class they build. *)
Definition merge_full (build : option Z → option Z → LayerSpec) (specs : list LayerSpec)
    : res LayerSpec :=
  if negb (forallb is_full specs) then Err AssertionError
  else if existsb is_mla specs then Err AssertionError
  else
    w ← merge_window_sizes (sliding_window_of <$> specs);
    ch ← merge_window_sizes (chunk_size_of <$> specs);
    let merged := build w ch in
    if negb (forallb (λ l, bool_decide (attn l = attn merged)) specs) then Err AssertionError
    else if bool_decide (is_Some w) && bool_decide (is_Some ch) then Err AssertionError
    else Ok merged.

(** [MLAAttentionSpec.merge] *)
Definition merge_mla (a : AttentionFields) (specs : list LayerSpec) : res LayerSpec :=
  if negb (forallb is_mla specs) then Err AssertionError
  else
    match distinct (cache_dtype_of <$> specs) with
    | [d] => Ok (MLAAttentionSpec a (head_size a) None None d)
    | _ => Err AssertionError
    end.

(** [specs[0].merge(specs)]: the class of the first spec decides. *)
Definition merge (specs : list LayerSpec) : res LayerSpec :=
  match specs with
  | [] => Err IndexError
  | FullAttentionSpec a v _ _ :: _ => merge_full (FullAttentionSpec a v) specs
  | SinkFullAttentionSpec a v _ _ k :: _ =>
      merge_full (λ w ch, SinkFullAttentionSpec a v w ch k) specs
  | MLAAttentionSpec a _ _ _ _ :: _ => merge_mla a specs
  | l :: rest => if forallb (λ l', bool_decide (l' = l)) rest then Ok l else Err AssertionError
  end.

(** ** [UniformTypeKVCacheSpecs] *)

Definition is_uniform_type (specs : list (string * LayerSpec)) : res bool :=
  let ls := specs.*2 in
  if bool_decide (1 < length (distinct (layer_block_size <$> ls)))%nat then Ok false
  else
    match ls with
    | [] => Err StopIteration
    | one_spec :: _ =>
        match one_spec with
        | FullAttentionSpec _ _ _ _ | MLAAttentionSpec _ _ _ _ _ | SinkFullAttentionSpec _ _ _ _ _ =>
            Ok (forallb is_full ls)
        | CrossAttentionSpec _ =>
            Ok (forallb (λ l, match l with CrossAttentionSpec _ => true | _ => false end) ls)
        | SlidingWindowSpec _ w =>
            Ok (forallb (λ l, match l with
                              | SlidingWindowSpec _ w' => bool_decide (w' = w)
                              | _ => false end) ls)
        | ChunkedLocalAttentionSpec _ ch =>
            Ok (forallb (λ l, match l with
                              | ChunkedLocalAttentionSpec _ ch' => bool_decide (ch' = ch)
                              | _ => false end) ls)
        | MambaSpec _ _ _ _ _ _ nb =>
            Ok (forallb (λ l, match l with
                              | MambaSpec _ _ _ _ _ _ nb' => bool_decide (nb' = nb)
                              | _ => false end) ls)
        | EncoderOnlyAttentionSpec _ => Err NotImplementedError
        end
    end.

Definition from_specs (specs : list (string * LayerSpec)) : res (option KVCacheSpec) :=
  u ← is_uniform_type specs;
  if (u : bool) then
    match specs with
    | [] => Err StopIteration
    | (_, l) :: _ => Ok (Some (UniformTypeKVCacheSpecs (layer_block_size l) specs))
    end
  else Ok None.

(** ** Configurations *)

Record KVCacheTensor := mkTensor { tensor_size : Z; shared_by : list string }.

Record KVCacheGroupSpec := mkGroup { layer_names : list string; kv_cache_spec : KVCacheSpec }.

Record KVCacheConfig := mkKVConfig {
  num_blocks : Z;
  kv_cache_tensors : list KVCacheTensor;
  kv_cache_groups : list KVCacheGroupSpec
}.

Definition has_mamba_layers (c : KVCacheConfig) : bool :=
  existsb (λ g, match kv_cache_spec g with
                | Layer (MambaSpec _ _ _ _ _ _ _) => true | _ => false end) (kv_cache_groups c).
Definition needs_kv_cache_zeroing (c : KVCacheConfig) : bool := has_mamba_layers c.
