(* ===== verification/KVCacheConfig.v ===== *)
(** * From layer formats to the KV cache configuration

    [vllm/v1/core/kv_cache_utils.py], the second half: memory checks and the
    binary search for the longest model length that fits, the grouping of layers
    that share block tables, the layout of the KV cache tensors, and
    [get_kv_cache_configs], which combines them for all workers.

    The functions that temporarily change [max_model_len] run in the state monad
    over [VllmConfig].  Logging is left out. *)

From stdpp Require Import base list strings.
From Stdlib Require Import ZArith Lia.
From S2P Require Import Prelude KVCacheSpec.
Local Open Scope Z_scope.

Abbreviation layer_specs := (list (string * LayerSpec)).

Section config.
Context (get_dtype_size : dtype → Z).

Abbreviation layer_page l := (layer_page_size_bytes get_dtype_size l).
Abbreviation page s := (page_size_bytes get_dtype_size s).

(** ** Memory checks *)

Definition max_memory_usage_bytes (c : VllmConfig) (specs : list LayerSpec) : res Z :=
  ms ← map_res (layer_max_memory_usage_bytes get_dtype_size c) specs; Ok (sumZ ms).

Definition _check_enough_kv_cache_memory (available_memory : Z)
    (get_needed_memory : M VllmConfig Z) (estimate_max_model_len : Z → M VllmConfig Z)
    : M VllmConfig unit :=
  if available_memory <=? 0 then raise ValueError
  else
    needed_memory ← get_needed_memory;
    if available_memory <? needed_memory then
      estimate_max_model_len available_memory ;; raise ValueError
    else mret tt.

(** The binary search shared by [estimate_max_model_len] and
    [_estimate_max_model_len_from_groups]; [fits] probes a model length.  The
    interval shrinks with every probe. *)
Fixpoint search_loop (fuel : nat) (fits : Z → M VllmConfig bool) (left right result : Z)
    : M VllmConfig Z :=
  match fuel with
  | O => raise OutOfFuel
  | S fuel =>
      if left <=? right then
        let mid := (left + right) / 2 in
        b ← fits mid;
        if (b : bool) then search_loop fuel fits (mid + 1) right mid
        else search_loop fuel fits left (mid - 1) result
      else mret result
  end.

Definition max_len_search (needed : VllmConfig → res Z) (available_memory : Z)
    : M VllmConfig Z :=
  original ← gets max_model_len;
  let fits model_len :=
    modify (set_max_model_len model_len) ;;
    c ← gets id;
    n ← lift_res (needed c);
    mret (n <=? available_memory) in
  try_finally
    (b ← fits 1;
     if negb b then mret 0
     else search_loop (S (Z.to_nat original)) fits 1 original 1)
    (set_max_model_len original).

Definition estimate_max_model_len (specs : layer_specs) (available_memory : Z)
    : M VllmConfig Z :=
  max_len_search (λ c, max_memory_usage_bytes c specs.*2) available_memory.

Definition check_enough_kv_cache_memory (specs : layer_specs) (available_memory : Z)
    : M VllmConfig unit :=
  if bool_decide (specs = []) then mret tt
  else
    _check_enough_kv_cache_memory available_memory
      (c ← gets id; lift_res (max_memory_usage_bytes c specs.*2))
      (estimate_max_model_len specs).

(** ** Grouping *)

Definition create_kv_cache_group_specs (specs : layer_specs)
    (grouped_layer_names : list (list string)) : res (list KVCacheGroupSpec) :=
  map_res (λ names,
    ls ← map_res (λ n, match dict_get specs n with Some l => Ok l | None => Err KeyError end) names;
    merged ← merge ls;
    Ok (mkGroup names (Layer merged))) grouped_layer_names.

(** Only [AssertionError] is caught. *)
Definition is_kv_cache_spec_uniform (specs : layer_specs) : res bool :=
  if bool_decide (specs = []) then Ok true
  else
    match merge specs.*2 with
    | Ok _ => Ok true
    | Err AssertionError => Ok false
    | Err e => Err e
    end.

Definition may_override_num_blocks (c : VllmConfig) (num_blocks : Z) : Z :=
  default num_blocks (num_gpu_blocks_override c).

Definition get_num_blocks (c : VllmConfig) (num_layers available_memory page_size : Z) : res Z :=
  q ← py_div available_memory page_size;
  n ← py_div q num_layers;
  Ok (may_override_num_blocks c (Z.max n 0)).

Definition get_uniform_page_size (specs : list KVCacheSpec) : res Z :=
  ps ← map_res (page_size_bytes get_dtype_size) specs;
  match distinct ps with [p] => Ok p | _ => Err AssertionError end.

Definition _get_kv_cache_groups_uniform_spec (specs : layer_specs)
    : res (list KVCacheGroupSpec) :=
  create_kv_cache_group_specs specs [specs.*1].

Definition _get_kv_cache_groups_uniform_type (bs : Z) (specs : layer_specs)
    : list KVCacheGroupSpec :=
  [mkGroup specs.*1 (UniformTypeKVCacheSpecs bs specs)].

Definition is_kv_cache_page_size_uniform (specs : layer_specs) : res bool :=
  ps ← map_res (λ p, layer_page p.2) specs;
  Ok (bool_decide (length (distinct ps) = 1%nat)).

(** One layer of [unify_kv_cache_spec_page_size]. *)
Definition unify_layer (max_page_size : Z) (l : LayerSpec) : res LayerSpec :=
  p ← layer_page l;
  if bool_decide (p = max_page_size) then Ok l
  else
    r ← py_mod max_page_size p;
    if negb (bool_decide (r = 0)) then Err NotImplementedError
    else
      let new_spec := copy_with_new_block_size (layer_block_size l * (max_page_size / p)) l in
      p' ← layer_page new_spec;
      if bool_decide (p' = max_page_size) then Ok new_spec else Err AssertionError.

Definition unify_kv_cache_spec_page_size (specs : layer_specs) : res layer_specs :=
  ps ← map_res (λ p, layer_page p.2) specs;
  if bool_decide (length (distinct ps) ≤ 1)%nat then Ok specs
  else
    max_page_size ← py_max ps;
    map_res (λ p, l ← unify_layer max_page_size p.2; Ok (p.1, l)) specs.

(** [same_type_layers]: layer names by spec, in order of first occurrence. *)
Definition same_type_layers (specs : layer_specs) : list (LayerSpec * list string) :=
  foldl (λ d p, dict_set d p.2 (default [] (dict_get d p.2) ++ [p.1])) [] specs.

(** [l[i::n]] *)
Definition stride {A} (i n : nat) (l : list A) : list A :=
  omap (λ j, l !! (i + j * n)%nat) (seq 0 (length l)).

(** The number of layers per group. *)
Definition choose_group_size (counts : list Z) : res Z :=
  min_num_layers ← py_min counts;
  max_num_layers ← py_max counts;
  Ok (if 2 * max_num_layers <? 3 * min_num_layers then max_num_layers else min_num_layers).

(** [layers[i::num_groups] for i in range(num_groups)] *)
Definition split_layers (group_size : Z) (layers : list string) : list (list string) :=
  let num_groups := Z.to_nat (cdiv (Z.of_nat (length layers)) group_size) in
  (λ i, stride i num_groups layers) <$> seq 0 num_groups.

Definition _get_kv_cache_groups_uniform_page_size (specs : layer_specs)
    : res (list KVCacheGroupSpec) :=
  let same := same_type_layers specs in
  group_size ← choose_group_size ((λ l, Z.of_nat (length l)) <$> same.*2);
  create_kv_cache_group_specs specs (concat (split_layers group_size <$> same.*2)).

(** [unify_hybrid_kv_cache_specs]; the dict of specs is updated in place. *)
Definition to_full (l : LayerSpec) : LayerSpec :=
  match l with
  | SlidingWindowSpec a w => FullAttentionSpec a (head_size a) (Some w) None
  | ChunkedLocalAttentionSpec a ch => FullAttentionSpec a (head_size a) None (Some ch)
  | _ => l
  end.

(** [is_kv_cache_spec_uniform(...) or is_uniform_type(...)] *)
Definition is_unified (specs : layer_specs) : res bool :=
  u ← is_kv_cache_spec_uniform specs;
  if (u : bool) then Ok true else is_uniform_type specs.

Definition unify_hybrid_kv_cache_specs (specs : layer_specs) : res layer_specs :=
  u ← is_unified specs;
  if (u : bool) then Ok specs
  else
    let ls := specs.*2 in
    let specs' :=
      if existsb is_full ls && (existsb is_sliding ls || existsb is_chunked ls)
      then (λ p, (p.1, to_full p.2)) <$> specs else specs in
    u' ← is_unified specs';
    if (u' : bool) then Ok specs' else Err ValueError.

Definition get_kv_cache_groups (c : VllmConfig) (specs : layer_specs)
    : res (list KVCacheGroupSpec) :=
  specs ← (if disable_hybrid_kv_cache_manager c
           then unify_hybrid_kv_cache_specs specs else Ok specs);
  if bool_decide (specs = []) then Ok []
  else
    u ← is_kv_cache_spec_uniform specs;
    if (u : bool) then _get_kv_cache_groups_uniform_spec specs
    else
      us ← from_specs specs;
      match us with
      | Some (UniformTypeKVCacheSpecs bs sp) => Ok (_get_kv_cache_groups_uniform_type bs sp)
      | _ =>
          specs ← unify_kv_cache_spec_page_size specs;
          _get_kv_cache_groups_uniform_page_size specs
      end.

(** ** Tensors *)

(** The special case of the layout: one group of layers of one type. *)
Definition as_uniform_type (groups : list KVCacheGroupSpec)
    : option (list string * layer_specs) :=
  match groups with
  | [g] => match kv_cache_spec g with
           | UniformTypeKVCacheSpecs _ specs => Some (layer_names g, specs)
           | Layer _ => None
           end
  | _ => None
  end.

(** The layers of pool [i], one per group that has that many. *)
Definition shared_by_pool (groups : list KVCacheGroupSpec) (i : nat) : list string :=
  omap (λ g, layer_names g !! i) groups.

Definition get_kv_cache_config_from_groups (c : VllmConfig)
    (groups : list KVCacheGroupSpec) (available_memory : Z) : res KVCacheConfig :=
  match groups with
  | [] => Ok (mkKVConfig 1 [] groups)
  | g0 :: _ =>
      match as_uniform_type groups with
      | Some (names, per_layer_specs) =>
          p ← page (kv_cache_spec g0);
          q ← py_div available_memory p;
          let num_blocks := may_override_num_blocks c q in
          tensors ← map_res (λ n,
            match dict_get per_layer_specs n with
            | Some l => lp ← layer_page l; Ok (mkTensor (lp * num_blocks) [n])
            | None => Err KeyError
            end) names;
          Ok (mkKVConfig num_blocks tensors groups)
      | None =>
          group_size ← py_max ((λ g, Z.of_nat (length (layer_names g))) <$> groups);
          page_size ← get_uniform_page_size (kv_cache_spec <$> groups);
          if group_size <=? 0 then Err AssertionError
          else
            num_blocks ← get_num_blocks c group_size available_memory page_size;
            Ok (mkKVConfig num_blocks
                  ((λ i, mkTensor (page_size * num_blocks) (shared_by_pool groups i))
                     <$> seq 0 (Z.to_nat group_size))
                  groups)
      end
  end.

(** [get_max_concurrency_for_kv_cache_config] divides at the end; here the pair
    of the two operands. *)
Definition get_max_concurrency_for_kv_cache_config (c : VllmConfig) (k : KVCacheConfig)
    : res (Z * Z) :=
  n ← py_max ((λ g, Z.of_nat (length (layer_names g))) <$> kv_cache_groups k);
  ms ← map_res (λ g, spec_max_memory_usage_bytes get_dtype_size c (kv_cache_spec g))
         (kv_cache_groups k);
  match kv_cache_groups k with
  | [] => Err IndexError
  | g0 :: _ =>
      p ← page (kv_cache_spec g0);
      if bool_decide (p * n = 0) then Err ZeroDivisionError
      else
        let num_block_per_request := cdiv (n * sumZ ms) (p * n) in
        if bool_decide (num_block_per_request = 0) then Err ZeroDivisionError
        else Ok (num_blocks k, num_block_per_request)
  end.

(** [_report_kv_cache_config] only logs, but what it logs can fail to compute:
    the number of tokens and the maximum concurrency. *)
Definition _report_kv_cache_config (c : VllmConfig) (k : KVCacheConfig) : res (Z * (Z * Z)) :=
  min_block_size ← py_min ((λ g, spec_block_size (kv_cache_spec g)) <$> kv_cache_groups k);
  q ← py_div (num_blocks k) (Z.of_nat (length (kv_cache_groups k)));
  let cp := prefill_context_parallel_size c * decode_context_parallel_size c in
  let num_tokens := q * min_block_size * (if 1 <? cp then cp else 1) in
  m ← get_max_concurrency_for_kv_cache_config c k;
  Ok (num_tokens, m).

(** [generate_scheduler_kv_cache_config] *)
Definition generate_scheduler_kv_cache_config (configs : list KVCacheConfig) : res KVCacheConfig :=
  match configs with
  | [] => Err IndexError
  | c0 :: _ =>
      if forallb (λ c, num_blocks c =? num_blocks c0) configs then
        groups ← map_res (λ g,
          match kv_cache_spec g with
          | UniformTypeKVCacheSpecs _ [] => Err StopIteration
          | UniformTypeKVCacheSpecs _ ((_, l) :: _) => Ok (mkGroup (layer_names g) (Layer l))
          | Layer _ => Ok g
          end) (kv_cache_groups c0);
        Ok (mkKVConfig (num_blocks c0) (kv_cache_tensors c0) groups)
      else Err AssertionError
  end.

(** ** All workers *)

Definition _max_memory_usage_bytes_from_groups (c : VllmConfig)
    (groups : list KVCacheGroupSpec) : res Z :=
  match groups with
  | [] => Ok 0
  | _ =>
      match as_uniform_type groups with
      | Some (_, per_layer_specs) => max_memory_usage_bytes c per_layer_specs.*2
      | None =>
          group_size ← py_max ((λ g, Z.of_nat (length (layer_names g))) <$> groups);
          page_size ← get_uniform_page_size (kv_cache_spec <$> groups);
          bs ← map_res (λ g,
            m ← spec_max_memory_usage_bytes get_dtype_size c (kv_cache_spec g);
            Ok (cdiv m page_size)) groups;
          Ok (group_size * page_size * sumZ bs)
      end
  end.

Definition _estimate_max_model_len_from_groups (groups : list KVCacheGroupSpec)
    (available_memory : Z) : M VllmConfig Z :=
  max_len_search (λ c, _max_memory_usage_bytes_from_groups c groups) available_memory.

Definition _auto_fit_max_model_len (projected_groups_per_worker : list (list KVCacheGroupSpec))
    (available_memory : list Z) : M VllmConfig unit :=
  original_max ← gets max_model_len;
  if forallb (λ gs, bool_decide (length gs = 0%nat)) projected_groups_per_worker then mret tt
  else
    auto_fit_max ← fold_each (zip projected_groups_per_worker available_memory) original_max
      (λ auto_fit_max p,
         if bool_decide (length p.1 = 0%nat) then mret auto_fit_max
         else
           worker_max ← _estimate_max_model_len_from_groups p.1 p.2;
           mret (if worker_max <? auto_fit_max then worker_max else auto_fit_max));
    if auto_fit_max <=? 0 then raise ValueError
    else if original_max <=? auto_fit_max then mret tt
    else modify (set_max_model_len auto_fit_max).

Definition _project_kv_cache_groups_to_worker (global_kv_cache_groups : list KVCacheGroupSpec)
    (worker_spec : layer_specs) : res (list KVCacheGroupSpec) :=
  map_res (λ g,
    let worker_layer_names :=
      filter (λ n, is_Some (dict_get worker_spec n)) (layer_names g) in
    match kv_cache_spec g, worker_layer_names with
    | UniformTypeKVCacheSpecs bs specs, _ :: _ =>
        sp ← map_res (λ n, match dict_get specs n with
                           | Some l => Ok (n, l) | None => Err KeyError end) worker_layer_names;
        Ok (mkGroup worker_layer_names (UniformTypeKVCacheSpecs bs sp))
    | s, _ => Ok (mkGroup worker_layer_names s)
    end) global_kv_cache_groups.

(** The specs of all workers; a layer must have the same spec everywhere. *)
Definition merge_worker_specs (kv_cache_specs : list layer_specs) : res layer_specs :=
  foldl (λ acc p,
    d ← acc;
    match dict_get d p.1 with
    | None => Ok (d ++ [p])
    | Some l => if bool_decide (l = p.2) then Ok d else Err AssertionError
    end) (Ok []) (concat kv_cache_specs).

(** Step 5 of [get_kv_cache_configs]: shrink a worker's configuration and report
    it. *)
Definition shrink_config (c : VllmConfig) (min_num_blocks : Z) (k : KVCacheConfig)
    : res KVCacheConfig :=
  tensors ← map_res (λ t,
    r ← py_mod (tensor_size t) (num_blocks k);
    if bool_decide (r = 0) then
      Ok (mkTensor (tensor_size t / num_blocks k * min_num_blocks) (shared_by t))
    else Err AssertionError) (kv_cache_tensors k);
  let k' := mkKVConfig min_num_blocks tensors (kv_cache_groups k) in
  _ ← (if bool_decide (0 < length (kv_cache_groups k))%nat
       then _report_kv_cache_config c k' else Ok (0, (0, 0)));
  Ok k'.

Definition get_kv_cache_configs (kv_cache_specs : list layer_specs) (available_memory : list Z)
    : M VllmConfig (list KVCacheConfig) :=
  merged ← lift_res (merge_worker_specs kv_cache_specs);
  c ← gets id;
  global_kv_cache_groups ← lift_res (get_kv_cache_groups c merged);
  projected ← lift_res (map_res (_project_kv_cache_groups_to_worker global_kv_cache_groups)
                          kv_cache_specs);
  (if bool_decide (original_max_model_len c = -1)
   then _auto_fit_max_model_len projected available_memory else mret tt) ;;
  for_each (zip projected available_memory) (λ p,
    if bool_decide (length p.1 = 0%nat) then mret tt
    else
      _check_enough_kv_cache_memory p.2
        (c ← gets id; lift_res (_max_memory_usage_bytes_from_groups c p.1))
        (_estimate_max_model_len_from_groups p.1)) ;;
  c ← gets id;
  configs ← lift_res (map_res (λ w : (list KVCacheGroupSpec * layer_specs) * Z,
    if sumZ ((λ g, Z.of_nat (length (layer_names g))) <$> w.1.1) =? Z.of_nat (length w.1.2)
    then get_kv_cache_config_from_groups c w.1.1 w.2
    else Err AssertionError) (zip (zip projected kv_cache_specs) available_memory));
  min_num_blocks ← lift_res (py_min (num_blocks <$> configs));
  lift_res (map_res (shrink_config c min_num_blocks) configs).
End config.

(** ** The search for the longest model length *)

Section search.
Context (needed : VllmConfig → res Z) (avail : Z) (c0 : VllmConfig).
(** The need of each length, which grows with the length. *)
Context (f : Z → Z) (Hf : ∀ n, needed (set_max_model_len n c0) = Ok (f n)).
Context (Hmono : ∀ n m, 1 ≤ n → n ≤ m → f n ≤ f m).

Definition probe (model_len : Z) : M VllmConfig bool :=
  modify (set_max_model_len model_len) ;;
  c ← gets id; n ← lift_res (needed c); mret (n <=? avail).

Lemma probe_run n k :
  probe n (set_max_model_len k c0) = (Ok (f n <=? avail), set_max_model_len n c0).
Proof.
  unfold probe, modify, gets, lift_res, mbind, M_bind, mret, M_ret, id. cbn beta iota.
  change (set_max_model_len n (set_max_model_len k c0)) with (set_max_model_len n c0).
  by rewrite Hf.
Qed.

Lemma search_loop_spec fuel orig left right k :
  right - left + 1 < Z.of_nat fuel → 1 ≤ left → left ≤ right + 1 → right ≤ orig → 1 ≤ orig →
  f (Z.max 1 (left - 1)) ≤ avail → (∀ n, right < n ≤ orig → avail < f n) →
  ∃ r k', search_loop fuel probe left right (Z.max 1 (left - 1)) (set_max_model_len k c0) =
      (Ok r, set_max_model_len k' c0) ∧
    1 ≤ r ≤ orig ∧ f r ≤ avail ∧ ∀ n, r < n ≤ orig → avail < f n.
Proof.
  revert left right k. induction fuel as [|fuel IH];
    intros left right k Hfuel Hl Hlr Hro Ho Hfit Hno; [lia|]. cbn [search_loop].
  destruct (Z.leb_spec left right) as [Hle|Hgt].
  2:{ exists (Z.max 1 (left - 1)), k. split; [done|]. split; [lia|]. split; [done|].
      intros n Hn. apply Hno. lia. }
  set (mid := (left + right) / 2).
  assert (left ≤ mid ≤ right) as Hmid by (unfold mid; split;
    [apply Z.div_le_lower_bound|apply Z.div_le_upper_bound]; lia).
  unfold mbind, M_bind. rewrite probe_run.
  destruct (Z.leb_spec (f mid) avail) as [Hok|Hbad].
  - replace (search_loop fuel probe (mid + 1) right mid)
      with (search_loop fuel probe (mid + 1) right (Z.max 1 (mid + 1 - 1))) by (f_equal; lia).
    apply IH; [lia..| |done]. by replace (Z.max 1 (mid + 1 - 1)) with mid by lia.
  - apply IH; [lia..|done|]. intros n Hn. destruct (decide (right < n)); [apply Hno; lia|].
    pose proof (Hmono mid n ltac:(lia) ltac:(lia)). lia.
Qed.

Lemma max_len_search_spec :
  1 ≤ max_model_len c0 →
  ∃ r, max_len_search needed avail c0 = (Ok r, c0) ∧ 0 ≤ r ≤ max_model_len c0 ∧
    ∀ n, 1 ≤ n ≤ max_model_len c0 → f n ≤ avail ↔ n ≤ r.
Proof.
  intros Horig. set (orig := max_model_len c0).
  assert (∀ k, set_max_model_len orig (set_max_model_len k c0) = c0) as Ec by by destruct c0.
  assert (probe 1 c0 = (Ok (f 1 <=? avail), set_max_model_len 1 c0)) as E1.
  { rewrite <-(Ec 0) at 1. exact (probe_run 1 orig). }
  assert (max_len_search needed avail c0 =
    try_finally (b ← probe 1; if negb b then mret 0
      else search_loop (S (Z.to_nat orig)) probe 1 orig 1) (set_max_model_len orig) c0) as -> by done.
  unfold try_finally, mbind, M_bind. rewrite E1. destruct (Z.leb_spec (f 1) avail) as [H1|H1]; simpl negb.
  - cbn iota.
    destruct (search_loop_spec (S (Z.to_nat orig)) orig 1 orig 1) as (r & k' & E & Hr & Hfit & Hno);
      [lia..|done|lia|].
    change (Z.max 1 (1 - 1)) with 1 in E. cbn [negb]. rewrite E, Ec. exists r. split; [done|]. split; [lia|].
    intros n Hn. split; intros H.
    + destruct (decide (n ≤ r)); [done|]. specialize (Hno n ltac:(lia)). lia.
    + pose proof (Hmono n r ltac:(lia) ltac:(lia)). lia.
  - cbn [negb]. unfold mret, M_ret. rewrite Ec. exists 0. split; [done|]. split; [lia|].
    intros n Hn. pose proof (Hmono 1 n ltac:(lia) ltac:(lia)). lia.
Qed.
End search.

(** ** Memory use grows with the model length *)

(** Block sizes and page sizes are positive. *)
Definition layer_wf (gds : dtype → Z) (l : LayerSpec) : Prop :=
  0 < layer_block_size l ∧ ∃ p, layer_page_size_bytes gds l = Ok p ∧ 0 < p.

Definition parallel_wf (c : VllmConfig) : Prop :=
  1 ≤ decode_context_parallel_size c ∧ 1 ≤ prefill_context_parallel_size c.

Lemma full_max_tokens_mono c n m :
  parallel_wf c → n ≤ m →
  full_max_tokens (set_max_model_len n c) ≤ full_max_tokens (set_max_model_len m c).
Proof.
  intros [Hd Hp] Hnm. unfold full_max_tokens. simpl.
  destruct (Z.ltb_spec 1 (decode_context_parallel_size c * prefill_context_parallel_size c)); [|done].
  apply cdiv_mono; lia.
Qed.

Section usage.
Context (gds : dtype → Z).

(** What a spec needs at length [n]. *)
Definition usage_at (c : VllmConfig) (l : LayerSpec) (n : Z) : Z :=
  match layer_max_memory_usage_bytes gds (set_max_model_len n c) l with Ok m => m | Err _ => 0 end.

Lemma usage_at_ok c l n m :
  layer_max_memory_usage_bytes gds c l = Ok m →
  layer_max_memory_usage_bytes gds (set_max_model_len n c) l = Ok (usage_at c l n).
Proof.
  unfold usage_at. destruct l; simpl; intros H;
    try (destruct (layer_page_size_bytes gds _); simpl in *; [done|done]); try done.
  case_bool_decide; [|done]. by destruct (layer_page_size_bytes gds _).
Qed.

Lemma usage_at_mono c l n m :
  layer_wf gds l → parallel_wf c → n ≤ m → usage_at c l n ≤ usage_at c l m.
Proof.
  intros (Hbs & p & Hp & Hpos) Hpar Hnm. pose proof (full_max_tokens_mono c n m Hpar Hnm) as Hfull.
  unfold usage_at. destruct l; simpl in *; rewrite ?Hp; simpl;
    try (apply Z.mul_le_mono_nonneg_r; [lia|]; apply cdiv_mono; [done|lia]); try lia.
  - case_bool_decide; [|done]. simpl. apply Z.mul_le_mono_nonneg_r; [lia|].
    pose proof (cdiv_mono (Z.min (sliding_window - 1 + vc_max_num_batched_tokens c) n)
      (Z.min (sliding_window - 1 + vc_max_num_batched_tokens c) m) (a_block_size a) Hbs ltac:(lia)).
    lia.
  - repeat case_bool_decide; try lia. apply Z.mul_le_mono_nonneg_r; [lia|]. by apply cdiv_mono.
Qed.

Lemma map_res_fmap {A B} (g : A → res B) (h : A → B) l :
  (∀ x, x ∈ l → g x = Ok (h x)) → map_res g l = Ok (h <$> l).
Proof.
  induction l as [|x l IH]; intros Hg; [done|]. simpl. rewrite Hg by left. simpl.
  rewrite IH by (intros; apply Hg; by right). done.
Qed.

Lemma sumZ_mono {A} (g h : A → Z) l :
  (∀ x, x ∈ l → g x ≤ h x) → sumZ (g <$> l) ≤ sumZ (h <$> l).
Proof.
  induction l as [|x l IH]; intros Hgh; [done|]. rewrite !fmap_cons. simpl.
  pose proof (Hgh x ltac:(left)). specialize (IH ltac:(intros; apply Hgh; by right)). lia.
Qed.

Lemma max_memory_usage_at c ls m :
  max_memory_usage_bytes gds c ls = Ok m →
  ∀ n, max_memory_usage_bytes gds (set_max_model_len n c) ls = Ok (sumZ ((λ l, usage_at c l n) <$> ls)).
Proof.
  unfold max_memory_usage_bytes. intros H n.
  destruct (map_res _ ls) as [ms|e] eqn:E; [|done]. apply map_res_ok in E.
  rewrite (map_res_fmap _ (λ l, usage_at c l n)); [done|]. intros l Hl.
  apply list_elem_of_lookup in Hl as [i Hi].
  destruct (Forall2_lookup_l _ _ _ _ _ E Hi) as (k & _ & Hk). by eapply usage_at_ok.
Qed.
End usage.

(** [estimate_max_model_len] finds the longest model length whose KV cache
    fits: it returns [r], between 0 and the configured maximum, such that a
    length needs no more than the available memory exactly when it is at most
    [r]; and the configuration is as before. *)
Theorem estimate_max_model_len_correct gds c specs avail :
  Forall (layer_wf gds) specs.*2 → parallel_wf c → 1 ≤ max_model_len c →
  (∃ m, max_memory_usage_bytes gds c specs.*2 = Ok m) →
  ∃ r, estimate_max_model_len gds specs avail c = (Ok r, c) ∧ 0 ≤ r ≤ max_model_len c ∧
    ∀ n, 1 ≤ n ≤ max_model_len c →
      n ≤ r ↔ ∃ m, max_memory_usage_bytes gds (set_max_model_len n c) specs.*2 = Ok m ∧ m ≤ avail.
Proof.
  intros Hwf Hpar Hlen [m Hm]. pose proof (max_memory_usage_at gds c _ m Hm) as Hat.
  destruct (max_len_search_spec (λ c, max_memory_usage_bytes gds c specs.*2) avail c
    (λ n, sumZ ((λ l, usage_at gds c l n) <$> specs.*2))) as (r & E & Hr & Hiff); [done| |done|].
  - intros n k _ Hnk. apply sumZ_mono. intros l Hl. rewrite Forall_forall in Hwf.
    apply usage_at_mono; auto.
  - exists r. split; [exact E|]. split; [done|]. intros n Hn. rewrite Hat, <-(Hiff n Hn).
    split; [eauto|]. by intros (? & [= <-] & ?).
Qed.

(** ** Grouping of layers *)

Section grouping.
Local Open Scope nat_scope.

(** The indices [i + j * n] for [i < n], [j < k] are [0 .. n*k-1]. *)
Lemma grid_perm n k :
  concat ((λ i, (λ j, i + j * n) <$> seq 0 k) <$> seq 0 n) ≡ₚ seq 0 (n * k).
Proof.
  induction k as [|k IH].
  { rewrite Nat.mul_0_r. simpl. generalize (seq 0 n). induction l as [|i l IHl]; [done|]. by rewrite fmap_cons. }
  rewrite Nat.mul_succ_r, seq_app, <-IH, Nat.add_0_l.
  assert (∀ l : list nat,
    concat ((λ i, (λ j, i + j * n) <$> seq 0 (S k)) <$> l) ≡ₚ
    concat ((λ i, (λ j, i + j * n) <$> seq 0 k) <$> l) ++ ((λ i, n * k + i) <$> l)) as H.
  { induction l as [|i l IHl]; [done|].
    rewrite !fmap_cons, !concat_cons, IHl, seq_S, fmap_app, list_fmap_singleton, Nat.add_0_l, <-!app_assoc. apply Permutation_app_head. simpl.
    replace (i + k * n) with (n * k + i) by lia. by rewrite <-Permutation_middle. }
  rewrite H. apply Permutation_app_head. by rewrite fmap_add_seq, Nat.add_0_r.
Qed.

Lemma omap_fmap {A B C} (f : B → option C) (g : A → B) (l : list A) : omap f (g <$> l) = omap (f ∘ g) l.
Proof.
  induction l as [|x l IH]; [done|]. simpl. unfold compose. destruct (f (g x)); [f_equal|]; exact IH.
Qed.

Lemma omap_lookup_seq {A} (l : list A) m : length l ≤ m → omap (λ j, l !! j) (seq 0 m) = l.
Proof.
  revert m. induction l as [|x l IH]; intros m Hm; simpl in Hm.
  - generalize 0. induction m as [|m IHm]; intros k; [done|]. simpl. apply IHm. lia.
  - destruct m as [|m]; [lia|]. simpl. f_equal. rewrite <-fmap_S_seq.
    rewrite omap_fmap. apply IH. lia.
Qed.

Lemma omap_perm {A B} (f : A → option B) (l1 l2 : list A) : l1 ≡ₚ l2 → omap f l1 ≡ₚ omap f l2.
Proof. intros H. by rewrite H. Qed.

Lemma omap_concat {A B} (f : A → option B) (ls : list (list A)) :
  (omap f (concat ls) : list B) = concat ((λ l : list A, omap f l : list B) <$> ls).
Proof. induction ls as [|l ls IH]; [done|]. rewrite fmap_cons, !concat_cons, omap_app. by rewrite IH. Qed.

(** The strides [l[i::n]], [i < n], partition [l]. *)
Lemma strides_perm {A} (l : list A) n :
  0 < n → concat ((λ i, stride i n l) <$> seq 0 n) ≡ₚ l.
Proof.
  intros Hn. transitivity (omap (λ j, l !! j) (seq 0 (n * length l))).
  2:{ rewrite omap_lookup_seq; [done|nia]. }
  rewrite <-(omap_perm _ _ _ (grid_perm n (length l))), omap_concat, <-list_fmap_compose.
  apply Permutation_refl'. f_equal. apply list_fmap_ext. intros _ i _. unfold stride.
  symmetry. apply (omap_fmap (λ j, l !! j) (λ j, i + j * n)).
Qed.

Lemma length_omap {A B} (f : A → option B) (l : list A) : length (omap f l) ≤ length l.
Proof.
  induction l as [|x l IH]; simpl; [lia|].
  destruct (f x); simpl; [apply le_n_S|apply le_S]; exact IH.
Qed.

Lemma stride_length {A} (l : list A) i n k :
  0 < n → length l ≤ i + k * n → length (stride i n l) ≤ k.
Proof.
  intros Hn Hk. unfold stride. destruct (decide (length l ≤ k)) as [|Hlk].
  { etransitivity; [apply length_omap|]. by rewrite length_seq. }
  replace (length l) with (k + (length l - k)) at 1 by lia. rewrite seq_app, omap_app, length_app.
  assert (∀ m d, k ≤ d → omap (λ j, l !! (i + j * n)) (seq d m) = []) as Hnil.
  { induction m as [|m IH]; intros d Hd; [done|]. simpl.
    rewrite lookup_ge_None_2 by nia. apply IH. lia. }
  rewrite (Hnil _ (0 + k)) by lia. simpl. rewrite Nat.add_0_r.
  etransitivity; [apply length_omap|]. by rewrite length_seq.
Qed.

Lemma stride_elem {A} (l : list A) i n x : x ∈ stride i n l → x ∈ l.
Proof. intros (j & _ & Hj)%list_elem_of_omap. by eapply list_elem_of_lookup_2. Qed.

Lemma stride_nonempty {A} (l : list A) i n : i < length l → stride i n l ≠ [].
Proof.
  intros Hi E. destruct (lookup_lt_is_Some_2 l i Hi) as [x Hx].
  assert (x ∈ stride i n l) as Hin.
  { apply list_elem_of_omap. exists 0. split; [apply elem_of_seq; lia|].
    by rewrite Nat.mul_0_l, Nat.add_0_r. }
  rewrite E in Hin. by apply elem_of_nil in Hin.
Qed.
End grouping.

(** *** Merging equal specs *)

(** What [merge] makes of a group of layers with spec [l], and when it can. *)
Definition merged_spec (l : LayerSpec) : LayerSpec :=
  match l with
  | MLAAttentionSpec a _ _ _ d => MLAAttentionSpec a (head_size a) None None d
  | _ => l
  end.
Definition mergeable (l : LayerSpec) : Prop :=
  match l with
  | FullAttentionSpec _ _ w ch | SinkFullAttentionSpec _ _ w ch _ => w = None ∨ ch = None
  | _ => True
  end.
#[export] Instance mergeable_dec l : Decision (mergeable l).
Proof. destruct l; apply _. Defined.

Lemma NoDup_const {A} (l : list A) x : NoDup l → l ≠ [] → (∀ y, y ∈ l → y = x) → l = [x].
Proof.
  destruct l as [|a [|b l]]; intros Hnd Hne Hx; [done|f_equal; apply Hx; left|].
  apply NoDup_cons in Hnd as [Hab _]. destruct Hab.
  rewrite (Hx a), (Hx b); [left| |]; [right; left|left].
Qed.

Lemma distinct_const {A} `{EqDecision A} (l : list A) x :
  l ≠ [] → (∀ y, y ∈ l → y = x) → distinct l = [x].
Proof.
  intros Hne Hx. apply NoDup_const; [apply distinct_NoDup| |].
  - intros E. destruct l as [|a l]; [done|]. pose proof (proj2 (distinct_elem (a :: l) a) ltac:(left)) as Ha.
    rewrite E in Ha. by apply elem_of_nil in Ha.
  - intros y Hy. by apply Hx, distinct_elem.
Qed.

Lemma merge_window_sizes_const (ws : list (option Z)) w :
  ws ≠ [] → (∀ y, y ∈ ws → y = w) → merge_window_sizes ws = Ok w.
Proof.
  intros Hne Hw. unfold merge_window_sizes. destruct w as [w|].
  - rewrite (distinct_const _ w); [done| |].
    + destruct ws as [|y ws]; [done|]. by rewrite (Hw y ltac:(left)).
    + intros y (o & Ho & Eo)%list_elem_of_omap. apply Hw in Ho. by simplify_eq/=.
  - replace (omap id ws) with (@nil Z); [done|].
    clear Hne. induction ws as [|y ws IH]; [done|]. rewrite (Hw y ltac:(left)). simpl.
    apply IH. intros; apply Hw. by right.
Qed.

Lemma forallb_const {A} (f : A → bool) (l : list A) x :
  (∀ y, y ∈ l → y = x) → f x = true → forallb f l = true.
Proof. intros Hx Hf. apply forallb_forall. intros y ->%list_elem_of_In%Hx. done. Qed.

Lemma existsb_const {A} (f : A → bool) (l : list A) x :
  (∀ y, y ∈ l → y = x) → f x = false → existsb f l = false.
Proof.
  intros Hx Hf. apply not_true_iff_false. intros (y & ->%list_elem_of_In%Hx & Hy)%existsb_exists.
  congruence.
Qed.

Lemma fmap_const {A B} (f : A → B) (l : list A) x :
  (∀ y, y ∈ l → y = x) → ∀ y, y ∈ f <$> l → y = f x.
Proof. by intros Hx y (? & -> & ->%Hx)%list_elem_of_fmap. Qed.

Lemma merge_const l ls :
  mergeable l → ls ≠ [] → (∀ y, y ∈ ls → y = l) → merge ls = Ok (merged_spec l).
Proof.
  intros Hm Hne Hl. destruct ls as [|l0 ls]; [done|].
  pose proof (Hl l0 ltac:(left)) as ->. set (all := l :: ls) in *.
  assert (∀ {A} (f : LayerSpec → A), f <$> all ≠ []) as Hne' by done.
  assert (∀ build, (∀ w ch, attn (build w ch) = attn l) → is_full l = true → is_mla l = false →
    build (sliding_window_of l) (chunk_size_of l) = l →
    (sliding_window_of l = None ∨ chunk_size_of l = None) → merge_full build all = Ok l) as Hfull.
  { clearbody all. intros build Hb Hf Hn Hbl Hwc. unfold merge_full.
    rewrite (forallb_const _ _ l), (existsb_const _ _ l) by done. cbn [negb].
    rewrite (merge_window_sizes_const _ _ (Hne' _ _) (fmap_const sliding_window_of _ _ Hl)). simpl.
    rewrite (merge_window_sizes_const _ _ (Hne' _ _) (fmap_const chunk_size_of _ _ Hl)). simpl.
    rewrite Hbl, (forallb_const _ _ l) by (auto using bool_decide_eq_true_2). cbn [negb].
    rewrite <-bool_decide_and, bool_decide_eq_false_2; [done|].
    intros [[? H1] [? H2]]. destruct Hwc; congruence. }
  destruct l; simpl in Hm |- *; try (by apply Hfull);
    try (rewrite (forallb_const _ _ _ (λ y Hy, Hl y ltac:(by right))); [done|by apply bool_decide_eq_true_2]).
  unfold merge_mla.
  rewrite (forallb_const _ _ _ Hl) by done. cbn [negb].
  rewrite (distinct_const _ cache_dtype_str); [done..|]. exact (fmap_const cache_dtype_of _ _ Hl).
Qed.

(** *** The layers of each spec *)

Lemma concat_dict_append {K} `{EqDecision K} (d : list (K * list string)) k n :
  concat (dict_set d k (default [] (dict_get d k) ++ [n])).*2 ≡ₚ concat d.*2 ++ [n].
Proof.
  induction d as [|[k' ns] d IH]; [done|]. cbn [dict_set dict_get].
  destruct (decide (k = k')); rewrite !fmap_cons, !concat_cons; cbn [snd default].
  - rewrite <-!app_assoc. apply Permutation_app_head. simpl. by rewrite Permutation_cons_append.
  - by rewrite IH, app_assoc.
Qed.

Lemma dict_set_elem {K V} `{EqDecision K} (d : list (K * V)) k v k' v' :
  (k', v') ∈ dict_set d k v → (k', v') = (k, v) ∨ (k', v') ∈ d.
Proof.
  induction d as [|[k0 v0] d IH]; simpl.
  - intros ->%list_elem_of_singleton. by left.
  - rewrite elem_of_cons. case_decide; subst; intros [E|Hin]%elem_of_cons; simplify_eq; auto.
    destruct (IH Hin); auto.
Qed.

Lemma same_type_layers_spec (specs : layer_specs) :
  NoDup (same_type_layers specs).*1 ∧ concat (same_type_layers specs).*2 ≡ₚ specs.*1 ∧
  ∀ l ns, (l, ns) ∈ same_type_layers specs → ns ≠ [] ∧ ∀ n, n ∈ ns → (n, l) ∈ specs.
Proof.
  unfold same_type_layers. induction specs as [|[n l] specs (Hnd & Hperm & Hin)] using rev_ind.
  { split_and!; [constructor|done|]. by intros ?? ?%elem_of_nil. }
  rewrite foldl_app, fmap_app. cbn [foldl fst snd]. set (d := foldl _ [] specs) in *.
  split_and!.
  - by apply dict_set_NoDup.
  - by rewrite concat_dict_append, Hperm.
  - intros l' ns [E|Hd]%dict_set_elem.
    + simplify_eq. split; [by destruct (default [] _)|]. intros m [Hm|Hm]%elem_of_app.
      * apply elem_of_app. left. destruct (dict_get d l) as [ns|] eqn:E; [|by apply elem_of_nil in Hm].
        by apply (Hin l ns (dict_get_Some _ _ _ E)).
      * apply list_elem_of_singleton in Hm as ->. apply elem_of_app. right. left.
    + destruct (Hin _ _ Hd) as [Hne Hns]. split; [done|]. intros m Hm. apply elem_of_app. auto.
Qed.

(** *** Groups of equal size *)

Lemma choose_group_size_spec counts :
  counts ≠ [] → Forall (λ n, 1 ≤ n) counts →
  ∃ lo hi gs, py_min counts = Ok lo ∧ py_max counts = Ok hi ∧ choose_group_size counts = Ok gs ∧
    gs = (if 2 * hi <? 3 * lo then hi else lo) ∧ 1 ≤ gs.
Proof.
  intros Hne Hall. destruct counts as [|a l]; [done|]. unfold choose_group_size, py_min, py_max.
  pose proof (foldl_min_spec l a) as Hlo. pose proof (foldl_max_spec l a) as Hhi.
  set (lo := foldl Z.min a l) in *. set (hi := foldl Z.max a l) in *.
  exists lo, hi, (if 2 * hi <? 3 * lo then hi else lo). split_and!; [done..|].
  rewrite Forall_forall in Hall. destruct Hlo as (_ & _ & Hlo), Hhi as (_ & _ & Hhi).
  rewrite <-elem_of_cons in Hlo, Hhi. apply Hall in Hlo, Hhi. by case_match.
Qed.

Lemma split_layers_spec gs (ns : list string) :
  1 ≤ gs → ns ≠ [] →
  concat (split_layers gs ns) ≡ₚ ns ∧
  Z.of_nat (length (split_layers gs ns)) = cdiv (Z.of_nat (length ns)) gs ∧
  ∀ g, g ∈ split_layers gs ns → g ≠ [] ∧ Z.of_nat (length g) ≤ gs ∧ ∀ n, n ∈ g → n ∈ ns.
Proof.
  intros Hgs Hne. unfold split_layers. set (k := Z.to_nat (cdiv (Z.of_nat (length ns)) gs)).
  pose proof (cdiv_spec (Z.of_nat (length ns)) gs ltac:(lia)) as Hc.
  assert (0 < length ns)%nat as Hl by (destruct ns; simpl; [done|lia]).
  assert (Z.of_nat k = cdiv (Z.of_nat (length ns)) gs) as Hk by (unfold k; nia).
  split_and!.
  - apply strides_perm. nia.
  - by rewrite length_fmap, length_seq.
  - intros g (i & -> & Hi%elem_of_seq)%list_elem_of_fmap. split_and!.
    + apply stride_nonempty. nia.
    + enough (length (stride i k ns) ≤ Z.to_nat gs)%nat by lia. apply stride_length; nia.
    + intros n. apply stride_elem.
Qed.

Lemma map_res_Forall {A B} (f : A → res B) (P : A → B → Prop) l :
  (∀ x, x ∈ l → ∃ y, f x = Ok y ∧ P x y) → ∃ ys, map_res f l = Ok ys ∧ Forall2 P l ys.
Proof.
  induction l as [|x l IH]; intros H; [by exists []|]. destruct (H x ltac:(left)) as (y & Hy & Hp).
  destruct IH as (ys & Hys & HP); [intros; apply H; by right|].
  exists (y :: ys). simpl. rewrite Hy. simpl. rewrite Hys. split; [done|by constructor].
Qed.

(** Groups whose layers share one spec can be created. *)
Lemma create_kv_cache_group_specs_ok specs gss :
  (∀ ns, ns ∈ gss → ns ≠ [] ∧ ∃ l, mergeable l ∧ ∀ n, n ∈ ns → dict_get specs n = Some l) →
  ∃ groups, create_kv_cache_group_specs specs gss = Ok groups ∧
    layer_names <$> groups = gss ∧
    ∀ g, g ∈ groups → ∃ l, kv_cache_spec g = Layer (merged_spec l) ∧
      ∀ n, n ∈ layer_names g → dict_get specs n = Some l.
Proof.
  intros H. unfold create_kv_cache_group_specs.
  destruct (map_res_Forall (λ names,
    ls ← map_res (λ n, match dict_get specs n with Some l => Ok l | None => Err KeyError end) names;
    merged ← merge ls; Ok (mkGroup names (Layer merged)))
    (λ names g, layer_names g = names ∧ ∃ l, kv_cache_spec g = Layer (merged_spec l) ∧
      ∀ n, n ∈ names → dict_get specs n = Some l) gss) as (groups & Hg & Hall).
  - intros ns Hns. destruct (H ns Hns) as (Hne & l & Hm & Hl).
    exists (mkGroup ns (Layer (merged_spec l))). split; [|eauto].
    rewrite (map_res_fmap _ (λ _, l)) by (intros n Hn; by rewrite (Hl n Hn)). simpl.
    rewrite (merge_const l); [done..| |]; [by destruct ns|].
    by intros y (? & -> & _)%list_elem_of_fmap.
  - exists groups. split; [done|]. split.
    + clear H Hg. induction Hall as [|? ? ? ? [? _]]; [done|]. rewrite fmap_cons. by f_equal.
    + intros g Hg'. apply list_elem_of_lookup in Hg' as [i Hi].
      destruct (Forall2_lookup_r _ _ _ _ _ Hall Hi) as (ns & _ & <- & l & ? & ?). eauto.
Qed.

Lemma concat_fmap_perm {A} (f : list A → list (list A)) (ls : list (list A)) :
  (∀ l, l ∈ ls → concat (f l) ≡ₚ l) → concat (concat (f <$> ls)) ≡ₚ concat ls.
Proof.
  induction ls as [|l ls IH]; intros H; [done|]. rewrite fmap_cons, !concat_cons, concat_app.
  rewrite (H l) by left. rewrite IH; [done|]. intros; apply H. by right.
Qed.

(** Layers with pages of one size are grouped correctly: the group size
    is the smallest number of layers of a spec, or the largest if that is less
    than one and a half times as many; each layer is in exactly one group, each
    spec uses as few groups as its layers need, and a group has between one and
    group-size layers, all of the spec the group declares. *)
Theorem uniform_page_size_groups_correct (specs : layer_specs) :
  specs ≠ [] → NoDup specs.*1 → (∀ n l, (n, l) ∈ specs → mergeable l) →
  ∃ lo hi gs groups,
    let counts := (λ ns, Z.of_nat (length ns)) <$> (same_type_layers specs).*2 in
    py_min counts = Ok lo ∧ py_max counts = Ok hi ∧ gs = (if 2 * hi <? 3 * lo then hi else lo) ∧
    _get_kv_cache_groups_uniform_page_size specs = Ok groups ∧
    concat (layer_names <$> groups) ≡ₚ specs.*1 ∧
    Z.of_nat (length groups) = sumZ ((λ n, cdiv n gs) <$> counts) ∧
    ∀ g, g ∈ groups → 1 ≤ Z.of_nat (length (layer_names g)) ≤ gs ∧
      ∃ l, kv_cache_spec g = Layer (merged_spec l) ∧
        ∀ n, n ∈ layer_names g → dict_get specs n = Some l.
Proof.
  intros Hne Hnd Hm. destruct (same_type_layers_spec specs) as (_ & Hperm & Hin).
  set (d := same_type_layers specs) in *.
  destruct (choose_group_size_spec ((λ ns, Z.of_nat (length ns)) <$> d.*2))
    as (lo & hi & gs & Hlo & Hhi & Hgs & Egs & Hpos).
  { destruct d; [|done]. apply Permutation_nil in Hperm. by destruct specs. }
  { rewrite Forall_fmap. apply Forall_forall. intros ns ([l ?] & -> & [Hns _]%Hin)%list_elem_of_fmap.
    simpl. destruct l0; simpl; [done|lia]. }
  assert (∀ ns, ns ∈ d.*2 → ns ≠ [] ∧ ∃ l, ∀ n, n ∈ ns → (n, l) ∈ specs) as Hd.
  { intros ns ([l ?] & -> & [? ?]%Hin)%list_elem_of_fmap. eauto. }
  destruct (create_kv_cache_group_specs_ok specs (concat (split_layers gs <$> d.*2)))
    as (groups & Hgroups & Hnames & Hspec).
  { intros g (gss & (ns & -> & Hns)%list_elem_of_fmap & Hg)%elem_of_concat.
    destruct (Hd ns Hns) as (Hnn & l & Hl).
    destruct (split_layers_spec gs ns Hpos Hnn) as (_ & _ & Hsp). destruct (Hsp g Hg) as (Hgn & _ & Hsub).
    split; [done|]. exists l. split; [|intros n Hn; apply dict_get_elem; auto].
    destruct g as [|n g]; [done|]. apply (Hm n), Hl, Hsub. left. }
  exists lo, hi, gs, groups. split_and!; [done..| | | |].
  - unfold _get_kv_cache_groups_uniform_page_size. fold d. rewrite Hgs. exact Hgroups.
  - rewrite Hnames, <-Hperm. apply concat_fmap_perm. intros ns [Hnn _]%Hd.
    by apply split_layers_spec.
  - rewrite <-(length_fmap layer_names), Hnames. clear - Hd Hpos.
    induction d.*2 as [|ns l IH]; [done|]. rewrite !fmap_cons, concat_cons, length_app. simpl.
    rewrite <-IH by (intros; apply Hd; by right).
    rewrite <-(proj1 (proj2 (split_layers_spec gs ns Hpos (proj1 (Hd ns ltac:(left)))))). lia.
  - intros g Hg. split; [|auto]. apply (list_elem_of_fmap_2 layer_names) in Hg. rewrite Hnames in Hg.
    apply elem_of_concat in Hg as (? & (ns & -> & Hns)%list_elem_of_fmap & Hg).
    destruct (split_layers_spec gs ns Hpos (proj1 (Hd ns Hns))) as (_ & _ & Hsp).
    destruct (Hsp _ Hg) as (? & ? & _). destruct (layer_names g); simpl in *; [done|lia].
Qed.

(** ** The layout of the tensors *)

Lemma concat_app_perm {A B} (a b : A → list B) (l : list A) :
  concat ((λ i, a i ++ b i) <$> l) ≡ₚ concat (a <$> l) ++ concat (b <$> l).
Proof.
  induction l as [|i l IH]; [done|]. rewrite !fmap_cons, !concat_cons, IH, <-!app_assoc.
  apply Permutation_app_head. rewrite !app_assoc. apply Permutation_app_tail, Permutation_app_comm.
Qed.

Lemma concat_option_list {A B} (f : A → option B) (l : list A) :
  concat ((λ i, option_list (f i)) <$> l) = (omap f l : list B).
Proof.
  induction l as [|i l IH]; [done|]. rewrite fmap_cons, concat_cons, IH. simpl. by destruct (f i).
Qed.

(** The pools partition the layers of all groups. *)
Lemma shared_by_pools_perm groups m :
  (∀ g, g ∈ groups → (length (layer_names g) ≤ m)%nat) →
  concat (shared_by_pool groups <$> seq 0 m) ≡ₚ concat (layer_names <$> groups).
Proof.
  induction groups as [|g gs IH]; intros Hm.
  { unfold shared_by_pool. simpl. generalize (seq 0 m). by induction l. }
  transitivity (concat ((λ i, option_list (layer_names g !! i) ++ shared_by_pool gs i) <$> seq 0 m)).
  { apply Permutation_refl'. f_equal. apply list_fmap_ext. intros _ i _. unfold shared_by_pool. simpl.
    by destruct (layer_names g !! i). }
  rewrite concat_app_perm, fmap_cons, concat_cons, IH by (intros; apply Hm; by right).
  rewrite concat_option_list, omap_lookup_seq; [done|]. apply Hm. left.
Qed.

(** ** Blocks and bytes *)

(** The pages a request of maximal length needs in one layer. *)
Definition layer_pages (c : VllmConfig) (l : LayerSpec) : Z :=
  let bs := layer_block_size l in
  match l with
  | FullAttentionSpec _ _ _ _ | MLAAttentionSpec _ _ _ _ _ | SinkFullAttentionSpec _ _ _ _ _ =>
      cdiv (full_max_tokens c) bs
  | ChunkedLocalAttentionSpec _ chunk =>
      cdiv (Z.min (chunk + vc_max_num_batched_tokens c) (max_model_len c)) bs
  | SlidingWindowSpec _ window =>
      cdiv (Z.min (window - 1 + vc_max_num_batched_tokens c) (max_model_len c)) bs + 1
  | MambaSpec _ _ _ _ _ _ nb =>
      if bool_decide (mamba_cache_mode c = "all"%string) then cdiv (max_model_len c) bs
      else if bool_decide (mamba_cache_mode c = "align"%string) then 2 + nb else 1 + nb
  | EncoderOnlyAttentionSpec _ => 0
  | CrossAttentionSpec _ => cdiv (vc_max_num_encoder_input_tokens c) bs
  end.

Section memory.
Context (gds : dtype → Z) (c : VllmConfig).
Abbreviation layer_page l := (layer_page_size_bytes gds l).

Lemma layer_max_pages l m p :
  layer_max_memory_usage_bytes gds c l = Ok m → layer_page l = Ok p → m = layer_pages c l * p.
Proof.
  intros Hm Hp. destruct l; simpl in *; rewrite ?Hp in Hm; simpl in Hm;
    repeat case_bool_decide; simplify_eq/=; done || lia.
Qed.

(** All layers of one type need the same number of pages. *)
Lemma uniform_type_pages specs :
  is_uniform_type specs = Ok true →
  ∃ n, specs ≠ [] ∧ ∀ l, l ∈ specs.*2 → layer_pages c l = n.
Proof.
  unfold is_uniform_type. case_bool_decide as Hbs; [done|].
  assert (∀ l l', l ∈ specs.*2 → l' ∈ specs.*2 → layer_block_size l = layer_block_size l') as Heq.
  { intros l l' Hl Hl'. apply (list_elem_of_fmap_2 layer_block_size), distinct_elem in Hl, Hl'.
    destruct (distinct _) as [|a [|]]; simpl in *; [by apply elem_of_nil in Hl| |lia].
    apply list_elem_of_singleton in Hl, Hl'. congruence. }
  clear Hbs. destruct specs as [|[n0 l0] specs]; [done|]. rewrite fmap_cons in *. cbn [snd] in *.
  intros H. exists (layer_pages c l0). split; [done|]. intros l Hl.
  pose proof (Heq l l0 Hl ltac:(left)) as Hb. clear Heq.
  destruct l0; try done; apply Ok_inj in H; rewrite forallb_forall in H;
    apply list_elem_of_In in Hl; apply H in Hl; destruct l; try done;
    unfold layer_pages; rewrite Hb; try done; by apply bool_decide_eq_true in Hl as ->.
Qed.

Lemma sumZ_mul {A} (f g : A → Z) n l : (∀ x, x ∈ l → f x = n * g x) → sumZ (f <$> l) = n * sumZ (g <$> l).
Proof.
  induction l as [|x l IH]; intros H; rewrite ?fmap_cons; simpl; [lia|].
  rewrite (H x) by left. rewrite IH by (intros; apply H; by right). lia.
Qed.
End memory.

(** ** One worker's configuration *)

(** The blocks a request of maximal length takes from the pool. *)
Definition request_blocks (gds : dtype → Z) (c : VllmConfig) (groups : list KVCacheGroupSpec) : res Z :=
  bs ← map_res (λ g, m ← spec_max_memory_usage_bytes gds c (kv_cache_spec g);
                     p ← page_size_bytes gds (kv_cache_spec g); Ok (cdiv m p)) groups;
  Ok (sumZ bs).

(** Layers that all need the same number of pages, whatever the configuration, as
    the layers of [is_uniform_type] do. *)
Definition same_pages (specs : layer_specs) : Prop :=
  ∀ c l l', l ∈ specs.*2 → l' ∈ specs.*2 → layer_pages c l = layer_pages c l'.

(** Groups a configuration can be laid out for: one group of layers of one type,
    with all its layers on the worker or none of them, or groups of pages of one
    size, not all empty. *)
Definition groups_wf (gds : dtype → Z) (groups : list KVCacheGroupSpec) : Prop :=
  match as_uniform_type groups with
  | Some (names, specs) =>
      (names = specs.*1 ∨ names = []) ∧ NoDup specs.*1 ∧ specs ≠ [] ∧ same_pages specs ∧
      Forall (layer_wf gds) specs.*2
  | None =>
      (∃ g, g ∈ groups ∧ layer_names g ≠ []) ∧
      ∃ p, 0 < p ∧ ∀ g, g ∈ groups → page_size_bytes gds (kv_cache_spec g) = Ok p
  end.

(** [k] is a good configuration for [groups] in [avail] bytes: it is made of
    blocks of [b] bytes, as many as fit, and [n] of them serve a request. *)
Record config_fits (gds : dtype → Z) (c : VllmConfig) (groups : list KVCacheGroupSpec)
    (avail need b n : Z) (k : KVCacheConfig) : Prop := {
  fits_pos : 0 < b;
  fits_groups : kv_cache_groups k = groups;
  fits_blocks : num_blocks k = avail / b;
  fits_cover : concat (shared_by <$> kv_cache_tensors k) ≡ₚ concat (layer_names <$> groups);
  fits_size : sumZ (tensor_size <$> kv_cache_tensors k) =
    if bool_decide (concat (layer_names <$> groups) = []) then 0 else b * (avail / b);
  fits_divides : ∀ t, t ∈ kv_cache_tensors k → ∃ p, tensor_size t = p * (avail / b);
  fits_need : need = b * n;
  fits_request : request_blocks gds c groups = Ok n
}.

Section layout.
Context (gds : dtype → Z) (c : VllmConfig).

Lemma as_uniform_type_Some groups names specs :
  as_uniform_type groups = Some (names, specs) →
  ∃ bs, groups = [mkGroup names (UniformTypeKVCacheSpecs bs specs)].
Proof.
  destruct groups as [|[ns []] []]; simpl; try done. intros. simplify_eq. eauto.
Qed.

Lemma py_max_const (l : list Z) a : l ≠ [] → (∀ x, x ∈ l → x = a) → py_max l = Ok a.
Proof.
  intros Hne Ha. destruct l as [|x l]; [done|]. destruct (py_max (x :: l)) as [m|] eqn:E; [|done].
  f_equal. apply Ha. by apply py_max_ok in E as [? _].
Qed.

Lemma cdiv_exact n p : 0 < p → cdiv (n * p) p = n.
Proof. intros Hp. rewrite Z.mul_comm. by apply cdiv_mul. Qed.

(** The page size of a well-formed layer. *)
Definition page_of (l : LayerSpec) : Z :=
  match layer_page_size_bytes gds l with Ok p => p | Err _ => 0 end.

Lemma page_of_ok l : layer_wf gds l → layer_page_size_bytes gds l = Ok (page_of l) ∧ 0 < page_of l.
Proof. intros (_ & p & Hp & ?). unfold page_of. by rewrite Hp. Qed.

Lemma pages_ok (specs : layer_specs) :
  Forall (layer_wf gds) specs.*2 →
  ∀ p : string * LayerSpec, p ∈ specs → layer_page_size_bytes gds p.2 = Ok (page_of p.2) ∧ 0 < page_of p.2.
Proof.
  intros Hwf p Hp. apply page_of_ok. rewrite Forall_forall in Hwf.
  apply Hwf, list_elem_of_fmap. eauto.
Qed.

Lemma uniform_page_size bs specs :
  Forall (layer_wf gds) specs.*2 →
  page_size_bytes gds (UniformTypeKVCacheSpecs bs specs) = Ok (sumZ (page_of <$> specs.*2)).
Proof.
  intros Hwf. simpl. rewrite (map_res_fmap _ (λ p, page_of p.2)) by (intros; by apply (pages_ok specs)).
  simpl. by rewrite <-list_fmap_compose.
Qed.

Lemma sum_pages_pos (specs : layer_specs) :
  specs ≠ [] → Forall (layer_wf gds) specs.*2 → 0 < sumZ (page_of <$> specs.*2).
Proof.
  intros Hne Hwf. assert (∀ ls, Forall (layer_wf gds) ls → 0 ≤ sumZ (page_of <$> ls)) as Hnn.
  { intros ls. induction 1 as [|l ls Hl _ IH]; [done|]. apply page_of_ok in Hl as [_ ?].
    rewrite fmap_cons. simpl. lia. }
  destruct specs as [|[m l] specs]; [done|]. rewrite fmap_cons in *. cbn [snd] in *.
  apply Forall_cons in Hwf as [Hl Hwf]. apply page_of_ok in Hl as [_ ?]. specialize (Hnn _ Hwf).
  rewrite fmap_cons. simpl. lia.
Qed.

(** A request of maximal length needs the same number of pages in each layer. *)
Lemma uniform_usage (specs : layer_specs) m :
  same_pages specs → specs ≠ [] → Forall (layer_wf gds) specs.*2 →
  max_memory_usage_bytes gds c specs.*2 = Ok m →
  ∃ n, m = sumZ (page_of <$> specs.*2) * n ∧
    ∀ p, p ∈ specs → layer_max_memory_usage_bytes gds c p.2 = Ok (n * page_of p.2).
Proof.
  intros Hu Hne Hwf Hm. assert (∃ n, ∀ l, l ∈ specs.*2 → layer_pages c l = n) as [n Hn].
  { destruct specs as [|[m0 l0] specs]; [done|]. exists (layer_pages c l0). intros l Hl. apply Hu; [done|left]. }
  unfold max_memory_usage_bytes in Hm. apply res_bind_ok in Hm as (ms & Hms & [= <-]).
  assert (∀ l, l ∈ specs.*2 → layer_max_memory_usage_bytes gds c l = Ok (n * page_of l)) as Hmax.
  { intros l Hl. destruct (map_res_elem _ _ _ _ Hms Hl) as (m & _ & Hm). rewrite Hm.
    rewrite Forall_forall in Hwf. destruct (page_of_ok _ (Hwf l Hl)) as [Hp _].
    by rewrite (layer_max_pages gds c l m _ Hm Hp), (Hn l Hl). }
  exists n. split; [|intros p Hp; apply Hmax, list_elem_of_fmap; eauto].
  rewrite (map_res_fmap _ _ _ Hmax) in Hms. apply Ok_inj in Hms as <-.
  rewrite Z.mul_comm. by apply sumZ_mul.
Qed.

(** One tensor per layer of the worker. *)
Lemma uniform_tensors (specs : layer_specs) nb ns :
  NoDup specs.*1 → Forall (layer_wf gds) specs.*2 → specs ≠ [] → ns = specs.*1 ∨ ns = [] →
  ∃ ts,
    map_res (λ n, match dict_get specs n with
      | Some l => lp ← layer_page_size_bytes gds l; Ok (mkTensor (lp * nb) [n])
      | None => Err KeyError end) ns = Ok ts ∧
    concat (shared_by <$> ts) = ns ∧
    sumZ (tensor_size <$> ts) =
      (if bool_decide (ns = []) then 0 else sumZ (page_of <$> specs.*2) * nb) ∧
    ∀ t, t ∈ ts → ∃ p, tensor_size t = p * nb.
Proof.
  intros Hnd Hwf Hne [->| ->]; [|exists []; split_and!; [done..|by intros ? ?%elem_of_nil]].
  exists ((λ p, mkTensor (page_of p.2 * nb) [p.1]) <$> specs).
  rewrite bool_decide_eq_false_2 by (by destruct specs). split_and!.
  - assert (∀ l, l ⊆ specs → map_res (λ n, match dict_get specs n with
      | Some l => lp ← layer_page_size_bytes gds l; Ok (mkTensor (lp * nb) [n])
      | None => Err KeyError end) l.*1 =
      Ok ((λ p, mkTensor (page_of p.2 * nb) [p.1]) <$> l)) as H; [|by apply H].
    induction l as [|[m l] r IH]; intros Hsub; [done|]. rewrite !fmap_cons. cbn [map_res fst snd].
    assert ((m, l) ∈ specs) as Hin by (apply Hsub; left).
    rewrite (dict_get_elem specs m l) by done. destruct (pages_ok _ Hwf _ Hin) as [Ep _]. cbn [snd] in Ep. rewrite Ep.
    cbn [mbind res_bind snd]. rewrite IH; [done|]. intros x Hx. apply Hsub. by right.
  - clear. induction specs as [|p specs IH]; [done|]. rewrite !fmap_cons, concat_cons, IH. done.
  - rewrite <-!list_fmap_compose, Z.mul_comm. apply sumZ_mul. intros; simpl; lia.
  - intros t (p & -> & _)%list_elem_of_fmap. simpl. eauto.
Qed.

Lemma config_uniform_type names specs bs avail need :
  let groups := [mkGroup names (UniformTypeKVCacheSpecs bs specs)] in
  groups_wf gds groups → num_gpu_blocks_override c = None →
  _max_memory_usage_bytes_from_groups gds c groups = Ok need →
  ∃ k b n, get_kv_cache_config_from_groups gds c groups avail = Ok k ∧
    config_fits gds c groups avail need b n k.
Proof.
  intros groups (Hnames & Hnd & Hne & Hu & Hwf) Hov Hneed. cbn [layer_names] in Hnames.
  destruct (uniform_usage specs need Hu Hne Hwf Hneed) as (n & -> & Hmax).
  pose proof (sum_pages_pos specs Hne Hwf) as Hb. pose proof (uniform_page_size bs specs Hwf) as Hpage.
  set (b := sumZ (page_of <$> specs.*2)) in *. set (nb := avail / b).
  destruct (uniform_tensors specs nb names Hnd Hwf Hne Hnames) as (ts & Ets & Hsh & Hsz & Hdiv).
  exists (mkKVConfig nb ts groups), b, n. split.
  - unfold groups, get_kv_cache_config_from_groups. cbn [as_uniform_type kv_cache_spec layer_names].
    rewrite Hpage. cbn [mbind res_bind]. unfold py_div. rewrite bool_decide_eq_false_2 by lia.
    cbn [mbind res_bind]. unfold may_override_num_blocks. rewrite Hov. cbn [default]. fold nb.
    by rewrite Ets.
  - split; try done.
    + simpl. by rewrite Hsh, app_nil_r.
    + simpl. by rewrite Hsz, app_nil_r.
    + unfold request_blocks, groups. cbn [map_res kv_cache_spec]. rewrite Hpage.
      unfold spec_max_memory_usage_bytes. rewrite Hpage.
      rewrite (map_res_fmap _ (λ _, n)).
      2:{ intros p Hp. destruct (pages_ok _ Hwf _ Hp) as [Ep Hpos].
          rewrite (Hmax _ Hp). cbn [mbind res_bind]. rewrite Ep. cbn [mbind res_bind].
          by rewrite cdiv_exact. }
      cbn [mbind res_bind]. rewrite (py_max_const _ n).
      * cbn [mbind res_bind]. rewrite cdiv_exact by done. cbn. f_equal. lia.
      * by destruct specs.
      * by intros ? (? & -> & _)%list_elem_of_fmap.
Qed.

Lemma map_res_ext_in {A B} (f g : A → res B) l : (∀ x, x ∈ l → f x = g x) → map_res f l = map_res g l.
Proof.
  induction l as [|x l IH]; intros H; [done|]. simpl. rewrite (H x) by left.
  by rewrite IH by (intros; apply H; by right).
Qed.

Lemma uniform_page (specs : list KVCacheSpec) p :
  specs ≠ [] → (∀ s, s ∈ specs → page_size_bytes gds s = Ok p) →
  get_uniform_page_size gds specs = Ok p.
Proof.
  intros Hne Hp. unfold get_uniform_page_size. rewrite (map_res_fmap _ (λ _, p)) by done. simpl.
  rewrite (distinct_const _ p); [done|by destruct specs|]. by intros ? (? & -> & _)%list_elem_of_fmap.
Qed.

Lemma group_size_spec groups g :
  g ∈ groups → layer_names g ≠ [] →
  ∃ gs, py_max ((λ g, Z.of_nat (length (layer_names g))) <$> groups) = Ok gs ∧ 0 < gs ∧
    ∀ g, g ∈ groups → (length (layer_names g) ≤ Z.to_nat gs)%nat.
Proof.
  intros Hg Hne. set (ls := _ <$> groups).
  destruct (py_max ls) as [gs|e] eqn:E.
  2:{ unfold ls in E. destruct groups; [by apply elem_of_nil in Hg|done]. }
  destruct (py_max_ok _ _ E) as [_ Hmax]. exists gs.
  assert (∀ g, g ∈ groups → Z.of_nat (length (layer_names g)) ≤ gs) as H.
  { intros g' Hg'. apply Hmax, list_elem_of_fmap. eauto. }
  split; [done|]. pose proof (H g Hg). destruct (layer_names g); [done|]. simpl in *.
  split; [lia|]. intros g' Hg'. specialize (H g' Hg'). lia.
Qed.

Lemma config_general groups avail need :
  as_uniform_type groups = None → groups_wf gds groups → num_gpu_blocks_override c = None →
  0 ≤ avail → _max_memory_usage_bytes_from_groups gds c groups = Ok need →
  ∃ k b n, get_kv_cache_config_from_groups gds c groups avail = Ok k ∧
    config_fits gds c groups avail need b n k.
Proof.
  intros Hu Hwf Hov Hav Hneed. unfold groups_wf in Hwf. rewrite Hu in Hwf.
  destruct Hwf as ((g & Hg & Hgn) & p & Hp & Hpage).
  destruct (group_size_spec groups g Hg Hgn) as (gs & Hgs & Hpos & Hle).
  assert (get_uniform_page_size gds (kv_cache_spec <$> groups) = Ok p) as Hup.
  { apply uniform_page; [by destruct groups; [apply elem_of_nil in Hg|]|].
    intros s (g' & -> & Hg')%list_elem_of_fmap. by apply Hpage. }
  set (f := λ g, m ← spec_max_memory_usage_bytes gds c (kv_cache_spec g);
                     Ok (cdiv m p)).
  assert (_max_memory_usage_bytes_from_groups gds c groups =
    (bs ← map_res f groups; Ok (gs * p * sumZ bs))) as Hn.
  { unfold _max_memory_usage_bytes_from_groups. rewrite Hu, Hgs. cbn [mbind res_bind]. rewrite Hup.
    by destruct groups; [apply elem_of_nil in Hg|]. }
  rewrite Hn in Hneed. apply res_bind_ok in Hneed as (bs & Hbs & [= <-]).
  set (nb := avail / (gs * p)).
  assert (avail / p / gs = nb) as Hdiv by (unfold nb; rewrite Z.div_div by lia; f_equal; lia).
  assert (0 ≤ nb) by (apply Z.div_pos; nia).
  set (ts := (λ i, mkTensor (p * nb) (shared_by_pool groups i)) <$> seq 0 (Z.to_nat gs)).
  exists (mkKVConfig nb ts groups), (gs * p), (sumZ bs). split.
  - unfold get_kv_cache_config_from_groups. rewrite Hu, Hgs. cbn [mbind res_bind]. rewrite Hup.
    cbn [mbind res_bind]. unfold get_num_blocks, py_div, may_override_num_blocks.
    rewrite (bool_decide_eq_false_2 (p = 0)) by lia. cbn [mbind res_bind].
    rewrite (bool_decide_eq_false_2 (gs = 0)) by lia. cbn [mbind res_bind]. rewrite Hov. cbn [default].
    rewrite Hdiv, Z.max_l by lia. rewrite (proj2 (Z.leb_gt gs 0)) by lia.
    by destruct groups; [apply elem_of_nil in Hg|].
  - assert (concat (layer_names <$> groups) ≠ []) as Hne.
    { destruct (layer_names g) as [|m ns] eqn:Em; [done|]. intros E.
      apply (not_elem_of_nil m). rewrite <-E. apply elem_of_concat. exists (layer_names g).
      rewrite Em at 2. split; [|left]. by apply list_elem_of_fmap_2. }
    split; [nia|done|done| | | |done|].
    + cbn [kv_cache_tensors]. unfold ts. rewrite <-list_fmap_compose. by apply shared_by_pools_perm.
    + rewrite bool_decide_eq_false_2 by done. cbn [kv_cache_tensors]. unfold ts.
      rewrite <-list_fmap_compose. fold nb. clear - Hpos.
      transitivity (p * nb * Z.of_nat (Z.to_nat gs)); [|lia].
      rewrite <-(length_seq (Z.to_nat gs) 0) at 2. induction (seq _ _) as [|i l IH]; [simpl; lia|].
      rewrite fmap_cons. cbn [sumZ length compose tensor_size]. rewrite IH. lia.
    + intros t (i & -> & _)%list_elem_of_fmap. exists p. done.
    + unfold request_blocks. rewrite (map_res_ext_in _ f); [by rewrite Hbs|].
      intros g' Hg'. unfold f. by rewrite (Hpage g' Hg').
Qed.

(** Both layouts. *)
Lemma config_from_groups_fits groups avail need :
  groups_wf gds groups → num_gpu_blocks_override c = None → 0 ≤ avail →
  _max_memory_usage_bytes_from_groups gds c groups = Ok need →
  ∃ k b n, get_kv_cache_config_from_groups gds c groups avail = Ok k ∧
    config_fits gds c groups avail need b n k.
Proof.
  intros Hwf Hov Hav Hneed. destruct (as_uniform_type groups) as [[names specs]|] eqn:Hu.
  - destruct (as_uniform_type_Some _ _ _ Hu) as [bs ->]. by apply config_uniform_type.
  - by apply config_general.
Qed.

Lemma fits_enough groups avail need b n k :
  config_fits gds c groups avail need b n k → need ≤ avail ↔ n ≤ num_blocks k.
Proof.
  intros [Hb _ -> _ _ _ -> _]. split; intros H; [by apply Z.div_le_lower_bound|].
  pose proof (Z.mul_div_le avail b Hb). nia.
Qed.
End layout.

(** The KV cache configuration of a worker: it always exists, its blocks
    and tensors are as many as fit into the available memory and not one more,
    every layer is backed by exactly one tensor, and the memory check that
    precedes it succeeds exactly when the blocks of one request of maximal length
    are at most the blocks of the configuration. *)
Theorem get_kv_cache_config_from_groups_correct gds c groups avail need :
  groups_wf gds groups → concat (layer_names <$> groups) ≠ [] →
  num_gpu_blocks_override c = None → 0 ≤ avail →
  _max_memory_usage_bytes_from_groups gds c groups = Ok need →
  ∃ k n b, get_kv_cache_config_from_groups gds c groups avail = Ok k ∧
    kv_cache_groups k = groups ∧
    concat (shared_by <$> kv_cache_tensors k) ≡ₚ concat (layer_names <$> groups) ∧
    sumZ (tensor_size <$> kv_cache_tensors k) = b * num_blocks k ∧
    b * num_blocks k ≤ avail < b * (num_blocks k + 1) ∧
    request_blocks gds c groups = Ok n ∧ (need ≤ avail ↔ n ≤ num_blocks k).
Proof.
  intros Hwf Hne Hov Hav Hneed.
  destruct (config_from_groups_fits gds c groups avail need Hwf Hov Hav Hneed) as (k & b & n & Hk & Hfit).
  exists k, n, b. pose proof (fits_enough _ _ _ _ _ _ _ _ Hfit). destruct Hfit as [Hb Hg Hnb Hc Hs Hd Hn Hr].
  rewrite bool_decide_eq_false_2 in Hs by done. split_and!; try done; rewrite Hnb.
  - done.
  - pose proof (Z.div_mod avail b ltac:(lia)). pose proof (Z.mod_pos_bound avail b Hb). lia.
  - pose proof (Z.div_mod avail b ltac:(lia)). pose proof (Z.mod_pos_bound avail b Hb). lia.
Qed.

(** ** The groups of all workers *)

Lemma uniform_type_same_pages specs :
  is_uniform_type specs = Ok true → specs ≠ [] ∧ same_pages specs.
Proof.
  intros H. split; [by destruct (uniform_type_pages (mkVllmConfig 0 0 0 0 0 0 "" None false) _ H) as (_ & ? & _)|].
  intros c l l' Hl Hl'. destruct (uniform_type_pages c _ H) as (n & _ & Hn). by rewrite !Hn.
Qed.

Section groups.
Context (gds : dtype → Z).
Abbreviation layer_page l := (layer_page_size_bytes gds l).

(** A merged spec has the page size of the first spec. *)
Lemma merge_page ls m : merge ls = Ok m → ∃ l, l ∈ ls ∧ layer_page m = layer_page l.
Proof.
  destruct ls as [|l ls]; [done|]. intros H. exists l. split; [left|].
  assert (∀ build, (∀ w ch, layer_page (build w ch) = layer_page l) →
    merge_full build (l :: ls) = Ok m → layer_page m = layer_page l) as Hfull.
  { intros build Hb. unfold merge_full. repeat case_match; try done.
    intros (w & _ & (ch & _ & Hm)%res_bind_ok)%res_bind_ok. repeat case_match; try done.
    apply Ok_inj in Hm as <-. apply Hb. }
  destruct l; cbn [merge] in H; try (revert H; by apply Hfull);
    try (destruct (forallb _ _); by apply Ok_inj in H as <- || done).
  unfold merge_mla in H. destruct (negb _); [done|].
  destruct (distinct _) as [|d [|? ?]] eqn:E; [done| |done]. apply Ok_inj in H as <-.
  assert (cache_dtype_str = d) as ->; [|done].
  pose proof (proj2 (distinct_elem (cache_dtype_of <$> MLAAttentionSpec a head_size_v sliding_window
    attention_chunk_size cache_dtype_str :: ls) cache_dtype_str) ltac:(rewrite fmap_cons; left)) as Hin.
  rewrite E in Hin. by apply list_elem_of_singleton in Hin.
Qed.

Lemma create_groups_names specs gss groups :
  create_kv_cache_group_specs specs gss = Ok groups →
  layer_names <$> groups = gss ∧
  ∀ g, g ∈ groups → ∃ m l n, kv_cache_spec g = Layer m ∧ (n, l) ∈ specs ∧ layer_page m = layer_page l.
Proof.
  unfold create_kv_cache_group_specs. intros H. apply map_res_ok in H. split.
  - induction H as [|ns g gss groups Hg _ IH]; [done|]. rewrite fmap_cons, IH. f_equal.
    apply res_bind_ok in Hg as (ls & _ & (m & _ & [= <-])%res_bind_ok). done.
  - intros g Hg. apply list_elem_of_lookup in Hg as [i Hi].
    destruct (Forall2_lookup_r _ _ _ _ _ H Hi) as (ns & _ & (ls & Hls & (m & Hm & [= <-])%res_bind_ok)%res_bind_ok).
    destruct (merge_page _ _ Hm) as (l & Hl & Hp). apply map_res_ok in Hls.
    apply list_elem_of_lookup in Hl as [j Hj].
    destruct (Forall2_lookup_r _ _ _ _ _ Hls Hj) as (n & _ & Hn).
    exists m, l, n. split_and!; [done| |done]. destruct (dict_get specs n) eqn:E; [|done].
    apply Ok_inj in Hn as ->. by apply dict_get_Some.
Qed.

(** *** Equal pages *)

Lemma unify_layer_page mx l l' : unify_layer gds mx l = Ok l' → layer_page l' = Ok mx.
Proof.
  unfold unify_layer. intros (p & Hp & H)%res_bind_ok. case_bool_decide; [naive_solver|].
  apply res_bind_ok in H as (r & _ & H). destruct (negb _); [done|].
  apply res_bind_ok in H as (p' & Hp' & H). case_bool_decide; naive_solver.
Qed.

Lemma unify_pages specs specs' :
  unify_kv_cache_spec_page_size gds specs = Ok specs' → specs ≠ [] → Forall (layer_wf gds) specs.*2 →
  specs'.*1 = specs.*1 ∧ ∃ p, 0 < p ∧ ∀ n l, (n, l) ∈ specs' → layer_page l = Ok p.
Proof.
  unfold unify_kv_cache_spec_page_size. intros (ps & Hps & H)%res_bind_ok Hne Hwf.
  assert (∀ q, q ∈ ps → 0 < q) as Hpos.
  { intros q [i Hi]%list_elem_of_lookup. apply map_res_ok in Hps.
    destruct (Forall2_lookup_r _ _ _ _ _ Hps Hi) as (x & Hx & Hq).
    apply list_elem_of_lookup_2 in Hx. destruct (pages_ok gds specs Hwf x Hx) as [E Hpos].
    rewrite E in Hq. by apply Ok_inj in Hq as <-. }
  case_bool_decide as Hd.
  - apply Ok_inj in H as <-. split; [done|].
    assert (∃ p, p ∈ ps ∧ ∀ q, q ∈ ps → q = p) as (p & Hin & Hp).
    { destruct ps as [|p ps]; [by apply map_res_ok, Forall2_nil_inv_r in Hps|].
      exists p. split; [left|]. intros q Hq%distinct_elem.
      pose proof (proj2 (distinct_elem (p :: ps) p) ltac:(left)) as Hp.
      destruct (distinct _) as [|a [|]]; simpl in Hd; [by apply elem_of_nil in Hq| |lia].
      apply list_elem_of_singleton in Hq, Hp. congruence. }
    exists p. split; [auto|]. intros n l Hnl. destruct (map_res_elem _ _ _ _ Hps Hnl) as (q & Hq & E).
    simpl in E. by rewrite E, (Hp q Hq).
  - apply res_bind_ok in H as (mx & Hmx & H). apply map_res_ok in H. split.
    + clear - H. induction H as [|[n l] [n' l'] specs specs' Hl _ IH]; [done|]. rewrite !fmap_cons, IH.
      apply res_bind_ok in Hl as (? & _ & [= ? ?]). by subst.
    + apply py_max_ok in Hmx as [Hmx _]. exists mx. split; [auto|].
      intros n l [i Hi]%list_elem_of_lookup.
      destruct (Forall2_lookup_r _ _ _ _ _ H Hi) as (x & _ & (l0 & Hl & [= _ <-])%res_bind_ok).
      by eapply unify_layer_page.
Qed.

Lemma to_full_page l : layer_page (to_full l) = layer_page l.
Proof.
  destruct l; try done; unfold layer_page_size_bytes; simpl; repeat case_match; try done;
    repeat (f_equal; try lia).
Qed.

Lemma to_full_block_size l : layer_block_size (to_full l) = layer_block_size l.
Proof. by destruct l. Qed.

Lemma unify_hybrid_spec specs specs' :
  unify_hybrid_kv_cache_specs specs = Ok specs' → Forall (layer_wf gds) specs.*2 →
  specs'.*1 = specs.*1 ∧ Forall (layer_wf gds) specs'.*2.
Proof.
  unfold unify_hybrid_kv_cache_specs. intros (u & _ & H)%res_bind_ok Hwf.
  destruct u; [by apply Ok_inj in H as <-|]. apply res_bind_ok in H as (u' & _ & H).
  destruct u'; [|done]. apply Ok_inj in H as <-. destruct (_ && _); [|done].
  rewrite <-!list_fmap_compose. split; [done|]. rewrite Forall_fmap in Hwf |- *.
  eapply Forall_impl; [exact Hwf|]. intros [n l] [Hb (p & Hp & ?)]. simpl in *.
  split; [by rewrite to_full_block_size|]. exists p. by rewrite to_full_page.
Qed.

(** *** The shape of the groups *)

(** One group of layers of one type, or groups with pages of one size. *)
Definition groups_shape (groups : list KVCacheGroupSpec) : Prop :=
  match as_uniform_type groups with
  | Some (names, specs) =>
      names = specs.*1 ∧ NoDup specs.*1 ∧ specs ≠ [] ∧ same_pages specs ∧
      Forall (layer_wf gds) specs.*2
  | None => ∃ p, 0 < p ∧ ∀ g, g ∈ groups → ∃ m, kv_cache_spec g = Layer m ∧ layer_page m = Ok p
  end.

Lemma layers_not_uniform_type groups :
  (∀ g, g ∈ groups → ∃ m, kv_cache_spec g = Layer m) → as_uniform_type groups = None.
Proof.
  intros H. destruct groups as [|g [|]]; [done| |done]. destruct (H g ltac:(left)) as [m Hm].
  unfold as_uniform_type. by rewrite Hm.
Qed.

Lemma uniform_page_size_groups_cover (specs : layer_specs) groups :
  _get_kv_cache_groups_uniform_page_size specs = Ok groups → specs ≠ [] →
  concat (layer_names <$> groups) ≡ₚ specs.*1.
Proof.
  unfold _get_kv_cache_groups_uniform_page_size. intros (gs & Hgs & H)%res_bind_ok Hne.
  destruct (same_type_layers_spec specs) as (_ & Hperm & Hin). set (d := same_type_layers specs) in *.
  assert (∀ ns, ns ∈ d.*2 → ns ≠ []) as Hd.
  { intros ns ([l ?] & -> & [? _]%Hin)%list_elem_of_fmap. done. }
  destruct (choose_group_size_spec ((λ ns, Z.of_nat (length ns)) <$> d.*2))
    as (lo & hi & gs' & _ & _ & Hgs' & _ & Hpos).
  { destruct d; [|done]. apply Permutation_nil in Hperm. by destruct specs. }
  { rewrite Forall_fmap. apply Forall_forall. intros ns Hns%Hd. destruct ns; simpl; [done|lia]. }
  rewrite Hgs in Hgs'. apply Ok_inj in Hgs' as <-.
  destruct (create_groups_names _ _ _ H) as [-> _].
  rewrite <-Hperm. apply concat_fmap_perm. intros ns Hnn%Hd. by apply split_layers_spec.
Qed.

Lemma get_kv_cache_groups_shape c specs groups :
  get_kv_cache_groups gds c specs = Ok groups → NoDup specs.*1 → Forall (layer_wf gds) specs.*2 →
  concat (layer_names <$> groups) ≡ₚ specs.*1 ∧ groups_shape groups.
Proof.
  unfold get_kv_cache_groups. intros (specs' & Hs & H)%res_bind_ok Hnd Hwf.
  assert (specs'.*1 = specs.*1 ∧ Forall (layer_wf gds) specs'.*2) as [Hk Hwf'].
  { destruct (disable_hybrid_kv_cache_manager c); [by apply unify_hybrid_spec|]. by apply Ok_inj in Hs as <-. }
  rewrite <-Hk in Hnd |- *. clear specs Hs Hk Hwf. rename specs' into specs, Hwf' into Hwf.
  case_bool_decide as Hne.
  { apply Ok_inj in H as <-. subst. split; [done|]. exists 1. split; [done|].
    by intros ? ?%elem_of_nil. }
  apply res_bind_ok in H as (u & _ & H). destruct u.
  { apply create_groups_names in H as [Hn Hl].
    destruct groups as [|g [|]]; [done| |done]. injection Hn as Hn. split; [simpl; by rewrite app_nil_r, Hn|].
    unfold groups_shape. destruct (Hl g ltac:(left)) as (m & l & n & Hm & Hin & Hp).
    rewrite layers_not_uniform_type by (intros ? ->%list_elem_of_singleton; eauto).
    rewrite Forall_forall in Hwf. destruct (Hwf l) as (_ & p & Hlp & Hpos).
    { apply list_elem_of_fmap. by exists (n, l). }
    exists p. split; [done|]. intros ? ->%list_elem_of_singleton. exists m. by rewrite Hp. }
  apply res_bind_ok in H as (us & Hus & H).
  assert ((∃ bs, us = Some (UniformTypeKVCacheSpecs bs specs) ∧ is_uniform_type specs = Ok true) ∨
    us = None) as Hcase.
  { unfold from_specs in Hus. apply res_bind_ok in Hus as (u & Hu & Hus).
    destruct u; [|by apply Ok_inj in Hus as <-; right].
    destruct specs as [|[n l] specs]; [done|]. apply Ok_inj in Hus as <-. left. eauto. }
  destruct Hcase as [(bs & -> & Hu)| ->].
  { apply Ok_inj in H as <-. split; [simpl; by rewrite app_nil_r|].
    destruct (uniform_type_same_pages _ Hu). by split_and!. }
  apply res_bind_ok in H as (specs' & Hs' & H). destruct (unify_pages _ _ Hs' Hne Hwf) as (Hk & p & Hpos & Hp).
  assert (specs' ≠ []) as Hne' by (intros ->; by destruct specs). rewrite <-Hk.
  split; [by apply uniform_page_size_groups_cover|].
  unfold _get_kv_cache_groups_uniform_page_size in H. apply res_bind_ok in H as (gs & _ & H).
  apply create_groups_names in H as [_ Hl]. unfold groups_shape.
  rewrite layers_not_uniform_type by (intros g Hg; destruct (Hl g Hg) as (? & ? & ? & ? & _); eauto).
  exists p. split; [done|]. intros g Hg. destruct (Hl g Hg) as (m & l & n & Hm & Hin & E).
  exists m. by rewrite E, (Hp n l Hin).
Qed.


(** *** Workers *)

Lemma merge_worker_specs_spec (ws : list layer_specs) d :
  merge_worker_specs ws = Ok d → NoDup d.*1 ∧ ∀ p, p ∈ d ↔ ∃ w, w ∈ ws ∧ p ∈ w.
Proof.
  unfold merge_worker_specs. setoid_rewrite <-elem_of_concat. generalize (concat ws) as l. clear ws.
  intros l. revert d. induction l as [|[n s] l IH] using rev_ind; intros d.
  { intros [= <-]. split; [constructor|done]. }
  rewrite foldl_app. cbn [foldl]. intros (d0 & Hd & H)%res_bind_ok.
  destruct (IH d0 Hd) as [Hnd Hiff]. cbn [fst snd] in H. destruct (dict_get d0 n) as [s'|] eqn:E.
  - case_bool_decide as Hs; [|done]. apply Ok_inj in H as <-. subst s'. split; [done|].
    intros p. rewrite elem_of_app, list_elem_of_singleton, <-Hiff. split; [by left|].
    intros [?| ->]; [done|]. by apply dict_get_Some.
  - apply Ok_inj in H as <-. split.
    + rewrite fmap_app. apply NoDup_app. split_and!; [done| |apply NoDup_singleton].
      intros m Hm ->%list_elem_of_singleton. by apply dict_get_None in E.
    + intros p. by rewrite !elem_of_app, Hiff.
Qed.

(** The part of [names] on a worker. *)
Abbreviation on_worker w := (filter (λ n, is_Some (dict_get (w : layer_specs) n))).

Definition projected_spec (w : layer_specs) (g g' : KVCacheGroupSpec) : Prop :=
  layer_names g' = on_worker w (layer_names g) ∧
  match kv_cache_spec g with
  | Layer _ => kv_cache_spec g' = kv_cache_spec g
  | UniformTypeKVCacheSpecs bs specs => ∃ sp, kv_cache_spec g' = UniformTypeKVCacheSpecs bs sp ∧
      (sp = specs ∧ layer_names g' = [] ∨ sp.*1 = layer_names g' ∧ sp ⊆ specs ∧ sp ≠ [])
  end.

Lemma project_spec groups w gw :
  _project_kv_cache_groups_to_worker groups w = Ok gw → Forall2 (projected_spec w) groups gw.
Proof.
  intros H. apply map_res_ok in H. eapply Forall2_impl; [exact H|]. clear H. intros g g' H. cbn beta zeta in H.
  destruct (kv_cache_spec g) as [l|bs specs] eqn:E; unfold projected_spec; rewrite E.
  { by apply Ok_inj in H as <-. }
  destruct (on_worker w (layer_names g)) as [|n ns] eqn:En.
  { apply Ok_inj in H as <-. split; [done|]. exists specs. auto. }
  apply res_bind_ok in H as (sp & Hsp & [= <-]). split; [done|]. exists sp. split; [done|]. right.
  apply map_res_ok in Hsp. simpl layer_names. split_and!; [| |by destruct sp; [apply Forall2_nil_inv_r in Hsp|]].
  - clear En. induction Hsp as [|m p ms sp Hm _ IH]; [done|]. rewrite fmap_cons, IH. f_equal.
    destruct (dict_get specs m); [|done]. by apply Ok_inj in Hm as <-.
  - intros p [i Hi]%list_elem_of_lookup. destruct (Forall2_lookup_r _ _ _ _ _ Hsp Hi) as (m & _ & Hm).
    destruct (dict_get specs m) eqn:Ed; [|done]. apply Ok_inj in Hm as <-. by apply dict_get_Some.
Qed.

Lemma filter_concat {A} (P : A → Prop) `{∀ x, Decision (P x)} (ls : list (list A)) :
  filter P (concat ls) = concat (filter P <$> ls).
Proof. induction ls as [|l ls IH]; [done|]. by rewrite fmap_cons, !concat_cons, filter_app, IH. Qed.

(** The layers of a worker's groups are its layers. *)
Lemma project_cover groups w gw (keys : list string) :
  Forall2 (projected_spec w) groups gw → concat (layer_names <$> groups) ≡ₚ keys →
  NoDup keys → NoDup w.*1 → w.*1 ⊆ keys → concat (layer_names <$> gw) ≡ₚ w.*1.
Proof.
  intros H Hperm Hk Hw Hsub.
  assert (layer_names <$> gw = on_worker w <$> (layer_names <$> groups)) as ->.
  { clear - H. induction H as [|g g' groups gw [Hg _] _ IH]; [done|]. by rewrite !fmap_cons, IH, Hg. }
  rewrite <-filter_concat. apply NoDup_Permutation.
  - apply NoDup_filter. by rewrite Hperm.
  - done.
  - intros n. rewrite list_elem_of_filter, Hperm. split.
    + intros [[l Hl] _]. apply dict_get_Some in Hl. apply list_elem_of_fmap. by exists (n, l).
    + intros Hn. split; [|auto]. destruct (dict_get w n) eqn:E; [done|]. by apply dict_get_None in E.
Qed.

Lemma project_wf groups w gw :
  Forall2 (projected_spec w) groups gw → groups_shape groups →
  (as_uniform_type gw = None → concat (layer_names <$> gw) ≠ []) → groups_wf gds gw.
Proof.
  intros H Hshape Hne. unfold groups_shape in Hshape.
  destruct (as_uniform_type groups) as [[names specs]|] eqn:Hu.
  - destruct (as_uniform_type_Some _ _ _ Hu) as [bs ->]. destruct Hshape as (-> & Hnd & Hsp & Hsame & Hwf).
    apply Forall2_cons_inv_l in H as ([ns s] & gw' & [Hn (sp & Hs & Hcase)] & ->%Forall2_nil_inv_l & ->).
    simpl in *. subst s. destruct Hcase as [[-> ->]|(Hk & Hsub & Hsp')]; unfold groups_wf; simpl.
    { split_and!; try done. by right. }
    assert (sp.*2 ⊆ specs.*2) as Hsub2.
    { intros l (p & -> & Hp)%list_elem_of_fmap. apply list_elem_of_fmap. eauto. }
    split_and!; [by left| |done| |].
    + rewrite Hk, Hn. by apply NoDup_filter.
    + intros c l l' Hl%Hsub2 Hl'%Hsub2. by apply Hsame.
    + rewrite Forall_forall in Hwf |- *. auto.
  - destruct Hshape as (p & Hp & Hpage).
    assert (∀ g', g' ∈ gw → ∃ m, kv_cache_spec g' = Layer m ∧ layer_page m = Ok p) as Hpage'.
    { intros g' [i Hi]%list_elem_of_lookup. destruct (Forall2_lookup_r _ _ _ _ _ H Hi) as (g & Hg & [_ Hs]).
      apply list_elem_of_lookup_2, Hpage in Hg as (m & Hm & ?). rewrite Hm in Hs. eauto. }
    assert (as_uniform_type gw = None) as Hu'.
    { apply layers_not_uniform_type. intros g' Hg'. destruct (Hpage' g' Hg') as (? & ? & _). eauto. }
    specialize (Hne Hu'). unfold groups_wf. rewrite Hu'. split.
    + destruct (concat _) as [|n ns] eqn:E; [done|]. assert (n ∈ concat (layer_names <$> gw)) as Hin by (rewrite E; left).
      apply elem_of_concat in Hin as (? & (g & -> & Hg)%list_elem_of_fmap & Hn). exists g. split; [done|].
      intros En. rewrite En in Hn. by apply elem_of_nil in Hn.
    + exists p. split; [done|]. intros g' Hg'. destruct (Hpage' g' Hg') as (m & -> & ?). done.
Qed.

(** Every worker needs the same number of blocks for a request. *)
Lemma request_blocks_uniform c names specs bs n :
  request_blocks gds c [mkGroup names (UniformTypeKVCacheSpecs bs specs)] = Ok n →
  specs ≠ [] → same_pages specs → Forall (layer_wf gds) specs.*2 →
  ∀ l, l ∈ specs.*2 → n = layer_pages c l.
Proof.
  unfold request_blocks. intros (ns & Hns & [= <-])%res_bind_ok Hne Hsame Hwf l Hl.
  cbn [map_res kv_cache_spec] in Hns. apply res_bind_ok in Hns as (x & Hx & [= <-]).
  unfold spec_max_memory_usage_bytes in Hx. rewrite !uniform_page_size in Hx by done.
  pose proof (sum_pages_pos gds specs Hne Hwf) as Hb.
  apply res_bind_ok in Hx as (m & Hm & Hx). cbn [mbind res_bind] in Hx. apply Ok_inj in Hx as <-.
  apply res_bind_ok in Hm as (pages & Hpages & Hm). apply res_bind_ok in Hm as (mx & Hmx & Hm).
  apply Ok_inj in Hm as <-. rewrite cdiv_exact by done. simpl. rewrite Z.add_0_r.
  apply py_max_ok in Hmx as [[i Hi]%list_elem_of_lookup _]. apply map_res_ok in Hpages.
  destruct (Forall2_lookup_r _ _ _ _ _ Hpages Hi) as (p & Hp & H). apply list_elem_of_lookup_2 in Hp.
  destruct (pages_ok gds specs Hwf p Hp) as [Ep Hpos].
  apply res_bind_ok in H as (m & Hm & H). rewrite Ep in H. apply Ok_inj in H as <-.
  rewrite (layer_max_pages gds c _ _ _ Hm Ep), cdiv_exact by done.
  apply Hsame; [|done]. apply list_elem_of_fmap. eauto.
Qed.

Lemma request_blocks_agree c groups w1 w2 g1 g2 n1 n2 :
  groups_shape groups → Forall2 (projected_spec w1) groups g1 → Forall2 (projected_spec w2) groups g2 →
  request_blocks gds c g1 = Ok n1 → request_blocks gds c g2 = Ok n2 → n1 = n2.
Proof.
  intros Hshape H1 H2 E1 E2. unfold groups_shape in Hshape.
  destruct (as_uniform_type groups) as [[names specs]|] eqn:Hu.
  - destruct (as_uniform_type_Some _ _ _ Hu) as [bs ->]. destruct Hshape as (-> & Hnd & Hsp & Hsame & Hwf).
    assert (∀ w g n, Forall2 (projected_spec w) [mkGroup specs.*1 (UniformTypeKVCacheSpecs bs specs)] g →
      request_blocks gds c g = Ok n → ∃ l, l ∈ specs.*2 ∧ n = layer_pages c l) as Hn.
    { clear - Hwf Hsame Hsp. intros w g n H E.
      apply Forall2_cons_inv_l in H as ([ns s] & gw' & [_ (sp & Hs & Hcase)] & ->%Forall2_nil_inv_l & ->).
      simpl in Hs. subst s.
      assert (sp ⊆ specs ∧ sp ≠ []) as [Hsub Hne] by naive_solver.
      assert (sp.*2 ⊆ specs.*2) as Hsub2.
      { intros l (p & -> & Hp)%list_elem_of_fmap. apply list_elem_of_fmap. eauto. }
      destruct sp as [|[m l] sp]; [done|]. assert (l ∈ ((m, l) :: sp).*2) as Hl by (rewrite fmap_cons; left).
      exists l. split; [by apply Hsub2|]. eapply request_blocks_uniform; [exact E|done| | |done].
      - intros c' l1 l2 H1%Hsub2 H2%Hsub2. by apply Hsame.
      - rewrite Forall_forall in Hwf |- *. auto. }
    destruct (Hn _ _ _ H1 E1) as (l1 & Hl1 & ->), (Hn _ _ _ H2 E2) as (l2 & Hl2 & ->). by apply Hsame.
  - destruct Hshape as (p & _ & Hpage).
    assert (∀ w g, Forall2 (projected_spec w) groups g → kv_cache_spec <$> g = kv_cache_spec <$> groups) as Hs.
    { clear - Hpage. intros w g H. induction H as [|g g' groups gw [_ Hg] _ IH]; [done|].
      rewrite !fmap_cons, IH by (intros; apply Hpage; by right).
      destruct (Hpage g ltac:(left)) as (m & Hm & _). rewrite Hm in Hg. by rewrite Hg, Hm. }
    assert (∀ g, request_blocks gds c g = (bs ← map_res (λ s, m ← spec_max_memory_usage_bytes gds c s;
      p ← page_size_bytes gds s; Ok (cdiv m p)) (kv_cache_spec <$> g); Ok (sumZ bs))) as Hr.
    { intros g. unfold request_blocks. f_equal. induction g as [|x g IH]; [done|]. rewrite fmap_cons. simpl.
      by rewrite IH. }
    rewrite Hr in E1, E2. rewrite (Hs _ _ H1) in E1. rewrite (Hs _ _ H2) in E2. congruence.
Qed.

(** *** The checks change nothing but the model length *)

Lemma probe_eq needed avail n c :
  probe needed avail n c =
    (match needed (set_max_model_len n c) with Ok m => Ok (m <=? avail) | Err e => Err e end,
     set_max_model_len n c).
Proof.
  unfold probe, modify, gets, lift_res, mbind, M_bind, mret, M_ret, id.
  by destruct (needed _).
Qed.

Lemma search_loop_state needed avail fuel c left right result r c' :
  search_loop fuel (probe needed avail) left right result c = (r, c') →
  ∃ n, c' = set_max_model_len n c.
Proof.
  revert left right result c. induction fuel as [|fuel IH]; intros left right result c; cbn [search_loop].
  { intros [= _ <-]. exists (max_model_len c). by destruct c. }
  destruct (left <=? right); [|intros [= _ <-]; exists (max_model_len c); by destruct c].
  unfold mbind, M_bind. rewrite probe_eq.
  destruct (needed _) as [m|]; [|intros [= _ <-]; eauto].
  destruct (m <=? avail); intros H; destruct (IH _ _ _ _ H) as [n ->]; by exists n.
Qed.

Lemma max_len_search_state needed avail c r c' : max_len_search needed avail c = (r, c') → c' = c.
Proof.
  set (orig := max_model_len c).
  assert (∀ n, set_max_model_len orig (set_max_model_len n c) = c) as Ec by by destruct c.
  assert (max_len_search needed avail c =
    try_finally (b ← probe needed avail 1; if negb b then mret 0
      else search_loop (S (Z.to_nat orig)) (probe needed avail) 1 orig 1) (set_max_model_len orig) c) as -> by done.
  unfold try_finally, mbind, M_bind. rewrite probe_eq.
  destruct (needed _) as [m|]; [|intros [= _ <-]; apply Ec].
  destruct (m <=? avail); cbn [negb]; [|intros [= _ <-]; apply Ec].
  destruct (search_loop _ _ _ _ _ _) as [r' s'] eqn:E. apply search_loop_state in E as [n ->].
  intros [= _ <-]. apply Ec.
Qed.

Lemma fold_each_ok {S A B} (P : B → Prop) (l : list A) (b : B) (body : B → A → M S B) s b' s' :
  (∀ a x y s', P a → body a x s = (Ok y, s') → P y ∧ s' = s) → P b →
  fold_each l b body s = (Ok b', s') → P b' ∧ s' = s.
Proof.
  intros Hbody. revert b. induction l as [|x l IH]; intros b Hb; simpl.
  { by intros [= <- <-]. }
  rewrite M_bind_ok. intros (y & s1 & Hy & H). destruct (Hbody _ _ _ _ Hb Hy) as [? ->]. eauto.
Qed.

Lemma for_each_ok {S A} (P : A → Prop) (l : list A) (body : A → M S unit) s s' :
  (∀ x s', body x s = (Ok tt, s') → P x ∧ s' = s) →
  for_each l body s = (Ok tt, s') → Forall P l ∧ s' = s.
Proof.
  intros Hbody. induction l as [|x l IH]; simpl.
  { intros [= <-]. by split; [constructor|]. }
  rewrite M_bind_ok. intros ([] & s1 & Hy & H). destruct (Hbody _ _ Hy) as [? ->].
  destruct (IH H) as [? ->]. by split; [constructor|].
Qed.

Lemma auto_fit_state projected avail c c' :
  _auto_fit_max_model_len gds projected avail c = (Ok tt, c') →
  ∃ n, n ≤ max_model_len c ∧ c' = set_max_model_len n c.
Proof.
  assert (c = set_max_model_len (max_model_len c) c) as Ec by by destruct c.
  unfold _auto_fit_max_model_len. rewrite M_bind_ok. intros (orig & s & [= <- <-] & H).
  destruct (forallb _ _); [injection H as <-; exists (max_model_len c); split; [lia|done]|].
  apply M_bind_ok in H as (fit & s & Hfit & H).
  apply (fold_each_ok (λ n, n ≤ max_model_len c)) in Hfit as [Hle ->].
  - destruct (fit <=? 0); [done|]. destruct (max_model_len c <=? fit);
      injection H as <-; [exists (max_model_len c)|exists fit]; (split; [lia|done]).
  - intros a x y s' Ha. case_bool_decide; [by intros [= <- <-]|]. rewrite M_bind_ok.
    intros (m & s1 & Hm%max_len_search_state & Hy). subst s1. injection Hy as <- <-.
    split; [|done]. destruct (Z.ltb_spec m a); lia.
  - lia.
Qed.

Lemma check_enough_ok needed avail (est : Z → M VllmConfig Z) c c' :
  _check_enough_kv_cache_memory avail (c ← gets id; lift_res (needed c)) est c = (Ok tt, c') →
  (0 < avail ∧ ∃ need, needed c = Ok need ∧ need ≤ avail) ∧ c' = c.
Proof.
  unfold _check_enough_kv_cache_memory. destruct (Z.leb_spec avail 0); [done|].
  rewrite M_bind_ok. intros (need & s & (? & ? & [= <- <-] & [= Hn <-])%M_bind_ok & Hc).
  destruct (Z.ltb_spec avail need).
  - apply M_bind_ok in Hc as (? & ? & _ & Hc). done.
  - injection Hc as <-. split; [|done]. split; [done|]. by exists need.
Qed.

(** *** One worker *)

Lemma layout_nonempty c groups avail k :
  get_kv_cache_config_from_groups gds c groups avail = Ok k → groups ≠ [] →
  as_uniform_type groups = None → concat (layer_names <$> groups) ≠ [].
Proof.
  intros H Hne Hu Hnil. unfold get_kv_cache_config_from_groups in H. rewrite Hu in H.
  destruct groups as [|g gs]; [done|]. set (groups := g :: gs) in *.
  apply res_bind_ok in H as (n & [Hn _]%py_max_ok & H). apply res_bind_ok in H as (p & _ & H).
  apply list_elem_of_fmap in Hn as (g' & -> & Hg').
  assert (layer_names g' = []) as E; [|by rewrite E in H].
  destruct (layer_names g') as [|m ns] eqn:E; [done|]. exfalso. apply (not_elem_of_nil m).
  rewrite <-Hnil. apply elem_of_concat. exists (layer_names g'). rewrite E at 2.
  split; [by apply list_elem_of_fmap_2|left].
Qed.

Lemma shrink_spec c mn k k' :
  shrink_config gds c mn k = Ok k' →
  num_blocks k' = mn ∧ kv_cache_groups k' = kv_cache_groups k ∧
  shared_by <$> kv_cache_tensors k' = shared_by <$> kv_cache_tensors k ∧
  ∃ ts, tensor_size <$> kv_cache_tensors k' = (λ p, p * mn) <$> ts ∧
        tensor_size <$> kv_cache_tensors k = (λ p, p * num_blocks k) <$> ts ∧
        (ts = [] ∨ num_blocks k ≠ 0).
Proof.
  unfold shrink_config. intros (ts & Hts & (? & _ & [= <-])%res_bind_ok)%res_bind_ok. simpl.
  split; [done|]. split; [done|]. apply map_res_ok in Hts.
  assert (Forall2 (λ t t', ∃ p, num_blocks k ≠ 0 ∧ tensor_size t = p * num_blocks k ∧
    t' = mkTensor (p * mn) (shared_by t))
    (kv_cache_tensors k) ts) as H2.
  { eapply Forall2_impl; [exact Hts|]. cbn beta. intros t t' (r & (Hnz & ->)%py_mod_ok & H)%res_bind_ok.
    case_bool_decide as Hr; [|done]. apply Ok_inj in H as <-. exists (tensor_size t / num_blocks k).
    split; [done|]. split; [|done].
    rewrite (Z.div_mod (tensor_size t) (num_blocks k)) at 1 by done. lia. }
  clear Hts. induction H2 as [|t t' l l' (p & Hnz & Hp & ->) _ IH].
  { split; [done|]. exists []. split_and!; [done..|]. by left. }
  destruct IH as (Hs & ts & E1 & E2 & _). rewrite !fmap_cons, Hs. split; [done|].
  exists (p :: ts). rewrite !fmap_cons, E1, E2, <-Hp. split_and!; [done..|]. by right.
Qed.

Lemma sumZ_scale (ts : list Z) n : sumZ ((λ p, p * n) <$> ts) = sumZ ts * n.
Proof. induction ts as [|t ts IH]; [done|]. rewrite fmap_cons. simpl. lia. Qed.

Lemma worker_ok c gw a need k0 mn k :
  groups_wf gds gw → num_gpu_blocks_override c = None → 0 < a →
  _max_memory_usage_bytes_from_groups gds c gw = Ok need → need ≤ a →
  get_kv_cache_config_from_groups gds c gw a = Ok k0 → mn ≤ num_blocks k0 →
  shrink_config gds c mn k0 = Ok k →
  num_blocks k = mn ∧ kv_cache_groups k = gw ∧
  concat (shared_by <$> kv_cache_tensors k) ≡ₚ concat (layer_names <$> gw) ∧
  sumZ (tensor_size <$> kv_cache_tensors k) ≤ a ∧
  ∃ n, request_blocks gds c gw = Ok n ∧ n ≤ num_blocks k0.
Proof.
  intros Hwf Hov Ha Hneed Hle Hk0 Hmn Hk.
  destruct (config_from_groups_fits gds c gw a need Hwf Hov ltac:(lia) Hneed) as (k0' & b & n & E & Hfit).
  rewrite Hk0 in E. apply Ok_inj in E as <-.
  pose proof (proj1 (fits_enough _ _ _ _ _ _ _ _ Hfit) Hle) as Hn.
  destruct Hfit as [Hb Hg Hnb Hc Hs _ _ Hr]. rewrite <-Hnb in Hs.
  destruct (shrink_spec _ _ _ _ Hk) as (E1 & E2 & E3 & ts & E4 & E5 & Hts).
  split_and!; [done|by rewrite E2|by rewrite E3| |by exists n].
  rewrite E4, sumZ_scale. rewrite E5, sumZ_scale in Hs.
  destruct Hts as [-> |Hnz]; [simpl; lia|].
  pose proof (Z.mul_div_le a b Hb). rewrite <-Hnb in *.
  destruct (bool_decide _); [assert (sumZ ts = 0) by nia|assert (sumZ ts = b) by nia]; nia.
Qed.
End groups.

(** What happens to worker [w] with [a] bytes: its configuration [k0] and, after
    shrinking, [k]. *)
Definition worker_run gds c groups mn (w : layer_specs) (a : Z) (k0 k : KVCacheConfig) : Prop :=
  ∃ gw, Forall2 (projected_spec w) groups gw ∧ mn ≤ num_blocks k0 ∧
    get_kv_cache_config_from_groups gds c gw a = Ok k0 ∧ shrink_config gds c mn k0 = Ok k ∧
    (gw ≠ [] → 0 < a ∧ ∃ need,
      _max_memory_usage_bytes_from_groups gds c gw = Ok need ∧ need ≤ a).

Lemma zip_lookup {A B} (l : list A) (k : list B) i x y :
  l !! i = Some x → k !! i = Some y → zip l k !! i = Some (x, y).
Proof. intros Hx Hy. by rewrite lookup_zip_with, Hx, Hy. Qed.

Lemma get_kv_cache_configs_inv gds c (specs : list layer_specs) avail configs c' :
  length specs = length avail →
  get_kv_cache_configs gds specs avail c = (Ok configs, c') →
  (∃ n, n ≤ max_model_len c ∧ c' = set_max_model_len n c) ∧
  (original_max_model_len c ≠ -1 → c' = c) ∧
  ∃ merged groups configs0 mn,
    merge_worker_specs specs = Ok merged ∧ get_kv_cache_groups gds c merged = Ok groups ∧
    length configs = length specs ∧ length configs0 = length specs ∧
    mn ∈ num_blocks <$> configs0 ∧
    ∀ i k k0 w a, configs !! i = Some k → configs0 !! i = Some k0 → specs !! i = Some w →
      avail !! i = Some a → worker_run gds c' groups mn w a k0 k.
Proof.
  intros Hlen H. unfold get_kv_cache_configs in H.
  apply M_bind_ok in H as (merged & ? & [= Hmerged <-] & H).
  apply M_bind_ok in H as (? & ? & [= <- <-] & H).
  apply M_bind_ok in H as (groups & ? & [= Hgroups <-] & H).
  apply M_bind_ok in H as (projected & ? & [= Hproj <-] & H).
  apply M_bind_ok in H as ([] & c1 & Hfit & H).
  assert ((∃ n, n ≤ max_model_len c ∧ c1 = set_max_model_len n c) ∧
    (original_max_model_len c ≠ -1 → c1 = c)) as [Hc1 Hc1'].
  { unfold id in Hfit. case_bool_decide.
    - split; [by eapply auto_fit_state|done].
    - injection Hfit as <-. split; [|done]. exists (max_model_len c). split; [lia|by destruct c]. }
  apply M_bind_ok in H as ([] & c2 & Hcheck & H).
  apply (for_each_ok (λ p, p.1 ≠ [] → 0 < p.2 ∧ ∃ need,
    _max_memory_usage_bytes_from_groups gds c1 p.1 = Ok need ∧ need ≤ p.2)) in Hcheck as [Hcheck ->].
  2:{ intros x s. destruct (bool_decide_reflect (length x.1 = 0%nat)) as [Hl|Hl]; intros Hx.
      - injection Hx as <-. split; [|done]. by apply length_zero_iff_nil in Hl.
      - apply check_enough_ok in Hx as [? ->]. auto. }
  apply M_bind_ok in H as (? & ? & [= <- <-] & H).
  apply M_bind_ok in H as (configs0 & ? & [= Hconfigs0 <-] & H).
  apply M_bind_ok in H as (mn & ? & [= Hmn <-] & H). injection H as Hshrink <-.
  apply map_res_ok in Hproj, Hconfigs0, Hshrink. apply py_min_ok in Hmn as [Hmin Hmn].
  pose proof (Forall2_length _ _ _ Hproj) as Hl1. pose proof (Forall2_length _ _ _ Hconfigs0) as Hl2.
  pose proof (Forall2_length _ _ _ Hshrink) as Hl3. rewrite !length_zip in Hl2.
  split; [done|]. split; [done|]. exists merged, groups, configs0, mn.
  split_and!; [done|done|lia|lia|done|]. intros i k k0 w a Hk Hk0 Hw Ha.
  destruct (Forall2_lookup_l _ _ _ _ _ Hproj Hw) as (gw & Hgw & Hp). exists gw.
  split; [by apply project_spec|].
  split; [apply Hmn; eapply list_elem_of_fmap_2, list_elem_of_lookup_2, Hk0|].
  pose proof (Forall2_lookup_lr _ _ _ _ _ _ Hconfigs0
    (zip_lookup _ _ _ _ _ (zip_lookup _ _ _ _ _ Hgw Hw) Ha) Hk0) as Hcfg.
  cbn [fst snd] in Hcfg. destruct (_ =? _) in Hcfg; [|done]. split; [done|].
  split; [exact (Forall2_lookup_lr _ _ _ _ _ _ Hshrink Hk0 Hk)|].
  rewrite Forall_forall in Hcheck.
  exact (Hcheck _ (list_elem_of_lookup_2 _ _ _ (zip_lookup _ _ _ _ _ Hgw Ha))).
Qed.

Lemma worker_run_ok gds c groups mn (w : layer_specs) a k0 k :
  worker_run gds c groups mn w a k0 k → groups_shape gds groups →
  num_gpu_blocks_override c = None → groups ≠ [] →
  ∃ gw, kv_cache_groups k = gw ∧ Forall2 (projected_spec w) groups gw ∧ num_blocks k = mn ∧
    concat (shared_by <$> kv_cache_tensors k) ≡ₚ concat (layer_names <$> gw) ∧
    sumZ (tensor_size <$> kv_cache_tensors k) ≤ a ∧
    ∃ n, request_blocks gds c gw = Ok n ∧ n ≤ num_blocks k0.
Proof.
  intros (gw & Hp & Hle & Hcfg & Hs & Hgw) Hshape Hov Hne.
  assert (gw ≠ []) as Hne' by (intros ->; by apply Forall2_nil_inv_r in Hp).
  destruct (Hgw Hne') as (Hpos & need & Hneed & Hfits).
  assert (groups_wf gds gw) as Hgwf.
  { eapply project_wf; [done..|]. intros Hu. by eapply layout_nonempty. }
  destruct (worker_ok gds c gw a need k0 mn k Hgwf Hov Hpos Hneed Hfits Hcfg Hle Hs)
    as (E1 & E2 & E3 & E4 & E5). exists gw. by split_and!.
Qed.

(** C32: when [get_kv_cache_configs] returns and the number of blocks is not overridden,
    all workers have configurations with the same number of blocks; each worker's groups
    and tensors cover exactly its layers, its tensors fit into its memory, and there are
    at least as many blocks as one request of the final maximal length takes, the null
    block, which no request can take, counted among them; that length is the configured one, or a
    shorter one if it is to be fitted automatically. *)
Theorem get_kv_cache_configs_correct gds c (specs : list layer_specs) avail configs c' :
  length specs = length avail → Forall (λ a, 0 ≤ a) avail → num_gpu_blocks_override c = None →
  Forall (λ w, NoDup w.*1 ∧ Forall (layer_wf gds) w.*2) specs →
  get_kv_cache_configs gds specs avail c = (Ok configs, c') →
  (∃ n, n ≤ max_model_len c ∧ c' = set_max_model_len n c) ∧
  (original_max_model_len c ≠ -1 → c' = c) ∧
  length configs = length specs ∧
  ∃ nb, ∀ i k w a, configs !! i = Some k → specs !! i = Some w → avail !! i = Some a →
    num_blocks k = nb ∧
    concat (layer_names <$> kv_cache_groups k) ≡ₚ w.*1 ∧
    concat (shared_by <$> kv_cache_tensors k) ≡ₚ w.*1 ∧
    sumZ (tensor_size <$> kv_cache_tensors k) ≤ a ∧
    (kv_cache_groups k ≠ [] → ∃ n, request_blocks gds c' (kv_cache_groups k) = Ok n ∧ n ≤ nb).
Proof.
  intros Hlen Hav Hov Hwf H. destruct (get_kv_cache_configs_inv _ _ _ _ _ _ Hlen H)
    as (Hc1 & Hc1' & merged & groups & configs0 & mn & Hmerged & Hgroups & Hl & Hl0 & Hmin & Hrun).
  rewrite Forall_forall in Hwf. rewrite Forall_forall in Hav.
  destruct (merge_worker_specs_spec _ _ Hmerged) as [Hnd Hmem].
  assert (Forall (layer_wf gds) merged.*2) as Hmwf.
  { apply Forall_forall. intros l (p & -> & (w & Hw & Hp)%Hmem)%list_elem_of_fmap.
    destruct (Hwf w Hw) as [_ Hlw]. rewrite Forall_forall in Hlw.
    apply Hlw, list_elem_of_fmap. eauto. }
  destruct (get_kv_cache_groups_shape gds _ _ _ Hgroups Hnd Hmwf) as [Hcover Hshape].
  assert (num_gpu_blocks_override c' = None) as Hov1 by by destruct Hc1 as (n & _ & ->).
  split; [done|]. split; [done|]. split; [done|]. exists mn. intros i k w a Hk Hw Ha.
  destruct (lookup_lt_is_Some_2 configs0 i) as [k0 Hk0]; [apply lookup_lt_Some in Hw; lia|].
  pose proof (Hrun i k k0 w a Hk Hk0 Hw Ha) as Hw0.
  assert (∀ gw, Forall2 (projected_spec w) groups gw → concat (layer_names <$> gw) ≡ₚ w.*1) as Hcov.
  { intros gw Hp. apply list_elem_of_lookup_2 in Hw. eapply project_cover; [done..|by apply Hwf|].
    intros n (p & -> & Hpw)%list_elem_of_fmap. apply list_elem_of_fmap. exists p. split; [done|].
    apply Hmem. eauto. }
  destruct groups as [|g0 gs].
  { destruct Hw0 as (gw & Hp & _ & Hcfg & Hs & _). specialize (Hcov gw Hp).
    apply Forall2_nil_inv_l in Hp as ->.
    apply Ok_inj in Hcfg as <-. apply Ok_inj in Hs as <-. simpl. split_and!; try done.
    by eapply Hav, list_elem_of_lookup_2. }
  destruct (worker_run_ok _ _ _ _ _ _ _ _ Hw0 Hshape Hov1) as (gw & -> & Hp & -> & -> & Hsz & n & Hn & _); [done|].
  split_and!; [done|by apply Hcov|by apply Hcov|done|]. intros _. exists n. split; [done|].
  apply list_elem_of_fmap in Hmin as (km & -> & [j Hj]%list_elem_of_lookup).
  assert (j < length specs)%nat as Hjl by (apply lookup_lt_Some in Hj; lia).
  destruct (lookup_lt_is_Some_2 configs j) as [kj Hkj]; [lia|].
  destruct (lookup_lt_is_Some_2 specs j) as [wj Hwj]; [lia|].
  destruct (lookup_lt_is_Some_2 avail j) as [aj Haj]; [lia|].
  destruct (worker_run_ok _ _ _ _ _ _ _ _ (Hrun j kj km wj aj Hkj Hj Hwj Haj) Hshape Hov1)
    as (gwj & _ & Hpj & _ & _ & _ & nj & Hnj & Hlej); [done|].
  by rewrite (request_blocks_agree gds c' _ w wj gw gwj n nj Hshape Hp Hpj Hn Hnj).
Qed.

(** ** Concrete instances *)

Local Open Scope string_scope.
Local Open Scope Z_scope.
Definition two_bytes : dtype → Z := λ _, 2.
Definition attn16 : AttentionFields := mkAttn 16 8 128 "bf16" None.
Definition full16 : LayerSpec := FullAttentionSpec attn16 128 None None.
Definition sliding16 : LayerSpec := SlidingWindowSpec attn16 1024.

(** Two workers of a pipeline, each with one full-attention and two
    sliding-window layers. *)
Definition stage0 : layer_specs := [("full.0", full16); ("sw.0", sliding16); ("sw.1", sliding16)].
Definition stage1 : layer_specs := [("full.1", full16); ("sw.2", sliding16); ("sw.3", sliding16)].
Definition stages : layer_specs := (stage0 ++ stage1)%list.
Definition config4k : VllmConfig := mkVllmConfig 4096 4096 1 1 2048 0 "none" None false.

Ltac solve_layer_wf :=
  repeat (apply Forall_cons; split); try apply Forall_nil; try done;
  (split; [done|eexists; split; [vm_compute; reflexivity|done]]).

Lemma two_stages_wf :
  Forall (λ w : layer_specs, NoDup w.*1 ∧ Forall (layer_wf two_bytes) w.*2) [stage0; stage1].
Proof.
  repeat (apply Forall_cons; split); [..|done]; (split; [decide_now|]); simpl; solve_layer_wf.
Defined.

Lemma estimate_max_model_len_correct_witness :
  ∃ r, estimate_max_model_len two_bytes stage0 (40 * 2 ^ 20) config4k = (Ok r, config4k) ∧
    0 ≤ r ≤ 4096 ∧ ∀ n, 1 ≤ n ≤ 4096 →
      n ≤ r ↔ ∃ m, max_memory_usage_bytes two_bytes (set_max_model_len n config4k) stage0.*2 = Ok m ∧
        m ≤ 40 * 2 ^ 20.
Proof.
  apply (estimate_max_model_len_correct two_bytes config4k stage0 (40 * 2 ^ 20)).
  - simpl. solve_layer_wf.
  - split; done.
  - done.
  - eexists. vm_compute. reflexivity.
Defined.

Lemma uniform_page_size_groups_correct_witness :
  ∃ lo hi gs groups,
    let counts := (λ ns, Z.of_nat (length ns)) <$> (same_type_layers stages).*2 in
    py_min counts = Ok lo ∧ py_max counts = Ok hi ∧ gs = (if 2 * hi <? 3 * lo then hi else lo) ∧
    _get_kv_cache_groups_uniform_page_size stages = Ok groups ∧
    concat (layer_names <$> groups) ≡ₚ stages.*1 ∧
    Z.of_nat (length groups) = sumZ ((λ n, cdiv n gs) <$> counts) ∧
    ∀ g, g ∈ groups → 1 ≤ Z.of_nat (length (layer_names g)) ≤ gs ∧
      ∃ l, kv_cache_spec g = Layer (merged_spec l) ∧
        ∀ n, n ∈ layer_names g → dict_get stages n = Some l.
Proof.
  apply (uniform_page_size_groups_correct stages); [done|decide_now|].
  intros n l Hin. simpl in Hin.
  repeat (apply elem_of_cons in Hin as [Hin|Hin]; [injection Hin as _ ->; simpl; auto|]).
  by apply elem_of_nil in Hin.
Defined.

Definition two_groups : list KVCacheGroupSpec :=
  [mkGroup ["full.0"; "full.1"] (Layer full16); mkGroup ["sw.0"; "sw.2"] (Layer sliding16);
   mkGroup ["sw.1"] (Layer sliding16)].

Lemma get_kv_cache_config_from_groups_correct_witness :
  ∃ need, ∃ k n b, get_kv_cache_config_from_groups two_bytes config4k two_groups (100 * 2 ^ 20) = Ok k ∧
    kv_cache_groups k = two_groups ∧
    concat (shared_by <$> kv_cache_tensors k) ≡ₚ concat (layer_names <$> two_groups) ∧
    sumZ (tensor_size <$> kv_cache_tensors k) = b * num_blocks k ∧
    b * num_blocks k ≤ 100 * 2 ^ 20 < b * (num_blocks k + 1) ∧
    request_blocks two_bytes config4k two_groups = Ok n ∧ (need ≤ 100 * 2 ^ 20 ↔ n ≤ num_blocks k).
Proof.
  eexists. apply (get_kv_cache_config_from_groups_correct two_bytes config4k two_groups (100 * 2 ^ 20)).
  - unfold groups_wf. simpl. split.
    + exists (mkGroup ["sw.1"] (Layer sliding16)). split; [by right; right; left|done].
    + exists (2 * 16 * 8 * 128 * 2). split; [done|]. intros g Hg.
      repeat (apply elem_of_cons in Hg as [Hg|Hg]; [by subst|]). by apply elem_of_nil in Hg.
  - done.
  - done.
  - done.
  - vm_compute. reflexivity.
Defined.

Definition stage_configs : list KVCacheConfig :=
  Eval vm_compute in
    match (get_kv_cache_configs two_bytes [stage0; stage1] [100 * 2 ^ 20; 90 * 2 ^ 20] config4k).1 with
    | Ok ks => ks | Err _ => [] end.

Lemma get_kv_cache_configs_correct_witness :
  length stage_configs = 2%nat ∧
  ∃ nb, ∀ i k w a, stage_configs !! i = Some k → [stage0; stage1] !! i = Some w →
    [100 * 2 ^ 20; 90 * 2 ^ 20] !! i = Some a →
    num_blocks k = nb ∧
    concat (layer_names <$> kv_cache_groups k) ≡ₚ w.*1 ∧
    concat (shared_by <$> kv_cache_tensors k) ≡ₚ w.*1 ∧
    sumZ (tensor_size <$> kv_cache_tensors k) ≤ a ∧
    (kv_cache_groups k ≠ [] →
      ∃ n, request_blocks two_bytes config4k (kv_cache_groups k) = Ok n ∧ n ≤ nb).
Proof.
  apply (get_kv_cache_configs_correct two_bytes config4k [stage0; stage1]
    [100 * 2 ^ 20; 90 * 2 ^ 20] stage_configs config4k).
  - done.
  - repeat (apply Forall_cons; split); done.
  - done.
  - exact two_stages_wf.
  - vm_compute. reflexivity.
Defined.

(** ** Two gaps *)

(** Two full-attention layers with different windows have the same type, but the
    test whether their specs are equal raises. *)
Lemma different_windows_raise c a v w1 w2 n1 n2 :
  w1 ≠ w2 → disable_hybrid_kv_cache_manager c = false →
  let specs := [(n1, FullAttentionSpec a v (Some w1) None); (n2, FullAttentionSpec a v (Some w2) None)] in
  is_uniform_type specs = Ok true ∧ get_kv_cache_groups two_bytes c specs = Err ValueError.
Proof.
  intros Hw Hd specs. split.
  - unfold is_uniform_type. rewrite (distinct_const _ (a_block_size a)); [done|done|].
    intros y Hy. simpl in Hy. by repeat (apply elem_of_cons in Hy as [->|Hy]; [done|]); apply elem_of_nil in Hy.
  - assert (distinct [w1; w2] = [w1; w2]) as Ed.
    { simpl. unfold filter. simpl. by rewrite decide_True by auto. }
    assert (is_kv_cache_spec_uniform specs = Err ValueError) as E.
    { unfold is_kv_cache_spec_uniform, specs, merge, merge_full, merge_window_sizes.
      rewrite bool_decide_eq_false_2 by done. cbn [fmap list_fmap snd].
      cbn -[distinct decide]. by rewrite Ed. }
    unfold get_kv_cache_groups. rewrite Hd. cbn [mbind res_bind]. by rewrite E.
Qed.

(** Merging compares the fields of [AttentionSpec] only, which [head_size_v]
    is not: two full-attention layers that differ in the size of their values form
    one group, and its page is the page of the first layer, although the second
    layer's is larger. *)
Theorem merge_ignores_value_size gds c a v1 v2 n1 n2 :
  v1 < v2 → 0 < a_block_size a * num_kv_heads a * gds (a_dtype a) → page_size_padded a = None →
  disable_hybrid_kv_cache_manager c = false → n1 ≠ n2 →
  let l1 := FullAttentionSpec a v1 None None in
  let l2 := FullAttentionSpec a v2 None None in
  ∃ p1 p2, get_kv_cache_groups gds c [(n1, l1); (n2, l2)] = Ok [mkGroup [n1; n2] (Layer l1)] ∧
    page_size_bytes gds (Layer l1) = Ok p1 ∧ layer_page_size_bytes gds l2 = Ok p2 ∧ p1 < p2.
Proof.
  intros Hv Hpos Hpad Hd Hn l1 l2. exists (real_page_size_bytes gds l1), (real_page_size_bytes gds l2).
  assert (merge [l1; l2] = Ok l1) as Hm.
  { unfold merge, merge_full, l1, l2. cbn. by rewrite !bool_decide_eq_true_2. }
  split_and!.
  - unfold get_kv_cache_groups. rewrite Hd. cbn [mbind res_bind].
    rewrite bool_decide_eq_false_2 by done.
    unfold is_kv_cache_spec_uniform. rewrite bool_decide_eq_false_2 by done.
    cbn [fmap list_fmap snd]. rewrite Hm. cbn [mbind res_bind].
    unfold _get_kv_cache_groups_uniform_spec, create_kv_cache_group_specs. cbn [map_res fmap list_fmap fst].
    cbn [dict_get]. rewrite (decide_True (P := n1 = n1)) by done.
    rewrite (decide_False (P := n2 = n1)) by done. rewrite (decide_True (P := n2 = n2)) by done.
    cbn [mbind res_bind]. by rewrite Hm.
  - unfold page_size_bytes, layer_page_size_bytes. simpl. by rewrite Hpad.
  - unfold layer_page_size_bytes. simpl. by rewrite Hpad.
  - simpl. nia.
Qed.

Lemma merge_ignores_value_size_witness :
  let l1 := FullAttentionSpec attn16 64 None None in
  let l2 := FullAttentionSpec attn16 128 None None in
  ∃ p1 p2, get_kv_cache_groups two_bytes config4k [("a", l1); ("b", l2)] =
      Ok [mkGroup ["a"; "b"] (Layer l1)] ∧
    page_size_bytes two_bytes (Layer l1) = Ok p1 ∧ layer_page_size_bytes two_bytes l2 = Ok p2 ∧ p1 < p2.
Proof. apply (merge_ignores_value_size two_bytes config4k attn16 64 128 "a" "b"); done. Defined.
