(* ===== verification/CacheManagers.v ===== *)
(** * The managers of one KV cache group

    [vllm/v1/core/single_type_kv_cache_manager.py].  A manager records which
    blocks each request holds in its group and how many of them are cached; the
    blocks themselves belong to the [BlockPool] all managers share, so every
    operation runs on a pair of the pool and the manager.

    The class of a manager follows from its spec ([spec_manager_map]); methods
    that a subclass overrides dispatch on it.  Block sizes and chunk sizes are
    positive.

    [ManagerSpecs] states what these operations keep and return. *)

From stdpp Require Import base list gmap strings.
From Stdlib Require Import ZArith Lia.
From S2P Require Import Prelude FreeQueue Request BlockHash BlockPool KVCacheSpec.
Local Open Scope Z_scope.

Inductive ManagerClass :=
  | FullAttentionManager
  | SlidingWindowManager
  | ChunkedLocalAttentionManager
  | MambaManager
  | CrossAttentionManager
  | SinkFullAttentionManager.
#[export] Instance ManagerClass_eq_dec : EqDecision ManagerClass.
Proof. solve_decision. Defined.

Definition spec_manager_map (l : LayerSpec) : res ManagerClass :=
  match l with
  | FullAttentionSpec _ _ _ _ | MLAAttentionSpec _ _ _ _ _ => Ok FullAttentionManager
  | SlidingWindowSpec _ _ => Ok SlidingWindowManager
  | ChunkedLocalAttentionSpec _ _ => Ok ChunkedLocalAttentionManager
  | MambaSpec _ _ _ _ _ _ _ => Ok MambaManager
  | CrossAttentionSpec _ => Ok CrossAttentionManager
  | SinkFullAttentionSpec _ _ _ _ _ => Ok SinkFullAttentionManager
  | EncoderOnlyAttentionSpec _ => Err KeyError
  end.

(** ** State *)

(** The last four fields are those of [MambaManager] and
    [SinkFullAttentionManager]. *)
Record Manager := mkManager {
  mgr_class : ManagerClass;
  mgr_spec : LayerSpec;
  mgr_block_size : Z;
  mgr_enable_caching : bool;
  kv_cache_group_id : Z;
  _null_block : loc;
  new_block_ids : list Z;
  req_to_blocks : gmap string (list loc);
  num_cached_block : gmap string Z;
  cached_blocks_this_step : gset BlockHashWithGroupId;
  last_state_block_idx : gmap string Z;
  _allocated_block_reqs : gset string;
  sink_blocks : list loc
}.

Definition set_new_block_ids (v : list Z) (m : Manager) : Manager :=
  mkManager (mgr_class m) (mgr_spec m) (mgr_block_size m) (mgr_enable_caching m)
    (kv_cache_group_id m) (_null_block m) v (req_to_blocks m) (num_cached_block m)
    (cached_blocks_this_step m) (last_state_block_idx m) (_allocated_block_reqs m) (sink_blocks m).
Definition set_req_to_blocks (v : gmap string (list loc)) (m : Manager) : Manager :=
  mkManager (mgr_class m) (mgr_spec m) (mgr_block_size m) (mgr_enable_caching m)
    (kv_cache_group_id m) (_null_block m) (new_block_ids m) v (num_cached_block m)
    (cached_blocks_this_step m) (last_state_block_idx m) (_allocated_block_reqs m) (sink_blocks m).
Definition set_num_cached_block (v : gmap string Z) (m : Manager) : Manager :=
  mkManager (mgr_class m) (mgr_spec m) (mgr_block_size m) (mgr_enable_caching m)
    (kv_cache_group_id m) (_null_block m) (new_block_ids m) (req_to_blocks m) v
    (cached_blocks_this_step m) (last_state_block_idx m) (_allocated_block_reqs m) (sink_blocks m).
Definition set_cached_this_step (v : gset BlockHashWithGroupId) (m : Manager) : Manager :=
  mkManager (mgr_class m) (mgr_spec m) (mgr_block_size m) (mgr_enable_caching m)
    (kv_cache_group_id m) (_null_block m) (new_block_ids m) (req_to_blocks m)
    (num_cached_block m) v (last_state_block_idx m) (_allocated_block_reqs m) (sink_blocks m).
Definition set_last_state (v : gmap string Z) (m : Manager) : Manager :=
  mkManager (mgr_class m) (mgr_spec m) (mgr_block_size m) (mgr_enable_caching m)
    (kv_cache_group_id m) (_null_block m) (new_block_ids m) (req_to_blocks m)
    (num_cached_block m) (cached_blocks_this_step m) v (_allocated_block_reqs m) (sink_blocks m).
Definition set_allocated_reqs (v : gset string) (m : Manager) : Manager :=
  mkManager (mgr_class m) (mgr_spec m) (mgr_block_size m) (mgr_enable_caching m)
    (kv_cache_group_id m) (_null_block m) (new_block_ids m) (req_to_blocks m)
    (num_cached_block m) (cached_blocks_this_step m) (last_state_block_idx m) v (sink_blocks m).

(** The pool and the manager. *)
Definition PM : Type := BlockPool * Manager.
Definition poolL : lens PM BlockPool := Lens fst (λ p s, (p, s.2)).
Definition mgrL : lens PM Manager := Lens snd (λ m s, (s.1, m)).

(** [defaultdict]: reading a missing request stores an empty list. *)
Definition blocks_of (rid : string) (m : Manager) : list loc := default [] (req_to_blocks m !! rid).
Definition req_blocks (rid : string) : M PM (list loc) :=
  bs ← gets (λ s, blocks_of rid s.2);
  zoom mgrL (modify (λ m, set_req_to_blocks (<[rid := bs]> (req_to_blocks m)) m)) ;;
  mret bs.
Definition put_blocks (rid : string) (bs : list loc) : M PM unit :=
  zoom mgrL (modify (λ m, set_req_to_blocks (<[rid := bs]> (req_to_blocks m)) m)).

Section managers.
Context (use_int : bool) (sha256 : bytes → bytes).

(** ** [__init__] *)

(** The result is the pool, from which a [SinkFullAttentionManager] takes its
    sink blocks, and the manager. *)
Definition get_manager_for_kv_cache_spec (spec : LayerSpec) (caching : bool) (group_id dcp pcp : Z)
    : M BlockPool Manager :=
  c ← lift_res (spec_manager_map spec);
  nb ← gets null_block;
  let bs := layer_block_size spec * (if 1 <? dcp * pcp then dcp * pcp else 1) in
  let mk sinks := mkManager c spec bs caching group_id nb [] ∅ ∅ ∅ ∅ ∅ sinks in
  match spec with
  | SinkFullAttentionSpec _ _ _ _ (Some sink_len) =>
      assert_ ((0 <? sink_len) && bool_decide (sink_len mod bs = 0)) ;;
      sinks ← zoom fqL (popleft_n (sink_len / bs));
      mret (mk sinks)
  | SinkFullAttentionSpec _ _ _ _ None => raise AssertionError
  | _ => mret (mk [])
  end.

(** ** Skipped tokens *)

Definition get_num_skipped_tokens (m : Manager) (num_computed_tokens : Z) : Z :=
  match mgr_spec m with
  | SlidingWindowSpec _ sliding_window => Z.max 0 (num_computed_tokens - sliding_window + 1)
  | ChunkedLocalAttentionSpec _ chunk => num_computed_tokens / chunk * chunk
  | MambaSpec _ _ _ _ _ _ _ => num_computed_tokens - 1
  | _ => 0
  end.

Definition num_speculative_blocks (m : Manager) : Z :=
  match mgr_spec m with MambaSpec _ _ _ _ _ _ nb => nb | _ => 0 end.
Definition is_align (m : Manager) : bool :=
  match mgr_spec m with
  | MambaSpec _ _ _ _ _ mode _ => bool_decide (mode = "align"%string)
  | _ => false
  end.

(** ** [get_num_blocks_to_allocate] *)

Definition _get_num_evictable_blocks (bs : list loc) (p : BlockPool) : Z :=
  Z.of_nat (length (filter (λ b, ref_cnt (blk p b) = 0 ∧ is_null (blk p b) = false) bs)).

Definition base_get_num_blocks_to_allocate (rid : string) (num_tokens : Z)
    (new_computed_blocks : list loc) (total_computed_tokens : Z) : M PM Z :=
  m ← gets snd;
  let num_required_blocks := cdiv num_tokens (mgr_block_size m) in
  let num_req_blocks := Z.of_nat (length (blocks_of rid m)) in
  if bool_decide (is_Some (num_cached_block m !! rid)) then
    assert_ (bool_decide (length new_computed_blocks = 0%nat)) ;;
    mret (Z.max (num_required_blocks - num_req_blocks) 0)
  else
    let num_skipped_tokens := get_num_skipped_tokens m total_computed_tokens in
    let num_local_computed_blocks := Z.of_nat (length new_computed_blocks) + num_req_blocks in
    let num_skipped_blocks := num_skipped_tokens / mgr_block_size m in
    let num_new_blocks :=
      Z.max (num_required_blocks - Z.max num_skipped_blocks num_local_computed_blocks) 0 in
    let num_skipped_new_computed_blocks := Z.max 0 (num_skipped_blocks - num_req_blocks) in
    num_evictable_blocks ← gets (λ s, _get_num_evictable_blocks
      (slice_from num_skipped_new_computed_blocks new_computed_blocks) s.1);
    mret (num_new_blocks + num_evictable_blocks).

Definition mamba_get_num_blocks_to_allocate (rid : string) (num_tokens : Z)
    (new_computed_blocks : list loc) (total_computed_tokens num_tokens_main_model : Z) : M PM Z :=
  m ← gets snd; p ← gets fst;
  let hit_this_step :=
    match last new_computed_blocks with
    | Some b => match _block_hash (blk p b) with
                | Some h => bool_decide (h ∈ cached_blocks_this_step m)
                | None => false
                end
    | None => false
    end in
  if hit_this_step then mret (num_gpu_blocks p + 1)
  else if negb (is_align m) then
    let num_tokens :=
      if 0 <? num_speculative_blocks m
      then num_tokens + layer_block_size (mgr_spec m) * num_speculative_blocks m else num_tokens in
    base_get_num_blocks_to_allocate rid num_tokens new_computed_blocks total_computed_tokens
  else
    let num_required_blocks :=
      cdiv num_tokens_main_model (mgr_block_size m) + num_speculative_blocks m in
    bs ← req_blocks rid;
    let num_new_blocks := num_required_blocks - Z.of_nat (length new_computed_blocks)
                          - Z.of_nat (length bs) in
    let num_new_blocks :=
      if 0 <? num_new_blocks then
        if bool_decide (rid ∈ _allocated_block_reqs m) then 1 else 1 + num_speculative_blocks m
      else num_new_blocks in
    mret (num_new_blocks + _get_num_evictable_blocks new_computed_blocks p).

Definition get_num_blocks_to_allocate (rid : string) (num_tokens : Z) (new_computed_blocks : list loc)
    (total_computed_tokens num_tokens_main_model : Z) : M PM Z :=
  m ← gets snd;
  match mgr_class m with
  | MambaManager => mamba_get_num_blocks_to_allocate rid num_tokens new_computed_blocks
                      total_computed_tokens num_tokens_main_model
  | _ => base_get_num_blocks_to_allocate rid num_tokens new_computed_blocks total_computed_tokens
  end.

(** ** Allocation *)

(** [type(self.kv_cache_spec) is FullAttentionSpec]: note the ids for zeroing. *)
Definition note_new_blocks (bs : list loc) : M PM unit :=
  '(p, m) ← gets id;
  match mgr_spec m with
  | FullAttentionSpec _ _ _ _ =>
      zoom mgrL (modify (set_new_block_ids (new_block_ids m ++ (ids p <$> bs))))
  | _ => mret tt
  end.

Definition base_allocate_new_computed_blocks (rid : string) (new_computed_blocks : list loc)
    (num_local_computed_tokens num_external_computed_tokens : Z) : M PM unit :=
  m ← gets snd;
  if bool_decide (is_Some (num_cached_block m !! rid)) then
    assert_ (bool_decide (length new_computed_blocks = 0%nat))
  else
    bs ← req_blocks rid;
    assert_ (bool_decide (length bs = 0%nat)) ;;
    let num_total := num_local_computed_tokens + num_external_computed_tokens in
    let num_skipped_tokens := get_num_skipped_tokens m num_total in
    let num_skipped_blocks := num_skipped_tokens / mgr_block_size m in
    let '(new_computed_blocks, num_external) :=
      if 0 <? num_skipped_blocks
      then (slice_from num_skipped_blocks new_computed_blocks,
            Z.min (num_total - num_skipped_tokens) num_external_computed_tokens)
      else (new_computed_blocks, num_external_computed_tokens) in
    (if mgr_enable_caching m then zoom poolL (touch new_computed_blocks)
     else assert_ (bool_decide (new_computed_blocks = []))) ;;
    let bs := replicate (Z.to_nat num_skipped_blocks) (_null_block m) ++ new_computed_blocks in
    put_blocks rid bs ;;
    zoom mgrL (modify (λ m, set_num_cached_block
      (<[rid := Z.of_nat (length bs)]> (num_cached_block m)) m)) ;;
    if 0 <? num_external then
      allocated_blocks ← zoom poolL (get_new_blocks use_int
        (cdiv num_total (mgr_block_size m) - Z.of_nat (length bs)));
      put_blocks rid (bs ++ allocated_blocks) ;;
      note_new_blocks allocated_blocks
    else mret tt.

Definition allocate_new_computed_blocks (rid : string) (new_computed_blocks : list loc)
    (num_local_computed_tokens num_external_computed_tokens : Z) : M PM unit :=
  m ← gets snd;
  match mgr_class m with
  | CrossAttentionManager => assert_ (bool_decide (length new_computed_blocks = 0%nat))
  | _ => base_allocate_new_computed_blocks rid new_computed_blocks num_local_computed_tokens
           num_external_computed_tokens
  end.

Definition base_allocate_new_blocks (rid : string) (num_tokens : Z) : M PM (list loc) :=
  bs ← req_blocks rid;
  m ← gets snd;
  let num_new_blocks := cdiv num_tokens (mgr_block_size m) - Z.of_nat (length bs) in
  if num_new_blocks <=? 0 then mret []
  else
    new_blocks ← zoom poolL (get_new_blocks use_int num_new_blocks);
    put_blocks rid (bs ++ new_blocks) ;;
    note_new_blocks new_blocks ;;
    mret new_blocks.

(** The speculative blocks of the previous step that move behind the null blocks
    ([for block_idx in range(prev_block_len - num_speculative_blocks, ...)]). *)
Fixpoint reuse_loop (null : loc) (num_skipped_blocks : Z) (idxs : list Z) (bs : list loc)
    : res (list loc) :=
  match idxs with
  | [] => Ok bs
  | block_idx :: rest =>
      if block_idx <? num_skipped_blocks then
        b ← py_get bs block_idx;
        let bs' := bs ++ [b] in
        reuse_loop null num_skipped_blocks rest
          (<[Z.to_nat (py_index (Z.of_nat (length bs')) block_idx) := null]> bs')
      else Ok bs
  end.

Definition mamba_allocate_new_blocks (rid : string) (num_tokens num_tokens_main_model : Z)
    : M PM (list loc) :=
  m ← gets snd;
  let nspec := num_speculative_blocks m in
  if negb (is_align m) then
    base_allocate_new_blocks rid
      (if 0 <? nspec then num_tokens + mgr_block_size m * nspec else num_tokens)
  else
    bs ← req_blocks rid;
    let num_required_blocks := cdiv num_tokens_main_model (mgr_block_size m) + nspec in
    let prev_block_len := Z.of_nat (length bs) in
    if bool_decide (num_required_blocks = prev_block_len) then mret []
    else
      assert_ (prev_block_len <? num_required_blocks) ;;
      let blocks_allocated := bool_decide (rid ∈ _allocated_block_reqs m) in
      (if blocks_allocated then
         zoom mgrL (modify (λ m, set_last_state
           (<[rid := prev_block_len - 1 - nspec]> (last_state_block_idx m)) m))
       else if 0 <? prev_block_len then
         zoom mgrL (modify (λ m, set_last_state
           (<[rid := prev_block_len - 1]> (last_state_block_idx m)) m))
       else mret tt) ;;
      let num_skipped_blocks := num_required_blocks - nspec - 1 in
      let bs1 := if prev_block_len <? num_skipped_blocks
                 then bs ++ replicate (Z.to_nat (num_skipped_blocks - prev_block_len)) (_null_block m)
                 else bs in
      put_blocks rid bs1 ;;
      bs2 ← (if blocks_allocated
             then lift_res (reuse_loop (_null_block m) num_skipped_blocks
                    (range (prev_block_len - nspec) prev_block_len) bs1)
             else mret bs1);
      put_blocks rid bs2 ;;
      let num_new_blocks := num_required_blocks - Z.of_nat (length bs2) in
      assert_ (if blocks_allocated then num_new_blocks <=? 1 else num_new_blocks <=? nspec + 1) ;;
      new_blocks ← zoom poolL (get_new_blocks use_int num_new_blocks);
      put_blocks rid (bs2 ++ new_blocks) ;;
      zoom mgrL (modify (λ m, set_allocated_reqs ({[rid]} ∪ _allocated_block_reqs m) m)) ;;
      mret (drop (length bs) (bs2 ++ new_blocks)).

Definition allocate_new_blocks (rid : string) (num_tokens num_tokens_main_model : Z)
    : M PM (list loc) :=
  m ← gets snd;
  match mgr_class m with
  | MambaManager => mamba_allocate_new_blocks rid num_tokens num_tokens_main_model
  | _ => base_allocate_new_blocks rid num_tokens
  end.

Definition take_new_block_ids : M PM (list Z) :=
  ids ← gets (λ s, new_block_ids s.2);
  zoom mgrL (modify (set_new_block_ids [])) ;; mret ids.

(** ** Caching *)

(** The result is the request with its memo, see [BlockPool.cache_full_blocks]. *)
Definition base_cache_blocks (request : Request) (num_tokens : Z) : M PM Request :=
  m ← gets snd;
  let rid := request_id request in
  let num_cached_blocks := default 0 (num_cached_block m !! rid) in
  let num_full_blocks := num_tokens / mgr_block_size m in
  if num_full_blocks <=? num_cached_blocks then mret request
  else
    bs ← req_blocks rid;
    request ← zoom poolL (cache_full_blocks use_int sha256 request bs num_cached_blocks
      num_full_blocks (mgr_block_size m) (kv_cache_group_id m));
    zoom mgrL (modify (λ m, set_num_cached_block (<[rid := num_full_blocks]> (num_cached_block m)) m)) ;;
    mret request.

Definition cache_blocks (request : Request) (num_tokens : Z) : M PM Request :=
  m ← gets snd;
  let rid := request_id request in
  match mgr_class m with
  | CrossAttentionManager => raise ValueError
  | MambaManager =>
      let before := default 0 (num_cached_block m !! rid) in
      request ← base_cache_blocks request num_tokens;
      after ← gets (λ s, default 0 (num_cached_block s.2 !! rid));
      (if before <? after then
         bs ← req_blocks rid;
         for_each (slice before after bs) (λ b,
           k ← gets (λ s, blk s.1 b);
           if is_null k then mret tt
           else
             h ← lift_opt AssertionError (_block_hash k);
             zoom mgrL (modify (λ m, set_cached_this_step ({[h]} ∪ cached_blocks_this_step m) m)))
       else mret tt) ;;
      mret request
  | _ => base_cache_blocks request num_tokens
  end.

Definition new_step_starts : M PM unit :=
  m ← gets snd;
  match mgr_class m with
  | MambaManager => zoom mgrL (modify (set_cached_this_step ∅))
  | _ => mret tt
  end.

(** ** Release *)

Definition base_free (rid : string) : M PM unit :=
  bs ← gets (λ s, blocks_of rid s.2);
  zoom mgrL (modify (λ m, set_req_to_blocks (delete rid (req_to_blocks m)) m)) ;;
  zoom poolL (free_blocks (rev bs)) ;;
  zoom mgrL (modify (λ m, set_num_cached_block (delete rid (num_cached_block m)) m)).

Definition free (rid : string) : M PM unit :=
  m ← gets snd;
  (if bool_decide (mgr_class m = MambaManager) && is_align m then
     zoom mgrL (modify (λ m, set_last_state (delete rid (last_state_block_idx m))
       (set_allocated_reqs (_allocated_block_reqs m ∖ {[rid]}) m)))
   else mret tt) ;;
  base_free rid.

(** [for i in range(n - 1, -1, -1)]: the blocks and the removed blocks.  Block
    objects are compared by location: [block_id] differs between any two. *)
Fixpoint skip_loop (null : loc) (n : nat) (bs removed : list loc) : list loc * list loc :=
  match n with
  | O => (bs, removed)
  | S i =>
      match bs !! i with
      | None => (bs, removed)
      | Some b =>
          if decide (b = null) then (bs, removed)
          else skip_loop null i (<[i := null]> bs) (removed ++ [b])
      end
  end.

Definition base_remove_skipped_blocks (rid : string) (total_computed_tokens : Z) : M PM unit :=
  m ← gets snd;
  let num_skipped_tokens := get_num_skipped_tokens m total_computed_tokens in
  if num_skipped_tokens <=? 0 then mret tt
  else
    bs ← req_blocks rid;
    let num_skipped_blocks :=
      Z.min (num_skipped_tokens / mgr_block_size m) (Z.of_nat (length bs)) in
    let '(bs', removed) := skip_loop (_null_block m) (Z.to_nat num_skipped_blocks) bs [] in
    put_blocks rid bs' ;;
    zoom poolL (free_blocks removed).

Definition mamba_remove_skipped_blocks (rid : string) (num_computed_tokens : Z) : M PM unit :=
  m ← gets snd;
  let num_computed_tokens := Z.max 0 (num_computed_tokens - num_speculative_blocks m) in
  base_remove_skipped_blocks rid num_computed_tokens ;;
  if is_align m then
    match last_state_block_idx m !! rid with
    | None => mret tt
    | Some idx =>
        if idx <? cdiv num_computed_tokens (mgr_block_size m) - 1 then
          bs ← req_blocks rid;
          b ← lift_res (py_get bs idx);
          if decide (b = _null_block m) then mret tt
          else
            zoom poolL (free_blocks [b]) ;;
            put_blocks rid (<[Z.to_nat (py_index (Z.of_nat (length bs)) idx) := _null_block m]> bs)
        else mret tt
    end
  else mret tt.

Definition remove_skipped_blocks (rid : string) (total_computed_tokens : Z) : M PM unit :=
  m ← gets snd;
  match mgr_class m with
  | MambaManager => mamba_remove_skipped_blocks rid total_computed_tokens
  | _ => base_remove_skipped_blocks rid total_computed_tokens
  end.

(** ** Common prefix *)

Fixpoint common_loop (p : BlockPool) (n : Z) (bs : list loc) : Z :=
  match bs with
  | [] => 0
  | b :: rest => if bool_decide (ref_cnt (blk p b) = n) then 1 + common_loop p n rest else 0
  end.

Definition get_num_common_prefix_blocks (running_request_id : string) : M PM Z :=
  m ← gets snd;
  match mgr_class m with
  | FullAttentionManager | SinkFullAttentionManager =>
      bs ← req_blocks running_request_id;
      gets (λ s, common_loop s.1 (Z.of_nat (size (req_to_blocks s.2))) bs)
  | _ => mret 0
  end.
End managers.
