(* ===== verification/CacheHit.v ===== *)
(** * Finding the longest cache hit

    [find_longest_cache_hit] of every manager class of
    [vllm/v1/core/single_type_kv_cache_manager.py]: class methods that read the
    pool and the block hashes of a request.  A hit is a list of blocks per group,
    with the null block for blocks outside of the attention window. *)

From stdpp Require Import base list gmap strings.
From Stdlib Require Import ZArith Lia.
From S2P Require Import Prelude FreeQueue Request BlockHash BlockPool KVCacheSpec CacheManagers.
Local Open Scope Z_scope.

Definition hv_len (v : HashView) : Z :=
  match v with HVList l => Z.of_nat (length l) | HVScaled l => bhl_len l end.

(** [if cached_block := block_pool.get_cached_block(...)]: an empty list is
    false. *)
Definition lookup_block (p : BlockPool) (v : HashView) (group_ids : list Z) (i : Z)
    : res (option (list loc)) :=
  h ← hv_get v i;
  o ← get_cached_block h group_ids p;
  Ok (match o with Some [] => None | _ => o end).

(** [computed.append(cached)], [computed[i] = cached], [computed.pop()] and
    [del computed[n:]] for all groups. *)
Definition append_each (computed : list (list loc)) (cached : list loc) : list (list loc) :=
  zip_with (λ c b, c ++ [b]) computed cached.
Definition set_each (i : nat) (computed : list (list loc)) (cached : list loc) : list (list loc) :=
  zip_with (λ c b, <[i := b]> c) computed cached.
Definition pop_each (computed : list (list loc)) : list (list loc) :=
  (λ c, take (pred (length c)) c) <$> computed.
Definition del_each (n : nat) (computed : list (list loc)) : list (list loc) :=
  take n <$> computed.

(** [computed_blocks[0]] *)
Definition first_group (computed : list (list loc)) : res (list loc) :=
  match computed with [] => Err IndexError | c :: _ => Ok c end.

(** [while block_size != alignment_tokens and len(computed_blocks[0]) * block_size
    % alignment_tokens != 0: pop]; the first list gets shorter, so [fuel] above
    its length is enough. *)
Fixpoint align_loop (fuel : nat) (block_size alignment : Z) (computed : list (list loc))
    : res (list (list loc)) :=
  match fuel with
  | O => Err OutOfFuel
  | S fuel =>
      if bool_decide (block_size = alignment) then Ok computed
      else
        c ← first_group computed;
        r ← py_mod (Z.of_nat (length c) * block_size) alignment;
        if bool_decide (r = 0) then Ok computed
        else align_loop fuel block_size alignment (pop_each computed)
  end.
Definition align_blocks (block_size alignment : Z) (computed : list (list loc))
    : res (list (list loc)) :=
  align_loop (S (match computed with c :: _ => length c | [] => 0 end)) block_size alignment computed.

(** [if use_eagle and computed_blocks[0]] *)
Definition eagle_drop (use_eagle : bool) (computed : list (list loc)) : res (list (list loc)) :=
  if use_eagle then
    c ← first_group computed;
    Ok (if bool_decide (c = []) then computed else pop_each computed)
  else Ok computed.

(** ** Full attention: scan from the left *)

Fixpoint full_loop (p : BlockPool) (v : HashView) (group_ids : list Z) (idxs : list Z)
    (computed : list (list loc)) : res (list (list loc)) :=
  match idxs with
  | [] => Ok computed
  | i :: rest =>
      o ← lookup_block p v group_ids i;
      match o with
      | Some cached => full_loop p v group_ids rest (append_each computed cached)
      | None => Ok computed
      end
  end.

(** [itertools.islice(block_hashes, n)] refuses a negative [n]. *)
Definition full_find_longest_cache_hit (p : BlockPool) (v : HashView) (max_length : Z)
    (group_ids : list Z) (spec : LayerSpec) (use_eagle : bool) (alignment dcp pcp : Z)
    : res (list (list loc)) :=
  if negb (is_full spec || is_chunked spec) then Err AssertionError
  else
    let block_size := layer_block_size spec * (if 1 <? dcp * pcp then dcp * pcp else 1) in
    max_num_blocks ← py_div max_length block_size;
    if max_num_blocks <? 0 then Err ValueError
    else
      computed ← full_loop p v group_ids (range 0 (Z.min max_num_blocks (hv_len v)))
                   ((λ _, []) <$> group_ids);
      computed ← eagle_drop use_eagle computed;
      align_blocks block_size alignment computed.

(** ** Sliding window: scan from the right *)

(** The loop over [i = n - 1 .. 0]; the result is the blocks, the number of
    contiguous blocks and [match_found]. *)
Fixpoint window_loop (p : BlockPool) (v : HashView) (group_ids : list Z)
    (block_size alignment need : Z) (n : nat) (computed : list (list loc)) (contiguous : Z)
    : res (list (list loc) * Z * bool) :=
  match n with
  | O => Ok (computed, contiguous, false)
  | S i =>
      o ← lookup_block p v group_ids (Z.of_nat i);
      match o with
      | Some cached =>
          if bool_decide (contiguous = 0) && negb (bool_decide (block_size = alignment)) &&
             negb (bool_decide (((Z.of_nat i + 1) * block_size) mod alignment = 0))
          then window_loop p v group_ids block_size alignment need i computed contiguous
          else
            let computed := set_each i computed cached in
            let contiguous := contiguous + 1 in
            if need <=? contiguous
            then Ok (del_each (i + Z.to_nat contiguous) computed, contiguous, true)
            else window_loop p v group_ids block_size alignment need i computed contiguous
      | None => window_loop p v group_ids block_size alignment need i computed 0
      end
  end.

Definition sliding_find_longest_cache_hit (p : BlockPool) (v : HashView) (max_length : Z)
    (group_ids : list Z) (spec : LayerSpec) (use_eagle : bool) (alignment dcp pcp : Z)
    : res (list (list loc)) :=
  match spec with
  | SlidingWindowSpec a sliding_window =>
      if negb (bool_decide (dcp = 1)) || negb (bool_decide (pcp = 1)) then Err AssertionError
      else
        let block_size := a_block_size a in
        let need := cdiv (sliding_window - 1) block_size + (if use_eagle then 1 else 0) in
        max_num_blocks ← py_div max_length block_size;
        let n := Z.to_nat max_num_blocks in
        '(computed, contiguous, match_found) ←
          window_loop p v group_ids block_size alignment need n
            ((λ _, replicate n (null_block p)) <$> group_ids) 0;
        computed ← (if (match_found : bool) then Ok computed
                    else align_blocks block_size alignment (del_each (Z.to_nat contiguous) computed));
        if use_eagle then
          c ← first_group computed;
          if bool_decide (c = []) then Ok computed
          else if bool_decide (block_size = alignment) then Ok (pop_each computed)
          else Err AssertionError
        else Ok computed
  | _ => Err AssertionError
  end.

(** ** Chunked local attention *)

Definition chunked_find_longest_cache_hit (p : BlockPool) (v : HashView) (max_length : Z)
    (group_ids : list Z) (spec : LayerSpec) (use_eagle : bool) (alignment dcp pcp : Z)
    : res (list (list loc)) :=
  match spec with
  | ChunkedLocalAttentionSpec a chunk =>
      if use_eagle || negb (bool_decide (dcp = 1)) || negb (bool_decide (pcp = 1)) ||
         negb (bool_decide (a_block_size a = alignment)) then Err AssertionError
      else
        max_num_blocks ← py_div max_length (a_block_size a);
        local_attention_start_idx ←
          (if 0 <? max_length then q ← py_div max_length chunk; Ok (q * chunk) else Ok 0);
        let start_block := local_attention_start_idx / a_block_size a in
        full_loop p v group_ids (range start_block max_num_blocks)
          ((λ _, replicate (Z.to_nat start_block) (null_block p)) <$> group_ids)
  | _ => Err AssertionError
  end.

(** ** Mamba: the last cached state *)

Fixpoint mamba_loop (p : BlockPool) (v : HashView) (group_ids : list Z) (block_size alignment : Z)
    (n : nat) (computed : list (list loc)) : res (list (list loc)) :=
  match n with
  | O => Ok computed
  | S i =>
      o ← lookup_block p v group_ids (Z.of_nat i);
      match o with
      | Some cached =>
          if negb (bool_decide (block_size = alignment)) &&
             negb (bool_decide (((Z.of_nat i + 1) * block_size) mod alignment = 0))
          then mamba_loop p v group_ids block_size alignment i computed
          else Ok (zip_with (λ c b, c ++ replicate i (null_block p) ++ [b]) computed cached)
      | None => mamba_loop p v group_ids block_size alignment i computed
      end
  end.

Definition mamba_find_longest_cache_hit (p : BlockPool) (v : HashView) (max_length : Z)
    (group_ids : list Z) (spec : LayerSpec) (use_eagle : bool) (alignment dcp pcp : Z)
    : res (list (list loc)) :=
  match spec with
  | MambaSpec block_size _ _ _ _ _ _ =>
      if negb (bool_decide (dcp = 1)) || negb (bool_decide (pcp = 1)) then Err AssertionError
      else
        max_num_blocks ← py_div max_length block_size;
        mamba_loop p v group_ids block_size alignment (Z.to_nat max_num_blocks) ((λ _, []) <$> group_ids)
  | _ => Err AssertionError
  end.

(** ** Dispatch *)

Definition find_longest_cache_hit (c : ManagerClass) (p : BlockPool) (v : HashView)
    (max_length : Z) (group_ids : list Z) (spec : LayerSpec) (use_eagle : bool)
    (alignment dcp pcp : Z) : res (list (list loc)) :=
  match c with
  | FullAttentionManager | SinkFullAttentionManager =>
      full_find_longest_cache_hit p v max_length group_ids spec use_eagle alignment dcp pcp
  | SlidingWindowManager =>
      sliding_find_longest_cache_hit p v max_length group_ids spec use_eagle alignment dcp pcp
  | ChunkedLocalAttentionManager =>
      chunked_find_longest_cache_hit p v max_length group_ids spec use_eagle alignment dcp pcp
  | MambaManager =>
      mamba_find_longest_cache_hit p v max_length group_ids spec use_eagle alignment dcp pcp
  | CrossAttentionManager =>
      match spec with CrossAttentionSpec _ => Err NotImplementedError | _ => Err AssertionError end
  end.

(** ** What a hit is *)

(** Block [b] caches the content hashed [h] for group [gid]. *)
Definition cached_as (p : BlockPool) (h : BlockHash) (gid : Z) (b : loc) : Prop :=
  (b < nblocks p)%nat ∧ hash_of p b = Some (h ++ be_bytes 4 gid).

(** Block index [i] of the request is cached for all of the groups. *)
Definition is_hit (p : BlockPool) (v : HashView) (gids : list Z) (i : nat) : Prop :=
  ∃ h, hv_get v (Z.of_nat i) = Ok h ∧ ∀ g, g ∈ gids → ∃ b, cached_as p h g b.

(** The blocks a group of a class needs to continue after [n] blocks: all of
    them, those inside the attention window, or the last one. *)
Definition required (spec : LayerSpec) (n i : nat) : Prop :=
  match spec with
  | SlidingWindowSpec a w =>
      (i < n)%nat ∧ Z.of_nat n - Z.max 1 (cdiv (w - 1) (a_block_size a)) ≤ Z.of_nat i
  | ChunkedLocalAttentionSpec a chunk =>
      (i < n)%nat ∧ Z.of_nat n * a_block_size a / chunk * chunk / a_block_size a ≤ Z.of_nat i
  | MambaSpec _ _ _ _ _ _ _ => n = S i
  | _ => (i < n)%nat
  end.

Definition aligned (block_size alignment : Z) (n : nat) : Prop :=
  block_size = alignment ∨ (Z.of_nat n * block_size) mod alignment = 0.

(** [n] is the greatest number of blocks up to [N] at which a request can continue. *)
Definition longest_hit (spec : LayerSpec) (hit : nat → Prop) (alignment : Z) (N n : nat) : Prop :=
  (n ≤ N)%nat ∧ aligned (layer_block_size spec) alignment n ∧ (∀ i, required spec n i → hit i) ∧
  ∀ n', (n < n' ≤ N)%nat → aligned (layer_block_size spec) alignment n' →
    ¬ ∀ i, required spec n' i → hit i.

(** ** Tables of blocks *)

Section scan.
Context (p : BlockPool) (v : HashView) (gids : list Z).
Context (f : nat → option (list loc)) (N : nat).
Context (Hf : ∀ i, (i < N)%nat → lookup_block p v gids (Z.of_nat i) = Ok (f i)).
Context (Hf_len : ∀ i row, f i = Some row → length row = length gids).

(** [b] is the block found for index [i] and the group at position [g]. *)
Definition found (g i : nat) (b : loc) : Prop := ∃ row, f i = Some row ∧ row !! g = Some b.

(** [n] blocks per group; those at the indices [H] are hits, the others are hits
    or null. *)
Record table (computed : list (list loc)) (n : nat) (H : nat → Prop) : Prop := {
  t_groups : length computed = length gids;
  t_len : ∀ g c, computed !! g = Some c → length c = n;
  t_entry : ∀ g c i b, computed !! g = Some c → c !! i = Some b →
    (H i → found g i b) ∧ (b = null_block p ∨ found g i b)
}.

Lemma table_weaken computed n (H H' : nat → Prop) :
  table computed n H → (∀ i, (i < n)%nat → H' i → H i) → table computed n H'.
Proof.
  intros [] HH. split; [done|done|]. intros g c i b Hg Hi. destruct (t_entry0 g c i b Hg Hi).
  split; [|done]. intros Hi'. apply H0, HH; [|done]. apply lookup_lt_Some in Hi. by rewrite (t_len0 g c Hg) in Hi.
Qed.

Lemma table_nulls n (H : nat → Prop) :
  (∀ i, (i < n)%nat → ¬ H i) → table ((λ _, replicate n (null_block p)) <$> gids) n H.
Proof.
  intros HH. split.
  - by rewrite length_fmap.
  - intros g c Hg. apply list_lookup_fmap_Some in Hg as (? & -> & _). by rewrite length_replicate.
  - intros g c i b Hg Hi. apply list_lookup_fmap_Some in Hg as (? & -> & _).
    apply lookup_replicate in Hi as [-> Hi]. split; [intros Hh; by destruct (HH i Hi)|by left].
Qed.

Lemma table_append computed n H row :
  table computed n H → f n = Some row → table (append_each computed row) (S n) (λ i, H i ∨ i = n).
Proof.
  intros [] Hrow. pose proof (Hf_len n row Hrow) as Hl. split; unfold append_each.
  - rewrite length_zip_with. lia.
  - intros g c (c0 & b & -> & Hg & Hb)%lookup_zip_with_Some. rewrite length_app, (t_len0 g c0 Hg). simpl. lia.
  - intros g c i b (c0 & b0 & -> & Hg & Hb)%lookup_zip_with_Some Hi. pose proof (t_len0 g c0 Hg) as Hn.
    apply lookup_app_Some in Hi as [Hi|[Hge Hi]].
    + destruct (t_entry0 g c0 i b Hg Hi) as [H1 H2]. split; [|done]. intros [?| ->]; [auto|].
      apply lookup_lt_Some in Hi. lia.
    + apply list_lookup_singleton_Some in Hi as [Ei ->]. assert (i = n) as -> by lia.
      split; [intros _|right]; by exists row.
Qed.

Lemma table_set computed n H i row :
  table computed n H → f i = Some row → table (set_each i computed row) n (λ j, H j ∨ j = i).
Proof.
  intros [] Hrow. pose proof (Hf_len i row Hrow) as Hl. split; unfold set_each.
  - rewrite length_zip_with. lia.
  - intros g c (c0 & b & -> & Hg & Hb)%lookup_zip_with_Some. by rewrite length_insert, (t_len0 g c0 Hg).
  - intros g c j b (c0 & b0 & -> & Hg & Hb)%lookup_zip_with_Some Hj.
    apply list_lookup_insert_Some in Hj as [(-> & <- & _)|[Hne Hj]].
    + split; [intros _|right]; by exists row.
    + destruct (t_entry0 g c0 j b Hg Hj) as [H1 H2]. split; [|done]. intros [?|E]; [auto|done].
Qed.

Lemma table_take computed n H m : table computed n H → (m ≤ n)%nat → table (del_each m computed) m H.
Proof.
  intros [] Hm. split; unfold del_each.
  - by rewrite length_fmap.
  - intros g c (c0 & -> & Hg)%list_lookup_fmap_Some. rewrite length_take, (t_len0 g c0 Hg). lia.
  - intros g c i b (c0 & -> & Hg)%list_lookup_fmap_Some Hi. apply lookup_take_Some in Hi as [Hi _]. eauto.
Qed.

Lemma table_pop computed n H : table computed n H → table (pop_each computed) (pred n) H.
Proof.
  intros Ht. assert (pop_each computed = del_each (pred n) computed) as ->.
  { apply list_fmap_ext. intros g c Hg. by rewrite (t_len _ _ _ Ht g c Hg). }
  apply table_take with n; [done|lia].
Qed.

Lemma table_first computed n H : table computed n H → gids ≠ [] →
  ∃ c rest, computed = c :: rest ∧ length c = n.
Proof.
  intros [] Hne. destruct computed as [|c rest]; [by destruct gids|].
  exists c, rest. split; [done|]. by apply (t_len0 0%nat).
Qed.

(** ** The scans *)

Lemma range_cons (i j : nat) : (i < j)%nat → range (Z.of_nat i) (Z.of_nat j) = Z.of_nat i :: range (Z.of_nat (S i)) (Z.of_nat j).
Proof.
  intros Hij. unfold range. rewrite seqZ_cons by lia. do 2 f_equal; lia.
Qed.

(** From the left: up to the first miss. *)
Lemma full_loop_spec (i m : nat) computed H :
  (m ≤ N)%nat → (i ≤ m)%nat → table computed i H →
  ∃ n computed', full_loop p v gids (range (Z.of_nat i) (Z.of_nat m)) computed = Ok computed' ∧
    (i ≤ n ≤ m)%nat ∧ table computed' n (λ j, H j ∨ (i ≤ j)%nat) ∧
    (∀ j, (i ≤ j < n)%nat → is_Some (f j)) ∧ ((n < m)%nat → f n = None).
Proof.
  intros Hm. remember (m - i)%nat as d eqn:Hd. revert i computed H Hd.
  induction d as [|d IH]; intros i computed H Hd Hi Ht.
  - assert (i = m) as -> by lia. exists m, computed. unfold range. rewrite Z.sub_diag. simpl.
    split_and!; [done|lia|lia| | lia|lia]. eapply table_weaken; [done|]. intros j Hj [?|?]; [done|lia].
  - rewrite range_cons by lia. cbn [full_loop]. rewrite Hf by lia. simpl.
    destruct (f i) as [row|] eqn:Efi.
    + destruct (IH (S i) (append_each computed row) (λ j, H j ∨ j = i)) as (n & c' & Hc & Hn & Ht' & Hhit & Hmiss);
        [lia|lia|by apply table_append|].
      exists n, c'. split; [exact Hc|]. split; [lia|]. split_and!; [|intros j Hj|done].
      * eapply table_weaken; [exact Ht'|]. cbv beta. intros j _ [?|?]; [auto|].
        destruct (decide (j = i)); [auto|right; lia].
      * destruct (decide (j = i)) as [->|]; [by rewrite Efi|apply Hhit; lia].
    + exists i, computed. split_and!; [done|lia|lia| |lia|done].
      eapply table_weaken; [done|]. intros j Hj [?|?]; [done|lia].
Qed.

(** From the right: to the last window of [need] hits that ends aligned. *)
Section window.
Context (bs al : Z) (need : Z).
Abbreviation ok_end := (aligned bs al).
Definition window_hit (n : nat) : Prop :=
  ∀ j, (j < n)%nat → Z.of_nat n - Z.max 1 need ≤ Z.of_nat j → is_Some (f j).

Record window_inv (i c : nat) (computed : list (list loc)) : Prop := {
  wi_bound : (i + c ≤ N)%nat;
  wi_table : table computed N (λ j, (i ≤ j < i + c)%nat);
  wi_hit : ∀ j, (i ≤ j < i + c)%nat → is_Some (f j);
  wi_end : (0 < c)%nat → ok_end (i + c) ∧ Z.of_nat c < Z.max 1 need;
  wi_none : ∀ e, (i + c < e ≤ N)%nat → ok_end e → ¬ window_hit e
}.

(** The test that passes over a block which is not the end of an aligned window. *)
Abbreviation skips i c :=
  (bool_decide (Z.of_nat c = 0) && negb (bool_decide (bs = al)) &&
   negb (bool_decide (((Z.of_nat i + 1) * bs) mod al = 0))).

Lemma skips_true i c : skips i c = true → c = 0%nat ∧ ¬ ok_end (S i).
Proof.
  intros [[Ec Ebs]%andb_prop Eal]%andb_prop. apply bool_decide_eq_true in Ec.
  rewrite negb_true_iff, bool_decide_eq_false in Ebs, Eal. split; [lia|].
  intros [?|Hok]; [done|]. apply Eal. rewrite <-Hok. do 2 f_equal. lia.
Qed.

Lemma skips_false i c computed :
  skips i c = false → window_inv (S i) c computed → ok_end (i + S c).
Proof.
  intros Eskip Hw. destruct (decide (c = 0%nat)) as [->|].
  - apply andb_false_iff in Eskip as [[Eskip|Eskip]%andb_false_iff|Eskip].
    + by rewrite bool_decide_eq_false in Eskip.
    + left. by rewrite negb_false_iff, bool_decide_eq_true in Eskip.
    + right. rewrite negb_false_iff, bool_decide_eq_true in Eskip. rewrite <-Eskip. do 2 f_equal. lia.
  - replace (i + S c)%nat with (S i + c)%nat by lia. apply (wi_end _ _ _ Hw). lia.
Qed.

(** A hit extends the run. *)
Lemma window_inv_hit i c computed row :
  window_inv (S i) c computed → f i = Some row → skips i c = false →
  Z.of_nat (S c) < Z.max 1 need → window_inv i (S c) (set_each i computed row).
Proof.
  intros Hw Efi Hs Hlt. pose proof (skips_false _ _ _ Hs Hw) as Hend. destruct Hw as [Hb Ht Hh He Hn].
  split; [lia| | |done|].
  - eapply table_weaken; [apply table_set; [exact Ht|exact Efi]|]. cbv beta. intros; lia.
  - intros j Hj. destruct (decide (j = i)) as [->|]; [by rewrite Efi|apply Hh; lia].
  - intros e He' Hok. apply Hn; [lia|done].
Qed.

(** A miss, or a block that is passed over, ends it. *)
Lemma window_inv_miss i c computed :
  window_inv (S i) c computed → (f i = None ∨ c = 0%nat ∧ ¬ ok_end (S i)) →
  window_inv i 0 computed.
Proof.
  intros [Hb Ht Hh He Hn] Hmiss. split; rewrite ?Nat.add_0_r; [lia| |lia|lia|].
  - eapply table_weaken; [exact Ht|]. cbv beta. intros; lia.
  - intros e He' Hok Hw. destruct (decide (S i + c < e)%nat); [apply (Hn e); [lia|done|done]|].
    destruct Hmiss as [Efi|[-> Hno]].
    + assert (is_Some (f i)) as [? E]; [|by rewrite Efi in E]. apply Hw; [lia|].
      destruct (decide (c = 0%nat)); [lia|]. destruct He as [_ ?]; lia.
    + by assert (e = S i) as -> by lia.
Qed.

Lemma window_loop_spec i c computed :
  window_inv i c computed →
  ∃ n computed' m b,
    window_loop p v gids bs al need i computed (Z.of_nat c) = Ok (computed', Z.of_nat m, b) ∧
    (n ≤ N)%nat ∧ ((0 < n)%nat → ok_end n) ∧ window_hit n ∧
    (∀ e, (n < e ≤ N)%nat → ok_end e → ¬ window_hit e) ∧
    table (if (b : bool) then computed' else del_each m computed') n
      (λ j, Z.of_nat n - Z.max 1 need ≤ Z.of_nat j) ∧
    (b = false → m = n).
Proof.
  revert c computed. induction i as [|i IH]; intros c computed Hw; cbn [window_loop].
  - destruct Hw as [Hb Ht Hh He Hn].
    exists c, computed, c, false. split_and!; [done|lia|intros H0; by destruct (He H0)| |done| |done].
    + intros j Hj _. apply Hh. lia.
    + eapply table_weaken; [eapply table_take; [exact Ht|lia]|]. cbv beta. intros j Hj _. lia.
  - rewrite Hf by (pose proof (wi_bound _ _ _ Hw); lia). simpl. destruct (f i) as [row|] eqn:Efi.
    2:{ apply (IH 0%nat), (window_inv_miss _ _ _ Hw). by left. }
    destruct (skips i c) eqn:Eskip.
    { apply skips_true in Eskip as [-> Hno]. apply IH, (window_inv_miss _ _ _ Hw). by right. }
    replace (Z.of_nat c + 1) with (Z.of_nat (S c)) by lia.
    destruct (Z.leb_spec need (Z.of_nat (S c))) as [Hle|Hgt].
    2:{ apply IH, window_inv_hit; [done|done|done|lia]. }
    pose proof (skips_false _ _ _ Eskip Hw) as Hend. destruct Hw as [Hb Ht Hh He Hn].
    exists (i + S c)%nat, (del_each (i + Z.to_nat (Z.of_nat (S c))) (set_each i computed row)), (S c), true.
    split; [done|]. split; [lia|]. split; [done|]. split_and!; [| | |done].
    + intros j Hj Hwin. destruct (decide (j = i)) as [->|]; [by rewrite Efi|apply Hh; lia].
    + intros e He' Hok. apply Hn; [lia|done].
    + rewrite Nat2Z.id. eapply table_weaken; [eapply table_take; [apply table_set; [exact Ht|exact Efi]|lia]|].
      cbv beta. intros; lia.
Qed.
End window.

(** From the right: the last aligned hit. *)
Lemma mamba_loop_spec bs al i computed :
  (i ≤ N)%nat → table computed 0 (λ _, False) →
  (∀ e, (i < e ≤ N)%nat → aligned bs al e → f (pred e) = None) →
  ∃ n computed', mamba_loop p v gids bs al i computed = Ok computed' ∧ (n ≤ i)%nat ∧
    ((0 < n)%nat → aligned bs al n ∧ is_Some (f (pred n))) ∧
    (∀ e, (n < e ≤ N)%nat → aligned bs al e → f (pred e) = None) ∧
    table computed' n (λ j, n = S j).
Proof.
  intros Hi Ht. revert Hi. induction i as [|i IH]; intros Hi Hnone; cbn [mamba_loop].
  { exists 0%nat, computed. split_and!; [done|lia|lia|done|]. eapply table_weaken; [exact Ht|]. intros; lia. }
  rewrite Hf by lia. simpl. destruct (f i) as [row|] eqn:Efi.
  2:{ destruct IH as (n & c' & ? & ? & ?); [lia| |exists n, c'; split; [done|split; [lia|done]]].
      intros e He. destruct (decide (e = S i)) as [->|]; [done|]. apply Hnone. lia. }
  destruct (negb (bool_decide (bs = al)) && _) eqn:Eal.
  - destruct IH as (n & c' & ? & ? & ?); [lia| |exists n, c'; split; [done|split; [lia|done]]].
    intros e He Hok. destruct (decide (e = S i)) as [->|]; [|apply Hnone; [lia|done]].
    apply andb_prop in Eal as [E1 E2]. rewrite negb_true_iff, bool_decide_eq_false in E1, E2.
    exfalso. destruct Hok as [?|Hok]; [done|]. apply E2. rewrite <-Hok. do 2 f_equal. lia.
  - exists (S i), (zip_with (λ c b, c ++ replicate i (null_block p) ++ [b]) computed row).
    pose proof (Hf_len i row Efi) as Hl. destruct Ht as [Hg Hlen He]. split; [done|]. split; [lia|]. split_and!.
    + intros _. split; [|simpl; by rewrite Efi]. apply andb_false_iff in Eal as [E|E];
        rewrite negb_false_iff, bool_decide_eq_true in E; [by left|right].
      rewrite <-E. do 2 f_equal. lia.
    + done.
    + split.
      * rewrite length_zip_with. lia.
      * intros g c (c0 & b & -> & Hc & Hb)%lookup_zip_with_Some. apply Hlen in Hc.
        rewrite !length_app, length_replicate, Hc. simpl. lia.
      * intros g c j b (c0 & b0 & -> & Hc & Hb)%lookup_zip_with_Some Hj. apply Hlen, nil_length_inv in Hc as ->.
        simpl in Hj. apply lookup_app_Some in Hj as [Hj|[Hge Hj]].
        -- apply lookup_replicate in Hj as [-> Hj]. split; [lia|by left].
        -- rewrite length_replicate in *. apply list_lookup_singleton_Some in Hj as [Ej ->].
           assert (j = i) as -> by lia. split; [intros _|right]; by exists row.
Qed.

(** Popping to the next aligned length. *)
Lemma align_blocks_spec bs al computed n H :
  gids ≠ [] → 0 < al → table computed n H →
  ∃ n' computed', align_blocks bs al computed = Ok computed' ∧ (n' ≤ n)%nat ∧ aligned bs al n' ∧
    (∀ m, (n' < m ≤ n)%nat → ¬ aligned bs al m) ∧ table computed' n' H.
Proof.
  intros Hne Hal Ht. unfold align_blocks.
  assert (match computed with c :: _ => length c | [] => 0%nat end = n) as ->.
  { by destruct (table_first _ _ _ Ht Hne) as (c & rest & -> & ?). }
  revert computed Ht. induction n as [|n IH]; intros computed Ht;
    destruct (table_first _ _ _ Ht Hne) as (c & rest & Ec & Hc).
  - exists 0%nat, computed. cbn [align_loop]. case_bool_decide as E.
    { split_and!; [done|lia|by left|lia|done]. }
    subst computed. cbn [first_group mbind res_bind]. rewrite Hc. unfold py_mod.
    rewrite bool_decide_eq_false_2 by lia. cbn. split_and!; [done|lia|by right|lia|done].
  - remember (S n) as m. cbn [align_loop]. case_bool_decide as E.
    { exists m, computed. split_and!; [done|lia|by left|lia|done]. }
    replace (first_group computed) with (Ok c) by (by subst computed). cbn [mbind res_bind]. rewrite Hc. unfold py_mod.
    rewrite bool_decide_eq_false_2 by lia. cbn [mbind res_bind]. case_bool_decide as Er.
    { exists m, computed. split_and!; [done|lia|by right|lia|done]. }
    subst m. destruct (IH (pop_each computed)) as (n' & c' & ? & ? & ? & Hmax & ?); [by apply (table_pop _ _ _ Ht)|].
    exists n', c'. split_and!; [done|lia|done| |done]. intros m Hm.
    destruct (decide (m = S n)) as [->|]; [|apply Hmax; lia]. by intros [?|?].
Qed.
End scan.

(** ** Looking up one block *)

Definition row_at (p : BlockPool) (v : HashView) (gids : list Z) (i : nat) : option (list loc) :=
  match lookup_block p v gids (Z.of_nat i) with Ok o => o | Err _ => None end.

Section lookup.
Context (p : BlockPool) (free : list loc) (Hok : pool_ok p free).
Context (v : HashView) (gids : list Z) (Hne : gids ≠ []) (Hgids : Forall (λ g, 0 ≤ g < 2 ^ 32) gids).

Lemma lookup_block_spec i h :
  hv_get v (Z.of_nat i) = Ok h →
  lookup_block p v gids (Z.of_nat i) = Ok (row_at p v gids i) ∧
  match row_at p v gids i with
  | Some row => Forall2 (λ b g, cached_as p h g b) row gids
  | None => ¬ is_hit p v gids i
  end.
Proof.
  intros Hh. unfold row_at. assert (∃ o, lookup_block p v gids (Z.of_nat i) = Ok o ∧
    match o with
    | Some row => Forall2 (λ b g, cached_as p h g b) row gids
    | None => ¬ is_hit p v gids i
    end) as (o & -> & Ho); [|by split].
  unfold lookup_block. rewrite Hh. cbn [mbind res_bind].
  pose proof (get_cached_loop_spec p free h gids [] [] Hok Hgids ltac:(constructor)) as Hspec.
  unfold get_cached_block. destruct (get_cached_loop _ _ _ _) as [[row|]|]; [| |done]; cbn [mbind res_bind].
  - simpl in Hspec. exists (match row with [] => None | _ => Some row end).
    destruct row as [|b row]; [by apply Forall2_nil_inv_l in Hspec|]. done.
  - exists None. split; [done|]. intros (h' & Hh' & Hhit). rewrite Hh in Hh'. apply Ok_inj in Hh' as <-.
    destruct Hspec as (g & Hg & Hno). destruct (Hhit g Hg) as [b Hb]. by apply (Hno b).
Qed.

Context (N : nat) (Hhash : ∀ i, (i < N)%nat → ∃ h, hv_get v (Z.of_nat i) = Ok h).

Lemma row_at_ok i : (i < N)%nat → lookup_block p v gids (Z.of_nat i) = Ok (row_at p v gids i).
Proof. intros [h Hh]%Hhash. by apply (lookup_block_spec i h). Qed.

Lemma row_at_some i row : row_at p v gids i = Some row →
  ∃ h, hv_get v (Z.of_nat i) = Ok h ∧ Forall2 (λ b g, cached_as p h g b) row gids.
Proof.
  intros E. destruct (hv_get v (Z.of_nat i)) as [h|e] eqn:Eh.
  - exists h. split; [done|]. destruct (lookup_block_spec i h Eh) as [_ H]. by rewrite E in H.
  - unfold row_at, lookup_block in E. by rewrite Eh in E.
Qed.

Lemma row_at_len i row : row_at p v gids i = Some row → length row = length gids.
Proof. intros (h & _ & H)%row_at_some. by apply Forall2_length in H. Qed.

Lemma row_at_hit i : (i < N)%nat → is_Some (row_at p v gids i) ↔ is_hit p v gids i.
Proof.
  intros [h Hh]%Hhash. destruct (lookup_block_spec i h Hh) as [_ H].
  destruct (row_at p v gids i) as [row|]; [|split; [by intros []|done]].
  split; [intros _|eauto]. exists h. split; [done|]. intros g [j Hg]%list_elem_of_lookup.
  destruct (Forall2_lookup_r _ _ _ _ _ H Hg) as (b & _ & ?). eauto.
Qed.

Lemma found_cached g gid i b :
  found (row_at p v gids) g i b → gids !! g = Some gid →
  ∃ h, hv_get v (Z.of_nat i) = Ok h ∧ cached_as p h gid b.
Proof.
  intros (row & Hrow & Hb) Hg. destruct (row_at_some i row Hrow) as (h & Hh & H).
  exists h. split; [done|]. exact (Forall2_lookup_lr _ _ _ _ _ _ H Hb Hg).
Qed.
End lookup.

(** ** Each class finds the longest hit *)

#[export] Instance required_dec spec n i : Decision (required spec n i).
Proof. destruct spec; simpl; apply _. Defined.

(** A hit of [n] blocks: the greatest possible number; every list has [n] blocks,
    each cached for its index and group or, where the group does not need it, null. *)
Record hit_result (p : BlockPool) (v : HashView) (gids : list Z) (spec : LayerSpec)
    (alignment : Z) (N : nat) (computed : list (list loc)) (n : nat) : Prop := {
  hit_longest : longest_hit spec (is_hit p v gids) alignment N n;
  hit_groups : length computed = length gids;
  hit_blocks : ∀ g gid c, gids !! g = Some gid → computed !! g = Some c → length c = n ∧
    ∀ i b, c !! i = Some b →
      (∃ h, hv_get v (Z.of_nat i) = Ok h ∧ cached_as p h gid b) ∨
      b = null_block p ∧ ¬ required spec n i
}.

(** What the methods are given: hashes for the first [N] blocks, a positive block
    size; chunks of whole blocks. *)
Record hit_pre (p : BlockPool) (v : HashView) (gids : list Z) (spec : LayerSpec)
    (alignment max_length : Z) : Prop := {
  hp_pool : ∃ free, pool_ok p free;
  hp_groups : gids ≠ [] ∧ Forall (λ g, 0 ≤ g < 2 ^ 32) gids;
  hp_len : 0 ≤ max_length;
  hp_size : 0 < layer_block_size spec;
  hp_align : 0 < alignment;
  hp_hashes : max_length / layer_block_size spec ≤ hv_len v ∧
    ∀ i, Z.of_nat i < max_length / layer_block_size spec → ∃ h, hv_get v (Z.of_nat i) = Ok h;
  hp_spec : match spec with
    | ChunkedLocalAttentionSpec a chunk => a_block_size a = alignment ∧ ∃ k, 0 < k ∧ chunk = k * a_block_size a
    | CrossAttentionSpec _ | EncoderOnlyAttentionSpec _ => False
    | _ => True
    end
}.

Section classes.
Context (p : BlockPool) (v : HashView) (gids : list Z) (spec : LayerSpec) (al max_length : Z).
Context (Hpre : hit_pre p v gids spec al max_length).
Abbreviation bs := (layer_block_size spec).
Abbreviation N := (Z.to_nat (max_length / bs)).
Abbreviation f := (row_at p v gids).

Lemma max_blocks : Z.of_nat N = max_length / bs.
Proof. rewrite Z2Nat.id; [done|]. apply Z.div_pos; apply Hpre. Qed.

Lemma f_lookup i : (i < N)%nat → lookup_block p v gids (Z.of_nat i) = Ok (f i).
Proof.
  intros Hi. destruct Hpre as [[free Hok] [Hne Hg] _ _ _ [_ Hh] _].
  eapply row_at_ok; [exact Hok|done|done| |exact Hi]. intros j Hj. apply Hh. lia.
Qed.

Lemma f_len i row : f i = Some row → length row = length gids.
Proof. destruct Hpre as [[free Hok] [Hne Hg] _ _ _ _ _]. by eapply row_at_len. Qed.

Lemma f_hit i : (i < N)%nat → is_Some (f i) ↔ is_hit p v gids i.
Proof.
  intros Hi. destruct Hpre as [[free Hok] [Hne Hg] _ _ _ [_ Hh] _].
  eapply row_at_hit; [exact Hok|done|done| |exact Hi]. intros j Hj. apply Hh. lia.
Qed.

(** The required indices are below [n]. *)
Lemma required_lt n i : required spec n i → (i < n)%nat.
Proof. destruct spec; simpl; lia. Qed.

Lemma table_result computed n H :
  table p gids f computed n H → (∀ i, required spec n i → H i) →
  (n ≤ N)%nat → aligned bs al n → (∀ i, required spec n i → is_Some (f i)) →
  (∀ n', (n < n' ≤ N)%nat → aligned bs al n' → ¬ ∀ i, required spec n' i → is_Some (f i)) →
  hit_result p v gids spec al N computed n.
Proof.
  intros [Hg Hlen He] Hreq Hn Hal Hhit Hmax. split; [|done|].
  - split_and!; [done|done| |].
    + intros i Hi. apply f_hit; [|by apply Hhit]. pose proof (required_lt _ _ Hi). lia.
    + intros n' Hn' Hal' Hall. apply (Hmax n' Hn' Hal'). intros i Hi.
      pose proof (required_lt _ _ Hi). apply f_hit; [lia|auto].
  - intros g gid c Hgid Hc. split; [by eapply Hlen|]. intros i b Hb.
    destruct (He g c i b Hc Hb) as [H1 H2]. destruct Hpre as [[free Hok] [Hne Hgs] _ _ _ _ _].
    assert (found f g i b → ∃ h, hv_get v (Z.of_nat i) = Ok h ∧ cached_as p h gid b) as Hf.
    { intros Hf. by eapply found_cached. }
    destruct (decide (required spec n i)) as [Hr|Hr]; [left; auto|]. destruct H2; auto.
Qed.

Lemma full_hit :
  is_full spec = true →
  ∃ n computed, full_find_longest_cache_hit p v max_length gids spec false al 1 1 = Ok computed ∧
    hit_result p v gids spec al N computed n.
Proof.
  intros Hfull. pose proof Hpre as [_ [Hne _] Hml Hbs Hal [Hlen _] _]. unfold full_find_longest_cache_hit.
  rewrite Hfull. cbn [orb negb].
  change (bs * (if 1 <? 1 * 1 then 1 * 1 else 1)) with (bs * 1). rewrite Z.mul_1_r. cbn zeta.
  unfold py_div. rewrite bool_decide_eq_false_2 by lia. cbn [mbind res_bind].
  pose proof max_blocks as HN. rewrite (proj2 (Z.ltb_ge _ 0)) by lia.
  rewrite Z.min_l by lia.
  replace (range 0 (max_length / bs)) with (range 0 (Z.of_nat N)) by (by rewrite HN).
  destruct (full_loop_spec p v gids f N f_lookup f_len 0 N ((λ _, []) <$> gids) (λ _, False))
    as (n & c & Hc & Hn & Ht & Hhit & Hmiss); [lia|lia| |].
  { apply (table_nulls p gids f 0). intros; lia. }
  change (Z.of_nat 0) with 0 in Hc. rewrite Hc. cbn [mbind res_bind eagle_drop].
  destruct (align_blocks_spec p v gids f N f_lookup f_len bs al c n _ Hne Hal Ht) as (n' & c' & -> & Hn' & Hal' & Hmax & Ht').
  exists n', c'. split; [done|]. assert (∀ m i, required spec m i ↔ (i < m)%nat) as Hreq by (intros; by destruct spec).
  eapply table_result; [exact Ht'| |lia|done| |].
  - intros i Hi. right. lia.
  - intros i Hi%Hreq. apply Hhit. lia.
  - intros m Hm Hal'' Hall. destruct (decide (m ≤ n)%nat); [apply (Hmax m); [lia|done]|].
    destruct (Hall n) as [? E]; [apply Hreq; lia|]. rewrite Hmiss in E; [done|lia].
Qed.

Lemma sliding_hit a w :
  spec = SlidingWindowSpec a w →
  ∃ n computed, sliding_find_longest_cache_hit p v max_length gids spec false al 1 1 = Ok computed ∧
    hit_result p v gids spec al N computed n.
Proof.
  intros Hs. pose proof Hpre as [_ [Hne _] Hml Hbs Hal _ _].
  assert (a_block_size a = bs) as Ea by by rewrite Hs.
  replace (sliding_find_longest_cache_hit p v max_length gids spec false al 1 1)
    with (sliding_find_longest_cache_hit p v max_length gids (SlidingWindowSpec a w) false al 1 1)
    by (by rewrite Hs).
  unfold sliding_find_longest_cache_hit.
  change (negb (bool_decide (1 = 1)) || negb (bool_decide (1 = 1))) with false. cbn iota zeta.
  rewrite Ea, Z.add_0_r. unfold py_div. rewrite bool_decide_eq_false_2 by lia. cbn [mbind res_bind].
  set (need := cdiv (w - 1) bs).
  destruct (window_loop_spec p v gids f N f_lookup f_len bs al need N 0
    ((λ _, replicate N (null_block p)) <$> gids)) as (n & c & m & b & Hloop & Hn & Hend & Hwin & Hmax & Ht & Hb).
  { split; [lia| |lia|lia|lia]. apply table_nulls. intros; lia. }
  change (Z.of_nat 0) with 0 in Hloop. rewrite Hloop. cbn [mbind res_bind].
  assert (aligned bs al n) as Hal'.
  { destruct n; [right; done|apply Hend; lia]. }
  assert (∀ k i, required spec k i ↔ (i < k)%nat ∧ Z.of_nat k - Z.max 1 need ≤ Z.of_nat i) as Hreq.
  { intros. unfold need. rewrite <-Ea. by rewrite Hs. }
  assert (∀ c' : list (list loc), table p gids f c' n (λ j, Z.of_nat n - Z.max 1 need ≤ Z.of_nat j) →
    hit_result p v gids spec al N c' n) as Hres.
  { intros c' Ht'. eapply table_result; [exact Ht'| |done|done| |].
    - by intros i [_ Hi]%Hreq.
    - intros i [Hi1 Hi2]%Hreq. by apply Hwin.
    - intros k Hk Hk' Hall. apply (Hmax k Hk Hk'). intros j Hj1 Hj2. apply Hall, Hreq. done. }
  destruct b; cbn [mbind res_bind].
  - exists n, c. split; [done|]. by apply Hres.
  - rewrite Hb by done. rewrite Nat2Z.id, (Hb eq_refl) in *.
    destruct (align_blocks_spec p v gids f N f_lookup f_len bs al _ n _ Hne Hal Ht) as (n' & c' & -> & Hn' & Hal'' & Hmaxa & Ht').
    assert (n' = n) as ->.
    { destruct (decide (n' = n)); [done|]. exfalso. apply (Hmaxa n); [lia|done]. }
    exists n, c'. split; [done|]. by apply Hres.
Qed.

Lemma mamba_hit :
  match spec with MambaSpec _ _ _ _ _ _ _ => True | _ => False end →
  ∃ n computed, mamba_find_longest_cache_hit p v max_length gids spec false al 1 1 = Ok computed ∧
    hit_result p v gids spec al N computed n.
Proof.
  intros Hs. pose proof Hpre as [_ [Hne _] Hml Hbs Hal _ _].
  assert (∀ k i, required spec k i ↔ k = S i) as Hreq by (intros; by destruct spec).
  assert (mamba_find_longest_cache_hit p v max_length gids spec false al 1 1 =
    mamba_loop p v gids bs al N ((λ _, []) <$> gids)) as ->.
  { revert Hs Hbs. destruct spec; try done. intros _ Hbs. unfold mamba_find_longest_cache_hit.
    cbn [layer_block_size] in *. unfold py_div. by rewrite (bool_decide_eq_false_2 (block_size = 0)) by lia. }
  destruct (mamba_loop_spec p v gids f N f_lookup f_len bs al N ((λ _, []) <$> gids))
    as (n & c & Hc & Hn & Hend & Hmax & Ht); [lia| |lia|].
  { apply (table_nulls p gids f 0). intros; lia. }
  exists n, c. split; [exact Hc|]. eapply table_result; [exact Ht| |done| | |].
  - intros i Hi%Hreq. done.
  - destruct n; [right; done|apply Hend; lia].
  - intros i ->%Hreq. apply Hend. lia.
  - intros m Hm Hm' Hall. destruct m as [|m]; [lia|]. destruct (Hall m) as [? E]; [by apply Hreq|].
    pose proof (Hmax (S m) Hm Hm') as E'. simpl in E'. congruence.
Qed.

(** The chunk of the next token starts at a block, and is the same for all lengths
    from there on. *)
Lemma chunk_start k m :
  0 < k → max_length / (k * bs) * k ≤ Z.of_nat m → Z.of_nat m ≤ max_length / bs →
  0 < bs → 0 ≤ max_length →
  Z.of_nat m * bs / (k * bs) * (k * bs) / bs = max_length / (k * bs) * k.
Proof.
  intros Hk Hge Hle Hb Hml. set (q := max_length / (k * bs)) in *.
  assert (0 ≤ q) by (apply Z.div_pos; nia).
  assert (Z.of_nat m * bs / (k * bs) = q) as ->.
  { pose proof (Z.mul_div_le max_length bs Hb). apply Z.le_antisymm.
    - apply Z.div_le_mono; [nia|]. nia.
    - apply Z.div_le_lower_bound; [nia|]. nia. }
  rewrite Z.mul_assoc. by apply Z.div_mul; lia.
Qed.

Lemma chunked_hit a chunk :
  spec = ChunkedLocalAttentionSpec a chunk →
  ∃ n computed, chunked_find_longest_cache_hit p v max_length gids spec false al 1 1 = Ok computed ∧
    hit_result p v gids spec al N computed n.
Proof.
  intros Hs. pose proof Hpre as [_ [Hne _] Hml Hbs Hal _ Hsp].
  assert (a_block_size a = bs) as Ea by by rewrite Hs.
  assert (bs = al ∧ ∃ k, 0 < k ∧ chunk = k * bs) as [Eal (k & Hk & Hch)].
  { rewrite <-Ea. by rewrite Hs in Hsp. }
  pose proof max_blocks as HN. set (q := max_length / (k * bs)).
  assert (0 ≤ q) as Hq by (apply Z.div_pos; nia).
  assert (q * k ≤ max_length / bs) as HqN.
  { apply Z.div_le_lower_bound; [lia|]. pose proof (Z.mul_div_le max_length (k * bs) ltac:(nia)). fold q in H. lia. }
  assert (chunked_find_longest_cache_hit p v max_length gids spec false al 1 1 =
    full_loop p v gids (range (q * k) (Z.of_nat N))
      ((λ _, replicate (Z.to_nat (q * k)) (null_block p)) <$> gids)) as ->.
  { replace (chunked_find_longest_cache_hit p v max_length gids spec false al 1 1)
      with (chunked_find_longest_cache_hit p v max_length gids (ChunkedLocalAttentionSpec a chunk) false al 1 1)
      by (by rewrite Hs).
    unfold chunked_find_longest_cache_hit. rewrite Ea, bool_decide_eq_true_2 by done.
    rewrite (bool_decide_eq_true_2 (bs = al)) by done. cbn [orb negb]. unfold py_div.
    rewrite (bool_decide_eq_false_2 (bs = 0)), (bool_decide_eq_false_2 (chunk = 0)) by nia.
    cbn [mbind res_bind].
    assert ((if 0 <? max_length then Ok (max_length / chunk * chunk) else Ok 0) =
      Ok (q * k * bs)) as E.
    { destruct (Z.ltb_spec 0 max_length); [rewrite Hch; fold q; f_equal; ring|].
      f_equal. assert (q = 0) as ->; [|done]. unfold q. apply Z.div_small. nia. }
    destruct (0 <? max_length); cbn [mbind res_bind] in E |- *; apply Ok_inj in E; rewrite E;
      rewrite Z.div_mul by lia; by rewrite HN. }
  set (s := Z.to_nat (q * k)).
  replace (range (q * k) (Z.of_nat N)) with (range (Z.of_nat s) (Z.of_nat N)) by (f_equal; lia).
  assert (∀ m i, (s ≤ m ≤ N)%nat → required spec m i ↔ (s ≤ i < m)%nat) as Hreq.
  { intros m i Hm. assert (required spec m i ↔ (i < m)%nat ∧
      Z.of_nat m * bs / chunk * chunk / bs ≤ Z.of_nat i) as ->.
    { rewrite <-Ea. by rewrite Hs. }
    rewrite Hch, (chunk_start k m) by (unfold s, q in *; lia || nia). fold q. lia. }
  destruct (full_loop_spec p v gids f N f_lookup f_len s N ((λ _, replicate s (null_block p)) <$> gids)
    (λ _, False)) as (n & c & Hc & Hn & Ht & Hhit & Hmiss); [lia|lia| |].
  { apply table_nulls. by intros i _ []. }
  exists n, c. split; [exact Hc|]. eapply table_result; [exact Ht| |lia|by left| |].
  - intros i Hi. apply Hreq in Hi; [|lia]. right. lia.
  - intros i Hi. apply Hreq in Hi; [|lia]. apply Hhit. lia.
  - intros m Hm _ Hall. destruct (Hall n) as [? E]; [apply Hreq; lia|]. rewrite Hmiss in E; [done|lia].
Qed.

Lemma find_longest_cache_hit_ok c :
  spec_manager_map spec = Ok c →
  ∃ n computed, find_longest_cache_hit c p v max_length gids spec false al 1 1 = Ok computed ∧
    hit_result p v gids spec al N computed n.
Proof.
  intros Hc. pose proof (hp_spec _ _ _ _ _ _ Hpre) as Hsp.
  assert (is_full spec = true → c = FullAttentionManager ∨ c = SinkFullAttentionManager) as Hf.
  { destruct spec; try done; apply Ok_inj in Hc as <-; auto. }
  destruct (is_full spec) eqn:Efull.
  { destruct (full_hit Efull) as (n & cs & H1 & H2). exists n, cs.
    by destruct (Hf eq_refl) as [-> | ->]. }
  assert ((∃ a w, spec = SlidingWindowSpec a w ∧ c = SlidingWindowManager) ∨
    (∃ a chunk, spec = ChunkedLocalAttentionSpec a chunk ∧ c = ChunkedLocalAttentionManager) ∨
    match spec with MambaSpec _ _ _ _ _ _ _ => True | _ => False end ∧ c = MambaManager) as Hcase.
  { revert Hc Hsp Efull. destruct spec; try done; intros [= <-]; naive_solver. }
  destruct Hcase as [(a & w & Hs & ->)|[(a & chunk & Hs & ->)|[Hs ->]]].
  - exact (sliding_hit a w Hs).
  - exact (chunked_hit a chunk Hs).
  - exact (mamba_hit Hs).
Qed.
End classes.

(** C10: every class of manager that looks for hits (full attention, sliding window,
    chunked local attention with an alignment of one block that divides the chunk,
    Mamba; cross attention raises) finds the longest cache hit: without EAGLE and
    without context parallelism the method returns, for each group, the same number [n] of blocks, aligned, with every
    block the class needs after [n] blocks cached for its index and group and
    null blocks elsewhere, and no larger aligned number up to [max_length] would
    do. *)
Theorem find_longest_cache_hit_correct p v gids spec alignment max_length c :
  hit_pre p v gids spec alignment max_length → spec_manager_map spec = Ok c →
  ∃ n computed,
    find_longest_cache_hit c p v max_length gids spec false alignment 1 1 = Ok computed ∧
    hit_result p v gids spec alignment (Z.to_nat (max_length / layer_block_size spec)) computed n.
Proof. intros Hpre Hc. by apply find_longest_cache_hit_ok. Qed.

(** ** A concrete instance *)

(** [pool4_used] after block 1 has been cached for group 0. *)
Definition pool4_cached : BlockPool :=
  (cache_full_blocks false (λ b, b) hashed_request [1; 2]%nat 0 1 2 0 pool4_used).2.

Lemma cache_full_blocks_ok use_int sha256 s free r bs c f size gid :
  pool_ok s free → Forall (λ b, (b < nblocks s)%nat) bs →
  pool_ok (cache_full_blocks use_int sha256 r bs c f size gid s).2 free.
Proof.
  intros Hok Hbs. pose proof (keeps_cache_full_blocks use_int sha256 r bs c f size gid _ Hbs s free Hok eq_refl) as H.
  unfold wp in H. destruct (cache_full_blocks _ _ _ _ _ _ _ _ s) as [[r'|e] s']; apply H.
Qed.

Lemma pool4_cached_ok : pool_ok pool4_cached [3]%nat.
Proof. apply cache_full_blocks_ok; [exact pool4_used_ok|decide_now]. Qed.

Definition window2 : LayerSpec := SlidingWindowSpec (mkAttn 2 1 1 "bf16" None) 3.

Lemma find_longest_cache_hit_correct_witness :
  ∃ n computed,
    find_longest_cache_hit SlidingWindowManager pool4_cached (HVList (block_hashes hashed_request))
      2 [0] window2 false 2 1 1 = Ok computed ∧
    hit_result pool4_cached (HVList (block_hashes hashed_request)) [0] window2 2 1 computed n.
Proof.
  apply (find_longest_cache_hit_correct pool4_cached (HVList (block_hashes hashed_request)) [0]
    window2 2 2 SlidingWindowManager); [|reflexivity]. split.
  - exists [3]%nat. exact pool4_cached_ok.
  - split; [done|]. by apply Forall_singleton.
  - lia.
  - simpl. lia.
  - lia.
  - split; [vm_compute; discriminate|]. intros i Hi. change (2 / layer_block_size window2) with 1 in Hi.
    assert (i = 0%nat) as -> by lia. eexists. vm_compute. reflexivity.
  - exact I.
Defined.

Example window_hit_found :
  find_longest_cache_hit SlidingWindowManager pool4_cached (HVList (block_hashes hashed_request))
    2 [0] window2 false 2 1 1 = Ok [[1%nat]].
Proof. vm_compute. reflexivity. Qed.
