(* ===== verification/Coordinator.v ===== *)
(** * The KV cache coordinators

    [vllm/v1/core/kv_cache_coordinator.py]: the block pool and one manager per KV
    cache group, and the three ways to find a prefix-cache hit: none, for one
    group, and for groups of several types by iteration to a fixed point. *)

From stdpp Require Import base list gmap strings.
From Stdlib Require Import ZArith Lia.
From S2P Require Import Prelude FreeQueue Request BlockHash BlockPool KVCacheSpec CacheManagers CacheHit.
Local Open Scope Z_scope.

Inductive CoordinatorKind :=
  | KVCacheCoordinatorNoPrefixCache
  | UnitaryKVCacheCoordinator
  | HybridKVCacheCoordinator.
#[export] Instance CoordinatorKind_eq_dec : EqDecision CoordinatorKind.
Proof. solve_decision. Defined.

(** Groups with one spec: the spec, the group ids and the manager class. *)
Definition AttentionGroup : Type := LayerSpec * list Z * ManagerClass.

(** [co_dcp], [co_pcp] and [co_block_size] are fields of the unitary coordinator,
    the last three of the hybrid one. *)
Record Coordinator := mkCoordinator {
  co_kind : CoordinatorKind;
  co_groups : list LayerSpec;
  co_use_eagle : bool;
  co_enable_caching : bool;
  block_pool : BlockPool;
  single_type_managers : list Manager;
  co_block_size : Z;
  co_dcp : Z;
  co_pcp : Z;
  co_hash_block_size : Z;
  attention_groups : list AttentionGroup;
  lcm_block_size : Z
}.

Definition set_co (p : BlockPool) (ms : list Manager) (c : Coordinator) : Coordinator :=
  mkCoordinator (co_kind c) (co_groups c) (co_use_eagle c) (co_enable_caching c) p ms
    (co_block_size c) (co_dcp c) (co_pcp c) (co_hash_block_size c) (attention_groups c)
    (lcm_block_size c).

(** Call a method of manager [i]. *)
Definition on_manager {A} (i : nat) (m : M PM A) : M Coordinator A := λ c,
  match single_type_managers c !! i with
  | None => (Err IndexError, c)
  | Some mg =>
      let '(r, (p, mg')) := m (block_pool c, mg) in
      (r, set_co p (<[i := mg']> (single_type_managers c)) c)
  end.

(** [for i, manager in enumerate(self.single_type_managers)] *)
Definition manager_ids (c : Coordinator) : list nat := seq 0 (length (single_type_managers c)).
Definition for_managers (body : nat → M PM unit) : M Coordinator unit :=
  is_ ← gets manager_ids; for_each is_ (λ i, on_manager i (body i)).
Definition map_managers {A} (body : nat → M PM A) : M Coordinator (list A) :=
  is_ ← gets manager_ids;
  fold_each is_ [] (λ acc i, a ← on_manager i (body i); mret (acc ++ [a])).

(** [new_computed_blocks[i]] of a tuple. *)
Definition group_blocks (new_computed_blocks : list (list loc)) (i : nat) : res (list loc) :=
  match new_computed_blocks !! i with Some bs => Ok bs | None => Err IndexError end.

Section coordinator.
Context (use_int : bool) (sha256 : bytes → bytes).

(** ** [__init__] *)

(** The managers are created in order on the pool, from which they may take
    blocks. *)
Fixpoint init_managers (specs : list KVCacheSpec) (caching : bool) (dcp pcp i : Z)
    : M BlockPool (list Manager) :=
  match specs with
  | [] => mret []
  | Layer l :: rest =>
      m ← get_manager_for_kv_cache_spec l caching i dcp pcp;
      ms ← init_managers rest caching dcp pcp (i + 1);
      mret (m :: ms)
  | UniformTypeKVCacheSpecs _ _ :: _ => raise KeyError
  end.

Definition layer_spec_of (s : KVCacheSpec) : LayerSpec :=
  match s with Layer l => l | UniformTypeKVCacheSpecs _ _ => EncoderOnlyAttentionSpec (mkAttn 0 0 0 "" None) end.

(** The common part; all specs are layer specs once the managers exist. *)
Definition base_init (kind : CoordinatorKind) (config : KVCacheConfig) (use_eagle caching events : bool)
    (dcp pcp hash_bs : Z) : res Coordinator :=
  let specs := kv_cache_spec <$> kv_cache_groups config in
  p ← BlockPool_init (num_blocks config) caching hash_bs events;
  let '(r, p') := init_managers specs caching dcp pcp 0 p in
  ms ← r;
  Ok (mkCoordinator kind (layer_spec_of <$> specs) use_eagle caching p' ms 0 dcp pcp hash_bs [] 0).

Definition unitary_init (c : Coordinator) : res Coordinator :=
  match co_groups c with
  | [] => Err IndexError
  | spec :: _ =>
      let bs := layer_block_size spec in
      let bs := if 1 <? co_dcp c then bs * co_dcp c else bs in
      let bs := if 1 <? co_pcp c then bs * co_pcp c else bs in
      if co_enable_caching c && negb (bool_decide (co_hash_block_size c = bs)) then Err AssertionError
      else if negb (bool_decide (length (co_groups c) = 1%nat)) then Err AssertionError
      else
        Ok (mkCoordinator (co_kind c) (co_groups c) (co_use_eagle c) (co_enable_caching c)
              (block_pool c) (single_type_managers c) bs (co_dcp c) (co_pcp c)
              (co_hash_block_size c) (attention_groups c) (lcm_block_size c))
  end.

(** One iteration of the loop that groups groups by spec. *)
Fixpoint add_to_groups (spec : LayerSpec) (i : Z) (cls : ManagerClass) (gs : list AttentionGroup)
    : res (list AttentionGroup) :=
  match gs with
  | [] => Ok [(spec, [i], cls)]
  | (existing_spec, group_ids, existing_cls) :: rest =>
      if bool_decide (existing_spec = spec) then
        if bool_decide (cls = existing_cls)
        then Ok ((existing_spec, group_ids ++ [i], existing_cls) :: rest)
        else Err AssertionError
      else
        rest' ← add_to_groups spec i cls rest;
        Ok ((existing_spec, group_ids, existing_cls) :: rest')
  end.

Fixpoint split_groups (specs : list LayerSpec) (ms : list Manager) (i : Z) (gs : list AttentionGroup)
    : res (list AttentionGroup) :=
  match specs, ms with
  | spec :: specs, m :: ms =>
      gs ← add_to_groups spec i (mgr_class m) gs; split_groups specs ms (i + 1) gs
  | [], _ => Ok gs
  | _, [] => Err IndexError
  end.

(** [sorted(attention_groups, key=lambda x: not isinstance(x[0],
    FullAttentionSpec))]: a stable sort on a boolean key. *)
Definition full_first (gs : list AttentionGroup) : list AttentionGroup :=
  filter (λ g, is_full g.1.1 = true) gs ++ filter (λ g, is_full g.1.1 = false) gs.

Definition verify_and_split_kv_cache_groups (c : Coordinator) : res Coordinator :=
  gs ← split_groups (co_groups c) (single_type_managers c) 0 [];
  if (length gs <=? 1)%nat then Err AssertionError
  else
    Ok (mkCoordinator (co_kind c) (co_groups c) (co_use_eagle c) (co_enable_caching c)
          (block_pool c) (single_type_managers c) (co_block_size c) (co_dcp c) (co_pcp c)
          (co_hash_block_size c) (full_first gs)
          (foldl Z.lcm 1 ((λ g, layer_block_size g.1.1) <$> gs))).

Definition hybrid_init (c : Coordinator) : res Coordinator :=
  if negb (forallb (λ s, bool_decide (layer_block_size s mod co_hash_block_size c = 0)) (co_groups c))
  then Err AssertionError
  else if negb (bool_decide (co_dcp c = 1)) || negb (bool_decide (co_pcp c = 1)) then Err AssertionError
  else verify_and_split_kv_cache_groups c.

Definition get_kv_cache_coordinator (config : KVCacheConfig) (use_eagle caching events : bool)
    (dcp pcp hash_bs : Z) : res Coordinator :=
  if negb caching then
    base_init KVCacheCoordinatorNoPrefixCache config use_eagle false events dcp pcp hash_bs
  else if bool_decide (length (kv_cache_groups config) = 1%nat) then
    c ← base_init UnitaryKVCacheCoordinator config use_eagle caching events dcp pcp hash_bs;
    unitary_init c
  else
    c ← base_init HybridKVCacheCoordinator config use_eagle caching events dcp pcp hash_bs;
    hybrid_init c.

(** ** Operations: a loop over the managers *)

Definition is_cross (m : Manager) : bool := bool_decide (mgr_class m = CrossAttentionManager).

Definition co_get_num_blocks_to_allocate (rid : string) (num_tokens : Z)
    (new_computed_blocks : list (list loc)) (num_encoder_tokens total_computed_tokens
    num_tokens_main_model : Z) : M Coordinator Z :=
  ns ← map_managers (λ i,
    m ← gets snd;
    if is_cross m then
      get_num_blocks_to_allocate rid num_encoder_tokens [] 0 num_encoder_tokens
    else
      bs ← lift_res (group_blocks new_computed_blocks i);
      get_num_blocks_to_allocate rid num_tokens bs total_computed_tokens num_tokens_main_model);
  mret (sumZ ns).

Definition co_allocate_new_computed_blocks (rid : string) (new_computed_blocks : list (list loc))
    (num_local_computed_tokens num_external_computed_tokens : Z) : M Coordinator unit :=
  for_managers (λ i,
    bs ← lift_res (group_blocks new_computed_blocks i);
    allocate_new_computed_blocks use_int rid bs num_local_computed_tokens
      num_external_computed_tokens).

Definition co_allocate_new_blocks (rid : string) (num_tokens num_tokens_main_model
    num_encoder_tokens : Z) : M Coordinator (list (list loc)) :=
  map_managers (λ i,
    m ← gets snd;
    allocate_new_blocks use_int rid (if is_cross m then num_encoder_tokens else num_tokens)
      num_tokens_main_model).

(** The request with its memo goes from one manager to the next. *)
Definition co_cache_blocks (request : Request) (num_computed_tokens : Z) : M Coordinator Request :=
  is_ ← gets manager_ids;
  fold_each is_ request (λ r i,
    on_manager i (cache_blocks use_int sha256 r num_computed_tokens)).

Definition co_free (rid : string) : M Coordinator unit := for_managers (λ _, free rid).

Definition co_get_num_common_prefix_blocks (rid : string) : M Coordinator (list Z) :=
  k ← gets co_kind;
  match k with
  | KVCacheCoordinatorNoPrefixCache => gets (λ c, (λ _, 0) <$> single_type_managers c)
  | _ => map_managers (λ _, get_num_common_prefix_blocks rid)
  end.

Definition co_remove_skipped_blocks (rid : string) (total_computed_tokens : Z) : M Coordinator unit :=
  for_managers (λ _, remove_skipped_blocks rid total_computed_tokens).

Definition co_get_blocks (rid : string) (c : Coordinator) : list (list loc) :=
  blocks_of rid <$> single_type_managers c.

Definition co_new_step_starts : M Coordinator unit := for_managers (λ _, new_step_starts).

(** ** [find_longest_cache_hit] *)

Definition unitary_find (c : Coordinator) (block_hashes : list BlockHash) (max_length : Z)
    : res (list (list loc) * Z) :=
  match single_type_managers c, co_groups c with
  | m :: _, spec :: _ =>
      hit_blocks ← find_longest_cache_hit (mgr_class m) (block_pool c) (HVList block_hashes)
        max_length [0] spec (co_use_eagle c) (co_block_size c) (co_dcp c) (co_pcp c);
      b ← first_group hit_blocks;
      Ok (hit_blocks, Z.of_nat (length b) * co_block_size c)
  | _, _ => Err IndexError
  end.

Definition _get_block_hashes (hash_bs : Z) (block_hashes : list BlockHash) (spec : LayerSpec)
    : res HashView :=
  if bool_decide (layer_block_size spec = hash_bs) then Ok (HVList block_hashes)
  else l ← BlockHashListWithBlockSize_init block_hashes hash_bs (layer_block_size spec);
       Ok (HVScaled l).

(** [for group_id, blocks in zip(group_ids, hit_blocks):
    hit_blocks_by_group[group_id] = blocks] *)
Definition store_hits (group_ids : list Z) (hit_blocks : list (list loc))
    (by_group : list (option (list loc))) : list (option (list loc)) :=
  foldl (λ acc p, <[Z.to_nat p.1 := Some p.2]> acc) by_group (zip group_ids hit_blocks).

(** One attention group in one iteration: the new length and hits. *)
Definition hit_step (c : Coordinator) (block_hashes : list BlockHash) (g : AttentionGroup)
    (curr_hit_length : Z) (by_group : list (option (list loc)))
    : res (Z * list (option (list loc))) :=
  let '(spec, group_ids, cls) := g in
  gid0 ← py_get group_ids 0;
  cached_blocks ← py_get by_group gid0;
  if is_full spec && bool_decide (is_Some cached_blocks) then
    num_blocks ← py_div curr_hit_length (layer_block_size spec);
    Ok (num_blocks * layer_block_size spec, by_group)
  else
    hv ← _get_block_hashes (co_hash_block_size c) block_hashes spec;
    hit_blocks ← find_longest_cache_hit cls (block_pool c) hv curr_hit_length group_ids spec
      (co_use_eagle c) (lcm_block_size c) 1 1;
    b ← first_group hit_blocks;
    Ok (Z.of_nat (length b) * layer_block_size spec, store_hits group_ids hit_blocks by_group).

Fixpoint hit_pass (c : Coordinator) (block_hashes : list BlockHash) (gs : list AttentionGroup)
    (curr_hit_length : Z) (by_group : list (option (list loc)))
    : res (Z * list (option (list loc))) :=
  match gs with
  | [] => Ok (curr_hit_length, by_group)
  | g :: rest =>
      '(curr, by_group) ← hit_step c block_hashes g curr_hit_length by_group;
      hit_pass c block_hashes rest curr by_group
  end.

(** [while True]; every iteration but the last makes the hit shorter. *)
Fixpoint hit_loop (fuel : nat) (c : Coordinator) (block_hashes : list BlockHash) (simple : bool)
    (hit_length : Z) (by_group : list (option (list loc)))
    : res (Z * list (option (list loc))) :=
  match fuel with
  | O => Err OutOfFuel
  | S fuel =>
      '(curr, by_group) ← hit_pass c block_hashes (attention_groups c) hit_length by_group;
      if hit_length <=? curr then Ok (hit_length, by_group)
      else if simple then Ok (curr, by_group)
      else hit_loop fuel c block_hashes simple curr by_group
  end.

Definition is_simple_hybrid (c : Coordinator) : bool :=
  match attention_groups c with
  | [(spec, _, _); _] => is_full spec
  | _ => false
  end.

(** [del blks[num_blocks:]] for the groups with the given ids. *)
Definition truncate_groups (num_blocks : Z) (group_ids : list Z) (by_group : list (option (list loc)))
    : list (option (list loc)) :=
  foldl (λ acc gid, alter (fmap (take (Z.to_nat num_blocks))) (Z.to_nat gid) acc) by_group group_ids.

(** Only the first attention group is cut to the final length, if it is a full
    attention group. *)
Definition truncate_full (gs : list AttentionGroup) (hit_length : Z)
    (by_group : list (option (list loc))) : res (list (option (list loc))) :=
  match gs with
  | [] => Err IndexError
  | (spec, group_ids, _) :: _ =>
      if is_full spec then
        n ← py_div hit_length (layer_block_size spec); Ok (truncate_groups n group_ids by_group)
      else Ok by_group
  end.

Definition hybrid_find (c : Coordinator) (block_hashes : list BlockHash) (max_length : Z)
    : res (list (list loc) * Z) :=
  '(hit_length, by_group) ← hit_loop (S (Z.to_nat max_length)) c block_hashes (is_simple_hybrid c)
    max_length (replicate (length (co_groups c)) None);
  by_group ← truncate_full (attention_groups c) hit_length by_group;
  Ok ((λ o : option (list loc), default [] o) <$> (by_group : list _), hit_length).

Definition co_find_longest_cache_hit (c : Coordinator) (block_hashes : list BlockHash)
    (max_cache_hit_length : Z) : res (list (list loc) * Z) :=
  match co_kind c with
  | KVCacheCoordinatorNoPrefixCache => Ok ((λ _, []) <$> single_type_managers c, 0)
  | UnitaryKVCacheCoordinator => unitary_find c block_hashes max_cache_hit_length
  | HybridKVCacheCoordinator => hybrid_find c block_hashes max_cache_hit_length
  end.
End coordinator.

(** ** Storing and cutting the hits of an attention group *)

Lemma store_hits_length gids hits by_group : length (store_hits gids hits by_group) = length by_group.
Proof.
  unfold store_hits. revert by_group. induction (zip gids hits) as [|p l IH]; intros by_group; [done|].
  simpl. by rewrite IH, length_insert.
Qed.

Lemma store_hits_other gids hits by_group x :
  (∀ g, g ∈ gids → Z.to_nat g ≠ x) → store_hits gids hits by_group !! x = by_group !! x.
Proof.
  unfold store_hits. revert hits by_group. induction gids as [|g gids IH]; intros [|h hits] by_group Hx; try done.
  simpl. fold (zip gids hits). rewrite IH by (intros; apply Hx; by right).
  apply list_lookup_insert_ne, Hx. left.
Qed.

Lemma store_hits_at gids hits by_group j g h :
  NoDup gids → Forall (λ g, 0 ≤ g < Z.of_nat (length by_group)) gids →
  gids !! j = Some g → hits !! j = Some h →
  store_hits gids hits by_group !! Z.to_nat g = Some (Some h).
Proof.
  unfold store_hits. revert hits by_group j. induction gids as [|g0 gids IH]; intros [|h0 hits] by_group j Hnd Hr Hg Hh;
    try done; try (by destruct j).
  apply NoDup_cons in Hnd as [Hn Hnd]. apply Forall_cons in Hr as [Hr0 Hr]. simpl.
  destruct j as [|j]; simpl in Hg, Hh; simplify_eq.
  - fold (store_hits gids hits (<[Z.to_nat g := Some h]> by_group)). rewrite store_hits_other.
    + apply list_lookup_insert_eq. lia.
    + intros g' Hg' E. rewrite Forall_forall in Hr. specialize (Hr g' Hg').
      assert (g' = g) as -> by lia. done.
  - apply (IH hits _ j); [done| |done|done]. by rewrite length_insert.
Qed.

Lemma truncate_groups_length n gids by_group : length (truncate_groups n gids by_group) = length by_group.
Proof.
  unfold truncate_groups. revert by_group. induction gids as [|g gids IH]; intros by_group; [done|].
  simpl. by rewrite IH, length_alter.
Qed.

Lemma truncate_groups_other n gids by_group x :
  (∀ g, g ∈ gids → Z.to_nat g ≠ x) → truncate_groups n gids by_group !! x = by_group !! x.
Proof.
  unfold truncate_groups. revert by_group. induction gids as [|g gids IH]; intros by_group Hx; [done|].
  simpl. rewrite IH by (intros; apply Hx; by right). apply list_lookup_alter_ne, Hx. left.
Qed.

Lemma truncate_groups_at n gids by_group g bl :
  NoDup gids → Forall (λ g, 0 ≤ g) gids → g ∈ gids → by_group !! Z.to_nat g = Some (Some bl) →
  truncate_groups n gids by_group !! Z.to_nat g = Some (Some (take (Z.to_nat n) bl)).
Proof.
  intros Hnd Hr Hg Hbl. unfold truncate_groups. revert by_group Hbl.
  induction gids as [|g0 gids IH]; intros by_group Hbl; [by apply elem_of_nil in Hg|].
  apply NoDup_cons in Hnd as [Hn Hnd]. apply Forall_cons in Hr as [Hr0 Hr]. simpl.
  destruct (decide (g = g0)) as [->|Hne].
  - fold (truncate_groups n gids (alter (fmap (take (Z.to_nat n))) (Z.to_nat g0) by_group)).
    rewrite truncate_groups_other.
    + rewrite list_lookup_alter_eq, Hbl. done.
    + intros g' Hg' E. rewrite Forall_forall in Hr. specialize (Hr g' Hg').
      assert (g' = g0) as -> by lia. done.
  - apply elem_of_cons in Hg as [?|Hg]; [done|]. apply IH; [done|done|done|].
    rewrite list_lookup_alter_ne; [done|]. intros E. rewrite Forall_forall in Hr. specialize (Hr g Hg). lia.
Qed.

(** ** The fixed point *)

(** The hashes a group looks up. *)
Definition view (hash_bs : Z) (hashes : list BlockHash) (spec : LayerSpec) : HashView :=
  match _get_block_hashes hash_bs hashes spec with Ok v => v | Err _ => HVList [] end.

(** An attention group the hybrid coordinator accepts. *)
Record group_ok (c : Coordinator) (g : AttentionGroup) : Prop := {
  go_class : spec_manager_map g.1.1 = Ok g.2;
  go_ids : g.1.2 ≠ [] ∧ NoDup g.1.2 ∧
    Forall (λ i, 0 ≤ i < 2 ^ 32 ∧ i < Z.of_nat (length (co_groups c))) g.1.2;
  go_size : 0 < layer_block_size g.1.1 ∧ (layer_block_size g.1.1 | lcm_block_size c) ∧
    (co_hash_block_size c | layer_block_size g.1.1);
  go_spec : match g.1.1 with
    | ChunkedLocalAttentionSpec a chunk =>
        a_block_size a = lcm_block_size c ∧ ∃ k, 0 < k ∧ chunk = k * a_block_size a
    | CrossAttentionSpec _ | EncoderOnlyAttentionSpec _ => False
    | _ => True
    end
}.

Record hybrid_ok (c : Coordinator) : Prop := {
  ho_pool : ∃ free, pool_ok (block_pool c) free;
  ho_eagle : co_use_eagle c = false;
  ho_sizes : 0 < lcm_block_size c ∧ 0 < co_hash_block_size c;
  ho_groups : ∀ g, g ∈ attention_groups c → group_ok c g;
  ho_disjoint : ∀ i j g g' x, attention_groups c !! i = Some g → attention_groups c !! j = Some g' →
    x ∈ g.1.2 → x ∈ g'.1.2 → i = j
}.

(** A request can continue after [L] tokens: all groups have what they need. *)
Definition group_hit (c : Coordinator) (hashes : list BlockHash) (g : AttentionGroup) (i : nat) : Prop :=
  is_hit (block_pool c) (view (co_hash_block_size c) hashes g.1.1) g.1.2 i.
Definition group_valid (c : Coordinator) (hashes : list BlockHash) (g : AttentionGroup) (L : Z) : Prop :=
  ∀ i, required g.1.1 (Z.to_nat (L / layer_block_size g.1.1)) i → group_hit c hashes g i.
Definition valid_length (c : Coordinator) (hashes : list BlockHash) (L : Z) : Prop :=
  0 ≤ L ∧ (lcm_block_size c | L) ∧ ∀ g, g ∈ attention_groups c → group_valid c hashes g L.

(** A block of group [gid] at index [i] of a hit of [n] blocks. *)
Definition entry_ok (c : Coordinator) (hashes : list BlockHash) (spec : LayerSpec) (gid : Z)
    (n i : nat) (b : loc) : Prop :=
  (∃ h, hv_get (view (co_hash_block_size c) hashes spec) (Z.of_nat i) = Ok h ∧
        cached_as (block_pool c) h gid b) ∨
  b = null_block (block_pool c) ∧ ¬ required spec n i.

Lemma view_ok c g hashes max_length :
  group_ok c g → 0 < co_hash_block_size c → 0 ≤ max_length →
  max_length / co_hash_block_size c ≤ Z.of_nat (length hashes) →
  let v := view (co_hash_block_size c) hashes g.1.1 in
  _get_block_hashes (co_hash_block_size c) hashes g.1.1 = Ok v ∧
  max_length / layer_block_size g.1.1 ≤ hv_len v ∧
  ∀ i, Z.of_nat i < max_length / layer_block_size g.1.1 → ∃ h, hv_get v (Z.of_nat i) = Ok h.
Proof.
  intros Hg Hh Hml Hlen v. destruct (go_size _ _ Hg) as (Hbs & _ & [k Hk]).
  set (hbs := co_hash_block_size c) in *. set (bs := layer_block_size g.1.1) in *.
  assert (0 < k) as Hk0 by nia.
  assert (max_length / bs * k ≤ Z.of_nat (length hashes)) as Hlen'.
  { etransitivity; [|exact Hlen]. apply Z.div_le_lower_bound; [done|].
    pose proof (Z.mul_div_le max_length bs Hbs). nia. }
  unfold v, view, _get_block_hashes. fold bs hbs.
  destruct (bool_decide (bs = hbs)) eqn:Eb; [apply bool_decide_eq_true in Eb|apply bool_decide_eq_false in Eb].
  - split; [done|]. assert (k = 1) as -> by nia. simpl. rewrite Z.mul_1_r in Hlen'. split; [done|].
    intros i Hi. destruct (lookup_lt_is_Some_2 hashes i) as [h Eh]; [lia|].
    exists h. by rewrite (py_get_nat _ _ _ Eh).
  - unfold BlockHashListWithBlockSize_init.
    rewrite Hk, Z.mod_mul, bool_decide_eq_true_2, Z.div_mul by lia. rewrite <-Hk. cbn [mbind res_bind].
    split; [done|]. split; [cbn [hv_len]; unfold bhl_len; cbn [bhl_block_hashes scale_factor]; apply Z.div_le_lower_bound; [lia|]; lia|].
    intros i Hi. eexists. cbn [hv_get].
    rewrite (bhl_value_spec _ (Z.to_nat (k - 1)) i); [done|simpl; lia|simpl; nia].
Qed.

Section fixpoint.
Context (c : Coordinator) (hashes : list BlockHash) (Hco : hybrid_ok c).
Context (max_length : Z) (Hml : 0 ≤ max_length).
Context (Hhashes : max_length / co_hash_block_size c ≤ Z.of_nat (length hashes)).
Abbreviation lcm := (lcm_block_size c).
Abbreviation pool := (block_pool c).

(** Group [g] holds a hit of [n] blocks. *)
Definition stored (by_group : list (option (list loc))) (g : AttentionGroup) (n : nat) : Prop :=
  (∀ i, required g.1.1 n i → group_hit c hashes g i) ∧
  ∀ gid, gid ∈ g.1.2 → ∃ bl, by_group !! Z.to_nat gid = Some (Some bl) ∧ length bl = n ∧
    ∀ i b, bl !! i = Some b → entry_ok c hashes g.1.1 gid n i b.

Lemma stored_ext by1 by2 g n :
  (∀ gid, gid ∈ g.1.2 → by2 !! Z.to_nat gid = by1 !! Z.to_nat gid) →
  stored by1 g n → stored by2 g n.
Proof.
  intros Heq [Hv Hs]. split; [done|]. intros gid Hg. destruct (Hs gid Hg) as (bl & ? & ?).
  exists bl. by rewrite Heq.
Qed.

Lemma aligned_divide bs L :
  0 < bs → (bs | lcm) → (lcm | Z.of_nat L * bs) ↔ aligned bs lcm L.
Proof.
  intros Hb Hd. pose proof (proj1 (ho_sizes _ Hco)).
  unfold aligned. rewrite Z.mod_divide by lia. split; [by right|]. intros [->|?]; [by exists (Z.of_nat L)|done].
Qed.

(** A full attention group that was looked up before holds at least the current
    length. *)
Definition step_pre (by_group : list (option (list loc))) (g : AttentionGroup) (curr : Z) : Prop :=
  is_full g.1.1 = true →
  (∀ gid, gid ∈ g.1.2 → by_group !! Z.to_nat gid = Some None) ∨
  (lcm | curr) ∧ ∃ n, stored by_group g n ∧ curr ≤ Z.of_nat n * layer_block_size g.1.1.

Record step_post (by_group by' : list (option (list loc))) (g : AttentionGroup) (curr curr' : Z) : Prop := {
  sp_len : length by' = length by_group;
  sp_other : ∀ x, (∀ gid, gid ∈ g.1.2 → Z.to_nat gid ≠ x) → by' !! x = by_group !! x;
  sp_range : 0 ≤ curr' ≤ curr;
  sp_divide : (lcm | curr');
  sp_greatest : ∀ L, valid_length c hashes L → L ≤ curr → L ≤ curr';
  sp_stored : ∃ n, stored by' g n ∧ curr' ≤ Z.of_nat n * layer_block_size g.1.1 ∧
    (is_full g.1.1 = false → Z.of_nat n * layer_block_size g.1.1 = curr')
}.

Lemma first_id g : group_ok c g → ∃ gid, g.1.2 !! 0%nat = Some gid ∧ gid ∈ g.1.2 ∧
  py_get g.1.2 0 = Ok gid ∧ 0 ≤ gid.
Proof.
  intros Hg. destruct (go_ids _ _ Hg) as (Hne & _ & Hr). destruct g as [[spec gids] cls]. simpl in *.
  destruct gids as [|gid gids]; [done|]. exists gid. split_and!; [done|left|done|].
  apply Forall_cons in Hr as [? _]. lia.
Qed.

(** Looking the group up. *)
Lemma lookup_step g curr by_group :
  g ∈ attention_groups c → 0 ≤ curr ≤ max_length → length by_group = length (co_groups c) →
  ∃ n computed,
    find_longest_cache_hit g.2 pool (view (co_hash_block_size c) hashes g.1.1) curr g.1.2 g.1.1
      false lcm 1 1 = Ok computed ∧ (∃ b rest, computed = b :: rest ∧ length b = n) ∧
    step_post by_group (store_hits g.1.2 computed by_group) g curr (Z.of_nat n * layer_block_size g.1.1).
Proof.
  intros Hg Hcurr Hby. pose proof (ho_groups _ Hco g Hg) as Hok.
  destruct (ho_sizes _ Hco) as [Hlcm Hhbs]. destruct (ho_pool _ Hco) as [free Hpool].
  destruct (go_ids _ _ Hok) as (Hne & Hnd & Hr). destruct (go_size _ _ Hok) as (Hbs & Hd & _).
  set (bs := layer_block_size g.1.1) in *. set (v := view (co_hash_block_size c) hashes g.1.1).
  destruct (view_ok c g hashes curr Hok Hhbs ltac:(lia)) as (_ & Hvl & Hvg).
  { etransitivity; [|exact Hhashes]. apply Z.div_le_mono; lia. }
  fold v bs in Hvl, Hvg.
  destruct (find_longest_cache_hit_ok pool v g.1.2 g.1.1 lcm curr) with (c := g.2)
    as (n & computed & Hfind & [(Hn & Hal & Hhit & Hmax) Hlen Hblocks]); [|apply Hok|].
  { split; [by exists free| |lia|done|done|done|exact (go_spec _ _ Hok)].
    split; [done|]. eapply Forall_impl; [exact Hr|]. simpl. tauto. }
  fold bs in Hn, Hmax. assert (Z.of_nat n * bs ≤ curr) as Hle.
  { pose proof (Z.mul_div_le curr bs Hbs). assert (0 ≤ curr / bs) by (apply Z.div_pos; lia). nia. }
  exists n, computed. split; [done|]. split.
  { destruct computed as [|b rest]; [by destruct g.1.2|]. exists b, rest. split; [done|].
    destruct (first_id g Hok) as (gid & Hgid & _). by destruct (Hblocks 0%nat gid b Hgid eq_refl). }
  split; [apply store_hits_length| |lia| | |].
  - intros x Hx. by apply store_hits_other.
  - by apply aligned_divide.
  - intros L (HL & HdL & Hval) HLc. destruct (decide (L ≤ Z.of_nat n * bs)); [done|]. exfalso.
    assert (bs | L) as [q Hq] by (by transitivity (lcm_block_size c)). assert (0 ≤ q) by nia.
    assert (L / bs = q) as Eq by (rewrite Hq; by apply Z.div_mul; lia).
    apply (Hmax (Z.to_nat q)).
    + split; [nia|]. apply Z2Nat.inj_le; [lia|apply Z.div_pos; lia|]. apply Z.div_le_lower_bound; lia.
    + apply aligned_divide; [done|done|]. rewrite Z2Nat.id by lia. by rewrite <-Hq.
    + intros i Hi. apply (Hval g Hg). fold bs. by rewrite Eq.
  - exists n. split; [|lia]. split; [done|]. intros gid [j Hj]%list_elem_of_lookup.
    destruct (lookup_lt_is_Some_2 computed j) as [bl Hbl]; [apply lookup_lt_Some in Hj; lia|].
    exists bl. split; [|exact (Hblocks j gid bl Hj Hbl)].
    eapply store_hits_at; [done| |done|done]. eapply Forall_impl; [exact Hr|].
    intros x Hx. rewrite Hby. simpl in Hx. lia.
Qed.

Lemma hit_step_spec g curr by_group :
  g ∈ attention_groups c → 0 ≤ curr ≤ max_length → length by_group = length (co_groups c) →
  step_pre by_group g curr →
  ∃ curr' by', hit_step c hashes g curr by_group = Ok (curr', by') ∧
    step_post by_group by' g curr curr'.
Proof.
  intros Hg Hcurr Hby Hpre. pose proof (ho_groups _ Hco g Hg) as Hok.
  assert (∀ gid, gid ∈ g.1.2 → is_Some (by_group !! Z.to_nat gid)) as Hsome.
  { intros x Hx. apply lookup_lt_is_Some_2. destruct (go_ids _ _ Hok) as (_ & _ & Hr).
    rewrite Forall_forall in Hr. destruct (Hr x Hx). lia. }
  destruct (first_id g Hok) as (gid & Hgid & Hin & Hpy & Hpos).
  destruct (ho_sizes _ Hco) as [Hlcm Hhbs]. destruct (go_size _ _ Hok) as (Hbs & Hd & _).
  destruct (lookup_step g curr by_group Hg Hcurr Hby) as (n & computed & Hfind & (b & rest & Ec & Hb) & Hpost).
  destruct (view_ok c g hashes max_length Hok Hhbs Hml Hhashes) as (Hview & _).
  destruct g as [[spec gids] cls]. simpl in *. unfold hit_step. rewrite Hpy. cbn [mbind res_bind].
  destruct (Hsome gid Hin) as [o Ho].
  assert (py_get by_group gid = Ok o) as ->.
  { rewrite <-(Z2Nat.id gid) by done. by apply py_get_nat. }
  cbn [mbind res_bind]. destruct (is_full spec && bool_decide (is_Some o)) eqn:Ereuse.
  - apply andb_prop in Ereuse as [Hf Ho'%bool_decide_eq_true]. destruct (Hpre Hf) as [Hnone|[Hdc Hst]].
    { rewrite (Hnone gid Hin) in Ho. injection Ho as <-. by destruct Ho'. }
    unfold py_div. rewrite bool_decide_eq_false_2 by lia. cbn [mbind res_bind].
    assert (curr / layer_block_size spec * layer_block_size spec = curr) as ->.
    { assert (layer_block_size spec | curr) as [q ->] by (by transitivity (lcm_block_size c)). rewrite Z.div_mul; lia. }
    exists curr, by_group. split; [done|]. destruct Hst as (m & Hst & Hm).
    split; [done|done|lia|done|done|]. exists m. split; [done|]. split; [done|]. simpl. congruence.
  - rewrite Hview. cbn [mbind res_bind]. rewrite (ho_eagle _ Hco), Hfind. cbn [mbind res_bind].
    replace (first_group computed) with (Ok b) by (by rewrite Ec). cbn [mbind res_bind]. rewrite Hb. eexists _, _. by split.
Qed.

(** ** One iteration *)

(** Group [g] was visited in an iteration that began at [curr0] and is now at
    [curr]. *)
Definition held (by_group : list (option (list loc))) (curr0 curr : Z) (g : AttentionGroup) : Prop :=
  ∃ n, stored by_group g n ∧ curr ≤ Z.of_nat n * layer_block_size g.1.1 ∧
    (is_full g.1.1 = false → Z.of_nat n * layer_block_size g.1.1 ≤ curr0).

Lemma step_other by_group by' g curr curr' g' i j :
  step_post by_group by' g curr curr' →
  attention_groups c !! i = Some g → attention_groups c !! j = Some g' → i ≠ j →
  ∀ gid, gid ∈ g'.1.2 → by' !! Z.to_nat gid = by_group !! Z.to_nat gid.
Proof.
  intros Hp Hi Hj Hij gid Hgid. apply (sp_other _ _ _ _ _ Hp). intros x Hx E. apply Hij.
  destruct (ho_groups _ Hco g (list_elem_of_lookup_2 _ _ _ Hi)) as [_ (_ & _ & Hr) _ _].
  destruct (ho_groups _ Hco g' (list_elem_of_lookup_2 _ _ _ Hj)) as [_ (_ & _ & Hr') _ _].
  rewrite Forall_forall in Hr. rewrite Forall_forall in Hr'.
  pose proof (Hr x Hx). pose proof (Hr' gid Hgid). simpl in *. assert (x = gid) as -> by lia.
  by apply (ho_disjoint _ Hco i j g g' gid).
Qed.

Record pass_inv (done_ rest : list AttentionGroup) (curr0 curr : Z)
    (by_group : list (option (list loc))) : Prop := {
  pi_split : attention_groups c = done_ ++ rest;
  pi_len : length by_group = length (co_groups c);
  pi_range : 0 ≤ curr ≤ curr0 ∧ curr0 ≤ max_length;
  pi_done : ∀ g, g ∈ done_ → held by_group curr0 curr g;
  pi_rest : ∀ g, g ∈ rest → step_pre by_group g curr;
  pi_divide : done_ ≠ [] → (lcm | curr);
  pi_greatest : ∀ L, valid_length c hashes L → L ≤ curr0 → L ≤ curr;
  pi_last : ∀ g, last done_ = Some g → is_full g.1.1 = false →
    ∃ n, stored by_group g n ∧ Z.of_nat n * layer_block_size g.1.1 = curr
}.

Lemma pass_step done_ g rest curr0 curr by_group :
  pass_inv done_ (g :: rest) curr0 curr by_group →
  ∃ curr' by', hit_step c hashes g curr by_group = Ok (curr', by') ∧
    pass_inv (done_ ++ [g]) rest curr0 curr' by'.
Proof.
  intros [Hsplit Hlen Hr Hd Hrest Hdv Hgr Hlast].
  assert (attention_groups c !! length done_ = Some g) as Hi.
  { rewrite Hsplit. by apply list_lookup_middle. }
  assert (∀ g', g' ∈ done_ → ∃ j, attention_groups c !! j = Some g' ∧ length done_ ≠ j) as Hdone.
  { intros g' [j Hj]%list_elem_of_lookup. exists j. pose proof (lookup_lt_Some _ _ _ Hj).
    rewrite Hsplit, lookup_app_l by done. split; [done|lia]. }
  assert (∀ g', g' ∈ rest → ∃ j, attention_groups c !! j = Some g' ∧ length done_ ≠ j) as Hrest'.
  { intros g' [j Hj]%list_elem_of_lookup. exists (length done_ + S j)%nat.
    rewrite Hsplit, lookup_app_r by lia. split; [|lia].
    by replace (length done_ + S j - length done_)%nat with (S j) by lia. }
  destruct (hit_step_spec g curr by_group) as (curr' & by' & Hstep & Hp);
    [by eapply list_elem_of_lookup_2|lia|done|apply Hrest; left|].
  exists curr', by'. split; [done|]. pose proof (sp_range _ _ _ _ _ Hp) as Hr'.
  destruct (sp_stored _ _ _ _ _ Hp) as (n & Hst & Hn & Heq).
  split.
  - by rewrite <-app_assoc.
  - by rewrite (sp_len _ _ _ _ _ Hp).
  - lia.
  - intros g' [Hg'|Hg']%elem_of_app.
    + destruct (Hd g' Hg') as (m & Hm & Hm1 & Hm2). destruct (Hdone g' Hg') as (j & Hj & Hne).
      exists m. split; [|split; [lia|done]]. eapply stored_ext; [|exact Hm]. by eapply step_other.
    + apply list_elem_of_singleton in Hg' as ->. exists n. split; [done|]. split; [done|].
      intros Hf. specialize (Heq Hf). lia.
  - intros g' Hg' Hf. destruct (Hrest' g' Hg') as (j & Hj & Hne).
    pose proof (step_other _ _ _ _ _ g' _ j Hp Hi Hj Hne) as Hoth.
    destruct (Hrest g' ltac:(by right) Hf) as [Hnone|(_ & m & Hm & Hm1)].
    + left. intros gid Hgid. by rewrite Hoth, Hnone.
    + right. split; [apply Hp|]. exists m. split; [by eapply stored_ext|lia].
  - intros _. apply Hp.
  - intros L HL HLc. apply (sp_greatest _ _ _ _ _ Hp); auto.
  - intros g'. rewrite last_snoc. intros [= <-] Hf. eauto.
Qed.

Lemma hit_pass_spec done_ rest curr0 curr by_group :
  pass_inv done_ rest curr0 curr by_group →
  ∃ curr' by', hit_pass c hashes rest curr by_group = Ok (curr', by') ∧
    pass_inv (attention_groups c) [] curr0 curr' by'.
Proof.
  revert done_ curr by_group. induction rest as [|g rest IH]; intros done_ curr by_group Hinv.
  - exists curr, by_group. split; [done|]. pose proof (pi_split _ _ _ _ _ Hinv) as E.
    rewrite app_nil_r in E. by rewrite E.
  - destruct (pass_step _ _ _ _ _ _ Hinv) as (curr' & by' & Hs & Hinv'). cbn [hit_pass]. rewrite Hs.
    cbn [mbind res_bind]. by apply IH with (done_ := done_ ++ [g]).
Qed.

(** ** All iterations *)

(** Between iterations: the length is an upper bound, and the full attention
    groups that were looked up hold it. *)
Record loop_inv (hit_length : Z) (by_group : list (option (list loc))) : Prop := {
  li_len : length by_group = length (co_groups c);
  li_range : 0 ≤ hit_length ≤ max_length;
  li_pre : ∀ g, g ∈ attention_groups c → step_pre by_group g hit_length;
  li_greatest : ∀ L, valid_length c hashes L → L ≤ max_length → L ≤ hit_length
}.

(** The result: [L] is the greatest valid length and every group holds it. *)
Definition hit_found (L : Z) (by_group : list (option (list loc))) : Prop :=
  length by_group = length (co_groups c) ∧ valid_length c hashes L ∧ L ≤ max_length ∧
  (∀ L', valid_length c hashes L' → L' ≤ max_length → L' ≤ L) ∧
  ∀ g, g ∈ attention_groups c →
    ∃ n, stored by_group g n ∧ L ≤ Z.of_nat n * layer_block_size g.1.1 ∧
      (is_full g.1.1 = false → Z.of_nat n * layer_block_size g.1.1 = L).

Lemma found_valid L by_group :
  0 ≤ L → (lcm | L) →
  (∀ g, g ∈ attention_groups c →
    ∃ n, stored by_group g n ∧ L ≤ Z.of_nat n * layer_block_size g.1.1 ∧
      (is_full g.1.1 = false → Z.of_nat n * layer_block_size g.1.1 = L)) →
  valid_length c hashes L.
Proof.
  intros HL Hd Hall. split; [done|]. split; [done|]. intros g Hg i Hi.
  destruct (Hall g Hg) as (n & [Hv _] & Hle & Heq).
  destruct (go_size _ _ (ho_groups _ Hco g Hg)) as (Hbs & Hdb & _). set (bs := layer_block_size g.1.1) in *.
  assert (bs | L) as [q Hq] by (by transitivity (lcm_block_size c)). assert (0 ≤ q) by nia.
  assert (L / bs = q) as Eq by (rewrite Hq; by apply Z.div_mul; lia). rewrite Eq in Hi.
  destruct (is_full g.1.1) eqn:Ef.
  - assert (∀ m j, required g.1.1 m j ↔ (j < m)%nat) as Hreq by (intros; by destruct g.1.1).
    apply Hv, Hreq. apply Hreq in Hi. nia.
  - specialize (Heq eq_refl). assert (Z.to_nat q = n) as <- by nia. by apply Hv.
Qed.

Lemma hit_loop_spec fuel hit_length by_group :
  hit_length < Z.of_nat fuel → attention_groups c ≠ [] → loop_inv hit_length by_group →
  ∃ L by', hit_loop fuel c hashes (is_simple_hybrid c) hit_length by_group = Ok (L, by') ∧
    hit_found L by'.
Proof.
  intros Hfuel Hne. revert hit_length by_group Hfuel.
  induction fuel as [|fuel IH]; intros hit_length by_group Hfuel [Hlen Hr Hpre Hgr]; [lia|].
  destruct (hit_pass_spec [] (attention_groups c) hit_length hit_length by_group) as (curr & by' & Hp & Hinv).
  { split; try done; [lia|]. by intros g ?%elem_of_nil. }
  cbn [hit_loop]. rewrite Hp. cbn [mbind res_bind]. destruct Hinv as [_ Hlen' Hr' Hd _ Hdv Hgr' Hlast].
  assert (∀ L', valid_length c hashes L' → L' ≤ max_length → L' ≤ curr) as Hgreat by auto.
  assert (∀ L, L = curr → (∀ g, g ∈ attention_groups c → is_full g.1.1 = false →
    ∃ n, stored by' g n ∧ Z.of_nat n * layer_block_size g.1.1 = L) → hit_found L by') as Hdone.
  { intros L -> Hex.
    assert (∀ g, g ∈ attention_groups c → ∃ n, stored by' g n ∧
      curr ≤ Z.of_nat n * layer_block_size g.1.1 ∧
      (is_full g.1.1 = false → Z.of_nat n * layer_block_size g.1.1 = curr)) as Hall.
    { intros g Hg. destruct (is_full g.1.1) eqn:Ef.
      - destruct (Hd g Hg) as (n & ? & ? & _). by exists n.
      - destruct (Hex g Hg Ef) as (n & ? & ?). exists n. split; [done|]. split; [lia|done]. }
    split_and!; [done| |lia|done|done]. eapply found_valid; [lia|by apply Hdv|done]. }
  destruct (Z.leb_spec hit_length curr) as [Hle|Hlt].
  { exists hit_length, by'. split; [done|]. apply Hdone; [lia|].
    intros g Hg Hf. destruct (Hd g Hg) as (n & ? & ? & Hn). exists n. specialize (Hn Hf). split; [done|lia]. }
  destruct (is_simple_hybrid c) eqn:Es.
  - exists curr, by'. split; [done|]. apply Hdone; [done|]. intros g Hg Hf.
    unfold is_simple_hybrid in Es. destruct (attention_groups c) as [|[[spec ids1] cls1] [|g2 [|? ?]]] eqn:Eg; try done.
    apply elem_of_cons in Hg as [->|[->|Hg%elem_of_nil]%elem_of_cons]; [simpl in Hf; congruence| |done].
    by apply Hlast.
  - apply IH; [lia|]. split; [done|lia| |done]. intros g Hg _. right. split; [by apply Hdv|].
    destruct (Hd g Hg) as (n & ? & ? & _). eauto.
Qed.
End fixpoint.

(** ** Properties *)

(** The head of the attention groups is cut to the final length; a group of another
    type has it already. *)
Lemma truncate_full_spec c hashes L by_group :
  hybrid_ok c → attention_groups c ≠ [] → valid_length c hashes L →
  (∀ g, g ∈ attention_groups c →
    ∃ n, stored c hashes by_group g n ∧ L ≤ Z.of_nat n * layer_block_size g.1.1 ∧
      (is_full g.1.1 = false → Z.of_nat n * layer_block_size g.1.1 = L)) →
  ∃ by', truncate_full (attention_groups c) L by_group = Ok by' ∧ length by' = length by_group ∧
    ∀ g, g ∈ attention_groups c →
      ∃ n, stored c hashes by' g n ∧ L ≤ Z.of_nat n * layer_block_size g.1.1 ∧
        (is_full g.1.1 = false ∨ head (attention_groups c) = Some g →
           Z.of_nat n * layer_block_size g.1.1 = L).
Proof.
  intros Hco Hne (HL & Hd & _) Hall. destruct (attention_groups c) as [|[[spec ids0] cls] rest] eqn:Eg; [done|].
  assert (group_ok c (spec, ids0, cls)) as Hok0 by (apply Hco; rewrite Eg; left).
  destruct (go_size _ _ Hok0) as (Hbs & Hdb & _). destruct (go_ids _ _ Hok0) as (_ & Hnd & Hr).
  cbn [fst snd] in *. cbn [truncate_full]. destruct (is_full spec) eqn:Ef.
  2:{ exists by_group. split; [done|]. split; [done|]. intros g Hg.
      destruct (Hall g Hg) as (n & Hst & Hn & Heq). exists n. split; [done|]. split; [done|].
      intros [?|[= <-]]; by apply Heq. }
  unfold py_div. rewrite bool_decide_eq_false_2 by lia. cbn [mbind res_bind].
  assert (layer_block_size spec | L) as [q Hq] by (by transitivity (lcm_block_size c)).
  eexists. split; [done|]. split; [apply truncate_groups_length|].
  assert (L / layer_block_size spec = q) as -> by (rewrite Hq; by apply Z.div_mul; lia).
  assert (0 ≤ q) by nia. intros g [i Hi]%list_elem_of_lookup.
  destruct (Hall g (list_elem_of_lookup_2 _ _ _ Hi)) as (n & [Hv Hst] & Hn & Heq).
  destruct i as [|i].
  - injection Hi as <-. exists (Z.to_nat q). cbn [fst snd] in *.
    assert (∀ m j, required spec m j ↔ (j < m)%nat) as Hreq by (intros; by destruct spec).
    split; [|split; [lia|lia]]. split.
    { intros j Hj%Hreq. apply Hv, Hreq. nia. }
    intros gid Hgid. destruct (Hst gid Hgid) as (bl & Hbl & Hlen & He).
    exists (take (Z.to_nat q) bl). split.
    { apply truncate_groups_at; [done| |done|done]. eapply Forall_impl; [exact Hr|]. simpl. lia. }
    split; [rewrite length_take; nia|]. intros j b [Hj Hlt]%lookup_take_Some.
    destruct (He j b Hj) as [?|[_ Hno]]; [by left|]. destruct Hno. apply Hreq. nia.
  - assert (∀ x y, x ∈ ids0 → y ∈ g.1.2 → Z.to_nat x ≠ Z.to_nat y) as Hdis.
    { intros x y Hx Hy E.
      assert (group_ok c g) as Hok by (apply Hco; rewrite Eg; by eapply list_elem_of_lookup_2).
      destruct (go_ids _ _ Hok) as (_ & _ & Hr'). rewrite Forall_forall in Hr. rewrite Forall_forall in Hr'.
      pose proof (Hr x Hx). pose proof (Hr' y Hy). simpl in *. assert (x = y) as -> by lia.
      assert (0%nat = S i) as ?; [|done].
      apply (ho_disjoint _ Hco 0%nat (S i) (spec, ids0, cls) g y); by rewrite ?Eg. }
    exists n. split; [|split; [done|]].
    + apply (stored_ext c hashes) with (by1 := by_group); [|by split].
      intros gid Hgid. apply truncate_groups_other. intros x Hx. by apply Hdis.
    + intros [?|[= <-]]; [by apply Heq|]. exfalso.
      destruct (first_id c hashes (spec, ids0, cls) Hok0) as (gid & _ & Hgid & _). by apply (Hdis gid gid).
Qed.

Lemma hybrid_find_spec c hashes max_length :
  hybrid_ok c → attention_groups c ≠ [] → 0 ≤ max_length →
  max_length / co_hash_block_size c ≤ Z.of_nat (length hashes) →
  ∃ blocks L, hybrid_find c hashes max_length = Ok (blocks, L) ∧
    valid_length c hashes L ∧ L ≤ max_length ∧
    (∀ L', valid_length c hashes L' → L' ≤ max_length → L' ≤ L) ∧
    ∀ g gid, g ∈ attention_groups c → gid ∈ g.1.2 →
      let n := Z.to_nat (L / layer_block_size g.1.1) in
      ∃ bl, blocks !! Z.to_nat gid = Some bl ∧ (n ≤ length bl)%nat ∧
        (is_full g.1.1 = false ∨ head (attention_groups c) = Some g → length bl = n) ∧
        ∀ i b, (i < n)%nat → bl !! i = Some b → entry_ok c hashes g.1.1 gid n i b.
Proof.
  intros Hco Hne Hml Hh. unfold hybrid_find.
  destruct (hit_loop_spec c hashes Hco max_length Hml Hh (S (Z.to_nat max_length)) max_length
    (replicate (length (co_groups c)) None)) as (L & by1 & -> & Hlen & Hval & Hle & Hgr & Hall); [lia|done| |].
  { split; [by rewrite length_replicate|lia| |done]. intros g Hg _. left. intros gid Hgid.
    destruct (go_ids _ _ (ho_groups _ Hco g Hg)) as (_ & _ & Hr). rewrite Forall_forall in Hr.
    specialize (Hr gid Hgid). simpl in Hr. apply lookup_replicate_2. lia. }
  cbn [mbind res_bind].
  destruct (truncate_full_spec c hashes L by1 Hco Hne Hval Hall) as (by2 & -> & _ & Hall2).
  cbn [mbind res_bind]. eexists _, L. do 4 (split; [done|]).
  intros g gid Hg Hgid. set (n := Z.to_nat (L / _)). destruct (Hall2 g Hg) as (m & [Hv Hst] & Hm & Heq).
  destruct (go_size _ _ (ho_groups _ Hco g Hg)) as (Hbs & Hdb & _).
  destruct Hval as (HL & Hd & _). assert (layer_block_size g.1.1 | L) as [q Hq] by (by transitivity (lcm_block_size c)).
  assert (L / layer_block_size g.1.1 = q) as Eq by (rewrite Hq; by apply Z.div_mul; lia).
  assert (0 ≤ q) by nia. assert (Z.of_nat n = q) as En by (unfold n; rewrite Eq; lia).
  destruct (Hst gid Hgid) as (bl & Hbl & Hlbl & He). exists bl. split.
  { by rewrite list_lookup_fmap, Hbl. }
  split; [nia|]. split; [intros Hc; specialize (Heq Hc); nia|].
  intros i b Hi Hb. destruct (He i b Hb) as [?|[? Hno]]; [by left|]. right. split; [done|].
  destruct (is_full g.1.1) eqn:Ef.
  - exfalso. apply Hno. assert (∀ k j, required g.1.1 k j ↔ (j < k)%nat) as -> by (intros; by destruct g.1.1).
    nia.
  - assert (n = m) as ->; [|done]. specialize (Heq (or_introl eq_refl)). nia.
Qed.

(** C9: for groups of several attention types the iteration finds the longest
    common hit: it terminates without raising, and the length it returns is the
    greatest multiple of the common block size, up to the given maximum, at which
    every group has the blocks it needs.  Each group gets a block list of that
    length, of cached blocks or, where it needs none, null blocks; only a second
    full attention group may get a longer list. *)
Theorem hybrid_find_correct c hashes max_length :
  hybrid_ok c → attention_groups c ≠ [] → 0 ≤ max_length →
  max_length / co_hash_block_size c ≤ Z.of_nat (length hashes) →
  ∃ blocks L, hybrid_find c hashes max_length = Ok (blocks, L) ∧
    valid_length c hashes L ∧ L ≤ max_length ∧
    (∀ L', valid_length c hashes L' → L' ≤ max_length → L' ≤ L) ∧
    ∀ g gid, g ∈ attention_groups c → gid ∈ g.1.2 →
      let n := Z.to_nat (L / layer_block_size g.1.1) in
      ∃ bl, blocks !! Z.to_nat gid = Some bl ∧ (n ≤ length bl)%nat ∧
        (is_full g.1.1 = false ∨ head (attention_groups c) = Some g → length bl = n) ∧
        ∀ i b, (i < n)%nat → bl !! i = Some b → entry_ok c hashes g.1.1 gid n i b.
Proof. exact (hybrid_find_spec c hashes max_length). Qed.

(** ** Splitting the groups by attention type *)

(** The attention groups built from the first [n] groups. *)
Record split_inv (specs : list LayerSpec) (n : nat) (gs : list AttentionGroup) : Prop := {
  sp_specs : NoDup ((λ g, g.1.1) <$> gs);
  sp_group : ∀ g, g ∈ gs → g.1.2 ≠ [] ∧ NoDup g.1.2 ∧ spec_manager_map g.1.1 = Ok g.2;
  sp_ids : ∀ g x, g ∈ gs → x ∈ g.1.2 ↔ ∃ i : nat, x = Z.of_nat i ∧ (i < n)%nat ∧ specs !! i = Some g.1.1;
  sp_cover : ∀ i s, (i < n)%nat → specs !! i = Some s → ∃ g, g ∈ gs ∧ g.1.1 = s
}.

Lemma add_to_groups_spec spec i cls gs :
  spec_manager_map spec = Ok cls → (∀ g, g ∈ gs → spec_manager_map g.1.1 = Ok g.2) →
  ∃ gs', add_to_groups spec i cls gs = Ok gs' ∧
    ((∃ l1 l2 ids, gs = l1 ++ (spec, ids, cls) :: l2 ∧ gs' = l1 ++ (spec, ids ++ [i], cls) :: l2) ∨
     (∀ g, g ∈ gs → g.1.1 ≠ spec) ∧ gs' = gs ++ [(spec, [i], cls)]).
Proof.
  intros Hc. induction gs as [|[[s ids] c] gs IH]; intros Hall; cbn [add_to_groups].
  { eexists. split; [done|]. right. split; [|done]. by intros g Hg%elem_of_nil. }
  pose proof (Hall (s, ids, c) ltac:(left)) as Hs. simpl in Hs.
  destruct (bool_decide_reflect (s = spec)) as [->|Hne].
  - assert (cls = c) as <- by congruence. rewrite bool_decide_eq_true_2 by done.
    eexists. split; [done|]. left. by exists [], gs, ids.
  - destruct IH as (gs' & -> & Hgs'); [intros; apply Hall; by right|]. cbn [mbind res_bind].
    eexists. split; [done|]. destruct Hgs' as [(l1 & l2 & ids' & -> & ->)|[Hno ->]].
    + left. by exists ((s, ids, c) :: l1), l2, ids'.
    + right. split; [|done]. by intros g [->|Hg]%elem_of_cons; [|apply Hno].
Qed.

Section split_step.
Context (specs : list LayerSpec) (n : nat) (gs : list AttentionGroup) (spec : LayerSpec) (cls : ManagerClass).
Context (Hinv : split_inv specs n gs) (Hn : specs !! n = Some spec) (Hcls : spec_manager_map spec = Ok cls).

Lemma split_fresh g : g ∈ gs → Z.of_nat n ∉ g.1.2.
Proof. intros Hin Hx. apply (sp_ids _ _ _ Hinv) in Hx as (i & ? & ? & ?); [lia|done]. Qed.

Lemma split_keep g x :
  g ∈ gs → g.1.1 ≠ spec →
  x ∈ g.1.2 ↔ ∃ i : nat, x = Z.of_nat i ∧ (i < S n)%nat ∧ specs !! i = Some g.1.1.
Proof.
  intros Hin Hs. rewrite (sp_ids _ _ _ Hinv g x Hin).
  split; intros (i & -> & Hlt & Hl); exists i; (split; [done|]); (split; [|done]); [lia|].
  destruct (decide (i = n)) as [->|]; [congruence|lia].
Qed.

(** The spec is that of an earlier group. *)
Lemma split_inv_extend l1 l2 ids :
  gs = l1 ++ (spec, ids, cls) :: l2 → split_inv specs (S n) (l1 ++ (spec, ids ++ [Z.of_nat n], cls) :: l2).
Proof.
  intros Egs. pose proof (sp_specs _ _ _ Hinv) as Hnd. rewrite Egs, fmap_app, fmap_cons in Hnd. cbn [fst] in Hnd.
  set (new := (spec, ids ++ [Z.of_nat n], cls)).
  assert (∀ g, g ∈ l1 ++ l2 → g.1.1 ≠ spec) as Hother.
  { intros g Hin E. apply NoDup_app in Hnd as (_ & H1 & [H2 _]%NoDup_cons).
    apply elem_of_app in Hin as [Hin|Hin].
    - apply (H1 spec); [|left]. rewrite <-E. by apply (list_elem_of_fmap_2 (λ g : AttentionGroup, g.1.1)).
    - apply H2. rewrite <-E. by apply (list_elem_of_fmap_2 (λ g : AttentionGroup, g.1.1)). }
  assert (∀ g, g ∈ l1 ++ new :: l2 ↔ g = new ∨ g ∈ l1 ++ l2) as Hsplit.
  { intros g. rewrite !elem_of_app, elem_of_cons. tauto. }
  assert (∀ g, g ∈ gs ↔ g = (spec, ids, cls) ∨ g ∈ l1 ++ l2) as Hold.
  { intros g. rewrite Egs, !elem_of_app, elem_of_cons. tauto. }
  assert ((spec, ids, cls) ∈ gs) as Hself by (apply Hold; by left). split.
  - by rewrite fmap_app, fmap_cons.
  - intros g [->|Hin]%Hsplit; [|by apply (sp_group _ _ _ Hinv), Hold; right]. cbn [fst snd]. split; [by destruct ids|].
    destruct (sp_group _ _ _ Hinv _ Hself) as (_ & Hndi & _). split; [|done].
    apply NoDup_app. split; [done|]. split; [|apply NoDup_singleton].
    intros x Hx ->%list_elem_of_singleton. by apply (split_fresh _ Hself).
  - intros g x [->|Hin]%Hsplit; [|apply split_keep; [apply Hold; by right|by apply Hother]]. cbn [fst snd new].
    rewrite elem_of_app, list_elem_of_singleton, (sp_ids _ _ _ Hinv _ x Hself). split.
    + intros [(i & -> & ? & ?)| ->]; [exists i; split_and!; [done|lia|done]|by exists n; split_and!; [|lia|]].
    + intros (i & -> & ? & ?). destruct (decide (i = n)) as [->|]; [by right|left; exists i; split_and!; [done|lia|done]].
  - intros i s Hlt Hs. destruct (decide (s = spec)) as [->|Hne]; [exists new; split; [by apply Hsplit; left|done]|].
    destruct (decide (i = n)) as [->|]; [congruence|].
    destruct (sp_cover _ _ _ Hinv i s ltac:(lia) Hs) as (g & [->|Hin]%Hold & E); [done|].
    exists g. split; [by apply Hsplit; right|done].
Qed.

(** The spec is new. *)
Lemma split_inv_new :
  (∀ g, g ∈ gs → g.1.1 ≠ spec) → split_inv specs (S n) (gs ++ [(spec, [Z.of_nat n], cls)]).
Proof.
  intros Hno. set (new := (spec, [Z.of_nat n], cls)).
  assert (∀ g, g ∈ gs ++ [new] ↔ g = new ∨ g ∈ gs) as Hsplit.
  { intros g. rewrite elem_of_app, list_elem_of_singleton. tauto. }
  split.
  - rewrite fmap_app. apply NoDup_app. split; [apply Hinv|]. split; [|apply NoDup_singleton].
    intros s (g & E & Hin)%list_elem_of_fmap ->%list_elem_of_singleton. by apply (Hno g).
  - intros g [->|Hin]%Hsplit; [|by apply (sp_group _ _ _ Hinv)].
    split; [done|]. split; [apply NoDup_singleton|done].
  - intros g x [->|Hin]%Hsplit; [|apply split_keep; [done|by apply Hno]].
    cbn [fst snd new]. rewrite list_elem_of_singleton. split.
    + intros ->. exists n. split_and!; [done|lia|done].
    + intros (i & -> & ? & Hs). destruct (decide (i = n)) as [->|]; [done|].
      destruct (sp_cover _ _ _ Hinv i spec ltac:(lia) Hs) as (g & Hin & E). by destruct (Hno g Hin).
  - intros i s Hlt Hs. destruct (decide (i = n)) as [->|].
    + exists new. split; [by apply Hsplit; left|]. cbn [fst new]. congruence.
    + destruct (sp_cover _ _ _ Hinv i s ltac:(lia) Hs) as (g & Hin & E). exists g. split; [by apply Hsplit; right|done].
Qed.

Lemma split_inv_step gs' : add_to_groups spec (Z.of_nat n) cls gs = Ok gs' → split_inv specs (S n) gs'.
Proof.
  intros Hadd. destruct (add_to_groups_spec spec (Z.of_nat n) cls gs) as (? & Hadd' & Hcase);
    [done|by intros; apply (sp_group _ _ _ Hinv)|].
  rewrite Hadd in Hadd'. apply Ok_inj in Hadd' as <-.
  destruct Hcase as [(l1 & l2 & ids & ? & ->)|[Hno ->]]; [by apply split_inv_extend|by apply split_inv_new].
Qed.
End split_step.

Lemma split_groups_spec specs ms :
  Forall2 (λ s m, spec_manager_map s = Ok (mgr_class m)) specs ms →
  ∃ gs, split_groups specs ms 0 [] = Ok gs ∧ split_inv specs (length specs) gs.
Proof.
  intros Hall. assert (∀ rest msr n gs, drop n specs = rest → (n ≤ length specs)%nat →
    Forall2 (λ s m, spec_manager_map s = Ok (mgr_class m)) rest msr → split_inv specs n gs →
    ∃ gs', split_groups rest msr (Z.of_nat n) gs = Ok gs' ∧ split_inv specs (length specs) gs') as Hgen.
  { intros rest msr n gs Hd Hlen Hf. revert n gs Hd Hlen.
    induction Hf as [|s m rest msr Hs Hf IH]; intros n gs Hd Hlen Hi; cbn [split_groups].
    - exists gs. split; [done|]. assert (length (drop n specs) = 0%nat) as E by by rewrite Hd.
      rewrite length_drop in E. by replace (length specs) with n by lia.
    - assert (specs !! n = Some s) as Hn.
      { pose proof (lookup_drop specs n 0) as E. rewrite Hd, Nat.add_0_r in E. by rewrite <-E. }
      destruct (add_to_groups_spec s (Z.of_nat n) (mgr_class m) gs) as (gs1 & Hadd & _); [done|by intros; apply (sp_group _ _ _ Hi)|].
      rewrite Hadd. cbn [mbind res_bind]. replace (Z.of_nat n + 1) with (Z.of_nat (S n)) by lia.
      apply IH; [|by apply lookup_lt_Some in Hn; lia|by apply (split_inv_step _ _ _ _ _ Hi Hn Hs)].
      replace (S n) with (n + 1)%nat by lia. by rewrite <-drop_drop, Hd. }
  apply (Hgen specs ms 0%nat []); [done|lia|done|]. split; [apply NoDup_nil_2|by intros g Hg%elem_of_nil|by intros g x Hg%elem_of_nil|lia].
Qed.

Lemma full_first_perm gs : full_first gs ≡ₚ gs.
Proof.
  unfold full_first. induction gs as [|g gs IH]; [done|].
  destruct (is_full g.1.1) eqn:E.
  - rewrite !filter_cons, decide_True, decide_False by congruence. simpl. by rewrite IH.
  - rewrite !filter_cons, decide_False, decide_True by congruence. by rewrite <-Permutation_middle, IH.
Qed.

Lemma foldl_lcm_spec l a : (a | foldl Z.lcm a l) ∧ ∀ x, x ∈ l → (x | foldl Z.lcm a l).
Proof.
  revert a. induction l as [|y l IH]; intros a; simpl; [split; [done|by intros x Hx%elem_of_nil]|].
  destruct (IH (Z.lcm a y)) as [H1 H2]. split.
  - etransitivity; [apply Z.divide_lcm_l|done].
  - intros x [->|Hx]%elem_of_cons; [|by apply H2]. etransitivity; [apply Z.divide_lcm_r|done].
Qed.

Lemma foldl_lcm_pos l a : 0 < a → Forall (λ x, 0 < x) l → 0 < foldl Z.lcm a l.
Proof.
  intros Ha Hl. revert a Ha. induction Hl as [|y l Hy Hl IH]; intros a Ha; simpl; [done|].
  apply IH. pose proof (Z.lcm_nonneg a y). assert (Z.lcm a y ≠ 0) by (rewrite Z.lcm_eq_0; lia). lia.
Qed.

(** What the hybrid coordinator needs of the model: chunked local attention only
    with blocks of the common size that divide the chunk, and no cross attention. *)
Definition spec_supported (lcm : Z) (s : LayerSpec) : Prop :=
  match s with
  | ChunkedLocalAttentionSpec a chunk =>
      a_block_size a = lcm ∧ ∃ k, 0 < k ∧ chunk = k * a_block_size a
  | CrossAttentionSpec _ | EncoderOnlyAttentionSpec _ => False
  | _ => True
  end.

(** [hybrid_init] groups every KV cache group into exactly one attention group of
    its spec, full attention first, and the result is a valid coordinator. *)
Lemma hybrid_init_spec c0 free c :
  pool_ok (block_pool c0) free → co_use_eagle c0 = false → 0 < co_hash_block_size c0 →
  Z.of_nat (length (co_groups c0)) < 2 ^ 32 →
  Forall2 (λ s m, spec_manager_map s = Ok (mgr_class m)) (co_groups c0) (single_type_managers c0) →
  Forall (λ s, 0 < layer_block_size s) (co_groups c0) →
  hybrid_init c0 = Ok c → Forall (spec_supported (lcm_block_size c)) (co_groups c0) →
  hybrid_ok c ∧ attention_groups c ≠ [] ∧
  c = mkCoordinator (co_kind c0) (co_groups c0) (co_use_eagle c0) (co_enable_caching c0) (block_pool c0)
        (single_type_managers c0) (co_block_size c0) (co_dcp c0) (co_pcp c0) (co_hash_block_size c0)
        (attention_groups c) (lcm_block_size c) ∧
  ∀ i s, co_groups c !! i = Some s →
    ∃ g, g ∈ attention_groups c ∧ g.1.1 = s ∧ Z.of_nat i ∈ g.1.2.
Proof.
  intros Hp He Hh Hlen Hms Hbs Hinit Hsup. unfold hybrid_init in Hinit.
  destruct (forallb _ _) eqn:Hdiv; [|done]. cbn [negb] in Hinit.
  destruct (_ || _); [done|]. unfold verify_and_split_kv_cache_groups in Hinit.
  destruct (split_groups_spec _ _ Hms) as (gs & Hgs & Hinv). rewrite Hgs in Hinit. cbn [mbind res_bind] in Hinit.
  destruct (length gs <=? 1)%nat eqn:Hl; [done|]. apply Nat.leb_gt in Hl. apply Ok_inj in Hinit.
  rewrite forallb_forall in Hdiv. rewrite Forall_forall in Hbs. rewrite Forall_forall in Hsup.
  assert (∀ g, g ∈ gs → g.1.1 ∈ co_groups c0) as Hin.
  { intros g Hg. destruct (sp_group _ _ _ Hinv g Hg) as (Hne & _). destruct (g.1.2) as [|x l] eqn:E; [done|].
    assert (x ∈ g.1.2) as Hx by (rewrite E; left). apply (sp_ids _ _ _ Hinv g x Hg) in Hx as (i & _ & _ & Hi).
    by eapply list_elem_of_lookup_2. }
  assert (∀ g, g ∈ attention_groups c ↔ g ∈ gs) as Heq.
  { intros g. rewrite <-Hinit. cbn [attention_groups]. by rewrite full_first_perm. }
  split; [|split; [|split; [by rewrite <-Hinit|]]].
  - assert (lcm_block_size c = foldl Z.lcm 1 ((λ g, layer_block_size g.1.1) <$> gs)) as Hlcm by by rewrite <-Hinit.
    split.
    + exists free. by rewrite <-Hinit.
    + by rewrite <-Hinit.
    + rewrite Hlcm. split; [|by rewrite <-Hinit]. apply foldl_lcm_pos; [lia|]. apply Forall_forall.
      intros x (g & -> & Hg)%list_elem_of_fmap. by apply Hbs, Hin.
    + intros g Hg%Heq. destruct (sp_group _ _ _ Hinv g Hg) as (Hne & Hnd & Hc). split; [done| | |].
      * split; [done|]. split; [done|]. apply Forall_forall. intros x Hx.
        apply (sp_ids _ _ _ Hinv g x Hg) in Hx as (i & -> & Hi & _).
        replace (co_groups c) with (co_groups c0) by by rewrite <-Hinit. lia.
      * split; [by apply Hbs, Hin|]. split.
        -- rewrite Hlcm. apply foldl_lcm_spec. by apply (list_elem_of_fmap_2 (λ g : AttentionGroup, layer_block_size g.1.1)).
        -- replace (co_hash_block_size c) with (co_hash_block_size c0) by by rewrite <-Hinit.
           specialize (Hdiv g.1.1 (proj1 (list_elem_of_In _ _) (Hin g Hg))). cbv beta in Hdiv.
           apply bool_decide_eq_true in Hdiv. by apply Z.mod_divide; [lia|].
      * pose proof (Hsup g.1.1 (Hin g Hg)) as Hs. unfold spec_supported in Hs. by destruct (g.1.1).
    + intros i j g g' x Hi Hj Hx Hx'.
      assert (g ∈ gs) as Hg by (apply Heq; by eapply list_elem_of_lookup_2).
      assert (g' ∈ gs) as Hg' by (apply Heq; by eapply list_elem_of_lookup_2).
      apply (sp_ids _ _ _ Hinv g x Hg) in Hx as (k & -> & _ & Hk).
      apply (sp_ids _ _ _ Hinv g' _ Hg') in Hx' as (k' & Ek & _ & Hk').
      assert (k' = k) as -> by lia. assert (NoDup ((λ g : AttentionGroup, g.1.1) <$> attention_groups c)) as Hnd.
      { rewrite <-Hinit. cbn [attention_groups]. rewrite full_first_perm. apply Hinv. }
      apply (NoDup_lookup _ i j g.1.1 Hnd); apply list_lookup_fmap_Some; [by exists g|exists g'; split; [congruence|done]].
  - rewrite <-Hinit. cbn [attention_groups]. intros E. pose proof (full_first_perm gs) as Hp'.
    rewrite E in Hp'. apply Permutation_length in Hp'. simpl in Hp'. lia.
  - intros i s Hi. assert (co_groups c0 !! i = Some s) as Hi0 by by rewrite <-Hinit in Hi.
    destruct (sp_cover _ _ _ Hinv i s) as (g & Hg & <-); [by eapply lookup_lt_Some|done|].
    exists g. split; [by apply Heq|]. split; [done|]. apply (sp_ids _ _ _ Hinv g _ Hg).
    exists i. split; [done|]. split; [by eapply lookup_lt_Some|done].
Qed.

(** ** Concrete instances *)

Definition full2 : LayerSpec := FullAttentionSpec (mkAttn 2 1 1 "bf16" None) 1 None None.

(** Block 1 is cached for group 0 and block 2 for group 1. *)
Definition pool4_both : BlockPool :=
  (cache_full_blocks false (λ b, b) hashed_request [2]%nat 0 1 2 1 pool4_cached).2.

Definition empty_manager (c : ManagerClass) (s : LayerSpec) (gid : Z) : Manager :=
  mkManager c s (layer_block_size s) true gid 0%nat [] ∅ ∅ ∅ ∅ ∅ [].

Definition hybrid2_parts : Coordinator :=
  mkCoordinator HybridKVCacheCoordinator [full2; window2] false true pool4_both
    [empty_manager FullAttentionManager full2 0; empty_manager SlidingWindowManager window2 1]
    0 1 1 2 [] 0.
Definition hybrid2 : Coordinator :=
  match hybrid_init hybrid2_parts with Ok c => c | Err _ => hybrid2_parts end.

Lemma hybrid2_ok : hybrid_ok hybrid2.
Proof.
  apply (hybrid_init_spec hybrid2_parts [3]%nat hybrid2); [|done|done|done| | |vm_compute; reflexivity|].
  - apply cache_full_blocks_ok; [exact pool4_cached_ok|decide_now].
  - by repeat constructor.
  - repeat constructor.
  - repeat constructor.
Qed.

Lemma hybrid_find_correct_witness :
  let hs := block_hashes hashed_request in
  (∃ blocks L, hybrid_find hybrid2 hs 2 = Ok (blocks, L) ∧
    valid_length hybrid2 hs L ∧ L ≤ 2 ∧ (∀ L', valid_length hybrid2 hs L' → L' ≤ 2 → L' ≤ L) ∧
    ∀ g gid, g ∈ attention_groups hybrid2 → gid ∈ g.1.2 →
      let n := Z.to_nat (L / layer_block_size g.1.1) in
      ∃ bl, blocks !! Z.to_nat gid = Some bl ∧ (n ≤ length bl)%nat ∧
        (is_full g.1.1 = false ∨ head (attention_groups hybrid2) = Some g → length bl = n) ∧
        ∀ i b, (i < n)%nat → bl !! i = Some b → entry_ok hybrid2 hs g.1.1 gid n i b) ∧
  hybrid_find hybrid2 hs 2 = Ok ([[1]; [2]]%nat, 2).
Proof.
  split; [|vm_compute; reflexivity].
  apply (hybrid_find_correct hybrid2 (block_hashes hashed_request) 2).
  - exact hybrid2_ok.
  - vm_compute. discriminate.
  - lia.
  - vm_compute. discriminate.
Defined.

(** Two kinds of full attention and a sliding window group. *)
Definition full2_wide : LayerSpec := FullAttentionSpec (mkAttn 2 1 2 "bf16" None) 2 None None.
Definition long_request : Request :=
  text_request "r" None None [] [7; 8; 9; 10; 11] enc_hash [1] 2.
Definition pool6_cached : BlockPool :=
  match BlockPool_init 6 true 2 false with
  | Ok p =>
      (get_new_blocks false 5 ;;
       cache_full_blocks false (λ b, b) long_request [1; 2]%nat 0 2 2 0 ;;
       cache_full_blocks false (λ b, b) long_request [3; 4]%nat 0 2 2 1 ;;
       cache_full_blocks false (λ b, b) long_request [5]%nat 0 1 2 2) p
  | Err _ => (Err ValueError, pool4)
  end.2.
Definition hybrid3_parts : Coordinator :=
  mkCoordinator HybridKVCacheCoordinator [full2; full2_wide; window2] false true pool6_cached
    [empty_manager FullAttentionManager full2 0; empty_manager FullAttentionManager full2_wide 1;
     empty_manager SlidingWindowManager window2 2] 0 1 1 2 [] 0.

(** Only the first attention group is cut to the final hit length: with two
    kinds of full attention and a sliding window that hits one block, the hit has
    the length of one block but the second full attention group gets two. *)
Theorem second_full_group_not_truncated :
  (c ← hybrid_init hybrid3_parts; co_find_longest_cache_hit c (block_hashes long_request) 4) =
  Ok ([[1]; [3; 4]; [5]]%nat, 2).
Proof. vm_compute. reflexivity. Qed.
