(* ===== verification/ManagerSpecs.v ===== *)
(** * The managers keep the reference counts

    The invariant [managed ext free (pool, manager)] says that the reference
    count of every block is the number of times requests hold it in this manager
    plus [ext], the references other managers hold; that a request holds a block
    once; and that all blocks are blocks of the pool.  Every operation of
    [CacheManagers] keeps it, also when it raises, and changes nothing of other
    requests; the specifications below say in addition what each operation
    returns and when it raises. *)

From stdpp Require Import base list gmap strings.
From Stdlib Require Import ZArith Lia.
From S2P Require Import Prelude FreeQueue Request BlockHash BlockPool KVCacheSpec CacheManagers.
Local Open Scope Z_scope.

(** ** The references a manager holds *)

Definition hold (x : loc) (rb : gmap string (list loc)) : Z :=
  map_fold (λ _ bs n, occ x bs + n) 0 rb.
Definition held (x : loc) (m : Manager) : Z := hold x (req_to_blocks m).

Lemma hold_delete x rid rb :
  hold x (delete rid rb) = hold x rb - occ x (default [] (rb !! rid)).
Proof.
  unfold hold. destruct (rb !! rid) as [bs|] eqn:E; simpl.
  - rewrite (map_fold_delete_L _ _ rid bs rb); [lia| |done]. intros; lia.
  - rewrite delete_id by done. unfold occ. simpl. lia.
Qed.

Lemma hold_insert x rid bs rb :
  hold x (<[rid := bs]> rb) = hold x rb - occ x (default [] (rb !! rid)) + occ x bs.
Proof.
  rewrite <-insert_delete_eq. unfold hold at 1.
  rewrite map_fold_insert_L; [|intros; lia|apply lookup_delete_eq].
  fold (hold x (delete rid rb)). rewrite hold_delete. lia.
Qed.

Lemma hold_nonneg x rb : 0 ≤ hold x rb.
Proof.
  unfold hold. apply (map_fold_weak_ind (λ n _, 0 ≤ n)); [lia|].
  intros rid bs m n _ Hn. pose proof (occ_nonneg x bs). lia.
Qed.

Lemma hold_ge x rid rb : occ x (default [] (rb !! rid)) ≤ hold x rb.
Proof. pose proof (hold_delete x rid rb). pose proof (hold_nonneg x (delete rid rb)). lia. Qed.

Lemma hold_two x rid rid' rb :
  rid ≠ rid' → occ x (default [] (rb !! rid)) + occ x (default [] (rb !! rid')) ≤ hold x rb.
Proof.
  intros Hne. pose proof (hold_delete x rid rb) as Hd. pose proof (hold_ge x rid' (delete rid rb)) as H.
  rewrite lookup_delete_ne in H by done. lia.
Qed.

Lemma occ_pos x bs : x ∈ bs → 1 ≤ occ x bs.
Proof.
  intros [l1 [l2 ->]]%list_elem_of_split. change (x :: l2) with ([x] ++ l2). rewrite !occ_app.
  unfold occ at 2. rewrite filter_cons_True by done. pose proof (occ_nonneg x l1).
  pose proof (occ_nonneg x l2). simpl. lia.
Qed.

Lemma occ_replicate_null x n : x ≠ 0%nat → occ x (replicate n 0%nat) = 0.
Proof. intros Hx. apply occ_not_in. intros ?%elem_of_replicate. naive_solver. Qed.

#[export] Instance occ_proper x : Proper ((≡ₚ) ==> (=)) (occ x).
Proof. intros l l' Hl. unfold occ. by rewrite Hl. Qed.

(** The blocks of a request: of the pool, and distinct but for the null block. *)
Definition blocks_ok (n : nat) (bs : list loc) : Prop :=
  Forall (λ b, (b < n)%nat) bs ∧ NoDup (filter (λ b, b ≠ 0%nat) bs).

Lemma blocks_ok_nil n : blocks_ok n [].
Proof. split; constructor. Qed.

Lemma blocks_ok_app n l1 l2 :
  blocks_ok n (l1 ++ l2) ↔
  blocks_ok n l1 ∧ blocks_ok n l2 ∧ ∀ x, x ≠ 0%nat → x ∈ l1 → x ∉ l2.
Proof.
  unfold blocks_ok. rewrite Forall_app, filter_app, NoDup_app.
  setoid_rewrite list_elem_of_filter. naive_solver.
Qed.

#[export] Instance blocks_ok_proper n : Proper ((≡ₚ) ==> iff) (blocks_ok n).
Proof. intros l l' Hl. unfold blocks_ok. by rewrite Hl. Qed.

Lemma blocks_ok_null n k : (0 < n)%nat → blocks_ok n (replicate k 0%nat).
Proof.
  intros Hn. split; [by apply Forall_replicate|].
  rewrite filter_none; [apply NoDup_nil_2|]. by intros x [-> _]%elem_of_replicate ?.
Qed.

Lemma blocks_ok_occ n bs x : blocks_ok n bs → x ≠ 0%nat → occ x bs ≤ 1.
Proof.
  intros [_ Hnd] Hx. unfold occ. assert (filter (λ y, y = x) bs = filter (λ y, y = x) (filter (λ b, b ≠ 0%nat) bs)) as ->.
  { rewrite list_filter_filter. apply list_filter_iff. naive_solver. }
  pose proof (NoDup_filter (λ y, y = x) _ Hnd) as Hnd'.
  assert (∀ y, y ∈ filter (λ y, y = x) (filter (λ b, b ≠ 0%nat) bs) → y = x) as Hall
    by (by intros y [? _]%list_elem_of_filter).
  destruct (filter _ (filter _ bs)) as [|y [|z l]]; simpl; [lia|lia|].
  apply NoDup_cons in Hnd' as [Hn _]. exfalso. apply Hn.
  rewrite (Hall y), (Hall z) by (rewrite !elem_of_cons; auto). left.
Qed.

(** ** The invariant

    [ext x] counts the references other managers hold. *)
Record managed (ext : loc → Z) (free : list loc) (s : PM) : Prop := {
  mg_pool : pool_ok s.1 free;
  mg_ref : ∀ x, (0 < x < nblocks s.1)%nat → ref_of s.1 x = ext x + held x s.2;
  mg_ext : ∀ x, 0 ≤ ext x;
  mg_blocks : ∀ rid, blocks_ok (nblocks s.1) (blocks_of rid s.2);
  mg_null : _null_block s.2 = 0%nat;
  mg_bs : 0 < mgr_block_size s.2;
  mg_class : spec_manager_map (mgr_spec s.2) = Ok (mgr_class s.2);
  mg_window : ∀ t, 0 ≤ t → get_num_skipped_tokens s.2 t ≤ t;
  mg_nspec : 0 ≤ num_speculative_blocks s.2;
  mg_spec : ∀ rid, rid ∈ _allocated_block_reqs s.2 → is_align s.2 = true ∧
    num_speculative_blocks s.2 ≤ Z.of_nat (length (blocks_of rid s.2))
}.

(** What a manager's operations never change. *)
Record mgr_frame (m m' : Manager) : Prop := {
  mf_class : mgr_class m' = mgr_class m;
  mf_spec : mgr_spec m' = mgr_spec m;
  mf_bs : mgr_block_size m' = mgr_block_size m;
  mf_caching : mgr_enable_caching m' = mgr_enable_caching m;
  mf_gid : kv_cache_group_id m' = kv_cache_group_id m;
  mf_null : _null_block m' = _null_block m
}.
#[export] Instance mgr_frame_refl : Reflexive mgr_frame.
Proof. by split. Qed.
#[export] Instance mgr_frame_trans : Transitive mgr_frame.
Proof. intros m1 m2 m3 [] []. split; congruence. Qed.

(** A call for request [rid] leaves the pool's size, the manager's constants and
    the other requests alone. *)
Record only (rid : string) (s s' : PM) : Prop := {
  on_pool : pool_frame s.1 s'.1;
  on_mgr : mgr_frame s.2 s'.2;
  on_blocks : ∀ r, r ≠ rid → req_to_blocks s'.2 !! r = req_to_blocks s.2 !! r;
  on_cached : ∀ r, r ≠ rid → num_cached_block s'.2 !! r = num_cached_block s.2 !! r
}.
#[export] Instance only_refl rid : Reflexive (only rid).
Proof. by split. Qed.
#[export] Instance only_trans rid : Transitive (only rid).
Proof.
  intros s1 s2 s3 [P1 M1 B1 C1] [P2 M2 B2 C2]. split; [by transitivity s2.1|by transitivity s2.2| |].
  - intros r Hr. by rewrite B2, B1.
  - intros r Hr. by rewrite C2, C1.
Qed.

Lemma blocks_of_eq rid m m' : req_to_blocks m' !! rid = req_to_blocks m !! rid → blocks_of rid m' = blocks_of rid m.
Proof. intros E. unfold blocks_of. by rewrite E. Qed.

Lemma blocks_of_put rid bs m : blocks_of rid (set_req_to_blocks (<[rid := bs]> (req_to_blocks m)) m) = bs.
Proof. unfold blocks_of. simpl. by rewrite lookup_insert_eq. Qed.

(** A call that replaces the blocks of [rid] by [bs'] and moves the reference
    counts accordingly. *)
Lemma managed_put ext free free' s p' m' rid bs' :
  managed ext free s → pool_ok p' free' → only rid s (p', m') →
  blocks_of rid m' = bs' →
  (∀ x, x ≠ 0%nat → ref_of p' x = ref_of s.1 x - occ x (blocks_of rid s.2) + occ x bs') →
  blocks_ok (nblocks s.1) bs' →
  (∀ r, r ∈ _allocated_block_reqs m' →
     r = rid ∧ is_align s.2 = true ∧ num_speculative_blocks s.2 ≤ Z.of_nat (length bs') ∨
     r ≠ rid ∧ r ∈ _allocated_block_reqs s.2) →
  managed ext free' (p', m').
Proof.
  intros [Hok Hr He Hb Hn Hbs Hcl Hw Hns Hsp] Hok' [Hpf Hmf Hrb Hcb] Hbl Href Hbo Hal. cbn [fst snd] in *.
  assert (nblocks p' = nblocks s.1) as En by (by apply nblocks_frame).
  assert (∀ r, r ≠ rid → blocks_of r m' = blocks_of r s.2) as Hoth by (intros; by apply blocks_of_eq, Hrb).
  assert (num_speculative_blocks m' = num_speculative_blocks s.2) as Ens
    by (unfold num_speculative_blocks; by rewrite (mf_spec _ _ Hmf)).
  assert (is_align m' = is_align s.2) as Eal by (unfold is_align; by rewrite (mf_spec _ _ Hmf)).
  split; cbn [fst snd]; [done| |done| | | | | | |].
  - intros x Hx. rewrite En in Hx. rewrite Href, Hr by lia. unfold held.
    assert (hold x (req_to_blocks m') = hold x (<[rid := bs']> (req_to_blocks s.2))) as ->.
    { destruct (req_to_blocks m' !! rid) as [bs|] eqn:E.
      - f_equal. apply map_eq. intros r. destruct (decide (r = rid)) as [->|Hne].
        + rewrite lookup_insert_eq, E. unfold blocks_of in Hbl. rewrite E in Hbl. simpl in Hbl. by subst.
        + rewrite lookup_insert_ne, Hrb by done. done.
      - assert (bs' = []) as -> by (rewrite <-Hbl; unfold blocks_of; by rewrite E).
        assert (req_to_blocks m' = delete rid (req_to_blocks s.2)) as ->.
        { apply map_eq. intros r. destruct (decide (r = rid)) as [->|Hne].
          - by rewrite lookup_delete_eq.
          - by rewrite lookup_delete_ne, Hrb. }
        rewrite hold_insert, hold_delete. unfold occ at 3. simpl. lia. }
    rewrite hold_insert. unfold blocks_of. lia.
  - intros r. rewrite En. destruct (decide (r = rid)) as [->|Hne]; [by rewrite Hbl|by rewrite Hoth].
  - by rewrite (mf_null _ _ Hmf).
  - by rewrite (mf_bs _ _ Hmf).
  - by rewrite (mf_spec _ _ Hmf), (mf_class _ _ Hmf).
  - unfold get_num_skipped_tokens. by rewrite (mf_spec _ _ Hmf).
  - by rewrite Ens.
  - intros r Hin. rewrite Ens, Eal. destruct (Hal r Hin) as [(-> & ? & ?)|[? ?]]; [by rewrite Hbl|rewrite Hoth by done; auto].
Qed.

(** ** Running on the pool or on the manager *)

Lemma wp_on_pool {A} (c : M BlockPool A) Q E (s : PM) :
  wp c (λ a p, Q a (p, s.2)) (λ e p, E e (p, s.2)) s.1 → wp (zoom poolL c) Q E s.
Proof. intros H. apply wp_zoom. exact H. Qed.

Lemma wp_on_mgr (f : Manager → Manager) (Q : unit → PM → Prop) E (s : PM) :
  Q tt (s.1, f s.2) → wp (zoom mgrL (modify f)) Q E s.
Proof. intros H. apply wp_zoom. exact H. Qed.

Lemma wp_put_blocks rid bs (Q : unit → PM → Prop) E (s : PM) :
  Q tt (s.1, set_req_to_blocks (<[rid := bs]> (req_to_blocks s.2)) s.2) → wp (put_blocks rid bs) Q E s.
Proof. intros H. apply wp_on_mgr. exact H. Qed.

Lemma only_put rid bs (s : PM) :
  only rid s (s.1, set_req_to_blocks (<[rid := bs]> (req_to_blocks s.2)) s.2).
Proof. split; cbn; [done|by split| |done]. intros r Hr. by rewrite lookup_insert_ne. Qed.

(** Reading a missing request stores an empty list, which changes nothing. *)
Lemma managed_default ext free s rid :
  managed ext free s →
  managed ext free (s.1, set_req_to_blocks (<[rid := blocks_of rid s.2]> (req_to_blocks s.2)) s.2).
Proof.
  intros Hm. eapply managed_put; [done|apply Hm|apply only_put|apply blocks_of_put| |apply Hm|].
  - intros x _. lia.
  - cbn. intros r Hr. destruct (decide (r = rid)) as [->|]; [left|right; done]. split; [done|]. by apply Hm.
Qed.

Lemma wp_req_blocks rid (Q : list loc → PM → Prop) E (s : PM) :
  Q (blocks_of rid s.2)
    (s.1, set_req_to_blocks (<[rid := blocks_of rid s.2]> (req_to_blocks s.2)) s.2) →
  wp (req_blocks rid) Q E s.
Proof. intros H. unfold req_blocks. wp_step. wp_step. wp_step. apply wp_on_mgr. wp_step. exact H. Qed.

(** ** Giving blocks back *)

Lemma managed_freeable ext free s rid l rest :
  managed ext free s → blocks_of rid s.2 ≡ₚ l ++ rest → freeable s.1 l.
Proof.
  intros Hm Hp. pose proof (mg_blocks _ _ _ Hm rid) as Hb. rewrite Hp in Hb.
  apply blocks_ok_app in Hb as ([Hall Hnd] & _ & _). split; [|done].
  rewrite Forall_forall in Hall. apply Forall_forall. intros b Hin. split; [by apply Hall|]. intros H0.
  specialize (Hall b Hin). simpl in Hall. rewrite (mg_ref _ _ _ Hm) by lia. pose proof (mg_ext _ _ _ Hm b).
  pose proof (hold_ge b rid (req_to_blocks s.2)) as Hge. fold (blocks_of rid s.2) in Hge.
  fold (held b s.2) in Hge. rewrite Hp, occ_app in Hge. pose proof (occ_pos b l Hin).
  pose proof (occ_nonneg b rest). lia.
Qed.

(** [rid] keeps [bs'] and gives back [removed]. *)
Lemma release_spec ext free s m' rid bs' removed rest :
  managed ext free s → only rid s (s.1, m') → blocks_of rid m' = bs' →
  blocks_of rid s.2 ≡ₚ removed ++ rest → blocks_ok (nblocks s.1) bs' →
  (∀ x, x ≠ 0%nat → occ x bs' = occ x rest) →
  (∀ r, r ∈ _allocated_block_reqs m' →
     r = rid ∧ is_align s.2 = true ∧ num_speculative_blocks s.2 ≤ Z.of_nat (length bs') ∨
     r ≠ rid ∧ r ∈ _allocated_block_reqs s.2) →
  wp (free_blocks removed)
    (λ _ p', managed ext (free ++ last_refs s.1 removed) (p', m') ∧ only rid s (p', m') ∧
       (∀ x, hash_of p' x = hash_of s.1 x) ∧ (∀ x, ref_of p' x = ref_of s.1 x - occ x removed))
    no_exn s.1.
Proof.
  intros Hm Hon Hbl Hp Hb Hocc Hal.
  eapply wp_mono; [apply (free_blocks_spec s.1 free removed); [apply Hm|by eapply managed_freeable]| |done].
  intros _ p' (Hok' & Hf & Hr & Hh).
  assert (only rid s (p', m')) as Hon' by (destruct Hon; by split).
  split; [|by split_and!]. eapply managed_put; [done..| |done|done].
  intros x Hx. rewrite Hr, Hp, occ_app, Hocc by done. lia.
Qed.

(** [k] null blocks take the place of the released ones. *)
Lemma release_nulls ext free s m' rid bs' removed k :
  managed ext free s → only rid s (s.1, m') → blocks_of rid m' = bs' →
  bs' ++ removed ≡ₚ replicate k 0%nat ++ blocks_of rid s.2 → 0%nat ∉ removed →
  _allocated_block_reqs m' = _allocated_block_reqs s.2 → (length (blocks_of rid s.2) ≤ length bs')%nat →
  wp (free_blocks removed)
    (λ _ p', managed ext (free ++ last_refs s.1 removed) (p', m') ∧ only rid s (p', m') ∧
       (∀ x, hash_of p' x = hash_of s.1 x) ∧ (∀ x, ref_of p' x = ref_of s.1 x - occ x removed))
    no_exn s.1.
Proof.
  intros Hm Hon Hbl Hp Hn0 Hal Hlen.
  set (rest := filter (λ b, b ≠ 0%nat) bs' ++ filter (λ b, ¬ b ≠ 0%nat) (blocks_of rid s.2)).
  assert (0 < nblocks s.1)%nat as Hpos.
  { pose proof (pw_pos _ _ _ (mg_pool _ _ _ Hm)). unfold nblocks. lia. }
  apply (release_spec ext free s m' rid bs' removed rest); try done.
  - rewrite <-(filter_app_complement (λ b, b ≠ 0%nat) (blocks_of rid s.2)). unfold rest.
    rewrite app_assoc. f_equiv. rewrite (Permutation_app_comm removed).
    assert (filter (λ b, b ≠ 0%nat) (bs' ++ removed) ≡ₚ
      filter (λ b, b ≠ 0%nat) (replicate k 0%nat ++ blocks_of rid s.2)) as Hf by (by rewrite Hp).
    rewrite !filter_app, (filter_id _ removed), (filter_none _ (replicate _ _)) in Hf.
    + symmetry. exact Hf.
    + by intros x [-> _]%elem_of_replicate ?.
    + by intros x Hx ->.
  - assert (blocks_ok (nblocks s.1) (bs' ++ removed)) as Hb.
    { rewrite Hp. apply blocks_ok_app. split; [by apply blocks_ok_null|]. split; [apply Hm|].
      by intros x Hx [E _]%elem_of_replicate _. }
    by apply blocks_ok_app in Hb as [? _].
  - intros x Hx. unfold rest. rewrite occ_app, (occ_not_in _ (filter (λ b, ¬ b ≠ 0%nat) _)).
    + unfold occ. rewrite list_filter_filter, Z.add_0_r. do 2 f_equal. apply list_filter_iff. naive_solver.
    + intros [H _]%list_elem_of_filter. by apply H.
  - rewrite Hal. intros r Hr. destruct (decide (r = rid)) as [->|]; [left|by right]. split; [done|].
    destruct (mg_spec _ _ _ Hm rid Hr). split; [done|lia].
Qed.

(** Removing skipped blocks: from block [n - 1] down to the first null block,
    each is replaced by the null block. *)
Lemma skip_loop_spec n bs removed :
  (n ≤ length bs)%nat → 0%nat ∉ removed →
  ∃ j, (j ≤ n)%nat ∧ (j = 0%nat ∨ bs !! pred j = Some 0%nat) ∧
    skip_loop 0%nat n bs removed =
      (take j bs ++ replicate (n - j) 0%nat ++ drop n bs, removed ++ rev (drop j (take n bs))) ∧
    (∀ i, (j ≤ i < n)%nat → bs !! i ≠ Some 0%nat).
Proof.
  revert bs removed. induction n as [|n IH]; intros bs removed Hn Hr; cbn [skip_loop].
  { exists 0%nat. split_and!; [done|by left| |lia]. by rewrite drop_0, take_0, app_nil_r. }
  destruct (lookup_lt_is_Some_2 bs n) as [b Eb]; [lia|]. rewrite Eb. destruct (decide (b = 0%nat)) as [->|H0].
  { exists (S n). split_and!; [done|by right| |lia].
    rewrite Nat.sub_diag, (drop_ge (take _ _)) by (rewrite length_take; lia). simpl.
    by rewrite app_nil_r, take_drop. }
  destruct (IH (<[n := 0%nat]> bs) (removed ++ [b])) as (j & Hj & Hz & E & Hnz).
  { rewrite length_insert. lia. }
  { rewrite elem_of_app, list_elem_of_singleton. by intros [?|<-]. }
  exists j. split; [lia|]. split; [|split].
  - destruct Hz as [->|Hz]; [by left|]. destruct (decide (j = 0%nat)); [by left|right].
    rewrite list_lookup_insert_ne in Hz by lia. done.
  - rewrite E. f_equal.
    + rewrite take_insert_ge, drop_insert_ge by lia. replace (n - n)%nat with 0%nat by lia.
      rewrite (drop_S bs b n Eb). cbn [insert list_insert]. replace (S n - j)%nat with (S (n - j))%nat by lia.
      rewrite replicate_S_end, <-!app_assoc. done.
    + rewrite take_insert_ge by lia. rewrite (take_S_r bs n b Eb), drop_app_le by (rewrite length_take; lia).
      rewrite rev_app_distr, <-app_assoc. done.
  - intros i Hi. destruct (decide (i = n)) as [->|]; [congruence|].
    specialize (Hnz i ltac:(lia)). by rewrite list_lookup_insert_ne in Hnz by lia.
Qed.

(** The blocks a list loses when its first [n] blocks are skipped: those behind the
    last null block before [n]. *)
Definition skip_from (n : nat) (bs : list loc) : nat :=
  (n - length (skip_loop 0%nat n bs []).2)%nat.
Definition skipped (n : nat) (bs : list loc) : list loc := drop (skip_from n bs) (take n bs).
Definition after_skip (n : nat) (bs : list loc) : list loc :=
  take (skip_from n bs) bs ++ replicate (n - skip_from n bs) 0%nat ++ drop n bs.

Lemma skip_from_spec n bs :
  (n ≤ length bs)%nat →
  skip_loop 0%nat n bs [] = (after_skip n bs, rev (skipped n bs)) ∧ 0%nat ∉ skipped n bs ∧
  (skip_from n bs ≤ n)%nat ∧ (skip_from n bs = 0%nat ∨ bs !! pred (skip_from n bs) = Some 0%nat).
Proof.
  intros Hn. destruct (skip_loop_spec n bs [] Hn) as (j & Hj & Hz & E & Hnz); [apply not_elem_of_nil|].
  assert (skip_from n bs = j) as Ej.
  { unfold skip_from. rewrite E. simpl. rewrite length_rev, length_drop, length_take. lia. }
  unfold after_skip, skipped. rewrite Ej. split; [exact E|]. split; [|done].
  intros [i Hi]%list_elem_of_lookup. rewrite lookup_drop in Hi. apply lookup_take_Some in Hi as [Hi Hlt].
  by apply (Hnz (j + i)%nat ltac:(lia)).
Qed.

Lemma length_after_skip n bs : (n ≤ length bs)%nat → length (after_skip n bs) = length bs.
Proof.
  intros Hn. destruct (skip_from_spec n bs Hn) as (_ & _ & Hj & _). unfold after_skip.
  rewrite !length_app, length_take, length_replicate, length_drop. lia.
Qed.

Lemma after_skip_lookup n bs i b :
  (n ≤ length bs)%nat → after_skip n bs !! i = Some b → b = 0%nat ∨ bs !! i = Some b.
Proof.
  intros Hn. destruct (skip_from_spec n bs Hn) as (_ & _ & Hj & _). unfold after_skip. set (j := skip_from n bs) in *.
  intros [H|[Hl H]]%lookup_app_Some; [right; by apply lookup_take_Some in H as [? _]|].
  rewrite length_take in *. apply lookup_app_Some in H as [H|[Hl' H]].
  - left. by apply lookup_replicate in H as [-> _].
  - right. rewrite length_replicate in *. rewrite lookup_drop in H. rewrite <-H. f_equal. lia.
Qed.

Lemma after_skip_perm n bs :
  (n ≤ length bs)%nat → after_skip n bs ++ rev (skipped n bs) ≡ₚ replicate (n - skip_from n bs) 0%nat ++ bs.
Proof.
  intros Hn. destruct (skip_from_spec n bs Hn) as (_ & _ & Hj & _). unfold after_skip, skipped.
  set (j := skip_from n bs) in *. rewrite <-Permutation_rev.
  assert (bs = take j bs ++ drop j (take n bs) ++ drop n bs) as E.
  { rewrite <-(take_drop n bs) at 1. rewrite <-(take_drop j (take n bs)) at 1.
    rewrite take_take, <-app_assoc. by replace (j `min` n)%nat with j by lia. }
  clearbody j. revert E. generalize (take j bs) (drop j (take n bs)) (drop n bs) (replicate (n - j) 0%nat).
  intros A B C R ->. solve_Permutation.
Qed.

(** The number of blocks skipped at [t] computed tokens. *)
Definition skip_count (m : Manager) (t : Z) (bs : list loc) : nat :=
  Z.to_nat (Z.min (get_num_skipped_tokens m t / mgr_block_size m) (Z.of_nat (length bs))).

Lemma base_remove_skipped_spec ext free s rid t :
  managed ext free s →
  wp (base_remove_skipped_blocks rid t)
    (λ _ s', let bs := blocks_of rid s.2 in let n := skip_count s.2 t bs in
       let gone := if get_num_skipped_tokens s.2 t <=? 0 then [] else skipped n bs in
       managed ext (free ++ last_refs s.1 (rev gone)) s' ∧ only rid s s' ∧
       blocks_of rid s'.2 = (if get_num_skipped_tokens s.2 t <=? 0 then bs else after_skip n bs) ∧
       num_cached_block s'.2 = num_cached_block s.2 ∧
       last_state_block_idx s'.2 = last_state_block_idx s.2 ∧
       _allocated_block_reqs s'.2 = _allocated_block_reqs s.2 ∧
       (∀ x, hash_of s'.1 x = hash_of s.1 x) ∧ (∀ x, ref_of s'.1 x = ref_of s.1 x - occ x gone))
    no_exn s.
Proof.
  intros Hm. unfold base_remove_skipped_blocks. wp_step. wp_step. wp_step.
  { apply wp_ret. cbv zeta. rewrite !Hif. simpl. rewrite app_nil_r. split; [done|]. split; [done|]. do 5 (split; [done|]).
    intros x. unfold occ. simpl. lia. }
  wp_step. apply wp_req_blocks. set (bs := blocks_of rid s.2). rewrite (mg_null _ _ _ Hm).
  fold (skip_count s.2 t bs). set (n := skip_count s.2 t bs).
  assert (n ≤ length bs)%nat as Hn.
  { unfold n, skip_count. pose proof (mg_bs _ _ _ Hm). lia. }
  destruct (skip_from_spec n bs Hn) as (-> & Hnz & Hj & Hz). wp_step. apply wp_put_blocks. cbn [fst snd].
  apply wp_on_pool. cbn [fst snd].
  eapply wp_mono; [eapply (release_nulls ext free s _ rid (after_skip n bs) (rev (skipped n bs)) (n - skip_from n bs) Hm)| |done].
  - etransitivity; [apply only_put|]. apply (only_put rid (after_skip n bs) (s.1, _)).
  - apply blocks_of_put.
  - by apply after_skip_perm.
  - by rewrite <-Permutation_rev.
  - done.
  - by rewrite length_after_skip.
  - intros [] p' (Hm' & Hon & Hh & Hr). cbv zeta. rewrite !Hif. cbn [fst snd]. split; [done|]. split; [done|]. split_and!; try done.
    + apply blocks_of_put.
    + intros x. rewrite Hr. by rewrite <-Permutation_rev.
Qed.

(** What [free] does: the request is forgotten and its blocks, from the last to
    the first, are given back. *)
Definition freed (ext : loc → Z) (free : list loc) (rid : string) (s s' : PM) : Prop :=
  let bs := blocks_of rid s.2 in
  managed ext (free ++ last_refs s.1 (rev bs)) s' ∧ only rid s s' ∧
  req_to_blocks s'.2 !! rid = None ∧ num_cached_block s'.2 !! rid = None ∧
  (∀ x, hash_of s'.1 x = hash_of s.1 x) ∧ (∀ x, ref_of s'.1 x = ref_of s.1 x - occ x bs).

Lemma align_class s ext free : managed ext free s → is_align s.2 = true → mgr_class s.2 = MambaManager.
Proof.
  intros Hm. unfold is_align. pose proof (mg_class _ _ _ Hm) as Hc. destruct (mgr_spec s.2); try done.
  by apply Ok_inj in Hc as <-.
Qed.

Lemma free_spec ext fr s rid :
  managed ext fr s → wp (free rid) (λ _ s', freed ext fr rid s s') no_exn s.
Proof.
  intros Hm. unfold free. wp_step. wp_step. wp_step.
  eapply (wp_mono _ (λ _ s', ∃ ls al, s' = (s.1, set_last_state ls (set_allocated_reqs al s.2)) ∧
    ∀ r, r ∈ al → r ≠ rid ∧ r ∈ _allocated_block_reqs s.2) _ no_exn); [| |done].
  { destruct (is_align s.2) eqn:Ea.
    - rewrite (align_class _ _ _ Hm Ea), bool_decide_eq_true_2 by done. apply wp_on_mgr.
      eexists _, _. split; [reflexivity|]. intros r. rewrite elem_of_difference, not_elem_of_singleton. tauto.
    - rewrite andb_false_r. apply wp_ret. exists (last_state_block_idx s.2), (_allocated_block_reqs s.2).
      split; [by destruct s as [? []]|]. intros r Hr. destruct (mg_spec _ _ _ Hm r Hr). congruence. }
  intros _ s1 (ls & al & -> & Hal). unfold base_free. wp_step. wp_step. wp_step. apply wp_on_mgr.
  wp_step. apply wp_on_pool. cbn [fst snd]. set (bs := blocks_of rid s.2).
  change (blocks_of rid (set_last_state ls (set_allocated_reqs al s.2))) with bs.
  eapply wp_mono; [eapply (release_spec ext fr s
    (set_num_cached_block (delete rid (num_cached_block s.2)) (set_req_to_blocks (delete rid (req_to_blocks s.2))
       (set_last_state ls (set_allocated_reqs al s.2)))) rid [] (rev bs) [] Hm)| |done].
  - split; [done|by split|..]; cbn [fst snd]; intros r Hr; simpl; by rewrite lookup_delete_ne.
  - unfold blocks_of. simpl. by rewrite lookup_delete_eq.
  - by rewrite app_nil_r, <-Permutation_rev.
  - apply blocks_ok_nil.
  - done.
  - intros r Hr. right. by apply Hal.
  - intros [] p' (Hm' & Hon & Hh & Hr). apply wp_on_mgr. cbn [fst snd] in *. split; [done|]. split; [done|].
    split_and!; [apply lookup_delete_eq|apply lookup_delete_eq|done|].
    intros x. rewrite Hr. by rewrite <-Permutation_rev.
Qed.

(** ** Removing skipped blocks *)

(** What a call of [remove_skipped_blocks] does in general: some blocks of the
    request are replaced by null blocks and given back. *)
Record thinned (ext : loc → Z) (fr : list loc) (rid : string) (s : PM) (gone : list loc) (s' : PM) : Prop := {
  th_managed : managed ext (fr ++ last_refs s.1 gone) s';
  th_only : only rid s s';
  th_length : length (blocks_of rid s'.2) = length (blocks_of rid s.2);
  th_blocks : ∀ i b, blocks_of rid s'.2 !! i = Some b → b = 0%nat ∨ blocks_of rid s.2 !! i = Some b;
  th_cached : num_cached_block s'.2 = num_cached_block s.2;
  th_hash : ∀ x, hash_of s'.1 x = hash_of s.1 x;
  th_ref : ∀ x, ref_of s'.1 x = ref_of s.1 x - occ x gone
}.

Lemma thinned_nil ext fr rid s : managed ext fr s → thinned ext fr rid s [] s.
Proof.
  intros Hm. split; try done; [by rewrite app_nil_r|by right|]. intros x. unfold occ. simpl. lia.
Qed.

Lemma last_refs_app s l1 l2 : last_refs s (l1 ++ l2) = last_refs s l1 ++ last_refs s l2.
Proof. apply filter_app. Qed.

(** Two calls after each other; the blocks of the second were not given back by
    the first. *)
Lemma thinned_trans ext fr rid s g1 s1 g2 s2 :
  thinned ext fr rid s g1 s1 → thinned ext (fr ++ last_refs s.1 g1) rid s1 g2 s2 →
  (∀ x, x ∈ g2 → x ∉ g1) → thinned ext fr rid s (g1 ++ g2) s2.
Proof.
  intros [M1 O1 L1 B1 C1 H1 R1] [M2 O2 L2 B2 C2 H2 R2] Hdis. split.
  - rewrite last_refs_app, app_assoc.
    replace (last_refs s.1 g2) with (last_refs s1.1 g2); [done|].
    apply filter_ext_in. intros b Hb. rewrite R1, (occ_not_in b g1) by auto. by rewrite Z.sub_0_r.
  - by transitivity s1.
  - congruence.
  - intros i b [?|?]%B2; [by left|]. by apply B1.
  - congruence.
  - intros x. by rewrite H2.
  - intros x. rewrite R2, R1, occ_app. lia.
Qed.

Lemma base_remove_thins ext fr s rid t :
  managed ext fr s →
  wp (base_remove_skipped_blocks rid t)
    (λ _ s', last_state_block_idx s'.2 = last_state_block_idx s.2 ∧
       ∃ gone, thinned ext fr rid s (rev gone) s' ∧
         (∀ b, b ∈ gone → b ≠ 0%nat ∧ b ∉ blocks_of rid s'.2)) no_exn s.
Proof.
  intros Hm. eapply wp_mono; [by apply (base_remove_skipped_spec ext fr)| |done].
  cbv zeta. intros _ s' (Hm' & Hon & Hb & Hc & Hl & Ha & Hh & Hr).
  set (bs := blocks_of rid s.2) in *. set (n := skip_count s.2 t bs) in *.
  assert (n ≤ length bs)%nat as Hn by (unfold n, skip_count; lia).
  destruct (_ <=? 0).
  { split; [done|]. exists []. split; [|by intros b Hin%elem_of_nil]. split; try done.
    - by rewrite Hb.
    - rewrite Hb. by right. }
  split; [done|]. exists (skipped n bs). split; [split; try done|].
  - by rewrite Hb, length_after_skip.
  - intros i b. rewrite Hb. by apply after_skip_lookup.
  - intros x. by rewrite Hr, <-Permutation_rev.
  - intros b Hin. assert (b ≠ 0%nat) as H0.
    { intros ->. by destruct (skip_from_spec n bs Hn) as (_ & ? & _). }
    split; [done|]. rewrite Hb.
    assert (blocks_ok (nblocks s.1) (after_skip n bs ++ rev (skipped n bs))) as Hok.
    { rewrite after_skip_perm by done. apply blocks_ok_app. split; [|split; [apply Hm|]].
      - apply blocks_ok_null. pose proof (pw_pos _ _ _ (mg_pool _ _ _ Hm)). unfold nblocks. lia.
      - by intros x Hx [E _]%elem_of_replicate _. }
    apply blocks_ok_app in Hok as (_ & _ & Hd). intros Ha'. apply (Hd b H0 Ha').
    by rewrite <-Permutation_rev.
Qed.

Lemma py_get_index {A} (l : list A) i a :
  py_get l i = Ok a → l !! Z.to_nat (py_index (Z.of_nat (length l)) i) = Some a.
Proof. unfold py_get. case_bool_decide; [done|]. destruct (l !! _) eqn:E; [|done]. by intros [= ->]. Qed.

Lemma overwrite_perm (bs : list loc) i b c :
  bs !! i = Some b → <[i := c]> bs ++ [b] ≡ₚ c :: bs.
Proof.
  intros Hb. rewrite insert_take_drop by (by eapply lookup_lt_Some).
  rewrite <-(take_drop_middle bs i b Hb) at 3. solve_Permutation.
Qed.

Lemma mamba_remove_thins ext fr s rid t :
  managed ext fr s →
  wp (mamba_remove_skipped_blocks rid t)
    (λ _ s', ∃ gone, thinned ext fr rid s gone s') (λ e s', e = IndexError ∧ ∃ gone, thinned ext fr rid s gone s') s.
Proof.
  intros Hm. unfold mamba_remove_skipped_blocks. wp_step. wp_step. wp_step.
  eapply wp_mono; [by apply (base_remove_thins ext fr)| |done].
  intros _ s1 (_ & gone & Hth & Hgone). wp_step; [|wp_step; by exists (rev gone)].
  destruct (last_state_block_idx s.2 !! rid) as [idx|]; [|wp_step; by exists (rev gone)].
  wp_step; [|wp_step; by exists (rev gone)]. wp_step. apply wp_req_blocks. wp_step.
  set (bs := blocks_of rid s1.2). pose proof (th_managed _ _ _ _ _ _ Hth) as Hm1.
  set (s1' := (s1.1, set_req_to_blocks (<[rid := bs]> (req_to_blocks s1.2)) s1.2) : PM).
  assert (thinned ext fr rid s (rev gone) s1') as Hth1.
  { rewrite <-(app_nil_r (rev gone)). eapply thinned_trans; [exact Hth| |by intros x Hx%elem_of_nil].
    split; unfold s1'; cbn [fst snd]; [|apply only_put|by rewrite blocks_of_put| |done|done|].
    - simpl. rewrite app_nil_r. by apply managed_default.
    - intros i b. rewrite blocks_of_put. by right.
    - intros x. unfold occ. simpl. lia. }
  apply wp_lift_res; [|intros e He; split; [|by exists (rev gone)]].
  2:{ revert He. unfold py_get. case_bool_decide; [by intros [= <-]|]. destruct (bs !! _); [done|by intros [= <-]]. }
  intros b Hb%py_get_index. destruct (decide (b = _null_block s.2)) as [_|H0]; [wp_step; by exists (rev gone)|].
  rewrite (mg_null _ _ _ Hm) in H0. wp_step. apply wp_on_pool. rewrite (mg_null _ _ _ Hm).
  set (i := Z.to_nat _) in *. pose proof (overwrite_perm bs i b 0%nat Hb) as Hp.
  assert (blocks_of rid s1'.2 = bs) as Hbl by apply blocks_of_put.
  eapply wp_mono; [apply (release_nulls ext (fr ++ last_refs s.1 (rev gone)) s1'
    (set_req_to_blocks (<[rid := <[i := 0%nat]> bs]> (req_to_blocks s1'.2)) s1'.2) rid (<[i := 0%nat]> bs) [b] 1)| |done].
  - apply Hth1.
  - apply only_put.
  - apply blocks_of_put.
  - rewrite Hbl. exact Hp.
  - by intros ?%list_elem_of_singleton.
  - done.
  - by rewrite Hbl, length_insert.
  - intros _ p' (Hm' & Hon & Hh & Hr). apply wp_put_blocks. cbn [fst snd] in *.
    exists (rev gone ++ [b]). eapply thinned_trans; [exact Hth1|split|]; cbn [fst snd]; try done.
    + by rewrite blocks_of_put, Hbl, length_insert.
    + rewrite blocks_of_put, Hbl. intros j c [[<- [-> _]]|[_ ?]]%list_lookup_insert_Some; [by left|by right].
    + intros x ->%list_elem_of_singleton. rewrite <-Permutation_rev. intros Hx%Hgone.
      apply (proj2 Hx). by eapply list_elem_of_lookup_2.
Qed.

Lemma remove_skipped_spec ext fr s rid t :
  managed ext fr s →
  wp (remove_skipped_blocks rid t)
    (λ _ s', ∃ gone, thinned ext fr rid s gone s')
    (λ e s', e = IndexError ∧ is_align s.2 = true ∧ ∃ gone, thinned ext fr rid s gone s') s.
Proof.
  intros Hm. unfold remove_skipped_blocks. wp_step. wp_step.
  assert (wp (base_remove_skipped_blocks rid t) (λ _ s', ∃ gone, thinned ext fr rid s gone s')
    (λ e s', e = IndexError ∧ is_align s.2 = true ∧ ∃ gone, thinned ext fr rid s gone s') s) as Hbase.
  { eapply wp_mono; [by apply (base_remove_thins ext fr)| |done].
    intros _ s' (_ & gone & ? & _). by exists (rev gone). }
  destruct (mgr_class s.2) eqn:Ec; try exact Hbase.
  destruct (is_align s.2) eqn:Ea.
  - eapply wp_mono; [by apply (mamba_remove_thins ext fr)|done|naive_solver].
  - unfold mamba_remove_skipped_blocks. wp_step. wp_step. wp_step. rewrite Ea.
    eapply wp_mono; [by apply (base_remove_thins ext fr)| |done].
    intros _ s' (_ & gone & ? & _). wp_step. by exists (rev gone).
Qed.

(** ** Allocation *)

(** Fields the invariant does not speak of. *)
Lemma managed_same ext fr p m m' :
  managed ext fr (p, m) → mgr_frame m m' → req_to_blocks m' = req_to_blocks m →
  _allocated_block_reqs m' = _allocated_block_reqs m → managed ext fr (p, m').
Proof.
  intros [] [Fc Fs Fb _ _ Fn] Hr Ha. split; cbn [fst snd] in *;
    unfold held, blocks_of, is_align, num_speculative_blocks, get_num_skipped_tokens in *;
    intros *; rewrite ?Hr, ?Ha, ?Fs, ?Fc, ?Fb, ?Fn; auto.
Qed.

(** [note_new_blocks] only records ids. *)
Lemma wp_note_new_blocks bs (Q : unit → PM → Prop) E (s : PM) :
  (∀ l, Q tt (s.1, set_new_block_ids l s.2)) → wp (note_new_blocks bs) Q E s.
Proof.
  intros HQ. unfold note_new_blocks. wp_step. wp_step. unfold id. destruct s as [p m]. cbn [fst snd] in HQ.
  assert (wp (mret tt : M PM unit) Q E (p, m)) as Hret.
  { apply wp_ret. specialize (HQ (new_block_ids m)). by destruct m. }
  destruct (mgr_spec m); try exact Hret. apply wp_on_mgr. apply HQ.
Qed.

(** [rid] gets [n] blocks from the head of the free queue behind [bs]. *)
Record granted (ext : loc → Z) (fr : list loc) (rid : string) (bs : list loc) (n : nat) (s s' : PM) : Prop := {
  gr_managed : managed ext (drop n fr) s';
  gr_only : only rid s s';
  gr_blocks : blocks_of rid s'.2 = bs ++ take n fr;
  gr_hash : ∀ x, hash_of s'.1 x = if decide (x ∈ take n fr ∧ enable_caching s.1 = true) then None else hash_of s.1 x;
  gr_ref : ∀ x, ref_of s'.1 x = if decide (x ∈ take n fr) then 1 else ref_of s.1 x
}.

Lemma managed_free_nonnull ext fr s x : managed ext fr s → x ∈ fr → x ≠ 0%nat ∧ (x < nblocks s.1)%nat ∧ ref_of s.1 x = 0.
Proof.
  intros Hm Hx. pose proof (pw_free _ _ _ (mg_pool _ _ _ Hm) x) as [H _]. rewrite app_nil_r in H.
  destruct (H Hx). split; [lia|]. split; [lia|done].
Qed.

Lemma NoDup_take {A} n (l : list A) : NoDup l → NoDup (take n l).
Proof. intros Hl. rewrite <-(take_drop n l) in Hl. by apply NoDup_app in Hl as [? _]. Qed.

(** Free blocks are held by nobody. *)
Lemma managed_free_unheld ext fr s x rid : managed ext fr s → x ∈ fr → ext x = 0 ∧ x ∉ blocks_of rid s.2.
Proof.
  intros Hm Hx. destruct (managed_free_nonnull _ _ _ _ Hm Hx) as (H0 & Hn0 & Hr).
  rewrite (mg_ref _ _ _ Hm) in Hr by lia. pose proof (mg_ext _ _ _ Hm x).
  pose proof (hold_ge x rid (req_to_blocks s.2)) as Hge. fold (held x s.2) in Hge.
  pose proof (hold_nonneg x (req_to_blocks s.2)) as Hn. fold (held x s.2) in Hn. split; [lia|].
  intros Hin%occ_pos. unfold blocks_of in Hin. lia.
Qed.

Lemma managed_NoDup ext fr s : managed ext fr s → NoDup fr.
Proof. intros Hm. pose proof (pw_nodup _ _ _ (mg_pool _ _ _ Hm)) as H. by rewrite app_nil_r in H. Qed.

Lemma occ_take_fresh x n (fr : list loc) :
  NoDup fr → occ x (take n fr) = if decide (x ∈ take n fr) then 1 else 0.
Proof.
  intros Hnd. destruct (decide (x ∈ take n fr)) as [Hin|Hin]; [|by apply occ_not_in].
  pose proof (NoDup_take n _ Hnd) as Hnd'.
  apply list_elem_of_split in Hin as (l1 & l2 & E). rewrite E in *.
  apply NoDup_middle in Hnd' as [[H1 H2] _]. change (x :: l2) with ([x] ++ l2).
  rewrite !occ_app, (occ_not_in x l1), (occ_not_in x l2) by done. unfold occ.
  rewrite filter_cons_True by done. simpl. lia.
Qed.

Lemma grant_spec {A} use_int ext fr s rid bs n (k : list loc → M PM A) Q E :
  managed ext fr s → blocks_of rid s.2 = bs → 0 ≤ n →
  (∀ s', n ≤ Z.of_nat (length fr) → granted ext fr rid bs (Z.to_nat n) s s' →
     num_cached_block s'.2 = num_cached_block s.2 →
     last_state_block_idx s'.2 = last_state_block_idx s.2 →
     _allocated_block_reqs s'.2 = _allocated_block_reqs s.2 → wp (k (take (Z.to_nat n) fr)) Q E s') →
  (Z.of_nat (length fr) < n → E ValueError s) →
  wp (new_blocks ← zoom poolL (get_new_blocks use_int n); put_blocks rid (bs ++ new_blocks) ;; k new_blocks) Q E s.
Proof.
  intros Hm Hbs Hn HQ HE. wp_step. apply wp_on_pool.
  eapply wp_mono; [apply (get_new_blocks_spec use_int s.1 fr n); [apply Hm|done]| |].
  2:{ intros e p (-> & -> & Hlt). destruct s. by apply HE. }
  intros r p' (Hle & -> & Hok & Hf & Hr & Hh). cbn [fst snd]. wp_step. apply wp_put_blocks. cbn [fst snd].
  set (i := Z.to_nat n) in *. pose proof (managed_NoDup _ _ _ Hm) as Hnd. apply HQ; [done| |done..].
  assert (only rid s (p', set_req_to_blocks (<[rid := bs ++ take i fr]> (req_to_blocks s.2)) s.2)) as Hon.
  { destruct (only_put rid (bs ++ take i fr) s). by split. }
  assert (∀ x, x ∈ take i fr → x ∈ fr) as Hin by (intros x Hx; by apply elem_of_take in Hx as (? & ?%list_elem_of_lookup_2 & _)).
  split; cbn [fst snd]; [|done|by rewrite blocks_of_put|done|done].
  eapply managed_put; [done|done|done|by rewrite blocks_of_put|..].
  - intros x Hx. rewrite Hr, occ_app, Hbs, occ_take_fresh by done. goal_decide; [|lia].
    destruct (managed_free_nonnull _ _ _ x Hm) as (_ & _ & ->); [auto|]. lia.
  - apply blocks_ok_app. split; [rewrite <-Hbs; apply Hm|]. split.
    + split; [|by apply NoDup_filter, NoDup_take].
      apply Forall_forall. intros x Hx. by apply (managed_free_nonnull _ _ _ x Hm (Hin x Hx)).
    + intros x _ Hx Hx'. rewrite <-Hbs in Hx. by destruct (managed_free_unheld _ _ _ x rid Hm (Hin x Hx')).
  - cbn. intros r Hal. destruct (decide (r = rid)) as [->|]; [left|by right]. split; [done|].
    destruct (mg_spec _ _ _ Hm rid Hal) as [? Hl]. split; [done|]. rewrite Hbs in Hl. rewrite length_app. lia.
Qed.

Lemma granted_refl ext fr rid s : managed ext fr s → granted ext fr rid (blocks_of rid s.2) 0 s s.
Proof.
  intros Hm. split; [by rewrite drop_0|done|by rewrite take_0, app_nil_r|..]; intros x;
    rewrite take_0, decide_False; [done| |done|].
  - by intros [?%elem_of_nil _].
  - apply not_elem_of_nil.
Qed.

Lemma only_ids rid l s p m : only rid s (p, m) → only rid s (p, set_new_block_ids l m).
Proof. by intros [? [] ? ?]; split. Qed.

(** [rid] gets blocks until it has as many as [num_tokens] need, or [ValueError]
    is raised because too few are free. *)
Lemma base_allocate_new_blocks_spec use_int ext fr s rid num_tokens :
  managed ext fr s →
  let bs := blocks_of rid s.2 in
  let n := cdiv num_tokens (mgr_block_size s.2) - Z.of_nat (length bs) in
  wp (base_allocate_new_blocks use_int rid num_tokens)
    (λ r s', n ≤ Z.of_nat (length fr) ∧ r = take (Z.to_nat n) fr ∧
       granted ext fr rid bs (Z.to_nat n) s s' ∧
       num_cached_block s'.2 = num_cached_block s.2)
    (λ e s', e = ValueError ∧ Z.of_nat (length fr) < n ∧ managed ext fr s' ∧ only rid s s') s.
Proof.
  intros Hm bs n. unfold base_allocate_new_blocks. wp_step. apply wp_req_blocks. wp_step. wp_step. cbn [fst snd].
  fold bs. set (s1 := (s.1, set_req_to_blocks (<[rid := bs]> (req_to_blocks s.2)) s.2) : PM).
  assert (managed ext fr s1) as Hm1 by (by apply managed_default).
  assert (only rid s s1) as Hon by apply only_put.
  assert (blocks_of rid s1.2 = bs) as Hb1 by apply blocks_of_put.
  change (mgr_block_size (set_req_to_blocks (<[rid:=bs]> (req_to_blocks s.2)) s.2)) with (mgr_block_size s.2).
  fold n. wp_step.
  - apply Z.leb_le in Hif. wp_step. assert (Z.to_nat n = 0%nat) as -> by lia. split; [lia|].
    split; [by rewrite take_0|]. split; [|done].
    destruct (granted_refl _ _ rid _ Hm1) as [G1 _ G3 G4 G5]. rewrite Hb1 in G3 at 2.
    split; [exact G1|exact Hon|exact G3|exact G4|exact G5].
  - apply Z.leb_gt in Hif. apply (grant_spec use_int ext fr); [done|done|lia| |].
    + intros [p' m'] Hle [G1 G2 G3 G4 G5] Hc _ _. wp_step. apply wp_note_new_blocks. intros l. wp_step.
      cbn [fst snd] in *. split; [done|]. split; [done|]. split; [|exact Hc].
      split; [|apply only_ids; by transitivity s1|done..].
      by apply (managed_same ext _ p' m').
    + intros Hlt. by split_and!.
Qed.

(** A cache hit [nc] of a request with [total] computed tokens: the blocks it takes,
    and its list with null blocks for the skipped ones. *)
Definition num_skipped_new (m : Manager) (total : Z) : Z :=
  get_num_skipped_tokens m total / mgr_block_size m.
Definition kept_blocks (m : Manager) (total : Z) (nc : list loc) : list loc :=
  drop (Z.to_nat (num_skipped_new m total)) nc.
Definition hit_blocks (m : Manager) (total : Z) (nc : list loc) : list loc :=
  replicate (Z.to_nat (num_skipped_new m total)) 0%nat ++ kept_blocks m total nc.
(** The blocks that external tokens need behind it. *)
Definition num_external_blocks (m : Manager) (local external : Z) (nc : list loc) : Z :=
  let total := local + external in
  let ext := if 0 <? num_skipped_new m total
             then Z.min (total - get_num_skipped_tokens m total) external else external in
  if 0 <? ext then cdiv total (mgr_block_size m) - Z.of_nat (length (hit_blocks m total nc)) else 0.

Lemma num_external_nonneg ext fr s local external nc :
  managed ext fr s → 0 ≤ local → 0 ≤ external → Z.of_nat (length nc) * mgr_block_size s.2 ≤ local →
  0 ≤ num_external_blocks s.2 local external nc.
Proof.
  intros Hm Hl He Hnc. unfold num_external_blocks. destruct (0 <? _); [|lia].
  unfold hit_blocks, kept_blocks. rewrite length_app, length_replicate, length_drop.
  set (k := num_skipped_new s.2 (local + external)). pose proof (mg_bs _ _ _ Hm) as Hbs.
  assert (k * mgr_block_size s.2 ≤ local + external) as Hk.
  { pose proof (mg_window _ _ _ Hm (local + external) ltac:(lia)) as Hw.
    pose proof (Z.mul_div_le (get_num_skipped_tokens s.2 (local + external)) _ Hbs) as Hd.
    fold (num_skipped_new s.2 (local + external)) in Hd. fold k in Hd. lia. }
  pose proof (cdiv_spec (local + external) _ Hbs).
  assert (k ≤ cdiv (local + external) (mgr_block_size s.2)) by nia.
  assert (Z.of_nat (length nc) ≤ cdiv (local + external) (mgr_block_size s.2)) by nia. lia.
Qed.

(** The request takes a hit and the blocks of its external tokens. *)
Record took (ext : loc → Z) (fr : list loc) (rid : string) (hit kept : list loc) (n : nat) (s s' : PM) : Prop := {
  tk_managed : managed ext (drop n (filter (λ x, x ∉ kept) fr)) s';
  tk_only : only rid s s';
  tk_blocks : blocks_of rid s'.2 = hit ++ take n (filter (λ x, x ∉ kept) fr);
  tk_cached : num_cached_block s'.2 !! rid = Some (Z.of_nat (length hit));
  tk_hash : ∀ x, hash_of s'.1 x =
    if decide (x ∈ take n (filter (λ x, x ∉ kept) fr) ∧ enable_caching s.1 = true) then None else hash_of s.1 x;
  tk_ref : ∀ x, ref_of s'.1 x =
    if decide (x ∈ take n (filter (λ x, x ∉ kept) fr)) then 1 else ref_of s.1 x + occ x kept
}.

(** The touch: the kept blocks leave the free queue. *)
Lemma touch_hit ext fr s rid hit kept :
  managed ext fr s → blocks_of rid s.2 = [] → blocks_ok (nblocks s.1) hit → blocks_ok (nblocks s.1) kept →
  (∀ x, x ≠ 0%nat → occ x hit = occ x kept) →
  let m' := set_num_cached_block (<[rid := Z.of_nat (length hit)]> (num_cached_block s.2))
              (set_req_to_blocks (<[rid := hit]> (req_to_blocks s.2)) s.2) in
  wp (touch kept) (λ _ p', took ext fr rid hit kept 0 s (p', m')) no_exn s.1.
Proof.
  intros Hm Hb0 Hh Hk Hocc m'. rewrite <-(app_nil_r hit) in Hh.
  eapply wp_mono; [apply (touch_spec s.1 fr kept); [apply Hm|]| |done].
  { destruct Hk as [Hk _]. rewrite Forall_forall in Hk. exact Hk. }
  intros _ p' (Hok & Hf & Hr & Hhash). rewrite app_nil_r in Hh.
  assert (only rid s (p', m')) as Hon.
  { split; cbn; [done|by split|..]; intros r Hne; by rewrite lookup_insert_ne. }
  assert (blocks_of rid m' = hit) as Hbl by (unfold blocks_of; cbn; by rewrite lookup_insert_eq).
  split; cbn [fst snd]; rewrite ?take_0, ?drop_0; [|done|by rewrite app_nil_r|apply lookup_insert_eq|..].
  - eapply managed_put; [done|done|done|exact Hbl| |done|].
    + intros x Hx. rewrite Hr, Hb0, Hocc by done. unfold occ at 2. simpl. lia.
    + cbn. intros r Hal. destruct (decide (r = rid)) as [->|]; [left|by right]. split; [done|].
      destruct (mg_spec _ _ _ Hm rid Hal) as [? Hl]. rewrite Hb0 in Hl. simpl in Hl. split; [done|lia].
  - intros x. rewrite decide_False; [done|]. by intros [?%elem_of_nil _].
  - intros x. rewrite decide_False; [done|]. apply not_elem_of_nil.
Qed.

Lemma hit_blocks_ok n m total nc :
  (0 < n)%nat → blocks_ok n nc → blocks_ok n (hit_blocks m total nc) ∧ blocks_ok n (kept_blocks m total nc) ∧
  ∀ x, x ≠ 0%nat → occ x (hit_blocks m total nc) = occ x (kept_blocks m total nc).
Proof.
  intros Hn Hb. unfold hit_blocks. set (kept := kept_blocks m total nc).
  assert (blocks_ok n kept) as Hk.
  { unfold kept, kept_blocks. rewrite <-(take_drop (Z.to_nat (num_skipped_new m total)) nc) in Hb.
    by apply blocks_ok_app in Hb as (_ & ? & _). }
  split; [|split; [done|]].
  - apply blocks_ok_app. split; [by apply blocks_ok_null|]. split; [done|]. by intros x Hx [E _]%elem_of_replicate.
  - intros x Hx. rewrite occ_app, occ_replicate_null by done. lia.
Qed.

(** A touch is only made with caching; otherwise there must be no hit. *)
Lemma take_hit ext fr s rid hit kept :
  managed ext fr s → blocks_of rid s.2 = [] → blocks_ok (nblocks s.1) hit → blocks_ok (nblocks s.1) kept →
  (∀ x, x ≠ 0%nat → occ x hit = occ x kept) →
  let m' := set_num_cached_block (<[rid := Z.of_nat (length hit)]> (num_cached_block s.2))
              (set_req_to_blocks (<[rid := hit]> (req_to_blocks s.2)) s.2) in
  wp (if mgr_enable_caching s.2 then zoom poolL (touch kept) else assert_ (bool_decide (kept = [])))
    (λ _ s', s'.2 = s.2 ∧ took ext fr rid hit kept 0 s (s'.1, m'))
    (λ e s', s' = s ∧ e = AssertionError ∧ mgr_enable_caching s.2 = false ∧ kept ≠ []) s.
Proof.
  intros Hm Hb0 Hh Hk Hocc m'. apply wp_if; intros Hc.
  - apply wp_on_pool. eapply wp_mono; [exact (touch_hit ext fr s rid hit kept Hm Hb0 Hh Hk Hocc)| |done].
    intros [] p' Ht. by split.
  - apply wp_assert_cases; intros E; [apply bool_decide_eq_true in E|by apply bool_decide_eq_false in E].
    split; [done|]. pose proof (touch_hit ext fr s rid hit kept Hm Hb0 Hh Hk Hocc) as Ht.
    rewrite E in Ht. cbv zeta in Ht. unfold wp in Ht. cbn in Ht. by rewrite E.
Qed.

Lemma took_granted ext fr rid hit kept n s s1 s2 :
  took ext fr rid hit kept 0 s s1 → granted ext (filter (λ x, x ∉ kept) fr) rid hit n s1 s2 →
  num_cached_block s2.2 = num_cached_block s1.2 → took ext fr rid hit kept n s s2.
Proof.
  intros [M1 O1 B1 C1 H1 R1] [M2 O2 B2 H2 R2] Hc. rewrite take_0 in *. split.
  - done.
  - by transitivity s1.
  - done.
  - by rewrite Hc.
  - intros x. rewrite H2, H1, (pf_caching _ _ (on_pool _ _ _ O1)).
    rewrite (decide_False (P := x ∈ [] ∧ _)); [done|]. by intros [?%elem_of_nil _].
  - intros x. rewrite R2, R1, (decide_False (P := x ∈ [])); [done|]. apply not_elem_of_nil.
Qed.

Lemma took_ids ext fr rid hit kept n s p m l :
  took ext fr rid hit kept n s (p, m) → took ext fr rid hit kept n s (p, set_new_block_ids l m).
Proof. intros []. split; try done; [by apply (managed_same ext _ p m)|by apply only_ids]. Qed.

Lemma base_allocate_new_computed_spec use_int ext fr s rid nc local external :
  managed ext fr s → blocks_ok (nblocks s.1) nc → 0 ≤ local → 0 ≤ external →
  Z.of_nat (length nc) * mgr_block_size s.2 ≤ local →
  let total := local + external in
  let hit := hit_blocks s.2 total nc in let kept := kept_blocks s.2 total nc in
  let n := num_external_blocks s.2 local external nc in
  wp (base_allocate_new_computed_blocks use_int rid nc local external)
    (λ _ s', is_Some (num_cached_block s.2 !! rid) ∧ nc = [] ∧ s' = s ∨
       num_cached_block s.2 !! rid = None ∧ blocks_of rid s.2 = [] ∧
       n ≤ Z.of_nat (length (filter (λ x, x ∉ kept) fr)) ∧ took ext fr rid hit kept (Z.to_nat n) s s')
    (λ e s', (∃ fr', managed ext fr' s') ∧ only rid s s' ∧
       (e = AssertionError ∧
          (nc ≠ [] ∧ is_Some (num_cached_block s.2 !! rid) ∨ blocks_of rid s.2 ≠ [] ∨ 
           mgr_enable_caching s.2 = false ∧ kept ≠ []) ∨
        e = ValueError ∧ num_cached_block s.2 !! rid = None ∧ blocks_of rid s.2 = [] ∧
          Z.of_nat (length (filter (λ x, x ∉ kept) fr)) < n)) s.
Proof.
  intros Hm Hnc Hl He Hlen total hit kept n. unfold base_allocate_new_computed_blocks. wp_step. wp_step.
  assert (0 < nblocks s.1)%nat as Hpos.
  { pose proof (pw_pos _ _ _ (mg_pool _ _ _ Hm)). unfold nblocks. lia. }
  apply wp_if; intros Hc; [apply bool_decide_eq_true in Hc|apply bool_decide_eq_false in Hc].
  { apply wp_assert_cases; intros E; [apply bool_decide_eq_true in E|apply bool_decide_eq_false in E].
    - left. split; [done|]. split; [by apply nil_length_inv|done].
    - split; [by exists fr|]. split; [done|]. left. split; [done|]. left. split; [by intros ->|done]. }
  assert (num_cached_block s.2 !! rid = None) as Hc' by (by apply eq_None_not_Some).
  wp_step. apply wp_req_blocks. set (s1 := (s.1, _) : PM).
  assert (managed ext fr s1) as Hm1 by (by apply managed_default).
  assert (only rid s s1) as Hon by apply only_put.
  wp_step. apply wp_assert_cases; intros E; [apply bool_decide_eq_true in E|apply bool_decide_eq_false in E].
  2:{ split; [by exists fr|]. split; [done|]. left. split; [done|]. right; left. by intros E'%(f_equal length). }
  apply nil_length_inv in E.
  assert (blocks_of rid s1.2 = []) as Hb1 by (unfold s1; cbn [snd]; by rewrite blocks_of_put).
  fold total. fold (num_skipped_new s.2 total).
  set (ext' := if 0 <? num_skipped_new s.2 total then Z.min (total - get_num_skipped_tokens s.2 total) external else external).
  assert ((if 0 <? num_skipped_new s.2 total
    then (slice_from (num_skipped_new s.2 total) nc, Z.min (total - get_num_skipped_tokens s.2 total) external)
    else (nc, external)) = (kept, ext')) as ->.
  { unfold kept, kept_blocks, ext'. destruct (Z.ltb_spec 0 (num_skipped_new s.2 total)).
    - by rewrite slice_from_pos by lia.
    - by replace (Z.to_nat (num_skipped_new s.2 total)) with 0%nat by lia. }
  destruct (hit_blocks_ok (nblocks s1.1) s.2 total nc Hpos Hnc) as (Hh & Hk & Hocc). fold hit kept in Hh, Hk, Hocc.
  wp_step. eapply wp_mono; [apply (take_hit ext fr s1 rid hit kept); done| |].
  2:{ intros e s2 (-> & -> & ? & ?). split; [by exists fr|]. split; [done|]. left. split; [done|]. by right; right. }
  intros _ [p2 m2] [Em Ht]. cbn [fst snd] in Em, Ht. subst m2. wp_step. apply wp_put_blocks. wp_step. apply wp_on_mgr.
  cbn [fst snd]. rewrite (mg_null _ _ _ Hm). fold hit.
  set (s3 := (p2, _) : PM). assert (took ext fr rid hit kept 0 s s3) as Ht3.
  { destruct Ht as [M1 O1 B1 C1 H1 R1]. split; try done. by transitivity s1. }
  assert (n = if 0 <? ext' then cdiv total (mgr_block_size s.2) - Z.of_nat (length hit) else 0) as En by done.
  assert (0 ≤ n) as Hn by (by apply (num_external_nonneg ext fr s local external nc)). clearbody n.
  apply wp_if; intros Hx; rewrite Hx in En.
  2:{ wp_step. subst n. right. split; [done|]. split; [done|]. split; [lia|]. exact Ht3. }
  change (replicate (Z.to_nat (num_skipped_new s.2 total)) 0%nat ++ kept) with hit. rewrite <-En. apply (grant_spec use_int ext (filter (λ x, x ∉ kept) fr)); [|by rewrite (tk_blocks _ _ _ _ _ _ _ _ Ht3), take_0, app_nil_r|done|..].
  - pose proof (tk_managed _ _ _ _ _ _ _ _ Ht3) as M. by rewrite drop_0 in M.
  - intros [p4 m4] Hle Hg Hcc _ _. apply wp_note_new_blocks. intros l. right. do 2 (split; [done|]). split; [done|].
    apply took_ids. by eapply took_granted.
  - intros Hlt. split; [eexists; apply Ht3|]. split; [apply Ht3|]. right. by split_and!.
Qed.

(** ** Mamba states *)

(** Null blocks may be added and blocks moved. *)
Lemma managed_nulls ext fr s rid bs' k :
  managed ext fr s → bs' ≡ₚ replicate k 0%nat ++ blocks_of rid s.2 →
  managed ext fr (s.1, set_req_to_blocks (<[rid := bs']> (req_to_blocks s.2)) s.2).
Proof.
  intros Hm Hp. eapply managed_put; [done|apply Hm|apply only_put|apply blocks_of_put| | |].
  - intros x Hx. rewrite Hp, occ_app, occ_replicate_null by done. lia.
  - rewrite Hp. apply blocks_ok_app. split; [|split; [apply Hm|]].
    + apply blocks_ok_null. pose proof (pw_pos _ _ _ (mg_pool _ _ _ Hm)). unfold nblocks. lia.
    + by intros x Hx [E _]%elem_of_replicate.
  - cbn. intros r Hr. destruct (decide (r = rid)) as [->|]; [left|by right]. split; [done|].
    destruct (mg_spec _ _ _ Hm rid Hr) as [? Hl]. split; [done|].
    rewrite Hp, length_app, length_replicate. lia.
Qed.

(** The speculative blocks of the previous step move behind the list: [k] of them,
    at most as many as lie before the skipped position. *)
Lemma reuse_loop_spec sk n a bs :
  0 ≤ a → a + Z.of_nat n ≤ Z.of_nat (length bs) →
  ∃ k bs', reuse_loop 0%nat sk (seqZ a (Z.of_nat n)) bs = Ok bs' ∧
    bs' ≡ₚ replicate k 0%nat ++ bs ∧ (k ≤ n)%nat ∧ Z.of_nat k ≤ Z.max 0 (sk - a).
Proof.
  revert a bs. induction n as [|n IH]; intros a bs Ha Hn.
  { exists 0%nat, bs. split_and!; [done|done|lia|lia]. }
  rewrite seqZ_cons by lia. replace (Z.pred (Z.of_nat (S n))) with (Z.of_nat n) by lia. cbn [reuse_loop].
  destruct (Z.ltb_spec a sk) as [Hlt|Hge].
  2:{ exists 0%nat, bs. split_and!; [done|done|lia|lia]. }
  destruct (lookup_lt_is_Some_2 bs (Z.to_nat a)) as [b Hb]; [lia|].
  pose proof (py_get_nat _ _ _ Hb) as Eb. rewrite Z2Nat.id in Eb by lia. rewrite Eb. cbn [mbind res_bind].
  assert (py_index (Z.of_nat (length (bs ++ [b]))) a = a) as ->.
  { unfold py_index. by rewrite bool_decide_eq_false_2 by lia. }
  destruct (IH (Z.succ a) (<[Z.to_nat a := 0%nat]> (bs ++ [b]))) as (k & bs' & -> & Hp & Hk & Hk'); [lia| |].
  { rewrite length_insert, length_app. simpl. lia. }
  exists (S k), bs'. split; [done|]. split; [|lia]. rewrite Hp.
  rewrite insert_app_l by lia. rewrite (overwrite_perm bs _ b 0%nat Hb), <-Permutation_middle. done.
Qed.

Definition inv (ext : loc → Z) (rid : string) (s s' : PM) : Prop :=
  (∃ fr, managed ext fr s') ∧ only rid s s'.

Lemma inv_intro ext fr rid s s' : managed ext fr s' → only rid s s' → inv ext rid s s'.
Proof. intros ? ?. split; [by exists fr|done]. Qed.

Lemma inv_trans ext rid s1 s2 s3 : inv ext rid s1 s2 → inv ext rid s2 s3 → inv ext rid s1 s3.
Proof. intros [_ ?] [? ?]. split; [done|by transitivity s2]. Qed.

Lemma base_allocate_inv use_int ext fr s rid num_tokens :
  managed ext fr s →
  wp (base_allocate_new_blocks use_int rid num_tokens) (λ _ s', inv ext rid s s') (λ _ s', inv ext rid s s') s.
Proof.
  intros Hm. eapply wp_mono; [by apply (base_allocate_new_blocks_spec use_int ext fr)|..].
  - intros r s' (_ & _ & [] & _). by eapply inv_intro.
  - intros e s' (_ & _ & ? & ?). by eapply inv_intro.
Qed.

(** The state after null blocks have joined the list of a request. *)
Record padded (ext : loc → Z) (fr : list loc) (rid : string) (bs : list loc) (s s' : PM) : Prop := {
  pd_managed : managed ext fr s';
  pd_only : only rid s s';
  pd_blocks : blocks_of rid s'.2 = bs
}.

Lemma wp_put_nulls ext fr rid bs bs' k s s' (Q : unit → PM → Prop) E :
  padded ext fr rid bs s s' → bs' ≡ₚ replicate k 0%nat ++ bs →
  (∀ s2, padded ext fr rid bs' s s2 → Q tt s2) → wp (put_blocks rid bs') Q E s'.
Proof.
  intros [Hm Hon Hb] Hp HQ. apply wp_put_blocks, HQ. split; [|by etransitivity; [|apply only_put]|apply blocks_of_put].
  apply (managed_nulls ext fr s' rid bs' k); [done|by rewrite Hb].
Qed.

(** The skipped positions up to [sk] are filled with null blocks. *)
Lemma pad_nulls (bs : list loc) sk :
  ∃ k, (if Z.of_nat (length bs) <? sk then bs ++ replicate (Z.to_nat (sk - Z.of_nat (length bs))) 0%nat else bs) ≡ₚ replicate k 0%nat ++ bs ∧
    Z.of_nat k = Z.max 0 (sk - Z.of_nat (length bs)).
Proof.
  destruct (Z.ltb_spec (Z.of_nat (length bs)) sk); [|by exists 0%nat; split; [|lia]].
  exists (Z.to_nat (sk - Z.of_nat (length bs))). split; [apply Permutation_app_comm|lia].
Qed.

(** At most one new block is needed besides the speculative ones, which are reused. *)
Lemma wp_reuse {bs bs1 : list loc} (allocated : bool) nspec sk k1 (s : PM) :
  0 ≤ nspec → (allocated = true → nspec ≤ Z.of_nat (length bs)) → Z.of_nat (length bs) < sk + nspec + 1 →
  bs1 ≡ₚ replicate k1 0%nat ++ bs → Z.of_nat k1 = Z.max 0 (sk - Z.of_nat (length bs)) →
  wp (if allocated then lift_res (reuse_loop 0%nat sk (range (Z.of_nat (length bs) - nspec) (Z.of_nat (length bs))) bs1) else mret bs1)
    (λ bs2 s', s' = s ∧ ∃ k2, bs2 ≡ₚ replicate k2 0%nat ++ bs1 ∧ Z.of_nat (length bs2) ≤ sk + nspec) no_exn s.
Proof.
  intros Hns Hal Hlt Hp1 Hk1.
  assert (length bs1 = k1 + length bs)%nat as Hl1 by (by rewrite Hp1, length_app, length_replicate).
  apply wp_if; intros Ea.
  - specialize (Hal Ea).
    destruct (reuse_loop_spec sk (Z.to_nat nspec) (Z.of_nat (length bs) - nspec) bs1) as (k & bs2 & E & Hp & Hk & Hk'); [lia|lia|].
    unfold range. replace (_ - (_ - nspec)) with (Z.of_nat (Z.to_nat nspec)) by lia. rewrite E.
    split; [done|]. exists k. split; [done|]. rewrite Hp, length_app, length_replicate. lia.
  - apply wp_ret. split; [done|]. exists 0%nat. split; [done|]. lia.
Qed.

(** A request with its blocks is noted as allocated. *)
Lemma managed_note ext fr rid bs n s s' :
  granted ext fr rid bs n s s' → is_align s.2 = true → num_speculative_blocks s.2 ≤ Z.of_nat (length (bs ++ take n fr)) →
  managed ext (drop n fr) (s'.1, set_allocated_reqs ({[rid]} ∪ _allocated_block_reqs s'.2) s'.2).
Proof.
  intros [G1 G2 G3 _ _] Hal Hlen. destruct s' as [p6 m6]. cbn [fst snd] in *.
  pose proof (on_mgr _ _ _ G2) as Hf. cbn [fst snd] in Hf.
  eapply (managed_put ext _ _ (p6, m6) p6 _ rid); [exact G1|apply G1|by split|reflexivity| |apply G1|].
  - intros x _. unfold blocks_of. cbn. lia.
  - cbn. intros r. rewrite elem_of_union, elem_of_singleton. destruct (decide (r = rid)) as [->|]; [|by intros [|Hr]; [|right]].
    intros _. left. split; [done|]. unfold is_align, num_speculative_blocks in *. rewrite (mf_spec _ _ Hf). split; [exact Hal|].
    unfold blocks_of at 1. cbn. fold (blocks_of rid m6). by rewrite G3.
Qed.

Lemma mamba_allocate_inv use_int ext fr s rid num_tokens main :
  managed ext fr s → 0 ≤ main →
  wp (mamba_allocate_new_blocks use_int rid num_tokens main) (λ _ s', inv ext rid s s') (λ _ s', inv ext rid s s') s.
Proof.
  intros Hm Hmain. unfold mamba_allocate_new_blocks. wp_step. wp_step. set (nspec := num_speculative_blocks s.2).
  wp_step; [by apply (base_allocate_inv use_int ext fr)|]. apply negb_false_iff in Hif. rename Hif into Hal.
  wp_step. apply wp_req_blocks. set (bs := blocks_of rid s.2). set (s1 := (s.1, _) : PM).
  assert (padded ext fr rid bs s s1) as H1.
  { split; [by apply managed_default|apply only_put|]. unfold s1. cbn [snd]. by rewrite blocks_of_put. }
  assert (∀ bs' s', padded ext fr rid bs' s s' → inv ext rid s s') as Hinv by (intros ? ? []; by eapply inv_intro).
  set (req := cdiv main (mgr_block_size s.2) + nspec).
  wp_step; [wp_step; by eapply Hinv|]. apply bool_decide_eq_false in Hif. wp_step.
  apply wp_assert_cases; intros Hlt; [|by eapply Hinv]. apply Z.ltb_lt in Hlt. cbv zeta.
  set (alloc := bool_decide (rid ∈ _allocated_block_reqs _)).
  wp_step. eapply (wp_mono _ (λ _ s2, padded ext fr rid bs s s2) _ no_exn); [| |done].
  { assert (∀ ls, padded ext fr rid bs s (s1.1, set_last_state ls s1.2)) as Hls.
    { intros ls. destruct H1 as [M1 [? [] ? ?] B1]. split; [|by split|done].
      by apply (managed_same ext fr s1.1 s1.2); [destruct s1|by split|..]. }
    apply wp_if; intros _; [apply wp_on_mgr, Hls|]. apply wp_if; intros _; [apply wp_on_mgr, Hls|by apply wp_ret]. }
  intros _ s3 H3. set (sk := req - nspec - 1). rewrite (mg_null _ _ _ Hm). pose proof (mg_nspec _ _ _ Hm) as Hns.
  destruct (pad_nulls bs sk) as (k1 & Hp1 & Hk1). wp_step. apply (wp_put_nulls _ _ _ _ _ k1 s s3 _ _ H3 Hp1). intros s4 H4.
  wp_step. eapply wp_mono; [apply (wp_reuse alloc nspec sk k1); [done| |unfold sk; lia|done|done]| |done].
  { intros Ea. apply bool_decide_eq_true in Ea. rewrite <-(pd_blocks _ _ _ _ _ _ H1).
    by destruct (mg_spec _ _ _ (pd_managed _ _ _ _ _ _ H1) rid Ea) as [_ ?]. }
  intros bs2 ? (-> & k2 & Hp2 & Hl2). wp_step. apply (wp_put_nulls _ _ _ _ _ k2 s s4 _ _ H4 Hp2). intros s5 H5.
  wp_step. apply wp_assert_cases; intros _; [|by eapply Hinv]. destruct H5 as [M5 O5 B5].
  apply (grant_spec use_int ext fr); [done|done|unfold sk in *; lia| |intros _; by eapply inv_intro].
  intros s6 Hle Hg _ _ _. wp_step. apply wp_on_mgr. wp_step.
  pose proof (on_mgr _ _ _ O5) as Hf. assert (only rid s s6) as [? [] ? ?] by (transitivity s5; [done|apply Hg]).
  eapply inv_intro; [eapply managed_note; [exact Hg|..]|by split].
  - unfold is_align in *. by rewrite (mf_spec _ _ Hf).
  - unfold num_speculative_blocks. rewrite (mf_spec _ _ Hf). fold (num_speculative_blocks s.2). fold nspec.
    rewrite length_app, length_take. pose proof (cdiv_nonneg main _ (mg_bs _ _ _ Hm) Hmain). unfold sk, req in *. lia.
Qed.

(** ** All operations keep the invariant *)

Lemma managed_kept ext fr p p' m :
  managed ext fr (p, m) → pool_ok p' fr → kept p p' → managed ext fr (p', m).
Proof.
  intros [? Hr ? Hb] Hok [Hf Hk]. split; cbn [fst snd] in *; try done.
  - intros x Hx. rewrite (nblocks_frame p p' Hf) in Hx. by rewrite Hk, Hr.
  - intros rid. rewrite (nblocks_frame p p' Hf). apply Hb.
Qed.

Lemma inv_same ext rid s s' m : inv ext rid s s' → mgr_frame s'.2 m →
  req_to_blocks m = req_to_blocks s'.2 → _allocated_block_reqs m = _allocated_block_reqs s'.2 →
  (∀ r, r ≠ rid → num_cached_block m !! r = num_cached_block s'.2 !! r) → inv ext rid s (s'.1, m).
Proof.
  intros [[fr Hm] [? ? Hb Hc]] Hf Hr Ha Hn. destruct s' as [p' m']. cbn [fst snd] in *. split.
  - exists fr. by apply (managed_same ext fr p' m').
  - split; cbn [fst snd]; [done|by transitivity m'| |].
    + intros r Hne. rewrite Hr. by apply Hb.
    + intros r Hne. rewrite Hn by done. by apply Hc.
Qed.

Section invariants.
Context (use_int : bool) (sha256 : bytes → bytes).
Context (ext : loc → Z) (fr : list loc) (s : PM) (Hm : managed ext fr s).
Abbreviation keeps_inv rid m := (wp m (λ _ s', inv ext rid s s') (λ _ s', inv ext rid s s') s).

Lemma inv_refl rid : inv ext rid s s.
Proof. by eapply inv_intro. Qed.

Lemma inv_default rid : inv ext rid s (s.1, set_req_to_blocks (<[rid := blocks_of rid s.2]> (req_to_blocks s.2)) s.2).
Proof. eapply inv_intro; [by apply (managed_default ext fr)|apply only_put]. Qed.

Lemma get_num_blocks_inv rid n nc total main :
  wp (get_num_blocks_to_allocate rid n nc total main)
    (λ _ s', inv ext rid s s' ∧ s'.1 = s.1) (λ _ s', inv ext rid s s' ∧ s'.1 = s.1) s.
Proof.
  assert (∀ n, wp (base_get_num_blocks_to_allocate rid n nc total)
    (λ _ s', inv ext rid s s' ∧ s'.1 = s.1) (λ _ s', inv ext rid s s' ∧ s'.1 = s.1) s) as Hbase.
  { intros n'. unfold base_get_num_blocks_to_allocate. pose proof (inv_refl rid). wp_steps; [|done].
    apply wp_assert_cases; intros _; [by wp_step|done]. }
  unfold get_num_blocks_to_allocate. wp_step. wp_step. destruct (mgr_class s.2); try apply Hbase.
  unfold mamba_get_num_blocks_to_allocate. wp_step. wp_step. wp_step. wp_step. wp_step.
  { wp_step. split; [apply inv_refl|done]. }
  wp_step; [apply Hbase|]. wp_step. apply wp_req_blocks. wp_step. split; [apply inv_default|done].
Qed.

Lemma allocate_new_computed_inv rid nc local external :
  blocks_ok (nblocks s.1) nc → 0 ≤ local → 0 ≤ external → Z.of_nat (length nc) * mgr_block_size s.2 ≤ local →
  keeps_inv rid (allocate_new_computed_blocks use_int rid nc local external).
Proof.
  intros Hnc Hl He Hlen. unfold allocate_new_computed_blocks. wp_step. wp_step.
  assert (keeps_inv rid (base_allocate_new_computed_blocks use_int rid nc local external)) as Hbase.
  { eapply wp_mono; [by apply (base_allocate_new_computed_spec use_int ext fr)|..].
    - intros _ s' [(_ & _ & ->)|(_ & _ & _ & [])]; [apply inv_refl|by eapply inv_intro].
    - intros e s' (? & ? & _). by split. }
  destruct (mgr_class s.2); try exact Hbase. apply wp_assert_cases; intros _; apply inv_refl.
Qed.

Lemma allocate_new_blocks_inv rid n main :
  0 ≤ main → keeps_inv rid (allocate_new_blocks use_int rid n main).
Proof.
  intros Hmain. unfold allocate_new_blocks. wp_step. wp_step.
  pose proof (base_allocate_inv use_int ext fr s rid n Hm) as Hbase.
  destruct (mgr_class s.2); try exact Hbase. by apply (mamba_allocate_inv use_int ext fr).
Qed.

Lemma base_cache_inv request n :
  keeps_inv (request_id request) (base_cache_blocks use_int sha256 request n).
Proof.
  set (rid := request_id request). unfold base_cache_blocks. wp_step. wp_step. wp_step; [wp_step; apply inv_refl|].
  wp_step. apply wp_req_blocks. fold rid. set (s1 := (s.1, _) : PM).
  assert (managed ext fr s1) as Hm1 by (by apply managed_default).
  assert (only rid s s1) as Hon1 by apply only_put.
  assert (∀ p', pool_ok p' fr → kept s1.1 p' → inv ext rid s (p', s1.2)) as Hinv.
  { intros p' Hok Hk. eapply inv_intro; [|destruct Hon1; split; try done; apply Hk].
    apply (managed_kept ext fr s1.1); [by destruct s1|done|done]. }
  wp_step. apply wp_on_pool. eapply wp_mono; [apply (keeps_cache_full_blocks use_int sha256 _ _ _ _ _ _ (nblocks s.1))|..].
  - apply (mg_blocks _ _ _ Hm rid).
  - apply Hm1.
  - done.
  - intros r p' [Hok Hk]. wp_step. apply wp_on_mgr. wp_step.
    apply (inv_same ext rid s (p', s1.2)); [by apply Hinv|by split|done|done|].
    intros r' Hne. cbn. by rewrite lookup_insert_ne.
  - intros e p' [Hok Hk]. by apply Hinv.
Qed.
End invariants.

(** A loop that only changes manager fields the invariant does not mention. *)
Lemma note_cached_inv ext rid s0 bs s :
  inv ext rid s0 s →
  wp (for_each bs (λ b,
        k ← gets (λ s : PM, blk s.1 b);
        if is_null k then mret tt
        else
          h ← lift_opt AssertionError (_block_hash k);
          zoom mgrL (modify (λ m, set_cached_this_step ({[h]} ∪ cached_blocks_this_step m) m))))
    (λ _ s', inv ext rid s0 s') (λ _ s', inv ext rid s0 s') s.
Proof.
  apply wp_for_each_inv. intros b s' _ Hi. wp_step. wp_step. wp_step; [by wp_step|]. wp_step.
  destruct (_block_hash (blk s'.1 b)) as [h|]; [|exact Hi]. apply (wp_lift_some _ _ h); [done|].
  apply wp_on_mgr. by apply inv_same.
Qed.

Lemma cache_blocks_inv use_int sha256 ext fr s request n :
  managed ext fr s →
  wp (cache_blocks use_int sha256 request n)
    (λ _ s', inv ext (request_id request) s s') (λ _ s', inv ext (request_id request) s s') s.
Proof.
  intros Hm. unfold cache_blocks. wp_step. wp_step.
  pose proof (base_cache_inv use_int sha256 ext fr s Hm request n) as Hbase.
  destruct (mgr_class s.2); try exact Hbase; [|wp_step; by eapply inv_refl].
  wp_step. eapply wp_mono; [exact Hbase| |done]. intros r s1 Hi. wp_step. wp_step. wp_step.
  eapply (wp_mono _ (λ _ s', inv ext (request_id request) s s') _ (λ _ s', inv ext (request_id request) s s'));
    [|intros [] s2 ?; by wp_step|done].
  wp_step; [|by wp_step]. wp_step. apply wp_req_blocks. apply note_cached_inv.
  eapply inv_trans; [exact Hi|]. destruct Hi as [[fr1 Hm1] _]. by eapply inv_default.
Qed.

Lemma free_inv ext fr s rid : managed ext fr s → wp (free rid) (λ _ s', inv ext rid s s') no_exn s.
Proof.
  intros Hm. eapply wp_mono; [by apply (free_spec ext fr)| |done].
  intros _ s' (? & ? & _). by eapply inv_intro.
Qed.

Lemma remove_skipped_inv ext fr s rid t :
  managed ext fr s → wp (remove_skipped_blocks rid t) (λ _ s', inv ext rid s s') (λ _ s', inv ext rid s s') s.
Proof.
  intros Hm. eapply wp_mono; [by apply (remove_skipped_spec ext fr)|..].
  - intros _ s' [gone []]. by eapply inv_intro.
  - intros e s' (_ & _ & gone & []). by eapply inv_intro.
Qed.

Lemma common_prefix_inv ext fr s rid :
  managed ext fr s → wp (get_num_common_prefix_blocks rid) (λ _ s', inv ext rid s s') no_exn s.
Proof.
  intros Hm. unfold get_num_common_prefix_blocks. wp_step. wp_step.
  destruct (mgr_class s.2); try (wp_step; by eapply inv_refl);
    wp_step; apply wp_req_blocks; wp_step; by eapply inv_default.
Qed.

Lemma new_step_starts_inv ext fr s rid :
  managed ext fr s → wp new_step_starts (λ _ s', inv ext rid s s') no_exn s.
Proof.
  intros Hm. unfold new_step_starts. wp_step. wp_step. pose proof (inv_refl ext fr s Hm rid) as Hi.
  destruct (mgr_class s.2); try (by wp_step). apply wp_on_mgr. by apply inv_same.
Qed.

Lemma take_new_block_ids_inv ext fr s rid :
  managed ext fr s →
  wp take_new_block_ids (λ r s', r = new_block_ids s.2 ∧ new_block_ids s'.2 = [] ∧ inv ext rid s s') no_exn s.
Proof.
  intros Hm. unfold take_new_block_ids. wp_step. wp_step. wp_step. apply wp_on_mgr. wp_step.
  split; [done|]. split; [done|]. apply inv_same; try done. by eapply inv_refl.
Qed.
