(* ===== verification/KVCacheManager.v ===== *)
(** * The KV cache manager

    [vllm/v1/core/kv_cache_manager.py]: the scheduler's interface to the cache.
    [KVCacheBlocks] is a list of blocks per group; the code compares it by
    identity with the preallocated empty one, so a value records whether it is
    that object.  A method that hashes prompt embeddings returns the request with
    its memo.  A [KVCacheBlocks] made of a manager's own lists ([get_blocks]) is
    a snapshot here: its callers read it before the next call. *)

From stdpp Require Import base list gmap strings.
From Stdlib Require Import ZArith Lia.
From S2P Require Import Prelude FreeQueue Request BlockHash BlockPool KVCacheSpec CacheManagers CacheHit Coordinator.
Local Open Scope Z_scope.

(** ** [KVCacheBlocks] *)

Record KVCacheBlocks := mkBlocks { kb_blocks : list (list loc); kb_is_empty_singleton : bool }.

Definition kb_add (a b : KVCacheBlocks) : KVCacheBlocks :=
  mkBlocks (zip_with (λ l1 l2, l1 ++ l2) (kb_blocks a) (kb_blocks b)) false.

(** [allow_none]: [None] instead of empty lists. *)
Definition get_block_ids (p : BlockPool) (allow_none : bool) (b : KVCacheBlocks) : option (list (list Z)) :=
  if allow_none && forallb (λ g, bool_decide (length g = 0%nat)) (kb_blocks b) then None
  else Some ((λ g : list loc, ids p <$> g) <$> kb_blocks b).

Definition get_unhashed_block_ids (p : BlockPool) (b : KVCacheBlocks) : res (list Z) :=
  match kb_blocks b with
  | [g] => Ok (ids p <$> filter (λ x, _block_hash (blk p x) = None) g)
  | _ => Err AssertionError
  end.

Definition get_unhashed_block_ids_all_groups (p : BlockPool) (b : KVCacheBlocks) : list (list Z) :=
  (λ g : list loc, ids p <$> filter (λ x, _block_hash (blk p x) = None ∧ is_null (blk p x) = false) g) <$> kb_blocks b.

Definition new_empty (b : KVCacheBlocks) : KVCacheBlocks :=
  mkBlocks ((λ _, []) <$> kb_blocks b) (bool_decide (kb_blocks b = [])).

(** ** Prefix cache statistics ([vllm/v1/metrics/stats.py]) *)

Record PrefixCacheStats := mkStats {
  st_reset : bool; st_requests : Z; st_queries : Z; st_hits : Z;
  st_preempted_requests : Z; st_preempted_queries : Z; st_preempted_hits : Z
}.
Definition empty_stats : PrefixCacheStats := mkStats false 0 0 0 0 0 0.

Definition stats_record (num_tokens num_hits : Z) (preempted : bool) (s : PrefixCacheStats) : PrefixCacheStats :=
  if preempted then
    mkStats (st_reset s) (st_requests s) (st_queries s) (st_hits s) (st_preempted_requests s + 1)
      (st_preempted_queries s + num_tokens) (st_preempted_hits s + num_hits)
  else
    mkStats (st_reset s) (st_requests s + 1) (st_queries s + num_tokens) (st_hits s + num_hits)
      (st_preempted_requests s) (st_preempted_queries s) (st_preempted_hits s).

Definition set_reset (s : PrefixCacheStats) : PrefixCacheStats :=
  mkStats true (st_requests s) (st_queries s) (st_hits s) (st_preempted_requests s)
    (st_preempted_queries s) (st_preempted_hits s).

(** ** State *)

Record KVCacheManager := mkKVCacheManager {
  kvm_max_model_len : Z;
  kvm_enable_caching : bool;
  kvm_use_eagle : bool;
  log_stats : bool;
  prefix_cache_stats : option PrefixCacheStats;
  coordinator : Coordinator;
  num_kv_cache_groups : nat
}.

Definition set_coordinator (c : Coordinator) (s : KVCacheManager) : KVCacheManager :=
  mkKVCacheManager (kvm_max_model_len s) (kvm_enable_caching s) (kvm_use_eagle s) (log_stats s)
    (prefix_cache_stats s) c (num_kv_cache_groups s).
Definition set_stats (v : option PrefixCacheStats) (s : KVCacheManager) : KVCacheManager :=
  mkKVCacheManager (kvm_max_model_len s) (kvm_enable_caching s) (kvm_use_eagle s) (log_stats s)
    v (coordinator s) (num_kv_cache_groups s).

Definition coL : lens KVCacheManager Coordinator := Lens coordinator set_coordinator.
Definition co_poolL : lens Coordinator BlockPool :=
  Lens block_pool (λ p c, set_co p (single_type_managers c) c).

Definition empty_kv_cache_blocks (s : KVCacheManager) : KVCacheBlocks :=
  mkBlocks (replicate (num_kv_cache_groups s) []) true.

Definition create_kv_cache_blocks (blocks : list (list loc)) (s : KVCacheManager) : KVCacheBlocks :=
  if existsb (λ g, negb (bool_decide (g = []))) blocks then mkBlocks blocks false
  else empty_kv_cache_blocks s.

Section manager.
Context (use_int : bool) (sha256 : bytes → bytes).

Definition KVCacheManager_init (config : KVCacheConfig) (max_model_len hash_block_size : Z)
    (enable_caching use_eagle log_stats enable_kv_cache_events : bool) (dcp pcp : Z) : res KVCacheManager :=
  c ← get_kv_cache_coordinator config use_eagle enable_caching enable_kv_cache_events dcp pcp hash_block_size;
  Ok (mkKVCacheManager max_model_len enable_caching use_eagle log_stats
        (if log_stats then Some empty_stats else None) c (length (kv_cache_groups config))).

Definition usage (s : KVCacheManager) : Z * Z := get_usage (block_pool (coordinator s)).

Definition make_prefix_cache_stats : M KVCacheManager (option PrefixCacheStats) :=
  log ← gets log_stats;
  if negb log then mret None
  else stats ← gets prefix_cache_stats; modify (set_stats (Some empty_stats)) ;; mret stats.

(** The prefix-cache hit of a request, at most up to its last token but one. *)
Definition get_computed_blocks (request : Request) : M KVCacheManager (KVCacheBlocks * Z) :=
  caching ← gets kvm_enable_caching;
  if negb caching || skip_reading_prefix_cache request then
    e ← gets empty_kv_cache_blocks; mret (e, 0)
  else
    let max_cache_hit_length := num_tokens request - 1 in
    found ← gets (λ s, co_find_longest_cache_hit (coordinator s) (block_hashes request) max_cache_hit_length);
    '(computed_blocks, num_new_computed_tokens) ← lift_res found;
    log ← gets log_stats;
    (if (log : bool) then
       stats ← gets prefix_cache_stats;
       s ← lift_opt AssertionError stats;
       modify (set_stats (Some (stats_record (num_tokens request) num_new_computed_tokens
         (0 <? num_preemptions request) s)))
     else mret tt) ;;
    b ← gets (create_kv_cache_blocks computed_blocks);
    mret (b, num_new_computed_tokens).

(** [new_computed_blocks.blocks], and whether it is the preallocated object. *)
Definition computed_list (new_computed_blocks : option KVCacheBlocks) (s : KVCacheManager) : KVCacheBlocks :=
  match new_computed_blocks with Some b => b | None => empty_kv_cache_blocks s end.

Definition can_fit_full_sequence (request : Request) (num_new_computed_tokens : Z)
    (new_computed_blocks : option KVCacheBlocks) (num_external_computed_tokens num_encoder_tokens : Z)
    : M KVCacheManager bool :=
  nc ← gets (computed_list new_computed_blocks);
  mml ← gets kvm_max_model_len;
  let num_local_computed_tokens := num_computed_tokens request + num_new_computed_tokens in
  let total_computed_tokens := Z.min (num_local_computed_tokens + num_external_computed_tokens) mml in
  let full_num_tokens := Z.min (num_tokens request) mml in
  n ← zoom coL (co_get_num_blocks_to_allocate (request_id request) full_num_tokens (kb_blocks nc)
    num_encoder_tokens total_computed_tokens full_num_tokens);
  nf ← gets (λ s, get_num_free_blocks (block_pool (coordinator s)));
  mret (n <=? nf).

(** The result is the request with its memo, and [None] if too few blocks are
    free. *)
Definition allocate_slots (request : Request) (num_new_tokens num_new_computed_tokens : Z)
    (new_computed_blocks : option KVCacheBlocks) (num_lookahead_tokens num_external_computed_tokens : Z)
    (delay_cache_blocks : bool) (num_encoder_tokens : Z)
    : M KVCacheManager (Request * option KVCacheBlocks) :=
  if bool_decide (num_new_tokens = 0) && bool_decide (num_external_computed_tokens = 0) then raise ValueError
  else
    nc ← gets (computed_list new_computed_blocks);
    mml ← gets kvm_max_model_len;
    let num_local_computed_tokens := num_computed_tokens request + num_new_computed_tokens in
    let total_computed_tokens := Z.min (num_local_computed_tokens + num_external_computed_tokens) mml in
    let num_tokens_main_model := total_computed_tokens + num_new_tokens in
    let num_tokens_need_slot := Z.min (num_tokens_main_model + num_lookahead_tokens) mml in
    let rid := request_id request in
    zoom coL (co_remove_skipped_blocks rid total_computed_tokens) ;;
    num_blocks_to_allocate ← zoom coL (co_get_num_blocks_to_allocate rid num_tokens_need_slot (kb_blocks nc)
      num_encoder_tokens (num_local_computed_tokens + num_external_computed_tokens) num_tokens_main_model);
    nf ← gets (λ s, get_num_free_blocks (block_pool (coordinator s)));
    if nf <? num_blocks_to_allocate then mret (request, None)
    else
      (if negb (kb_is_empty_singleton nc) || (0 <? num_external_computed_tokens) then
         zoom coL (co_allocate_new_computed_blocks use_int rid (kb_blocks nc) num_local_computed_tokens
           num_external_computed_tokens)
       else mret tt) ;;
      new_blocks ← zoom coL (co_allocate_new_blocks use_int rid num_tokens_need_slot num_tokens_main_model
        num_encoder_tokens);
      caching ← gets kvm_enable_caching;
      if negb caching || delay_cache_blocks then
        b ← gets (create_kv_cache_blocks new_blocks); mret (request, Some b)
      else
        let num_tokens_to_cache := Z.min (total_computed_tokens + num_new_tokens) (num_tokens request) in
        request ← zoom coL (co_cache_blocks use_int sha256 request num_tokens_to_cache);
        b ← gets (create_kv_cache_blocks new_blocks); mret (request, Some b).

Definition kvm_free (request : Request) : M KVCacheManager unit := zoom coL (co_free (request_id request)).

Definition kvm_remove_skipped_blocks (rid : string) (total_computed_tokens : Z) : M KVCacheManager unit :=
  zoom coL (co_remove_skipped_blocks rid total_computed_tokens).

Definition kvm_evict_blocks (block_ids : list Z) : M KVCacheManager unit :=
  zoom coL (zoom co_poolL (evict_blocks use_int block_ids)).

Definition kvm_reset_prefix_cache : M KVCacheManager bool :=
  ok ← zoom coL (zoom co_poolL reset_prefix_cache);
  if negb ok then mret false
  else
    log ← gets log_stats;
    (if (log : bool) then
       stats ← gets prefix_cache_stats;
       s ← lift_opt AssertionError stats;
       modify (set_stats (Some (set_reset s)))
     else mret tt) ;;
    mret true.

Definition kvm_get_num_common_prefix_blocks (rid : string) : M KVCacheManager (list Z) :=
  zoom coL (co_get_num_common_prefix_blocks rid).

Definition kvm_take_events : M KVCacheManager (list KVCacheEvent) := zoom coL (zoom co_poolL take_events).

Definition kvm_get_blocks (rid : string) (s : KVCacheManager) : KVCacheBlocks :=
  create_kv_cache_blocks (co_get_blocks rid (coordinator s)) s.

Definition kvm_get_block_ids (rid : string) (s : KVCacheManager) : option (list (list Z)) :=
  get_block_ids (block_pool (coordinator s)) false (kvm_get_blocks rid s).

Definition kvm_cache_blocks (request : Request) (num_computed_tokens : Z) : M KVCacheManager Request :=
  caching ← gets kvm_enable_caching;
  if (caching : bool) then zoom coL (co_cache_blocks use_int sha256 request num_computed_tokens)
  else mret request.

Definition kvm_take_new_block_ids : M KVCacheManager (list Z) :=
  l ← zoom coL (map_managers (λ _, take_new_block_ids)); mret (concat l).

Definition kvm_new_step_starts : M KVCacheManager unit := zoom coL co_new_step_starts.
End manager.
