(* ===== verification/CacheInvariant.v ===== *)
(** * No block is lost or shared by mistake

    The invariant of the whole cache, [co_ok]: the reference count of every block
    is the number of times requests hold it, in all groups together.  It holds
    for a new manager and after any sequence of calls, also calls that raise, and
    a call for one request leaves the blocks of the others alone. *)

From stdpp Require Import base list gmap strings.
From Stdlib Require Import ZArith Lia.
From S2P Require Import Prelude FreeQueue Request BlockHash BlockPool KVCacheSpec CacheManagers CacheHit Coordinator ManagerSpecs KVCacheManager.
Local Open Scope Z_scope.

(** ** The references of all managers *)

Definition total_held (x : loc) (ms : list Manager) : Z := sumZ (held x <$> ms).

Lemma sumZ_insert {A} (f : A → Z) l i a b :
  l !! i = Some a → sumZ (f <$> <[i := b]> l) = sumZ (f <$> l) - f a + f b.
Proof.
  intros Ha. rewrite insert_take_drop by (by eapply lookup_lt_Some).
  rewrite <-(take_drop_middle l i a Ha) at 3. rewrite !fmap_app, !fmap_cons, !sumZ_app. cbn [sumZ]. lia.
Qed.

Lemma sumZ_nonneg l : Forall (λ x, 0 ≤ x) l → 0 ≤ sumZ l.
Proof. induction 1; simpl; lia. Qed.

Lemma sumZ_ge {A} (f : A → Z) l i a : (∀ a, 0 ≤ f a) → l !! i = Some a → f a ≤ sumZ (f <$> l).
Proof.
  intros Hf Ha. rewrite <-(take_drop_middle l i a Ha), fmap_app, fmap_cons, sumZ_app. cbn [sumZ].
  assert (∀ l, 0 ≤ sumZ (f <$> l)) as Hn.
  { intros l'. apply sumZ_nonneg, Forall_fmap, Forall_true. intros b. apply Hf. }
  pose proof (Hn (take i l)). pose proof (Hn (drop (S i) l)). lia.
Qed.

Lemma held_nonneg x m : 0 ≤ held x m.
Proof. apply hold_nonneg. Qed.

(** References of the managers other than the [i]-th. *)
Definition others (ms : list Manager) (i : nat) (x : loc) : Z :=
  total_held x ms - match ms !! i with Some m => held x m | None => 0 end.

(** Every manager, with the references of the others, is in order. *)
Definition co_free_ok (c : Coordinator) (free : list loc) : Prop :=
  pool_ok (block_pool c) free ∧
  ∀ i m, single_type_managers c !! i = Some m → managed (others (single_type_managers c) i) free (block_pool c, m).
Definition co_ok (c : Coordinator) : Prop := ∃ free, co_free_ok c free.

(** What a call for request [rid] changes. *)
Record co_only (rid : string) (c c' : Coordinator) : Prop := {
  co_rest : ∃ p ms, c' = set_co p ms c;
  co_pool : pool_frame (block_pool c) (block_pool c');
  co_mgrs : Forall2 (λ m m', only rid (block_pool c, m) (block_pool c, m'))
    (single_type_managers c) (single_type_managers c')
}.

#[export] Instance co_only_refl rid : Reflexive (co_only rid).
Proof.
  intros c. split; [|done|].
  - exists (block_pool c), (single_type_managers c). by destruct c.
  - apply Forall_Forall2_diag, Forall_true. intros m. by split.
Qed.

#[export] Instance co_only_trans rid : Transitive (co_only rid).
Proof.
  intros c1 c2 c3 [(p2 & ms2 & ->) P1 M1] [(p3 & ms3 & ->) P2 M2]. split.
  - by exists p3, ms3.
  - by transitivity (block_pool (set_co p2 ms2 c1)).
  - apply Forall2_same_length_lookup. split.
    + rewrite (Forall2_length _ _ _ M1). by apply Forall2_length in M2.
    + intros i m m' Hm Hm'. destruct (Forall2_lookup_l _ _ _ _ _ M1 Hm) as (m2 & Hm2 & H12).
      pose proof (Forall2_lookup_lr _ _ _ _ _ _ M2 Hm2 Hm') as H23.
      destruct H12 as [_ F1 B1 C1], H23 as [_ F2 B2 C2]. cbn [fst snd] in *.
      split; cbn [fst snd]; [done|by transitivity m2| |].
      * intros r Hr. by rewrite B2, B1.
      * intros r Hr. by rewrite C2, C1.
Qed.

Lemma others_insert ms i m m' j x :
  ms !! i = Some m → i ≠ j → others (<[i := m']> ms) j x = others ms j x - held x m + held x m'.
Proof.
  intros Hi Hij. unfold others, total_held. rewrite (sumZ_insert (held x) ms i m m' Hi).
  rewrite list_lookup_insert_ne by done. lia.
Qed.

Lemma others_self ms i m m' x : ms !! i = Some m → others (<[i := m']> ms) i x = others ms i x.
Proof.
  intros Hi. unfold others, total_held. rewrite (sumZ_insert (held x) ms i m m' Hi), Hi.
  rewrite list_lookup_insert_eq by (by eapply lookup_lt_Some). lia.
Qed.

Lemma managed_ext ext ext' fr s : (∀ x, ext' x = ext x) → managed ext fr s → managed ext' fr s.
Proof. intros E []. split; try done; intros x; rewrite E; auto. Qed.

Lemma others_nonneg ms i x : 0 ≤ others ms i x.
Proof.
  unfold others. destruct (ms !! i) as [m|] eqn:E.
  - pose proof (sumZ_ge (held x) ms i m (held_nonneg x) E). unfold total_held. lia.
  - unfold total_held. rewrite Z.sub_0_r. apply sumZ_nonneg, Forall_fmap, Forall_true. intros m. apply held_nonneg.
Qed.

(** A call on one manager. *)
Lemma co_free_insert c i m p' m' rid fr fr' :
  co_free_ok c fr → single_type_managers c !! i = Some m →
  managed (others (single_type_managers c) i) fr' (p', m') → only rid (block_pool c, m) (p', m') →
  let c' := set_co p' (<[i := m']> (single_type_managers c)) c in co_free_ok c' fr' ∧ co_only rid c c'.
Proof.
  intros (Hok & Hms) Hi Hm' [Hpf Hmf Hb Hc] c'. cbn [fst snd] in *. split.
  - split; [apply Hm'|]. cbn [block_pool single_type_managers c' set_co]. intros j mj Hj.
    destruct (decide (j = i)) as [->|Hne].
    + rewrite list_lookup_insert_eq in Hj by (by eapply lookup_lt_Some). injection Hj as <-.
      eapply managed_ext; [|exact Hm']. intros x. by apply (others_self _ _ m).
    + rewrite list_lookup_insert_ne in Hj by done. destruct (Hms j mj Hj) as [P R X B N BS CL W NS SP].
      cbn [fst snd] in *. split; cbn [fst snd]; try done.
      * apply Hm'.
      * intros x Hx. rewrite (others_insert _ i m) by done. pose proof (mg_ref _ _ _ Hm' x Hx) as E. cbn [fst snd] in E.
        rewrite E. unfold others. rewrite Hi, Hj. lia.
      * intros x. apply others_nonneg.
      * intros r. rewrite (nblocks_frame (block_pool c) p') by done. apply B.
  - split; [by eexists _, _|done|]. cbn [single_type_managers c' set_co].
    apply Forall2_same_length_lookup. rewrite length_insert. split; [done|]. intros j mj mj' Hj Hj'.
    apply list_lookup_insert_Some in Hj' as [(-> & <- & _)|[_ Hj']].
    + rewrite Hi in Hj. injection Hj as <-. by split.
    + rewrite Hj in Hj'. injection Hj' as <-. by split.
Qed.

Lemma co_ok_insert c i m p' m' rid fr' :
  co_ok c → single_type_managers c !! i = Some m →
  managed (others (single_type_managers c) i) fr' (p', m') → only rid (block_pool c, m) (p', m') →
  let c' := set_co p' (<[i := m']> (single_type_managers c)) c in co_ok c' ∧ co_only rid c c'.
Proof.
  intros [fr Hc] Hi Hm Ho. destruct (co_free_insert c i m p' m' rid fr fr' Hc Hi Hm Ho). split; [by exists fr'|done].
Qed.

(** ** Calls on one manager and on all of them *)

Definition cinv (rid : string) (c c' : Coordinator) : Prop := co_ok c' ∧ co_only rid c c'.

Lemma cinv_refl rid c : co_ok c → cinv rid c c.
Proof. by split. Qed.

Lemma cinv_trans rid c1 c2 c3 : cinv rid c1 c2 → cinv rid c2 c3 → cinv rid c1 c3.
Proof. intros [_ ?] [? ?]. split; [done|by transitivity c2]. Qed.

(** [op] keeps the invariant of any manager it is called on. *)
Definition safe {A} (rid : string) (op : M PM A) (s : PM) : Prop :=
  ∀ ext fr, managed ext fr s → wp op (λ _ s', inv ext rid s s') (λ _ s', inv ext rid s s') s.

Lemma on_manager_inv {A} rid i (op : M PM A) c :
  co_ok c → (∀ m, single_type_managers c !! i = Some m → safe rid op (block_pool c, m)) →
  wp (on_manager i op) (λ _ c', cinv rid c c') (λ _ c', cinv rid c c') c.
Proof.
  intros Hco Hop. unfold on_manager, wp. destruct (single_type_managers c !! i) as [m|] eqn:Ei; [|by apply cinv_refl].
  destruct Hco as (fr & Hok & Hms). pose proof (Hop m eq_refl _ _ (Hms i m Ei)) as Hwp. unfold wp in Hwp.
  assert (co_ok c) as Hco by by exists fr.
  destruct (op (block_pool c, m)) as [[a|e] [p' m']]; destruct Hwp as [[fr' Hm'] Hon];
    by apply (co_ok_insert c i m p' m' rid fr').
Qed.

Lemma on_managers_fold {A B} rid (is_ : list nat) (acc : B) (op : nat → M PM A) (f : B → A → B) c0 c :
  cinv rid c0 c →
  (∀ i c1 m, cinv rid c0 c1 → single_type_managers c1 !! i = Some m → safe rid (op i) (block_pool c1, m)) →
  wp (fold_each is_ acc (λ acc i, a ← on_manager i (op i); mret (f acc a)))
    (λ _ c', cinv rid c0 c') (λ _ c', cinv rid c0 c') c.
Proof.
  intros Hc Hop. apply (wp_fold_each is_ acc _ (λ _ _ c', cinv rid c0 c')); [|done].
  intros d i rest b c1 _ Hc1. wp_step. eapply wp_mono; [apply (on_manager_inv rid)|..].
  - apply Hc1.
  - intros m Hm. by eapply Hop.
  - intros a c2 H2. wp_step. by eapply cinv_trans.
  - intros e c2 H2. by eapply cinv_trans.
Qed.

Lemma for_managers_inv rid (op : nat → M PM unit) c :
  co_ok c →
  (∀ i c1 m, cinv rid c c1 → single_type_managers c1 !! i = Some m → safe rid (op i) (block_pool c1, m)) →
  wp (for_managers op) (λ _ c', cinv rid c c') (λ _ c', cinv rid c c') c.
Proof.
  intros Hco Hop. unfold for_managers. wp_step. wp_step.
  apply (wp_for_each_inv _ _ (cinv rid c)); [|by apply cinv_refl].
  intros i c1 _ Hc1. eapply wp_mono; [apply (on_manager_inv rid)|..].
  - apply Hc1.
  - intros m Hm. by eapply Hop.
  - intros a c2 H2. by eapply cinv_trans.
  - intros e c2 H2. by eapply cinv_trans.
Qed.

Lemma map_managers_inv {A} rid (op : nat → M PM A) c :
  co_ok c →
  (∀ i c1 m, cinv rid c c1 → single_type_managers c1 !! i = Some m → safe rid (op i) (block_pool c1, m)) →
  wp (map_managers op) (λ _ c', cinv rid c c') (λ _ c', cinv rid c c') c.
Proof.
  intros Hco Hop. unfold map_managers. wp_step. wp_step. by apply (on_managers_fold rid); [apply cinv_refl|].
Qed.

(** The hit lists a caller passes: in each group, blocks of the pool, distinct, and
    no more than the local computed tokens need. *)
Definition hits_ok (c : Coordinator) (nc : list (list loc)) (local : Z) : Prop :=
  ∀ i m bs, single_type_managers c !! i = Some m → nc !! i = Some bs →
    blocks_ok (nblocks (block_pool c)) bs ∧ Z.of_nat (length bs) * mgr_block_size m ≤ local.

Lemma hits_ok_frame rid c c' nc local : co_only rid c c' → hits_ok c nc local → hits_ok c' nc local.
Proof.
  intros [_ Hp Hm] Hh i m bs Hi Hbs. destruct (Forall2_lookup_r _ _ _ _ _ Hm Hi) as (m0 & Hi0 & Hon).
  pose proof (mf_bs _ _ (on_mgr _ _ _ Hon)) as Eb. cbn [snd] in Eb. rewrite (nblocks_frame _ _ Hp), Eb.
  by apply (Hh i m0 bs).
Qed.

Section operations.
Context (use_int : bool) (sha256 : bytes → bytes).
Context (c : Coordinator) (Hco : co_ok c).
Abbreviation keeps_co rid m := (wp m (λ _ c', cinv rid c c') (λ _ c', cinv rid c c') c).

Lemma co_remove_skipped_inv rid t : keeps_co rid (co_remove_skipped_blocks rid t).
Proof. apply for_managers_inv; [done|]. intros i c1 m _ _ ext fr Hm. by apply (remove_skipped_inv ext fr). Qed.

Lemma co_free_inv rid : keeps_co rid (co_free rid).
Proof.
  apply for_managers_inv; [done|]. intros i c1 m _ _ ext fr Hm.
  eapply wp_mono; [by apply (free_inv ext fr)|done|done].
Qed.

Lemma co_get_num_blocks_inv rid n nc enc total main :
  keeps_co rid (co_get_num_blocks_to_allocate rid n nc enc total main).
Proof.
  unfold co_get_num_blocks_to_allocate. wp_step.
  eapply wp_mono; [apply (map_managers_inv rid); [done|]|intros l c1 ?; by wp_step|done].
  intros i c1 m _ _ ext fr Hm. wp_step. wp_step.
  assert (∀ n nc t k, wp (get_num_blocks_to_allocate rid n nc t k) (λ _ s', inv ext rid (block_pool c1, m) s')
    (λ _ s', inv ext rid (block_pool c1, m) s') (block_pool c1, m)) as Hg.
  { intros. eapply wp_mono; [by apply (get_num_blocks_inv ext fr)|naive_solver..]. }
  wp_step; [apply Hg|]. wp_step. apply wp_lift_res; [intros; apply Hg|]. intros _ _. by eapply inv_refl.
Qed.

Lemma co_allocate_new_computed_inv rid nc local external :
  hits_ok c nc local → 0 ≤ local → 0 ≤ external →
  keeps_co rid (co_allocate_new_computed_blocks use_int rid nc local external).
Proof.
  intros Hh Hl He. apply for_managers_inv; [done|]. intros i c1 m [_ Hon] Hi ext fr Hm. wp_step.
  apply wp_lift_res; [|by intros; eapply inv_refl]. intros bs Hbs.
  assert (nc !! i = Some bs) as Hbs'.
  { unfold group_blocks in Hbs. destruct (nc !! i); [by apply Ok_inj in Hbs as ->|done]. }
  destruct (hits_ok_frame _ _ _ _ _ Hon Hh i m bs Hi Hbs'). by apply (allocate_new_computed_inv use_int ext fr).
Qed.

Lemma co_allocate_new_blocks_inv rid n main enc :
  0 ≤ main → keeps_co rid (co_allocate_new_blocks use_int rid n main enc).
Proof.
  intros Hmain. apply map_managers_inv; [done|]. intros i c1 m _ _ ext fr Hm. wp_step. wp_step.
  by apply (allocate_new_blocks_inv use_int ext fr).
Qed.

Lemma co_new_step_inv rid : keeps_co rid co_new_step_starts.
Proof.
  apply for_managers_inv; [done|]. intros i c1 m _ _ ext fr Hm.
  eapply wp_mono; [by apply (new_step_starts_inv ext fr _ rid)|done|done].
Qed.

Lemma co_take_ids_inv rid : keeps_co rid (map_managers (λ _, take_new_block_ids)).
Proof.
  apply map_managers_inv; [done|]. intros i c1 m _ _ ext fr Hm.
  eapply wp_mono; [by apply (take_new_block_ids_inv ext fr _ rid)|naive_solver|done].
Qed.

Lemma co_common_prefix_inv rid : keeps_co rid (co_get_num_common_prefix_blocks rid).
Proof.
  unfold co_get_num_common_prefix_blocks. wp_step. wp_step.
  assert (keeps_co rid (map_managers (λ _, get_num_common_prefix_blocks rid))) as Hmap.
  { apply map_managers_inv; [done|]. intros i c1 m _ _ ext fr Hm.
    eapply wp_mono; [by apply (common_prefix_inv ext fr _ rid)|done|done]. }
  destruct (co_kind c); try exact Hmap. wp_step. by apply cinv_refl.
Qed.
End operations.

(** ** Caching: only the memo of the request changes *)

Definition memo_of (r r' : Request) : Prop := ∃ m, r' = set_prompt_embeds_per_block_hashes m r.

Lemma memo_refl r : memo_of r r.
Proof. exists (_prompt_embeds_per_block_hashes r). by destruct r. Qed.

Lemma memo_trans r1 r2 r3 : memo_of r1 r2 → memo_of r2 r3 → memo_of r1 r3.
Proof. intros [m ->] [m' ->]. by exists m'. Qed.

Section memo.
Context (use_int : bool) (sha256 : bytes → bytes).

Lemma generate_memo a b i r : memo_of r (generate_block_hash_extra_keys sha256 a b i r).2.
Proof.
  unfold generate_block_hash_extra_keys, gets, lift_res, mbind, M_bind, mret, M_ret.
  destruct (_gen_mm_extra_hash_keys _ _ _ _) as [[k j]|e]; [|apply memo_refl].
  assert (memo_of r (_gen_prompt_embeds_extra_hash_keys sha256 a b r).2) as Hp.
  { unfold _gen_prompt_embeds_extra_hash_keys, gets, modify, mbind, M_bind, mret, M_ret.
    destruct (prompt_embeds r); [|apply memo_refl]. destruct (_ !! _); [apply memo_refl|]. by eexists. }
  destruct (_gen_prompt_embeds_extra_hash_keys sha256 a b r) as [[ks|e] r']; [|exact Hp].
  cbn [snd] in *. by case_bool_decide.
Qed.

Lemma event_loop_memo bs size idxs c acc r s :
  wp (event_keys_loop sha256 bs size idxs c acc r) (λ p _, memo_of r p.2) (λ _ _, True) s.
Proof.
  revert c acc r. induction idxs as [|i idxs IH]; intros c acc r; simpl; [apply wp_ret, memo_refl|].
  wp_step. apply wp_lift_res; [|done]. intros b _. wp_step. wp_step. wp_step; [apply IH|].
  pose proof (generate_memo (i * size) (i * size + size) c r) as Hg.
  destruct (generate_block_hash_extra_keys _ _ _ _ _) as [x r']. cbn [snd] in Hg. wp_step.
  apply wp_lift_res; [|done]. intros [e j] _. eapply wp_mono; [apply IH| |done].
  intros p s' ?. by eapply memo_trans.
Qed.

Lemma cache_full_memo r bs c f size gid s :
  wp (cache_full_blocks use_int sha256 r bs c f size gid) (λ r' _, memo_of r r') (λ _ _, True) s.
Proof.
  unfold cache_full_blocks. wp_step; [wp_step; apply memo_refl|]. wp_step. apply wp_assert_cases; [|done].
  intros _. wp_step. wp_step. wp_step. eapply (wp_mono _ (λ _ _, True) _ (λ _ _, True)); [| |done].
  { wp_step; [by wp_step|]. wp_step. apply wp_lift_res; [|done]. intros; by wp_step. }
  intros hv s1 _. wp_step. apply wp_lift_res; [|done]. intros nbh _. wp_step.
  eapply (wp_mono _ (λ _ _, True) _ (λ _ _, True)); [| |done].
  { unfold wp. by destruct (cache_loop _ _ _ _ _ _ _) as [[?|?] ?]. }
  intros nh s2 _. wp_step. wp_step. wp_step; [wp_step; apply memo_refl|]. wp_step.
  eapply (wp_mono _ (λ _ _, True) _ (λ _ _, True)); [| |done].
  { wp_step; [by wp_step|]. wp_step. apply wp_lift_res; [|done]. intros; by wp_step. }
  intros p s3 _. wp_step. eapply wp_mono; [apply event_loop_memo| |done].
  intros [l r'] s4 Hr. cbn [snd] in Hr. by wp_steps.
Qed.

Lemma base_cache_memo r n s :
  wp (base_cache_blocks use_int sha256 r n) (λ r' _, memo_of r r') (λ _ _, True) s.
Proof.
  unfold base_cache_blocks. wp_step. wp_step. wp_step; [wp_step; apply memo_refl|]. wp_step. apply wp_req_blocks.
  wp_step. apply wp_on_pool. eapply wp_mono; [apply cache_full_memo| |done].
  intros r' p Hr. wp_step. apply wp_on_mgr. by wp_step.
Qed.

Lemma cache_blocks_memo r n s :
  wp (cache_blocks use_int sha256 r n) (λ r' _, memo_of r r') (λ _ _, True) s.
Proof.
  unfold cache_blocks. wp_step. wp_step. pose proof (base_cache_memo r n s) as Hbase.
  destruct (mgr_class s.2); try exact Hbase; [|done]. wp_step. eapply wp_mono; [exact Hbase| |done].
  intros r' s1 Hr. wp_step. wp_step. wp_step. eapply (wp_mono _ (λ _ _, True) _ (λ _ _, True)); [| |done].
  - unfold wp. by destruct (_ s1) as [[?|?] ?].
  - intros [] s2 _. by wp_step.
Qed.

Lemma wp_and {S A} (m : M S A) Q1 E1 Q2 E2 s :
  wp m Q1 E1 s → wp m Q2 E2 s → wp m (λ a s', Q1 a s' ∧ Q2 a s') (λ e s', E1 e s' ∧ E2 e s') s.
Proof. unfold wp. destruct (m s) as [[a|e] s']; auto. Qed.

Lemma co_cache_blocks_inv c request n :
  co_ok c →
  wp (co_cache_blocks use_int sha256 request n)
    (λ r c', memo_of request r ∧ cinv (request_id request) c c') (λ _ c', cinv (request_id request) c c') c.
Proof.
  intros Hco. unfold co_cache_blocks. wp_step. wp_step.
  apply (wp_fold_each _ request _ (λ _ r c', memo_of request r ∧ cinv (request_id request) c c'));
    [|by split; [apply memo_refl|apply cinv_refl]].
  intros d i rest r c1 _ [[m ->] Hc1]. unfold on_manager, wp.
  destruct (single_type_managers c1 !! i) as [mg|] eqn:Ei; [|done].
  set (r1 := set_prompt_embeds_per_block_hashes m request) in *.
  destruct Hc1 as [Hco1 Hon1]. pose proof Hco1 as (fr & Hok & Hms).
  pose proof (wp_and _ _ _ _ _ _ (cache_blocks_inv use_int sha256 _ fr _ r1 n (Hms i mg Ei))
    (cache_blocks_memo r1 n (block_pool c1, mg))) as Hwp. unfold wp in Hwp. change (request_id r1) with (request_id request) in Hwp.
  destruct (cache_blocks use_int sha256 r1 n (block_pool c1, mg)) as [[r2|e] [p' m']].
  - destruct Hwp as [[[fr' Hm'] Ho] Hr]. split; [eapply memo_trans; [by exists m|exact Hr]|].
    eapply cinv_trans; [by split|]. by apply (co_ok_insert c1 i mg p' m' _ fr').
  - destruct Hwp as [[[fr' Hm'] Ho] _]. eapply cinv_trans; [by split|].
    by apply (co_ok_insert c1 i mg p' m' _ fr').
Qed.
End memo.

(** ** Calls on the pool *)

Lemma co_pool_inv {A} (op : M BlockPool A) c rid :
  co_ok c → (∀ fr, pool_ok (block_pool c) fr →
    wp op (λ _ p, pool_ok p fr ∧ kept (block_pool c) p) (λ _ p, pool_ok p fr ∧ kept (block_pool c) p) (block_pool c)) →
  wp (zoom co_poolL op) (λ _ c', cinv rid c c') (λ _ c', cinv rid c c') c.
Proof.
  intros (fr & Hok & Hms) Hop. apply wp_zoom. cbn [lget lset co_poolL].
  assert (∀ p, pool_ok p fr ∧ kept (block_pool c) p → cinv rid c (set_co p (single_type_managers c) c)) as Hfin.
  { intros p [Hokp Hk]. split.
    - exists fr. split; [done|]. intros i m Hi. by apply (managed_kept _ fr (block_pool c)); [apply Hms|..].
    - split; [by eexists _, _|apply Hk|]. apply Forall_Forall2_diag, Forall_true. intros m. by split. }
  eapply wp_mono; [by apply Hop|naive_solver..].
Qed.

Lemma co_evict_inv use_int l c rid :
  co_ok c → wp (zoom co_poolL (evict_blocks use_int l)) (λ _ c', cinv rid c c') (λ _ c', cinv rid c c') c.
Proof. intros Hc. apply co_pool_inv; [done|]. intros fr Hok. by apply (keeps_evict_blocks use_int l (nblocks (block_pool c))). Qed.

Lemma co_take_events_inv c rid :
  co_ok c → wp (zoom co_poolL take_events) (λ _ c', cinv rid c c') (λ _ c', cinv rid c c') c.
Proof. intros Hc. apply co_pool_inv; [done|]. intros fr Hok. by apply (keeps_take_events (nblocks (block_pool c))). Qed.

Lemma co_reset_inv c rid :
  co_ok c → wp (zoom co_poolL reset_prefix_cache) (λ _ c', cinv rid c c') (λ _ c', cinv rid c c') c.
Proof.
  intros Hc. apply co_pool_inv; [done|]. intros fr Hok. eapply wp_mono; [by apply reset_spec| |done].
  intros r p (? & ? & _ & ? & _). split; [done|by split].
Qed.

(** ** The manager as a state machine

    One step per method, labelled with the request it is called for.  [local] and
    external token counts are not negative, and a caller passes hit lists as
    [hits_ok] asks. *)
Inductive kvm_step (use_int : bool) (sha256 : bytes → bytes) (rid : string) (s : KVCacheManager)
    : KVCacheManager → Prop :=
  | step_get_computed_blocks r :
      kvm_step use_int sha256 rid s (get_computed_blocks r s).2
  | step_can_fit r n nc ext enc :
      request_id r = rid → kvm_step use_int sha256 rid s (can_fit_full_sequence r n nc ext enc s).2
  | step_allocate_slots r new n nc look ext delay enc :
      request_id r = rid → 0 ≤ num_computed_tokens r + n → 0 ≤ new → 0 ≤ ext →
      (∀ b, nc = Some b → hits_ok (coordinator s) (kb_blocks b) (num_computed_tokens r + n)) →
      kvm_step use_int sha256 rid s (allocate_slots use_int sha256 r new n nc look ext delay enc s).2
  | step_free r : request_id r = rid → kvm_step use_int sha256 rid s (kvm_free r s).2
  | step_remove_skipped t : kvm_step use_int sha256 rid s (kvm_remove_skipped_blocks rid t s).2
  | step_evict l : kvm_step use_int sha256 rid s (kvm_evict_blocks use_int l s).2
  | step_reset : kvm_step use_int sha256 rid s (kvm_reset_prefix_cache s).2
  | step_cache_blocks r n :
      request_id r = rid → kvm_step use_int sha256 rid s (kvm_cache_blocks use_int sha256 r n s).2
  | step_common_prefix : kvm_step use_int sha256 rid s (kvm_get_num_common_prefix_blocks rid s).2
  | step_take_events : kvm_step use_int sha256 rid s (kvm_take_events s).2
  | step_take_ids : kvm_step use_int sha256 rid s (kvm_take_new_block_ids s).2
  | step_new_step : kvm_step use_int sha256 rid s (kvm_new_step_starts s).2
  | step_stats : kvm_step use_int sha256 rid s (make_prefix_cache_stats s).2.

(** The part of the state the invariant speaks of. *)
Record kvm_keep (rid : string) (s s' : KVCacheManager) : Prop := {
  kk_co : cinv rid (coordinator s) (coordinator s');
  kk_groups : num_kv_cache_groups s' = num_kv_cache_groups s;
  kk_len : kvm_max_model_len s' = kvm_max_model_len s
}.

Lemma kvm_keep_refl rid s : co_ok (coordinator s) → kvm_keep rid s s.
Proof. intros H. split; [by apply cinv_refl|done|done]. Qed.

Lemma kvm_keep_trans rid s1 s2 s3 : kvm_keep rid s1 s2 → kvm_keep rid s2 s3 → kvm_keep rid s1 s3.
Proof. intros [] []. split; [by eapply cinv_trans|congruence|congruence]. Qed.

Abbreviation keeps_kvm rid s m := (wp m (λ _ s', kvm_keep rid s s') (λ _ s', kvm_keep rid s s')).

(** A call on the coordinator. *)
Lemma wp_on_co {A} rid s s1 (op : M Coordinator A) Q :
  kvm_keep rid s s1 →
  wp op (λ a c', cinv rid (coordinator s1) c' ∧ (kvm_keep rid s (set_coordinator c' s1) → Q a (set_coordinator c' s1)))
    (λ _ c', cinv rid (coordinator s1) c') (coordinator s1) →
  wp (zoom coL op) Q (λ _ s', kvm_keep rid s s') s1.
Proof.
  intros [Hc Hg Hl] Hop. apply wp_zoom. cbn [lget lset coL].
  assert (∀ c', cinv rid (coordinator s1) c' → kvm_keep rid s (set_coordinator c' s1)) as Hk.
  { intros c' Hc'. split; [by eapply cinv_trans|done|done]. }
  eapply wp_mono; [exact Hop| |auto]. intros a c' [H1 H2]. auto.
Qed.

Lemma wp_co_keep {A} rid s s1 (op : M Coordinator A) (Q : A → KVCacheManager → Prop) :
  kvm_keep rid s s1 →
  wp op (λ _ c', cinv rid (coordinator s1) c') (λ _ c', cinv rid (coordinator s1) c') (coordinator s1) →
  (∀ a s', kvm_keep rid s s' → co_only rid (coordinator s1) (coordinator s') → Q a s') →
  wp (zoom coL op) Q (λ _ s', kvm_keep rid s s') s1.
Proof.
  intros Hk Hop HQ. apply wp_on_co; [done|]. eapply wp_mono; [exact Hop| |done].
  intros a c' Hc. split; [done|]. intros Hk'. apply HQ; [done|apply Hc].
Qed.

Lemma wp_to_snd {S A} (m : M S A) (P : S → Prop) s : wp m (λ _ s', P s') (λ _ s', P s') s → P (m s).2.
Proof. unfold wp. by destruct (m s) as [[a|e] s']. Qed.

Section steps.
Context (use_int : bool) (sha256 : bytes → bytes).

Lemma get_computed_keep rid r s :
  co_ok (coordinator s) → keeps_kvm rid s (get_computed_blocks r) s.
Proof.
  intros Hco. pose proof (kvm_keep_refl rid s Hco) as Hk. unfold get_computed_blocks. wp_step. wp_step.
  wp_step; [by wp_steps|]. cbv zeta. wp_step. wp_step. wp_step. apply wp_lift_res; [|done].
  intros [bs n] _. wp_step. wp_step. wp_step.
  eapply (wp_mono _ (λ _ s', kvm_keep rid s s') _ (λ _ s', kvm_keep rid s s')); [|intros; by wp_steps|done].
  wp_step; [|by wp_step]. wp_step. wp_step. wp_step. destruct (prefix_cache_stats s) as [st|]; [|done].
  apply (wp_lift_some _ _ st); [done|]. wp_step. split; [by apply cinv_refl|done|done].
Qed.

Lemma can_fit_keep rid r n nc ext enc s :
  co_ok (coordinator s) → request_id r = rid → keeps_kvm rid s (can_fit_full_sequence r n nc ext enc) s.
Proof.
  intros Hco <-. unfold can_fit_full_sequence. wp_step. wp_step. wp_step. wp_step. cbv zeta. wp_step.
  apply wp_co_keep; [by apply kvm_keep_refl|by apply co_get_num_blocks_inv|]. intros k s1 Hk _. by wp_steps.
Qed.

Lemma hits_ok_empty c n local : 0 ≤ local → (∃ fr, pool_ok (block_pool c) fr) → hits_ok c (replicate n []) local.
Proof.
  intros Hl _ i m bs Hm [-> _]%lookup_replicate. split; [apply blocks_ok_nil|simpl; lia].
Qed.

Lemma allocate_slots_keep rid r new n nc look ext delay enc s :
  co_ok (coordinator s) → 0 ≤ kvm_max_model_len s → request_id r = rid →
  0 ≤ num_computed_tokens r + n → 0 ≤ new → 0 ≤ ext →
  (∀ b, nc = Some b → hits_ok (coordinator s) (kb_blocks b) (num_computed_tokens r + n)) →
  keeps_kvm rid s (allocate_slots use_int sha256 r new n nc look ext delay enc) s.
Proof.
  intros Hco Hml <- Hl Hnew Hext Hnc. pose proof (kvm_keep_refl (request_id r) s Hco) as Hk0.
  unfold allocate_slots. wp_step; [by wp_step|]. wp_step. wp_step. wp_step. wp_step. cbv zeta.
  set (l := kb_blocks (computed_list nc s)).
  assert (hits_ok (coordinator s) l (num_computed_tokens r + n)) as Hh.
  { unfold l. destruct nc as [b|]; [by apply Hnc|]. apply hits_ok_empty; [done|].
    destruct Hco as (fr & ? & _). by exists fr. }
  wp_step. apply wp_co_keep; [done|by apply co_remove_skipped_inv|]. intros _ s1 Hk1 Ho1.
  wp_step. apply wp_co_keep; [done|apply co_get_num_blocks_inv, Hk1|]. intros k s2 Hk2 Ho2.
  wp_step. wp_step. wp_step; [by wp_step|]. wp_step.
  apply (wp_mono _ (λ _ s', kvm_keep (request_id r) s s') _ (λ _ s', kvm_keep (request_id r) s s')); [| |done].
  { wp_step; [|by wp_step]. apply wp_co_keep; [done| |done].
    apply co_allocate_new_computed_inv; [apply Hk2| |done|done].
    apply (hits_ok_frame (request_id r) (coordinator s)); [apply Hk2|done]. }
  intros _ s3 Hk3. wp_step.
  apply wp_co_keep; [done|apply co_allocate_new_blocks_inv; [apply Hk3|lia]|]. intros bl s4 Hk4 _.
  wp_step. wp_step. wp_step; [by wp_steps|]. wp_step.
  apply wp_on_co; [done|]. eapply wp_mono; [apply co_cache_blocks_inv, Hk4| |done].
  intros r' c' [_ Hc]. split; [done|]. intros Hk5. by wp_steps.
Qed.

Lemma kvm_step_keep rid s s' :
  kvm_step use_int sha256 rid s s' → co_ok (coordinator s) → 0 ≤ kvm_max_model_len s → kvm_keep rid s s'.
Proof.
  intros Hs Hco Hml. pose proof (kvm_keep_refl rid s Hco) as Hk.
  assert (∀ A (op : M Coordinator A), wp op (λ _ c', cinv rid (coordinator s) c') (λ _ c', cinv rid (coordinator s) c')
    (coordinator s) → kvm_keep rid s (zoom coL op s).2) as Hop.
  { intros A op H. apply (wp_to_snd _ (kvm_keep rid s)). by apply wp_co_keep. }
  destruct Hs; try apply (wp_to_snd _ (kvm_keep rid s)).
  - by apply get_computed_keep.
  - by apply can_fit_keep.
  - by apply allocate_slots_keep.
  - subst rid. apply (wp_co_keep _ s); [done|by apply co_free_inv|done].
  - apply (wp_co_keep _ s); [done|by apply co_remove_skipped_inv|done].
  - apply (wp_co_keep _ s); [done|by apply co_evict_inv|done].
  - unfold kvm_reset_prefix_cache. wp_step. apply (wp_co_keep _ s); [done|by apply co_reset_inv|].
    intros ok s1 Hk1 _. wp_step; [by wp_step|]. wp_step. wp_step. wp_step.
    eapply (wp_mono _ (λ _ s', kvm_keep rid s s') _ (λ _ s', kvm_keep rid s s')); [|intros; by wp_steps|done].
    wp_step; [|by wp_step]. wp_step. wp_step. wp_step. destruct (prefix_cache_stats s1) as [st|]; [|done].
    apply (wp_lift_some _ _ st); [done|]. wp_step. by destruct Hk1; split.
  - subst rid. unfold kvm_cache_blocks. wp_step. wp_step. wp_step; [|by wp_step]. apply wp_on_co; [done|].
    eapply wp_mono; [by apply co_cache_blocks_inv| |done]. by intros r' c' [_ ?].
  - apply (wp_co_keep _ s); [done|by apply co_common_prefix_inv|done].
  - apply (wp_co_keep _ s); [done|by apply co_take_events_inv|done].
  - unfold kvm_take_new_block_ids. wp_step. apply (wp_co_keep _ s); [done|by apply co_take_ids_inv|].
    intros l s1 Hk1 _. by wp_step.
  - apply (wp_co_keep _ s); [done|by apply co_new_step_inv|done].
  - unfold make_prefix_cache_stats. wp_step. wp_step. wp_step; [by wp_step|]. wp_step. wp_step. wp_step. wp_step.
    wp_step. by destruct Hk; split.
Qed.
End steps.

(** ** A new manager *)

(** The specs of the model: positive sizes, no sink and no encoder-only attention
    (sink blocks leave the free queue without a reference). *)
Definition spec_sane (l : LayerSpec) : Prop :=
  0 < layer_block_size l ∧
  match l with
  | SlidingWindowSpec _ w => 1 ≤ w
  | ChunkedLocalAttentionSpec _ chunk => 0 < chunk
  | MambaSpec _ _ _ _ _ _ nspec => 0 ≤ nspec
  | SinkFullAttentionSpec _ _ _ _ _ | EncoderOnlyAttentionSpec _ => False
  | _ => True
  end.

(** A manager that no request uses yet. *)
Definition fresh_manager (p : BlockPool) (l : LayerSpec) (m : Manager) : Prop :=
  spec_sane l ∧ mgr_spec m = l ∧ spec_manager_map l = Ok (mgr_class m) ∧ 0 < mgr_block_size m ∧
  _null_block m = null_block p ∧ req_to_blocks m = ∅ ∧ num_cached_block m = ∅ ∧ _allocated_block_reqs m = ∅.

Lemma get_manager_spec l caching i dcp pcp p :
  spec_sane l → ∃ m, get_manager_for_kv_cache_spec l caching i dcp pcp p = (Ok m, p) ∧ fresh_manager p l m.
Proof.
  intros Hl. pose proof Hl as [Hbs Hs].
  assert (0 < layer_block_size l * (if 1 <? dcp * pcp then dcp * pcp else 1)) as Hpos.
  { destruct (Z.ltb_spec 1 (dcp * pcp)); nia. }
  unfold get_manager_for_kv_cache_spec. unfold gets, lift_res, mbind, M_bind, mret, M_ret.
  destruct l; cbn in Hs; try done; (eexists; split; [reflexivity|]; by split_and!).
Qed.

Lemma init_managers_spec ls caching dcp pcp i p :
  Forall spec_sane ls →
  ∃ ms, init_managers (Layer <$> ls) caching dcp pcp i p = (Ok ms, p) ∧ Forall2 (fresh_manager p) ls ms.
Proof.
  intros Hls. revert i. induction Hls as [|l ls Hl _ IH]; intros i; [by exists []|].
  rewrite fmap_cons. cbn [init_managers]. destruct (get_manager_spec l caching i dcp pcp p Hl) as (m & Em & Hm).
  destruct (IH (i + 1)) as (ms & Ems & Hms). exists (m :: ms). split; [|by constructor].
  unfold mbind, M_bind, mret, M_ret. by rewrite Em, Ems.
Qed.

Lemma managed_fresh p fr l m :
  pool_ok p fr → (∀ x, (0 < x < nblocks p)%nat → ref_of p x = 0) → fresh_manager p l m →
  managed (λ _, 0) fr (p, m).
Proof.
  intros Hok Hr ([Hbs Hs] & El & Hc & Hb & Hn & Hrb & _ & Ha).
  assert (∀ rid, blocks_of rid m = []) as Hnil by (intros; unfold blocks_of; by rewrite Hrb).
  split; cbn [fst snd].
  - done.
  - intros x Hx. unfold held. rewrite Hrb. unfold hold. rewrite map_fold_empty. by rewrite Hr.
  - done.
  - intros rid. rewrite Hnil. apply blocks_ok_nil.
  - rewrite Hn. apply Hok.
  - done.
  - by rewrite El.
  - intros t Ht. unfold get_num_skipped_tokens. rewrite El. destruct l; try lia; cbn in Hs.
    pose proof (Z.mul_div_le t attention_chunk_size Hs). lia.
  - unfold num_speculative_blocks. rewrite El. by destruct l.
  - rewrite Ha. intros rid. by rewrite elem_of_empty.
Qed.

Lemma total_held_fresh p ls ms x : Forall2 (fresh_manager p) ls ms → total_held x ms = 0.
Proof.
  unfold total_held. induction 1 as [|l m ls ms (_ & _ & _ & _ & _ & Hrb & _) _ IH]; [done|].
  rewrite fmap_cons. cbn [sumZ]. rewrite IH. unfold held. rewrite Hrb. unfold hold. by rewrite map_fold_empty.
Qed.

(** The parts of a coordinator the constructors do not change. *)
Lemma get_coordinator_parts config eagle caching events dcp pcp hbs c :
  get_kv_cache_coordinator config eagle caching events dcp pcp hbs = Ok c →
  ∃ kind c0, base_init kind config eagle caching events dcp pcp hbs = Ok c0 ∧
    block_pool c = block_pool c0 ∧ single_type_managers c = single_type_managers c0 ∧ co_groups c = co_groups c0.
Proof.
  unfold get_kv_cache_coordinator. destruct caching; simpl.
  2:{ intros E. by exists KVCacheCoordinatorNoPrefixCache, c. }
  case_bool_decide.
  - intros (c0 & E0 & E)%res_bind_ok. exists UnitaryKVCacheCoordinator, c0. split; [done|].
    unfold unitary_init in E. destruct (co_groups c0) eqn:Eg; [done|]. destruct (_ && _); [done|].
    destruct (negb _); [done|]. by apply Ok_inj in E as <-.
  - intros (c0 & E0 & E)%res_bind_ok. exists HybridKVCacheCoordinator, c0. split; [done|].
    unfold hybrid_init in E. destruct (negb (forallb _ _)); [done|]. destruct (_ || _); [done|].
    unfold verify_and_split_kv_cache_groups in E. apply res_bind_ok in E as (gs & _ & E).
    destruct (_ <=? _)%nat; [done|]. by apply Ok_inj in E as <-.
Qed.

Lemma coordinator_init_ok config ls eagle caching events dcp pcp hbs c :
  kv_cache_spec <$> kv_cache_groups config = Layer <$> ls → Forall spec_sane ls → 0 < num_blocks config →
  get_kv_cache_coordinator config eagle caching events dcp pcp hbs = Ok c →
  co_ok c ∧ num_gpu_blocks (block_pool c) = num_blocks config ∧ co_groups c = ls ∧
  Forall2 (fresh_manager (block_pool c)) ls (single_type_managers c).
Proof.
  intros Els Hls Hn Hc. apply get_coordinator_parts in Hc as (kind & c0 & Hb & Ep & Em & Eg).
  unfold base_init in Hb. rewrite Els in Hb.
  destruct (BlockPool_init_spec (num_blocks config) caching hbs events Hn) as (p & Hp & Hok & Hnum & _).
  rewrite Hp in Hb. cbn [mbind res_bind] in Hb.
  destruct (init_managers_spec ls caching dcp pcp 0 p Hls) as (ms & Ems & Hms). rewrite Ems in Hb. cbn in Hb.
  apply Ok_inj in Hb as <-. cbn in Ep, Em, Eg. rewrite Ep, Em, Eg. split; [|split; [done|split; [|done]]].
  - exists (seq 1 (Z.to_nat (num_blocks config) - 1)). unfold co_free_ok. rewrite Ep, Em. split; [done|]. intros i m Hi.
    destruct (Forall2_lookup_r _ _ _ _ _ Hms Hi) as (l & _ & Hm).
    apply (managed_ext (λ _, 0)); [|eapply managed_fresh; [done| |exact Hm]].
    + intros x. unfold others. rewrite (total_held_fresh p ls ms x Hms), Hi.
      destruct Hm as (_ & _ & _ & _ & _ & Hrb & _). unfold held. rewrite Hrb. unfold hold. by rewrite map_fold_empty.
    + intros x Hx. pose proof (pw_free _ _ _ Hok x) as [_ H2].
      assert (x ∈ seq 1 (Z.to_nat (num_blocks config) - 1)) as Hin.
      { apply elem_of_seq. unfold nblocks in Hx. rewrite Hnum in Hx. lia. }
      pose proof (pw_free _ _ _ Hok x) as [H1 _]. rewrite app_nil_r in H1. by destruct (H1 Hin).
  - rewrite <-list_fmap_compose. rewrite <-(list_fmap_id ls) at 2. apply list_fmap_ext. by intros.
Qed.

Lemma kvm_reachable_inv use_int sha256 config ls mml hbs caching eagle log events dcp pcp s0 s :
  KVCacheManager_init config mml hbs caching eagle log events dcp pcp = Ok s0 →
  kv_cache_spec <$> kv_cache_groups config = Layer <$> ls → Forall spec_sane ls →
  0 < num_blocks config → 0 ≤ mml →
  rtc (λ s s', ∃ rid, kvm_step use_int sha256 rid s s') s0 s →
  co_ok (coordinator s) ∧ num_gpu_blocks (block_pool (coordinator s)) = num_blocks config ∧
  length (single_type_managers (coordinator s)) = length ls ∧ kvm_max_model_len s = mml.
Proof.
  intros Hinit Els Hls Hn Hml Hs.
  assert (co_ok (coordinator s0) ∧ num_gpu_blocks (block_pool (coordinator s0)) = num_blocks config ∧
    length (single_type_managers (coordinator s0)) = length ls ∧ kvm_max_model_len s0 = mml) as H0.
  { unfold KVCacheManager_init in Hinit. apply res_bind_ok in Hinit as (c & Hc & E). apply Ok_inj in E as <-.
    destruct (coordinator_init_ok _ _ _ _ _ _ _ _ _ Els Hls Hn Hc) as (? & ? & _ & Hf%Forall2_length). by split_and!. }
  clear Hinit. induction Hs as [s|s s1 s2 [rid Hstep] _ IH]; [done|]. apply IH.
  destruct H0 as (H1 & H2 & H3 & H4). pose proof (kvm_step_keep _ _ _ _ _ Hstep H1 ltac:(lia)) as [[Hok Ho] _ Hlen].
  split; [done|]. rewrite <-(Forall2_length _ _ _ (co_mgrs _ _ _ Ho)), Hlen.
  split; [|done]. by rewrite (pf_num _ _ (co_pool _ _ _ Ho)).
Qed.

Lemma hold_zero x rb : (∀ rid bs, rb !! rid = Some bs → x ∉ bs) → hold x rb = 0.
Proof.
  intros H. revert H. unfold hold.
  apply (map_fold_weak_ind (λ n (m : gmap string (list loc)), (∀ rid bs, m !! rid = Some bs → x ∉ bs) → n = 0)); [done|].
  intros rid bs m n Hrid IH H. rewrite IH.
  - rewrite occ_not_in; [lia|]. apply (H rid). by rewrite lookup_insert_eq.
  - intros r l Hl. apply (H r). rewrite lookup_insert_ne; [done|]. intros ->. congruence.
Qed.

Definition holds (c : Coordinator) (b : loc) : Prop :=
  ∃ i m rid, single_type_managers c !! i = Some m ∧ b ∈ blocks_of rid m.

Lemma total_held_zero c b : ¬ holds c b → total_held b (single_type_managers c) = 0.
Proof.
  unfold holds, total_held. induction (single_type_managers c) as [|m ms IH]; intros H; [done|].
  rewrite fmap_cons. cbn [sumZ]. rewrite IH.
  - unfold held. rewrite hold_zero; [done|]. intros rid bs Hbs Hb. apply H. exists 0%nat, m, rid.
    split; [done|]. unfold blocks_of. by rewrite Hbs.
  - intros (i & m' & rid & Hi & Hb). apply H. by exists (S i), m', rid.
Qed.

Lemma holds_total c b : holds c b → 1 ≤ total_held b (single_type_managers c).
Proof.
  intros (i & m & rid & Hi & Hb). pose proof (sumZ_ge (held b) _ i m (held_nonneg b) Hi).
  pose proof (hold_ge b rid (req_to_blocks m)) as Hge. pose proof (occ_pos b _ Hb) as Hp. unfold blocks_of in Hp.
  unfold total_held, held in *. lia.
Qed.

Lemma co_ok_ref c b :
  co_ok c → single_type_managers c ≠ [] → (0 < b < nblocks (block_pool c))%nat →
  ref_of (block_pool c) b = total_held b (single_type_managers c).
Proof.
  intros (fr & _ & Hms) Hne Hb. destruct (single_type_managers c) as [|m ms] eqn:E; [done|].
  pose proof (mg_ref _ _ _ (Hms 0%nat m eq_refl) b Hb) as Er. cbn [fst snd] in Er. rewrite Er.
  unfold others, total_held. cbn. lia.
Qed.

(** C3: from a new KV cache manager, after any sequence of calls for any requests
    (also calls that raise), the reference count of each block is the number of
    times requests hold it in all groups; a block is in the free queue exactly
    when no request holds it, so nothing leaks; and a request holds, in one group,
    only blocks of the pool and none of them twice except the null block. *)
Theorem kv_cache_manager_invariant use_int sha256 config ls mml hbs caching eagle log events dcp pcp s0 s :
  KVCacheManager_init config mml hbs caching eagle log events dcp pcp = Ok s0 →
  kv_cache_spec <$> kv_cache_groups config = Layer <$> ls → Forall spec_sane ls → ls ≠ [] →
  0 < num_blocks config → 0 ≤ mml →
  rtc (λ s s', ∃ rid, kvm_step use_int sha256 rid s s') s0 s →
  let c := coordinator s in let n := Z.to_nat (num_blocks config) in
  ∃ free,
    get_all_free_blocks (S (length free)) (pool_fq (block_pool c)) = (Ok free, pool_fq (block_pool c)) ∧
    (∀ b, (0 < b < n)%nat → ref_of (block_pool c) b = total_held b (single_type_managers c)) ∧
    (∀ b, b ∈ free ↔ (0 < b < n)%nat ∧ ¬ holds c b) ∧
    ∀ i m rid, single_type_managers c !! i = Some m →
      Forall (λ b, (b < n)%nat) (blocks_of rid m) ∧ NoDup (filter (λ b, b ≠ 0%nat) (blocks_of rid m)).
Proof.
  intros Hinit Els Hls Hne Hn Hml Hs c n.
  destruct (kvm_reachable_inv _ _ _ _ _ _ _ _ _ _ _ _ _ _ Hinit Els Hls Hn Hml Hs) as (Hok & Hnum & Hlen & _).
  fold c in Hok, Hnum, Hlen.
  assert (single_type_managers c ≠ []) as Hms0 by (intros E; rewrite E in Hlen; by destruct ls).
  assert (nblocks (block_pool c) = n) as En by (unfold nblocks; by rewrite Hnum).
  pose proof Hok as (free & Hp & Hms). exists free.
  pose proof (pw_free _ _ _ Hp) as Hf. rewrite app_nil_r in Hf. rewrite En in Hf.
  split; [apply get_all_free_blocks_spec; [apply Hp|lia]|]. split; [|split].
  - intros b Hb. by apply co_ok_ref; [..|by rewrite En].
  - intros b. rewrite (Hf b). fold (ref_of (block_pool c) b). split; intros [Hb H]; (split; [done|]).
    + intros Hh%holds_total. rewrite (co_ok_ref c b Hok Hms0) in H; [lia|by rewrite En].
    + rewrite (co_ok_ref c b Hok Hms0) by by rewrite En. by apply total_held_zero.
  - intros i m rid Hi. pose proof (mg_blocks _ _ _ (Hms i m Hi) rid) as [Hb1 Hb2]. cbn [fst snd] in *. by rewrite En in Hb1.
Qed.

(** C13: a call made for one request leaves the block table and the cached-block
    count of every other request, in every group, as they were. *)
Theorem kv_cache_manager_isolation use_int sha256 config ls mml hbs caching eagle log events dcp pcp s0 s rid s' :
  KVCacheManager_init config mml hbs caching eagle log events dcp pcp = Ok s0 →
  kv_cache_spec <$> kv_cache_groups config = Layer <$> ls → Forall spec_sane ls →
  0 < num_blocks config → 0 ≤ mml →
  rtc (λ s s', ∃ rid, kvm_step use_int sha256 rid s s') s0 s → kvm_step use_int sha256 rid s s' →
  ∀ other, other ≠ rid →
    co_get_blocks other (coordinator s') = co_get_blocks other (coordinator s) ∧
    (λ m, num_cached_block m !! other) <$> single_type_managers (coordinator s') =
    (λ m, num_cached_block m !! other) <$> single_type_managers (coordinator s).
Proof.
  intros Hinit Els Hls Hn Hml Hs Hstep other Hne.
  destruct (kvm_reachable_inv _ _ _ _ _ _ _ _ _ _ _ _ _ _ Hinit Els Hls Hn Hml Hs) as (Hok & _ & _ & Hlen).
  destruct (kvm_step_keep _ _ _ _ _ Hstep Hok ltac:(lia)) as [[_ [_ _ Hm]] _ _].
  unfold co_get_blocks. induction Hm as [|m m' ms ms' [_ _ Hb Hc] _ [IH1 IH2]]; [done|].
  rewrite !fmap_cons, IH1, IH2. cbn [fst snd] in *. rewrite (Hc other Hne). split; [|done].
  f_equal. apply blocks_of_eq. by apply Hb.
Qed.

(** ** A concrete instance: a full attention and a sliding window group *)

Definition two_group_config : KVCacheConfig :=
  mkKVConfig 8 [] [mkGroup ["full"%string] (Layer full2); mkGroup ["window"%string] (Layer window2)].
Definition kvm_dummy : KVCacheManager := mkKVCacheManager 0 false false false None hybrid2_parts 0.
Definition kvm_new : KVCacheManager :=
  match KVCacheManager_init two_group_config 64 2 true false true false 1 1 with
  | Ok s => s | Err _ => kvm_dummy end.
Definition kvm_slots : res (Request * option KVCacheBlocks) * KVCacheManager :=
  allocate_slots false (λ b, b) hashed_request 3 0 None 0 0 false 0 kvm_new.

Lemma kvm_new_init : KVCacheManager_init two_group_config 64 2 true false true false 1 1 = Ok kvm_new.
Proof. vm_compute. reflexivity. Qed.

Lemma two_specs_sane : Forall spec_sane [full2; window2].
Proof. repeat apply Forall_cons_2; [done|done|constructor]. Qed.

Lemma kvm_slots_step : kvm_step false (λ b, b) "r" kvm_new kvm_slots.2.
Proof. apply step_allocate_slots; [reflexivity|vm_compute; discriminate|done|done|done]. Qed.

Example kvm_slots_blocks :
  co_get_blocks "r" (coordinator kvm_slots.2) = [[1; 2]; [3; 4]]%nat.
Proof. vm_compute. reflexivity. Qed.

Lemma kv_cache_manager_invariant_witness :
  let c := coordinator (kvm_free hashed_request kvm_slots.2).2 in
  ∃ free,
    get_all_free_blocks (S (length free)) (pool_fq (block_pool c)) = (Ok free, pool_fq (block_pool c)) ∧
    (∀ b, (0 < b < 8)%nat → ref_of (block_pool c) b = total_held b (single_type_managers c)) ∧
    (∀ b, b ∈ free ↔ (0 < b < 8)%nat ∧ ¬ holds c b) ∧
    ∀ i m rid, single_type_managers c !! i = Some m →
      Forall (λ b, (b < 8)%nat) (blocks_of rid m) ∧ NoDup (filter (λ b, b ≠ 0%nat) (blocks_of rid m)).
Proof.
  apply (kv_cache_manager_invariant false (λ b, b) two_group_config [full2; window2] 64 2 true false true false 1 1
    kvm_new).
  - exact kvm_new_init.
  - reflexivity.
  - exact two_specs_sane.
  - discriminate.
  - reflexivity.
  - discriminate.
  - eapply rtc_l; [exists "r"%string; exact kvm_slots_step|]. apply rtc_once. exists "r"%string.
    exact (step_free false (λ b, b) "r" kvm_slots.2 hashed_request eq_refl).
Defined.

Lemma kv_cache_manager_isolation_witness :
  co_get_blocks "q" (coordinator kvm_slots.2) = co_get_blocks "q" (coordinator kvm_new) ∧
  (λ m, num_cached_block m !! "q"%string) <$> single_type_managers (coordinator kvm_slots.2) =
  (λ m, num_cached_block m !! "q"%string) <$> single_type_managers (coordinator kvm_new).
Proof.
  apply (kv_cache_manager_isolation false (λ b, b) two_group_config [full2; window2] 64 2 true false true false 1 1
    kvm_new kvm_new "r" kvm_slots.2).
  - exact kvm_new_init.
  - reflexivity.
  - exact two_specs_sane.
  - reflexivity.
  - discriminate.
  - apply rtc_refl.
  - exact kvm_slots_step.
  - discriminate.
Defined.
