(* ===== verification/Admission.v ===== *)
(** * Admission: [allocate_slots] promises what it can keep

    For attention layers (full, sliding window, chunked) and tokens the engine
    computes itself, the number of blocks [allocate_slots] compares with the free
    ones is what the allocation then takes: a request is refused only for want of
    blocks, an accepted one never raises, gets enough blocks in every group, and
    shares the new ones with nobody. *)

From stdpp Require Import base list gmap strings.
From Stdlib Require Import ZArith Lia.
From S2P Require Import Prelude FreeQueue Request BlockHash BlockPool KVCacheSpec CacheManagers CacheHit Coordinator.
From S2P Require Import ManagerSpecs KVCacheManager CacheInvariant.
Local Open Scope Z_scope.

(** ** The states and calls considered *)

Definition attention_class (c : ManagerClass) : bool :=
  match c with
  | FullAttentionManager | SlidingWindowManager | ChunkedLocalAttentionManager => true
  | _ => false
  end.

(** Blocks that are not cached yet carry no hash and belong to one request only. *)
Definition tail_ok (p : BlockPool) (m : Manager) : Prop :=
  ∀ rid j b, default 0 (num_cached_block m !! rid) ≤ Z.of_nat j → blocks_of rid m !! j = Some b →
    b ≠ 0%nat → hash_of p b = None ∧ ref_of p b = 1.

Record manager_ok (p : BlockPool) (m : Manager) : Prop := {
  mo_class : attention_class (mgr_class m) = true;
  mo_caching : mgr_enable_caching m = enable_caching p;
  mo_size : enable_caching p = true → mgr_block_size m = hash_block_size p;
  mo_gid : 0 ≤ kv_cache_group_id m < 2 ^ 32;
  mo_cached : ∀ rid c, num_cached_block m !! rid = Some c → 0 ≤ c;
  mo_tail : enable_caching p = true → tail_ok p m
}.

Record attn_ok (c : Coordinator) : Prop := {
  ao_co : co_ok c;
  ao_mgrs : Forall (manager_ok (block_pool c)) (single_type_managers c)
}.

(** ** How many blocks are needed *)

Section need.
Context (rid : string) (need total : Z).

(** The list a request has before new blocks are added: after a hit, or its own. *)
Definition base_blocks (fresh : bool) (m : Manager) (nc : list loc) : list loc :=
  if fresh then hit_blocks m total nc else blocks_of rid m.
Definition new_blocks_needed (fresh : bool) (m : Manager) (nc : list loc) : Z :=
  Z.max (cdiv need (mgr_block_size m) - Z.of_nat (length (base_blocks fresh m nc))) 0.
(** Free blocks of the hit leave the free queue, too. *)
Definition hit_blocks_free (fresh : bool) (p : BlockPool) (m : Manager) (nc : list loc) : Z :=
  if fresh then _get_num_evictable_blocks (kept_blocks m total nc) p else 0.

(** What a caller does: a request that has no blocks and no cached-block count comes with
    a hit [nc] of cached blocks; any other comes with none and has blocks for the
    tokens already computed. *)
Definition group_call_ok (fresh : bool) (p : BlockPool) (m : Manager) (nc : list loc) : Prop :=
  if fresh then
    blocks_of rid m = [] ∧ num_cached_block m !! rid = None ∧ blocks_ok (nblocks p) nc ∧
    (mgr_enable_caching m = false → nc = []) ∧
    (∀ b, b ∈ nc → b ≠ 0%nat → is_Some (hash_of p b)) ∧
    Z.of_nat (length nc) * mgr_block_size m ≤ total
  else nc = [] ∧ total ≤ Z.of_nat (length (blocks_of rid m)) * mgr_block_size m.

Lemma get_num_exact fresh p m nc main :
  attention_class (mgr_class m) = true → 0 < mgr_block_size m → get_num_skipped_tokens m total ≤ total → group_call_ok fresh p m nc →
  get_num_blocks_to_allocate rid need nc total main (p, m) =
  (Ok (new_blocks_needed fresh m nc + hit_blocks_free fresh p m nc), (p, m)).
Proof.
  intros Hc Hbs Hskip Hcall.
  assert (get_num_blocks_to_allocate rid need nc total main (p, m) =
    base_get_num_blocks_to_allocate rid need nc total (p, m)) as ->.
  { unfold get_num_blocks_to_allocate, gets, mbind, M_bind. cbn [snd]. by destruct (mgr_class m). }
  unfold base_get_num_blocks_to_allocate, gets, mbind, M_bind, mret, M_ret. cbn [fst snd].
  unfold new_blocks_needed, hit_blocks_free, base_blocks. fold (num_skipped_new m total).
  destruct fresh.
  - destruct Hcall as (Hb & Hnone & _). rewrite Hnone, Hb. rewrite bool_decide_eq_false_2 by (by intros []).
    cbn [length]. f_equal. f_equal. f_equal.
    + do 2 f_equal. unfold hit_blocks, kept_blocks. rewrite length_app, length_replicate, length_drop. lia.
    + f_equal. unfold kept_blocks. rewrite slice_from_pos by lia. f_equal. lia.
  - destruct Hcall as [-> Hcall]. destruct (num_cached_block m !! rid) as [k|] eqn:Ek.
    + rewrite bool_decide_eq_true_2 by done. cbn. do 2 f_equal. lia.
    + assert (num_skipped_new m total ≤ Z.of_nat (length (blocks_of rid m))) by (apply Z.div_le_upper_bound; lia).
      rewrite bool_decide_eq_false_2 by (by intros []).
      cbn [length]. f_equal. f_equal. f_equal; [lia|]. rewrite slice_from_pos by lia. by rewrite drop_nil.
Qed.
End need.

(** A read of all managers. *)
Lemma map_managers_pure {A} (op : nat → M PM A) (f : nat → Manager → A) c :
  (∀ i m, single_type_managers c !! i = Some m → op i (block_pool c, m) = (Ok (f i m), (block_pool c, m))) →
  map_managers op c = (Ok (imap f (single_type_managers c)), c).
Proof.
  intros Hop. unfold map_managers, gets, manager_ids, mbind, M_bind.
  assert (∀ k acc, (k ≤ length (single_type_managers c))%nat →
    fold_each (seq k (length (single_type_managers c) - k)) acc (λ acc i, a ← on_manager i (op i); mret (acc ++ [a])) c =
    (Ok (acc ++ imap (λ i, f (k + i)%nat) (drop k (single_type_managers c))), c)) as Hgen.
  2:{ specialize (Hgen 0%nat [] ltac:(lia)). by rewrite Nat.sub_0_r, drop_0 in Hgen. }
  intros k acc Hk. remember (length (single_type_managers c) - k)%nat as d eqn:Hd.
  revert k acc Hk Hd. induction d as [|d IH]; intros k acc Hk Hd.
  - rewrite drop_ge by lia. cbn. by rewrite app_nil_r.
  - destruct (lookup_lt_is_Some_2 (single_type_managers c) k) as [m Hm]; [lia|].
    cbn [seq fold_each]. unfold mbind, M_bind, mret, M_ret. unfold on_manager at 1. rewrite Hm, (Hop k m Hm).
    assert (set_co (block_pool c) (<[k := m]> (single_type_managers c)) c = c) as ->.
    { rewrite list_insert_id by done. by destruct c. }
    pose proof (IH (S k) (acc ++ [f k m]) ltac:(lia) ltac:(lia)) as E. unfold mbind, M_bind, mret, M_ret in E. rewrite E.
    rewrite (drop_S _ m k Hm). cbn [imap]. rewrite <-app_assoc, Nat.add_0_r. do 4 f_equal.
    apply imap_ext. intros i x _. cbn. f_equal. lia.
Qed.

(** ** Loops over the managers, with an invariant for the first [k] *)

Lemma seq_split_at n d x r : seq 0 n = d ++ x :: r → x = length d ∧ (x < n)%nat.
Proof.
  intros E. assert (seq 0 n !! length d = Some x) as Hl by (rewrite E; by rewrite list_lookup_middle).
  apply lookup_seq in Hl as [-> ?]. split; [done|lia].
Qed.

Lemma for_managers_ind (op : nat → M PM unit) (I : nat → Coordinator → Prop) c :
  (∀ k c1, (k < length (single_type_managers c))%nat → I k c1 →
     wp (on_manager k (op k)) (λ _ c2, I (S k) c2) no_exn c1) →
  I 0%nat c → wp (for_managers op) (λ _ c', I (length (single_type_managers c)) c') no_exn c.
Proof.
  intros Hop HI. unfold for_managers. wp_step. wp_step.
  eapply wp_mono; [apply (wp_for_each _ _ (λ d c', I (length d) c') no_exn)| |done].
  - intros d x r c1 Hd Hc1. apply seq_split_at in Hd as [-> Hx]. rewrite length_app. simpl. rewrite Nat.add_1_r.
    by apply Hop.
  - done.
  - intros [] c' H. unfold manager_ids in H. by rewrite length_seq in H.
Qed.

Lemma map_managers_ind {A} (op : nat → M PM A) (I : nat → list A → Coordinator → Prop) c :
  (∀ k acc c1, (k < length (single_type_managers c))%nat → I k acc c1 →
     wp (on_manager k (op k)) (λ a c2, I (S k) (acc ++ [a]) c2) no_exn c1) →
  I 0%nat [] c → wp (map_managers op) (λ l c', I (length (single_type_managers c)) l c') no_exn c.
Proof.
  intros Hop HI. unfold map_managers. wp_step. wp_step.
  eapply wp_mono; [apply (wp_fold_each _ _ _ (λ d acc c', I (length d) acc c') no_exn)| |done].
  - intros d x r acc c1 Hd Hc1. apply seq_split_at in Hd as [-> Hx]. rewrite length_app. simpl. rewrite Nat.add_1_r.
    wp_step. eapply wp_mono; [by apply Hop| |done]. intros a c2 Hc2. by wp_step.
  - done.
  - intros l c' H. unfold manager_ids in H. by rewrite length_seq in H.
Qed.

(** One manager's call inside. *)
Lemma wp_on_manager {A} i (op : M PM A) m Q c :
  single_type_managers c !! i = Some m →
  wp op (λ a s, Q a (set_co s.1 (<[i := s.2]> (single_type_managers c)) c)) no_exn (block_pool c, m) →
  wp (on_manager i op) Q no_exn c.
Proof.
  intros Hi H. unfold wp, on_manager in *. rewrite Hi. by destruct (op _) as [[a|e] [p' m']].
Qed.

Lemma sumZ_imap_S {A} (f : nat → A → Z) l k a :
  l !! k = Some a → sumZ (imap f (take (S k) l)) = sumZ (imap f (take k l)) + f k a.
Proof.
  intros Ha. rewrite (take_S_r l k a Ha), imap_app, sumZ_app. cbn.
  rewrite length_take_le by (apply lookup_lt_Some in Ha; lia). rewrite Nat.add_0_r. lia.
Qed.

(** ** A hit takes no more free blocks than counted *)

Lemma touched_le p p' fr kept :
  pool_ok p' fr → blocks_ok (nblocks p) kept → nblocks p' = nblocks p →
  (∀ x, (x < nblocks p)%nat → is_null (blk p x) = bool_decide (x = 0%nat)) →
  (∀ x, (0 < x < nblocks p)%nat → 0 ≤ ref_of p x ≤ ref_of p' x) →
  Z.of_nat (length fr) - _get_num_evictable_blocks kept p ≤ Z.of_nat (length (filter (λ x, x ∉ kept) fr)).
Proof.
  intros Hok [Hall Hnd] En Hnull Href.
  pose proof (Permutation_length (filter_app_complement (λ x, x ∉ kept) fr)) as Hl. rewrite length_app in Hl.
  assert (length (filter (λ x, ¬ (x ∉ kept)) fr) ≤
    length (filter (λ b, ref_cnt (blk p b) = 0%Z ∧ is_null (blk p b) = false) kept))%nat as Hle.
  { apply submseteq_length, NoDup_submseteq.
    - apply NoDup_filter. pose proof (pw_nodup _ _ _ Hok) as H. by rewrite app_nil_r in H.
    - intros x [Hin Hx]%list_elem_of_filter. apply dec_stable in Hin. rewrite list_elem_of_filter.
      pose proof (pw_free _ _ _ Hok x) as [Hf _]. rewrite app_nil_r in Hf. destruct (Hf Hx) as [Hb Hr]. rewrite En in Hb.
      destruct (Href x Hb) as [H0 H1]. fold (ref_of p' x) in Hr. split; [|done]. split; [fold (ref_of p x); lia|].
      rewrite Hnull by lia. by apply bool_decide_eq_false_2; lia. }
  unfold _get_num_evictable_blocks. lia.
Qed.

(** ** The hit *)

Section hits.
Context (use_int : bool) (rid : string) (local : Z) (Hlocal : 0 ≤ local).
Context (c0 : Coordinator) (fr0 : list loc) (Hc0 : co_free_ok c0 fr0) (Hms0 : Forall (manager_ok (block_pool c0)) (single_type_managers c0)).
Context (ncs : list (list loc)).
Context (Hcall : ∀ i m, single_type_managers c0 !! i = Some m →
  ∃ nc, ncs !! i = Some nc ∧ group_call_ok rid local true (block_pool c0) m nc).
Abbreviation p0 := (block_pool c0).
Abbreviation ms0 := (single_type_managers c0).
Abbreviation nc_at i := (default [] (ncs !! i)).
Abbreviation ev := (λ i m, hit_blocks_free local true p0 m (nc_at i)).

(** The first [k] managers have taken their hits. *)
Record hit_inv (k : nat) (c : Coordinator) : Prop := {
  hi_only : co_only rid c0 c;
  hi_free : ∃ fr, co_free_ok c fr ∧ (∀ b, b ∈ fr → b ∈ fr0) ∧
    Z.of_nat (length fr0) - sumZ (imap ev (take k ms0)) ≤ Z.of_nat (length fr);
  hi_hash : ∀ x, hash_of (block_pool c) x = hash_of p0 x;
  hi_ref : ∀ x, ref_of p0 x ≤ ref_of (block_pool c) x;
  hi_unhashed : ∀ x, x ≠ 0%nat → hash_of p0 x = None → ref_of (block_pool c) x = ref_of p0 x;
  hi_done : ∀ j m, (j < k)%nat → ms0 !! j = Some m → ∃ m', single_type_managers c !! j = Some m' ∧
    blocks_of rid m' = hit_blocks m local (nc_at j) ∧
    num_cached_block m' !! rid = Some (Z.of_nat (length (hit_blocks m local (nc_at j))));
  hi_todo : ∀ j, (k ≤ j)%nat → single_type_managers c !! j = ms0 !! j
}.

Lemma num_external_none m nc : num_external_blocks m local 0 nc = 0.
Proof.
  unfold num_external_blocks. destruct (0 <? num_skipped_new m (local + 0)); [|done].
  destruct (Z.ltb_spec 0 (Z.min (local + 0 - get_num_skipped_tokens m (local + 0)) 0)); [lia|done].
Qed.

(** A manager takes no more blocks off the free queue than [hit_blocks_free] counts. *)
Lemma hit_free_left c fr m nc :
  co_free_ok c fr → co_only rid c0 c → (∀ x, ref_of p0 x ≤ ref_of (block_pool c) x) → blocks_ok (nblocks p0) nc →
  Z.of_nat (length fr) - hit_blocks_free local true p0 m nc ≤ Z.of_nat (length (filter (λ x, x ∉ kept_blocks m local nc) fr)).
Proof.
  intros Hfr Honly Href Hok. pose proof (nblocks_frame _ _ (co_pool _ _ _ Honly)) as En.
  assert (0 < nblocks p0)%nat as Hpos.
  { pose proof (pw_pos _ _ _ (proj1 Hc0)). unfold nblocks. lia. }
  destruct (hit_blocks_ok (nblocks p0) m local nc Hpos Hok) as (_ & Hk & _).
  unfold hit_blocks_free. apply touched_le with (block_pool c); [apply Hfr|done|done|..].
  - intros x Hx. by apply (pw_ids _ _ _ (proj1 Hc0)).
  - intros x Hx. split; [by apply (pw_ref _ _ _ (proj1 Hc0))|apply Href].
Qed.

Lemma hit_inv_step k c m p' m' fr :
  hit_inv k c → ms0 !! k = Some m → co_free_ok c fr → (∀ b, b ∈ fr → b ∈ fr0) →
  Z.of_nat (length fr0) - sumZ (imap ev (take k ms0)) ≤ Z.of_nat (length fr) →
  took (others (single_type_managers c) k) fr rid (hit_blocks m local (nc_at k)) (kept_blocks m local (nc_at k)) 0 (block_pool c, m) (p', m') →
  hit_inv (S k) (set_co p' (<[k := m']> (single_type_managers c)) c).
Proof.
  intros [Honly _ Hhash Href Hun Hdone Htodo] Hm Hfr Hsub Hlen [M O B C H R].
  destruct (Hcall k m Hm) as (nc & Hnc & (Hb & Hnone & Hok & Hcach & Hhashed & Hle)).
  assert (nc_at k = nc) as Enc by (by rewrite Hnc). rewrite Enc in *.
  assert (single_type_managers c !! k = Some m) as Hmk by (rewrite Htodo; [done|lia]).
  set (hit := hit_blocks m local nc) in *. set (kept := kept_blocks m local nc) in *.
  cbn [fst snd] in *. rewrite drop_0 in M. rewrite take_0 in *.
  destruct (co_free_insert c k m p' m' rid fr _ Hfr Hmk M O) as [Hfr' Ho'].
  assert (∀ x, hash_of p' x = hash_of (block_pool c) x) as H'.
  { intros x. rewrite H, decide_False; [done|]. by intros [?%elem_of_nil _]. }
  assert (∀ x, ref_of p' x = ref_of (block_pool c) x + occ x kept) as R'.
  { intros x. rewrite R, decide_False; [done|]. apply not_elem_of_nil. }
  split; cbn [block_pool single_type_managers set_co].
  - by transitivity c.
  - exists (filter (λ x, x ∉ kept) fr). split; [exact Hfr'|]. split; [intros b [_ ?]%list_elem_of_filter; auto|].
    rewrite (sumZ_imap_S _ _ _ m Hm), Enc. pose proof (hit_free_left c fr m nc Hfr Honly Href Hok) as Hfl. fold kept in Hfl. lia.
  - intros x. by rewrite H', Hhash.
  - intros x. rewrite R'. pose proof (occ_nonneg x kept). specialize (Href x). lia.
  - intros x Hx0 Hx. rewrite R', Hun by done. rewrite occ_not_in; [lia|]. intros Hin.
    apply list_elem_of_lookup in Hin as [j Hj]. unfold kept, kept_blocks in Hj.
    rewrite lookup_drop in Hj. apply list_elem_of_lookup_2 in Hj.
    destruct (Hhashed x Hj Hx0). congruence.
  - intros j mj Hj Hmj. destruct (decide (j = k)) as [->|Hne].
    + rewrite Hm in Hmj. injection Hmj as <-. exists m'. rewrite list_lookup_insert_eq by (by eapply lookup_lt_Some).
      split; [done|]. rewrite Enc. by rewrite app_nil_r in B.
    + rewrite list_lookup_insert_ne by done. apply Hdone; [lia|done].
  - intros j Hj. rewrite list_lookup_insert_ne by lia. apply Htodo. lia.
Qed.

Lemma manager_hit_spec k c m :
  hit_inv k c → ms0 !! k = Some m →
  wp (on_manager k (bs ← lift_res (group_blocks ncs k); allocate_new_computed_blocks use_int rid bs local 0))
    (λ _ c', hit_inv (S k) c') no_exn c.
Proof.
  intros Hi Hm. destruct (Hcall k m Hm) as (nc & Hnc & (Hb & Hnone & Hok & Hcach & Hhashed & Hle)).
  assert (nc_at k = nc) as Enc by (by rewrite Hnc).
  assert (single_type_managers c !! k = Some m) as Hmk by (rewrite (hi_todo _ _ Hi); [done|lia]).
  destruct (hi_free _ _ Hi) as (fr & Hfr & Hsub & Hlen). pose proof (proj2 Hfr k m Hmk) as Hman.
  rewrite Forall_lookup in Hms0. destruct (Hms0 k m Hm) as [Hcl Hca _ _ _ _].
  apply (wp_on_manager k _ m); [done|]. unfold group_blocks. rewrite Hnc. wp_step. apply wp_lift_res; [|done].
  intros ? [= <-].
  assert (∀ Q, wp (base_allocate_new_computed_blocks use_int rid nc local 0) Q no_exn (block_pool c, m) →
    wp (allocate_new_computed_blocks use_int rid nc local 0) Q no_exn (block_pool c, m)) as Hbase.
  { intros Q HQ. unfold allocate_new_computed_blocks. wp_step. wp_step. cbn [snd]. by destruct (mgr_class m). }
  apply Hbase. clear Hbase.
  eapply wp_mono; [apply (base_allocate_new_computed_spec use_int _ fr _ rid nc local 0 Hman)|..];
    rewrite ?num_external_none; cbn [fst snd]; replace (local + 0) with local by lia.
  - by rewrite (nblocks_frame _ _ (co_pool _ _ _ (hi_only _ _ Hi))).
  - done.
  - lia.
  - done.
  - intros [] [p' m'] [(Hs & _)|(_ & _ & _ & Ht)]; [rewrite Hnone in Hs; by destruct Hs|].
    rewrite <-Enc in Ht. by apply (hit_inv_step k c m p' m' fr).
  - intros e s' (_ & _ & [(_ & [[_ Hs]|[?|[Hc Hk]]])|(_ & _ & _ & ?)]); [rewrite Hnone in Hs; by destruct Hs|done| |lia].
    apply Hk. unfold kept_blocks. rewrite (Hcach Hc). by rewrite drop_nil.
Qed.

Lemma hits_spec :
  wp (co_allocate_new_computed_blocks use_int rid ncs local 0)
    (λ _ c', hit_inv (length ms0) c') no_exn c0.
Proof.
  apply (for_managers_ind _ hit_inv).
  - intros k c Hk Hi. destruct (lookup_lt_is_Some_2 ms0 k Hk) as [m Hm]. by apply (manager_hit_spec k c m).
  - split; try done.
    + exists fr0. split; [done|]. split; [done|]. simpl. lia.
    + intros j m Hj. lia.
Qed.
End hits.

(** ** The new blocks *)

Section grants.
Context (use_int : bool) (rid : string) (need main enc : Z).
Context (c1 : Coordinator) (fr1 : list loc) (Hc1 : co_free_ok c1 fr1).
Abbreviation p1 := (block_pool c1).
Abbreviation ms1 := (single_type_managers c1).
Context (Hcl : ∀ i m, ms1 !! i = Some m → attention_class (mgr_class m) = true).

Definition grows (m : Manager) : nat :=
  Z.to_nat (cdiv need (mgr_block_size m) - Z.of_nat (length (blocks_of rid m))).
(** The blocks taken by the first [k] managers, and the new blocks of manager [k]. *)
Definition grown (k : nat) : nat := sum_list (grows <$> take k ms1).
Definition new_blocks_at (k : nat) (m : Manager) : list loc := take (grows m) (drop (grown k) fr1).
Context (Henough : (grown (length ms1) ≤ length fr1)%nat).

Record grant_inv (k : nat) (acc : list (list loc)) (c : Coordinator) : Prop := {
  gi_only : co_only rid c1 c;
  gi_free : co_free_ok c (drop (grown k) fr1);
  gi_length : length acc = k;
  gi_done : ∀ j m, (j < k)%nat → ms1 !! j = Some m → acc !! j = Some (new_blocks_at j m) ∧
    ∃ m', single_type_managers c !! j = Some m' ∧ blocks_of rid m' = blocks_of rid m ++ new_blocks_at j m ∧
      num_cached_block m' = num_cached_block m;
  gi_todo : ∀ j, (k ≤ j)%nat → single_type_managers c !! j = ms1 !! j;
  gi_hash : ∀ x, hash_of (block_pool c) x =
    if decide (x ∈ take (grown k) fr1 ∧ enable_caching p1 = true) then None else hash_of p1 x;
  gi_ref : ∀ x, ref_of (block_pool c) x = if decide (x ∈ take (grown k) fr1) then 1 else ref_of p1 x
}.

Lemma grown_S k m : ms1 !! k = Some m → grown (S k) = (grown k + grows m)%nat.
Proof.
  clear Henough. intros Hm. unfold grown. rewrite (take_S_r _ _ m Hm), fmap_app, sum_list_with_app. simpl. lia.
Qed.

Lemma grown_mono k j : (k ≤ j)%nat → (grown k ≤ grown j)%nat.
Proof.
  clear Henough. intros Hle. unfold grown. replace j with (k + (j - k))%nat by lia.
  rewrite <-take_take_drop, fmap_app, sum_list_with_app. lia.
Qed.

Lemma grown_le k : (grown k ≤ length fr1)%nat.
Proof.
  etransitivity; [|exact Henough]. unfold grown. rewrite (take_ge ms1 (length ms1)) by lia.
  rewrite <-(take_drop k ms1) at 2. rewrite fmap_app, sum_list_with_app. lia.
Qed.

Lemma new_blocks_length k m : ms1 !! k = Some m → length (new_blocks_at k m) = grows m.
Proof.
  intros Hm. pose proof (grown_S k m Hm). pose proof (grown_le (S k)).
  unfold new_blocks_at. rewrite length_take, length_drop. lia.
Qed.

Lemma new_blocks_sub k m b : ms1 !! k = Some m → b ∈ new_blocks_at k m → b ∈ take (grown (length ms1)) fr1.
Proof.
  clear Henough. intros Hm Hb. unfold new_blocks_at in Hb.
  pose proof (take_take_drop fr1 (grown k) (grows m)) as Et. rewrite <-(grown_S k m Hm) in Et.
  assert (b ∈ take (grown (S k)) fr1) as Hin by (rewrite <-Et; apply elem_of_app; by right).
  pose proof (lookup_lt_Some _ _ _ Hm). pose proof (grown_mono (S k) (length ms1) ltac:(lia)).
  apply elem_of_take in Hin as (i & ? & ?). apply elem_of_take. exists i. split; [done|lia].
Qed.

Lemma grant_step k acc c m :
  grant_inv k acc c → ms1 !! k = Some m →
  wp (on_manager k (m ← gets snd; allocate_new_blocks use_int rid (if is_cross m then enc else need) main))
    (λ a c', grant_inv (S k) (acc ++ [a]) c') no_exn c.
Proof.
  intros [Hon Hfr Hl Hd Ht Hh Hr] Hm.
  assert (single_type_managers c !! k = Some m) as Hmk by (rewrite Ht; [done|lia]).
  pose proof (proj2 Hfr k m Hmk) as Hman. apply (wp_on_manager k _ m); [done|]. wp_step. wp_step. cbn [snd].
  pose proof (Hcl k m Hm) as Hc.
  assert (is_cross m = false) as -> by (unfold is_cross; apply bool_decide_eq_false; intros E; by rewrite E in Hc).
  assert (∀ Q, wp (base_allocate_new_blocks use_int rid need) Q no_exn (block_pool c, m) →
    wp (allocate_new_blocks use_int rid need main) Q no_exn (block_pool c, m)) as Hbase.
  { intros Q HQ. unfold allocate_new_blocks. wp_step. wp_step. cbn [snd]. by destruct (mgr_class m). }
  apply Hbase. clear Hbase. pose proof (grown_le (S k)) as Hle. rewrite (grown_S k m Hm) in Hle.
  eapply wp_mono; [apply (base_allocate_new_blocks_spec use_int _ _ _ rid need Hman)|..]; cbn [fst snd].
  2:{ intros e s' (_ & Hlt & _). rewrite length_drop in Hlt. unfold grows in Hle. lia. }
  intros r [p' m'] (_ & -> & [M O B H R] & Hcc). cbn [fst snd] in *. fold (grows m) in *.
  rewrite drop_drop in M. destruct (co_free_insert c k m p' m' rid _ _ Hfr Hmk M O) as [Hfr' Ho'].
  assert (take (grown (S k)) fr1 = take (grown k) fr1 ++ new_blocks_at k m) as Et.
  { rewrite (grown_S k m Hm). unfold new_blocks_at. by rewrite take_take_drop. }
  split; cbn [block_pool single_type_managers set_co].
  - by transitivity c.
  - by rewrite (grown_S k m Hm).
  - rewrite length_app, Hl. simpl. lia.
  - intros j mj Hj Hmj. destruct (decide (j = k)) as [->|Hne].
    + rewrite Hm in Hmj. injection Hmj as <-. split; [by rewrite lookup_app_r, Hl, Nat.sub_diag by lia|].
      exists m'. rewrite list_lookup_insert_eq by (by eapply lookup_lt_Some). by split_and!.
    + destruct (Hd j mj ltac:(lia) Hmj) as (Ha & m2 & Hm2 & ?). split; [by apply lookup_app_l_Some|].
      exists m2. by rewrite list_lookup_insert_ne by done.
  - intros j Hj. rewrite list_lookup_insert_ne by lia. apply Ht. lia.
  - intros x. rewrite H, Hh, Et. fold (new_blocks_at k m). rewrite (pf_caching _ _ (co_pool _ _ _ Hon)).
    pose proof (elem_of_app (take (grown k) fr1) (new_blocks_at k m) x). goal_decide; try done; tauto.
  - intros x. rewrite R, Hr, Et. fold (new_blocks_at k m).
    pose proof (elem_of_app (take (grown k) fr1) (new_blocks_at k m) x). goal_decide; try done; tauto.
Qed.

Lemma grants_spec :
  wp (co_allocate_new_blocks use_int rid need main enc)
    (λ l c', grant_inv (length ms1) l c') no_exn c1.
Proof.
  apply (map_managers_ind _ grant_inv).
  - intros k acc c Hk Hi. destruct (lookup_lt_is_Some_2 ms1 k Hk) as [m Hm]. by apply (grant_step k acc c m).
  - assert (grown 0 = 0%nat) as E0 by done. split; rewrite ?E0; try done.
    intros j m Hj. lia.
Qed.
End grants.

(** ** Caching the full blocks *)

Lemma sumZ_two {A} (f : A → Z) l i j a b :
  (∀ a, 0 ≤ f a) → l !! i = Some a → l !! j = Some b → i ≠ j → f a + f b ≤ sumZ (f <$> l).
Proof.
  intros Hf Ha Hb Hij. rewrite <-(take_drop_middle l i a Ha), fmap_app, fmap_cons, sumZ_app. cbn [sumZ].
  assert (∀ l, 0 ≤ sumZ (f <$> l)) as Hn.
  { intros l'. apply sumZ_nonneg, Forall_fmap, Forall_true. intros c. apply Hf. }
  pose proof (Hn (take i l)). pose proof (Hn (drop (S i) l)).
  destruct (decide (j < i)%nat).
  - pose proof (sumZ_ge f (take i l) j b Hf ltac:(by rewrite lookup_take_lt)). lia.
  - pose proof (sumZ_ge f (drop (S i) l) (j - S i) b Hf
      ltac:(rewrite lookup_drop, <-Hb; f_equal; lia)). lia.
Qed.

(** A block with one reference is in one list only. *)
Lemma exclusive_one ext fr p m q q' b :
  managed ext fr (p, m) → b ∈ blocks_of q m → b ∈ blocks_of q' m → b ≠ 0%nat → ref_of p b = 1 → q' = q.
Proof.
  intros Hm Hb Hb' H0 Hr. assert (b < nblocks p)%nat as Hlt.
  { destruct (mg_blocks _ _ _ Hm q) as [Hall _]. rewrite Forall_forall in Hall. by apply Hall. }
  pose proof (mg_ref _ _ _ Hm b ltac:(cbn [fst]; lia)) as E. cbn [fst snd] in E. rewrite Hr in E.
  pose proof (mg_ext _ _ _ Hm b). pose proof (occ_pos b _ Hb) as O1. pose proof (occ_pos b _ Hb') as O2.
  unfold blocks_of, held in *. destruct (decide (q' = q)) as [|Hq]; [done|].
  pose proof (hold_two b q q' (req_to_blocks m) ltac:(done)). lia.
Qed.

Lemma exclusive c fr k j mk mj q q' b :
  co_free_ok c fr → single_type_managers c !! k = Some mk → single_type_managers c !! j = Some mj →
  b ∈ blocks_of q mk → b ∈ blocks_of q' mj → b ≠ 0%nat → ref_of (block_pool c) b = 1 → j = k ∧ q' = q.
Proof.
  intros [Hok Hms] Hk Hj Hb Hb' H0 Hr. pose proof (Hms k mk Hk) as Hm. destruct (decide (j = k)) as [->|Hne].
  { rewrite Hk in Hj. injection Hj as <-. split; [done|]. by eapply exclusive_one. }
  assert (b < nblocks (block_pool c))%nat as Hlt.
  { destruct (mg_blocks _ _ _ Hm q) as [Hall _]. rewrite Forall_forall in Hall. by apply Hall. }
  pose proof (mg_ref _ _ _ Hm b ltac:(cbn [fst]; lia)) as E. cbn [fst snd] in E. rewrite Hr in E.
  pose proof (occ_pos b _ Hb) as O1. pose proof (occ_pos b _ Hb') as O2. unfold blocks_of in O1, O2.
  pose proof (hold_ge b q (req_to_blocks mk)). pose proof (hold_ge b q' (req_to_blocks mj)).
  pose proof (sumZ_two (held b) _ k j mk mj (held_nonneg b) Hk Hj ltac:(done)) as H2. unfold others in E.
  rewrite Hk in E. unfold total_held, held in *. lia.
Qed.

(** New hashes on blocks of one request's list do not touch another tail. *)
Lemma tail_ok_stamp p p' m (S : list loc) :
  tail_ok p m → (∀ x, ref_of p' x = ref_of p x) → (∀ x, x ∉ S → hash_of p' x = hash_of p x) →
  (∀ rid j b, default 0 (num_cached_block m !! rid) ≤ Z.of_nat j → blocks_of rid m !! j = Some b → b ≠ 0%nat →
     ref_of p b = 1 → b ∉ S) →
  tail_ok p' m.
Proof.
  intros Ht Hr Hh Hs rid j b Hj Hb H0. destruct (Ht rid j b Hj Hb H0) as [Hn H1].
  rewrite Hr, Hh by (by apply (Hs rid j)). done.
Qed.

Lemma manager_ok_stamp p p' m (S : list loc) :
  manager_ok p m → pool_frame p p' → (∀ x, ref_of p' x = ref_of p x) →
  (∀ x, x ∉ S → hash_of p' x = hash_of p x) →
  (∀ rid j b, default 0 (num_cached_block m !! rid) ≤ Z.of_nat j → blocks_of rid m !! j = Some b → b ≠ 0%nat →
     ref_of p b = 1 → b ∉ S) →
  manager_ok p' m.
Proof.
  intros [Hcl Hca Hsz Hg Hc0 Ht] Hpf Hr Hh Hs. split; rewrite ?(pf_caching _ _ Hpf), ?(pf_hbs _ _ Hpf); try done.
  intros Hc. by apply (tail_ok_stamp p _ _ S); [apply Ht|..].
Qed.

Lemma blocks_ok_slice n bs i k : blocks_ok n bs → NoDup (filter (λ b, b ≠ 0%nat) (take k (drop i bs))).
Proof.
  intros Hb. rewrite <-(take_drop i bs) in Hb. apply blocks_ok_app in Hb as (_ & Hb & _).
  rewrite <-(take_drop k (drop i bs)) in Hb. by apply blocks_ok_app in Hb as ([_ Hb] & _).
Qed.

Lemma blocks_ok_distinct n bs i j b : blocks_ok n bs → bs !! i = Some b → bs !! j = Some b → b ≠ 0%nat → (i ≤ j)%nat → i = j.
Proof.
  intros Hb Hi Hj H0 Hle. destruct (decide (i = j)) as [|Hne]; [done|]. exfalso.
  rewrite <-(take_drop j bs) in Hb. apply blocks_ok_app in Hb as (_ & _ & Hb). apply (Hb b H0).
  - apply elem_of_take. exists i. split; [done|lia].
  - apply list_elem_of_lookup. exists 0%nat. by rewrite lookup_drop, Nat.add_0_r.
Qed.

(** The request's own tail starts after the blocks just hashed. *)
Lemma manager_ok_cached ext fr p p' m m' rid f :
  managed ext fr (p, m) → manager_ok p m → only rid (p, m) (p', m') → (∀ x, ref_of p' x = ref_of p x) →
  let c := Z.to_nat (default 0 (num_cached_block m !! rid)) in
  (∀ x, x = 0%nat ∨ x ∉ take (f - c) (drop c (blocks_of rid m)) → hash_of p' x = hash_of p x) →
  (∀ q, blocks_of q m' = blocks_of q m) →
  (∀ q, num_cached_block m' !! q = if decide (q = rid ∧ (c < f)%nat) then Some (Z.of_nat f) else num_cached_block m !! q) →
  manager_ok p' m'.
Proof.
  intros Hm [Hcl Hca Hsz Hg Hc0 Ht] [Hpf [F1 F2 F3 F4 F5 F6] _ _] Hr c Hh Hb Hn. cbn [fst snd] in *.
  split; rewrite ?(pf_caching _ _ Hpf), ?(pf_hbs _ _ Hpf), ?F1, ?F3, ?F4, ?F5; try done.
  - intros q v. rewrite Hn. intros Hv. destruct (decide _); [injection Hv as <-; lia|by apply (Hc0 q)].
  - intros Hc q j b Hj Hb' H0. rewrite Hb in Hb'. rewrite Hn in Hj.
    assert (default 0 (num_cached_block m !! q) ≤ Z.of_nat j) as Hj'.
    { case_decide as Hd; [|done]. destruct Hd as [-> Hlt]. unfold c in Hlt. simpl in Hj.
      destruct (num_cached_block m !! rid); simpl in *; lia. }
    destruct (Ht Hc q j b Hj' Hb' H0) as [Hnone H1]. rewrite Hr, Hh; [done|]. right.
    intros (i & Hi & Hlt)%elem_of_take. rewrite lookup_drop in Hi.
    destruct (exclusive_one ext fr p m q rid b Hm) as []; [by eapply list_elem_of_lookup_2..|done|done|].
    rewrite decide_True in Hj by (split; [done|lia]). simpl in Hj.
    pose proof (blocks_ok_distinct (nblocks p) (blocks_of rid m) (c + i) j b (mg_blocks _ _ _ Hm rid) Hi Hb' H0). lia.
Qed.

(** The blocks stamped for one request belong to no other one, so the tails of all managers stay
    unhashed. *)
Lemma managers_ok_stamped c fr k m p' m' rid f :
  co_free_ok c fr → single_type_managers c !! k = Some m → Forall (manager_ok (block_pool c)) (single_type_managers c) →
  only rid (block_pool c, m) (p', m') → (∀ x, ref_of p' x = ref_of (block_pool c) x) →
  let cc := Z.to_nat (default 0 (num_cached_block m !! rid)) in
  (∀ x, x = 0%nat ∨ x ∉ take (f - cc) (drop cc (blocks_of rid m)) → hash_of p' x = hash_of (block_pool c) x) →
  (∀ q, blocks_of q m' = blocks_of q m) →
  (∀ q, num_cached_block m' !! q = if decide (q = rid ∧ (cc < f)%nat) then Some (Z.of_nat f) else num_cached_block m !! q) →
  Forall (manager_ok p') (<[k := m']> (single_type_managers c)).
Proof.
  intros Hfr Hk Hm Ho Hr cc Hh Hb Hn. set (S := take (f - cc) _) in *.
  assert (S ⊆ blocks_of rid m) as Hsub.
  { intros b (i & Hi & _)%elem_of_take. rewrite lookup_drop in Hi. by eapply list_elem_of_lookup_2. }
  apply Forall_lookup. intros j mj Hj. apply list_lookup_insert_Some in Hj as [(-> & -> & _)|[Hne Hj]].
  - apply (manager_ok_cached _ fr (block_pool c) p' m mj rid f (proj2 Hfr j m Hk)); try done. by apply (Forall_lookup_1 _ _ j _ Hm).
  - apply (manager_ok_stamp (block_pool c) p' mj S); [by apply (Forall_lookup_1 _ _ j _ Hm)|apply Ho|done|by auto|].
    intros q i b _ Hb' H0 H1 Hin.
    destruct (exclusive c fr k j m mj rid q b Hfr Hk Hj) as [? _]; [by apply Hsub|by eapply list_elem_of_lookup_2|done|done|congruence].
Qed.

Section caching.
Context (use_int : bool) (sha256 : bytes → bytes) (r : Request) (n : Z).
Context (c2 : Coordinator) (fr : list loc) (Hc2 : co_free_ok c2 fr).
Context (Hms2 : Forall (manager_ok (block_pool c2)) (single_type_managers c2)).
Context (Hcaching : enable_caching (block_pool c2) = true) (Hhbs : 0 < hash_block_size (block_pool c2)).
Context (Hn : 0 ≤ n) (Hhashes : n / hash_block_size (block_pool c2) ≤ Z.of_nat (length (block_hashes r))).
Context (Hfeats : feats_ok (mm_features r)) (Hmemo : BlockHash.cache_ok sha256 r).
Abbreviation rid := (request_id r).
Context (Hlen : ∀ i m, single_type_managers c2 !! i = Some m →
  n / mgr_block_size m ≤ Z.of_nat (length (blocks_of rid m))).

Record cache_inv (k : nat) (r' : Request) (c : Coordinator) : Prop := {
  ci_request : memo_of r r' ∧ BlockHash.cache_ok sha256 r';
  ci_only : co_only rid c2 c;
  ci_free : co_free_ok c fr;
  ci_mgrs : Forall (manager_ok (block_pool c)) (single_type_managers c);
  ci_ref : ∀ x, ref_of (block_pool c) x = ref_of (block_pool c2) x;
  ci_done : ∀ j m, single_type_managers c2 !! j = Some m → ∃ m', single_type_managers c !! j = Some m' ∧
    (∀ q, blocks_of q m' = blocks_of q m) ∧ if decide (j < k)%nat
    then default 0 (num_cached_block m' !! rid) = Z.max (default 0 (num_cached_block m !! rid)) (n / mgr_block_size m)
    else m' = m
}.

(** One manager: the pool afterwards, and the manager with the new count. *)
Lemma base_cache_exact p m r' ext :
  managed ext fr (p, m) → manager_ok p m → enable_caching p = true → 0 < hash_block_size p →
  memo_of r r' → BlockHash.cache_ok sha256 r' → n / hash_block_size p ≤ Z.of_nat (length (block_hashes r)) →
  n / mgr_block_size m ≤ Z.of_nat (length (blocks_of rid m)) →
  let c := Z.to_nat (default 0 (num_cached_block m !! rid)) in
  let f := Z.to_nat (n / mgr_block_size m) in
  wp (base_cache_blocks use_int sha256 r' n)
    (λ r'' s', memo_of r r'' ∧ BlockHash.cache_ok sha256 r'' ∧ managed ext fr s' ∧ only rid (p, m) s' ∧
       (∀ x, ref_of s'.1 x = ref_of p x) ∧
       (∀ x, x = 0%nat ∨ x ∉ take (f - c) (drop c (blocks_of rid m)) → hash_of s'.1 x = hash_of p x) ∧
       (∀ q, blocks_of q s'.2 = blocks_of q m) ∧
       (∀ q, num_cached_block s'.2 !! q = if decide (q = rid ∧ (c < f)%nat) then Some (Z.of_nat f) else num_cached_block m !! q))
    no_exn (p, m).
Proof.
  intros Hm [Hcl Hca Hsz Hg Hc0 Ht] Hcach Hpos Hmem Hok Hh Hlb c f. pose proof Hmem as [mm Er'].
  assert (request_id r' = rid) as Eid by by rewrite Er'.
  assert (0 ≤ default 0 (num_cached_block m !! rid)) as Hcn.
  { destruct (num_cached_block m !! rid) as [v|] eqn:E; simpl; [by apply (Hc0 rid)|lia]. }
  specialize (Hsz Hcach). unfold base_cache_blocks. wp_step. wp_step. cbn [snd]. rewrite Eid.
  assert (0 ≤ n / mgr_block_size m) as Hfn by (apply Z.div_pos; [done|]; rewrite Hsz; lia).
  wp_step.
  { apply Z.leb_le in Hif. wp_step. do 7 (split; [done|]). intros q. rewrite decide_False; [done|]. unfold c, f. lia. }
  apply Z.leb_gt in Hif. wp_step. apply wp_req_blocks. cbn [fst snd]. set (bs := blocks_of rid m) in *.
  pose proof (managed_default _ _ _ rid Hm) as Hm1. cbn [fst snd] in Hm1. fold bs in Hm1.
  set (m1 := set_req_to_blocks (<[rid := bs]> (req_to_blocks m)) m) in *.
  assert (only rid (p, m) (p, m1)) as Ho1 by apply (only_put rid bs (p, m)).
  replace (default 0 (num_cached_block m !! rid)) with (Z.of_nat c) by (unfold c; lia).
  replace (n / mgr_block_size m) with (Z.of_nat f) by (unfold f; lia). rewrite Hsz.
  wp_step. apply wp_on_pool. cbn [fst snd].
  destruct (mg_blocks _ _ _ Hm rid) as [Hall Hnd]. cbn [fst snd] in Hall, Hnd. fold bs in Hall, Hnd.
  eapply wp_mono; [apply (cache_full_blocks_spec use_int sha256 p fr r' bs c f (kv_cache_group_id m))| |done].
  - apply Hm.
  - unfold c, f. lia.
  - unfold f. lia.
  - rewrite Er'. cbn [block_hashes set_prompt_embeds_per_block_hashes]. unfold f. rewrite Hsz. lia.
  - lia.
  - done.
  - done.
  - split.
    + apply Forall_forall. intros b [i Hi]%list_elem_of_lookup. apply lookup_take_Some in Hi as [Hi Hlt].
      rewrite lookup_drop in Hi. split; [rewrite Forall_forall in Hall; apply Hall; by eapply list_elem_of_lookup_2|].
      intros H0. apply (Ht Hcach rid (c + i)%nat b); [unfold c; lia|done|done].
    + by apply (blocks_ok_slice (nblocks p) bs c (f - c)).
  - by rewrite Er'.
  - done.
  - intros r2 p' ([mm2 ->] & Hok2 & Hp' & Hf' & Hr' & _ & _ & Hx). wp_step. apply wp_on_mgr. wp_step. cbn [fst snd].
    split; [eapply memo_trans; [done|by eexists]|]. split; [done|].
    set (m2 := set_num_cached_block _ _). split; [|split; [|split; [done|split; [done|split]]]].
    + apply (managed_same ext fr p' m1); [|by split|done|done]. apply (managed_kept ext fr p); [done|done|by split].
    + transitivity ((p, m1) : PM); [done|]. split; [done|by split|done|]. intros q Hq. cbn. by rewrite lookup_insert_ne.
    + intros q. unfold blocks_of, m2, m1. cbn. destruct (decide (q = rid)) as [->|Hq].
      * rewrite lookup_insert_eq. done.
      * by rewrite lookup_insert_ne.
    + intros q. unfold m2. cbn. destruct (decide (q = rid)) as [->|Hq].
      * rewrite lookup_insert_eq, decide_True; [done|]. split; [done|]. unfold c, f. lia.
      * rewrite lookup_insert_ne, decide_False by naive_solver. done.
Qed.

Lemma cache_step k r' c m :
  cache_inv k r' c → single_type_managers c2 !! k = Some m →
  wp (on_manager k (cache_blocks use_int sha256 r' n)) (λ r'' c', cache_inv (S k) r'' c') no_exn c.
Proof.
  intros [[Hmem Hok] Hon Hfr Hm Hr Hd] Hk.
  pose proof (co_pool _ _ _ Hon) as Hpf.
  destruct (Hd k m Hk) as (m' & Hk' & Hb & Hc). destruct (decide (k < k)%nat); [lia|subst m'].
  pose proof (Forall_lookup_1 _ _ _ _ Hm Hk') as Hmo. pose proof (proj2 Hfr k m Hk') as Hman.
  apply (wp_on_manager k _ m); [done|].
  assert (∀ Q, wp (base_cache_blocks use_int sha256 r' n) Q no_exn (block_pool c, m) →
    wp (cache_blocks use_int sha256 r' n) Q no_exn (block_pool c, m)) as Hbase.
  { intros Q HQ. pose proof (mo_class _ _ Hmo). unfold cache_blocks. wp_step. wp_step. cbn [snd]. by destruct (mgr_class m). }
  apply Hbase. clear Hbase.
  eapply wp_mono; [apply (base_cache_exact (block_pool c) m r' _ Hman Hmo)| |done].
  - by rewrite (pf_caching _ _ Hpf).
  - by rewrite (pf_hbs _ _ Hpf).
  - done.
  - done.
  - by rewrite (pf_hbs _ _ Hpf).
  - by apply (Hlen k).
  - cbn zeta. set (cc := Z.to_nat (default 0 _)). set (f := Z.to_nat (n / _)).
    intros r2 [p' m'] (Hmem2 & Hok2 & Hman2 & Ho & Hr2 & Hh2 & Hb2 & Hn2). cbn [fst snd] in *.
    destruct (co_free_insert c k m p' m' rid fr fr Hfr Hk' Hman2 Ho) as [Hfr' Ho'].
    assert (default 0 (num_cached_block m' !! rid) =
      Z.max (default 0 (num_cached_block m !! rid)) (n / mgr_block_size m)) as Hcnt.
    { assert (0 ≤ default 0 (num_cached_block m !! rid)).
      { destruct (num_cached_block m !! rid) as [v|] eqn:E; simpl; [by apply (mo_cached _ _ Hmo rid)|lia]. }
      pose proof (mg_bs _ _ _ Hman) as Hbs. cbn [snd] in Hbs.
      pose proof (Z.div_pos n (mgr_block_size m) Hn Hbs).
      rewrite Hn2. destruct (decide _) as [[_ ?]|Hno]; [simpl; unfold cc, f in *; lia|].
      assert (¬ (cc < f)%nat) by (intros ?; by apply Hno). unfold cc, f in *. lia. }
    split; cbn [block_pool single_type_managers set_co]; [done|by transitivity c|exact Hfr'| | |].
    + by apply (managers_ok_stamped c fr k m p' m' rid f).
    + intros x. by rewrite Hr2.
    + intros j mj Hj. destruct (decide (j = k)) as [->|Hne].
      * rewrite Hk in Hj. injection Hj as <-. exists m'.
        rewrite list_lookup_insert_eq by (by eapply lookup_lt_Some). do 2 (split; [done|]). by rewrite decide_True by lia.
      * destruct (Hd j mj Hj) as (m2 & Hm2 & Hbm & Hc2'). exists m2. rewrite list_lookup_insert_ne by done.
        do 2 (split; [done|]). do 2 destruct (decide _); try lia; done.
Qed.

Lemma co_cache_blocks_exact :
  wp (co_cache_blocks use_int sha256 r n)
    (λ r' c', cache_inv (length (single_type_managers c2)) r' c') no_exn c2.
Proof.
  unfold co_cache_blocks. wp_step. wp_step.
  eapply wp_mono; [apply (wp_fold_each _ _ _ (λ d r' c', cache_inv (length d) r' c') no_exn)| |done].
  - intros d x rest r' c1 Hd Hc1. apply seq_split_at in Hd as [-> Hx]. rewrite length_app. simpl. rewrite Nat.add_1_r.
    destruct (lookup_lt_is_Some_2 (single_type_managers c2) _ Hx) as [m Hm]. by apply (cache_step _ r' c1 m).
  - split; [by split; [apply memo_refl|]|done..|]. intros j m Hj. exists m. do 2 (split; [done|]).
    by destruct (decide _); [simpl in *; lia|].
  - intros r' c' H. unfold manager_ids in H. by rewrite length_seq in H.
Qed.
End caching.

(** ** Each phase keeps the tails in order *)

Lemma only_blocks_of rid q s s' : only rid s s' → q ≠ rid → blocks_of q s'.2 = blocks_of q s.2.
Proof. intros Ho Hq. unfold blocks_of. by rewrite (on_blocks _ _ _ Ho). Qed.

Lemma manager_ok_keep p m p' m' rid :
  manager_ok p m → only rid (p, m) (p', m') →
  (∀ q v, num_cached_block m' !! q = Some v → 0 ≤ v) → (enable_caching p = true → tail_ok p' m') → manager_ok p' m'.
Proof.
  intros [Hcl Hca Hsz Hg Hc0 Ht] [Hpf [F1 F2 F3 F4 F5 F6] _ _] H0 Htail. cbn [fst snd] in *.
  by split; rewrite ?(pf_caching _ _ Hpf), ?(pf_hbs _ _ Hpf), ?F1, ?F3, ?F4, ?F5.
Qed.

(** A block in a list has a reference. *)
Lemma in_list_ref ext fr p m rid b : managed ext fr (p, m) → b ∈ blocks_of rid m → b ≠ 0%nat → 1 ≤ ref_of p b.
Proof.
  intros Hm Hb H0. destruct (mg_blocks _ _ _ Hm rid) as [Hall _]. cbn [fst snd] in Hall.
  rewrite Forall_forall in Hall. specialize (Hall b Hb).
  pose proof (mg_ref _ _ _ Hm b ltac:(cbn [fst]; lia)) as E. cbn [fst snd] in E.
  pose proof (mg_ext _ _ _ Hm b). pose proof (occ_pos b _ Hb). unfold held, blocks_of in *.
  pose proof (hold_ge b rid (req_to_blocks m)). lia.
Qed.

Lemma manager_ok_drop ext fr p m p' m' rid :
  manager_ok p m → only rid (p, m) (p', m') → managed ext fr (p', m') →
  (∀ q i b, blocks_of q m' !! i = Some b → b = 0%nat ∨
     blocks_of q m !! i = Some b ∧ num_cached_block m' !! q = num_cached_block m !! q) →
  (∀ q v, num_cached_block m' !! q = Some v → num_cached_block m !! q = Some v) →
  (∀ x, hash_of p' x = hash_of p x) → (∀ x, ref_of p' x ≤ ref_of p x) → manager_ok p' m'.
Proof.
  intros Hok Ho Hm Hb Hn Hh Hr. apply (manager_ok_keep p m _ _ rid); [done..| |].
  - intros q v Hv. by apply (mo_cached _ _ Hok q), Hn.
  - intros Hc q j b Hj Hb' H0. destruct (Hb q j b Hb') as [|[Hb1 En]]; [done|]. rewrite En in Hj.
    destruct (mo_tail _ _ Hok Hc q j b Hj Hb1 H0) as [Hnone H1]. rewrite Hh. split; [done|].
    pose proof (in_list_ref ext fr p' m' q b Hm ltac:(by eapply list_elem_of_lookup_2) H0). specialize (Hr b). lia.
Qed.

Lemma manager_ok_thin ext fr p m p' m' rid :
  manager_ok p m → only rid (p, m) (p', m') → managed ext fr (p', m') →
  (∀ q i b, blocks_of q m' !! i = Some b → b = 0%nat ∨ blocks_of q m !! i = Some b) →
  num_cached_block m' = num_cached_block m → (∀ x, hash_of p' x = hash_of p x) → (∀ x, ref_of p' x ≤ ref_of p x) →
  manager_ok p' m'.
Proof.
  intros Hok Ho Hm Hb Hn Hh Hr. apply (manager_ok_drop ext fr p m p' m' rid); try done; [|by rewrite Hn].
  intros q i b [?|?]%Hb; [by left|right]. by rewrite Hn.
Qed.

(** [remove_skipped_blocks] on every manager. *)
Record skip_inv (rid : string) (c : Coordinator) (k : nat) (c' : Coordinator) : Prop := {
  si_only : co_only rid c c';
  si_free : co_ok c';
  si_mgrs : Forall (manager_ok (block_pool c')) (single_type_managers c');
  si_hash : ∀ x, hash_of (block_pool c') x = hash_of (block_pool c) x;
  si_kept : ∀ j m, single_type_managers c !! j = Some m → ∃ m', single_type_managers c' !! j = Some m' ∧
    num_cached_block m' = num_cached_block m ∧ length (blocks_of rid m') = length (blocks_of rid m) ∧
    ∀ i b, blocks_of rid m' !! i = Some b → b = 0%nat ∨ blocks_of rid m !! i = Some b
}.

Lemma occ_sub_le p p' gone : (∀ x, ref_of p' x = ref_of p x - occ x gone) → ∀ x, ref_of p' x ≤ ref_of p x.
Proof. intros Hr x. rewrite Hr. pose proof (occ_nonneg x gone). lia. Qed.

Lemma skip_step rid t c k c1 :
  (k < length (single_type_managers c))%nat → skip_inv rid c k c1 →
  wp (on_manager k (remove_skipped_blocks rid t)) (λ _ c2, skip_inv rid c (S k) c2) no_exn c1.
Proof.
  intros Hk [Hon [fr Hfr] Hm Hh Hkept].
  destruct (lookup_lt_is_Some_2 (single_type_managers c) k Hk) as [m0 Hm0].
  destruct (Hkept k m0 Hm0) as (m & Hmk & Hn & Hl & Hb).
  apply (wp_on_manager k _ m); [done|]. pose proof (proj2 Hfr k m Hmk) as Hman.
  pose proof (Forall_lookup_1 _ _ _ _ Hm Hmk) as Hmo.
  eapply wp_mono; [apply (remove_skipped_spec _ fr _ rid t Hman)|..].
  2:{ intros e s' (_ & Ha & _). pose proof (mo_class _ _ Hmo) as Hc.
      pose proof (mg_class _ _ _ Hman) as Hcl. unfold is_align, spec_manager_map in *. cbn [snd] in *.
      destruct (mgr_spec m); try done. injection Hcl as Hcl. by rewrite <-Hcl in Hc. }
  intros [] [p' m'] (gone & [M O L B C H R]). cbn [fst snd] in *.
  destruct (co_free_insert c1 k m p' m' rid fr _ Hfr Hmk M O) as [Hfr' Ho'].
  pose proof (occ_sub_le _ _ _ R) as Hle.
  split; cbn [block_pool single_type_managers set_co]; [by transitivity c1|by eexists| | |].
  - apply Forall_lookup. intros j mj Hj. pose proof (proj2 Hfr' j mj Hj) as Hmj.
    apply list_lookup_insert_Some in Hj as [(-> & -> & _)|[Hne Hj]].
    + apply (manager_ok_thin _ _ (block_pool c1) m p' mj rid Hmo O Hmj); try done.
      intros q i b Hi. destruct (decide (q = rid)) as [->|Hq]; [by apply B|].
      pose proof (only_blocks_of _ _ _ _ O Hq) as E. cbn [snd] in E. rewrite E in Hi. by right.
    + assert (only rid (block_pool c1, mj) (p', mj)) as Oj by (split; [apply O|done..]).
      apply (manager_ok_thin _ _ (block_pool c1) mj p' mj rid (Forall_lookup_1 _ _ _ _ Hm Hj) Oj Hmj); try done. by right.
  - intros x. by rewrite H.
  - intros j mj Hj. destruct (decide (j = k)) as [->|Hne].
    + rewrite Hm0 in Hj. injection Hj as <-. exists m'. rewrite list_lookup_insert_eq by (by eapply lookup_lt_Some).
      split; [done|]. split; [congruence|]. split; [congruence|]. intros i b [->|Hi]%B; [by left|by apply Hb].
    + destruct (Hkept j mj Hj) as (m2 & Hm2 & ?). exists m2. by rewrite list_lookup_insert_ne by done.
Qed.

Lemma skips_spec rid t c :
  attn_ok c → wp (co_remove_skipped_blocks rid t)
    (λ _ c', skip_inv rid c (length (single_type_managers c)) c') no_exn c.
Proof.
  intros [Hco Hms]. apply (for_managers_ind _ (skip_inv rid c)).
  - intros k c1 Hk Hi. by apply skip_step.
  - split; try done. intros j m Hj. exists m. do 3 (split; [done|]). by right.
Qed.

Lemma co_only_at rid c c' j m' :
  co_only rid c c' → single_type_managers c' !! j = Some m' →
  ∃ m, single_type_managers c !! j = Some m ∧ only rid (block_pool c, m) (block_pool c', m').
Proof.
  intros [_ Hp Hm] Hj. destruct (Forall2_lookup_r _ _ _ _ _ Hm Hj) as (m & ? & Ho). exists m. split; [done|].
  by destruct Ho; split.
Qed.

Lemma hit_inv_mgrs rid local c0 fr0 ncs c :
  Forall (manager_ok (block_pool c0)) (single_type_managers c0) →
  hit_inv rid local c0 fr0 ncs (length (single_type_managers c0)) c →
  Forall (manager_ok (block_pool c)) (single_type_managers c).
Proof.
  intros Hms [Hon _ Hh _ Hun Hd _]. apply Forall_lookup. intros j m' Hj.
  destruct (co_only_at _ _ _ _ _ Hon Hj) as (m & Hm & Ho). pose proof (Forall_lookup_1 _ _ _ _ Hms Hm) as Hok.
  destruct (Hd j m (lookup_lt_Some _ _ _ Hm) Hm) as (m2 & Hm2 & Hb & Hn). rewrite Hj in Hm2. injection Hm2 as <-.
  apply (manager_ok_keep (block_pool c0) m _ _ rid Hok Ho).
  - intros q v Hv. destruct (decide (q = rid)) as [->|Hq]; [rewrite Hn in Hv; injection Hv as <-; lia|].
    pose proof (on_cached _ _ _ Ho q Hq) as E. cbn [snd] in E. rewrite E in Hv. by apply (mo_cached _ _ Hok q).
  - intros Hc q i b Hi Hb' H0. destruct (decide (q = rid)) as [->|Hq].
    { rewrite Hn in Hi. simpl in Hi. apply lookup_lt_Some in Hb'. rewrite Hb in Hb'. lia. }
    pose proof (only_blocks_of _ _ _ _ Ho Hq) as E. pose proof (on_cached _ _ _ Ho q Hq) as E'. cbn [snd] in E, E'.
    rewrite E in Hb'. rewrite E' in Hi. destruct (mo_tail _ _ Hok Hc q i b Hi Hb' H0) as [Hn' H1].
    by rewrite Hh, Hun.
Qed.

Lemma free_ref c fr b : co_free_ok c fr → b ∈ fr → ref_of (block_pool c) b = 0.
Proof.
  intros Hfr Hb. pose proof (pw_free _ _ _ (proj1 Hfr) b) as [Hf _]. rewrite app_nil_r in Hf.
  by destruct (Hf Hb).
Qed.

Lemma grant_inv_mgrs rid need c1 fr1 l c :
  co_free_ok c1 fr1 → Forall (manager_ok (block_pool c1)) (single_type_managers c1) →
  grant_inv rid need c1 fr1 (length (single_type_managers c1)) l c →
  Forall (manager_ok (block_pool c)) (single_type_managers c).
Proof.
  intros Hfr Hms [Hon _ _ Hd _ Hh Hr]. apply Forall_lookup. intros j m' Hj.
  destruct (co_only_at _ _ _ _ _ Hon Hj) as (m & Hm & Ho). pose proof (Forall_lookup_1 _ _ _ _ Hms Hm) as Hok.
  destruct (Hd j m (lookup_lt_Some _ _ _ Hm) Hm) as (_ & m2 & Hm2 & Hb & Hn). rewrite Hj in Hm2. injection Hm2 as <-.
  apply (manager_ok_keep (block_pool c1) m _ _ rid Hok Ho); [intros q v; rewrite Hn; apply Hok|].
  intros Hc q i b Hi Hb' H0. rewrite Hn in Hi.
  assert (b ∈ take (grown rid need c1 (length (single_type_managers c1))) fr1 ∨ blocks_of q m !! i = Some b) as Hcase.
  { destruct (decide (q = rid)) as [->|Hq].
    - rewrite Hb in Hb'. apply lookup_app_Some in Hb' as [?|[_ Hin]]; [by right|left].
      apply list_elem_of_lookup_2 in Hin. by apply (new_blocks_sub rid need c1 fr1 j m).
    - right. pose proof (only_blocks_of _ _ _ _ Ho Hq) as E. cbn [snd] in E. by rewrite <-E. }
  rewrite Hh, Hr. destruct (decide (b ∈ take _ fr1)) as [Hin|Hin].
  { by rewrite decide_True by done. }
  rewrite decide_False by naive_solver. destruct Hcase as [|Hcase]; [done|].
  by apply (mo_tail _ _ Hok Hc q i b).
Qed.

(** ** Putting the phases together *)

(** Blocks the call takes from the free queue. *)
Definition required_blocks (rid : string) (need local : Z) (fresh : bool) (ncs : list (list loc)) (c : Coordinator) : Z :=
  sumZ (imap (λ i m, new_blocks_needed rid need local fresh m (default [] (ncs !! i)) +
    hit_blocks_free local fresh (block_pool c) m (default [] (ncs !! i))) (single_type_managers c)).

Definition groups_ready (rid : string) (local : Z) (fresh : bool) (ncs : list (list loc)) (c : Coordinator) : Prop :=
  ∀ i m, single_type_managers c !! i = Some m →
    ∃ nc, ncs !! i = Some nc ∧ group_call_ok rid local fresh (block_pool c) m nc.

Lemma groups_ready_skip rid local fresh ncs c k c1 :
  groups_ready rid local fresh ncs c → skip_inv rid c k c1 → groups_ready rid local fresh ncs c1.
Proof.
  intros Hg [Hon _ _ Hh Hk] i m1 Hi. destruct (co_only_at _ _ _ _ _ Hon Hi) as (m & Hm & Ho).
  destruct (Hk i m Hm) as (m1' & Hi' & Hn & Hl & _). rewrite Hi in Hi'. injection Hi' as <-.
  destruct (Hg i m Hm) as (nc & Hnc & Hc). exists nc. split; [done|].
  pose proof (mf_bs _ _ (on_mgr _ _ _ Ho)) as Ebs. pose proof (mf_caching _ _ (on_mgr _ _ _ Ho)) as Eca.
  cbn [snd] in Ebs, Eca. destruct fresh; cbn [group_call_ok] in *.
  - destruct Hc as (Hb & Hnone & Hok & Hca & Hha & Hle). rewrite Hb in Hl. rewrite Ebs, Eca, Hn.
    split; [by apply nil_length_inv|]. split; [done|]. split; [|split; [done|split; [|done]]].
    + by rewrite (nblocks_frame _ _ (co_pool _ _ _ Hon)).
    + intros b. rewrite Hh. apply Hha.
  - by rewrite Ebs, Hl.
Qed.

Lemma co_get_num_exact rid need local fresh ncs enc main c fr :
  co_free_ok c fr → Forall (manager_ok (block_pool c)) (single_type_managers c) → 0 ≤ local →
  groups_ready rid local fresh ncs c →
  co_get_num_blocks_to_allocate rid need ncs enc local main c = (Ok (required_blocks rid need local fresh ncs c), c).
Proof.
  intros Hfr Hms Hl Hg. unfold co_get_num_blocks_to_allocate.
  unfold mbind at 1, M_bind at 1. rewrite (map_managers_pure _ (λ i m, new_blocks_needed rid need local fresh m (default [] (ncs !! i)) +
    hit_blocks_free local fresh (block_pool c) m (default [] (ncs !! i)))); [done|].
  intros i m Hm. destruct (Hg i m Hm) as (nc & Hnc & Hc). pose proof (proj2 Hfr i m Hm) as Hman.
  pose proof (mo_class _ _ (Forall_lookup_1 _ _ _ _ Hms Hm)) as Hcl.
  unfold gets, mbind, M_bind. cbn [snd].
  assert (is_cross m = false) as -> by (unfold is_cross; apply bool_decide_eq_false; intros E; by rewrite E in Hcl).
  unfold group_blocks. rewrite Hnc. cbn [lift_res default]. apply get_num_exact; [done|apply Hman|by apply Hman|done].
Qed.

(** After the hits, if any, are taken. *)
Record hits_taken (rid : string) (local : Z) (fresh : bool) (ncs : list (list loc)) (c1 : Coordinator) (fr1 : list loc)
    (c2 : Coordinator) (fr2 : list loc) : Prop := {
  ht_free : co_free_ok c2 fr2;
  ht_mgrs : Forall (manager_ok (block_pool c2)) (single_type_managers c2);
  ht_only : co_only rid c1 c2;
  ht_sub : ∀ b, b ∈ fr2 → b ∈ fr1;
  ht_length : Z.of_nat (length fr1) - sumZ (imap (λ i m, hit_blocks_free local fresh (block_pool c1) m
    (default [] (ncs !! i))) (single_type_managers c1)) ≤ Z.of_nat (length fr2);
  ht_blocks : ∀ j m, single_type_managers c1 !! j = Some m → ∃ m2, single_type_managers c2 !! j = Some m2 ∧
    blocks_of rid m2 = base_blocks rid local fresh m (default [] (ncs !! j))
}.

Lemma take_hits use_int rid local fresh ncs c1 fr1 :
  co_free_ok c1 fr1 → Forall (manager_ok (block_pool c1)) (single_type_managers c1) → 0 ≤ local →
  groups_ready rid local fresh ncs c1 →
  wp (if fresh then co_allocate_new_computed_blocks use_int rid ncs local 0 else mret tt)
    (λ _ c2, ∃ fr2, hits_taken rid local fresh ncs c1 fr1 c2 fr2) no_exn c1.
Proof.
  intros Hfr Hms Hl Hg. destruct fresh.
  - eapply wp_mono; [by apply (hits_spec use_int rid local Hl c1 fr1 Hfr Hms ncs)| |done].
    intros [] c2 Hi. pose proof (hit_inv_mgrs _ _ _ _ _ _ Hms Hi) as Hms2.
    destruct Hi as [Hon (fr2 & Hfr2 & Hsub & Hlen) _ _ _ Hd _]. exists fr2. split; try done.
    + by rewrite take_ge in Hlen by lia.
    + intros j m Hj. destruct (Hd j m (lookup_lt_Some _ _ _ Hj) Hj) as (m2 & ? & ? & _). by exists m2.
  - wp_step. exists fr1. split; try done.
    + enough (∀ l : list Manager, 0 ≤ sumZ (imap (λ i m, hit_blocks_free local false (block_pool c1) m
        (default [] (ncs !! i))) l)) as H by (specialize (H (single_type_managers c1)); lia).
      intros l. apply sumZ_nonneg, Forall_lookup. intros i x Hx. rewrite list_lookup_imap in Hx.
      by apply fmap_Some in Hx as (m & _ & ->).
    + intros j m Hj. by exists m.
Qed.

Lemma sumZ_imap_add {A} (h f g : nat → A → Z) l :
  (∀ i a, h i a = f i a + g i a) → sumZ (imap h l) = sumZ (imap f l) + sumZ (imap g l).
Proof.
  revert h f g. induction l as [|a l IH]; intros h f g Hh; [done|]. cbn [imap sumZ].
  rewrite Hh, (IH (h ∘ S) (f ∘ S) (g ∘ S)) by (intros; apply Hh). lia.
Qed.

Lemma sum_list_Z (l : list nat) : Z.of_nat (sum_list l) = sumZ (Z.of_nat <$> l).
Proof. induction l as [|a l IH]; cbn; [done|]. rewrite <-IH. lia. Qed.

(** The state after the new blocks are given out. *)
Record slots_granted (rid : string) (need local : Z) (fresh : bool) (ncs : list (list loc)) (c1 c' : Coordinator)
    (new_blocks : list (list loc)) : Prop := {
  sg_state : attn_ok c';
  sg_only : co_only rid c1 c';
  sg_length : length new_blocks = length (single_type_managers c1);
  sg_group : ∀ i m, single_type_managers c1 !! i = Some m → ∃ m' news,
    single_type_managers c' !! i = Some m' ∧ new_blocks !! i = Some news ∧
    blocks_of rid m' = base_blocks rid local fresh m (default [] (ncs !! i)) ++ news ∧
    Z.of_nat (length news) = new_blocks_needed rid need local fresh m (default [] (ncs !! i)) ∧
    ∀ b, b ∈ news → ¬ holds c1 b ∧ ref_of (block_pool c') b = 1
}.

Lemma hits_grown rid need local fresh ncs c1 fr1 c2 fr2 :
  hits_taken rid local fresh ncs c1 fr1 c2 fr2 → required_blocks rid need local fresh ncs c1 ≤ Z.of_nat (length fr1) →
  (∀ j m m2, single_type_managers c1 !! j = Some m → single_type_managers c2 !! j = Some m2 →
     Z.of_nat (grows rid need m2) = new_blocks_needed rid need local fresh m (default [] (ncs !! j))) ∧
  (grown rid need c2 (length (single_type_managers c2)) ≤ length fr2)%nat.
Proof.
  intros [_ _ Hon _ Hl Hb] Hreq.
  assert (∀ j m m2, single_type_managers c1 !! j = Some m → single_type_managers c2 !! j = Some m2 →
     Z.of_nat (grows rid need m2) = new_blocks_needed rid need local fresh m (default [] (ncs !! j))) as Hg.
  { intros j m m2 Hm Hm2. destruct (Hb j m Hm) as (m2' & Hm2' & Ebl). rewrite Hm2 in Hm2'. injection Hm2' as <-.
    destruct (co_only_at _ _ _ _ _ Hon Hm2) as (m' & Hm' & Ho). rewrite Hm in Hm'. injection Hm' as <-.
    pose proof (mf_bs _ _ (on_mgr _ _ _ Ho)) as Ebs. cbn [snd] in Ebs.
    unfold grows, new_blocks_needed. rewrite Ebl, Ebs. lia. }
  split; [done|]. unfold required_blocks in Hreq. erewrite (sumZ_imap_add _ (λ i m, new_blocks_needed rid need local fresh m (default [] (ncs !! i)))) in Hreq by done.
  enough (Z.of_nat (grown rid need c2 (length (single_type_managers c2))) =
    sumZ (imap (λ i m, new_blocks_needed rid need local fresh m (default [] (ncs !! i))) (single_type_managers c1))) by lia.
  unfold grown. rewrite take_ge by lia. rewrite sum_list_Z. f_equal. apply list_eq. intros j.
  rewrite list_lookup_imap, !list_lookup_fmap. pose proof (Forall2_length _ _ _ (co_mgrs _ _ _ Hon)) as El.
  destruct (single_type_managers c1 !! j) as [m|] eqn:Em.
  - destruct (Hb j m Em) as (m2 & Em2 & _). rewrite Em2. simpl. f_equal. by apply Hg.
  - apply lookup_ge_None in Em. rewrite (proj2 (lookup_ge_None _ _)) by lia. done.
Qed.

Lemma grant_hits use_int rid need local fresh ncs main enc c1 fr1 c2 fr2 :
  co_free_ok c1 fr1 → hits_taken rid local fresh ncs c1 fr1 c2 fr2 →
  required_blocks rid need local fresh ncs c1 ≤ Z.of_nat (length fr1) →
  wp (co_allocate_new_blocks use_int rid need main enc)
    (λ l c', slots_granted rid need local fresh ncs c1 c' l) no_exn c2.
Proof.
  intros Hfr1 Ht Hreq. destruct (hits_grown _ _ _ _ _ _ _ _ _ Ht Hreq) as [Hg Hle].
  destruct Ht as [Hfr Hms Hon Hsub _ Hb].
  eapply wp_mono; [apply (grants_spec use_int rid need main enc c2 fr2 Hfr)| |done]; [|done|].
  { intros i m Hm. by apply (Forall_lookup_1 _ _ _ _ Hms Hm). }
  intros l c' Hi. pose proof (grant_inv_mgrs _ _ _ _ _ _ Hfr Hms Hi) as Hms'.
  destruct Hi as [Hon' Hfr' Hlen Hd _ _ Hr].
  split; [by split; [eexists|]|by transitivity c2| |].
  { rewrite Hlen. symmetry. apply (Forall2_length _ _ _ (co_mgrs _ _ _ Hon)). }
  intros i m Hm. destruct (Hb i m Hm) as (m2 & Hm2 & Ebl). pose proof (lookup_lt_Some _ _ _ Hm2) as Hlt.
  destruct (Hd i m2 Hlt Hm2) as (Hl & m' & Hm' & Ebl' & _).
  exists m', (new_blocks_at rid need c2 fr2 i m2). split; [done|]. split; [done|]. split; [congruence|].
  split; [by rewrite (new_blocks_length _ _ _ _ Hle i m2 Hm2); apply (Hg i)|].
  intros b Hin. pose proof (new_blocks_sub _ _ _ _ _ _ _ Hm2 Hin) as Htk. rewrite Hr, decide_True by done.
  split; [|done]. intros Hh. apply elem_of_take in Htk as (x & Hx & _). apply list_elem_of_lookup_2, Hsub in Hx.
  pose proof (free_ref _ _ _ Hfr1 Hx) as H0. pose proof (holds_total c1 b Hh) as H1.
  assert (0 < b < nblocks (block_pool c1))%nat as Hbb.
  { apply (pw_free _ _ _ (proj1 Hfr1) b). by rewrite app_nil_r. }
  rewrite co_ok_ref in H0; [lia|by exists fr1| |done]. intros E. by rewrite E in Hm.
Qed.

Lemma slots_granted_cached sha256 r rid n need local fresh ncs c1 c2 fr l k r' c' :
  request_id r = rid → slots_granted rid need local fresh ncs c1 c2 l →
  cache_inv sha256 r n c2 fr k r' c' → slots_granted rid need local fresh ncs c1 c' l.
Proof.
  intros Hid [_ Hon Hlen Hg] [_ Hon' Hfr Hms Hr Hd]. rewrite Hid in Hon'.
  split; [by split; [eexists|]|by transitivity c2|done|].
  intros i m Hm. destruct (Hg i m Hm) as (m2 & news & Hm2 & Hl & Hb & Hn & Hx).
  destruct (Hd i m2 Hm2) as (m' & Hm' & Hb' & _). exists m', news. do 2 (split; [done|]).
  split; [congruence|]. split; [done|]. intros b Hin. rewrite Hr. auto.
Qed.

Lemma create_blocks_list s l : length l = num_kv_cache_groups s → kb_blocks (create_kv_cache_blocks l s) = l.
Proof.
  intros Hl. unfold create_kv_cache_blocks. destruct (existsb _ l) eqn:E; [done|]. cbn.
  apply replicate_as_elem_of. split; [done|]. intros x Hx. destruct (decide (x = [])) as [|Hne]; [done|].
  enough (existsb (λ g : list loc, negb (bool_decide (g = []))) l = true) by congruence.
  apply existsb_exists. exists x. split; [by apply list_elem_of_In|]. by rewrite bool_decide_eq_false_2.
Qed.

(** The calls of the scheduler: [local] tokens are computed already, counting a hit
    [ncb] of cached blocks when [fresh]; [new] tokens follow. *)
Record slots_call (sha256 : bytes → bytes) (s : KVCacheManager) (r : Request) (new local look : Z)
    (ncb : option KVCacheBlocks) (fresh : bool) : Prop := {
  sc_state : attn_ok (coordinator s);
  sc_groups : num_kv_cache_groups s = length (single_type_managers (coordinator s));
  sc_caching : kvm_enable_caching s = enable_caching (block_pool (coordinator s));
  sc_hbs : 0 < hash_block_size (block_pool (coordinator s));
  sc_new : 0 < new;
  sc_look : 0 ≤ look;
  sc_local : 0 ≤ local;
  sc_max : local + new ≤ kvm_max_model_len s;
  sc_fresh : kb_is_empty_singleton (computed_list ncb s) = negb fresh;
  sc_ready : groups_ready (request_id r) local fresh (kb_blocks (computed_list ncb s)) (coordinator s);
  sc_hashes : Z.min (local + new) (num_tokens r) / hash_block_size (block_pool (coordinator s)) ≤
    Z.of_nat (length (block_hashes r));
  sc_feats : feats_ok (mm_features r);
  sc_memo : BlockHash.cache_ok sha256 r
}.

Definition free_blocks_of (c : Coordinator) : Z := get_num_free_blocks (block_pool c).

(** Nothing but a lack of blocks refuses a request, and no accepted one raises. *)
Definition slots_result (sha256 : bytes → bytes) (r : Request) (local need : Z) (fresh : bool) (ncs : list (list loc)) (c1 : Coordinator)
    (s : KVCacheManager) (res : Request * option KVCacheBlocks) (s' : KVCacheManager) : Prop :=
  match res.2 with
  | None => free_blocks_of c1 < required_blocks (request_id r) need local fresh ncs c1 ∧
      res.1 = r ∧ s' = set_coordinator c1 s ∧ attn_ok c1
  | Some b => required_blocks (request_id r) need local fresh ncs c1 ≤ free_blocks_of c1 ∧
      memo_of r res.1 ∧ BlockHash.cache_ok sha256 res.1 ∧ s' = set_coordinator (coordinator s') s ∧
      slots_granted (request_id r) need local fresh ncs c1 (coordinator s') (kb_blocks b)
  end.

Lemma div_le_cdiv n need b : 0 < b → n ≤ need → n / b ≤ cdiv need b.
Proof.
  intros Hb Hle. pose proof (cdiv_spec need b Hb). pose proof (Z.mul_div_le n b Hb). nia.
Qed.

Lemma free_blocks_length c fr : co_free_ok c fr → free_blocks_of c = Z.of_nat (length fr).
Proof. intros [Hok _]. apply (rep_num _ _ (pw_rep _ _ _ Hok)). Qed.

(** Caching what is full at the end of [allocate_slots]. *)
Lemma cache_granted use_int sha256 r rid n need local fresh ncs c1 c2 l :
  request_id r = rid → slots_granted rid need local fresh ncs c1 c2 l →
  enable_caching (block_pool c2) = true → 0 < hash_block_size (block_pool c2) →
  0 ≤ n → n ≤ need → n / hash_block_size (block_pool c2) ≤ Z.of_nat (length (block_hashes r)) →
  feats_ok (mm_features r) → BlockHash.cache_ok sha256 r →
  wp (co_cache_blocks use_int sha256 r n)
    (λ r' c', memo_of r r' ∧ BlockHash.cache_ok sha256 r' ∧ slots_granted rid need local fresh ncs c1 c' l) no_exn c2.
Proof.
  intros <- Hsg Hc Hb Hn Hle Hh Hf Hm. pose proof Hsg as [[[fr Hfr] Hms] Hon _ Hg].
  eapply wp_mono; [apply (co_cache_blocks_exact use_int sha256 r n c2 fr Hfr Hms Hc Hb Hn Hh Hf Hm)| |done].
  - intros i m Hi. destruct (co_only_at _ _ _ _ _ Hon Hi) as (m1 & Hm1 & Ho).
    destruct (Hg i m1 Hm1) as (m' & news & Hm' & _ & Ebl & Hlen & _). rewrite Hi in Hm'. injection Hm' as <-.
    rewrite Ebl, length_app. pose proof (mf_bs _ _ (on_mgr _ _ _ Ho)) as Ebs. cbn [snd] in Ebs.
    pose proof (mg_bs _ _ _ (proj2 Hfr i m Hi)) as Hpos. cbn [snd] in Hpos.
    unfold new_blocks_needed in Hlen. rewrite Ebs in *.
    pose proof (div_le_cdiv n need (mgr_block_size m1) Hpos Hle). lia.
  - intros r' c' Hi. split; [apply Hi|]. split; [apply Hi|]. by eapply slots_granted_cached.
Qed.

Lemma skip_phase rid local fresh ncs c :
  attn_ok c → groups_ready rid local fresh ncs c →
  let c1 := (co_remove_skipped_blocks rid local c).2 in
  co_remove_skipped_blocks rid local c = (Ok tt, c1) ∧ attn_ok c1 ∧ co_only rid c c1 ∧ groups_ready rid local fresh ncs c1.
Proof.
  intros Hst Hready c1. pose proof (skips_spec rid local _ Hst) as Hskip.
  apply wp_no_exn_run in Hskip as ([] & c1' & Erun & Hskip).
  assert (c1 = c1') as Ec by (unfold c1; by rewrite Erun). clearbody c1. subst c1'. split; [done|].
  split; [split; apply Hskip|]. split; [apply Hskip|]. by eapply groups_ready_skip.
Qed.

Lemma hits_phase use_int rid local fresh ncs s c1 fr1 :
  co_free_ok c1 fr1 → Forall (manager_ok (block_pool c1)) (single_type_managers c1) → 0 ≤ local →
  groups_ready rid local fresh ncs c1 →
  wp (if fresh then zoom coL (co_allocate_new_computed_blocks use_int rid ncs local 0) else mret tt)
    (λ _ s', ∃ c2 fr2, s' = set_coordinator c2 s ∧ hits_taken rid local fresh ncs c1 fr1 c2 fr2) no_exn
    (set_coordinator c1 s).
Proof.
  intros Hfr Hms Hl Hg. pose proof (take_hits use_int _ local fresh ncs c1 fr1 Hfr Hms Hl Hg) as Hh. destruct fresh.
  - wp_step. cbn [lget lset coL coordinator set_coordinator]. eapply wp_mono; [exact Hh| |done].
    intros [] c2 [fr2 H2]. by exists c2, fr2.
  - wp_step. apply wp_no_exn_run in Hh as (a & c2 & [= <- <-] & fr2 & H2). by exists c1, fr2.
Qed.

Lemma allocate_slots_spec use_int sha256 s r new hit ncb look delay enc fresh :
  slots_call sha256 s r new (num_computed_tokens r + hit) look ncb fresh →
  let local := num_computed_tokens r + hit in
  let need := Z.min (local + new + look) (kvm_max_model_len s) in
  let c1 := (co_remove_skipped_blocks (request_id r) local (coordinator s)).2 in
  wp (allocate_slots use_int sha256 r new hit ncb look 0 delay enc)
    (slots_result sha256 r local need fresh (kb_blocks (computed_list ncb s)) c1 s) no_exn s.
Proof.
  intros [Hst Hgr Hca Hhbs Hnew Hlook Hlocal Hmax Hfresh Hready Hhash Hfe Hmemo] local need c1.
  fold local in Hlocal, Hmax, Hready, Hhash. set (ncs := kb_blocks (computed_list ncb s)) in *.
  unfold allocate_slots. rewrite (bool_decide_eq_false_2 (new = 0)) by lia. cbn [andb].
  wp_step. wp_step. wp_step. wp_step. cbv zeta.
  change (num_computed_tokens r + hit) with local. change (kb_blocks (computed_list ncb s)) with ncs.
  replace (local + 0) with local by lia. replace (Z.min local (kvm_max_model_len s)) with local by lia.
  change (Z.min (local + new + look) (kvm_max_model_len s)) with need.
  wp_step. wp_step. cbn [lget lset coL].
  destruct (skip_phase (request_id r) local fresh ncs _ Hst Hready) as (Erun & [[fr1 Hfr1] Hms1] & Hon1 & Hready1).
  fold c1 in Erun, Hfr1, Hms1, Hon1, Hready1. unfold wp at 1. rewrite Erun.
  wp_step. wp_step. cbn [lget lset coL coordinator set_coordinator].
  unfold wp at 1. rewrite (co_get_num_exact _ _ _ _ _ _ _ _ _ Hfr1 Hms1 Hlocal Hready1).
  wp_step. wp_step. cbn [coordinator set_coordinator].
  change (get_num_free_blocks (block_pool c1)) with (free_blocks_of c1).
  wp_step.
  { apply Z.ltb_lt in Hif. wp_step. do 3 (split; [done|]). by split; [exists fr1|]. }
  apply Z.ltb_ge in Hif. rewrite (free_blocks_length _ _ Hfr1) in Hif. wp_step.
  rewrite Hfresh. cbn [Z.ltb orb Z.compare]. rewrite orb_false_r, negb_involutive.
  eapply wp_mono; [exact (hits_phase use_int _ local fresh ncs s c1 fr1 Hfr1 Hms1 Hlocal Hready1)| |done].
  intros [] s2 (c2 & fr2 & -> & Hhits). wp_step. wp_step. cbn [lget lset coL coordinator set_coordinator].
  eapply wp_mono; [by eapply (grant_hits use_int)| |done]. intros l c3 Hsg.
  assert (length l = num_kv_cache_groups (set_coordinator c3 (set_coordinator c2 s))) as Hl.
  { cbn. rewrite Hgr, (sg_length _ _ _ _ _ _ _ _ Hsg). symmetry. apply (Forall2_length _ _ _ (co_mgrs _ _ _ Hon1)). }
  assert (co_only (request_id r) (coordinator s) c3) as Hon3 by (transitivity c1; [done|apply Hsg]).
  wp_step. wp_step. cbn [kvm_enable_caching set_coordinator]. wp_step.
  { wp_step. wp_step. wp_step. split; [by rewrite (free_blocks_length _ _ Hfr1)|]. split; [apply memo_refl|]. do 2 (split; [done|]).
    cbn [snd fst]. by rewrite create_blocks_list. }
  apply orb_false_iff in Hif0 as [Hcach _]. apply negb_false_iff in Hcach.
  wp_step. wp_step. cbn [lget lset coL coordinator set_coordinator].
  pose proof (co_pool _ _ _ Hon3) as Hpf.
  eapply wp_mono; [eapply (cache_granted use_int sha256); [done|exact Hsg|..]| |done].
  - by rewrite (pf_caching _ _ Hpf), <-Hca.
  - by rewrite (pf_hbs _ _ Hpf).
  - unfold num_tokens. lia.
  - lia.
  - by rewrite (pf_hbs _ _ Hpf).
  - done.
  - done.
  - intros r' c' (Hmem & Hok' & Hsg'). wp_step. wp_step. wp_step. split; [by rewrite (free_blocks_length _ _ Hfr1)|].
    do 3 (split; [done|]). cbn [snd]. by rewrite create_blocks_list.
Qed.

(** C6: for attention layers and tokens the engine computes itself,
    [allocate_slots] never raises. It refuses a request exactly when, after the
    blocks that slid out of the window are given back, fewer blocks are free than
    all groups together still need; refusing takes nothing. Otherwise every group
    has the blocks it had, or those of the hit, followed by as many new ones as the
    tokens need; nobody held the new blocks before, and nobody else does now. *)
Theorem allocate_slots_correct use_int sha256 s r new hit ncb look delay enc fresh :
  slots_call sha256 s r new (num_computed_tokens r + hit) look ncb fresh →
  let local := num_computed_tokens r + hit in
  let need := Z.min (local + new + look) (kvm_max_model_len s) in
  let c1 := (co_remove_skipped_blocks (request_id r) local (coordinator s)).2 in
  wp (allocate_slots use_int sha256 r new hit ncb look 0 delay enc)
    (slots_result sha256 r local need fresh (kb_blocks (computed_list ncb s)) c1 s) no_exn s.
Proof. exact (allocate_slots_spec use_int sha256 s r new hit ncb look delay enc fresh). Qed.

(** ** A concrete call *)

Lemma manager_ok_fresh p l m :
  fresh_manager p l m → attention_class (mgr_class m) = true → mgr_enable_caching m = enable_caching p →
  mgr_block_size m = hash_block_size p → 0 ≤ kv_cache_group_id m < 2 ^ 32 → manager_ok p m.
Proof.
  intros (_ & _ & _ & _ & _ & Hb & Hn & _) ? ? ? ?. split; try done; [intros rid c; by rewrite Hn|].
  intros _ rid j b _ Hj. unfold blocks_of in Hj. by rewrite Hb in Hj.
Qed.

Lemma kvm_new_call : slots_call (λ b, b) kvm_new hashed_request 3 0 0 None false.
Proof.
  destruct (coordinator_init_ok two_group_config [full2; window2] false true false 1 1 2 (coordinator kvm_new))
    as (Hco & _ & _ & Hfresh); [done|exact two_specs_sane|done|vm_compute; reflexivity|].
  split; try done.
  - split; [exact Hco|]. apply Forall_lookup. intros i m Hm.
    destruct (Forall2_lookup_r _ _ _ _ _ Hfresh Hm) as (l & _ & Hf).
    assert (i < 2)%nat as Hi by exact (lookup_lt_Some _ _ _ Hm).
    apply (manager_ok_fresh _ l m Hf); do 2 (destruct i as [|i]; [vm_compute in Hm; injection Hm as <-; vm_compute; try done|]); try lia.
  - intros i m Hm. exists []. assert (i < 2)%nat as Hi by exact (lookup_lt_Some _ _ _ Hm).
    do 2 (destruct i as [|i]; [vm_compute in Hm; injection Hm as <-; vm_compute; done|]). lia.
Qed.

Lemma allocate_slots_correct_witness :
  wp (allocate_slots false (λ b, b) hashed_request 3 0 None 0 0 false 0)
    (slots_result (λ b, b) hashed_request 0 3 false [[]; []] (co_remove_skipped_blocks "r" 0 (coordinator kvm_new)).2 kvm_new)
    no_exn kvm_new.
Proof.
  exact (allocate_slots_correct false (λ b, b) kvm_new hashed_request 3 0 None 0 false 0 false kvm_new_call).
Defined.

(** Eight blocks, one of them null: the second long request is refused. *)
Example second_request_refused :
  let s := kvm_slots.2 in
  ∃ r s', allocate_slots false (λ b, b) hashed_request 20 0 None 0 0 false 0 s = (Ok (r, None), s').
Proof. vm_compute. by do 2 eexists. Qed.
