(* ===== verification/KVService.v ===== *)
(** * What the scheduler relies on

    The calls the scheduler makes on the KV cache manager, for attention layers: a
    request that runs holds blocks for all its computed tokens in every group, a
    waiting one holds none; allocating, freeing and looking up cached blocks keep
    this, do not raise, and leave the other requests alone. *)

From stdpp Require Import base list gmap strings.
From Stdlib Require Import ZArith Lia.
From S2P Require Import Prelude FreeQueue Request BlockHash BlockPool KVCacheSpec KVCacheConfig CacheManagers CacheHit Coordinator.
From S2P Require Import ManagerSpecs KVCacheManager CacheInvariant Admission.
Local Open Scope Z_scope.

(** ** Cached blocks of a prefix *)

(** The fixed part of a coordinator that finds cached blocks for attention layers
    with the block size of the hashes: one group, or several of which at most the
    first is full attention. *)
Definition find_ok (c : Coordinator) : Prop :=
  match co_kind c with
  | KVCacheCoordinatorNoPrefixCache => True
  | UnitaryKVCacheCoordinator =>
      ∃ spec m, co_groups c = [spec] ∧ single_type_managers c = [m] ∧ spec_manager_map spec = Ok (mgr_class m) ∧
        co_use_eagle c = false ∧ co_block_size c = mgr_block_size m ∧ layer_block_size spec = mgr_block_size m ∧
        co_dcp c = 1 ∧ co_pcp c = 1 ∧
        match spec with
        | ChunkedLocalAttentionSpec a chunk => ∃ k, 0 < k ∧ chunk = k * a_block_size a
        | CrossAttentionSpec _ | EncoderOnlyAttentionSpec _ => False
        | _ => True
        end
  | HybridKVCacheCoordinator =>
      hybrid_ok c ∧ attention_groups c ≠ [] ∧ length (co_groups c) = length (single_type_managers c) ∧
      (∀ g, g ∈ attention_groups c → is_full g.1.1 = true → head (attention_groups c) = Some g) ∧
      ∀ i m, single_type_managers c !! i = Some m → ∃ g, g ∈ attention_groups c ∧ Z.of_nat i ∈ g.1.2 ∧
        layer_block_size g.1.1 = mgr_block_size m ∧ co_hash_block_size c = mgr_block_size m
  end.

(** The hit of a group: distinct cached blocks for the first [n] tokens. *)
Definition group_hit_ok (p : BlockPool) (m : Manager) (n : Z) (nc : list loc) : Prop :=
  blocks_ok (nblocks p) nc ∧ (∀ b, b ∈ nc → b ≠ 0%nat → is_Some (hash_of p b)) ∧
  Z.of_nat (length nc) * mgr_block_size m = n.

(** Blocks cached for different hashes are different blocks. *)
Lemma cached_list_ok p hashes gid nc :
  NoDup hashes → (0 < nblocks p)%nat →
  (∀ i b, nc !! i = Some b → (∃ h, hashes !! i = Some h ∧ cached_as p h gid b) ∨ b = 0%nat) →
  blocks_ok (nblocks p) nc ∧ ∀ b, b ∈ nc → b ≠ 0%nat → is_Some (hash_of p b).
Proof.
  intros Hnd Hpos Hnc. split; [split|].
  - apply Forall_lookup. intros i b Hb. destruct (Hnc i b Hb) as [(h & _ & Hlt & _)| ->]; done.
  - assert (∀ k, NoDup (filter (λ b, b ≠ 0%nat) (drop k nc))) as H; [|by apply (H 0%nat)].
    intros k. remember (length nc - k)%nat as d eqn:Hd. revert k Hd. induction d as [|d IH]; intros k Hd.
    { rewrite drop_ge by lia. apply NoDup_nil_2. }
    destruct (lookup_lt_is_Some_2 nc k) as [b Hb]; [lia|]. rewrite (drop_S nc b k Hb), filter_cons.
    specialize (IH (S k) ltac:(lia)). destruct (decide (b ≠ 0%nat)) as [H0|]; [|done]. apply NoDup_cons. split; [|done].
    intros [_ [j Hj]%list_elem_of_lookup]%list_elem_of_filter. rewrite lookup_drop in Hj.
    destruct (Hnc _ _ Hb) as [(h & Hh & _ & E)|]; [|done]. destruct (Hnc _ _ Hj) as [(h' & Hh' & _ & E')|]; [|done].
    rewrite E in E'. injection E' as E'. apply app_inv_tail in E'. subst h'.
    pose proof (NoDup_lookup _ _ _ _ Hnd Hh Hh'). lia.
  - intros b [i Hi]%list_elem_of_lookup H0. destruct (Hnc i b Hi) as [(h & _ & _ & E)|]; [by rewrite E|done].
Qed.

Lemma hv_list_get hashes i h : hv_get (HVList hashes) (Z.of_nat i) = Ok h → hashes !! i = Some h.
Proof.
  unfold hv_get, py_get, py_index. rewrite (bool_decide_eq_false_2 (Z.of_nat i < 0)) by lia.
  rewrite bool_decide_eq_false_2 by lia. rewrite Nat2Z.id. by destruct (hashes !! i); [intros [= ->]|].
Qed.

Section find.
Context (c : Coordinator) (Hc : attn_ok c) (Hfind : find_ok c).
Context (hashes : list BlockHash) (Hnd : NoDup hashes) (max_length : Z) (Hmax : 0 ≤ max_length).
Context (Hlen : ∀ i m, single_type_managers c !! i = Some m → max_length / mgr_block_size m ≤ Z.of_nat (length hashes)).

Definition hits_found (found : res (list (list loc) * Z)) : Prop :=
  ∃ bl n, found = Ok (bl, n) ∧ 0 ≤ n ≤ max_length ∧
    (co_kind c ≠ KVCacheCoordinatorNoPrefixCache → ∀ i m, single_type_managers c !! i = Some m →
       ∃ nc, bl !! i = Some nc ∧ group_hit_ok (block_pool c) m n nc) ∧
    (co_kind c = KVCacheCoordinatorNoPrefixCache → n = 0 ∧ ∀ nc, nc ∈ bl → nc = []).

Lemma pool_positive : (0 < nblocks (block_pool c))%nat.
Proof. destruct Hc as [(fr & Hok & _) _]. pose proof (pw_pos _ _ _ Hok). unfold nblocks. lia. Qed.

Lemma mgr_positive i m : single_type_managers c !! i = Some m → 0 < mgr_block_size m.
Proof. destruct Hc as [(fr & _ & Hms) _]. intros Hi. apply (Hms i m Hi). Qed.

Lemma unitary_found :
  co_kind c = UnitaryKVCacheCoordinator → hits_found (unitary_find c hashes max_length).
Proof.
  intros Hk. unfold find_ok in Hfind. rewrite Hk in Hfind.
  destruct Hfind as (spec & m & Eg & Em & Hsp & He & Ebs & Elb & Ed & Ep & Hchunk).
  pose proof (mgr_positive 0 m ltac:(by rewrite Em)) as Hpos.
  pose proof (Hlen 0 m ltac:(by rewrite Em)) as Hh.
  destruct Hc as [(fr & Hok & _) _]. pose proof (pw_null _ _ _ Hok) as Hnull.
  assert (hit_pre (block_pool c) (HVList hashes) [0] spec (co_block_size c) max_length) as Hpre.
  { split; try lia; [by exists fr|split; [done|by apply Forall_singleton]| |].
    - rewrite Elb. split; [done|]. intros i Hi. destruct (lookup_lt_is_Some_2 hashes i) as [h Hh']; [lia|].
      exists h. by apply py_get_nat.
    - destruct spec; try done. split; [|done]. rewrite Ebs, <-Elb. done. }
  destruct (find_longest_cache_hit_ok _ _ _ _ _ _ Hpre (mgr_class m) Hsp) as (n & computed & E & [Hlong Hgr Hbl]).
  unfold unitary_find. rewrite Em, Eg. cbn [mbind res_bind]. rewrite Ed, Ep, He, E. cbn [mbind res_bind].
  destruct computed as [|nc [|]]; try done. cbn [first_group mbind res_bind].
  destruct (Hbl 0%nat 0 nc eq_refl eq_refl) as [Hn Hb]. exists [nc], (Z.of_nat (length nc) * co_block_size c).
  split; [done|]. destruct Hlong as (HN & _). rewrite Elb in HN.
  assert (Z.of_nat n * mgr_block_size m ≤ max_length) as Hle.
  { pose proof (Z.mul_div_le max_length (mgr_block_size m) Hpos).
    assert (0 ≤ max_length / mgr_block_size m) by (by apply Z.div_pos). nia. }
  rewrite Ebs, Hn. split; [nia|]. split; [|by rewrite Hk].
  intros _ i m' Hi. rewrite Em in Hi. apply list_lookup_singleton_Some in Hi as [-> <-]. exists nc. split; [done|].
  unfold group_hit_ok. rewrite Hn. destruct (cached_list_ok (block_pool c) hashes 0 nc Hnd pool_positive) as [? ?].
  { intros i b Hi. destruct (Hb i b Hi) as [(h & Hh' & ?)|[-> _]]; [left; exists h; split; [by apply hv_list_get|done]|by right]. }
  by split_and!.
Qed.

Lemma hybrid_found :
  co_kind c = HybridKVCacheCoordinator → single_type_managers c ≠ [] → hits_found (hybrid_find c hashes max_length).
Proof.
  intros Hk Hne. unfold find_ok in Hfind. rewrite Hk in Hfind.
  destruct Hfind as (Hho & Hga & Elen & Hfull & Hcover). destruct Hc as [(fr & Hok & _) _].
  pose proof (pw_null _ _ _ Hok) as Hnull.
  assert (max_length / co_hash_block_size c ≤ Z.of_nat (length hashes)) as Hh.
  { destruct (single_type_managers c) as [|m0 ms] eqn:Em; [done|]. destruct (Hcover 0%nat m0 eq_refl) as (_ & _ & _ & _ & ->).
    by apply (Hlen 0%nat). }
  destruct (hybrid_find_spec c hashes max_length Hho Hga Hmax Hh) as (bl & L & -> & [HL0 [Hd _]] & Hle & _ & Hbl).
  exists bl, L. split; [done|]. split; [done|]. split; [|by rewrite Hk].
  intros _ i m Hi. destruct (Hcover i m Hi) as (g & Hg & Hgid & Ebs & Ehb).
  destruct (Hbl g (Z.of_nat i) Hg Hgid) as (nc & Hnc & _ & Hn & He). rewrite Nat2Z.id in Hnc. exists nc. split; [done|].
  assert (length nc = Z.to_nat (L / layer_block_size g.1.1)) as Elen'.
  { apply Hn. destruct (is_full g.1.1) eqn:Ef; [right; by apply Hfull|by left]. }
  destruct (go_size _ _ (ho_groups _ Hho g Hg)) as (Hbs & Hdb & _).
  assert (layer_block_size g.1.1 | L) as [q Hq] by (by transitivity (lcm_block_size c)).
  assert (L / layer_block_size g.1.1 = q) as Eq by (rewrite Hq; by apply Z.div_mul; lia). assert (0 ≤ q) by nia.
  unfold group_hit_ok. rewrite Elen', Eq, Z2Nat.id, <-Ebs by done.
  destruct (cached_list_ok (block_pool c) hashes (Z.of_nat i) nc Hnd pool_positive) as [? ?]; [|by split_and!].
  intros j b Hj. assert (j < length nc)%nat as Hlt by (by eapply lookup_lt_Some).
  destruct (He j b ltac:(lia) Hj) as [(h & Hh' & ?)|[-> _]]; [left|by right]. exists h. split; [|done].
  unfold view, _get_block_hashes in Hh'. rewrite bool_decide_eq_true_2 in Hh' by congruence. by apply hv_list_get.
Qed.

Lemma co_find_ok : single_type_managers c ≠ [] → hits_found (co_find_longest_cache_hit c hashes max_length).
Proof.
  intros Hne. unfold co_find_longest_cache_hit. destruct (co_kind c) eqn:Ek.
  - eexists _, 0. split; [done|]. split; [lia|]. split; [done|]. intros _. split; [done|].
    by intros nc (m & -> & _)%list_elem_of_fmap.
  - by apply unitary_found.
  - by apply hybrid_found.
Qed.
End find.

Lemma co_only_to rid c c' j m :
  co_only rid c c' → single_type_managers c !! j = Some m →
  ∃ m', single_type_managers c' !! j = Some m' ∧ only rid (block_pool c, m) (block_pool c', m').
Proof.
  intros [_ Hp Hm] Hj. destruct (Forall2_lookup_l _ _ _ _ _ Hm Hj) as (m' & ? & Ho). exists m'. split; [done|].
  by destruct Ho; split.
Qed.

Lemma find_ok_only rid c c' : co_only rid c c' → co_ok c' → find_ok c → find_ok c'.
Proof.
  intros Hon (fr & Hok & _). pose proof Hon as [(p & ms & ->) _ Hms]. unfold find_ok. cbn [co_kind set_co].
  destruct (co_kind c); [done| |].
  - intros (spec & m & Eg & Em & Hsp & He & Ebs & Elb & Hrest). cbn [single_type_managers set_co] in *.
    rewrite Em in Hms. inversion Hms as [|? m' ? l [_ [Fc _ Fb _ _ _] _ _] Hl]; subst. inversion Hl; subst. cbn [snd] in *.
    exists spec, m'. cbn. rewrite Fc, Fb. do 6 (split; [done|]). exact Hrest.
  - intros ([Hp He Hsz Hg Hdis] & Hne & Hlen & Hfull & Hcover). cbn [attention_groups co_groups single_type_managers set_co] in *.
    split; [split; try done; [by exists fr|intros g Hin; by destruct (Hg g Hin); split]|].
    split; [done|]. split; [by rewrite Hlen; apply Forall2_length in Hms|]. split; [done|].
    intros i m' Hi. destruct (co_only_at _ _ _ _ _ Hon Hi) as (m & Hm & Ho). destruct (Hcover i m Hm) as (g & Hin & Hgid & E1 & E2).
    pose proof (mf_bs _ _ (on_mgr _ _ _ Ho)) as Ebs. cbn [snd] in Ebs. exists g. rewrite Ebs. by split_and!.
Qed.

(** ** The state of the manager, and of one request in it *)

Record kv_ok (mml : Z) (s : KVCacheManager) : Prop := {
  ko_state : attn_ok (coordinator s);
  ko_managers : single_type_managers (coordinator s) ≠ [];
  ko_groups : num_kv_cache_groups s = length (single_type_managers (coordinator s));
  ko_caching : kvm_enable_caching s = enable_caching (block_pool (coordinator s));
  ko_kind : kvm_enable_caching s = true → co_kind (coordinator s) ≠ KVCacheCoordinatorNoPrefixCache;
  ko_hbs : 0 < hash_block_size (block_pool (coordinator s));
  ko_mml : kvm_max_model_len s = mml;
  ko_stats : log_stats s = true → is_Some (prefix_cache_stats s);
  ko_find : find_ok (coordinator s)
}.

(** Blocks for [n] tokens in every group; no blocks in any. *)
Definition kv_held (s : KVCacheManager) (rid : string) (n : Z) : Prop :=
  ∀ i m, single_type_managers (coordinator s) !! i = Some m →
    n ≤ Z.of_nat (length (blocks_of rid m)) * mgr_block_size m.
Definition kv_absent (s : KVCacheManager) (rid : string) : Prop :=
  ∀ i m, single_type_managers (coordinator s) !! i = Some m →
    blocks_of rid m = [] ∧ num_cached_block m !! rid = None.

(** The block hashes of a request, one per full block. *)
Record hashes_ok (sha256 : bytes → bytes) (bs : Z) (r : Request) : Prop := {
  ho_len : num_tokens r / bs ≤ Z.of_nat (length (block_hashes r));
  ho_distinct : NoDup (block_hashes r);
  ho_feats : feats_ok (mm_features r);
  ho_memo : BlockHash.cache_ok sha256 r
}.

(** A change made for request [rid]. *)
Record kv_step (mml : Z) (rid : string) (s s' : KVCacheManager) : Prop := {
  ks_ok : kv_ok mml s';
  ks_only : co_only rid (coordinator s) (coordinator s')
}.

Lemma kv_step_intro mml rid s c' :
  kv_ok mml s → attn_ok c' → co_only rid (coordinator s) c' → kv_step mml rid s (set_coordinator c' s).
Proof.
  intros [Hst Hne Hgr Hca Hk Hh Hm Hs Hf] Hc Hon. split; [|exact Hon]. pose proof (co_pool _ _ _ Hon) as Hpf.
  pose proof (Forall2_length _ _ _ (co_mgrs _ _ _ Hon)) as El.
  split; cbn [coordinator set_coordinator num_kv_cache_groups kvm_enable_caching kvm_max_model_len log_stats prefix_cache_stats]; try done.
  - intros E. rewrite E in El. by apply nil_length_inv in El.
  - by rewrite Hgr.
  - by rewrite (pf_caching _ _ Hpf).
  - intros E. destruct Hon as [(p & ms & ->) _ _]. by apply Hk.
  - by rewrite (pf_hbs _ _ Hpf).
  - by apply (find_ok_only rid (coordinator s)); [|apply Hc|].
Qed.

Lemma kv_step_other mml rid q s s' :
  kv_step mml rid s s' → q ≠ rid →
  (∀ n, kv_held s q n → kv_held s' q n) ∧ (kv_absent s q → kv_absent s' q).
Proof.
  intros [_ Hon] Hq. split; [intros n H i m' Hi|intros H i m' Hi]; destruct (co_only_at _ _ _ _ _ Hon Hi) as (m & Hm & Ho);
    specialize (H i m Hm); pose proof (only_blocks_of _ _ _ _ Ho Hq) as E; cbn [snd] in E; rewrite E.
  - pose proof (mf_bs _ _ (on_mgr _ _ _ Ho)) as Ebs. cbn [snd] in Ebs. by rewrite Ebs.
  - pose proof (on_cached _ _ _ Ho q Hq) as Ec. cbn [snd] in Ec. by rewrite Ec.
Qed.

(** ** The calls *)

Definition ready (s : KVCacheManager) (rid : string) (b : KVCacheBlocks) (n : Z) : Prop :=
  if kb_is_empty_singleton b then n = 0 ∧ kb_blocks b = replicate (num_kv_cache_groups s) []
  else groups_ready rid n true (kb_blocks b) (coordinator s).

Lemma ready_empty s rid : ready s rid (empty_kv_cache_blocks s) 0.
Proof. by split. Qed.

(** Only the statistics change. *)
Definition same_cache (s s' : KVCacheManager) : Prop := ∃ st, s' = set_stats st s ∧ (log_stats s = true → is_Some st).

Lemma same_cache_ok mml s s' : kv_ok mml s → same_cache s s' → kv_ok mml s'.
Proof. intros [] (st & -> & Hst). by split. Qed.

Lemma kv_get_computed_spec mml sha256 s r :
  kv_ok mml s → hashes_ok sha256 (hash_block_size (block_pool (coordinator s))) r → 0 < num_tokens r →
  kv_absent s (request_id r) →
  wp (get_computed_blocks r) (λ '(b, n) s', (same_cache s s' ∨ s' = s) ∧ 0 ≤ n < num_tokens r ∧ ready s (request_id r) b n)
    no_exn s.
Proof.
  intros Hs [Hlen Hd Hf Hm] Ht Habs. unfold get_computed_blocks. wp_step. wp_step.
  wp_step. { wp_step. wp_step. wp_step. split; [by right|]. split; [lia|apply ready_empty]. }
  apply orb_false_iff in Hif as [Hca%negb_false_iff _].
  pose proof Hs as [Hst Hne Hgr Hc Hk Hh Hml Hss Hfind]. pose proof Hst as [[fr Hfr] Hms].
  destruct (co_find_ok (coordinator s) Hst Hfind (block_hashes r) Hd (num_tokens r - 1) ltac:(lia)) as (bl & n & E & Hn & Hbl & _); [|done|].
  { intros i m Hi. rewrite (mo_size _ _ (Forall_lookup_1 _ _ _ _ Hms Hi)) by congruence.
    etransitivity; [|exact Hlen]. apply Z.div_le_mono; lia. }
  cbv zeta. wp_step. wp_step. rewrite E. wp_step. apply wp_lift_res; [|done]. intros ? [= <-]. wp_step. wp_step.
  specialize (Hbl (Hk Hca)).
  assert (ready s (request_id r) (create_kv_cache_blocks bl s) n) as Hready.
  { unfold create_kv_cache_blocks, ready. destruct (existsb _ bl) eqn:Ex; cbn [kb_is_empty_singleton kb_blocks].
    - intros i m Hi. destruct (Hbl i m Hi) as (nc & Hnc & Hok & Hha & Hl). exists nc. split; [done|].
      destruct (Habs i m Hi) as [Hb Hno]. split_and!; try done; [|lia].
      rewrite (mo_caching _ _ (Forall_lookup_1 _ _ _ _ Hms Hi)). congruence.
    - cbn. split; [|done]. destruct (single_type_managers (coordinator s)) as [|m ms] eqn:Em; [done|].
      destruct (Hbl 0%nat m eq_refl) as (nc & Hnc & _ & _ & Hl). destruct nc as [|b nc]; [simpl in Hl; lia|]. exfalso.
      enough (existsb (λ g : list loc, negb (bool_decide (g = []))) bl = true) by congruence.
      apply existsb_exists. exists (b :: nc). split; [by apply list_elem_of_In, (list_elem_of_lookup_2 _ 0)|done]. }
  wp_step. apply (wp_mono _ (λ _ s', same_cache s s' ∨ s' = s) _ no_exn); [| |done].
  - wp_step; [|wp_step; by right]. wp_step. wp_step. wp_step. destruct (Hss Hif) as [st Est].
    apply (wp_lift_some _ _ st); [done|]. wp_step. left. by eexists.
  - intros [] s' Hs'. wp_step. wp_step. wp_step. split; [done|]. split; [lia|].
    replace (create_kv_cache_blocks bl s') with (create_kv_cache_blocks bl s); [done|].
    destruct Hs' as [(st & -> & _)| ->]; done.
Qed.

Lemma skip_kept rid t c c1 :
  attn_ok c → co_remove_skipped_blocks rid t c = (Ok tt, c1) →
  co_only rid c c1 ∧ ∀ j m, single_type_managers c !! j = Some m → ∃ m', single_type_managers c1 !! j = Some m' ∧
    num_cached_block m' = num_cached_block m ∧ length (blocks_of rid m') = length (blocks_of rid m).
Proof.
  intros Hst E. pose proof (skips_spec rid t c Hst) as H. unfold wp in H. rewrite E in H. destruct H as [Hon _ _ _ Hk].
  split; [done|]. intros j m Hj. destruct (Hk j m Hj) as (m' & ? & ? & ? & _). by exists m'.
Qed.

Lemma held_kept rid n s c1 :
  kv_held s rid n → co_only rid (coordinator s) c1 →
  (∀ j m, single_type_managers (coordinator s) !! j = Some m → ∃ m', single_type_managers c1 !! j = Some m' ∧
    num_cached_block m' = num_cached_block m ∧ length (blocks_of rid m') = length (blocks_of rid m)) →
  kv_held (set_coordinator c1 s) rid n.
Proof.
  intros Hh Hon Hk i m' Hi. cbn in Hi. destruct (co_only_at _ _ _ _ _ Hon Hi) as (m & Hm & Ho).
  destruct (Hk i m Hm) as (m'' & Hi' & _ & El). rewrite Hi in Hi'. injection Hi' as <-. rewrite El.
  pose proof (mf_bs _ _ (on_mgr _ _ _ Ho)) as Ebs. cbn [snd] in Ebs. rewrite Ebs. by apply (Hh i m).
Qed.

Lemma absent_kept rid s c1 :
  kv_absent s rid → co_only rid (coordinator s) c1 →
  (∀ j m, single_type_managers (coordinator s) !! j = Some m → ∃ m', single_type_managers c1 !! j = Some m' ∧
    num_cached_block m' = num_cached_block m ∧ length (blocks_of rid m') = length (blocks_of rid m)) →
  kv_absent (set_coordinator c1 s) rid.
Proof.
  intros Hh Hon Hk i m' Hi. cbn in Hi. destruct (co_only_at _ _ _ _ _ Hon Hi) as (m & Hm & Ho).
  destruct (Hk i m Hm) as (m'' & Hi' & En & El). rewrite Hi in Hi'. injection Hi' as <-.
  destruct (Hh i m Hm) as [Hb Hno]. rewrite Hb in El. split; [by apply nil_length_inv|by rewrite En].
Qed.

(** What [allocate_slots] does for a request whose blocks, own or cached, are as they
    should be. *)
Lemma kv_slots_spec use_int mml sha256 s r new hit ncb look delay enc fresh :
  kv_ok mml s → hashes_ok sha256 (hash_block_size (block_pool (coordinator s))) r →
  0 < new → 0 ≤ look → 0 ≤ num_computed_tokens r + hit → num_computed_tokens r + hit + new ≤ mml →
  kb_is_empty_singleton (computed_list ncb s) = negb fresh →
  groups_ready (request_id r) (num_computed_tokens r + hit) fresh (kb_blocks (computed_list ncb s)) (coordinator s) →
  wp (allocate_slots use_int sha256 r new hit ncb look 0 delay enc)
    (λ '(r', res) s', memo_of r r' ∧ BlockHash.cache_ok sha256 r' ∧ kv_step mml (request_id r) s s' ∧
       match res with
       | None => (∀ n, kv_held s (request_id r) n → kv_held s' (request_id r) n) ∧
           (kv_absent s (request_id r) → kv_absent s' (request_id r))
       | Some _ => kv_held s' (request_id r) (num_computed_tokens r + hit + new)
       end) no_exn s.
Proof.
  intros Hs Hha Hnew Hlook Hlocal Hmml Hfresh Hready. set (local := num_computed_tokens r + hit) in *.
  pose proof Hs as [Hst Hne Hgr Hc Hk Hh Hml Hss Hfind]. pose proof Hha as [Hlen Hd Hf Hm].
  assert (slots_call sha256 s r new local look ncb fresh) as Hcall.
  { split; try done; [lia|]. etransitivity; [|exact Hlen]. apply Z.div_le_mono; lia. }
  destruct (skip_phase (request_id r) local fresh _ _ Hst Hready) as (Erun & Hst1 & Hon1 & _).
  destruct (skip_kept _ _ _ _ Hst Erun) as [_ Hkept].
  eapply wp_mono; [exact (allocate_slots_spec use_int sha256 s r new hit ncb look delay enc fresh Hcall)| |done].
  intros [r' [b|]] s' Hres; unfold slots_result in Hres; cbn [fst snd] in Hres; fold local in Hres.
  - destruct Hres as (_ & Hmem & Hok' & Es' & [Hst' Hon' _ Hg]). split; [done|]. split; [done|]. split.
    { rewrite Es'. apply kv_step_intro; [done|done|]. by etransitivity. }
    intros i m' Hi. destruct (co_only_at _ _ _ _ _ Hon' Hi) as (m & Hm1 & Ho).
    destruct (Hg i m Hm1) as (m'' & news & Hi' & _ & Ebl & Hlnews & _). rewrite Hi in Hi'. injection Hi' as <-.
    rewrite Ebl, length_app. pose proof (mf_bs _ _ (on_mgr _ _ _ Ho)) as Ebs. cbn [snd] in Ebs. rewrite Ebs.
    destruct Hst1 as [[fr1 Hfr1] _]. pose proof (mg_bs _ _ _ (proj2 Hfr1 i m Hm1)) as Hpos. cbn [snd] in Hpos.
    unfold new_blocks_needed in Hlnews. rewrite Hml in Hlnews.
    pose proof (cdiv_spec (Z.min (local + new + look) mml) (mgr_block_size m) Hpos) as [Hdiv _]. nia.
  - destruct Hres as (_ & -> & -> & _). split; [apply memo_refl|]. split; [done|].
    split; [by apply kv_step_intro|]. split; [intros n Hn; by apply held_kept|intros Habs; by apply absent_kept].
Qed.


Lemma ready_groups s rid b n :
  num_kv_cache_groups s = length (single_type_managers (coordinator s)) → ready s rid b n → 
  (kb_is_empty_singleton b = true → kv_held s rid 0) →
  groups_ready rid n (negb (kb_is_empty_singleton b)) (kb_blocks b) (coordinator s).
Proof.
  intros Hgr. unfold ready. destruct (kb_is_empty_singleton b); [|done]. intros [-> ->] Hh i m Hi. exists [].
  split; [|split; [done|by apply (Hh eq_refl i m)]].
  apply lookup_replicate_2. rewrite Hgr. by eapply lookup_lt_Some.
Qed.

Lemma kv_held_0 mml s rid : kv_ok mml s → kv_held s rid 0.
Proof.
  intros Hs i m Hi. destruct (ko_state _ _ Hs) as [[fr Hfr] _]. pose proof (mg_bs _ _ _ (proj2 Hfr i m Hi)) as Hpos.
  cbn [snd] in Hpos. lia.
Qed.

(** A running request goes on. *)
Lemma kv_continue_spec use_int mml sha256 s r new look delay enc :
  kv_ok mml s → hashes_ok sha256 (hash_block_size (block_pool (coordinator s))) r →
  0 < new → 0 ≤ look → 0 ≤ num_computed_tokens r → num_computed_tokens r + new ≤ mml →
  kv_held s (request_id r) (num_computed_tokens r) →
  wp (allocate_slots use_int sha256 r new 0 None look 0 delay enc)
    (λ '(r', res) s', memo_of r r' ∧ BlockHash.cache_ok sha256 r' ∧ kv_step mml (request_id r) s s' ∧
       kv_held s' (request_id r) (num_computed_tokens r + if res then new else 0)) no_exn s.
Proof.
  intros Hs Hha Hnew Hlook Hc Hmml Hheld.
  eapply wp_mono; [apply (kv_slots_spec use_int mml sha256 s r new 0 None look delay enc false Hs Hha); try done; try lia| |done].
  - intros i m Hi. exists []. split; [|split; [done|rewrite Z.add_0_r; by apply (Hheld i m)]].
    apply lookup_replicate_2. rewrite (ko_groups _ _ Hs). by eapply lookup_lt_Some.
  - intros [r' [b|]] s' (Hmem & Hok & Hst & Hres); (split; [done|]; split; [done|]; split; [done|]).
    + by rewrite Z.add_0_r in Hres.
    + rewrite Z.add_0_r. by apply Hres.
Qed.

(** A waiting request starts with what is cached. *)
Lemma kv_start_spec use_int mml sha256 s r new hit b look delay enc :
  kv_ok mml s → hashes_ok sha256 (hash_block_size (block_pool (coordinator s))) r →
  0 < new → 0 ≤ look → num_computed_tokens r = 0 → 0 ≤ hit → hit + new ≤ mml →
  kv_absent s (request_id r) → ready s (request_id r) b hit →
  wp (allocate_slots use_int sha256 r new hit (Some b) look 0 delay enc)
    (λ '(r', res) s', memo_of r r' ∧ BlockHash.cache_ok sha256 r' ∧ kv_step mml (request_id r) s s' ∧
       match res with None => kv_absent s' (request_id r) | Some _ => kv_held s' (request_id r) (hit + new) end) no_exn s.
Proof.
  intros Hs Hha Hnew Hlook Hc Hhit Hmml Habs Hready.
  eapply wp_mono; [apply (kv_slots_spec use_int mml sha256 s r new hit (Some b) look delay enc
    (negb (kb_is_empty_singleton b)) Hs Hha); rewrite ?Hc; try done; try lia| |done].
  - cbn [computed_list]. by rewrite negb_involutive.
  - cbn [computed_list]. apply ready_groups; [apply Hs|done|]. intros _. by apply (kv_held_0 mml).
  - intros [r' [b'|]] s' (Hmem & Hok & Hst & Hres); (split; [done|]; split; [done|]; split; [done|]).
    + by rewrite Hc in Hres.
    + by apply Hres.
Qed.

(** [free] on every manager. *)
Record free_inv (rid : string) (c : Coordinator) (k : nat) (c' : Coordinator) : Prop := {
  fi_only : co_only rid c c';
  fi_free : co_ok c';
  fi_mgrs : Forall (manager_ok (block_pool c')) (single_type_managers c');
  fi_done : ∀ j m, (j < k)%nat → single_type_managers c' !! j = Some m →
    blocks_of rid m = [] ∧ num_cached_block m !! rid = None
}.

Lemma free_step rid c k c1 :
  (k < length (single_type_managers c))%nat → free_inv rid c k c1 →
  wp (on_manager k (CacheManagers.free rid)) (λ _ c2, free_inv rid c (S k) c2) no_exn c1.
Proof.
  intros Hk [Hon [fr Hfr] Hm Hd]. destruct (lookup_lt_is_Some_2 (single_type_managers c) k Hk) as [m0 Hm0].
  destruct (co_only_to _ _ _ _ _ Hon Hm0) as (m & Hmk & _). apply (wp_on_manager k _ m); [done|].
  pose proof (Forall_lookup_1 _ _ _ _ Hm Hmk) as Hmo.
  eapply wp_mono; [apply (free_spec _ fr _ rid (proj2 Hfr k m Hmk))| |done].
  intros [] [p' m'] (M & O & B & C & H & R). cbn [fst snd] in *.
  destruct (co_free_insert c1 k m p' m' rid fr _ Hfr Hmk M O) as [Hfr' Ho'].
  split; cbn [block_pool single_type_managers set_co]; [by transitivity c1|by eexists| |].
  - apply Forall_lookup. intros j mj Hj. pose proof (proj2 Hfr' j mj Hj) as Hmj. 
    apply list_lookup_insert_Some in Hj as [(-> & -> & _)|[Hne Hj]].
    + apply (manager_ok_drop _ _ (block_pool c1) m p' mj rid Hmo O Hmj); [| |done|by apply (occ_sub_le _ _ _ R)].
      * intros q i b Hi. destruct (decide (q = rid)) as [->|Hq]; [unfold blocks_of in Hi; by rewrite B in Hi|].
        pose proof (only_blocks_of _ _ _ _ O Hq) as E. pose proof (on_cached _ _ _ O q Hq) as E'. cbn [snd] in E, E'.
        rewrite E in Hi. by right.
      * intros q v. destruct (decide (q = rid)) as [->|Hq]; [by rewrite C|].
        pose proof (on_cached _ _ _ O q Hq) as E'. cbn [snd] in E'. by rewrite E'.
    + assert (only rid (block_pool c1, mj) (p', mj)) as Oj by (split; [apply O|done..]).
      apply (manager_ok_thin _ _ (block_pool c1) mj p' mj rid (Forall_lookup_1 _ _ _ _ Hm Hj) Oj Hmj); try done;
        [by right|by apply (occ_sub_le _ _ _ R)].
  - intros j mj Hj Hmj. apply list_lookup_insert_Some in Hmj as [(<- & <- & _)|[Hne Hmj]].
    + split; [unfold blocks_of; by rewrite B|done].
    + apply (Hd j mj); [lia|done].
Qed.

(** [free] gives all blocks of the request back. *)
Lemma kv_free_spec mml s r :
  kv_ok mml s → wp (kvm_free r) (λ _ s', kv_step mml (request_id r) s s' ∧ kv_absent s' (request_id r)) no_exn s.
Proof.
  intros Hs. pose proof (ko_state _ _ Hs) as Hst. pose proof Hst as [Hco Hms]. unfold kvm_free. wp_step. cbn [lget lset coL].
  eapply wp_mono; [apply (for_managers_ind _ (free_inv (request_id r) (coordinator s)))| |done].
  - intros k c1 Hk Hi. by apply free_step.
  - split; try done. intros j m Hj. lia.
  - intros [] c' [Hon Hfr Hm Hd]. split; [apply kv_step_intro; [done|by split|done]|].
    intros i m Hi. apply (Hd i m); [|done]. cbn in Hi. apply lookup_lt_Some in Hi.
    pose proof (Forall2_length _ _ _ (co_mgrs _ _ _ Hon)). lia.
Qed.

(** ** Calls that change no block *)

Record kv_quiet (mml : Z) (s s' : KVCacheManager) : Prop := {
  kq_ok : kv_ok mml s';
  kq_held : ∀ rid n, kv_held s rid n → kv_held s' rid n;
  kq_absent : ∀ rid, kv_absent s rid → kv_absent s' rid;
  kq_hbs : hash_block_size (block_pool (coordinator s')) = hash_block_size (block_pool (coordinator s))
}.

Lemma kv_quiet_refl mml s : kv_ok mml s → kv_quiet mml s s.
Proof. by split. Qed.

Lemma kv_quiet_same mml s s' : kv_ok mml s → same_cache s s' → kv_quiet mml s s'.
Proof. intros Hs Hsame. split; [by eapply same_cache_ok| | |]; destruct Hsame as (st & -> & _); done. Qed.

(** The blocks of each request in a manager, and its counts, are as before. *)
Definition quiet (rid : string) (m m' : Manager) : Prop :=
  mgr_frame m m' ∧ (∀ q, blocks_of q m' = blocks_of q m) ∧ num_cached_block m' = num_cached_block m ∧
  ∀ q, q ≠ rid → req_to_blocks m' !! q = req_to_blocks m !! q.

Lemma quiet_refl rid m : quiet rid m m.
Proof. by split_and!. Qed.

Record quiet_inv (rid : string) (c c' : Coordinator) : Prop := {
  qi_free : ∃ fr, co_free_ok c fr ∧ co_free_ok c' fr;
  qi_only : co_only rid c c';
  qi_pool : block_pool c' = block_pool c;
  qi_mgrs : Forall2 (quiet rid) (single_type_managers c) (single_type_managers c')
}.

Definition quiet_op {A} (rid : string) (op : M PM A) : Prop :=
  ∀ ext fr p m, managed ext fr (p, m) → attention_class (mgr_class m) = true →
    wp op (λ _ s', s'.1 = p ∧ managed ext fr s' ∧ quiet rid m s'.2) no_exn (p, m).

Lemma quiet_step {A} rid (op : M PM A) c c1 k :
  attn_ok c → quiet_op rid op → (k < length (single_type_managers c))%nat → quiet_inv rid c c1 →
  wp (on_manager k op) (λ _ c2, quiet_inv rid c c2) no_exn c1.
Proof.
  intros Hc Hop Hk [(fr & Hfr0 & Hfr) Hon Hp Hms]. destruct (lookup_lt_is_Some_2 (single_type_managers c) k Hk) as [m0 Hm0].
  destruct (Forall2_lookup_l _ _ _ _ _ Hms Hm0) as (m & Hm & (F0 & B0 & N0 & R0)). apply (wp_on_manager k _ m); [done|].
  eapply wp_mono; [apply (Hop _ fr _ m (proj2 Hfr k m Hm))| |done].
  { rewrite (mf_class _ _ F0). apply (mo_class _ _ (Forall_lookup_1 _ _ _ _ (ao_mgrs _ Hc) Hm0)). }
  intros a [p' m'] (Ep & M & (F & B & N & R)). cbn [fst snd] in *. subst p'.
  assert (only rid (block_pool c1, m) (block_pool c1, m')) as O.
  { split; try done. cbn [snd]. intros r _. by rewrite N. }
  destruct (co_free_insert c1 k m (block_pool c1) m' rid fr fr Hfr Hm M O) as [Hfr' Ho'].
  split; cbn [block_pool single_type_managers set_co]; [by exists fr|by transitivity c1|done|].
  apply Forall2_same_length_lookup. rewrite length_insert. split; [by apply Forall2_length in Hms|].
  intros j mj mj' Hj Hj'. apply list_lookup_insert_Some in Hj' as [(-> & <- & _)|[Hne Hj']].
  - rewrite Hm0 in Hj. injection Hj as <-. split; [by transitivity m|]. split; [intros q; by rewrite B|].
    split; [congruence|]. intros q Hq. by rewrite R, R0.
  - by apply (Forall2_lookup_lr _ _ _ _ _ _ Hms Hj Hj').
Qed.

Lemma quiet_inv_refl rid c : attn_ok c → quiet_inv rid c c.
Proof.
  intros [[fr Hfr] _]. split; [by exists fr|done|done|]. apply Forall_Forall2_diag, Forall_true. intros m. apply quiet_refl.
Qed.

Lemma quiet_attn rid c c' : attn_ok c → quiet_inv rid c c' → attn_ok c'.
Proof.
  intros [_ Hms] [(fr & _ & Hfr) Hon Hp Hq]. split; [by exists fr|]. apply Forall_lookup. intros i m' Hi. rewrite Hp.
  destruct (Forall2_lookup_r _ _ _ _ _ Hq Hi) as (m & Hm & ([F1 F2 F3 F4 F5 F6] & B & N & _)).
  destruct (Forall_lookup_1 _ _ _ _ Hms Hm) as [C1 C2 C3 C4 C5 C6].
  split; rewrite ?F1, ?F3, ?F4, ?F5, ?N; try done. intros Hca q j b. rewrite B, N. by apply C6.
Qed.

Lemma kv_quiet_intro mml rid s c' :
  kv_ok mml s → quiet_inv rid (coordinator s) c' → kv_quiet mml s (set_coordinator c' s).
Proof.
  intros Hs Hq. pose proof (ko_state _ _ Hs) as Hst. pose proof (quiet_attn _ _ _ Hst Hq) as Hst'.
  destruct Hq as [_ Hon Hp Hq]. split; [apply (kv_step_intro mml rid); done| | |cbn; by rewrite Hp]; intros r; [intros n|]; intros Hh i m' Hi; cbn in Hi;
    destruct (Forall2_lookup_r _ _ _ _ _ Hq Hi) as (m & Hm & (F & B & N & _)); specialize (Hh i m Hm); rewrite B.
  - by rewrite (mf_bs _ _ F).
  - by rewrite N.
Qed.

Lemma kv_quiet_for mml rid (op : nat → M PM unit) s :
  kv_ok mml s → (∀ i, quiet_op rid (op i)) →
  wp (for_managers op) (λ _ c', kv_quiet mml s (set_coordinator c' s)) no_exn (coordinator s).
Proof.
  intros Hs Hop. pose proof (ko_state _ _ Hs) as Hst.
  eapply wp_mono; [apply (for_managers_ind _ (λ _ c', quiet_inv rid (coordinator s) c'))| |done].
  - intros k c1 Hk Hi. by apply quiet_step.
  - by apply quiet_inv_refl.
  - intros [] c' Hi. by apply (kv_quiet_intro mml rid).
Qed.

Lemma kv_quiet_map {A} mml rid (op : nat → M PM A) s :
  kv_ok mml s → (∀ i, quiet_op rid (op i)) →
  wp (map_managers op) (λ _ c', kv_quiet mml s (set_coordinator c' s)) no_exn (coordinator s).
Proof.
  intros Hs Hop. pose proof (ko_state _ _ Hs) as Hst.
  eapply wp_mono; [apply (map_managers_ind _ (λ _ _ c', quiet_inv rid (coordinator s) c'))| |done].
  - intros k acc c1 Hk Hi. by apply quiet_step.
  - by apply quiet_inv_refl.
  - intros l c' Hi. by apply (kv_quiet_intro mml rid).
Qed.

Lemma kv_new_step_spec mml s : kv_ok mml s → wp kvm_new_step_starts (λ _ s', kv_quiet mml s s') no_exn s.
Proof.
  intros Hs. unfold kvm_new_step_starts. wp_step. apply (kv_quiet_for mml ""%string); [done|]. intros _ ext fr p m Hm Hc. unfold new_step_starts.
  wp_step. wp_step. cbn [snd]. destruct (mgr_class m) eqn:Ec; try done; wp_step; (split; [done|split; [done|apply quiet_refl]]).
Qed.

Lemma kv_take_ids_spec mml s : kv_ok mml s → wp kvm_take_new_block_ids (λ _ s', kv_quiet mml s s') no_exn s.
Proof.
  intros Hs. unfold kvm_take_new_block_ids. wp_step. wp_step. cbn [lget lset coL].
  eapply wp_mono; [apply (kv_quiet_map mml ""%string _ s Hs)| |done].
  - intros _ ext fr p m Hm Hc. unfold take_new_block_ids. wp_step. wp_step. wp_step. apply wp_on_mgr. wp_step. cbn [fst snd].
    split; [done|]. split; [by apply (managed_same ext fr p m)|]. by split_and!.
  - intros l s' Hq. by wp_step.
Qed.

Lemma kv_common_prefix_spec mml s rid :
  kv_ok mml s → wp (kvm_get_num_common_prefix_blocks rid) (λ _ s', kv_quiet mml s s') no_exn s.
Proof.
  intros Hs. unfold kvm_get_num_common_prefix_blocks, co_get_num_common_prefix_blocks.
  wp_step. cbn [lget lset coL]. wp_step. wp_step.
  assert (∀ _ : nat, quiet_op rid (CacheManagers.get_num_common_prefix_blocks rid)) as Hop.
  { intros _ ext fr p m Hm Hc. unfold CacheManagers.get_num_common_prefix_blocks. wp_step. wp_step. cbn [snd].
    destruct (mgr_class m) eqn:Ec; try done; try (wp_step; (split; [done|split; [done|apply quiet_refl]])).
    wp_step. apply wp_req_blocks. wp_step. cbn [fst snd]. split; [done|]. split; [exact (managed_default ext fr (p, m) rid Hm)|].
    split; [done|]. split; [|split; [done|]].
    - intros q. unfold blocks_of. cbn. destruct (decide (q = rid)) as [->|Hq]; [by rewrite lookup_insert_eq|by rewrite lookup_insert_ne].
    - intros q Hq. cbn. by rewrite lookup_insert_ne. }
  destruct (co_kind (coordinator s)).
  - wp_step. replace (set_coordinator (coordinator s) s) with s by (by destruct s). by apply kv_quiet_refl.
  - by apply (kv_quiet_map mml rid).
  - by apply (kv_quiet_map mml rid).
Qed.

Lemma kv_can_fit_spec mml s r hit b enc :
  kv_ok mml s → num_computed_tokens r = 0 → 0 ≤ hit ≤ mml → ready s (request_id r) b hit →
  ∃ fits, can_fit_full_sequence r hit (Some b) 0 enc s = (Ok fits, s).
Proof.
  intros Hs Hc Hhit Hready. destruct (ko_state _ _ Hs) as [[fr Hfr] Hms].
  unfold can_fit_full_sequence, gets, mbind, M_bind, zoom. cbn [computed_list lget lset coL].
  rewrite Hc. replace (Z.min (0 + hit + 0) (kvm_max_model_len s)) with hit by (rewrite (ko_mml _ _ Hs); lia).
  rewrite (co_get_num_exact _ _ hit (negb (kb_is_empty_singleton b)) _ _ _ _ _ Hfr Hms ltac:(lia)).
  - eexists. cbn. unfold mret, M_ret. replace (set_coordinator (coordinator s) s) with s by (by destruct s). reflexivity.
  - apply ready_groups; [apply Hs|done|]. intros _. by apply (kv_held_0 mml).
Qed.

Lemma kv_take_events_spec mml s : kv_ok mml s → wp kvm_take_events (λ _ s', kv_quiet mml s s') no_exn s.
Proof.
  intros Hs. pose proof (ko_state _ _ Hs) as Hst. pose proof Hst as [Hco Hms].
  pose proof (co_take_events_inv (coordinator s) ""%string Hco) as Hinv.
  unfold kvm_take_events. wp_step. cbn [lget lset coL].
  assert (∃ l p, take_events (block_pool (coordinator s)) = (Ok l, p) ∧
    (p = block_pool (coordinator s) ∨ p = set_event_queue [] (block_pool (coordinator s)))) as (l & p & E & Hp).
  { unfold take_events, gets, modify, mbind, M_bind, mret, M_ret. destruct (enable_kv_cache_events _); cbn; eauto. }
  unfold wp, zoom in Hinv |- *. cbn [lget lset co_poolL] in *. rewrite E in Hinv |- *. destruct Hinv as [Hco' Hon].
  split; [apply (kv_step_intro mml ""%string); [done|split; [done|]|done]|done|done|by destruct Hp as [->| ->]].
  eapply Forall_impl; [exact Hms|]. intros m []. by destruct Hp as [->| ->].
Qed.

(** ** A new manager *)

(** One group of attention layers: every one of its tokens can be in the prefix cache. *)
Definition plain_attention (l : LayerSpec) : Prop :=
  0 < layer_block_size l ∧
  match l with
  | FullAttentionSpec _ _ _ _ | MLAAttentionSpec _ _ _ _ _ => True
  | SlidingWindowSpec _ w => 1 ≤ w
  | ChunkedLocalAttentionSpec a chunk => ∃ k, 0 < k ∧ chunk = k * a_block_size a
  | _ => False
  end.

Lemma plain_sane l : plain_attention l → spec_sane l.
Proof.
  intros [Hbs Hl]. split; [done|]. destruct l; try done. destruct Hl as (k & Hk & ->). cbn in Hbs. nia.
Qed.

Lemma kv_init_ok config names l mml caching log events :
  kv_cache_groups config = [mkGroup names (Layer l)] → plain_attention l → 0 < num_blocks config →
  ∃ s, KVCacheManager_init config mml (layer_block_size l) caching false log events 1 1 = Ok s ∧
    kv_ok mml s ∧ (∀ rid, kv_absent s rid) ∧ hash_block_size (block_pool (coordinator s)) = layer_block_size l.
Proof.
  intros Hg Hl Hn. pose proof (plain_sane l Hl) as Hs. set (hbs := layer_block_size l) in *.
  destruct (BlockPool_init_spec (num_blocks config) caching hbs events Hn) as (p & Ep & _ & _ & Eca & Eh & _).
  destruct (get_manager_spec l caching 0 1 1 p Hs) as (m & Em & Hm).
  set (kind := if caching then UnitaryKVCacheCoordinator else KVCacheCoordinatorNoPrefixCache).
  set (c := mkCoordinator kind [l] false caching p [m] (if caching then hbs else 0) 1 1 hbs [] 0).
  assert (get_kv_cache_coordinator config false caching events 1 1 hbs = Ok c) as Ec.
  { unfold get_kv_cache_coordinator, base_init. rewrite Hg. cbn [fmap list_fmap kv_cache_spec length layer_spec_of].
    assert (init_managers [Layer l] caching 1 1 0 p = (Ok [m], p)) as Ei.
    { cbn [init_managers]. unfold mbind, M_bind, mret, M_ret. by rewrite Em. }
    unfold c, kind. destruct caching; cbn [negb]; rewrite Ep; cbn [mbind res_bind]; rewrite Ei; cbn [mbind res_bind]; [|done].
    rewrite bool_decide_eq_true_2 by done. unfold unitary_init. cbn [co_groups co_dcp co_pcp co_enable_caching co_hash_block_size length].
    cbn. rewrite bool_decide_eq_true_2 by done. cbn. done. }
  exists (mkKVCacheManager mml caching false log (if log then Some empty_stats else None) c 1).
  split.
  { unfold KVCacheManager_init. rewrite Ec. cbn. by rewrite Hg. }
  destruct (coordinator_init_ok config [l] false caching events 1 1 hbs c) as (Hco & _ & _ & Hfresh); [by rewrite Hg|by apply Forall_singleton|done|done|].
  assert (fresh_manager (block_pool c) l m) as Hfm by (inversion Hfresh; subst; done).
  pose proof Hfm as (_ & Espec & Ecls & _ & _ & Eb & Enc & _).
  assert (mgr_block_size m = hbs ∧ mgr_enable_caching m = caching ∧ kv_cache_group_id m = 0 ∧ attention_class (mgr_class m) = true)
    as (Ebs & Ecm & Egid & Ecl).
  { destruct Hl as [_ Hl]. unfold get_manager_for_kv_cache_spec, gets, lift_res, mbind, M_bind, mret, M_ret in Em.
    destruct l; try done; cbn in Em; injection Em as <-; cbn; rewrite Z.mul_1_r; done. }
  split; [|split; [|exact Eh]].
  - split; cbn [coordinator num_kv_cache_groups kvm_enable_caching kvm_max_model_len log_stats prefix_cache_stats]; try done.
    + split; [done|]. apply Forall_singleton. apply (manager_ok_fresh (block_pool c) l m); try done; cbn; [congruence|congruence|lia].
    + by intros ->.
    + cbn. rewrite Eh. apply Hl.
    + by intros ->.
    + unfold find_ok, c, kind. destruct caching; cbn; [|done]. exists l, m. do 8 (split; [done|]). destruct Hl as [_ Hl]. by destruct l.
  - intros rid i m' Hi. apply list_lookup_singleton_Some in Hi as [_ <-]. split; [unfold blocks_of; by rewrite Eb|by rewrite Enc].
Qed.
