(* ===== verification/Scheduler.v ===== *)
(** * The scheduler

    [vllm/v1/core/sched/scheduler.py], [async_scheduler.py] and the step output of
    [output.py].  Requests are objects shared by the dict [requests], the running
    list and the queues: [store] holds them by identity; a queue entry is a copy
    whose [obj_id] is the reference and whose ordering fields are kept in step with
    the object, every other field is read from the store.

    No KV connector and no encoder-cache connector is configured here: the branches
    on [self.connector] and [self.ec_connector] are not taken.  Logging, statistics
    and routed experts are left out.  The engine's other parts reach the scheduler
    as arguments: the model runner's output, and the grammar backend as
    [should_advance] and [validate_tokens], with the ids of the requests whose
    grammar is compiled in [grammars]. *)

From stdpp Require Import base list gmap strings.
From Stdlib Require Import ZArith Lia.
From S2P Require Import Prelude FreeQueue Request BlockHash BlockPool EncoderCache RequestQueue KVCacheSpec CacheManagers Coordinator KVCacheManager.
Local Open Scope Z_scope.

Inductive PauseState := UNPAUSED | PAUSED_NEW | PAUSED_ALL.
#[export] Instance PauseState_eq_dec : EqDecision PauseState.
Proof. solve_decision. Defined.
#[export] Instance SchedulingPolicy_eq_dec : EqDecision SchedulingPolicy.
Proof. solve_decision. Defined.

(** What the constructor reads from the configuration. *)
Record SchedulerConfig := mkSchedConfig {
  policy : SchedulingPolicy;
  max_num_running_reqs : Z;
  max_num_scheduled_tokens : Z;
  max_model_len : Z;
  long_prefill_token_threshold : Z;
  enable_chunked_prefill : bool;
  cfg_disable_chunked_mm_input : bool;
  is_encoder_decoder : bool;
  cfg_max_num_encoder_input_tokens : Z;
  use_eagle : bool;
  num_spec_tokens : Z;
  num_lookahead_tokens : Z;
  max_loras : option Z;
  need_mamba_block_aligned_split : bool;
  cache_block_size : Z;
  sched_block_size : Z;
  scheduler_reserve_full_isl : bool;
  needs_kv_cache_zeroing : bool;
  use_pp : bool;
  async_scheduling : bool;
  use_v2_model_runner : bool;
  num_groups : nat
}.

(** ** The output of a step ([output.py]) *)

Record NewRequestData := mkNewRequest {
  nr_req_id : string;
  nr_prompt_token_ids : option (list Z);
  nr_mm_features : list MultiModalFeatureSpec;
  nr_sampling_params : option SamplingParams;
  nr_pooling_params : option PoolingParams;
  nr_block_ids : option (list (list Z));
  nr_num_computed_tokens : Z;
  nr_lora_request : option LoRARequest;
  nr_prompt_embeds : option (list bytes);
  nr_prefill_token_ids : option (list Z)
}.
Definition NewRequestData_from_request (request : Request) (block_ids : option (list (list Z)))
    (prefill_token_ids : option (list Z)) : NewRequestData :=
  mkNewRequest (request_id request) (prompt_token_ids request) (mm_features request) (sampling_params request)
    (pooling_params request) block_ids (num_computed_tokens request) (lora_request request) (prompt_embeds request)
    prefill_token_ids.

Record CachedRequestData := mkCachedRequests {
  cr_req_ids : list string;
  cr_resumed_req_ids : list string;
  cr_new_token_ids : list (list Z);
  cr_all_token_ids : list (string * list Z);
  cr_new_block_ids : list (option (list (list Z)));
  cr_num_computed_tokens : list Z;
  cr_num_output_tokens : list Z
}.
Definition CachedRequestData_make_empty : CachedRequestData := mkCachedRequests [] [] [] [] [] [] [].

Record SchedulerOutput := mkSchedOutput {
  so_scheduled_new_reqs : list NewRequestData;
  so_scheduled_cached_reqs : CachedRequestData;
  so_num_scheduled_tokens : list (string * Z);
  so_total_num_scheduled_tokens : Z;
  so_scheduled_spec_decode_tokens : list (string * list Z);
  so_scheduled_encoder_inputs : list (string * list Z);
  so_num_common_prefix_blocks : list Z;
  so_finished_req_ids : gset string;
  so_free_encoder_mm_hashes : list string;
  so_preempted_req_ids : list string;
  so_has_structured_output_requests : bool;
  so_pending_structured_output_tokens : bool;
  so_num_invalid_spec_tokens : option (list (string * Z));
  so_new_block_ids_to_zero : option (list Z)
}.
Definition set_so_flags (has pending : bool) (o : SchedulerOutput) : SchedulerOutput :=
  mkSchedOutput (so_scheduled_new_reqs o) (so_scheduled_cached_reqs o) (so_num_scheduled_tokens o)
    (so_total_num_scheduled_tokens o) (so_scheduled_spec_decode_tokens o) (so_scheduled_encoder_inputs o)
    (so_num_common_prefix_blocks o) (so_finished_req_ids o) (so_free_encoder_mm_hashes o) (so_preempted_req_ids o)
    has pending (so_num_invalid_spec_tokens o) (so_new_block_ids_to_zero o).
Definition set_so_drafts (spec : list (string * list Z)) (invalid : option (list (string * Z))) (o : SchedulerOutput)
    : SchedulerOutput :=
  mkSchedOutput (so_scheduled_new_reqs o) (so_scheduled_cached_reqs o) (so_num_scheduled_tokens o)
    (so_total_num_scheduled_tokens o) spec (so_scheduled_encoder_inputs o)
    (so_num_common_prefix_blocks o) (so_finished_req_ids o) (so_free_encoder_mm_hashes o) (so_preempted_req_ids o)
    (so_has_structured_output_requests o) (so_pending_structured_output_tokens o) invalid (so_new_block_ids_to_zero o).

(** ** Lists of object references *)

(** [l.remove(x)] *)
Fixpoint remove_first (x : Z) (l : list Z) : option (list Z) :=
  match l with
  | [] => None
  | y :: r => if decide (y = x) then Some r else (y ::.) <$> remove_first x r
  end.

(** [l.pop()] *)
Definition pop_last {A} (l : list A) : option (A * list A) :=
  match last l with Some x => Some (x, take (length l - 1) l) | None => None end.

(** [sched.utils.remove_all]; the fast path for one item removes its only occurrence. *)
Definition remove_all (l items : list Z) : list Z :=
  match items with
  | [] => l
  | [x] => default l (remove_first x l)
  | _ => filter (λ y, y ∉ items) l
  end.

(** [max(l, key)]: the first of the greatest elements. *)
Definition max_by (lt : Z → Z → bool) (l : list Z) : res Z :=
  match l with [] => Err ValueError | x :: r => Ok (foldl (λ b y, if lt b y then y else b) x r) end.

Definition _is_blocked_waiting_status (s : RequestStatus) : bool :=
  match s with
  | WAITING_FOR_STRUCTURED_OUTPUT_GRAMMAR | WAITING_FOR_REMOTE_KVS | WAITING_FOR_STREAMING_REQ => true
  | _ => false
  end.

(** [StreamingUpdate.from_request] *)
Definition StreamingUpdate_from_request (r : Request) : option StreamingUpdate :=
  if resumable r then Some (mkUpdate (mm_features r) (prompt_token_ids r) (arrival_time r) (sampling_params r))
  else None.

Section scheduler.
Context {Q E : Type} `{RequestQueue Q} `{EncoderManager E}.
Context (use_int : bool) (sha256 : bytes → bytes).
Context (hash_fn : BlockHash * list Z * option (list pyval) → bytes) (NONE_HASH : bytes).
Context (should_advance : Request → bool) (validate_tokens : Request → list Z → list Z).
(** The order in which a set of request ids is iterated. *)
Context (id_order : list string → list string).
Context (cfg : SchedulerConfig).

(** ** State *)

Record Scheduler := mkScheduler {
  store : gmap Z Request;
  requests : list (string * Z);
  waiting : Q;
  skipped_waiting : Q;
  running : list Z;
  finished_req_ids : gset string;
  finished_req_ids_dict : option (list (Z * gset string));
  prev_step_scheduled_req_ids : gset string;
  num_waiting_for_streaming_input : Z;
  kv_cache_manager : KVCacheManager;
  encoder_cache_manager : E;
  _pause_state : PauseState;
  streaming_queues : gmap Z (list (option StreamingUpdate));
  grammars : gset string
}.

Definition set_store (v : gmap Z Request) (s : Scheduler) : Scheduler :=
  mkScheduler v (requests s) (waiting s) (skipped_waiting s) (running s) (finished_req_ids s)
    (finished_req_ids_dict s) (prev_step_scheduled_req_ids s) (num_waiting_for_streaming_input s)
    (kv_cache_manager s) (encoder_cache_manager s) (_pause_state s) (streaming_queues s) (grammars
    s).
Definition set_requests (v : list (string * Z)) (s : Scheduler) : Scheduler :=
  mkScheduler (store s) v (waiting s) (skipped_waiting s) (running s) (finished_req_ids s)
    (finished_req_ids_dict s) (prev_step_scheduled_req_ids s) (num_waiting_for_streaming_input s)
    (kv_cache_manager s) (encoder_cache_manager s) (_pause_state s) (streaming_queues s) (grammars
    s).
Definition set_waiting (v : Q) (s : Scheduler) : Scheduler :=
  mkScheduler (store s) (requests s) v (skipped_waiting s) (running s) (finished_req_ids s)
    (finished_req_ids_dict s) (prev_step_scheduled_req_ids s) (num_waiting_for_streaming_input s)
    (kv_cache_manager s) (encoder_cache_manager s) (_pause_state s) (streaming_queues s) (grammars
    s).
Definition set_skipped_waiting (v : Q) (s : Scheduler) : Scheduler :=
  mkScheduler (store s) (requests s) (waiting s) v (running s) (finished_req_ids s)
    (finished_req_ids_dict s) (prev_step_scheduled_req_ids s) (num_waiting_for_streaming_input s)
    (kv_cache_manager s) (encoder_cache_manager s) (_pause_state s) (streaming_queues s) (grammars
    s).
Definition set_running (v : list Z) (s : Scheduler) : Scheduler :=
  mkScheduler (store s) (requests s) (waiting s) (skipped_waiting s) v (finished_req_ids s)
    (finished_req_ids_dict s) (prev_step_scheduled_req_ids s) (num_waiting_for_streaming_input s)
    (kv_cache_manager s) (encoder_cache_manager s) (_pause_state s) (streaming_queues s) (grammars
    s).
Definition set_finished_req_ids (v : gset string) (s : Scheduler) : Scheduler :=
  mkScheduler (store s) (requests s) (waiting s) (skipped_waiting s) (running s) v
    (finished_req_ids_dict s) (prev_step_scheduled_req_ids s) (num_waiting_for_streaming_input s)
    (kv_cache_manager s) (encoder_cache_manager s) (_pause_state s) (streaming_queues s) (grammars
    s).
Definition set_finished_req_ids_dict (v : option (list (Z * gset string))) (s : Scheduler) : Scheduler :=
  mkScheduler (store s) (requests s) (waiting s) (skipped_waiting s) (running s) (finished_req_ids
    s) v (prev_step_scheduled_req_ids s) (num_waiting_for_streaming_input s) (kv_cache_manager s)
    (encoder_cache_manager s) (_pause_state s) (streaming_queues s) (grammars s).
Definition set_prev_step_scheduled_req_ids (v : gset string) (s : Scheduler) : Scheduler :=
  mkScheduler (store s) (requests s) (waiting s) (skipped_waiting s) (running s) (finished_req_ids
    s) (finished_req_ids_dict s) v (num_waiting_for_streaming_input s) (kv_cache_manager s)
    (encoder_cache_manager s) (_pause_state s) (streaming_queues s) (grammars s).
Definition set_num_waiting_for_streaming_input (v : Z) (s : Scheduler) : Scheduler :=
  mkScheduler (store s) (requests s) (waiting s) (skipped_waiting s) (running s) (finished_req_ids
    s) (finished_req_ids_dict s) (prev_step_scheduled_req_ids s) v (kv_cache_manager s)
    (encoder_cache_manager s) (_pause_state s) (streaming_queues s) (grammars s).
Definition set_kv_cache_manager (v : KVCacheManager) (s : Scheduler) : Scheduler :=
  mkScheduler (store s) (requests s) (waiting s) (skipped_waiting s) (running s) (finished_req_ids
    s) (finished_req_ids_dict s) (prev_step_scheduled_req_ids s) (num_waiting_for_streaming_input s)
    v (encoder_cache_manager s) (_pause_state s) (streaming_queues s) (grammars s).
Definition set_encoder_cache_manager (v : E) (s : Scheduler) : Scheduler :=
  mkScheduler (store s) (requests s) (waiting s) (skipped_waiting s) (running s) (finished_req_ids
    s) (finished_req_ids_dict s) (prev_step_scheduled_req_ids s) (num_waiting_for_streaming_input s)
    (kv_cache_manager s) v (_pause_state s) (streaming_queues s) (grammars s).
Definition set_pause_state (v : PauseState) (s : Scheduler) : Scheduler :=
  mkScheduler (store s) (requests s) (waiting s) (skipped_waiting s) (running s) (finished_req_ids
    s) (finished_req_ids_dict s) (prev_step_scheduled_req_ids s) (num_waiting_for_streaming_input s)
    (kv_cache_manager s) (encoder_cache_manager s) v (streaming_queues s) (grammars s).
Definition set_streaming_queues (v : gmap Z (list (option StreamingUpdate))) (s : Scheduler) : Scheduler :=
  mkScheduler (store s) (requests s) (waiting s) (skipped_waiting s) (running s) (finished_req_ids
    s) (finished_req_ids_dict s) (prev_step_scheduled_req_ids s) (num_waiting_for_streaming_input s)
    (kv_cache_manager s) (encoder_cache_manager s) (_pause_state s) v (grammars s).
Definition set_grammars (v : gset string) (s : Scheduler) : Scheduler :=
  mkScheduler (store s) (requests s) (waiting s) (skipped_waiting s) (running s) (finished_req_ids
    s) (finished_req_ids_dict s) (prev_step_scheduled_req_ids s) (num_waiting_for_streaming_input s)
    (kv_cache_manager s) (encoder_cache_manager s) (_pause_state s) (streaming_queues s) v.

Definition kvmL : lens Scheduler KVCacheManager := Lens kv_cache_manager set_kv_cache_manager.
Definition encL : lens Scheduler E := Lens encoder_cache_manager set_encoder_cache_manager.

Definition Scheduler_init (kvm : KVCacheManager) (enc : E) (include_finished_set : bool) : Scheduler :=
  mkScheduler ∅ [] empty_queue empty_queue [] ∅ (if include_finished_set then Some [] else None) ∅ 0 kvm enc
    UNPAUSED ∅ ∅.

(** The object behind a reference, and a write to it. *)
Definition the (i : Z) (s : Scheduler) : Request := default inhabitant (store s !! i).
Definition put (i : Z) (r : Request) : M Scheduler unit := modify (λ s, set_store (<[i := r]> (store s)) s).
Definition upd (i : Z) (f : Request → Request) : M Scheduler unit :=
  modify (λ s, set_store (<[i := f (the i s)]> (store s)) s).

Definition lookup_request (req_id : string) (s : Scheduler) : option Z := dict_get (requests s) req_id.

(** ** Small operations *)

Definition get_request_counts (s : Scheduler) : Z * Z :=
  (Z.of_nat (length (running s)), Z.of_nat (queue_len (waiting s)) + Z.of_nat (queue_len (skipped_waiting s))).
Definition sched_pause_state (s : Scheduler) : PauseState := _pause_state s.
Definition sched_set_pause_state (p : PauseState) : M Scheduler unit := modify (set_pause_state p).
Definition has_finished_requests (s : Scheduler) : bool := bool_decide (finished_req_ids s ≠ ∅).
Definition get_num_unfinished_requests (s : Scheduler) : Z :=
  match _pause_state s with
  | PAUSED_ALL => 0
  | PAUSED_NEW => Z.of_nat (length (running s))
  | UNPAUSED =>
      let num_waiting := Z.of_nat (queue_len (waiting s)) + Z.of_nat (queue_len (skipped_waiting s))
                         - num_waiting_for_streaming_input s in
      num_waiting + Z.of_nat (length (running s))
  end.

Definition reset_encoder_cache : M Scheduler unit := zoom encL em_reset.

Definition add_waiting (r : Request) : M Scheduler unit :=
  q ← gets waiting; q' ← lift_res (add_request r q); modify (set_waiting q').
Definition add_skipped (r : Request) : M Scheduler unit :=
  q ← gets skipped_waiting; q' ← lift_res (add_request r q); modify (set_skipped_waiting q').

Definition _enqueue_waiting_request (i : Z) : M Scheduler unit :=
  r ← gets (the i);
  if _is_blocked_waiting_status (status r) then add_skipped r else add_waiting r.

Definition _preempt_request (i : Z) : M Scheduler unit :=
  r ← gets (the i);
  assert_ (bool_decide (status r = RUNNING)) ;;
  zoom kvmL (kvm_free r) ;;
  zoom encL (em_free r) ;;
  upd i (set_status PREEMPTED) ;;
  upd i (set_num_computed_tokens 0) ;;
  (if bool_decide (spec_token_ids r ≠ []) then upd i (set_spec_token_ids []) else mret tt) ;;
  upd i (λ r, set_num_preemptions (num_preemptions r + 1) r) ;;
  r ← gets (the i);
  q ← gets waiting; q' ← lift_res (prepend_request r q); modify (set_waiting q').

(** Without a connector, [_free_request] frees the blocks unless told to wait. *)
Definition _free_blocks (i : Z) : M Scheduler unit :=
  r ← gets (the i);
  assert_ (is_finished r) ;;
  zoom kvmL (kvm_free r) ;;
  reqs ← gets requests;
  match dict_get reqs (request_id r) with
  | Some _ => modify (set_requests (dict_del reqs (request_id r)))
  | None => raise KeyError
  end.

Definition _free_request (i : Z) (delay_free_blocks : bool) : M Scheduler unit :=
  r ← gets (the i);
  assert_ (is_finished r) ;;
  zoom encL (em_free r) ;;
  modify (λ s, set_finished_req_ids (finished_req_ids s ∪ {[request_id r]}) s) ;;
  modify (λ s, match finished_req_ids_dict s with
    | None => s
    | Some d => set_finished_req_ids_dict
        (Some (dict_set d (client_index r) (default ∅ (dict_get d (client_index r)) ∪ {[request_id r]}))) s
    end) ;;
  if delay_free_blocks then mret tt else _free_blocks i.

(** ** Streaming sessions *)

(** The session object changes in place, also where a queue refers to it. *)
Definition update_session (i : Z) (update : StreamingUpdate) : M Scheduler unit :=
  r ← gets (the i);
  let '(ended, r') := _update_request_as_session sha256 hash_fn NONE_HASH (sched_block_size cfg) update r in
  put i r' ;;
  let touch := λ x, if bool_decide (obj_id x = i) then set_arrival_time (arrival_time r') x else x in
  modify (λ s, set_waiting (queue_touch touch (waiting s)) s) ;;
  modify (λ s, set_skipped_waiting (queue_touch touch (skipped_waiting s)) s) ;;
  was_streaming ← lift_res ended;
  if (was_streaming : bool) then
    modify (λ s, set_num_waiting_for_streaming_input (num_waiting_for_streaming_input s - 1) s)
  else mret tt.

Definition _handle_stopped_request (i : Z) : M Scheduler bool :=
  r ← gets (the i);
  if negb (resumable r) then mret true
  else
    sq ← gets (λ s, default [] (streaming_queues s !! i));
    match sq with
    | None :: rest => modify (λ s, set_streaming_queues (<[i := rest]> (streaming_queues s)) s) ;; mret true
    | Some update :: rest =>
        modify (λ s, set_streaming_queues (<[i := rest]> (streaming_queues s)) s) ;;
        update_session i update ;; _enqueue_waiting_request i ;; mret false
    | [] =>
        upd i (set_status WAITING_FOR_STREAMING_REQ) ;;
        modify (λ s, set_num_waiting_for_streaming_input (num_waiting_for_streaming_input s + 1) s) ;;
        _enqueue_waiting_request i ;; mret false
    end.

(** ** Finishing and adding requests *)

(** The first pass over the ids: valid requests, running ones and waiting ones. *)
Definition finish_collect (ids : list string) : M Scheduler (list Z * list Z * list Z) :=
  fold_each ids ([], [], []) (λ '(valid, run, wait) req_id,
    found ← gets (lookup_request req_id);
    match found with
    | None => mret (valid, run, wait)
    | Some i =>
        r ← gets (the i);
        if is_finished r then mret (valid, run, wait)
        else if bool_decide (status r = RUNNING) then mret (valid ++ [i], run ++ [i], wait)
        else
          (if bool_decide (status r = WAITING_FOR_STREAMING_REQ) then
             modify (λ s, set_num_waiting_for_streaming_input (num_waiting_for_streaming_input s - 1) s)
           else mret tt) ;;
          mret (valid ++ [i], run, wait ++ [i])
    end).

Definition drop_waiting (wait : list Z) : M Scheduler unit :=
  if bool_decide (wait = []) then mret tt
  else
    rs ← gets (λ s, (λ i, the i s) <$> wait);
    q ← gets waiting; q' ← lift_res (remove_requests rs q); modify (set_waiting q') ;;
    k ← gets skipped_waiting; k' ← lift_res (remove_requests rs k); modify (set_skipped_waiting k').

(** [request_ids]: [None] means all. *)
Definition finish_requests (request_ids : option (list string)) (finished_status : RequestStatus)
    : M Scheduler (list (string * Z)) :=
  assert_ (status_is_finished finished_status) ;;
  keys ← gets (λ s, (requests s).*1);
  let ids := match request_ids with Some l => id_order (distinct l) | None => keys end in
  '(valid, run, wait) ← finish_collect ids;
  modify (λ s, set_running (remove_all (running s) run) s) ;;
  drop_waiting wait ;;
  for_each valid (λ i,
    r ← gets (the i);
    let delay := bool_decide (status r = WAITING_FOR_REMOTE_KVS) in
    upd i (set_status finished_status) ;;
    _free_request i delay) ;;
  gets (λ s, (λ i, (request_id (the i s), client_index (the i s))) <$> valid).

(** A new object [request]; its [obj_id] is fresh. *)
Definition sched_add_request (request : Request) : M Scheduler unit :=
  existing ← gets (lookup_request (request_id request));
  match existing with
  | Some i =>
      r ← gets (the i);
      let update := StreamingUpdate_from_request request in
      if bool_decide (status r ≠ WAITING_FOR_STREAMING_REQ) then
        sq ← gets (λ s, streaming_queues s !! i);
        q ← lift_opt AssertionError sq;
        modify (λ s, set_streaming_queues (<[i := q ++ [update]]> (streaming_queues s)) s)
      else match update with
      | Some u => update_session i u
      | None => finish_requests (Some [request_id request]) FINISHED_ABORTED ;; mret tt
      end
  | None =>
      let i := obj_id request in
      put i request ;;
      (if resumable request then modify (λ s, set_streaming_queues (<[i := []]> (streaming_queues s)) s) else mret tt) ;;
      _enqueue_waiting_request i ;;
      modify (λ s, set_requests (dict_set (requests s) (request_id request) i) s)
  end.

(** ** Encoder inputs of a step *)

(** One pass over the features from index [i] on; the result is the inputs to
    schedule, the number of tokens and the remaining budget. *)
Fixpoint encoder_inputs_loop (r : Request) (num_computed_tokens shift : Z) (i : Z) (feats : list MultiModalFeatureSpec)
    (num_new_tokens budget : Z) (to_schedule : list Z) (hashes : list string) (num_embeds_to_schedule : Z)
    : M E (list Z * Z * Z) :=
  match feats with
  | [] => mret (to_schedule, num_new_tokens, budget)
  | f :: rest =>
      let start_pos := mm_offset f in
      let num_encoder_tokens := mm_length f in
      num_encoder_embeds ← lift_res (get_num_embeds f);
      let next := encoder_inputs_loop r num_computed_tokens shift (i + 1) rest num_new_tokens budget to_schedule hashes
                    num_embeds_to_schedule in
      if num_computed_tokens + num_new_tokens + shift <=? start_pos then mret (to_schedule, num_new_tokens, budget)
      else if is_encoder_decoder cfg && (0 <? num_computed_tokens) then
        assert_ (bool_decide (start_pos = 0)) ;; next
      else if start_pos + num_encoder_tokens <=? num_computed_tokens then next
      else
        cached ← (if is_encoder_decoder cfg then mret false
                  else if bool_decide (identifier f ∈ hashes) then mret true
                  else em_check_and_update_cache r i);
        if (cached : bool) then next
        else if cfg_disable_chunked_mm_input cfg && (num_computed_tokens <? start_pos) &&
                (num_computed_tokens + num_new_tokens <? start_pos + num_encoder_tokens) then
          mret (to_schedule, Z.max 0 (start_pos - (num_computed_tokens + shift)), budget)
        else
          fits ← em_can_allocate r i budget num_embeds_to_schedule;
          if negb fits then
            mret (to_schedule, (if num_computed_tokens + shift <? start_pos
                                then start_pos - (num_computed_tokens + shift) else 0), budget)
          else
            let start_idx_rel := Z.max 0 (num_computed_tokens - start_pos) in
            let end_idx_rel := Z.min num_encoder_tokens (num_computed_tokens + num_new_tokens - start_pos) in
            '(a, b) ← lift_res (get_embeds_indices_in_range f start_idx_rel end_idx_rel);
            if bool_decide (b - a = 0) then next
            else
              encoder_inputs_loop r num_computed_tokens shift (i + 1) rest num_new_tokens (budget - num_encoder_embeds)
                (to_schedule ++ [i]) (identifier f :: hashes) (num_embeds_to_schedule + num_encoder_embeds)
  end.

Definition _try_schedule_encoder_inputs (r : Request) (num_computed_tokens num_new_tokens encoder_compute_budget shift : Z)
    : M E (list Z * Z * Z) :=
  if bool_decide (num_new_tokens = 0) || negb (has_encoder_inputs r) then mret ([], num_new_tokens, encoder_compute_budget)
  else encoder_inputs_loop r num_computed_tokens shift 0 (mm_features r) num_new_tokens encoder_compute_budget [] [] 0.

Definition _free_encoder_inputs (i : Z) : M Scheduler unit :=
  r ← gets (the i);
  ids ← gets (λ s, em_get_cached_input_ids r (encoder_cache_manager s));
  for_each ids (λ input_id,
    f ← lift_res (py_get (mm_features r) input_id);
    if (is_encoder_decoder cfg && (0 <? num_computed_tokens r)) || (mm_offset f + mm_length f <=? num_computed_tokens r)
    then zoom encL (em_free_encoder_input r input_id) else mret tt).

Definition _mamba_block_aligned_split (r : Request) (num_new_tokens num_new_local_computed_tokens : Z) : res Z :=
  let computed := num_computed_tokens r + num_new_local_computed_tokens in
  if computed <? Z.max (num_prompt_tokens r) (num_tokens r - 1) then
    rest ← py_mod (num_tokens r) (cache_block_size cfg);
    let last_cache_position := num_tokens r - rest in
    let last_cache_position :=
      if use_eagle cfg then Z.max (last_cache_position - cache_block_size cfg) 0 else last_cache_position in
    let after_sched := computed + num_new_tokens in
    if after_sched <? last_cache_position then Ok (num_new_tokens / cache_block_size cfg * cache_block_size cfg)
    else if (computed <? last_cache_position) && (last_cache_position <? after_sched) then Ok (last_cache_position - computed)
    else Ok num_new_tokens
  else Ok num_new_tokens.

(** ** The local variables of [schedule] *)

Record Step := mkStep {
  sched : Scheduler;
  scheduled_new_reqs : list Z;
  scheduled_resumed_reqs : list Z;
  scheduled_running_reqs : list Z;
  preempted_reqs : list Z;
  req_to_new_blocks : list (string * KVCacheBlocks);
  num_scheduled_tokens : list (string * Z);
  token_budget : Z;
  scheduled_encoder_inputs : list (string * list Z);
  encoder_compute_budget : Z;
  scheduled_spec_decode_tokens : list (string * list Z);
  req_index : Z;
  scheduled_loras : gset Z;
  step_skipped_waiting : Q
}.

Definition set_sched (v : Scheduler) (s : Step) : Step :=
  mkStep v (scheduled_new_reqs s) (scheduled_resumed_reqs s) (scheduled_running_reqs s)
    (preempted_reqs s) (req_to_new_blocks s) (num_scheduled_tokens s) (token_budget s)
    (scheduled_encoder_inputs s) (encoder_compute_budget s) (scheduled_spec_decode_tokens s)
    (req_index s) (scheduled_loras s) (step_skipped_waiting s).
Definition set_scheduled_new_reqs (v : list Z) (s : Step) : Step :=
  mkStep (sched s) v (scheduled_resumed_reqs s) (scheduled_running_reqs s) (preempted_reqs s)
    (req_to_new_blocks s) (num_scheduled_tokens s) (token_budget s) (scheduled_encoder_inputs s)
    (encoder_compute_budget s) (scheduled_spec_decode_tokens s) (req_index s) (scheduled_loras s)
    (step_skipped_waiting s).
Definition set_scheduled_resumed_reqs (v : list Z) (s : Step) : Step :=
  mkStep (sched s) (scheduled_new_reqs s) v (scheduled_running_reqs s) (preempted_reqs s)
    (req_to_new_blocks s) (num_scheduled_tokens s) (token_budget s) (scheduled_encoder_inputs s)
    (encoder_compute_budget s) (scheduled_spec_decode_tokens s) (req_index s) (scheduled_loras s)
    (step_skipped_waiting s).
Definition set_scheduled_running_reqs (v : list Z) (s : Step) : Step :=
  mkStep (sched s) (scheduled_new_reqs s) (scheduled_resumed_reqs s) v (preempted_reqs s)
    (req_to_new_blocks s) (num_scheduled_tokens s) (token_budget s) (scheduled_encoder_inputs s)
    (encoder_compute_budget s) (scheduled_spec_decode_tokens s) (req_index s) (scheduled_loras s)
    (step_skipped_waiting s).
Definition set_preempted_reqs (v : list Z) (s : Step) : Step :=
  mkStep (sched s) (scheduled_new_reqs s) (scheduled_resumed_reqs s) (scheduled_running_reqs s) v
    (req_to_new_blocks s) (num_scheduled_tokens s) (token_budget s) (scheduled_encoder_inputs s)
    (encoder_compute_budget s) (scheduled_spec_decode_tokens s) (req_index s) (scheduled_loras s)
    (step_skipped_waiting s).
Definition set_req_to_new_blocks (v : list (string * KVCacheBlocks)) (s : Step) : Step :=
  mkStep (sched s) (scheduled_new_reqs s) (scheduled_resumed_reqs s) (scheduled_running_reqs s)
    (preempted_reqs s) v (num_scheduled_tokens s) (token_budget s) (scheduled_encoder_inputs s)
    (encoder_compute_budget s) (scheduled_spec_decode_tokens s) (req_index s) (scheduled_loras s)
    (step_skipped_waiting s).
Definition set_num_scheduled_tokens (v : list (string * Z)) (s : Step) : Step :=
  mkStep (sched s) (scheduled_new_reqs s) (scheduled_resumed_reqs s) (scheduled_running_reqs s)
    (preempted_reqs s) (req_to_new_blocks s) v (token_budget s) (scheduled_encoder_inputs s)
    (encoder_compute_budget s) (scheduled_spec_decode_tokens s) (req_index s) (scheduled_loras s)
    (step_skipped_waiting s).
Definition set_token_budget (v : Z) (s : Step) : Step :=
  mkStep (sched s) (scheduled_new_reqs s) (scheduled_resumed_reqs s) (scheduled_running_reqs s)
    (preempted_reqs s) (req_to_new_blocks s) (num_scheduled_tokens s) v (scheduled_encoder_inputs s)
    (encoder_compute_budget s) (scheduled_spec_decode_tokens s) (req_index s) (scheduled_loras s)
    (step_skipped_waiting s).
Definition set_scheduled_encoder_inputs (v : list (string * list Z)) (s : Step) : Step :=
  mkStep (sched s) (scheduled_new_reqs s) (scheduled_resumed_reqs s) (scheduled_running_reqs s)
    (preempted_reqs s) (req_to_new_blocks s) (num_scheduled_tokens s) (token_budget s) v
    (encoder_compute_budget s) (scheduled_spec_decode_tokens s) (req_index s) (scheduled_loras s)
    (step_skipped_waiting s).
Definition set_encoder_compute_budget (v : Z) (s : Step) : Step :=
  mkStep (sched s) (scheduled_new_reqs s) (scheduled_resumed_reqs s) (scheduled_running_reqs s)
    (preempted_reqs s) (req_to_new_blocks s) (num_scheduled_tokens s) (token_budget s)
    (scheduled_encoder_inputs s) v (scheduled_spec_decode_tokens s) (req_index s) (scheduled_loras
    s) (step_skipped_waiting s).
Definition set_scheduled_spec_decode_tokens (v : list (string * list Z)) (s : Step) : Step :=
  mkStep (sched s) (scheduled_new_reqs s) (scheduled_resumed_reqs s) (scheduled_running_reqs s)
    (preempted_reqs s) (req_to_new_blocks s) (num_scheduled_tokens s) (token_budget s)
    (scheduled_encoder_inputs s) (encoder_compute_budget s) v (req_index s) (scheduled_loras s)
    (step_skipped_waiting s).
Definition set_req_index (v : Z) (s : Step) : Step :=
  mkStep (sched s) (scheduled_new_reqs s) (scheduled_resumed_reqs s) (scheduled_running_reqs s)
    (preempted_reqs s) (req_to_new_blocks s) (num_scheduled_tokens s) (token_budget s)
    (scheduled_encoder_inputs s) (encoder_compute_budget s) (scheduled_spec_decode_tokens s) v
    (scheduled_loras s) (step_skipped_waiting s).
Definition set_scheduled_loras (v : gset Z) (s : Step) : Step :=
  mkStep (sched s) (scheduled_new_reqs s) (scheduled_resumed_reqs s) (scheduled_running_reqs s)
    (preempted_reqs s) (req_to_new_blocks s) (num_scheduled_tokens s) (token_budget s)
    (scheduled_encoder_inputs s) (encoder_compute_budget s) (scheduled_spec_decode_tokens s)
    (req_index s) v (step_skipped_waiting s).
Definition set_step_skipped_waiting (v : Q) (s : Step) : Step :=
  mkStep (sched s) (scheduled_new_reqs s) (scheduled_resumed_reqs s) (scheduled_running_reqs s)
    (preempted_reqs s) (req_to_new_blocks s) (num_scheduled_tokens s) (token_budget s)
    (scheduled_encoder_inputs s) (encoder_compute_budget s) (scheduled_spec_decode_tokens s)
    (req_index s) (scheduled_loras s) v.

Definition schedL : lens Step Scheduler := Lens sched set_sched.

(** [request.get_num_encoder_embeds(i)] summed over some inputs. *)
Definition sum_encoder_embeds (r : Request) (inputs : list Z) : res Z :=
  l ← map_res (get_num_encoder_embeds r) inputs; Ok (sumZ l).

Definition add_budget (n : Z) : M Step unit := modify (λ t, set_token_budget (token_budget t + n) t).
Definition advance (n : Z) : M Step unit := modify (λ t, set_req_index (req_index t + n) t).

(** ** Running requests *)

(** Undoes what was scheduled for the victim in this step. *)
Definition unschedule (i : Z) : M Step unit :=
  r ← gets (the i ∘ sched);
  let id := request_id r in
  run ← gets scheduled_running_reqs;
  run' ← lift_opt ValueError (remove_first i run);
  modify (set_scheduled_running_reqs run') ;;
  num ← gets num_scheduled_tokens;
  n ← lift_opt KeyError (dict_get num id);
  modify (set_num_scheduled_tokens (dict_del num id)) ;;
  add_budget n ;;
  blocks ← gets req_to_new_blocks;
  _ ← lift_opt KeyError (dict_get blocks id);
  modify (set_req_to_new_blocks (dict_del blocks id)) ;;
  modify (λ t, set_scheduled_spec_decode_tokens (dict_del (scheduled_spec_decode_tokens t) id) t) ;;
  inputs ← gets (λ t, default [] (dict_get (scheduled_encoder_inputs t) id));
  modify (λ t, set_scheduled_encoder_inputs (dict_del (scheduled_encoder_inputs t) id) t) ;;
  embeds ← lift_res (sum_encoder_embeds r inputs);
  modify (λ t, set_encoder_compute_budget (encoder_compute_budget t + embeds) t) ;;
  advance (-1).

(** The request to preempt, taken off the running list. *)
Definition take_victim : M Step Z :=
  s ← gets sched;
  if bool_decide (policy cfg = PRIORITY) then
    let lt := λ a b, (priority (the a s) <? priority (the b s)) ||
                     (bool_decide (priority (the a s) = priority (the b s)) && (arrival_time (the a s) <? arrival_time (the b s))) in
    i ← lift_res (max_by lt (running s));
    run ← lift_opt ValueError (remove_first i (running s));
    zoom schedL (modify (set_running run)) ;;
    scheduled ← gets scheduled_running_reqs;
    (if bool_decide (i ∈ scheduled) then unschedule i else mret tt) ;;
    mret i
  else
    '(i, run) ← lift_opt IndexError (pop_last (running s));
    zoom schedL (modify (set_running run)) ;;
    mret i.

(** The inner [while True]: every turn shortens the running list. *)
Fixpoint allocate_or_preempt (fuel : nat) (i num_new_tokens : Z) : M Step (option KVCacheBlocks) :=
  match fuel with
  | O => raise OutOfFuel
  | S fuel =>
      r ← gets (the i ∘ sched);
      '(r', new_blocks) ← zoom schedL (zoom kvmL
        (allocate_slots use_int sha256 r num_new_tokens 0 None (num_lookahead_tokens cfg) 0 false 0));
      zoom schedL (put i r') ;;
      match new_blocks with
      | Some b => mret (Some b)
      | None =>
          victim ← take_victim;
          zoom schedL (_preempt_request victim) ;;
          modify (λ t, set_preempted_reqs (preempted_reqs t ++ [victim]) t) ;;
          if bool_decide (victim = i) then mret None else allocate_or_preempt fuel i num_new_tokens
      end
  end.

(** How many tokens a running request gets: fewer than its backlog if the
    threshold, the budget or the model length say so. *)
Definition num_new_tokens_running (r : Request) (budget : Z) : Z :=
  let n := num_tokens_with_spec r + num_output_placeholders r - num_computed_tokens r in
  let t := long_prefill_token_threshold cfg in
  let n := if (0 <? t) && (t <? n) then t else n in
  Z.min (Z.min n budget) (max_model_len cfg - 1 - num_computed_tokens r).

Definition schedule_encoder_inputs (i : Z) (r : Request) (inputs : list Z) (budget : Z) : M Step unit :=
  if bool_decide (inputs = []) then mret tt
  else
    modify (λ t, set_scheduled_encoder_inputs (dict_set (scheduled_encoder_inputs t) (request_id r) inputs) t) ;;
    for_each inputs (λ k, zoom schedL (zoom encL (em_allocate r k))) ;;
    modify (set_encoder_compute_budget budget).

Definition note_scheduled (i : Z) (r : Request) (blocks : KVCacheBlocks) (num_new_tokens : Z) : M Step unit :=
  modify (λ t, set_req_to_new_blocks (dict_set (req_to_new_blocks t) (request_id r) blocks) t) ;;
  modify (λ t, set_num_scheduled_tokens (dict_set (num_scheduled_tokens t) (request_id r) num_new_tokens) t) ;;
  add_budget (- num_new_tokens).

Definition schedule_drafts (i num_new_tokens : Z) : M Step unit :=
  r ← gets (the i ∘ sched);
  if bool_decide (spec_token_ids r = []) then mret tt
  else
    let num_scheduled_spec_tokens := num_new_tokens + num_computed_tokens r - num_tokens r - num_output_placeholders r in
    (if 0 <? num_scheduled_spec_tokens then
       modify (λ t, set_scheduled_spec_decode_tokens (dict_set (scheduled_spec_decode_tokens t) (request_id r)
         (if num_scheduled_spec_tokens <? Z.of_nat (length (spec_token_ids r))
          then slice 0 num_scheduled_spec_tokens (spec_token_ids r) else spec_token_ids r)) t)
     else mret tt) ;;
    zoom schedL (upd i (set_spec_token_ids [])).

(** [num_output_placeholders]: no extra step once the last token is on its way. *)
Definition reached_max_tokens (r : Request) : bool :=
  (0 <? num_output_placeholders r) &&
  (num_prompt_tokens r + max_tokens r <=? num_computed_tokens r + 2 - num_output_placeholders r).

(** One turn of the outer loop; [false]: [break]. *)
Definition schedule_one_running : M Step bool :=
  i ← gets (λ t, py_get (running (sched t)) (req_index t));
  i ← lift_res i;
  r ← gets (the i ∘ sched);
  if reached_max_tokens r then advance 1 ;; mret true
  else
    budget ← gets token_budget;
    enc_budget ← gets encoder_compute_budget;
    let n := num_new_tokens_running r budget in
    '(inputs, n, new_enc_budget) ←
      (if has_encoder_inputs r
       then zoom schedL (zoom encL (_try_schedule_encoder_inputs r (num_computed_tokens r) n enc_budget
                                      (if use_eagle cfg then 1 else 0)))
       else mret ([], n, enc_budget));
    n ← lift_res (if need_mamba_block_aligned_split cfg then _mamba_block_aligned_split r n 0 else Ok n);
    if bool_decide (n = 0) then advance 1 ;; mret true
    else
      run ← gets (running ∘ sched);
      new_blocks ← allocate_or_preempt (S (length run)) i n;
      match new_blocks with
      | None => mret false
      | Some b =>
          modify (λ t, set_scheduled_running_reqs (scheduled_running_reqs t ++ [i]) t) ;;
          note_scheduled i r b n ;;
          advance 1 ;;
          schedule_drafts i n ;;
          schedule_encoder_inputs i r inputs new_enc_budget ;;
          mret true
      end.

(** Every turn leaves fewer requests to look at. *)
Fixpoint schedule_running (fuel : nat) : M Step unit :=
  match fuel with
  | O => raise OutOfFuel
  | S fuel =>
      more ← gets (λ t, (req_index t <? Z.of_nat (length (running (sched t)))) && (0 <? token_budget t));
      if negb more then mret tt
      else
        continue ← schedule_one_running;
        if (continue : bool) then schedule_running fuel else mret tt
  end.

Definition lora_id (r : Request) : option Z := lora_int_id <$> lora_request r.

Definition record_loras : M Step unit :=
  match max_loras cfg with
  | None => mret tt
  | Some k =>
      ids ← gets (λ t, omap (λ i, lora_id (the i (sched t))) (scheduled_running_reqs t));
      modify (set_scheduled_loras (list_to_set (filter (λ n, 0 < n) ids))) ;;
      loras ← gets scheduled_loras;
      assert_ (Z.of_nat (size loras) <=? k)
  end.

(** ** Waiting requests *)

(** Without a connector no request waits for remote KV. *)
Definition _try_promote_blocked_waiting_request (i : Z) : M Scheduler bool :=
  r ← gets (the i);
  match status r with
  | WAITING_FOR_REMOTE_KVS => mret false
  | WAITING_FOR_STRUCTURED_OUTPUT_GRAMMAR =>
      ready ← gets (λ s, bool_decide (request_id r ∈ grammars s));
      if structured_output_request r && ready then upd i (set_status WAITING) ;; mret true else mret false
  | WAITING_FOR_STREAMING_REQ =>
      sq ← gets (λ s, default [] (streaming_queues s !! i));
      assert_ (bool_decide (sq = [])) ;; mret false
  | _ => raise AssertionError
  end.

(** Which queue to look at: [true] is [skipped_waiting]. *)
Definition _select_waiting_queue_for_scheduling (s : Scheduler) : res (option bool) :=
  let has_waiting := queue_bool (waiting s) in
  let has_skipped := queue_bool (skipped_waiting s) in
  match policy cfg with
  | FCFS => Ok (if has_skipped then Some true else if has_waiting then Some false else None)
  | PRIORITY =>
      if has_waiting && has_skipped then
        waiting_req ← peek_request (waiting s);
        skipped_req ← peek_request (skipped_waiting s);
        Ok (Some (negb (request_lt waiting_req skipped_req)))
      else Ok (if has_waiting then Some false else if has_skipped then Some true else None)
  end.

Definition chosen_queue (skipped : bool) (s : Scheduler) : Q := if skipped then skipped_waiting s else waiting s.
Definition set_chosen (skipped : bool) (q : Q) : Scheduler → Scheduler :=
  if skipped then set_skipped_waiting q else set_waiting q.

Definition pop_chosen (skipped : bool) : M Step unit :=
  q ← gets (chosen_queue skipped ∘ sched);
  '(_, q') ← lift_res (pop_request q);
  zoom schedL (modify (set_chosen skipped q')).

Definition skip_for_now (skipped : bool) (i : Z) : M Step unit :=
  pop_chosen skipped ;;
  r ← gets (the i ∘ sched);
  q ← gets step_skipped_waiting; q' ← lift_res (prepend_request r q); modify (set_step_skipped_waiting q').

Definition exceeds_loras (r : Request) (loras : gset Z) : bool :=
  match max_loras cfg, lora_id r with
  | Some k, Some n => bool_decide (Z.of_nat (size loras) = k) && bool_decide (n ∉ loras)
  | _, _ => false
  end.

(** [None]: the request does not fit into the rest of the budget and may not be cut. *)
Definition num_new_tokens_waiting (r : Request) (num_computed_tokens budget : Z) : option Z :=
  let n := num_tokens r - num_computed_tokens in
  let t := long_prefill_token_threshold cfg in
  let n := if (0 <? t) && (t <? n) then t else n in
  if negb (enable_chunked_prefill cfg) && (budget <? n) then None else Some (Z.min n budget).

(** The request is taken on: it leaves its queue and runs. *)
Definition start_running (i : Z) (skipped : bool) (num_computed num_new_tokens : Z) : M Step unit :=
  pop_chosen skipped ;;
  zoom schedL (modify (λ s, set_running (running s ++ [i]) s)) ;;
  r ← gets (the i ∘ sched);
  (match status r with
   | WAITING => modify (λ t, set_scheduled_new_reqs (scheduled_new_reqs t ++ [i]) t)
   | PREEMPTED => modify (λ t, set_scheduled_resumed_reqs (scheduled_resumed_reqs t ++ [i]) t)
   | _ => raise RuntimeError
   end) ;;
  (match max_loras cfg, lora_id r with
   | Some _, Some n => modify (λ t, set_scheduled_loras (scheduled_loras t ∪ {[n]}) t)
   | _, _ => mret tt
   end) ;;
  blocks ← gets (λ t, kvm_get_blocks (request_id r) (kv_cache_manager (sched t)));
  note_scheduled i r blocks num_new_tokens ;;
  zoom schedL (upd i (set_status RUNNING) ;; upd i (set_num_computed_tokens num_computed) ;;
    if num_cached_tokens r <? 0 then upd i (set_num_cached_tokens num_computed) else mret tt).

(** What is cached already: the blocks, the tokens newly found and all computed tokens. *)
Definition computed_before (r : Request) : M Step (KVCacheBlocks * Z * Z) :=
  if bool_decide (num_computed_tokens r = 0) then
    '(blocks, local) ← zoom schedL (zoom kvmL (get_computed_blocks r));
    assert_ (local <=? num_tokens r) ;; mret (blocks, local, local)
  else
    e ← gets (λ t, empty_kv_cache_blocks (kv_cache_manager (sched t)));
    mret (e, 0, num_computed_tokens r).

Definition free_encoder (r : Request) : M Step unit :=
  if has_encoder_inputs r then zoom schedL (zoom encL (em_free r)) else mret tt.

(** From the number of tokens on: [false] is [break]. *)
Definition try_start (i : Z) (skipped : bool) (blocks : KVCacheBlocks) (local num_computed : Z) (inputs : list Z)
    (num_new_tokens new_enc_budget : Z) : M Step bool :=
  r ← gets (the i ∘ sched);
  let lookahead := if bool_decide (num_computed_tokens r = 0) then 0 else num_lookahead_tokens cfg in
  num_encoder_tokens ← lift_res
    (if is_encoder_decoder cfg && has_encoder_inputs r && negb (bool_decide (inputs = [])) then sum_encoder_embeds r inputs
     else Ok 0);
  fits ← (if scheduler_reserve_full_isl cfg
          then zoom schedL (zoom kvmL (can_fit_full_sequence r local (Some blocks) 0 num_encoder_tokens)) else mret true);
  if negb fits then free_encoder r ;; mret false
  else
    '(r', new_blocks) ← zoom schedL (zoom kvmL
      (allocate_slots use_int sha256 r num_new_tokens local (Some blocks) lookahead 0 false num_encoder_tokens));
    zoom schedL (put i r') ;;
    match new_blocks with
    | None => free_encoder r ;; mret false
    | Some _ =>
        start_running i skipped num_computed num_new_tokens ;;
        schedule_encoder_inputs i r inputs new_enc_budget ;;
        mret true
    end.

(** One turn of the loop over the waiting queues; [false]: [break]. *)
Definition schedule_one_waiting : M Step bool :=
  choice ← gets (λ t, _select_waiting_queue_for_scheduling (sched t));
  choice ← lift_res choice;
  skipped ← lift_opt AssertionError choice;
  q ← gets (chosen_queue skipped ∘ sched);
  head ← lift_res (peek_request q);
  let i := obj_id head in
  r ← gets (the i ∘ sched);
  ready ← (if _is_blocked_waiting_status (status r) then zoom schedL (_try_promote_blocked_waiting_request i)
           else mret true);
  loras ← gets scheduled_loras;
  if negb ready || exceeds_loras r loras then skip_for_now skipped i ;; mret true
  else
    '(blocks, local, num_computed) ← computed_before r;
    budget ← gets token_budget;
    enc_budget ← gets encoder_compute_budget;
    match num_new_tokens_waiting r num_computed budget with
    | None => mret false
    | Some n =>
        assert_ (0 <? n) ;;
        '(inputs, n, new_enc_budget) ←
          (if has_encoder_inputs r
           then zoom schedL (zoom encL (_try_schedule_encoder_inputs r num_computed n enc_budget
                                          (if use_eagle cfg then 1 else 0)))
           else mret ([], n, enc_budget));
        if bool_decide (n = 0) then mret false
        else
          n ← lift_res (if need_mamba_block_aligned_split cfg then _mamba_block_aligned_split r n local else Ok n);
          if bool_decide (n = 0) then mret false
          else try_start i skipped blocks local num_computed inputs n new_enc_budget
    end.

Fixpoint schedule_waiting (fuel : nat) : M Step unit :=
  match fuel with
  | O => raise OutOfFuel
  | S fuel =>
      more ← gets (λ t, (queue_bool (waiting (sched t)) || queue_bool (skipped_waiting (sched t))) && (0 <? token_budget t));
      full ← gets (λ t, bool_decide (Z.of_nat (length (running (sched t))) = max_num_running_reqs cfg));
      if negb more || full then mret tt
      else
        continue ← schedule_one_waiting;
        if (continue : bool) then schedule_waiting fuel else mret tt
  end.

Definition schedule_waiting_requests : M Step unit :=
  preempted ← gets preempted_reqs;
  pause ← gets (_pause_state ∘ sched);
  if bool_decide (preempted = []) && bool_decide (pause = UNPAUSED) then
    modify (set_step_skipped_waiting empty_queue) ;;
    n ← gets (λ t, queue_len (waiting (sched t)) + queue_len (skipped_waiting (sched t)))%nat;
    schedule_waiting (S n) ;;
    skipped ← gets step_skipped_waiting;
    if queue_bool skipped then
      l ← lift_res (queue_iter skipped);
      q ← gets (skipped_waiting ∘ sched);
      q' ← lift_res (prepend_requests l q);
      zoom schedL (modify (set_skipped_waiting q'))
    else mret tt
  else mret tt.

(** ** The output and its effects *)

Definition blocks_of_request (t : Step) (id : string) (allow_none : bool) : res (option (list (list Z))) :=
  match dict_get (req_to_new_blocks t) id with
  | Some b => Ok (get_block_ids (block_pool (coordinator (kv_cache_manager (sched t)))) allow_none b)
  | None => Err KeyError
  end.

Definition _make_cached_request_data (running_reqs resumed_reqs : list Z) : M Step CachedRequestData :=
  t ← gets id;
  let s := sched t in
  fold_each (zip (seq 0 (length (running_reqs ++ resumed_reqs))) (running_reqs ++ resumed_reqs))
    CachedRequestData_make_empty (λ d '(idx, i),
    let r := the i s in
    let req_id := request_id r in
    let prev := bool_decide (req_id ∈ prev_step_scheduled_req_ids s) in
    tokens ← (if use_pp cfg && negb (async_scheduling cfg) then
                n ← lift_opt KeyError (dict_get (num_scheduled_tokens t) req_id);
                let k := n - Z.of_nat (length (default [] (dict_get (scheduled_spec_decode_tokens t) req_id))) in
                mret [slice (num_computed_tokens r) (num_computed_tokens r + k) (_all_token_ids r)]
              else mret []);
    (if bool_decide (length running_reqs ≤ idx)%nat then assert_ (negb prev) else mret tt) ;;
    blocks ← lift_res (blocks_of_request t req_id true);
    mret (mkCachedRequests (cr_req_ids d ++ [req_id])
      (if bool_decide (length running_reqs ≤ idx)%nat then cr_resumed_req_ids d ++ [req_id] else cr_resumed_req_ids d)
      (cr_new_token_ids d ++ tokens)
      (if prev then cr_all_token_ids d else dict_set (cr_all_token_ids d) req_id (_all_token_ids r))
      (cr_new_block_ids d ++ [blocks])
      (cr_num_computed_tokens d ++ [num_computed_tokens r])
      (cr_num_output_tokens d ++ [num_output_tokens r + num_output_placeholders r]))).

(** [Scheduler._update_after_schedule] *)
Definition base_update_after_schedule (o : SchedulerOutput) : M Scheduler SchedulerOutput :=
  has ← fold_each (so_num_scheduled_tokens o) (so_has_structured_output_requests o) (λ has '(req_id, n),
    found ← gets (lookup_request req_id);
    i ← lift_opt KeyError found;
    upd i (λ r, set_num_computed_tokens (num_computed_tokens r + n) r) ;;
    upd i (λ r, set_is_prefill_chunk (num_computed_tokens r <? num_tokens r + num_output_placeholders r) r) ;;
    r ← gets (the i);
    (if has_encoder_inputs r then _free_encoder_inputs i else mret tt) ;;
    mret (has || (use_structured_output r && negb (is_prefill_chunk r))));
  modify (set_finished_req_ids ∅) ;;
  mret (set_so_flags has (so_pending_structured_output_tokens o) o).

(** [AsyncScheduler._update_after_schedule]: the tokens to come get placeholders. *)
Definition _update_after_schedule (o : SchedulerOutput) : M Scheduler SchedulerOutput :=
  o ← base_update_after_schedule o;
  if negb (async_scheduling cfg) then mret o
  else
    pending ← fold_each (so_num_scheduled_tokens o) (so_pending_structured_output_tokens o) (λ pending '(req_id, _),
      found ← gets (lookup_request req_id);
      i ← lift_opt KeyError found;
      r ← gets (the i);
      if is_prefill_chunk r then mret pending
      else
        let cur := Z.of_nat (length (default [] (dict_get (so_scheduled_spec_decode_tokens o) req_id))) in
        upd i (set_num_output_placeholders (num_output_placeholders r + (1 + cur))) ;;
        upd i (set_spec_token_ids (replicate (Z.to_nat (num_spec_tokens cfg)) (-1))) ;;
        mret (pending || (use_structured_output r && (0 <? num_output_placeholders r))));
    mret (set_so_flags (so_has_structured_output_requests o) pending o).

(** The assertions after both phases. *)
Definition check_constraints : M Step Z :=
  t ← gets id;
  let total := sumZ (num_scheduled_tokens t).*2 in
  assert_ (total <=? max_num_scheduled_tokens cfg) ;;
  assert_ (0 <=? token_budget t) ;;
  assert_ (Z.of_nat (length (running (sched t))) <=? max_num_running_reqs cfg) ;;
  assert_ (length (scheduled_new_reqs t) + length (scheduled_resumed_reqs t) + length (scheduled_running_reqs t)
           <=? length (running (sched t)))%nat ;;
  mret total.

Definition common_prefix_blocks : M Step (list Z) :=
  run ← gets (running ∘ sched);
  match run with
  | [] => mret (replicate (num_groups cfg) 0)
  | i :: _ => id ← gets (λ t, request_id (the i (sched t)));
              zoom schedL (zoom kvmL (kvm_get_num_common_prefix_blocks id))
  end.

Definition make_output (total : Z) (common : list Z) : M Step SchedulerOutput :=
  t ← gets id;
  let v2 := use_v2_model_runner cfg in
  let new := if v2 then scheduled_new_reqs t ++ scheduled_resumed_reqs t else scheduled_new_reqs t in
  let resumed := if v2 then [] else scheduled_resumed_reqs t in
  new_data ← lift_res (map_res (λ i,
    let r := the i (sched t) in
    b ← blocks_of_request t (request_id r) false;
    Ok (NewRequestData_from_request r b (if v2 then Some (_all_token_ids r) else None))) new);
  cached ← _make_cached_request_data (scheduled_running_reqs t) resumed;
  zoom schedL (modify (set_prev_step_scheduled_req_ids (list_to_set (num_scheduled_tokens t).*1))) ;;
  zero ← (if needs_kv_cache_zeroing cfg then
            l ← zoom schedL (zoom kvmL kvm_take_new_block_ids);
            mret (if bool_decide (l = []) then None else Some l)
          else mret None);
  freed ← zoom schedL (zoom encL em_get_freed_mm_hashes);
  mret (mkSchedOutput new_data cached (num_scheduled_tokens t) total (scheduled_spec_decode_tokens t)
    (scheduled_encoder_inputs t) common (finished_req_ids (sched t)) freed
    ((λ i, request_id (the i (sched t))) <$> preempted_reqs t) false false None zero).

Definition schedule_step : M Step SchedulerOutput :=
  zoom schedL (zoom kvmL kvm_new_step_starts) ;;
  n ← gets (λ t, length (running (sched t)));
  schedule_running (S n) ;;
  record_loras ;;
  schedule_waiting_requests ;;
  total ← check_constraints;
  common ← common_prefix_blocks;
  o ← make_output total common;
  zoom schedL (_update_after_schedule o).

Definition initial_step (s : Scheduler) : Step :=
  mkStep s [] [] [] [] [] [] (if bool_decide (_pause_state s = PAUSED_ALL) then 0 else max_num_scheduled_tokens cfg)
    [] (cfg_max_num_encoder_input_tokens cfg) [] 0 ∅ empty_queue.

(** A raise keeps what has happened to the scheduler. *)
Definition schedule : M Scheduler SchedulerOutput := λ s,
  let '(r, t) := schedule_step (initial_step s) in (r, sched t).

(** ** The model runner's output *)

(** [sampled_token_ids] and [pooler_output] are empty lists or have one entry per
    request of the batch. *)
Record ModelRunnerOutput := mkRunnerOutput {
  req_id_to_index : list (string * Z);
  sampled_token_ids : list (list Z);
  pooler_output : list (option bytes)
}.

Record EngineCoreOutput := mkCoreOutput {
  eo_request_id : string;
  eo_new_token_ids : list Z;
  eo_pooling_output : option bytes;
  eo_finish_reason : option FinishReason;
  eo_stop_reason : option StopReason;
  eo_num_cached_tokens : Z;
  eo_num_external_computed_tokens : Z
}.
Record EngineCoreOutputs := mkCoreOutputs {
  eos_outputs : list EngineCoreOutput;
  eos_finished_requests : option (gset string)
}.

Definition reqL (i : Z) : lens Scheduler Request := Lens (the i) (λ r s, set_store (<[i := r]> (store s)) s).

(** [Scheduler._update_request_with_output]: append tokens up to the first at which
    the request stops. *)
Fixpoint append_until_stop (new_token_ids : list Z) : M Request (list Z * bool) :=
  match new_token_ids with
  | [] => mret ([], false)
  | t :: rest =>
      append_output_token_ids sha256 hash_fn NONE_HASH (sched_block_size cfg) [t] ;;
      stopped ← check_stop (max_model_len cfg);
      if (stopped : bool) then mret ([t], true)
      else '(l, stopped) ← append_until_stop rest; mret (t :: l, stopped)
  end.

(** With [AsyncScheduler]'s override. *)
Definition _update_request_with_output (i : Z) (new_token_ids : list Z) : M Scheduler (list Z * bool) :=
  if negb (async_scheduling cfg) then zoom (reqL i) (append_until_stop new_token_ids)
  else
    r ← gets (the i);
    if discard_latest_async_tokens r then upd i (set_discard_latest_async_tokens false) ;; mret ([], false)
    else
      '(tokens, stopped) ← zoom (reqL i) (append_until_stop new_token_ids);
      upd i (λ r, set_num_output_placeholders (num_output_placeholders r - Z.of_nat (length tokens)) r) ;;
      r' ← gets (the i);
      assert_ (0 <=? num_output_placeholders r') ;;
      (if bool_decide (status r = RUNNING) then
         r'' ← zoom kvmL (kvm_cache_blocks use_int sha256 r' (num_computed_tokens r' - num_output_placeholders r'));
         put i r''
       else mret tt) ;;
      mret (tokens, stopped).

(** Rejected draft tokens are taken back. *)
Definition adjust_rejected (i : Z) (drafts generated : list Z) : M Scheduler unit :=
  if bool_decide (drafts = []) || bool_decide (generated = []) then mret tt
  else
    let num_accepted := Z.of_nat (length generated) - 1 in
    let num_rejected := Z.of_nat (length drafts) - num_accepted in
    r ← gets (the i);
    (if 0 <? num_computed_tokens r then upd i (set_num_computed_tokens (num_computed_tokens r - num_rejected)) else mret tt) ;;
    if 0 <? num_output_placeholders r then upd i (set_num_output_placeholders (num_output_placeholders r - num_rejected))
    else mret tt.

(** The accumulated results of the loop: outputs by client, and the requests that
    stopped while running or while preempted. *)
Record Collected := mkCollected {
  co_outputs : list (Z * list EngineCoreOutput);
  stopped_running : list Z;
  stopped_preempted : list Z
}.

Definition add_output (client : Z) (o : EngineCoreOutput) (c : Collected) : Collected :=
  mkCollected (dict_set (co_outputs c) client (default [] (dict_get (co_outputs c) client) ++ [o]))
    (stopped_running c) (stopped_preempted c).

(** A stopped request: its finish reason, and which list it has to leave. *)
Definition stop_request (i : Z) (status_before : RequestStatus) (c : Collected)
    : M Scheduler (option FinishReason * Collected) :=
  r ← gets (the i);
  finished ← _handle_stopped_request i;
  (if (finished : bool) then _free_request i false else mret tt) ;;
  mret (get_finished_reason r,
    if bool_decide (status_before = RUNNING) then mkCollected (co_outputs c) (stopped_running c ++ [i]) (stopped_preempted c)
    else mkCollected (co_outputs c) (stopped_running c) (stopped_preempted c ++ [i])).

(** The stop check of one request. *)
Definition check_request (i : Z) (generated : list Z) (pooled : option bytes) : M Scheduler (list Z * bool) :=
  r ← gets (the i);
  if negb (bool_decide (generated = [])) then _update_request_with_output i generated
  else if bool_decide (is_Some (pooling_params r)) && bool_decide (is_Some pooled) then
    upd i (set_status FINISHED_STOPPED) ;; mret ([], true)
  else mret ([], false).

(** The results of one scheduled request; [index]: its row of the batch. *)
Definition update_one (so : SchedulerOutput) (mo : ModelRunnerOutput) (req_id : string) (i : Z) (c : Collected)
    : M Scheduler Collected :=
  index ← lift_opt KeyError (dict_get (req_id_to_index mo) req_id);
  generated ← lift_res (if bool_decide (sampled_token_ids mo = []) then Ok [] else py_get (sampled_token_ids mo) index);
  adjust_rejected i (default [] (dict_get (so_scheduled_spec_decode_tokens so) req_id)) generated ;;
  pooled ← lift_res (if bool_decide (pooler_output mo = []) then Ok None else py_get (pooler_output mo) index);
  before ← gets (status ∘ the i);
  '(tokens, stopped) ← check_request i generated pooled;
  '(reason, c) ← (if (stopped : bool) then stop_request i before c else mret (None, c));
  r ← gets (the i);
  if negb (bool_decide (tokens = [])) || bool_decide (is_Some pooled) || stopped then
    mret (add_output (client_index r) (mkCoreOutput req_id tokens pooled reason (stop_reason r) (num_cached_tokens r)
      (num_external_computed_tokens r)) c)
  else mret c.

Definition update_requests (so : SchedulerOutput) (mo : ModelRunnerOutput) : M Scheduler Collected :=
  fold_each (so_num_scheduled_tokens so) (mkCollected [] [] []) (λ c '(req_id, num_tokens_scheduled),
    assert_ (0 <? num_tokens_scheduled) ;;
    found ← gets (lookup_request req_id);
    match found with
    | None => mret c
    | Some i =>
        r ← gets (the i);
        if is_finished r then mret c else update_one so mo req_id i c
    end).

(** The finished ids are reported to every client that has some. *)
Definition merge_finished (outs : list (Z * EngineCoreOutputs)) (finished : list (Z * gset string))
    : list (Z * EngineCoreOutputs) :=
  foldl (λ outs '(client, ids),
    dict_set outs client (mkCoreOutputs (default [] (eos_outputs <$> dict_get outs client)) (Some ids))) outs finished.

Definition update_from_output (so : SchedulerOutput) (mo : ModelRunnerOutput)
    : M Scheduler (list (Z * EngineCoreOutputs) * list KVCacheEvent) :=
  c ← update_requests so mo;
  modify (λ s, set_running (remove_all (running s) (stopped_running c)) s) ;;
  (if bool_decide (stopped_preempted c = []) then mret tt
   else
     rs ← gets (λ s, (λ i, the i s) <$> stopped_preempted c);
     q ← gets waiting; q' ← lift_res (remove_requests rs q); modify (set_waiting q')) ;;
  events ← zoom kvmL kvm_take_events;
  let outs := (λ '(client, l), (client, mkCoreOutputs l None)) <$> co_outputs c in
  fin ← gets finished_req_ids_dict;
  match fin with
  | Some ((_ :: _) as d) =>
      modify (set_finished_req_ids_dict (Some [])) ;; mret (merge_finished outs d, events)
  | _ => mret (outs, events)
  end.

(** ** Draft tokens, grammar and cache resets *)

Definition update_draft_token_ids (drafts : list (string * list Z)) : M Scheduler unit :=
  for_each drafts (λ '(req_id, spec),
    found ← gets (lookup_request req_id);
    match found with
    | None => mret tt
    | Some i =>
        r ← gets (the i);
        if is_finished r then mret tt
        else if is_prefill_chunk r then
          if bool_decide (spec_token_ids r = []) then mret tt else upd i (set_spec_token_ids [])
        else upd i (set_spec_token_ids (if should_advance r then validate_tokens r spec else spec))
    end).

Definition update_draft_token_ids_in_output (drafts : list (string * list Z)) (o : SchedulerOutput)
    : M Scheduler SchedulerOutput :=
  '(spec, invalid) ← fold_each drafts (so_scheduled_spec_decode_tokens o, []) (λ '(sched_spec, invalid) '(req_id, draft),
    found ← gets (lookup_request req_id);
    match found with
    | None => mret (sched_spec, invalid)
    | Some i =>
        r ← gets (the i);
        let placeholder := default [] (dict_get sched_spec req_id) in
        if is_finished r || bool_decide (placeholder = []) then mret (sched_spec, invalid)
        else
          let n := length placeholder in
          let draft := take n draft in
          let draft := if should_advance r then validate_tokens r draft else draft in
          let missing := Z.of_nat n - Z.of_nat (length draft) in
          let draft := draft ++ replicate (Z.to_nat missing) (-1) in
          mret (dict_set sched_spec req_id draft, if bool_decide (missing = 0) then invalid else dict_set invalid req_id missing)
    end);
  mret (set_so_drafts spec (Some invalid) o).

(** The requests of the grammar bitmask, in the order of its rows. *)
Definition grammar_request_ids (o : SchedulerOutput) (s : Scheduler) : option (list string) :=
  if negb (so_has_structured_output_requests o) then None
  else
    let ids := filter (λ req_id, match lookup_request req_id s with
      | Some i => use_structured_output (the i s) && negb (is_prefill_chunk (the i s))
      | None => false end = true) (so_num_scheduled_tokens o).*1 in
    if bool_decide (ids = []) then None else Some ids.

(** [while self.running]: preempt from the end. *)
Fixpoint preempt_all (fuel : nat) : M Scheduler unit :=
  match fuel with
  | O => raise OutOfFuel
  | S fuel =>
      run ← gets running;
      match pop_last run with
      | None => mret tt
      | Some (i, run') =>
          modify (set_running run') ;;
          _preempt_request i ;;
          upd i (set_num_output_placeholders 0) ;;
          upd i (set_discard_latest_async_tokens true) ;;
          preempt_all fuel
      end
  end.

Definition sched_reset_prefix_cache (reset_running_requests reset_connector : bool) : M Scheduler bool :=
  (if reset_running_requests then
     n ← gets (λ s, length (running s));
     preempt_all (S n) ;;
     modify (set_prev_step_scheduled_req_ids ∅)
   else mret tt) ;;
  ok ← zoom kvmL kvm_reset_prefix_cache;
  if reset_running_requests && negb ok then raise RuntimeError
  else mret (ok && negb reset_connector).
End scheduler.
