(* ===== verification/SchedulerInvariant.v ===== *)
(** * The scheduler keeps its state in order

    For text requests on attention layers, without speculative decoding, LoRA limits,
    Mamba splitting or asynchronous scheduling: every request is in exactly one of
    the running list and the waiting queues; a running one holds blocks for its
    computed tokens, any other holds none; a step never raises, spends at most its
    token budget, and gives blocks for every token it schedules. *)

From stdpp Require Import base list gmap strings.
From Stdlib Require Import ZArith Lia.
From S2P Require Import Prelude FreeQueue Request BlockHash BlockPool EncoderCache RequestQueue KVCacheSpec CacheManagers CacheHit Coordinator.
From S2P Require Import ManagerSpecs KVCacheManager CacheInvariant Admission KVService Scheduler.
Local Open Scope Z_scope.

(** ** Requests and where they are *)

(** What else is known of a request, from fields that scheduling does not touch. *)
Class RequestContent := {
  content_ok : Request → Prop;
  content_memo m r : content_ok r → content_ok (set_prompt_embeds_per_block_hashes m r);
  content_status st r : content_ok r → content_ok (set_status st r);
  content_computed n r : content_ok r → content_ok (set_num_computed_tokens n r);
  content_cached n r : content_ok r → content_ok (set_num_cached_tokens n r);
  content_preemptions n r : content_ok r → content_ok (set_num_preemptions n r);
  content_chunk b r : content_ok r → content_ok (set_is_prefill_chunk b r)
}.
Create HintDb content.
#[export] Hint Resolve content_memo content_status content_computed content_cached content_preemptions content_chunk : content.

Section core.
Context `{RC : !RequestContent} (sha256 : bytes → bytes) (cfg : SchedulerConfig).
Abbreviation mml := (max_model_len cfg).

(** The requests of the model: text, not resumable, shorter than the model length. *)
Record request_ok (r : Request) : Prop := {
  rk_text : mm_features r = [];
  rk_plain : resumable r = false ∧ spec_token_ids r = [] ∧ num_output_placeholders r = 0;
  rk_tokens : 0 < num_tokens r < mml;
  rk_computed : 0 ≤ num_computed_tokens r ≤ num_tokens r;
  rk_hashes : hashes_ok sha256 (sched_block_size cfg) r;
  rk_content : content_ok r
}.

Definition waiting_status (s : RequestStatus) : bool :=
  match s with WAITING | PREEMPTED | WAITING_FOR_STRUCTURED_OUTPUT_GRAMMAR => true | _ => false end.

(** Tokens given to a request in this step. *)
Definition given (num : list (string * Z)) (id : string) : Z := default 0 (dict_get num id).

Definition at_ (st : gmap Z Request) (i : Z) : Request := default inhabitant (st !! i).

Record core (st : gmap Z Request) (reqs : list (string * Z)) (run queued : list Z) (kv : KVCacheManager)
    (num : list (string * Z)) : Prop := {
  c_kv : kv_ok mml kv;
  c_hbs : hash_block_size (block_pool (coordinator kv)) = sched_block_size cfg;
  c_keys : NoDup reqs.*1;
  c_objs : ∀ id i, (id, i) ∈ reqs → request_id (at_ st i) = id ∧ obj_id (at_ st i) = i ∧ request_ok (at_ st i);
  c_where : queued ++ run ≡ₚ reqs.*2;
  c_run : ∀ i, i ∈ run → status (at_ st i) = RUNNING ∧
    kv_held kv (request_id (at_ st i)) (num_computed_tokens (at_ st i) + given num (request_id (at_ st i)));
  c_queued : ∀ i, i ∈ queued → waiting_status (status (at_ st i)) = true ∧ num_computed_tokens (at_ st i) = 0 ∧
    kv_absent kv (request_id (at_ st i));
  c_absent : ∀ id, id ∉ reqs.*1 → kv_absent kv id
}.

Lemma at_insert st i r j : at_ (<[i := r]> st) j = if decide (j = i) then r else at_ st j.
Proof.
  unfold at_. destruct (decide (j = i)) as [->|Hne]; [by rewrite lookup_insert_eq|by rewrite lookup_insert_ne].
Qed.

Section facts.
Context st reqs run queued kv num (Hc : core st reqs run queued kv num).

Lemma core_ref i : i ∈ queued ∨ i ∈ run → (request_id (at_ st i), i) ∈ reqs.
Proof.
  intros Hi. assert (i ∈ reqs.*2) as Hin by (rewrite <-(c_where _ _ _ _ _ _ Hc), elem_of_app; done).
  apply list_elem_of_fmap in Hin as ([id i'] & -> & Hin). cbn [snd] in *.
  destruct (c_objs _ _ _ _ _ _ Hc id i' Hin) as (-> & _). done.
Qed.

Lemma core_ok i : i ∈ queued ∨ i ∈ run → request_ok (at_ st i) ∧ obj_id (at_ st i) = i.
Proof. intros Hi. by destruct (c_objs _ _ _ _ _ _ Hc _ i (core_ref i Hi)) as (_ & ? & ?). Qed.

Lemma core_inj i j : i ∈ queued ∨ i ∈ run → j ∈ queued ∨ j ∈ run → request_id (at_ st i) = request_id (at_ st j) → i = j.
Proof.
  intros Hi%core_ref Hj%core_ref E. rewrite E in Hi. 
  pose proof (dict_get_elem _ _ _ (c_keys _ _ _ _ _ _ Hc) Hi) as E1.
  pose proof (dict_get_elem _ _ _ (c_keys _ _ _ _ _ _ Hc) Hj) as E2. congruence.
Qed.

Lemma core_NoDup : NoDup (queued ++ run).
Proof.
  rewrite (c_where _ _ _ _ _ _ Hc). pose proof (c_keys _ _ _ _ _ _ Hc) as Hk. pose proof (c_objs _ _ _ _ _ _ Hc) as Ho.
  revert Hk Ho. generalize reqs as l. clear Hc. induction l as [|[id i] l IH]; intros Hk Ho; [apply NoDup_nil_2|].
  cbn [fmap list_fmap fst snd] in Hk |- *. apply NoDup_cons in Hk as [Hn Hk]. apply NoDup_cons. split; [|apply IH; [done|intros; apply Ho; by right]].
  intros ([id' i'] & E & Hin)%list_elem_of_fmap. cbn in E. subst i'. apply Hn.
  destruct (Ho id i ltac:(left)) as (E1 & _). destruct (Ho id' i ltac:(by right)) as (E2 & _).
  apply list_elem_of_fmap. exists (id', i). split; [|done]. cbn. congruence.
Qed.
End facts.

(** ** How it changes *)

(** The cache changes for a running request, which keeps blocks enough. *)
Lemma core_kv st reqs run queued kv num i kv' :
  core st reqs run queued kv num → i ∈ run → kv_step mml (request_id (at_ st i)) kv kv' →
  kv_held kv' (request_id (at_ st i)) (num_computed_tokens (at_ st i) + given num (request_id (at_ st i))) →
  core st reqs run queued kv' num.
Proof.
  intros Hc Hi Hs Hh. pose proof Hc as [Hkv Hb Hk Ho Hw Hr Hq Ha]. split; try done.
  - apply Hs.
  - by rewrite (pf_hbs _ _ (co_pool _ _ _ (ks_only _ _ _ _ Hs))).
  - intros j Hj. destruct (decide (j = i)) as [->|Hne]; [split; [by apply Hr|done]|].
    destruct (Hr j Hj) as [Hst Hheld]. split; [done|]. apply (kv_step_other mml (request_id (at_ st i)) _ kv); [done| |done].
    intros E. apply Hne. apply (core_inj _ _ _ _ _ _ Hc); [by right..|done].
  - intros j Hj. destruct (Hq j Hj) as (H1 & H2 & Habs). split; [done|]. split; [done|].
    apply (kv_step_other mml (request_id (at_ st i)) _ kv); [done| |done].
    intros E. assert (j = i) as -> by (apply (core_inj _ _ _ _ _ _ Hc); [by left|by right|done]).
    pose proof (core_NoDup _ _ _ _ _ _ Hc) as (_ & Hd & _)%NoDup_app. by apply (Hd i).
  - intros id Hid. apply (kv_step_other mml (request_id (at_ st i)) _ kv); [done| |by apply Ha].
    intros ->. apply Hid. apply list_elem_of_fmap. exists (request_id (at_ st i), i). split; [done|].
    apply (core_ref _ _ _ _ _ _ Hc). by right.
Qed.

Lemma core_quiet st reqs run queued kv num kv' :
  core st reqs run queued kv num → kv_quiet mml kv kv' → core st reqs run queued kv' num.
Proof.
  intros [Hkv Hb Hk Ho Hw Hr Hq Ha] [Hok Hh Habs E]. split; try done.
  - congruence.
  - intros i Hi. destruct (Hr i Hi). split; [done|]. by apply Hh.
  - intros i Hi. destruct (Hq i Hi) as (? & ? & ?). split; [done|]. split; [done|]. by apply Habs.
  - intros id Hid. by apply Habs, Ha.
Qed.

(** One object changes. *)
Lemma core_objs_upd st reqs run queued kv num i r' :
  core st reqs run queued kv num → i ∈ queued ∨ i ∈ run →
  request_id r' = request_id (at_ st i) → obj_id r' = obj_id (at_ st i) → request_ok r' →
  ∀ id j, (id, j) ∈ reqs → request_id (at_ (<[i := r']> st) j) = id ∧ obj_id (at_ (<[i := r']> st) j) = j ∧
    request_ok (at_ (<[i := r']> st) j).
Proof.
  intros Hc Hi Eid Eo Hok id j Hj. rewrite at_insert. destruct (c_objs _ _ _ _ _ _ Hc id j Hj) as (E1 & E2 & E3).
  destruct (decide (j = i)) as [->|]; [|done]. by rewrite Eid, Eo.
Qed.

Lemma core_upd st reqs run queued kv num i r' :
  core st reqs run queued kv num → i ∈ queued ∨ i ∈ run →
  request_id r' = request_id (at_ st i) → obj_id r' = obj_id (at_ st i) → request_ok r' →
  num_computed_tokens r' = num_computed_tokens (at_ st i) →
  (i ∈ run → status r' = RUNNING) → (i ∈ queued → waiting_status (status r') = true) →
  core (<[i := r']> st) reqs run queued kv num.
Proof.
  intros Hc Hi Eid Eo Hok En Hrun Hq. pose proof (core_objs_upd _ _ _ _ _ _ _ _ Hc Hi Eid Eo Hok) as Hobjs.
  destruct Hc as [Hkv Hb Hk Ho Hw Hr Hqu Ha]. split; try done; intros j Hj; rewrite at_insert; destruct (decide (j = i)) as [->|]; auto.
  - rewrite En, Eid. split; [by apply Hrun|]. by apply Hr.
  - rewrite En, Eid. destruct (Hqu i Hj) as (_ & ? & ?). auto.
Qed.

(** The cache and what the request is given in this step. *)
Lemma core_grant st reqs run queued kv num i kv' n :
  core st reqs run queued kv num → i ∈ run → kv_step mml (request_id (at_ st i)) kv kv' →
  given num (request_id (at_ st i)) = 0 → 
  kv_held kv' (request_id (at_ st i)) (num_computed_tokens (at_ st i) + n) →
  kv_held kv' (request_id (at_ st i)) (num_computed_tokens (at_ st i)) →
  core st reqs run queued kv' (dict_set num (request_id (at_ st i)) n).
Proof.
  intros Hc Hi Hs H0 Hh Hh'. pose proof (core_kv _ _ _ _ _ _ _ _ Hc Hi Hs) as Hc'. rewrite H0, Z.add_0_r in Hc'.
  specialize (Hc' Hh'). destruct Hc' as [Hkv Hb Hk Ho Hw Hr Hqu Ha]. split; try done.
  intros j Hj. destruct (Hr j Hj) as [Hst Hheld]. split; [done|]. unfold given. rewrite dict_get_set.
  destruct (decide _) as [E|]; [|done]. assert (j = i) as -> by (apply (core_inj _ _ _ _ _ _ Hc); [by right..|done]). done.
Qed.

(** A running request is preempted. *)
Lemma core_preempt st reqs run run' queued kv num num' i kv' r' :
  core st reqs run queued kv num → run ≡ₚ i :: run' → kv_step mml (request_id (at_ st i)) kv kv' →
  kv_absent kv' (request_id (at_ st i)) →
  request_id r' = request_id (at_ st i) → obj_id r' = obj_id (at_ st i) → request_ok r' →
  num_computed_tokens r' = 0 → waiting_status (status r') = true →
  (∀ id, id ≠ request_id (at_ st i) → given num' id = given num id) →
  core (<[i := r']> st) reqs run' (i :: queued) kv' num'.
Proof.
  intros Hc Hp Hs Habs Eid Eo Hok En Hst Hnum.
  assert (i ∈ run) as Hi by (rewrite Hp; left). pose proof (core_NoDup _ _ _ _ _ _ Hc) as Hnd.
  pose proof (core_objs_upd _ _ _ _ _ _ _ _ Hc (or_intror Hi) Eid Eo Hok) as Hobjs.
  assert (∀ j, j ∈ queued ∨ j ∈ run → j ≠ i → request_id (at_ st j) ≠ request_id (at_ st i)) as Hne.
  { intros j Hj Hne E. apply Hne. apply (core_inj _ _ _ _ _ _ Hc); [done|by right|done]. }
  assert (i ∉ queued) as Hnq by (intros Hq; apply NoDup_app in Hnd as (_ & Hd & _); by apply (Hd i)).
  assert (i ∉ run') as Hnr by (apply NoDup_app in Hnd as (_ & _ & Hd); rewrite Hp in Hd; by apply NoDup_cons in Hd as [? _]).
  pose proof Hc as [Hkv Hb Hk Ho Hw Hr Hqu Ha]. split; try done.
  - apply Hs.
  - by rewrite (pf_hbs _ _ (co_pool _ _ _ (ks_only _ _ _ _ Hs))).
  - rewrite <-Hw, Hp. simpl. by rewrite Permutation_middle.
  - intros j Hj. rewrite at_insert, decide_False by congruence. assert (j ∈ run) as Hj' by (rewrite Hp; by right).
    assert (j ≠ i) as Hji by congruence. destruct (Hr j Hj') as [? ?]. split; [done|].
    rewrite Hnum by (apply Hne; auto). apply (kv_step_other mml (request_id (at_ st i)) _ kv); [done|apply Hne; auto|done].
  - intros j [->|Hj]%elem_of_cons; rewrite at_insert.
    + rewrite decide_True by done. by rewrite Eid.
    + assert (j ≠ i) as Hji by congruence. rewrite decide_False by done. destruct (Hqu j Hj) as (? & ? & ?).
      split; [done|]. split; [done|]. apply (kv_step_other mml (request_id (at_ st i)) _ kv); [done|apply Hne; auto|done].
  - intros id Hid. apply (kv_step_other mml (request_id (at_ st i)) _ kv); [done| |by apply Ha].
    intros ->. apply Hid. apply list_elem_of_fmap. exists (request_id (at_ st i), i). split; [done|].
    apply (core_ref _ _ _ _ _ _ Hc). by right.
Qed.

(** A waiting request starts to run. *)
Lemma core_start st reqs run queued queued' kv num i kv' r' n :
  core st reqs run queued kv num → queued ≡ₚ i :: queued' → kv_step mml (request_id (at_ st i)) kv kv' →
  kv_held kv' (request_id (at_ st i)) (num_computed_tokens r' + n) →
  request_id r' = request_id (at_ st i) → obj_id r' = obj_id (at_ st i) → request_ok r' → status r' = RUNNING →
  core (<[i := r']> st) reqs (run ++ [i]) queued' kv' (dict_set num (request_id (at_ st i)) n).
Proof.
  intros Hc Hp Hs Hh Eid Eo Hok Hst.
  assert (i ∈ queued) as Hi by (rewrite Hp; left). pose proof (core_NoDup _ _ _ _ _ _ Hc) as Hnd.
  pose proof (core_objs_upd _ _ _ _ _ _ _ _ Hc (or_introl Hi) Eid Eo Hok) as Hobjs.
  assert (∀ j, j ∈ queued ∨ j ∈ run → j ≠ i → request_id (at_ st j) ≠ request_id (at_ st i)) as Hne.
  { intros j Hj Hne E. apply Hne. apply (core_inj _ _ _ _ _ _ Hc); [done|by left|done]. }
  assert (i ∉ run) as Hnr by (intros Hq; apply NoDup_app in Hnd as (_ & Hd & _); by apply (Hd i)).
  assert (i ∉ queued') as Hnq by (apply NoDup_app in Hnd as (Hd & _); rewrite Hp in Hd; by apply NoDup_cons in Hd as [? _]).
  pose proof Hc as [Hkv Hb Hk Ho Hw Hr Hqu Ha]. split; try done.
  - apply Hs.
  - by rewrite (pf_hbs _ _ (co_pool _ _ _ (ks_only _ _ _ _ Hs))).
  - rewrite <-Hw, Hp. simpl. rewrite (Permutation_app_comm run [i]). simpl. by rewrite Permutation_middle.
  - intros j [Hj| ->%list_elem_of_singleton]%elem_of_app; rewrite at_insert; unfold given; rewrite dict_get_set.
    + assert (j ≠ i) as Hji by congruence. rewrite !decide_False by (try done; apply Hne; auto). destruct (Hr j Hj) as [? ?].
      split; [done|]. apply (kv_step_other mml (request_id (at_ st i)) _ kv); [done|apply Hne; auto|done].
    + rewrite !(decide_True (P := i = i)) by done. rewrite Eid, decide_True by done. done.
  - intros j Hj. assert (j ∈ queued) as Hj' by (rewrite Hp; by right). assert (j ≠ i) as Hji by congruence.
    rewrite at_insert, decide_False by done. destruct (Hqu j Hj') as (? & ? & ?).
    split; [done|]. split; [done|]. apply (kv_step_other mml (request_id (at_ st i)) _ kv); [done|apply Hne; auto|done].
  - intros id Hid. apply (kv_step_other mml (request_id (at_ st i)) _ kv); [done| |by apply Ha].
    intros ->. apply Hid. apply list_elem_of_fmap. exists (request_id (at_ st i), i). split; [done|].
    apply (core_ref _ _ _ _ _ _ Hc). by left.
Qed.

(** The cache changes for a waiting request that still holds nothing. *)
Lemma core_kv_queued st reqs run queued kv num i kv' :
  core st reqs run queued kv num → i ∈ queued → kv_step mml (request_id (at_ st i)) kv kv' →
  kv_absent kv' (request_id (at_ st i)) → core st reqs run queued kv' num.
Proof.
  intros Hc Hi Hs Hh. pose proof Hc as [Hkv Hb Hk Ho Hw Hr Hq Ha]. split; try done.
  - apply Hs.
  - by rewrite (pf_hbs _ _ (co_pool _ _ _ (ks_only _ _ _ _ Hs))).
  - intros j Hj. destruct (Hr j Hj) as [Hst Hheld]. split; [done|].
    apply (kv_step_other mml (request_id (at_ st i)) _ kv); [done| |done].
    intros E. assert (j = i) as -> by (apply (core_inj _ _ _ _ _ _ Hc); [by right|by left|done]).
    pose proof (core_NoDup _ _ _ _ _ _ Hc) as (_ & Hd & _)%NoDup_app. by apply (Hd i).
  - intros j Hj. destruct (Hq j Hj) as (H1 & H2 & Habs). split; [done|]. split; [done|].
    destruct (decide (j = i)) as [->|Hne]; [done|]. apply (kv_step_other mml (request_id (at_ st i)) _ kv); [done| |done].
    intros E. apply Hne. apply (core_inj _ _ _ _ _ _ Hc); [by left..|done].
  - intros id Hid. apply (kv_step_other mml (request_id (at_ st i)) _ kv); [done| |by apply Ha].
    intros ->. apply Hid. apply list_elem_of_fmap. exists (request_id (at_ st i), i). split; [done|].
    apply (core_ref _ _ _ _ _ _ Hc). by left.
Qed.

(** After the step the tokens given count as computed. *)
Lemma core_advance st reqs run queued kv num i n r' :
  core st reqs run queued kv num → i ∈ run → dict_get num (request_id (at_ st i)) = Some n → NoDup num.*1 →
  request_id r' = request_id (at_ st i) → obj_id r' = obj_id (at_ st i) → request_ok r' → status r' = RUNNING →
  num_computed_tokens r' = num_computed_tokens (at_ st i) + n →
  core (<[i := r']> st) reqs run queued kv (dict_del num (request_id (at_ st i))).
Proof.
  intros Hc Hi Hn Hnd Eid Eo Hok Hst En.
  pose proof (core_objs_upd _ _ _ _ _ _ _ _ Hc (or_intror Hi) Eid Eo Hok) as Hobjs.
  pose proof (core_NoDup _ _ _ _ _ _ Hc) as (_ & Hd & _)%NoDup_app.
  pose proof Hc as [Hkv Hb Hk Ho Hw Hr Hqu Ha]. split; try done.
  - intros j Hj. rewrite at_insert. unfold given. destruct (decide (j = i)) as [->|Hne].
    + rewrite Eid, dict_get_del, decide_True by done. simpl. rewrite En, Z.add_0_r. split; [done|].
      destruct (Hr i Hi) as [_ Hh]. unfold given in Hh. by rewrite Hn in Hh.
    + rewrite dict_get_del, decide_False by (try done; intros E; apply Hne; apply (core_inj _ _ _ _ _ _ Hc); auto).
      by apply Hr.
  - intros j Hj. rewrite at_insert, decide_False; [by apply Hqu|]. intros ->. by apply (Hd i).
Qed.
End core.
