(* ===== verification/SchedulerStep.v ===== *)
(** * One step of the scheduler

    [schedule] in order: running requests first, preempting when the cache is
    full, then waiting ones; it never raises, keeps the state in order, spends no
    more than its token budget and gives every scheduled request its blocks. *)

From stdpp Require Import base list gmap strings.
From Stdlib Require Import ZArith Lia.
From S2P Require Import Prelude FreeQueue Request BlockHash BlockPool EncoderCache RequestQueue KVCacheSpec CacheManagers CacheHit Coordinator.
From S2P Require Import ManagerSpecs KVCacheManager CacheInvariant Admission KVService Scheduler SchedulerInvariant.
Local Open Scope Z_scope.

(** ** The steps of [schedule] *)

(** The configurations of the model. *)
Record plain_config (cfg : SchedulerConfig) : Prop := {
  pc_mamba : need_mamba_block_aligned_split cfg = false;
  pc_sync : async_scheduling cfg = false;
  pc_loras : max_loras cfg = None;
  pc_lookahead : 0 ≤ num_lookahead_tokens cfg;
  pc_budget : 0 ≤ max_num_scheduled_tokens cfg
}.

Lemma the_insert {Q E} i r (st : gmap Z Request) (s : Scheduler (Q := Q) (E := E)) :
  the i (set_store (<[i := r]> st) s) = r.
Proof. unfold the. cbn. by rewrite lookup_insert_eq. Qed.

(** Two writes to an object are one. *)
Lemma wp_upd_upd {Q E A} i f g (k : M (Scheduler (Q := Q) (E := E)) A) P X s :
  wp (upd i (λ r, g (f r)) ;; k) P X s → wp (upd i f ;; (upd i g ;; k)) P X s.
Proof.
  unfold upd, wp, mbind, M_bind, modify. rewrite the_insert. cbn. by rewrite insert_insert_eq.
Qed.

Lemma wp_upd_skip {Q E A} i f (k : M (Scheduler (Q := Q) (E := E)) A) P X s :
  wp (upd i f ;; k) P X s → wp (upd i f ;; (mret tt ;; k)) P X s.
Proof. done. Qed.

(** ** The running list *)

Lemma dict_del_absent {K V} `{EqDecision K} (d : list (K * V)) k : k ∉ d.*1 → dict_del d k = d.
Proof.
  induction d as [|[k' v] d IH]; [done|]. rewrite fmap_cons. cbn [fst dict_del]. intros [Hk Hd]%not_elem_of_cons.
  by rewrite decide_False, IH.
Qed.

Lemma sum_given_del (d : list (string * Z)) k : sumZ (dict_del d k).*2 + given d k = sumZ d.*2.
Proof.
  unfold given. induction d as [|[k' v] d IH]; [done|]. cbn [dict_del dict_get]. destruct (decide (k = k')); cbn; unfold id; [lia|].
  unfold id in IH. rewrite <-IH. cbn. unfold id. lia.
Qed.

Lemma sum_given_set (d : list (string * Z)) k n : sumZ (dict_set d k n).*2 = sumZ d.*2 - given d k + n.
Proof.
  unfold given. induction d as [|[k' v] d IH]; [simpl; lia|]. cbn [dict_set dict_get]. destruct (decide (k = k')); cbn; unfold id; [lia|].
  rewrite IH. unfold id. lia.
Qed.

Lemma max_by_elem lt (l : list Z) : l ≠ [] → ∃ x, max_by lt l = Ok x ∧ x ∈ l.
Proof.
  destruct l as [|x l]; [done|]. intros _. eexists. split; [done|]. revert x. induction l as [|y l IH]; intros x; simpl.
  - by left.
  - specialize (IH (if lt x y then y else x)). destruct (lt x y).
    + by right.
    + apply elem_of_cons in IH as [IH|IH]; [rewrite IH; left|by right; right].
Qed.

Lemma remove_first_spec x l :
  x ∈ l → ∃ a b, l = a ++ x :: b ∧ remove_first x l = Some (a ++ b).
Proof.
  induction l as [|y l IH]; intros Hx; [by apply elem_of_nil in Hx|]. simpl. destruct (decide (y = x)) as [->|Hne].
  - by exists [], l.
  - apply elem_of_cons in Hx as [->|Hx]; [done|]. destruct (IH Hx) as (a & b & -> & ->). by exists (y :: a), b.
Qed.

Lemma remove_first_perm x l l' : remove_first x l = Some l' → l ≡ₚ x :: l'.
Proof.
  revert l'. induction l as [|y l IH]; intros l'; simpl; [done|]. destruct (decide (y = x)) as [->|]; [by intros [= ->]|].
  destruct (remove_first x l) as [l1|]; [|done]. simpl. intros [= <-]. rewrite (IH _ eq_refl). apply Permutation_swap.
Qed.

Lemma pop_last_spec {A} (l : list A) : l ≠ [] → ∃ a x, l = a ++ [x] ∧ pop_last l = Some (x, a).
Proof.
  intros Hl. destruct l as [|x a _] using rev_ind; [done|]. exists a, x. split; [done|].
  unfold pop_last. rewrite last_snoc, length_app. simpl. by rewrite Nat.add_sub, take_app_length.
Qed.

(** One item is taken out of a list without duplicates: the others stay, and do not
    move back. *)
Lemma take_removed (a b : list Z) v j n :
  NoDup (a ++ v :: b) → j ≠ v → j ∈ take n (a ++ v :: b) → j ∈ take n (a ++ b).
Proof.
  intros _ Hne. rewrite !take_app, !elem_of_app. intros [?|Hj]; [by left|]. right.
  destruct (n - length a)%nat as [|k]; [by apply elem_of_nil in Hj|]. simpl in Hj. apply elem_of_cons in Hj as [->|Hj]; [done|].
  assert (take k b ⊆ take (S k) b) as Hs; [|by apply Hs].
  intros y Hy. apply elem_of_take in Hy as (i & Hi & Hlt). apply elem_of_take. exists i. split; [done|lia].
Qed.

Lemma take_removed_before (a b : list Z) v j n :
  NoDup (a ++ v :: b) → j ≠ v → v ∈ take (S n) (a ++ v :: b) → j ∈ take (S n) (a ++ v :: b) → j ∈ take n (a ++ b).
Proof.
  intros Hnd Hne Hv Hj. apply NoDup_app in Hnd as (_ & Hd & _).
  assert (length a ≤ n)%nat as Hlen.
  { rewrite take_app, elem_of_app in Hv. destruct Hv as [Hv|Hv].
    - exfalso. apply (Hd v); [|left]. apply elem_of_take in Hv as (? & Hv & _). by eapply list_elem_of_lookup_2.
    - destruct (S n - length a)%nat eqn:En; [by apply elem_of_nil in Hv|lia]. }
  rewrite take_app, elem_of_app in Hj |- *. destruct Hj as [Hj|Hj]; [left; by rewrite take_ge in Hj |- * by lia|right].
  replace (S n - length a)%nat with (S (n - length a)) in Hj by lia. simpl in Hj. by apply elem_of_cons in Hj as [->|].
Qed.

Section steps.
Context {Q E : Type} `{!RequestQueue Q} `{!EncoderManager E}.
Context (queue_rep : Q → list Request → Prop) `{!RequestQueueLaws Q queue_rep} `{!EncoderManagerLaws E}.
Context `{RC : !RequestContent} (use_int : bool) (sha256 : bytes → bytes).
Context (cfg : SchedulerConfig) (Hcfg : plain_config cfg).
Abbreviation Sched := (Scheduler (Q := Q) (E := E)).
Abbreviation St := (Step (Q := Q) (E := E)).
Abbreviation mml := (max_model_len cfg).
Abbreviation kv := kv_cache_manager.

(** The object after a preemption. *)
Record preempted_from (r r' : Request) : Prop := {
  pf_id : request_id r' = request_id r;
  pf_obj : obj_id r' = obj_id r;
  pf_ok : request_ok sha256 cfg r';
  pf_computed : num_computed_tokens r' = 0;
  pf_status : status r' = PREEMPTED
}.

Lemma preempt_spec (s : Sched) i lw :
  kv_ok mml (kv s) → status (the i s) = RUNNING → request_ok sha256 cfg (the i s) → queue_rep (waiting s) lw →
  wp (_preempt_request i) (λ _ s', ∃ kv' q' lw' r', 
      s' = set_waiting q' (set_kv_cache_manager kv' (set_store (<[i := r']> (store s)) s)) ∧
      kv_step mml (request_id (the i s)) (kv s) kv' ∧ kv_absent kv' (request_id (the i s)) ∧ preempted_from (the i s) r' ∧
      queue_rep q' lw' ∧ lw' ≡ₚ r' :: lw) no_exn s.
Proof.
  intros Hkv Hst Hok Hq. unfold _preempt_request. wp_step. wp_step. wp_step.
  apply wp_assert; [by apply bool_decide_eq_true_2|]. wp_step. wp_step. cbn [lget lset kvmL].
  eapply wp_mono; [by apply (kv_free_spec mml)| |done]. intros [] kv1 [Hstep Habs].
  wp_step. wp_step. cbn [lget lset encL]. unfold wp at 1.
  rewrite law_text_free by apply Hok. cbn [encoder_cache_manager set_kv_cache_manager].
  destruct (rk_plain _ _ _ Hok) as (Hres & Hspec & Hph). rewrite Hspec.
  rewrite (bool_decide_eq_false_2 ([] ≠ [])) by (intros Hne; by apply Hne).
  cbv iota. apply wp_upd_upd, wp_upd_skip. cbn beta.
  apply wp_upd_upd. cbn beta. unfold upd. wp_step. wp_step. 
  cbn [num_preemptions set_num_computed_tokens set_status store set_encoder_cache_manager set_kv_cache_manager].
  change (the i (set_encoder_cache_manager (encoder_cache_manager s) (set_kv_cache_manager kv1 s))) with (the i s).
  set (r' := set_num_preemptions _ _). wp_step. wp_step. wp_step. wp_step. rewrite the_insert. cbn [waiting set_store set_encoder_cache_manager set_kv_cache_manager]. wp_step.
  destruct (law_prepend _ _ r' Hq) as (q' & l' & -> & Hq' & Hp). unfold lift_res, wp at 1. wp_step.
  exists kv1, q', l', r'. split; [by destruct s|]. do 2 (split; [done|]). split; [|done].
  unfold r'. destruct Hok as [H1 H2 H3 H4 H5 H6]. split; try done. split; try done; [|by destruct H5|unfold r'; auto with content].
  change (0 ≤ 0 ≤ num_tokens (the i s)). lia.
Qed.

(** ** The state during a step *)

Abbreviation ref s i := (request_id (the i s)).

(** The references in the two queues. *)
Definition queued_in (s : Sched) (l : list Z) : Prop :=
  ∃ lw lk, queue_rep (waiting s) lw ∧ queue_rep (skipped_waiting s) lk ∧ l ≡ₚ obj_id <$> (lw ++ lk).

(** Everything scheduled so far in this step. *)
Definition scheduled (t : St) : list Z := scheduled_running_reqs t ++ scheduled_resumed_reqs t ++ scheduled_new_reqs t.

(** A preempted request was not scheduled in the step before. *)
Definition not_resumed (s : Sched) (queued : list Z) : Prop :=
  ∀ i, i ∈ queued → status (the i s) = PREEMPTED → ref s i ∉ prev_step_scheduled_req_ids s.

Record step_inv (budget : Z) (t : St) (queued : list Z) : Prop := {
  si_core : core sha256 cfg (store (sched t)) (requests (sched t)) (running (sched t)) queued (kv (sched t))
              (num_scheduled_tokens t);
  si_len : Z.of_nat (length (running (sched t))) ≤ max_num_running_reqs cfg;
  si_keys : NoDup (num_scheduled_tokens t).*1;
  si_known : ∀ id, id ∈ (num_scheduled_tokens t).*1 → ∃ i, i ∈ running (sched t) ∧ ref (sched t) i = id;
  si_elem : ∀ i, i ∈ running (sched t) → ref (sched t) i ∈ (num_scheduled_tokens t).*1 ↔ i ∈ scheduled t;
  si_nodup : NoDup (scheduled t);
  si_sub : scheduled t ⊆ running (sched t);
  si_positive : ∀ id n, (id, n) ∈ num_scheduled_tokens t → 0 < n;
  si_fits : ∀ i, i ∈ running (sched t) →
    num_computed_tokens (the i (sched t)) + given (num_scheduled_tokens t) (ref (sched t) i) ≤ num_tokens (the i (sched t));
  si_sum : sumZ (num_scheduled_tokens t).*2 + token_budget t = budget;
  si_budget : 0 ≤ token_budget t;
  si_blocks : NoDup (req_to_new_blocks t).*1 ∧ ∀ id, id ∈ (req_to_new_blocks t).*1 ↔ id ∈ (num_scheduled_tokens t).*1;
  si_plain : scheduled_spec_decode_tokens t = [] ∧ scheduled_encoder_inputs t = [] ∧ scheduled_loras t = ∅;
  si_prev : preempted_reqs t = [] → not_resumed (sched t) queued;
  si_resumed : ∀ i, i ∈ scheduled_resumed_reqs t → ref (sched t) i ∉ prev_step_scheduled_req_ids (sched t)
}.

Section facts.
Context budget t queued (Ht : step_inv budget t queued).

Lemma si_inj i j : i ∈ running (sched t) → j ∈ running (sched t) → ref (sched t) i = ref (sched t) j → i = j.
Proof. intros Hi Hj. by apply (core_inj _ _ _ _ _ _ _ _ (si_core _ _ _ Ht)); right. Qed.

Lemma si_unscheduled i : i ∈ running (sched t) → i ∉ scheduled t → given (num_scheduled_tokens t) (ref (sched t) i) = 0.
Proof. intros Hi Hn. unfold given. by rewrite (proj2 (dict_get_None _ _)) by (by rewrite (si_elem _ _ _ Ht)). Qed.

Lemma si_given id : 0 ≤ given (num_scheduled_tokens t) id.
Proof.
  unfold given. destruct (dict_get _ _) as [n|] eqn:En; cbn; [|lia]. apply dict_get_Some, (si_positive _ _ _ Ht) in En.
  unfold Datatypes.id. lia.
Qed.

Lemma si_run_NoDup : NoDup (running (sched t)).
Proof. by pose proof (core_NoDup _ _ _ _ _ _ _ _ (si_core _ _ _ Ht)) as (_ & _ & ?)%NoDup_app. Qed.
End facts.
(** Reads and writes of the step and of the scheduler are computed. *)
Ltac step_cbn := cbn [
    lget lset schedL kvmL encL compose sched scheduled_new_reqs scheduled_resumed_reqs scheduled_running_reqs
    preempted_reqs req_to_new_blocks num_scheduled_tokens token_budget scheduled_encoder_inputs
    encoder_compute_budget scheduled_spec_decode_tokens req_index scheduled_loras step_skipped_waiting
    set_sched set_scheduled_new_reqs set_scheduled_resumed_reqs set_scheduled_running_reqs set_preempted_reqs
    set_req_to_new_blocks set_num_scheduled_tokens set_token_budget set_scheduled_encoder_inputs
    set_encoder_compute_budget set_scheduled_spec_decode_tokens set_req_index set_scheduled_loras
    set_step_skipped_waiting store requests waiting skipped_waiting running finished_req_ids
    finished_req_ids_dict prev_step_scheduled_req_ids num_waiting_for_streaming_input kv_cache_manager
    encoder_cache_manager _pause_state streaming_queues grammars set_store set_requests set_waiting
    set_skipped_waiting set_running set_finished_req_ids set_finished_req_ids_dict
    set_prev_step_scheduled_req_ids set_num_waiting_for_streaming_input set_kv_cache_manager
    set_encoder_cache_manager set_pause_state set_streaming_queues set_grammars].

(** ** Preemption *)

(** Victim [v] has left the running list and this step's schedule. *)
Record taken (t t' : St) (v : Z) (a b : list Z) : Prop := {
  tk_running : running (sched t) = a ++ v :: b;
  tk_sched : sched t' = set_running (a ++ b) (sched t);
  tk_nodup : NoDup (scheduled_running_reqs t');
  tk_scheduled : ∀ j, j ∈ scheduled_running_reqs t' ↔ j ∈ scheduled_running_reqs t ∧ j ≠ v;
  tk_num : num_scheduled_tokens t' = dict_del (num_scheduled_tokens t) (ref (sched t) v);
  tk_budget : token_budget t' = token_budget t + given (num_scheduled_tokens t) (ref (sched t) v);
  tk_blocks : req_to_new_blocks t' = dict_del (req_to_new_blocks t) (ref (sched t) v);
  tk_index : req_index t' = req_index t - (if decide (v ∈ scheduled_running_reqs t) then 1 else 0);
  tk_fcfs : policy cfg ≠ PRIORITY → b = [] ∧ v ∉ scheduled_running_reqs t;
  tk_same : scheduled_new_reqs t' = scheduled_new_reqs t ∧ scheduled_resumed_reqs t' = scheduled_resumed_reqs t ∧
    preempted_reqs t' = preempted_reqs t ∧ scheduled_spec_decode_tokens t' = scheduled_spec_decode_tokens t ∧
    scheduled_encoder_inputs t' = scheduled_encoder_inputs t ∧ scheduled_loras t' = scheduled_loras t
}.

(** The running phase, up to the request at [req_index]. *)
Record running_phase (t : St) : Prop := {
  rp_none : scheduled_resumed_reqs t = [] ∧ scheduled_new_reqs t = [];
  rp_index : 0 ≤ req_index t;
  rp_before : ∀ j, j ∈ scheduled_running_reqs t → j ∈ take (Z.to_nat (req_index t)) (running (sched t))
}.

Record current (t : St) (i : Z) : Prop := {
  cu_at : i ∈ take (S (Z.to_nat (req_index t))) (running (sched t));
  cu_new : i ∉ scheduled_running_reqs t;
  cu_fcfs : policy cfg ≠ PRIORITY → running (sched t) !! Z.to_nat (req_index t) = Some i
}.

Lemma current_running t i : current t i → i ∈ running (sched t).
Proof. intros [H%elem_of_take _ _]. destruct H as (k & Hk & _). by eapply list_elem_of_lookup_2. Qed.

Lemma running_scheduled t j : running_phase t → j ∈ scheduled t ↔ j ∈ scheduled_running_reqs t.
Proof. intros [[Hr Hn] _ _]. unfold scheduled. by rewrite Hr, Hn, !app_nil_r. Qed.

Lemma unschedule_spec budget t queued v a b :
  step_inv budget t queued → running_phase t → running (sched t) = a ++ v :: b → v ∈ scheduled_running_reqs t → policy cfg = PRIORITY →
  wp (unschedule v) (λ _ t', taken t t' v a b) no_exn (set_sched (set_running (a ++ b) (sched t)) t).
Proof.
  intros Ht Hp Hrun Hv Hpol. unfold unschedule. wp_step. wp_step. wp_step. wp_step.
  cbn [scheduled_running_reqs set_sched sched]. set (id := request_id _). assert (id = ref (sched t) v) as Hid by done.
  destruct (remove_first_spec v _ Hv) as (sa & sb & Esc & ->). wp_step. apply (wp_lift_some _ _ (sa ++ sb)); [done|].
  assert (v ∈ running (sched t)) as Hvr by (rewrite Hrun; set_solver).
  assert (id ∈ (num_scheduled_tokens t).*1) as Hin.
  { rewrite Hid. apply (si_elem _ _ _ Ht); [done|]. by apply running_scheduled. }
  destruct (dict_get (num_scheduled_tokens t) id) as [n|] eqn:En; [|by apply dict_get_None in En].
  destruct (dict_get (req_to_new_blocks t) id) as [nb|] eqn:Eb.
  2:{ apply dict_get_None in Eb. exfalso. apply Eb. by apply (si_blocks _ _ _ Ht). }
  destruct (si_plain _ _ _ Ht) as (Hspec & Henc & Hlo).
  destruct t as [s new res srun pre blocks num tb enc eb spec idx lor skip]. cbn in Henc, Hspec, Esc, Hid, En. unfold add_budget, advance. step_cbn.
  repeat first [wp_step | eapply wp_lift_some; [eassumption|]]; step_cbn.
  rewrite Henc. cbn [dict_get default from_option id sum_encoder_embeds map_res].
  apply wp_lift_res; [|done]. intros ? [= <-]. repeat wp_step.
  assert (NoDup (sa ++ v :: sb)) as Hnd by (rewrite <-Esc; pose proof (si_nodup _ _ _ Ht) as H; unfold scheduled in H; by apply NoDup_app in H as [? _]).
  split; cbn; try done; rewrite ?Hid; try done.
  - apply NoDup_app in Hnd as (? & Hd & ?%NoDup_cons_1_2). apply NoDup_app. split; [done|]. split; [|done].
    intros x Hx Hb. apply (Hd x Hx). by right.
  - intros j. rewrite Esc, !elem_of_app, elem_of_cons. apply NoDup_app in Hnd as (_ & Hd & [Hn _]%NoDup_cons).
    split; [intros [Hj|Hj]|]; [split; [tauto|intros ->; apply (Hd v Hj); left]|split; [tauto|by intros ->]|tauto].
  - rewrite <-Hid. unfold given. by rewrite En.
  - by rewrite decide_True.
  - by rewrite Hspec, ?Henc.
Qed.

Lemma taken_unscheduled budget t queued v a b :
  step_inv budget t queued → running_phase t → running (sched t) = a ++ v :: b → v ∉ scheduled_running_reqs t →
  (policy cfg ≠ PRIORITY → b = []) →
  taken t (set_sched (set_running (a ++ b) (sched t)) t) v a b.
Proof.
  intros Ht Hp Hrun Hv Hpol. assert (v ∈ running (sched t)) as Hvr by (rewrite Hrun; set_solver).
  assert (ref (sched t) v ∉ (num_scheduled_tokens t).*1) as Hn.
  { rewrite (si_elem _ _ _ Ht) by done. by rewrite running_scheduled. }
  split; cbn; try done.
  - pose proof (si_nodup _ _ _ Ht) as H. unfold scheduled in H. by apply NoDup_app in H as [? _].
  - intros j. split; [|by intros []]. intros Hj. split; [done|]. by intros ->.
  - by rewrite dict_del_absent.
  - unfold given. rewrite (proj2 (dict_get_None _ _) Hn). cbn. lia.
  - rewrite dict_del_absent; [done|]. intros H. apply Hn. by apply (si_blocks _ _ _ Ht).
  - rewrite decide_False by done. lia.
  - by intros ?%Hpol.
Qed.

Lemma take_victim_spec budget t queued i :
  step_inv budget t queued → running_phase t → current t i →
  wp (take_victim cfg) (λ v t', ∃ a b, taken t t' v a b) no_exn t.
Proof.
  intros Ht Hp Hi. pose proof (current_running _ _ Hi) as Hir.
  assert (running (sched t) ≠ []) as Hne by (intros E0; rewrite E0 in Hir; by apply elem_of_nil in Hir).
  unfold take_victim. wp_step. wp_step. wp_step; [apply bool_decide_eq_true in Hif|apply bool_decide_eq_false in Hif].
  - destruct (max_by_elem (λ a b, (priority (the a (sched t)) <? priority (the b (sched t))) ||
      (bool_decide (priority (the a (sched t)) = priority (the b (sched t))) &&
       (arrival_time (the a (sched t)) <? arrival_time (the b (sched t))))) _ Hne) as (v & -> & Hv).
    wp_step. apply wp_lift_res; [|done]. intros ? [= <-].
    destruct (remove_first_spec v _ Hv) as (a & b & Erun & ->). wp_step. apply (wp_lift_some _ _ (a ++ b)); [done|].
    do 6 wp_step. wp_step; cbn [scheduled_running_reqs set_sched lset schedL sched] in *.
    + apply bool_decide_eq_true in Hif0.
      eapply wp_mono; [by apply (unschedule_spec budget t queued v a b)| |done]. intros [] t' Htk. wp_step. by exists a, b.
    + apply bool_decide_eq_false in Hif0. do 2 wp_step. exists a, b. by apply (taken_unscheduled budget t queued).
  - destruct (pop_last_spec _ Hne) as (a & v & Erun & Epop).
    wp_step. apply (wp_lift_some _ _ (v, a)); [done|]. do 4 wp_step. cbn [lset lget schedL].
    exists a, []. rewrite <-(app_nil_r a) at 1.
    apply (taken_unscheduled budget t queued); [done..| |done]. intros Hv. apply (rp_before _ Hp) in Hv.
    pose proof (si_run_NoDup _ _ _ Ht) as Hnd. rewrite Erun in Hnd, Hv.
    pose proof (lookup_lt_Some _ _ _ (cu_fcfs _ _ Hi Hif)) as Hlt. rewrite Erun, length_app in Hlt. cbn in Hlt.
    rewrite take_app_le in Hv by lia. apply NoDup_app in Hnd as (_ & Hd & _). apply (Hd v); [|left].
    apply elem_of_take in Hv as (? & Hv & _). by eapply list_elem_of_lookup_2.
Qed.

(** What the phases leave alone. *)
Record sched_frame (s s' : Sched) : Prop := {
  sf_requests : requests s' = requests s;
  sf_prev : prev_step_scheduled_req_ids s' = prev_step_scheduled_req_ids s;
  sf_pause : _pause_state s' = _pause_state s;
  sf_ids : ∀ i, ref s' i = ref s i
}.

#[local] Instance sched_frame_refl : Reflexive sched_frame.
Proof. done. Qed.
#[local] Instance sched_frame_trans : Transitive sched_frame.
Proof. intros s1 s2 s3 [] []. split; congruence. Qed.

(** Requests still to be looked at. *)
Definition remaining (t : St) : Z := Z.of_nat (length (running (sched t))) - req_index t.

(** The state after one preemption. *)
Record preempted (budget : Z) (t t' : St) (v : Z) (a b queued : list Z) : Prop := {
  pr_inv : step_inv budget t' (v :: queued);
  pr_queued : queued_in (sched t') (v :: queued);
  pr_phase : running_phase t';
  pr_running : running (sched t') = a ++ b;
  pr_some : preempted_reqs t' ≠ [];
  pr_remaining : remaining t' ≤ remaining t;
  pr_budget : token_budget t ≤ token_budget t';
  pr_current : ∀ i, i ≠ v → current t i → current t' i;
  pr_others : ∀ i, i ≠ v → the i (sched t') = the i (sched t);
  pr_frame : sched_frame (sched t) (sched t')
}.

Lemma taken_phase budget t t' v a b queued :
  step_inv budget t queued → running_phase t → taken t t' v a b → 
  running_phase t' ∧ remaining t' ≤ remaining t ∧ ∀ i, i ≠ v → current t i → current t' i.
Proof.
  intros Ht Hp Htk. pose proof (si_run_NoDup _ _ _ Ht) as Hnd. destruct Hp as [Hno Hix Hbef].
  destruct Htk as [Hrun Es Hnd' Hsch Hnum Htb Hbl Hidx Hfcfs (E1 & E2 & _)].
  rewrite Hrun in Hnd. 
  assert (v ∈ scheduled_running_reqs t → v ∈ take (Z.to_nat (req_index t)) (a ++ v :: b) ∧ 0 < req_index t) as Hv.
  { intros Hv. apply Hbef in Hv. rewrite Hrun in Hv. split; [done|]. destruct (decide (req_index t = 0)) as [E0|]; [|lia].
    rewrite E0 in Hv. by apply elem_of_nil in Hv. }
  assert (running (sched t') = a ++ b) as Hrun' by by rewrite Es.
  split_and!.
  - split; [by rewrite E1, E2|rewrite Hidx; destruct (decide _) as [Hin|]; [apply Hv in Hin|]; lia|].
    intros j [Hj Hne]%Hsch. apply Hbef in Hj. rewrite Hrun in Hj. rewrite Hrun', Hidx. destruct (decide _) as [Hin|].
    + apply Hv in Hin as [Hin Hpos]. apply (take_removed_before _ _ v); [done|done|..];
        by replace (S (Z.to_nat (req_index t - 1))) with (Z.to_nat (req_index t)) by lia.
    + rewrite Z.sub_0_r. by apply (take_removed _ _ v).
  - unfold remaining. rewrite Hrun', Hrun, Hidx, !length_app. simpl. destruct (decide _); lia.
  - intros i Hne [Hat Hnew Hf]. rewrite Hrun in Hat, Hf. split.
    + rewrite Hrun', Hidx. destruct (decide _) as [Hin|].
      * apply Hv in Hin as [Hin Hpos]. replace (S (Z.to_nat (req_index t - 1))) with (Z.to_nat (req_index t)) by lia.
        apply (take_removed_before _ _ v); [done|done| |done].
        apply elem_of_take in Hin as (k & ? & ?). apply elem_of_take. exists k. split; [done|lia].
      * rewrite Z.sub_0_r. by apply (take_removed _ _ v).
    + intros Hi. by apply Hsch in Hi as [Hi _].
    + intros Hpol. destruct (Hfcfs Hpol) as [-> Hv']. rewrite Hrun', Hidx, decide_False, Z.sub_0_r, app_nil_r by done.
      specialize (Hf Hpol). apply lookup_app_Some in Hf as [Hf|[_ Hf]]; [done|].
      apply list_lookup_singleton_Some in Hf as [_ ->]. done.
Qed.

(** What a preemption does to the store, the waiting queue and the cache. *)
Section victim.
Context (budget : Z) (t t1 : St) (v : Z) (a b queued : list Z) (kv' : KVCacheManager) (q' : Q) (lw lw' : list Request) (r' : Request).
Context (Ht : step_inv budget t queued) (Hp : running_phase t) (Htk : taken t t1 v a b).
Context (Hstep : kv_step mml (ref (sched t) v) (kv (sched t)) kv') (Habs : kv_absent kv' (ref (sched t) v)).
Context (Hfrom : preempted_from (the v (sched t)) r').

(** The victim [r'] is back in the store and out of the cache. *)
Let t' : St :=
  set_preempted_reqs (preempted_reqs t1 ++ [v])
    (set_sched (set_waiting q' (set_kv_cache_manager kv' (set_store (<[v := r']> (store (sched t1))) (sched t1)))) t1).

#[local] Lemma victim_sched : sched t' = set_waiting q' (set_kv_cache_manager kv' (set_store (<[v := r']> (store (sched t))) (set_running (a ++ b) (sched t)))).
Proof. unfold t'. cbn. by rewrite (tk_sched _ _ _ _ _ Htk). Qed.

#[local] Lemma victim_running : v ∈ running (sched t).
Proof. rewrite (tk_running _ _ _ _ _ Htk). apply elem_of_app. by right; left. Qed.

#[local] Lemma victim_rest i : i ∈ a ++ b → i ∈ running (sched t) ∧ i ≠ v.
Proof.
  intros Hi. pose proof (si_run_NoDup _ _ _ Ht) as Hnd. rewrite (tk_running _ _ _ _ _ Htk) in *.
  split; [rewrite elem_of_app, elem_of_cons in *; tauto|]. intros ->.
  apply NoDup_app in Hnd as (_ & Hd & [Hn _]%NoDup_cons). apply elem_of_app in Hi as [Hi|Hi]; [apply (Hd v Hi); left|done].
Qed.

#[local] Lemma victim_store i : the i (sched t') = if decide (i = v) then r' else the i (sched t).
Proof.
  assert (store (sched t') = <[v := r']> (store (sched t))) as E0 by by rewrite victim_sched.
  transitivity (at_ (<[v := r']> (store (sched t))) i); [unfold the; by rewrite E0|by rewrite at_insert].
Qed.

#[local] Lemma victim_ref i : ref (sched t') i = ref (sched t) i.
Proof. rewrite victim_store. destruct (decide (i = v)) as [->|]; [apply Hfrom|done]. Qed.

#[local] Lemma victim_scheduled j : j ∈ scheduled t' ↔ j ∈ scheduled t ∧ j ≠ v.
Proof.
  destruct (tk_same _ _ _ _ _ Htk) as (E1 & E2 & _). destruct (rp_none _ Hp) as [Eres Enew].
  unfold scheduled, t'. cbn. rewrite E1, E2, Eres, Enew, !app_nil_r. apply Htk.
Qed.

#[local] Lemma victim_num : num_scheduled_tokens t' = dict_del (num_scheduled_tokens t) (ref (sched t) v).
Proof. apply Htk. Qed.

#[local] Lemma victim_given id : id ≠ ref (sched t) v → given (num_scheduled_tokens t') id = given (num_scheduled_tokens t) id.
Proof. intros Hne. unfold given. rewrite victim_num, dict_get_del by apply Ht. by rewrite decide_False. Qed.

#[local] Lemma victim_other i : i ∈ a ++ b → ref (sched t) i ≠ ref (sched t) v.
Proof. intros [Hi Hne]%victim_rest E0. apply Hne, (si_inj budget t queued Ht); [done|apply victim_running|done]. Qed.

#[local] Lemma victim_step_inv : step_inv budget t' (v :: queued).
Proof.
  pose proof (tk_same _ _ _ _ _ Htk) as (E1 & E2 & _ & E4 & E5 & E6). destruct (rp_none _ Hp) as [Eres Enew].
  pose proof victim_rest as Hrun. pose proof (tk_running _ _ _ _ _ Htk) as Er.
  assert (running (sched t') = a ++ b) as Erun by by rewrite victim_sched.
  assert (requests (sched t') = requests (sched t)) as Ereq by by rewrite victim_sched.
  split; rewrite ?Erun, ?Ereq.
  - rewrite victim_num, victim_sched. cbn.
    apply (core_preempt sha256 cfg _ _ (running (sched t)) _ _ (kv (sched t)) (num_scheduled_tokens t)); try done.
    + apply Ht.
    + rewrite Er. symmetry. apply Permutation_middle.
    + apply Hfrom.
    + apply Hfrom.
    + apply Hfrom.
    + apply Hfrom.
    + by rewrite (pf_status _ _ Hfrom).
    + intros id Hne. rewrite <-victim_num. by apply victim_given.
  - pose proof (si_len _ _ _ Ht) as Hl. rewrite Er, length_app in Hl. rewrite length_app. simpl in Hl. lia.
  - rewrite victim_num. apply dict_del_NoDup, Ht.
  - intros id. rewrite victim_num, dict_del_keys, list_elem_of_filter by apply Ht. intros [Hne Hin].
    destruct (si_known _ _ _ Ht id Hin) as (i & Hi & E0). exists i. rewrite victim_ref. split; [|done].
    rewrite Er in Hi. subst id. set_solver.
  - intros i Hi. rewrite victim_ref, victim_num, dict_del_keys, list_elem_of_filter by apply Ht.
    rewrite victim_scheduled. destruct (Hrun i Hi) as [Hi' Hne]. rewrite <-(si_elem _ _ _ Ht i Hi').
    pose proof (victim_other i Hi). tauto.
  - unfold scheduled, t'. cbn. rewrite E1, E2, Eres, Enew, !app_nil_r. apply Htk.
  - intros j Hj. apply victim_scheduled in Hj as [Hj Hne]. apply (si_sub _ _ _ Ht) in Hj. rewrite Er in Hj. set_solver.
  - intros id n. rewrite victim_num. intros [_ Hin]%dict_elem_del; [|apply Ht]. by apply (si_positive _ _ _ Ht id).
  - intros i Hi. destruct (Hrun i Hi) as [Hi' Hne]. rewrite victim_ref, victim_store, decide_False, victim_given by auto using victim_other.
    by apply (si_fits _ _ _ Ht).
  - pose proof (si_given _ _ _ Ht (ref (sched t) v)). rewrite victim_num. unfold t'. cbn. rewrite (tk_budget _ _ _ _ _ Htk).
    pose proof (sum_given_del (num_scheduled_tokens t) (ref (sched t) v)). pose proof (si_sum _ _ _ Ht). lia.
  - pose proof (si_given _ _ _ Ht (ref (sched t) v)). unfold t'. cbn. rewrite (tk_budget _ _ _ _ _ Htk). pose proof (si_budget _ _ _ Ht). lia.
  - unfold t'. cbn. rewrite (tk_blocks _ _ _ _ _ Htk), (tk_num _ _ _ _ _ Htk), !dict_del_keys by apply Ht. split; [apply NoDup_filter, Ht|].
    intros id. rewrite !list_elem_of_filter. destruct (si_blocks _ _ _ Ht) as [_ ->]. done.
  - unfold t'. cbn. rewrite E4, E5, E6. apply Ht.
  - intros E0. by apply app_nil in E0 as [_ E0].
  - unfold t'. cbn. rewrite E2, Eres. intros i Hi. by apply elem_of_nil in Hi.
Qed.

Lemma taken_preempted lk :
  queue_rep (skipped_waiting (sched t)) lk → queued ≡ₚ obj_id <$> (lw ++ lk) →
  queue_rep q' lw' → lw' ≡ₚ r' :: lw → preempted budget t t' v a b queued.
Proof.
  intros Hlk Hq Hq' Hlw'. destruct (taken_phase _ _ _ _ _ _ _ Ht Hp Htk) as (Hp1 & Hrem & Hcur).
  assert (running (sched t') = a ++ b) as Erun by by rewrite victim_sched.
  assert (sched t1 = set_running (a ++ b) (sched t)) as Es by apply Htk.
  destruct (core_ok _ _ _ _ _ _ _ _ (si_core _ _ _ Ht) v (or_intror victim_running)) as [_ Hobj].
  change (obj_id (the v (sched t)) = v) in Hobj. pose proof (si_given _ _ _ Ht (ref (sched t) v)).
  split.
  - apply victim_step_inv.
  - exists lw', lk. rewrite victim_sched. cbn. split; [done|]. split; [done|]. rewrite Hlw', Hq. cbn.
    destruct Hfrom as [_ Fobj _ _ _]. by rewrite Fobj, Hobj.
  - destruct Hp1. by split.
  - done.
  - unfold t'. cbn. intros E0. by apply app_nil in E0 as [_ E0].
  - unfold remaining in *. rewrite Erun. by rewrite Es in Hrem.
  - unfold t'. cbn. rewrite (tk_budget _ _ _ _ _ Htk). lia.
  - intros i Hne Hi. destruct (Hcur i Hne Hi) as [C1 C2 C3]. rewrite Es in C1, C3. by split; rewrite ?Erun.
  - intros i Hi. by rewrite victim_store, decide_False.
  - split; [by rewrite victim_sched..|apply victim_ref].
Qed.
End victim.

(** ** Changes of the objects and the cache only *)

Record object_frame (s s' : Sched) (queued : list Z) : Prop := {
  of_running : running s' = running s;
  of_frame : sched_frame s s';
  of_tokens : ∀ i, i ∈ running s → num_computed_tokens (the i s') = num_computed_tokens (the i s) ∧
    num_tokens (the i s') = num_tokens (the i s);
  of_status : ∀ i, i ∈ queued → status (the i s') = PREEMPTED → status (the i s) = PREEMPTED
}.

Lemma step_sched budget t queued s' :
  step_inv budget t queued → object_frame (sched t) s' queued →
  core sha256 cfg (store s') (requests s') (running s') queued (kv s') (num_scheduled_tokens t) →
  step_inv budget (set_sched s' t) queued.
Proof.
  intros Ht [Er [F1 F2 F3 F4] Ftok Fst] Hc. rewrite Er in Hc. destruct Ht. split; cbn; rewrite ?Er; try done.
  - intros id Hid. destruct (si_known0 id Hid) as (i & Hi & E0). exists i. by rewrite F4.
  - intros i Hi. rewrite F4. by apply si_elem0.
  - intros i Hi. destruct (Ftok i Hi) as [-> ->]. rewrite F4. by apply si_fits0.
  - intros Hn i Hi Hpre. rewrite F4, F2. apply (si_prev0 Hn); auto.
  - intros i Hi. rewrite F4, F2. by apply si_resumed0.
Qed.

(** ** Slots for a running request *)

Lemma memo_ok r r' : memo_of r r' → BlockHash.cache_ok sha256 r' → request_ok sha256 cfg r → request_ok sha256 cfg r'.
Proof. intros [m ->] Hc [H1 H2 H3 H4 [] H6]. split; try done. auto with content. Qed.

(** The store and the cache after [allocate_slots]. *)
Definition allocated (t : St) (i : Z) (r' : Request) (kv' : KVCacheManager) : St :=
  set_sched (set_store (<[i := r']> (store (sched t))) (set_kv_cache_manager kv' (sched t))) t.

Lemma allocated_the t i r' kv' j :
  the j (sched (allocated t i r' kv')) = if decide (j = i) then r' else the j (sched t).
Proof. apply at_insert. Qed.

Lemma allocated_frame t i r' kv' queued :
  memo_of (the i (sched t)) r' → object_frame (sched t) (sched (allocated t i r' kv')) queued.
Proof.
  intros [m Em]. split; [done|split; [done..|]| |]; intros j; rewrite allocated_the; destruct (decide (j = i)) as [->|]; try done;
    rewrite Em; done.
Qed.

Lemma allocated_step budget t queued i r' kv' :
  step_inv budget t queued → i ∈ running (sched t) → memo_of (the i (sched t)) r' → BlockHash.cache_ok sha256 r' →
  kv_step mml (ref (sched t) i) (kv (sched t)) kv' →
  kv_held kv' (ref (sched t) i) (num_computed_tokens (the i (sched t)) + given (num_scheduled_tokens t) (ref (sched t) i)) →
  step_inv budget (allocated t i r' kv') queued.
Proof.
  intros Ht Hi Hm Hca Hs Hh. apply step_sched; [done|by apply allocated_frame|]. cbn.
  pose proof (si_core _ _ _ Ht) as Hc. destruct (core_ok _ _ _ _ _ _ _ _ Hc i (or_intror Hi)) as [Hok _].
  pose proof (memo_ok _ _ Hm Hca Hok) as Hok'. destruct Hm as [m ->].
  apply core_upd; try done; [|by right|by intros _; apply (c_run _ _ _ _ _ _ _ _ Hc)|].
  - by apply (core_kv _ _ _ _ _ _ (kv (sched t)) _ i).
  - intros Hq. pose proof (core_NoDup _ _ _ _ _ _ _ _ Hc) as (_ & Hd & _)%NoDup_app. by destruct (Hd i).
Qed.

Definition running_inv (budget : Z) (t : St) : Prop :=
  ∃ queued, step_inv budget t queued ∧ queued_in (sched t) queued ∧ running_phase t.

(** [allocate_slots] and the write-back of the request. *)
Lemma slots_spec {A} budget t queued i n (k : option KVCacheBlocks → M St A) P :
  step_inv budget t queued → queued_in (sched t) queued → running_phase t → current t i →
  0 < n → num_computed_tokens (the i (sched t)) + n ≤ num_tokens (the i (sched t)) →
  (∀ res r' kv', let t' := allocated t i r' kv' in
     step_inv budget t' queued → queued_in (sched t') queued → running_phase t' → current t' i → 
     memo_of (the i (sched t)) r' →
     (is_Some res → kv_held kv' (ref (sched t) i) (num_computed_tokens (the i (sched t)) + n)) → wp (k res) P no_exn t') →
  wp ('(r', new_blocks) ← zoom schedL (zoom kvmL (allocate_slots use_int sha256 (the i (sched t)) n 0 None
        (num_lookahead_tokens cfg) 0 false 0)); zoom schedL (put i r') ;; k new_blocks) P no_exn t.
Proof.
  intros Ht Hq Hp Hi Hn Htok Hk. pose proof (current_running _ _ Hi) as Hir. pose proof (si_core _ _ _ Ht) as Hc.
  destruct (core_ok _ _ _ _ _ _ _ _ Hc i (or_intror Hir)) as [Hok _].
  destruct (c_run _ _ _ _ _ _ _ _ Hc i Hir) as [Hst Hheld].
  assert (given (num_scheduled_tokens t) (ref (sched t) i) = 0) as Hg.
  { apply (si_unscheduled budget t queued Ht i Hir). rewrite running_scheduled by done. apply Hi. }
  change (kv_held (kv (sched t)) (ref (sched t) i) (num_computed_tokens (the i (sched t)) + given (num_scheduled_tokens t) (ref (sched t) i))) in Hheld.
  pose proof (rk_tokens _ _ _ Hok). pose proof (rk_computed _ _ _ Hok). change (at_ (store (sched t)) i) with (the i (sched t)) in *.
  wp_step. wp_step. wp_step. cbn [lget lset kvmL schedL]. eapply wp_mono; [apply (kv_continue_spec use_int mml sha256)| |done].
  - apply Hc.
  - rewrite (c_hbs _ _ _ _ _ _ _ _ Hc). apply Hok.
  - done.
  - apply Hcfg.
  - apply Hok.
  - lia.
  - by rewrite Hg, Z.add_0_r in Hheld.
  - intros [r' res] kv' (Hm & Hca & Hs & Hh). unfold put. wp_step. wp_step. wp_step. cbn [lset lget schedL kvmL].
    apply (Hk res r' kv'); [|exact Hq|by destruct Hp|by destruct Hi|done|by intros [b ->]].
    apply (allocated_step budget t queued i r' kv'); try done. rewrite Hg, Z.add_0_r. destruct res; [|by rewrite Z.add_0_r in Hh].
    intros j m Hj. specialize (Hh j m Hj). lia.
Qed.

Lemma preempt_victim_spec {A} budget t queued i (k : Z → M St A) P :
  step_inv budget t queued → queued_in (sched t) queued → running_phase t → current t i →
  (∀ v a b t', running (sched t) = a ++ v :: b → preempted budget t t' v a b queued → wp (k v) P no_exn t') →
  wp (victim ← take_victim cfg; zoom schedL (_preempt_request victim) ;;
      modify (λ t, set_preempted_reqs (preempted_reqs t ++ [victim]) t) ;; k victim) P no_exn t.
Proof.
  intros Ht (lw & lk & Hlw & Hlk & Hql) Hp Hi Hk. wp_step. eapply wp_mono; [by apply (take_victim_spec budget t queued i)| |done].
  intros v t1 (a & b & Htk). pose proof (tk_sched _ _ _ _ _ Htk) as Es. pose proof (tk_running _ _ _ _ _ Htk) as Erun.
  assert (v ∈ running (sched t)) as Hv by (rewrite Erun; set_solver). pose proof (si_core _ _ _ Ht) as Hc.
  destruct (core_ok _ _ _ _ _ _ _ _ Hc v (or_intror Hv)) as [Hok _]. destruct (c_run _ _ _ _ _ _ _ _ Hc v Hv) as [Hst _].
  wp_step. wp_step. cbn [lget schedL]. eapply wp_mono; [apply (preempt_spec (sched t1) v lw); rewrite Es; try done; apply Hc| |done].
  intros _ s' (kv' & q' & lw' & r' & -> & Hs & Habs & Hfrom & Hq' & Hp'). wp_step. wp_step. cbn [lset schedL].
  rewrite Es in Hs, Habs, Hfrom.
  apply (Hk v a b); [done|]. apply (taken_preempted budget t t1 v a b queued kv' q' lw lw' r') with lk; done.
Qed.

(** What the inner loop leaves: slots for the request, or the request preempted. *)
Record slots_done (budget : Z) (t t' : St) (i n : Z) (res : option KVCacheBlocks) : Prop := {
  sd_inv : ∃ queued, step_inv budget t' queued ∧ queued_in (sched t') queued ∧ running_phase t' ∧
    (res = None → preempted_reqs t' ≠ []) ∧
    (is_Some res → current t' i ∧ memo_of (the i (sched t)) (the i (sched t')) ∧
       kv_held (kv (sched t')) (ref (sched t) i) (num_computed_tokens (the i (sched t)) + n));
  sd_frame : sched_frame (sched t) (sched t');
  sd_remaining : remaining t' ≤ remaining t;
  sd_budget : token_budget t ≤ token_budget t'
}.

Lemma slots_done_trans budget t t1 t2 i n res :
  sched_frame (sched t) (sched t1) → remaining t1 ≤ remaining t → token_budget t ≤ token_budget t1 →
  memo_of (the i (sched t)) (the i (sched t1)) →
  slots_done budget t1 t2 i n res → slots_done budget t t2 i n res.
Proof.
  intros F1 R1 B1 Hm [(q & Ht & Hq & Hp & Hno & Hs) F2 R2 B2]. split; [|by transitivity (sched t1)|lia|lia].
  exists q. do 4 (split; [done|]). intros Hres. destruct (Hs Hres) as (Hcu & Hm2 & Hh). split; [done|].
  split; [by eapply memo_trans|]. destruct Hm as [m E0]. rewrite E0 in Hh. exact Hh.
Qed.

Lemma allocate_or_preempt_spec budget fuel t queued i n :
  step_inv budget t queued → queued_in (sched t) queued → running_phase t → current t i →
  0 < n → num_computed_tokens (the i (sched t)) + n ≤ num_tokens (the i (sched t)) →
  (length (running (sched t)) < fuel)%nat →
  wp (allocate_or_preempt use_int sha256 cfg fuel i n) (λ res t', slots_done budget t t' i n res) no_exn t.
Proof.
  revert t queued. induction fuel as [|fuel IH]; intros t queued Ht Hq Hp Hi Hn Htok Hfuel; [lia|].
  cbn [allocate_or_preempt]. wp_step. wp_step.
  apply (slots_spec budget t queued i n _ _ Ht Hq Hp Hi Hn Htok). intros res r' kv' t1 Ht1 Hq1 Hp1 Hi1 Hm Hh.
  assert (the i (sched t1) = r') as Ethe by (unfold t1; rewrite allocated_the, decide_True; done).
  destruct (allocated_frame t i r' kv' queued Hm) as [_ Hfr _ _]. fold t1 in Hfr.
  destruct res as [b|].
  - wp_step. split; [|done|done|done]. exists queued. do 4 (split; [done|]). intros _. split; [done|].
    rewrite Ethe. split; [done|]. by apply Hh.
  - apply (preempt_victim_spec budget t1 queued i); [done..|].
    intros v a b t2 Erun [Ht2 Hq2 Hp2 Er2 Hs2 Hrem2 Hbud2 Hcur2 Hoth2 Hfr2].
    assert (remaining t1 = remaining t ∧ token_budget t1 = token_budget t) as [Er1 Eb1] by done.
    assert (length (running (sched t1)) < S fuel)%nat as Hlen by done. rewrite Erun, length_app in Hlen. simpl in Hlen.
    wp_step.
    + apply bool_decide_eq_true in Hif. subst v. wp_step. split; [|by transitivity (sched t1)|lia|lia].
      exists (i :: queued). do 4 (split; [done|]). by intros [? ?].
    + apply bool_decide_eq_false in Hif. assert (i ≠ v) as Hne by congruence.
      assert (memo_of (the i (sched t)) (the i (sched t2))) as Hm2 by (rewrite Hoth2, Ethe; done).
      eapply wp_mono; [apply (IH t2 (v :: queued)); [done|done|done|by apply Hcur2|done| |]| |done].
      * rewrite Hoth2, Ethe by done. destruct Hm as [m ->]. exact Htok.
      * rewrite Er2, length_app. lia.
      * intros res t3 Hd. apply (slots_done_trans budget t t2); [by transitivity (sched t1)|lia|lia|done|done].
Qed.

(** ** One running request *)

(** A running request is entered into the schedule of this step. *)
Lemma entered budget t queued i n b run res new :
  step_inv budget t queued → i ∈ running (sched t) → i ∉ scheduled t → 0 < n ≤ token_budget t →
  num_computed_tokens (the i (sched t)) + n ≤ num_tokens (the i (sched t)) →
  kv_held (kv (sched t)) (ref (sched t) i) (num_computed_tokens (the i (sched t)) + n) →
  run ++ res ++ new ≡ₚ i :: scheduled t →
  (∀ j, j ∈ res → ref (sched t) j ∉ prev_step_scheduled_req_ids (sched t)) →
  let t1 := set_scheduled_running_reqs run (set_scheduled_resumed_reqs res (set_scheduled_new_reqs new t)) in
  let t2 := set_req_to_new_blocks (dict_set (req_to_new_blocks t1) (ref (sched t) i) b) t1 in
  let t3 := set_num_scheduled_tokens (dict_set (num_scheduled_tokens t2) (ref (sched t) i) n) t2 in
  step_inv budget (set_token_budget (token_budget t3 + - n) t3) queued.
Proof.
  intros Ht Hi Hni Hn Htok Hh Hp Hres. cbn. set (id := ref (sched t) i) in *.
  pose proof (si_unscheduled budget t queued Ht i Hi Hni) as Hg. fold id in Hg.
  assert (id ∉ (num_scheduled_tokens t).*1) as Hid by (unfold id; rewrite (si_elem _ _ _ Ht) by done; done).
  assert (∀ x, x ∈ (dict_set (num_scheduled_tokens t) id n).*1 ↔ x = id ∨ x ∈ (num_scheduled_tokens t).*1) as Hkeys.
  { intros x. rewrite dict_set_keys, bool_decide_eq_false_2, elem_of_app, list_elem_of_singleton by done. tauto. }
  pose proof (si_core _ _ _ Ht) as Hc.
  split; cbn; try apply Ht.
  - apply (core_grant sha256 cfg _ _ _ _ (kv (sched t)) _ i); [done|done| |done|done|].
    + split; [apply Hc|done].
    + change (kv_held (kv (sched t)) id (num_computed_tokens (the i (sched t)))). intros j m Hj. specialize (Hh j m Hj). lia.
  - apply dict_set_NoDup, Ht.
  - intros x [->|Hx]%Hkeys; [by exists i|by apply Ht].
  - intros j Hj. unfold scheduled. cbn. rewrite Hkeys, Hp, elem_of_cons, (si_elem _ _ _ Ht j Hj).
    split; (intros [E0|?]; [left|by right]); [|by subst j]. by apply (si_inj budget t queued Ht).
  - unfold scheduled. cbn. rewrite Hp. apply NoDup_cons. split; [done|apply Ht].
  - unfold scheduled. cbn. intros j. rewrite Hp. intros [->|Hj]%elem_of_cons; [done|by apply (si_sub _ _ _ Ht)].
  - intros x k Hx. apply dict_get_elem in Hx; [|by apply dict_set_NoDup, Ht]. rewrite dict_get_set in Hx.
    destruct (decide (x = id)); [injection Hx as <-; lia|]. by apply dict_get_Some, (si_positive _ _ _ Ht) in Hx.
  - intros j Hj. unfold given. rewrite dict_get_set. destruct (decide (ref (sched t) j = id)) as [E0|].
    + by rewrite (si_inj budget t queued Ht j i Hj Hi E0).
    + by apply (si_fits _ _ _ Ht).
  - rewrite sum_given_set, Hg. pose proof (si_sum _ _ _ Ht). lia.
  - lia.
  - destruct (si_blocks _ _ _ Ht) as [Hnd Hbl]. split; [by apply dict_set_NoDup|]. intros x. rewrite Hkeys, dict_set_keys.
    rewrite bool_decide_eq_false_2 by (by rewrite Hbl). rewrite elem_of_app, list_elem_of_singleton, Hbl. tauto.
  - done.
Qed.

Lemma num_new_running r budget :
  request_ok sha256 cfg r → 0 ≤ budget →
  let n := num_new_tokens_running cfg r budget in 0 ≤ n ≤ budget ∧ num_computed_tokens r + n ≤ num_tokens r.
Proof.
  intros Hok Hb. pose proof (rk_tokens _ _ _ Hok). pose proof (rk_computed _ _ _ Hok).
  destruct (rk_plain _ _ _ Hok) as (_ & Hs & Hp). unfold num_new_tokens_running, num_tokens_with_spec. rewrite Hs, Hp. simpl.
  unfold num_tokens in *. destruct (_ && _) eqn:Et; [apply andb_true_iff in Et as [?%Z.ltb_lt ?%Z.ltb_lt]|]; simpl in *; lia.
Qed.

Lemma text_no_encoder r : mm_features r = [] → has_encoder_inputs r = false.
Proof. intros E0. unfold has_encoder_inputs, num_encoder_inputs. by rewrite E0. Qed.

(** A turn ends with the state in order; while the loop goes on, fewer requests remain. *)
Definition turn_done (budget : Z) (t : St) (more : bool) (t' : St) : Prop :=
  running_inv budget t' ∧ sched_frame (sched t) (sched t') ∧ (more = true → remaining t' < remaining t).

Lemma advance_done budget t :
  running_inv budget t → 0 < remaining t → turn_done budget t true (set_req_index (req_index t + 1) t).
Proof.
  intros (q & Ht & Hq & [P1 P2 P3]) Hr. split; [|split; [done|intros _; unfold remaining; cbn; lia]]. exists q.
  split; [by destruct Ht|]. split; [done|]. split; [done|cbn; lia|]. intros j Hj. specialize (P3 j Hj).
  apply elem_of_take in P3 as (k & Hk & Hlt). apply elem_of_take. exists k. split; [done|]. cbn. lia.
Qed.

Lemma current_start budget t queued i :
  step_inv budget t queued → running_phase t → running (sched t) !! Z.to_nat (req_index t) = Some i → current t i.
Proof.
  intros Ht Hp Hi. split; [|intros Hin|done].
  - apply elem_of_take. eexists. split; [exact Hi|lia].
  - apply (rp_before _ Hp), elem_of_take in Hin as (k & Hk & Hlt).
    pose proof (NoDup_lookup _ _ _ _ (si_run_NoDup _ _ _ Ht) Hk Hi). lia.
Qed.

(** The request is noted with its blocks; the loop moves on. *)
Lemma note_running_spec budget t queued i n b :
  step_inv budget t queued → queued_in (sched t) queued → running_phase t → current t i →
  0 < n ≤ token_budget t → num_computed_tokens (the i (sched t)) + n ≤ num_tokens (the i (sched t)) →
  kv_held (kv (sched t)) (ref (sched t) i) (num_computed_tokens (the i (sched t)) + n) →
  let t1 := set_scheduled_running_reqs (scheduled_running_reqs t ++ [i]) t in
  let t2 := set_req_to_new_blocks (dict_set (req_to_new_blocks t1) (ref (sched t) i) b) t1 in
  let t3 := set_num_scheduled_tokens (dict_set (num_scheduled_tokens t2) (ref (sched t) i) n) t2 in
  let t4 := set_token_budget (token_budget t3 + - n) t3 in
  running_inv budget (set_req_index (req_index t4 + 1) t4).
Proof.
  intros Ht Hq Hp Hi Hn Htok Hh. pose proof (current_running _ _ Hi) as Hir. 
  assert (i ∉ scheduled t) as Hni by (rewrite running_scheduled by done; apply Hi).
  destruct Hp as [[Er En] P2 P3]. exists queued. split; [|split; [done|]].
  - pose proof (entered budget t queued i n b (scheduled_running_reqs t ++ [i]) (scheduled_resumed_reqs t) (scheduled_new_reqs t)
      Ht Hir Hni Hn Htok Hh) as He. cbn in He |- *. destruct He; [|apply Ht|by split].
    unfold scheduled. rewrite Er, En, !app_nil_r. by rewrite Permutation_app_comm.
  - split; [done|cbn; lia|]. cbn. intros j [Hj| ->%list_elem_of_singleton]%elem_of_app.
    + apply P3, elem_of_take in Hj as (k & Hk & Hlt). apply elem_of_take. exists k. split; [done|]. lia.
    + replace (Z.to_nat (req_index t + 1)) with (S (Z.to_nat (req_index t))) by lia. apply Hi.
Qed.

Lemma schedule_one_running_spec budget t :
  running_inv budget t → 0 < remaining t → 0 < token_budget t →
  wp (schedule_one_running use_int sha256 cfg) (turn_done budget t) no_exn t.
Proof.
  intros Hinv Hr Hb. pose proof Hinv as (queued & Ht & Hq & Hp). unfold schedule_one_running. unfold remaining in Hr.
  destruct (lookup_lt_is_Some_2 (running (sched t)) (Z.to_nat (req_index t))) as [i Ei]; [destruct Hp; lia|].
  pose proof (current_start _ _ _ _ Ht Hp Ei) as Hi. pose proof (current_running _ _ Hi) as Hir.
  destruct (core_ok _ _ _ _ _ _ _ _ (si_core _ _ _ Ht) i (or_intror Hir)) as [Hok _]. change (request_ok sha256 cfg (the i (sched t))) in Hok.
  wp_step. wp_step. wp_step. rewrite <-(Z2Nat.id (req_index t)), (py_get_nat _ _ i Ei) by apply Hp.
  apply wp_lift_res; [|done]. intros ? [= <-]. wp_step. wp_step. change ((the i ∘ sched) t) with (the i (sched t)).
  assert (reached_max_tokens (the i (sched t)) = false) as -> by (unfold reached_max_tokens; by rewrite (proj2 (proj2 (rk_plain _ _ _ Hok)))).
  cbv zeta. wp_step. wp_step. wp_step. wp_step. rewrite text_no_encoder by apply Hok. wp_step. wp_step. rewrite (pc_mamba _ Hcfg). wp_step.
  apply wp_lift_res; [|done]. intros n [= <-].
  destruct (num_new_running (the i (sched t)) (token_budget t) Hok ltac:(lia)) as [Hn Htok].
  set (n := num_new_tokens_running _ _ _) in *. 
  wp_step; [unfold advance; wp_step; wp_step; wp_step; by apply advance_done|]. apply bool_decide_eq_false in Hif.
  wp_step. wp_step. wp_step. cbn [compose].
  eapply wp_mono; [apply (allocate_or_preempt_spec budget _ t queued i n); try done; [lia|unfold compose; lia]| |done].
  intros res t' [(q' & Ht' & Hq' & Hp' & Hno & Hres) Hfr Hrem Hbud]. destruct res as [b|].
  2:{ wp_step. split; [by exists q'|]. by split. }
  destruct (Hres ltac:(done)) as (Hi' & Hm & Hh). 
  unfold note_scheduled, add_budget, advance, schedule_drafts, schedule_encoder_inputs.
  do 12 wp_step. match goal with |- wp _ _ _ ?x => set (t5 := x) end. wp_step.
  destruct (core_ok _ _ _ _ _ _ _ _ (si_core _ _ _ Ht') i (or_intror (current_running _ _ Hi'))) as [Hok' _].
  assert (spec_token_ids ((the i ∘ sched) t5) = []) as -> by apply Hok'.
  rewrite (bool_decide_eq_true_2 ([] = [] :> list Z)) by done. do 4 wp_step.
  assert (ref (sched t') i = ref (sched t) i) as Eref by apply Hfr.
  assert (num_computed_tokens (the i (sched t')) = num_computed_tokens (the i (sched t)) ∧
    num_tokens (the i (sched t')) = num_tokens (the i (sched t))) as [Ec Et] by (destruct Hm as [m ->]; done).
  split; [|split; [done|intros _; unfold remaining in *; cbn; lia]].
  unfold t5. rewrite <-Eref. rewrite <-Eref, <-Ec in Hh. rewrite <-Ec, <-Et in Htok.
  by apply (note_running_spec budget t' q'); [done|done|done|done|lia|..].
Qed.

(** The loop over the running requests. *)
Lemma schedule_running_spec budget fuel t :
  running_inv budget t → Z.max 0 (remaining t) < Z.of_nat fuel →
  wp (schedule_running use_int sha256 cfg fuel)
    (λ _ t', running_inv budget t' ∧ sched_frame (sched t) (sched t')) no_exn t.
Proof.
  revert t. induction fuel as [|fuel IH]; intros t Hinv Hfuel; cbn [schedule_running].
  { lia. }
  wp_step. wp_step. wp_step; [by wp_step|]. apply negb_false_iff, andb_true_iff in Hif as [H1%Z.ltb_lt H2%Z.ltb_lt].
  assert (0 < remaining t) as Hpos by (unfold remaining; lia).
  wp_step. eapply wp_mono; [apply (schedule_one_running_spec budget t); [done|done|done]| |done].
  intros [|] t' (Hinv' & Hfr & Hrem); [|by wp_step]. specialize (Hrem eq_refl).
  eapply wp_mono; [apply (IH t'); [done|lia]| |done]. intros _ t2 [? ?]. split; [done|]. by transitivity (sched t').
Qed.

(** ** One waiting request *)

(** Waiting request [i] has become running request [r'], with [n] tokens. *)
Record started (t t' : St) (i n : Z) (r' : Request) : Prop := {
  st_store : store (sched t') = <[i := r']> (store (sched t));
  st_running : running (sched t') = running (sched t) ++ [i];
  st_requests : requests (sched t') = requests (sched t);
  st_prev : prev_step_scheduled_req_ids (sched t') = prev_step_scheduled_req_ids (sched t);
  st_pause : _pause_state (sched t') = _pause_state (sched t);
  st_run : scheduled_running_reqs t' = scheduled_running_reqs t;
  st_scheduled : scheduled t' ≡ₚ i :: scheduled t;
  st_resumed : ∀ j, j ∈ scheduled_resumed_reqs t' →
    j ∈ scheduled_resumed_reqs t ∨ j = i ∧ status (the i (sched t)) = PREEMPTED;
  st_num : num_scheduled_tokens t' = dict_set (num_scheduled_tokens t) (ref (sched t) i) n;
  st_budget : token_budget t' = token_budget t - n;
  st_blocks : ∃ b, req_to_new_blocks t' = dict_set (req_to_new_blocks t) (ref (sched t) i) b;
  st_same : preempted_reqs t' = preempted_reqs t ∧ scheduled_spec_decode_tokens t' = scheduled_spec_decode_tokens t ∧
    scheduled_encoder_inputs t' = scheduled_encoder_inputs t ∧ scheduled_loras t' = scheduled_loras t
}.

(** The object of a request that starts to run with [n] tokens after its [hit] ones. *)
Record starts (r r' : Request) : Prop := {
  ss_id : request_id r' = request_id r;
  ss_obj : obj_id r' = obj_id r;
  ss_ok : request_ok sha256 cfg r';
  ss_status : status r' = RUNNING
}.

Lemma started_ids t t' i n r' : started t t' i n r' → starts (the i (sched t)) r' →
  (∀ j, ref (sched t') j = ref (sched t) j) ∧ (∀ j, j ≠ i → the j (sched t') = the j (sched t)) ∧ the i (sched t') = r'.
Proof.
  intros Hs Hr. assert (∀ j, the j (sched t') = if decide (j = i) then r' else the j (sched t)) as H.
  { intros j. unfold the at 1. rewrite (st_store _ _ _ _ _ Hs). apply at_insert. }
  split_and!.
  - intros j. rewrite H. destruct (decide (j = i)) as [->|]; [apply Hr|done].
  - intros j Hj. by rewrite H, decide_False.
  - by rewrite H, decide_True.
Qed.

Lemma started_inv budget t t' queued queued' i n r' :
  step_inv budget t queued → queued ≡ₚ i :: queued' → preempted_reqs t = [] →
  started t t' i n r' → starts (the i (sched t)) r' →
  kv_step mml (ref (sched t) i) (kv (sched t)) (kv (sched t')) →
  kv_held (kv (sched t')) (ref (sched t) i) (num_computed_tokens r' + n) →
  0 < n ≤ token_budget t → num_computed_tokens r' + n ≤ num_tokens r' →
  Z.of_nat (length (running (sched t))) < max_num_running_reqs cfg →
  step_inv budget t' queued'.
Proof.
  intros Ht Hq Hpre Hst Hr Hs Hh Hn Htok Hlen. pose proof (si_core _ _ _ Ht) as Hc.
  destruct (started_ids _ _ _ _ _ Hst Hr) as (Hid & Hoth & Hi). set (id := ref (sched t) i) in *.
  assert (i ∈ queued) as Hiq by (rewrite Hq; left).
  pose proof (core_NoDup _ _ _ _ _ _ _ _ Hc) as Hnd. apply NoDup_app in Hnd as (Hndq & Hd & _).
  assert (i ∉ running (sched t)) as Hir by (by apply Hd).
  assert (∀ j, j ∈ running (sched t) → ref (sched t) j ≠ id) as Hne.
  { intros j Hj E0. apply Hir. rewrite (core_inj _ _ _ _ _ _ _ _ Hc i j (or_introl Hiq) (or_intror Hj)); [done|by symmetry]. }
  assert (id ∉ (num_scheduled_tokens t).*1) as Hnew.
  { intros Hin. destruct (si_known _ _ _ Ht id Hin) as (j & Hj & E0). by apply (Hne j Hj). }
  assert (given (num_scheduled_tokens t) id = 0) as Hg by (unfold given; by rewrite (proj2 (dict_get_None _ _) Hnew)).
  assert (∀ x, x ∈ (num_scheduled_tokens t').*1 ↔ x = id ∨ x ∈ (num_scheduled_tokens t).*1) as Hkeys.
  { intros x. rewrite (st_num _ _ _ _ _ Hst), dict_set_keys, bool_decide_eq_false_2, elem_of_app, list_elem_of_singleton by done. tauto. }
  assert (i ∉ scheduled t) as Hni by (intros Hin; by apply Hir, (si_sub _ _ _ Ht)).
  destruct (st_same _ _ _ _ _ Hst) as (E1 & E2 & E3 & E4). destruct (st_blocks _ _ _ _ _ Hst) as [b Eb].
  split.
  - rewrite (st_store _ _ _ _ _ Hst), (st_running _ _ _ _ _ Hst), (st_requests _ _ _ _ _ Hst), (st_num _ _ _ _ _ Hst).
    apply (core_start sha256 cfg _ _ _ queued _ (kv (sched t))); try done; apply Hr.
  - rewrite (st_running _ _ _ _ _ Hst), length_app. cbn. lia.
  - rewrite (st_num _ _ _ _ _ Hst). apply dict_set_NoDup, Ht.
  - intros x [->|Hx]%Hkeys; rewrite (st_running _ _ _ _ _ Hst); [exists i; rewrite Hid; set_solver|].
    destruct (si_known _ _ _ Ht x Hx) as (j & Hj & <-). exists j. rewrite Hid. set_solver.
  - intros j. rewrite (st_running _ _ _ _ _ Hst), (st_scheduled _ _ _ _ _ Hst), Hkeys, Hid, elem_of_cons.
    intros [Hj| ->%list_elem_of_singleton]%elem_of_app; [|tauto]. rewrite (si_elem _ _ _ Ht j Hj).
    specialize (Hne j Hj). assert (j ≠ i) by congruence. tauto.
  - rewrite (st_scheduled _ _ _ _ _ Hst). apply NoDup_cons. split; [done|apply Ht].
  - intros j. rewrite (st_scheduled _ _ _ _ _ Hst), (st_running _ _ _ _ _ Hst), elem_of_app, elem_of_cons.
    intros [->|Hj]; [right; by left|left; by apply (si_sub _ _ _ Ht)].
  - intros x k. rewrite (st_num _ _ _ _ _ Hst). intros Hx. apply dict_get_elem in Hx; [|by apply dict_set_NoDup, Ht].
    rewrite dict_get_set in Hx. destruct (decide _); [injection Hx as <-; lia|]. by apply dict_get_Some, (si_positive _ _ _ Ht) in Hx.
  - intros j. rewrite (st_running _ _ _ _ _ Hst), Hid. unfold given. rewrite (st_num _ _ _ _ _ Hst), dict_get_set.
    intros [Hj| ->%list_elem_of_singleton]%elem_of_app.
    + rewrite decide_False by auto. rewrite Hoth by congruence. by apply (si_fits _ _ _ Ht).
    + rewrite decide_True, Hi by done. done.
  - rewrite (st_num _ _ _ _ _ Hst), sum_given_set, (st_budget _ _ _ _ _ Hst). fold id. rewrite Hg. pose proof (si_sum _ _ _ Ht). lia.
  - rewrite (st_budget _ _ _ _ _ Hst). lia.
  - destruct (si_blocks _ _ _ Ht) as [Hndb Hbl]. rewrite Eb. split; [by apply dict_set_NoDup|]. intros x. rewrite Hkeys, dict_set_keys.
    rewrite bool_decide_eq_false_2 by (by rewrite Hbl). rewrite elem_of_app, list_elem_of_singleton, Hbl. tauto.
  - rewrite E2, E3, E4. apply Ht.
  - intros _ j Hj Hpr. rewrite Hid, (st_prev _ _ _ _ _ Hst). rewrite Hq in Hndq. apply NoDup_cons in Hndq as [Hniq _].
    rewrite Hoth in Hpr by congruence. apply (si_prev _ _ _ Ht Hpre); [rewrite Hq; by right|done].
  - intros j Hj. rewrite Hid, (st_prev _ _ _ _ _ Hst). destruct (st_resumed _ _ _ _ _ Hst j Hj) as [Hj'|[-> Hpr]].
    + by apply (si_resumed _ _ _ Ht).
    + by apply (si_prev _ _ _ Ht Hpre).
Qed.

(** ** The queues in the waiting phase *)

Definition queues (s : Sched) (lw lk : list Request) : Prop :=
  queue_rep (waiting s) lw ∧ queue_rep (skipped_waiting s) lk.

Lemma queue_bool_spec q l : queue_rep q l → queue_bool q = negb (bool_decide (l = [])).
Proof.
  intros Hq. unfold queue_bool. rewrite (law_len _ _ Hq).
  by destruct l.
Qed.

Lemma select_spec s lw lk :
  queues s lw lk → lw ++ lk ≠ [] →
  ∃ sk x l, _select_waiting_queue_for_scheduling cfg s = Ok (Some sk) ∧ peek_request (chosen_queue sk s) = Ok x ∧
    (if sk then lk else lw) = x :: l.
Proof.
  intros [Hw Hk] Hne. unfold _select_waiting_queue_for_scheduling. rewrite (queue_bool_spec _ _ Hw), (queue_bool_spec _ _ Hk).
  pose proof (law_peek _ _ Hw) as Pw. pose proof (law_peek _ _ Hk) as Pk.
  destruct (policy cfg), lw as [|w lw], lk as [|k lk]; simpl in Hne |- *; try done; rewrite ?Pw, ?Pk; cbn.
  - by exists true, k, lk.
  - by exists false, w, lw.
  - by exists true, k, lk.
  - by exists true, k, lk.
  - by exists false, w, lw.
  - destruct (request_lt w k); cbn; [by exists false, w, lw|by exists true, k, lk].
Qed.

(** The queues after the head of one of them is taken. *)
Definition popped (sk : bool) (lw lk : list Request) (x : Request) (lw' lk' : list Request) : Prop :=
  if sk then lw' = lw ∧ lk = x :: lk' else lk' = lk ∧ lw = x :: lw'.

Lemma pop_chosen_spec (sk : bool) (t : St) lw lk x l :
  queues (sched t) lw lk → (if sk then lk else lw) = x :: l →
  wp (pop_chosen sk) (λ (_ : unit) (t' : St), ∃ (q : Q) lw' lk', t' = set_sched (set_chosen sk q (sched t)) t ∧
    queues (set_chosen sk q (sched t)) lw' lk' ∧ popped sk lw lk x lw' lk') no_exn t.
Proof.
  intros [Hw Hk] Hl. unfold pop_chosen. wp_step. wp_step. unfold compose. wp_step.
  assert (queue_rep (chosen_queue sk (sched t)) (x :: l)) as Hc by (rewrite <-Hl; by destruct sk).
  destruct (law_pop _ _ Hc) as (q & -> & Hq). apply wp_lift_res; [|done]. intros ? [= <-]. wp_step. wp_step. cbn [lset lget schedL].
  exists q. destruct sk; [exists lw, l|exists l, lk]; by split_and!.
Qed.

Lemma popped_perm sk lw lk x lw' lk' :
  popped sk lw lk x lw' lk' → lw ++ lk ≡ₚ x :: (lw' ++ lk') ∧ (length lw + length lk = S (length lw' + length lk'))%nat.
Proof.
  destruct sk; intros [-> ->]; simpl; [|done]. split; [by rewrite Permutation_middle|lia].
Qed.

(** The state of the waiting phase: [n] requests are left in the queues. *)
Definition waiting_inv (budget : Z) (n : nat) (t : St) : Prop :=
  ∃ queued lw lk ls, step_inv budget t queued ∧ queues (sched t) lw lk ∧ queue_rep (step_skipped_waiting t) ls ∧
    queued ≡ₚ obj_id <$> (lw ++ lk ++ ls) ∧ preempted_reqs t = [] ∧ n = (length lw + length lk)%nat.

Lemma step_inv_perm budget t queued queued' :
  step_inv budget t queued → queued ≡ₚ queued' → step_inv budget t queued'.
Proof.
  intros Ht Hp. destruct Ht. split; try done.
  - destruct si_core0. split; try done; [by rewrite <-Hp|]. intros i. rewrite <-Hp. auto.
  - intros Hn i. rewrite <-Hp. by apply si_prev0.
Qed.

(** Only the queues change. *)
Lemma step_inv_chosen budget t queued sk q :
  step_inv budget t queued → step_inv budget (set_sched (set_chosen sk q (sched t)) t) queued.
Proof. intros []. destruct sk; by split. Qed.

Lemma skip_for_now_spec budget n t queued lw lk ls (sk : bool) x l :
  step_inv budget t queued → queues (sched t) lw lk → queue_rep (step_skipped_waiting t) ls →
  queued ≡ₚ obj_id <$> (lw ++ lk ++ ls) → preempted_reqs t = [] → S n = (length lw + length lk)%nat →
  (if sk then lk else lw) = x :: l → obj_id (the (obj_id x) (sched t)) = obj_id x →
  wp (skip_for_now sk (obj_id x)) (λ (_ : unit) (t' : St), waiting_inv budget n t' ∧ sched_frame (sched t) (sched t')) no_exn t.
Proof.
  intros Ht Hq Hs Hql Hpre Hn Hl Hobj. unfold skip_for_now. wp_step.
  eapply wp_mono; [by apply (pop_chosen_spec sk t lw lk x l)| |done]. intros [] t1 (q & lw' & lk' & -> & Hq' & Hpop).
  destruct (popped_perm _ _ _ _ _ _ Hpop) as [Hperm Hlen].
  wp_step. wp_step. wp_step. wp_step. wp_step.
  assert (the (obj_id x) (set_chosen sk q (sched t)) = the (obj_id x) (sched t)) as Ethe by by destruct sk.
  unfold compose. cbn [step_skipped_waiting set_sched sched]. rewrite Ethe.
  destruct (law_prepend _ _ (the (obj_id x) (sched t)) Hs) as (qs & l' & -> & Hqs & Hp').
  apply wp_lift_res; [|done]. intros ? [= <-]. wp_step. split; [|by destruct sk].
  exists queued, lw', lk', l'. split; [by destruct (step_inv_chosen budget t queued sk q Ht)|].
  split; [done|]. split; [done|]. split; [|split; [done|lia]].
  rewrite Hql, app_assoc, Hperm, Hp', app_assoc. rewrite (fmap_app _ (lw' ++ lk')), fmap_app. cbn. rewrite Hobj. apply Permutation_middle.
Qed.

Lemma core_ext st st' reqs run queued kv0 num :
  (∀ j, at_ st' j = at_ st j) → core sha256 cfg st reqs run queued kv0 num → core sha256 cfg st' reqs run queued kv0 num.
Proof. intros H []. split; try done; intros; rewrite ?H; auto. Qed.

(** Only the status of request [i] and the cache differ. *)
Record like (t t' : St) (i : Z) : Prop := {
  lk_sched : ∃ st' kv', t' = set_sched (set_store st' (set_kv_cache_manager kv' (sched t))) t;
  lk_the : ∃ st, waiting_status st = true ∧
    ∀ j, the j (sched t') = if decide (j = i) then set_status st (the i (sched t)) else the j (sched t);
  lk_status : status (the i (sched t')) = PREEMPTED → status (the i (sched t)) = PREEMPTED
}.

Lemma like_inv budget t t' queued i :
  step_inv budget t queued → i ∈ queued → like t t' i → kv_quiet mml (kv (sched t)) (kv (sched t')) →
  step_inv budget t' queued ∧ sched_frame (sched t) (sched t').
Proof.
  intros Ht Hi Hl Hkv. destruct Hl as [(st' & kv' & E0) (st & Hst & Hthe) Hpre]. pose proof (si_core _ _ _ Ht) as Hc.
  pose proof (core_NoDup _ _ _ _ _ _ _ _ Hc) as Hnd. apply NoDup_app in Hnd as (_ & Hd & _).
  destruct (core_ok _ _ _ _ _ _ _ _ Hc i (or_introl Hi)) as [Hok Hobj].
  assert (object_frame (sched t) (sched t') queued) as Hof.
  { split.
    - by rewrite E0.
    - split; try by rewrite E0. intros j. rewrite Hthe. destruct (decide _) as [Ej|Ej]; [by rewrite Ej|done].
    - intros j Hj. rewrite Hthe, decide_False; [done|]. intros ->. by apply (Hd i).
    - intros j Hj. destruct (decide (j = i)) as [->|Hne]; [done|by rewrite Hthe, decide_False]. }
  split; [|apply Hof]. rewrite E0 in Hthe, Hof, Hkv |- *. apply (step_sched budget t queued _ Ht Hof). cbn in Hthe, Hkv |- *.
  apply (core_quiet _ _ _ _ _ _ (kv (sched t))); [|done].
  apply (core_ext (<[i := set_status st (the i (sched t))]> (store (sched t)))).
  { intros j. rewrite at_insert. apply Hthe. }
  apply core_upd; try done; [by left|destruct Hok as [? ? ? ? [] ?]; split; try done; auto with content|]. intros Hr. by destruct (Hd i).
Qed.

Lemma like_refl t i : waiting_status (status (the i (sched t))) = true → like t t i.
Proof.
  intros Hst. split; [|exists (status (the i (sched t))); split; [done|]|done].
  - exists (store (sched t)), (kv (sched t)). destruct t as [s]. cbn. by destruct s.
  - intros j. destruct (decide (j = i)) as [->|]; [|done]. by destruct (the i (sched t)).
Qed.

Lemma promote_spec t queued i :
  core sha256 cfg (store (sched t)) (requests (sched t)) (running (sched t)) queued (kv (sched t)) (num_scheduled_tokens t) →
  i ∈ queued →
  wp (if _is_blocked_waiting_status (status (the i (sched t))) then zoom schedL (_try_promote_blocked_waiting_request i)
      else mret true)
    (λ ready t', like t t' i ∧ kv (sched t') = kv (sched t) ∧
       (ready = true → status (the i (sched t')) = WAITING ∨ status (the i (sched t')) = PREEMPTED)) no_exn t.
Proof.
  intros Hc Hi. destruct (c_queued _ _ _ _ _ _ _ _ Hc i Hi) as (Hst & _ & _).
  change (at_ (store (sched t)) i) with (the i (sched t)) in Hst. pose proof (like_refl t i Hst) as Hsame.
  destruct (status (the i (sched t))) eqn:Es; try done; cbn [_is_blocked_waiting_status].
  - wp_step. rewrite Es. split; [done|]. split; [done|]. by left.
  - wp_step. unfold _try_promote_blocked_waiting_request. wp_step. wp_step. cbn [lget schedL]. rewrite Es. wp_step. wp_step.
    wp_step; wp_step.
    + unfold upd. wp_step. wp_step. cbn [lset schedL].
      assert (∀ j, the j (set_store (<[i:=set_status WAITING (the i (sched t))]> (store (sched t))) (sched t)) =
        if decide (j = i) then set_status WAITING (the i (sched t)) else the j (sched t)) as Hthe by (intros j; apply at_insert).
      split; [split|split; [done|]].
      * exists (<[i:=set_status WAITING (the i (sched t))]> (store (sched t))), (kv (sched t)).
        destruct t as [s]. cbn. by destruct s.
      * by exists WAITING.
      * cbn [sched set_sched]. rewrite Hthe, decide_True by done. done.
      * cbn [sched set_sched]. rewrite Hthe, decide_True by done. by left.
    + cbn [lset schedL]. replace (set_sched (sched t) t) with t by (by destruct t). done.
  - wp_step. rewrite Es. split; [done|]. split; [done|]. by right.
Qed.

(** What is found in the cache for a waiting request. *)
Lemma computed_before_spec (t : St) queued i r :
  core sha256 cfg (store (sched t)) (requests (sched t)) (running (sched t)) queued (kv (sched t)) (num_scheduled_tokens t) →
  i ∈ queued → (∃ st, the i (sched t) = set_status st r) →
  wp (computed_before r) (λ '(blocks, local, num_computed) (t' : St),
      ∃ kv', t' = set_sched (set_kv_cache_manager kv' (sched t)) t ∧ kv_quiet mml (kv (sched t)) kv' ∧ num_computed = local ∧
        0 ≤ local < num_tokens r ∧ ready kv' (request_id r) blocks local) no_exn t.
Proof.
  intros Hc Hi [st Er]. destruct (c_queued _ _ _ _ _ _ _ _ Hc i Hi) as (_ & H0 & Habs).
  destruct (core_ok _ _ _ _ _ _ _ _ Hc i (or_introl Hi)) as [Hok _].
  change (at_ (store (sched t)) i) with (the i (sched t)) in *. rewrite Er in H0, Habs, Hok.
  unfold computed_before. rewrite (bool_decide_eq_true_2 (num_computed_tokens r = 0)) by done.
  wp_step. wp_step. wp_step. cbn [lget lset schedL kvmL].
  eapply wp_mono; [apply (kv_get_computed_spec mml sha256 (kv (sched t)) r)| |done].
  - apply Hc.
  - rewrite (c_hbs _ _ _ _ _ _ _ _ Hc). by destruct Hok as [_ _ _ _ [] _].
  - apply Hok.
  - exact Habs.
  - intros [b n] kv' (Hkv & Hn & Hready). wp_step. apply wp_assert; [apply Z.leb_le; lia|]. wp_step.
    exists kv'. split; [done|]. split.
    { destruct Hkv as [Hkv| ->]; [by apply kv_quiet_same; [apply Hc|]|by apply kv_quiet_refl, Hc]. }
    split; [done|]. split; [lia|]. by destruct Hkv as [(? & -> & _)| ->].
Qed.

(** ** Starting a waiting request *)

(** The running object: [hit] tokens computed. *)
Definition run_object (hit : Z) (r r' : Request) : Prop :=
  starts r r' ∧ num_computed_tokens r' = hit ∧ num_tokens r' = num_tokens r.

Lemma run_object_intro hit r r1 c :
  request_ok sha256 cfg r → memo_of r r1 → BlockHash.cache_ok sha256 r1 → 0 ≤ hit ≤ num_tokens r →
  run_object hit r (set_num_computed_tokens hit (set_status RUNNING r1)) ∧
  run_object hit r (set_num_cached_tokens c (set_num_computed_tokens hit (set_status RUNNING r1))).
Proof.
  intros [H1 H2 H3 H4 [A B C D] H6] [m ->] Hc Hhit.
  split; (split; [split; try done; split; try done; auto 6 with content|done]).
Qed.

(** The rest of [start_running], once the request has left its queue. *)
Definition start_tail (i hit n : Z) : M St unit :=
  zoom schedL (modify (λ s, set_running (running s ++ [i]) s)) ;;
  r ← gets (the i ∘ sched);
  (match status r with
   | WAITING => modify (λ t, set_scheduled_new_reqs (scheduled_new_reqs t ++ [i]) t)
   | PREEMPTED => modify (λ t, set_scheduled_resumed_reqs (scheduled_resumed_reqs t ++ [i]) t)
   | _ => raise RuntimeError
   end) ;;
  mret tt ;;
  blocks ← gets (λ t, kvm_get_blocks (request_id r) (kv_cache_manager (sched t)));
  note_scheduled i r blocks n ;;
  zoom schedL (upd i (set_status RUNNING) ;; upd i (set_num_computed_tokens hit) ;;
    if num_cached_tokens r <? 0 then upd i (set_num_cached_tokens hit) else mret tt).

Lemma start_tail_spec (t : St) i hit n :
  status (the i (sched t)) = WAITING ∨ status (the i (sched t)) = PREEMPTED →
  wp (start_tail i hit n) (λ _ t', ∃ r', started t t' i n r' ∧
      (r' = set_num_computed_tokens hit (set_status RUNNING (the i (sched t))) ∨
       r' = set_num_cached_tokens hit (set_num_computed_tokens hit (set_status RUNNING (the i (sched t))))) ∧
      waiting (sched t') = waiting (sched t) ∧ skipped_waiting (sched t') = skipped_waiting (sched t) ∧
      step_skipped_waiting t' = step_skipped_waiting t ∧ kv (sched t') = kv (sched t)) no_exn t.
Proof.
  intros Hst. unfold start_tail, note_scheduled, add_budget.
  destruct t as [s new res srun pre blocks num tb enc eb spec idx lor skip].
  destruct s as [sto reqs wq kq rq fin find prev nstr kvm em pst strq gr]. cbn [sched] in Hst |- *.
  set (r := the i _) in *. assert (r = default inhabitant (sto !! i)) as Er by done. clearbody r.
  wp_step. wp_step. wp_step. wp_step. wp_step. unfold compose, the. step_cbn. rewrite <-Er.
  destruct Hst as [Est|Est]; rewrite Est; do 12 wp_step; step_cbn; wp_step; step_cbn; apply wp_upd_upd;
    (destruct (num_cached_tokens r <? 0); unfold upd; wp_step; wp_step; [wp_step|wp_step]); unfold the; step_cbn;
    rewrite ?lookup_insert_eq, ?insert_insert_eq; cbn [default from_option Datatypes.id]; rewrite <-Er.
  all: match goal with |- context [set_store (<[_:=?x]> _)] => exists x end; (split; [|split; [auto|done]]); split; step_cbn; try done.
  all: try (unfold the; step_cbn; rewrite <-Er; first [done|by eexists]).
  all: try (intros j; rewrite ?elem_of_app, ?list_elem_of_singleton; unfold the; step_cbn; rewrite <-?Er; naive_solver).
  all: try lia.
  all: unfold scheduled; step_cbn; rewrite ?app_assoc; rewrite (Permutation_app_comm _ [i]).
  all: done.
Qed.

Lemma start_running_spec (t : St) i sk hit n r1 kv' lw lk x l :
  request_ok sha256 cfg (the i (sched t)) → memo_of (the i (sched t)) r1 → BlockHash.cache_ok sha256 r1 →
  0 ≤ hit ≤ num_tokens (the i (sched t)) →
  status (the i (sched t)) = WAITING ∨ status (the i (sched t)) = PREEMPTED →
  queues (sched t) lw lk → (if sk : bool then lk else lw) = x :: l →
  wp (start_running cfg i sk hit n) (λ (_ : unit) (t' : St), ∃ r' lw' lk', started t t' i n r' ∧
      run_object hit (the i (sched t)) r' ∧ queues (sched t') lw' lk' ∧ popped sk lw lk x lw' lk' ∧
      step_skipped_waiting t' = step_skipped_waiting t ∧ kv (sched t') = kv') no_exn (allocated t i r1 kv').
Proof.
  intros Hok Hm Hca Hhit Hst Hq Hl. unfold start_running. wp_step.
  eapply wp_mono; [apply (pop_chosen_spec sk (allocated t i r1 kv') lw lk x l); [exact Hq|done]| |done].
  intros [] t1 (q & lw' & lk' & Et1 & Hq' & Hpop).
  assert (∀ A (f : Sched → A), (∀ q s, f (set_waiting q s) = f s) → (∀ q s, f (set_skipped_waiting q s) = f s) →
    f (sched t1) = f (sched (allocated t i r1 kv'))) as Hf by (intros A f Hfw Hfk; rewrite Et1; destruct sk; cbn; auto).
  assert (the i (sched t1) = r1) as Er1 by (rewrite (Hf _ (the i)), allocated_the by done; by apply decide_True).
  assert (status r1 = status (the i (sched t)) ∧ request_id r1 = ref (sched t) i) as [Es1 Eid1] by (destruct Hm as [m ->]; done).
  destruct (run_object_intro hit _ r1 hit Hok Hm Hca Hhit) as [Hr Hr'].
  rewrite (pc_loras _ Hcfg). eapply wp_mono; [apply (start_tail_spec t1 i hit n); by rewrite Er1, Es1| |done].
  intros [] t' (r' & Hs & Hr'' & Ew & Ek & Ess & Ekv). rewrite Er1 in Hr''. exists r', lw', lk'. split; [|split; [by destruct Hr'' as [->| ->]|]].
  - destruct Hs as [S1 S2 S3 S4 S5 S6 S7 S8 S9 S10 S11 S12]. rewrite Er1, Es1 in S8. rewrite Er1, Eid1 in S9, S11.
    rewrite (Hf _ store) in S1 by done. rewrite (Hf _ running) in S2 by done. rewrite (Hf _ requests) in S3 by done.
    rewrite (Hf _ prev_step_scheduled_req_ids) in S4 by done. rewrite (Hf _ _pause_state) in S5 by done.
    assert (set_sched (sched t) t1 = t) as Et by (rewrite Et1; by destruct t).
    rewrite <-Et. split; try done. rewrite S1. cbn. apply insert_insert_eq.
  - split; [|split; [done|split; [by rewrite Ess, Et1|by rewrite Ekv, (Hf _ kv)]]].
    unfold queues. rewrite Ew, Ek, Et1. exact Hq'.
Qed.

(** The state when the head [x] of a queue is looked at. *)
Record looking (budget : Z) (m : nat) (t : St) (sk : bool) (x : Request) (queued : list Z) (lw lk ls l : list Request) : Prop := {
  lo_inv : step_inv budget t queued;
  lo_queues : queues (sched t) lw lk;
  lo_skipped : queue_rep (step_skipped_waiting t) ls;
  lo_queued : queued ≡ₚ obj_id <$> (lw ++ lk ++ ls);
  lo_preempted : preempted_reqs t = [];
  lo_len : S m = (length lw + length lk)%nat;
  lo_head : (if sk then lk else lw) = x :: l
}.

Lemma looking_in budget m t sk x queued lw lk ls l :
  looking budget m t sk x queued lw lk ls l → obj_id x ∈ queued.
Proof.
  intros [_ _ _ Hq _ _ Hh]. rewrite Hq. apply list_elem_of_fmap. exists x. split; [done|].
  destruct sk; rewrite Hh; set_solver.
Qed.

Lemma looking_waiting budget m t sk x queued lw lk ls l :
  looking budget m t sk x queued lw lk ls l → waiting_inv budget (S m) t.
Proof. intros []. by exists queued, lw, lk, ls. Qed.

(** No slots: the request stays where it is. *)
Lemma not_started budget m t sk x queued lw lk ls l r' kv' :
  looking budget m t sk x queued lw lk ls l → let i := obj_id x in
  memo_of (the i (sched t)) r' → BlockHash.cache_ok sha256 r' → kv_step mml (ref (sched t) i) (kv (sched t)) kv' →
  kv_absent kv' (ref (sched t) i) → 
  waiting_inv budget (S m) (allocated t i r' kv') ∧ sched_frame (sched t) (sched (allocated t i r' kv')).
Proof.
  intros Hlo i Hm Hca Hs Habs. pose proof (looking_in _ _ _ _ _ _ _ _ _ _ Hlo) as Hi. fold i in Hi.
  destruct Hlo as [Ht Hq Hsk Hql Hpre Hlen Hhead]. pose proof (si_core _ _ _ Ht) as Hc.
  destruct (core_ok _ _ _ _ _ _ _ _ Hc i (or_introl Hi)) as [Hok _]. 
  pose proof (memo_ok _ _ Hm Hca Hok) as Hok'. pose proof (allocated_frame t i r' kv' queued Hm) as Hof.
  split; [|apply Hof]. exists queued, lw, lk, ls. split; [|done].
  apply step_sched; [done|done|]. cbn. destruct Hm as [m0 ->]. destruct (c_queued _ _ _ _ _ _ _ _ Hc i Hi) as (Hst & _ & _).
  apply core_upd; try done; [by apply (core_kv_queued _ _ _ _ _ _ (kv (sched t)) _ i)|by left|].
  intros Hr. pose proof (core_NoDup _ _ _ _ _ _ _ _ Hc) as (_ & Hd & _)%NoDup_app. by destruct (Hd i).
Qed.

Lemma started_waiting budget m t t' sk x queued lw lk ls l n r' lw' lk' kv' hit :
  looking budget m t sk x queued lw lk ls l → let i := obj_id x in
  started t t' i n r' → run_object hit (the i (sched t)) r' → queues (sched t') lw' lk' → popped sk lw lk x lw' lk' →
  step_skipped_waiting t' = step_skipped_waiting t → kv (sched t') = kv' →
  kv_step mml (ref (sched t) i) (kv (sched t)) kv' → kv_held kv' (ref (sched t) i) (hit + n) →
  0 < n ≤ token_budget t → hit + n ≤ num_tokens (the i (sched t)) →
  Z.of_nat (length (running (sched t))) < max_num_running_reqs cfg →
  waiting_inv budget m t' ∧ sched_frame (sched t) (sched t').
Proof.
  intros [Ht Hq Hsk Hql Hpre Hlen Hhead] i Hs (Hr & Hcomp & Htoks) Hq' Hpop Ess Ekv Hstep Hh Hn Htok Hmax.
  destruct (popped_perm _ _ _ _ _ _ Hpop) as [Hperm Hl']. destruct (started_ids _ _ _ _ _ Hs Hr) as (Hid & _ & _).
  split; [|split; [apply Hs..|done]].
  exists (obj_id <$> (lw' ++ lk' ++ ls)), lw', lk', ls. split; [|split; [done|split; [by rewrite Ess|]]].
  - apply (started_inv budget t t' queued _ i n r'); try done; rewrite ?Ekv, ?Hcomp, ?Htoks; try done.
    rewrite Hql, app_assoc, Hperm. cbn. by rewrite app_assoc.
  - split; [done|]. split; [|lia]. destruct (st_same _ _ _ _ _ Hs) as (-> & _). done.
Qed.

Lemma try_start_spec budget m (t : St) sk x queued lw lk ls l blocks hit n eb :
  looking budget m t sk x queued lw lk ls l → let i := obj_id x in
  status (the i (sched t)) = WAITING ∨ status (the i (sched t)) = PREEMPTED →
  ready (kv (sched t)) (ref (sched t) i) blocks hit → 0 ≤ hit →
  0 < n ≤ token_budget t → hit + n ≤ num_tokens (the i (sched t)) →
  Z.of_nat (length (running (sched t))) < max_num_running_reqs cfg →
  wp (try_start use_int sha256 cfg i sk blocks hit hit [] n eb)
    (λ more t', waiting_inv budget (if more : bool then m else S m) t' ∧ sched_frame (sched t) (sched t')) no_exn t.
Proof.
  intros Hlo i Hst Hready Hhit Hn Htok Hmax. pose proof (looking_in _ _ _ _ _ _ _ _ _ _ Hlo) as Hi. fold i in Hi.
  pose proof (si_core _ _ _ (lo_inv _ _ _ _ _ _ _ _ _ _ Hlo)) as Hc.
  destruct (core_ok _ _ _ _ _ _ _ _ Hc i (or_introl Hi)) as [Hok _]. change (request_ok sha256 cfg (the i (sched t))) in Hok.
  destruct (c_queued _ _ _ _ _ _ _ _ Hc i Hi) as (_ & H0 & Habs).
  change (num_computed_tokens (the i (sched t)) = 0) in H0. change (kv_absent (kv (sched t)) (ref (sched t) i)) in Habs.
  unfold try_start, free_encoder. wp_step. wp_step. change ((the i ∘ sched) t) with (the i (sched t)).
  pose proof (rk_text _ _ _ Hok) as Htext. pose proof (rk_tokens _ _ _ Hok).
  rewrite (bool_decide_eq_true_2 (_ = 0)), text_no_encoder, andb_false_r by done. cbn [andb].
  wp_step. apply wp_lift_res; [|done]. intros ? [= <-]. wp_step.
  apply (wp_mono _ (λ _ t', t' = t) _ no_exn); [| |done].
  { wp_step; [|by wp_step]. wp_step. wp_step. cbn [lget lset schedL kvmL]. unfold wp.
    destruct (kv_can_fit_spec mml (kv (sched t)) (the i (sched t)) hit blocks 0) as [fits ->]; try done; [apply Hc|lia|].
    destruct t as [s]. cbn. by destruct s. }
  intros fits t0 ->. wp_step; [repeat wp_step; split; [by eapply looking_waiting|done]|].
  wp_step. wp_step. wp_step. cbn [lget lset schedL kvmL].
  eapply wp_mono; [apply (kv_start_spec use_int mml sha256 (kv (sched t)) (the i (sched t)) n hit blocks)| |done]; try done; try lia.
  { apply Hc. } { rewrite (c_hbs _ _ _ _ _ _ _ _ Hc). apply Hok. }
  intros [r' [b|]] kv' (Hm & Hca & Hs & Hres); unfold put; wp_step; wp_step; wp_step; cbn [lget lset schedL].
  - wp_step. eapply wp_mono; [apply (start_running_spec t i sk hit n r' kv' lw lk x l); try done; try lia; apply Hlo| |done].
    intros [] t' (r'' & lw' & lk' & Hsd & Hro & Hq' & Hpop & Ess & Ekv). unfold schedule_encoder_inputs. rewrite (bool_decide_eq_true_2 ([] = [])) by done. repeat wp_step.
    by apply (started_waiting budget m t t' sk x queued lw lk ls l n r'' lw' lk' kv' hit).
  - repeat wp_step. by apply (not_started budget m t sk x queued lw lk ls l).
Qed.

Lemma num_new_waiting r hit budget n :
  0 ≤ hit < num_tokens r → 0 < budget → num_new_tokens_waiting cfg r hit budget = Some n →
  0 < n ≤ budget ∧ hit + n ≤ num_tokens r.
Proof.
  intros Hh Hb. unfold num_new_tokens_waiting. destruct ((0 <? long_prefill_token_threshold cfg) && _) eqn:Et; destruct (negb _ && _); try done; intros [= <-].
  - apply andb_true_iff in Et as [?%Z.ltb_lt ?%Z.ltb_lt]. lia.
  - lia.
Qed.

(** A status or the cache's statistics change: the queues are as they were. *)
Lemma looking_like budget m t t' sk x queued lw lk ls l :
  looking budget m t sk x queued lw lk ls l → like t t' (obj_id x) → kv_quiet mml (kv (sched t)) (kv (sched t')) →
  looking budget m t' sk x queued lw lk ls l ∧ sched_frame (sched t) (sched t').
Proof.
  intros Hlo Hlike Hkv. pose proof (looking_in _ _ _ _ _ _ _ _ _ _ Hlo) as Hi. destruct Hlo as [Ht Hq Hsk Hql Hpre Hlen Hhead].
  destruct (like_inv budget t t' queued (obj_id x) Ht Hi Hlike Hkv) as [Ht' Hfr]. split; [|done].
  destruct Hlike as [(st' & kv' & ->) _ _]. by split.
Qed.

Definition one_done (budget : Z) (m : nat) (t : St) (more : bool) (t' : St) : Prop :=
  waiting_inv budget (if more then m else S m) t' ∧ sched_frame (sched t) (sched t').

(** The head of the queue, once its status allows it to run. *)
Lemma take_head_spec budget m t1 sk x queued lw lk ls l r :
  looking budget m t1 sk x queued lw lk ls l → let i := obj_id x in
  status (the i (sched t1)) = WAITING ∨ status (the i (sched t1)) = PREEMPTED →
  (∃ st, waiting_status st = true ∧ the i (sched t1) = set_status st r) → 0 < token_budget t1 →
  Z.of_nat (length (running (sched t1))) < max_num_running_reqs cfg →
  wp ('(blocks, local, num_computed) ← computed_before r;
      budget ← gets token_budget; enc_budget ← gets encoder_compute_budget;
      match num_new_tokens_waiting cfg r num_computed budget with
      | None => mret false
      | Some n =>
        assert_ (0 <? n) ;;
        '(inputs, n, new_enc_budget) ←
          (if has_encoder_inputs r
           then zoom schedL (zoom encL (_try_schedule_encoder_inputs cfg r num_computed n enc_budget
                                          (if use_eagle cfg then 1 else 0)))
           else mret ([], n, enc_budget));
        if bool_decide (n = 0) then mret false
        else
          n ← lift_res (if need_mamba_block_aligned_split cfg then _mamba_block_aligned_split cfg r n local else Ok n);
          if bool_decide (n = 0) then mret false
          else try_start use_int sha256 cfg i sk blocks local num_computed inputs n new_enc_budget
      end) (one_done budget m t1) no_exn t1.
Proof.
  intros Hlo i Hst Hr Hb Hmax. pose proof (looking_in _ _ _ _ _ _ _ _ _ _ Hlo) as Hi. fold i in Hi.
  pose proof (si_core _ _ _ (lo_inv _ _ _ _ _ _ _ _ _ _ Hlo)) as Hc.
  destruct (core_ok _ _ _ _ _ _ _ _ Hc i (or_introl Hi)) as [Hok _]. change (request_ok sha256 cfg (the i (sched t1))) in Hok.
  destruct Hr as (st & Hwst & Er). assert (∃ st, the i (sched t1) = set_status st r) as Her by by exists st.
  wp_step. eapply wp_mono; [by apply (computed_before_spec t1 queued i r Hc Hi)| |done].
  intros [[blocks local] nc] t2 (kv' & Et2 & Hkv & -> & Hloc & Hready).
  assert (mm_features r = []) as Htext by (rewrite Er in Hok; apply Hok).
  assert (like t1 t2 i) as Hlike.
  { destruct (c_queued _ _ _ _ _ _ _ _ Hc i Hi) as (Hws & _). rewrite Et2.
    split; [by exists (store (sched t1)), kv'| |done]. exists (status (the i (sched t1))). split; [exact Hws|].
    intros j. change (the j _) with (the j (sched t1)) at 1. destruct (decide (j = i)) as [->|]; [|done]. by destruct (the i (sched t1)). }
  assert (kv (sched t2) = kv') as Ekv by by rewrite Et2.
  destruct (looking_like budget m t1 t2 sk x queued lw lk ls l Hlo Hlike) as [Hlo2 Hfr]; [by rewrite Ekv|].
  assert (the i (sched t2) = the i (sched t1)) as Ethe by by rewrite Et2.
  assert (token_budget t2 = token_budget t1 ∧ running (sched t2) = running (sched t1)) as [Eb Erun] by by rewrite Et2.
  wp_step. wp_step. wp_step. wp_step. rewrite Eb.
  assert (waiting_inv budget (S m) t2) as Hw2 by by eapply looking_waiting.
  destruct (num_new_tokens_waiting cfg r local (token_budget t1)) as [n|] eqn:En; [|by wp_step].
  destruct (num_new_waiting r local _ n Hloc Hb En) as [Hn Htok].
  wp_step. apply wp_assert; [apply Z.ltb_lt; lia|]. wp_step. rewrite text_no_encoder by done. wp_step.
  wp_step; [by wp_step|]. rewrite (pc_mamba _ Hcfg). wp_step. apply wp_lift_res; [|done]. intros ? [= <-]. wp_step; [by wp_step|].
  eapply wp_mono; [apply (try_start_spec budget m t2 sk x queued lw lk ls l blocks local n); [done|..]| |done];
    fold i; rewrite ?Ethe, ?Ekv, ?Eb, ?Erun; try done; [by rewrite Er|lia|by rewrite Er|].
  intros more t' [Hw Hf]. split; [done|]. by transitivity (sched t2).
Qed.

Lemma schedule_one_waiting_spec budget m t :
  waiting_inv budget (S m) t → 0 < token_budget t → Z.of_nat (length (running (sched t))) < max_num_running_reqs cfg →
  wp (schedule_one_waiting use_int sha256 cfg) (one_done budget m t) no_exn t.
Proof.
  intros (queued & lw & lk & ls & Ht & Hq & Hsk & Hql & Hpre & Hlen) Hb Hmax. unfold schedule_one_waiting.
  destruct (select_spec (sched t) lw lk Hq) as (sk & x & l & Esel & Epeek & Hhead).
  { intros E0. apply (f_equal length) in E0. rewrite length_app in E0. simpl in E0. lia. }
  assert (looking budget m t sk x queued lw lk ls l) as Hlo by by split.
  pose proof (looking_in _ _ _ _ _ _ _ _ _ _ Hlo) as Hi. set (i := obj_id x) in *. pose proof (si_core _ _ _ Ht) as Hc.
  wp_step. wp_step. wp_step. rewrite Esel. apply wp_lift_res; [|done]. intros ? [= <-]. wp_step.
  apply (wp_lift_some _ _ sk); [done|]. wp_step. wp_step. wp_step. unfold compose. rewrite Epeek. apply wp_lift_res; [|done]. intros ? [= <-]. fold i. wp_step. wp_step. wp_step.
  eapply wp_mono; [apply (promote_spec t queued i Hc Hi)| |done]. intros ready t1 (Hlike & Ekv & Hst).
  destruct (c_queued _ _ _ _ _ _ _ _ Hc i Hi) as (Hws & _).
  assert (kv_quiet mml (kv (sched t)) (kv (sched t1))) as Hkq by (rewrite Ekv; apply kv_quiet_refl, Hc).
  destruct (looking_like budget m t t1 sk x queued lw lk ls l Hlo Hlike Hkq) as [Hlo1 Hfr].
  destruct Hlike as [(st' & kv' & Et1) (st & Hwst & Hthe) _].
  assert (token_budget t1 = token_budget t ∧ running (sched t1) = running (sched t)) as [Eb Erun] by by rewrite Et1.
  wp_step. wp_step. unfold exceeds_loras. rewrite (pc_loras _ Hcfg), orb_false_r. wp_step.
  - wp_step. destruct (core_ok _ _ _ _ _ _ _ _ (si_core _ _ _ (lo_inv _ _ _ _ _ _ _ _ _ _ Hlo1)) i (or_introl Hi)) as [_ Hobj].
    destruct Hlo1. eapply wp_mono; [apply (skip_for_now_spec budget m t1 queued lw lk ls sk x l); done| |done].
    intros _ t' [Hw Hf]. wp_step. split; [done|]. by transitivity (sched t1).
  - apply negb_false_iff in Hif. eapply wp_mono; [apply (take_head_spec budget m t1 sk x queued lw lk ls l)| |done]; try done.
    + by apply Hst.
    + exists st. split; [done|]. fold i. rewrite Hthe, decide_True by done. done.
    + by rewrite Eb.
    + by rewrite Erun.
    + intros more t' [Hw Hf]. split; [done|]. by transitivity (sched t1).
Qed.

(** The loop over the waiting requests. *)
Lemma schedule_waiting_spec budget fuel m t :
  waiting_inv budget m t → (m < fuel)%nat →
  wp (schedule_waiting use_int sha256 cfg fuel)
    (λ _ t', (∃ m', waiting_inv budget m' t') ∧ sched_frame (sched t) (sched t')) no_exn t.
Proof.
  revert m t. induction fuel as [|fuel IH]; intros m t Hinv Hfuel; cbn [schedule_waiting]; [lia|].
  wp_step. wp_step. wp_step. wp_step. wp_step; [wp_step; by split; [exists m|]|].
  apply orb_false_iff in Hif as [[Hmore Hb%Z.ltb_lt]%negb_false_iff%andb_true_iff Hfull%bool_decide_eq_false].
  pose proof Hinv as (queued & lw & lk & ls & Ht & [Hw Hk] & Hsk & Hql & Hpre & Hlen). pose proof (si_len _ _ _ Ht).
  rewrite (queue_bool_spec _ _ Hw), (queue_bool_spec _ _ Hk) in Hmore.
  destruct m as [|m]. { destruct lw, lk; simpl in Hlen; try lia. done. }
  wp_step. eapply wp_mono; [apply (schedule_one_waiting_spec budget m t); [done|done|lia]| |done].
  intros [|] t' [Hw' Hfr]; [|wp_step; by split; [exists (S m)|]].
  eapply wp_mono; [apply (IH m t'); [done|lia]| |done]. intros _ t2 [? ?]. split; [done|]. by transitivity (sched t').
Qed.

(** Both phases leave the state in order. *)
Definition phase_done (budget : Z) (t t' : St) : Prop :=
  (∃ queued, step_inv budget t' queued ∧ queued_in (sched t') queued) ∧ sched_frame (sched t) (sched t').

Lemma schedule_waiting_requests_spec budget t queued :
  step_inv budget t queued → queued_in (sched t) queued →
  wp (schedule_waiting_requests use_int sha256 cfg) (λ _ t', phase_done budget t t') no_exn t.
Proof.
  intros Ht Hq. unfold schedule_waiting_requests. wp_step. wp_step. wp_step. wp_step.
  wp_step; [|wp_step; by split; [exists queued|]].
  apply andb_true_iff in Hif as [Hpre%bool_decide_eq_true _]. destruct Hq as (lw & lk & Hw & Hk & Hql).
  wp_step. wp_step. set (t0 := set_step_skipped_waiting _ t).
  assert (waiting_inv budget (length lw + length lk) t0) as Hinv.
  { exists queued, lw, lk, []. split; [by destruct Ht|]. split; [done|]. split; [apply law_empty|].
    split; [by rewrite app_nil_r|done]. }
  wp_step. wp_step. rewrite (law_len _ _ Hw), (law_len _ _ Hk). wp_step.
  eapply wp_mono; [apply (schedule_waiting_spec budget _ _ t0 Hinv); lia| |done].
  intros _ t1 [(m & q1 & lw1 & lk1 & ls & Ht1 & [Hw1 Hk1] & Hs1 & Hq1 & Hpre1 & _) Hfr].
  wp_step. wp_step. rewrite (queue_bool_spec _ _ Hs1). wp_step.
  - wp_step. rewrite (law_iter _ _ Hs1). apply wp_lift_res; [|done]. intros ? [= <-]. wp_step. wp_step. wp_step.
    destruct (law_prepend_all _ _ ls Hk1) as (k' & l' & E0 & Hk' & Hp). unfold compose. rewrite E0.
    apply wp_lift_res; [|done]. intros ? [= <-]. wp_step. wp_step. cbn [lset lget schedL]. split; [|by split; apply Hfr].
    exists q1. split; [by apply (step_inv_chosen budget t1 q1 true k')|]. exists lw1, l'. split; [done|]. split; [done|].
    rewrite Hq1. apply fmap_Permutation. by rewrite Hp, (Permutation_app_comm lk1).
  - apply negb_false_iff, bool_decide_eq_true in Hif. subst ls. wp_step. split; [|done]. exists q1. split; [done|].
    exists lw1, lk1. by rewrite app_nil_r in Hq1.
Qed.

(** ** The end of the step *)

(** The order in which the scheduler keeps its state between steps. *)
Record sched_inv (s : Sched) (queued : list Z) : Prop := {
  sv_core : core sha256 cfg (store s) (requests s) (running s) queued (kv s) [];
  sv_queued : queued_in s queued;
  sv_len : Z.of_nat (length (running s)) ≤ max_num_running_reqs cfg;
  sv_prev : not_resumed s queued
}.

(** While the tokens of the step are added to the requests: [rest] is still to do. *)
Record advancing (s0 : Sched) (num : list (string * Z)) (queued : list Z) (rest : list (string * Z)) (s : Sched) : Prop := {
  av_core : core sha256 cfg (store s) (requests s) (running s) queued (kv s) rest;
  av_frame : sched_frame s0 s ∧ running s = running s0 ∧ waiting s = waiting s0 ∧ skipped_waiting s = skipped_waiting s0;
  av_queued : ∀ i, i ∈ queued → the i s = the i s0;
  av_tokens : ∀ i, i ∈ running s → num_tokens (the i s) = num_tokens (the i s0) ∧
    num_computed_tokens (the i s) + given rest (ref s i) = num_computed_tokens (the i s0) + given num (ref s i)
}.

(** The tokens of the step belong to running requests and fit. *)
Definition num_fits (s : Sched) (num : list (string * Z)) : Prop :=
  NoDup num.*1 ∧ (∀ id n, (id, n) ∈ num → 0 < n) ∧ (∀ id, id ∈ num.*1 → ∃ i, i ∈ running s ∧ ref s i = id) ∧
  ∀ i, i ∈ running s → num_computed_tokens (the i s) + given num (ref s i) ≤ num_tokens (the i s).

Lemma advance_one s0 num queued s id n rest has :
  num_fits s0 num → (∃ done_, num = done_ ++ (id, n) :: rest) → advancing s0 num queued ((id, n) :: rest) s →
  wp (found ← gets (lookup_request id); i ← lift_opt KeyError found;
      upd i (λ r, set_num_computed_tokens (num_computed_tokens r + n) r) ;;
      upd i (λ r, set_is_prefill_chunk (num_computed_tokens r <? num_tokens r + num_output_placeholders r) r) ;;
      r ← gets (the i);
      (if has_encoder_inputs r then _free_encoder_inputs cfg i else mret tt) ;;
      mret (has || (use_structured_output r && negb (is_prefill_chunk r)))) (λ _ s', advancing s0 num queued rest s') no_exn s.
Proof.
  intros (Hnd & Hpos & Hknown & Hfit) [dn Edn] [Hc (Hfr & Erun & Ew & Ek) Hqu Htok].
  assert (NoDup ((id, n) :: rest).*1) as Hnd' by (rewrite Edn, fmap_app in Hnd; by apply NoDup_app in Hnd as (_ & _ & ?)).
  destruct (Hknown id) as (i & Hi & Eid); [rewrite Edn, fmap_app; set_solver|]. rewrite <-Erun in Hi.
  assert (ref s i = id) as Eid' by (by rewrite (sf_ids _ _ Hfr)).
  pose proof (core_ref _ _ _ _ _ _ _ _ Hc i (or_intror Hi)) as Hreq. change (request_id (at_ (store s) i)) with (ref s i) in Hreq.
  rewrite Eid' in Hreq. apply dict_get_elem in Hreq; [|apply Hc].
  destruct (core_ok _ _ _ _ _ _ _ _ Hc i (or_intror Hi)) as [Hok Hobj]. change (request_ok sha256 cfg (the i s)) in Hok.
  destruct (c_run _ _ _ _ _ _ _ _ Hc i Hi) as [Hst _]. change (status (the i s) = RUNNING) in Hst.
  destruct (Htok i Hi) as [Etk Ect]. unfold given in Ect at 1. cbn [dict_get] in Ect. rewrite Eid' in Ect. rewrite decide_True in Ect by done.
  cbn [default from_option Datatypes.id] in Ect. pose proof (Hfit i ltac:(by rewrite <-Erun)) as Hfi. rewrite Eid in Hfi.
  pose proof (Hpos id n ltac:(rewrite Edn; set_solver)) as Hn.
  wp_step. wp_step. unfold lookup_request. wp_step. apply (wp_lift_some _ _ i); [done|]. 
  apply wp_upd_upd. unfold upd. wp_step. wp_step. set (r' := set_is_prefill_chunk _ _). wp_step. wp_step. rewrite the_insert.
  assert (request_ok sha256 cfg r') as Hok'.
  { destruct Hok as [H1 H2 H3 H4 [A B C D] H6]. split; try done; [|unfold r'; auto with content]. change (0 ≤ num_computed_tokens (the i s) + n ≤ num_tokens (the i s)). lia. }
  rewrite text_no_encoder by apply Hok'. wp_step. wp_step. wp_step.
  pose proof (core_NoDup _ _ _ _ _ _ _ _ Hc) as (_ & Hd & _)%NoDup_app.
  assert (∀ j, the j (set_store (<[i:=r']> (store s)) s) = if decide (j = i) then r' else the j s) as Hthe by (intros j; apply at_insert).
  split; cbn [store requests running kv_cache_manager waiting skipped_waiting set_store].
  - pose proof (core_advance sha256 cfg _ _ _ _ _ _ i n r' Hc Hi) as Hadv. cbn [dict_get dict_del] in Hadv.
    change (request_id (at_ (store s) i)) with (ref s i) in Hadv. rewrite Eid', !decide_True in Hadv by done. by apply Hadv.
  - split; [|done]. destruct Hfr as [F1 F2 F3 F4]. split; try done. intros j. rewrite <-F4, Hthe. by destruct (decide _) as [->|].
  - intros j Hj. rewrite Hthe, decide_False; [by apply Hqu|]. intros ->. by apply (Hd i).
  - intros j Hj. rewrite Hthe. destruct (Htok j Hj) as [Ej1 Ej2]. destruct (decide (j = i)) as [->|Hne].
    + change (ref s i) with (request_id r') in Eid'. rewrite Eid'. split; [done|].
      change (num_computed_tokens (the i s) + n + given rest id = num_computed_tokens (the i s0) + given num id).
      unfold given at 1. rewrite (proj2 (dict_get_None _ _)); [cbn; lia|]. by apply NoDup_cons in Hnd' as [? _].
    + split; [done|]. rewrite <-Ej2. unfold given. cbn [dict_get]. rewrite decide_False; [done|].
      intros E0. apply Hne. apply (core_inj _ _ _ _ _ _ _ _ Hc); [by right|by right|]. change (ref s j = ref s i). congruence.
Qed.

Lemma update_after_spec s queued o :
  core sha256 cfg (store s) (requests s) (running s) queued (kv s) (so_num_scheduled_tokens o) →
  num_fits s (so_num_scheduled_tokens o) →
  wp (_update_after_schedule cfg o) (λ o' s', so_num_scheduled_tokens o' = so_num_scheduled_tokens o ∧
      so_total_num_scheduled_tokens o' = so_total_num_scheduled_tokens o ∧
      so_scheduled_spec_decode_tokens o' = so_scheduled_spec_decode_tokens o ∧
      advancing s (so_num_scheduled_tokens o) queued [] s') no_exn s.
Proof.
  intros Hc Hnum. unfold _update_after_schedule, base_update_after_schedule. rewrite (pc_sync _ Hcfg). cbn [negb].
  wp_step. wp_step.
  eapply wp_mono; [apply (wp_fold_each _ _ _ (λ dn _ s', ∃ rest, so_num_scheduled_tokens o = dn ++ rest ∧
    advancing s (so_num_scheduled_tokens o) queued rest s'))| |done].
  - intros dn [id n] rest has s1 E0 (rest' & E1 & Hadv). rewrite E0 in E1. apply app_inv_head in E1. subst rest'.
    eapply wp_mono; [apply (advance_one s _ queued s1 id n rest has Hnum); [by exists dn|done]| |done].
    intros has' s2 Hadv2. exists rest. split; [by rewrite E0, <-app_assoc|exact Hadv2].
  - exists (so_num_scheduled_tokens o). split; [done|]. by split.
  - intros has s1 (rest & E0 & [A1 (A2 & A3 & A4 & A5) A6 A7]). apply (f_equal length) in E0. rewrite length_app in E0. 
    destruct rest; [|simpl in E0; lia]. wp_step. wp_step. wp_step. wp_step. do 3 (split; [done|]).
    split; try done. split; [|done]. by destruct A2.
Qed.

(** ** The whole step *)

Lemma step_quiet budget t queued kv' :
  step_inv budget t queued → kv_quiet mml (kv (sched t)) kv' →
  step_inv budget (set_sched (set_kv_cache_manager kv' (sched t)) t) queued.
Proof.
  intros Ht Hq. apply step_sched; [done|by split|]. cbn. by apply (core_quiet _ _ _ _ _ _ (kv (sched t))); [apply Ht|].
Qed.

Lemma check_constraints_spec budget t queued :
  step_inv budget t queued → budget ≤ max_num_scheduled_tokens cfg →
  wp (check_constraints cfg) (λ total t', t' = t ∧ total = sumZ (num_scheduled_tokens t).*2) no_exn t.
Proof.
  intros Ht Hb. pose proof (si_sum _ _ _ Ht). pose proof (si_budget _ _ _ Ht). pose proof (si_len _ _ _ Ht).
  unfold check_constraints. wp_step. wp_step. cbv zeta. unfold Datatypes.id.
  wp_step. apply wp_assert; [apply Z.leb_le; lia|]. wp_step. apply wp_assert; [by apply Z.leb_le|].
  wp_step. apply wp_assert; [by apply Z.leb_le|]. wp_step. apply wp_assert; [|by wp_step]. apply Nat.leb_le.
  transitivity (length (scheduled t)); [unfold scheduled; rewrite !length_app; lia|].
  apply submseteq_length, NoDup_submseteq; apply Ht.
Qed.

Lemma blocks_of_scheduled budget t queued i allow_none :
  step_inv budget t queued → i ∈ scheduled t → is_Some (dict_get (req_to_new_blocks t) (ref (sched t) i)) ∧
    ∃ b, blocks_of_request t (ref (sched t) i) allow_none = Ok b.
Proof.
  intros Ht Hi. unfold blocks_of_request. destruct (dict_get _ _) as [b|] eqn:E0; [split; [done|by eexists]|].
  apply dict_get_None in E0. exfalso. apply E0, (si_blocks _ _ _ Ht), (si_elem _ _ _ Ht); [|done]. by apply (si_sub _ _ _ Ht).
Qed.

Lemma map_res_total {A B} (f : A → res B) l : (∀ x, x ∈ l → ∃ y, f x = Ok y) → ∃ ys, map_res f l = Ok ys.
Proof.
  induction l as [|x l IH]; intros Hf; [by exists []|]. simpl. destruct (Hf x) as [y ->]; [left|]. simpl.
  destruct IH as [ys ->]; [intros; apply Hf; by right|]. by eexists.
Qed.

Lemma cached_data_spec budget t queued res :
  step_inv budget t queued → res ⊆ scheduled_resumed_reqs t →
  wp (_make_cached_request_data cfg (scheduled_running_reqs t) res) (λ _ t', t' = t) no_exn t.
Proof.
  intros Ht Hres. unfold _make_cached_request_data. wp_step. wp_step. unfold Datatypes.id.
  eapply wp_mono; [apply (wp_fold_each _ _ _ (λ _ _ t', t' = t))| |done]; [|done|by intros].
  intros dn [idx i] rest d t' E0 ->.
  assert ((scheduled_running_reqs t ++ res) !! idx = Some i) as Hidx.
  { assert ((idx, i) ∈ zip (seq 0 (length (scheduled_running_reqs t ++ res))) (scheduled_running_reqs t ++ res)) as Hin by (rewrite E0; set_solver).
    apply list_elem_of_lookup in Hin as [k Hk]. apply lookup_zip_with_Some in Hk as (a & b & [= <- <-] & Ha & Hb).
    apply lookup_seq in Ha as [-> _]. done. }
  assert (i ∈ scheduled t) as Hi.
  { apply list_elem_of_lookup_2 in Hidx. unfold scheduled. set_solver. }
  pose proof (si_sub _ _ _ Ht i Hi) as Hir. pose proof (proj2 (si_elem _ _ _ Ht i Hir) Hi) as Hin.
  destruct (dict_get (num_scheduled_tokens t) (ref (sched t) i)) as [n|] eqn:En; [|by apply dict_get_None in En].
  cbv zeta. wp_step. apply (wp_mono _ (λ _ t', t' = t) _ no_exn); [|intros tokens ? ->|done].
  { wp_step; [|by wp_step]. wp_step. apply (wp_lift_some _ _ n); [done|]. by wp_step. }
  wp_step. apply (wp_mono _ (λ _ t', t' = t) _ no_exn); [|intros [] ? ->|done].
  { wp_step; [|by wp_step]. apply bool_decide_eq_true in Hif. apply wp_assert; [|done]. apply negb_true_iff, bool_decide_eq_false_2.
    apply (si_resumed _ _ _ Ht), Hres. apply lookup_app_Some in Hidx as [Hl|[_ Hl]]; [apply lookup_lt_Some in Hl; lia|].
    by eapply list_elem_of_lookup_2. }
  wp_step. destruct (blocks_of_scheduled budget t queued i true Ht Hi) as [_ [b ->]]. apply wp_lift_res; [|done]. intros ? [= <-].
  by wp_step.
Qed.

Lemma common_prefix_spec budget t queued :
  step_inv budget t queued →
  wp (common_prefix_blocks cfg) (λ _ t', ∃ kv', t' = set_sched (set_kv_cache_manager kv' (sched t)) t ∧
    kv_quiet mml (kv (sched t)) kv') no_exn t.
Proof.
  intros Ht. assert (kv_ok mml (kv (sched t))) as Hkv by apply Ht. unfold common_prefix_blocks. wp_step. wp_step.
  destruct ((running ∘ sched) t) as [|i l].
  - wp_step. exists (kv (sched t)). split; [destruct t as [s]; cbn; by destruct s|by apply kv_quiet_refl].
  - wp_step. wp_step. wp_step. wp_step. cbn [lget lset schedL kvmL].
    eapply wp_mono; [by apply (kv_common_prefix_spec mml)| |done]. intros c kv' Hq. by exists kv'.
Qed.

(** What the output is made of; the scheduler keeps its requests and queues. *)
Record output_done (t t' : St) (total : Z) (o : SchedulerOutput) : Prop := {
  od_num : so_num_scheduled_tokens o = num_scheduled_tokens t;
  od_total : so_total_num_scheduled_tokens o = total;
  od_spec : so_scheduled_spec_decode_tokens o = scheduled_spec_decode_tokens t;
  od_kv : kv_quiet mml (kv (sched t)) (kv (sched t'));
  od_objects : store (sched t') = store (sched t) ∧ requests (sched t') = requests (sched t) ∧
    running (sched t') = running (sched t) ∧ waiting (sched t') = waiting (sched t) ∧
    skipped_waiting (sched t') = skipped_waiting (sched t);
  od_prev : prev_step_scheduled_req_ids (sched t') = list_to_set (num_scheduled_tokens t).*1
}.

Lemma make_output_spec budget t queued total common :
  step_inv budget t queued →
  wp (make_output cfg total common) (λ o t', output_done t t' total o) no_exn t.
Proof.
  intros Ht. assert (kv_ok mml (kv (sched t))) as Hkv by apply Ht. unfold make_output. wp_step. wp_step. unfold Datatypes.id. cbv zeta.
  wp_step. apply wp_lift_res; [|intros e He; exfalso].
  2:{ match type of He with map_res ?f ?l = _ => destruct (map_res_total f l) as [ys Eys] end; [|congruence].
      intros i Hi. assert (i ∈ scheduled t) as His by (unfold scheduled; destruct (use_v2_model_runner cfg); set_solver).
      destruct (blocks_of_scheduled budget t queued i false Ht His) as [_ [b ->]]. by eexists. }
  intros new _. wp_step. eapply wp_mono; [apply (cached_data_spec budget t queued); [done|destruct (use_v2_model_runner cfg); set_solver]| |done].
  intros cached t0 ->. wp_step. wp_step. wp_step. cbn [lget lset schedL]. wp_step.
  set (t1 := set_sched _ t).
  apply (wp_mono _ (λ _ t', ∃ kv', t' = set_sched (set_kv_cache_manager kv' (sched t1)) t ∧ kv_quiet mml (kv (sched t)) kv') _ no_exn); [| |done].
  { wp_step.
    - wp_step. wp_step. wp_step. cbn [lget lset schedL kvmL]. eapply wp_mono; [apply (kv_take_ids_spec mml); exact Hkv| |done].
      intros l kv' Hq. wp_step. by exists kv'.
    - wp_step. exists (kv (sched t)). split; [|by apply kv_quiet_refl]. unfold t1. by destruct t as [[]]. }
  intros zero t2 (kv' & -> & Hq). wp_step. wp_step. wp_step. cbn [lget lset schedL encL].
  destruct (law_freed (encoder_cache_manager (sched t1))) as (l & e' & El). unfold wp at 1.
  cbn [encoder_cache_manager set_kv_cache_manager sched set_sched]. rewrite El. wp_step. by split.
Qed.

Lemma initial_inv s queued :
  sched_inv s queued →
  step_inv (token_budget (initial_step cfg s)) (initial_step cfg s) queued ∧
  running_phase (initial_step cfg s) ∧ 0 ≤ token_budget (initial_step cfg s) ≤ max_num_scheduled_tokens cfg.
Proof.
  intros [Hc Hq Hlen Hprev]. pose proof (pc_budget _ Hcfg) as Hb.
  assert (0 ≤ token_budget (initial_step cfg s) ≤ max_num_scheduled_tokens cfg) as Hbud by (cbn; case_bool_decide; lia).
  split; [|split; [split; cbn; [done|lia|intros j Hj; by apply elem_of_nil in Hj]|done]].
  split; cbn; try done.
  - by apply NoDup_nil.
  - intros id Hid. by apply elem_of_nil in Hid.
  - intros i Hi. unfold scheduled. cbn. split; intros H; by apply elem_of_nil in H.
  - by apply NoDup_nil.
  - intros i Hi. by apply elem_of_nil in Hi.
  - intros id n Hid. by apply elem_of_nil in Hid.
  - intros i Hi. destruct (core_ok _ _ _ _ _ _ _ _ Hc i (or_intror Hi)) as [Hok _].
    pose proof (rk_computed _ _ _ Hok) as H. change (at_ (store s) i) with (the i s) in H. cbn. unfold Datatypes.id. lia.
  - apply Hbud.
  - split; [by apply NoDup_nil|done].
  - intros i Hi. by apply elem_of_nil in Hi.
Qed.

Lemma sum_positive (l : list (string * Z)) : (∀ id n, (id, n) ∈ l → 0 < n) → l ≠ [] → 0 < sumZ l.*2.
Proof.
  intros Hpos Hne. assert (0 ≤ sumZ l.*2 ∧ (l ≠ [] → 0 < sumZ l.*2)) as [_ H]; [|by apply H].
  clear Hne. induction l as [|[id n] l IH]; [done|]. pose proof (Hpos id n ltac:(left)).
  change (sumZ ((id, n) :: l).*2) with (n + sumZ l.*2).
  destruct IH as [IH _]; [intros id' n' Hin; apply (Hpos id'); by right|]. split; lia.
Qed.

(** What [schedule] promises. *)
Record scheduled_ok (s : Sched) (so : SchedulerOutput) (s' : Sched) : Prop := {
  sk_inv : ∃ queued, sched_inv s' queued;
  sk_requests : requests s' = requests s;
  sk_total : so_total_num_scheduled_tokens so = sumZ (so_num_scheduled_tokens so).*2 ∧
    so_total_num_scheduled_tokens so ≤ max_num_scheduled_tokens cfg;
  sk_paused : _pause_state s = PAUSED_ALL → so_num_scheduled_tokens so = [];
  sk_drafts : so_scheduled_spec_decode_tokens so = [];
  sk_once : NoDup (so_num_scheduled_tokens so).*1;
  sk_each : ∀ id n, (id, n) ∈ so_num_scheduled_tokens so → 0 < n ∧ ∃ i, dict_get (requests s') id = Some i ∧
    i ∈ running s' ∧ n ≤ num_computed_tokens (the i s') ≤ num_tokens (the i s') ∧
    kv_held (kv s') id (num_computed_tokens (the i s'))
}.

Lemma advanced_inv s0 s queued num :
  num_fits s0 num → advancing s0 num queued [] s → queued_in s0 queued → Z.of_nat (length (running s0)) ≤ max_num_running_reqs cfg →
  prev_step_scheduled_req_ids s0 = list_to_set num.*1 →
  core sha256 cfg (store s0) (requests s0) (running s0) queued (kv s0) num →
  sched_inv s queued.
Proof.
  intros (Hnd & Hpos & Hknown & Hfit) [Hc (Hfr & Er & Ew & Ek) Hqu Htok] (lw & lk & Hw & Hk & Hq) Hlen Hprev Hc0.
  split; [done| |by rewrite Er|].
  - exists lw, lk. by rewrite Ew, Ek.
  - intros i Hi _. rewrite (sf_prev _ _ Hfr), Hprev, elem_of_list_to_set, (sf_ids _ _ Hfr). intros Hin.
    destruct (Hknown _ Hin) as (j & Hj & E0). pose proof (core_NoDup _ _ _ _ _ _ _ _ Hc0) as (_ & Hd & _)%NoDup_app.
    apply (Hd i Hi). by rewrite <-(core_inj _ _ _ _ _ _ _ _ Hc0 j i (or_intror Hj) (or_introl Hi) E0).
Qed.

Lemma advanced_each s0 s queued num id n :
  num_fits s0 num → advancing s0 num queued [] s → (id, n) ∈ num →
  core sha256 cfg (store s0) (requests s0) (running s0) queued (kv s0) num →
  0 < n ∧ ∃ i, dict_get (requests s) id = Some i ∧ i ∈ running s ∧ n ≤ num_computed_tokens (the i s) ≤ num_tokens (the i s) ∧
    kv_held (kv s) id (num_computed_tokens (the i s)).
Proof.
  intros (Hnd & Hpos & Hknown & Hfit) [Hc (Hfr & Er & Ew & Ek) Hqu Htok] Hin Hc0. split; [by apply (Hpos id)|].
  destruct (Hknown id) as (i & Hi & Eid); [apply list_elem_of_fmap; by exists (id, n)|]. rewrite <-Er in Hi.
  rewrite <-(sf_ids _ _ Hfr) in Eid.
  pose proof (core_ref _ _ _ _ _ _ _ _ Hc i (or_intror Hi)) as Hreq. change (request_id (at_ (store s) i)) with (ref s i) in Hreq.
  rewrite Eid in Hreq. apply dict_get_elem in Hreq; [|apply Hc].
  destruct (Htok i Hi) as [_ Ec]. rewrite Eid in Ec. unfold given in Ec. rewrite (dict_get_elem _ _ _ Hnd Hin) in Ec. cbn in Ec.
  destruct (core_ok _ _ _ _ _ _ _ _ Hc i (or_intror Hi)) as [Hok _]. pose proof (rk_computed _ _ _ Hok) as Hcomp.
  change (0 ≤ num_computed_tokens (the i s) ≤ num_tokens (the i s)) in Hcomp.
  destruct (c_run _ _ _ _ _ _ _ _ Hc i Hi) as [_ Hh]. change (kv_held (kv s) (ref s i) (num_computed_tokens (the i s) + 0)) in Hh.
  rewrite Z.add_0_r, Eid in Hh. exists i. split; [done|]. split; [done|]. split; [|done]. split; [|apply Hcomp].
  rewrite Er in Hi. destruct (core_ok _ _ _ _ _ _ _ _ Hc0 i (or_intror Hi)) as [Hok0 _]. pose proof (rk_computed _ _ _ Hok0) as H0.
  change (0 ≤ num_computed_tokens (the i s0) ≤ num_tokens (the i s0)) in H0. unfold Datatypes.id in Ec. lia.
Qed.

Lemma schedule_step_spec s queued :
  sched_inv s queued →
  wp (schedule_step use_int sha256 cfg) (λ so t', scheduled_ok s so (sched t')) no_exn (initial_step cfg s).
Proof.
  intros Hs. destruct (initial_inv s queued Hs) as (Ht & Hp & Hbud). set (t := initial_step cfg s) in *. 
  set (budget := token_budget t) in *. unfold schedule_step. wp_step. wp_step. wp_step. cbn [lget lset schedL kvmL].
  eapply wp_mono; [apply (kv_new_step_spec mml); apply Ht| |done]. intros [] kv1 Hkv1.
  pose proof (step_quiet budget t queued kv1 Ht Hkv1) as Ht1. set (t1 := set_sched _ t) in *.
  wp_step. wp_step. wp_step.
  eapply wp_mono; [apply (schedule_running_spec budget _ t1)| |done].
  { exists queued. split; [done|]. split; [apply Hs|by destruct Hp]. }
  { unfold remaining, t1. cbn. lia. }
  intros [] t2 [(q2 & Ht2 & Hq2 & _) Hf2]. wp_step. unfold record_loras. rewrite (pc_loras _ Hcfg). wp_step.
  wp_step. eapply wp_mono; [by apply (schedule_waiting_requests_spec budget t2 q2)| |done].
  intros [] t3 [(q3 & Ht3 & Hq3) Hf3].
  wp_step. eapply wp_mono; [apply (check_constraints_spec budget t3 q3 Ht3); lia| |done]. intros total ? [-> Etot].
  wp_step. eapply wp_mono; [apply (common_prefix_spec budget t3 q3 Ht3)| |done]. intros common t4 (kv4 & Et4 & Hkv4).
  pose proof (step_quiet budget t3 q3 kv4 Ht3 Hkv4) as Ht4. rewrite <-Et4 in Ht4.
  wp_step. eapply wp_mono; [apply (make_output_spec budget t4 q3 total common Ht4)| |done].
  intros o t5 [On Ot Osp Okv (O1 & O2 & O3 & O4 & O5) Opr]. wp_step. cbn [lget lset schedL].
  assert (∀ i, the i (sched t5) = the i (sched t4)) as Hthe by (intros i; unfold the; by rewrite O1).
  assert (core sha256 cfg (store (sched t5)) (requests (sched t5)) (running (sched t5)) q3 (kv (sched t5)) (so_num_scheduled_tokens o)) as Hc5.
  { rewrite O1, O2, O3, On. by apply (core_quiet _ _ _ _ _ _ (kv (sched t4))); [apply Ht4|]. }
  assert (num_fits (sched t5) (so_num_scheduled_tokens o)) as Hnf.
  { rewrite On. split; [apply Ht4|]. split; [apply Ht4|]. rewrite O3. split.
    - intros id Hid. destruct (si_known _ _ _ Ht4 id Hid) as (i & ? & ?). exists i. by rewrite Hthe.
    - intros i Hi. rewrite Hthe. by apply (si_fits _ _ _ Ht4). }
  eapply wp_mono; [by apply (update_after_spec (sched t5) q3 o)| |done]. intros so s' (En & Et & Es & Hadv).
  assert (num_scheduled_tokens t4 = num_scheduled_tokens t3) as E43 by by rewrite Et4.
  rewrite <-En in Hadv, Hnf, Hc5, On. split; cbn [sched set_sched].
  - exists q3. apply (advanced_inv (sched t5) s' q3 (so_num_scheduled_tokens so)); try done; [|rewrite O3; apply Ht4|by rewrite Opr, On].
    destruct Hq3 as (lw & lk & Hw & Hk & Hq). exists lw, lk. by rewrite O4, O5, Et4.
  - destruct Hadv as [_ (Hfr & _) _ _]. rewrite (sf_requests _ _ Hfr), O2, Et4. cbn.
    by rewrite (sf_requests _ _ Hf3), (sf_requests _ _ Hf2).
  - rewrite Et, Ot, Etot, On, E43. split; [done|]. pose proof (si_sum _ _ _ Ht3). pose proof (si_budget _ _ _ Ht3). lia.
  - intros Hpause. assert (budget = 0) as Hb0 by (unfold budget, t; cbn; by rewrite bool_decide_eq_true_2).
    destruct (decide (so_num_scheduled_tokens so = [])) as [|Hne]; [done|]. exfalso.
    pose proof (sum_positive _ (proj1 (proj2 Hnf)) Hne) as Hpos. rewrite On, E43 in Hpos.
    pose proof (si_sum _ _ _ Ht3). pose proof (si_budget _ _ _ Ht3). lia.
  - rewrite Es, Osp, Et4. apply Ht3.
  - apply Hnf.
  - intros id n Hin. by apply (advanced_each (sched t5) s' q3 (so_num_scheduled_tokens so)).
Qed.

Lemma schedule_spec s queued :
  sched_inv s queued → ∃ so s', schedule use_int sha256 cfg s = (Ok so, s') ∧ scheduled_ok s so s'.
Proof.
  intros Hs. apply (wp_no_exn_run (schedule use_int sha256 cfg)). pose proof (schedule_step_spec s queued Hs) as H.
  unfold wp, schedule in *. by destruct (schedule_step _ _ _ _) as [[o|e] t].
Qed.
End steps.
