(* ===== verification/SchedulerRun.v ===== *)
(** * The scheduler as a running system

    What happens between the steps: requests are added and finished, and the model
    runner's tokens come back in [update_from_output].  Each of these keeps the state
    in order and does not raise, so every state the system reaches is in order.
    Requests generate text: they have sampling parameters, and reach the length limit
    before the model's. *)

From stdpp Require Import base list gmap strings.
From Stdlib Require Import ZArith Lia.
From S2P Require Import Prelude FreeQueue Request BlockHash BlockPool EncoderCache RequestQueue KVCacheSpec KVCacheConfig CacheManagers CacheHit Coordinator.
From S2P Require Import ManagerSpecs KVCacheManager CacheInvariant Admission KVService Scheduler SchedulerInvariant SchedulerStep.
Local Open Scope Z_scope.

(** ** Lists *)

(** [remove_all] keeps the other items. *)
Lemma remove_all_filter l items :
  NoDup l → NoDup items → remove_all l items = filter (λ y, y ∉ items) l.
Proof.
  intros Hl Hi. destruct items as [|x [|y items]]; simpl; [| |done].
  - symmetry. apply filter_id. intros y _. apply not_elem_of_nil.
  - clear Hi. induction l as [|z l IH]; [done|]. apply NoDup_cons in Hl as [Hz Hl]. cbn [remove_first].
    rewrite filter_cons. destruct (decide (z = x)) as [->|Hne].
    + rewrite decide_False by (by rewrite list_elem_of_singleton; auto). symmetry. apply filter_id.
      intros y Hy Hx. apply list_elem_of_singleton in Hx as ->. done.
    + rewrite decide_True by (by rewrite list_elem_of_singleton). rewrite <-IH by done. by destruct (remove_first x l).
Qed.

Abbreviation without l xs := (filter (λ y : Z, y ∉ xs) l).

Lemma without_nil (l : list Z) : without l (@nil Z) = l.
Proof. apply filter_id. intros y _. apply not_elem_of_nil. Qed.

Lemma without_snoc (l : list Z) xs i : NoDup l → i ∈ l → i ∉ xs → without l xs ≡ₚ i :: without l (xs ++ [i]).
Proof.
  intros Hnd Hi Hx. apply NoDup_Permutation.
  - by apply NoDup_filter.
  - apply NoDup_cons. split; [|by apply NoDup_filter]. intros [Hn _]%list_elem_of_filter. apply Hn, elem_of_app. right. by left.
  - intros j. rewrite elem_of_cons, !list_elem_of_filter, elem_of_app, list_elem_of_singleton.
    destruct (decide (j = i)) as [->|]; tauto.
Qed.

Lemma without_ext (l xs ys : list Z) : (∀ i, i ∈ l → i ∈ xs ↔ i ∈ ys) → without l xs = without l ys.
Proof. intros H. apply filter_ext_in. intros i Hi. by rewrite (H i Hi). Qed.

Lemma omap_NoDup {A B} (f : A → option B) (g : B → A) (l : list A) :
  (∀ a b, a ∈ l → f a = Some b → g b = a) → NoDup l → NoDup (omap f l).
Proof.
  induction l as [|a l IH]; intros Hg; [by intros _; apply NoDup_nil_2|]. intros [Ha Hnd]%NoDup_cons. simpl.
  assert (NoDup (omap f l)) as Hl by (apply IH; [intros; apply Hg; [by right|done]|done]).
  destruct (f a) as [b|] eqn:Ef; [|done]. apply NoDup_cons. split; [|done].
  intros (a' & Ha' & Ef')%list_elem_of_omap. apply Ha.
  rewrite <-(Hg a b (list_elem_of_here _ _) Ef), (Hg a' b (list_elem_of_further _ _ _ Ha') Ef'). done.
Qed.

Section generation.
Context (sha256 : bytes → bytes) (hash_fn : BlockHash * list Z * option (list pyval) → bytes) (NONE_HASH : bytes).
Context (cfg : SchedulerConfig).
Abbreviation mml := (max_model_len cfg).

(** The requests: they generate, with their hashes up to date, and [min_tokens] does
    not carry them beyond the model length. *)
Record generation_ok (r : Request) : Prop := {
  go_sampling : ∃ sp, sampling_params r = Some sp ∧ num_prompt_tokens r + min_tokens sp ≤ mml;
  go_pooling : pooling_params r = None;
  go_tokens : num_tokens r = num_prompt_tokens r + num_output_tokens r;
  go_hashes : block_hashes r = ref_hashes sha256 hash_fn NONE_HASH (sched_block_size cfg) r
}.

Lemma ref_hashes_ext bs r r' :
  same_hash_inputs r r' → _all_token_ids r' = _all_token_ids r →
  ref_hashes sha256 hash_fn NONE_HASH bs r' = ref_hashes sha256 hash_fn NONE_HASH bs r.
Proof.
  intros Hs Ht. unfold ref_hashes, num_full_blocks_of, num_tokens. rewrite Ht. generalize (Z.to_nat (Z.of_nat (length (_all_token_ids r)) / bs)), (@None BlockHash), 0.
  intros n. induction n as [|n IH]; intros prev i; [done|]. cbn [ref_chain]. rewrite Ht, (ref_extra_ext sha256 r r') by done. by rewrite IH.
Qed.

#[export] Instance generation_content : RequestContent.
Proof.
  refine {| content_ok := generation_ok |}; intros; destruct H as [H1 H2 H3 H4]; (split; [done|done|done|]);
    (etransitivity; [exact H4|]; symmetry; by apply ref_hashes_ext).
Defined.

(** The hash function has no collisions and never gives the seed of the chain. *)
Record hash_injective : Prop := {
  hi_inj : ∀ x y, hash_fn x = hash_fn y → x = y;
  hi_seed : ∀ x, hash_fn x ≠ [] ∧ hash_fn x ≠ NONE_HASH
}.
End generation.

(** ** The tokens of a step *)

Section tokens.
Context (sha256 : bytes → bytes) (hash_fn : BlockHash * list Z * option (list pyval) → bytes) (NONE_HASH : bytes).
Context (cfg : SchedulerConfig) (Hhash : hash_injective hash_fn NONE_HASH) (Hbs : 0 < sched_block_size cfg).
Abbreviation mml := (max_model_len cfg).
#[local] Instance the_content : RequestContent := generation_content sha256 hash_fn NONE_HASH cfg.
Abbreviation good := (request_ok sha256 cfg).

(** What new tokens leave alone. *)
Record tokens_frame (r r' : Request) : Prop := {
  tf_id : request_id r' = request_id r;
  tf_obj : obj_id r' = obj_id r;
  tf_text : mm_features r' = mm_features r;
  tf_plain : resumable r' = resumable r ∧ spec_token_ids r' = spec_token_ids r ∧
    num_output_placeholders r' = num_output_placeholders r;
  tf_computed : num_computed_tokens r' = num_computed_tokens r
}.

Lemma tokens_frame_trans r1 r2 r3 : tokens_frame r1 r2 → tokens_frame r2 r3 → tokens_frame r1 r3.
Proof. intros [? ? ? (? & ? & ?) ?] [? ? ? (? & ? & ?) ?]. split; try congruence. split_and!; congruence. Qed.

Lemma good_hashes r :
  block_hashes r = ref_hashes sha256 hash_fn NONE_HASH (sched_block_size cfg) r → mm_features r = [] →
  BlockHash.cache_ok sha256 r → hashes_ok sha256 (sched_block_size cfg) r.
Proof.
  intros Hr Hmm Hc. split; [|rewrite Hr; apply ref_hashes_NoDup; try apply Hhash; done|by rewrite Hmm|done].
  rewrite Hr. unfold ref_hashes. rewrite length_ref_chain. unfold num_full_blocks_of.
  rewrite Z2Nat.id; [done|]. apply Z.div_pos; [unfold num_tokens; lia|done].
Qed.

(** What the stop conditions read of a request besides its parameters. *)
Definition stop_view (r : Request) := (num_tokens r, max_tokens r, _output_token_ids r, stop_reason r, sampling_params r).

(** [r] with the tokens [l] more. *)
Definition extended (r : Request) (l : list Z) : Request :=
  set_all_token_ids (_all_token_ids r ++ l) (set_output_token_ids (_output_token_ids r ++ l) r).

(** After [l], and not below the minimum of tokens, a stop condition holds that prescribes the status
    [st] and the reason [reason]. *)
Definition stops_after (r : Request) (l : list Z) (st : RequestStatus) (reason : option StopReason) : Prop :=
  ∃ sp t, sampling_params r = Some sp ∧ last l = Some t ∧ min_tokens sp ≤ num_output_tokens (extended r l) ∧
    stops_with mml sp (extended r l) t st reason.

(** [l] is what [r] takes of [toks]: up to the first token after which it stops, if there is one. *)
Record until_stop (toks l : list Z) (stopped : bool) (r r' : Request) : Prop := {
  us_prefix : l `prefix_of` toks;
  us_output : _output_token_ids r' = _output_token_ids r ++ l;
  us_first : ∀ k st reason, (k < length l)%nat → ¬ stops_after r (take k l) st reason;
  us_end : if stopped then stops_after r l (status r') (stop_reason r')
           else l = toks ∧ status r' = status r ∧ ∀ st reason, ¬ stops_after r l st reason
}.

Lemma stops_with_view sp r r' t st reason : stop_view r' = stop_view r → stops_with mml sp r' t st reason ↔ stops_with mml sp r t st reason.
Proof. unfold stop_view, stops_with, num_output_tokens. by intros [= -> -> -> -> _]. Qed.

Lemma num_output_view r r' : stop_view r' = stop_view r → num_output_tokens r = num_output_tokens r'.
Proof. unfold stop_view, num_output_tokens. by intros [= _ _ -> _ _]. Qed.

Lemma stops_after_nil r st reason : ¬ stops_after r [] st reason.
Proof. by intros (sp & t & _ & E & _). Qed.

(** After one token. *)
Lemma stops_after_cons r r1 t l st reason : l ≠ [] → stop_view r1 = stop_view (extended r [t]) →
  stops_after r (t :: l) st reason ↔ stops_after r1 l st reason.
Proof.
  intros Hl Hv. assert (stop_view (extended r1 l) = stop_view (extended r (t :: l))) as Hv'.
  { revert Hv. unfold stop_view, extended, num_tokens. cbn. rewrite !length_app. cbn. intros [= E1 E2 E3 E4 E5].
    rewrite E2, E3, E4, E5, <-app_assoc. cbn.
    replace (Z.of_nat (length (_all_token_ids r1) + length l)) with (Z.of_nat (length (_all_token_ids r) + S (length l))) by lia. done. }
  unfold stops_after. assert (sampling_params r1 = sampling_params r) as -> by by injection Hv.
  assert (num_output_tokens (extended r1 l) = num_output_tokens (extended r (t :: l))) as -> by (symmetry; by apply num_output_view).
  setoid_rewrite (stops_with_view _ _ _ _ _ _ Hv'). destruct l as [|x l]; [done|]. done.
Qed.

(** One more token: all but the length limit stays in order. *)
Record grown (r r1 : Request) (t : Z) : Prop := {
  gr_frame : tokens_frame r r1;
  gr_status : status r1 = status r;
  gr_output : _output_token_ids r1 = _output_token_ids r ++ [t];
  gr_tokens : num_tokens r1 = num_tokens r + 1;
  gr_view : stop_view r1 = stop_view (extended r [t]);
  gr_good : num_tokens r1 < mml → good r1;
  gr_gen : generation_ok sha256 hash_fn NONE_HASH cfg r1
}.

Lemma append_one r t :
  good r → ∃ r1, append_output_token_ids sha256 hash_fn NONE_HASH (sched_block_size cfg) [t] r = (Ok tt, r1) ∧ grown r r1 t.
Proof.
  intros [Htext Hplain Htok Hcomp [_ _ _ Hmemo] Hgen]. pose proof Hgen as [(sp & Hsp & Hmin) Hpool Hlen Hhs].
  assert (tail_feats_ok (sched_block_size cfg) r (num_full_blocks_of (sched_block_size cfg) r)) as Htail.
  { right. rewrite Htext. intros f Hf. by apply elem_of_nil in Hf. }
  destruct (append_tokens_spec sha256 hash_fn NONE_HASH (sched_block_size cfg) Hbs [t] r) as (c & E & Hf1 & Hc1 & Hh1); [|done|].
  { split; [by rewrite Htext|]. by split. }
  set (r1 := set_block_hashes _ _) in *. exists r1. split; [exact E|].
  assert (num_tokens r1 = num_tokens r + 1) as Et by (unfold num_tokens; cbn; rewrite length_app; cbn; lia).
  assert (generation_ok sha256 hash_fn NONE_HASH cfg r1) as Hg1.
  { split; [by exists sp|done| |exact Hh1]. rewrite Et. unfold num_output_tokens in *. cbn. rewrite length_app. cbn. lia. }
  split; [by split|done|done|done| | |done].
  { unfold stop_view, extended. rewrite Et. unfold num_tokens. cbn. rewrite length_app. cbn.
    replace (Z.of_nat (length (_all_token_ids r) + 1)) with (Z.of_nat (length (_all_token_ids r)) + 1) by lia. done. }
  intros Hlt. split; [done|done|lia|change (num_computed_tokens r1) with (num_computed_tokens r); lia| |exact Hg1].
  apply good_hashes; [exact Hh1|exact Htext|exact Hc1].
Qed.

(** The stop check after a token. *)
Lemma check_grown r r1 t :
  grown r r1 t → ∃ b r2, check_stop mml r1 = (Ok b, r2) ∧ tokens_frame r1 r2 ∧ _output_token_ids r2 = _output_token_ids r1 ∧
    if b then is_finished r2 = true ∧ stops_after r [t] (status r2) (stop_reason r2)
    else r2 = r1 ∧ num_tokens r1 < mml ∧ ∀ st reason, ¬ stops_after r [t] st reason.
Proof.
  intros [_ _ Hout Htok Hv _ [(sp & Hsp & Hmin) Hpool Hlen _]].
  assert (sampling_params r = Some sp) as Hsp0 by by injection Hv as _ _ _ _ E; rewrite <-E.
  assert (num_output_tokens (extended r [t]) = num_output_tokens r1) as Hn by by apply num_output_view.
  destruct (check_stop_spec mml sp r1 (_output_token_ids r) t Hpool Hsp Hout) as (b & r2 & E & Hno & Hyes & Hiff).
  exists b, r2. split; [done|]. destruct b.
  - destruct (Hyes eq_refl) as (st & reason & -> & Hst & Hw). do 2 (split; [done|]). split; [done|].
    exists sp, t. split; [done|]. split; [done|]. rewrite Hn. split; [by apply Hiff|]. by apply (stops_with_view _ r1).
  - rewrite (Hno eq_refl). do 2 (split; [done|]). split; [done|]. split; [|].
    2:{ intros st reason (sp' & t' & E1 & [= <-] & E2 & E3). rewrite Hsp0 in E1. injection E1 as <-. rewrite Hn in E2.
        apply (stops_with_view _ r1) in E3; [|done]. enough (false = true) by done. apply Hiff. eauto. }
    apply Z.nle_gt. intros Hge.
    enough (false = true) by done. apply Hiff. split; [unfold num_output_tokens in *; lia|].
    destruct (decide (Some t = eos_token_id sp)) as [He|He]; [exists FINISHED_STOPPED, (stop_reason r1); by left|].
    destruct (decide (t ∈ default [] (stop_token_ids sp))) as [Hs|Hs]; [exists FINISHED_STOPPED, (Some (StopInt t)); by right|].
    exists FINISHED_LENGTH_CAPPED, (stop_reason r1). cbn. split_and!; try done. by left.
Qed.

Lemma until_stop_nil r : until_stop [] [] false r r.
Proof.
  split; [done|by rewrite app_nil_r|by intros k ? ? Hk%Nat.nlt_0_r|]. split; [done|]. split; [done|]. intros st reason. apply stops_after_nil.
Qed.

Lemma until_stop_cons toks l stopped r r1 r' t :
  grown r r1 t → (∀ st reason, ¬ stops_after r [t] st reason) → until_stop toks l stopped r1 r' → until_stop (t :: toks) (t :: l) stopped r r'.
Proof.
  intros Hgr Hgo [[k Hk] Ho Hfirst Hend].
  assert (∀ l' st reason, stops_after r (t :: l') st reason → stops_after r1 l' st reason) as Hback.
  { intros l' st reason Hs. destruct l' as [|x l']; [by apply Hgo in Hs|]. by apply (stops_after_cons r r1 t) in Hs; [|done|apply Hgr]. }
  split.
  - exists k. by rewrite Hk.
  - by rewrite Ho, (gr_output _ _ _ Hgr), <-app_assoc.
  - intros [|j] st reason Hj; cbn [take]; [apply stops_after_nil|]. intros Hs%Hback. cbn in Hj. eapply Hfirst; [|exact Hs]. lia.
  - destruct stopped.
    + apply (stops_after_cons r r1 t); [|apply Hgr|done]. intros ->. by apply stops_after_nil in Hend.
    + destruct Hend as (-> & Hs & Hn). split; [done|]. split; [by rewrite Hs, (gr_status _ _ _ Hgr)|]. intros st reason Hst%Hback. by eapply Hn.
Qed.

(** Tokens are appended up to the first at which the request stops. *)
Lemma append_until_stop_spec toks r :
  good r →
  ∃ l stopped r', append_until_stop sha256 hash_fn NONE_HASH cfg toks r = (Ok (l, stopped), r') ∧
    tokens_frame r r' ∧ until_stop toks l stopped r r' ∧ if stopped : bool then is_finished r' = true else good r'.
Proof.
  revert r. induction toks as [|t toks IH]; intros r Hr; cbn [append_until_stop].
  { exists [], false, r. split; [done|]. split; [done|]. split; [apply until_stop_nil|done]. }
  destruct (append_one r t Hr) as (r1 & E1 & Hgr). destruct (check_grown r r1 t Hgr) as (b & r2 & E2 & Hf2 & Ho2 & Hb).
  assert (tokens_frame r r2) as Hf by (eapply tokens_frame_trans; [apply Hgr|done]).
  unfold mbind, M_bind. rewrite E1, E2. destruct b.
  - destruct Hb as [Hfin Hstop]. exists [t], true, r2. split; [done|]. split; [done|]. split; [|done].
    split; [by exists toks|by rewrite Ho2, (gr_output _ _ _ Hgr)| |done]. intros k st reason Hk. cbn in Hk. assert (k = 0%nat) as -> by lia. apply stops_after_nil.
  - destruct Hb as (-> & Hlt & Hgo). destruct (IH r1 (gr_good _ _ _ Hgr Hlt)) as (l & st & r' & E & Hf' & Hu & Hst).
    rewrite E. exists (t :: l), st, r'. split; [done|]. split; [by eapply tokens_frame_trans|]. split; [by eapply until_stop_cons|done].
Qed.
(** What the constructor gives for a text prompt to generate from. *)
Lemma new_request_ok id obj client pr at_ sp lora st toks salt r :
  Request_init sha256 hash_fn NONE_HASH (sched_block_size cfg) id obj client pr at_ (Some sp) None lora st (Some toks) None salt []
    false = Ok r →
  0 < Z.of_nat (length toks) < mml → Z.of_nat (length toks) + min_tokens sp ≤ mml →
  good r ∧ request_id r = id ∧ obj_id r = obj ∧ num_computed_tokens r = 0 ∧
  (status r = WAITING ∨ status r = WAITING_FOR_STRUCTURED_OUTPUT_GRAMMAR).
Proof.
  intros Hinit Hlen Hmin. unfold Request_init, Request_fields in Hinit. destruct (sp_max_tokens sp) as [m|]; [|done].
  cbn in Hinit. set (r0 := mkRequest _ _ _ _ _ _ _ _ _ _ _ _ _ _ _ _ _ _ _ _ _ _ _ _ _ _ _ _ _ _ _) in Hinit.
  destruct (update_block_hashes_spec sha256 hash_fn NONE_HASH (sched_block_size cfg) Hbs 0 r0) as (c & E & Hc).
  { done. } { by intros s e h. } { by left. } { lia. } { done. }
  rewrite E in Hinit. cbn in Hinit. apply Ok_inj in Hinit. set (rm := set_prompt_embeds_per_block_hashes c r0) in *.
  assert (ref_hashes sha256 hash_fn NONE_HASH (sched_block_size cfg) r =
          ref_hashes sha256 hash_fn NONE_HASH (sched_block_size cfg) r0) as Eh by (subst r; by apply ref_hashes_ext).
  assert (block_hashes r = ref_hashes sha256 hash_fn NONE_HASH (sched_block_size cfg) r) as Eb by (by rewrite Eh; subst r).
  assert (_all_token_ids r = toks ∧ num_prompt_tokens r = Z.of_nat (length toks)) as [Etok Epr] by (by subst r).
  split; [|subst r; do 3 (split; [done|]); cbn; destruct st; auto].
  split.
  - by subst r.
  - by subst r.
  - unfold num_tokens. rewrite Etok. lia.
  - subst r. cbn. unfold num_tokens. cbn. lia.
  - apply good_hashes; [exact Eb|by subst r|by subst r].
  - split; [exists sp; rewrite Epr; by subst r|by subst r| |exact Eb].
    unfold num_tokens. rewrite Etok, Epr. subst r. unfold num_output_tokens. cbn. lia.
Qed.
End tokens.

(** ** A request leaves *)

Section removal.
Context `{RC : !RequestContent} (sha256 : bytes → bytes) (cfg : SchedulerConfig).
Abbreviation mml := (max_model_len cfg).

Lemma core_remove st st' reqs run run' queued queued' kv kv' i :
  core sha256 cfg st reqs run queued kv [] → queued ++ run ≡ₚ i :: (queued' ++ run') → run' ⊆ run → queued' ⊆ queued →
  (∀ j, j ≠ i → at_ st' j = at_ st j) → kv_step mml (request_id (at_ st i)) kv kv' → kv_absent kv' (request_id (at_ st i)) →
  core sha256 cfg st' (dict_del reqs (request_id (at_ st i))) run' queued' kv' [].
Proof.
  intros Hc Hp Hr Hq Hst Hs Habs. set (id := request_id (at_ st i)) in *.
  assert (i ∈ queued ∨ i ∈ run) as Hi by (rewrite <-elem_of_app, Hp; left).
  pose proof (core_NoDup _ _ _ _ _ _ _ _ Hc) as Hnd. rewrite Hp in Hnd. apply NoDup_cons in Hnd as [Hni _].
  assert (∀ j, j ∈ queued' ∨ j ∈ run' → j ≠ i ∧ request_id (at_ st j) ≠ id) as Hne.
  { intros j Hj. assert (j ≠ i) as Hji by (intros ->; by apply Hni, elem_of_app). split; [done|].
    intros E0. apply Hji. apply (core_inj _ _ _ _ _ _ _ _ Hc); [destruct Hj; [left; by apply Hq|right; by apply Hr]|done|done]. }
  pose proof (core_ref _ _ _ _ _ _ _ _ Hc i Hi) as Hin. fold id in Hin.
  pose proof Hc as [Hkv Hb Hk Ho Hw Hru Hqu Ha]. pose proof (dict_get_elem _ _ _ Hk Hin) as Hget.
  split.
  - apply Hs.
  - by rewrite (pf_hbs _ _ (co_pool _ _ _ (ks_only _ _ _ _ Hs))).
  - by apply dict_del_NoDup.
  - intros id' j [Hne' Hj]%dict_elem_del; [|done]. destruct (Ho id' j Hj) as (E1 & E2 & E3).
    rewrite Hst; [done|]. intros ->. by apply Hne'.
  - apply (Permutation_cons_inv (a := i)). rewrite <-Hp, Hw. apply (fmap_Permutation snd _ ((id, i) :: dict_del reqs id)).
    by apply dict_del_perm.
  - intros j Hj. destruct (Hne j (or_intror Hj)) as [Hji Hid]. rewrite Hst by done. destruct (Hru j (Hr j Hj)) as [? Hh].
    split; [done|]. by apply (kv_step_other mml id _ kv).
  - intros j Hj. destruct (Hne j (or_introl Hj)) as [Hji Hid]. rewrite Hst by done. destruct (Hqu j (Hq j Hj)) as (? & ? & ?).
    split; [done|]. split; [done|]. by apply (kv_step_other mml id _ kv).
  - intros id' Hid'. rewrite dict_del_keys, list_elem_of_filter in Hid' by done. destruct (decide (id' = id)) as [->|Hne']; [done|].
    apply (kv_step_other mml id _ kv); [done|done|]. apply Ha. tauto.
Qed.

(** A request arrives. *)
Lemma core_add st reqs run queued kv r :
  core sha256 cfg st reqs run queued kv [] → request_id r ∉ reqs.*1 → obj_id r ∉ reqs.*2 → request_ok sha256 cfg r →
  waiting_status (status r) = true → num_computed_tokens r = 0 →
  core sha256 cfg (<[obj_id r := r]> st) (dict_set reqs (request_id r) (obj_id r)) run (obj_id r :: queued) kv [].
Proof.
  intros Hc Hid Hobj Hok Hst H0. pose proof Hc as [Hkv Hb Hk Ho Hw Hru Hqu Ha].
  assert (dict_set reqs (request_id r) (obj_id r) = reqs ++ [(request_id r, obj_id r)]) as Eset by by apply dict_set_fresh.
  assert (∀ j, j ∈ queued ∨ j ∈ run → j ≠ obj_id r) as Hne.
  { intros j Hj ->. apply Hobj. rewrite <-Hw. apply elem_of_app. tauto. }
  split; try done.
  - by apply dict_set_NoDup.
  - intros id j. rewrite Eset, elem_of_app, list_elem_of_singleton. intros [Hj|[= -> ->]]; rewrite at_insert.
    + destruct (decide (j = obj_id r)) as [->|]; [|by apply Ho]. exfalso. apply Hobj, list_elem_of_fmap. by exists (id, obj_id r).
    + by rewrite decide_True.
  - rewrite Eset, fmap_app. cbn. rewrite Hw. by rewrite Permutation_app_comm.
  - intros j Hj. rewrite at_insert, decide_False by auto. by apply Hru.
  - intros j [->|Hj]%elem_of_cons; rewrite at_insert; [rewrite !decide_True by done; split; [done|split; [done|by apply Ha]]|].
    rewrite decide_False by auto. by apply Hqu.
  - intros id. rewrite Eset, fmap_app, not_elem_of_app. intros [? _]. by apply Ha.
Qed.
End removal.

(** ** Adding and finishing requests *)

Section run.
Context {Q E : Type} `{!RequestQueue Q} `{!EncoderManager E}.
Context (queue_rep : Q → list Request → Prop) `{!RequestQueueLaws Q queue_rep} `{!EncoderManagerLaws E}.
Context (use_int : bool) (sha256 : bytes → bytes).
Context (hash_fn : BlockHash * list Z * option (list pyval) → bytes) (NONE_HASH : bytes).
Context (cfg : SchedulerConfig) (Hcfg : plain_config cfg).
Context (Hhash : hash_injective hash_fn NONE_HASH) (Hbs : 0 < sched_block_size cfg).
#[local] Instance run_content : RequestContent := generation_content sha256 hash_fn NONE_HASH cfg.
Abbreviation Sched := (Scheduler (Q := Q) (E := E)).
Abbreviation mml := (max_model_len cfg).
Abbreviation kv := kv_cache_manager.
Abbreviation ref s i := (request_id (the i s)).
Abbreviation inv := (sched_inv queue_rep sha256 cfg).
Abbreviation score s run queued := (core sha256 cfg (store s) (requests s) run queued (kv s) []).

(** A new object with a new id: it waits. *)
Definition fresh_request (s : Sched) (r : Request) : Prop :=
  request_id r ∉ (requests s).*1 ∧ obj_id r ∉ (requests s).*2 ∧ request_ok sha256 cfg r ∧ num_computed_tokens r = 0 ∧
  (status r = WAITING ∨ status r = WAITING_FOR_STRUCTURED_OUTPUT_GRAMMAR).

Lemma enqueue_spec (s : Sched) i queued :
  queued_in queue_rep s queued → obj_id (the i s) = i →
  wp (_enqueue_waiting_request i) (λ _ s', queued_in queue_rep s' (i :: queued) ∧ store s' = store s ∧
    requests s' = requests s ∧ running s' = running s ∧ kv s' = kv s ∧
    prev_step_scheduled_req_ids s' = prev_step_scheduled_req_ids s) no_exn s.
Proof.
  intros (lw & lk & Hw & Hk & Hq) Hobj. unfold _enqueue_waiting_request, add_skipped, add_waiting. wp_step. wp_step. wp_step.
  - destruct (law_add _ _ (the i s) Hk) as (q' & l' & E0 & Hq' & Hp). repeat wp_step. rewrite E0. apply wp_lift_res; [|done].
    intros ? [= <-]. wp_step. split; [|done]. exists lw, l'. split; [done|]. split; [done|].
    rewrite Hq, !fmap_app, Hp. cbn. rewrite Hobj. apply Permutation_middle.
  - destruct (law_add _ _ (the i s) Hw) as (q' & l' & E0 & Hq' & Hp). repeat wp_step. rewrite E0. apply wp_lift_res; [|done].
    intros ? [= <-]. wp_step. split; [|done]. exists l', lk. split; [done|]. split; [done|].
    rewrite Hq, !fmap_app, Hp. cbn. by rewrite Hobj.
Qed.

Section adding.
Context (id_order : list string → list string).

Lemma add_request_spec s queued r :
  inv s queued → fresh_request s r →
  wp (sched_add_request sha256 hash_fn NONE_HASH id_order cfg r)
    (λ _ s', inv s' (obj_id r :: queued) ∧ requests s' = dict_set (requests s) (request_id r) (obj_id r) ∧
       running s' = running s) no_exn s.
Proof.
  intros [Hc Hq Hlen Hprev] (Hid & Hobj & Hok & H0 & Hst). unfold sched_add_request. wp_step. wp_step.
  unfold lookup_request. rewrite (proj2 (dict_get_None _ _) Hid). cbv zeta. unfold put. do 3 wp_step.
  destruct (rk_plain _ _ _ Hok) as (-> & _). cbv iota. wp_step.
  set (i := obj_id r) in *. set (s1 := set_store _ s).
  assert (∀ j, the j s1 = if decide (j = i) then r else the j s) as Hthe by (intros j; apply at_insert).
  assert (∀ j, j ∈ queued ∨ j ∈ running s → j ≠ i) as Hne.
  { intros j Hj ->. apply Hobj. rewrite <-(c_where _ _ _ _ _ _ _ _ Hc). apply elem_of_app. tauto. }
  wp_step. eapply wp_mono; [apply (enqueue_spec s1 i queued); [exact Hq|by rewrite Hthe, decide_True]| |done].
  intros [] s2 (Hq2 & E1 & E2 & E3 & E4 & E5). wp_step.
  split; [|split; [by cbn; rewrite E2|by cbn; rewrite E3]].
  split; cbn [store requests running kv_cache_manager set_requests prev_step_scheduled_req_ids].
  - rewrite E1, E2, E3, E4. apply core_add; try done. by destruct Hst as [->| ->].
  - exact Hq2.
  - by rewrite E3.
  - intros j Hj. unfold the. cbn [store requests running kv_cache_manager set_requests prev_step_scheduled_req_ids]. rewrite E1, E5.
    fold (the j s1). change (default inhabitant (store s1 !! j)) with (the j s1). rewrite Hthe.
    apply elem_of_cons in Hj as [->|Hj]; [rewrite decide_True by done; by destruct Hst as [->| ->]|].
    rewrite decide_False by auto. by apply Hprev.
Qed.

(** An id in use is refused; nothing changes. *)
Lemma add_request_duplicate s queued r :
  inv s queued → request_id r ∈ (requests s).*1 → streaming_queues s = ∅ →
  sched_add_request sha256 hash_fn NONE_HASH id_order cfg r s = (Err AssertionError, s).
Proof.
  intros [Hc Hq Hlen Hprev] Hin Hsq. unfold sched_add_request, lookup_request, gets, mbind, M_bind.
  destruct (dict_get (requests s) (request_id r)) as [i|] eqn:Ei; [|by apply dict_get_None in Ei].
  assert (status (the i s) ≠ WAITING_FOR_STREAMING_REQ) as Hst.
  { apply dict_get_Some in Ei. assert (i ∈ queued ∨ i ∈ running s) as [Hi|Hi].
    { rewrite <-elem_of_app, (c_where _ _ _ _ _ _ _ _ Hc). apply list_elem_of_fmap. by exists (request_id r, i). }
    - destruct (c_queued _ _ _ _ _ _ _ _ Hc i Hi) as (Hst & _). intros E0.
      change (waiting_status (status (the i s)) = true) in Hst. by rewrite E0 in Hst.
    - destruct (c_run _ _ _ _ _ _ _ _ Hc i Hi) as (Hst & _). change (status (the i s) = RUNNING) in Hst. by rewrite Hst. }
  rewrite bool_decide_eq_true_2 by done. by rewrite Hsq, lookup_empty.
Qed.

End adding.

(** The fields neither the queues nor the cache depend on. *)
Record released (s s' : Sched) (id : string) : Prop := {
  rl_kv : kv_step mml id (kv s) (kv s') ∧ kv_absent (kv s') id;
  rl_requests : requests s' = dict_del (requests s) id;
  rl_finished : finished_req_ids s' = finished_req_ids s ∪ {[id]};
  rl_same : store s' = store s ∧ running s' = running s ∧ waiting s' = waiting s ∧ skipped_waiting s' = skipped_waiting s ∧
    prev_step_scheduled_req_ids s' = prev_step_scheduled_req_ids s
}.

Lemma free_request_spec (s : Sched) i :
  kv_ok mml (kv s) → is_finished (the i s) = true → mm_features (the i s) = [] → ref s i ∈ (requests s).*1 →
  wp (_free_request i false) (λ _ s', released s s' (ref s i)) no_exn s.
Proof.
  intros Hkv Hfin Htext Hin. unfold _free_request. wp_step. wp_step. wp_step. apply wp_assert; [done|].
  wp_step. wp_step. cbn [lget lset encL]. unfold wp at 1. rewrite law_text_free by done. do 4 wp_step.
  set (s1 := match finished_req_ids_dict _ with None => _ | Some _ => _ end).
  assert (the i s1 = the i s ∧ kv s1 = kv s ∧ requests s1 = requests s ∧ finished_req_ids s1 = finished_req_ids s ∪ {[ref s i]} ∧
    store s1 = store s ∧ running s1 = running s ∧ waiting s1 = waiting s ∧ skipped_waiting s1 = skipped_waiting s ∧
    prev_step_scheduled_req_ids s1 = prev_step_scheduled_req_ids s) as (E1 & E2 & E3 & E4 & E5).
  { unfold s1. destruct (finished_req_ids_dict _); by split_and!. }
  clearbody s1. unfold _free_blocks. wp_step. wp_step. wp_step. rewrite E1. apply wp_assert; [done|].
  wp_step. wp_step. cbn [lget lset kvmL]. rewrite E2.
  eapply wp_mono; [by apply (kv_free_spec mml)| |done]. intros [] kv' [Hs Habs]. wp_step. wp_step.
  cbn [requests set_kv_cache_manager]. rewrite E3.
  destruct (dict_get (requests s) (ref s i)) as [k|] eqn:Ek; [|by apply dict_get_None in Ek]. wp_step. by split.
Qed.

(** The requests of some ids. *)
Abbreviation found s ids := (omap (dict_get (requests s)) (ids : list string) : list Z).

Section finishing.
Context (s : Sched) queued (Hinv : inv s queued).

Lemma found_in ids i : i ∈ found s ids → i ∈ queued ∨ i ∈ running s.
Proof.
  intros (id & _ & Ei%dict_get_Some)%list_elem_of_omap. rewrite <-elem_of_app, (c_where _ _ _ _ _ _ _ _ (sv_core _ _ _ _ _ Hinv)).
  apply list_elem_of_fmap. by exists (id, i).
Qed.

Lemma found_NoDup ids : NoDup ids → NoDup (found s ids).
Proof.
  apply (omap_NoDup _ (λ i, ref s i)). intros id i _ Ei%dict_get_Some.
  by destruct (c_objs _ _ _ _ _ _ _ _ (sv_core _ _ _ _ _ Hinv) id i Ei).
Qed.

Lemma found_ref ids i : i ∈ queued ∨ i ∈ running s → i ∈ found s ids ↔ ref s i ∈ ids.
Proof.
  intros Hi. pose proof (sv_core _ _ _ _ _ Hinv) as Hc.
  pose proof (core_ref _ _ _ _ _ _ _ _ Hc i Hi) as Hr. change (request_id (at_ (store s) i)) with (ref s i) in Hr.
  apply dict_get_elem in Hr; [|apply Hc]. rewrite list_elem_of_omap. split; [|by exists (ref s i)].
  intros (id & Hid & Ei%dict_get_Some). destruct (c_objs _ _ _ _ _ _ _ _ Hc id i Ei) as (E0 & _). 
  change (ref s i = id) in E0. by rewrite E0.
Qed.

Lemma running_status i : i ∈ queued ∨ i ∈ running s → status (the i s) = RUNNING ↔ i ∈ running s.
Proof.
  pose proof (sv_core _ _ _ _ _ Hinv) as Hc. intros Hi. split.
  - intros Hst. destruct Hi as [Hi|]; [|done]. destruct (c_queued _ _ _ _ _ _ _ _ Hc i Hi) as (Hw & _).
    change (waiting_status (status (the i s)) = true) in Hw. by rewrite Hst in Hw.
  - intros Hr. by destruct (c_run _ _ _ _ _ _ _ _ Hc i Hr).
Qed.

Lemma unfinished i : i ∈ queued ∨ i ∈ running s → is_finished (the i s) = false ∧ status (the i s) ≠ WAITING_FOR_STREAMING_REQ ∧
  status (the i s) ≠ WAITING_FOR_REMOTE_KVS.
Proof.
  pose proof (sv_core _ _ _ _ _ Hinv) as Hc. unfold is_finished. intros [Hi|Hi].
  - destruct (c_queued _ _ _ _ _ _ _ _ Hc i Hi) as (Hw & _). change (waiting_status (status (the i s)) = true) in Hw.
    by destruct (status (the i s)).
  - destruct (c_run _ _ _ _ _ _ _ _ Hc i Hi) as (Hw & _). change (status (the i s) = RUNNING) in Hw. by rewrite Hw.
Qed.

Lemma finish_collect_spec ids :
  wp (finish_collect ids) (λ '(valid, run, wait) s', s' = s ∧ valid = found s ids ∧
    run = filter (λ i, status (the i s) = RUNNING) valid ∧ wait = filter (λ i, status (the i s) ≠ RUNNING) valid) no_exn s.
Proof.
  unfold finish_collect.
  eapply wp_mono; [apply (wp_fold_each _ _ _ (λ dn '(valid, run, wait) s', s' = s ∧ valid = found s dn ∧
    run = filter (λ i, status (the i s) = RUNNING) valid ∧ wait = filter (λ i, status (the i s) ≠ RUNNING) valid))| |done]; [|done|].
  - intros dn id rest [[valid run] wait] s' _ (-> & -> & -> & ->). wp_step. wp_step. unfold lookup_request.
    assert (found s (dn ++ [id]) = found s dn ++ match dict_get (requests s) id with Some i => [i] | None => [] end) as Efound
      by (rewrite omap_app; cbn; by destruct (dict_get _ _)).
    rewrite Efound. destruct (dict_get (requests s) id) as [i|] eqn:Ei; [|wp_step; by rewrite app_nil_r].
    assert (i ∈ queued ∨ i ∈ running s) as Hi by (apply (found_in [id]); cbn; rewrite Ei; by left).
    destruct (unfinished i Hi) as (Hf & Hs & _). wp_step. wp_step. rewrite Hf. cbv iota.
    wp_step; [apply bool_decide_eq_true in Hif|apply bool_decide_eq_false in Hif].
    + wp_step. rewrite !filter_app, !filter_cons, !filter_nil, decide_True, decide_False, app_nil_r by auto. done.
    + rewrite bool_decide_eq_false_2 by done. wp_step. wp_step. wp_step. rewrite !filter_app, !filter_cons, !filter_nil, decide_False, decide_True, app_nil_r by auto. done.
  - intros [[valid run] wait] s' H. exact H.
Qed.

(** While requests leave one by one; [s1]: the lists are already cleared of them. *)
Record leaving (s1 : Sched) (gone : list Z) (s2 : Sched) : Prop := {
  lv_core : score s2 (without (running s) gone) (without queued gone);
  lv_others : ∀ j, j ∉ gone → the j s2 = the j s;
  lv_ids : ∀ j, ref s2 j = ref s j;
  lv_lists : running s2 = running s1 ∧ waiting s2 = waiting s1 ∧ skipped_waiting s2 = skipped_waiting s1 ∧
    prev_step_scheduled_req_ids s2 = prev_step_scheduled_req_ids s1;
  lv_requests : ∀ id i, (id, i) ∈ requests s2 ↔ (id, i) ∈ requests s ∧ i ∉ gone;
  lv_finished : finished_req_ids s2 = finished_req_ids s ∪ list_to_set ((λ i, ref s i) <$> gone)
}.

(** Request [i], whose object is already marked as finished, is freed. *)
Lemma leave_one s1 gone s2 s3 i r' :
  leaving s1 gone s2 → i ∈ queued ∨ i ∈ running s → i ∉ gone →
  request_id r' = ref s i → released (set_store (<[i := r']> (store s2)) s2) s3 (ref s i) →
  leaving s1 (gone ++ [i]) s3.
Proof.
  intros [Hc2 Hoth Hids (L1 & L2 & L3 & L4) Hreq Hfin] Hi Hni Hid' [[Hs Habs] Ereq Efin (R1 & R2 & R3 & R4 & R5)].
  pose proof (sv_core _ _ _ _ _ Hinv) as Hc. pose proof (core_NoDup _ _ _ _ _ _ _ _ Hc) as Hnd.
  assert (request_id (at_ (store s2) i) = ref s i) as Eid by apply Hids.
  assert (∀ j, the j s3 = if decide (j = i) then r' else the j s2) as Hthe by (intros j; unfold the at 1; rewrite R1; apply at_insert).
  assert (i ∈ queued ++ running s) as Hin by by apply elem_of_app.
  split.
  - rewrite R1, Ereq, <-Eid. cbn [requests set_store store].
    apply (core_remove sha256 cfg (store s2) _ _ (without (running s) gone) _ (without queued gone) _ (kv s2)); try done.
    + rewrite <-!filter_app. apply without_snoc; [done|done|done].
    + intros j [Hj ?]%list_elem_of_filter. apply list_elem_of_filter. split; [set_solver|done].
    + intros j [Hj ?]%list_elem_of_filter. apply list_elem_of_filter. split; [set_solver|done].
    + intros j Hj. by rewrite at_insert, decide_False.
    + by rewrite Eid.
    + by rewrite Eid.
  - intros j [Hj1 Hj2]%not_elem_of_app. rewrite Hthe, decide_False by (intros ->; apply Hj2; left). by apply Hoth.
  - intros j. rewrite Hthe. by destruct (decide (j = i)) as [->|].
  - by rewrite R2, R3, R4, R5.
  - intros id j. rewrite Ereq. cbn [requests set_store]. rewrite dict_elem_del by apply Hc2. rewrite Hreq, elem_of_app, list_elem_of_singleton.
    split.
    + intros (Hne & Hj & Hg). split; [done|]. intros [?| ->]; [done|]. destruct (c_objs _ _ _ _ _ _ _ _ Hc id i Hj) as (E0 & _). by apply Hne.
    + intros (Hj & Hg). split; [|split; [done|tauto]]. intros ->. apply Hg. right.
      pose proof (core_ref _ _ _ _ _ _ _ _ Hc i Hi) as Hr. change (request_id (at_ (store s) i)) with (ref s i) in Hr.
      apply (dict_get_elem _ _ _ (c_keys _ _ _ _ _ _ _ _ Hc)) in Hj, Hr. congruence.
  - rewrite Efin. cbn [finished_req_ids set_store]. rewrite Hfin, fmap_app, list_to_set_app_L. cbn. set_solver.
Qed.

Lemma finish_one s1 gone s2 i fs :
  leaving s1 gone s2 → i ∈ queued ∨ i ∈ running s → i ∉ gone → status_is_finished fs = true →
  wp (r ← gets (the i); upd i (set_status fs) ;; _free_request i (bool_decide (status r = WAITING_FOR_REMOTE_KVS)))
    (λ _ s3, leaving s1 (gone ++ [i]) s3) no_exn s2.
Proof.
  intros Hl Hi Hni Hfs. destruct (unfinished i Hi) as (_ & _ & Hnr). pose proof (lv_others _ _ _ Hl i Hni) as Ei.
  pose proof (core_ok _ _ _ _ _ _ _ _ (sv_core _ _ _ _ _ Hinv) i Hi) as [Hok _].
  change (request_ok sha256 cfg (the i s)) in Hok.
  assert (i ∈ without queued gone ∨ i ∈ without (running s) gone) as Hi2.
  { destruct Hi; [left|right]; by apply list_elem_of_filter. }
  pose proof (core_ref _ _ _ _ _ _ _ _ (lv_core _ _ _ Hl) i Hi2) as Hr2.
  wp_step. wp_step. rewrite Ei, bool_decide_eq_false_2 by done. unfold upd. wp_step. wp_step. rewrite Ei.
  eapply wp_mono; [apply free_request_spec| |done].
  - apply (lv_core _ _ _ Hl).
  - by rewrite the_insert.
  - rewrite the_insert. apply Hok.
  - rewrite the_insert. apply list_elem_of_fmap. exists (ref s2 i, i). split; [by rewrite Ei|exact Hr2].
  - intros [] s3 Hrel. rewrite the_insert in Hrel. by apply (leave_one s1 gone s2 s3 i (set_status fs (the i s))).
Qed.

(** The queues lose the given waiting requests. *)
Lemma drop_waiting_spec (s1 : Sched) q wait :
  queued_in queue_rep s1 q → (∀ i, i ∈ wait → obj_id (the i s1) = i) →
  wp (drop_waiting wait) (λ _ s2, queued_in queue_rep s2 (without q wait) ∧ store s2 = store s1 ∧ requests s2 = requests s1 ∧
    running s2 = running s1 ∧ kv s2 = kv s1 ∧ prev_step_scheduled_req_ids s2 = prev_step_scheduled_req_ids s1 ∧
    finished_req_ids s2 = finished_req_ids s1) no_exn s1.
Proof.
  intros (lw & lk & Hw & Hk & Hq) Hobj. unfold drop_waiting. wp_step.
  { apply bool_decide_eq_true in Hif as ->. wp_step. split; [|done]. exists lw, lk. by rewrite without_nil. }
  wp_step. wp_step. set (rs := (λ i, the i s1) <$> wait).
  assert (obj_id <$> rs = wait) as Ers.
  { unfold rs. rewrite <-list_fmap_compose. rewrite <-(list_fmap_id wait) at 2. apply list_fmap_ext. intros k i Hi. apply Hobj.
    by eapply list_elem_of_lookup_2. }
  destruct (law_remove_all _ _ rs Hw) as (qw & lw' & Ew & Hw' & Hpw).
  destruct (law_remove_all _ _ rs Hk) as (qk & lk' & Ek & Hk' & Hpk).
  wp_step. wp_step. wp_step. rewrite Ew. apply wp_lift_res; [|done]. intros ? [= <-].
  do 5 wp_step. cbn [skipped_waiting set_waiting]. rewrite Ek. apply wp_lift_res; [|done]. intros ? [= <-]. wp_step.
  split; [|done]. exists lw', lk'. split; [done|]. split; [done|].
  assert (∀ l, obj_id <$> drop_all rs l = without (obj_id <$> l) wait) as Hdrop.
  { intros l. unfold drop_all. rewrite Ers. induction l as [|y l IH]; [done|]. rewrite fmap_cons, !filter_cons, <-IH.
    by destruct (decide (obj_id y ∉ wait)). }
  rewrite Hq, !fmap_app, filter_app, Hpw, Hpk, !Hdrop. done.
Qed.

(** What finishing some requests leaves. *)
Record finished_ok (ids : list string) (s' : Sched) : Prop := {
  fo_inv : inv s' (without queued (found s ids));
  fo_running : running s' = without (running s) (found s ids);
  fo_requests : ∀ id i, (id, i) ∈ requests s' ↔ (id, i) ∈ requests s ∧ id ∉ ids;
  fo_finished : finished_req_ids s' = finished_req_ids s ∪ list_to_set ((λ i, ref s i) <$> found s ids)
}.

Lemma found_requests ids id i : (id, i) ∈ requests s → i ∈ found s ids ↔ id ∈ ids.
Proof.
  intros Hi. pose proof (sv_core _ _ _ _ _ Hinv) as Hc. destruct (c_objs _ _ _ _ _ _ _ _ Hc id i Hi) as (E0 & _).
  change (ref s i = id) in E0. rewrite found_ref; [by rewrite E0|].
  rewrite <-elem_of_app, (c_where _ _ _ _ _ _ _ _ Hc). apply list_elem_of_fmap. by exists (id, i).
Qed.

Lemma leaving_start s1 :
  store s1 = store s → requests s1 = requests s → kv s1 = kv s → finished_req_ids s1 = finished_req_ids s → leaving s1 [] s1.
Proof.
  intros E1 E2 E3 E4. assert (∀ j, the j s1 = the j s) as Hthe by (intros j; unfold the; by rewrite E1).
  split; try done.
  - rewrite E1, E2, E3, !without_nil. apply Hinv.
  - intros j. by rewrite Hthe.
  - intros id i. rewrite E2. split; [|by intros []]. intros ?. split; [done|]. apply not_elem_of_nil.
  - rewrite E4. cbn. set_solver.
Qed.

Context (id_order : list string → list string) (Horder : ∀ l, id_order l ≡ₚ l).

Lemma finish_requests_spec request_ids fs ids :
  status_is_finished fs = true →
  match request_ids with Some l => ids ≡ₚ distinct l | None => ids = (requests s).*1 end →
  wp (finish_requests id_order request_ids fs) (λ _ s', finished_ok ids s') no_exn s.
Proof.
  intros Hfs Hids. pose proof (sv_core _ _ _ _ _ Hinv) as Hc. pose proof (core_NoDup _ _ _ _ _ _ _ _ Hc) as Hnd.
  assert (∀ l l' : list string, l ≡ₚ l' → found s l ≡ₚ found s l') as Hperm by (intros l l' Hl; by apply omap_Permutation).
  unfold finish_requests. wp_step. apply wp_assert; [done|]. wp_step. wp_step. cbv zeta.
  set (l := match request_ids with Some l => id_order (distinct l) | None => (requests s).*1 end).
  assert (l ≡ₚ ids) as Hl by (unfold l; destruct request_ids; [by rewrite Horder, Hids|by rewrite Hids]).
  assert (NoDup l) as Hndl by (unfold l; destruct request_ids; [rewrite Horder; apply distinct_NoDup|apply Hc]).
  set (V := found s l).
  assert (NoDup V) as HndV by by apply found_NoDup.
  assert (∀ i, i ∈ V → i ∈ queued ∨ i ∈ running s) as HV by (intros i; apply found_in).
  wp_step. eapply wp_mono; [apply finish_collect_spec| |done]. intros [[valid run] wait] s0 (-> & -> & -> & ->). fold V.
  set (R := filter (λ i, status (the i s) = RUNNING) V). set (W := filter (λ i, status (the i s) ≠ RUNNING) V).
  assert (without (running s) V = remove_all (running s) R) as Erun.
  { rewrite remove_all_filter; [|by apply NoDup_app in Hnd as (_ & _ & ?)|by apply NoDup_filter].
    apply without_ext. intros i Hi. unfold R. rewrite list_elem_of_filter, running_status by auto. tauto. }
  assert (without queued V = without queued W) as Equ.
  { apply without_ext. intros i Hi. unfold W. rewrite list_elem_of_filter, running_status by auto.
    assert (i ∉ running s) by (apply NoDup_app in Hnd as (_ & Hd & _); by apply Hd). tauto. }
  wp_step. wp_step. set (s1 := set_running _ s). wp_step.
  eapply wp_mono; [apply (drop_waiting_spec s1 queued W); [apply (sv_queued _ _ _ _ _ Hinv)|]| |done].
  { intros i [_ Hi]%list_elem_of_filter. by destruct (core_ok _ _ _ _ _ _ _ _ Hc i (HV i Hi)). }
  intros [] s2 (Hq2 & E1 & E2 & E3 & E4 & E5 & E6). wp_step.
  eapply wp_mono; [apply (wp_for_each V _ (leaving s2))| |done]; [|by apply leaving_start|].
  - intros gone i rest s3 EV Hl3. apply (finish_one s2 gone s3 i fs Hl3); [apply HV; rewrite EV; set_solver| |done].
    rewrite EV in HndV. apply NoDup_app in HndV as (_ & Hd & _). intros Hin. apply (Hd i Hin). left.
  - intros [] s3 [Hc3 Hoth Hids3 (L1 & L2 & L3 & L4) Hreq Hfin]. wp_step.
    assert (∀ i, i ∈ V ↔ i ∈ found s ids) as HVi by (intros i; unfold V; by rewrite (Hperm _ _ Hl)).
    assert (running s3 = without (running s) V) as Er3 by (rewrite L1, E3, Erun; done).
    split.
    + rewrite <-(without_ext queued V) by done. split.
      * by rewrite Er3.
      * rewrite Equ. destruct Hq2 as (lw & lk & Hw & Hk & Hq). exists lw, lk. by rewrite L2, L3.
      * pose proof (sv_len _ _ _ _ _ Hinv). rewrite Er3. pose proof (length_filter (λ y, y ∉ V) (running s)). lia.
      * intros i [Hni Hi]%list_elem_of_filter. rewrite Hoth, L4, E5 by done. by apply (sv_prev _ _ _ _ _ Hinv).
    + rewrite Er3. by apply without_ext.
    + intros id i. rewrite Hreq. split; intros [Hi Hn]; (split; [done|]); intros Hin; apply Hn; [|by apply HVi in Hin; apply (found_requests ids id i) in Hin].
      apply HVi. by apply (found_requests ids id i).
    + rewrite Hfin. f_equal. apply leibniz_equiv. unfold V. by rewrite (Hperm _ _ Hl).
Qed.
End finishing.

(** ** The model's tokens come back *)

(** The core without a request that has just been released. *)
Lemma release_core (s2 s3 : Sched) st i r' run run' queued queued' :
  score s2 run queued → queued ++ run ≡ₚ i :: (queued' ++ run') → run' ⊆ run → queued' ⊆ queued →
  (∀ j, at_ st j = if decide (j = i) then r' else the j s2) → released (set_store st s2) s3 (ref s2 i) →
  score s3 run' queued'.
Proof.
  intros Hc Hp Hr Hq Hst [[Hs Habs] Ereq Efin (R1 & _)]. rewrite R1, Ereq. cbn [requests set_store store].
  apply (core_remove sha256 cfg (store s2) _ _ run run' queued queued' (kv s2)); try done.
  intros j Hj. by rewrite Hst, decide_False.
Qed.

(** All outputs, of all clients. *)
Definition all_outputs (d : list (Z * list EngineCoreOutput)) : list EngineCoreOutput := concat d.*2.

Lemma add_output_all client o c :
  all_outputs (co_outputs (add_output client o c)) ≡ₚ o :: all_outputs (co_outputs c).
Proof.
  unfold add_output, all_outputs. cbn [co_outputs]. generalize (co_outputs c) as d. induction d as [|[k l] d IH]; [done|].
  cbn [dict_set dict_get]. destruct (decide (client = k)) as [->|].
  - cbn. rewrite <-app_assoc. cbn. by rewrite <-Permutation_middle.
  - rewrite !fmap_cons. cbn [concat]. rewrite IH. by rewrite <-Permutation_middle.
Qed.

Lemma merge_finished_all fin outs :
  concat (eos_outputs <$> (merge_finished outs fin).*2) = concat (eos_outputs <$> outs.*2).
Proof.
  unfold merge_finished. revert outs. induction fin as [|[client ids] fin IH]; [done|]. intros outs. cbn [foldl]. rewrite IH.
  clear IH. induction outs as [|[k l] d IH]; [done|]. cbn [dict_set dict_get]. destruct (decide (client = k)) as [->|]; [by destruct l|].
  rewrite !fmap_cons. cbn [concat]. by rewrite IH.
Qed.

Section updating.
Context (s : Sched) queued (Hinv : inv s queued) (so : SchedulerOutput) (mo : ModelRunnerOutput).

(** The row of a request in the model's output. *)
Definition sampled (mo : ModelRunnerOutput) (id : string) : list Z :=
  match sampled_token_ids mo, dict_get (req_id_to_index mo) id with
  | [], _ | _, None => []
  | rows, Some k => default [] (rows !! Z.to_nat k)
  end.

(** The step's output may still be answered: no drafts, and what it scheduled runs
    unless it has been finished in the meantime. *)
Record in_flight (so : SchedulerOutput) (s : Sched) : Prop := {
  fl_drafts : so_scheduled_spec_decode_tokens so = [];
  fl_once : NoDup (so_num_scheduled_tokens so).*1;
  fl_each : ∀ id n, (id, n) ∈ so_num_scheduled_tokens so → 0 < n ∧
    ∀ i, dict_get (requests s) id = Some i → i ∈ running s
}.

(** What the model runner answers: a row for each scheduled request. *)
Definition answers (so : SchedulerOutput) (mo : ModelRunnerOutput) : Prop :=
  ∀ id, id ∈ (so_num_scheduled_tokens so).*1 → ∃ k, dict_get (req_id_to_index mo) id = Some k ∧
    (sampled_token_ids mo = [] ∨ 0 ≤ k < Z.of_nat (length (sampled_token_ids mo))) ∧
    (pooler_output mo = [] ∨ 0 ≤ k < Z.of_nat (length (pooler_output mo))).

(** How a request takes its tokens: up to the one at which it stops. *)
Definition took_tokens (toks : list Z) (stopped : Prop) (r r' : Request) : Prop :=
  ∃ l, l `prefix_of` toks ∧ _output_token_ids r' = _output_token_ids r ++ l ∧
    (∀ k st reason, (k < length l)%nat → ¬ stops_after cfg r (take k l) st reason) ∧
    ((stopped ∧ is_finished r' = true ∧ stops_after cfg r l (status r') (stop_reason r')) ∨
     (¬ stopped ∧ l = toks ∧ status r' = status r ∧ ∀ st reason, ¬ stops_after cfg r l st reason)).

(** The message sent for a request. *)
Definition reports (r r' : Request) (stopped : Prop) (o : EngineCoreOutput) : Prop :=
  eo_request_id o = request_id r ∧ _output_token_ids r' = _output_token_ids r ++ eo_new_token_ids o ∧
  (is_Some (eo_finish_reason o) ↔ stopped).

#[local] Instance took_tokens_proper toks : Proper (iff ==> eq ==> eq ==> iff) (took_tokens toks).
Proof. intros P P' HP r ? <- r' ? <-. unfold took_tokens. by setoid_rewrite HP. Qed.
#[local] Instance reports_proper r r' : Proper (iff ==> eq ==> iff) (reports r r').
Proof. intros P P' HP o ? <-. unfold reports. by rewrite HP. Qed.

(** The loop after the requests [dn]. *)
Record updating (dn : list (string * Z)) (c : Collected) (s2 : Sched) : Prop := {
  ud_core : score s2 (without (running s) (stopped_running c)) queued;
  ud_preempted : stopped_preempted c = [];
  ud_gone : NoDup (stopped_running c) ∧ ∀ i, i ∈ stopped_running c → i ∈ running s ∧ ref s i ∈ dn.*1;
  ud_lists : running s2 = running s ∧ waiting s2 = waiting s ∧ skipped_waiting s2 = skipped_waiting s ∧
    prev_step_scheduled_req_ids s2 = prev_step_scheduled_req_ids s;
  ud_requests : ∀ id i, (id, i) ∈ requests s2 ↔ (id, i) ∈ requests s ∧ i ∉ stopped_running c;
  ud_ids : ∀ j, ref s2 j = ref s j;
  ud_rest : ∀ j, j ∉ running s ∨ ref s j ∉ dn.*1 → the j s2 = the j s;
  ud_took : ∀ i, i ∈ running s → ref s i ∈ dn.*1 →
    took_tokens (sampled mo (ref s i)) (i ∈ stopped_running c) (the i s) (the i s2);
  ud_outputs : NoDup (eo_request_id <$> all_outputs (co_outputs c)) ∧
    ∀ o, o ∈ all_outputs (co_outputs c) → ∃ i, i ∈ running s ∧ ref s i ∈ dn.*1 ∧
      reports (the i s) (the i s2) (i ∈ stopped_running c) o;
  ud_reported : ∀ i, i ∈ running s → ref s i ∈ dn.*1 → sampled mo (ref s i) ≠ [] →
    ref s i ∈ eo_request_id <$> all_outputs (co_outputs c);
  ud_finished : finished_req_ids s2 = finished_req_ids s ∪ list_to_set ((λ i, ref s i) <$> stopped_running c)
}.

Lemma updating_start : updating [] (mkCollected [] [] []) s.
Proof.
  split; cbn; try done.
  - rewrite without_nil. apply Hinv.
  - split; [apply NoDup_nil_2|]. intros i Hi. by apply elem_of_nil in Hi.
  - intros id i. rewrite elem_of_nil. tauto.
  - intros i _ Hi. by apply elem_of_nil in Hi.
  - split; [apply NoDup_nil_2|]. intros o Ho. by apply elem_of_nil in Ho.
  - set_solver.
Qed.

(** A request which has gone, or was scheduled and has been finished since, is passed over. *)
Lemma updating_skip dn c s2 id n :
  updating dn c s2 → (∀ i, i ∈ running s → ref s i ≠ id) → updating (dn ++ [(id, n)]) c s2.
Proof.
  intros [Hc Hp [Hg1 Hg2] Hl Hr Hi Hre Ht [Ho1 Ho2] Hrep Hf] Hno.
  assert (∀ i, i ∈ running s → ref s i ∈ (dn ++ [(id, n)]).*1 ↔ ref s i ∈ dn.*1) as Hdn.
  { intros i Hir. rewrite fmap_app, elem_of_app. cbn. rewrite list_elem_of_singleton. specialize (Hno i Hir). tauto. }
  split; try done.
  - split; [done|]. intros i Hin. destruct (Hg2 i Hin) as [Hir ?]. split; [done|]. by apply Hdn.
  - intros j [Hj|Hj]; apply Hre; [by left|]. right. intros Hin. apply Hj. rewrite fmap_app. apply elem_of_app. by left.
  - intros i Hir Hin%Hdn; [|done]. by apply Ht.
  - split; [done|]. intros o Hin. destruct (Ho2 o Hin) as (i & Hir & ? & ?). exists i. split; [done|]. split; [by apply Hdn|done].
  - intros i Hir Hin%Hdn; [|done]. by apply Hrep.
Qed.

Lemma looked_at (dn : list (string * Z)) id n i j :
  i ∈ running s → ref s i = id → j ∈ running s → ref s j ∈ (dn ++ [(id, n)]).*1 ↔ ref s j ∈ dn.*1 ∨ j = i.
Proof.
  intros Hi <- Hj. rewrite fmap_app, elem_of_app. cbn. rewrite list_elem_of_singleton.
  split; (intros [?|Ej]; [by left|right]); [|by subst j].
  apply (core_inj _ _ _ _ _ _ _ _ (sv_core _ _ _ _ _ Hinv)); [by right..|done].
Qed.

(** One request more has been looked at; [extra] is its message, if any. *)
Lemma updating_step dn c s2 id n i r' (stopped : bool) c' extra s3 :
  updating dn c s2 → i ∈ running s → ref s i = id → id ∉ dn.*1 →
  (stopped_running c' = if stopped then stopped_running c ++ [i] else stopped_running c) → stopped_preempted c' = [] →
  all_outputs (co_outputs c') ≡ₚ extra ++ all_outputs (co_outputs c) →
  (∀ o, o ∈ extra → reports (the i s) r' (stopped = true) o) → (length extra ≤ 1)%nat → (sampled mo id ≠ [] → extra ≠ []) →
  took_tokens (sampled mo id) (stopped = true) (the i s) r' → request_id r' = id →
  (∀ j, the j s3 = if decide (j = i) then r' else the j s2) →
  score s3 (without (running s) (stopped_running c')) queued →
  (running s3 = running s2 ∧ waiting s3 = waiting s2 ∧ skipped_waiting s3 = skipped_waiting s2 ∧
    prev_step_scheduled_req_ids s3 = prev_step_scheduled_req_ids s2) →
  (∀ id' j, (id', j) ∈ requests s3 ↔ (id', j) ∈ requests s2 ∧ (stopped = true → j ≠ i)) →
  (finished_req_ids s3 = finished_req_ids s2 ∪ (if stopped then {[id]} else ∅)) →
  updating (dn ++ [(id, n)]) c' s3.
Proof.
  intros [Hc Hp [Hg1 Hg2] (L1 & L2 & L3 & L4) Hr Hids Hre Ht [Ho1 Ho2] Hrep Hf] Hi Eid Hnd Hgone Hp' Hout Hex Hlen Hex' Htook Hid' Hthe Hc3
    (R1 & R2 & R3 & R4) Hreq Hfin.
  pose proof (looked_at dn id n i) as Hdn. specialize (λ j, Hdn j Hi Eid).
  assert (i ∉ stopped_running c) as Hnot by (intros Hin; destruct (Hg2 i Hin) as [_ Hd]; by rewrite Eid in Hd).
  assert (∀ j, j ∈ stopped_running c' ↔ j ∈ stopped_running c ∨ j = i ∧ stopped = true) as Hgone'.
  { intros j. rewrite Hgone. destruct stopped; rewrite ?elem_of_app, ?list_elem_of_singleton; naive_solver. }
  assert (∀ j, ref s j ∈ dn.*1 → j ≠ i) as Hne by (intros j Hj ->; by rewrite Eid in Hj).
  assert (∀ j, the j s3 = the j s2 ∧ (j ∈ stopped_running c' ↔ j ∈ stopped_running c) ∨ j = i) as Hold.
  { intros j. rewrite Hthe, Hgone'. destruct (decide (j = i)); [by right|left]. tauto. }
  assert (the i s3 = r' ∧ (i ∈ stopped_running c' ↔ stopped = true)) as [Ei Hsi] by (rewrite Hthe, decide_True, Hgone' by done; naive_solver).
  split; try done.
  - split.
    + rewrite Hgone. destruct stopped; [|done]. apply NoDup_app. split; [done|]. split; [|apply NoDup_singleton].
      intros j Hj Hj'%list_elem_of_singleton. by subst j.
    + intros j [Hj|[-> _]]%Hgone'; [destruct (Hg2 j Hj) as [Hjr Hjd]|]; (split; [done|]); apply Hdn; auto.
  - by rewrite R1, R2, R3, R4.
  - intros id' j. rewrite Hreq, Hr, Hgone'. destruct stopped; naive_solver.
  - intros j. rewrite Hthe. destruct (decide (j = i)) as [->|]; [by rewrite Hid'|apply Hids].
  - intros j Hj. rewrite Hthe. destruct (decide (j = i)) as [->|].
    + destruct Hj as [|Hj]; [done|]. exfalso. apply Hj. apply Hdn; auto.
    + apply Hre. destruct Hj as [|Hj]; [by left|]. right. intros Hin. apply Hj. rewrite fmap_app. apply elem_of_app. by left.
  - intros j Hj [Hd| ->]%Hdn; [|by rewrite Ei, Hsi, Eid|done].
    destruct (Hold j) as [[-> ->]| ->]; [by apply Ht|by destruct (Hne _ Hd)].
  - split.
    + rewrite Hout, fmap_app. apply NoDup_app. split; [|split; [|done]].
      * destruct extra as [|? [|? ?]]; [apply NoDup_nil_2|apply NoDup_singleton|cbn in Hlen; lia].
      * intros ? (o & -> & Ho)%list_elem_of_fmap (o' & E0 & Ho')%list_elem_of_fmap. destruct (Hex o Ho) as (E1 & _).
        destruct (Ho2 o' Ho') as (j & _ & Hd & E2 & _). apply Hnd. by rewrite <-Eid, <-E1, E0, E2.
    + intros o. rewrite Hout, elem_of_app. intros [Ho|Ho].
      * exists i. split; [done|]. split; [apply Hdn; auto|]. rewrite Ei. rewrite Hsi. by apply Hex.

      * destruct (Ho2 o Ho) as (j & Hj & Hd & Hro). exists j. split; [done|]. split; [apply Hdn; auto|].
        destruct (Hold j) as [[-> E0]| ->]; [|by destruct (Hne _ Hd)]. by rewrite E0.

  - intros j Hj Hd Hs. rewrite Hout, fmap_app, elem_of_app. apply Hdn in Hd as [Hd| ->]; [by right; apply Hrep| |done]. left.
    rewrite Eid in Hs |- *. destruct extra as [|o l]; [by destruct (Hex' Hs)|]. destruct (Hex o) as (E0 & _); [left|].
    rewrite fmap_cons, E0, Eid. left.
  - rewrite Hfin, Hf, Hgone. destruct stopped; [rewrite fmap_app, list_to_set_app_L; cbn; rewrite Eid; set_solver|set_solver].
Qed.

(** The row is there; the runner has no drafts to reject. *)
Lemma sampled_row id k :
  dict_get (req_id_to_index mo) id = Some k →
  (sampled_token_ids mo = [] ∨ 0 ≤ k < Z.of_nat (length (sampled_token_ids mo))) →
  (if bool_decide (sampled_token_ids mo = []) then Ok [] else py_get (sampled_token_ids mo) k) = Ok (sampled mo id).
Proof.
  intros Hk Hlen. unfold sampled. rewrite Hk. destruct (sampled_token_ids mo) as [|row rows] eqn:Erows; [done|].
  destruct Hlen as [|Hlen]; [done|]. rewrite bool_decide_eq_false_2 by done. set (l := row :: rows) in *.
  destruct (lookup_lt_is_Some_2 l (Z.to_nat k)) as [x Hx]; [lia|]. rewrite Hx.
  replace k with (Z.of_nat (Z.to_nat k)) at 1 by lia. by rewrite (py_get_nat l (Z.to_nat k) x).
Qed.

Lemma pooled_row k :
  pooler_output mo = [] ∨ 0 ≤ k < Z.of_nat (length (pooler_output mo)) →
  ∃ p, (if bool_decide (pooler_output mo = []) then Ok None else py_get (pooler_output mo) k) = Ok p.
Proof.
  intros Hlen. destruct (decide (pooler_output mo = [])) as [|Hne]; [rewrite bool_decide_eq_true_2 by done; by exists None|].
  rewrite bool_decide_eq_false_2 by done. destruct Hlen as [|Hlen]; [done|].
  destruct (lookup_lt_is_Some_2 (pooler_output mo) (Z.to_nat k)) as [x Hx]; [lia|]. exists x.
  replace k with (Z.of_nat (Z.to_nat k)) by lia. by apply py_get_nat.
Qed.

(** The object after its tokens. *)
Definition with_tokens (toks : list Z) (l : list Z) (stopped : bool) (r r' : Request) : Prop :=
  tokens_frame r r' ∧ until_stop cfg toks l stopped r r' ∧ if stopped then is_finished r' = true else request_ok sha256 cfg r'.

Lemma check_request_spec (s2 : Sched) i toks p :
  request_ok sha256 cfg (the i s2) →
  wp (check_request use_int sha256 hash_fn NONE_HASH cfg i toks p) (λ '(l, stopped) s', ∃ st r',
    s' = set_store st s2 ∧ (∀ j, at_ st j = if decide (j = i) then r' else the j s2) ∧
    with_tokens toks l stopped (the i s2) r') no_exn s2.
Proof.
  intros Hok. unfold check_request. wp_step. wp_step. destruct (decide (toks = [])) as [->|Hne].
  - rewrite bool_decide_eq_true_2 by done. cbn [negb]. destruct (rk_content _ _ _ Hok) as [_ Hpool _ _]. rewrite Hpool.
    cbn [andb bool_decide]. rewrite bool_decide_eq_false_2 by (by intros []). cbn [andb]. wp_step.
    exists (store s2), (the i s2). split; [by destruct s2|].
    split; [intros j; by destruct (decide (j = i)) as [->|]|]. split; [by split|]. split; [by apply until_stop_nil|done].
  - rewrite bool_decide_eq_false_2 by done. cbn [negb]. unfold _update_request_with_output. rewrite (pc_sync _ Hcfg).
    cbn [negb]. wp_step. cbn [lget lset reqL].
    destruct (append_until_stop_spec sha256 hash_fn NONE_HASH cfg Hhash Hbs toks (the i s2) Hok) as (l & b & r' & E0 & H1 & H2 & H3).
    unfold wp. rewrite E0. exists (<[i := r']> (store s2)), r'. split; [done|]. split; [intros j; apply at_insert|]. by split_and!.
Qed.

(** A stopped request is freed and collected. *)
Lemma stop_request_spec (s2 : Sched) i c :
  kv_ok mml (kv s2) → is_finished (the i s2) = true → mm_features (the i s2) = [] → resumable (the i s2) = false →
  ref s2 i ∈ (requests s2).*1 →
  wp (stop_request sha256 hash_fn NONE_HASH cfg i RUNNING c) (λ '(reason, c') s3, released s2 s3 (ref s2 i) ∧ is_Some reason ∧
    c' = mkCollected (co_outputs c) (stopped_running c ++ [i]) (stopped_preempted c)) no_exn s2.
Proof.
  intros Hkv Hfin Htext Hres Hin. unfold stop_request, _handle_stopped_request. do 5 wp_step. rewrite Hres. cbn [negb]. wp_step.
  wp_step. eapply wp_mono; [by apply free_request_spec| |done]. intros [] s3 Hrel. wp_step.
  split; [done|]. split; [|done]. unfold get_finished_reason, is_finished in *. by destruct (status (the i s2)).
Qed.

(** What is left to do for a request that has taken its tokens. *)
Lemma settle_spec dn c s2 id i st r' l (stopped : bool) toks :
  updating dn c s2 → i ∈ running s → ref s i = id → i ∉ stopped_running c →
  (∀ j, at_ st j = if decide (j = i) then r' else the j s2) → with_tokens toks l stopped (the i s2) r' →
  wp (if stopped then stop_request sha256 hash_fn NONE_HASH cfg i RUNNING c else mret (None, c)) (λ '(reason, c1) s3,
    (is_Some reason ↔ stopped = true) ∧
    c1 = mkCollected (co_outputs c) (if stopped then stopped_running c ++ [i] else stopped_running c) (stopped_preempted c) ∧
    (∀ j, the j s3 = if decide (j = i) then r' else the j s2) ∧
    score s3 (without (running s) (stopped_running c1)) queued ∧
    (running s3 = running s2 ∧ waiting s3 = waiting s2 ∧ skipped_waiting s3 = skipped_waiting s2 ∧
      prev_step_scheduled_req_ids s3 = prev_step_scheduled_req_ids s2) ∧
    (∀ id' j, (id', j) ∈ requests s3 ↔ (id', j) ∈ requests s2 ∧ (stopped = true → j ≠ i)) ∧
    finished_req_ids s3 = finished_req_ids s2 ∪ (if stopped then {[id]} else ∅)) no_exn (set_store st s2).
Proof.
  intros Hu Hi Eid Hnot Hst (Hf1 & Hun & Hb). pose proof (ud_core _ _ _ Hu) as Hc. pose proof (ud_ids _ _ _ Hu i) as Hidi.
  assert (i ∈ without (running s) (stopped_running c)) as Hw by by apply list_elem_of_filter.
  destruct (core_ok _ _ _ _ _ _ _ _ Hc i (or_intror Hw)) as [Hok _]. change (request_ok sha256 cfg (the i s2)) in Hok.
  assert (the i (set_store st s2) = r') as Ei by (unfold the; cbn; rewrite <-(decide_True (P := i = i) r' (the i s2)) by done; apply Hst).
  assert (request_id r' = id) as Eid' by (rewrite (tf_id _ _ Hf1), Hidi; done).
  pose proof (core_ref _ _ _ _ _ _ _ _ Hc i (or_intror Hw)) as Hreq. change (request_id (at_ (store s2) i)) with (ref s2 i) in Hreq.
  rewrite Hidi, Eid in Hreq.
  destruct stopped.
  - eapply wp_mono; [apply stop_request_spec| |done]; rewrite ?Ei; try done.
    + apply Hc.
    + rewrite (tf_text _ _ Hf1). apply Hok.
    + destruct (tf_plain _ _ Hf1) as (-> & _). apply (rk_plain _ _ _ Hok).
    + rewrite Eid'. apply list_elem_of_fmap. by exists (id, i).
    + intros [reason c1] s3 (Hrel & Hreason & ->). split; [done|]. split; [done|]. rewrite Eid' in Hrel. pose proof Hrel as [_ Ereq Efin (R1 & R2)].
      split; [intros j; unfold the at 1; rewrite R1; apply Hst|]. split; [|split; [exact R2|split; [|exact Efin]]].
      * apply (release_core s2 s3 st i r' (without (running s) (stopped_running c)) _ queued); try done.
        -- rewrite Permutation_middle. f_equiv. apply without_snoc; try done.
           pose proof (core_NoDup _ _ _ _ _ _ _ _ (sv_core _ _ _ _ _ Hinv)) as Hnd. by apply NoDup_app in Hnd as (_ & _ & ?).
        -- intros j [Hj ?]%list_elem_of_filter. apply list_elem_of_filter. split; [|done]. intros Hin. apply Hj, elem_of_app. by left.
        -- by rewrite Hidi, Eid.
      * intros id' j. rewrite Ereq. cbn [requests set_store]. rewrite dict_elem_del by apply Hc. split.
        -- intros [Hne Hj]. split; [done|]. intros _ ->. destruct (c_objs _ _ _ _ _ _ _ _ Hc id' i Hj) as (E1 & _).
           apply Hne. rewrite <-E1. change (ref s2 i = id). by rewrite Hidi.
        -- intros [Hj Hne]. split; [|done]. intros ->. apply Hne; [done|].
           apply (dict_get_elem _ _ _ (c_keys _ _ _ _ _ _ _ _ Hc)) in Hj, Hreq. congruence.
  - wp_step. split; [by split; [intros []|]|]. split; [by destruct c|]. split; [exact Hst|]. destruct (us_end _ _ _ _ _ _ Hun) as (_ & Est & _).
    split; [|split; [done|split; [naive_solver|cbn; set_solver]]].
    apply (core_ext _ _ (<[i := r']> (store s2))); [intros j; rewrite at_insert; apply Hst|].
    apply core_upd; try done.
    + by right.
    + by rewrite Eid', <-Eid, <-Hidi.
    + apply Hf1.
    + apply Hf1.
    + intros _. rewrite Est. by destruct (c_run _ _ _ _ _ _ _ _ Hc i Hw).
    + intros Hq. pose proof (core_NoDup _ _ _ _ _ _ _ _ Hc) as (_ & Hd & _)%NoDup_app. by destruct (Hd i Hq).
Qed.


Lemma update_one_spec dn c s2 id n i :
  updating dn c s2 → in_flight so s → answers so mo → id ∈ (so_num_scheduled_tokens so).*1 → id ∉ dn.*1 →
  i ∈ running s → ref s i = id → dict_get (requests s2) id = Some i →
  wp (update_one use_int sha256 hash_fn NONE_HASH cfg so mo id i c) (λ c' s3, updating (dn ++ [(id, n)]) c' s3) no_exn s2.
Proof.
  intros Hu Hfl Hans Hid Hnd Hi Eid Hget. destruct (Hans id Hid) as (k & Hk & Hs & Hp). destruct (pooled_row k Hp) as [p Ep].
  pose proof Hu as [Hc Hpre [Hg1 Hg2] (L1 & L2 & L3 & L4) Hr Hids Hre Ht [Ho1 Ho2] Hrep Hf].
  assert (i ∉ stopped_running c) as Hnot by (intros Hin; destruct (Hg2 i Hin) as [_ Hd]; by rewrite Eid in Hd).
  assert (the i s2 = the i s) as Ei by (apply Hre; right; by rewrite Eid).
  assert (i ∈ without (running s) (stopped_running c)) as Hw by by apply list_elem_of_filter.
  destruct (core_ok _ _ _ _ _ _ _ _ Hc i (or_intror Hw)) as [Hok _]. change (request_ok sha256 cfg (the i s2)) in Hok.
  destruct (c_run _ _ _ _ _ _ _ _ Hc i Hw) as [Hst _]. change (status (the i s2) = RUNNING) in Hst.
  unfold update_one. wp_step. eapply wp_lift_some; [exact Hk|]. wp_step. rewrite (sampled_row id k Hk Hs), (fl_drafts _ _ Hfl).
  apply wp_lift_res; [|done]. intros ? [= <-]. wp_step. unfold adjust_rejected. cbn [dict_get default].
  match goal with |- context [bool_decide (?a = []) || _] => rewrite (bool_decide_eq_true_2 (a = [])) by done end. cbn [orb]. wp_step. wp_step. rewrite Ep.
  apply wp_lift_res; [|done]. intros ? [= <-]. wp_step. wp_step. change ((status ∘ the i) s2) with (status (the i s2)). rewrite Hst. wp_step.
  eapply wp_mono; [by apply check_request_spec| |done]. intros [l b] s2' (st & r' & -> & Hst' & Hwt). wp_step.
  eapply wp_mono; [by apply (settle_spec dn c s2 id i st r' l b (sampled mo id))| |done].
  intros [reason c1] s3 (Hreason & -> & Hthe & Hc3 & Hl3 & Hr3 & Hf3). wp_step. wp_step. 
  destruct Hwt as (Hf1 & Hun & Hb). rewrite Ei in Hf1, Hun. pose proof Hun as [Hpref Hl Hfirst Hend].
  assert (took_tokens (sampled mo id) (b = true) (the i s) r') as Htook.
  { exists l. split; [done|]. split; [done|]. split; [done|]. destruct b; [by left|by right; split]. }
  set (c1 := mkCollected _ _ _) in *. set (o := mkCoreOutput _ _ _ _ _ _ _).
  assert (reports (the i s) r' (b = true) o) as Ho by (split; [done|split; [exact Hl|exact Hreason]]).
  assert (request_id r' = id) as Hid' by (by rewrite (tf_id _ _ Hf1)).
  wp_step; wp_step.
  - apply (updating_step dn c s2 id n i r' b _ [o]); try done.
    + by apply add_output_all.
    + by intros o' ->%list_elem_of_singleton.
  - apply (updating_step dn c s2 id n i r' b _ []); try done.
    + intros o' Ho'. by apply elem_of_nil in Ho'.
    + cbn. lia.
    + intros Hne. exfalso. apply orb_false_iff in Hif as [[Hif _]%orb_false_iff Hb']. subst b. destruct Hend as [-> _].
      by rewrite bool_decide_eq_false_2 in Hif.
Qed.

Lemma update_requests_spec :
  in_flight so s → answers so mo →
  wp (update_requests use_int sha256 hash_fn NONE_HASH cfg so mo)
    (λ c s', updating (so_num_scheduled_tokens so) c s') no_exn s.
Proof.
  intros Hfl Hans. unfold update_requests.
  eapply wp_mono; [apply (wp_fold_each _ _ _ (λ dn c s', updating dn c s') no_exn)| |done]; [|apply updating_start|done].
  intros dn [id n] rest c s2 Eso Hu. pose proof (fl_once _ _ Hfl) as Hnd. rewrite Eso, fmap_app in Hnd. cbn in Hnd.
  apply NoDup_app in Hnd as (_ & Hd & _). assert (id ∉ dn.*1) as Hid by (intros Hin; apply (Hd id Hin); left).
  assert ((id, n) ∈ so_num_scheduled_tokens so) as Hin by (rewrite Eso; apply elem_of_app; right; left).
  destruct (fl_each _ _ Hfl id n Hin) as [Hn Hrun].
  pose proof (sv_core _ _ _ _ _ Hinv) as Hc. pose proof (ud_core _ _ _ Hu) as Hc2.
  wp_step. apply wp_assert; [by apply Z.ltb_lt|]. wp_step. wp_step. unfold lookup_request.
  destruct (dict_get (requests s2) id) as [i|] eqn:Ei.
  - pose proof Ei as Hi%dict_get_Some. apply (ud_requests _ _ _ Hu) in Hi as [Hi Hg].
    destruct (c_objs _ _ _ _ _ _ _ _ Hc id i Hi) as (Eid & _). change (ref s i = id) in Eid.
    assert (i ∈ running s) as Hr by (apply Hrun; apply dict_get_elem; [apply Hc|done]).
    wp_step. wp_step. rewrite (ud_rest _ _ _ Hu i) by (right; by rewrite Eid).
    destruct (unfinished s queued Hinv i (or_intror Hr)) as (-> & _). cbv iota.
    apply update_one_spec; try done. apply list_elem_of_fmap. by exists (id, n).
  - wp_step. apply updating_skip; [done|]. intros i Hr Eid.
    pose proof (core_ref _ _ _ _ _ _ _ _ Hc i (or_intror Hr)) as Hreq. change (request_id (at_ (store s) i)) with (ref s i) in Hreq.
    rewrite Eid in Hreq. assert ((id, i) ∈ requests s2) as Hreq2.
    { apply (ud_requests _ _ _ Hu). split; [done|]. intros Hg. apply (ud_gone _ _ _ Hu) in Hg as [_ Hg]. by rewrite Eid in Hg. }
    apply dict_get_elem in Hreq2; [congruence|apply Hc2].
Qed.

(** What [update_from_output] does; [gone]: the requests that have stopped. *)
Record updated_ok (outs : list (Z * EngineCoreOutputs)) (gone : list Z) (s' : Sched) : Prop := {
  up_inv : inv s' queued;
  up_running : running s' = without (running s) gone;
  up_requests : ∀ id i, (id, i) ∈ requests s' ↔ (id, i) ∈ requests s ∧ i ∉ gone;
  up_gone : ∀ i, i ∈ gone → i ∈ running s ∧ ref s i ∈ (so_num_scheduled_tokens so).*1;
  up_rest : ∀ j, j ∉ running s ∨ ref s j ∉ (so_num_scheduled_tokens so).*1 → the j s' = the j s;
  up_took : ∀ i, i ∈ running s → ref s i ∈ (so_num_scheduled_tokens so).*1 →
    took_tokens (sampled mo (ref s i)) (i ∈ gone) (the i s) (the i s');
  up_once : NoDup (eo_request_id <$> concat (eos_outputs <$> outs.*2));
  up_outputs : ∀ o, o ∈ concat (eos_outputs <$> outs.*2) → ∃ i, i ∈ running s ∧
    reports (the i s) (the i s') (i ∈ gone) o;
  up_reported : ∀ i, i ∈ running s → ref s i ∈ (so_num_scheduled_tokens so).*1 → sampled mo (ref s i) ≠ [] →
    ref s i ∈ eo_request_id <$> concat (eos_outputs <$> outs.*2);
  up_finished : finished_req_ids s' = finished_req_ids s ∪ list_to_set ((λ i, ref s i) <$> gone)
}.

(** Only the fields the invariant reads matter. *)
Lemma updated_intro c s2 s' outs :
  updating (so_num_scheduled_tokens so) c s2 → kv_quiet mml (kv s2) (kv s') →
  store s' = store s2 → requests s' = requests s2 → running s' = remove_all (running s2) (stopped_running c) →
  waiting s' = waiting s2 → skipped_waiting s' = skipped_waiting s2 →
  prev_step_scheduled_req_ids s' = prev_step_scheduled_req_ids s2 → finished_req_ids s' = finished_req_ids s2 →
  concat (eos_outputs <$> outs.*2) = all_outputs (co_outputs c) →
  updated_ok outs (stopped_running c) s'.
Proof.
  intros [Hc Hp [Hg1 Hg2] (L1 & L2 & L3 & L4) Hr Hids Hre Ht [Ho1 Ho2] Hrep Hf] Hkv E1 E2 E3 E4 E5 E6 E7 Eo.
  pose proof (sv_core _ _ _ _ _ Hinv) as Hc0. pose proof (core_NoDup _ _ _ _ _ _ _ _ Hc0) as (_ & Hd & Hnd)%NoDup_app.
  assert (running s' = without (running s) (stopped_running c)) as Er by (rewrite E3, L1; by apply remove_all_filter).
  assert (∀ j, the j s' = the j s2) as Hthe by (intros j; unfold the; by rewrite E1).
  split; rewrite ?Eo; try setoid_rewrite Hthe; try done.
  - split.
    + rewrite E1, E2, Er. by apply (core_quiet _ _ _ _ _ _ (kv s2)).
    + destruct (sv_queued _ _ _ _ _ Hinv) as (lw & lk & Hw & Hk & Hq). exists lw, lk. by rewrite E4, E5, L2, L3.
    + pose proof (sv_len _ _ _ _ _ Hinv). rewrite Er. pose proof (length_filter (λ y, y ∉ stopped_running c) (running s)). lia.
    + intros i Hi. rewrite Hthe, E6, L4, Hre by (left; by apply Hd). by apply (sv_prev _ _ _ _ _ Hinv).
  - intros id i. by rewrite E2.
  - intros o Ho. destruct (Ho2 o Ho) as (i & ? & _ & ?). by exists i.
  - by rewrite E7.
Qed.

Lemma update_from_output_spec :
  in_flight so s → answers so mo →
  wp (update_from_output use_int sha256 hash_fn NONE_HASH cfg so mo)
    (λ '(outs, events) s', ∃ gone, updated_ok outs gone s') no_exn s.
Proof.
  intros Hfl Hans. unfold update_from_output. wp_step.
  eapply wp_mono; [by apply update_requests_spec| |done]. intros c s2 Hu. wp_step. wp_step.
  rewrite (ud_preempted _ _ _ Hu), bool_decide_eq_true_2 by done. wp_step. wp_step. wp_step. wp_step. cbn [lget lset kvmL].
  eapply wp_mono; [apply (kv_take_events_spec mml)| |done]; [apply (ud_core _ _ _ Hu)|]. intros events kv' Hkv. cbv zeta.
  set (outs := _ <$> co_outputs c). 
  assert (concat (eos_outputs <$> outs.*2) = all_outputs (co_outputs c)) as Eo.
  { unfold outs, all_outputs. f_equal. rewrite <-!list_fmap_compose. apply list_fmap_ext. by intros k [client l] _. }
  wp_step. wp_step. cbn [finished_req_ids_dict set_running set_kv_cache_manager].
  destruct (finished_req_ids_dict s2) as [[|d l]|]; [wp_step|wp_step; wp_step; wp_step|wp_step]; exists (stopped_running c);
    apply (updated_intro c s2); try done. by rewrite merge_finished_all.
Qed.
End updating.

(** ** The whole system *)

Context (id_order : list string → list string) (Horder : ∀ l, id_order l ≡ₚ l).

(** The scheduler and the step that is being executed. *)
Record System := mkSystem { scheduler : Sched; pending : option SchedulerOutput }.
Definition schedulerL : lens System Sched := Lens scheduler (λ s y, mkSystem s (pending y)).

(** What the engine calls. *)
Inductive call :=
  | AddRequest (r : Request)
  | FinishRequests (ids : option (list string)) (status : RequestStatus)
  | SetPauseState (p : PauseState)
  | ScheduleStep
  | UpdateFromOutput (mo : ModelRunnerOutput).

Definition do_call (c : call) : M System unit :=
  match c with
  | AddRequest r => zoom schedulerL (sched_add_request sha256 hash_fn NONE_HASH id_order cfg r)
  | FinishRequests ids status => zoom schedulerL (finish_requests id_order ids status) ;; mret tt
  | SetPauseState p => zoom schedulerL (sched_set_pause_state p)
  | ScheduleStep =>
      so ← zoom schedulerL (schedule use_int sha256 cfg); modify (λ y, mkSystem (scheduler y) (Some so))
  | UpdateFromOutput mo =>
      so ← gets pending; so ← lift_opt RuntimeError so;
      zoom schedulerL (update_from_output use_int sha256 hash_fn NONE_HASH cfg so mo) ;;
      modify (λ y, mkSystem (scheduler y) None)
  end.

(** Ids are not used again while they are in flight; one step is executed at a time,
    and the model runner answers what was scheduled. *)
Definition allowed (c : call) (y : System) : Prop :=
  match c with
  | AddRequest r => fresh_request (scheduler y) r ∧
      ∀ so, pending y = Some so → request_id r ∉ (so_num_scheduled_tokens so).*1
  | FinishRequests _ status => status_is_finished status = true
  | SetPauseState _ => True
  | ScheduleStep => pending y = None
  | UpdateFromOutput mo => ∃ so, pending y = Some so ∧ answers so mo
  end.

(** A new scheduler over a cache that holds nothing. *)
Definition initial (y : System) : Prop :=
  ∃ kvm enc include, y = mkSystem (Scheduler_init kvm enc include) None ∧
    kv_ok mml kvm ∧ (∀ id, kv_absent kvm id) ∧ hash_block_size (block_pool (coordinator kvm)) = sched_block_size cfg.

(** The states reached by allowed calls, whatever they return. *)
Inductive reachable : System → Prop :=
  | reach_initial y : initial y → reachable y
  | reach_call y c r y' : reachable y → allowed c y → do_call c y = (r, y') → reachable y'.

Definition sys_ok (y : System) : Prop :=
  (∃ queued, inv (scheduler y) queued) ∧ ∀ so, pending y = Some so → in_flight so (scheduler y).

Lemma start_inv kvm (enc : E) inc :
  kv_ok mml kvm → (∀ id, kv_absent kvm id) → hash_block_size (block_pool (coordinator kvm)) = sched_block_size cfg →
  0 ≤ max_num_running_reqs cfg → inv (Scheduler_init kvm enc inc) [].
Proof.
  intros Hkv Habs Hh Hmax. split; cbn.
  - split; try done; try (intros * Hi; by apply elem_of_nil in Hi). apply NoDup_nil_2.
  - exists [], []. split; [apply law_empty|]. split; [apply law_empty|done].
  - done.
  - intros i Hi. by apply elem_of_nil in Hi.
Qed.

Lemma initial_ok y : initial y → 0 ≤ max_num_running_reqs cfg → sys_ok y.
Proof.
  intros (kvm & enc & inc & -> & Hkv & Habs & Hh) Hmax. split; [|done]. exists []. by apply start_inv.
Qed.

Lemma call_ok c y : sys_ok y → allowed c y → wp (do_call c) (λ _ y', sys_ok y') no_exn y.
Proof.
  intros [[queued Hinv] Hfl] Hc. pose proof (sv_core _ _ _ _ _ Hinv) as Hco. destruct y as [s p]. cbn [scheduler pending] in *.
  destruct c as [r|ids fs|ps| |mo]; cbn [do_call allowed pending scheduler] in *.
  - destruct Hc as [Hr Hnew]. wp_step. cbn [lget lset schedulerL scheduler pending].
    eapply wp_mono; [by apply (add_request_spec id_order)| |done]. intros [] s' (Hinv' & Ereq & Erun). split; [by eexists|].
    intros so Hp. destruct (Hfl so Hp) as [F1 F2 F3]. split; [done|done|]. intros id n Hin. destruct (F3 id n Hin) as [Hn Hi].
    split; [done|]. intros i. cbn [scheduler]. rewrite Ereq, dict_get_set, Erun. rewrite decide_False; [apply Hi|]. intros ->.
    apply (Hnew so Hp). apply list_elem_of_fmap. by exists (request_id r, n).
  - wp_step. wp_step. cbn [lget lset schedulerL scheduler pending].
    eapply wp_mono; [by apply (finish_requests_spec s queued Hinv id_order Horder ids fs (match ids with Some l => distinct l | None => (requests s).*1 end)); [|destruct ids]| |done].
    intros res s' [Hinv' Erun Ereq _]. wp_step. split; [by eexists|]. cbn [scheduler pending].
    intros so Hp. destruct (Hfl so Hp) as [F1 F2 F3]. split; [done|done|]. intros id n Hin. destruct (F3 id n Hin) as [Hn Hi].
    split; [done|]. intros i [Hr Hn']%dict_get_Some%Ereq. rewrite Erun. apply list_elem_of_filter. split.
    + by rewrite (found_requests s queued Hinv _ id i Hr).
    + apply Hi. by apply dict_get_elem; [apply Hco|].
  - wp_step. cbn [lget lset schedulerL scheduler pending]. unfold sched_set_pause_state. wp_step. split.
    + exists queued. by destruct Hinv.
    + intros so Hp. by destruct (Hfl so Hp).
  - wp_step. wp_step. cbn [lget lset schedulerL scheduler pending].
    destruct (schedule_spec queue_rep use_int sha256 cfg Hcfg s queued Hinv) as (so & s' & E0 & Hok).
    unfold wp at 1. rewrite E0. wp_step. split; [apply Hok|]. cbn [pending scheduler]. intros so' [= <-].
    split; [apply Hok|apply Hok|]. intros id n Hin. destruct (sk_each _ _ _ _ _ _ Hok id n Hin) as (Hn & i & Hg & Hi & _).
    split; [done|]. intros i' Hg'. congruence.
  - destruct Hc as (so & -> & Hans). wp_step. wp_step. wp_step. eapply wp_lift_some; [done|]. wp_step. wp_step. cbn [lget lset schedulerL scheduler pending].
    eapply wp_mono; [apply (update_from_output_spec s queued Hinv so mo); [by apply Hfl|done]| |done].
    intros [outs events] s' (gone & Hok). wp_step. split; [|done]. cbn. exists queued. apply Hok.
Qed.
End run.
