(* ===== verification/SchedulerTheorems.v ===== *)
(** * The theorems about the scheduler

    What [Scheduler.schedule], [update_from_output], [add_request] and
    [finish_requests] do from a state in order, and that a system which calls them
    never leaves order; each with a concrete run. *)

From stdpp Require Import base list gmap strings.
From Stdlib Require Import ZArith Lia.
From S2P Require Import Prelude FreeQueue Request BlockHash BlockPool EncoderCache RequestQueue KVCacheSpec KVCacheConfig CacheManagers CacheHit Coordinator.
From S2P Require Import ManagerSpecs KVCacheManager CacheInvariant Admission KVService Scheduler SchedulerInvariant SchedulerStep SchedulerRun.
Local Open Scope Z_scope.

Section theorems.
Context {Q E : Type} `{!RequestQueue Q} `{!EncoderManager E}.
Context (queue_rep : Q → list Request → Prop) `{!RequestQueueLaws Q queue_rep} `{!EncoderManagerLaws E}.
Context (use_int : bool) (sha256 : bytes → bytes).
Context (hash_fn : BlockHash * list Z * option (list pyval) → bytes) (NONE_HASH : bytes).
Context (id_order : list string → list string) (cfg : SchedulerConfig).
Abbreviation Sched := (Scheduler (Q := Q) (E := E)).
Abbreviation content := (generation_content sha256 hash_fn NONE_HASH cfg).
Abbreviation inv := (sched_inv (RC := content) queue_rep sha256 cfg).

(** C2: from a state in order, [schedule] returns: it raises no exception and
    none of its assertions fails, for every queue policy, encoder manager and cache
    layout of attention groups.  It spends at most [max_num_scheduled_tokens], nothing
    when all is paused; each request is scheduled at most once, with at least one
    token, and is then running with blocks for every token it has computed or been
    given, no more tokens than it has; and the state is in order again: each request
    in exactly one list, at most [max_num_running_reqs] running, only running ones
    holding blocks. *)
Theorem schedule_correct (s : Sched) queued :
  plain_config cfg → inv s queued →
  ∃ so s', schedule use_int sha256 cfg s = (Ok so, s') ∧ scheduled_ok (RC := content) queue_rep sha256 cfg s so s'.
Proof. intros Hcfg. by apply schedule_spec. Qed.

(** C5: the model runner's answer to a step is taken in without an exception,
    also when requests were added or finished since the step was scheduled.  Each
    scheduled request that still runs takes its tokens up to the first after which a
    stop condition holds ([stops_after]: an end or stop token, a length cap or a
    repetition, not below the minimum of tokens); if there is one it gets the finished
    status and the stop reason that this condition prescribes, leaves the running list, its blocks are
    released and its id is reported as finished, otherwise it takes all its tokens and
    runs on.  Every request with tokens gets exactly one message, with the tokens it
    took, and with a finish reason exactly if it stopped.  Nothing else changes, and
    the state stays in order. *)
Theorem update_from_output_correct (s : Sched) queued so mo :
  plain_config cfg → hash_injective hash_fn NONE_HASH → 0 < sched_block_size cfg →
  inv s queued → in_flight so s → answers so mo →
  ∃ outs events s' gone, update_from_output use_int sha256 hash_fn NONE_HASH cfg so mo s = (Ok (outs, events), s') ∧
    updated_ok queue_rep sha256 hash_fn NONE_HASH cfg s queued so mo outs gone s'.
Proof.
  intros Hcfg Hhash Hbs Hinv Hfl Hans.
  destruct (wp_no_exn_run _ _ _ (update_from_output_spec queue_rep use_int sha256 hash_fn NONE_HASH cfg Hcfg Hhash Hbs s queued
    Hinv so mo Hfl Hans)) as ([outs events] & s' & E0 & gone & Hok).
  by exists outs, events, s', gone.
Qed.

(** C15: [finish_requests], for some ids or for all, never raises; of the ids given
    exactly those of live requests leave, from the running list or a waiting queue,
    their blocks are released and they are reported as finished; the others keep their
    state and their order, unknown ids are passed over, and the state stays in order. *)
Theorem finish_requests_correct (s : Sched) queued request_ids fs ids :
  plain_config cfg → hash_injective hash_fn NONE_HASH → 0 < sched_block_size cfg → (∀ l, id_order l ≡ₚ l) →
  inv s queued → status_is_finished fs = true →
  match request_ids with Some l => ids ≡ₚ distinct l | None => ids = (requests s).*1 end →
  ∃ res s', finish_requests id_order request_ids fs s = (Ok res, s') ∧
    finished_ok queue_rep sha256 hash_fn NONE_HASH cfg s queued ids s'.
Proof.
  intros Hcfg Hhash Hbs Ho Hinv Hfs Hids. apply wp_no_exn_run.
  by apply (finish_requests_spec queue_rep sha256 hash_fn NONE_HASH cfg Hcfg Hhash Hbs s queued Hinv id_order Ho).
Qed.


(** C1: whatever a system does - it adds, finishes, pauses, schedules a step, and
    takes in the model's answer to it, in any order that executes one step at a time -
    no call raises an exception and every state it reaches is in order: each request is
    in exactly one list, at most [max_num_running_reqs] run, a running request holds
    blocks for its computed tokens and no other request holds any, and the blocks and
    the prefix-cache index are consistent. *)
Theorem scheduler_invariant y :
  plain_config cfg → hash_injective hash_fn NONE_HASH → 0 < sched_block_size cfg → (∀ l, id_order l ≡ₚ l) →
  0 ≤ max_num_running_reqs cfg →
  reachable use_int sha256 hash_fn NONE_HASH cfg id_order y →
  sys_ok queue_rep sha256 hash_fn NONE_HASH cfg y ∧
  ∀ c, allowed sha256 hash_fn NONE_HASH cfg c y →
    ∃ y', do_call use_int sha256 hash_fn NONE_HASH cfg id_order c y = (Ok tt, y').
Proof.
  intros Hcfg Hhash Hbs Ho Hmax Hy.
  pose proof (call_ok queue_rep use_int sha256 hash_fn NONE_HASH cfg Hcfg Hhash Hbs id_order Ho) as Hcall.
  assert (sys_ok queue_rep sha256 hash_fn NONE_HASH cfg y) as Hok.
  { induction Hy as [y Hy|y c r y' _ IH Hc E0]; [exact (initial_ok queue_rep sha256 hash_fn NONE_HASH cfg y Hy Hmax)|].
    destruct (wp_no_exn_run _ _ _ (Hcall c y IH Hc)) as ([] & y1 & E1 & Hok). rewrite E0 in E1. by injection E1 as _ ->. }
  split; [done|]. intros c Hc. destruct (wp_no_exn_run _ _ _ (Hcall c y Hok Hc)) as ([] & y' & E1 & _). by exists y'.
Qed.
End theorems.

(** ** A concrete run: one request, scheduled and answered *)

Definition one_config : KVCacheConfig := mkKVConfig 8 [] [mkGroup ["full"%string] (Layer full2)].
Definition one_kvm : KVCacheManager :=
  match KVCacheManager_init one_config 64 2 true false true false 1 1 with Ok s => s | Err _ => kvm_dummy end.
Definition one_cfg : SchedulerConfig :=
  mkSchedConfig FCFS 2 8 64 0 true false false 0 false 0 0 None false 2 2 false false false false false 1.
Definition one_start : Scheduler (Q := FCFSRequestQueue) (E := EncoderDecoderCacheManager) :=
  Scheduler_init one_kvm (EncoderDecoderCacheManager_init 0) false.
Definition one_request : Request :=
  match Request_init (λ b, b) enc_hash [0] 2 "r" 7 0 0 0 (Some (mkSampling (Some 1) 0 None None None None)) None None false
    (Some [5; 6; 7]) None None [] false with Ok r => r | Err _ => inhabitant end.
Definition one_added := (sched_add_request (λ b, b) enc_hash [0] (λ l, l) one_cfg one_request one_start).2.
Definition one_step := schedule false (λ b, b) one_cfg one_added.
Definition one_output : SchedulerOutput :=
  match one_step.1 with Ok so => so | Err _ => mkSchedOutput [] CachedRequestData_make_empty [] 0 [] [] [] ∅ [] [] false false None None end.
Definition one_answer : ModelRunnerOutput := mkRunnerOutput [("r"%string, 0)] [[9]] [].

Lemma one_plain : plain_config one_cfg.
Proof. by split. Qed.

Lemma one_hash : hash_injective enc_hash [0].
Proof. split; [apply enc_hash_inj|]. by intros x. Qed.

Lemma one_initial : initial one_cfg (mkSystem one_start None).
Proof.
  destruct (kv_init_ok one_config ["full"%string] full2 64 true true false) as (s & E & Hok & Habs & Hh); [done|by split|done|].
  change (layer_block_size full2) with 2 in E. assert (one_kvm = s) as <- by (unfold one_kvm; by rewrite E).
  exists one_kvm, (EncoderDecoderCacheManager_init 0), false. split; [reflexivity|]. split; [exact Hok|]. split; [exact Habs|].
  rewrite Hh. reflexivity.
Qed.

Abbreviation one_inv := (sched_inv (Q := FCFSRequestQueue) (RC := generation_content (λ b, b) enc_hash [0] one_cfg) (=) (λ b, b) one_cfg).

Lemma one_start_inv : one_inv one_start [].
Proof.
  destruct one_initial as (kvm & enc & inc & E & Hkv & Habs & Hh). apply (f_equal scheduler) in E. cbn [scheduler] in E.
  rewrite E. apply (start_inv (Q := FCFSRequestQueue)); [exact fcfs_laws|exact Hkv|exact Habs|exact Hh|by vm_compute].
Qed.

Lemma one_fresh : fresh_request (λ b, b) enc_hash [0] one_cfg one_start one_request.
Proof.
  destruct (new_request_ok (λ b, b) enc_hash [0] one_cfg one_hash eq_refl "r" 7 0 0 0 (mkSampling (Some 1) 0 None None None None)
    None false [5; 6; 7] None one_request) as (Hok & E1 & E2 & E3 & E4); [vm_compute; reflexivity|vm_compute; done..|].
  split; [by apply not_elem_of_nil|]. split; [by apply not_elem_of_nil|]. done.
Qed.

Lemma one_added_inv : one_inv one_added [7].
Proof.
  destruct (wp_no_exn_run _ _ _ (add_request_spec (Q := FCFSRequestQueue) (=) (λ b, b) enc_hash [0] one_cfg (λ l, l) one_start [] one_request one_start_inv one_fresh))
    as ([] & s' & E & Hinv & _).
  unfold one_added. rewrite E. by replace (obj_id one_request) with 7 in Hinv by (vm_compute; reflexivity).
Qed.

Lemma one_scheduled : ∃ queued, one_inv one_step.2 queued ∧ in_flight one_output one_step.2.
Proof.
  destruct (schedule_spec (Q := FCFSRequestQueue) (RC := generation_content (λ b, b) enc_hash [0] one_cfg) (=) false (λ b, b) one_cfg one_plain one_added [7] one_added_inv) as (so & s' & E & [[queued Hinv] _ _ _ Hd Ho He]).
  unfold one_output, one_step. rewrite E. cbn [fst snd]. exists queued. split; [done|]. split; [done|done|].
  intros id n Hin. destruct (He id n Hin) as (Hn & i & Hg & Hi & _). split; [done|]. intros j Hj. congruence.
Qed.

Lemma schedule_correct_witness :
  ∃ so s', schedule false (λ b, b) one_cfg one_added = (Ok so, s') ∧
    scheduled_ok (Q := FCFSRequestQueue) (RC := generation_content (λ b, b) enc_hash [0] one_cfg) (=) (λ b, b) one_cfg one_added so s'.
Proof. apply (schedule_correct (Q := FCFSRequestQueue) (=) false (λ b, b) enc_hash [0] one_cfg one_added [7]); [exact one_plain|exact one_added_inv]. Defined.

Lemma update_from_output_correct_witness :
  ∃ queued outs events s' gone, update_from_output false (λ b, b) enc_hash [0] one_cfg one_output one_answer one_step.2 = (Ok (outs, events), s') ∧
    updated_ok (Q := FCFSRequestQueue) (=) (λ b, b) enc_hash [0] one_cfg one_step.2 queued one_output one_answer outs gone s'.
Proof.
  destruct one_scheduled as (queued & Hinv & Hfl). exists queued.
  apply (update_from_output_correct (Q := FCFSRequestQueue) (=) false (λ b, b) enc_hash [0] one_cfg one_step.2 queued one_output one_answer);
    [exact one_plain|exact one_hash|done|exact Hinv|exact Hfl|].
  intros id. replace (so_num_scheduled_tokens one_output).*1 with ["r"%string] by (vm_compute; reflexivity).
  intros ->%list_elem_of_singleton. exists 0. split; [done|]. split; [right; by split|by left].
Defined.

Lemma finish_requests_correct_witness :
  ∃ res s', finish_requests (λ l, l) (Some ["r"; "x"; "r"]%string) FINISHED_ABORTED one_added = (Ok res, s') ∧
    finished_ok (Q := FCFSRequestQueue) (=) (λ b, b) enc_hash [0] one_cfg one_added [7] ["r"; "x"]%string s'.
Proof.
  apply (finish_requests_correct (Q := FCFSRequestQueue) (=) (λ b, b) enc_hash [0] (λ l, l) one_cfg one_added [7] (Some ["r"; "x"; "r"]%string) FINISHED_ABORTED);
    [exact one_plain|exact one_hash|done|done|exact one_added_inv|done|vm_compute; reflexivity].
Defined.


Lemma scheduler_invariant_witness :
  sys_ok (Q := FCFSRequestQueue) (=) (λ b, b) enc_hash [0] one_cfg (mkSystem one_start None) ∧
  ∃ y', do_call false (λ b, b) enc_hash [0] one_cfg (λ l, l) (AddRequest one_request) (mkSystem one_start None) = (Ok tt, y').
Proof.
  destruct (scheduler_invariant (Q := FCFSRequestQueue) (=) false (λ b, b) enc_hash [0] (λ l, l) one_cfg (mkSystem one_start None)) as [Hok Hcall];
    [exact one_plain|exact one_hash|done|done|done|apply reach_initial, one_initial|].
  split; [exact Hok|]. apply Hcall. split; [exact one_fresh|done].
Defined.
