(* ===== verification/NgramProposer.v ===== *)
(** * The n-gram proposer

    [vllm/v1/spec_decode/ngram_proposer.py]: the drafts of prompt lookup decoding.
    The longest n-gram at the end of the tokens, of a length between the two limits,
    that occurs earlier is looked up with one pass of the Knuth-Morris-Pratt failure
    function over the reversed tokens, capped at the upper limit.  Indices are natural
    numbers; an access out of range, which compiled code would not notice, is an
    IndexError here and is proved not to happen.  Threads write disjoint rows, so the
    parallel loop is a loop; the number of threads is left out. *)

From stdpp Require Import base list.
From Stdlib Require Import ZArith Lia.
From S2P Require Import Prelude.
Local Open Scope nat_scope.

(** ** The code *)

Definition at_index {A} (l : list A) (i : nat) : res A := match l !! i with Some a => Ok a | None => Err IndexError end.

(** The variables of the loop. *)
Record Search := mkSearch {
  lps : list nat;
  longest_ngram : nat;
  position : nat;
  prev_lps : nat;
  search_i : nat
}.

(** One turn of the loop. *)
Definition search_step (tokens : list Z) (max_ngram : nat) (s : Search) : res Search :=
  let i := search_i s in
  a ← at_index tokens (prev_lps s);
  b ← at_index tokens i;
  if bool_decide (a = b) then
    let p := S (prev_lps s) in
    let '(longest, pos) := if longest_ngram s <=? p then (p, i) else (longest_ngram s, position s) in
    let l := if i <? max_ngram then <[i := p]> (lps s) else lps s in
    next ← (if p =? max_ngram then at_index l (max_ngram - 1) else Ok p);
    Ok (mkSearch l longest pos next (S i))
  else if negb (prev_lps s =? 0) then
    p ← at_index (lps s) (prev_lps s - 1);
    Ok (mkSearch (lps s) (longest_ngram s) (position s) p i)
  else Ok (mkSearch (lps s) (longest_ngram s) (position s) (prev_lps s) (S i)).

Fixpoint search_loop (fuel : nat) (tokens : list Z) (max_ngram : nat) (s : Search) : res Search :=
  match fuel with
  | O => Err OutOfFuel
  | S fuel =>
      if search_i s <? length tokens then
        s ← search_step tokens max_ngram s; search_loop fuel tokens max_ngram s
      else Ok s
  end.

Definition search_start (max_ngram : nat) : Search := mkSearch (replicate max_ngram 0) 0 0 0 1.

Definition _find_longest_matched_ngram_and_propose_tokens (origin_tokens : list Z) (min_ngram max_ngram : nat)
    (max_model_len k : Z) : res (list Z) :=
  let total_token := length origin_tokens in
  if total_token <? min_ngram then Ok []
  else
    let k := Z.min k (max_model_len - Z.of_nat total_token) in
    if (k <=? 0)%Z then Ok []
    else
      let tokens := reverse origin_tokens in
      s ← search_loop (S (2 * total_token)) tokens max_ngram (search_start max_ngram);
      if longest_ngram s <? min_ngram then Ok []
      else
        let start_position := total_token - 1 - position s + longest_ngram s in
        let k := Nat.min (Z.to_nat k) (total_token - start_position) in
        Ok (take k (drop start_position origin_tokens)).

(** [NgramProposer]; the buffers have a row for each sequence of the largest batch. *)
Record NgramProposer := mkNgramProposer {
  min_n : nat;
  max_n : nat;
  num_drafts_k : nat;
  ngram_max_model_len : Z;
  valid_ngram_draft : list (list Z);
  valid_ngram_num_drafts : list nat
}.

Definition NgramProposer_init (min_n max_n k : nat) (max_model_len : Z) (max_num_seqs : nat) : NgramProposer :=
  mkNgramProposer min_n max_n k max_model_len (replicate max_num_seqs (replicate k 0%Z)) (replicate max_num_seqs 0).

Definition set_drafts (rows : list (list Z)) (nums : list nat) (p : NgramProposer) : NgramProposer :=
  mkNgramProposer (min_n p) (max_n p) (num_drafts_k p) (ngram_max_model_len p) rows nums.

(** One turn of [batch_propose_numba]: [row[:n] = out], then the count. *)
Definition propose_row (num_tokens_no_spec : list nat) (token_ids_cpu : list (list Z)) (idx : nat) : M NgramProposer unit :=
  p ← gets id;
  num_tokens ← lift_res (at_index num_tokens_no_spec idx);
  row ← lift_res (at_index token_ids_cpu idx);
  out ← lift_res (_find_longest_matched_ngram_and_propose_tokens (take num_tokens row) (min_n p) (max_n p)
                    (ngram_max_model_len p) (Z.of_nat (num_drafts_k p)));
  modify (λ p, set_drafts (valid_ngram_draft p) (<[idx := length out]> (valid_ngram_num_drafts p)) p) ;;
  if bool_decide (out = []) then mret tt
  else
    old ← lift_res (at_index (valid_ngram_draft p) idx);
    if length old <? length out then raise ValueError
    else modify (λ p, set_drafts (<[idx := out ++ drop (length out) old]> (valid_ngram_draft p)) (valid_ngram_num_drafts p) p).

Definition batch_propose_numba (valid : list nat) (num_tokens_no_spec : list nat) (token_ids_cpu : list (list Z))
    : M NgramProposer unit :=
  for_each valid (propose_row num_tokens_no_spec token_ids_cpu).

Definition batch_propose (num_requests : nat) (valid : list nat) (num_tokens_no_spec : list nat)
    (token_ids_cpu : list (list Z)) : M NgramProposer (list (list Z)) :=
  (if bool_decide (valid = []) then mret tt else batch_propose_numba valid num_tokens_no_spec token_ids_cpu) ;;
  p ← gets id;
  lift_res (map_res (λ i,
    if bool_decide (i ∈ valid) then
      n ← at_index (valid_ngram_num_drafts p) i;
      if 0 <? n then d ← at_index (valid_ngram_draft p) i; Ok (take n d) else Ok []
    else Ok []) (seq 0 num_requests)).

Definition propose (sampled_token_ids : list (list Z)) (num_tokens_no_spec : list nat) (token_ids_cpu : list (list Z))
    : M NgramProposer (list (list Z)) :=
  p ← gets id;
  valid ← fold_each (zip (seq 0 (length sampled_token_ids)) sampled_token_ids) [] (λ valid '(i, ids),
    if bool_decide (ids = []) then mret valid
    else
      num_tokens ← lift_res (at_index num_tokens_no_spec i);
      if (ngram_max_model_len p <=? Z.of_nat num_tokens)%Z then mret valid else mret (valid ++ [i]));
  batch_propose (length sampled_token_ids) valid num_tokens_no_spec token_ids_cpu.

(** ** Borders *)

Section borders.
Context (t : list Z).

(** The first [v] items are also the last [v] before [e], and not all of them. *)
Definition border (e v : nat) : Prop := v < e ∧ ∀ j, j < v → t !! j = t !! (e - v + j).

Lemma border_0 e : 0 < e → border e 0.
Proof. intros He. split; [done|lia]. Qed.

Lemma border_S e v : border (S e) (S v) ↔ border e v ∧ t !! v = t !! e.
Proof.
  split.
  - intros [Hv Hj]. split; [split; [lia|]|].
    + intros j Hlt. rewrite (Hj j) by lia. f_equal; lia.
    + rewrite (Hj v) by lia. f_equal; lia.
  - intros [[Hv Hj] Hl]. split; [lia|]. intros j Hlt. destruct (decide (j = v)) as [->|].
    + rewrite Hl. f_equal; lia.
    + rewrite Hj by lia. f_equal; lia.
Qed.

Lemma border_trans e q v : border e q → border q v → border e v.
Proof.
  intros [Hq Hj] [Hv Hj']. split; [lia|]. intros j Hlt. rewrite Hj' by done. rewrite Hj by lia. f_equal; lia.
Qed.

Lemma border_below e q v : border e q → border e v → v < q → border q v.
Proof.
  intros [Hq Hj] [Hv Hj'] Hlt. split; [done|]. intros j Hjv. rewrite Hj' by done. rewrite (Hj (q - v + j)) by lia. f_equal; lia.
Qed.

(** The longest one. *)
Definition longest_border (e v : nat) : Prop := border e v ∧ ∀ w, border e w → w ≤ v.
End borders.

(** ** The loop *)

Section search.
Context (t : list Z) (m : nat) (Hm : 0 < m).
Abbreviation n := (length t).

(** Before the turn for [i]: [prev_lps] is the border of the first [i] items to try next,
    the failure function is known below [i], and the best border so far with it the last
    place where it ends. *)
Record search_inv (s : Search) : Prop := {
  se_i : 1 ≤ search_i s ≤ Nat.max 1 n;
  se_prev : border t (search_i s) (prev_lps s) ∧ prev_lps s < m;
  se_next : ∀ v, border t (search_i s) v → v < m → prev_lps s < v → t !! v ≠ t !! search_i s;
  se_len : length (lps s) = m;
  se_lps : ∀ j v, lps s !! j = Some v → j < search_i s → longest_border t (S j) v;
  se_zero : ∀ j v, lps s !! j = Some v → search_i s ≤ j → v = 0;
  se_best : ∀ e v, e ≤ search_i s → border t e v → v ≤ m →
    v ≤ longest_ngram s ∧ (v = longest_ngram s → 0 < v → e ≤ S (position s));
  se_found : 0 < longest_ngram s →
    border t (S (position s)) (longest_ngram s) ∧ position s < search_i s ∧ longest_ngram s ≤ m
}.

Definition measure (s : Search) : nat := 2 * (n - search_i s) + prev_lps s.

Lemma start_search_inv : search_inv (search_start m).
Proof.
  split; cbn.
  - lia.
  - split; [apply border_0; lia|done].
  - intros v [Hv _]. lia.
  - apply length_replicate.
  - intros j v [-> Hj]%lookup_replicate Hlt. assert (j = 0) as -> by lia. split; [apply border_0; lia|]. intros w [Hw _]. lia.
  - by intros j v [-> _]%lookup_replicate.
  - intros e v He [Hv _]. lia.
  - lia.
Qed.

(** Storing the border of the next end. *)
Lemma store_lps l i p :
  length l = m → (∀ j v, l !! j = Some v → j < i → longest_border t (S j) v) → (∀ j v, l !! j = Some v → i ≤ j → v = 0) →
  (i < m → longest_border t (S i) p) →
  let l' := if i <? m then <[i := p]> l else l in
  length l' = m ∧ (∀ j v, l' !! j = Some v → j < S i → longest_border t (S j) v) ∧ (∀ j v, l' !! j = Some v → S i ≤ j → v = 0).
Proof.
  intros Hlen Hlps Hzero Hp l'. unfold l'. destruct (i <? m) eqn:E; [apply Nat.ltb_lt in E|apply Nat.ltb_ge in E].
  - split; [by rewrite length_insert|]. split; intros j v [(<- & <- & _)|[Hne Hj]]%list_lookup_insert_Some Hlt.
    + by apply Hp.
    + apply Hlps; [done|lia].
    + lia.
    + apply (Hzero j); [done|lia].
  - split; [done|]. split; intros j v Hj Hlt; [|apply (Hzero j); [done|lia]].
    apply lookup_lt_Some in Hj as Hjm. apply Hlps; [done|lia].
Qed.

(** The next item continues the border. *)
Lemma search_match s a :
  search_inv s → search_i s < n → t !! prev_lps s = Some a → t !! search_i s = Some a →
  ∃ s', search_step t m s = Ok s' ∧ search_inv s' ∧ measure s' < measure s.
Proof.
  intros [Hi [Hq Hqm] Hnext Hlen Hlps Hzero Hbest Hfound] Hin Ha Hb.
  unfold search_step, at_index, measure. rewrite Ha, Hb. cbn [mbind res_bind]. rewrite bool_decide_eq_true_2 by done.
  set (i := search_i s) in *. set (q := prev_lps s) in *.
  assert (border t (S i) (S q)) as Hq1 by (apply border_S; split; [done|congruence]).
  assert (∀ w, border t (S i) w → w ≤ m → w ≤ S q) as Hmax.
  { intros [|w] Hw Hwm; [lia|]. apply border_S in Hw as [Hw Heq]. apply le_n_S. apply Nat.nlt_ge. intros Hlt.
    by apply (Hnext w Hw); [lia|lia|]. }
  destruct (store_lps (lps s) i (S q) Hlen Hlps Hzero) as (Hl & Hl1 & Hl2).
  { intros Him. split; [done|]. intros w Hw. apply Hmax; [done|]. destruct Hw as [? _]. lia. }
  cbv zeta in Hl, Hl1, Hl2. set (l := if i <? m then _ else _) in *.
  assert (∃ next, (if S q =? m then match l !! (m - 1) with Some a => Ok a | None => Err IndexError end else Ok (S q)) = Ok next ∧
    border t (S i) next ∧ next < m ∧ next ≤ S q ∧ ∀ v, border t (S i) v → v < m → v ≤ next) as (next & -> & Hn1 & Hn2 & Hn3 & Hn4).
  { destruct (S q =? m) eqn:E; [apply Nat.eqb_eq in E|apply Nat.eqb_neq in E].
    - destruct (lookup_lt_is_Some_2 l (m - 1)) as [v Hv]; [lia|]. rewrite Hv. exists v. split; [done|].
      destruct (Hl1 _ _ Hv) as [Hbv Hlv]; [destruct Hq; lia|]. replace (S (m - 1)) with m in Hbv, Hlv by lia.
      rewrite E in Hq1. split; [by apply (border_trans t _ m)|]. destruct Hbv. split; [lia|]. split; [lia|].
      intros w Hw Hwm. apply Hlv. by apply (border_below t (S i)).
    - exists (S q). split; [done|]. split; [done|]. split; [lia|]. split; [lia|]. intros v Hv Hvm. apply Hmax; [done|lia]. }
  destruct (if longest_ngram s <=? S q then _ else _) as [longest pos] eqn:El.
  eexists. split; [reflexivity|]. split; [|cbn; lia].
  split; cbn [search_i prev_lps lps longest_ngram position].
  - lia.
  - done.
  - intros v Hv Hvm Hlt. exfalso. specialize (Hn4 v Hv Hvm). lia.
  - done.
  - done.
  - done.
  - intros e v He Hv Hvm. destruct (decide (e = S i)) as [->|].
    + specialize (Hmax v Hv Hvm). destruct (longest_ngram s <=? S q) eqn:E; simplify_eq; [lia|].
      apply Nat.leb_gt in E. lia.
    + destruct (Hbest e v) as [? Hpos]; [lia|done|done|]. destruct (longest_ngram s <=? S q) eqn:E; simplify_eq; [|auto].
      apply Nat.leb_le in E. split; [lia|]. intros _ _. lia.
  - destruct (longest_ngram s <=? S q) eqn:E; simplify_eq; [intros _; split; [done|lia]|]. intros Hpos. destruct (Hfound Hpos) as (? & ? & ?). split; [done|lia].
Qed.

(** It does not: a shorter border is tried. *)
Lemma search_fall_back s a b :
  search_inv s → search_i s < n → t !! prev_lps s = Some a → t !! search_i s = Some b → a ≠ b → prev_lps s ≠ 0 →
  ∃ s', search_step t m s = Ok s' ∧ search_inv s' ∧ measure s' < measure s.
Proof.
  intros [Hi [Hq Hqm] Hnext Hlen Hlps Hzero Hbest Hfound] Hin Ha Hb Hne Hq0.
  unfold search_step, at_index, measure. rewrite Ha, Hb. cbn [mbind res_bind]. rewrite bool_decide_eq_false_2 by done.
  rewrite (proj2 (Nat.eqb_neq _ _) Hq0). cbn [negb]. pose proof Hq as [Hqi _].
  destruct (lookup_lt_is_Some_2 (lps s) (prev_lps s - 1)) as [v Hv]; [lia|]. rewrite Hv. cbn [mbind res_bind].
  destruct (Hlps _ _ Hv) as [Hbv Hlv]; [lia|]. replace (S (prev_lps s - 1)) with (prev_lps s) in Hbv, Hlv by lia.
  pose proof Hbv as [Hvq _]. eexists. split; [reflexivity|]. split; [|cbn; lia].
  split; cbn [search_i prev_lps lps longest_ngram position]; try done.
  - split; [by apply (border_trans t _ (prev_lps s))|lia].
  - intros w Hw Hwm Hlt. destruct (Nat.lt_trichotomy w (prev_lps s)) as [Hw'|[->|Hw']].
    + specialize (Hlv w (border_below t _ _ _ Hq Hw Hw')). lia.
    + rewrite Ha, Hb. congruence.
    + by apply Hnext.
Qed.

(** It does not, and there is nothing to try: no border ends here. *)
Lemma search_skip s a b :
  search_inv s → search_i s < n → t !! prev_lps s = Some a → t !! search_i s = Some b → a ≠ b → prev_lps s = 0 →
  ∃ s', search_step t m s = Ok s' ∧ search_inv s' ∧ measure s' < measure s.
Proof.
  intros [Hi [Hq Hqm] Hnext Hlen Hlps Hzero Hbest Hfound] Hin Ha Hb Hne Hq0.
  unfold search_step, at_index, measure. rewrite Ha, Hb. cbn [mbind res_bind]. rewrite bool_decide_eq_false_2 by done.
  rewrite (proj2 (Nat.eqb_eq _ _) Hq0). cbn [negb].
  assert (∀ v, border t (S (search_i s)) v → v ≤ m → v = 0) as Hno.
  { intros [|v] Hv Hvm; [done|]. apply border_S in Hv as [Hv Heq]. exfalso. destruct v as [|v].
    - rewrite Hq0 in Ha. congruence.
    - by apply (Hnext (S v)); [done|lia|lia|]. }
  eexists. split; [reflexivity|]. split; [|cbn; lia]. split; cbn [search_i prev_lps lps longest_ngram position].
  - lia.
  - rewrite Hq0. split; [apply border_0; lia|done].
  - intros v Hv Hvm Hlt. specialize (Hno v Hv). lia.
  - done.
  - intros j v Hv Hlt. destruct (decide (j = search_i s)) as [->|]; [|apply Hlps; [done|lia]].
    rewrite (Hzero _ _ Hv) by lia. split; [apply border_0; lia|]. intros w Hw. pose proof Hw as [Hws _].
    apply lookup_lt_Some in Hv. rewrite (Hno w Hw); lia.
  - intros j v Hv Hlt. apply (Hzero j); [done|lia].
  - intros e v He Hv Hvm. destruct (decide (e = S (search_i s))) as [->|]; [|apply Hbest; [lia|done|done]].
    rewrite (Hno v Hv Hvm). lia.
  - intros Hpos. destruct (Hfound Hpos) as (? & ? & ?). split; [done|lia].
Qed.

Lemma search_step_spec s :
  search_inv s → search_i s < n → ∃ s', search_step t m s = Ok s' ∧ search_inv s' ∧ measure s' < measure s.
Proof.
  intros Hs Hin. pose proof (se_prev _ Hs) as [[Hq _] _].
  destruct (lookup_lt_is_Some_2 t (prev_lps s)) as [a Ha]; [lia|]. destruct (lookup_lt_is_Some_2 t (search_i s)) as [b Hb]; [done|].
  destruct (decide (a = b)) as [<-|]; [by apply (search_match s a)|].
  destruct (decide (prev_lps s = 0)); [by apply (search_skip s a b)|by apply (search_fall_back s a b)].
Qed.

Lemma kmp_loop_spec fuel s :
  search_inv s → measure s < fuel → ∃ s', search_loop fuel t m s = Ok s' ∧ search_inv s' ∧ n ≤ search_i s'.
Proof.
  revert s. induction fuel as [|fuel IH]; intros s Hs Hf; [lia|]. cbn [search_loop].
  destruct (search_i s <? n) eqn:E; [apply Nat.ltb_lt in E|apply Nat.ltb_ge in E; by exists s].
  destruct (search_step_spec s Hs E) as (s1 & -> & Hs1 & Hlt). cbn [mbind res_bind]. apply IH; [done|lia].
Qed.
End search.

(** ** What is proposed *)

(** The last [v] tokens occur at [p] already, before the end. *)
Definition match_at (origin : list Z) (v p : nat) : Prop :=
  p + v < length origin ∧ take v (drop p origin) = drop (length origin - v) origin.

Lemma match_at_lookup origin v p :
  match_at origin v p ↔ p + v < length origin ∧ ∀ j, j < v → origin !! (p + j) = origin !! (length origin - v + j).
Proof.
  unfold match_at. split; intros [Hlt H]; (split; [done|]).
  - intros j Hj. rewrite <-!lookup_drop, <-H. by rewrite lookup_take_lt.
  - apply list_eq. intros j. destruct (decide (j < v)) as [Hj|Hj].
    + rewrite lookup_take_lt by done. rewrite !lookup_drop. by apply H.
    + rewrite lookup_take_ge by lia. symmetry. apply lookup_ge_None. rewrite length_drop. lia.
Qed.

Lemma reverse_lookup_pos (l : list Z) i : i < length l → reverse l !! i = l !! (length l - 1 - i).
Proof. intros Hi. rewrite reverse_lookup by done. f_equal; lia. Qed.

(** Borders of the reversed tokens are matches, read backwards. *)
Lemma border_match origin e v :
  e ≤ length origin → border (reverse origin) e v ↔ v < e ∧ match_at origin v (length origin - e).
Proof.
  intros He. rewrite match_at_lookup. unfold border. split.
  - intros [Hv Hj]. split; [done|]. split; [lia|]. intros j Hlt. specialize (Hj (v - 1 - j)).
    rewrite !reverse_lookup_pos in Hj by lia. etransitivity; [|etransitivity; [symmetry; apply Hj; lia|]]; f_equal; lia.
  - intros (Hv & _ & Hj). split; [done|]. intros j Hlt. rewrite !reverse_lookup_pos by lia.
    specialize (Hj (v - 1 - j)). etransitivity; [|etransitivity; [symmetry; apply Hj; lia|]]; f_equal; lia.
Qed.

(** The best match: the longest, and of those the earliest. *)
Definition best_match (origin : list Z) (lo hi v p : nat) : Prop :=
  lo ≤ v ≤ hi ∧ match_at origin v p ∧
  ∀ v' p', lo ≤ v' ≤ hi → match_at origin v' p' → v' < v ∨ v' = v ∧ p ≤ p'.

(** The tokens proposed, by the specification. *)
Definition proposes (origin : list Z) (lo hi : nat) (room : Z) (out : list Z) : Prop :=
  (∃ v p, (0 < room)%Z ∧ best_match origin lo hi v p ∧ out = take (Z.to_nat room) (drop (p + v) origin)) ∨
  (((room ≤ 0)%Z ∨ ∀ v p, lo ≤ v ≤ hi → ¬ match_at origin v p) ∧ out = []).

Lemma proposal_spec origin lo hi mml k :
  1 ≤ lo ≤ hi →
  ∃ out, _find_longest_matched_ngram_and_propose_tokens origin lo hi mml k = Ok out ∧
    proposes origin lo hi (Z.min k (mml - Z.of_nat (length origin))) out.
Proof.
  intros [Hlo Hhi]. unfold _find_longest_matched_ngram_and_propose_tokens. set (n := length origin).
  destruct (n <? lo) eqn:En; [apply Nat.ltb_lt in En|apply Nat.ltb_ge in En].
  { exists []. split; [done|]. right. split; [|done]. right. intros v p Hv [Hlt _]. fold n in Hlt. lia. }
  set (room := Z.min k (mml - Z.of_nat n)). destruct (room <=? 0)%Z eqn:Er; [apply Z.leb_le in Er|apply Z.leb_gt in Er].
  { exists []. split; [done|]. right. auto. }
  assert (0 < hi) as Hm by lia. assert (length (reverse origin) = n) as Elen by apply length_reverse.
  destruct (kmp_loop_spec (reverse origin) hi Hm (S (2 * n)) (search_start hi)) as (s & -> & Hs & Hend).
  { by apply start_search_inv. }
  { unfold measure. rewrite Elen. cbn. lia. }
  cbn [mbind res_bind]. destruct Hs as [Hi _ _ _ _ _ Hbest Hfound]. rewrite Elen in *.
  assert (∀ v p, 1 ≤ v ≤ hi → match_at origin v p → v ≤ longest_ngram s ∧ (v = longest_ngram s → n - S (position s) ≤ p)) as Hall.
  { intros v p Hv Hp. pose proof Hp as [Hlt _]. fold n in Hlt. destruct (Hbest (n - p) v) as [H1 H2]; [lia| |lia|].
    - apply border_match; [lia|]. split; [lia|]. fold n. by replace (n - (n - p)) with p by lia.
    - split; [done|]. intros E. specialize (H2 E ltac:(lia)). lia. }
  destruct (longest_ngram s <? lo) eqn:El; [apply Nat.ltb_lt in El|apply Nat.ltb_ge in El].
  { exists []. split; [done|]. right. split; [|done]. right. intros v p Hv Hp. destruct (Hall v p) as [? _]; [lia|done|lia]. }
  destruct (Hfound ltac:(lia)) as (Hb & Hpos & Hmax). apply border_match in Hb as [Hle Hp]; [|fold n; lia]. fold n in Hp.
  eexists. split; [reflexivity|]. left. exists (longest_ngram s), (n - S (position s)). split; [done|]. split.
  - split; [lia|]. split; [done|]. intros v' p' Hv' Hp'. destruct (Hall v' p') as [H1 H2]; [lia|done|].
    destruct (decide (v' = longest_ngram s)); [right; auto|left; lia].
  - pose proof Hp as [Hlt _]. fold n in Hlt.
    replace (n - 1 - position s + longest_ngram s) with (n - S (position s) + longest_ngram s) by lia.
    set (d := drop _ origin). assert (length d = n - (n - S (position s) + longest_ngram s)) as Ed by (unfold d; by rewrite length_drop).
    rewrite <-Ed. destruct (Nat.le_gt_cases (Z.to_nat room) (length d)); [by rewrite Nat.min_l|].
    rewrite Nat.min_r by lia. by rewrite !take_ge by lia.
Qed.

Lemma proposal_length origin lo hi room out : proposes origin lo hi room out → (Z.of_nat (length out) ≤ Z.max 0 room)%Z.
Proof.
  intros [(v & p & Hr & _ & ->)|[_ ->]]; [|cbn; lia]. rewrite length_take. lia.
Qed.

(** ** A batch *)

Section batch.
Context (p0 : NgramProposer) (Hn : 1 ≤ min_n p0 ≤ max_n p0).
Context (nums : list nat) (tokens : list (list Z)) (max_num_seqs : nat).

(** The buffers as allocated, and the settings they belong to. *)
Record buffers_ok (p : NgramProposer) : Prop := {
  bf_min : min_n p = min_n p0;
  bf_max : max_n p = max_n p0;
  bf_k : num_drafts_k p = num_drafts_k p0;
  bf_mml : ngram_max_model_len p = ngram_max_model_len p0;
  bf_rows : length (valid_ngram_draft p) = max_num_seqs;
  bf_width : Forall (λ row, length row = num_drafts_k p0) (valid_ngram_draft p);
  bf_nums : length (valid_ngram_num_drafts p) = max_num_seqs
}.

(** The draft of a row. *)
Definition draft_of (i : nat) (out : list Z) : Prop :=
  ∃ num row, nums !! i = Some num ∧ tokens !! i = Some row ∧
    proposes (take num row) (min_n p0) (max_n p0)
      (Z.min (Z.of_nat (num_drafts_k p0)) (ngram_max_model_len p0 - Z.of_nat (length (take num row)))) out.

(** The rows of the batch are there. *)
Definition row_given (i : nat) : Prop := i < max_num_seqs ∧ is_Some (nums !! i) ∧ is_Some (tokens !! i).

Definition stored (p : NgramProposer) (i : nat) : Prop :=
  ∃ out row, draft_of i out ∧ valid_ngram_num_drafts p !! i = Some (length out) ∧ valid_ngram_draft p !! i = Some row ∧
    take (length out) row = out.

Lemma propose_row_spec p i :
  buffers_ok p → row_given i →
  wp (propose_row nums tokens i) (λ _ p', buffers_ok p' ∧ stored p' i ∧ ∀ j, j ≠ i → stored p j → stored p' j) no_exn p.
Proof.
  intros Hp (Hi & [num Hnum] & [row Hrow]). pose proof Hp as [E1 E2 E3 E4 Hr Hw Hl]. unfold propose_row, at_index.
  do 3 wp_step. rewrite Hnum. apply wp_lift_res; [|done]. intros ? [= <-].
  wp_step. rewrite Hrow. apply wp_lift_res; [|done]. intros ? [= <-]. cbn beta. unfold Datatypes.id. rewrite E1, E2, E3, E4.
  destruct (proposal_spec (take num row) (min_n p0) (max_n p0) (ngram_max_model_len p0) (Z.of_nat (num_drafts_k p0)) Hn) as (out & Eo & Hout).
  wp_step. rewrite Eo. apply wp_lift_res; [|done]. intros ? [= <-].
  destruct (lookup_lt_is_Some_2 (valid_ngram_draft p) i) as [old Hold]; [lia|].
  assert (length old = num_drafts_k p0) as Hlold by (exact (Forall_lookup_1 _ _ _ _ Hw Hold)).
  assert (draft_of i out) as Hd by (by exists num, row).
  pose proof (proposal_length _ _ _ _ _ Hout) as Hlen.
  wp_step. wp_step. cbn [set_drafts]. wp_step; [apply bool_decide_eq_true in Hif|apply bool_decide_eq_false in Hif].
  - subst out. wp_step. split; [|split].
    + split; try done. cbn. by rewrite length_insert.
    + exists [], old. split; [done|]. cbn. split; [apply list_lookup_insert_eq; lia|done].
    + intros j Hj (o & r & H1 & H2 & H3). exists o, r. split; [done|]. cbn. by rewrite list_lookup_insert_ne.
  - wp_step. rewrite Hold. apply wp_lift_res; [|done]. intros ? [= <-].
    wp_step; [apply Nat.ltb_lt in Hif0; lia|]. wp_step. split; [|split].
    + split; try done; cbn; rewrite ?length_insert; try done. apply Forall_insert; [done|].
      rewrite length_app, length_drop. lia.
    + exists out, (out ++ drop (length out) old). split; [done|]. cbn. rewrite !list_lookup_insert_eq by lia.
      split; [done|]. split; [done|]. by rewrite take_app_length.
    + intros j Hj (o & r & H1 & H2 & H3). exists o, r. split; [done|]. cbn. by rewrite !list_lookup_insert_ne.
Qed.

Lemma batch_propose_spec p num valid :
  buffers_ok p → Forall row_given valid →
  wp (batch_propose num valid nums tokens) (λ outs p', buffers_ok p' ∧ length outs = num ∧
    ∀ i out, outs !! i = Some out → if decide (i ∈ valid) then draft_of i out else out = []) no_exn p.
Proof.
  intros Hp Hv. unfold batch_propose. wp_step.
  assert (wp (if bool_decide (valid = []) then mret tt else batch_propose_numba valid nums tokens)
    (λ _ p', buffers_ok p' ∧ ∀ i, i ∈ valid → stored p' i) no_exn p) as Hrows.
  { wp_step; [apply bool_decide_eq_true in Hif as ->; wp_step; split; [done|]; intros i Hi; by apply elem_of_nil in Hi|].
    unfold batch_propose_numba.
    eapply wp_mono; [apply (wp_for_each valid _ (λ dn p', buffers_ok p' ∧ ∀ i, i ∈ dn → stored p' i) no_exn)| |done].
    - intros dn i rest p' -> [Hp' Hdn]. eapply wp_mono; [apply propose_row_spec; [done|]| |done].
      { rewrite Forall_forall in Hv. apply Hv, elem_of_app. right. left. }
      intros [] p'' (Hp'' & Hsi & Hkeep). split; [done|]. intros j [Hj| ->%list_elem_of_singleton]%elem_of_app; [|done].
      destruct (decide (j = i)) as [->|]; [done|]. by apply Hkeep, Hdn.
    - split; [done|]. intros i Hi. by apply elem_of_nil in Hi.
    - by intros [] p' ?. }
  eapply wp_mono; [exact Hrows| |done]. intros [] p' [Hp' Hst]. wp_step. wp_step. unfold Datatypes.id.
  assert (∃ outs, map_res (λ i, if bool_decide (i ∈ valid) then
      n ← at_index (valid_ngram_num_drafts p') i;
      if 0 <? n then d ← at_index (valid_ngram_draft p') i; Ok (take n d) else Ok [] else Ok []) (seq 0 num) = Ok outs) as [outs Eo].
  { clear -Hst. generalize (seq 0 num) as l. induction l as [|i l [outs IH]]; [by exists []|]. cbn [map_res].
    rewrite IH. destruct (decide (i ∈ valid)) as [Hi|]; [rewrite bool_decide_eq_true_2 by done|rewrite bool_decide_eq_false_2 by done; by eexists].
    destruct (Hst i Hi) as (out & row & _ & H1 & H2 & _). unfold at_index. rewrite H1, H2. cbn. destruct (length out); cbn; by eexists. }
  rewrite Eo. apply wp_lift_res; [|done]. intros ? [= <-]. split; [done|]. apply map_res_ok in Eo.
  apply Forall2_length in Eo as Hlen. rewrite length_seq in Hlen. split; [done|].
  intros i out Hi. destruct (Forall2_lookup_r _ _ _ _ _ Eo Hi) as (i' & Hi' & E). apply lookup_seq in Hi' as [-> _]. cbn in E.
  destruct (decide (i ∈ valid)) as [Hin|Hin]; [rewrite bool_decide_eq_true_2 in E by done|rewrite bool_decide_eq_false_2 in E by done; by apply Ok_inj in E].
  destruct (Hst i Hin) as (o & row & Hd & H1 & H2 & H3). unfold at_index in E. rewrite H1, H2 in E. cbn in E.
  destruct o as [|z o]; cbn in E; apply Ok_inj in E; [by subst|]. cbn in H3. rewrite H3 in E. by subst.
Qed.

(** Which requests get a draft: those that have sampled and have room. *)
Definition wants_draft (sampled : list (list Z)) (i : nat) : Prop :=
  ∃ ids num, sampled !! i = Some ids ∧ ids ≠ [] ∧ nums !! i = Some num ∧ (Z.of_nat num < ngram_max_model_len p0)%Z.

Lemma valid_requests_spec sampled p :
  buffers_ok p → (∀ i, i < length sampled → row_given i) →
  wp (fold_each (zip (seq 0 (length sampled)) sampled) [] (λ valid '(i, ids),
        if bool_decide (ids = []) then mret valid
        else
          num_tokens ← lift_res (at_index nums i);
          if (ngram_max_model_len p <=? Z.of_nat num_tokens)%Z then mret valid else mret (valid ++ [i])))
    (λ valid p', p' = p ∧ ∀ i, i ∈ valid ↔ wants_draft sampled i) no_exn p.
Proof.
  intros Hp Hrows. set (l := zip _ _).
  assert (∀ i ids, l !! i = Some (i, ids) ↔ sampled !! i = Some ids) as Hl.
  { intros i ids. unfold l. rewrite lookup_zip_with_Some. split.
    - intros (i' & ids' & [= <- <-] & _ & ?). done.
    - intros Hi. exists i, ids. split; [done|]. split; [|done]. apply lookup_seq. split; [lia|]. by apply lookup_lt_Some in Hi. }
  eapply wp_mono; [apply (wp_fold_each l _ _ (λ dn valid p', p' = p ∧ ∀ i, i ∈ valid ↔ i < length dn ∧ wants_draft sampled i) no_exn)| |done].
  - intros dn [i ids] rest valid p' E [-> Hv].
    assert (i = length dn ∧ sampled !! i = Some ids) as [-> Hids].
    { assert (l !! length dn = Some (i, ids)) as Hi by (rewrite E; by rewrite list_lookup_middle).
      pose proof Hi as Hi'. unfold l in Hi'. apply lookup_zip_with_Some in Hi' as (? & ? & [= <- <-] & Hs & ?).
      apply lookup_seq in Hs as [-> _]. done. }
    assert (∀ j, j < length (dn ++ [(length dn, ids)]) ↔ j < length dn ∨ j = length dn) as Hdn by (intros j; rewrite length_app; cbn; lia).
    destruct (Hrows (length dn)) as (_ & [num Hnum] & _); [by apply lookup_lt_Some in Hids|].
    assert (wants_draft sampled (length dn) ↔ ids ≠ [] ∧ (Z.of_nat num < ngram_max_model_len p0)%Z) as Hw.
    { unfold wants_draft. rewrite Hids, Hnum. naive_solver. }
    wp_step; [apply bool_decide_eq_true in Hif|apply bool_decide_eq_false in Hif].
    + wp_step. split; [done|]. intros j. rewrite Hdn, Hv. naive_solver lia.
    + wp_step. unfold at_index. rewrite Hnum. apply wp_lift_res; [|done]. intros ? [= <-]. rewrite (bf_mml _ Hp).
      wp_step; wp_step; (split; [done|]); intros j; rewrite Hdn, ?elem_of_app, ?list_elem_of_singleton, Hv.
      * apply Z.leb_le in Hif0. naive_solver lia.
      * apply Z.leb_gt in Hif0. naive_solver lia.
  - split; [done|]. intros i. rewrite elem_of_nil. cbn. lia.
  - intros valid p' [-> Hv]. split; [done|]. intros i. rewrite Hv. split; [tauto|]. intros Hw. split; [|done].
    destruct Hw as (ids & num & Hi & _). apply Hl in Hi. by apply lookup_lt_Some in Hi.
Qed.

Lemma propose_spec sampled p :
  buffers_ok p → (∀ i, i < length sampled → row_given i) →
  wp (propose sampled nums tokens) (λ outs p', buffers_ok p' ∧ length outs = length sampled ∧
    ∀ i out, outs !! i = Some out → wants_draft sampled i ∧ draft_of i out ∨ ¬ wants_draft sampled i ∧ out = []) no_exn p.
Proof.
  intros Hp Hrows. unfold propose. wp_step. wp_step. unfold Datatypes.id. wp_step.
  eapply wp_mono; [by apply valid_requests_spec| |done]. intros valid p' [-> Hv].
  eapply wp_mono; [apply (batch_propose_spec p (length sampled) valid Hp)| |done].
  - apply Forall_forall. intros i (ids & num & Hi & _)%Hv. apply Hrows. by apply lookup_lt_Some in Hi.
  - intros outs p' (Hp' & Hlen & Houts). split; [done|]. split; [done|]. intros i out Hi. specialize (Houts i out Hi).
    destruct (decide (i ∈ valid)) as [Hin|Hin]; rewrite Hv in Hin; auto.
Qed.
End batch.

(** C33: [propose] returns a list for each request of the batch, whatever earlier
    batches left in the buffers and with no access out of range.  A request gets drafts
    exactly if it has sampled tokens and is shorter than the model length; they are what
    follows the best match of its last tokens: of all occurrences before the end of a
    suffix with between [min_n] and [max_n] tokens the longest, among those the
    earliest; at most [k] tokens, not beyond the model length, none without a match. *)
Theorem propose_correct lo hi k mml max_num_seqs p nums tokens sampled :
  1 ≤ lo ≤ hi → buffers_ok (NgramProposer_init lo hi k mml max_num_seqs) max_num_seqs p →
  (∀ i, i < length sampled → row_given nums tokens max_num_seqs i) →
  ∃ outs p', propose sampled nums tokens p = (Ok outs, p') ∧
    buffers_ok (NgramProposer_init lo hi k mml max_num_seqs) max_num_seqs p' ∧ length outs = length sampled ∧
    ∀ i out, outs !! i = Some out →
      (¬ wants_draft (NgramProposer_init lo hi k mml max_num_seqs) nums sampled i ∧ out = []) ∨
      (wants_draft (NgramProposer_init lo hi k mml max_num_seqs) nums sampled i ∧
       ∃ num row, nums !! i = Some num ∧ tokens !! i = Some row ∧
         proposes (take num row) lo hi (Z.min (Z.of_nat k) (mml - Z.of_nat (length (take num row)))) out ∧
         length out ≤ k ∧ (Z.of_nat (length (take num row)) + Z.of_nat (length out) ≤ Z.max (Z.of_nat (length (take num row))) mml)%Z).
Proof.
  intros Hn Hp Hrows. set (p0 := NgramProposer_init lo hi k mml max_num_seqs) in *.
  destruct (wp_no_exn_run _ _ _ (propose_spec p0 Hn nums tokens max_num_seqs sampled p Hp Hrows)) as (outs & p' & E & Hp' & Hlen & Houts).
  exists outs, p'. do 3 (split; [done|]). intros i out Hi. destruct (Houts i out Hi) as [[Hw (num & row & H1 & H2 & H3)]|[Hw ->]]; [|by left].
  right. split; [done|]. exists num, row. do 3 (split; [done|]). pose proof (proposal_length _ _ _ _ _ H3) as Hl.
  unfold p0 in Hl. cbn in Hl. lia.
Qed.

Lemma propose_correct_witness :
  ∃ outs p', propose [[4]; []; [9]]%Z [7; 3; 4] [[1; 2; 3; 4; 1; 2; 3; 0]; [5; 5; 5; 0; 0; 0; 0; 0]; [1; 2; 3; 4; 0; 0; 0; 0]]%Z
      (NgramProposer_init 1 3 2 64 4) = (Ok outs, p') ∧ outs = [[4; 1]; []; []]%Z.
Proof.
  destruct (propose_correct 1 3 2 64 4 (NgramProposer_init 1 3 2 64 4) [7; 3; 4]
    [[1; 2; 3; 4; 1; 2; 3; 0]; [5; 5; 5; 0; 0; 0; 0; 0]; [1; 2; 3; 4; 0; 0; 0; 0]]%Z [[4]; []; [9]]%Z) as (outs & p' & E & _).
  - lia.
  - split; try done. repeat constructor.
  - intros i Hi. cbn in Hi. destruct i as [|[|[|i]]]; [..|lia]; (split; [lia|split; by eexists]).
  - exists outs, p'. split; [exact E|]. vm_compute in E. by injection E as <- _.
Defined.
