(* ===== verification/OffloadPolicy.v ===== *)
(** * Replacement policies of the CPU offload cache

    [vllm/v1/kv_offload/cpu/policies]: [BlockStatus], the interface [CachePolicy] and
    its implementations by recency ([lru.py]) and by adaptive replacement ([arc.py]).
    The class [CachePolicy] has the operations; [CachePolicyLaws] is what either
    implementation promises to the manager of OffloadManager.v.  A block status is
    reached through its policy only, so its mutation is an operation of the policy. *)

From stdpp Require Import base list gmap.
From Stdlib Require Import ZArith Lia Floats.SpecFloat.
From S2P Require Import Prelude FreeQueue.
Local Open Scope Z_scope.

(** ** Python numbers

    The adaptive target is a float or an int: [min] and [max] return one of their
    arguments.  Floats are IEEE 754 doubles. *)

Inductive number := PyInt (z : Z) | PyFloat (f : spec_float).

(** [float(z)] *)
Definition float_of_Z (z : Z) : res spec_float :=
  match binary_normalize 53 1024 z 0 false with
  | S754_infinity _ => Err OverflowError
  | f => Ok f
  end.
Definition to_float (x : number) : res spec_float := match x with PyInt z => float_of_Z z | PyFloat f => Ok f end.

Definition num_add (x y : number) : res number :=
  match x, y with
  | PyInt a, PyInt b => Ok (PyInt (a + b))
  | _, _ => a ← to_float x; b ← to_float y; Ok (PyFloat (SFadd 53 1024 a b))
  end.
Definition num_sub (x y : number) : res number :=
  match x, y with
  | PyInt a, PyInt b => Ok (PyInt (a - b))
  | _, _ => a ← to_float x; b ← to_float y; Ok (PyFloat (SFsub 53 1024 a b))
  end.
(** [a / b] of ints that a double represents exactly. *)
Definition int_truediv (a b : Z) : res number :=
  if bool_decide (b = 0) then Err ZeroDivisionError
  else x ← float_of_Z a; y ← float_of_Z b; Ok (PyFloat (SFdiv 53 1024 x y)).

(** Comparison is exact, also of an int with a float. *)
Definition float_ltb_Z (f : spec_float) (z : Z) : bool :=
  match f with
  | S754_zero _ => 0 <? z
  | S754_infinity s => s
  | S754_nan => false
  | S754_finite s m e =>
      let v := if s then Zneg m else Zpos m in
      if 0 <=? e then Z.shiftl v e <? z else v <? Z.shiftl z (- e)
  end.
Definition Z_ltb_float (z : Z) (f : spec_float) : bool :=
  match f with
  | S754_zero _ => z <? 0
  | S754_infinity s => negb s
  | S754_nan => false
  | S754_finite s m e =>
      let v := if s then Zneg m else Zpos m in
      if 0 <=? e then z <? Z.shiftl v e else Z.shiftl z (- e) <? v
  end.
Definition num_ltb (x y : number) : bool :=
  match x, y with
  | PyInt a, PyInt b => a <? b
  | PyInt a, PyFloat g => Z_ltb_float a g
  | PyFloat f, PyInt b => float_ltb_Z f b
  | PyFloat f, PyFloat g => SFltb f g
  end.
Definition num_min (x y : number) : number := if num_ltb y x then y else x.
Definition num_max (x y : number) : number := if num_ltb x y then y else x.

(** [int(x)] truncates. *)
Definition num_int (x : number) : res Z :=
  match x with
  | PyInt z => Ok z
  | PyFloat (S754_zero _) => Ok 0
  | PyFloat (S754_infinity _) => Err OverflowError
  | PyFloat S754_nan => Err ValueError
  | PyFloat (S754_finite s m e) =>
      let v := if 0 <=? e then Z.shiftl (Zpos m) e else Z.shiftr (Zpos m) (- e) in
      Ok (if s then - v else v)
  end.

(** ** Block status *)

(** The fields are C integers. *)
Definition wrap32 (z : Z) : Z := (z + 2 ^ 31) mod 2 ^ 32 - 2 ^ 31.
Definition wrap64 (z : Z) : Z := (z + 2 ^ 63) mod 2 ^ 64 - 2 ^ 63.

Record BlockStatus := mkBlockStatus { bs_ref_cnt : Z; bs_block_id : Z }.
Definition BlockStatus_init (block_id : Z) : BlockStatus := mkBlockStatus (-1) (wrap64 block_id).
Definition set_bs_ref_cnt (n : Z) (b : BlockStatus) : BlockStatus := mkBlockStatus (wrap32 n) (bs_block_id b).
Definition is_ready (b : BlockStatus) : bool := 0 <=? bs_ref_cnt b.

(** ** The interface *)

Abbreviation entry := (BlockHash * BlockStatus)%type.

Class CachePolicy (P : Type) := {
  cp_init : Z → P;
  cp_get : BlockHash → P → option BlockStatus;
  cp_insert : BlockHash → BlockStatus → P → P;
  cp_remove : BlockHash → M P unit;
  cp_touch : list BlockHash → M P unit;
  cp_evict : Z → gset BlockHash → M P (option (list entry));
  cp_alter : BlockHash → (BlockStatus → BlockStatus) → P → P
}.

Definition alter_entry (h : BlockHash) (f : BlockStatus → BlockStatus) (d : list entry) : list entry :=
  (λ '(k, b), (k, if decide (k = h) then f b else b)) <$> d.

(** [cp_all]: the blocks a policy holds, in some order. *)
Class CachePolicyLaws (P : Type) `{CachePolicy P} (cp_ok : P → Prop) (cp_all : P → list entry) := {
  law_init n : cp_ok (cp_init n) ∧ cp_all (cp_init n) = [];
  law_nodup p : cp_ok p → NoDup (cp_all p).*1;
  law_get h p : cp_ok p → cp_get h p = dict_get (cp_all p) h;
  law_insert h b p : cp_ok p → h ∉ (cp_all p).*1 →
    cp_ok (cp_insert h b p) ∧ cp_all (cp_insert h b p) ≡ₚ (h, b) :: cp_all p;
  law_remove h b p : cp_ok p → (h, b) ∈ cp_all p →
    ∃ p', cp_remove h p = (Ok tt, p') ∧ cp_ok p' ∧ cp_all p ≡ₚ (h, b) :: cp_all p';
  law_touch hs p : cp_ok p →
    wp (cp_touch hs) (λ _ p', cp_ok p' ∧ cp_all p' ≡ₚ cp_all p) (λ _ p', cp_ok p' ∧ cp_all p' ≡ₚ cp_all p) p;
  law_evict n prot p : cp_ok p → 0 < n →
    wp (cp_evict n prot) (λ o p', match o with
      | None => p' = p
      | Some ev => Z.of_nat (length ev) = n ∧ cp_ok p' ∧ cp_all p ≡ₚ ev ++ cp_all p' ∧
          ∀ h b, (h, b) ∈ ev → bs_ref_cnt b = 0 ∧ h ∉ prot
      end) (λ _ p', p' = p) p;
  law_alter h f p : cp_ok p → cp_ok (cp_alter h f p) ∧ cp_all (cp_alter h f p) = alter_entry h f (cp_all p)
}.

(** ** Ordered dicts *)

Section ordered.
Context {V : Type}.

Definition move_to_end (d : list (BlockHash * V)) (h : BlockHash) : list (BlockHash * V) :=
  match dict_get d h with Some v => dict_del d h ++ [(h, v)] | None => d end.
End ordered.

(** May be evicted: nobody reads or writes it, and it is not asked for. *)
Definition evictable (protected : gset BlockHash) (e : entry) : bool :=
  bool_decide (bs_ref_cnt e.2 = 0) && bool_decide (e.1 ∉ protected).

(** ** Least recently used *)

Record LRUCachePolicy := mkLRU { lru_blocks : list entry }.

(** The loop over the blocks, oldest first, with its [break]. *)
Fixpoint lru_candidates (n : Z) (protected : gset BlockHash) (l candidates : list entry) : list entry :=
  match l with
  | [] => candidates
  | e :: rest =>
      if evictable protected e then
        let candidates := candidates ++ [e] in
        if bool_decide (Z.of_nat (length candidates) = n) then candidates else lru_candidates n protected rest candidates
      else lru_candidates n protected rest candidates
  end.

Definition lru_remove (h : BlockHash) : M LRUCachePolicy unit :=
  d ← gets lru_blocks;
  match dict_get d h with
  | Some _ => modify (λ _, mkLRU (dict_del d h))
  | None => raise KeyError
  end.

Definition lru_evict (n : Z) (protected : gset BlockHash) : M LRUCachePolicy (option (list entry)) :=
  if bool_decide (n = 0) then mret (Some [])
  else
    candidates ← gets (λ p, lru_candidates n protected (lru_blocks p) []);
    if Z.of_nat (length candidates) <? n then mret None
    else for_each candidates (λ '(h, _), lru_remove h) ;; mret (Some candidates).

#[export] Instance lru_policy : CachePolicy LRUCachePolicy := {|
  cp_init _ := mkLRU [];
  cp_get h p := dict_get (lru_blocks p) h;
  cp_insert h b p := mkLRU (dict_set (lru_blocks p) h b);
  cp_remove := lru_remove;
  cp_touch hs := for_each (reverse hs) (λ h, modify (λ p, mkLRU (move_to_end (lru_blocks p) h)));
  cp_evict := lru_evict;
  cp_alter h f p := mkLRU (alter_entry h f (lru_blocks p))
|}.

(** ** Adaptive replacement *)

Record ARCCachePolicy := mkARC {
  cache_capacity : Z;
  target_t1_size : number;
  t1 : list entry;
  t2 : list entry;
  b1 : list (BlockHash * unit);
  b2 : list (BlockHash * unit)
}.
Definition set_t1 (v : list entry) (p : ARCCachePolicy) : ARCCachePolicy :=
  mkARC (cache_capacity p) (target_t1_size p) v (t2 p) (b1 p) (b2 p).
Definition set_t2 (v : list entry) (p : ARCCachePolicy) : ARCCachePolicy :=
  mkARC (cache_capacity p) (target_t1_size p) (t1 p) v (b1 p) (b2 p).
Definition set_b1 (v : list (BlockHash * unit)) (p : ARCCachePolicy) : ARCCachePolicy :=
  mkARC (cache_capacity p) (target_t1_size p) (t1 p) (t2 p) v (b2 p).
Definition set_b2 (v : list (BlockHash * unit)) (p : ARCCachePolicy) : ARCCachePolicy :=
  mkARC (cache_capacity p) (target_t1_size p) (t1 p) (t2 p) (b1 p) v.
Definition set_target (v : number) (p : ARCCachePolicy) : ARCCachePolicy :=
  mkARC (cache_capacity p) v (t1 p) (t2 p) (b1 p) (b2 p).

Definition len {A} (l : list A) : Z := Z.of_nat (length l).

(** One turn of [touch]. *)
Definition arc_touch_one (h : BlockHash) : M ARCCachePolicy unit :=
  p ← gets id;
  match dict_get (t1 p) h, dict_get (t2 p) h, dict_get (b1 p) h, dict_get (b2 p) h with
  | Some block, _, _, _ =>
      modify (set_t1 (dict_del (t1 p) h)) ;;
      if negb (is_ready block) then modify (λ p, set_t1 (dict_set (t1 p) h block) p)
      else modify (λ p, set_t2 (dict_set (t2 p) h block) p)
  | None, Some _, _, _ => modify (set_t2 (move_to_end (t2 p) h))
  | None, None, Some _, _ =>
      q ← lift_res (int_truediv (len (b2 p)) (len (b1 p)));
      x ← lift_res (num_add (target_t1_size p) (num_max (PyInt 1) q));
      modify (set_target (num_min x (PyInt (cache_capacity p)))) ;;
      modify (set_b1 (move_to_end (b1 p) h))
  | None, None, None, Some _ =>
      q ← lift_res (int_truediv (len (b1 p)) (len (b2 p)));
      x ← lift_res (num_sub (target_t1_size p) (num_max (PyInt 1) q));
      modify (set_target (num_max x (PyInt 0))) ;;
      modify (set_b2 (move_to_end (b2 p) h))
  | None, None, None, None => mret tt
  end.

(** The first candidate of a list that has not been selected already. *)
Definition arc_candidate (protected : gset BlockHash) (selected : list BlockHash) (l : list entry) : option entry :=
  snd <$> list_find (λ e, evictable protected e = true ∧ e.1 ∉ selected) l.

(** [n] candidates, each with whether it is from [t1]; [None]: there are not enough. *)
Fixpoint arc_select (n : nat) (p : ARCCachePolicy) (protected : gset BlockHash) (virtual_t1_size : Z)
    (candidates : list (entry * bool)) : res (option (list (entry * bool))) :=
  match n with
  | O => Ok (Some candidates)
  | S n =>
      let selected := candidates.*1.*1 in
      t ← num_int (target_t1_size p);
      match (if t <=? virtual_t1_size then arc_candidate protected selected (t1 p) else None) with
      | Some e => arc_select n p protected (virtual_t1_size - 1) (candidates ++ [(e, true)])
      | None =>
          match arc_candidate protected selected (t2 p) with
          | Some e => arc_select n p protected virtual_t1_size (candidates ++ [(e, false)])
          | None => Ok None
          end
      end
  end.

Definition arc_evict_one (c : entry * bool) : M ARCCachePolicy unit :=
  let '((h, _), from_t1) := c in
  p ← gets id;
  if (from_t1 : bool) then
    match dict_get (t1 p) h with
    | Some _ => modify (set_t1 (dict_del (t1 p) h)) ;; modify (λ p, set_b1 (dict_set (b1 p) h tt) p)
    | None => raise KeyError
    end
  else
    match dict_get (t2 p) h with
    | Some _ => modify (set_t2 (dict_del (t2 p) h)) ;; modify (λ p, set_b2 (dict_set (b2 p) h tt) p)
    | None => raise KeyError
    end.

Definition arc_evict (n : Z) (protected : gset BlockHash) : M ARCCachePolicy (option (list entry)) :=
  if bool_decide (n = 0) then mret (Some [])
  else
    p ← gets id;
    selected ← lift_res (arc_select (Z.to_nat n) p protected (len (t1 p)) []);
    match selected with
    | None => mret None
    | Some candidates =>
        for_each candidates arc_evict_one ;;
        modify (λ p, set_b1 (drop (Z.to_nat (len (b1 p) - cache_capacity p)) (b1 p)) p) ;;
        modify (λ p, set_b2 (drop (Z.to_nat (len (b2 p) - cache_capacity p)) (b2 p)) p) ;;
        mret (Some candidates.*1)
    end.

#[export] Instance arc_policy : CachePolicy ARCCachePolicy := {|
  cp_init n := mkARC n (PyFloat (S754_zero false)) [] [] [] [];
  cp_get h p := match dict_get (t1 p) h with Some b => Some b | None => dict_get (t2 p) h end;
  cp_insert h b p := set_b2 (dict_del (b2 p) h) (set_b1 (dict_del (b1 p) h) (set_t1 (dict_set (t1 p) h b) p));
  cp_remove h :=
    p ← gets id;
    match dict_get (t1 p) h with
    | Some _ => modify (set_t1 (dict_del (t1 p) h))
    | None => modify (set_t2 (dict_del (t2 p) h))
    end;
  cp_touch hs := for_each (reverse hs) arc_touch_one;
  cp_evict := arc_evict;
  cp_alter h f p := set_t2 (alter_entry h f (t2 p)) (set_t1 (alter_entry h f (t1 p)) p)
|}.

(** ** What both policies need *)

Lemma move_to_end_perm {V} (d : list (BlockHash * V)) h : move_to_end d h ≡ₚ d.
Proof.
  unfold move_to_end. destruct (dict_get d h) as [v|] eqn:E; [|done]. rewrite (dict_del_perm d h v E) at 2.
  by rewrite Permutation_app_comm.
Qed.

Lemma alter_entry_keys h f d : (alter_entry h f d).*1 = d.*1.
Proof. unfold alter_entry. rewrite <-list_fmap_compose. apply list_fmap_ext. by intros i [k b] _. Qed.

Lemma alter_entry_app h f d d' : alter_entry h f (d ++ d') = alter_entry h f d ++ alter_entry h f d'.
Proof. apply fmap_app. Qed.

Lemma keys_perm {V} (d d' : list (BlockHash * V)) : d ≡ₚ d' → d.*1 ≡ₚ d'.*1.
Proof. by intros ->. Qed.

Lemma elem_keys {V} (d : list (BlockHash * V)) h v : (h, v) ∈ d → h ∈ d.*1.
Proof. intros Hin. apply list_elem_of_fmap. by exists (h, v). Qed.

Lemma sublist_fmap {A B} (f : A → B) (l k : list A) : l `sublist_of` k → f <$> l `sublist_of` f <$> k.
Proof. induction 1; cbn; by constructor. Qed.

(** A key has one value. *)
Lemma key_value {V} (d : list (BlockHash * V)) h v w : NoDup d.*1 → (h, v) ∈ d → (h, w) ∈ d → v = w.
Proof. intros Hd Hv Hw. apply dict_get_elem in Hv, Hw; [congruence|done..]. Qed.

(** Taking the entries of [ev] one by one. *)
Lemma next_of_rest {V} (d dn rest d' : list (BlockHash * V)) h v :
  NoDup d.*1 → d ≡ₚ dn ++ d' → (dn ++ (h, v) :: rest).*1 ⊆ d.*1 → NoDup (dn ++ (h, v) :: rest).*1 → (h, v) ∈ d →
  dict_get d' h = Some v ∧ d ≡ₚ (dn ++ [(h, v)]) ++ dict_del d' h.
Proof.
  intros Hd Hp Hsub Hnd Hin. assert (NoDup d'.*1) as Hd'.
  { rewrite (keys_perm _ _ Hp), fmap_app in Hd. by apply NoDup_app in Hd as (_ & _ & ?). }
  assert ((h, v) ∈ d') as Hin'.
  { rewrite Hp, elem_of_app in Hin. destruct Hin as [Hin|]; [|done]. exfalso. rewrite fmap_app in Hnd. cbn in Hnd.
    apply NoDup_app in Hnd as (_ & Hdis & _). apply (Hdis h); [by apply (elem_keys _ _ v)|left]. }
  apply (dict_get_elem _ _ _ Hd') in Hin' as Hget. split; [done|]. rewrite Hp, <-app_assoc. f_equiv. by apply dict_del_perm.
Qed.

(** ** Least recently used *)

Lemma lru_candidates_spec n prot l acc :
  Z.of_nat (length acc) < n →
  lru_candidates n prot l acc = acc ++ take (Z.to_nat n - length acc) (filter (λ e, evictable prot e = true) l).
Proof.
  revert acc. induction l as [|e l IH]; intros acc Hlt; cbn [lru_candidates].
  { rewrite filter_nil, take_nil. by rewrite app_nil_r. }
  rewrite filter_cons. destruct (evictable prot e) eqn:E; [rewrite decide_True by done|rewrite decide_False by done; by apply IH].
  rewrite length_app. cbn [length].
  destruct (decide (Z.of_nat (length acc + 1) = n)) as [Hn|Hn].
  - rewrite bool_decide_eq_true_2 by done. replace (Z.to_nat n - length acc)%nat with 1%nat by lia. done.
  - rewrite bool_decide_eq_false_2 by done. rewrite IH by (rewrite length_app; cbn; lia). rewrite <-app_assoc. f_equal.
    rewrite length_app. cbn [length]. replace (Z.to_nat n - length acc)%nat with (S (Z.to_nat n - (length acc + 1))) by lia. done.
Qed.

Definition lru_ok (p : LRUCachePolicy) : Prop := NoDup (lru_blocks p).*1.

(** Eviction is by age: exactly the [n] oldest blocks that may go, and it is refused only
    if there are not that many. *)
Lemma lru_evict_spec n prot p :
  lru_ok p → 0 < n →
  let old := filter (λ e, evictable prot e = true) (lru_blocks p) in
  if Z.of_nat (length old) <? n then lru_evict n prot p = (Ok None, p)
  else ∃ p', lru_evict n prot p = (Ok (Some (take (Z.to_nat n) old)), p') ∧ lru_ok p' ∧
    lru_blocks p ≡ₚ take (Z.to_nat n) old ++ lru_blocks p'.
Proof.
  intros Hp Hn old.
  assert (lru_candidates n prot (lru_blocks p) [] = take (Z.to_nat n) old) as Ec.
  { rewrite lru_candidates_spec by done. cbn. by rewrite Nat.sub_0_r. }
  unfold lru_evict. rewrite bool_decide_eq_false_2 by lia. unfold gets, mbind, M_bind. rewrite Ec.
  destruct (Z.of_nat (length old) <? n) eqn:E; [apply Z.ltb_lt in E|apply Z.ltb_ge in E].
  { rewrite (proj2 (Z.ltb_lt _ _)) by (rewrite length_take; lia). done. }
  rewrite (proj2 (Z.ltb_ge _ _)) by (rewrite length_take; lia).
  set (cs := take (Z.to_nat n) old).
  assert (cs `sublist_of` lru_blocks p) as Hsub.
  { transitivity old; [apply sublist_take|]. apply sublist_filter. }
  assert (cs.*1 `sublist_of` (lru_blocks p).*1) as Hsub1 by by apply sublist_fmap.
  assert (NoDup cs.*1) as Hcs by by eapply sublist_NoDup.
  destruct (wp_no_exn_run (for_each cs (λ '(h, _), lru_remove h)) (λ _ p', lru_blocks p ≡ₚ cs ++ lru_blocks p') p) as ([] & p' & -> & Hp').
  - apply (wp_for_each cs _ (λ dn p', lru_blocks p ≡ₚ dn ++ lru_blocks p')); [|done].
    intros dn [h b] rest p' Ecs Hdn. rewrite Ecs in *.
    destruct (next_of_rest (lru_blocks p) dn rest (lru_blocks p') h b) as [Hget Hperm]; try done.
    { intros k Hk. by eapply elem_of_sublist. }
    { eapply elem_of_sublist; [|exact Hsub]. apply elem_of_app. right. left. }
    unfold lru_remove. wp_step. wp_step. rewrite Hget. wp_step. exact Hperm.
  - exists p'. split; [done|]. split; [|done]. unfold lru_ok in *. rewrite (keys_perm _ _ Hp'), fmap_app in Hp.
    by apply NoDup_app in Hp as (_ & _ & ?).
Qed.

#[export] Instance lru_laws : CachePolicyLaws LRUCachePolicy lru_ok lru_blocks.
Proof.
  split.
  - intros n. split; [apply NoDup_nil_2|done].
  - done.
  - done.
  - intros h b p Hp Hh. unfold lru_ok. cbn. split; [by apply dict_set_NoDup|]. rewrite dict_set_fresh by done.
    by rewrite Permutation_app_comm.
  - intros h b p Hp Hin. apply (dict_get_elem _ _ _ Hp) in Hin. cbn. unfold lru_remove, gets, mbind, M_bind. rewrite Hin.
    eexists. split; [reflexivity|]. cbn. split; [by apply dict_del_NoDup|]. by apply dict_del_perm.
  - intros hs p Hp. cbn. eapply wp_mono.
    + apply (wp_for_each _ _ (λ _ p', lru_ok p' ∧ lru_blocks p' ≡ₚ lru_blocks p) no_exn); [|done].
      intros _ h _ p' _ [H1 H2]. wp_step. unfold lru_ok. cbn. rewrite move_to_end_perm. done.
    + by intros [] p' ?.
    + done.
  - intros n prot p Hp Hn. cbn. pose proof (lru_evict_spec n prot p Hp Hn) as He. cbv zeta in He.
    set (old := filter _ _) in *. unfold wp. destruct (Z.of_nat (length old) <? n) eqn:E; [by rewrite He|apply Z.ltb_ge in E].
    destruct He as (p' & -> & Hp' & Hperm). split; [rewrite length_take; lia|]. split; [done|]. split; [done|].
    intros h b Hin. apply elem_of_take in Hin as (i & Hin & _). apply list_elem_of_lookup_2, list_elem_of_filter in Hin as [Hev _].
    apply andb_true_iff in Hev as [H1%bool_decide_eq_true H2%bool_decide_eq_true]. done.
  - intros h f p Hp. unfold lru_ok. cbn. by rewrite alter_entry_keys.
Qed.

(** ** Adaptive replacement *)

Definition arc_all (p : ARCCachePolicy) : list entry := t1 p ++ t2 p.
Definition arc_ghosts (p : ARCCachePolicy) : list (BlockHash * unit) := b1 p ++ b2 p.

(** Cached hashes are in one list, ghosts are in one ghost list and not cached, and the
    ghost lists are bounded. *)
Record arc_ok (p : ARCCachePolicy) : Prop := {
  ar_cached : NoDup (arc_all p).*1;
  ar_ghosts : NoDup (arc_ghosts p).*1;
  ar_apart : ∀ h, h ∈ (arc_ghosts p).*1 → h ∉ (arc_all p).*1;
  ar_bound : len (b1 p) ≤ Z.max 0 (cache_capacity p) ∧ len (b2 p) ≤ Z.max 0 (cache_capacity p)
}.

(** The same blocks and ghosts, in other places. *)
Lemma arc_ok_perm p p' :
  arc_ok p → arc_all p' ≡ₚ arc_all p → b1 p' ≡ₚ b1 p → b2 p' ≡ₚ b2 p → cache_capacity p' = cache_capacity p → arc_ok p'.
Proof.
  intros [H1 H2 H3 [H4 H5]] Hall Hb1 Hb2 Hc. assert (arc_ghosts p' ≡ₚ arc_ghosts p) as Hg by (unfold arc_ghosts; by rewrite Hb1, Hb2).
  split.
  - by rewrite Hall.
  - by rewrite Hg.
  - intros h. rewrite Hg, Hall. apply H3.
  - unfold len. by rewrite Hc, Hb1, Hb2.
Qed.

Lemma arc_get h p : cp_get h p = dict_get (arc_all p) h.
Proof.
  cbn. unfold arc_all. induction (t1 p) as [|[k v] d IH]; [done|]. cbn [dict_get app]. by destruct (decide (h = k)).
Qed.

Lemma dict_del_sublist {V} (d : list (BlockHash * V)) h : dict_del d h `sublist_of` d.
Proof. induction d as [|[k v] d IH]; [done|]. cbn [dict_del]. destruct (decide (h = k)); by constructor. Qed.

Lemma dict_del_notin {V} (d : list (BlockHash * V)) h : NoDup d.*1 → h ∉ (dict_del d h).*1.
Proof. intros Hd. rewrite dict_del_keys by done. intros [? _]%list_elem_of_filter. done. Qed.

Lemma arc_insert h b p :
  arc_ok p → h ∉ (arc_all p).*1 → arc_ok (cp_insert h b p) ∧ arc_all (cp_insert h b p) ≡ₚ (h, b) :: arc_all p.
Proof.
  intros [H1 H2 H3 [H4 H5]] Hh. unfold arc_all in Hh. rewrite fmap_app in Hh. apply not_elem_of_app in Hh as [Hh1 Hh2].
  set (p' := cp_insert h b p).
  assert (arc_all p' ≡ₚ (h, b) :: arc_all p) as Hall.
  { unfold p', arc_all. cbn. rewrite dict_set_fresh by done. rewrite <-app_assoc. cbn. by rewrite Permutation_middle. }
  assert (arc_ghosts p' `sublist_of` arc_ghosts p) as Hsub by (apply sublist_app; apply dict_del_sublist).
  pose proof (sublist_fmap fst _ _ Hsub) as Hsub1. unfold arc_ghosts in H2. rewrite fmap_app in H2. apply NoDup_app in H2 as (Hd1 & Hd & Hd2).
  split; [|done]. split.
  - rewrite Hall, fmap_cons. apply NoDup_cons. split; [|done]. unfold arc_all. rewrite fmap_app. by apply not_elem_of_app.
  - eapply sublist_NoDup; [|exact Hsub1]. unfold arc_ghosts. rewrite fmap_app. by apply NoDup_app.
  - intros k Hk. rewrite Hall, fmap_cons. apply not_elem_of_cons. split.
    + intros ->. unfold arc_ghosts in Hk. rewrite fmap_app, elem_of_app in Hk. destruct Hk as [Hk|Hk].
      * by apply (dict_del_notin (b1 p) h Hd1).
      * by apply (dict_del_notin (b2 p) h Hd2).
    + apply H3. by eapply elem_of_sublist.
  - unfold len in *. cbn [b1 b2 cache_capacity p' cp_insert arc_policy set_b1 set_b2 set_t1].
    pose proof (sublist_length _ _ (dict_del_sublist (b1 p) h)). pose proof (sublist_length _ _ (dict_del_sublist (b2 p) h)). lia.
Qed.

Lemma arc_remove h b p :
  arc_ok p → (h, b) ∈ arc_all p → ∃ p', cp_remove h p = (Ok tt, p') ∧ arc_ok p' ∧ arc_all p ≡ₚ (h, b) :: arc_all p'.
Proof.
  intros Hp Hin. pose proof Hp as [H1 H2 H3 H4].
  assert (∃ p', cp_remove h p = (Ok tt, p') ∧ arc_all p ≡ₚ (h, b) :: arc_all p' ∧ b1 p' = b1 p ∧ b2 p' = b2 p ∧
    cache_capacity p' = cache_capacity p) as (p' & E & Hall & E1 & E2 & E3).
  { cbn. unfold gets, modify, mbind, M_bind. apply (dict_get_elem _ _ _ H1) in Hin. pose proof (arc_get h p) as Hget. cbn in Hget.
    rewrite Hin in Hget. unfold Datatypes.id. destruct (dict_get (t1 p) h) as [b'|] eqn:E1; eexists; (split; [reflexivity|]); (split; [|done]);
      unfold arc_all; cbn.
    - simplify_eq. by rewrite (dict_del_perm _ _ _ E1) at 1.
    - rewrite (dict_del_perm _ _ _ Hget) at 1. by rewrite Permutation_middle. }
  exists p'. split; [done|]. split; [|done]. rewrite (keys_perm _ _ Hall) in H1. apply NoDup_cons in H1 as [_ H1].
  split; [done| | |].
  - unfold arc_ghosts. by rewrite E1, E2.
  - unfold arc_ghosts. rewrite E1, E2. intros k Hk Hk'. apply (H3 k Hk). rewrite Hall, fmap_cons. by right.
  - by rewrite E1, E2, E3.
Qed.

Lemma arc_touch hs p :
  arc_ok p → wp (cp_touch hs) (λ _ p', arc_ok p' ∧ arc_all p' ≡ₚ arc_all p) (λ _ p', arc_ok p' ∧ arc_all p' ≡ₚ arc_all p) p.
Proof.
  intros Hp. cbn. eapply wp_mono.
  - apply (wp_for_each _ _ (λ _ p', arc_ok p' ∧ arc_all p' ≡ₚ arc_all p) (λ _ p', arc_ok p' ∧ arc_all p' ≡ₚ arc_all p)); [|done].
    intros _ h _ p' _ [Hp' Hall]. unfold arc_touch_one. wp_step. wp_step. unfold Datatypes.id.
    assert (∀ p'', arc_all p'' ≡ₚ arc_all p' → b1 p'' ≡ₚ b1 p' → b2 p'' ≡ₚ b2 p' → cache_capacity p'' = cache_capacity p' →
      arc_ok p'' ∧ arc_all p'' ≡ₚ arc_all p) as Hsame.
    { intros p'' Ha E1 E2 E3. split; [by apply (arc_ok_perm p')|by rewrite Ha]. }
    assert (NoDup (arc_all p').*1) as Hnd by apply Hp'.
    destruct (dict_get (t1 p') h) as [blk|] eqn:Et1.
    { wp_step. wp_step. assert (h ∉ (dict_del (t1 p') h).*1 ∧ h ∉ (t2 p').*1) as [Hn1 Hn2].
      { unfold arc_all in Hnd. rewrite fmap_app in Hnd. apply NoDup_app in Hnd as (Hd1 & Hd & _). split; [by apply dict_del_notin|].
        apply Hd. apply dict_get_Some in Et1. by eapply elem_keys. }
      wp_step; wp_step; apply Hsame; try done; unfold arc_all; cbn; rewrite dict_set_fresh by done; rewrite (dict_del_perm _ _ _ Et1) at 2.
      - rewrite (Permutation_app_comm _ [_]). done.
      - rewrite (Permutation_app_comm (t2 p') [_]). cbn. by rewrite Permutation_middle. }
    destruct (dict_get (t2 p') h) as [blk|] eqn:Et2.
    { wp_step. apply Hsame; try done. unfold arc_all. cbn. by rewrite move_to_end_perm. }
    assert (∀ r (k : number → M ARCCachePolicy unit), (∀ x, wp (k x) (λ _ p'', arc_ok p'' ∧ arc_all p'' ≡ₚ arc_all p)
        (λ _ p'', arc_ok p'' ∧ arc_all p'' ≡ₚ arc_all p) p') →
      wp (x ← lift_res r; k x) (λ _ p'', arc_ok p'' ∧ arc_all p'' ≡ₚ arc_all p) (λ _ p'', arc_ok p'' ∧ arc_all p'' ≡ₚ arc_all p) p') as Hnum.
    { intros r k Hk. wp_step. apply wp_lift_res; [by intros x _|]. done. }
    destruct (dict_get (b1 p') h) as [[]|] eqn:Eb1.
    { apply Hnum. intros q. apply Hnum. intros x. wp_step. wp_step. wp_step. apply Hsame; try done. cbn. apply move_to_end_perm. }
    destruct (dict_get (b2 p') h) as [[]|] eqn:Eb2; [|wp_step; done].
    apply Hnum. intros q. apply Hnum. intros x. wp_step. wp_step. wp_step. apply Hsame; try done. cbn. apply move_to_end_perm.
  - by intros [] p' ?.
  - done.
Qed.

(** What is selected: blocks that may go, each once, from the list it is in. *)
Definition selectable (p : ARCCachePolicy) (prot : gset BlockHash) (c : entry * bool) : Prop :=
  c.1 ∈ (if c.2 then t1 p else t2 p) ∧ evictable prot c.1 = true.

Lemma arc_candidate_spec prot sel l e :
  arc_candidate prot sel l = Some e → e ∈ l ∧ evictable prot e = true ∧ e.1 ∉ sel.
Proof.
  unfold arc_candidate. destruct (list_find _ l) as [[i e']|] eqn:E; [|done]. intros [= <-].
  apply list_find_Some in E as (Hi & [H1 H2] & _). split; [by eapply list_elem_of_lookup_2|done].
Qed.

Lemma arc_select_spec n p prot v cs o :
  Forall (selectable p prot) cs → NoDup cs.*1.*1 → arc_select n p prot v cs = Ok (Some o) →
  length o = (length cs + n)%nat ∧ Forall (selectable p prot) o ∧ NoDup o.*1.*1.
Proof.
  revert v cs. induction n as [|n IH]; intros v cs Hcs Hnd; cbn [arc_select]; [by intros [= <-]|].
  assert (∀ e from_t1 v', e ∈ (if (from_t1 : bool) then t1 p else t2 p) → evictable prot e = true → e.1 ∉ cs.*1.*1 →
    arc_select n p prot v' (cs ++ [(e, from_t1)]) = Ok (Some o) →
    length o = (length cs + S n)%nat ∧ Forall (selectable p prot) o ∧ NoDup o.*1.*1) as Hnext.
  { intros e b v' He Hev Hn Ho. destruct (IH v' (cs ++ [(e, b)])) as (Hl & ? & ?); [| |done|].
    - apply Forall_app. split; [done|]. constructor; [by split|constructor].
    - rewrite !fmap_app. apply NoDup_app. split; [done|]. split; [|apply NoDup_singleton]. by intros h Hh ->%list_elem_of_singleton.
    - rewrite length_app in Hl. cbn in Hl. split; [lia|done]. }
  destruct (num_int _) as [t|]; [|done]. cbn [mbind res_bind].
  destruct (if t <=? v then _ else _) as [e|] eqn:E1.
  { destruct (t <=? v); [|done]. apply arc_candidate_spec in E1 as (? & ? & ?). by apply (Hnext e true). }
  destruct (arc_candidate prot _ (t2 p)) as [e|] eqn:E2; [|done]. apply arc_candidate_spec in E2 as (? & ? & ?). by apply (Hnext e false).
Qed.

Abbreviation froms b cs := ((filter (λ c : entry * bool, c.2 = b) cs).*1).

Lemma froms_app b cs cs' : froms b (cs ++ cs') = froms b cs ++ froms b cs'.
Proof. by rewrite filter_app, fmap_app. Qed.

Lemma froms_all cs : cs.*1 ≡ₚ froms true cs ++ froms false cs.
Proof.
  induction cs as [|[e []] cs IH]; [done| |]; rewrite !filter_cons; cbn [snd].
  - rewrite decide_True, decide_False by done. rewrite !fmap_cons. cbn. by rewrite IH.
  - rewrite decide_False, decide_True by done. rewrite !fmap_cons, IH. cbn. by rewrite Permutation_middle.
Qed.

(** After the evictions [dn]. *)
Record arc_evicting (p : ARCCachePolicy) (dn : list (entry * bool)) (p' : ARCCachePolicy) : Prop := {
  ae_t1 : t1 p ≡ₚ froms true dn ++ t1 p';
  ae_t2 : t2 p ≡ₚ froms false dn ++ t2 p';
  ae_nodup : NoDup (arc_ghosts p').*1;
  ae_ghosts : ∀ h, h ∈ (arc_ghosts p').*1 → h ∈ (arc_ghosts p).*1 ∨ h ∈ dn.*1.*1;
  ae_cap : cache_capacity p' = cache_capacity p
}.

(** The next candidate is still in its list, and new to the ghosts. *)
Lemma arc_next p prot dn h b (f : bool) rest p' :
  arc_ok p → Forall (selectable p prot) (dn ++ (h, b, f) :: rest) → NoDup (dn ++ (h, b, f) :: rest).*1.*1 → arc_evicting p dn p' →
  let l q := if f then t1 q else t2 q in
  dict_get (l p') h = Some b ∧ l p ≡ₚ (froms f dn ++ [(h, b)]) ++ dict_del (l p') h ∧ h ∉ (arc_ghosts p').*1.
Proof.
  intros Hp Hsel Hnd [A1 A2 _ A4 _] l.
  pose proof (ar_cached _ Hp) as Hca. unfold arc_all in Hca. rewrite fmap_app in Hca. apply NoDup_app in Hca as (Hn1 & _ & Hn2).
  rewrite Forall_forall in Hsel. assert ((h, b) ∈ l p) as Hin by (apply (Hsel (h, b, f)), elem_of_app; right; left).
  assert (froms f (dn ++ (h, b, f) :: rest) = froms f dn ++ (h, b) :: froms f rest) as Ef.
  { by rewrite froms_app, filter_cons, decide_True. }
  assert (NoDup (froms f (dn ++ (h, b, f) :: rest)).*1) as Hndf.
  { eapply sublist_NoDup; [exact Hnd|]. apply sublist_fmap, sublist_fmap, sublist_filter. }
  assert ((froms f (dn ++ (h, b, f) :: rest)).*1 ⊆ (l p).*1) as Hsubs.
  { intros k (e & -> & (c & -> & [E Hc]%list_elem_of_filter)%list_elem_of_fmap)%list_elem_of_fmap.
    apply list_elem_of_fmap. exists c.1. split; [done|]. destruct (Hsel c Hc) as [Hc' _]. by rewrite E in Hc'. }
  rewrite Ef in Hndf, Hsubs. apply and_assoc. split.
  - apply (next_of_rest (l p) (froms f dn) (froms f rest)); unfold l in *; by destruct f.
  - intros [Hg|Hg]%A4.
    + apply (ar_apart _ Hp h Hg). unfold arc_all. rewrite fmap_app, elem_of_app. unfold l in Hin.
      destruct f; [left|right]; by apply (elem_keys _ _ b).
    + rewrite fmap_app, fmap_app in Hnd. apply NoDup_app in Hnd as (_ & Hdis & _). apply (Hdis h Hg). left.
Qed.

(** It becomes a ghost. *)
Lemma arc_evicting_step p dn c p' p'' :
  arc_evicting p dn p' → c.1.1 ∉ (arc_ghosts p').*1 →
  cache_capacity p'' = cache_capacity p' → arc_ghosts p'' ≡ₚ (c.1.1, tt) :: arc_ghosts p' →
  t1 p ≡ₚ froms true (dn ++ [c]) ++ t1 p'' → t2 p ≡ₚ froms false (dn ++ [c]) ++ t2 p'' → arc_evicting p (dn ++ [c]) p''.
Proof.
  intros [_ _ A3 A4 A5] Hng E1 E2 E3 E4. split; [done|done| | |by rewrite E1].
  - rewrite E2, fmap_cons. by apply NoDup_cons.
  - intros k. rewrite E2, fmap_cons, elem_of_cons. rewrite !fmap_app, elem_of_app. intros [->|Hk]; [right; right; left|].
    destruct (A4 k Hk); [by left|right; by left].
Qed.

Lemma arc_evict_one_spec p prot dn c rest p' :
  arc_ok p → Forall (selectable p prot) (dn ++ c :: rest) → NoDup (dn ++ c :: rest).*1.*1 → arc_evicting p dn p' →
  wp (arc_evict_one c) (λ _ p'', arc_evicting p (dn ++ [c]) p'') no_exn p'.
Proof.
  destruct c as [[h b] f]. intros Hp Hsel Hnd Hev.
  destruct (arc_next p prot dn h b f rest p' Hp Hsel Hnd Hev) as (Hget & Hperm & Hng).
  assert (h ∉ (b1 p').*1 ∧ h ∉ (b2 p').*1) as [Hg1 Hg2] by (unfold arc_ghosts in Hng; by rewrite fmap_app, not_elem_of_app in Hng).
  unfold arc_evict_one. wp_step. wp_step. unfold Datatypes.id.
  assert (∀ f', froms f' (dn ++ [(h, b, f)]) = froms f' dn ++ (if decide (f = f') then [(h, b)] else [])) as Ef.
  { intros f'. rewrite froms_app, filter_cons. cbn. by destruct (decide _). }
  destruct f; rewrite Hget; wp_step; wp_step; wp_step; (apply (arc_evicting_step p dn _ p'); [done|done|done|..]);
    rewrite ?Ef; cbn; unfold arc_ghosts; cbn; rewrite ?dict_set_fresh, ?app_nil_r by done; try done; try apply Hev.
  - rewrite <-app_assoc. cbn. by rewrite Permutation_middle.
  - by rewrite app_assoc, Permutation_app_comm.
Qed.

(** Trimming the ghost lists. *)
Lemma arc_trim_ok p cs p1 p2 :
  arc_ok p → arc_evicting p cs p1 → t1 p2 = t1 p1 → t2 p2 = t2 p1 → cache_capacity p2 = cache_capacity p1 →
  b1 p2 = drop (Z.to_nat (len (b1 p1) - cache_capacity p1)) (b1 p1) →
  b2 p2 = drop (Z.to_nat (len (b2 p1) - cache_capacity p1)) (b2 p1) →
  arc_ok p2 ∧ arc_all p ≡ₚ cs.*1 ++ arc_all p2.
Proof.
  intros Hp [A1 A2 A3 A4 A5] E1 E2 E3 E4 E5.
  assert (arc_all p ≡ₚ cs.*1 ++ arc_all p2) as Hall.
  { unfold arc_all. rewrite E1, E2, A1, A2, (froms_all cs), <-!app_assoc. apply Permutation_app_head, Permutation_app_swap_app. }
  split; [|done].
  assert (arc_ghosts p2 `sublist_of` arc_ghosts p1) as Hsub by (unfold arc_ghosts; rewrite E4, E5; apply sublist_app; apply sublist_drop).
  pose proof (sublist_fmap fst _ _ Hsub) as Hsub1. pose proof (ar_cached _ Hp) as Hnd. rewrite (keys_perm _ _ Hall), fmap_app in Hnd.
  apply NoDup_app in Hnd as (_ & Hd & Hnd).
  split.
  - done.
  - eapply sublist_NoDup; [exact A3|exact Hsub1].
  - intros h Hh Hin. assert (h ∈ (arc_ghosts p1).*1) as Hh1 by (eapply elem_of_sublist; [exact Hh|exact Hsub1]). destruct (A4 h Hh1) as [Hg|Hg].
    + apply (ar_apart _ Hp h Hg). rewrite (keys_perm _ _ Hall), fmap_app. apply elem_of_app. by right.
    + by apply (Hd h).
  - unfold len in *. rewrite E3, E4, E5, A5, !length_drop. lia.
Qed.

Lemma arc_evict_spec n prot p :
  arc_ok p → 0 < n →
  wp (arc_evict n prot) (λ o p', match o with
      | None => p' = p
      | Some ev => Z.of_nat (length ev) = n ∧ arc_ok p' ∧ arc_all p ≡ₚ ev ++ arc_all p' ∧
          ∀ h b, (h, b) ∈ ev → bs_ref_cnt b = 0 ∧ h ∉ prot
      end) (λ _ p', p' = p) p.
Proof.
  intros Hp Hn. unfold arc_evict. rewrite bool_decide_eq_false_2 by lia. wp_step. wp_step. unfold Datatypes.id.
  wp_step. apply wp_lift_res; [|done]. intros o Ho. destruct o as [cs|]; [|by wp_step].
  destruct (arc_select_spec (Z.to_nat n) p prot (len (t1 p)) [] cs) as (Hlen & Hsel & Hnd); [constructor|apply NoDup_nil_2|done|].
  cbn in Hlen. wp_step. eapply wp_mono; [apply (wp_for_each cs _ (arc_evicting p) no_exn)| |done].
  - intros dn c rest p' E0 Hdn. rewrite E0 in Hsel, Hnd. by apply (arc_evict_one_spec p prot dn c rest p').
  - split; cbn; [done|done|apply Hp|by left|done].
  - intros [] p1 Hp1. do 5 wp_step. set (p2 := set_b2 _ _).
    destruct (arc_trim_ok p cs p1 p2 Hp Hp1) as [Hok Hall]; [done..|]. 
    split; [rewrite length_fmap; lia|]. split; [done|]. split; [done|]. intros h b (c & Ec & Hc)%list_elem_of_fmap.
    rewrite Forall_forall in Hsel. destruct (Hsel c Hc) as [_ Hev]. rewrite <-Ec in Hev.
    apply andb_true_iff in Hev as [H1%bool_decide_eq_true H2%bool_decide_eq_true]. done.
Qed.

#[export] Instance arc_laws : CachePolicyLaws ARCCachePolicy arc_ok arc_all.
Proof.
  split.
  - intros n. split; [|done]. split; cbn; [apply NoDup_nil_2|apply NoDup_nil_2|intros h Hh; by apply elem_of_nil in Hh|unfold len; cbn; lia].
  - intros p Hp. apply Hp.
  - intros h p _. apply arc_get.
  - intros h b p. apply arc_insert.
  - intros h b p. apply arc_remove.
  - intros hs p. apply arc_touch.
  - intros n prot p. apply arc_evict_spec.
  - intros h f p Hp. assert (arc_all (cp_alter h f p) = alter_entry h f (arc_all p)) as E by (symmetry; apply alter_entry_app).
    split; [|done]. destruct Hp as [H1 H2 H3 H4]. split; [by rewrite E, alter_entry_keys|done| |done].
    intros k Hk. rewrite E, alter_entry_keys. by apply H3.
Qed.

(** The target can keep ARC from evicting although it could: with [t1] below the target
    nothing in [t1] is considered, even if no block of [t2] may go. *)
Definition arc_stuck : ARCCachePolicy :=
  mkARC 2 (PyInt 2) [([1], mkBlockStatus 0 0)] [([2], mkBlockStatus 1 1)] [([3], tt)] [].

Lemma arc_stuck_refuses : arc_evict 1 ∅ arc_stuck = (Ok None, arc_stuck) ∧ evictable ∅ ([1], mkBlockStatus 0 0) = true.
Proof. by vm_compute. Qed.
