(* ===== verification/OffloadManager.v ===== *)
(** * The CPU offload manager

    [vllm/v1/kv_offload/cpu/manager.py] and the reuse filter of [reuse_manager.py]: which
    KV blocks are offloaded to host memory, and in which buffer slots.  The manager works
    with any [CachePolicy]; its theorems are proved from [CachePolicyLaws] and hold for
    both policies. *)

From stdpp Require Import base list gmap strings.
From Stdlib Require Import ZArith Lia.
From S2P Require Import Prelude FreeQueue OffloadPolicy.
Local Open Scope Z_scope.

(** [m] repeated [n] times. *)
Fixpoint collect {S A} (n : nat) (m : M S A) : M S (list A) :=
  match n with
  | O => mret []
  | S n => a ← m; l ← collect n m; mret (a :: l)
  end.

Record OffloadingEvent := mkOffloadingEvent {
  oe_block_hashes : list BlockHash;
  oe_block_size : Z;
  oe_medium : string;
  oe_removed : bool
}.

Record PrepareStoreOutput := mkPrepareStore {
  block_hashes_to_store : list BlockHash;
  store_spec : list Z;
  block_hashes_evicted : list BlockHash
}.

Record CPUOffloadingManager (P : Type) := mkOffload {
  om_block_size : Z;
  om_num_blocks : Z;
  om_num_allocated_blocks : Z;
  om_free_list : list Z;
  om_events : option (list OffloadingEvent);
  om_policy : P
}.
Arguments mkOffload {P}.
Arguments om_block_size {P}.
Arguments om_num_blocks {P}.
Arguments om_num_allocated_blocks {P}.
Arguments om_free_list {P}.
Arguments om_events {P}.
Arguments om_policy {P}.

Section manager.
Context {P : Type} `{CachePolicy P}.
Abbreviation Mgr := (CPUOffloadingManager P).

Definition om_set_allocated (n : Z) (s : Mgr) : Mgr :=
  mkOffload (om_block_size s) (om_num_blocks s) n (om_free_list s) (om_events s) (om_policy s).
Definition om_set_free (l : list Z) (s : Mgr) : Mgr :=
  mkOffload (om_block_size s) (om_num_blocks s) (om_num_allocated_blocks s) l (om_events s) (om_policy s).
Definition om_set_events (e : option (list OffloadingEvent)) (s : Mgr) : Mgr :=
  mkOffload (om_block_size s) (om_num_blocks s) (om_num_allocated_blocks s) (om_free_list s) e (om_policy s).
Definition om_set_policy (p : P) (s : Mgr) : Mgr :=
  mkOffload (om_block_size s) (om_num_blocks s) (om_num_allocated_blocks s) (om_free_list s) (om_events s) p.
Definition policyL : lens Mgr P := Lens om_policy om_set_policy.

Definition CPUOffloadingManager_init (block_size num_blocks : Z) (enable_events : bool) : Mgr :=
  mkOffload block_size num_blocks 0 [] (if enable_events then Some [] else None) (cp_init num_blocks).

(** ** The buffer slots *)

Definition om_get_num_free_blocks (s : Mgr) : Z := len (om_free_list s) + om_num_blocks s - om_num_allocated_blocks s.

Definition fresh_block : M Mgr BlockStatus :=
  n ← gets om_num_allocated_blocks; modify (om_set_allocated (n + 1)) ;; mret (BlockStatus_init n).
Definition reused_block : M Mgr BlockStatus :=
  l ← gets om_free_list;
  match last l with
  | Some id => modify (om_set_free (take (length l - 1) l)) ;; mret (BlockStatus_init id)
  | None => raise IndexError
  end.

Definition _allocate_blocks (block_hashes : list BlockHash) : M Mgr (list BlockStatus) :=
  s ← gets id;
  let num_fresh := Z.min (len block_hashes) (om_num_blocks s - om_num_allocated_blocks s) in
  let num_reused := len block_hashes - num_fresh in
  assert_ (num_reused <=? len (om_free_list s)) ;;
  fresh ← collect (Z.to_nat num_fresh) fresh_block;
  reused ← collect (Z.to_nat num_reused) reused_block;
  mret (fresh ++ reused).

Definition _free_block (b : BlockStatus) : M Mgr unit := modify (λ s, om_set_free (om_free_list s ++ [bs_block_id b]) s).

Definition add_event (hashes : list BlockHash) (removed : bool) : M Mgr unit :=
  if bool_decide (hashes = []) then mret tt
  else modify (λ s, match om_events s with
    | None => s
    | Some l => om_set_events (Some (l ++ [mkOffloadingEvent hashes (om_block_size s) "CPU" removed])) s
    end).

(** ** The operations *)

Fixpoint om_lookup (block_hashes : list BlockHash) (s : Mgr) : Z :=
  match block_hashes with
  | [] => 0
  | h :: rest =>
      match cp_get h (om_policy s) with
      | Some b => if is_ready b then 1 + om_lookup rest s else 0
      | None => 0
      end
  end.

Definition alter_block (h : BlockHash) (f : BlockStatus → BlockStatus) : M Mgr unit :=
  zoom policyL (modify (cp_alter h f)).

Definition om_prepare_load (block_hashes : list BlockHash) : M Mgr (list Z) :=
  fold_each block_hashes [] (λ ids h,
    found ← gets (λ s, cp_get h (om_policy s));
    b ← lift_opt AssertionError found;
    assert_ (is_ready b) ;;
    alter_block h (λ b, set_bs_ref_cnt (bs_ref_cnt b + 1) b) ;;
    mret (ids ++ [bs_block_id b])).

Definition om_touch (block_hashes : list BlockHash) : M Mgr unit := zoom policyL (cp_touch block_hashes).

Definition om_complete_load (block_hashes : list BlockHash) : M Mgr unit :=
  for_each block_hashes (λ h,
    found ← gets (λ s, cp_get h (om_policy s));
    b ← lift_opt AssertionError found;
    assert_ (0 <? bs_ref_cnt b) ;;
    alter_block h (λ b, set_bs_ref_cnt (bs_ref_cnt b - 1) b)).

(** From the allocation on. *)
Definition store_blocks (to_store evicted : list BlockHash) : M Mgr (option PrepareStoreOutput) :=
  add_event evicted true ;;
  blocks ← _allocate_blocks to_store;
  assert_ (length blocks =? length to_store)%nat ;;
  for_each (zip to_store blocks) (λ '(h, b), zoom policyL (modify (cp_insert h b))) ;;
  mret (Some (mkPrepareStore to_store (bs_block_id <$> blocks) evicted)).

Definition om_prepare_store (block_hashes : list BlockHash) : M Mgr (option PrepareStoreOutput) :=
  to_store ← gets (λ s, filter (λ h, cp_get h (om_policy s) = None) block_hashes);
  if bool_decide (to_store = []) then mret (Some (mkPrepareStore [] [] []))
  else
    num_blocks_to_evict ← gets (λ s, len to_store - om_get_num_free_blocks s);
    if 0 <? num_blocks_to_evict then
      evicted ← zoom policyL (cp_evict num_blocks_to_evict (list_to_set block_hashes));
      match evicted with
      | None => mret None
      | Some ev => for_each ev (λ '(_, b), _free_block b) ;; store_blocks to_store ev.*1
      end
    else store_blocks to_store [].

Definition om_complete_store (block_hashes : list BlockHash) (success : bool) : M Mgr unit :=
  stored ← fold_each block_hashes [] (λ stored h,
    found ← gets (λ s, cp_get h (om_policy s));
    match found with
    | Some b =>
        if is_ready b then mret stored
        else if success then alter_block h (set_bs_ref_cnt 0) ;; mret (stored ++ [h])
        else zoom policyL (cp_remove h) ;; _free_block b ;; mret stored
    | None => mret stored
    end);
  add_event stored false.

Definition om_take_events : M Mgr (list OffloadingEvent) :=
  e ← gets om_events;
  match e with
  | None => mret []
  | Some l => modify (om_set_events (Some [])) ;; mret l
  end.

(** ** Every slot has one owner *)

Context (cp_ok : P → Prop) (cp_all : P → list entry) `{!CachePolicyLaws P cp_ok cp_all}.

Abbreviation blocks s := (cp_all (om_policy s)).
Definition slot (e : entry) : Z := bs_block_id e.2.

(** Each slot handed out so far is on the free list or belongs to one cached block. *)
Record offload_ok (s : Mgr) : Prop := {
  of_policy : cp_ok (om_policy s);
  of_range : 0 ≤ om_num_allocated_blocks s ≤ om_num_blocks s ∧ om_num_blocks s < 2 ^ 63;
  of_slots : (slot <$> blocks s) ++ om_free_list s ≡ₚ seqZ 0 (om_num_allocated_blocks s)
}.

Lemma offload_init_ok block_size num_blocks events :
  0 ≤ num_blocks < 2 ^ 63 → offload_ok (CPUOffloadingManager_init block_size num_blocks events).
Proof.
  intros Hn. destruct (law_init (CachePolicyLaws := _) num_blocks) as [Hok Hall]. split; cbn.
  - done.
  - lia.
  - rewrite Hall. done.
Qed.

Lemma ok_policy s p' :
  offload_ok s → cp_ok p' → slot <$> cp_all p' ≡ₚ slot <$> blocks s → offload_ok (om_set_policy p' s).
Proof. intros [H1 H2 H3] Hp' Hslots. split; [done|done|]. cbn. by rewrite Hslots. Qed.

Lemma alter_slots h f (d : list entry) : (∀ b, bs_block_id (f b) = bs_block_id b) → slot <$> alter_entry h f d = slot <$> d.
Proof.
  intros Hf. unfold alter_entry. rewrite <-list_fmap_compose. apply list_fmap_ext. intros i [k b] _. unfold slot. cbn.
  by destruct (decide (k = h)).
Qed.

Lemma alter_ok s h f : offload_ok s → (∀ b, bs_block_id (f b) = bs_block_id b) → offload_ok (om_set_policy (cp_alter h f (om_policy s)) s).
Proof.
  intros Hs Hf. destruct (law_alter (cp_all := cp_all) h f (om_policy s) (of_policy _ Hs)) as [Hok Hall].
  apply ok_policy; [done|done|]. rewrite Hall. by rewrite alter_slots.
Qed.

Lemma slots_NoDup s : offload_ok s → NoDup ((slot <$> blocks s) ++ om_free_list s).
Proof. intros [_ _ ->]. apply NoDup_seqZ. Qed.

(** No leak and no double use: the cache never holds more blocks than there are slots. *)
Lemma slots_bound s : offload_ok s → len (blocks s) + len (om_free_list s) = om_num_allocated_blocks s.
Proof.
  intros [_ Hr Hs]. apply Permutation_length in Hs as E.
  rewrite length_app, length_fmap, length_seqZ in E. unfold len. lia.
Qed.

(** Hand out slots while [used] are in use. *)
Definition allocating (used : list Z) (s : CPUOffloadingManager P) : Prop :=
  0 ≤ om_num_allocated_blocks s ≤ om_num_blocks s ∧ om_num_blocks s < 2 ^ 63 ∧
  used ++ om_free_list s ≡ₚ seqZ 0 (om_num_allocated_blocks s).

(** What an allocation leaves alone. *)
Record alloc_frame (s s' : CPUOffloadingManager P) : Prop := {
  af_policy : om_policy s' = om_policy s;
  af_blocks : om_num_blocks s' = om_num_blocks s;
  af_size : om_block_size s' = om_block_size s;
  af_events : om_events s' = om_events s
}.

Lemma wrap64_id z : 0 ≤ z < 2 ^ 63 → wrap64 z = z.
Proof. intros Hz. unfold wrap64. rewrite Z.mod_small; lia. Qed.

Lemma alloc_frame_trans s1 s2 s3 : alloc_frame s1 s2 → alloc_frame s2 s3 → alloc_frame s1 s3.
Proof. intros [] []. split; congruence. Qed.

Lemma fresh_block_spec used s :
  allocating used s → om_num_allocated_blocks s < om_num_blocks s →
  ∃ b s', fresh_block s = (Ok b, s') ∧ bs_ref_cnt b = -1 ∧ allocating (used ++ [bs_block_id b]) s' ∧ alloc_frame s s' ∧
    om_free_list s' = om_free_list s ∧ om_num_allocated_blocks s' = om_num_allocated_blocks s + 1.
Proof.
  intros (Hr & Hn & Hs) Hlt. eexists _, _. split; [reflexivity|]. split; [done|]. split; [|split; [by split|done]].
  split; [cbn; lia|]. split; [done|]. cbn. rewrite wrap64_id by lia.
  rewrite (seqZ_app 0 (om_num_allocated_blocks s) 1) by lia. rewrite <-Hs, Z.add_0_l, <-!app_assoc. f_equiv. apply Permutation_app_comm.
Qed.

Lemma reused_block_spec used s :
  allocating used s → om_free_list s ≠ [] →
  ∃ b s', reused_block s = (Ok b, s') ∧ bs_ref_cnt b = -1 ∧ allocating (used ++ [bs_block_id b]) s' ∧ alloc_frame s s' ∧
    S (length (om_free_list s')) = length (om_free_list s) ∧ om_num_allocated_blocks s' = om_num_allocated_blocks s.
Proof.
  intros (Hr & Hn & Hs) Hne. unfold reused_block, gets, modify, mbind, M_bind, mret, M_ret.
  destruct (last (om_free_list s)) as [id|] eqn:El; [|by apply last_None in El].
  apply last_Some in El as (l & El). rewrite El in *.
  assert (0 ≤ id < om_num_allocated_blocks s) as Hid.
  { assert (id ∈ seqZ 0 (om_num_allocated_blocks s)) as Hid%elem_of_seqZ; [|lia].
    rewrite <-Hs. apply elem_of_app. right. apply elem_of_app. right. by left. }
  eexists _, _. split; [reflexivity|]. split; [done|].
  assert (take (length (l ++ [id]) - 1) (l ++ [id]) = l) as Et.
  { rewrite length_app. cbn. replace (length l + 1 - 1)%nat with (length l) by lia. apply take_app_length. }
  split; [|split; [by split|cbn; rewrite Et, length_app; cbn; split; [lia|done]]].
  split; [done|]. split; [done|]. cbn. rewrite Et, wrap64_id by lia. rewrite <-Hs, <-app_assoc. f_equiv. apply Permutation_app_comm.
Qed.

(** What a run of allocations has given. *)
Record handed_out (used : list Z) (s : CPUOffloadingManager P) (n : nat) (bs : list BlockStatus) (s' : CPUOffloadingManager P) : Prop := {
  ha_len : length bs = n;
  ha_new : Forall (λ b, bs_ref_cnt b = -1) bs;
  ha_used : allocating (used ++ (bs_block_id <$> bs)) s';
  ha_frame : alloc_frame s s'
}.

Lemma collect_fresh used s n :
  allocating used s → om_num_allocated_blocks s + Z.of_nat n ≤ om_num_blocks s →
  ∃ bs s', collect n fresh_block s = (Ok bs, s') ∧ handed_out used s n bs s' ∧ om_free_list s' = om_free_list s.
Proof.
  revert used s. induction n as [|n IH]; intros used s Ha Hn; cbn [collect].
  { exists [], s. split; [done|]. split; [|done]. split; [done|constructor|by rewrite app_nil_r|by split]. }
  destruct (fresh_block_spec used s) as (b & s1 & E1 & Hb & Ha1 & Hf1 & Ef1 & En1); [done|lia|].
  destruct (IH (used ++ [bs_block_id b]) s1 Ha1) as (bs & s2 & E2 & [H1 H2 H3 H4] & Ef2); [rewrite En1, (af_blocks _ _ Hf1); lia|].
  unfold mbind, M_bind. rewrite E1, E2. exists (b :: bs), s2. split; [done|]. split; [|congruence].
  split; [cbn; lia|by constructor|by rewrite <-app_assoc in H3|by eapply alloc_frame_trans].
Qed.

Lemma collect_reused used s n :
  allocating used s → (n ≤ length (om_free_list s))%nat →
  ∃ bs s', collect n reused_block s = (Ok bs, s') ∧ handed_out used s n bs s'.
Proof.
  revert used s. induction n as [|n IH]; intros used s Ha Hn; cbn [collect].
  { exists [], s. split; [done|]. split; [done|constructor|by rewrite app_nil_r|by split]. }
  destruct (reused_block_spec used s) as (b & s1 & E1 & Hb & Ha1 & Hf1 & Ef1 & En1); [done|by intros E0; rewrite E0 in Hn; cbn in Hn; lia|].
  destruct (IH (used ++ [bs_block_id b]) s1 Ha1) as (bs & s2 & E2 & [H1 H2 H3 H4]); [lia|].
  unfold mbind, M_bind. rewrite E1, E2. exists (b :: bs), s2. split; [done|].
  split; [cbn; lia|by constructor|by rewrite <-app_assoc in H3|by eapply alloc_frame_trans].
Qed.

Lemma allocate_blocks_spec used s hs :
  allocating used s → len hs ≤ om_get_num_free_blocks s →
  ∃ bs s', _allocate_blocks hs s = (Ok bs, s') ∧ handed_out used s (length hs) bs s'.
Proof.
  intros Ha Hn. unfold om_get_num_free_blocks in Hn. unfold _allocate_blocks, gets, mbind, M_bind, mret, M_ret, Datatypes.id.
  pose proof Ha as (Hr & _). set (k := Z.min _ _). unfold len in *.
  assert (assert_ (Z.of_nat (length hs) - k <=? Z.of_nat (length (om_free_list s))) s = (Ok tt, s)) as ->.
  { unfold assert_. rewrite (proj2 (Z.leb_le _ _)) by lia. done. }
  destruct (collect_fresh used s (Z.to_nat k) Ha) as (bs1 & s1 & -> & [H1 H2 H3 H4] & Ef); [lia|].
  destruct (collect_reused (used ++ (bs_block_id <$> bs1)) s1 (Z.to_nat (Z.of_nat (length hs) - k)) H3) as (bs2 & s2 & -> & [G1 G2 G3 G4]);
    [rewrite Ef; lia|].
  exists (bs1 ++ bs2), s2. split; [done|]. split.
  - rewrite length_app. lia.
  - by apply Forall_app.
  - by rewrite fmap_app, app_assoc.
  - by eapply alloc_frame_trans.
Qed.

(** ** Storing *)

Lemma allocating_ok s : offload_ok s ↔ cp_ok (om_policy s) ∧ allocating (slot <$> blocks s) s.
Proof. split; [intros [H1 [H2 H3] H4]|intros [H1 (H2 & H3 & H4)]]; by split. Qed.

Lemma add_event_spec hs b s Q :
  (∀ e, Q tt (om_set_events e s)) → wp (add_event hs b) Q no_exn s.
Proof.
  intros HQ. unfold add_event. wp_step.
  - wp_step. specialize (HQ (om_events s)). by destruct s.
  - wp_step. destruct (om_events s) as [l|] eqn:E; [apply HQ|]. specialize (HQ None). unfold om_set_events in HQ. rewrite <-E in HQ. by destruct s.
Qed.

(** What storing [to_store] in new slots gives, with the blocks [kept]. *)
Record stored_in (kept : list entry) (to_store : list BlockHash) (ids : list Z) (num_blocks : Z) (s : CPUOffloadingManager P) : Prop := {
  st_ok : offload_ok s;
  st_num : om_num_blocks s = num_blocks;
  st_slots : NoDup ids ∧ length ids = length to_store ∧ Forall (λ i, 0 ≤ i < num_blocks) ids;
  st_fresh : ∀ e, e ∈ kept → slot e ∉ ids;
  st_blocks : ∃ bs, ids = bs_block_id <$> bs ∧ Forall (λ b, is_ready b = false) bs ∧ blocks s ≡ₚ zip to_store bs ++ kept
}.

Lemma zip_keys (to_store : list BlockHash) (bs : list BlockStatus) :
  length bs = length to_store → (zip to_store bs).*1 = to_store ∧ slot <$> zip to_store bs = bs_block_id <$> bs.
Proof.
  revert bs. induction to_store as [|h l IH]; intros [|b bs]; try done. intros [= Hl]. destruct (IH bs Hl) as [E1 E2].
  cbn. by rewrite E1, E2.
Qed.

Lemma store_blocks_spec s to_store evicted :
  offload_ok s → NoDup to_store → (∀ h, h ∈ to_store → h ∉ (blocks s).*1) → len to_store ≤ om_get_num_free_blocks s →
  wp (store_blocks to_store evicted) (λ o s', ∃ ids, o = Some (mkPrepareStore to_store ids evicted) ∧
    stored_in (blocks s) to_store ids (om_num_blocks s) s') no_exn s.
Proof.
  intros Hs Hnd Hnew Hn. unfold store_blocks. wp_step. apply add_event_spec. intros e. set (s1 := om_set_events e s).
  apply allocating_ok in Hs as [Hp Ha]. assert (allocating (slot <$> blocks s) s1) as Ha1 by done.
  destruct (allocate_blocks_spec (slot <$> blocks s) s1 to_store Ha1 Hn) as (bs & s2 & E2 & [H1 H2 H3 [F1 F2 F3 F4]]).
  wp_step. unfold wp at 1. rewrite E2. wp_step. apply wp_assert; [by apply Nat.eqb_eq|]. wp_step.
  destruct (zip_keys to_store bs H1) as [Ek Es].
  eapply wp_mono; [apply (wp_for_each (zip to_store bs) _ (λ dn s3, s3 = om_set_policy (om_policy s3) s2 ∧ cp_ok (om_policy s3) ∧
    blocks s3 ≡ₚ dn ++ blocks s) no_exn)| |done].
  - intros dn [h b] rest s3 Ez (E3 & Hok & Hall). wp_step. wp_step. cbn [lget lset policyL].
    assert (h ∉ (blocks s3).*1) as Hh.
    { rewrite (keys_perm _ _ Hall), fmap_app, not_elem_of_app. rewrite <-Ek, Ez, fmap_app in Hnd, Hnew. cbn in Hnd, Hnew. split.
      - apply NoDup_app in Hnd as (_ & Hd & _). intros Hin. apply (Hd h Hin). left.
      - apply Hnew, elem_of_app. right. left. }
    destruct (law_insert (cp_all := cp_all) h b (om_policy s3) Hok Hh) as [Hok' Hall']. split; [by rewrite E3|]. split; [done|].
    cbn. rewrite Hall', Hall, <-app_assoc. cbn. by rewrite Permutation_middle.
  - split; [by destruct s2|]. rewrite F1. done.
  - intros [] s3 (E3 & Hok & Hall). wp_step. exists (bs_block_id <$> bs). split; [done|].
    assert (om_num_blocks s3 = om_num_blocks s) as Enb by (rewrite E3; cbn; by rewrite F2).
    assert (offload_ok s3) as Hs3.
    { apply allocating_ok. split; [done|]. destruct H3 as (G1 & G2 & G3). rewrite E3. split; [done|]. split; [done|]. cbn.
      rewrite E3 in Hall. cbn in Hall. rewrite Hall, fmap_app, Es, <-G3. f_equiv. apply Permutation_app_comm. }
    destruct H3 as (G1 & G2 & G3). pose proof (NoDup_seqZ 0 (om_num_allocated_blocks s2)) as Hz. rewrite <-G3 in Hz.
    apply NoDup_app in Hz as (Hz & _ & _). apply NoDup_app in Hz as (_ & Hd & Hz). split.
    + done.
    + done.
    + split; [done|]. split; [by rewrite length_fmap|]. apply Forall_forall. intros i Hi.
      assert (i ∈ seqZ 0 (om_num_allocated_blocks s2)) as Hi'%elem_of_seqZ.
      { rewrite <-G3. apply elem_of_app. left. apply elem_of_app. by right. }
      rewrite F2 in G1. cbn in G1. lia.
    + intros x Hx. apply Hd. by apply list_elem_of_fmap_2.
    + exists bs. split; [done|]. split; [|done]. eapply Forall_impl; [exact H2|]. intros b Hb. unfold is_ready. by rewrite Hb.
Qed.

(** What [prepare_store] promises. *)
Definition store_prepared (s : CPUOffloadingManager P) (hs : list BlockHash) (o : option PrepareStoreOutput)
    (s' : CPUOffloadingManager P) : Prop :=
  match o with
  | None => s' = s
  | Some out => ∃ ev kept, blocks s ≡ₚ ev ++ kept ∧ block_hashes_evicted out = ev.*1 ∧
      (∀ h b, (h, b) ∈ ev → bs_ref_cnt b = 0 ∧ h ∉ hs) ∧
      block_hashes_to_store out = filter (λ h, h ∉ (blocks s).*1) hs ∧
      stored_in kept (block_hashes_to_store out) (store_spec out) (om_num_blocks s) s'
  end.

Lemma free_slots_spec s ev :
  wp (for_each ev (λ '(_, b), _free_block b)) (λ _ s', s' = om_set_free (om_free_list s ++ (slot <$> ev)) s) no_exn s.
Proof.
  eapply wp_mono; [apply (wp_for_each ev _ (λ dn s', s' = om_set_free (om_free_list s ++ (slot <$> dn)) s) no_exn)| |done].
  - intros dn [h b] rest s' _ ->. unfold _free_block. wp_step. cbn. rewrite fmap_app, app_assoc. done.
  - cbn. rewrite app_nil_r. by destruct s.
  - by intros [] s' ->.
Qed.

Lemma to_store_blocks s (hs : list BlockHash) : cp_ok (om_policy s) → filter (λ h, cp_get h (om_policy s) = None) hs = filter (λ h, h ∉ (blocks s).*1) hs.
Proof. intros Hp. apply filter_ext_in. intros h _. rewrite (law_get (cp_all := cp_all)) by done. apply dict_get_None. Qed.

Lemma prepare_store_spec s hs :
  offload_ok s → NoDup hs →
  wp (om_prepare_store hs) (λ o s', offload_ok s' ∧ store_prepared s hs o s') (λ _ s', s' = s) s.
Proof.
  intros Hs Hnd. pose proof Hs as [Hp Hr Hsl]. unfold om_prepare_store. wp_step. wp_step.
  rewrite (to_store_blocks s hs Hp).
  set (ts := filter _ hs). assert (NoDup ts) as Hts by by apply NoDup_filter.
  assert (∀ h, h ∈ ts → h ∉ (blocks s).*1) as Hnew by (by intros h [? _]%list_elem_of_filter).
  wp_step; [apply bool_decide_eq_true in Hif|apply bool_decide_eq_false in Hif].
  { wp_step. split; [done|]. exists [], (blocks s). cbn. split; [done|]. split; [done|].
    split; [intros h b Hin; by apply elem_of_nil in Hin|]. split; [done|]. split; [done|done|split; [apply NoDup_nil_2|done]| |by exists []].
    intros e _. apply not_elem_of_nil. }
  wp_step. wp_step. wp_step; [apply Z.ltb_lt in Hif0|apply Z.ltb_ge in Hif0].
  - wp_step. wp_step. cbn [lget lset policyL].
    eapply wp_mono; [by apply (law_evict (cp_all := cp_all))| |by intros e p' ->; destruct s].
    intros [ev|] p'; [|intros ->; wp_step; split; [|by destruct s]; by destruct s].
    intros (Hlen & Hok' & Hall & Hev). wp_step. eapply wp_mono; [apply free_slots_spec| |done]. intros [] s2 ->.
    set (s1 := om_set_policy p' s). set (s2 := om_set_free _ s1).
    assert (blocks s2 = cp_all p') as Eb by done.
    assert (offload_ok s2) as Hs2.
    { split; [done|done|]. cbn. rewrite <-Hsl, Hall, fmap_app. rewrite <-app_assoc, app_assoc. apply Permutation_app_comm. }
    eapply wp_mono; [apply (store_blocks_spec s2 ts ev.*1 Hs2 Hts)| |done].
    + intros h Hh Hin. apply (Hnew h Hh). rewrite (keys_perm _ _ Hall), fmap_app. apply elem_of_app. by right.
    + unfold om_get_num_free_blocks, len in *. cbn. rewrite length_app, length_fmap. lia.
    + intros o s3 (ids & -> & Hst). split; [apply Hst|]. exists ev, (cp_all p'). cbn. split; [done|]. split; [done|].
      split; [|split; [done|exact Hst]]. intros h b Hin. destruct (Hev h b Hin) as [? Hn]. split; [done|].
      by rewrite elem_of_list_to_set in Hn.
  - eapply wp_mono; [apply (store_blocks_spec s ts [] Hs Hts Hnew); lia| |done].
    intros o s3 (ids & -> & Hst). split; [apply Hst|]. exists [], (blocks s). cbn. split; [done|]. split; [done|].
    split; [intros h b Hin; by apply elem_of_nil in Hin|]. by split.
Qed.

(** ** The other operations *)

(** The block cached under [h]. *)
Definition cached (s : CPUOffloadingManager P) (h : BlockHash) : option BlockStatus := cp_get h (om_policy s).

Lemma cached_blocks s h b : offload_ok s → (cached s h = Some b ↔ (h, b) ∈ blocks s).
Proof.
  intros Hs. unfold cached. rewrite (law_get (cp_all := cp_all)) by apply Hs. split; [apply dict_get_Some|].
  apply dict_get_elem, (law_nodup (cp_all := cp_all)), Hs.
Qed.

Lemma cached_alter s h f k :
  offload_ok s → cached (om_set_policy (cp_alter h f (om_policy s)) s) k = if decide (k = h) then f <$> cached s k else cached s k.
Proof.
  intros Hs. destruct (law_alter (cp_all := cp_all) h f (om_policy s) (of_policy _ Hs)) as [Hok Hall].
  unfold cached. cbn. rewrite !(law_get (cp_all := cp_all)) by (done || apply Hs). rewrite Hall.
  generalize (blocks s). intros d. induction d as [|[k' b] d IH]; cbn; [by destruct (decide (k = h))|].
  destruct (decide (k = k')) as [<-|]; [|done]. by destruct (decide (k = h)).
Qed.

Definition loads (h : BlockHash) (hs : list BlockHash) : Z := len (filter (λ x, x = h) hs).

(** The references to [h]. *)
Definition references (s : CPUOffloadingManager P) (h : BlockHash) : Z := Z.max 0 (default 0 (bs_ref_cnt <$> cached s h)).

(** What an operation that takes [extra] more references and gives back those of
    [released] leaves as it was: a block that is being read stays in its slot, and no
    references come up but the extra ones. *)
Record keeps (extra : BlockHash → Z) (released : list BlockHash) (s s' : CPUOffloadingManager P) : Prop := {
  kp_ok : offload_ok s';
  kp_num : om_num_blocks s' = om_num_blocks s;
  kp_held : ∀ h b, cached s h = Some b → h ∉ released → 0 < bs_ref_cnt b → bs_ref_cnt b + extra h < 2 ^ 31 →
    ∃ b', cached s' h = Some b' ∧ bs_block_id b' = bs_block_id b ∧ bs_ref_cnt b ≤ bs_ref_cnt b' ≤ bs_ref_cnt b + extra h;
  kp_most : ∀ h, extra h = 0 → references s' h ≤ references s h
}.

Lemma references_pos s h : 0 ≤ references s h.
Proof. unfold references. lia. Qed.

Lemma references_some s h b : cached s h = Some b → references s h = Z.max 0 (bs_ref_cnt b).
Proof. intros E. unfold references. by rewrite E. Qed.

Lemma keeps_refl rel s : offload_ok s → keeps (λ _, 0) rel s s.
Proof. intros Hs. split; [done|done| |intros; lia]. intros h b E _ Hb _. exists b. repeat split; try done; lia. Qed.

Lemma keeps_trans k k1 k2 rel s s1 s2 :
  (∀ h, 0 ≤ k1 h ∧ 0 ≤ k2 h ∧ k h = k1 h + k2 h) → keeps k1 rel s s1 → keeps k2 rel s1 s2 → keeps k rel s s2.
Proof.
  intros Hk [A1 A2 A3 A4] [B1 B2 B3 B4]. split; [done|congruence| |].
  2:{ intros h Hlt. destruct (Hk h) as (G1 & G2 & G3). specialize (A4 h). specialize (B4 h). lia. }
  intros h b E Hrel Hb Hlt. destruct (Hk h) as (G1 & G2 & G3).
  destruct (A3 h b E Hrel Hb) as (b1 & E1 & I1 & R1); [lia|]. destruct (B3 h b1 E1 Hrel) as (b2 & E2 & I2 & R2); [lia|lia|].
  exists b2. split; [done|]. split; [congruence|lia].
Qed.

Lemma keeps_weaken k rel rel' s s' : rel ⊆ rel' → keeps k rel s s' → keeps k rel' s s'.
Proof. intros Hr [A1 A2 A3 A4]. split; [done|done| |done]. intros h b E Hn. apply A3; [done|]. intros Hin. by apply Hn, Hr. Qed.

Lemma loads_app h l l' : loads h (l ++ l') = loads h l + loads h l'.
Proof. unfold loads, len. rewrite filter_app, length_app. lia. Qed.

Lemma loads_one h x : loads h [x] = if decide (x = h) then 1 else 0.
Proof. unfold loads, len. rewrite filter_cons, filter_nil. by destruct (decide (x = h)). Qed.

Lemma loads_pos h l : 0 ≤ loads h l.
Proof. unfold loads, len. lia. Qed.

Lemma loads_in h l : loads h l ≠ 0 → h ∈ l.
Proof.
  unfold loads, len. destruct (filter _ l) as [|y k] eqn:E; [done|]. intros _.
  assert (y ∈ filter (λ x, x = h) l) as [-> ?]%list_elem_of_filter by (rewrite E; left). done.
Qed.

Lemma wrap32_id z : - 2 ^ 31 ≤ z < 2 ^ 31 → wrap32 z = z.
Proof. intros Hz. unfold wrap32. rewrite Z.mod_small; lia. Qed.

Lemma wrap32_le z : 0 ≤ z → wrap32 z ≤ z.
Proof. intros Hz. unfold wrap32. pose proof (Z.mod_le (z + 2 ^ 31) (2 ^ 32)). lia. Qed.

(** A change of one status that keeps the slot. *)
Lemma keeps_alter k rel s h f :
  offload_ok s → (∀ x, 0 ≤ k x) → (∀ b, bs_block_id (f b) = bs_block_id b) →
  (∀ b, cached s h = Some b → h ∉ rel → 0 < bs_ref_cnt b → bs_ref_cnt b + k h < 2 ^ 31 →
     bs_ref_cnt b ≤ bs_ref_cnt (f b) ≤ bs_ref_cnt b + k h) →
  (∀ b, cached s h = Some b → k h = 0 → bs_ref_cnt (f b) ≤ Z.max 0 (bs_ref_cnt b)) →
  keeps k rel s (om_set_policy (cp_alter h f (om_policy s)) s).
Proof.
  intros Hs Hk Hf Href Hmost. split; [by apply alter_ok|done| |].
  2:{ intros x Hx. unfold references at 1. rewrite cached_alter by done.
      destruct (decide (x = h)) as [->|]; [|done]. destruct (cached s h) as [b|] eqn:E; [|apply references_pos].
      rewrite (references_some _ _ _ E). cbn. specialize (Hmost b eq_refl Hx). lia. }
  intros x b E Hrel Hb Hlt. rewrite cached_alter by done.
  destruct (decide (x = h)) as [->|].
  - rewrite E. exists (f b). split; [done|]. split; [done|]. by apply Href.
  - exists b. specialize (Hk x). repeat split; try done; lia.
Qed.

(** The slots of the blocks [hs], in order. *)
Definition slots_of (s : CPUOffloadingManager P) (hs : list BlockHash) (ids : list Z) : Prop :=
  Forall2 (λ h i, ∃ b, cached s h = Some b ∧ bs_block_id b = i) hs ids.

(** [b] with [n] more readers. *)
Definition more_readers (n : Z) (b : BlockStatus) : BlockStatus :=
  if decide (n = 0) then b else set_bs_ref_cnt (bs_ref_cnt b + n) b.

Lemma more_readers_id n b : bs_block_id (more_readers n b) = bs_block_id b.
Proof. unfold more_readers. by destruct (decide (n = 0)). Qed.

Lemma more_readers_one n b : 0 ≤ n →
  set_bs_ref_cnt (bs_ref_cnt (more_readers n b) + 1) (more_readers n b) = more_readers (n + 1) b.
Proof.
  intros Hn. unfold more_readers. rewrite (decide_False (P := n + 1 = 0)) by lia. destruct (decide (n = 0)) as [->|]; [done|].
  unfold set_bs_ref_cnt. cbn. f_equal. unfold wrap32. rewrite Z.add_assoc. f_equal.
  replace ((bs_ref_cnt b + n + 2 ^ 31) mod 2 ^ 32 - 2 ^ 31 + 1 + 2 ^ 31) with ((bs_ref_cnt b + n + 2 ^ 31) mod 2 ^ 32 + 1) by lia.
  rewrite Zplus_mod_idemp_l. f_equal. lia.
Qed.

(** [dn] has been prepared for reading. *)
Record reading (s : CPUOffloadingManager P) (dn : list BlockHash) (s' : CPUOffloadingManager P) : Prop := {
  rg_ok : offload_ok s';
  rg_num : om_num_blocks s' = om_num_blocks s;
  rg_cached : ∀ x, cached s' x = more_readers (loads x dn) <$> cached s x;
  rg_ready : ∀ x, x ∈ dn → ∃ b, cached s x = Some b ∧ is_ready b = true
}.

Lemma reading_keeps s dn s' k : reading s dn s' → (∀ x, loads x dn ≤ k x) → keeps k [] s s'.
Proof.
  intros [A1 A2 A3 A4] Hk. split; [done|done| |].
  2:{ intros h Hh. unfold references. rewrite A3. specialize (Hk h). pose proof (loads_pos h dn).
      assert (loads h dn = 0) as -> by lia. by destruct (cached s h). }
  intros h b E _ Hb Hlt. rewrite A3, E. eexists. split; [done|].
  split; [apply more_readers_id|]. specialize (Hk h). pose proof (loads_pos h dn). unfold more_readers.
  destruct (decide _) as [E0|]; [lia|]. cbn. rewrite wrap32_id by lia. lia.
Qed.

Lemma reading_one s dn s' h :
  reading s dn s' → (h ∉ dn → ∃ b, cached s' h = Some b ∧ is_ready b = true) →
  reading s (dn ++ [h]) (om_set_policy (cp_alter h (λ b, set_bs_ref_cnt (bs_ref_cnt b + 1) b) (om_policy s')) s').
Proof.
  intros [A1 A2 A3 A4] Hh. split; [by apply alter_ok|done| |].
  - intros x. rewrite cached_alter, A3, loads_app, loads_one by done. destruct (decide (x = h)) as [->|]; [|rewrite decide_False by done; by rewrite Z.add_0_r].
    rewrite decide_True by done. destruct (cached s h) as [b|]; [|done]. cbn. f_equal. apply more_readers_one, loads_pos.
  - intros x Hx. apply elem_of_app in Hx as [Hx|Hx]; [by apply A4|]. apply list_elem_of_singleton in Hx as ->. destruct (decide (h ∈ dn)) as [Hin|Hin]; [by apply A4|].
    destruct (Hh Hin) as (b & E & Hb). rewrite A3 in E.
    assert (loads h dn = 0) as E0.
    { unfold loads, len. destruct (filter _ dn) as [|y l] eqn:Ef; [done|].
      assert (y ∈ filter (λ x, x = h) dn) as [-> ?]%list_elem_of_filter by (rewrite Ef; left). done. }
    rewrite E0 in E. destruct (cached s h) as [b'|]; [|done]. cbn in E. unfold more_readers in E. cbn in E. injection E as ->. by exists b.
Qed.

Definition not_ready (s : CPUOffloadingManager P) (h : BlockHash) : Prop :=
  match cached s h with Some b => is_ready b = false | None => True end.

Lemma prepare_load_spec s hs :
  offload_ok s →
  wp (om_prepare_load hs) (λ ids s', reading s hs s' ∧ slots_of s hs ids)
    (λ _ s', ∃ dn x rest, hs = dn ++ x :: rest ∧ reading s dn s' ∧ not_ready s' x) s.
Proof.
  intros Hs. unfold om_prepare_load. apply wp_fold_each with (I := λ dn ids s', reading s dn s' ∧ slots_of s dn ids).
  - intros dn h rest ids s' E [Hr Hsl]. pose proof Hr as [A1 A2 A3 A4].
    assert (not_ready s' h → ∃ dn x rest, hs = dn ++ x :: rest ∧ reading s dn s' ∧ not_ready s' x) as Hexn by by exists dn, h, rest.
    unfold not_ready in Hexn at 1. wp_step. wp_step. wp_step. fold (cached s' h). destruct (cached s' h) as [b|] eqn:Eb; [|by apply Hexn].
    apply (wp_lift_some _ _ b); [done|]. wp_step. apply wp_assert_cases; [intros Hb|done]. wp_step. unfold alter_block. wp_step. wp_step. wp_step.
    cbn [lget lset policyL]. split; [apply reading_one; [done|]; by exists b|]. apply Forall2_app; [done|]. constructor; [|constructor].
    rewrite A3 in Eb. destruct (cached s h) as [b0|]; [|done]. cbn in Eb. exists b0. split; [done|]. injection Eb as <-.
    symmetry. apply more_readers_id.
  - split; [|constructor]. split; [done|done| |by intros x Hx%elem_of_nil]. intros x. cbn. by destruct (cached s x).
Qed.

(** An operation that keeps what is being read also keeps it when it raises. *)
Definition safe {A} (k : BlockHash → Z) (rel : list BlockHash) (m : M (CPUOffloadingManager P) A) : Prop :=
  ∀ s, offload_ok s → wp m (λ _ s', keeps k rel s s') (λ _ s', keeps k rel s s') s.

Lemma safe_loads hs : safe (λ h, loads h hs) [] (om_prepare_load hs).
Proof.
  intros s Hs. eapply wp_mono; [by apply prepare_load_spec| |].
  - intros ids s' [Hr _]. by eapply reading_keeps.
  - intros e s' (dn & y & rest & -> & Hr & _). eapply reading_keeps; [done|]. intros x. rewrite loads_app. pose proof (loads_pos x (y :: rest)). lia.
Qed.

(** A loop of safe turns that take no references. *)
Lemma keeps_next rel s s1 s2 : keeps (λ _, 0) rel s s1 → keeps (λ _, 0) rel s1 s2 → keeps (λ _, 0) rel s s2.
Proof. apply keeps_trans. intros h. lia. Qed.

Lemma safe_complete_load hs : safe (λ _, 0) hs (om_complete_load hs).
Proof.
  intros s Hs. unfold om_complete_load.
  apply wp_for_each_inv; [|by apply keeps_refl]. intros h s' Hin Hk. pose proof (kp_ok _ _ _ _ Hk) as Hs'.
  wp_step. wp_step. wp_step. fold (cached s' h). destruct (cached s' h) as [b|] eqn:Eb; [|done].
  apply (wp_lift_some _ _ b); [done|]. wp_step. apply wp_assert_cases; [intros Hb|done]. unfold alter_block. wp_step. wp_step. cbn [lget lset policyL].
  eapply keeps_next; [done|]. apply keeps_alter; try done. intros b' E' _. rewrite Eb in E'. injection E' as <-. apply Z.ltb_lt in Hb. cbn.
  pose proof (wrap32_le (bs_ref_cnt b - 1)). lia.
Qed.

(** No block has come in with references. *)
Lemma fewer_references s s' h : (∀ b, cached s' h = Some b → bs_ref_cnt b ≤ 0 ∨ cached s h = Some b) → references s' h ≤ references s h.
Proof.
  intros Hb. pose proof (references_pos s h). destruct (cached s' h) as [b|] eqn:E; [|unfold references at 1; rewrite E; cbn; lia].
  rewrite (references_some _ _ _ E). destruct (Hb b eq_refl) as [?|E']; [lia|]. by rewrite (references_some _ _ _ E').
Qed.

Lemma keeps_same_blocks rel s s' : offload_ok s → offload_ok s' → om_num_blocks s' = om_num_blocks s → blocks s' ≡ₚ blocks s → keeps (λ _, 0) rel s s'.
Proof.
  intros Hs Hs' En Hp. assert (∀ h b, cached s' h = Some b → cached s h = Some b) as Hback.
  { intros h b E. apply cached_blocks; [done|]. rewrite <-Hp. by apply cached_blocks. }
  split; [done|done| |intros h _; apply fewer_references; auto]. intros h b E _ Hb _. exists b. apply cached_blocks in E; [|done].
  rewrite cached_blocks, Hp by done. repeat split; try done; lia.
Qed.

Lemma safe_touch hs : safe (λ _, 0) [] (om_touch hs).
Proof.
  intros s Hs. unfold om_touch. wp_step. cbn [lget lset policyL].
  assert (∀ p', cp_ok p' ∧ cp_all p' ≡ₚ blocks s → keeps (λ _, 0) [] s (om_set_policy p' s)) as Hk.
  { intros p' [Hok Hall]. apply keeps_same_blocks; try done. apply ok_policy; [done|done|]. by rewrite Hall. }
  eapply wp_mono; [apply (law_touch (cp_all := cp_all)), Hs|by intros []; eauto|eauto].
Qed.

Lemma safe_take_events : safe (λ _, 0) [] om_take_events.
Proof.
  intros s Hs. unfold om_take_events. wp_step. wp_step. destruct (om_events s); wp_steps; [|by apply keeps_refl].
  destruct Hs as [A1 A2 A3]. by apply keeps_same_blocks.
Qed.

Lemma safe_prepare_store hs : NoDup hs → safe (λ _, 0) [] (om_prepare_store hs).
Proof.
  intros Hnd s Hs. eapply wp_mono; [by apply prepare_store_spec| |by intros e s' ->; apply keeps_refl].
  intros [out|] s' [Hs' Hst]; [|rewrite Hst; by apply keeps_refl]. destruct Hst as (ev & kept & Hall & Eev & Hev & Ets & [B1 B2 B3 B4 B5]).
  split; [done|done| |].
  2:{ intros h _. apply fewer_references. intros b E. apply cached_blocks in E; [|done]. destruct B5 as (bs & _ & Hbs & Hall'). rewrite Hall' in E.
      apply elem_of_app in E as [E|E]; [left|right; apply cached_blocks; [done|]; rewrite Hall; apply elem_of_app; by right].
      apply elem_of_zip_r in E. rewrite Forall_forall in Hbs. specialize (Hbs _ E). apply Z.leb_gt in Hbs. lia. }
  intros h b E _ Hb _. exists b. split; [|split; [done|lia]]. apply cached_blocks in E; [|done]. apply cached_blocks; [done|].
  destruct B5 as (bs & _ & _ & ->). rewrite Hall in E. apply elem_of_app. right. apply elem_of_app in E as [E|E]; [|done].
  destruct (Hev h b E). lia.
Qed.

(** A failed store gives its slot back. *)
Lemma drop_block s h b :
  offload_ok s → cached s h = Some b → is_ready b = false →
  wp (zoom policyL (cp_remove h) ;; _free_block b) (λ _ s', keeps (λ _, 0) [] s s') no_exn s.
Proof.
  intros Hs E Hb. pose proof Hs as [A1 A2 A3]. apply cached_blocks in E as Hin; [|done].
  destruct (law_remove (cp_all := cp_all) h b (om_policy s) A1 Hin) as (p' & Er & Hok & Hall).
  wp_step. wp_step. cbn [lget lset policyL]. unfold wp at 1. rewrite Er. unfold _free_block. wp_step.
  set (s' := om_set_free _ _). assert (offload_ok s') as Hs'.
  { split; [done|done|]. cbn. rewrite <-A3, Hall, fmap_cons. cbn. rewrite Permutation_app_comm, <-app_assoc. cbn.
    rewrite Permutation_app_comm. cbn. done. }
  split; [done|done| |].
  2:{ intros k _. apply fewer_references. intros c Ec. right. apply cached_blocks in Ec; [|done]. apply cached_blocks; [done|].
      rewrite Hall. by right. }
  intros k c Ec _ Hc _. exists c. split; [|split; [done|lia]]. apply cached_blocks in Ec; [|done].
  apply cached_blocks; [done|]. cbn. rewrite Hall in Ec. apply elem_of_cons in Ec as [[= -> ->]|]; [|done].
  apply Z.leb_gt in Hb. lia.
Qed.

Lemma keeps_events s e : offload_ok s → keeps (λ _, 0) [] s (om_set_events e s).
Proof. intros Hs. destruct Hs as [A1 A2 A3]. by apply keeps_same_blocks. Qed.

Lemma safe_complete_store hs success : safe (λ _, 0) [] (om_complete_store hs success).
Proof.
  intros s Hs. unfold om_complete_store. wp_step.
  eapply wp_mono; [apply (wp_fold_each hs [] _ (λ _ _ s', keeps (λ _, 0) [] s s') (λ _ s', keeps (λ _, 0) [] s s'))| |done].
  - intros dn h rest stored s' _ Hk. pose proof (kp_ok _ _ _ _ Hk) as Hs'. wp_step. wp_step. fold (cached s' h).
    destruct (cached s' h) as [b|] eqn:Eb; [|by wp_step]. wp_step; [by wp_step|]. wp_step.
    + wp_step. unfold alter_block. wp_step. wp_step. cbn [lget lset policyL]. wp_step. eapply keeps_next; [done|].
      apply keeps_alter; try done; [|intros b' _ _; cbn; rewrite (wrap32_id 0) by lia; lia].
      intros b' Eb' _ Hb'. rewrite Eb in Eb'. injection Eb' as <-. apply Z.leb_gt in Hif. lia.
    + apply wp_bind_assoc. wp_step. eapply wp_mono; [by apply drop_block| |done].
      intros [] s'' Hd. wp_step. by eapply keeps_next.
  - by apply keeps_refl.
  - intros stored s' Hk. pose proof (kp_ok _ _ _ _ Hk) as Hs'. 
    eapply wp_mono; [apply (add_event_spec _ _ _ (λ _ s'', keeps (λ _, 0) [] s s''))|done|done].
    intros e. eapply keeps_next; [exact Hk|]. by apply keeps_events.
Qed.

(** ** Sequences of calls *)

Inductive offload_call :=
  | OffloadTouch (hs : list BlockHash)
  | OffloadPrepareLoad (hs : list BlockHash)
  | OffloadCompleteLoad (hs : list BlockHash)
  | OffloadPrepareStore (hs : list BlockHash)
  | OffloadCompleteStore (hs : list BlockHash) (success : bool)
  | OffloadTakeEvents.

(** The state a call leaves, also when it raises. *)
Definition do_offload (s : CPUOffloadingManager P) (c : offload_call) : CPUOffloadingManager P :=
  match c with
  | OffloadTouch hs => (om_touch hs s).2
  | OffloadPrepareLoad hs => (om_prepare_load hs s).2
  | OffloadCompleteLoad hs => (om_complete_load hs s).2
  | OffloadPrepareStore hs => (om_prepare_store hs s).2
  | OffloadCompleteStore hs success => (om_complete_store hs success s).2
  | OffloadTakeEvents => (om_take_events s).2
  end.

(** A block is asked to be stored once per call. *)
Definition well_called (c : offload_call) : Prop :=
  match c with OffloadPrepareStore hs => NoDup hs | _ => True end.

Definition loads_of (h : BlockHash) (c : offload_call) : Z :=
  match c with OffloadPrepareLoad hs => loads h hs | _ => 0 end.
Definition released_by (c : offload_call) : list BlockHash :=
  match c with OffloadCompleteLoad hs => hs | _ => [] end.
Definition all_loads (h : BlockHash) (cs : list offload_call) : Z := foldr (λ c n, loads_of h c + n) 0 cs.

Lemma safe_run {A} k rel (m : M (CPUOffloadingManager P) A) s : safe k rel m → offload_ok s → keeps k rel s (m s).2.
Proof. intros Hm Hs. specialize (Hm s Hs). unfold wp in Hm. by destruct (m s) as [[?|?] ?]. Qed.

Lemma do_offload_keeps s c : well_called c → offload_ok s → keeps (λ h, loads_of h c) (released_by c) s (do_offload s c).
Proof.
  intros Hc Hs. destruct c; cbn; (eapply safe_run; [|exact Hs]).
  - apply safe_touch.
  - apply safe_loads.
  - apply safe_complete_load.
  - by apply safe_prepare_store.
  - apply safe_complete_store.
  - apply safe_take_events.
Qed.

Lemma loads_of_pos h c : 0 ≤ loads_of h c.
Proof. destruct c; cbn; try done. apply loads_pos. Qed.

Lemma all_loads_pos h cs : 0 ≤ all_loads h cs.
Proof. induction cs as [|c cs IH]; cbn; [done|]. pose proof (loads_of_pos h c). unfold all_loads in IH. lia. Qed.

Lemma run_keeps s cs :
  Forall well_called cs → offload_ok s → keeps (λ h, all_loads h cs) (cs ≫= released_by) s (foldl do_offload s cs).
Proof.
  intros Hcs. revert s. induction Hcs as [|c cs Hc Hcs IH]; intros s Hs; [by apply keeps_refl|].
  pose proof (do_offload_keeps s c Hc Hs) as Hk. cbn [foldl].
  eapply keeps_trans; [|eapply keeps_weaken; [|exact Hk]|eapply keeps_weaken; [|apply IH, Hk]].
  - intros h. cbn. split; [apply loads_of_pos|]. split; [apply all_loads_pos|done].
  - intros h. cbn. rewrite elem_of_app. tauto.
  - intros h. cbn. rewrite elem_of_app. tauto.
Qed.

(** Slot accounting of a well-formed state, in the terms of the code. *)
Lemma offload_accounts s :
  offload_ok s →
  NoDup (blocks s).*1 ∧ NoDup (slot <$> blocks s) ∧ Forall (λ e, 0 ≤ slot e < om_num_blocks s) (blocks s) ∧
  om_get_num_free_blocks s = om_num_blocks s - len (blocks s).
Proof.
  intros Hs. pose proof (slots_NoDup s Hs) as Hnd. pose proof (slots_bound s Hs) as Hb. pose proof Hs as [A1 A2 A3].
  split; [by apply (law_nodup (cp_all := cp_all))|]. apply NoDup_app in Hnd as (Hnd & _ & _). split; [done|]. split.
  - apply Forall_forall. intros e He. assert (slot e ∈ seqZ 0 (om_num_allocated_blocks s)) as Hi%elem_of_seqZ; [|lia].
    rewrite <-A3. apply elem_of_app. left. by apply list_elem_of_fmap_2.
  - unfold om_get_num_free_blocks. lia.
Qed.

(** ** Counting the loads *)

(** The hashes that [prepare_load] takes a reference of: up to the first that is not ready. *)
Fixpoint ready_prefix (s : CPUOffloadingManager P) (hs : list BlockHash) : list BlockHash :=
  match hs with
  | [] => []
  | h :: rest => match cached s h with Some b => if is_ready b then h :: ready_prefix s rest else [] | None => [] end
  end.

(** The loads of [h] that a call begins, less those it ends. *)
Definition begun (s : CPUOffloadingManager P) (c : offload_call) (h : BlockHash) : Z :=
  match c with
  | OffloadPrepareLoad hs => loads h (ready_prefix s hs)
  | OffloadCompleteLoad hs => - loads h hs
  | _ => 0
  end.

(** The outstanding loads after [cs], where there were [n] before. *)
Fixpoint outstanding (s : CPUOffloadingManager P) (n : BlockHash → Z) (cs : list offload_call) : BlockHash → Z :=
  match cs with [] => n | c :: cs => outstanding (do_offload s c) (λ h, n h + begun s c h) cs end.

(** Only outstanding loads are completed. *)
Fixpoint own_loads (s : CPUOffloadingManager P) (n : BlockHash → Z) (cs : list offload_call) : Prop :=
  match cs with
  | [] => True
  | c :: cs => match c with OffloadCompleteLoad hs => Forall (λ h, loads h hs ≤ n h) hs | _ => True end ∧
      own_loads (do_offload s c) (λ h, n h + begun s c h) cs
  end.

Lemma outstanding_app s n cs cs' : outstanding s n (cs ++ cs') = outstanding (foldl do_offload s cs) (outstanding s n cs) cs'.
Proof. revert s n. induction cs as [|c cs IH]; intros s n; [done|]. cbn. apply IH. Qed.

Lemma own_loads_app s n cs cs' : own_loads s n (cs ++ cs') ↔ own_loads s n cs ∧ own_loads (foldl do_offload s cs) (outstanding s n cs) cs'.
Proof. revert s n. induction cs as [|c cs IH]; intros s n; cbn; [tauto|]. rewrite IH. tauto. Qed.

(** The reference counts are the outstanding loads. *)
Definition counted (s : CPUOffloadingManager P) (n : BlockHash → Z) : Prop := offload_ok s ∧ ∀ h, references s h = n h.

Lemma counted_some s n h b : counted s n → cached s h = Some b → 0 < n h → bs_ref_cnt b = n h.
Proof. intros [_ Hn] E Hp. specialize (Hn h). rewrite (references_some _ _ _ E) in Hn. lia. Qed.

Lemma counted_cached s n h : counted s n → 0 < n h → ∃ b, cached s h = Some b ∧ bs_ref_cnt b = n h.
Proof.
  intros Hc Hp. destruct (cached s h) as [b|] eqn:E; [exists b; split; [done|]; by apply (counted_some s n h b)|].
  destruct Hc as [_ Hn]. specialize (Hn h). unfold references in Hn. rewrite E in Hn. cbn in Hn. lia.
Qed.

Lemma counted_ready s n h b : counted s n → cached s h = Some b → is_ready b = true → bs_ref_cnt b = n h.
Proof. intros [_ Hn] E Hb%Z.leb_le. specialize (Hn h). rewrite (references_some _ _ _ E) in Hn. lia. Qed.

(** What is outstanding is cached where it was. *)
Definition stays (s : CPUOffloadingManager P) (n : BlockHash → Z) (s' : CPUOffloadingManager P) : Prop :=
  ∀ h b, cached s h = Some b → 0 < n h → ∃ b', cached s' h = Some b' ∧ bs_block_id b' = bs_block_id b.

Lemma counted_keeps s n s' : counted s n → (∀ h, n h < 2 ^ 31) → keeps (λ _, 0) [] s s' → counted s' n ∧ stays s n s'.
Proof.
  intros Hc Hlt [K1 K2 K3 K4]. split.
  - split; [done|]. intros h. specialize (K4 h eq_refl). destruct Hc as [Hs Hn] eqn:Ec. rewrite Hn in K4.
    pose proof (references_pos s' h). pose proof (references_pos s h) as Hpos. rewrite Hn in Hpos. destruct (decide (0 < n h)) as [Hp|]; [|lia].
    destruct (counted_cached s n h (conj Hs Hn) Hp) as (b & E & Hb). specialize (Hlt h).
    destruct (K3 h b E) as (b' & E' & _ & Hb'); [apply not_elem_of_nil|lia|lia|]. rewrite (references_some _ _ _ E'). lia.
  - intros h b E Hp. pose proof (counted_some _ _ _ _ Hc E Hp). specialize (Hlt h).
    destruct (K3 h b E) as (b' & E' & Hi & _); [apply not_elem_of_nil|lia|lia|]. eauto.
Qed.

Lemma ready_prefix_all s hs : (∀ x, x ∈ hs → ∃ b, cached s x = Some b ∧ is_ready b = true) → ready_prefix s hs = hs.
Proof.
  induction hs as [|h hs IH]; intros Hr; [done|]. cbn. destruct (Hr h) as (b & -> & ->); [left|]. rewrite IH; [done|].
  intros x Hx. apply Hr. by right.
Qed.

Lemma ready_prefix_stop s dn x rest :
  (∀ x, x ∈ dn → ∃ b, cached s x = Some b ∧ is_ready b = true) → not_ready s x → ready_prefix s (dn ++ x :: rest) = dn.
Proof.
  intros Hr Hx. induction dn as [|h dn IH]; cbn.
  - unfold not_ready in Hx. destruct (cached s x) as [b|]; [by rewrite Hx|done].
  - destruct (Hr h) as (b & -> & ->); [left|]. rewrite IH; [done|]. intros y Hy. apply Hr. by right.
Qed.

Lemma counted_reading s n dn s' : counted s n → (∀ h, n h + loads h dn < 2 ^ 31) → reading s dn s' →
  counted s' (λ h, n h + loads h dn) ∧ stays s n s'.
Proof.
  intros Hc Hlt [R1 R2 R3 R4]. split.
  - split; [done|]. intros h. pose proof (loads_pos h dn). destruct Hc as [Hs Hn] eqn:Ec. destruct (decide (loads h dn = 0)) as [E0|E0].
    + rewrite E0, Z.add_0_r, <-Hn. unfold references. rewrite R3, E0. by destruct (cached s h).
    + destruct (R4 h) as (b & E & Hb); [by apply loads_in|]. pose proof (counted_ready s n h b (conj Hs Hn) E Hb) as Er.
      apply Z.leb_le in Hb. specialize (Hlt h). unfold references. rewrite R3, E. unfold more_readers. cbn.
      rewrite decide_False by done. cbn. rewrite wrap32_id by lia. lia.
  - intros h b E _. exists (more_readers (loads h dn) b). split; [by rewrite R3, E|apply more_readers_id].
Qed.

Lemma counted_prepare_load s n hs : counted s n → (∀ h, n h + loads h hs < 2 ^ 31) →
  counted (do_offload s (OffloadPrepareLoad hs)) (λ h, n h + begun s (OffloadPrepareLoad hs) h) ∧ stays s n (do_offload s (OffloadPrepareLoad hs)).
Proof.
  intros Hc Hlt. pose proof (prepare_load_spec s hs (proj1 Hc)) as Hl. unfold wp in Hl. cbn. destruct (om_prepare_load hs s) as [[ids|e] s']; cbn.
  - destruct Hl as [Hr _]. rewrite ready_prefix_all by apply Hr. by apply counted_reading.
  - destruct Hl as (dn & x & rest & -> & Hr & Hx). assert (∀ h, n h + loads h dn < 2 ^ 31) as Hlt'.
    { intros h. specialize (Hlt h). rewrite loads_app in Hlt. pose proof (loads_pos h (x :: rest)). lia. }
    rewrite ready_prefix_stop; [by apply counted_reading|apply Hr|].
    unfold not_ready in *. rewrite (rg_cached _ _ _ Hr) in Hx. destruct (cached s x) as [b|] eqn:E; [|done]. cbn in Hx.
    destruct (is_ready b) eqn:Hb; [|done]. pose proof (counted_ready s n x b Hc E Hb). apply Z.leb_le in Hb.
    specialize (Hlt' x). pose proof (loads_pos x dn). unfold more_readers, is_ready in Hx. destruct (decide _); apply Z.leb_gt in Hx; [lia|].
    cbn in Hx. rewrite wrap32_id in Hx by lia. lia.
Qed.

(** [dn] has been read. *)
Record returned (s : CPUOffloadingManager P) (n : BlockHash → Z) (dn : list BlockHash) (s' : CPUOffloadingManager P) : Prop := {
  rt_counted : counted s' (λ h, n h - loads h dn);
  rt_stays : ∀ h b, cached s h = Some b → ∃ b', cached s' h = Some b' ∧ bs_block_id b' = bs_block_id b
}.

Lemma counted_complete_load s n hs : counted s n → (∀ h, n h < 2 ^ 31) → Forall (λ h, loads h hs ≤ n h) hs →
  wp (om_complete_load hs) (λ _ s', returned s n hs s') no_exn s.
Proof.
  intros Hc Hlt Hown. unfold om_complete_load.
  eapply wp_mono; [apply (wp_for_each hs _ (λ dn s', returned s n dn s') no_exn)| |done]; [| |by intros [] s'].
  - intros dn h rest s' E [Hc' Hst]. assert (loads h dn < n h) as Hh.
    { rewrite Forall_forall in Hown. assert (h ∈ hs) as Hin by (rewrite E; set_solver). specialize (Hown h Hin). rewrite E, loads_app in Hown.
      change (h :: rest) with ([h] ++ rest) in Hown. rewrite loads_app, loads_one, decide_True in Hown by done. pose proof (loads_pos h rest). lia. }
    destruct (counted_cached s' _ h Hc') as (b & Eb & Hb); [lia|]. wp_step. wp_step. wp_step. fold (cached s' h). apply (wp_lift_some _ _ b); [done|].
    wp_step. apply wp_assert; [apply Z.ltb_lt; lia|]. unfold alter_block. wp_step. wp_step. cbn [lget lset policyL].
    pose proof (Hlt h). pose proof (loads_pos h dn). split.
    + split; [by apply alter_ok; [apply Hc'|]|]. intros x. unfold references. rewrite cached_alter by apply Hc'. rewrite loads_app, loads_one.
      destruct (decide (x = h)) as [->|Hx].
      * rewrite Eb, decide_True by done. cbn. rewrite wrap32_id by lia. lia.
      * rewrite decide_False by done. pose proof (proj2 Hc' x) as Hr. unfold references in Hr. lia.
    + intros x bx Ex. destruct (Hst x bx Ex) as (b' & Ex' & Hi). rewrite cached_alter by apply Hc'. rewrite Ex'.
      destruct (decide (x = h)); [by eexists|by exists b'].
  - split; [|intros h b E; by exists b]. split; [apply Hc|]. intros h. destruct Hc as [_ ->]. change (loads h []) with 0. lia.
Qed.

Lemma counted_step s n c : counted s n → well_called c → (∀ h, n h + loads_of h c < 2 ^ 31) →
  match c with OffloadCompleteLoad hs => Forall (λ h, loads h hs ≤ n h) hs | _ => True end →
  counted (do_offload s c) (λ h, n h + begun s c h) ∧ stays s n (do_offload s c).
Proof.
  intros Hc Hw Hlt Hown. assert (∀ h, n h < 2 ^ 31) as Hlt' by (intros h; specialize (Hlt h); pose proof (loads_of_pos h c); lia).
  pose proof (do_offload_keeps s c Hw (proj1 Hc)) as Hk.
  destruct c as [hs|hs|hs|hs|hs success|]; cbn [begun loads_of released_by] in *; [|by apply counted_prepare_load| | | |].
  2:{ pose proof (counted_complete_load s n hs Hc Hlt' Hown) as Hr. unfold wp in Hr. cbn [do_offload].
      destruct (om_complete_load hs s) as [[[]|e] s']; [|done]. destruct Hr as [[Hs Hn] Hst]. split; [|intros h b E _; by apply Hst].
      split; [done|]. intros h. rewrite Hn. cbn. lia. }
  all: destruct (counted_keeps s n _ Hc Hlt' Hk) as [[Hs Hn] Hst]; (split; [|done]); (split; [done|]); intros h; rewrite Hn; lia.
Qed.

Lemma loads_prefix_le h s hs : loads h (ready_prefix s hs) ≤ loads h hs.
Proof.
  induction hs as [|x hs IH]; [done|]. pose proof (loads_pos h (x :: hs)). cbn [ready_prefix].
  destruct (cached s x) as [b|]; [|done]. destruct (is_ready b); [|done].
  change (x :: ready_prefix s hs) with ([x] ++ ready_prefix s hs). change (x :: hs) with ([x] ++ hs). rewrite !loads_app. lia.
Qed.

Lemma begun_le s c h : begun s c h ≤ loads_of h c.
Proof. destruct c; cbn; try done; [apply loads_prefix_le|]. pose proof (loads_pos h hs). lia. Qed.

Lemma outstanding_le s n cs h : outstanding s n cs h ≤ n h + all_loads h cs.
Proof.
  revert s n. induction cs as [|c cs IH]; intros s n; cbn; [lia|]. fold (all_loads h cs). specialize (IH (do_offload s c) (λ h, n h + begun s c h)).
  pose proof (begun_le s c h). cbn in IH. lia.
Qed.

Lemma counted_run s n cs : counted s n → Forall well_called cs → own_loads s n cs → (∀ h, n h + all_loads h cs < 2 ^ 31) →
  counted (foldl do_offload s cs) (outstanding s n cs) ∧
  ∀ h b, cached s h = Some b → (∀ k, (k < length cs)%nat → 0 < outstanding s n (take k cs) h) →
    ∃ b', cached (foldl do_offload s cs) h = Some b' ∧ bs_block_id b' = bs_block_id b.
Proof.
  intros Hc Hw. revert s n Hc. induction Hw as [|c cs Hwc Hw IH]; intros s n Hc Hown Hlt; [split; [done|]; intros h b E _; by exists b|].
  cbn in Hown. destruct Hown as [Hown1 Hown]. destruct (counted_step s n c Hc Hwc) as [Hc' Hst]; [|exact Hown1|].
  { intros h. specialize (Hlt h). cbn in Hlt. pose proof (all_loads_pos h cs). unfold all_loads in *. lia. }
  destruct (IH _ _ Hc' Hown) as [Hrun Hslot].
  { intros h. specialize (Hlt h). cbn in Hlt. fold (all_loads h cs) in Hlt. pose proof (loads_of_pos h c).
    pose proof (begun_le s c h). lia. }
  split; [exact Hrun|]. intros h b E Hk. destruct (Hst h b E) as (b1 & E1 & Hi1); [apply (Hk 0%nat); cbn; lia|].
  destruct (Hslot h b1 E1) as (b' & E' & Hi'); [|exists b'; split; [done|congruence]]. intros k Hlk. apply (Hk (S k)). cbn. lia.
Qed.

Lemma all_loads_app h cs cs' : all_loads h (cs ++ cs') = all_loads h cs + all_loads h cs'.
Proof. induction cs as [|c cs IH]; [done|]. cbn. unfold all_loads in *. lia. Qed.

Lemma init_counted block_size num_blocks events :
  offload_ok (CPUOffloadingManager_init block_size num_blocks events) → counted (CPUOffloadingManager_init block_size num_blocks events) (λ _, 0).
Proof.
  intros Hi. split; [done|]. intros h. unfold references. destruct (cached _ h) as [b|] eqn:E; [|done].
  apply cached_blocks in E; [|done]. cbn in E. rewrite (proj2 (law_init (CachePolicyLaws := _) num_blocks)) in E. by apply elem_of_nil in E.
Qed.

(** A load that succeeds, and the calls after it. *)
Lemma load_then_run s n hs ids cs h i slot_id :
  counted s n → Forall well_called cs → own_loads s n (OffloadPrepareLoad hs :: cs) →
  (∀ x, n x + all_loads x (OffloadPrepareLoad hs :: cs) < 2 ^ 31) →
  (om_prepare_load hs s).1 = Ok ids → hs !! i = Some h → ids !! i = Some slot_id →
  (∀ k, (k ≤ length cs)%nat → 0 < outstanding s n (OffloadPrepareLoad hs :: take k cs) h) →
  ∃ b, cached (foldl do_offload s (OffloadPrepareLoad hs :: cs)) h = Some b ∧ bs_block_id b = slot_id ∧
    bs_ref_cnt b = outstanding s n (OffloadPrepareLoad hs :: cs) h.
Proof.
  intros Hc Hw [_ Hown] Hlt E Hh Hid Hk. destruct (counted_step s n (OffloadPrepareLoad hs) Hc I) as [Hc1 _]; [|done|].
  { intros x. specialize (Hlt x). cbn in Hlt |- *. pose proof (all_loads_pos x cs). unfold all_loads in *. lia. }
  pose proof (prepare_load_spec s hs (proj1 Hc)) as Hl. unfold wp in Hl. cbn [foldl outstanding do_offload] in *.
  destruct (om_prepare_load hs s) as [[ids'|] s1] eqn:E1; [|done]. cbn in E. injection E as ->. destruct Hl as [Hr Hsl]. cbn [snd] in *.
  destruct (Forall2_lookup_l _ _ _ _ _ Hsl Hh) as (? & Hid' & b & Eb & Ei). rewrite Hid in Hid'. injection Hid' as <-.
  assert (cached s1 h = Some (more_readers (loads h hs) b)) as Eb1 by by rewrite (rg_cached _ _ _ Hr), Eb.
  destruct (counted_run s1 _ cs Hc1 Hw Hown) as [Hc2 Hslot].
  { intros x. specialize (Hlt x). cbn in Hlt |- *. fold (all_loads x cs) in Hlt. pose proof (loads_prefix_le x s hs). lia. }
  destruct (Hslot h _ Eb1) as (b2 & E2 & Hi2); [intros k Hlk; apply Hk; lia|]. exists b2. split; [exact E2|].
  split; [by rewrite Hi2, more_readers_id|]. specialize (Hk (length cs) (le_n _)). rewrite firstn_all in Hk. by apply (counted_some _ _ _ _ Hc2).
Qed.

(** Nothing is evicted, and nothing fails, while there is room. *)
Lemma prepare_store_room s hs :
  offload_ok s → NoDup hs → len (filter (λ h, h ∉ (blocks s).*1) hs) ≤ om_get_num_free_blocks s →
  wp (om_prepare_store hs) (λ o _, ∃ out, o = Some out ∧ block_hashes_evicted out = []) no_exn s.
Proof.
  intros Hs Hnd Hroom. pose proof Hs as [Hp Hr Hsl]. unfold om_prepare_store. wp_step. wp_step.
  rewrite (to_store_blocks s hs Hp). set (ts := filter _ hs) in *. assert (NoDup ts) as Hts by by apply NoDup_filter.
  assert (∀ h, h ∈ ts → h ∉ (blocks s).*1) as Hnew by (by intros h [? _]%list_elem_of_filter).
  wp_step; [by wp_step; eexists|]. wp_step. wp_step. wp_step; [apply Z.ltb_lt in Hif0; lia|].
  eapply wp_mono; [apply (store_blocks_spec s ts [] Hs Hts Hnew Hroom)| |done]. intros o s' (ids & -> & _). by eexists.
Qed.
End manager.

(** ** Storing only what is asked for again *)

Record FilterReusedOffloadingManager (P : Type) := mkFilterReused {
  _backing : CPUOffloadingManager P;
  store_threshold : Z;
  max_tracker_size : Z;
  counts : list (BlockHash * Z)
}.
Arguments mkFilterReused {P}.
Arguments _backing {P}.
Arguments store_threshold {P}.
Arguments max_tracker_size {P}.
Arguments counts {P}.

Section reused.
Context {P : Type} `{CachePolicy P}.
Abbreviation Flt := (FilterReusedOffloadingManager P).

Definition set_backing (b : CPUOffloadingManager P) (s : Flt) : Flt := mkFilterReused b (store_threshold s) (max_tracker_size s) (counts s).
Definition set_counts (d : list (BlockHash * Z)) (s : Flt) : Flt := mkFilterReused (_backing s) (store_threshold s) (max_tracker_size s) d.
Definition backingL : lens Flt (CPUOffloadingManager P) := Lens _backing set_backing.

Definition FilterReusedOffloadingManager_init (backing : CPUOffloadingManager P) (threshold max_size : Z) : res Flt :=
  if threshold <? 2 then Err ValueError
  else if max_size <? 1 then Err ValueError
  else Ok (mkFilterReused backing threshold max_size []).

(** One turn of the loop of [lookup]. *)
Definition record_seen (max_size : Z) (d : list (BlockHash * Z)) (h : BlockHash) : list (BlockHash * Z) :=
  match dict_get d h with
  | Some n => dict_set (move_to_end d h) h (n + 1)
  | None => dict_set (if max_size <=? len d then tail d else d) h 1
  end.

Definition fr_lookup (block_hashes : list BlockHash) : M Flt Z :=
  modify (λ s, set_counts (foldl (record_seen (max_tracker_size s)) (counts s) block_hashes) s) ;;
  gets (λ s, om_lookup block_hashes (_backing s)).

Definition eligible (s : Flt) (block_hashes : list BlockHash) : list BlockHash :=
  filter (λ h, store_threshold s ≤ default 0 (dict_get (counts s) h)) block_hashes.

Definition fr_prepare_store (block_hashes : list BlockHash) : M Flt (option PrepareStoreOutput) :=
  s ← gets id;
  zoom backingL (om_prepare_store (eligible s block_hashes)).

Definition fr_prepare_load (block_hashes : list BlockHash) : M Flt (list Z) := zoom backingL (om_prepare_load block_hashes).
Definition fr_touch (block_hashes : list BlockHash) : M Flt unit := zoom backingL (om_touch block_hashes).
Definition fr_complete_load (block_hashes : list BlockHash) : M Flt unit := zoom backingL (om_complete_load block_hashes).
Definition fr_complete_store (block_hashes : list BlockHash) (success : bool) : M Flt unit :=
  zoom backingL (om_complete_store block_hashes success).
Definition fr_take_events : M Flt (list OffloadingEvent) := zoom backingL om_take_events.

(** The tracker is a bounded table, and it never counts more than was seen. *)
Definition tracker_ok (max_size : Z) (seen : list BlockHash) (d : list (BlockHash * Z)) : Prop :=
  NoDup d.*1 ∧ len d ≤ max_size ∧ ∀ h n, dict_get d h = Some n → 0 < n ≤ loads h seen.

Lemma record_seen_ok max_size seen d h :
  1 ≤ max_size → tracker_ok max_size seen d → tracker_ok max_size (seen ++ [h]) (record_seen max_size d h).
Proof.
  intros Hmax (Hnd & Hlen & Hc). pose proof (loads_pos h seen) as Hpos. unfold record_seen.
  assert (∀ k n, dict_get d k = Some n → 0 < n ≤ loads k (seen ++ [h])) as Hc'.
  { intros k n E. rewrite loads_app, loads_one. specialize (Hc k n E). destruct (decide (h = k)); lia. }
  assert (∀ d' m, NoDup d'.*1 → len (dict_set d' h m) ≤ max_size → (∀ k n, dict_get d' k = Some n → dict_get d k = Some n) →
    0 < m ≤ loads h seen + 1 → tracker_ok max_size (seen ++ [h]) (dict_set d' h m)) as Hset.
  { intros d' m Hd' Hl Hsub Hm. split; [by apply dict_set_NoDup|]. split; [done|]. intros k n. rewrite dict_get_set.
    destruct (decide (k = h)) as [->|]; [|by intros E%Hsub; apply Hc']. intros [= <-]. rewrite loads_app, loads_one, decide_True by done. lia. }
  destruct (dict_get d h) as [n|] eqn:E.
  - pose proof (move_to_end_perm d h) as Hp. assert (NoDup (move_to_end d h).*1) as Hnd' by by rewrite (keys_perm _ _ Hp).
    apply Hset; [done| | |].
    + unfold len. rewrite <-(length_fmap fst), dict_set_keys, bool_decide_eq_true_2, length_fmap, Hp; [done|]. rewrite (keys_perm _ _ Hp).
      apply dict_get_Some in E. by eapply elem_keys.
    + intros k m Em. apply dict_get_elem; [done|]. apply dict_get_Some in Em. by rewrite Hp in Em.
    + specialize (Hc h n E). lia.
  - apply dict_get_None in E as Hn.
    assert (∀ d', d' `sublist_of` d → len d' < max_size → tracker_ok max_size (seen ++ [h]) (dict_set d' h 1)) as Hsub.
    { intros d' Hsub Hlt. assert (NoDup d'.*1) as Hd' by (eapply sublist_NoDup; [exact Hnd|by apply sublist_fmap]). apply Hset; [done| | |lia].
      - rewrite dict_set_fresh; [unfold len in *; rewrite length_app; cbn; lia|]. intros Hin. apply Hn.
        eapply elem_of_sublist; [exact Hin|by apply sublist_fmap].
      - intros k m Em. apply dict_get_elem; [done|]. eapply elem_of_sublist; [by apply dict_get_Some|done]. }
    destruct (Z.leb_spec max_size (len d)); apply Hsub; try done.
    + destruct d; cbn; [done|]. by constructor.
    + unfold len in *. destruct d; cbn in *; lia.
Qed.

(** What is stored has been looked up [store_threshold] times. *)
Lemma eligible_seen s seen hs h :
  tracker_ok (max_tracker_size s) seen (counts s) → 1 ≤ store_threshold s → h ∈ eligible s hs → h ∈ hs ∧ store_threshold s ≤ loads h seen.
Proof.
  intros (_ & _ & Hc) Ht [Hle Hin]%list_elem_of_filter. split; [done|]. destruct (dict_get (counts s) h) as [n|] eqn:E; cbn in Hle; [|lia].
  specialize (Hc h n E). lia.
Qed.
End reused.

(** ** The contract of the manager *)

Section contract.
Context {P : Type} `{CachePolicy P} (cp_ok : P → Prop) (cp_all : P → list entry) `{!CachePolicyLaws P cp_ok cp_all}.

(** The manager after the calls [cs]. *)
Definition offload_run (block_size num_blocks : Z) (events : bool) (cs : list offload_call) : CPUOffloadingManager P :=
  foldl do_offload (CPUOffloadingManager_init block_size num_blocks events) cs.

Lemma offload_run_ok block_size num_blocks events cs :
  0 ≤ num_blocks < 2 ^ 63 → Forall well_called cs →
  offload_ok cp_ok cp_all (offload_run block_size num_blocks events cs) ∧
  om_num_blocks (offload_run block_size num_blocks events cs) = num_blocks.
Proof.
  intros Hn Hcs. pose proof (offload_init_ok cp_ok cp_all block_size num_blocks events Hn) as Hi.
  destruct (run_keeps cp_ok cp_all _ cs Hcs Hi) as [A1 A2 A3]. done.
Qed.

(** C34: the buffer slots of the offload cache are never lost and never shared, for
    any lawful replacement policy and after any sequence of calls, the ones that raise
    included, in which no [prepare_store] names a hash twice ([repeated_hash_loses_slot]): each block hash is cached once, each cached block has a slot of its own
    within the buffer, and every other slot is free. *)
Theorem offload_slots block_size num_blocks events cs :
  0 ≤ num_blocks < 2 ^ 63 → Forall well_called cs →
  let s := offload_run block_size num_blocks events cs in
  let cache := cp_all (om_policy s) in
  (∀ h, cp_get h (om_policy s) = dict_get cache h) ∧ NoDup cache.*1 ∧ NoDup (slot <$> cache) ∧
  Forall (λ e, 0 ≤ slot e < num_blocks) cache ∧ om_get_num_free_blocks s = num_blocks - len cache.
Proof.
  intros Hn Hcs s cache. destruct (offload_run_ok block_size num_blocks events cs Hn Hcs) as [Hs En]. fold s in Hs, En.
  pose proof (offload_accounts cp_ok cp_all s Hs) as (H1 & H2 & H3 & H4). rewrite En in H3, H4.
  split; [|done]. intros h. apply (law_get (cp_all := cp_all)), Hs.
Qed.

(** C35: [prepare_store] stores the hashes that are not cached, each in a slot of
    the buffer that no cached block has, and marks them not ready.  What it evicts is idle
    and was not asked for, and the rest of the cache stays.  If it cannot, or raises, the
    manager is as before; it does succeed, and evicts nothing, when there is room. *)
Theorem prepare_store_correct block_size num_blocks events cs hs :
  0 ≤ num_blocks < 2 ^ 63 → Forall well_called cs → NoDup hs →
  let s := offload_run block_size num_blocks events cs in
  let cache := cp_all (om_policy s) in
  let to_store := filter (λ h, h ∉ cache.*1) hs in
  let '(r, s') := om_prepare_store hs s in
  match r with
  | Ok (Some out) => ∃ evicted kept blocks,
      cache ≡ₚ evicted ++ kept ∧ block_hashes_evicted out = evicted.*1 ∧
      (∀ h b, (h, b) ∈ evicted → bs_ref_cnt b = 0 ∧ h ∉ hs) ∧
      block_hashes_to_store out = to_store ∧ store_spec out = bs_block_id <$> blocks ∧
      cp_all (om_policy s') ≡ₚ zip to_store blocks ++ kept ∧ length blocks = length to_store ∧
      Forall (λ b, is_ready b = false ∧ 0 ≤ bs_block_id b < num_blocks) blocks ∧
      NoDup (store_spec out) ∧ (∀ e, e ∈ kept → slot e ∉ store_spec out)
  | _ => s' = s ∧ om_get_num_free_blocks s < len to_store
  end ∧
  (len to_store ≤ om_get_num_free_blocks s → ∃ out, r = Ok (Some out) ∧ block_hashes_evicted out = []).
Proof.
  intros Hn Hcs Hnd s cache to_store. destruct (offload_run_ok block_size num_blocks events cs Hn Hcs) as [Hs En]. fold s in Hs, En.
  pose proof (prepare_store_spec cp_ok cp_all s hs Hs Hnd) as Hps. pose proof (prepare_store_room cp_ok cp_all s hs Hs Hnd) as Hroom.
  fold cache to_store in Hroom. unfold wp in Hps, Hroom. destruct (om_prepare_store hs s) as [r s'].
  assert (len to_store ≤ om_get_num_free_blocks s → ∃ out, r = Ok (Some out) ∧ block_hashes_evicted out = []) as Hfits.
  { intros Hle. specialize (Hroom Hle). destruct r as [o|]; [|done]. destruct Hroom as (out & -> & ?). by exists out. }
  split; [|exact Hfits]. 
  assert ((∀ out, r ≠ Ok (Some out)) → om_get_num_free_blocks s < len to_store) as Hfull.
  { intros Hne. destruct (Z.lt_ge_cases (om_get_num_free_blocks s) (len to_store)) as [|Hge]; [done|].
    destruct (Hfits Hge) as (out & E & _). by apply Hne in E. }
  destruct r as [[out|]|e]; [|split; [apply Hps|by apply Hfull]..].
  destruct Hps as (_ & ev & kept & Hall & Eev & Hev & Ets & [B1 B2 (B3 & B4 & B5) B6 (bs & Eids & Hbs & Hall')]).
  fold cache to_store in Ets. rewrite En in B5. exists ev, kept, bs. rewrite Ets in *. do 5 (split; [done|]). split; [done|].
  split; [by rewrite <-B4, Eids, length_fmap|]. split; [|done]. apply Forall_and. split; [done|]. rewrite Eids in B5. by apply Forall_fmap in B5.
Qed.

(** C36: a block prepared for loading can be read until its loads are completed.  Let each caller
    complete only loads that were prepared before ([own_loads]).  Then every reference count is the
    number of outstanding loads of the block, and as long as some load of a block that [prepare_load]
    returned is outstanding, by this caller or another, whatever is called in between, stores that
    need room and calls that raise included, the block stays cached in the slot that was returned. *)
Theorem prepared_load_protected block_size num_blocks events before hs ids after h i slot_id :
  0 ≤ num_blocks < 2 ^ 63 →
  let init := CPUOffloadingManager_init block_size num_blocks events in
  let cs := before ++ OffloadPrepareLoad hs :: after in
  Forall well_called cs → own_loads init (λ _, 0) cs → (∀ x, all_loads x cs < 2 ^ 31) →
  (om_prepare_load hs (offload_run block_size num_blocks events before)).1 = Ok ids → hs !! i = Some h → ids !! i = Some slot_id →
  (∀ k, (k ≤ length after)%nat → 0 < outstanding init (λ _, 0) (before ++ OffloadPrepareLoad hs :: take k after) h) →
  let s := offload_run block_size num_blocks events cs in
  (∀ x, Z.max 0 (default 0 (bs_ref_cnt <$> cp_get x (om_policy s))) = outstanding init (λ _, 0) cs x) ∧
  ∃ b, cp_get h (om_policy s) = Some b ∧ bs_block_id b = slot_id ∧ bs_ref_cnt b = outstanding init (λ _, 0) cs h.
Proof.
  intros Hn init cs Hw Hown Hlt Hids Hh Hid Hk s. pose proof (offload_init_ok cp_ok cp_all block_size num_blocks events Hn) as Hi.
  pose proof (init_counted cp_ok cp_all _ _ _ Hi) as H0. destruct (counted_run cp_ok cp_all init _ cs H0 Hw Hown Hlt) as [Hc _]. split; [apply Hc|].
  unfold s, cs, offload_run in *. apply Forall_app in Hw as [Hw1 [_ Hw2]%Forall_cons]. apply own_loads_app in Hown as [Hown1 Hown2].
  assert (∀ x, 0 ≤ all_loads x (OffloadPrepareLoad hs :: after)) as Hpos by (intros x; apply all_loads_pos).
  destruct (counted_run cp_ok cp_all init _ before H0 Hw1 Hown1) as [Hc1 _].
  { intros x. specialize (Hlt x). rewrite all_loads_app in Hlt. specialize (Hpos x). lia. }
  rewrite foldl_app, outstanding_app.
  apply (load_then_run cp_ok cp_all _ _ hs ids after h i slot_id Hc1 Hw2 Hown2); [|exact Hids|exact Hh|exact Hid|].
  - intros x. specialize (Hlt x). rewrite all_loads_app in Hlt. pose proof (outstanding_le init (λ _, 0) before x) as Hle. cbv beta in Hle. lia.
  - intros k Hlk. rewrite <-outstanding_app. by apply Hk.
Qed.
End contract.

(** Two blocks stored, the second used last. *)
Definition two_stores : list offload_call :=
  [OffloadPrepareStore [[1]; [2]]; OffloadCompleteStore [[1]; [2]] true; OffloadTouch [[2]]].

Lemma two_stores_called : Forall well_called two_stores.
Proof. repeat constructor; decide_now. Qed.

Lemma offload_slots_witness :
  let s := offload_run (P := ARCCachePolicy) 16 2 true two_stores in
  om_get_num_free_blocks s = 0 ∧ om_get_num_free_blocks s = 2 - len (arc_all (om_policy s)).
Proof.
  split; [by vm_compute|].
  apply (offload_slots (P := ARCCachePolicy) arc_ok arc_all 16 2 true two_stores); [lia|apply two_stores_called].
Defined.

Lemma prepare_store_correct_witness :
  let s := offload_run (P := LRUCachePolicy) 16 2 true two_stores in
  let '(r, s') := om_prepare_store [[2]; [3]] s in
  ∃ out blocks, r = Ok (Some out) ∧ block_hashes_evicted out = [[1]] ∧ store_spec out = bs_block_id <$> blocks ∧
    Forall (λ b, is_ready b = false ∧ 0 ≤ bs_block_id b < 2) blocks.
Proof.
  assert (NoDup [[2]; [3]]) as Hnd by decide_now.
  pose proof (prepare_store_correct (P := LRUCachePolicy) _ _ 16 2 true two_stores [[2]; [3]] ltac:(lia) two_stores_called Hnd) as H.
  set (s := offload_run 16 2 true two_stores) in *. cbv zeta in *. destruct (om_prepare_store [[2]; [3]] s) as [r s'] eqn:E.
  assert (∃ out, r = Ok (Some out) ∧ block_hashes_evicted out = [[1]]) as (out & -> & Eev).
  { change r with ((r, s').1). rewrite <-E. eexists. split; vm_compute; reflexivity. }
  destruct H as [(ev & kept & blocks & _ & _ & _ & _ & Eids & _ & _ & Hb & _) _]. by exists out, blocks.
Defined.

(** One of two loads of a block is completed, then two stores ask for room. *)
Definition more_stores : list offload_call := [OffloadCompleteLoad [[1]]; OffloadPrepareStore [[3]]; OffloadPrepareStore [[4]; [5]]].

Definition first_load : list offload_call := two_stores ++ [OffloadPrepareLoad [[1]]].

Lemma prepared_load_protected_witness :
  let s := offload_run (P := LRUCachePolicy) 16 2 true (first_load ++ OffloadPrepareLoad [[1]] :: more_stores) in
  (om_prepare_load [[1]] (offload_run (P := LRUCachePolicy) 16 2 true first_load)).1 = Ok [0] ∧
  ∃ b, cp_get [1] (om_policy s) = Some b ∧ bs_block_id b = 0 ∧ bs_ref_cnt b = 1.
Proof.
  intros s. assert ((om_prepare_load [[1]] (offload_run (P := LRUCachePolicy) 16 2 true first_load)).1 = Ok [0]) as E by by vm_compute.
  split; [exact E|].
  destruct (prepared_load_protected (P := LRUCachePolicy) _ _ 16 2 true first_load [[1]] [0] more_stores [1] 0 0) as [_ (b & Eb & Ei & Er)];
    [lia| | | |exact E|done|done| |].
  - repeat constructor; decide_now.
  - cbn [own_loads first_load two_stores more_stores app]. repeat split. constructor; [by vm_compute|constructor].
  - intros x. cbn. unfold loads, len. rewrite !filter_cons, filter_nil. destruct (decide ([1] = x)); by vm_compute.
  - intros k Hk. do 4 (destruct k as [|k]; [by vm_compute|]). cbn in Hk. lia.
  - exists b. split; [exact Eb|]. split; [exact Ei|]. rewrite Er. by vm_compute.
Defined.

(** A store call that names a hash twice uses two slots for one block: the first is lost. *)
Example repeated_hash_loses_slot :
  let s := offload_run (P := LRUCachePolicy) 16 2 true [OffloadPrepareStore [[1]; [1]]] in
  bs_block_id <$> cp_get [1] (om_policy s) = Some 1 ∧ om_get_num_free_blocks s = 0 ∧ cp_get [2] (om_policy s) = None.
Proof. by vm_compute. Qed.
