(* ===== verification/Detokenizer.v ===== *)
(** * Incremental detokenization and stop strings

    [vllm/v1/engine/detokenizer.py] with [vllm/tokenizers/detokenizer_utils.py]: the text
    of a request grows token by token, is searched for stop strings and is handed out in
    pieces.  A text is a list of code points.  The class [Decoder] has [decode_next] of the
    two subclasses, which call the tokenizer libraries; those are parameters, the records
    [FastTokenizer] and [SlowTokenizer]. *)

From stdpp Require Import base list.
From Stdlib Require Import ZArith Lia.
From S2P Require Import Prelude.
Local Open Scope Z_scope.

Abbreviation text := (list Z).
Abbreviation tlen l := (Z.of_nat (length l)).

(** ** Searching a text *)

(** [s] starts with [sub]. *)
Definition starts_with (s sub : text) : bool := bool_decide (take (length sub) s = sub).

(** The first index at which [sub] occurs in [s]. *)
Fixpoint find_from (s sub : text) : option Z :=
  if starts_with s sub then Some 0
  else match s with
  | [] => None
  | _ :: r => Z.succ <$> find_from r sub
  end.

(** [s.find(sub, start)] *)
Definition py_find (s sub : text) (start : Z) : Z :=
  let st := if start <? 0 then Z.max 0 (tlen s + start) else start in
  if tlen s <? st then -1
  else match find_from (drop (Z.to_nat st) s) sub with
  | Some k => st + k
  | None => -1
  end.

(** The loop over the stop strings. *)
Fixpoint check_each (output_text : text) (new_char_count : Z) (stop : list text) (include_in_output : bool) : option (text * Z) :=
  match stop with
  | [] => None
  | stop_str :: rest =>
      let stop_index := py_find output_text stop_str (1 - new_char_count - tlen stop_str) in
      if bool_decide (stop_index = -1) then check_each output_text new_char_count rest include_in_output
      else if include_in_output then
        let stop_index := stop_index + tlen stop_str in
        if tlen output_text <=? stop_index then Some (stop_str, -1) else Some (stop_str, stop_index)
      else Some (stop_str, stop_index)
  end.

Definition check_stop_strings (output_text : text) (new_char_count : Z) (stop : list text) (include_in_output : bool) : option (text * Z) :=
  if bool_decide (new_char_count = 0) || bool_decide (stop = []) then None
  else check_each output_text new_char_count stop include_in_output.

(** ** The detokenizer *)

(** The part of the sampling parameters that concerns the output. *)
Inductive StopParam := StopNone | StopOne (s : text) | StopMany (l : list text).
Inductive RequestOutputKind := CUMULATIVE | DELTA | FINAL_ONLY.
Record OutputParams := mkOutputParams {
  op_stop : StopParam;
  op_min_tokens : Z;
  op_include_stop_str_in_output : bool;
  op_skip_special_tokens : bool;
  op_spaces_between_special_tokens : bool;
  op_detokenize : bool;
  op_output_kind : RequestOutputKind;
  op_n : Z;
  op_seed : option Z
}.

#[export] Instance RequestOutputKind_eq_dec : EqDecision RequestOutputKind.
Proof. solve_decision. Defined.

(** What a subclass adds: [decode_next], given all token ids, and the length of the prompt
    among them. *)
Class Decoder (D : Type) := {
  decode_next : list Z → Z → M D text;
  prompt_part : D → Z
}.

Record Detokenizer (D : Type) := mkDetok {
  token_ids : list Z;
  stop : list text;
  dt_min_tokens : Z;
  include_stop_str_in_output : bool;
  stop_buffer_length : Z;
  _last_output_text_offset : Z;
  output_text : text;
  decoder : D
}.
Arguments mkDetok {D}.
Arguments token_ids {D}.
Arguments stop {D}.
Arguments dt_min_tokens {D}.
Arguments include_stop_str_in_output {D}.
Arguments stop_buffer_length {D}.
Arguments _last_output_text_offset {D}.
Arguments output_text {D}.
Arguments decoder {D}.

Section detokenizer.
Context {D : Type} `{Decoder D}.
Abbreviation Det := (Detokenizer D).

Definition set_token_ids (l : list Z) (s : Det) : Det :=
  mkDetok l (stop s) (dt_min_tokens s) (include_stop_str_in_output s) (stop_buffer_length s) (_last_output_text_offset s) (output_text s) (decoder s).
Definition set_offset (n : Z) (s : Det) : Det :=
  mkDetok (token_ids s) (stop s) (dt_min_tokens s) (include_stop_str_in_output s) (stop_buffer_length s) n (output_text s) (decoder s).
Definition set_output_text (t : text) (s : Det) : Det :=
  mkDetok (token_ids s) (stop s) (dt_min_tokens s) (include_stop_str_in_output s) (stop_buffer_length s) (_last_output_text_offset s) t (decoder s).
Definition set_decoder (d : D) (s : Det) : Det :=
  mkDetok (token_ids s) (stop s) (dt_min_tokens s) (include_stop_str_in_output s) (stop_buffer_length s) (_last_output_text_offset s) (output_text s) d.
Definition decoderL : lens Det D := Lens decoder set_decoder.

(** [BaseIncrementalDetokenizer.__init__], of a subclass with decoder [d] that puts [ids]
    first into the token ids. *)
Definition BaseIncrementalDetokenizer_init (params : OutputParams) (ids : list Z) (d : D) : Det :=
  let stop := match op_stop params with StopNone => [] | StopOne s => [s] | StopMany l => l end in
  mkDetok ids stop (op_min_tokens params) (op_include_stop_str_in_output params)
    (if negb (bool_decide (stop = [])) && negb (op_include_stop_str_in_output params)
     then foldr Z.max 0 ((λ s, tlen s) <$> stop) - 1 else 0)
    0 [] d.

Definition output_token_ids (s : Det) : list Z := drop (Z.to_nat (prompt_part (decoder s))) (token_ids s).
Definition num_output_tokens (s : Det) : Z := tlen (token_ids s) - prompt_part (decoder s).

(** One turn of the loop over the new tokens; its value is [stop_check_offset]. *)
Definition detokenize_one (stop_check_offset new_token_id : Z) : M Det Z :=
  modify (λ s, set_token_ids (token_ids s ++ [new_token_id]) s) ;;
  s ← gets id;
  t ← zoom decoderL (decode_next (token_ids s) new_token_id);
  modify (λ s, set_output_text (output_text s ++ t) s) ;;
  gets (λ s, if negb (bool_decide (dt_min_tokens s = 0)) && (num_output_tokens s <=? dt_min_tokens s)
             then tlen (output_text s) else stop_check_offset).

(** The search for stop strings at the end of [update]. *)
Definition evaluate_stop (stop_check_offset : Z) : M Det (option text) :=
  s ← gets id;
  if negb (bool_decide (stop s = [])) && (dt_min_tokens s <? num_output_tokens s) then
    match check_stop_strings (output_text s) (tlen (output_text s) - stop_check_offset) (stop s) (include_stop_str_in_output s) with
    | Some (stop_string, truncate_to) =>
        (if bool_decide (truncate_to = -1) then mret tt
         else modify (set_output_text (slice 0 truncate_to (output_text s)))) ;;
        mret (Some stop_string)
    | None => mret None
    end
  else mret None.

Definition detok_update (new_token_ids : list Z) (stop_terminated : bool) : M Det (option text) :=
  match last new_token_ids with
  | None => mret None
  | Some last_id =>
      s ← gets id;
      let skip := stop_terminated && negb (include_stop_str_in_output s) in
      let new_ids := if skip then slice 0 (-1) new_token_ids else new_token_ids in
      stop_check_offset ← fold_each new_ids (tlen (output_text s)) detokenize_one;
      (if (skip : bool) then modify (λ s, set_token_ids (token_ids s ++ [last_id]) s) else mret tt) ;;
      evaluate_stop stop_check_offset
  end.

Definition get_next_output_text (finished delta : bool) : M Det text :=
  s ← gets id;
  let buffer_length := if finished then 0 else stop_buffer_length s in
  if negb delta then
    if bool_decide (buffer_length = 0) then mret (output_text s)
    else mret (slice 0 (- buffer_length) (output_text s))
  else
    let length := tlen (output_text s) - buffer_length in
    let last_offset := _last_output_text_offset s in
    if last_offset <? length then
      modify (set_offset length) ;;
      mret (slice last_offset length (output_text s))
    else mret [].
End detokenizer.

(** ** Searching a text: what is found *)

(** [sub] occurs in [s] at index [k]. *)
Definition occurs (s sub : text) (k : Z) : Prop :=
  0 ≤ k ∧ k + tlen sub ≤ tlen s ∧ take (length sub) (drop (Z.to_nat k) s) = sub.

Lemma find_from_Some s sub k : find_from s sub = Some k → occurs s sub k ∧ ∀ j, occurs s sub j → k ≤ j.
Proof.
  revert k. induction s as [|c s IH]; intros k; cbn [find_from]; unfold starts_with.
  - destruct (bool_decide _) eqn:E; [|done]. intros [= <-]. apply bool_decide_eq_true in E. rewrite take_nil in E. subst sub.
    split; [done|]. by intros j [? _].
  - destruct (bool_decide _) eqn:E; [apply bool_decide_eq_true in E|apply bool_decide_eq_false in E].
    + intros [= <-]. split; [|by intros j [? _]]. split; [done|]. split; [|done].
      apply (f_equal length) in E. rewrite length_take in E. cbn [length] in *. lia.
    + intros (k' & Hk & ->)%fmap_Some. destruct (IH k' Hk) as [(H1 & H2 & H3) Hmin]. split.
      * split; [lia|]. cbn [length]. split; [lia|]. replace (Z.to_nat (Z.succ k')) with (S (Z.to_nat k')) by lia. done.
      * intros j (G1 & G2 & G3). destruct (decide (j = 0)) as [->|Hj]; [done|].
        enough (k' ≤ j - 1) by lia. apply Hmin. split; [lia|]. cbn [length] in G2. split; [lia|].
        by replace (Z.to_nat j) with (S (Z.to_nat (j - 1))) in G3 by lia.
Qed.

Lemma find_from_None s sub k : find_from s sub = None → ¬ occurs s sub k.
Proof.
  revert k. induction s as [|c s IH]; intros k; cbn [find_from]; unfold starts_with.
  - destruct (bool_decide _) eqn:E; [done|]. apply bool_decide_eq_false in E. intros _ (_ & _ & Ho). apply E. by rewrite drop_nil in Ho.
  - destruct (bool_decide _) eqn:E; [done|apply bool_decide_eq_false in E]. intros Hn (G1 & G2 & G3). apply fmap_None in Hn.
    destruct (decide (k = 0)) as [->|Hk]; [done|]. apply (IH (k - 1) Hn). split; [lia|]. cbn [length] in G2. split; [lia|].
    by replace (Z.to_nat k) with (S (Z.to_nat (k - 1))) in G3 by lia.
Qed.

Lemma occurs_drop s sub st k :
  0 ≤ st ≤ tlen s → st ≤ k → occurs (drop (Z.to_nat st) s) sub (k - st) ↔ occurs s sub k.
Proof.
  intros Hst Hk. unfold occurs. rewrite length_drop, drop_drop. replace (Z.to_nat st + Z.to_nat (k - st))%nat with (Z.to_nat k) by lia.
  split; intros (G1 & G2 & G3); (split; [lia|]; split; [lia|done]).
Qed.

(** [sub] occurs at [k] and ends within the last [n] characters. *)
Definition occurs_late (n : Z) (s sub : text) (k : Z) : Prop := occurs s sub k ∧ tlen s - n < k + tlen sub.

Lemma py_find_spec s sub n :
  sub ≠ [] → 0 < n →
  let r := py_find s sub (1 - n - tlen sub) in
  (r = -1 ∧ ∀ k, ¬ occurs_late n s sub k) ∨ (occurs_late n s sub r ∧ ∀ k, occurs_late n s sub k → r ≤ k).
Proof.
  intros Hsub Hn r. assert (0 < tlen sub) as Hl by (destruct sub; [done|cbn; lia]).
  unfold r, py_find. rewrite (proj2 (Z.ltb_lt (1 - n - tlen sub) 0)) by lia. cbv zeta. set (st := Z.max 0 (tlen s + (1 - n - tlen sub))).
  destruct (tlen s <? st) eqn:Elt; [apply Z.ltb_lt in Elt; unfold st in Elt; lia|apply Z.ltb_ge in Elt].
  assert (∀ k, occurs_late n s sub k ↔ st ≤ k ∧ occurs (drop (Z.to_nat st) s) sub (k - st)) as Hiff.
  { intros k. unfold st. split.
    - intros [Ho Hlate]. pose proof Ho as (G1 & _). split; [lia|]. apply occurs_drop; [lia|lia|done].
    - intros [Hk Ho]. apply occurs_drop in Ho; [|lia|lia]. split; [done|]. lia. }
  destruct (find_from _ sub) as [k|] eqn:Ef.
  - right. apply find_from_Some in Ef as [Ho Hmin]. pose proof Ho as (G1 & _). split.
    + apply Hiff. split; [lia|]. by replace (st + k - st) with k by lia.
    + intros j [Hj Hoj]%Hiff. specialize (Hmin _ Hoj). lia.
  - left. split; [done|]. intros k [_ Ho]%Hiff. by apply (find_from_None _ _ _ Ef) in Ho.
Qed.

(** The first of the stop strings that ends within the last [n] characters, at its first
    such occurrence [k]. *)
Definition first_stop (n : Z) (s : text) (stop : list text) (str : text) (k : Z) : Prop :=
  ∃ before after, stop = before ++ str :: after ∧ (∀ x j, x ∈ before → ¬ occurs_late n s x j) ∧
    occurs_late n s str k ∧ ∀ j, occurs_late n s str j → k ≤ j.

(** Where the text ends: before the stop string, or after it. *)
Definition stop_cut (include : bool) (s str : text) (k : Z) : Z :=
  if include then (if tlen s <=? k + tlen str then -1 else k + tlen str) else k.

Lemma check_each_spec s n stop inc :
  0 < n → Forall (λ x, x ≠ []) stop →
  match check_each s n stop inc with
  | None => ∀ x j, x ∈ stop → ¬ occurs_late n s x j
  | Some (str, cut) => ∃ k, first_stop n s stop str k ∧ cut = stop_cut inc s str k
  end.
Proof.
  intros Hn. induction stop as [|x l IH]; intros Hne; cbn [check_each]; [by intros x j Hx%elem_of_nil|].
  apply Forall_cons in Hne as [Hx Hl]. specialize (IH Hl). pose proof (py_find_spec s x n Hx Hn) as Hf. cbv zeta in Hf.
  set (r := py_find _ _ _) in *. destruct (bool_decide (r = -1)) eqn:E; [apply bool_decide_eq_true in E|apply bool_decide_eq_false in E].
  - destruct Hf as [[_ Hf]|[[(G & _) _] _]]; [|lia]. destruct (check_each s n l inc) as [[str cut]|].
    + destruct IH as (k & (b & a & -> & Hb & Hk) & Ec). exists k. split; [|done]. exists (x :: b), a. split; [done|]. split; [|done].
      intros y j [->|Hy]%elem_of_cons; [apply Hf|exact (Hb y j Hy)].
    + intros y j [->|Hy]%elem_of_cons; [apply Hf|exact (IH y j Hy)].
  - destruct Hf as [[? _]|[Ho Hmin]]; [done|].
    assert (first_stop n s (x :: l) x r) as Hfirst.
    { exists [], l. split; [done|]. split; [by intros y j Hy%elem_of_nil|done]. }
    unfold stop_cut. destruct inc; [destruct (tlen s <=? r + tlen x) eqn:Ecut|]; exists r; by rewrite ?Ecut.
Qed.

Lemma check_stop_strings_spec s n stop inc :
  0 ≤ n → Forall (λ x, x ≠ []) stop →
  match check_stop_strings s n stop inc with
  | None => ∀ x j, x ∈ stop → ¬ occurs_late n s x j
  | Some (str, cut) => ∃ k, first_stop n s stop str k ∧ cut = stop_cut inc s str k
  end.
Proof.
  intros Hn Hne. unfold check_stop_strings. destruct (decide (n = 0)) as [->|Hn0].
  - cbn. intros x j _ [(_ & H1 & _) H2]. lia.
  - rewrite (bool_decide_eq_false_2 (n = 0)) by done. cbn [orb]. destruct (decide (stop = [])) as [->|Hs].
    + cbn. by intros x j Hx%elem_of_nil.
    + rewrite bool_decide_eq_false_2 by done. apply check_each_spec; [lia|done].
Qed.

Lemma first_stop_unique n s stop str1 k1 str2 k2 :
  first_stop n s stop str1 k1 → first_stop n s stop str2 k2 → str1 = str2 ∧ k1 = k2.
Proof.
  intros (b1 & a1 & E1 & B1 & O1 & M1) (b2 & a2 & E2 & B2 & O2 & M2). rewrite E1 in E2.
  assert (str1 = str2) as ->; [|split; [done|]; specialize (M1 k2 O2); specialize (M2 k1 O1); lia].
  apply app_eq_inv in E2 as [(l & -> & E)|(l & -> & E)]; destruct l as [|y l]; cbn in E; injection E as <- E; try done.
  - exfalso. apply (B1 str2 k2); [|done]. apply elem_of_app. right. left.
  - exfalso. apply (B2 str1 k1); [|done]. apply elem_of_app. right. left.
Qed.

(** ** Detokenizing *)

(** A decoder keeps the prompt apart. *)
Class DecoderLaws (D : Type) `{Decoder D} := law_prompt_part ids t d : prompt_part (decode_next ids t d).2 = prompt_part d.

Section updating.
Context {D : Type} `{DecoderLaws D}.

(** What the decoder makes of [ids] after the tokens [before]. *)
Fixpoint decode_run (before ids : list Z) : M D text :=
  match ids with
  | [] => mret []
  | t :: rest => x ← decode_next (before ++ [t]) t; y ← decode_run (before ++ [t]) rest; mret (x ++ y)
  end.

Lemma decode_run_prompt before ids d : prompt_part (decode_run before ids d).2 = prompt_part d.
Proof.
  revert before d. induction ids as [|t ids IH]; intros before d; cbn [decode_run]; [done|]. unfold mbind, M_bind.
  pose proof (law_prompt_part (before ++ [t]) t d) as Hp. destruct (decode_next _ t d) as [[x|e] d1]; cbn in Hp |- *; [|done].
  specialize (IH (before ++ [t]) d1). destruct (decode_run _ ids d1) as [[y|e] d2]; cbn in IH |- *; congruence.
Qed.

Lemma decode_run_cons before t ids d :
  decode_run before (t :: ids) d =
    match decode_next (before ++ [t]) t d with
    | (Ok x, d1) => match decode_run (before ++ [t]) ids d1 with (Ok y, d2) => (Ok (x ++ y), d2) | (Err e, d2) => (Err e, d2) end
    | (Err e, d1) => (Err e, d1)
    end.
Proof. cbn [decode_run]. unfold mbind, M_bind, mret, M_ret. by destruct (decode_next _ t d) as [[x|e] d1]. Qed.

(** [s] with the tokens [ids] and their text [x]. *)
Definition grown (ids : list Z) (x : text) (d : D) (s : Detokenizer D) : Detokenizer D :=
  set_token_ids (token_ids s ++ ids) (set_output_text (output_text s ++ x) (set_decoder d s)).

Lemma detokenize_loop ids off s :
  off ≤ tlen (output_text s) →
  wp (fold_each ids off detokenize_one)
    (λ off' s', ∃ x d, decode_run (token_ids s) ids (decoder s) = (Ok x, d) ∧ s' = grown ids x d s ∧
       off ≤ off' ≤ tlen (output_text s') ∧ (dt_min_tokens s = 0 → off' = off))
    (λ e _, (decode_run (token_ids s) ids (decoder s)).1 = Err e) s.
Proof.
  revert off s. induction ids as [|t ids IH]; intros off s Hoff; cbn [fold_each].
  { wp_step. exists [], (decoder s). split; [done|]. unfold grown. cbn. rewrite !app_nil_r. split; [by destruct s|]. by split. }
  wp_step. unfold detokenize_one. wp_step. wp_step. wp_step. wp_step. unfold Datatypes.id. wp_step. wp_step. cbn [lget decoderL]. unfold wp at 1. rewrite decode_run_cons.
  cbn [token_ids set_token_ids decoder]. destruct (decode_next (token_ids s ++ [t]) t (decoder s)) as [[x|e] d1]; [|done].
  wp_step. wp_step. wp_step. set (off1 := if _ && _ then _ else off). cbn [lset decoderL].
  set (s1 := set_output_text _ _). assert (s1 = grown [t] x d1 s) as E1 by done. rewrite E1.
  assert (off ≤ off1 ≤ tlen (output_text (grown [t] x d1 s)) ∧ (dt_min_tokens s = 0 → off1 = off)) as [Hoff1 Hmin].
  { assert (tlen (output_text (grown [t] x d1 s)) = tlen (output_text s) + tlen x) as El by (cbn; rewrite length_app; lia).
    unfold off1. split; [|by intros Hm; cbn; rewrite bool_decide_eq_true_2 by done].
    destruct (negb _ && _); rewrite ?El; cbn; rewrite ?length_app; lia. }
  eapply wp_mono; [apply IH; lia| |].
  - intros off' s' (y & d & Er & -> & Ho & Hm). cbn [token_ids grown set_token_ids decoder set_output_text set_decoder] in Er.
    rewrite Er. exists (x ++ y), d. split; [done|]. split; [unfold grown; cbn; by rewrite <-!app_assoc|].
    split; [lia|]. intros E0. rewrite Hm, Hmin; done.
  - intros e s'. cbn [token_ids grown set_token_ids decoder set_output_text set_decoder]. destruct (decode_run _ ids d1) as [[|] ?]; cbn; congruence.
Qed.

(** ** The update of a running request *)

Record running (s : Detokenizer D) : Prop := {
  rn_stop : Forall (λ x, x ≠ []) (stop s);
  rn_buffer : 0 ≤ stop_buffer_length s ∧ (include_stop_str_in_output s = false → ∀ x, x ∈ stop s → tlen x ≤ stop_buffer_length s + 1);
  rn_offset : 0 ≤ _last_output_text_offset s ∧
    (_last_output_text_offset s = 0 ∨ _last_output_text_offset s + stop_buffer_length s ≤ tlen (output_text s))
}.

(** The tokens that are detokenized. *)
Definition fed (s : Detokenizer D) (ids : list Z) (stop_terminated : bool) : list Z :=
  if stop_terminated && negb (include_stop_str_in_output s) then slice 0 (-1) ids else ids.

(** [l[:-k]] *)
Lemma slice_but {A} (l : list A) k : 0 < k → slice 0 (- k) l = take (length l - Z.to_nat k) l.
Proof.
  intros Hk. unfold slice, py_clip, py_index. rewrite (bool_decide_eq_false_2 (0 < 0)) by lia. rewrite (bool_decide_eq_true_2 (- k < 0)) by lia.
  replace (Z.to_nat (Z.max 0 (Z.min (tlen l) 0))) with 0%nat by lia. cbn [drop]. f_equal. lia.
Qed.

Lemma slice_but_last {A} (l : list A) x : slice 0 (-1) (l ++ [x]) = l.
Proof. rewrite (slice_but _ 1) by lia. rewrite length_app. cbn [length]. apply take_app_length'. lia. Qed.

(** The end of an update that has decoded [x], of which [n] characters are searched. *)
Definition updated (n : Z) (s1 : Detokenizer D) (r : option text) (s' : Detokenizer D) : Prop :=
  match r with
  | None => s' = s1 ∧ (dt_min_tokens s1 < num_output_tokens s1 → ∀ y j, y ∈ stop s1 → ¬ occurs_late n (output_text s1) y j)
  | Some str => ∃ k, first_stop n (output_text s1) (stop s1) str k ∧
      s' = set_output_text (take (Z.to_nat (if include_stop_str_in_output s1 then k + tlen str else k)) (output_text s1)) s1
  end.

Lemma evaluate_stop_spec off s :
  Forall (λ x, x ≠ []) (stop s) → off ≤ tlen (output_text s) →
  wp (evaluate_stop off) (λ r s', updated (tlen (output_text s) - off) s r s') no_exn s.
Proof.
  intros Hne Hoff. unfold evaluate_stop. wp_step. wp_step. unfold Datatypes.id.
  destruct (decide (stop s = [])) as [Es|Es].
  { rewrite bool_decide_eq_true_2 by done. cbn [negb andb]. wp_step. split; [done|]. intros _ y j. rewrite Es. by intros Hy%elem_of_nil. }
  rewrite bool_decide_eq_false_2 by done. cbn [negb andb]. destruct (dt_min_tokens s <? num_output_tokens s) eqn:Em.
  2: { wp_step. split; [done|]. apply Z.ltb_ge in Em. lia. }
  pose proof (check_stop_strings_spec (output_text s) (tlen (output_text s) - off) (stop s) (include_stop_str_in_output s) ltac:(lia) Hne) as Hc.
  destruct (check_stop_strings _ _ _ _) as [[str cut]|]; [|wp_step; by split].
  destruct Hc as (k & Hf & ->). pose proof Hf as (_ & _ & _ & _ & ((Hk & Hle & _) & _) & _). unfold stop_cut.
  assert (∀ c : Z, (c = -1 ∧ include_stop_str_in_output s = true ∧ tlen (output_text s) ≤ k + tlen str) ∨
      (0 ≤ c ∧ c = if include_stop_str_in_output s then k + tlen str else k) →
    wp ((if bool_decide (c = -1) then mret tt else modify (set_output_text (slice 0 c (output_text s)))) ;; mret (Some str))
      (λ r s', updated (tlen (output_text s) - off) s r s') no_exn s) as Hcut.
  { intros c [(-> & Ei & Hge)|[Hc ->]].
    - rewrite bool_decide_eq_true_2 by done. wp_step. wp_step. wp_step. exists k. split; [done|]. rewrite Ei, take_ge by lia. by destruct s.
    - rewrite bool_decide_eq_false_2 by (destruct (include_stop_str_in_output s); lia). wp_step. wp_step. wp_step. exists k. split; [done|].
      f_equal. rewrite slice_pos by lia. f_equal. lia. }
  apply Hcut. destruct (include_stop_str_in_output s); [|right; lia].
  destruct (tlen (output_text s) <=? k + tlen str) eqn:E; [apply Z.leb_le in E; by left|right; lia].
Qed.

Lemma update_spec ids stop_terminated s :
  running s → ids ≠ [] →
  wp (detok_update ids stop_terminated) (λ r s', ∃ x d n,
      decode_run (token_ids s) (fed s ids stop_terminated) (decoder s) = (Ok x, d) ∧
      0 ≤ n ≤ tlen x ∧ (dt_min_tokens s = 0 → n = tlen x) ∧ updated n (grown ids x d s) r s')
    (λ e _, (decode_run (token_ids s) (fed s ids stop_terminated) (decoder s)).1 = Err e) s.
Proof.
  intros [R1 R2 R3] Hids. unfold detok_update. destruct (last ids) as [t|] eqn:El; [|by apply last_None in El].
  wp_step. wp_step. unfold Datatypes.id. fold (fed s ids stop_terminated). wp_step.
  eapply wp_mono; [apply detokenize_loop; lia| |done]. intros off s1 (x & d & Er & -> & Hoff & Hmin). cbn beta.
  assert (grown ids x d s = if stop_terminated && negb (include_stop_str_in_output s)
    then set_token_ids (token_ids (grown (fed s ids stop_terminated) x d s) ++ [t]) (grown (fed s ids stop_terminated) x d s)
    else grown (fed s ids stop_terminated) x d s) as E.
  { unfold fed. destruct (_ && _); [|done]. apply last_Some in El as (l & ->). rewrite slice_but_last. unfold grown. cbn. by rewrite <-app_assoc. }
  wp_step. assert (wp (if stop_terminated && negb (include_stop_str_in_output s)
      then modify (λ s, set_token_ids (token_ids s ++ [t]) s) else mret tt) (λ _ s', s' = grown ids x d s) no_exn
    (grown (fed s ids stop_terminated) x d s)) as Hskip by (rewrite E; destruct (_ && _); by wp_step).
  eapply wp_mono; [exact Hskip| |done]. intros [] s2 ->.
  assert (tlen (output_text (grown ids x d s)) = tlen (output_text s) + tlen x) as Elen by (cbn; rewrite length_app; lia).
  eapply wp_mono; [apply evaluate_stop_spec; [exact R1|cbn in Hoff |- *; lia]| |done].
  intros r s' Hu. exists x, d, (tlen (output_text (grown ids x d s)) - off). split; [done|].
  cbn in Hoff. rewrite length_app in Hoff. split; [lia|]. split; [|exact Hu]. intros Hm. specialize (Hmin Hm). lia.
Qed.

(** ** Streaming *)

(** No stop string occurs in the text. *)
Definition clean (s : Detokenizer D) (t : text) : Prop := dt_min_tokens s = 0 → ∀ y j, y ∈ stop s → ¬ occurs t y j.

(** A running request that has decoded [full] and handed out [sent]. *)
Record streaming (full sent : text) (s : Detokenizer D) : Prop := {
  sr_running : running s;
  sr_text : output_text s = full;
  sr_sent : sent = take (Z.to_nat (_last_output_text_offset s)) full;
  sr_clean : clean s full;
  sr_prompt : prompt_part (decoder s) ≤ tlen (token_ids s)
}.

(** A request stopped by [str], which begins at [k] in the text [full]. *)
Record stopped_by (full sent str : text) (k : Z) (s : Detokenizer D) : Prop := {
  sb_stop : str ∈ stop s;
  sb_occurs : occurs full str k;
  sb_text : output_text s = take (Z.to_nat (if include_stop_str_in_output s then k + tlen str else k)) full;
  sb_sent : sent = take (Z.to_nat (_last_output_text_offset s)) (output_text s);
  sb_offset : 0 ≤ _last_output_text_offset s ≤ tlen (output_text s);
  sb_first : dt_min_tokens s = 0 → ∀ j, occurs full str j → k ≤ j
}.

Lemma occurs_app s x sub j : occurs s sub j → occurs (s ++ x) sub j.
Proof.
  intros (H1 & H2 & H3). split; [done|]. rewrite length_app. split; [lia|].
  rewrite drop_app_le by lia. rewrite take_app_le; [done|]. rewrite length_drop. lia.
Qed.

Lemma occurs_app_early s x sub j : occurs (s ++ x) sub j → j + tlen sub ≤ tlen s → occurs s sub j.
Proof.
  intros (H1 & H2 & H3) Hle. split; [done|]. split; [done|]. rewrite drop_app_le in H3 by lia.
  rewrite take_app_le in H3; [done|]. rewrite length_drop. lia.
Qed.

(** Taking in new tokens. *)
Lemma update_streaming full sent ids stop_terminated s :
  streaming full sent s →
  wp (detok_update ids stop_terminated) (λ r s', ∃ x d, decode_run (token_ids s) (fed s ids stop_terminated) (decoder s) = (Ok x, d) ∧
      token_ids s' = token_ids s ++ ids ∧ decoder s' = d ∧ dt_min_tokens s' = dt_min_tokens s ∧ stop s' = stop s ∧
      include_stop_str_in_output s' = include_stop_str_in_output s ∧ stop_buffer_length s' = stop_buffer_length s ∧
      match r with
      | None => streaming (full ++ x) sent s'
      | Some str => ∃ k, stopped_by (full ++ x) sent str k s'
      end)
    (λ e _, (decode_run (token_ids s) (fed s ids stop_terminated) (decoder s)).1 = Err e) s.
Proof.
  intros [R1 R2 R3 R4 R5]. destruct (decide (ids = [])) as [->|Hids].
  { unfold detok_update. cbn [last]. wp_step. exists [], (decoder s). unfold fed. replace (slice 0 (-1) []) with (@nil Z) by done.
    destruct (stop_terminated && _); rewrite !app_nil_r; do 7 (split; [done|]); by split. }
  eapply wp_mono; [by apply update_spec| |done]. intros r s' (x & d & n & Er & Hn & Hmin & Hu). exists x, d. split; [done|].
  pose proof (f_equal (λ r, prompt_part r.2) Er) as Ep. cbn in Ep. rewrite decode_run_prompt in Ep.
  destruct R1 as [S1 S2 S3]. rewrite <-R2 in *. destruct r as [str|].
  - destruct Hu as (k & (b & a & Ea & _ & Ho & Hfirst) & ->). cbn in Ea, Ho, Hfirst |- *. repeat (split; [done|]). exists k.
    destruct Ho as [Ho Hlate]. pose proof Ho as (Hk & Hle & _). rewrite length_app in Hlate.
    set (cut := if include_stop_str_in_output s then k + tlen str else k).
    assert (0 ≤ _last_output_text_offset s ≤ cut ∧ cut ≤ tlen (output_text s ++ x)) as [Hoff Hcut].
    { destruct S3 as [S3 S4]. assert (str ∈ stop s) as Hin by (rewrite Ea; apply elem_of_app; right; left). rewrite length_app in Hle |- *. unfold cut.
      destruct (include_stop_str_in_output s); [lia|]. destruct S2 as [S2 S2']. specialize (S2' eq_refl str Hin). lia. }
    split; cbn.
    + rewrite Ea. apply elem_of_app. right. left.
    + done.
    + done.
    + rewrite R3. rewrite take_take. destruct S3 as [_ [->|S3]]; [by rewrite !take_0|].
      rewrite take_app_le by lia. f_equal. lia.
    + rewrite length_take. lia.
    + intros Hm j Hj. destruct (Z.le_gt_cases (j + tlen str) (tlen (output_text s))) as [Hle'|Hgt].
      * exfalso. apply (R4 Hm str j); [rewrite Ea; apply elem_of_app; right; left|]. by apply (occurs_app_early _ x).
      * apply Hfirst. split; [done|]. rewrite length_app. specialize (Hmin Hm). lia.
  - destruct Hu as [-> Hclean]. cbn. repeat (split; [done|]). split; cbn.
    + split; cbn; [done|done|]. rewrite length_app. lia.
    + done.
    + rewrite R3. destruct S3 as [_ [->|S3]]; [by rewrite !take_0|]. by rewrite take_app_le by lia.
    + intros Hm y j Hy Hj. cbn in Hclean, Hy. destruct (Z.le_gt_cases (j + tlen y) (tlen (output_text s))) as [Hle|Hgt].
      * apply (R4 Hm y j Hy). by apply (occurs_app_early _ x).
      * assert (0 < tlen ids) by (destruct ids; [done|cbn; lia]).
        apply (Hclean ltac:(unfold num_output_tokens; cbn; rewrite length_app; cbn in Hm; lia) y j Hy). split; [done|]. rewrite length_app. specialize (Hmin Hm). lia.
    + rewrite length_app. lia.
Qed.

(** The text held back. *)
Definition held (finished : bool) (s : Detokenizer D) : Z := if finished then 0 else stop_buffer_length s.

Lemma next_cumulative finished (s : Detokenizer D) :
  0 ≤ held finished s →
  get_next_output_text finished false s = (Ok (take (length (output_text s) - Z.to_nat (held finished s)) (output_text s)), s).
Proof.
  intros Hb. unfold get_next_output_text. fold (held finished s).
  unfold mbind, M_bind, gets, Datatypes.id. fold (held finished s). cbn [negb]. destruct (decide (held finished s = 0)) as [E|E].
  - rewrite bool_decide_eq_true_2 by done. rewrite E, take_ge by lia. done.
  - rewrite bool_decide_eq_false_2 by done. rewrite slice_but by lia. done.
Qed.

Lemma next_delta finished (s : Detokenizer D) :
  get_next_output_text finished true s =
    if _last_output_text_offset s <? tlen (output_text s) - held finished s
    then (Ok (slice (_last_output_text_offset s) (tlen (output_text s) - held finished s) (output_text s)),
          set_offset (tlen (output_text s) - held finished s) s)
    else (Ok [], s).
Proof. unfold get_next_output_text, mbind, M_bind, gets, modify, mret, M_ret, Datatypes.id, held. cbn [negb]. by destruct (_ <? _). Qed.

(** Handing out text: the pieces add up to the cumulative text. *)
Lemma next_text finished sent (s : Detokenizer D) :
  0 ≤ _last_output_text_offset s ≤ tlen (output_text s) → sent = take (Z.to_nat (_last_output_text_offset s)) (output_text s) →
  0 ≤ held finished s → _last_output_text_offset s = 0 ∨ _last_output_text_offset s + held finished s ≤ tlen (output_text s) →
  ∃ t off, get_next_output_text finished true s = (Ok t, set_offset off s) ∧ _last_output_text_offset s ≤ off ≤ tlen (output_text s) ∧
    sent ++ t = take (Z.to_nat off) (output_text s) ∧ get_next_output_text finished false s = (Ok (sent ++ t), s) ∧
    (off = 0 ∨ off + held finished s ≤ tlen (output_text s)) ∧ (finished = true → sent ++ t = output_text s).
Proof.
  intros Hoff -> Hb0 Hb. rewrite next_delta, next_cumulative by done. set (b := held finished s) in *.
  assert (finished = true → b = 0) as Hfin by (by intros ->).
  set (o := _last_output_text_offset s) in *. set (L := tlen (output_text s)) in *.
  destruct (o <? L - b) eqn:E; [apply Z.ltb_lt in E|apply Z.ltb_ge in E].
  - exists (slice o (L - b) (output_text s)), (L - b). split; [done|]. split; [lia|].
    assert (take (Z.to_nat o) (output_text s) ++ slice o (L - b) (output_text s) = take (Z.to_nat (L - b)) (output_text s)) as ->.
    { rewrite slice_pos by lia. rewrite take_take_drop. f_equal. lia. }
    split; [done|]. split; [do 3 f_equal; unfold L; lia|]. split; [right; lia|]. intros Hf. specialize (Hfin Hf). apply take_ge. unfold L. lia.
  - exists [], o. rewrite app_nil_r. split; [by destruct s|]. split; [lia|]. split; [done|]. split; [do 3 f_equal; unfold L in *; lia|].
    split; [lia|]. intros Hf. specialize (Hfin Hf). apply take_ge. unfold L in *. lia.
Qed.
End updating.

(** ** The fast decoder *)

(** What a step of the library's [DecodeStream] does: it gives a text or none, overflows,
    finds its prefix invalid, or fails otherwise. *)
Inductive step_result := StepText (t : option text) | StepOverflow | StepInvalidPrefix | StepFails.

(** A tokenizer of the [tokenizers] library with decode streams [St]. *)
Record FastTokenizer (St : Type) := mkFastTokenizer {
  DecodeStream : option (list Z) → bool → St;
  stream_step : Z → St → step_result * St;
  get_added_tokens_decoder : list (Z * text)
}.
Arguments mkFastTokenizer {St}.
Arguments DecodeStream {St}.
Arguments stream_step {St}.
Arguments get_added_tokens_decoder {St}.

Record FastDecoder (St : Type) := mkFast {
  fd_tokenizer : FastTokenizer St;
  fd_skip_special_tokens : bool;
  fd_stream : St;
  fd_spaces_between_special_tokens : bool;
  fd_last_special : bool
}.
Arguments mkFast {St}.
Arguments fd_tokenizer {St}.
Arguments fd_skip_special_tokens {St}.
Arguments fd_stream {St}.
Arguments fd_spaces_between_special_tokens {St}.
Arguments fd_last_special {St}.

Section fast.
Context {St : Type}.
Abbreviation Fast := (FastDecoder St).

Definition set_stream (x : St) (d : Fast) : Fast :=
  mkFast (fd_tokenizer d) (fd_skip_special_tokens d) x (fd_spaces_between_special_tokens d) (fd_last_special d).
Definition set_last_special (b : bool) (d : Fast) : Fast :=
  mkFast (fd_tokenizer d) (fd_skip_special_tokens d) (fd_stream d) (fd_spaces_between_special_tokens d) b.

Definition FastIncrementalDetokenizer_init (tokenizer : FastTokenizer St) (params : OutputParams)
    (prompt_token_ids : option (list Z)) : Detokenizer Fast :=
  let skip := op_skip_special_tokens params in
  let spaces := skip || op_spaces_between_special_tokens params || bool_decide (get_added_tokens_decoder tokenizer = []) in
  BaseIncrementalDetokenizer_init params []
    (mkFast tokenizer skip (DecodeStream tokenizer prompt_token_ids skip) spaces false).

Definition step_stream (t : Z) : M Fast step_result := λ d,
  let '(r, x) := stream_step (fd_tokenizer d) t (fd_stream d) in (Ok r, set_stream x d).

Definition _protected_step (t : Z) : M Fast (option text) :=
  r ← step_stream t;
  match r with
  | StepText x => mret x
  | StepOverflow => mret None
  | StepFails => raise OtherException
  | StepInvalidPrefix =>
      modify (λ d, set_stream (DecodeStream (fd_tokenizer d) None (fd_skip_special_tokens d)) d) ;;
      r ← step_stream t;
      match r with
      | StepText x => mret x
      | _ => raise OtherException
      end
  end.

Definition fast_decode_next (_ : list Z) (t : Z) : M Fast text :=
  token ← _protected_step t;
  d ← gets id;
  if fd_spaces_between_special_tokens d then mret (default [] token)
  else
    let special_token := dict_get (get_added_tokens_decoder (fd_tokenizer d)) t in
    let is_special := bool_decide (is_Some special_token) in
    let token := if is_special && fd_last_special d then special_token else token in
    modify (set_last_special is_special) ;;
    mret (default [] token).

#[export] Instance fast_decoder : Decoder Fast := {| decode_next := fast_decode_next; prompt_part _ := 0 |}.

#[export] Instance fast_decoder_laws : DecoderLaws Fast.
Proof. done. Qed.
End fast.

(** ** The slow decoder *)

(** A tokenizer that is reached through Python: given a list of ids it answers a list of
    tokens, some of them none. *)
Record SlowTokenizer := mkSlowTokenizer {
  convert_ids_to_tokens : list Z → bool → list (option text);
  convert_tokens_to_string : list text → text;
  vocab_size : Z;
  is_fast : bool;
  get_added_vocab : list text;
  all_special_tokens : list text
}.

Definition _replace_none_with_empty (tokens : list (option text)) : list text := default [] <$> tokens.

(** The state of the loop: the texts so far and the run of ordinary tokens. *)
Definition add_token (tokenizer : SlowTokenizer) (skip_special_tokens : bool) (acc : list text * list text) (token : text) : list text * list text :=
  let '(sub_texts, current) := acc in
  if bool_decide (token ∈ if skip_special_tokens then all_special_tokens tokenizer else []) then acc
  else if bool_decide (token ∈ get_added_vocab tokenizer) then
    ((if bool_decide (current = []) then sub_texts else sub_texts ++ [convert_tokens_to_string tokenizer current]) ++ [token], [])
  else (sub_texts, current ++ [token]).

(** [" ".join(l)] *)
Fixpoint join_with (sep : text) (l : list text) : text :=
  match l with
  | [] => []
  | [x] => x
  | x :: rest => x ++ sep ++ join_with sep rest
  end.

Definition _convert_tokens_to_string_with_added_encoders (tokenizer : SlowTokenizer) (output_tokens : list text)
    (skip_special_tokens spaces_between_special_tokens : bool) : text :=
  let '(sub_texts, current) := foldl (add_token tokenizer skip_special_tokens) ([], []) output_tokens in
  let sub_texts := if bool_decide (current = []) then sub_texts else sub_texts ++ [convert_tokens_to_string tokenizer current] in
  if spaces_between_special_tokens then join_with [32] sub_texts else concat sub_texts.

Definition INITIAL_INCREMENTAL_DETOKENIZATION_OFFSET : Z := 5.

Definition convert_prompt_ids_to_tokens (tokenizer : SlowTokenizer) (prompt_ids : list Z) (skip_special_tokens : bool) : list text * Z * Z :=
  let new_tokens := convert_ids_to_tokens tokenizer (slice_from (- INITIAL_INCREMENTAL_DETOKENIZATION_OFFSET - 2) prompt_ids) skip_special_tokens in
  let read_offset := tlen new_tokens in
  let prefix_offset := Z.max (read_offset - INITIAL_INCREMENTAL_DETOKENIZATION_OFFSET) 0 in
  (_replace_none_with_empty new_tokens, prefix_offset, read_offset).

Definition REPLACEMENT_CHARACTER : Z := 65533.

(** With the tokens so far in [prev_tokens]; the new tokens, the new text and the offsets. *)
Definition detokenize_incrementally (tokenizer : SlowTokenizer) (all_input_ids : list Z) (prev_tokens : list text)
    (prefix_offset read_offset : Z) (skip_special_tokens spaces_between_special_tokens : bool) : res (list text * text * Z * Z) :=
  new_token_id ← py_get all_input_ids (-1);
  let new_tokens :=
    if (0 <=? new_token_id) && (new_token_id <? vocab_size tokenizer)
    then _replace_none_with_empty (convert_ids_to_tokens tokenizer [new_token_id] skip_special_tokens)
    else [[]] in
  let output_tokens := prev_tokens ++ new_tokens in
  let to_string tokens :=
    if is_fast tokenizer || bool_decide (get_added_vocab tokenizer = []) then convert_tokens_to_string tokenizer tokens
    else _convert_tokens_to_string_with_added_encoders tokenizer tokens skip_special_tokens spaces_between_special_tokens in
  let prefix_text := to_string (slice prefix_offset read_offset output_tokens) in
  let new_text := to_string (slice_from prefix_offset output_tokens) in
  if (tlen new_text <=? tlen prefix_text) || bool_decide (last new_text = Some REPLACEMENT_CHARACTER)
  then Ok (new_tokens, [], prefix_offset, read_offset)
  else Ok (new_tokens, slice_from (tlen prefix_text) new_text, read_offset, tlen output_tokens).

Record SlowDecoder := mkSlow {
  sd_tokenizer : SlowTokenizer;
  sd_prompt_len : Z;
  sd_tokens : list text;
  sd_prefix_offset : Z;
  sd_read_offset : Z;
  sd_skip_special_tokens : bool;
  sd_spaces_between_special_tokens : bool
}.

(** [prompt_len]: of the token ids or else of the embeddings. *)
Definition SlowIncrementalDetokenizer_init (tokenizer : SlowTokenizer) (params : OutputParams)
    (prompt_token_ids : option (list Z)) (prompt_len : Z) : Detokenizer SlowDecoder :=
  let '(tokens, prefix_offset, read_offset) :=
    match prompt_token_ids with
    | Some ids => convert_prompt_ids_to_tokens tokenizer ids (op_skip_special_tokens params)
    | None => (replicate (Z.to_nat prompt_len) [], 0, 0)
    end in
  let ids := match prompt_token_ids with
    | Some (t :: l) => t :: l
    | _ => replicate (Z.to_nat prompt_len) 0
    end in
  BaseIncrementalDetokenizer_init params ids
    (mkSlow tokenizer prompt_len tokens prefix_offset read_offset (op_skip_special_tokens params) (op_spaces_between_special_tokens params)).

Definition slow_decode_next (ids : list Z) (_ : Z) : M SlowDecoder text :=
  d ← gets id;
  r ← lift_res (detokenize_incrementally (sd_tokenizer d) ids (sd_tokens d) (sd_prefix_offset d) (sd_read_offset d)
    (sd_skip_special_tokens d) (sd_spaces_between_special_tokens d));
  let '(new_tokens, decoded_text, prefix_offset, read_offset) := r in
  modify (λ d, mkSlow (sd_tokenizer d) (sd_prompt_len d) (sd_tokens d ++ new_tokens) prefix_offset read_offset
    (sd_skip_special_tokens d) (sd_spaces_between_special_tokens d)) ;;
  mret decoded_text.

#[export] Instance slow_decoder : Decoder SlowDecoder := {| decode_next := slow_decode_next; prompt_part := sd_prompt_len |}.

#[export] Instance slow_decoder_laws : DecoderLaws SlowDecoder.
Proof.
  intros ids t d. cbn. unfold slow_decode_next, mbind, M_bind, gets, lift_res, Datatypes.id.
  by destruct (detokenize_incrementally _ _ _ _ _ _ _) as [[[[? ?] ?] ?]|e].
Qed.

(** ** The search for stop strings *)

(** C37: [check_stop_strings] finds a stop string exactly when one ends within the last
    [n] characters: the first such string of the list, at its first such occurrence.  The
    text is cut before it, or after it when it is to be included, in which case -1 says
    that nothing is to be cut. *)
Theorem check_stop_strings_correct s n stop inc :
  0 ≤ n → Forall (λ x, x ≠ []) stop →
  (check_stop_strings s n stop inc = None ↔ ∀ x j, x ∈ stop → ¬ occurs_late n s x j) ∧
  (∀ str cut, check_stop_strings s n stop inc = Some (str, cut) ↔ ∃ k, first_stop n s stop str k ∧ cut = stop_cut inc s str k).
Proof.
  intros Hn Hne. pose proof (check_stop_strings_spec s n stop inc Hn Hne) as Hs.
  assert (∀ str k, first_stop n s stop str k → str ∈ stop) as Hin.
  { intros str k (b & a & -> & _). apply elem_of_app. right. left. }
  destruct (check_stop_strings s n stop inc) as [[str0 cut0]|].
  - destruct Hs as (k0 & Hf0 & ->). split.
    + split; [done|]. intros Hnone. exfalso. apply (Hnone str0 k0); [by eapply Hin|]. by destruct Hf0 as (? & ? & _ & _ & ? & _).
    + intros str cut. split; [intros [= <- <-]; by exists k0|]. intros (k & Hf & ->).
      destruct (first_stop_unique _ _ _ _ _ _ _ Hf0 Hf) as [-> ->]. done.
  - split; [done|]. intros str cut. split; [done|]. intros (k & Hf & _). exfalso. apply (Hs str k); [by eapply Hin|]. by destruct Hf as (? & ? & _ & _ & ? & _).
Qed.

Lemma check_stop_strings_correct_witness :
  check_stop_strings [97; 98; 99; 97; 98] 2 [[99; 100]; [97; 98]] false = Some ([97; 98], 3) ∧
  ∃ k, first_stop 2 [97; 98; 99; 97; 98] [[99; 100]; [97; 98]] [97; 98] k ∧ 3 = stop_cut false [97; 98; 99; 97; 98] [97; 98] k.
Proof.
  split; [done|]. apply (check_stop_strings_correct [97; 98; 99; 97; 98] 2 [[99; 100]; [97; 98]] false); [done|repeat constructor; done|done].
Defined.

(** The stop strings are tried in the order of the list and not of the text: with the stop
    strings "b" and "a" the text "ab" is cut before "b" and still contains "a". *)
Lemma other_stop_string_stays : check_stop_strings [97; 98] 2 [[98]; [97]] false = Some ([98], 1) ∧ take 1 [97; 98] = [97].
Proof. done. Qed.
