(* ===== verification/OutputProcessor.v ===== *)
(** * From engine outputs to request outputs

    [vllm/v1/engine/output_processor.py] and [parallel_sampling.py]: the front end keeps a
    state per request, detokenizes what the engine core sends, merges the children of a
    parallel-sampling request and hands the results to the callers, as a list or through
    a collector per request.  Parents and collectors are shared objects, so they live in
    stores and are reached by address.  Statistics and tracing are left
    out; that a request has a logprobs processor is that it has a detokenizer, and what this
    processor does is in Logprobs.v. *)

From stdpp Require Import base list gmap strings pretty.
From Stdlib Require Import ZArith Lia.
From S2P Require Import Prelude Request Scheduler Detokenizer.
Local Open Scope Z_scope.

(** ** Any tokenizer *)

Inductive Tokenizer (St : Type) := FastTok (t : FastTokenizer St) | SlowTok (t : SlowTokenizer).
Arguments FastTok {St}.
Arguments SlowTok {St}.

Abbreviation AnyDecoder St := (FastDecoder St + SlowDecoder)%type.

Definition run_inl {A B X} (m : M A X) (a : A) : res X * (A + B) := let '(r, a') := m a in (r, inl a').
Definition run_inr {A B X} (m : M B X) (b : B) : res X * (A + B) := let '(r, b') := m b in (r, inr b').

#[export] Instance any_decoder {St} : Decoder (AnyDecoder St) := {|
  decode_next ids t d := match d with inl f => run_inl (decode_next ids t) f | inr s => run_inr (decode_next ids t) s end;
  prompt_part d := match d with inl f => prompt_part f | inr s => prompt_part s end
|}.

#[export] Instance any_decoder_laws {St} : DecoderLaws (AnyDecoder St).
Proof.
  intros ids t [f|s].
  - pose proof (law_prompt_part ids t f) as Hp. unfold decode_next at 1, any_decoder, run_inl.
    destruct (decode_next ids t f). exact Hp.
  - pose proof (law_prompt_part ids t s) as Hp. unfold decode_next at 1, any_decoder, run_inr.
    destruct (decode_next ids t s). exact Hp.
Qed.

Definition map_decoder {D D'} (f : D → D') (s : Detokenizer D) : Detokenizer D' :=
  mkDetok (token_ids s) (stop s) (dt_min_tokens s) (include_stop_str_in_output s) (stop_buffer_length s)
    (_last_output_text_offset s) (output_text s) (f (decoder s)).

(** ** Requests and outputs *)

(** The part of [EngineCoreRequest] that concerns the output. *)
Record EngineCoreRequest := mkCoreRequest {
  cr_request_id : string;
  cr_external_req_id : option string;
  cr_prompt_token_ids : option (list Z);
  cr_prompt_embeds : option (list (list Z));
  cr_sampling_params : option OutputParams;
  cr_pooling_output_kind : option RequestOutputKind;
  cr_resumable : bool
}.

(** A stop reason of the engine, or a stop string. *)
Inductive OutputStopReason := EngineStop (r : StopReason) | TextStop (s : text).

Record CompletionOutput := mkCompletion {
  co_index : Z;
  co_text : text;
  co_token_ids : list Z;
  co_finish_reason : option FinishReason;
  co_stop_reason : option OutputStopReason
}.
#[export] Instance FinishReason_eq_dec : EqDecision FinishReason.
Proof. solve_decision. Defined.

Definition co_finished (c : CompletionOutput) : bool := bool_decide (is_Some (co_finish_reason c)).

(** In [ro_outputs] [None] is a place of the aggregator that is not filled. *)
Record RequestOutput := mkRequestOutput {
  ro_request_id : string;
  ro_prompt : option text;
  ro_prompt_token_ids : option (list Z);
  ro_outputs : list (option CompletionOutput);
  ro_finished : bool;
  ro_num_cached_tokens : option Z
}.
Record PoolingRequestOutput := mkPoolingOutput {
  po_request_id : string;
  po_outputs : list Z;
  po_num_cached_tokens : Z;
  po_prompt_token_ids : list Z;
  po_finished : bool
}.
Inductive AnyOutput := OutRequest (o : RequestOutput) | OutPooling (o : PoolingRequestOutput) | OutError (e : exn).

Definition set_finished (b : bool) (o : AnyOutput) : AnyOutput :=
  match o with
  | OutRequest o => OutRequest (mkRequestOutput (ro_request_id o) (ro_prompt o) (ro_prompt_token_ids o) (ro_outputs o) b (ro_num_cached_tokens o))
  | OutPooling o => OutPooling (mkPoolingOutput (po_request_id o) (po_outputs o) (po_num_cached_tokens o) (po_prompt_token_ids o) b)
  | OutError e => OutError e
  end.

(** [STREAM_FINISHED] *)
Definition STREAM_FINISHED : AnyOutput := OutRequest (mkRequestOutput "" None None [] true None).

(** [RequestOutput.add]: one completion into the others. *)
Definition merge_completion (aggregate : bool) (old next : CompletionOutput) : CompletionOutput :=
  if aggregate then
    mkCompletion (co_index old) (co_text old ++ co_text next) (co_token_ids old ++ co_token_ids next)
      (co_finish_reason next) (co_stop_reason next)
  else next.
Fixpoint add_completion (aggregate : bool) (next : CompletionOutput) (l : list (option CompletionOutput)) : list (option CompletionOutput) :=
  match l with
  | [] => [Some next]
  | Some c :: r =>
      if co_index c =? co_index next then Some (merge_completion aggregate c next) :: r
      else Some c :: add_completion aggregate next r
  | None :: r => None :: add_completion aggregate next r
  end.
Definition ro_add (aggregate : bool) (o next : RequestOutput) : RequestOutput :=
  mkRequestOutput (ro_request_id o) (ro_prompt o) (ro_prompt_token_ids o)
    (foldl (λ l c, match c with Some c => add_completion aggregate c l | None => l end) (ro_outputs o) (ro_outputs next))
    (ro_finished o || ro_finished next) (ro_num_cached_tokens o).

(** ** The collector *)

Record RequestOutputCollector := mkCollector { aggregate : bool; rc_output : option AnyOutput }.
Definition RequestOutputCollector_init (output_kind : RequestOutputKind) : RequestOutputCollector :=
  mkCollector (bool_decide (output_kind = DELTA)) None.

Definition collector_put (output : AnyOutput) (c : RequestOutputCollector) : RequestOutputCollector :=
  match rc_output c, output with
  | None, _ | _, OutError _ => mkCollector (aggregate c) (Some output)
  | Some (OutRequest o), OutRequest next => mkCollector (aggregate c) (Some (OutRequest (ro_add (aggregate c) o next)))
  | Some (OutPooling _), OutPooling next => mkCollector (aggregate c) (Some output)
  | _, _ => c
  end.

(** [get_nowait]; [get] does the same once there is an output. *)
Definition collector_get_nowait : M RequestOutputCollector (option AnyOutput) :=
  c ← gets id;
  match rc_output c with
  | None => mret None
  | Some o =>
      modify (λ c, mkCollector (aggregate c) None) ;;
      match o with OutError e => raise e | _ => mret (Some o) end
  end.

(** ** Parallel sampling *)

Record ParentRequest := mkParent {
  pr_request_id : string;
  pr_external_req_id : string;
  pr_sampling_params : OutputParams;
  child_requests : gset string;
  output_aggregator : list (option CompletionOutput);
  max_num_generation_tokens : Z;
  cached_child_sampling_params : option OutputParams
}.
Definition set_children (l : gset string) (p : ParentRequest) : ParentRequest :=
  mkParent (pr_request_id p) (pr_external_req_id p) (pr_sampling_params p) l (output_aggregator p) (max_num_generation_tokens p) (cached_child_sampling_params p).
Definition set_aggregator (l : list (option CompletionOutput)) (p : ParentRequest) : ParentRequest :=
  mkParent (pr_request_id p) (pr_external_req_id p) (pr_sampling_params p) (child_requests p) l (max_num_generation_tokens p) (cached_child_sampling_params p).
Definition set_max_generated (n : Z) (p : ParentRequest) : ParentRequest :=
  mkParent (pr_request_id p) (pr_external_req_id p) (pr_sampling_params p) (child_requests p) (output_aggregator p) n (cached_child_sampling_params p).
Definition set_cached_params (o : option OutputParams) (p : ParentRequest) : ParentRequest :=
  mkParent (pr_request_id p) (pr_external_req_id p) (pr_sampling_params p) (child_requests p) (output_aggregator p) (max_num_generation_tokens p) o.

Definition ParentRequest_init (request : EngineCoreRequest) : res ParentRequest :=
  match cr_external_req_id request, cr_sampling_params request with
  | Some external, Some params =>
      Ok (mkParent (cr_request_id request) external params ∅
        (if bool_decide (op_output_kind params = FINAL_ONLY) then replicate (Z.to_nat (op_n params)) None else []) 0 None)
  | _, _ => Err AssertionError
  end.

Definition child_params (params : OutputParams) (seed : option Z) : OutputParams :=
  mkOutputParams (op_stop params) (op_min_tokens params) (op_include_stop_str_in_output params) (op_skip_special_tokens params)
    (op_spaces_between_special_tokens params) (op_detokenize params) (op_output_kind params) 1 seed.

Definition _get_child_sampling_params (index : Z) : M ParentRequest OutputParams :=
  p ← gets id;
  match cached_child_sampling_params p with
  | Some c => mret c
  | None =>
      let params := pr_sampling_params p in
      match op_seed params with
      | None => let c := child_params params None in modify (set_cached_params (Some c)) ;; mret c
      | Some seed => mret (child_params params (Some (seed + index)))
      end
  end.

(** [f"{index}_{self.request_id}"] *)
Definition child_id (index : Z) (request_id : string) : string := (pretty index +:+ "_" +:+ request_id)%string.

Definition get_child_info (index : Z) : M ParentRequest (string * OutputParams) :=
  id_ ← gets pr_request_id;
  let child_req_id := child_id index id_ in
  modify (λ p, set_children ({[child_req_id]} ∪ child_requests p) p) ;;
  params ← _get_child_sampling_params index;
  mret (child_req_id, params).

(** [l[i] = x] *)
Definition list_setitem {A} (l : list A) (i : Z) (x : A) : res (list A) :=
  let j := py_index (Z.of_nat (length l)) i in
  if (0 <=? j) && (j <? Z.of_nat (length l)) then Ok (<[Z.to_nat j := x]> l) else Err IndexError.

Definition get_outputs (child_request_id : string) (completion_output : CompletionOutput) : M ParentRequest (list (option CompletionOutput) * bool) :=
  children ← gets child_requests;
  let finished_child := co_finished completion_output in
  let already_finished_and_returned := finished_child && negb (bool_decide (child_request_id ∈ children)) in
  (if finished_child then modify (λ p, set_children (child_requests p ∖ {[child_request_id]}) p) else mret tt) ;;
  p ← gets id;
  if negb (bool_decide (op_output_kind (pr_sampling_params p) = FINAL_ONLY)) then
    mret (if (already_finished_and_returned : bool) then [] else [Some completion_output], bool_decide (child_requests p = ∅))
  else
    aggregator ← lift_res (list_setitem (output_aggregator p) (co_index completion_output) (Some completion_output));
    modify (set_aggregator aggregator) ;;
    mret (if bool_decide (child_requests p = ∅) then aggregator else [], bool_decide (child_requests p = ∅)).

Definition observe_num_generation_tokens (n : Z) : M ParentRequest Z :=
  modify (λ p, set_max_generated (Z.max n (max_num_generation_tokens p)) p) ;;
  gets max_num_generation_tokens.

(** ** The state of a request *)

Section processor.
Context {St : Type}.

(** [IncrementalDetokenizer] itself or a subclass. *)
Inductive IncrementalDetokenizer := NoDetokenizer (ids : list Z) | WithDetokenizer (d : Detokenizer (AnyDecoder St)).

Definition idt_output_token_ids (d : IncrementalDetokenizer) : list Z :=
  match d with NoDetokenizer ids => ids | WithDetokenizer d => output_token_ids d end.
Definition idt_num_output_tokens (d : IncrementalDetokenizer) : Z :=
  match d with NoDetokenizer ids => tlen ids | WithDetokenizer d => num_output_tokens d end.
Definition lift_detok {A} (m : M (Detokenizer (AnyDecoder St)) A) (none : list Z → A * list Z) : M IncrementalDetokenizer A := λ s,
  match s with
  | NoDetokenizer ids => let '(a, ids) := none ids in (Ok a, NoDetokenizer ids)
  | WithDetokenizer d => let '(r, d) := m d in (r, WithDetokenizer d)
  end.
Definition idt_update (new_token_ids : list Z) (stop_terminated : bool) : M IncrementalDetokenizer (option text) :=
  lift_detok (detok_update new_token_ids stop_terminated) (λ ids, (None, ids ++ new_token_ids)).
Definition idt_get_next_output_text (finished delta : bool) : M IncrementalDetokenizer text :=
  lift_detok (get_next_output_text finished delta) (λ ids, ([], ids)).

Definition IncrementalDetokenizer_from_new_request (tokenizer : option (Tokenizer St)) (params : OutputParams)
    (request : EngineCoreRequest) (prompt_len : Z) : IncrementalDetokenizer :=
  match tokenizer with
  | None => NoDetokenizer []
  | Some (FastTok t) => WithDetokenizer (map_decoder inl (FastIncrementalDetokenizer_init t params (cr_prompt_token_ids request)))
  | Some (SlowTok t) =>
      WithDetokenizer (map_decoder inr (SlowIncrementalDetokenizer_init t params (cr_prompt_token_ids request) prompt_len))
  end.

Record InputUpdate := mkInputUpdate {
  iu_prompt : option text;
  iu_prompt_token_ids : option (list Z);
  iu_final : bool
}.

Record RequestState := mkState {
  rs_request_id : string;
  rs_external_req_id : string;
  rs_parent_req : option Z;
  rs_request_index : Z;
  rs_output_kind : RequestOutputKind;
  rs_prompt : option text;
  rs_prompt_token_ids : option (list Z);
  rs_prompt_embeds : option (list (list Z));
  rs_detokenizer : option IncrementalDetokenizer;
  rs_is_prefilling : bool;
  rs_queue : option Z;
  rs_num_cached_tokens : Z;
  rs_stream_interval : Z;
  rs_sent_tokens_offset : Z;
  rs_streaming_input : bool;
  rs_input_chunk_queue : option (list InputUpdate)
}.

Definition set_rs_detokenizer (d : option IncrementalDetokenizer) (s : RequestState) : RequestState :=
  mkState (rs_request_id s) (rs_external_req_id s) (rs_parent_req s) (rs_request_index s) (rs_output_kind s) (rs_prompt s) (rs_prompt_token_ids s)
    (rs_prompt_embeds s) d (rs_is_prefilling s) (rs_queue s) (rs_num_cached_tokens s) (rs_stream_interval s) (rs_sent_tokens_offset s)
    (rs_streaming_input s) (rs_input_chunk_queue s).
Definition set_rs_sent (n : Z) (s : RequestState) : RequestState :=
  mkState (rs_request_id s) (rs_external_req_id s) (rs_parent_req s) (rs_request_index s) (rs_output_kind s) (rs_prompt s) (rs_prompt_token_ids s)
    (rs_prompt_embeds s) (rs_detokenizer s) (rs_is_prefilling s) (rs_queue s) (rs_num_cached_tokens s) (rs_stream_interval s) n
    (rs_streaming_input s) (rs_input_chunk_queue s).
Definition set_rs_received (num_cached : Z) (s : RequestState) : RequestState :=
  mkState (rs_request_id s) (rs_external_req_id s) (rs_parent_req s) (rs_request_index s) (rs_output_kind s) (rs_prompt s) (rs_prompt_token_ids s)
    (rs_prompt_embeds s) (rs_detokenizer s) false (rs_queue s) num_cached (rs_stream_interval s) (rs_sent_tokens_offset s)
    (rs_streaming_input s) (rs_input_chunk_queue s).
Definition set_rs_input (streaming : bool) (queue : option (list InputUpdate)) (s : RequestState) : RequestState :=
  mkState (rs_request_id s) (rs_external_req_id s) (rs_parent_req s) (rs_request_index s) (rs_output_kind s) (rs_prompt s) (rs_prompt_token_ids s)
    (rs_prompt_embeds s) (rs_detokenizer s) (rs_is_prefilling s) (rs_queue s) (rs_num_cached_tokens s) (rs_stream_interval s) (rs_sent_tokens_offset s)
    streaming queue.
Definition set_rs_prompt (prompt : option text) (ids : list Z) (s : RequestState) : RequestState :=
  mkState (rs_request_id s) (rs_external_req_id s) (rs_parent_req s) (rs_request_index s) (rs_output_kind s) prompt (Some ids)
    (rs_prompt_embeds s) (rs_detokenizer s) true (rs_queue s) (rs_num_cached_tokens s) (rs_stream_interval s) (rs_sent_tokens_offset s)
    (rs_streaming_input s) (rs_input_chunk_queue s).

(** A text that counts as true. *)
Definition nonempty (t : option text) : option text := match t with Some (c :: l) => Some (c :: l) | _ => None end.

Definition apply_streaming_update (update : InputUpdate) (s : RequestState) : RequestState :=
  let s := set_rs_input (negb (iu_final update)) (rs_input_chunk_queue s) s in
  let prompt := match nonempty (iu_prompt update) with
    | Some p => Some (default [] (nonempty (rs_prompt s)) ++ p)
    | None => rs_prompt s
    end in
  let ids := match rs_prompt_token_ids s with
    | Some (t :: l) => (t :: l) ++ default [] (iu_prompt_token_ids update)
    | _ => default [] (iu_prompt_token_ids update)
    end in
  set_rs_prompt prompt ids s.

Definition RequestState_from_new_request (tokenizer : option (Tokenizer St)) (request : EngineCoreRequest) (prompt : option text)
    (parent_req : option Z) (request_index : Z) (queue : option Z) (stream_interval : Z) : res RequestState :=
  prompt_len ← length_from_prompt_token_ids_or_embeds (cr_prompt_token_ids request) (cr_prompt_embeds request);
  output ← match cr_sampling_params request with
    | Some params =>
        let tokenizer := if op_detokenize params then tokenizer else None in
        Ok (op_output_kind params, Some (IncrementalDetokenizer_from_new_request tokenizer params request prompt_len))
    | None =>
        match cr_pooling_output_kind request with
        | Some kind => Ok (kind, None)
        | None => Err AssertionError
        end
    end;
  match cr_external_req_id request with
  | None => Err AssertionError
  | Some external =>
      Ok (mkState (cr_request_id request) external parent_req request_index output.1 prompt (cr_prompt_token_ids request)
        (cr_prompt_embeds request) output.2 true queue 0 stream_interval 0 (cr_resumable request)
        (if cr_resumable request then Some [] else None))
  end.

(** ** Making an output *)

(** What [make_request_output] reaches: the state of the request and the parents. *)
Abbreviation Making := (RequestState * gmap Z ParentRequest)%type.

Definition stateL : lens Making RequestState := Lens fst (λ r m, (r, m.2)).
Definition detokL (d : IncrementalDetokenizer) : lens Making IncrementalDetokenizer :=
  Lens (λ m, default d (rs_detokenizer m.1)) (λ d m, (set_rs_detokenizer (Some d) m.1, m.2)).

(** A call of a method of the detokenizer, which has to be there. *)
Definition on_detokenizer {A} (f : M IncrementalDetokenizer A) : M Making A :=
  m ← gets id;
  d ← lift_opt AssertionError (rs_detokenizer m.1);
  zoom (detokL d) f.

Definition on_parent {A} (a : Z) (f : M ParentRequest A) : M Making A := λ m,
  match m.2 !! a with
  | Some p => let '(r, p) := f p in (r, (m.1, <[a := p]> m.2))
  | None => (Err KeyError, m)
  end.

Definition request_prompt_ids (s : RequestState) : option (list Z) :=
  match rs_prompt_token_ids s, rs_prompt_embeds s with
  | Some ids, _ => Some ids
  | None, Some e => Some (replicate (length e) 0)
  | None, None => None
  end.

(** [_new_request_output], of completions. *)
Definition _new_request_output (external_req_id : string) (outputs : list (option CompletionOutput)) (finished : bool) : M Making AnyOutput :=
  m ← gets id;
  prompt_token_ids ← lift_opt AssertionError (request_prompt_ids m.1);
  lift_opt IndexError (head outputs) ;;
  assert_ (bool_decide (is_Some (rs_detokenizer m.1))) ;;
  mret (OutRequest (mkRequestOutput external_req_id (rs_prompt m.1) (Some prompt_token_ids) outputs finished (Some (rs_num_cached_tokens m.1)))).

(** [_new_request_output], of a pooling output. *)
Definition new_pooling_request_output (external_req_id : string) (data : list Z) (finished : bool) : M Making AnyOutput :=
  m ← gets id;
  prompt_token_ids ← lift_opt AssertionError (request_prompt_ids m.1);
  mret (OutPooling (mkPoolingOutput external_req_id data (rs_num_cached_tokens m.1) prompt_token_ids finished)).

Definition _new_completion_output (token_ids : list Z) (finish_reason : option FinishReason) (stop_reason : option OutputStopReason) : M Making CompletionOutput :=
  let finished := bool_decide (is_Some finish_reason) in
  delta ← gets (λ m, bool_decide (rs_output_kind m.1 = DELTA));
  t ← on_detokenizer (idt_get_next_output_text finished delta);
  token_ids ← (if (delta : bool) then mret token_ids else on_detokenizer (gets idt_output_token_ids));
  index ← gets (λ m, rs_request_index m.1);
  mret (mkCompletion index t token_ids finish_reason (if finished then stop_reason else None)).

(** The stream interval: the tokens to send, or [None] when it is not yet time to send. *)
Definition tokens_to_send (new_token_ids : list Z) (finished : bool) : M Making (option (list Z)) :=
  m ← gets id;
  let s : RequestState := m.1 in
  if 1 <? rs_stream_interval s then
    d ← lift_opt AssertionError (rs_detokenizer s);
    if negb (finished || bool_decide (rs_sent_tokens_offset s = 0)
             || (rs_stream_interval s <=? idt_num_output_tokens d - rs_sent_tokens_offset s)) then mret None
    else if bool_decide (rs_output_kind s = DELTA) then
      modify (λ m, (set_rs_sent (idt_num_output_tokens d) m.1, m.2)) ;;
      mret (Some (slice_from (rs_sent_tokens_offset s) (idt_output_token_ids d)))
    else mret (Some new_token_ids)
  else mret (Some new_token_ids).

Definition make_request_output (new_token_ids : list Z) (pooling_output : option (list Z)) (finish_reason : option FinishReason)
    (stop_reason : option OutputStopReason) : M Making (option AnyOutput) :=
  let finished := bool_decide (is_Some finish_reason) in
  kind ← gets (λ m, rs_output_kind m.1);
  if negb finished && bool_decide (kind = FINAL_ONLY) then mret None
  else
    send ← tokens_to_send new_token_ids finished;
    match send with
    | None => mret None
    | Some new_token_ids =>
        m ← gets id;
        let external_req_id := rs_external_req_id m.1 in
        match pooling_output with
        | Some data => o ← new_pooling_request_output external_req_id data finished; mret (Some o)
        | None =>
            output ← _new_completion_output new_token_ids finish_reason stop_reason;
            match rs_parent_req m.1 with
            | None => o ← _new_request_output external_req_id [Some output] finished; mret (Some o)
            | Some a =>
                r ← on_parent a (get_outputs (rs_request_id m.1) output);
                let '(outputs, finished) := r in
                if bool_decide (outputs = []) then mret None
                else
                  external ← on_parent a (gets pr_external_req_id);
                  o ← _new_request_output external outputs finished; mret (Some o)
            end
        end
    end.

(** ** The processor *)

Record OutputProcessor := mkProcessor {
  op_tokenizer : option (Tokenizer St);
  op_stream_interval : Z;
  request_states : list (string * RequestState);
  parent_requests : list (string * Z);
  external_req_ids : list (string * list string);
  parents : gmap Z ParentRequest;
  collectors : gmap Z RequestOutputCollector
}.
Definition OutputProcessor_init (tokenizer : option (Tokenizer St)) (stream_interval : Z) : OutputProcessor :=
  mkProcessor tokenizer stream_interval [] [] [] ∅ ∅.

Definition set_request_states (l : list (string * RequestState)) (s : OutputProcessor) : OutputProcessor :=
  mkProcessor (op_tokenizer s) (op_stream_interval s) l (parent_requests s) (external_req_ids s) (parents s) (collectors s).
Definition set_parent_requests (l : list (string * Z)) (s : OutputProcessor) : OutputProcessor :=
  mkProcessor (op_tokenizer s) (op_stream_interval s) (request_states s) l (external_req_ids s) (parents s) (collectors s).
Definition set_external (l : list (string * list string)) (s : OutputProcessor) : OutputProcessor :=
  mkProcessor (op_tokenizer s) (op_stream_interval s) (request_states s) (parent_requests s) l (parents s) (collectors s).
Definition set_parents (l : gmap Z ParentRequest) (s : OutputProcessor) : OutputProcessor :=
  mkProcessor (op_tokenizer s) (op_stream_interval s) (request_states s) (parent_requests s) (external_req_ids s) l (collectors s).
Definition set_collectors (l : gmap Z RequestOutputCollector) (s : OutputProcessor) : OutputProcessor :=
  mkProcessor (op_tokenizer s) (op_stream_interval s) (request_states s) (parent_requests s) (external_req_ids s) (parents s) l.

Abbreviation Proc := (M OutputProcessor).

(** Runs [m] on a state that is not in the dict; also gives the state afterwards. *)
Definition on_state {A} (rs : RequestState) (m : M Making A) : Proc (A * RequestState) := λ s,
  let '(r, (rs, ps)) := m (rs, parents s) in
  (match r with Ok a => Ok (a, rs) | Err e => Err e end, set_parents ps s).

(** Runs [m] on the state of [request_id] in the dict, where it stays. *)
Definition on_request {A} (request_id : string) (m : M Making A) : Proc (A * RequestState) := λ s,
  match dict_get (request_states s) request_id with
  | None => (Err KeyError, s)
  | Some rs =>
      let '(r, (rs, ps)) := m (rs, parents s) in
      (match r with Ok a => Ok (a, rs) | Err e => Err e end,
       set_request_states (dict_set (request_states s) request_id rs) (set_parents ps s))
  end.

Definition put_output (a : Z) (o : AnyOutput) : Proc unit := modify (λ s, set_collectors (alter (collector_put o) a (collectors s)) s).

(** [l.remove(x)] *)
Fixpoint remove_first (l : list string) (x : string) : res (list string) :=
  match l with
  | [] => Err ValueError
  | y :: r => if decide (y = x) then Ok r else r ← remove_first r x; Ok (y :: r)
  end.

(** Takes an internal id off the list of its external id, which goes when it is empty. *)
Definition forget_internal (external request_id : string) : Proc unit :=
  ids ← gets (λ s, default [] (dict_get (external_req_ids s) external));
  modify (λ s, set_external (dict_set (external_req_ids s) external ids) s) ;;
  ids ← lift_res (remove_first ids request_id);
  modify (λ s, set_external (dict_set (external_req_ids s) external ids) s) ;;
  if bool_decide (ids = []) then modify (λ s, set_external (dict_del (external_req_ids s) external) s) else mret tt.

Definition _finish_request (rs : RequestState) : Proc unit :=
  let req_id := rs_request_id rs in
  found ← gets (λ s, dict_get (request_states s) req_id);
  lift_opt KeyError found ;;
  modify (λ s, set_request_states (dict_del (request_states s) req_id) s) ;;
  forget_internal (rs_external_req_id rs) req_id ;;
  match rs_parent_req rs with
  | None => mret tt
  | Some a =>
      parent ← gets (λ s, parents s !! a);
      p ← lift_opt KeyError parent;
      if bool_decide (child_requests p = ∅) then modify (λ s, set_parent_requests (dict_del (parent_requests s) (pr_request_id p)) s)
      else mret tt
  end.

(** What [process_outputs] does with one request up to its output; also the finish reason. *)
Definition receive (o : EngineCoreOutput) : M Making (option AnyOutput * option FinishReason) :=
  modify (λ m, (set_rs_received (eo_num_cached_tokens o) m.1, m.2)) ;;
  stop_string ← (match eo_pooling_output o with
    | None => on_detokenizer (idt_update (eo_new_token_ids o) (bool_decide (eo_finish_reason o = Some STOP)))
    | Some _ => mret None
    end);
  let finish_reason := match nonempty stop_string with Some _ => Some STOP | None => eo_finish_reason o end in
  let stop_reason := match nonempty stop_string with Some t => Some (TextStop t) | None => EngineStop <$> eo_stop_reason o end in
  output ← make_request_output (eo_new_token_ids o) (eo_pooling_output o) finish_reason stop_reason;
  mret (output, finish_reason).

(** The outputs that are returned, and the requests to abort. *)
Abbreviation Processed := (list AnyOutput * list string)%type.

Definition deliver (rs : RequestState) (output : option AnyOutput) (acc : Processed) : Proc Processed :=
  match output with
  | None => mret acc
  | Some o =>
      let o := if rs_streaming_input rs then set_finished false o else o in
      match rs_queue rs with
      | Some a => put_output a o ;; mret acc
      | None => mret (acc.1 ++ [o], acc.2)
      end
  end.

(** The next input of a streaming session, when the last one is completed. *)
Definition next_input (rs : RequestState) : RequestState :=
  match rs_input_chunk_queue rs with
  | Some (update :: rest) => apply_streaming_update update (set_rs_input (rs_streaming_input rs) (Some rest) rs)
  | _ => set_rs_input (rs_streaming_input rs) None rs
  end.

Definition process_one (acc : Processed) (o : EngineCoreOutput) : Proc Processed :=
  let req_id := eo_request_id o in
  found ← gets (λ s, dict_get (request_states s) req_id);
  match found with
  | None => mret acc
  | Some _ =>
      r ← on_request req_id (receive o);
      let '((output, finish_reason), rs) := r in
      acc ← deliver rs output acc;
      match finish_reason with
      | None => mret acc
      | Some _ =>
          if rs_streaming_input rs then
            modify (λ s, set_request_states (dict_set (request_states s) req_id (next_input rs)) s) ;; mret acc
          else
            _finish_request rs ;;
            mret (acc.1, if bool_decide (eo_finish_reason o = None) then acc.2 ++ [req_id] else acc.2)
      end
  end.

Definition process_outputs (engine_core_outputs : list EngineCoreOutput) : Proc Processed :=
  fold_each engine_core_outputs ([], []) process_one.

Definition op_get_num_unfinished_requests (s : OutputProcessor) : Z := tlen (request_states s).
Definition op_has_unfinished_requests (s : OutputProcessor) : bool := 0 <? tlen (request_states s).

Definition propagate_error (e : exn) : Proc unit :=
  states ← gets request_states;
  for_each states (λ '(_, rs), a ← lift_opt AssertionError (rs_queue rs); put_output a (OutError e)).

(** ** Aborting *)

(** The ids to abort: internal ones as given, unmapped, or those of the external ids. *)
Definition internal_ids (internal : bool) (acc : list string) (request_id : string) : Proc (list string) :=
  if internal then
    found ← gets (λ s, dict_get (request_states s) request_id);
    (match found with Some rs => forget_internal (rs_external_req_id rs) request_id | None => mret tt end) ;;
    mret (acc ++ [request_id])
  else
    ids ← gets (λ s, default [] (dict_get (external_req_ids s) request_id));
    modify (λ s, set_external (dict_del (external_req_ids s) request_id) s) ;;
    mret (acc ++ ids).

(** The final output of an aborted request, for its collector. *)
Definition abort_state (rs : RequestState) : Proc unit :=
  match rs_queue rs with
  | None => mret tt
  | Some a =>
      r ← on_state rs (make_request_output [] (match rs_detokenizer rs with None => Some [] | Some _ => None end) (Some ABORT) None);
      match r.1 with Some o => put_output a o | None => mret tt end
  end.

Section aborting.
(** Python's set has no fixed order. *)
Context (list_of_set : gset string → list string).

(** [fuel]: a call for the children of a parent is nested in the call for the parent. *)
Fixpoint abort_requests (fuel : nat) (request_ids : list string) (internal : bool) : Proc (list string) :=
  match fuel with
  | O => raise OutOfFuel
  | S fuel =>
      internal_req_ids ← fold_each request_ids [] (internal_ids internal);
      fold_each internal_req_ids [] (λ acc request_id,
        state ← gets (λ s, dict_get (request_states s) request_id);
        match state with
        | Some rs =>
            modify (λ s, set_request_states (dict_del (request_states s) request_id) s) ;;
            abort_state rs ;;
            mret (acc ++ [request_id])
        | None =>
            parent ← gets (λ s, dict_get (parent_requests s) request_id);
            match parent with
            | None => mret acc
            | Some a =>
                p ← gets (λ s, parents s !! a);
                p ← lift_opt KeyError p;
                aborted ← (if bool_decide (child_requests p = ∅) then mret []
                           else abort_requests fuel (list_of_set (child_requests p)) true);
                modify (λ s, set_parent_requests (dict_del (parent_requests s) request_id) s) ;;
                mret (acc ++ aborted)
            end
        end)
  end.
End aborting.

(** ** Adding *)

Definition set_request_id (id_ : string) (params : OutputParams) (r : EngineCoreRequest) : EngineCoreRequest :=
  mkCoreRequest id_ (cr_external_req_id r) (cr_prompt_token_ids r) (cr_prompt_embeds r) (Some params) (cr_pooling_output_kind r) (cr_resumable r).

(** [_update_streaming_request_state] *)
Definition set_last_final (l : list InputUpdate) : list InputUpdate :=
  match last l with
  | Some u => take (length l - 1) l ++ [mkInputUpdate (iu_prompt u) (iu_prompt_token_ids u) true]
  | None => l
  end.
Definition put_state (rs : RequestState) : Proc unit :=
  modify (λ s, set_request_states (dict_set (request_states s) (rs_request_id rs) rs) s).
Definition _update_streaming_request_state (rs : RequestState) (request : EngineCoreRequest) (prompt : option text) : Proc unit :=
  if negb (cr_resumable request) then
    match rs_input_chunk_queue rs with
    | None =>
        _finish_request rs ;;
        match rs_queue rs with Some a => put_output a STREAM_FINISHED | None => mret tt end
    | Some [] => put_state (set_rs_input false (Some []) rs)
    | Some l => put_state (set_rs_input (rs_streaming_input rs) (Some (set_last_final l)) rs)
    end
  else
    let update := mkInputUpdate prompt (cr_prompt_token_ids request) false in
    match rs_input_chunk_queue rs with
    | None => put_state (set_rs_input (negb (iu_final update)) (Some []) (apply_streaming_update update rs))
    | Some l => put_state (set_rs_input (rs_streaming_input rs) (Some (l ++ [update])) rs)
    end.

Definition op_add_request (request : EngineCoreRequest) (prompt : option text) (parent_req : option Z) (request_index : Z)
    (queue : option Z) : Proc unit :=
  found ← gets (λ s, dict_get (request_states s) (cr_request_id request));
  match found with
  | Some rs => _update_streaming_request_state rs request prompt
  | None =>
      s ← gets id;
      rs ← lift_res (RequestState_from_new_request (op_tokenizer s) request prompt parent_req request_index queue (op_stream_interval s));
      modify (λ s, set_request_states (dict_set (request_states s) (cr_request_id request) rs) s) ;;
      (match parent_req with
       | None => mret tt
       | Some a =>
           p ← gets (λ s, parents s !! a);
           p ← lift_opt KeyError p;
           modify (λ s, set_parent_requests (dict_set (parent_requests s) (pr_request_id p) a) s)
       end) ;;
      let external := rs_external_req_id rs in
      modify (λ s, set_external (dict_set (external_req_ids s) external
        (default [] (dict_get (external_req_ids s) external) ++ [cr_request_id request])) s)
  end.

(** One child of a parallel-sampling request. *)
Definition add_child (request : EngineCoreRequest) (prompt : option text) (a : Z) (queue : option Z) (index : Z) : Proc unit :=
  parent ← gets (λ s, parents s !! a);
  p ← lift_opt KeyError parent;
  let '(info, p) := get_child_info index p in
  modify (λ s, set_parents (<[a := p]> (parents s)) s) ;;
  info ← lift_res info;
  op_add_request (set_request_id info.1 info.2 request) prompt (Some a) index queue.

(** The front end's own part of [LLMEngine.add_request] and, with a collector, of
    [AsyncLLM.add_request]. *)
Definition engine_add_request (request : EngineCoreRequest) (prompt : option text) (collect : option RequestOutputKind) : Proc unit :=
  queue ← (match collect with
    | None => mret None
    | Some kind =>
        a ← gets (λ s, fresh (dom (collectors s)));
        modify (λ s, set_collectors (<[a := RequestOutputCollector_init kind]> (collectors s)) s) ;; mret (Some a)
    end);
  let n := match cr_sampling_params request with Some params => op_n params | None => 1 end in
  if bool_decide (n = 1) then op_add_request request prompt None 0 queue
  else
    p ← lift_res (ParentRequest_init request);
    a ← gets (λ s, fresh (dom (parents s)));
    modify (λ s, set_parents (<[a := p]> (parents s)) s) ;;
    for_each (seqZ 0 n) (add_child request prompt a queue).

(** ** The stream of one request *)

Abbreviation Det := (Detokenizer (AnyDecoder St)).

Lemma wp_on_detokenizer {A} (f : M Det A) none Q E rs ps d :
  rs_detokenizer rs = Some (WithDetokenizer d) →
  wp f (λ a d', Q a (set_rs_detokenizer (Some (WithDetokenizer d')) rs, ps)) (λ e d', E e (set_rs_detokenizer (Some (WithDetokenizer d')) rs, ps)) d →
  wp (on_detokenizer (lift_detok f none)) Q E (rs, ps).
Proof.
  intros Ed Hf. unfold on_detokenizer. wp_step. wp_step. unfold Datatypes.id. wp_step. apply (wp_lift_some _ _ (WithDetokenizer d)); [done|].
  wp_step. cbn [lget lset detokL fst snd]. rewrite Ed. cbn [default]. revert Hf. unfold wp, lift_detok, Datatypes.id. by destruct (f d) as [[a|e] d'].
Qed.

(** The tokens a request has handed out, of the tokens [ids] so far. *)
Definition handed (ids : list Z) (rs : RequestState) : list Z :=
  if 1 <? rs_stream_interval rs then take (Z.to_nat (rs_sent_tokens_offset rs)) ids else ids.

(** A live request in delta mode, without parent and collector: its tokens, its text and
    the text handed out. *)
Record live (ids : list Z) (full sent : text) (rs : RequestState) (d : Det) : Prop := {
  lv_detokenizer : rs_detokenizer rs = Some (WithDetokenizer d);
  lv_kind : rs_output_kind rs = DELTA ∧ rs_parent_req rs = None ∧ rs_queue rs = None ∧ rs_streaming_input rs = false;
  lv_prompt : is_Some (request_prompt_ids rs);
  lv_tokens : output_token_ids d = ids ∧ 0 ≤ prompt_part (decoder d);
  lv_streaming : streaming full sent d;
  lv_sent : 0 ≤ rs_sent_tokens_offset rs ≤ tlen ids
}.

(** One completion with the given pieces. *)
Definition one_output (rs : RequestState) (t : text) (tokens : list Z) (fr : option FinishReason) (sr : option OutputStopReason) (o : AnyOutput) : Prop :=
  ∃ p, o = OutRequest (mkRequestOutput (rs_external_req_id rs) (rs_prompt rs) p
    [Some (mkCompletion (rs_request_index rs) t tokens fr (if bool_decide (is_Some fr) then sr else None))] (bool_decide (is_Some fr)) (Some (rs_num_cached_tokens rs))).

(** What [make_request_output] leaves alone. *)
Definition same_request (rs rs' : RequestState) : Prop :=
  rs_request_id rs' = rs_request_id rs ∧ rs_external_req_id rs' = rs_external_req_id rs ∧ rs_prompt rs' = rs_prompt rs ∧
  rs_request_index rs' = rs_request_index rs ∧ rs_output_kind rs' = rs_output_kind rs ∧ rs_parent_req rs' = rs_parent_req rs ∧
  rs_queue rs' = rs_queue rs ∧ rs_streaming_input rs' = rs_streaming_input rs ∧ request_prompt_ids rs' = request_prompt_ids rs ∧
  rs_stream_interval rs' = rs_stream_interval rs.

(** The stream interval in delta mode. *)
Lemma tokens_to_send_spec rs ps d new_ids (finished : bool) :
  rs_detokenizer rs = Some (WithDetokenizer d) → rs_output_kind rs = DELTA → 0 ≤ prompt_part (decoder d) ≤ tlen (token_ids d) →
  0 ≤ rs_sent_tokens_offset rs → (∃ before, output_token_ids d = before ++ new_ids) →
  wp (tokens_to_send new_ids finished) (λ o m, ∃ n, m = (set_rs_sent n rs, ps) ∧
      match o with
      | None => finished = false ∧ 1 < rs_stream_interval rs ∧ n = rs_sent_tokens_offset rs
      | Some tokens => if 1 <? rs_stream_interval rs
          then n = tlen (output_token_ids d) ∧ tokens = drop (Z.to_nat (rs_sent_tokens_offset rs)) (output_token_ids d)
          else n = rs_sent_tokens_offset rs ∧ tokens = new_ids
      end) no_exn (rs, ps).
Proof.
  intros Ed Ek Hp Hs [before Eb]. unfold tokens_to_send. wp_step. wp_step. unfold Datatypes.id. cbn [fst snd].
  assert (num_output_tokens d = tlen (output_token_ids d)) as En.
  { unfold num_output_tokens, output_token_ids. rewrite length_drop. lia. }
  destruct (1 <? rs_stream_interval rs) eqn:Ei.
  - apply Z.ltb_lt in Ei. wp_step. apply (wp_lift_some _ _ (WithDetokenizer d)); [done|]. cbn [idt_num_output_tokens idt_output_token_ids].
    wp_step.
    + wp_step. exists (rs_sent_tokens_offset rs). split; [by destruct rs|]. apply negb_true_iff in Hif. by destruct finished.
    + rewrite Ek. rewrite bool_decide_eq_true_2 by done. wp_step. wp_step. wp_step. exists (num_output_tokens d). split; [done|].
      split; [done|]. by rewrite slice_from_pos.
  - wp_step. exists (rs_sent_tokens_offset rs). split; [by destruct rs|done].
Qed.

(** The state after handing out. *)
Definition after_handing (n off : Z) (d : Det) (rs : RequestState) : RequestState :=
  set_rs_detokenizer (Some (WithDetokenizer (set_offset off d))) (set_rs_sent n rs).

Lemma same_after n off d rs : same_request rs (after_handing n off d rs).
Proof. by repeat split. Qed.

(** What has been handed out when an output is made: [sent] and the new piece [t] are the
    text up to the offset [off], all of it at the end. *)
Record handed_out_text (finished : bool) (sent t : text) (off : Z) (d : Det) : Prop := {
  ht_offset : _last_output_text_offset d ≤ off ≤ tlen (output_text d);
  ht_text : sent ++ t = take (Z.to_nat off) (output_text d);
  ht_held : off = 0 ∨ off + held finished d ≤ tlen (output_text d);
  ht_end : finished = true → sent ++ t = output_text d
}.

Lemma make_delta_spec rs ps d new_ids before sent fr sr :
  rs_detokenizer rs = Some (WithDetokenizer d) → rs_output_kind rs = DELTA → rs_parent_req rs = None → is_Some (request_prompt_ids rs) →
  0 ≤ prompt_part (decoder d) ≤ tlen (token_ids d) → 0 ≤ rs_sent_tokens_offset rs → output_token_ids d = before ++ new_ids →
  0 ≤ _last_output_text_offset d ≤ tlen (output_text d) → sent = take (Z.to_nat (_last_output_text_offset d)) (output_text d) →
  let finished := bool_decide (is_Some fr) in
  0 ≤ held finished d → _last_output_text_offset d = 0 ∨ _last_output_text_offset d + held finished d ≤ tlen (output_text d) →
  wp (make_request_output new_ids None fr sr) (λ o m,
      match o with
      | None => m = (rs, ps) ∧ fr = None ∧ 1 < rs_stream_interval rs
      | Some o => ∃ t tokens n off, m = (after_handing n off d rs, ps) ∧ one_output rs t tokens fr sr o ∧ handed_out_text finished sent t off d ∧
          if 1 <? rs_stream_interval rs
          then n = tlen (output_token_ids d) ∧ tokens = drop (Z.to_nat (rs_sent_tokens_offset rs)) (output_token_ids d)
          else n = rs_sent_tokens_offset rs ∧ tokens = new_ids
      end) no_exn (rs, ps).
Proof.
  intros Ed Ek Epar [p Ep] Hprompt Hsent Eids Hoff Esent finished Hheld Hb. unfold make_request_output. fold finished. wp_step. wp_step. cbn [fst].
  rewrite Ek. rewrite (bool_decide_eq_false_2 (DELTA = FINAL_ONLY)) by done. rewrite andb_false_r. wp_step.
  eapply wp_mono; [apply (tokens_to_send_spec rs ps d new_ids finished); eauto| |done]. intros send m (n & -> & Hn).
  destruct send as [tokens|].
  2: { destruct Hn as (Hf & Hi & ->). wp_step. split; [by destruct rs|]. unfold finished in Hf. split; [|done]. by destruct fr. }
  wp_step. wp_step. unfold Datatypes.id. wp_step. unfold _new_completion_output. wp_step. wp_step. cbn [fst rs_output_kind set_rs_sent]. rewrite Ek.
  rewrite (bool_decide_eq_true_2 (DELTA = DELTA)) by done. fold finished. wp_step.
  destruct (next_text finished sent d Hoff Esent Hheld Hb) as (t & off & Et & Ho & Htxt & _ & Hoff' & Hend).
  eapply wp_on_detokenizer; [exact Ed|]. unfold wp at 1. rewrite Et.
  wp_step. wp_step. wp_step. wp_step. wp_step. cbn [fst rs_parent_req set_rs_detokenizer set_rs_sent]. rewrite Epar. wp_step. unfold _new_request_output.
  wp_step. wp_step. unfold Datatypes.id. wp_step. apply (wp_lift_some _ _ p); [exact Ep|]. wp_step. apply (wp_lift_some _ _ (Some (mkCompletion (rs_request_index rs) t tokens fr (if finished then sr else None)))); [done|].
  wp_step. apply wp_assert; [done|]. wp_step. wp_step. exists t, tokens, n, off. split; [done|]. split; [by exists (Some p)|]. split; [by split|exact Hn].
Qed.

(** What a request was asked for. *)
Definition same_config (d d' : Det) : Prop :=
  stop d' = stop d ∧ dt_min_tokens d' = dt_min_tokens d ∧ include_stop_str_in_output d' = include_stop_str_in_output d.

(** The end of a request with the text [full]: the reason, and the text that is output. *)
Definition ended (d : Det) (o : EngineCoreOutput) (full final : text) (fr : FinishReason) (sr : option OutputStopReason) : Prop :=
  (eo_finish_reason o = Some fr ∧ sr = EngineStop <$> eo_stop_reason o ∧ final = full ∧ clean d full) ∨
  (∃ str k, fr = STOP ∧ sr = Some (TextStop str) ∧ str ∈ stop d ∧ occurs full str k ∧
     final = take (Z.to_nat (if include_stop_str_in_output d then k + tlen str else k)) full ∧
     (dt_min_tokens d = 0 → ∀ j, occurs full str j → k ≤ j)).

(** What receiving the new tokens [new] of the text [x] has led to. *)
Definition received (ids full sent x : list Z) (o : EngineCoreOutput) (rs : RequestState) (d : Det) (ps : gmap Z ParentRequest)
    (dd : AnyDecoder St) (r : option AnyOutput * option FinishReason) (m : Making) : Prop :=
  let new := eo_new_token_ids o in
  ∃ rs' d', m = (rs', ps) ∧ same_request rs rs' ∧ same_config d d' ∧ token_ids d' = token_ids d ++ new ∧ decoder d' = dd ∧
    match r with
    | (out, None) => eo_finish_reason o = None ∧ ∃ sent', live (ids ++ new) (full ++ x) sent' rs' d' ∧
        match out with
        | None => sent' = sent ∧ handed (ids ++ new) rs' = handed ids rs
        | Some a => ∃ t tokens, one_output rs' t tokens None None a ∧ sent' = sent ++ t ∧ handed (ids ++ new) rs' = handed ids rs ++ tokens
        end
    | (out, Some fr) => ∃ a t tokens sr, out = Some a ∧ one_output rs' t tokens (Some fr) sr a ∧
        handed ids rs ++ tokens = ids ++ new ∧ ended d o (full ++ x) (sent ++ t) fr sr
    end.

Lemma handed_app ids new rs :
  0 ≤ rs_sent_tokens_offset rs ≤ tlen ids →
  handed ids rs ++ (if 1 <? rs_stream_interval rs then drop (Z.to_nat (rs_sent_tokens_offset rs)) (ids ++ new) else new) = ids ++ new.
Proof.
  intros Hs. unfold handed. destruct (1 <? rs_stream_interval rs); [|done].
  rewrite drop_app_le by lia. by rewrite app_assoc, take_drop.
Qed.

Lemma nonempty_some t : t ≠ [] → nonempty (Some t) = Some t.
Proof. by destruct t. Qed.

Lemma output_ids_app (d d' : Det) new :
  token_ids d' = token_ids d ++ new → prompt_part (decoder d') = prompt_part (decoder d) → 0 ≤ prompt_part (decoder d) ≤ tlen (token_ids d) →
  output_token_ids d' = output_token_ids d ++ new.
Proof. intros E1 E2 Hp. unfold output_token_ids. rewrite E1, E2, drop_app_le; [done|lia]. Qed.

(** A request that goes on. *)
Lemma receive_going_on ids full sent x o rs rs1 d d' ps :
  live ids full sent rs d → same_request rs rs1 → same_config d d' → rs_sent_tokens_offset rs1 = rs_sent_tokens_offset rs →
  token_ids d' = token_ids d ++ eo_new_token_ids o → prompt_part (decoder d') = prompt_part (decoder d) →
  rs_detokenizer rs1 = Some (WithDetokenizer d') → streaming (full ++ x) sent d' →
  wp (make_request_output (eo_new_token_ids o) None (eo_finish_reason o) (EngineStop <$> eo_stop_reason o))
    (λ out m, received ids full sent x o rs d ps (decoder d') (out, eo_finish_reason o) m) no_exn (rs1, ps).
Proof.
  intros Hl Hsame Hcfg Es1 Etok Ep Edet Hstr. destruct Hl as [L1 (L2 & L3 & L4 & L5) L6 [L7 L7'] L8 L9].
  pose proof Hsame as (S1 & S2 & S3 & S4 & S5 & S6 & S7 & S8 & S9 & S10).
  pose proof Hstr as [[R1 [R2 R2'] R3] R4 R5 R6 R7]. rewrite Etok, length_app in R7. pose proof (sr_prompt _ _ _ L8) as Hpl.
  pose proof (output_ids_app d d' (eo_new_token_ids o) Etok Ep ltac:(lia)) as Eids. rewrite L7 in Eids.
  assert (0 ≤ held (bool_decide (is_Some (eo_finish_reason o))) d' ≤ stop_buffer_length d') as Hheld by (unfold held; destruct (bool_decide _); lia).
  pose proof (make_delta_spec rs1 ps d' (eo_new_token_ids o) ids sent (eo_finish_reason o) (EngineStop <$> eo_stop_reason o)
    Edet (eq_trans S5 L2) (eq_trans S6 L3)) as Hm. rewrite S9, Ep, Etok, length_app, Es1 in Hm.
  specialize (Hm L6 ltac:(lia) ltac:(lia) Eids ltac:(lia) ltac:(by rewrite R4) ltac:(lia) ltac:(lia)).
  eapply wp_mono; [exact Hm| |done].
  intros out m Hout. rewrite S10 in Hout. destruct out as [a|].
  - destruct Hout as (t & tokens & n & off & -> & Hone & [Ho Ht Hh He] & Htok). rewrite Eids in Htok.
    exists (after_handing n off d' rs1), (set_offset off d'). split; [done|]. split; [exact Hsame|]. split; [done|]. split; [done|]. split; [done|].
    assert (handed ids rs ++ tokens = ids ++ eo_new_token_ids o) as Hall.
    { rewrite <-(handed_app ids (eo_new_token_ids o) rs L9). f_equal. destruct (1 <? rs_stream_interval rs); apply Htok. }
    destruct (eo_finish_reason o) as [fr|] eqn:Efr.
    + exists a, t, tokens, (EngineStop <$> eo_stop_reason o). split; [done|].
      split; [exact Hone|]. split; [done|]. left. split; [done|]. split; [done|].
      rewrite He by done. split; [done|]. destruct Hcfg as (C1 & C2 & C3). intros Hmin. unfold clean in R6. rewrite C1, C2 in R6. by apply R6.
    + split; [done|]. exists (sent ++ t). split.
      2: { exists t, tokens. split; [exact Hone|]. split; [done|]. rewrite Hall. unfold handed. cbn. rewrite S10.
           destruct (1 <? rs_stream_interval rs); [|done]. destruct Htok as [-> _]. apply take_ge. lia. }
      split; cbn -[prompt_part]; rewrite ?S5, ?S6, ?S7, ?S8, ?S9; try done.
      * change (is_Some (request_prompt_ids rs1)). by rewrite S9.
      * change (output_token_ids d' = ids ++ eo_new_token_ids o ∧ 0 ≤ prompt_part (decoder d')). rewrite Ep. split; [exact Eids|lia].
      * split; cbn -[prompt_part]; try done; [|by rewrite Ht, R4|rewrite Etok, length_app; lia]. split; cbn; try done. cbn in Hh. lia.
      * rewrite length_app. destruct (1 <? rs_stream_interval rs); destruct Htok as [-> _]; rewrite ?length_app; lia.
  - destruct Hout as (-> & Efr & Hi). exists rs1, d'. split; [done|]. split; [exact Hsame|]. split; [done|]. split; [done|]. split; [done|]. rewrite Efr. split; [done|].
    exists sent. split.
    + split; rewrite ?S5, ?S6, ?S7, ?S8, ?S9; try done; [by rewrite Ep|]. rewrite Es1, length_app. lia.
    + split; [done|]. unfold handed. rewrite S10, Es1. rewrite (proj2 (Z.ltb_lt _ _)) by lia. rewrite take_app_le by lia. done.
Qed.

(** A request that a stop string ends. *)
Lemma receive_stopped ids full sent x o rs rs1 d d' ps str k :
  live ids full sent rs d → same_request rs rs1 → same_config d d' → rs_sent_tokens_offset rs1 = rs_sent_tokens_offset rs →
  token_ids d' = token_ids d ++ eo_new_token_ids o → prompt_part (decoder d') = prompt_part (decoder d) →
  rs_detokenizer rs1 = Some (WithDetokenizer d') → stopped_by (full ++ x) sent str k d' →
  wp (make_request_output (eo_new_token_ids o) None (Some STOP) (Some (TextStop str)))
    (λ out m, received ids full sent x o rs d ps (decoder d') (out, Some STOP) m) no_exn (rs1, ps).
Proof.
  intros Hl Hsame Hcfg Es1 Etok Ep Edet [B1 B2 B3 B4 B5 B6]. destruct Hl as [L1 (L2 & L3 & L4 & L5) L6 [L7 L7'] L8 L9].
  pose proof Hsame as (S1 & S2 & S3 & S4 & S5 & S6 & S7 & S8 & S9 & S10). pose proof (sr_prompt _ _ _ L8) as Hpl.
  pose proof (output_ids_app d d' (eo_new_token_ids o) Etok Ep ltac:(lia)) as Eids. rewrite L7 in Eids.
  pose proof (make_delta_spec rs1 ps d' (eo_new_token_ids o) ids sent (Some STOP) (Some (TextStop str))
    Edet (eq_trans S5 L2) (eq_trans S6 L3)) as Hm. rewrite S9, Ep, Etok, length_app, Es1 in Hm.
  specialize (Hm L6 ltac:(lia) ltac:(lia) Eids ltac:(lia) B4 ltac:(done) ltac:(cbn; lia)).
  eapply wp_mono; [exact Hm| |done]. intros out m Hout. rewrite S10 in Hout. destruct out as [a|]; [|by destruct Hout as (_ & ? & _)].
  destruct Hout as (t & tokens & n & off & -> & Hone & [Ho Ht Hh He] & Htok). rewrite Eids in Htok.
  exists (after_handing n off d' rs1), (set_offset off d'). split; [done|]. split; [exact Hsame|]. split; [done|]. split; [done|]. split; [done|].
  exists a, t, tokens, (Some (TextStop str)). split; [done|]. split; [exact Hone|]. split.
  - rewrite <-(handed_app ids (eo_new_token_ids o) rs L9). f_equal. destruct (1 <? rs_stream_interval rs); apply Htok.
  - right. destruct Hcfg as (C1 & C2 & C3). exists str, k. rewrite <-C1, <-C2, <-C3. split; [done|]. split; [done|]. split; [done|]. split; [done|].
    split; [by rewrite He|done].
Qed.

Lemma receive_spec ids full sent o rs d ps :
  live ids full sent rs d → eo_pooling_output o = None →
  wp (receive o) (λ r m, ∃ x dd, decode_run (token_ids d) (fed d (eo_new_token_ids o) (bool_decide (eo_finish_reason o = Some STOP))) (decoder d) = (Ok x, dd) ∧
      received ids full sent x o rs d ps dd r m)
    (λ e _, (decode_run (token_ids d) (fed d (eo_new_token_ids o) (bool_decide (eo_finish_reason o = Some STOP))) (decoder d)).1 = Err e) (rs, ps).
Proof.
  intros Hl Epool. unfold receive. rewrite Epool. wp_step. wp_step. wp_step. cbn [fst snd]. set (st := bool_decide _).
  set (rs0 := set_rs_received (eo_num_cached_tokens o) rs). unfold idt_update. eapply wp_on_detokenizer; [apply Hl|].
  eapply wp_mono; [apply (update_streaming full sent), Hl| |done].
  intros r d1 (x & dd & Er & Etok & Edd & Emin & Estop & Einc & Ebuf & Hr). wp_step.
  pose proof (f_equal (λ r, prompt_part r.2) Er) as Ep. cbn [snd] in Ep. rewrite decode_run_prompt, <-Edd in Ep.
  set (rs1 := set_rs_detokenizer (Some (WithDetokenizer d1)) rs0).
  assert (same_request rs rs1) as Hsame by by repeat split.
  assert (same_config d d1) as Hcfg by by split.
  eapply wp_mono with (Q := λ out m, received ids full sent x o rs d ps (decoder d1) (out, match nonempty r with Some _ => Some STOP | None => eo_finish_reason o end) m).
  - destruct r as [str|]; [|by apply (receive_going_on ids full sent x o rs rs1 d d1 ps)].
    destruct Hr as (k & Hr). pose proof (sb_stop _ _ _ _ _ Hr) as Hin. rewrite Estop in Hin. destruct str as [|c str].
    { pose proof (rn_stop _ (sr_running _ _ _ (lv_streaming _ _ _ _ _ Hl))) as Hne. rewrite Forall_forall in Hne. by destruct (Hne [] Hin). }
    cbn [nonempty]. by apply (receive_stopped ids full sent x o rs rs1 d d1 ps (c :: str) k).
  - intros out m Hout. wp_step. exists x, dd. split; [done|]. by rewrite <-Edd.
  - done.
Qed.

(** ** The stream through the processor *)

Abbreviation new_ids os := (concat (eo_new_token_ids <$> os)).

(** What the decoder makes of the tokens of [os], less the stop tokens that are left out. *)
Fixpoint decode_outputs (d : Det) (before : list Z) (os : list EngineCoreOutput) : M (AnyDecoder St) text :=
  match os with
  | [] => mret []
  | o :: rest =>
      x ← decode_run before (fed d (eo_new_token_ids o) (bool_decide (eo_finish_reason o = Some STOP)));
      y ← decode_outputs d (before ++ eo_new_token_ids o) rest;
      mret (x ++ y)
  end.

Lemma decode_outputs_snoc d before os o dd :
  decode_outputs d before (os ++ [o]) dd =
    match decode_outputs d before os dd with
    | (Ok x, d1) =>
        match decode_run (before ++ new_ids os) (fed d (eo_new_token_ids o) (bool_decide (eo_finish_reason o = Some STOP))) d1 with
        | (Ok y, d2) => (Ok (x ++ y), d2)
        | (Err e, d2) => (Err e, d2)
        end
    | (Err e, d1) => (Err e, d1)
    end.
Proof.
  revert before dd. induction os as [|o' os IH]; intros before dd; cbn -[decode_run]; unfold mbind, M_bind, mret, M_ret.
  - rewrite app_nil_r. destruct (decode_run _ _ dd) as [[y|e] d2]; [|done]. by rewrite app_nil_r.
  - destruct (decode_run _ _ dd) as [[y|e] d1]; [|done]. rewrite IH, <-app_assoc.
    destruct (decode_outputs _ _ os d1) as [[x|e] d2]; [|done]. destruct (decode_run _ _ d2) as [[z|e] d3]; [|done]. by rewrite app_assoc.
Qed.

(** The text, the tokens and the end of an output. *)
Definition out_completions (o : AnyOutput) : list CompletionOutput :=
  match o with OutRequest r => omap (λ c, c) (ro_outputs r) | _ => [] end.
Definition out_text (o : AnyOutput) : text := concat (co_text <$> out_completions o).
Definition out_tokens (o : AnyOutput) : list Z := concat (co_token_ids <$> out_completions o).
Definition out_finished (o : AnyOutput) : bool :=
  match o with OutRequest r => ro_finished r | OutPooling r => po_finished r | OutError _ => false end.
Definition outs_text (l : list AnyOutput) : text := concat (out_text <$> l).
Definition outs_tokens (l : list AnyOutput) : list Z := concat (out_tokens <$> l).

Lemma one_output_parts rs t tokens fr sr o : one_output rs t tokens fr sr o → out_text o = t ∧ out_tokens o = tokens ∧ out_finished o = bool_decide (is_Some fr).
Proof. intros [p ->]. unfold out_text, out_tokens. cbn. by rewrite !app_nil_r. Qed.

Lemma outs_snoc l o : outs_text (l ++ [o]) = outs_text l ++ out_text o ∧ outs_tokens (l ++ [o]) = outs_tokens l ++ out_tokens o.
Proof. unfold outs_text, outs_tokens. rewrite !fmap_app, !concat_app. cbn. by rewrite !app_nil_r. Qed.

(** The request [id_] is in the processor's maps. *)
Record registered (id_ : string) (rs : RequestState) (s : OutputProcessor) : Prop := {
  rg_state : dict_get (request_states s) id_ = Some rs;
  rg_id : rs_request_id rs = id_;
  rg_keys : NoDup (request_states s).*1;
  rg_external : ∃ l, dict_get (external_req_ids s) (rs_external_req_id rs) = Some l ∧ id_ ∈ l
}.

(** The request is live after the engine outputs [used]; [d0] was its detokenizer. *)
Record stream_live (d0 : Det) (id_ : string) (used : list EngineCoreOutput) (acc : Processed) (s : OutputProcessor) (rs : RequestState) (d : Det) (x : text) : Prop := {
  sl_registered : registered id_ rs s;
  sl_live : live (new_ids used) x (outs_text acc.1) rs d;
  sl_handed : handed (new_ids used) rs = outs_tokens acc.1;
  sl_decode : decode_outputs d0 (token_ids d0) used (decoder d0) = (Ok x, decoder d);
  sl_tokens : token_ids d = token_ids d0 ++ new_ids used;
  sl_config : same_config d0 d;
  sl_going : Forall (λ o, eo_finish_reason o = None) used;
  sl_outs : Forall (λ a, out_finished a = false) acc.1 ∧ acc.2 = []
}.

(** The request has ended with the engine outputs [used], of the text [x]. *)
Record stream_ended (d0 : Det) (id_ : string) (used : list EngineCoreOutput) (acc : Processed) (s : OutputProcessor) (x : text) : Prop := {
  se_gone : dict_get (request_states s) id_ = None;
  se_decode : (decode_outputs d0 (token_ids d0) used (decoder d0)).1 = Ok x;
  se_tokens : outs_tokens acc.1 = new_ids used;
  se_end : ∃ before o outs a fr sr, used = before ++ [o] ∧ Forall (λ o, eo_finish_reason o = None) before ∧
    acc.1 = outs ++ [a] ∧ Forall (λ a, out_finished a = false) outs ∧ out_finished a = true ∧
    (∃ rs t tokens, one_output rs t tokens (Some fr) sr a) ∧ ended d0 o x (outs_text acc.1) fr sr ∧
    acc.2 = (if bool_decide (eo_finish_reason o = None) then [id_] else [])
}.

(** The processor with the state a request has been given. *)
Definition put_made (id_ : string) (m : Making) (s : OutputProcessor) : OutputProcessor :=
  set_request_states (dict_set (request_states s) id_ m.1) (set_parents m.2 s).

Lemma wp_on_request {A} id_ rs (m : M Making A) (Q : A * RequestState → OutputProcessor → Prop) E s :
  dict_get (request_states s) id_ = Some rs →
  wp m (λ a n, Q (a, n.1) (put_made id_ n s)) (λ e n, E e (put_made id_ n s)) (rs, parents s) →
  wp (on_request id_ m) Q E s.
Proof. intros Es. unfold wp, on_request. rewrite Es. by destruct (m (rs, parents s)) as [[a|e] [rs' ps]]. Qed.

Lemma remove_first_in l x : x ∈ l → ∃ l', remove_first l x = Ok l'.
Proof.
  induction l as [|y l IH]; intros Hin; [by apply elem_of_nil in Hin|]. cbn. destruct (decide (y = x)) as [->|Hn]; [eauto|].
  apply elem_of_cons in Hin as [->|Hin]; [done|]. destruct (IH Hin) as [l' ->]. cbn. eauto.
Qed.

Lemma forget_internal_spec ext id_ l s :
  dict_get (external_req_ids s) ext = Some l → id_ ∈ l →
  wp (forget_internal ext id_) (λ _ s', ∃ e, s' = set_external e s) no_exn s.
Proof.
  intros El Hin. unfold forget_internal. wp_step. wp_step. rewrite El. cbn [default]. wp_step. wp_step. wp_step.
  destruct (remove_first_in l id_ Hin) as [l' Er]. apply wp_lift_res; unfold Datatypes.id; [|by intros e; rewrite Er]. intros l2 _. wp_step. wp_step. wp_step; wp_step; by eexists.
Qed.

Lemma finish_request_spec id_ rs s :
  registered id_ rs s → rs_parent_req rs = None →
  wp (_finish_request rs) (λ _ s', dict_get (request_states s') id_ = None) no_exn s.
Proof.
  intros [R1 R2 R3 (l & R4 & R5)] Hp. unfold _finish_request. rewrite R2. wp_step. wp_step. wp_step. apply (wp_lift_some _ _ rs); [done|].
  wp_step. wp_step. wp_step. eapply wp_mono; [by eapply (forget_internal_spec _ _ l)| |done]. intros [] s' [e ->]. rewrite Hp. wp_step. cbn.
  rewrite dict_get_del by done. by rewrite decide_True by done.
Qed.

Lemma registered_put id_ rs rs' ps s :
  registered id_ rs s → same_request rs rs' → registered id_ rs' (put_made id_ (rs', ps) s).
Proof.
  intros [R1 R2 R3 R4] (S1 & S2 & _). split; cbn.
  - rewrite dict_get_set. by rewrite decide_True by done.
  - congruence.
  - by apply dict_set_NoDup.
  - by rewrite S2.
Qed.

(** The next output of a live request. *)
Lemma process_one_spec d0 id_ used acc s rs d x o :
  stream_live d0 id_ used acc s rs d x → eo_request_id o = id_ → eo_pooling_output o = None →
  wp (process_one acc o) (λ acc' s',
      (∃ rs' d' x', stream_live d0 id_ (used ++ [o]) acc' s' rs' d' x') ∨ (∃ x', stream_ended d0 id_ (used ++ [o]) acc' s' x'))
    (λ e _, (decode_outputs d0 (token_ids d0) (used ++ [o]) (decoder d0)).1 = Err e) s.
Proof.
  intros [L1 L2 L3 L4 L5 L6 L7 [L8 L9]] Eid Epool. pose proof L1 as [R1 R2 R3 R4]. pose proof L2 as [V1 (V2 & V3 & V4 & V5) _ _ _ _].
  destruct L6 as (C1 & C2 & C3).
  assert (decode_outputs d0 (token_ids d0) (used ++ [o]) (decoder d0) =
    match decode_run (token_ids d) (fed d (eo_new_token_ids o) (bool_decide (eo_finish_reason o = Some STOP))) (decoder d) with
    | (Ok y, d2) => (Ok (x ++ y), d2) | (Err e, d2) => (Err e, d2) end) as Edec.
  { rewrite decode_outputs_snoc, L4, L5. unfold fed. by rewrite C3. }
  unfold process_one. rewrite Eid. wp_step. wp_step. rewrite R1. wp_step. eapply wp_on_request; [exact R1|].
  eapply wp_mono; [by apply (receive_spec (new_ids used) x (outs_text acc.1))| |].
  2: { intros e m. rewrite Edec. by destruct (decode_run _ _ _) as [[|] ?]; cbn; intros [= ->]. }
  intros [out fr] m (y & dd & Ey & rs' & d' & -> & Hsame & (C1' & C2' & C3') & Etok & Edd & Hr). rewrite Ey in Edec. cbn [fst snd].
  set (s1 := put_made id_ (rs', parents s) s). assert (registered id_ rs' s1) as Hreg by by apply (registered_put id_ rs).
  pose proof Hsame as (S1 & S2 & S3 & S4 & S5 & S6 & S7 & S8 & S9 & S10).
  assert (new_ids (used ++ [o]) = new_ids used ++ eo_new_token_ids o) as En by (rewrite fmap_app, concat_app; cbn; by rewrite app_nil_r).
  destruct fr as [fr|].
  - destruct Hr as (a & t & tokens & sr & -> & Hone & Hall & Hend). destruct (one_output_parts _ _ _ _ _ _ Hone) as (P1 & P2 & P3).
    wp_step. unfold deliver. rewrite S7, V4, S8, V5. wp_step. wp_step.
    eapply wp_mono; [apply (finish_request_spec id_ rs' s1 Hreg); by rewrite S6| |done]. intros [] s2 Hgone. wp_step. right. exists (x ++ y).
    destruct (outs_snoc acc.1 a) as [O1 O2]. split; cbn [fst snd].
    + done.
    + by rewrite Edec.
    + by rewrite O2, P2, En, <-L3.
    + exists used, o, acc.1, a, fr, sr. split; [done|]. split; [done|]. split; [done|]. split; [done|]. split; [by rewrite P3|].
      split; [by eauto|]. split; [|by rewrite L9]. rewrite O1, P1. unfold ended, clean in *. by rewrite <-C1, <-C2, <-C3.
  - destruct Hr as (Efin & sent' & Hlive & Hout). wp_step.
    assert (∃ acc', wp (deliver rs' out acc) (λ a s', a = acc' ∧ s' = s1) no_exn s1 ∧ sent' = outs_text acc'.1 ∧
      handed (new_ids used ++ eo_new_token_ids o) rs' = outs_tokens acc'.1 ∧ Forall (λ a, out_finished a = false) acc'.1 ∧ acc'.2 = []) as (acc' & Hd & Es' & Eh & Hf & Ea).
    { unfold deliver. destruct out as [a|]; rewrite ?S7, ?V4, ?S8, ?V5.
      - destruct Hout as (t & tokens & Hone & -> & Hh). destruct (one_output_parts _ _ _ _ _ _ Hone) as (P1 & P2 & P3).
        destruct (outs_snoc acc.1 a) as [O1 O2]. exists (acc.1 ++ [a], acc.2). split; [by wp_step|]. cbn [fst snd]. rewrite O1, O2, P1, P2. split; [done|].
        split; [by rewrite Hh, L3|]. split; [|done]. apply Forall_app. split; [done|]. by constructor.
      - destruct Hout as (-> & Hh). exists acc. split; [by wp_step|]. split; [done|]. split; [by rewrite Hh|done]. }
    eapply wp_mono; [exact Hd| |done]. intros a s' [-> ->]. wp_step. left. exists rs', d', (x ++ y). rewrite <-En in *. split.
    + done.
    + by rewrite <-Es'.
    + done.
    + by rewrite Edec, Edd.
    + rewrite Etok, L5, En. by rewrite app_assoc.
    + unfold same_config. by rewrite C1', C2', C3'.
    + apply Forall_app. split; [done|]. by constructor.
    + done.
Qed.

(** Outputs for a request that is gone are ignored. *)
Lemma process_one_gone acc s id_ o :
  dict_get (request_states s) id_ = None → eo_request_id o = id_ → process_one acc o s = (Ok acc, s).
Proof. intros E <-. unfold process_one, mbind, M_bind, gets. by rewrite E. Qed.

(** How far the stream has come after the outputs [dn]. *)
Definition stream_state (d0 : Det) (id_ : string) (dn : list EngineCoreOutput) (acc : Processed) (s : OutputProcessor) : Prop :=
  (∃ rs d x, stream_live d0 id_ dn acc s rs d x) ∨ (∃ used rest x, dn = used ++ rest ∧ stream_ended d0 id_ used acc s x).

Lemma process_stream d0 id_ os s rs :
  stream_live d0 id_ [] ([], []) s rs d0 [] → Forall (λ o, eo_request_id o = id_ ∧ eo_pooling_output o = None) os →
  wp (process_outputs os) (stream_state d0 id_ os)
    (λ e _, ∃ used rest, os = used ++ rest ∧ (decode_outputs d0 (token_ids d0) used (decoder d0)).1 = Err e) s.
Proof.
  intros Hs Hos. unfold process_outputs. apply wp_fold_each with (I := stream_state d0 id_); [|left; by exists rs, d0, []].
  intros dn o rest acc s' E Hdn. assert (eo_request_id o = id_ ∧ eo_pooling_output o = None) as [Eid Epool].
  { rewrite Forall_forall in Hos. apply Hos. rewrite E. apply elem_of_app. right. left. }
  destruct Hdn as [(rs' & d & x & Hl)|(used & r & x & -> & He)].
  - eapply wp_mono; [by apply (process_one_spec d0 id_ dn acc s' rs' d x)| |].
    + intros acc' s'' [Hl'|[x' He]]; [by left|]. right. exists (dn ++ [o]), [], x'. by rewrite app_nil_r.
    + intros e s1 He. exists (dn ++ [o]), rest. split; [by rewrite <-app_assoc|done].
  - unfold wp. rewrite (process_one_gone acc s' id_ o); [|apply He|done]. right. exists used, (r ++ [o]), x. by rewrite app_assoc.
Qed.

(** ** A new request *)

(** The stop strings of a request are not empty, as [SamplingParams] demands. *)
Definition stops_of (params : OutputParams) : list text :=
  match op_stop params with StopNone => [] | StopOne s => [s] | StopMany l => l end.

Lemma foldr_max_le (l : list Z) x : x ∈ l → x ≤ foldr Z.max 0 l.
Proof. induction l as [|y l IH]; [by intros ?%elem_of_nil|]. intros [->|Hx]%elem_of_cons; cbn; [lia|]. specialize (IH Hx). lia. Qed.

Lemma init_streaming {D} `{DecoderLaws D} params ids (d : D) :
  Forall (λ x, x ≠ []) (stops_of params) → prompt_part d ≤ tlen ids →
  streaming [] [] (BaseIncrementalDetokenizer_init params ids d).
Proof.
  intros Hne Hp. unfold BaseIncrementalDetokenizer_init. fold (stops_of params).
  assert (∀ x, x ∈ stops_of params → tlen x ≤ foldr Z.max 0 ((λ s, tlen s) <$> stops_of params)) as Hle.
  { intros x Hx. apply foldr_max_le. by apply (list_elem_of_fmap_2 (λ s : text, tlen s)). }
  split; cbn; [|done|done| |done].
  - split; cbn; [done| |split; [done|by left]]. destruct (stops_of params) as [|x l] eqn:Es; [split; [done|by intros _ y Hy%elem_of_nil]|].
    rewrite bool_decide_eq_false_2 by done. cbn [negb andb]. destruct (op_include_stop_str_in_output params); cbn [negb]; [split; [done|done]|].
    apply Forall_cons in Hne as [Hx _]. assert (0 < tlen x) by (destruct x; [done|cbn; lia]).
    split; [specialize (Hle x ltac:(left)); lia|]. intros _ y Hy. specialize (Hle y Hy). lia.
  - intros _ y j Hy (Hj1 & Hj2 & _). rewrite Forall_forall in Hne. specialize (Hne y Hy). destruct y; [done|]. cbn in Hj2. lia.
Qed.

Lemma map_decoder_streaming {D D'} `{DecoderLaws D, DecoderLaws D'} (f : D → D') s :
  (∀ d, prompt_part (f d) = prompt_part d) → streaming [] [] s → streaming [] [] (map_decoder f s).
Proof. intros Hf [[R1 R2 R3] R4 R5 R6 R7]. split; [by split|done|done|done|]. unfold map_decoder. cbn [token_ids decoder]. by rewrite Hf. Qed.

Lemma new_detokenizer_live tok params request n :
  length_from_prompt_token_ids_or_embeds (cr_prompt_token_ids request) (cr_prompt_embeds request) = Ok n →
  Forall (λ x, x ≠ []) (stops_of params) →
  ∃ d0, IncrementalDetokenizer_from_new_request (Some tok) params request n = WithDetokenizer d0 ∧ streaming [] [] d0 ∧
    output_token_ids d0 = [] ∧ 0 ≤ prompt_part (decoder d0).
Proof.
  intros Hn Hne. destruct tok as [t|t]; cbn [IncrementalDetokenizer_from_new_request]; eexists; (split; [reflexivity|]).
  - split; [|done]. apply map_decoder_streaming; [done|]. by apply init_streaming.
  - set (ids := cr_prompt_token_ids request) in *. 
    set (l := match ids with Some (t :: l) => t :: l | _ => replicate (Z.to_nat n) 0 end).
    assert (0 ≤ n ∧ tlen l = n) as [Hn0 Hl].
    { unfold l. destruct ids as [[|x r]|]; cbn in Hn; destruct (cr_prompt_embeds request) as [e|]; cbn in Hn;
        try (destruct (bool_decide _); [|done]); try discriminate Hn; injection Hn as <-; rewrite ?length_replicate; cbn; lia. }
    unfold SlowIncrementalDetokenizer_init. fold l. 
    assert (∃ tokens a b, match ids with Some ids => convert_prompt_ids_to_tokens t ids (op_skip_special_tokens params)
      | None => (replicate (Z.to_nat n) [], 0, 0) end = (tokens, a, b)) as (tokens & a & b & ->).
    { destruct ids as [ids|]; [|by eexists _, _, _]. destruct (convert_prompt_ids_to_tokens _ _ _) as [[tokens a] b]. by eexists _, _, _. }
    split; [apply map_decoder_streaming; [done|]; apply init_streaming; [done|]; cbn; lia|].
    split; [|done]. unfold output_token_ids. cbn. apply drop_ge. lia.
Qed.

(** A request for a single completion that is streamed in pieces. *)
Record streamed_request (id_ external : string) (params : OutputParams) (request : EngineCoreRequest) : Prop := {
  sq_id : cr_request_id request = id_;
  sq_external : cr_external_req_id request = Some external;
  sq_params : cr_sampling_params request = Some params;
  sq_kind : op_output_kind params = DELTA ∧ op_n params = 1 ∧ op_detokenize params = true;
  sq_stops : Forall (λ x, x ≠ []) (stops_of params);
  sq_resumable : cr_resumable request = false
}.

Lemma engine_add_streamed tok id_ external params request prompt n s :
  streamed_request id_ external params request → op_tokenizer s = Some tok →
  length_from_prompt_token_ids_or_embeds (cr_prompt_token_ids request) (cr_prompt_embeds request) = Ok n →
  NoDup (request_states s).*1 → dict_get (request_states s) id_ = None →
  ∃ d0, IncrementalDetokenizer_from_new_request (Some tok) params request n = WithDetokenizer d0 ∧
    wp (engine_add_request request prompt None) (λ _ s', ∃ rs, stream_live d0 id_ [] ([], []) s' rs d0 []) no_exn s.
Proof.
  intros [Q1 Q2 Q3 (Q4 & Q5 & Q6) Q7 Q8] Htok Hn Hnd Hnew. destruct (new_detokenizer_live tok params request n Hn Q7) as (d0 & Ed & Hstr & Hids & Hp).
  exists d0. split; [done|]. unfold engine_add_request. wp_step. wp_step. rewrite Q3, Q5. rewrite bool_decide_eq_true_2 by done.
  unfold op_add_request. rewrite Q1. wp_step. wp_step. rewrite Hnew. wp_step. wp_step. unfold Datatypes.id. wp_step.
  unfold RequestState_from_new_request. rewrite Hn, Q3, Q6, Htok. cbn [mbind res_bind]. rewrite Q2, Q1, Q8, Ed, Q4. cbn [fst snd].
  apply wp_lift_res; [|done]. intros rs [= <-]. wp_step. wp_step. wp_step. wp_step. wp_step.
  eexists. split; cbn [request_states set_external set_request_states external_req_ids].
  - split; cbn; [rewrite dict_get_set; by rewrite decide_True by done|done|by apply dict_set_NoDup|].
    eexists. rewrite dict_get_set, decide_True by done. split; [reflexivity|]. apply elem_of_app. right. left.
  - split; cbn -[prompt_part]; try done. destruct (cr_prompt_token_ids request); [done|]. by destruct (cr_prompt_embeds request).
  - unfold handed. cbn. by destruct (1 <? _).
  - done.
  - cbn. by rewrite app_nil_r.
  - done.
  - done.
  - done.
Qed.

(** ** The stream as the caller sees it *)

(** What the outputs [outs] say of the request with the engine outputs [used], whose
    tokens decode to [x]: a beginning of the text and of the tokens while the request is
    live, all of them at the end, which is the last output. *)
Definition stream_so_far (d0 : Det) (id_ : string) (used : list EngineCoreOutput) (x : text) (outs : list AnyOutput) (aborts : list string)
    (alive : bool) : Prop :=
  if alive then
    (∃ more, x = outs_text outs ++ more) ∧ (∃ more, new_ids used = outs_tokens outs ++ more) ∧ clean d0 x ∧
    Forall (λ o, eo_finish_reason o = None) used ∧ Forall (λ a, out_finished a = false) outs ∧ aborts = []
  else
    outs_tokens outs = new_ids used ∧
    ∃ before o outs' a fr sr, used = before ++ [o] ∧ Forall (λ o, eo_finish_reason o = None) before ∧
      outs = outs' ++ [a] ∧ Forall (λ a, out_finished a = false) outs' ∧ out_finished a = true ∧
      (∃ c, out_completions a = [c] ∧ co_finish_reason c = Some fr ∧ co_stop_reason c = sr) ∧ ended d0 o x (outs_text outs) fr sr ∧
      aborts = if bool_decide (eo_finish_reason o = None) then [id_] else [].

Lemma stream_so_far_intro d0 id_ os acc s :
  stream_state d0 id_ os acc s →
  ∃ used rest x, os = used ++ rest ∧ (decode_outputs d0 (token_ids d0) used (decoder d0)).1 = Ok x ∧
    stream_so_far d0 id_ used x acc.1 acc.2 (bool_decide (is_Some (dict_get (request_states s) id_))).
Proof.
  intros [(rs & d & x & [[L1 _ _ _] L2 L3 L4 L5 (C1 & C2 & C3) L7 [L8 L9]])|(used & rest & x & -> & [E1 E2 E3 E4])].
  - exists os, [], x. rewrite app_nil_r. split; [done|]. rewrite L4, L1. split; [done|]. rewrite bool_decide_eq_true_2 by done. cbn.
    destruct L2 as [_ _ _ _ [_ R2 R3 R4 _] _]. split; [|split; [|split; [|done]]].
    + rewrite R3. eexists. symmetry. apply take_drop.
    + rewrite <-L3. unfold handed. destruct (1 <? _); eexists; [symmetry; apply take_drop|by rewrite app_nil_r].
    + unfold clean in *. by rewrite C1, C2 in R4.
  - exists used, rest, x. split; [done|]. split; [done|]. rewrite E1. rewrite bool_decide_eq_false_2 by (intros [? ?]; done). cbn.
    split; [done|]. destruct E4 as (b & o & outs & a & fr & sr & H1 & H2 & H3 & H4 & H5 & (rs & t & k & Hone) & H7 & H8).
    exists b, o, outs, a, fr, sr. do 5 (split; [done|]). split; [|done]. destruct Hone as [p ->]. eexists. split; [reflexivity|]. split; [done|]. cbn.
    destruct H7 as [(_ & -> & _)|(str & k' & _ & -> & _)]; done.
Qed.
End processor.

(** ** The children of a parallel-sampling request *)

Lemma string_length_app (s t : string) : String.length (s +:+ t) = (String.length s + String.length t)%nat.
Proof. induction s as [|a s IH]; [done|]. change (S (String.length (s +:+ t)) = S (String.length s + String.length t)). by rewrite IH. Qed.

Lemma string_app_inv_tail (s s' t : string) : (s +:+ t)%string = (s' +:+ t)%string → s = s'.
Proof.
  revert s'. induction s as [|a s IH]; intros [|b s'] E; [done| | |].
  - apply (f_equal String.length) in E. rewrite !string_length_app in E. cbn in E. lia.
  - apply (f_equal String.length) in E. rewrite !string_length_app in E. cbn in E. lia.
  - change (String a (s +:+ t) = String b (s' +:+ t)) in E. injection E as -> E. by rewrite (IH s').
Qed.

Lemma child_id_inj request_id i j : child_id i request_id = child_id j request_id → i = j.
Proof. unfold child_id. intros E. apply (inj pretty). by apply string_app_inv_tail in E. Qed.

(** The child infos in order, as the loops of [add_request] take them. *)
Definition all_child_info (n : Z) : M ParentRequest (list (string * OutputParams)) :=
  fold_each (seqZ 0 n) [] (λ acc i, x ← get_child_info i; mret (acc ++ [x])).

(** The children finish in the given order with the completions [c]. *)
Definition finish_children (request_id : string) (c : Z → CompletionOutput) (order : list Z) : M ParentRequest (list (list (option CompletionOutput) * bool)) :=
  fold_each order [] (λ acc i, r ← get_outputs (child_id i request_id) (c i); mret (acc ++ [r])).

(** The parent after its first children have been given out. *)
Record fanned (request_id external : string) (params : OutputParams) (given : list Z) (infos : list (string * OutputParams)) (p : ParentRequest) : Prop := {
  fa_id : pr_request_id p = request_id ∧ pr_external_req_id p = external ∧ pr_sampling_params p = params;
  fa_children : child_requests p = list_to_set ((λ i, child_id i request_id) <$> given);
  fa_aggregator : output_aggregator p = if bool_decide (op_output_kind params = FINAL_ONLY) then replicate (Z.to_nat (op_n params)) None else [];
  fa_cached : ∀ x, cached_child_sampling_params p = Some x → op_seed params = None ∧ x = child_params params None;
  fa_infos : infos = (λ i, (child_id i request_id, child_params params ((λ s, s + i) <$> op_seed params))) <$> given
}.

Lemma get_child_info_spec request_id external params given infos p i :
  fanned request_id external params given infos p →
  ∃ x p', get_child_info i p = (Ok x, p') ∧ fanned request_id external params (given ++ [i]) (infos ++ [x]) p'.
Proof.
  intros [(F1 & F2 & F3) F4 F5 F6 ->]. unfold get_child_info, _get_child_sampling_params, mbind, M_bind, gets, modify, mret, M_ret, Datatypes.id.
  cbn [cached_child_sampling_params set_children pr_sampling_params]. rewrite F1, F3.
  assert (({[child_id i request_id]} ∪ child_requests p : gset string) = list_to_set ((λ i, child_id i request_id) <$> (given ++ [i]))) as Ec.
  { rewrite F4, fmap_app, list_to_set_app_L. cbn. rewrite union_empty_r_L. apply union_comm_L. }
  destruct (cached_child_sampling_params p) as [x|] eqn:Ex.
  - destruct (F6 x eq_refl) as [Es ->]. eexists _, _. split; [reflexivity|]. split; cbn; try done.
    + intros x Hx. rewrite Ex in Hx. by apply F6.
    + by rewrite fmap_app, Es.
  - destruct (op_seed params) as [seed|] eqn:Es; eexists _, _; (split; [reflexivity|]); split; cbn; try done.
    + intros x Hx. by rewrite Ex in Hx.
    + by rewrite fmap_app, Es.
    + intros x [= <-]. done.
    + by rewrite fmap_app, Es.
Qed.

Lemma all_child_info_spec request_id external params p n :
  fanned request_id external params [] [] p →
  ∃ infos p', all_child_info n p = (Ok infos, p') ∧ fanned request_id external params (seqZ 0 n) infos p'.
Proof.
  intros Hp. unfold all_child_info.
  assert (wp (fold_each (seqZ 0 n) [] (λ acc i, x ← get_child_info i; mret (acc ++ [x]))) (λ infos p', fanned request_id external params (seqZ 0 n) infos p') no_exn p) as Hw.
  { apply wp_fold_each with (I := λ dn infos p', fanned request_id external params dn infos p'); [|done].
    intros dn i rest infos p1 _ H1. wp_step. destruct (get_child_info_spec request_id external params dn infos p1 i H1) as (x & p2 & E & H2).
    unfold wp at 1. rewrite E. by wp_step. }
  destruct (wp_no_exn_run _ _ _ Hw) as (infos & p' & E & H'). eauto.
Qed.

(** The parent while its children finish. *)
Record finishing (request_id : string) (params : OutputParams) (c : Z → CompletionOutput) (n : Z) (dn : list Z) (p : ParentRequest) : Prop := {
  fi_params : pr_sampling_params p = params;
  fi_children : ∀ x, x ∈ child_requests p ↔ ∃ i, x = child_id i request_id ∧ 0 ≤ i < n ∧ i ∉ dn;
  fi_aggregator : op_output_kind params = FINAL_ONLY → output_aggregator p = (λ i, if decide (i ∈ dn) then Some (c i) else None) <$> seqZ 0 n
}.

(** The outputs of the child that finishes after [dn]. *)
Definition child_result (params : OutputParams) (c : Z → CompletionOutput) (n : Z) (dn : list Z) (i : Z) : list (option CompletionOutput) * bool :=
  let last_one := bool_decide (tlen dn + 1 = n) in
  (if bool_decide (op_output_kind params = FINAL_ONLY) then (if last_one then Some <$> (c <$> seqZ 0 n) else []) else [Some (c i)], last_one).

Lemma setitem_seqZ {A} (f g : Z → A) n i :
  0 ≤ i < n → (∀ j, j ≠ i → f j = g j) → list_setitem (f <$> seqZ 0 n) i (g i) = Ok (g <$> seqZ 0 n).
Proof.
  intros Hi Hfg. unfold list_setitem, py_index. rewrite length_fmap, length_seqZ. rewrite bool_decide_eq_false_2 by lia.
  rewrite (proj2 (Z.leb_le _ _)), (proj2 (Z.ltb_lt _ _)) by lia. cbn [andb]. f_equal. apply list_eq. intros k.
  rewrite list_lookup_fmap. destruct (decide (k = Z.to_nat i)) as [->|Hk].
  - rewrite list_lookup_insert_eq by (rewrite length_fmap, length_seqZ; lia). rewrite lookup_seqZ_lt by lia. cbn. repeat f_equal. lia.
  - rewrite list_lookup_insert_ne by done. rewrite list_lookup_fmap. destruct (seqZ 0 n !! k) as [j|] eqn:Ej; [|done]. cbn. f_equal.
    apply lookup_seqZ in Ej as [-> ?]. apply Hfg. lia.
Qed.
(** A list of distinct indices below [n] has them all when it is [n] long. *)
Lemma seqZ_covered (l : list Z) n :
  NoDup l → Forall (λ i, 0 ≤ i < n) l → 0 ≤ n → (∀ j, 0 ≤ j < n → j ∈ l) ↔ tlen l = n.
Proof.
  intros Hnd Hr Hn. pose proof (length_seqZ 0 n) as Hlen. rewrite Forall_forall in Hr.
  assert (l ⊆ seqZ 0 n) as Hsub by (intros j Hj; apply elem_of_seqZ; specialize (Hr j Hj); lia).
  pose proof (submseteq_length _ _ (NoDup_submseteq _ _ Hnd Hsub)) as Hle. split.
  - intros Hall. assert (seqZ 0 n ⊆ l) as Hsub' by (intros j Hj%elem_of_seqZ; apply Hall; lia).
    pose proof (submseteq_length _ _ (NoDup_submseteq _ _ (NoDup_seqZ 0 n) Hsub')). lia.
  - intros E j Hj. assert (l ≡ₚ seqZ 0 n) as ->; [|apply elem_of_seqZ; lia].
    apply submseteq_length_Permutation; [by apply NoDup_submseteq|lia].
Qed.

(** The ids of the children that are left. *)
Lemma children_left request_id n (l : list Z) (left_ : gset string) :
  NoDup l → Forall (λ i, 0 ≤ i < n) l → 0 ≤ n →
  (∀ x, x ∈ left_ ↔ ∃ j, x = child_id j request_id ∧ 0 ≤ j < n ∧ j ∉ l) → left_ = ∅ ↔ tlen l = n.
Proof.
  intros Hnd Hr Hn Hleft. rewrite <-(seqZ_covered l n Hnd Hr Hn). split.
  - intros E j Hj. destruct (decide (j ∈ l)) as [|Hj']; [done|]. exfalso.
    assert (child_id j request_id ∈ left_) as Hin by (apply Hleft; by exists j). rewrite E in Hin. by apply elem_of_empty in Hin.
  - intros Hall. apply elem_of_equiv_empty_L. intros x (j & -> & Hj & Hjd)%Hleft. by apply Hjd, Hall.
Qed.

(** The aggregator with one more completion. *)
Lemma aggregate_one (c : Z → CompletionOutput) n dn i :
  0 ≤ i < n →
  list_setitem ((λ j, if decide (j ∈ dn) then Some (c j) else None) <$> seqZ 0 n) i (Some (c i)) =
    Ok ((λ j, if decide (j ∈ dn ++ [i]) then Some (c j) else None) <$> seqZ 0 n).
Proof.
  intros Hi. pose proof (setitem_seqZ (λ j, if decide (j ∈ dn) then Some (c j) else None) (λ j, if decide (j ∈ dn ++ [i]) then Some (c j) else None) n i Hi) as Hset.
  cbn beta in Hset. rewrite (decide_True (P := i ∈ dn ++ [i])) in Hset by (apply elem_of_app; right; left). apply Hset. intros j Hj.
  apply decide_ext. rewrite elem_of_app, list_elem_of_singleton. naive_solver.
Qed.

Lemma get_outputs_spec request_id params c n dn i p :
  finishing request_id params c n dn p → 0 ≤ i < n → NoDup (dn ++ [i]) → Forall (λ i, 0 ≤ i < n) (dn ++ [i]) →
  co_index (c i) = i → co_finished (c i) = true →
  ∃ p', get_outputs (child_id i request_id) (c i) p = (Ok (child_result params c n dn i), p') ∧ finishing request_id params c n (dn ++ [i]) p'.
Proof.
  intros [F1 F2 F3] Hi Hnd Hdn Eidx Efin. unfold get_outputs, mbind, M_bind, gets, modify, mret, M_ret, Datatypes.id. rewrite Efin.
  assert (child_id i request_id ∈ child_requests p) as Hin.
  { apply F2. exists i. split; [done|]. split; [done|]. apply NoDup_app in Hnd as (_ & Hd & _). intros Hi'. apply (Hd i Hi'). left. }
  rewrite (bool_decide_eq_true_2 (child_id i request_id ∈ _)) by done. cbn [negb andb pr_sampling_params set_children child_requests output_aggregator].
  rewrite F1. set (left_ := child_requests p ∖ {[child_id i request_id]}).
  assert (∀ x, x ∈ left_ ↔ ∃ j, x = child_id j request_id ∧ 0 ≤ j < n ∧ j ∉ dn ++ [i]) as Hleft.
  { intros x. unfold left_. rewrite elem_of_difference, elem_of_singleton, F2. setoid_rewrite not_elem_of_app. setoid_rewrite list_elem_of_singleton. split.
    - intros [(j & -> & Hj & Hjd) Hne]. exists j. split; [done|]. split; [done|]. split; [done|]. by intros ->.
    - intros (j & -> & Hj & Hjd & Hji). split; [by exists j|]. by intros E%child_id_inj. }
  pose proof (children_left request_id n (dn ++ [i]) left_ Hnd Hdn ltac:(lia) Hleft) as Hlast. rewrite length_app in Hlast. cbn [length] in Hlast.
  assert (bool_decide (left_ = ∅) = bool_decide (tlen dn + 1 = n)) as Hb by (apply bool_decide_ext; rewrite Hlast; lia).
  unfold child_result. rewrite <-Hb. destruct (decide (op_output_kind params = FINAL_ONLY)) as [Ek|Ek].
  - rewrite (bool_decide_eq_true_2 (op_output_kind params = _)) by done. cbn [negb]. rewrite (F3 Ek), Eidx, aggregate_one by done.
    unfold lift_res. cbn [child_requests set_aggregator set_children]. fold left_.
    eexists (set_aggregator _ (set_children left_ p)). split; [|split; [done|exact Hleft|done]].
    destruct (bool_decide (left_ = ∅)) eqn:El; [|done]. repeat f_equal. apply bool_decide_eq_true in El.
    rewrite <-list_fmap_compose. apply list_fmap_ext. intros k j Hj%list_elem_of_lookup_2. cbn. rewrite decide_True; [done|].
    apply (seqZ_covered (dn ++ [i]) n Hnd Hdn ltac:(lia)); [rewrite length_app; cbn; by apply Hlast in El|]. apply elem_of_seqZ in Hj. lia.
  - rewrite (bool_decide_eq_false_2 (op_output_kind params = _)) by done. cbn [negb]. eexists. split; [reflexivity|]. split; cbn; [done|exact Hleft|done].
Qed.

(** ** What the front end promises *)

(** C38: a parallel-sampling request gives each child an id of its own and, when it
    has a seed, a seed of its own.  In whatever order the children finish, each finished
    completion reaches the caller once: at once when streaming, and together with the
    others in the order of their indices when only the final output is wanted.  The
    request is reported as finished with the last child and not before. *)
Theorem parallel_sampling_correct request external params c n order p0 :
  cr_external_req_id request = Some external → cr_sampling_params request = Some params → op_n params = n → 0 < n →
  ParentRequest_init request = Ok p0 → order ≡ₚ seqZ 0 n → (∀ i, 0 ≤ i < n → co_index (c i) = i ∧ co_finished (c i) = true) →
  ∃ infos p1 results p2,
    all_child_info n p0 = (Ok infos, p1) ∧
    infos = (λ i, (child_id i (cr_request_id request), child_params params ((λ s, s + i) <$> op_seed params))) <$> seqZ 0 n ∧ NoDup infos.*1 ∧
    finish_children (cr_request_id request) c order p1 = (Ok results, p2) ∧
    results = imap (λ k i, child_result params c n (take k order) i) order.
Proof.
  intros Eext Epar En Hn Einit Hord Hc. unfold ParentRequest_init in Einit. rewrite Eext, Epar in Einit. injection Einit as <-.
  set (p0 := mkParent _ _ _ _ _ _ _). set (rid := cr_request_id request).
  destruct (all_child_info_spec rid external params p0 n) as (infos & p1 & E1 & [F1 F2 F3 F4 F5]).
  { by split. }
  exists infos, p1. assert (finishing rid params c n [] p1) as Hp1.
  { split; [apply F1| |].
    - intros x. rewrite F2, elem_of_list_to_set, list_elem_of_fmap. setoid_rewrite elem_of_seqZ. split.
      + intros (i & -> & Hi). exists i. split; [done|]. split; [lia|apply not_elem_of_nil].
      + intros (i & -> & Hi & _). exists i. split; [done|lia].
    - intros Ek. rewrite F3. rewrite bool_decide_eq_true_2 by done. rewrite En. apply list_eq. intros k. rewrite list_lookup_fmap.
      destruct (seqZ 0 n !! k) as [j|] eqn:Ej; cbn; [apply lookup_seqZ in Ej as [_ Hk]; apply lookup_replicate; split; [done|lia]|].
      apply lookup_ge_None_2. apply lookup_ge_None in Ej. rewrite length_seqZ in Ej. by rewrite length_replicate. }
  assert (wp (finish_children rid c order) (λ results p2, results = imap (λ k i, child_result params c n (take k order) i) order) no_exn p1) as Hw.
  { eapply wp_mono; [apply wp_fold_each with (I := λ dn rs p, finishing rid params c n dn p ∧ rs = imap (λ k i, child_result params c n (take k order) i) dn)| |done].
    - intros dn i rest rs p E [Hp ->]. wp_step.
      assert (NoDup (dn ++ [i]) ∧ Forall (λ i, 0 ≤ i < n) (dn ++ [i])) as [Hnd Hr].
      { assert (NoDup order ∧ Forall (λ i, 0 ≤ i < n) order) as [Hnd Hr].
        { split; [rewrite Hord; apply NoDup_seqZ|]. apply Forall_forall. intros j Hj. rewrite Hord in Hj. apply elem_of_seqZ in Hj. lia. }
        rewrite E in Hnd, Hr. change (i :: rest) with ([i] ++ rest) in Hnd, Hr. rewrite app_assoc in Hnd, Hr.
        apply NoDup_app in Hnd as (? & _ & _). by apply Forall_app in Hr as [? _]. }
      assert (0 ≤ i < n) as Hi by (apply Forall_app in Hr as [_ Hr]; by apply Forall_cons in Hr as [? _]). destruct (Hc i Hi) as [Eidx Efin].
      destruct (get_outputs_spec rid params c n dn i p Hp Hi Hnd Hr Eidx Efin) as (p' & Eg & Hp'). unfold wp at 1. rewrite Eg. wp_step. split; [done|].
      rewrite imap_app. cbn. rewrite Nat.add_0_r. by replace (take (length dn) order) with dn by (by rewrite E, take_app_length).
    - split; [done|]. done.
    - by intros rs p [_ ->]. }
  destruct (wp_no_exn_run _ _ _ Hw) as (results & p2 & E2 & ->). exists (imap (λ k i, child_result params c n (take k order) i) order), p2.
  split; [done|]. split; [exact F5|]. split; [|done]. rewrite F5, <-list_fmap_compose. apply NoDup_fmap_2; [|apply NoDup_seqZ].
  intros i j E. cbn in E. by apply child_id_inj in E.
Qed.

(** C8: what a streaming caller receives for a request adds up, whatever the stream
    interval, the tokenizer and the stop strings.  While the request lives, the pieces of
    text and of tokens are beginnings of what has been decoded and generated, so nothing
    that was handed out is taken back; at the end they are all tokens and the final text,
    which is cut at the stop string that ended it.  There is exactly one final output, the
    engine is told to abort exactly the request it does not know to be finished, and
    outputs that arrive later are ignored.  Only the decoder can raise. *)
Theorem output_stream_correct {St} (tok : Tokenizer St) id_ external params request prompt n s os :
  streamed_request id_ external params request → op_tokenizer s = Some tok →
  length_from_prompt_token_ids_or_embeds (cr_prompt_token_ids request) (cr_prompt_embeds request) = Ok n →
  NoDup (request_states s).*1 → dict_get (request_states s) id_ = None →
  Forall (λ o, eo_request_id o = id_ ∧ eo_pooling_output o = None) os →
  ∃ d0, IncrementalDetokenizer_from_new_request (Some tok) params request n = WithDetokenizer d0 ∧
    wp (engine_add_request request prompt None ;; process_outputs os)
      (λ acc s', ∃ used rest x, os = used ++ rest ∧ (decode_outputs d0 (token_ids d0) used (decoder d0)).1 = Ok x ∧
         stream_so_far d0 id_ used x acc.1 acc.2 (bool_decide (is_Some (dict_get (request_states s') id_))))
      (λ e _, ∃ used rest, os = used ++ rest ∧ (decode_outputs d0 (token_ids d0) used (decoder d0)).1 = Err e) s.
Proof.
  intros Hq Htok Hn Hnd Hnew Hos. destruct (engine_add_streamed tok id_ external params request prompt n s Hq Htok Hn Hnd Hnew) as (d0 & Ed & Hadd).
  exists d0. split; [done|]. wp_step. eapply wp_mono; [exact Hadd| |done]. intros [] s1 [rs Hl].
  eapply wp_mono; [by apply (process_stream d0 id_ os s1 rs)| |done]. intros acc s2 Hs. by apply stream_so_far_intro in Hs.
Qed.

(** A tokenizer whose tokens are characters, and a request with the stop string "bc". *)
Definition char_tokenizer : Tokenizer unit := FastTok (mkFastTokenizer (λ _ _, tt) (λ t st, (StepText (Some [t]), st)) []).
Definition abc_params : OutputParams := mkOutputParams (StopOne [98; 99]) 0 false true true true DELTA 1 None.
Definition abc_request : EngineCoreRequest := mkCoreRequest "r-1" (Some "r") (Some [7]) None (Some abc_params) None false.
Definition abc_output (t : Z) : EngineCoreOutput := mkCoreOutput "r-1" [t] None None None 0 0.

Abbreviation abc_run :=
  ((engine_add_request abc_request None None ;; process_outputs (abc_output <$> [97; 98; 99; 100])) (OutputProcessor_init (Some char_tokenizer) 1)).

Lemma abc_run_result :
  match abc_run with
  | (Ok acc, s') => dict_get (request_states s') "r-1" = None ∧ outs_text acc.1 = [97] ∧ outs_tokens acc.1 = [97; 98; 99] ∧ acc.2 = ["r-1"]
  | _ => False
  end.
Proof. vm_compute. done. Qed.

Lemma output_stream_correct_witness :
  match abc_run with
  | (Ok acc, s') => outs_text acc.1 = [97] ∧ outs_tokens acc.1 = [97; 98; 99] ∧ acc.2 = ["r-1"] ∧
      ∃ (d0 : Detokenizer (AnyDecoder unit)) used rest x, abc_output <$> [97; 98; 99; 100] = used ++ rest ∧ stream_so_far d0 "r-1" used x acc.1 acc.2 false
  | _ => False
  end.
Proof.
  destruct (output_stream_correct char_tokenizer "r-1" "r" abc_params abc_request None 1 (OutputProcessor_init (Some char_tokenizer) 1)
    (abc_output <$> [97; 98; 99; 100])) as (d0 & _ & Hw); [split; try done; repeat constructor; done|done|done|apply NoDup_nil_2|done|repeat constructor|].
  pose proof abc_run_result as Hrun. destruct abc_run as [r s'] eqn:E. apply (wp_elim _ _ _ _ r s') in Hw; [|exact E]. destruct r as [acc|e]; [|done]. destruct Hrun as (Eg & E1 & E2 & E3).
  destruct Hw as (used & rest & x & Eu & _ & Hs). rewrite Eg in Hs. do 3 (split; [done|]). exists d0, used, rest, x. split; [exact Eu|exact Hs].
Defined.

Definition two_request : EngineCoreRequest :=
  mkCoreRequest "p-1" (Some "p") (Some [7]) None (Some (mkOutputParams StopNone 0 false true true true FINAL_ONLY 2 (Some 5))) None false.
Definition two_completion (i : Z) : CompletionOutput := mkCompletion i [97 + i] [i] (Some LENGTH) None.

Lemma parallel_sampling_correct_witness :
  ∃ p0 infos p1 results p2, ParentRequest_init two_request = Ok p0 ∧ all_child_info 2 p0 = (Ok infos, p1) ∧
    finish_children "p-1" two_completion [1; 0] p1 = (Ok results, p2) ∧
    results = [([], false); ([Some (two_completion 0); Some (two_completion 1)], true)].
Proof.
  destruct (parallel_sampling_correct two_request "p" (mkOutputParams StopNone 0 false true true true FINAL_ONLY 2 (Some 5)) two_completion 2 [1; 0]
    (mkParent "p-1" "p" (mkOutputParams StopNone 0 false true true true FINAL_ONLY 2 (Some 5)) ∅ [None; None] 0 None))
    as (infos & p1 & results & p2 & E1 & _ & _ & E2 & ->); [done|done|done|done|done|apply perm_swap|done|].
  eexists _, infos, p1, _, p2. split; [reflexivity|]. split; [exact E1|]. split; [exact E2|]. by vm_compute.
Defined.

(** ** What goes wrong *)

(** Aborting a parallel-sampling request by its external id, which is the default, removes
    its children but leaves the parent in [parent_requests] for good. *)
Definition abort_two : res (list string) * OutputProcessor (St := unit) :=
  (engine_add_request two_request None None ;; abort_requests elements 3 ["p"] false) (OutputProcessor_init None 1).

Lemma aborted_parent_stays :
  abort_two.1 = Ok ["0_p-1"; "1_p-1"] ∧ request_states abort_two.2 = [] ∧ external_req_ids abort_two.2 = [] ∧ (parent_requests abort_two.2).*1 = ["p-1"].
Proof. by vm_compute. Qed.

(** Only delta mode records what has been sent, so in cumulative mode the stream interval
    has no effect: every engine output becomes a request output. *)
Definition cumulative_request : EngineCoreRequest :=
  mkCoreRequest "r-1" (Some "r") (Some [7]) None (Some (mkOutputParams StopNone 0 false true true true CUMULATIVE 1 None)) None false.

Lemma cumulative_ignores_interval :
  match (engine_add_request cumulative_request None None ;; process_outputs (abc_output <$> [97; 98; 99])) (OutputProcessor_init (Some char_tokenizer) 100) with
  | (Ok acc, _) => out_text <$> acc.1 = [[97]; [97; 98]; [97; 98; 99]]
  | _ => False
  end.
Proof. by vm_compute. Qed.
