(* ===== verification/Logprobs.v ===== *)
(** * Log probabilities

    [vllm/logprobs.py]: the log probabilities of a request, a dict for each position, either in a
    list or flattened into six lists ([FlatLogprobs]); [vllm/v1/engine/logprobs.py]: the processor
    that fills these containers from what the engine core sends; [vllm/v1/outputs.py]: the rows of a
    request among those of a batch.  The tokenizer is a parameter, a text is a list of code points
    and a float the double it is. *)

From stdpp Require Import base list.
From Stdlib Require Import ZArith Lia Floats.SpecFloat.
From S2P Require Import Prelude.
Local Open Scope Z_scope.

Abbreviation text := (list Z).

(** ** Containers *)

Record Logprob := mkLogprob { logprob : spec_float; rank : option Z; decoded_token : option text }.

(** A dict in insertion order. *)
Abbreviation LogprobsOnePosition := (list (Z * Logprob)).

(** [{k: v for k, v in rows}] *)
Definition dict_of (rows : list (Z * Logprob)) : LogprobsOnePosition := foldl (λ d x, dict_set d x.1 x.2) [] rows.

Record FlatLogprobs := mkFlat {
  start_indices : list Z;
  end_indices : list Z;
  token_ids : list Z;
  logprobs : list spec_float;
  ranks : list (option Z);
  decoded_tokens : list (option text)
}.
Definition FlatLogprobs_init : FlatLogprobs := mkFlat [] [] [] [] [] [].

Definition open_position (f : FlatLogprobs) : FlatLogprobs :=
  mkFlat (start_indices f ++ [Z.of_nat (length (logprobs f))]) (end_indices f) (token_ids f) (logprobs f) (ranks f) (decoded_tokens f).
Definition close_position (f : FlatLogprobs) : FlatLogprobs :=
  mkFlat (start_indices f) (end_indices f ++ [Z.of_nat (length (logprobs f))]) (token_ids f) (logprobs f) (ranks f) (decoded_tokens f).
Definition push_entry (f : FlatLogprobs) (x : Z * Logprob) : FlatLogprobs :=
  mkFlat (start_indices f) (end_indices f) (token_ids f ++ [x.1]) (logprobs f ++ [logprob x.2]) (ranks f ++ [rank x.2])
    (decoded_tokens f ++ [decoded_token x.2]).

(** [None] and the empty dict add nothing. *)
Definition append (logprobs_one_position : option LogprobsOnePosition) (f : FlatLogprobs) : FlatLogprobs :=
  close_position (foldl push_entry (open_position f) (default [] logprobs_one_position)).

(** An iterable of decoded tokens: a list, or [itertools.repeat(None)]. *)
Inductive Decoded := Nones | Strings (l : list text).

Definition decoded_list (n : nat) (d : Decoded) : list (option text) :=
  match d with Nones => replicate n None | Strings l => Some <$> l end.

(** [zip(token_ids, logprobs, ranks, decoded_tokens)], which ends with the shortest. *)
Definition zip_rows (toks : list Z) (lps : list spec_float) (rks : list Z) (ds : Decoded) : list (Z * Logprob) :=
  zip_with (λ t x, (t, mkLogprob x.1 (Some x.2.1) x.2.2)) toks (zip lps (zip rks (decoded_list (length toks) ds))).

Definition append_fast (toks : list Z) (lps : list spec_float) (rks : list Z) (ds : Decoded) (f : FlatLogprobs) : FlatLogprobs :=
  close_position (foldl push_entry (open_position f) (zip_rows toks lps rks ds)).

Definition extend (l : list (option LogprobsOnePosition)) (f : FlatLogprobs) : FlatLogprobs := foldl (λ f d, append d f) f l.

(** [__len__] *)
Definition flat_len (f : FlatLogprobs) : Z := Z.of_nat (length (start_indices f)).

Definition flat_entry (f : FlatLogprobs) (i : Z) : res (Z * Logprob) :=
  t ← py_get (token_ids f) i; lp ← py_get (logprobs f) i; rk ← py_get (ranks f) i; d ← py_get (decoded_tokens f) i;
  Ok (t, mkLogprob lp rk d).

(** [__getitem__] with an index *)
Definition flat_getitem (f : FlatLogprobs) (index : Z) : res LogprobsOnePosition :=
  lo ← py_get (start_indices f) index;
  hi ← py_get (end_indices f) index;
  rows ← map_res (flat_entry f) (range lo hi);
  Ok (dict_of rows).

(** [__getitem__] with a slice [i:j] *)
Definition flat_slice (f : FlatLogprobs) (i j : Z) : res FlatLogprobs :=
  min_index ← py_get (slice i j (start_indices f)) 0;
  max_index ← py_get (slice i j (end_indices f)) (-1);
  Ok (mkFlat ((λ k, k - min_index) <$> slice i j (start_indices f)) ((λ k, k - min_index) <$> slice i j (end_indices f))
        (slice min_index max_index (token_ids f)) (slice min_index max_index (logprobs f))
        (slice min_index max_index (ranks f)) (slice min_index max_index (decoded_tokens f))).

(** [__iter__], run to its end *)
Definition flat_iter (f : FlatLogprobs) : res (list LogprobsOnePosition) := map_res (flat_getitem f) (range 0 (flat_len f)).

(** [PromptLogprobs] and [SampleLogprobs]: a prompt position may be [None]. *)
Inductive Container :=
  | Flat (f : FlatLogprobs)
  | Positions (l : list (option LogprobsOnePosition)).

Definition create_prompt_logprobs (flat_logprobs : bool) : Container :=
  if flat_logprobs then Flat (append None FlatLogprobs_init) else Positions [None].
Definition create_sample_logprobs (flat_logprobs : bool) : Container :=
  if flat_logprobs then Flat FlatLogprobs_init else Positions [].

Definition append_logprobs_for_next_position (toks : list Z) (lps : list spec_float) (ds : Decoded) (rk num_logprobs : Z) (c : Container) : Container :=
  let num_logprobs := if bool_decide (num_logprobs = -1) then Z.of_nat (length lps) else num_logprobs in
  let rks := rk :: range 1 (num_logprobs + 1) in
  match c with
  | Flat f => Flat (append_fast toks lps rks ds f)
  | Positions l => Positions (l ++ [Some (dict_of (zip_rows toks lps rks ds))])
  end.

Definition container_len (c : Container) : Z :=
  match c with Flat f => flat_len f | Positions l => Z.of_nat (length l) end.

(** [bool(c)] of a container or [None] *)
Definition truthy (c : option Container) : bool := match c with Some c => negb (container_len c =? 0) | None => false end.

(** [next(iter(c[-1]))] *)
Definition first_latest (c : Container) : res Z :=
  d ← match c with
      | Flat f => d ← flat_getitem f (-1); Ok (Some d)
      | Positions l => py_get l (-1)
      end;
  match d with None => Err OtherException | Some [] => Err StopIteration | Some ((t, _) :: _) => Ok t end.

(** [c[i:]] *)
Definition container_from (i : Z) (c : Container) : res Container :=
  match c with
  | Flat f => f' ← flat_slice f i (flat_len f); Ok (Flat f')
  | Positions l => Ok (Positions (slice_from i l))
  end.

(** ** Rows from the engine core *)

(** [LogprobsLists]: a row of tokens, one of log probabilities and the rank of the sampled token for
    each generated token of the batch. *)
Record LogprobsLists := mkLists {
  logprob_token_ids : list (list Z);
  logprob_rows : list (list spec_float);
  sampled_token_ranks : list Z;
  cu_num_generated_tokens : option (list Z)
}.

(** [slice_request] *)
Definition slice_request (req_idx num_positions : Z) (l : LogprobsLists) : res LogprobsLists :=
  req_idx ← match cu_num_generated_tokens l with Some cu => py_get cu req_idx | None => Ok req_idx end;
  let end_idx := req_idx + num_positions in
  Ok (mkLists (slice req_idx end_idx (logprob_token_ids l)) (slice req_idx end_idx (logprob_rows l))
        (slice req_idx end_idx (sampled_token_ranks l)) None).

(** [LogprobsTensors] of a prompt: [num_rows] rows of [num_columns] tokens. *)
Record LogprobsTensors := mkTensors {
  num_rows : nat;
  num_columns : nat;
  prompt_token_rows : list (list Z);
  prompt_logprob_rows : list (list spec_float);
  selected_token_ranks : list Z
}.

(** ** The processor of a request *)

Record LogprobsProcessor := mkProcessor {
  tokenizer : option (list Z → option text);
  sample_logprobs : option Container;
  prompt_logprobs : option Container;
  cumulative_logprob : option spec_float;
  num_logprobs : option Z;
  num_prompt_logprobs : option Z
}.
Definition set_sample_logprobs c (p : LogprobsProcessor) := mkProcessor (tokenizer p) c (prompt_logprobs p) (cumulative_logprob p) (num_logprobs p) (num_prompt_logprobs p).
Definition set_prompt_logprobs c (p : LogprobsProcessor) := mkProcessor (tokenizer p) (sample_logprobs p) c (cumulative_logprob p) (num_logprobs p) (num_prompt_logprobs p).
Definition set_cumulative x (p : LogprobsProcessor) := mkProcessor (tokenizer p) (sample_logprobs p) (prompt_logprobs p) x (num_logprobs p) (num_prompt_logprobs p).

(** The fields of [SamplingParams] that [from_new_request] reads. *)
Definition from_new_request (tok : option (list Z → option text)) (num num_prompt : option Z) (flat_logprobs : bool) : LogprobsProcessor :=
  mkProcessor tok
    (match num with None => None | Some _ => Some (create_sample_logprobs flat_logprobs) end)
    (match num_prompt with None => None | Some _ => Some (create_prompt_logprobs flat_logprobs) end)
    (match num with None => None | Some _ => Some (S754_zero false) end)
    num num_prompt.

(** Python adds floats as doubles. *)
Definition double_add : spec_float → spec_float → spec_float := SFadd 53 1024.

Definition convert_ids_list_to_tokens (decode : list Z → option text) (ids : list Z) : list text :=
  (λ t, default [] (decode [t])) <$> ids.

(** The text ends with the replacement character: the token is a part of a character. *)
Definition unfinished (t : text) : bool := bool_decide (last t = Some 65533).

(** [tokenizer.decode(ids)], on whose value a method is called *)
Definition decoded (decode : list Z → option text) (ids : list Z) : res text :=
  match decode ids with Some t => Ok t | None => Err OtherException end.

(** The second attempt, with the latest token of the container before the tokens. *)
Definition correct_with_latest (p : LogprobsProcessor) (decode : list Z → option text) (idx : Z) (toks : list Z) : res text :=
  match sample_logprobs p with
  | Some c =>
      if negb (truthy (Some c)) then Ok [] else
      latest_token_id ← first_latest c;
      t ← decoded decode (latest_token_id :: (if 0 <? idx then slice (idx - 1) (idx + 1) toks else slice idx (idx + 1) toks));
      Ok (if unfinished t then [] else t)
  | None => Ok []
  end.

Definition _correct_decoded_token (p : LogprobsProcessor) (idx : Z) (toks : list Z) : res text :=
  match tokenizer p with
  | None => Err AssertionError
  | Some decode =>
      if 0 <? idx then
        t ← decoded decode (slice (idx - 1) (idx + 1) toks);
        if unfinished t then correct_with_latest p decode idx toks else Ok t
      else correct_with_latest p decode idx toks
  end.

(** The corrections do not read the list they replace elements of. *)
Definition _verify_tokens (p : LogprobsProcessor) (decoded_tokens_list : list text) (toks : list Z) : res (list text) :=
  map_res (λ '(idx, t), if unfinished t then _correct_decoded_token p idx toks else Ok t)
    (zip (range 0 (Z.of_nat (length decoded_tokens_list))) decoded_tokens_list).

Abbreviation Proc := (M LogprobsProcessor).

(** The decoded tokens of a position, or [NONES] without a tokenizer. *)
Definition decode_position (texts : option (list text)) (toks : list Z) : Proc Decoded :=
  match texts with
  | None => mret Nones
  | Some l => p ← gets id; l ← lift_res (_verify_tokens p l toks); mret (Strings l)
  end.

Definition sample_position (rk : Z) (lps : list spec_float) (toks : list Z) : Proc unit :=
  p ← gets id;
  ds ← decode_position ((λ decode, convert_ids_list_to_tokens decode toks) <$> tokenizer p) toks;
  sampled_token_logprob ← lift_res (py_get lps 0);
  modify (λ p, set_cumulative ((λ x, double_add x sampled_token_logprob) <$> cumulative_logprob p) p) ;;
  modify (λ p, set_sample_logprobs (append_logprobs_for_next_position toks lps ds rk (default 0 (num_logprobs p)) <$> sample_logprobs p) p).

Definition _update_sample_logprobs (l : LogprobsLists) : Proc unit :=
  p ← gets id;
  assert_ (bool_decide (is_Some (num_logprobs p))) ;;
  assert_ (bool_decide (is_Some (sample_logprobs p))) ;;
  assert_ (bool_decide (is_Some (cumulative_logprob p))) ;;
  for_each (zip (sampled_token_ranks l) (zip (logprob_rows l) (logprob_token_ids l))) (λ '(rk, (lps, toks)), sample_position rk lps toks).

Definition prompt_position (t : LogprobsTensors) (all_decoded : option (list text)) (pos : Z) : Proc unit :=
  let offset := pos * Z.of_nat (num_columns t) in
  let offset_end := offset + Z.of_nat (num_columns t) in
  toks ← lift_res (py_get (prompt_token_rows t) pos);
  ds ← decode_position (slice offset offset_end <$> all_decoded) toks;
  lps ← lift_res (py_get (prompt_logprob_rows t) pos);
  rk ← lift_res (py_get (selected_token_ranks t) pos);
  modify (λ p, set_prompt_logprobs (append_logprobs_for_next_position toks lps ds rk (default 0 (num_prompt_logprobs p)) <$> prompt_logprobs p) p).

Definition _update_prompt_logprobs (t : LogprobsTensors) : Proc unit :=
  p ← gets id;
  assert_ (bool_decide (is_Some (num_prompt_logprobs p))) ;;
  assert_ (bool_decide (is_Some (prompt_logprobs p))) ;;
  let all_decoded := (λ decode, convert_ids_list_to_tokens decode (concat (prompt_token_rows t))) <$> tokenizer p in
  for_each (range 0 (Z.of_nat (num_rows t))) (prompt_position t all_decoded).

(** [update_from_output], given the two fields of the output that it reads *)
Definition update_from_output (new_logprobs : option LogprobsLists) (new_prompt_logprobs_tensors : option LogprobsTensors) : Proc unit :=
  (match new_logprobs with Some l => _update_sample_logprobs l | None => mret tt end) ;;
  (match new_prompt_logprobs_tensors with Some t => _update_prompt_logprobs t | None => mret tt end).

Definition pop_prompt_logprobs : Proc (option Container) :=
  plp ← gets prompt_logprobs;
  (if truthy plp then modify (set_prompt_logprobs (Some (Positions []))) else mret tt) ;;
  mret plp.

(** The log probabilities of a completion output ([_new_completion_output] of the output processor),
    with the number of its tokens. *)
Definition completion_logprobs (delta : bool) (num_token_ids : Z) (p : LogprobsProcessor) : res (option Container) :=
  match sample_logprobs p with
  | Some c => if delta && truthy (Some c) then c' ← container_from (- num_token_ids) c; Ok (Some c') else Ok (Some c)
  | None => Ok None
  end.

(** ** Flattening *)

(** The rows of all positions, one after the other, with the offsets of each. *)
Fixpoint starts (n : Z) (rows : list (list (Z * Logprob))) : list Z :=
  match rows with [] => [] | r :: rest => n :: starts (n + Z.of_nat (length r)) rest end.
Fixpoint ends (n : Z) (rows : list (list (Z * Logprob))) : list Z :=
  match rows with [] => [] | r :: rest => (n + Z.of_nat (length r)) :: ends (n + Z.of_nat (length r)) rest end.
Definition flatten (rows : list (list (Z * Logprob))) : FlatLogprobs :=
  let es := concat rows in
  mkFlat (starts 0 rows) (ends 0 rows) es.*1 (logprob <$> es.*2) (rank <$> es.*2) (decoded_token <$> es.*2).

Abbreviation total rows := (Z.of_nat (length (concat rows))).

Lemma length_starts n rows : length (starts n rows) = length rows.
Proof. revert n. induction rows as [|r rows IH]; intros n; [done|]. cbn. by rewrite IH. Qed.
Lemma length_ends n rows : length (ends n rows) = length rows.
Proof. revert n. induction rows as [|r rows IH]; intros n; [done|]. cbn. by rewrite IH. Qed.

Lemma starts_app n a b : starts n (a ++ b) = starts n a ++ starts (n + total a) b.
Proof.
  revert n. induction a as [|r a IH]; intros n; cbn; [f_equal; lia|]. rewrite IH, length_app. do 3 f_equal. lia.
Qed.
Lemma ends_app n a b : ends n (a ++ b) = ends n a ++ ends (n + total a) b.
Proof.
  revert n. induction a as [|r a IH]; intros n; cbn; [f_equal; lia|]. rewrite IH, length_app. do 3 f_equal. lia.
Qed.

Lemma starts_shift k n rows : (λ i, i - k) <$> starts n rows = starts (n - k) rows.
Proof. revert n. induction rows as [|r rows IH]; intros n; cbn; [done|]. rewrite IH. do 2 f_equal. lia. Qed.
Lemma ends_shift k n rows : (λ i, i - k) <$> ends n rows = ends (n - k) rows.
Proof. revert n. induction rows as [|r rows IH]; intros n; cbn; [done|]. rewrite IH. f_equal; [lia|]. f_equal. lia. Qed.

Lemma starts_lookup n rows i r : rows !! i = Some r →
  starts n rows !! i = Some (n + total (take i rows)) ∧ ends n rows !! i = Some (n + total (take i rows) + Z.of_nat (length r)).
Proof.
  revert n i. induction rows as [|r0 rows IH]; intros n [|i]; [done..| |].
  - intros [= ->]. cbn. by rewrite Z.add_0_r.
  - intros [E1 E2]%(IH (n + Z.of_nat (length r0))). split; (etransitivity; [exact E1 || exact E2|]); cbn; rewrite length_app; f_equal; lia.
Qed.

Lemma starts_drop n k rows : drop k (starts n rows) = starts (n + total (take k rows)) (drop k rows) ∧
  drop k (ends n rows) = ends (n + total (take k rows)) (drop k rows).
Proof.
  revert n k. induction rows as [|r rows IH]; intros n [|k]; cbn; [done|done|by rewrite Z.add_0_r|].
  destruct (IH (n + Z.of_nat (length r)) k) as [-> ->]. rewrite length_app. split; f_equal; lia.
Qed.
Lemma starts_take n k rows : take k (starts n rows) = starts n (take k rows) ∧ take k (ends n rows) = ends n (take k rows).
Proof.
  revert n k. induction rows as [|r rows IH]; intros n [|k]; cbn; [done..|].
  by destruct (IH (n + Z.of_nat (length r)) k) as [-> ->].
Qed.

Lemma ends_last n rows r : last rows = Some r → last (ends n rows) = Some (n + total rows).
Proof.
  destruct rows as [|r0 rows _] using rev_ind; [done|]. intros _. rewrite ends_app, last_app. cbn. rewrite concat_app, length_app. cbn.
  rewrite app_nil_r. f_equal. lia.
Qed.

(** Appending a position is appending its row. *)
Lemma push_entries l f :
  foldl push_entry f l = mkFlat (start_indices f) (end_indices f) (token_ids f ++ l.*1) (logprobs f ++ (logprob <$> l.*2))
    (ranks f ++ (rank <$> l.*2)) (decoded_tokens f ++ (decoded_token <$> l.*2)).
Proof.
  revert f. induction l as [|x l IH]; intros f; cbn; [destruct f; cbn; by rewrite !app_nil_r|].
  rewrite IH. cbn. by rewrite <-!app_assoc.
Qed.

Lemma flatten_snoc rows row :
  close_position (foldl push_entry (open_position (flatten rows)) row) = flatten (rows ++ [row]).
Proof.
  rewrite push_entries. unfold flatten, close_position, open_position. cbn.
  rewrite starts_app, ends_app, concat_app. cbn. rewrite app_nil_r, !fmap_app, !length_app, !length_fmap. cbn. f_equal; f_equal; f_equal; lia.
Qed.

Lemma append_flatten d rows : append d (flatten rows) = flatten (rows ++ [default [] d]).
Proof. apply flatten_snoc. Qed.

Lemma append_fast_flatten toks lps rks ds rows :
  append_fast toks lps rks ds (flatten rows) = flatten (rows ++ [zip_rows toks lps rks ds]).
Proof. apply flatten_snoc. Qed.

(** ** Reading what was flattened *)

(** Lists of one length raise at the same indices. *)
Lemma py_get_both {A B} (l : list A) (l' : list B) i :
  length l = length l' →
  (py_get l i = Err IndexError ∧ py_get l' i = Err IndexError) ∨
  ∃ k a b, l !! k = Some a ∧ l' !! k = Some b ∧ py_get l i = Ok a ∧ py_get l' i = Ok b.
Proof.
  intros El. unfold py_get. rewrite <-El. case_bool_decide; [by left|]. set (k := Z.to_nat _).
  destruct (l !! k) as [a|] eqn:Ea.
  - right. apply lookup_lt_Some in Ea as Hk. rewrite El in Hk. apply lookup_lt_is_Some in Hk as [b Eb]. exists k, a, b. by rewrite Eb.
  - left. apply lookup_ge_None in Ea. rewrite El in Ea. apply lookup_ge_None in Ea. by rewrite Ea.
Qed.

Lemma py_get_fmap {A B} (f : A → B) (l : list A) i : py_get (f <$> l) i = (x ← py_get l i; Ok (f x)).
Proof.
  destruct (py_get_both l (f <$> l) i) as [[-> ->]|(k & a & b & Ha & Hb & -> & ->)]; [by rewrite length_fmap|done|].
  rewrite list_lookup_fmap, Ha in Hb. by injection Hb as <-.
Qed.

Lemma py_get_last {A} (l : list A) x : last l = Some x → py_get l (-1) = Ok x.
Proof.
  intros Hl. unfold py_get, py_index. rewrite last_lookup in Hl. apply lookup_lt_Some in Hl as Hlt.
  rewrite (bool_decide_eq_true_2 (-1 < 0)) by done. rewrite bool_decide_eq_false_2 by lia.
  replace (Z.to_nat (-1 + Z.of_nat (length l))) with (pred (length l)) by lia. by rewrite Hl.
Qed.

Lemma map_res_range {A} (g : Z → res A) (l : list A) n :
  (∀ k x, l !! k = Some x → g (n + Z.of_nat k) = Ok x) → map_res g (range n (n + Z.of_nat (length l))) = Ok l.
Proof.
  unfold range. replace (n + Z.of_nat (length l) - n) with (Z.of_nat (length l)) by lia.
  revert n. induction l as [|x l IH]; intros n Hg; [done|]. cbn [length]. rewrite seqZ_cons by lia. cbn [map_res].
  pose proof (Hg 0%nat x eq_refl) as E0. rewrite Z.add_0_r in E0. rewrite E0. cbn [mbind res_bind].
  replace (Z.pred (Z.of_nat (S (length l)))) with (Z.of_nat (length l)) by lia. rewrite IH; [done|].
  intros k y Hy. rewrite <-(Hg (S k) y) by done. f_equal. lia.
Qed.

Lemma flat_entry_flatten rows k x : concat rows !! k = Some x → flat_entry (flatten rows) (Z.of_nat k) = Ok x.
Proof.
  intros Hx. unfold flat_entry, flatten. cbn.
  assert (∀ {B} (f : Z * Logprob → B), (f <$> concat rows) !! k = Some (f x)) as Hf by (intros B f; by rewrite list_lookup_fmap, Hx).
  rewrite (py_get_nat _ _ _ (Hf _ fst)), <-!list_fmap_compose. cbn [mbind res_bind].
  rewrite (py_get_nat _ _ _ (Hf _ (logprob ∘ snd))), (py_get_nat _ _ _ (Hf _ (rank ∘ snd))), (py_get_nat _ _ _ (Hf _ (decoded_token ∘ snd))).
  by destruct x as [t []].
Qed.

(** The entries of a row, by its two offsets. *)
Lemma flat_row_flatten rows k row : rows !! k = Some row →
  map_res (flat_entry (flatten rows)) (range (total (take k rows)) (total (take k rows) + Z.of_nat (length row))) = Ok row.
Proof.
  intros Hrow. apply map_res_range. intros j x Hx. rewrite <-Nat2Z.inj_add. apply flat_entry_flatten.
  assert (concat rows = concat (take k rows) ++ row ++ concat (drop (S k) rows)) as ->.
  { by rewrite <-concat_cons, <-concat_app, take_drop_middle. }
  rewrite lookup_app_r by lia.
  rewrite Nat.add_comm, Nat.add_sub. by apply lookup_app_l_Some.
Qed.

(** An index gives the dict of the row. *)
Lemma flat_getitem_flatten rows i : flat_getitem (flatten rows) i = (row ← py_get rows i; Ok (dict_of row)).
Proof.
  unfold flat_getitem. cbn [start_indices end_indices flatten].
  set (offs := zip (starts 0 rows) (ends 0 rows)).
  assert (length offs = length rows) as El by (unfold offs; rewrite length_zip_with, length_starts, length_ends; lia).
  assert (starts 0 rows = offs.*1 ∧ ends 0 rows = offs.*2) as [-> ->].
  { unfold offs. rewrite fst_zip, snd_zip by (rewrite length_starts, length_ends; done). done. }
  rewrite !py_get_fmap.
  destruct (py_get_both offs rows i El) as [[-> ->]|(k & [lo hi] & row & Ho & Hrow & -> & ->)]; [done|]. cbn [mbind res_bind fst snd].
  apply lookup_zip_with_Some in Ho as (lo' & hi' & [= <- <-] & Hlo & Hhi).
  destruct (starts_lookup 0 rows k row Hrow) as [E1 E2]. rewrite E1 in Hlo. rewrite E2 in Hhi. simplify_eq.
  change (0 + total (take k rows)) with (total (take k rows)). by rewrite (flat_row_flatten rows k row Hrow).
Qed.

Lemma flat_len_flatten rows : flat_len (flatten rows) = Z.of_nat (length rows).
Proof. unfold flat_len. cbn. by rewrite length_starts. Qed.

(** Iterating gives the dicts of all rows. *)
Lemma flat_iter_flatten rows : flat_iter (flatten rows) = Ok (dict_of <$> rows).
Proof.
  unfold flat_iter. rewrite flat_len_flatten. rewrite <-(Z.add_0_l (Z.of_nat _)), <-(length_fmap dict_of). apply map_res_range.
  intros k d. rewrite list_lookup_fmap, flat_getitem_flatten. destruct (rows !! k) as [row|] eqn:E; [|done]. intros [= <-].
  by rewrite Z.add_0_l, (py_get_nat _ _ _ E).
Qed.

(** A slice takes the same elements of any list of a length. *)
Lemma slice_form i j n : ∃ k m, ∀ A (l : list A), length l = n → slice i j l = take m (drop k l).
Proof.
  exists (Z.to_nat (py_clip (Z.of_nat n) i)), (Z.to_nat (py_clip (Z.of_nat n) j - py_clip (Z.of_nat n) i)).
  by intros A l <-.
Qed.

Lemma slice_middle {A} (a b c : list A) : slice (Z.of_nat (length a)) (Z.of_nat (length a) + Z.of_nat (length b)) (a ++ b ++ c) = b.
Proof. rewrite slice_pos by lia. rewrite drop_app_length' by lia. rewrite take_app_length' by lia. done. Qed.

(** A slice with a position gives the flattened slice; an empty one raises. *)
Lemma flat_slice_flatten rows i j :
  flat_slice (flatten rows) i j = match slice i j rows with [] => Err IndexError | _ => Ok (flatten (slice i j rows)) end.
Proof.
  destruct (slice_form i j (length rows)) as (k & m & Hs). unfold flat_slice. cbn [start_indices end_indices flatten].
  rewrite (Hs _ (starts 0 rows)), (Hs _ (ends 0 rows)), (Hs _ rows) by (done || apply length_starts || apply length_ends).
  destruct (starts_drop 0 k rows) as [-> ->]. rewrite Z.add_0_l. set (off := total (take k rows)).
  destruct (starts_take off m (drop k rows)) as [-> ->]. set (sl := take m (drop k rows)).
  destruct (last sl) as [r|] eqn:El; [|apply last_None in El; by rewrite El].
  assert (py_get (ends off sl) (-1) = Ok (off + total sl)) as ->.
  { by apply py_get_last, (ends_last off sl r). }
  destruct sl as [|r0 rest] eqn:Esl; [done|]. rewrite <-Esl. assert (py_get (starts off sl) 0 = Ok off) as -> by by rewrite Esl.
  cbn [mbind res_bind]. rewrite starts_shift, ends_shift, Z.sub_diag.
  assert (∀ {B} (f : Z * Logprob → B), slice off (off + total sl) (f <$> concat rows) = f <$> concat sl) as Hf.
  { intros B f. rewrite <-(take_drop k rows) at 1. rewrite <-(take_drop m (drop k rows)) at 1. fold sl. rewrite Esl. rewrite <-Esl.
    rewrite !concat_app, !fmap_app. unfold off. rewrite <-(length_fmap f (concat (take k rows))), <-(length_fmap f (concat sl)). apply slice_middle. }
  unfold flatten. cbn. rewrite <-!list_fmap_compose, !Hf. done.
Qed.

(** ** Both containers do the same *)

(** Two containers with the same positions: a list and its flattening, or the same list.  Only the first
    position can be [None]. *)
Inductive twins (R : option LogprobsOnePosition → list (Z * Logprob) → Prop) : option Container → option Container → Prop :=
  | twins_none : twins R None None
  | twins_flat l rows : Forall2 R l rows → Forall is_Some (tail l) → twins R (Some (Positions l)) (Some (Flat (flatten rows)))
  | twins_same l : Forall is_Some l → twins R (Some (Positions l)) (Some (Positions l)).

(** A sampled position is a dict; one of a prompt may be [None], for which the flat container has an
    empty dict. *)
Definition sampled_as (e : option LogprobsOnePosition) (row : list (Z * Logprob)) : Prop := e = Some (dict_of row).
Definition prompted_as (e : option LogprobsOnePosition) (row : list (Z * Logprob)) : Prop := default [] e = dict_of row.

Record twin_processors (p p' : LogprobsProcessor) : Prop := {
  tw_tokenizer : tokenizer p' = tokenizer p;
  tw_sample : twins sampled_as (sample_logprobs p) (sample_logprobs p');
  tw_prompt : twins prompted_as (prompt_logprobs p) (prompt_logprobs p');
  tw_cumulative : cumulative_logprob p' = cumulative_logprob p;
  tw_num : num_logprobs p' = num_logprobs p;
  tw_num_prompt : num_prompt_logprobs p' = num_prompt_logprobs p
}.

Lemma twins_is_Some R c c' : twins R c c' → bool_decide (is_Some c') = bool_decide (is_Some c).
Proof. by intros []. Qed.

Lemma twins_truthy R c c' : twins R c c' → truthy c' = truthy c.
Proof. intros [|l rows H _|]; [done| |done]. cbn. by rewrite flat_len_flatten, (Forall2_length _ _ _ H). Qed.

Lemma twins_append R toks lps ds rk n c c' :
  (∀ row, R (Some (dict_of row)) row) → twins R c c' →
  twins R (append_logprobs_for_next_position toks lps ds rk n <$> c) (append_logprobs_for_next_position toks lps ds rk n <$> c').
Proof.
  intros HR [|l rows H Ht|l Ht]; cbn; [constructor| |constructor; apply Forall_app; split; [done|by apply Forall_singleton]].
  rewrite append_fast_flatten. constructor; [by apply Forall2_app; [|constructor]|].
  destruct l as [|e l]; cbn; [constructor|]. apply Forall_app. split; [done|by apply Forall_singleton].
Qed.

Lemma twins_tail R l c' : twins R (Some (Positions l)) c' → Forall is_Some (tail l).
Proof. inversion 1 as [| |? Hl]; [done|]. destruct Hl; [constructor|done]. Qed.

Lemma twins_sampled l c' : twins sampled_as (Some (Positions l)) c' → Forall is_Some l.
Proof.
  inversion 1 as [|? rows Hl|]; [|done]. clear -Hl. induction Hl as [|e row l rows ->]; constructor; [by eexists|done].
Qed.

(** Of an index, either both read their element or both raise. *)
Lemma positions_get (R : option LogprobsOnePosition → list (Z * Logprob) → Prop) l rows i : Forall2 R l rows →
  (py_get l i = Err IndexError ∧ flat_getitem (flatten rows) i = Err IndexError) ∨
  ∃ e row, R e row ∧ py_get l i = Ok e ∧ flat_getitem (flatten rows) i = Ok (dict_of row).
Proof.
  intros H. rewrite flat_getitem_flatten.
  destruct (py_get_both l rows i (Forall2_length _ _ _ H)) as [[-> ->]|(k & e & row & Hl & Hr & -> & ->)]; [by left|]. right.
  exists e, row. split; [|done]. by eapply Forall2_lookup_lr.
Qed.

Lemma twins_latest c c' : twins sampled_as (Some c) (Some c') → first_latest c' = first_latest c.
Proof.
  inversion 1 as [|l rows Hl _|]; [|done]. unfold first_latest.
  destruct (positions_get _ _ _ (-1) Hl) as [[-> ->]|(e & row & -> & -> & ->)]; done.
Qed.

(** Programs that do the same to twins. *)
Definition alike {A} (m m' : Proc A) : Prop :=
  ∀ p p', twin_processors p p' → (m' p').1 = (m p).1 ∧ twin_processors (m p).2 (m' p').2.

Lemma alike_ret {A} (a : A) : alike (mret a) (mret a).
Proof. by intros p p' Hp. Qed.
Lemma alike_res {A} (r r' : res A) : r' = r → alike (lift_res r) (lift_res r').
Proof. by intros -> p p' Hp. Qed.
Lemma alike_assert b b' : b' = b → alike (assert_ b) (assert_ b').
Proof. intros -> p p' Hp. by destruct b. Qed.
Lemma alike_bind {A B} (m m' : Proc A) (k k' : A → Proc B) : alike m m' → (∀ a, alike (k a) (k' a)) → alike (m ≫= k) (m' ≫= k').
Proof.
  intros Hm Hk p p' Hp. destruct (Hm p p' Hp) as [E Hp']. unfold mbind, M_bind.
  destruct (m p) as [[a|e] s], (m' p') as [r s']; cbn in *; subst r; [by apply Hk|done].
Qed.
Lemma alike_get {A} (k k' : LogprobsProcessor → Proc A) :
  (∀ p p', twin_processors p p' → alike (k p) (k' p')) → alike (gets id ≫= k) (gets id ≫= k').
Proof. intros Hk p p' Hp. by apply (Hk p p' Hp). Qed.
Lemma alike_modify f f' : (∀ p p', twin_processors p p' → twin_processors (f p) (f' p')) → alike (modify f) (modify f').
Proof. intros Hf p p' Hp. split; [done|by apply Hf]. Qed.
Lemma alike_for_each {A} (l : list A) f f' : (∀ x, alike (f x) (f' x)) → alike (for_each l f) (for_each l f').
Proof. intros Hf. induction l as [|x l IH]; [apply alike_ret|]. apply alike_bind; [apply Hf|done]. Qed.

Lemma correct_alike p p' decode idx toks : twin_processors p p' → correct_with_latest p' decode idx toks = correct_with_latest p decode idx toks.
Proof.
  intros [_ Hs _ _ _ _]. unfold correct_with_latest.
  destruct (sample_logprobs p) as [c|], (sample_logprobs p') as [c'|]; [|by inversion Hs..].
  by rewrite (twins_truthy _ _ _ Hs), (twins_latest _ _ Hs).
Qed.

Lemma verify_alike p p' l toks : twin_processors p p' → _verify_tokens p' l toks = _verify_tokens p l toks.
Proof.
  intros Hp. unfold _verify_tokens. generalize (zip (range 0 (Z.of_nat (length l))) l). intros xs.
  induction xs as [|[idx t] xs IH]; [done|]. cbn. rewrite IH.
  replace (_correct_decoded_token p' idx toks) with (_correct_decoded_token p idx toks); [done|].
  unfold _correct_decoded_token. rewrite (tw_tokenizer _ _ Hp). destruct (tokenizer p) as [decode|]; [|done].
  by rewrite (correct_alike p p' decode idx toks Hp).
Qed.

Lemma decode_alike texts toks : alike (decode_position texts toks) (decode_position texts toks).
Proof.
  destruct texts as [l|]; [|apply alike_ret]. apply alike_get. intros p p' Hp.
  apply alike_bind; [by apply alike_res, verify_alike|intros ?; apply alike_ret].
Qed.

Lemma sample_alike rk lps toks : alike (sample_position rk lps toks) (sample_position rk lps toks).
Proof.
  apply alike_get. intros p p' Hp. rewrite (tw_tokenizer _ _ Hp).
  apply alike_bind; [apply decode_alike|intros ds]. apply alike_bind; [by apply alike_res|intros lp].
  apply alike_bind; [|intros _]; apply alike_modify; intros q q' []; split; cbn; try done; try congruence.
  rewrite tw_num0. by apply twins_append.
Qed.

Lemma update_sample_alike l : alike (_update_sample_logprobs l) (_update_sample_logprobs l).
Proof.
  apply alike_get. intros p p' []. do 3 (apply alike_bind; [apply alike_assert; first [by rewrite tw_num0|by rewrite tw_cumulative0|by eapply twins_is_Some]|intros _]).
  apply alike_for_each. intros [rk [lps toks]]. apply sample_alike.
Qed.

Lemma update_prompt_alike t : alike (_update_prompt_logprobs t) (_update_prompt_logprobs t).
Proof.
  apply alike_get. intros p p' []. rewrite tw_tokenizer0.
  do 2 (apply alike_bind; [apply alike_assert; first [by rewrite tw_num_prompt0|by eapply twins_is_Some]|intros _]).
  apply alike_for_each. intros pos. unfold prompt_position.
  apply alike_bind; [by apply alike_res|intros toks]. apply alike_bind; [apply decode_alike|intros ds].
  do 2 (apply alike_bind; [by apply alike_res|intros ?]). apply alike_modify. intros q q' []. split; cbn; try done.
  rewrite tw_num_prompt1. by apply twins_append.
Qed.

Lemma update_alike l t : alike (update_from_output l t) (update_from_output l t).
Proof.
  apply alike_bind; [destruct l; [apply update_sample_alike|apply alike_ret]|intros _].
  destruct t; [apply update_prompt_alike|apply alike_ret].
Qed.

(** What can be read of the two containers: the number of positions, each position, all of them, and
    every slice that has a position. *)
Definition same_reads (c c' : option Container) : Prop :=
  match c, c' with
  | None, None => True
  | Some (Positions l), Some (Positions l') => l' = l
  | Some (Positions l), Some (Flat f) =>
      flat_len f = Z.of_nat (length l) ∧
      flat_iter f = Ok (default [] <$> l) ∧
      (∀ i, flat_getitem f i = (e ← py_get l i; Ok (default [] e))) ∧
      ∀ i j, slice i j l ≠ [] → ∃ f', flat_slice f i j = Ok f' ∧ flat_iter f' = Ok (default [] <$> slice i j l)
  | _, _ => False
  end.

Lemma rows_dicts (R : option LogprobsOnePosition → list (Z * Logprob) → Prop) l rows :
  (∀ e row, R e row → default [] e = dict_of row) → Forall2 R l rows → dict_of <$> rows = default [] <$> l.
Proof. intros HR. induction 1 as [|e row l rows He _ IH]; [done|]. by rewrite !fmap_cons, IH, (HR _ _ He). Qed.

Lemma twins_reads (R : option LogprobsOnePosition → list (Z * Logprob) → Prop) c c' :
  (∀ e row, R e row → default [] e = dict_of row) → twins R c c' → same_reads c c'.
Proof.
  intros HR [|l rows H _|]; [done| |done]. pose proof (Forall2_length _ _ _ H) as El.
  split; [by rewrite flat_len_flatten, El|]. split; [by rewrite flat_iter_flatten, (rows_dicts R l)|]. split.
  - intros i. destruct (positions_get R l rows i H) as [[-> ->]|(e & row & He & -> & ->)]; [done|]. cbn. by rewrite (HR _ _ He).
  - intros i j Hne. exists (flatten (slice i j rows)). destruct (slice_form i j (length rows)) as (k & m & Hs).
    rewrite (Hs _ l) in * by done. rewrite flat_slice_flatten, (Hs _ rows) by done.
    pose proof (Forall2_take _ _ _ m (Forall2_drop _ _ _ k H)) as H'. rewrite flat_iter_flatten, (rows_dicts R _ _ HR H').
    split; [|done]. by destruct (take m (drop k rows)); [apply Forall2_nil_inv_r in H'|].
Qed.

(** The calls the output processor makes. *)
Inductive call :=
  | Update (new_logprobs : option LogprobsLists) (new_prompt_logprobs_tensors : option LogprobsTensors)
  | Pop.

Definition run_call (c : call) : Proc unit :=
  match c with Update l t => update_from_output l t | Pop => pop_prompt_logprobs ;; mret tt end.
Definition run_calls (cs : list call) : Proc unit := for_each cs run_call.

Lemma pop_alike : alike (pop_prompt_logprobs ;; mret tt) (pop_prompt_logprobs ;; mret tt).
Proof.
  intros p p' Hp. pose proof (twins_truthy _ _ _ (tw_prompt _ _ Hp)) as Et. 
  unfold pop_prompt_logprobs, gets, mbind, M_bind. rewrite Et.
  destruct (truthy (prompt_logprobs p)); [|by split]. split; [done|]. destruct Hp. split; try done. cbn. by repeat constructor.
Qed.

Lemma new_alike tok num num_prompt : twin_processors (from_new_request tok num num_prompt false) (from_new_request tok num num_prompt true).
Proof.
  split; [done| | |done..]; cbn.
  - destruct num; [|constructor]. apply (twins_flat sampled_as [] []); constructor.
  - destruct num_prompt; [|constructor]. apply (twins_flat prompted_as [None] [[]]); by repeat constructor.
Qed.

(** C20: a request that asks for flat log probabilities gets the same ones.  Whatever updates and
    pops its processor goes through, raising ones included, and whatever the tokenizer does, a
    processor with flat containers returns or raises what one with lists of dicts does, keeps the same
    cumulative log probability, and its containers read the same: their length, every position at a
    positive or negative index, all positions in order, and every slice that has a position.  A [None]
    reads as an empty dict; no sampled position is [None], and of a prompt only the first can be. *)
Theorem flat_logprobs_equivalent tok num num_prompt cs :
  let lists := run_calls cs (from_new_request tok num num_prompt false) in
  let flat := run_calls cs (from_new_request tok num num_prompt true) in
  flat.1 = lists.1 ∧ cumulative_logprob flat.2 = cumulative_logprob lists.2 ∧
  same_reads (sample_logprobs lists.2) (sample_logprobs flat.2) ∧ same_reads (prompt_logprobs lists.2) (prompt_logprobs flat.2) ∧
  (∀ l, sample_logprobs lists.2 = Some (Positions l) → Forall is_Some l) ∧
  (∀ l, prompt_logprobs lists.2 = Some (Positions l) → Forall is_Some (tail l)).
Proof.
  intros lists flat.
  destruct (alike_for_each cs run_call run_call (λ c, match c with Update l t => update_alike l t | Pop => pop_alike end)
    _ _ (new_alike tok num num_prompt)) as [E [_ Hs Hp Hc _ _]].
  split; [exact E|]. split; [exact Hc|]. split; [apply (twins_reads sampled_as); [by intros e row ->|exact Hs]|].
  split; [by apply (twins_reads prompted_as)|]. split.
  - intros l El. refine (twins_sampled l _ _). rewrite <-El. exact Hs.
  - intros l El. refine (twins_tail prompted_as l _ _). rewrite <-El. exact Hp.
Qed.

(** Dicts go into a flat container and come out. *)
Lemma dict_of_id (d : LogprobsOnePosition) : NoDup d.*1 → dict_of d = d.
Proof.
  unfold dict_of. rewrite <-(app_nil_l d) at 1 3. generalize (@nil (Z * Logprob)) as acc.
  induction d as [|[t v] d IH]; intros acc Hnd; cbn; [by rewrite app_nil_r|].
  rewrite fmap_app, fmap_cons in Hnd. apply NoDup_app in Hnd as H. destruct H as (_ & Hd & _).
  rewrite dict_set_fresh by (intros Ht; apply (Hd t Ht); left). rewrite IH, <-app_assoc; [done|].
  by rewrite <-app_assoc, fmap_app.
Qed.

Lemma extend_flatten l rows : extend l (flatten rows) = flatten (rows ++ (default [] <$> l)).
Proof.
  revert rows. induction l as [|d l IH]; intros rows; [by rewrite app_nil_r|]. cbn. fold (extend l (append d (flatten rows))).
  by rewrite append_flatten, IH, <-app_assoc.
Qed.

Theorem flat_extend_iter l :
  Forall (λ d : option LogprobsOnePosition, NoDup (default [] d).*1) l → flat_iter (extend l FlatLogprobs_init) = Ok (default [] <$> l).
Proof.
  intros Hl. change FlatLogprobs_init with (flatten []). rewrite extend_flatten, flat_iter_flatten. cbn. f_equal.
  rewrite <-list_fmap_compose. apply list_fmap_ext. intros i d Hi. cbn. apply dict_of_id. by apply (Forall_lookup_1 _ _ _ _ Hl Hi).
Qed.

(** ** What the positions hold *)

Lemma dict_of_app rows x : dict_of (rows ++ [x]) = dict_set (dict_of rows) x.1 x.2.
Proof. unfold dict_of. by rewrite foldl_app. Qed.

Lemma dict_of_keys rows t : t ∈ (dict_of rows).*1 ↔ t ∈ rows.*1.
Proof.
  induction rows as [|x rows IH] using rev_ind; [done|]. rewrite dict_of_app, dict_set_keys, fmap_app, elem_of_app, <-IH. cbn.
  rewrite list_elem_of_singleton. case_bool_decide; [|by rewrite elem_of_app, list_elem_of_singleton]. split; [by left|by intros [| ->]].
Qed.

Lemma dict_of_get rows t v : dict_get (dict_of rows) t = Some v → (t, v) ∈ rows.
Proof.
  induction rows as [|x rows IH] using rev_ind; [done|]. rewrite dict_of_app, dict_get_set, elem_of_app. destruct (decide (t = x.1)) as [->|]; [|auto].
  intros [= <-]. right. rewrite list_elem_of_singleton. by destruct x.
Qed.

(** How many of the candidates of a position are kept: all of them, or the sampled token and the
    [num] best. *)
Definition kept (num : Z) (w : nat) : nat := if bool_decide (num = -1) then w else Nat.min w (S (Z.to_nat num)).

(** A row as the sampler makes it: the sampled token with its rank first, then the best tokens, which
    differ; when the sampled token is among them it has the same log probability and that rank. *)
Record row_ok (num rk : Z) (lps : list spec_float) (toks : list Z) : Prop := {
  ro_length : length toks = length lps;
  ro_sampled : toks ≠ [];
  ro_best : ∀ i j, (0 < i < kept num (length toks))%nat → (0 < j < kept num (length toks))%nat → toks !! i = toks !! j → i = j;
  ro_same : ∀ i, (0 < i < kept num (length toks))%nat → toks !! i = toks !! 0%nat → lps !! i = lps !! 0%nat ∧ Z.of_nat i = rk
}.

(** The text of a token: nothing without a tokenizer, and otherwise never a part of a character; a
    token that is a text of its own has this text. *)
Definition token_text (tok : option (list Z → option text)) (t : Z) (d : option text) : Prop :=
  match tok with
  | None => d = None
  | Some decode => ∃ s, d = Some s ∧ unfinished s = false ∧ (unfinished (default [] (decode [t])) = false → s = default [] (decode [t]))
  end.

(** The dict of a position. *)
Definition position_ok (tok : option (list Z → option text)) (num rk : Z) (lps : list spec_float) (toks : list Z) (d : LogprobsOnePosition) : Prop :=
  (∀ t, t ∈ d.*1 ↔ t ∈ take (kept num (length toks)) toks) ∧
  ∀ i t lp, (i < kept num (length toks))%nat → toks !! i = Some t → lps !! i = Some lp →
    ∃ txt, dict_get d t = Some (mkLogprob lp (Some (if bool_decide (i = 0%nat) then rk else Z.of_nat i)) txt) ∧ token_text tok t txt.

(** The ranks that [append_logprobs_for_next_position] chains. *)
Definition chained (rk num : Z) (w : nat) : list Z := rk :: range 1 ((if bool_decide (num = -1) then Z.of_nat w else num) + 1).

Lemma chained_lookup rk num w i : -1 ≤ num → (i < kept num w)%nat →
  chained rk num w !! i = Some (if bool_decide (i = 0%nat) then rk else Z.of_nat i).
Proof.
  intros Hnum Hi. unfold chained, kept in *. destruct i as [|i]; [done|]. rewrite (bool_decide_eq_false_2 (S i = 0%nat)) by done. cbn.
  unfold range. rewrite lookup_seqZ. split; [lia|]. destruct (bool_decide_reflect (num = -1)); lia.
Qed.

Section rows.
Context (tok : option (list Z → option text)) (num rk : Z) (lps : list spec_float) (toks : list Z) (ds : Decoded).
Context (Hnum : -1 ≤ num) (Hrow : row_ok num rk lps toks).
Context (Hds : ∀ i t, toks !! i = Some t → ∃ d, decoded_list (length toks) ds !! i = Some d ∧ token_text tok t d).
Let m := kept num (length toks).
Let rows := zip_rows toks lps (chained rk num (length lps)) ds.

#[local] Lemma rows_lookup i x : rows !! i = Some x ↔
  (i < m)%nat ∧ ∃ t lp d, x = (t, mkLogprob lp (Some (if bool_decide (i = 0%nat) then rk else Z.of_nat i)) d) ∧
    toks !! i = Some t ∧ lps !! i = Some lp ∧ decoded_list (length toks) ds !! i = Some d.
Proof.
  pose proof (ro_length _ _ _ _ Hrow) as El. unfold rows, zip_rows. rewrite lookup_zip_with_Some. split.
  - intros (t & y & -> & Ht & (lp & z & -> & Hlp & (r & d & -> & Hr & Hd)%lookup_zip_with_Some)%lookup_zip_with_Some). cbn.
    assert (i < m)%nat as Hi.
    { apply lookup_lt_Some in Ht, Hr. unfold m, kept, chained, range in *. cbn in Hr. rewrite length_seqZ in Hr. destruct (bool_decide_reflect (num = -1)); lia. }
    split; [done|]. exists t, lp, d. rewrite <-El, chained_lookup in Hr by done. by injection Hr as <-.
  - intros (Hi & t & lp & d & -> & Ht & Hlp & Hd).
    exists t, (lp, ((if bool_decide (i = 0%nat) then rk else Z.of_nat i), d)). split; [done|]. split; [done|].
    apply lookup_zip_with_Some. eexists _, _. split; [done|]. split; [done|]. apply lookup_zip_with_Some. eexists _, _. split; [done|].
    split; [|done]. rewrite <-El. by apply chained_lookup.
Qed.

#[local] Lemma row_elem i t lp : (i < m)%nat → toks !! i = Some t → lps !! i = Some lp → ∃ x, rows !! i = Some x ∧ x.1 = t.
Proof.
  intros Hi Ht Hlp. destruct (Hds i t Ht) as (d & Hd & _).
  exists (t, mkLogprob lp (Some (if bool_decide (i = 0%nat) then rk else Z.of_nat i)) d). split; [|done].
  apply rows_lookup. split; [done|]. by exists t, lp, d.
Qed.

(** Entries of one token are the same but for their text. *)
#[local] Lemma row_same i j t : (i < m)%nat → (j < m)%nat → toks !! i = Some t → toks !! j = Some t →
  lps !! i = lps !! j ∧ (if bool_decide (i = 0%nat) then rk else Z.of_nat i) = (if bool_decide (j = 0%nat) then rk else Z.of_nat j).
Proof.
  intros Hi Hj Ei Ej. destruct Hrow as [_ _ Hb Hs]. fold m in Hb, Hs.
  destruct (decide (i = 0%nat)) as [->|Hi0], (decide (j = 0%nat)) as [->|Hj0]; [done| | |].
  - destruct (Hs j) as [E1 E2]; [lia|congruence|]. rewrite (bool_decide_eq_false_2 (j = 0%nat)) by done. done.
  - destruct (Hs i) as [E1 E2]; [lia|congruence|]. rewrite (bool_decide_eq_false_2 (i = 0%nat)) by done. done.
  - assert (i = j) as -> by (apply Hb; [lia|lia|congruence]). done.
Qed.

Lemma row_position : position_ok tok num rk lps toks (dict_of rows).
Proof.
  pose proof (ro_length _ _ _ _ Hrow) as El. split.
  - intros t. rewrite dict_of_keys, list_elem_of_fmap. fold m. split.
    + intros (x & -> & (i & Hx)%list_elem_of_lookup). apply rows_lookup in Hx as (Hi & t & lp & d & -> & Ht & _). apply elem_of_take. by exists i.
    + intros (i & Ht & Hi)%elem_of_take. destruct (lookup_lt_is_Some_2 lps i) as [lp Hlp]; [rewrite <-El; by eapply lookup_lt_Some|].
      destruct (row_elem i t lp Hi Ht Hlp) as (x & Hx & <-). exists x. split; [done|]. by eapply list_elem_of_lookup_2.
  - intros i t lp Hi Ht Hlp. fold m in Hi. destruct (row_elem i t lp Hi Ht Hlp) as (x & Hx & Ex).
    destruct (dict_get (dict_of rows) t) as [v|] eqn:Ev.
    2: { apply dict_get_None in Ev. exfalso. apply Ev, dict_of_keys, list_elem_of_fmap. exists x. split; [done|]. by eapply list_elem_of_lookup_2. }
    apply dict_of_get, list_elem_of_lookup in Ev as (j & Hj). apply rows_lookup in Hj as (Hj & t' & lp' & d & [= <- ->] & Ht' & Hlp' & Hd).
    destruct (row_same i j t Hi Hj Ht Ht') as [E1 E2]. rewrite Hlp, Hlp' in E1. injection E1 as <-. exists d. rewrite E2. split; [done|].
    destruct (Hds j t Ht') as (d' & Hd' & Htx). rewrite Hd in Hd'. by injection Hd' as <-.
Qed.

End rows.

Lemma position_nonempty tok num rk lps toks d : position_ok tok num rk lps toks d → toks ≠ [] → d ≠ [].
Proof.
  intros [Hk _] Hne ->. destruct toks as [|t ts]; [done|]. apply (not_elem_of_nil t). apply (Hk t).
  unfold kept. case_bool_decide; [left|]. replace (Nat.min _ _) with (S (Nat.min (length ts) (Z.to_nat num))) by (cbn; lia). left.
Qed.

(** ** A run of the processor *)

Lemma map_res_all {A B} (f : A → res B) (P : A → B → Prop) l :
  (∀ x, x ∈ l → ∃ y, f x = Ok y ∧ P x y) → ∃ ys, map_res f l = Ok ys ∧ Forall2 P l ys.
Proof.
  induction l as [|x l IH]; intros Hf; [by exists []|]. destruct (Hf x) as (y & Ey & Py); [left|].
  destruct IH as (ys & Eys & Hys); [intros z Hz; apply Hf; by right|]. exists (y :: ys). cbn. rewrite Ey. cbn. rewrite Eys. by split; [|constructor].
Qed.

(** The tokenizer decodes all token ids. *)
Definition decodes (tok : option (list Z → option text)) : Prop :=
  match tok with None => True | Some decode => ∀ ids, is_Some (decode ids) end.

Definition filled (l : list (option LogprobsOnePosition)) : Prop := Forall (λ e, ∃ d, e = Some d ∧ d ≠ []) l.

Section run.
Context (tok : option (list Z → option text)) (num : Z) (num_prompt : option Z) (plp : option Container).
Context (Htok : decodes tok) (Hnum : -1 ≤ num).

(** A processor that has sampled the positions [l]. *)
Definition sampled (l : list (option LogprobsOnePosition)) (c : spec_float) : LogprobsProcessor :=
  mkProcessor tok (Some (Positions l)) plp (Some c) (Some num) num_prompt.

Lemma latest_ok l e : filled l → last l = Some e → ∃ t, first_latest (Positions l) = Ok t.
Proof.
  intros Hl He. unfold first_latest. rewrite (py_get_last _ _ He). cbn.
  rewrite last_lookup in He. destruct (Forall_lookup_1 _ _ _ _ Hl He) as (d & -> & Hd). destruct d as [|[t v] d]; [done|]. by exists t.
Qed.

Lemma correct_ok decode l c idx toks : tok = Some decode → filled l →
  ∃ s, _correct_decoded_token (sampled l c) idx toks = Ok s ∧ unfinished s = false.
Proof.
  intros Etok Hl. assert (∀ ids, ∃ t, decoded decode ids = Ok t) as Hdec.
  { intros ids. unfold decodes in Htok. rewrite Etok in Htok. unfold decoded. destruct (Htok ids) as [t ->]. by exists t. }
  assert (∃ s, correct_with_latest (sampled l c) decode idx toks = Ok s ∧ unfinished s = false) as Hlate.
  { unfold correct_with_latest. cbn. destruct (Z.eqb_spec (Z.of_nat (length l)) 0) as [|Hne]; [by exists []|]. cbn.
    destruct (last l) as [e|] eqn:El; [|apply last_None in El; by rewrite El in Hne].
    destruct (latest_ok l e Hl El) as [t Et]. unfold first_latest in Et. cbn in Et. rewrite Et. cbn.
    destruct (Hdec (t :: (if 0 <? idx then slice (idx - 1) (idx + 1) toks else slice idx (idx + 1) toks))) as [s ->]. cbn.
    destruct (unfinished s) eqn:Es; [by exists []|by exists s]. }
  unfold _correct_decoded_token. change (tokenizer (sampled l c)) with tok. rewrite Etok. destruct (0 <? idx); [|done].
  destruct (Hdec (slice (idx - 1) (idx + 1) toks)) as [s ->]. cbn. destruct (unfinished s) eqn:Es; [done|by exists s].
Qed.

Lemma decode_ok l c toks : filled l →
  ∃ ds, decode_position ((λ decode, convert_ids_list_to_tokens decode toks) <$> tok) toks (sampled l c) = (Ok ds, sampled l c) ∧
    ∀ i t, toks !! i = Some t → ∃ d, decoded_list (length toks) ds !! i = Some d ∧ token_text tok t d.
Proof.
  intros Hl. pose proof correct_ok as Hcorrect. destruct tok as [decode|] eqn:Etok; cbn [fmap option_fmap option_map].
  - unfold decode_position, gets, lift_res, mbind, M_bind.
    destruct (map_res_all (λ '(idx, t), if unfinished t then _correct_decoded_token (sampled l c) idx toks else Ok t)
      (λ x s, unfinished s = false ∧ (unfinished x.2 = false → s = x.2))
      (zip (range 0 (Z.of_nat (length (convert_ids_list_to_tokens decode toks)))) (convert_ids_list_to_tokens decode toks))) as (ys & Ey & Hys).
    + intros [idx t] _. destruct (unfinished t) eqn:Eu; [|by exists t].
      destruct (Hcorrect decode l c idx toks eq_refl Hl) as (s & Es & Hu). exists s. split; [exact Es|]. split; [done|]. cbn. congruence.
    + exists (Strings ys). unfold _verify_tokens. fold (sampled l c). unfold id. rewrite Ey. split; [done|].
      intros i t Ht. unfold convert_ids_list_to_tokens in Hys.
      assert (zip (range 0 (Z.of_nat (length ((λ t, default [] (decode [t])) <$> toks)))) ((λ t, default [] (decode [t])) <$> toks) !! i =
        Some (Z.of_nat i, default [] (decode [t]))) as Hz.
      { apply lookup_zip_with_Some. exists (Z.of_nat i), (default [] (decode [t])). split; [done|].
        rewrite list_lookup_fmap, Ht, length_fmap. split; [|done]. apply lookup_lt_Some in Ht. unfold range. rewrite lookup_seqZ. lia. }
      destruct (Forall2_lookup_l _ _ _ _ _ Hys Hz) as (s & Hs & Hu & Hv). exists (Some s). cbn [decoded_list].
      rewrite list_lookup_fmap, Hs. split; [done|]. cbn. by exists s.
  - exists Nones. split; [done|]. intros i t Ht. exists None. cbn. split; [|done]. apply lookup_replicate_2. by eapply lookup_lt_Some.
Qed.

Lemma sample_ok rk lps toks l c : row_ok num rk lps toks → filled l →
  ∃ d, sample_position rk lps toks (sampled l c) = (Ok tt, sampled (l ++ [Some d]) (double_add c (default (S754_zero false) (head lps)))) ∧
    position_ok tok num rk lps toks d ∧ d ≠ [].
Proof.
  intros Hrow Hl. destruct (decode_ok l c toks Hl) as (ds & Eds & Hds).
  exists (dict_of (zip_rows toks lps (chained rk num (length lps)) ds)).
  pose proof (row_position tok num rk lps toks ds Hnum Hrow Hds) as Hpos.
  split; [|split; [done|by apply (position_nonempty _ _ _ _ _ _ Hpos), Hrow]].
  destruct lps as [|lp lps]; [destruct Hrow as [El Hne _ _]; by destruct toks|].
  unfold sample_position, gets at 1, mbind at 1, M_bind at 1. unfold mbind at 1, M_bind at 1.
  cbn [id tokenizer sampled]. rewrite Eds. reflexivity.
Qed.

(** The rows of an update that [zip] goes through. *)
Definition rows_of (o : LogprobsLists) : list (Z * (list spec_float * list Z)) :=
  zip (sampled_token_ranks o) (zip (logprob_rows o) (logprob_token_ids o)).

Definition good_row (r : Z * (list spec_float * list Z)) : Prop := row_ok num r.1 r.2.1 r.2.2.
Definition good_position (r : Z * (list spec_float * list Z)) (d : LogprobsOnePosition) : Prop := position_ok tok num r.1 r.2.1 r.2.2 d.

(** The log probability of the sampled token. *)
Definition sampled_logprob (r : Z * (list spec_float * list Z)) : spec_float := default (S754_zero false) (head r.2.1).

Lemma rows_ok rows l c : Forall good_row rows → filled l →
  ∃ ds, for_each rows (λ '(rk, (lps, toks)), sample_position rk lps toks) (sampled l c) =
      (Ok tt, sampled (l ++ (Some <$> ds)) (foldl double_add c (sampled_logprob <$> rows))) ∧
    Forall2 good_position rows ds ∧ filled (l ++ (Some <$> ds)).
Proof.
  intros Hrows. revert l c. induction Hrows as [|[rk [lps toks]] rows Hr _ IH]; intros l c Hl.
  { exists []. rewrite app_nil_r. by repeat split. }
  destruct (sample_ok rk lps toks l c Hr Hl) as (d & Ed & Hd & Hne).
  assert (filled (l ++ [Some d])) as Hl' by (apply Forall_app; split; [done|by repeat constructor; exists d]).
  destruct (IH _ (double_add c (sampled_logprob (rk, (lps, toks)))) Hl') as (ds & Eds & Hds & Hf). exists (d :: ds).
  rewrite fmap_cons, cons_middle, app_assoc. split; [|by split; [constructor|]].
  cbn [for_each]. unfold mbind at 1, M_bind at 1. rewrite Ed. exact Eds.
Qed.

Lemma update_ok o l c : Forall good_row (rows_of o) → filled l →
  ∃ ds, run_call (Update (Some o) None) (sampled l c) =
      (Ok tt, sampled (l ++ (Some <$> ds)) (foldl double_add c (sampled_logprob <$> rows_of o))) ∧
    Forall2 good_position (rows_of o) ds ∧ filled (l ++ (Some <$> ds)).
Proof.
  intros Ho Hl. destruct (rows_ok (rows_of o) l c Ho Hl) as (ds & Eds & H). exists ds. split; [|done].
  unfold run_call, update_from_output, _update_sample_logprobs, mbind, M_bind, gets, assert_. cbn. fold (rows_of o).
  change (for_each _ _ _) with (for_each (rows_of o) (λ '(rk, (lps, toks)), sample_position rk lps toks) (sampled l c)). by rewrite Eds.
Qed.

Lemma updates_ok outs l c : Forall good_row (concat (rows_of <$> outs)) → filled l →
  ∃ ds, run_calls ((λ o, Update (Some o) None) <$> outs) (sampled l c) =
      (Ok tt, sampled (l ++ (Some <$> ds)) (foldl double_add c (sampled_logprob <$> concat (rows_of <$> outs)))) ∧
    Forall2 good_position (concat (rows_of <$> outs)) ds.
Proof.
  revert l c. induction outs as [|o outs IH]; intros l c.
  { intros _ _. exists []. cbn. by rewrite app_nil_r. }
  rewrite fmap_cons, concat_cons. intros [Ho Houts]%Forall_app Hl. destruct (update_ok o l c Ho Hl) as (ds & Eds & Hds & Hf).
  destruct (IH _ (foldl double_add c (sampled_logprob <$> rows_of o)) Houts Hf) as (ds' & Eds' & Hds'). exists (ds ++ ds').
  rewrite !fmap_app, foldl_app, app_assoc. split; [|by apply Forall2_app].
  unfold run_calls. rewrite fmap_cons. cbn [for_each]. unfold mbind at 1, M_bind at 1. rewrite Eds. exact Eds'.
Qed.
End run.

Lemma slice_last {A} (l : list A) n : (0 < n ≤ length l)%nat → slice_from (- Z.of_nat n) l = drop (length l - n) l.
Proof.
  intros Hn. unfold slice_from, slice, py_clip, py_index. rewrite (bool_decide_eq_true_2 (- Z.of_nat n < 0)), bool_decide_eq_false_2 by lia.
  replace (Z.to_nat _) with n by lia. replace (Z.to_nat _) with (length l - n)%nat by lia. apply take_ge. rewrite length_drop. lia.
Qed.

(** C21: log probabilities arrive as they were sampled.  With a tokenizer that decodes all ids, or
    none, and rows as the sampler makes them, the processor of a request that asks for [num] log
    probabilities never raises; each sampled token gets one position, in order; the dict of a position
    has the sampled token with its rank and the [num] best (all, when [num] is -1) with theirs, each
    with its log probability and a text that is never a part of a character; the cumulative log
    probability is the sum over the sampled tokens; an output with all tokens carries all positions,
    and one with the last [n] tokens, for [n] at least 1, the last [n]; without a token it carries all
    positions again ([empty_delta_repeats]).  The containers are lists; [flat_logprobs_equivalent]
    relates the flat ones to them. *)
Theorem sampled_logprobs_correct tok num num_prompt outs :
  decodes tok → -1 ≤ num → Forall (good_row num) (concat (rows_of <$> outs)) →
  ∃ ds p, run_calls ((λ o, Update (Some o) None) <$> outs) (from_new_request tok (Some num) num_prompt false) = (Ok tt, p) ∧
    Forall2 (good_position tok num) (concat (rows_of <$> outs)) ds ∧
    sample_logprobs p = Some (Positions (Some <$> ds)) ∧
    cumulative_logprob p = Some (foldl double_add (S754_zero false) (sampled_logprob <$> concat (rows_of <$> outs))) ∧
    (∀ n, completion_logprobs false n p = Ok (Some (Positions (Some <$> ds)))) ∧
    completion_logprobs true 0 p = Ok (Some (Positions (Some <$> ds))) ∧
    ∀ n, (0 < n ≤ length ds)%nat → completion_logprobs true (Z.of_nat n) p = Ok (Some (Positions (Some <$> drop (length ds - n) ds))).
Proof.
  intros Htok Hnum Hrows.
  destruct (updates_ok tok num num_prompt (prompt_logprobs (from_new_request tok (Some num) num_prompt false)) Htok Hnum outs [] (S754_zero false) Hrows) as (ds & E & Hds); [constructor|].
  exists ds. eexists. split; [exact E|]. split; [exact Hds|]. split; [done|]. split; [done|]. split; [done|].
  split. { unfold completion_logprobs. cbn [sample_logprobs sampled app]. destruct (_ && _); [|done]. cbn. by rewrite slice_from_pos. }
  intros n Hn. unfold completion_logprobs. cbn [sample_logprobs sampled app truthy container_len]. rewrite length_fmap.
  destruct (Z.eqb_spec (Z.of_nat (length ds)) 0); [lia|]. cbn [negb andb container_from mbind res_bind].
  rewrite slice_last by (by rewrite length_fmap). by rewrite length_fmap, fmap_drop.
Qed.

(** ** Concrete runs *)

(** Two tokens of a request that asks for the best one: the first samples another token than the best. *)
Definition example_float (z : Z) : spec_float := binary_normalize 53 1024 z (-1) false.
Definition example_lists : LogprobsLists :=
  mkLists [[5; 7; 9]; [7; 7; 9]] [[example_float (-6); example_float (-1); example_float (-2)]; [example_float (-1); example_float (-1); example_float (-3)]]
    [3; 1] None.
Definition example_new (flat : bool) : LogprobsProcessor := from_new_request (Some Some) (Some 1) (Some 0) flat.

Lemma example_kept i : (0 < i < kept 1 3)%nat → i = 1%nat.
Proof. change (kept 1 3) with 2%nat. lia. Qed.

Lemma example_rows : Forall (good_row 1) (concat (rows_of <$> [example_lists])).
Proof.
  constructor; [|constructor; [|constructor]]; (split; [done|done| |]).
  - by intros i j ->%example_kept ->%example_kept.
  - by intros i ->%example_kept.
  - by intros i j ->%example_kept ->%example_kept.
  - by intros i ->%example_kept.
Qed.

Lemma sampled_logprobs_correct_witness :
  (decodes (Some Some) ∧ -1 ≤ 1 ∧ Forall (good_row 1) (concat (rows_of <$> [example_lists]))) ∧
  ∃ ds p, run_calls ((λ o, Update (Some o) None) <$> [example_lists]) (example_new false) = (Ok tt, p) ∧
    Forall2 (good_position (Some Some) 1) (concat (rows_of <$> [example_lists])) ds ∧
    sample_logprobs p = Some (Positions (Some <$> ds)) ∧
    cumulative_logprob p = Some (foldl double_add (S754_zero false) (sampled_logprob <$> concat (rows_of <$> [example_lists]))) ∧
    (∀ n, completion_logprobs false n p = Ok (Some (Positions (Some <$> ds)))) ∧
    completion_logprobs true 0 p = Ok (Some (Positions (Some <$> ds))) ∧
    ∀ n, (0 < n ≤ length ds)%nat → completion_logprobs true (Z.of_nat n) p = Ok (Some (Positions (Some <$> drop (length ds - n) ds))).
Proof.
  assert (decodes (Some Some)) as Htok by (intros ids; by eexists). assert (-1 ≤ 1) as Hnum by done.
  split; [by split; [|split; [|apply example_rows]]|].
  apply (sampled_logprobs_correct (Some Some) 1 (Some 0) [example_lists]); [exact Htok|exact Hnum|apply example_rows].
Defined.

(** An output in pieces without a token, as an abort sends it, repeats all positions: [-0] is 0. *)
Example empty_delta_repeats :
  let p := (run_calls [Update (Some example_lists) None] (example_new false)).2 in
  completion_logprobs true 1 p = Ok (Some (Positions [Some [(7, mkLogprob (example_float (-1)) (Some 1) (Some [7]))]])) ∧
  completion_logprobs true 0 p = Ok (sample_logprobs p) ∧ container_len <$> sample_logprobs p = Some 2.
Proof. by vm_compute. Qed.

(** The position without log probabilities of a prompt reads as an empty dict, and an empty slice
    raises, where a list has [None] and an empty list. *)
Example flat_is_no_list :
  let f := append None FlatLogprobs_init in
  prompt_logprobs (example_new true) = Some (Flat f) ∧ prompt_logprobs (example_new false) = Some (Positions [None]) ∧
  flat_getitem f 0 = Ok [] ∧ flat_slice f 1 1 = Err IndexError ∧ slice 1 1 [@None LogprobsOnePosition] = [].
Proof. by vm_compute. Qed.
