(* ===== verification/MMCache.v ===== *)
(** * The caches of multimodal items

    [vllm/utils/cache.py]: [LRUCache] with pinned items and statistics over the one of cachetools, a
    third-party library, which is a parameter ([Cachetools]) with its documented behaviour
    ([CachetoolsLaws]); [vllm/multimodal/cache.py]: the caches of processed items in the front end (P0)
    and in the engine core (P1), which hold the same keys without talking to each other;
    [vllm/multimodal/processing/processor.py], [vllm/multimodal/utils.py] and
    [vllm/v1/engine/input_processor.py]: how a request goes through both. *)

From stdpp Require Import base list gmap strings.
From Stdlib Require Import ZArith Lia.
From S2P Require Import Prelude.
Local Open Scope Z_scope.

Abbreviation key := string.

(** ** The library *)

(** [cachetools.LRUCache] for values of type [V]: what [LRUCache] calls on its base class.  The private
    order dict is a list of keys.  [__setitem__] is inherited; it calls [popitem] of the object [O] it
    runs on, as often as [fuel] allows. *)
Class Cachetools (S : Type → Type) := {
  ct_new : ∀ {V}, Z → (V → Z) → S V;
  ct_maxsize : ∀ {V}, S V → Z;
  ct_currsize : ∀ {V}, S V → Z;
  ct_contains : ∀ {V}, key → S V → bool;
  ct_len : ∀ {V}, S V → Z;
  ct_getitem : ∀ {V}, key → M (S V) V;
  ct_delitem : ∀ {V}, key → M (S V) unit;
  ct_order : ∀ {V}, S V → list key;
  ct_move_to_end : ∀ {V}, key → M (S V) unit;
  ct_order_add : ∀ {V}, key → S V → S V;
  ct_setitem : ∀ {V O}, lens O (S V) → M O unit → nat → key → V → M O unit
}.

(** [k] becomes the last key. *)
Definition to_end (k : key) (l : list key) : list key := filter (λ k', k' ≠ k) l ++ [k].

(** [while cache.currsize + size > cache.maxsize: cache.popitem()] *)
Fixpoint make_room {S : Type → Type} `{Cachetools S} {V O} (self : lens O (S V)) (popitem : M O unit) (fuel : nat) (size : Z) : M O unit :=
  s ← gets (lget self);
  if ct_currsize s + size <=? ct_maxsize s then mret tt
  else match fuel with
  | O => raise OutOfFuel
  | S fuel => popitem ;; make_room self popitem fuel size
  end.

Definition total_size (m : gmap key Z) : Z := map_fold (λ _ z acc, z + acc) 0 m.

(** The documentation: an item that is too large is refused, old items are discarded by [popitem] until
    there is room, an item that is read or written becomes the most recent. *)
Class CachetoolsLaws (S : Type → Type) `{Cachetools S} := {
  ct_data : ∀ {V}, S V → gmap key V;
  ct_size : ∀ {V}, S V → V → Z;
  ct_store : ∀ {V}, key → V → S V → S V;
  ct_new_law {V} c (size : V → Z) : let s := ct_new c size in ct_data s = ∅ ∧ ct_order s = [] ∧ ct_maxsize s = c ∧ ct_size s = size;
  ct_currsize_law {V} (s : S V) : ct_currsize s = total_size (ct_size s <$> ct_data s);
  ct_contains_law {V} k (s : S V) : ct_contains k s = bool_decide (is_Some (ct_data s !! k));
  ct_len_law {V} (s : S V) : ct_len s = Z.of_nat (size (ct_data s));
  ct_getitem_law {V} k (s : S V) :
    match ct_data s !! k with
    | None => ct_getitem k s = (Err KeyError, s)
    | Some v => ∃ s', ct_getitem k s = (Ok v, s') ∧ ct_data s' = ct_data s ∧ ct_order s' = to_end k (ct_order s) ∧
        ct_maxsize s' = ct_maxsize s ∧ ct_size s' = ct_size s
    end;
  ct_delitem_law {V} k (s : S V) :
    match ct_data s !! k with
    | None => ct_delitem k s = (Err KeyError, s)
    | Some v => ∃ s', ct_delitem k s = (Ok tt, s') ∧ ct_data s' = delete k (ct_data s) ∧ ct_order s' = filter (λ k', k' ≠ k) (ct_order s) ∧
        ct_maxsize s' = ct_maxsize s ∧ ct_size s' = ct_size s
    end;
  ct_move_law {V} k (s : S V) :
    if decide (k ∈ ct_order s) then ∃ s', ct_move_to_end k s = (Ok tt, s') ∧ ct_data s' = ct_data s ∧ ct_order s' = to_end k (ct_order s) ∧
        ct_maxsize s' = ct_maxsize s ∧ ct_size s' = ct_size s
    else ct_move_to_end k s = (Err KeyError, s);
  ct_add_law {V} k (s : S V) : k ∉ ct_order s → let s' := ct_order_add k s in
    ct_data s' = ct_data s ∧ ct_order s' = to_end k (ct_order s) ∧ ct_maxsize s' = ct_maxsize s ∧ ct_size s' = ct_size s;
  ct_store_law {V} k v (s : S V) : let s' := ct_store k v s in
    ct_data s' = <[k := v]> (ct_data s) ∧ ct_order s' = to_end k (ct_order s) ∧ ct_maxsize s' = ct_maxsize s ∧ ct_size s' = ct_size s;
  ct_setitem_law {V O} (self : lens O (S V)) popitem fuel k v o :
    let s := lget self o in let z := ct_size s v in
    ct_setitem self popitem fuel k v o =
      (if ct_maxsize s <? z then raise ValueError
       else (if match ct_data s !! k with Some v0 => ct_size s v0 <? z | None => true end then make_room self popitem fuel z else mret tt) ;;
            modify (λ o, lset self (ct_store k v (lget self o)) o)) o
}.

(** ** LRUCache *)

(** [CacheInfo], hits and total *)
Record CacheInfo := mkInfo { hits : Z; total : Z }.

(** [__sub__] *)
Definition info_sub (a b : CacheInfo) : CacheInfo := mkInfo (hits a - hits b) (total a - total b).

Record LRUCache (B : Type) := mkLRU {
  base : B;
  pinned_items : gset key;
  info : CacheInfo;
  _last_info : CacheInfo
}.
Arguments mkLRU {B}.
Arguments base {B}.
Arguments pinned_items {B}.
Arguments info {B}.
Arguments _last_info {B}.

Section lru.
Context {S : Type → Type} `{Cachetools S} {V : Type}.
Abbreviation Cache := (LRUCache (S V)).

Definition set_base (s : S V) (c : Cache) : Cache := mkLRU s (pinned_items c) (info c) (_last_info c).
Definition set_pinned (p : gset key) (c : Cache) : Cache := mkLRU (base c) p (info c) (_last_info c).
Definition set_info (i : CacheInfo) (c : Cache) : Cache := mkLRU (base c) (pinned_items c) i (_last_info c).
Definition set_last_info (i : CacheInfo) (c : Cache) : Cache := mkLRU (base c) (pinned_items c) (info c) i.
Definition baseL : lens Cache (S V) := Lens base set_base.

Definition LRUCache_init (capacity : Z) (getsizeof : V → Z) : Cache := mkLRU (ct_new capacity getsizeof) ∅ (mkInfo 0 0) (mkInfo 0 0).

Definition contains (k : key) (c : Cache) : bool := ct_contains k (base c).
Definition count (hit : bool) : M Cache unit :=
  modify (λ c, set_info (mkInfo (hits (info c) + Z.b2z hit) (total (info c) + 1)) c).

(** [__getitem__] *)
Definition getitem (update_info : bool) (k : key) : M Cache V :=
  v ← zoom baseL (ct_getitem k);
  (if update_info then count true else mret tt) ;;
  mret v.

Definition _unpin (k : key) : M Cache unit :=
  c ← gets id;
  if bool_decide (k ∈ pinned_items c) then modify (set_pinned (pinned_items c ∖ {[k]})) else raise KeyError.

(** [__delitem__] *)
Definition delitem (k : key) : M Cache unit :=
  v ← getitem false k;
  zoom baseL (ct_delitem k) ;;
  c ← gets id;
  if bool_decide (k ∈ pinned_items c) then _unpin k else mret tt.

Definition stat (delta : bool) : M Cache CacheInfo :=
  c ← gets id;
  if delta then modify (set_last_info (info c)) ;; mret (info_sub (info c) (_last_info c)) else mret (info c).

Definition touch (k : key) : M Cache unit := λ c,
  match zoom baseL (ct_move_to_end k) c with
  | (Err KeyError, c) => (Ok tt, set_base (ct_order_add k (base c)) c)
  | r => r
  end.

Definition get (k : key) : M Cache (option V) :=
  c ← gets id;
  if contains k c then v ← getitem false k; modify (λ c, set_info (mkInfo (hits (info c) + 1) (total (info c) + 1)) c) ;; mret (Some v)
  else modify (λ c, set_info (mkInfo (hits (info c)) (total (info c) + 1)) c) ;; mret None.

(** [pop], with the default [None] *)
Definition pop (k : key) : M Cache (option V) :=
  c ← gets id;
  if negb (contains k c) then mret None
  else v ← getitem false k; delitem k ;; mret (Some v).

Definition popitem (remove_pinned : bool) : M Cache (key * option V) :=
  c ← gets id;
  lru_key ← (if remove_pinned then lift_opt StopIteration (head (ct_order (base c)))
             else lift_opt RuntimeError (snd <$> list_find (λ k, k ∉ pinned_items c) (ct_order (base c))));
  v ← pop lru_key;
  mret (lru_key, v).

(** The inherited [__setitem__]; [put] is the same. *)
Definition setitem (fuel : nat) (k : key) (v : V) : M Cache unit := ct_setitem baseL (popitem false ;; mret tt) fuel k v.

Definition pin (k : key) : M Cache unit :=
  c ← gets id;
  if negb (contains k c) then raise ValueError else modify (set_pinned ({[k]} ∪ pinned_items c)).

Definition remove_oldest (remove_pinned : bool) : M Cache unit :=
  c ← gets id;
  if bool_decide (ct_len (base c) = 0) then mret tt else popitem remove_pinned ;; mret tt.

(** The loop of [_remove_old_if_needed] *)
Fixpoint _remove_old_if_needed (fuel : nat) : M Cache unit :=
  c ← gets id;
  if ct_currsize (base c) <=? ct_maxsize (base c) then mret tt
  else match fuel with O => raise OutOfFuel | Datatypes.S fuel => remove_oldest false ;; _remove_old_if_needed fuel end.

(** The loop of [clear] *)
Fixpoint clear_loop (fuel : nat) : M Cache unit :=
  c ← gets id;
  if ct_len (base c) <=? 0 then mret tt
  else match fuel with O => raise OutOfFuel | Datatypes.S fuel => remove_oldest true ;; clear_loop fuel end.

Definition clear (fuel : nat) : M Cache unit :=
  clear_loop fuel ;; modify (λ c, set_last_info (mkInfo 0 0) (set_info (mkInfo 0 0) c)).
End lru.

(** ** The caches of the two processes *)

Section mm.
Context {S : Type → Type} `{Cachetools S}.
(** A processed item and its prompt updates; its size in bytes depends on the tensor library. *)
Context {Item Updates : Type} (item_size : Item → Z).

(** [MultiModalProcessorCacheItem] *)
Record ProcessorCacheItem := mkCacheItem { item : Item; prompt_updates : Updates }.
(** [MultiModalProcessorCacheItemMetadata] *)
Record ItemMetadata := mkMetadata { meta_size : Z; meta_prompt_updates : Updates }.

(** [get_item_size] of the values the three caches hold *)
Definition metadata (x : Item * Updates) : ItemMetadata := mkMetadata (item_size x.1) x.2.

Abbreviation ProcessorOnly := (LRUCache (S ProcessorCacheItem)).
Abbreviation Sender := (LRUCache (S ItemMetadata)).
Abbreviation Receiver := (LRUCache (S Item)).

(** [get_lru_cache], with the capacity in bytes *)
Definition ProcessorOnly_init (capacity : Z) : ProcessorOnly := LRUCache_init capacity (λ x, item_size (item x)).
Definition Sender_init (capacity : Z) : Sender := LRUCache_init capacity meta_size.
Definition Receiver_init (capacity : Z) : Receiver := LRUCache_init capacity item_size.

Definition only_get_and_update_item (fuel : nat) (mm_item : option (Item * Updates)) (mm_hash : key) : M ProcessorOnly (Item * Updates) :=
  cached ← get mm_hash;
  match cached with
  | Some x => mret (item x, prompt_updates x)
  | None => x ← lift_opt AssertionError mm_item; setitem fuel mm_hash (mkCacheItem x.1 x.2) ;; mret x
  end.

Definition sender_get_and_update_item (fuel : nat) (mm_item : option (Item * Updates)) (mm_hash : key) : M Sender (option Item * Updates) :=
  cached ← get mm_hash;
  match cached with
  | Some x => mret (None, meta_prompt_updates x)
  | None => x ← lift_opt AssertionError mm_item; setitem fuel mm_hash (metadata x) ;; mret (Some x.1, x.2)
  end.

Definition receiver_get_and_update_item (fuel : nat) (mm_item : option Item) (mm_hash : key) : M Receiver Item :=
  cached ← get mm_hash;
  match cached with
  | Some x => mret x
  | None => x ← lift_opt AssertionError mm_item; setitem fuel mm_hash x ;; mret x
  end.

(** [is_cached] *)
Definition is_cached (mm_hashes : list key) (c : Sender) : list bool := (λ h, contains h c) <$> mm_hashes.

(** ** A request in the front end *)

(** The hashes of the items of each modality. *)
Abbreviation MultiModalHashes := (list (string * list key)).

(** The loop of [_merge_mm_kwargs] over the items of a modality; [missing] are the processed items of
    those that were not cached. *)
Fixpoint merge_items (fuel : nat) (hashes : list key) (cached : list bool) (missing : list (Item * Updates)) : M Sender (list (option Item * Updates)) :=
  match hashes, cached with
  | item_hash :: hashes, is_cached :: cached =>
      '(mm_item, missing) ← (if is_cached : bool then mret (None, missing)
                             else match missing with x :: rest => mret (Some x, rest) | [] => raise IndexError end);
      x ← sender_get_and_update_item fuel mm_item item_hash;
      xs ← merge_items fuel hashes cached missing;
      mret (x :: xs)
  | _, _ => mret []
  end.

(** The items of one modality after those of the others *)
Definition merge_modality (fuel : nat) (acc : list (list (option Item * Updates))) (x : list key * (list bool * list (Item * Updates))) :
    M Sender (list (list (option Item * Updates))) :=
  xs ← merge_items fuel x.1 x.2.1 x.2.2;
  mret (acc ++ [xs]).

(** [_merge_mm_kwargs]; the prompt updates are only numbered anew. *)
Definition _merge_mm_kwargs (fuel : nat) (mm_hashes : MultiModalHashes) (mm_is_cached : list (list bool)) (missing : list (list (Item * Updates)))
    : M Sender (list (list (option Item * Updates))) :=
  for_each (concat mm_hashes.*2) (λ h, touch h) ;;
  fold_each (zip mm_hashes.*2 (zip mm_is_cached missing)) [] (merge_modality fuel).

(** The items of a modality that are not cached, processed. *)
Definition processed_missing (process : key → Item * Updates) (hashes : list key) (cached : list bool) : list (Item * Updates) :=
  process <$> (filter (λ x, x.2 = false) (zip hashes cached)).*1.

(** [_cached_apply_hf_processor]: what is missing is processed by the processor of the model, which is a
    parameter; a hash stands for the content of its item, and the data of every item are given. *)
Definition _cached_apply_hf_processor (process : key → Item * Updates) (fuel : nat) (mm_hashes : MultiModalHashes) : M Sender (list (list (option Item * Updates))) :=
  mm_is_cached ← gets (λ c, (λ hs, is_cached hs c) <$> mm_hashes.*2);
  let missing := zip_with (processed_missing process) mm_hashes.*2 mm_is_cached in
  _merge_mm_kwargs fuel mm_hashes mm_is_cached missing.

(** [MultiModalFeatureSpec], the fields that the caches read *)
Record Feature := mkFeature { f_data : option Item; f_identifier : string; f_mm_hash : option string; f_offset : Z }.

(** [sorted(...)] by the offset, which is stable. *)
Fixpoint insert_by_offset {A} (x : Z * A) (l : list (Z * A)) : list (Z * A) :=
  match l with [] => [x] | y :: r => if x.1 <=? y.1 then x :: y :: r else y :: insert_by_offset x r end.
Definition argsort_mm_positions {A} (l : list (Z * A)) : list (Z * A) := foldr insert_by_offset [] l.

(** The features of a request ([process_inputs]): the items with their hashes and the offsets of their
    placeholders, flattened and sorted.  [identifier] adds the LoRA prefix. *)
Definition mm_features (identifier : key → string) (mm_hashes : MultiModalHashes) (offsets : list (list Z)) (items : list (list (option Item * Updates))) : list Feature :=
  (λ '(offset, (h, x)), mkFeature x (identifier h) (Some h) offset) <$>
    argsort_mm_positions (zip (concat offsets) (zip (concat mm_hashes.*2) (concat items).*1)).

(** ** A request in the engine core *)

(** [feature.mm_hash or feature.identifier] *)
Definition cache_key (f : Feature) : key :=
  match f_mm_hash f with Some h => if bool_decide (h = ""%string) then f_identifier f else h | None => f_identifier f end.

(** The body of the second loop of [get_and_update_features] *)
Definition receive_feature (fuel : nat) (acc : list Feature) (f : Feature) : M Receiver (list Feature) :=
  x ← receiver_get_and_update_item fuel (f_data f) (cache_key f);
  mret (acc ++ [mkFeature (Some x) (f_identifier f) (f_mm_hash f) (f_offset f)]).

Definition get_and_update_features (fuel : nat) (features : list Feature) : M Receiver (list Feature) :=
  for_each features (λ f, touch (cache_key f)) ;;
  fold_each features [] (receive_feature fuel).

(** ** Both *)

(** A request: the hashes by modality and the offsets of the placeholders. *)
Record MMRequest := mkMMRequest { r_hashes : MultiModalHashes; r_offsets : list (list Z) }.

(** A request is processed in P0, sent, and received in P1; [P0] and [P1] have a cache each. *)
Definition P0 : lens (Sender * Receiver) Sender := Lens fst (λ s p, (s, p.2)).
Definition P1 : lens (Sender * Receiver) Receiver := Lens snd (λ r p, (p.1, r)).

Definition front_end (process : key → Item * Updates) (identifier : key → string) (fuel : nat) (r : MMRequest) : M Sender (list Feature) :=
  items ← _cached_apply_hf_processor process fuel (r_hashes r);
  mret (mm_features identifier (r_hashes r) (r_offsets r) items).

Definition serve (process : key → Item * Updates) (identifier : key → string) (fuel : nat) (r : MMRequest) : M (Sender * Receiver) (list Feature) :=
  features ← zoom P0 (front_end process identifier fuel r);
  zoom P1 (get_and_update_features fuel features).

(** One request after the other *)
Definition collect {T A B} (f : A → M T B) (acc : list B) (x : A) : M T (list B) := y ← f x; mret (acc ++ [y]).
Definition front_end_all (process : key → Item * Updates) (identifier : key → string) (fuel : nat) (rs : list MMRequest) : M Sender (list (list Feature)) :=
  fold_each rs [] (collect (front_end process identifier fuel)).
Definition serve_all (process : key → Item * Updates) (identifier : key → string) (fuel : nat) (rs : list MMRequest) : M (Sender * Receiver) (list (list Feature)) :=
  fold_each rs [] (collect (serve process identifier fuel)).
End mm.
