(* ===== verification/MMCacheTheorems.v ===== *)
(** * Theorems about the caches of multimodal items

    The caches of the front end and of the engine core stay in step ([mm_caches_mirrored]); storing an
    item ends within the capacity ([setitem_stores]) unless a key was touched that is not stored
    ([setitem_phantom], [clear_phantom]).  [ListCache] is a library cache that satisfies the laws; the
    examples run on it. *)

From stdpp Require Import base list gmap strings.
From Stdlib Require Import ZArith Lia Sorted.
From S2P Require Import Prelude MMCache.
Local Open Scope Z_scope.

(** ** Two caches in step *)

Section mirror.
Context {S : Type → Type} `{CachetoolsLaws S}.
Context {V1 V2 : Type} (size1 : V1 → Z) (size2 : V2 → Z) (good : key → V2 → Prop).
Abbreviation C1 := (LRUCache (S V1)).
Abbreviation C2 := (LRUCache (S V2)).

(** The same keys with the same sizes in the same order; the values of the second are [good]. *)
Record mirror_base (s1 : S V1) (s2 : S V2) : Prop := {
  mb_order : ct_order s2 = ct_order s1;
  mb_max : ct_maxsize s2 = ct_maxsize s1;
  mb_size1 : ct_size s1 = size1;
  mb_size2 : ct_size s2 = size2;
  mb_sizes : size2 <$> ct_data s2 = size1 <$> ct_data s1;
  mb_good : ∀ k v, ct_data s2 !! k = Some v → good k v
}.

Record mirror (c1 : C1) (c2 : C2) : Prop := {
  mi_base : mirror_base (base c1) (base c2);
  mi_pinned : pinned_items c2 = pinned_items c1
}.

Definition both {A1 A2} (R : A1 → A2 → Prop) (m1 : M C1 A1) (m2 : M C2 A2) : Prop :=
  ∀ c1 c2, mirror c1 c2 → mirror (m1 c1).2 (m2 c2).2 ∧
    match (m1 c1).1, (m2 c2).1 with Ok a1, Ok a2 => R a1 a2 | Err e1, Err e2 => e2 = e1 | _, _ => False end.

Lemma both_ret {A1 A2} (R : A1 → A2 → Prop) a1 a2 : R a1 a2 → both R (mret a1) (mret a2).
Proof. by intros HR c1 c2 Hm. Qed.
Lemma both_raise {A1 A2} (R : A1 → A2 → Prop) e : both R (raise e) (raise e).
Proof. by intros c1 c2 Hm. Qed.
Lemma both_bind {A1 A2 B1 B2} (R : A1 → A2 → Prop) (R' : B1 → B2 → Prop) m1 m2 k1 k2 :
  both R m1 m2 → (∀ a1 a2, R a1 a2 → both R' (k1 a1) (k2 a2)) → both R' (m1 ≫= k1) (m2 ≫= k2).
Proof.
  intros Hm Hk c1 c2 Hc. destruct (Hm c1 c2 Hc) as [Hc' HR]. unfold mbind, M_bind.
  destruct (m1 c1) as [[a1|e1] c1'], (m2 c2) as [[a2|e2] c2']; cbn in *; try done. by apply Hk.
Qed.
Lemma both_gets {A1 A2 B1 B2} (R : A1 → A2 → Prop) (f1 : C1 → B1) (f2 : C2 → B2) k1 k2 :
  (∀ c1 c2, mirror c1 c2 → both R (k1 (f1 c1)) (k2 (f2 c2))) → both R (gets f1 ≫= k1) (gets f2 ≫= k2).
Proof. intros Hk c1 c2 Hm. by apply (Hk c1 c2 Hm). Qed.
Lemma both_get {A1 A2} (R : A1 → A2 → Prop) (k1 : C1 → M C1 A1) (k2 : C2 → M C2 A2) :
  (∀ c1 c2, mirror c1 c2 → both R (k1 c1) (k2 c2)) → both R (gets id ≫= k1) (gets id ≫= k2).
Proof. apply both_gets. Qed.
Lemma both_modify f1 f2 : (∀ c1 c2, mirror c1 c2 → mirror (f1 c1) (f2 c2)) → both (λ _ _, True) (modify f1) (modify f2).
Proof. intros Hf c1 c2 Hm. split; [by apply Hf|done]. Qed.
Lemma both_if {A1 A2} (R : A1 → A2 → Prop) (b1 b2 : bool) (m1 n1 : M C1 A1) (m2 n2 : M C2 A2) :
  b2 = b1 → (b1 = true → both R m1 m2) → (b1 = false → both R n1 n2) → both R (if b1 then m1 else n1) (if b2 then m2 else n2).
Proof. intros -> Ht Hf. destruct b1; auto. Qed.
Lemma both_for_each {A} (l : list A) f1 f2 : (∀ x, both (λ _ _, True) (f1 x) (f2 x)) → both (λ _ _, True) (for_each l f1) (for_each l f2).
Proof. intros Hf. induction l as [|x l IH]; [by apply both_ret|]. by eapply both_bind; [apply Hf|]. Qed.

(** A key is in both or in neither. *)
Lemma mirror_lookup s1 s2 k : mirror_base s1 s2 →
  match ct_data s1 !! k, ct_data s2 !! k with
  | Some v1, Some v2 => size2 v2 = size1 v1 ∧ good k v2
  | None, None => True
  | _, _ => False
  end.
Proof.
  intros Hm. pose proof (f_equal (lookup k) (mb_sizes _ _ Hm)) as E. rewrite !lookup_fmap in E.
  destruct (ct_data s1 !! k), (ct_data s2 !! k) eqn:E2; try done. injection E as ->. split; [done|]. by apply (mb_good _ _ Hm).
Qed.

Lemma contains_mirror k c1 c2 : mirror c1 c2 → contains k c2 = contains k c1.
Proof.
  intros [Hm _]. unfold contains. rewrite !ct_contains_law. pose proof (mirror_lookup _ _ k Hm) as Hl.
  by destruct (ct_data (base c1) !! k), (ct_data (base c2) !! k).
Qed.

Lemma currsize_mirror c1 c2 : mirror c1 c2 → ct_currsize (base c2) = ct_currsize (base c1).
Proof. intros [[] _]. by rewrite !ct_currsize_law, mb_size3, mb_size4, mb_sizes0. Qed.

(** Programs of the library keep the mirror when they change order and contents alike. *)
Lemma both_zoom {A1 A2} (R : A1 → A2 → Prop) (m1 : M (S V1) A1) (m2 : M (S V2) A2) :
  (∀ s1 s2, mirror_base s1 s2 → mirror_base (m1 s1).2 (m2 s2).2 ∧
     match (m1 s1).1, (m2 s2).1 with Ok a1, Ok a2 => R a1 a2 | Err e1, Err e2 => e2 = e1 | _, _ => False end) →
  both R (zoom baseL m1) (zoom baseL m2).
Proof.
  intros Hz c1 c2 [Hm Hp]. unfold zoom. cbn. destruct (Hz _ _ Hm) as [Hm' HR].
  by destruct (m1 (base c1)) as [[]], (m2 (base c2)) as [[]].
Qed.

Lemma getitem_both k : both (λ v1 v2, size2 v2 = size1 v1 ∧ good k v2) (getitem false k) (getitem false k).
Proof.
  unfold getitem. eapply both_bind; [|intros v1 v2 Hv; eapply both_bind; [by apply (both_ret (λ _ _, True))|intros ? ? _; apply both_ret, Hv]].
  apply both_zoom. intros s1 s2 Hm. pose proof (mirror_lookup _ _ k Hm) as Hl.
  pose proof (ct_getitem_law k s1) as L1. pose proof (ct_getitem_law k s2) as L2.
  destruct (ct_data s1 !! k) as [v1|], (ct_data s2 !! k) as [v2|]; [|done..|by rewrite L1, L2].
  destruct L1 as (s1' & -> & D1 & O1 & M1 & Z1), L2 as (s2' & -> & D2 & O2 & M2 & Z2). split; [|done].
  destruct Hm. by split; cbn; rewrite ?D1, ?D2, ?O1, ?O2, ?M1, ?M2, ?Z1, ?Z2, ?mb_order0.
Qed.

(** A step of the library with the same effect on the order, and on the contents one that keeps the
    sizes equal. *)
Lemma mirror_step s1 s2 s1' s2' f :
  mirror_base s1 s2 →
  (ct_order s1' = f (ct_order s1) ∧ ct_maxsize s1' = ct_maxsize s1 ∧ ct_size s1' = ct_size s1) →
  (ct_order s2' = f (ct_order s2) ∧ ct_maxsize s2' = ct_maxsize s2 ∧ ct_size s2' = ct_size s2) →
  size2 <$> ct_data s2' = size1 <$> ct_data s1' → (∀ k v, ct_data s2' !! k = Some v → good k v) → mirror_base s1' s2'.
Proof. intros [Ho Hm H1 H2 _ _] (O1 & M1 & Z1) (O2 & M2 & Z2) Hs Hg. split; try done; congruence. Qed.

Lemma delitem_both k : both (λ _ _, True) (delitem k) (delitem k).
Proof.
  unfold delitem. eapply both_bind; [apply getitem_both|intros _ _ _]. apply (both_bind (λ _ _, True)).
  - apply both_zoom. intros s1 s2 Hm. pose proof (mirror_lookup _ _ k Hm) as Hl.
    pose proof (ct_delitem_law k s1) as L1. pose proof (ct_delitem_law k s2) as L2.
    destruct (ct_data s1 !! k) as [v1|], (ct_data s2 !! k) as [v2|]; [|done..|rewrite L1, L2; by split].
    destruct L1 as (s1' & -> & D1 & R1), L2 as (s2' & -> & D2 & R2). split; [|done].
    apply (mirror_step s1 s2 _ _ (filter (λ k', k' ≠ k)) Hm R1 R2).
    + by rewrite D1, D2, !fmap_delete, (mb_sizes _ _ Hm).
    + rewrite D2. intros k' v [_ Hv]%lookup_delete_Some. by apply (mb_good _ _ Hm).
  - intros _ _ _. apply both_get. intros c1 c2 [Hm Hp]. apply both_if; [by rewrite Hp| |intros _; by apply both_ret].
    intros _. apply both_get. intros d1 d2 [Hd Hpd]. apply both_if; [by rewrite Hpd| |intros _; apply both_raise].
    intros _. apply both_modify. intros e1 e2 [He _]. split; [done|]. cbn. by rewrite Hpd.
Qed.

Lemma touch_both k : both (λ _ _, True) (touch k) (touch k).
Proof.
  intros c1 c2 [Hm Hp]. unfold touch, zoom. cbn. pose proof (ct_move_law k (base c1)) as L1. pose proof (ct_move_law k (base c2)) as L2.
  rewrite (mb_order _ _ Hm) in L2. destruct (decide (k ∈ ct_order (base c1))) as [Hk|Hk].
  - destruct L1 as (s1' & -> & D1 & R1), L2 as (s2' & -> & D2 & R2). cbn. split; [|done]. split; [|done].
    rewrite <-(mb_order _ _ Hm) in R2. apply (mirror_step _ _ _ _ (to_end k) Hm R1 R2); rewrite ?D1, ?D2; apply Hm.
  - rewrite L1, L2. cbn. split; [|done]. split; [|done].
    destruct (ct_add_law k (base c1) Hk) as (D1 & R1). destruct (ct_add_law k (base c2)) as (D2 & R2); [by rewrite (mb_order _ _ Hm)|].
    apply (mirror_step _ _ _ _ (to_end k) Hm R1 R2); rewrite ?D1, ?D2; apply Hm.
Qed.

Lemma pop_both k : both (λ _ _, True) (pop k) (pop k).
Proof.
  apply both_get. intros c1 c2 Hm. apply both_if; [by rewrite (contains_mirror k c1 c2 Hm)|intros _; by apply both_ret|intros _].
  eapply both_bind; [apply getitem_both|intros v1 v2 _]. eapply both_bind; [apply delitem_both|intros _ _ _]. by apply both_ret.
Qed.

Lemma popitem_both b : both (λ _ _, True) (popitem b) (popitem b).
Proof.
  apply both_get. intros c1 c2 [Hm Hp]. eapply (both_bind eq).
  - rewrite Hp, (mb_order _ _ Hm). destruct b; unfold lift_opt; [destruct (head _)|destruct (list_find _ _)]; first [by apply both_ret|apply both_raise].
  - intros k ? <-. eapply both_bind; [apply pop_both|intros v1 v2 _]. by apply both_ret.
Qed.

Lemma make_room_both fuel z : both (λ _ _, True)
  (make_room baseL (popitem false ;; mret tt) fuel z) (make_room baseL (popitem false ;; mret tt) fuel z).
Proof.
  induction fuel as [|fuel IH]; apply both_gets; intros c1 c2 Hm; cbn [lget baseL];
    (apply both_if; [by rewrite (currsize_mirror _ _ Hm), (mb_max _ _ (mi_base _ _ Hm))|intros _; by apply both_ret|intros _]).
  - by apply both_raise.
  - eapply both_bind; [eapply both_bind; [apply popitem_both|intros _ _ _; by apply (both_ret (λ _ _, True))]|intros _ _ _; apply IH].
Qed.

Lemma setitem_both fuel k v1 v2 : size2 v2 = size1 v1 → good k v2 → both (λ _ _, True) (setitem fuel k v1) (setitem fuel k v2).
Proof.
  intros Hv Hg c1 c2 Hm. unfold setitem. rewrite !ct_setitem_law. cbn [lget baseL].
  pose proof (mirror_lookup _ _ k (mi_base _ _ Hm)) as Hl. pose proof (mi_base _ _ Hm) as [Ho Hmax Hz1 Hz2 Hs Hgd].
  rewrite Hmax, Hz1, Hz2, Hv. destruct (ct_maxsize (base c1) <? size1 v1); [by apply both_raise|].
  assert (match ct_data (base c2) !! k with Some v0 => size2 v0 <? size1 v1 | None => true end =
    match ct_data (base c1) !! k with Some v0 => size1 v0 <? size1 v1 | None => true end) as ->.
  { destruct (ct_data (base c1) !! k), (ct_data (base c2) !! k); try done. by destruct Hl as [-> _]. }
  revert c1 c2 Hm Hl Ho Hmax Hz1 Hz2 Hs Hgd. intros c1 c2 Hm _ _ _ _ _ _ _. apply (both_bind (λ _ _, True)); [| |done].
  - apply both_if; [done|intros _; apply make_room_both|intros _; by apply both_ret].
  - intros _ _ _. apply both_modify. intros d1 d2 [Hd Hp]. split; [|done]. cbn.
    destruct (ct_store_law k v1 (base d1)) as (D1 & R1), (ct_store_law k v2 (base d2)) as (D2 & R2).
    apply (mirror_step _ _ _ _ (to_end k) Hd R1 R2).
    + by rewrite D1, D2, !fmap_insert, Hv, (mb_sizes _ _ Hd).
    + rewrite D2. intros k' v [[<- <-]|[_ Hv']]%lookup_insert_Some; [done|by apply (mb_good _ _ Hd)].
Qed.

Lemma get_both k : both (λ o1 o2, match o1, o2 with Some v1, Some v2 => size2 v2 = size1 v1 ∧ good k v2 | None, None => True | _, _ => False end)
  (get k) (get k).
Proof.
  apply both_get. intros c1 c2 Hm. apply both_if; [by rewrite (contains_mirror k c1 c2 Hm)|intros _|intros _].
  - eapply both_bind; [apply getitem_both|intros v1 v2 Hv]. eapply both_bind; [apply both_modify; by intros d1 d2 []|intros _ _ _]. by apply both_ret.
  - eapply both_bind; [apply both_modify; by intros d1 d2 []|intros _ _ _]. by apply both_ret.
Qed.
End mirror.

(** ** The two processes *)

(** A sender and a receiver, with the items that the front end's processor makes of a key. *)
Section refine.
Context {S : Type → Type} `{CachetoolsLaws S}.
Context {Item Updates : Type} (item_size : Item → Z) (process : key → Item * Updates).
Abbreviation Sender := (LRUCache (S (@ItemMetadata Updates))).
Abbreviation Receiver := (LRUCache (S Item)).

(** In step: same keys, sizes, order and pins, and the receiver holds the processed item of every key. *)
Definition in_step : Sender → Receiver → Prop := mirror meta_size item_size (λ k x, x = (process k).1).

(** What the engine core makes of a feature. *)
Definition restore (f : @Feature Item) : @Feature Item :=
  mkFeature (Some (process (cache_key f)).1) (f_identifier f) (f_mm_hash f) (f_offset f).

Definition restore_all : list (list (@Feature Item)) → list (list (@Feature Item)) := map (map restore).

(** A feature that carries the key and the data of an item that the front end processed. *)
Definition carries (f : @Feature Item) (x : key * (option Item * Updates)) : Prop := cache_key f = x.1 ∧ f_data f = x.2.1.

Lemma init_in_step c : in_step (Sender_init c) (Receiver_init item_size c).
Proof.
  destruct (ct_new_law c (@meta_size Updates)) as (D1 & O1 & M1 & Z1), (ct_new_law c item_size) as (D2 & O2 & M2 & Z2).
  split; [|done]. split; cbn; rewrite ?D1, ?D2, ?O1, ?O2, ?M1, ?M2, ?fmap_empty; done.
Qed.

Lemma touch_in_step (fs : list (@Feature Item)) s s' r : for_each (cache_key <$> fs) (λ h, touch h) s = (Ok tt, s') → in_step s r →
  ∃ r', for_each fs (λ f, touch (cache_key f)) r = (Ok tt, r') ∧ in_step s' r'.
Proof.
  intros Hs Hm. destruct (both_for_each meta_size item_size (λ k x, x = (process k).1) fs (λ f, touch (cache_key f)) (λ f, touch (cache_key f))
    (λ f, touch_both _ _ _ _) s r Hm) as [Hm' HR].
  replace (for_each fs (λ f, touch (cache_key f)) s) with (for_each (cache_key <$> fs) (λ h, touch h) s) in *
    by (clear; revert s; induction fs as [|f fs IH]; intros s; [done|]; cbn; unfold mbind, M_bind; destruct (touch _ s) as [[[]|] ?]; [apply IH|done]).
  rewrite Hs in *. destruct (for_each fs _ r) as [[[]|] r']; [by exists r'|done].
Qed.

(** What the front end gets for an item it was asked for with [mm_item], the engine core completes. *)
Lemma item_in_step fuel mm_item h x s s' r :
  sender_get_and_update_item item_size fuel mm_item h s = (Ok x, s') → in_step s r → (mm_item = None ∨ mm_item = Some (process h)) →
  ∃ r', receiver_get_and_update_item fuel x.1 h r = (Ok (process h).1, r') ∧ in_step s' r'.
Proof.
  unfold sender_get_and_update_item. rewrite M_bind_ok. intros (cached & s1 & Hget & Hs) Hm Hitem.
  destruct (get_both meta_size item_size (λ k x, x = (process k).1) h s r Hm) as [Hm1 HR]. rewrite Hget in *.
  unfold receiver_get_and_update_item, mbind at 1, M_bind at 1. destruct (get h r) as [[o|] r1]; [|done]. cbn [fst snd] in *.
  destruct cached as [y|], o as [v|]; try done.
  - destruct HR as [_ ->]. injection Hs as <- <-. by exists r1.
  - destruct Hitem as [->| ->]; [done|]. cbn [lift_opt] in *. revert Hs. unfold mbind, M_bind. cbn [mret].
    destruct (setitem_both meta_size item_size (λ k x, x = (process k).1) fuel h (metadata item_size (process h)) (process h).1 eq_refl eq_refl s1 r1 Hm1) as [Hm2 HR2].
    cbn. destruct (setitem fuel h _ s1) as [[[]|] s2]; [|done]. intros [= <- <-]. cbn.
    destruct (setitem fuel h _ r1) as [[[]|] r2]; [|done]. by exists r2.
Qed.

(** What the engine core does with features that carry items, and that it stays in step. *)
Definition receives (fuel : nat) (xs : list (key * (option Item * Updates))) (s s' : Sender) : Prop :=
  ∀ r fs, in_step s r → Forall2 carries fs xs →
    ∃ r', (∀ acc, fold_each fs acc (receive_feature fuel) r = (Ok (acc ++ (restore <$> fs)), r')) ∧ in_step s' r'.

Lemma receives_nil fuel s : receives fuel [] s s.
Proof. intros r fs Hm ->%Forall2_nil_inv_r. exists r. split; [|done]. intros acc. cbn. by rewrite app_nil_r. Qed.

Lemma receives_cons fuel mo h x xs s s1 s' :
  sender_get_and_update_item item_size fuel mo h s = (Ok x, s1) → (mo = None ∨ mo = Some (process h)) →
  receives fuel xs s1 s' → receives fuel ((h, x) :: xs) s s'.
Proof.
  intros Hx Hmo Hxs r fs Hm (f & fs' & [Hk Hd] & Hfs & ->)%Forall2_cons_inv_r. cbn in Hk, Hd.
  destruct (item_in_step fuel mo h x s s1 r Hx Hm Hmo) as (r1 & Hr1 & Hm1). destruct (Hxs r1 fs' Hm1 Hfs) as (r' & Hr & Hm').
  exists r'. split; [|done]. intros acc. cbn [fold_each]. apply M_bind_ok. exists (acc ++ [restore f]), r1. split.
  - apply M_bind_ok. exists (process h).1, r1. rewrite Hk, Hd, Hr1. split; [done|]. unfold restore. by rewrite Hk.
  - rewrite Hr. by rewrite <-app_assoc.
Qed.

Lemma fold_each_app {T A B} (l1 l2 : list A) (a : B) (body : B → A → M T B) t :
  fold_each (l1 ++ l2) a body t = (b ← fold_each l1 a body; fold_each l2 b body) t.
Proof.
  revert a t. induction l1 as [|x l1 IH]; intros a t; [done|]. cbn [fold_each app]. unfold mbind, M_bind.
  destruct (body a x t) as [[a'|e] t']; [apply IH|done].
Qed.

Lemma receives_app fuel xs ys s s1 s2 : receives fuel xs s s1 → receives fuel ys s1 s2 → receives fuel (xs ++ ys) s s2.
Proof.
  intros Hxs Hys r fs Hm (f1 & f2 & H1 & H2 & ->)%Forall2_app_inv_r. destruct (Hxs r f1 Hm H1) as (r1 & Hr1 & Hm1).
  destruct (Hys r1 f2 Hm1 H2) as (r2 & Hr2 & Hm2). exists r2. split; [|done]. intros acc.
  rewrite fold_each_app. apply M_bind_ok. exists (acc ++ (restore <$> f1)), r1. by rewrite Hr1, Hr2, fmap_app, app_assoc.
Qed.

(** The items of one modality. *)
Lemma merge_items_receives fuel hashes cached s xs s' : length cached = length hashes →
  merge_items item_size fuel hashes cached (processed_missing process hashes cached) s = (Ok xs, s') →
  length xs = length hashes ∧ receives fuel (zip hashes xs) s s'.
Proof.
  revert cached s xs. induction hashes as [|h hashes IH]; intros [|b cached] s xs; try done; cbn [merge_items].
  { intros _ [= <- <-]. split; [done|]. apply receives_nil. }
  intros [= Hlen] ([mo missing] & s0 & Hmo & Hx)%M_bind_ok.
  apply M_bind_ok in Hx as (x & s1 & Hx & (xs' & s2 & Hxs & [= <- <-])%M_bind_ok).
  assert (s0 = s ∧ missing = processed_missing process hashes cached ∧ (mo = None ∨ mo = Some (process h))) as (-> & -> & Hitem).
  { destruct b; cbn in Hmo; injection Hmo as <- <- <-; auto. }
  destruct (IH cached s1 xs' Hlen Hxs) as [Hl Hrec]. split; [cbn; by rewrite Hl|]. by apply (receives_cons _ mo h x _ s s1).
Qed.

(** All modalities. *)
Lemma merge_modalities_receives fuel (l : list (list key * list bool)) acc s out s' :
  Forall (λ x, length x.2 = length x.1) l →
  fold_each ((λ x, (x.1, (x.2, processed_missing process x.1 x.2))) <$> l) acc (merge_modality item_size fuel) s = (Ok out, s') →
  ∃ xss, out = acc ++ xss ∧ length (concat xss) = length (concat l.*1) ∧ receives fuel (zip (concat l.*1) (concat xss)) s s'.
Proof.
  intros Hl. revert acc s. induction Hl as [|[hs bs] l Hhd Hl IH]; intros acc s; cbn [fmap list_fmap fold_each].
  { intros [= <- <-]. exists []. rewrite app_nil_r. split_and!; [done|done|]. apply receives_nil. }
  intros (out1 & s1 & Hhs & Hout)%M_bind_ok. apply M_bind_ok in Hhs as (xs & s1' & Hxs & [= <- <-]).
  destruct (merge_items_receives fuel hs bs s xs s1' Hhd Hxs) as [Hlen Hrec].
  destruct (IH _ _ Hout) as (xss & -> & Hlens & Hrecs). exists (xs :: xss). cbn. rewrite <-app_assoc, !length_app, Hlen, Hlens.
  split_and!; [done|done|]. rewrite zip_with_app by done. by apply (receives_app _ _ _ s s1').
Qed.
Lemma argsort_sorted {A} (l : list (Z * A)) : Sorted (λ x y, x.1 ≤ y.1) l → argsort_mm_positions l = l.
Proof.
  induction 1 as [|x l Hl IH Hx]; [done|]. change (insert_by_offset x (argsort_mm_positions l) = x :: l). rewrite IH. destruct Hx as [|y l Hxy]; [done|].
  cbn. by rewrite (proj2 (Z.leb_le _ _) Hxy).
Qed.

Lemma sorted_zip {A} (offsets : list Z) (l : list A) : Sorted Z.le offsets → Sorted (λ x y, x.1 ≤ y.1) (zip offsets l).
Proof.
  intros Ho. revert l. induction Ho as [|z offsets Ho IH Hz]; intros [|x l]; [constructor..|]. cbn. constructor; [apply IH|].
  destruct Hz as [|z' offsets Hz]; [constructor|]. destruct l; [constructor|]. by constructor.
Qed.

Definition ordered (q : MMRequest) : Prop :=
  length (concat (r_offsets q)) = length (concat (r_hashes q).*2) ∧ Sorted Z.le (concat (r_offsets q)) ∧ Forall (λ h, h ≠ ""%string) (concat (r_hashes q).*2).

Lemma mm_features_carry identifier q items : ordered q → length (concat items) = length (concat (r_hashes q).*2) →
  let fs := mm_features identifier (r_hashes q) (r_offsets q) items in
  cache_key <$> fs = concat (r_hashes q).*2 ∧ Forall2 carries fs (zip (concat (r_hashes q).*2) (concat items)).
Proof.
  intros (Hlen & Hs & Hne) Hitems. unfold mm_features. rewrite argsort_sorted by by apply sorted_zip.
  revert Hlen Hitems Hne. generalize (concat items) (concat (r_hashes q).*2) (concat (r_offsets q)). clear. intros items hs. revert items.
  induction hs as [|h hs IH]; intros [|x items] [|z offsets]; try done. intros [= Ho] [= Hi] [Hh Hne]%Forall_cons. cbn.
  destruct (IH items offsets Ho Hi Hne) as [Hk Hf]. rewrite bool_decide_false by done.
  split; [f_equal; exact Hk|]. constructor; [|done]. split; [|done]. unfold cache_key. cbn. by rewrite bool_decide_false.
Qed.

(** A request: when the front end processes it, the engine core restores all its features. *)
Lemma front_end_in_step identifier fuel q fs s s' r : ordered q → front_end item_size process identifier fuel q s = (Ok fs, s') → in_step s r →
  ∃ r', get_and_update_features fuel fs r = (Ok (restore <$> fs), r') ∧ in_step s' r'.
Proof.
  intros Hq (items & s0 & Hitems & [= <- ->])%M_bind_ok Hm.
  apply M_bind_ok in Hitems as (cached & s0 & [= <- <-] & Hitems). apply M_bind_ok in Hitems as ([] & s1 & Ht & Hitems).
  set (l := (λ hs, (hs, is_cached hs s)) <$> (r_hashes q).*2).
  assert (Hl1 : l.*1 = (r_hashes q).*2) by (unfold l; rewrite <-list_fmap_compose; apply list_fmap_id).
  assert (Hz : zip (r_hashes q).*2 (zip ((λ hs, is_cached hs s) <$> (r_hashes q).*2) (zip_with (processed_missing process) (r_hashes q).*2 ((λ hs, is_cached hs s) <$> (r_hashes q).*2)))
    = (λ x, (x.1, (x.2, processed_missing process x.1 x.2))) <$> l).
  { unfold l. generalize (r_hashes q).*2. clear. intros hss. induction hss as [|hs hss IH]; [done|]. cbn. by rewrite IH. }
  rewrite Hz in Hitems. apply merge_modalities_receives in Hitems as (xss & -> & Hlen & Hrec).
  2:{ apply Forall_fmap, Forall_true. intros hs. apply length_fmap. }
  rewrite Hl1 in Hlen, Hrec. cbn [app] in *. destruct (mm_features_carry identifier q xss Hq Hlen) as [Hk Hf]. rewrite <-Hk in Ht.
  destruct (touch_in_step _ _ _ _ Ht Hm) as (r1 & Hr1 & Hm1). destruct (Hrec r1 _ Hm1 Hf) as (r' & Hr & Hm').
  exists r'. split; [|done]. apply M_bind_ok. exists tt, r1. by split.
Qed.

Lemma serve_all_in_step identifier fuel qs acc acc' s fss s' r : Forall ordered qs → in_step s r → acc' = restore_all acc →
  fold_each qs acc (collect (front_end item_size process identifier fuel)) s = (Ok fss, s') →
  ∃ r', fold_each qs acc' (collect (serve item_size process identifier fuel)) (s, r) = (Ok (restore_all fss), (s', r')) ∧ in_step s' r'.
Proof.
  intros Hqs. revert acc acc' s r. induction Hqs as [|q qs Hq Hqs IH]; intros acc acc' s r Hm ->; cbn [fold_each].
  { intros [= <- <-]. by exists r. }
  intros (acc1 & s1 & Hacc & Hfss)%M_bind_ok. apply M_bind_ok in Hacc as (fs & s1' & Hfs & [= <- <-]).
  destruct (front_end_in_step _ _ _ _ _ _ r Hq Hfs Hm) as (r1 & Hr1 & Hm1).
  destruct (IH (acc ++ [fs]) _ s1' r1 Hm1 eq_refl Hfss) as (r' & Hr' & Hm'). exists r'. split; [|done].
  apply M_bind_ok. eexists _, (s1', r1). split; [|exact Hr']. apply M_bind_ok. exists (restore <$> fs), (s1', r1).
  split; [|unfold restore_all; by rewrite map_app]. unfold serve. apply M_bind_ok. exists fs, (s1', r). unfold zoom. cbn. by rewrite Hfs, Hr1.
Qed.

End refine.

(** C18: Two caches of the same capacity, one in the front end and one in the engine core: as long as the
    modalities of a request come in the order of its prompt, the engine core restores every item that
    the front end left out, and both caches hold the same keys in the same order. *)
Theorem mm_caches_mirrored {S : Type → Type} `{CachetoolsLaws S} {Item Updates : Type} (item_size : Item → Z) (process : key → Item * Updates)
    (identifier : key → string) (capacity : Z) (fuel : nat) (qs : list MMRequest) fss (s' : LRUCache (S (@ItemMetadata Updates))) :
  Forall ordered qs →
  front_end_all item_size process identifier fuel qs (Sender_init capacity) = (Ok fss, s') →
  ∃ r', serve_all item_size process identifier fuel qs (Sender_init capacity, Receiver_init item_size capacity) =
      (Ok (restore_all process fss), (s', r')) ∧
    ct_order (base r') = ct_order (base s') ∧ ct_currsize (base r') = ct_currsize (base s') ∧ ∀ k, contains k r' = contains k s'.
Proof.
  intros Hqs Hf. destruct (serve_all_in_step item_size process identifier fuel qs [] [] _ fss s' _ Hqs (init_in_step item_size process capacity) eq_refl Hf) as (r' & Hr' & Hm).
  exists r'. split; [exact Hr'|]. split; [apply Hm|]. split; [apply (currsize_mirror _ _ _ _ _ Hm)|]. intros k. apply (contains_mirror _ _ _ k _ _ Hm).
Qed.

(** ** Keys that are touched and not stored *)

Section phantom.
Context {S : Type → Type} `{CachetoolsLaws S} {V : Type}.
Implicit Types (c : LRUCache (S V)) (k : key).

(** The oldest key is not in the cache. *)
Definition phantom k c : Prop := head (ct_order (base c)) = Some k ∧ contains k c = false ∧ pinned_items c = ∅.

Lemma popitem_phantom b k c : phantom k c → popitem b c = (Ok (k, None), c).
Proof.
  intros (Hk & Hc & Hp). unfold popitem, mbind, M_bind. cbn. rewrite Hp. destruct (ct_order (base c)) as [|k' l]; [done|].
  injection Hk as ->. cbn. rewrite decide_True by set_solver. destruct b; cbn; unfold pop, mbind, M_bind; cbn; by rewrite Hc.
Qed.

Lemma make_room_phantom fuel z k c : phantom k c → ct_maxsize (base c) < ct_currsize (base c) + z →
  make_room baseL (popitem false ;; mret tt) fuel z c = (Err OutOfFuel, c).
Proof.
  intros Hk Hz. induction fuel as [|fuel IH]; cbn [make_room]; unfold gets at 1, mbind at 1, M_bind at 1; cbn [lget baseL];
    rewrite (proj2 (Z.leb_gt _ _) Hz); [done|]. rewrite <-IH. unfold mbind, M_bind. by rewrite (popitem_phantom _ _ _ Hk).
Qed.

(** With a phantom first and no room, an item that fits in the empty cache is never stored: the loop of
    evictions does not end. *)
Lemma setitem_phantom fuel k c k' v : phantom k c → contains k' c = false → ct_size (base c) v ≤ ct_maxsize (base c) →
  ct_maxsize (base c) < ct_currsize (base c) + ct_size (base c) v → setitem fuel k' v c = (Err OutOfFuel, c).
Proof.
  intros Hk Hk' Hv Hz. unfold setitem. rewrite ct_setitem_law. cbn [lget baseL]. rewrite (proj2 (Z.ltb_ge _ _) Hv).
  unfold contains in Hk'. rewrite ct_contains_law in Hk'. apply bool_decide_eq_false in Hk'. destruct (ct_data (base c) !! k') as [v'|]; [destruct Hk'; eauto|].
  unfold mbind at 1, M_bind at 1. by rewrite (make_room_phantom fuel _ k).
Qed.

(** And [clear] does not end either. *)
Lemma clear_phantom fuel k c : phantom k c → 0 < ct_len (base c) → clear fuel c = (Err OutOfFuel, c).
Proof.
  intros Hk Hl. assert (clear_loop fuel c = (Err OutOfFuel, c)) as E.
  { induction fuel as [|fuel IH]; cbn [clear_loop]; unfold gets at 1, mbind at 1, M_bind at 1; cbn [id];
      rewrite (proj2 (Z.leb_gt _ _) Hl); [done|]. rewrite <-IH. unfold remove_oldest, mbind, M_bind. cbn.
    rewrite bool_decide_false by lia. by rewrite (popitem_phantom _ _ _ Hk). }
  unfold clear, mbind, M_bind. by rewrite E.
Qed.
End phantom.

(** ** A cache without such keys *)

Lemma filter_to_end k l : filter (λ k', k' ≠ k) (to_end k l) = filter (λ k', k' ≠ k) l.
Proof.
  unfold to_end. rewrite filter_app, (filter_none _ [k]), app_nil_r by set_solver. apply filter_id.
  by intros x [? _]%list_elem_of_filter.
Qed.

Lemma elem_of_to_end k k' l : k' ∈ to_end k l ↔ k' = k ∨ k' ∈ l.
Proof. unfold to_end. rewrite elem_of_app, list_elem_of_filter, list_elem_of_singleton. destruct (decide (k' = k)); naive_solver. Qed.

Lemma total_size_delete (m : gmap key Z) k z : m !! k = Some z → total_size m = z + total_size (delete k m).
Proof. intros Hk. unfold total_size. rewrite (map_fold_delete_L _ _ k z m); [done|intros; lia|done]. Qed.

Lemma total_size_nonneg (m : gmap key Z) : (∀ k z, m !! k = Some z → 0 ≤ z) → 0 ≤ total_size m.
Proof.
  intros Hm. unfold total_size. revert Hm. apply (map_fold_weak_ind (λ r m, (∀ k z, m !! k = Some z → 0 ≤ z) → 0 ≤ r)); [done|].
  intros k z m' r Hk IH Hm. assert (0 ≤ z) by (apply (Hm k); by rewrite lookup_insert_eq). assert (0 ≤ r); [|lia].
  apply IH. intros k' z' Hk'. apply (Hm k'). rewrite lookup_insert_ne; [done|]. by intros ->; rewrite Hk in Hk'.
Qed.

Lemma total_size_insert (m : gmap key Z) k z : total_size (<[k := z]> m) = z + total_size (delete k m).
Proof. rewrite (total_size_delete _ k z) by apply lookup_insert_eq. by rewrite delete_insert_eq. Qed.

Section bounded.
Context {S : Type → Type} `{CachetoolsLaws S} {V : Type}.
Abbreviation Cache := (LRUCache (S V)).
Implicit Types (c : Cache) (k : key).

(** Every key of the order is in the cache, as long as nothing else was touched. *)
Record regular (c : Cache) : Prop := {
  re_order : ∀ k, k ∈ ct_order (base c) ↔ is_Some (ct_data (base c) !! k);
  re_sizes : ∀ v, 0 ≤ ct_size (base c) v
}.

(** What does not change when items are stored and evicted. *)
Record same_bounds (c c' : Cache) : Prop := {
  sm_max : ct_maxsize (base c') = ct_maxsize (base c);
  sm_size : ct_size (base c') = ct_size (base c);
  sm_pinned : pinned_items c' = pinned_items c
}.

Lemma same_bounds_trans c1 c2 c3 : same_bounds c1 c2 → same_bounds c2 c3 → same_bounds c1 c3.
Proof. intros [] []. split; congruence. Qed.

(** The sizes of the pinned items. *)
Definition pinned_part (c : Cache) : gmap key V := filter (λ kv, kv.1 ∈ pinned_items c) (ct_data (base c)).
Definition pinned_size (c : Cache) : Z := total_size (ct_size (base c) <$> pinned_part c).

Lemma pinned_size_nonneg c : regular c → 0 ≤ pinned_size c.
Proof. intros Hc. apply total_size_nonneg. intros k z (v & <- & _)%lookup_fmap_Some. apply (re_sizes c Hc). Qed.

Lemma pinned_lookup c k : k ∈ pinned_items c → pinned_part c !! k = ct_data (base c) !! k.
Proof.
  intros Hk. unfold pinned_part. destruct (ct_data (base c) !! k) as [v|] eqn:E; [by apply map_lookup_filter_Some_2|].
  apply map_lookup_filter_None_2. by left.
Qed.

(** The first key that is not pinned goes. *)
Lemma popitem_regular c i k : regular c → list_find (λ k, k ∉ pinned_items c) (ct_order (base c)) = Some (i, k) →
  ∃ c' v, popitem false c = (Ok (k, v), c') ∧ regular c' ∧ same_bounds c c' ∧ k ∉ pinned_items c ∧ k ∈ ct_order (base c) ∧
    ct_data (base c') = delete k (ct_data (base c)) ∧ ct_order (base c') = filter (λ k', k' ≠ k) (ct_order (base c)).
Proof.
  intros [Hr Hz] Hfind. pose proof Hfind as (Hi & Hnp & _)%list_find_Some. apply list_elem_of_lookup_2 in Hi as Hin.
  pose proof Hin as [v Hv]%Hr. destruct c as [s pn inf last]. cbn in *.
  pose proof (ct_getitem_law k s) as L1. rewrite Hv in L1. destruct L1 as (s1 & E1 & D1 & O1 & M1 & Z1).
  pose proof (ct_getitem_law k s1) as L2. rewrite D1, Hv in L2. destruct L2 as (s2 & E2 & D2 & O2 & M2 & Z2).
  pose proof (ct_delitem_law k s2) as L3. rewrite D2, Hv in L3. destruct L3 as (s3 & E3 & D3 & O3 & M3 & Z3).
  assert (Hord : ct_order s3 = filter (λ k', k' ≠ k) (ct_order s)) by by rewrite O3, O2, O1, !filter_to_end.
  assert (Hdat : ct_data s3 = delete k (ct_data s)) by by rewrite D3.
  exists (mkLRU s3 pn inf last), (Some v). split.
  { unfold popitem, mbind, M_bind. cbn. rewrite Hfind. cbn.
    unfold pop, delitem, getitem, zoom, mbind, M_bind, contains. cbn. rewrite ct_contains_law, Hv. cbn. rewrite E1. cbn.
    rewrite E2. cbn. rewrite E3. cbn. by rewrite bool_decide_false. }
  cbn. rewrite Hord, Hdat. split_and!; try done; [|by split; cbn; congruence]. split; cbn; [|congruence].
  intros k'. rewrite Hord, Hdat, list_elem_of_filter, Hr, lookup_delete_is_Some. naive_solver.
Qed.

(** If all keys are pinned, the pinned items are all there is. *)
Lemma all_pinned c : regular c → list_find (λ k, k ∉ pinned_items c) (ct_order (base c)) = None → ct_currsize (base c) = pinned_size c.
Proof.
  intros Hc Hno%list_find_None. rewrite ct_currsize_law. unfold pinned_size, pinned_part. do 2 f_equal. symmetry. apply map_filter_id.
  intros k v Hk. cbn. rewrite Forall_forall in Hno. apply dec_stable, Hno, (re_order c Hc). by exists v.
Qed.

(** The loop of evictions ends when there is room, at the latest when only pinned items are left. *)
Record room_made (z : Z) (c c' : Cache) : Prop := {
  rm_regular : regular c';
  rm_same : same_bounds c c';
  rm_room : ct_currsize (base c') + z ≤ ct_maxsize (base c');
  rm_sub : ct_data (base c') ⊆ ct_data (base c);
  rm_pinned : pinned_part c' = pinned_part c;
  rm_none : ct_currsize (base c) + z ≤ ct_maxsize (base c) → c' = c
}.

Lemma make_room_regular fuel z c : regular c → (length (ct_order (base c)) ≤ fuel)%nat → pinned_size c + z ≤ ct_maxsize (base c) →
  ∃ c', make_room baseL (popitem false ;; mret tt) fuel z c = (Ok tt, c') ∧ room_made z c c'.
Proof.
  intros Hc. revert fuel. remember (length (ct_order (base c))) as n eqn:Hn. revert c Hc Hn.
  induction (lt_wf n) as [n _ IH]. intros c Hc -> fuel Hfuel Hz.
  destruct (Z.le_gt_cases (ct_currsize (base c) + z) (ct_maxsize (base c))) as [Hle|Hgt].
  { exists c. split; [|by split]. destruct fuel; cbn [make_room]; unfold gets, mbind, M_bind; cbn [lget baseL];
      by rewrite (proj2 (Z.leb_le _ _) Hle). }
  destruct (list_find (λ k, k ∉ pinned_items c) (ct_order (base c))) as [[i k]|] eqn:Hfind; [|apply all_pinned in Hfind; [lia|done]].
  destruct (popitem_regular c i k Hc Hfind) as (c1 & v & E1 & Hc1 & Hs1 & Hnp & Hin & D1 & O1).
  assert (Hlen : (length (ct_order (base c1)) < length (ct_order (base c)))%nat).
  { rewrite O1. apply (length_filter_lt _ _ k Hin). naive_solver. }
  assert (pinned_part c1 = pinned_part c) as Hpp.
  { unfold pinned_part. rewrite D1, (sm_pinned _ _ Hs1). apply map_filter_delete_not. by intros v' _. }
  destruct fuel as [|fuel]; [lia|].
  destruct (IH _ Hlen c1 Hc1 eq_refl fuel) as (c' & E' & [R1 R2 R3 R4 R5 _]); [lia|unfold pinned_size in *; by rewrite Hpp, (sm_size _ _ Hs1), (sm_max _ _ Hs1)|].
  exists c'. split.
  { cbn [make_room]. unfold gets at 1, mbind at 1, M_bind at 1. cbn [lget baseL]. rewrite (proj2 (Z.leb_gt _ _) Hgt).
    unfold mbind, M_bind. by rewrite E1. }
  split; [done|by eapply same_bounds_trans|done| |congruence|lia]. etrans; [exact R4|]. rewrite D1. apply delete_subseteq.
Qed.

Lemma size_bound_nonneg c k : regular c → 0 ≤ total_size (delete k (ct_size (base c) <$> ct_data (base c))).
Proof.
  intros Hc. apply total_size_nonneg. intros k' z [_ Hk]%lookup_delete_Some. apply lookup_fmap_Some in Hk as (v & <- & _). apply (re_sizes c Hc).
Qed.

Lemma currsize_delete c k : ct_currsize (base c) =
  match ct_data (base c) !! k with Some v => ct_size (base c) v | None => 0 end + total_size (delete k (ct_size (base c) <$> ct_data (base c))).
Proof.
  rewrite ct_currsize_law. destruct (ct_data (base c) !! k) as [v|] eqn:Hk.
  - apply total_size_delete. by rewrite lookup_fmap, Hk.
  - by rewrite delete_id by by rewrite lookup_fmap, Hk.
Qed.

Lemma store_regular c k v : regular c → let c' := set_base (ct_store k v (base c)) c in
  regular c' ∧ same_bounds c c' ∧ ct_data (base c') = <[k := v]> (ct_data (base c)) ∧
  ct_currsize (base c') = ct_size (base c) v + total_size (delete k (ct_size (base c) <$> ct_data (base c))).
Proof.
  intros [Hr Hz] c'. destruct (ct_store_law k v (base c)) as (D & O & M & Z). cbn. split_and!; [|by split|done|].
  - split; cbn; [|by rewrite Z]. intros k'. rewrite O, D, elem_of_to_end, lookup_insert_is_Some, Hr.
    destruct (decide (k' = k)); naive_solver.
  - by rewrite ct_currsize_law, D, Z, fmap_insert, total_size_insert.
Qed.

(** A regular cache within its capacity *)
Definition bounded (c : Cache) : Prop := regular c ∧ ct_currsize (base c) ≤ ct_maxsize (base c).

Lemma pin_bounded k c : bounded c → bounded (pin k c).2.
Proof. intros Hc. unfold pin, mbind, M_bind. cbn. destruct (negb _); [done|]. by destruct Hc as [[H1 H2] H3]. Qed.

Lemma init_bounded capacity (getsizeof : V → Z) : 0 ≤ capacity → (∀ v, 0 ≤ getsizeof v) → bounded (LRUCache_init capacity getsizeof).
Proof.
  intros Hcap Hsz. destruct (ct_new_law capacity getsizeof) as (D & O & M & Z). split.
  - split; cbn; [|by rewrite Z]. intros k. rewrite O, D, lookup_empty. split; [set_solver|by intros []].
  - cbn. by rewrite ct_currsize_law, D, fmap_empty, M.
Qed.

(** The eviction before an item is stored. *)
Lemma make_room_for fuel k v c :
  bounded c → pinned_size c + ct_size (base c) v ≤ ct_maxsize (base c) → (length (ct_order (base c)) ≤ fuel)%nat →
  ∃ c1, (if match ct_data (base c) !! k with Some v0 => ct_size (base c) v0 <? ct_size (base c) v | None => true end
      then make_room baseL (popitem false ;; mret tt) fuel (ct_size (base c) v) else mret tt) c = (Ok tt, c1) ∧ regular c1 ∧ same_bounds c c1 ∧
    ct_size (base c) v + total_size (delete k (ct_size (base c1) <$> ct_data (base c1))) ≤ ct_maxsize (base c) ∧
    ct_data (base c1) ⊆ ct_data (base c) ∧ pinned_part c1 = pinned_part c ∧
    (ct_currsize (base c) + ct_size (base c) v ≤ ct_maxsize (base c) → c1 = c).
Proof.
  intros [Hc Hle] Hv Hfuel. destruct (match ct_data (base c) !! k with Some _ => _ | None => _ end) eqn:Ek.
  - destruct (make_room_regular fuel (ct_size (base c) v) c Hc Hfuel Hv) as (c1 & E & [R1 R2 R3 R4 R5 R6]).
    exists c1. split_and!; try done. rewrite (currsize_delete c1 k), (sm_max _ _ R2) in R3.
    enough (0 ≤ match ct_data (base c1) !! k with Some v => ct_size (base c1) v | None => 0 end) by lia.
    destruct (ct_data (base c1) !! k); [apply (re_sizes c1 R1)|done].
  - exists c. split_and!; try done. destruct (ct_data (base c) !! k) as [v0|] eqn:Hk; [|done].
    apply Z.ltb_ge in Ek. pose proof (currsize_delete c k) as Hcs. rewrite Hk in Hcs. lia.
Qed.

(** C22: An item that fits in the cache beside the pinned ones is stored after at most as many
    evictions as there are keys; the cache stays regular and within its capacity, no other item changes,
    no pinned item is evicted, and none at all when there is room. *)
Theorem setitem_stores fuel k v c :
  bounded c → pinned_size c + ct_size (base c) v ≤ ct_maxsize (base c) → (length (ct_order (base c)) ≤ fuel)%nat →
  ∃ c', setitem fuel k v c = (Ok tt, c') ∧ bounded c' ∧ same_bounds c c' ∧ ct_data (base c') !! k = Some v ∧
    delete k (ct_data (base c')) ⊆ delete k (ct_data (base c)) ∧
    (∀ k', k' ∈ pinned_items c → k' ≠ k → ct_data (base c') !! k' = ct_data (base c) !! k') ∧
    (ct_currsize (base c) + ct_size (base c) v ≤ ct_maxsize (base c) → ct_data (base c') = <[k := v]> (ct_data (base c))).
Proof.
  intros Hc Hv Hfuel. pose proof (pinned_size_nonneg c (proj1 Hc)). unfold setitem. rewrite ct_setitem_law. cbn [lget baseL].
  rewrite (proj2 (Z.ltb_ge _ _)) by lia.
  destruct (make_room_for fuel k v c Hc Hv Hfuel) as (c1 & E & Hc1 & Hs & Hroom & Hsub & Hpin & Hsame).
  destruct (store_regular c1 k v Hc1) as (Hr & Hs2 & D & Hcs). exists (set_base (ct_store k v (base c1)) c1). split.
  { apply M_bind_ok. by exists tt, c1. }
  split; [split; [done|rewrite Hcs, (sm_max _ _ Hs2), (sm_max _ _ Hs); by rewrite (sm_size _ _ Hs) in *]|].
  split; [by eapply same_bounds_trans|]. rewrite D. split_and!.
  - apply lookup_insert_eq.
  - rewrite delete_insert_eq. by apply delete_mono.
  - intros k' Hk' Hne. rewrite lookup_insert_ne by done. rewrite <-(pinned_lookup c1), Hpin by by rewrite (sm_pinned _ _ Hs).
    by apply pinned_lookup.
  - by intros ->%Hsame.
Qed.
End bounded.

(** ** A cache as the library documents it *)

Record ListCache (V : Type) := mkLC { lc_max : Z; lc_sizeof : V → Z; lc_data : gmap key V; lc_order : list key }.
Arguments mkLC {V}.
Arguments lc_max {V}.
Arguments lc_sizeof {V}.
Arguments lc_data {V}.
Arguments lc_order {V}.

Section listcache.
Context {V : Type}.
Abbreviation LC := (ListCache V).
Definition lc_update (data : gmap key V) (order : list key) (s : LC) : LC := mkLC (lc_max s) (lc_sizeof s) data order.
Definition lc_currsize (s : LC) : Z := total_size (lc_sizeof s <$> lc_data s).
Definition lc_getitem (k : key) : M LC V := λ s,
  match lc_data s !! k with None => (Err KeyError, s) | Some v => (Ok v, lc_update (lc_data s) (to_end k (lc_order s)) s) end.
Definition lc_delitem (k : key) : M LC unit := λ s,
  match lc_data s !! k with None => (Err KeyError, s) | Some v => (Ok tt, lc_update (delete k (lc_data s)) (filter (λ k', k' ≠ k) (lc_order s)) s) end.
Definition lc_move_to_end (k : key) : M LC unit := λ s,
  if decide (k ∈ lc_order s) then (Ok tt, lc_update (lc_data s) (to_end k (lc_order s)) s) else (Err KeyError, s).
Definition lc_order_add (k : key) (s : LC) : LC := lc_update (lc_data s) (if decide (k ∈ lc_order s) then lc_order s else lc_order s ++ [k]) s.
Definition lc_store (k : key) (v : V) (s : LC) : LC := lc_update (<[k := v]> (lc_data s)) (to_end k (lc_order s)) s.
End listcache.

Fixpoint lc_make_room {V O} (self : lens O (ListCache V)) (popitem : M O unit) (fuel : nat) (size : Z) : M O unit :=
  s ← gets (lget self);
  if lc_currsize s + size <=? lc_max s then mret tt
  else match fuel with O => raise OutOfFuel | S fuel => popitem ;; lc_make_room self popitem fuel size end.

Definition lc_setitem {V O} (self : lens O (ListCache V)) (popitem : M O unit) (fuel : nat) (k : key) (v : V) : M O unit :=
  s ← gets (lget self);
  let z := lc_sizeof s v in
  if lc_max s <? z then raise ValueError
  else (if match lc_data s !! k with Some v0 => lc_sizeof s v0 <? z | None => true end then lc_make_room self popitem fuel z else mret tt) ;;
       modify (λ o, lset self (lc_store k v (lget self o)) o).

#[global] Instance list_cachetools : Cachetools ListCache := {
  ct_new V c size := mkLC c size ∅ [];
  ct_maxsize V := lc_max;
  ct_currsize V := lc_currsize;
  ct_contains V k s := bool_decide (is_Some (lc_data s !! k));
  ct_len V s := Z.of_nat (size (lc_data s));
  ct_getitem V := lc_getitem;
  ct_delitem V := lc_delitem;
  ct_order V := lc_order;
  ct_move_to_end V := lc_move_to_end;
  ct_order_add V := lc_order_add;
  ct_setitem V O := lc_setitem
}.

Lemma lc_make_room_eq {V O} (self : lens O (ListCache V)) popitem fuel z : lc_make_room self popitem fuel z = make_room self popitem fuel z.
Proof. induction fuel as [|fuel IH]; [done|]. cbn [lc_make_room make_room]. by rewrite IH. Qed.

#[global, refine] Instance list_cachetools_laws : CachetoolsLaws ListCache := {
  ct_data V := lc_data;
  ct_size V := lc_sizeof;
  ct_store V := lc_store
}.
Proof.
  - done.
  - done.
  - done.
  - done.
  - intros V k s. cbn. unfold lc_getitem. destruct (lc_data s !! k); [by eexists|done].
  - intros V k s. cbn. unfold lc_delitem. destruct (lc_data s !! k); [by eexists|done].
  - intros V k s. cbn. unfold lc_move_to_end. destruct (decide _); [by eexists|done].
  - intros V k s Hk. cbn in *. unfold to_end. rewrite decide_False by done. split_and!; try done. f_equal. rewrite filter_id; [done|].
    by intros k' Hk' ->.
  - done.
  - intros V O self popitem fuel k v o s z. subst s z. rewrite <-lc_make_room_eq. reflexivity.
Defined.

(** ** Runs *)

(** Items are numbers, their own sizes; a key stands for the item of its length times two. *)
Definition item_of (k : key) : Z * unit := (2 * Z.of_nat (String.length k), tt).
Definition request (l : list (string * list (key * Z))) : MMRequest :=
  mkMMRequest ((λ '(m, xs), (m, xs.*1)) <$> l) ((λ '(_, xs), xs.*2) <$> l).
Definition datas (r : res (list (list (@Feature Z)))) : res (list (list (option Z))) :=
  match r with Ok l => Ok (map (map f_data) l) | Err e => Err e end.
Definition front_run (qs : list MMRequest) := front_end_all (S := ListCache) id item_of id 8 qs (Sender_init 10).
Definition both_run (qs : list MMRequest) := serve_all (S := ListCache) id item_of id 8 qs (Sender_init 10, Receiver_init id 10).

(** A cache of ten bytes with two items, the older one pinned: an item of six bytes evicts the other. *)
Definition two_items : LRUCache (ListCache Z) := ((setitem 0 "abcd" 4 ;; setitem 1 "w" 3) (LRUCache_init 10 Z.abs)).2.
Definition one_pinned : LRUCache (ListCache Z) := (pin "abcd" two_items).2.

Lemma setitem_stores_witness :
  pinned_items one_pinned = {["abcd"%string]} ∧
  ∃ c', setitem 2 "xyz" 6 one_pinned = (Ok tt, c') ∧ bounded c' ∧ lc_data (base c') !! "xyz"%string = Some 6 ∧
    lc_data (base c') !! "abcd"%string = Some 4 ∧ ct_order (base c') = ["abcd"; "xyz"]%string.
Proof.
  split; [by vm_compute|].
  destruct (setitem_stores (S := ListCache) 0 "abcd" 4 (LRUCache_init 10 Z.abs)) as (c1 & E1 & B1 & _);
    [by apply init_bounded; [|apply Z.abs_nonneg]|by vm_compute|by vm_compute; lia|].
  assert (c1 = (setitem 0 "abcd" 4 (LRUCache_init 10 Z.abs)).2) as -> by by rewrite E1.
  destruct (setitem_stores (S := ListCache) 1 "w" 3 _ B1) as (c2 & E2 & B2 & _); [by vm_compute|by vm_compute; lia|].
  assert (two_items = c2) as E3 by by change two_items with (setitem 1 "w" 3 (setitem 0 "abcd" 4 (LRUCache_init 10 Z.abs)).2).2; rewrite E2.
  assert (bounded one_pinned) as B3 by (apply (pin_bounded "abcd" two_items); by rewrite E3).
  destruct (setitem_stores (S := ListCache) 2 "xyz" 6 one_pinned B3) as (c4 & E4 & B4 & _ & D4 & _ & P4 & _); [by vm_compute|by vm_compute; lia|].
  exists c4. split; [done|]. split; [done|]. split; [exact D4|]. split; [etrans; [apply (P4 "abcd"%string); [decide_now|done]|by vm_compute]|].
  assert (c4 = (setitem 2 "xyz" 6 one_pinned).2) as -> by by rewrite E4. by vm_compute.
Defined.

(** A hit, then an eviction, then what was evicted again. *)
Definition five_requests : list MMRequest :=
  [request [("image", [("ab", 5)])]; request [("image", [("xyz", 3)]); ("audio", [("ab", 20)])]; request [("image", [("w", 0)])];
   request [("image", [("ijklm", 2)])]; request [("audio", [("ab", 4)])]]%string.

Lemma mm_caches_mirrored_witness :
  datas (front_run five_requests).1 = Ok [[Some 4]; [Some 6; None]; [Some 2]; [Some 10]; [Some 4]] ∧
  ∃ r', both_run five_requests = (Ok [[mkFeature (Some 4) "ab" (Some "ab") 5]; [mkFeature (Some 6) "xyz" (Some "xyz") 3; mkFeature (Some 4) "ab" (Some "ab") 20];
      [mkFeature (Some 2) "w" (Some "w") 0]; [mkFeature (Some 10) "ijklm" (Some "ijklm") 2]; [mkFeature (Some 4) "ab" (Some "ab") 4]]%string, ((front_run five_requests).2, r')) ∧
    ct_order (base r') = ["ab"%string].
Proof.
  split; [by vm_compute|].
  destruct (mm_caches_mirrored id item_of id 10 8 five_requests (match (front_run five_requests).1 with Ok l => l | Err _ => [] end) (front_run five_requests).2) as (r' & Hr' & Ho & _).
  - repeat constructor; by vm_compute.
  - unfold front_run. by vm_compute.
  - exists r'. split; [exact Hr'|]. rewrite Ho. by vm_compute.
Defined.

(** The items of one request fill the cache and the next one is processed again: with two modalities out
    of the order of the prompt, the front end evicts ["ab"] and the engine core ["xyz"]; the front end
    then leaves out an item that the engine core no longer has. *)
Example mixed_modalities_diverge :
  let qs := [request [("image", [("ab", 9)]); ("audio", [("xyz", 0)])]; request [("image", [("w", 0)])]; request [("audio", [("xyz", 0)])]]%string in
  datas (front_run qs).1 = Ok [[Some 6; Some 4]; [Some 2]; [None]] ∧ (both_run qs).1 = Err AssertionError.
Proof. by vm_compute. Qed.

(** Two new items of one request that do not fit together: the first eviction finds the second key,
    which [touch] put in the order and which is not in the cache, and finds it again for ever. *)
Example second_item_never_stored : ∀ fuel,
  let c := ((touch "abc" ;; touch "xyz" ;; setitem 0 "abc" (metadata id (item_of "abc"))) (Sender_init (S := ListCache) 10)).2 in
  setitem fuel "xyz" (metadata id (item_of "xyz")) c = (Err OutOfFuel, c).
Proof. intros fuel. apply (setitem_phantom fuel "xyz"); by vm_compute. Qed.
