(* ===== verification/ScalarType.v ===== *)
(** * Scalar types

    [vllm/scalar_type.py]: the number formats of quantized weights, their identifiers of 64
    bits, which custom operators receive and look up in a global table, and their least and
    greatest values.  A float is modelled by the 64 bits of its double. *)

From stdpp Require Import base list gmap strings pretty.
From Stdlib Require Import ZArith Lia.
From S2P Require Import Prelude.
Local Open Scope Z_scope.

Inductive NanRepr := NAN_NONE | IEEE_754 | EXTD_RANGE_MAX_MIN.
Definition nan_value (r : NanRepr) : Z := match r with NAN_NONE => 0 | IEEE_754 => 1 | EXTD_RANGE_MAX_MIN => 2 end.

#[export] Instance NanRepr_eq_dec : EqDecision NanRepr.
Proof. solve_decision. Defined.

(** [r == n] of a member of a plain [Enum] and an int: never. *)
Definition enum_eq_int (r : NanRepr) (n : Z) : bool := false.

Record ScalarType := mkScalar {
  exponent : Z;
  mantissa : Z;
  signed : bool;
  bias : Z;
  _finite_values_only : bool;
  nan_repr : NanRepr
}.

#[export] Instance ScalarType_eq_dec : EqDecision ScalarType.
Proof. solve_decision. Defined.

(** ** Queries *)

Definition size_bits (t : ScalarType) : Z := exponent t + mantissa t + Z.b2z (signed t).
Definition is_signed (t : ScalarType) : bool := signed t.
Definition is_floating_point (t : ScalarType) : bool := negb (bool_decide (exponent t = 0)).
Definition is_integer (t : ScalarType) : bool := bool_decide (exponent t = 0).
Definition has_bias (t : ScalarType) : bool := negb (bool_decide (bias t = 0)).
Definition has_infs (t : ScalarType) : bool := negb (_finite_values_only t).
Definition has_nans (t : ScalarType) : bool := negb (enum_eq_int (nan_repr t) (nan_value NAN_NONE)).
Definition is_ieee_754 (t : ScalarType) : bool := enum_eq_int (nan_repr t) (nan_value IEEE_754) && negb (_finite_values_only t).

Definition scalar_str (t : ScalarType) : string :=
  if is_floating_point t then
    let ret := ("float" +:+ pretty (size_bits t) +:+ "_e" +:+ pretty (exponent t) +:+ "m" +:+ pretty (mantissa t))%string in
    if negb (is_ieee_754 t) then
      let ret := if _finite_values_only t then (ret +:+ "f")%string else ret in
      if bool_decide (nan_repr t = NAN_NONE) then ret else (ret +:+ "n")%string
    else ret
  else
    let ret := ((if is_signed t then "int" else "uint") +:+ pretty (size_bits t))%string in
    if has_bias t then (ret +:+ "b" +:+ pretty (bias t))%string else ret.

(** ** Least and greatest values *)

(** [1 << n] *)
Definition shl1 (n : Z) : res Z := if n <? 0 then Err ValueError else Ok (Z.shiftl 1 n).

Definition _floating_point_max_int (t : ScalarType) : res Z :=
  if negb ((mantissa t <=? 52) && (exponent t <=? 11)) then Err AssertionError
  else
    m ← shl1 (mantissa t);
    let max_mantissa := if bool_decide (nan_repr t = EXTD_RANGE_MAX_MIN) then m - 1 - 1 else m - 1 in
    e ← shl1 (exponent t);
    max_exponent ← (if bool_decide (nan_repr t = EXTD_RANGE_MAX_MIN) || bool_decide (nan_repr t = NAN_NONE)
                    then if exponent t <? 11 then Ok (e - 2 + 1) else Err AssertionError
                    else Ok (e - 2));
    h ← shl1 (exponent t - 1);
    let exponent_bias := h - 1 in
    let exponent_bias_double := Z.shiftl 1 10 - 1 in
    let max_exponent_double := max_exponent - exponent_bias + exponent_bias_double in
    Ok (Z.lor (Z.shiftl max_mantissa (52 - mantissa t)) (Z.shiftl max_exponent_double 52)).

(** An int, or the double with the given bits. *)
Inductive scalar_value := IntValue (z : Z) | DoubleBits (bits : Z).

(** [struct.unpack("!d", struct.pack("!Q", bits))], of 64 bits. *)
Definition unpack_double (bits : Z) : res scalar_value :=
  if (0 <=? bits) && (bits <? 2 ^ 64) then Ok (DoubleBits bits) else Err OtherException.

Definition _floating_point_max (t : ScalarType) : res scalar_value := b ← _floating_point_max_int t; unpack_double b.

Definition _raw_max (t : ScalarType) : res scalar_value :=
  if is_floating_point t then _floating_point_max t
  else if (size_bits t <? 64) || bool_decide (size_bits t = 64) && is_signed t then
    m ← shl1 (mantissa t); Ok (IntValue (m - 1))
  else Err AssertionError.

Definition _raw_min (t : ScalarType) : res scalar_value :=
  if is_floating_point t then
    if is_signed t then b ← _floating_point_max_int t; unpack_double (Z.lor b (Z.shiftl 1 63)) else Err AssertionError
  else if negb (is_signed t) || (size_bits t <=? 64) then
    if is_signed t then m ← shl1 (size_bits t - 1); Ok (IntValue (- m)) else Ok (IntValue 0)
  else Err AssertionError.

(** [v - bias]: of an integer, or of a double when there is no bias. *)
Definition minus_bias (v : scalar_value) (b : Z) : option scalar_value :=
  match v with
  | IntValue z => Some (IntValue (z - b))
  | DoubleBits x => if bool_decide (b = 0) then Some (DoubleBits x) else None
  end.
Definition scalar_min (t : ScalarType) : res (option scalar_value) := v ← _raw_min t; Ok (minus_bias v (bias t)).
Definition scalar_max (t : ScalarType) : res (option scalar_value) := v ← _raw_max t; Ok (minus_bias v (bias t)).

(** ** Identifiers *)

(** [or_and_advance] *)
Definition or_and_advance (acc : Z * Z) (field : Z * Z) : Z * Z :=
  let '(val, offset) := acc in
  let '(member, bit_width) := field in
  let bit_mask := Z.shiftl 1 bit_width - 1 in
  (Z.lor val (Z.shiftl (Z.land member bit_mask) offset), offset + bit_width).

Definition id_fields (t : ScalarType) : list (Z * Z) :=
  [(exponent t, 8); (mantissa t, 8); (Z.b2z (signed t), 1); (bias t, 32); (Z.b2z (_finite_values_only t), 1); (nan_value (nan_repr t), 8)].

(** The value of [id]. *)
Definition id_value (t : ScalarType) : Z := (foldl or_and_advance (0, 0) (id_fields t)).1.

(** [_SCALAR_TYPES_ID_MAP] *)
Abbreviation Registry := (gmap Z ScalarType).

(** [id], which enters the type into the table. *)
Definition scalar_id (t : ScalarType) : M Registry Z :=
  assert_ ((foldl or_and_advance (0, 0) (id_fields t)).2 <=? 64) ;;
  modify (<[id_value t := t]>) ;;
  mret (id_value t).

Definition from_id (i : Z) : M Registry ScalarType :=
  found ← gets (λ r, r !! i);
  lift_opt ValueError found.

(** ** Constructors *)

(** [bias if bias else 0] *)
Definition int_ (size : Z) (b : option Z) : M Registry ScalarType :=
  let ret := mkScalar 0 (size - 1) true (default 0 b) false IEEE_754 in
  scalar_id ret ;; mret ret.
Definition uint (size : Z) (b : option Z) : M Registry ScalarType :=
  let ret := mkScalar 0 size false (default 0 b) false IEEE_754 in
  scalar_id ret ;; mret ret.
Definition float_IEEE754 (e m : Z) : M Registry ScalarType :=
  assert_ ((0 <? m) && (0 <? e)) ;;
  let ret := mkScalar e m true 0 false IEEE_754 in
  scalar_id ret ;; mret ret.
Definition float_ (e m : Z) (finite_values_only : bool) (r : NanRepr) : M Registry ScalarType :=
  assert_ ((0 <? m) && (0 <? e)) ;;
  assert_ (negb (bool_decide (r = IEEE_754))) ;;
  let ret := mkScalar e m true 0 finite_values_only r in
  scalar_id ret ;; mret ret.

(** [scalar_types] *)
Definition int4 := int_ 4 None.
Definition uint4 := uint 4 None.
Definition int8 := int_ 8 None.
Definition uint8 := uint 8 None.
Definition float8_e4m3fn := float_ 4 3 true EXTD_RANGE_MAX_MIN.
Definition float8_e5m2 := float_IEEE754 5 2.
Definition float8_e8m0fnu : M Registry ScalarType := mret (mkScalar 8 0 false 0 true EXTD_RANGE_MAX_MIN).
Definition float16_e8m7 := float_IEEE754 8 7.
Definition float16_e5m10 := float_IEEE754 5 10.
Definition float6_e3m2f := float_ 3 2 true NAN_NONE.
Definition float6_e2m3f := float_ 2 3 true NAN_NONE.
Definition float4_e2m1f := float_ 2 1 true NAN_NONE.
Definition uint2b2 := uint 2 (Some 2).
Definition uint3b4 := uint 3 (Some 4).
Definition uint4b8 := uint 4 (Some 8).
Definition uint8b128 := uint 8 (Some 128).

(** ** The layout of an identifier *)

(** The fields of a type fit their widths. *)
Definition fits (t : ScalarType) : Prop := 0 ≤ exponent t < 2 ^ 8 ∧ 0 ≤ mantissa t < 2 ^ 8 ∧ - 2 ^ 31 ≤ bias t < 2 ^ 31.

(** A type read back from its identifier. *)
Definition decode_nan (n : Z) : NanRepr := if n =? 0 then NAN_NONE else if n =? 1 then IEEE_754 else EXTD_RANGE_MAX_MIN.
Definition decode_id (i : Z) : ScalarType :=
  mkScalar (i mod 2 ^ 8) (i / 2 ^ 8 mod 2 ^ 8) (Z.odd (i / 2 ^ 16))
    ((i / 2 ^ 17 + 2 ^ 31) mod 2 ^ 32 - 2 ^ 31) (Z.odd (i / 2 ^ 49)) (decode_nan (i / 2 ^ 50)).

Lemma lor_shiftl a b k : 0 ≤ k → 0 ≤ a < 2 ^ k → Z.lor a (Z.shiftl b k) = a + b * 2 ^ k.
Proof.
  intros Hk Ha. rewrite <-Z.shiftl_mul_pow2 by done.
  assert (Z.land a (Z.shiftl b k) = 0) as E.
  { apply Z.bits_inj'. intros n Hn. rewrite Z.land_spec, Z.bits_0. destruct (Z.lt_ge_cases n k) as [Hlt|Hge].
    - rewrite Z.shiftl_spec_low by done. apply andb_false_r.
    - destruct (decide (a = 0)) as [->|Ha0]; [by rewrite Z.testbit_0_l|]. rewrite Z.bits_above_log2; [done|lia|].
      apply Z.log2_lt_pow2; [lia|]. pose proof (Z.pow_le_mono_r 2 k n ltac:(lia) Hge). lia. }
  rewrite Z.add_nocarry_lxor by done. by rewrite Z.lxor_lor.
Qed.

Lemma land_mask a k : 0 ≤ k → Z.land a (Z.shiftl 1 k - 1) = a mod 2 ^ k.
Proof. intros Hk. rewrite Z.shiftl_1_l, Z.sub_1_r, <-Z.ones_equiv. by apply Z.land_ones. Qed.

Lemma or_and_advance_spec val offset member width :
  0 ≤ offset → 0 ≤ width → 0 ≤ val < 2 ^ offset →
  or_and_advance (val, offset) (member, width) = (val + (member mod 2 ^ width) * 2 ^ offset, offset + width) ∧
  0 ≤ val + (member mod 2 ^ width) * 2 ^ offset < 2 ^ (offset + width).
Proof.
  intros Ho Hw Hv. unfold or_and_advance. rewrite land_mask, lor_shiftl by done. split; [done|].
  pose proof (Z.mod_pos_bound member (2 ^ width) ltac:(apply Z.pow_pos_nonneg; lia)). rewrite Z.pow_add_r by done.
  assert (0 < 2 ^ offset) by (apply Z.pow_pos_nonneg; lia). nia.
Qed.

Lemma id_layout t :
  foldl or_and_advance (0, 0) (id_fields t) =
    (exponent t mod 2 ^ 8 + mantissa t mod 2 ^ 8 * 2 ^ 8 + Z.b2z (signed t) * 2 ^ 16 + bias t mod 2 ^ 32 * 2 ^ 17 +
       Z.b2z (_finite_values_only t) * 2 ^ 49 + nan_value (nan_repr t) * 2 ^ 50, 58).
Proof.
  unfold id_fields. cbn [foldl].
  destruct (or_and_advance_spec 0 0 (exponent t) 8) as [-> B1]; [lia..|].
  destruct (or_and_advance_spec _ (0 + 8) (mantissa t) 8 ltac:(lia) ltac:(lia) B1) as [-> B2].
  destruct (or_and_advance_spec _ (0 + 8 + 8) (Z.b2z (signed t)) 1 ltac:(lia) ltac:(lia) B2) as [-> B3].
  destruct (or_and_advance_spec _ (0 + 8 + 8 + 1) (bias t) 32 ltac:(lia) ltac:(lia) B3) as [-> B4].
  destruct (or_and_advance_spec _ (0 + 8 + 8 + 1 + 32) (Z.b2z (_finite_values_only t)) 1 ltac:(lia) ltac:(lia) B4) as [-> B5].
  destruct (or_and_advance_spec _ (0 + 8 + 8 + 1 + 32 + 1) (nan_value (nan_repr t)) 8 ltac:(lia) ltac:(lia) B5) as [-> B6].
  f_equal. assert (∀ b, Z.b2z b mod 2 ^ 1 = Z.b2z b) as Hb by (by intros []). rewrite !Hb.
  assert (nan_value (nan_repr t) mod 2 ^ 8 = nan_value (nan_repr t)) as -> by by destruct (nan_repr t). cbn -[Z.pow Z.modulo]. lia.
Qed.

Lemma id_range t : 0 ≤ id_value t < 2 ^ 58.
Proof.
  unfold id_value. rewrite id_layout. cbn [fst].
  pose proof (Z.mod_pos_bound (exponent t) (2 ^ 8) eq_refl). pose proof (Z.mod_pos_bound (mantissa t) (2 ^ 8) eq_refl).
  pose proof (Z.mod_pos_bound (bias t) (2 ^ 32) eq_refl). destruct (signed t), (_finite_values_only t), (nan_repr t); cbn [Z.b2z nan_value]; lia.
Qed.

Lemma decode_id_value t : fits t → decode_id (id_value t) = t.
Proof.
  intros (He & Hm & Hb). unfold decode_id, id_value. rewrite id_layout. cbn [fst]. destruct t as [e m s b f r]. cbn [exponent mantissa signed bias _finite_values_only nan_repr] in *.
  rewrite !(Z.mod_small e), !(Z.mod_small m) by lia. set (B := b mod 2 ^ 32).
  assert (0 ≤ B < 2 ^ 32) as HB by by apply Z.mod_pos_bound.
  assert ((B + 2 ^ 31) mod 2 ^ 32 - 2 ^ 31 = b) as Eb by (unfold B; rewrite Zplus_mod_idemp_l, Z.mod_small; lia).
  set (S := Z.b2z s). set (F := Z.b2z f). set (N := nan_value r).
  assert (0 ≤ S ≤ 1 ∧ 0 ≤ F ≤ 1 ∧ 0 ≤ N ≤ 2) as (HS & HF & HN) by (unfold S, F, N; destruct s, f, r; cbn; lia).
  set (i := e + m * 2 ^ 8 + S * 2 ^ 16 + B * 2 ^ 17 + F * 2 ^ 49 + N * 2 ^ 50).
  f_equal.
  - symmetry. apply (Z.mod_unique_pos _ _ (m + S * 2 ^ 8 + B * 2 ^ 9 + F * 2 ^ 41 + N * 2 ^ 42)); unfold i; lia.
  - assert (i / 2 ^ 8 = m + S * 2 ^ 8 + B * 2 ^ 9 + F * 2 ^ 41 + N * 2 ^ 42) as -> by (symmetry; apply (Z.div_unique_pos _ _ _ e); unfold i; lia).
    symmetry. apply (Z.mod_unique_pos _ _ (S + B * 2 + F * 2 ^ 33 + N * 2 ^ 34)); lia.
  - assert (i / 2 ^ 16 = S + 2 * (B + F * 2 ^ 32 + N * 2 ^ 33)) as -> by (symmetry; apply (Z.div_unique_pos _ _ _ (e + m * 2 ^ 8)); unfold i; lia).
    rewrite Z.odd_add_mul_2. unfold S. by destruct s.
  - assert (i / 2 ^ 17 = B + (F + N * 2) * 2 ^ 32) as -> by (symmetry; apply (Z.div_unique_pos _ _ _ (e + m * 2 ^ 8 + S * 2 ^ 16)); unfold i; lia).
    rewrite <-Z.add_assoc, (Z.add_comm (_ * _)), Z.add_assoc, Z.mod_add by lia. exact Eb.
  - assert (i / 2 ^ 49 = F + 2 * N) as -> by (symmetry; apply (Z.div_unique_pos _ _ _ (e + m * 2 ^ 8 + S * 2 ^ 16 + B * 2 ^ 17)); unfold i; lia).
    rewrite Z.odd_add_mul_2. unfold F. by destruct f.
  - assert (i / 2 ^ 50 = N) as -> by (symmetry; apply (Z.div_unique_pos _ _ _ (e + m * 2 ^ 8 + S * 2 ^ 16 + B * 2 ^ 17 + F * 2 ^ 49)); unfold i; lia).
    unfold N. by destruct r.
Qed.

Lemma id_value_inj t t' : fits t → fits t' → id_value t = id_value t' → t = t'.
Proof. intros Ht Ht' E. by rewrite <-(decode_id_value t Ht), E, decode_id_value. Qed.

(** ** The table *)

Inductive scalar_call :=
  | MakeInt (size : Z) (b : option Z)
  | MakeUint (size : Z) (b : option Z)
  | MakeIEEE (e m : Z)
  | MakeFloat (e m : Z) (finite_values_only : bool) (r : NanRepr).

Definition do_scalar (c : scalar_call) : M Registry ScalarType :=
  match c with
  | MakeInt size b => int_ size b
  | MakeUint size b => uint size b
  | MakeIEEE e m => float_IEEE754 e m
  | MakeFloat e m f r => float_ e m f r
  end.

(** The sizes a constructor is given fit the identifier. *)
Definition call_fits (c : scalar_call) : Prop :=
  match c with
  | MakeInt size b => 1 ≤ size ≤ 2 ^ 8 ∧ - 2 ^ 31 ≤ default 0 b < 2 ^ 31
  | MakeUint size b => 0 ≤ size < 2 ^ 8 ∧ - 2 ^ 31 ≤ default 0 b < 2 ^ 31
  | MakeIEEE e m | MakeFloat e m _ _ => e < 2 ^ 8 ∧ m < 2 ^ 8
  end.

(** The types that a run of constructor calls has returned. *)
Fixpoint run_scalar (cs : list scalar_call) (r : Registry) : list ScalarType * Registry :=
  match cs with
  | [] => ([], r)
  | c :: rest =>
      let '(x, r) := do_scalar c r in
      let '(l, r) := run_scalar rest r in
      (match x with Ok t => t :: l | Err _ => l end, r)
  end.

(** The table has the types [made], each under its identifier. *)
Definition registry_ok (made : list ScalarType) (r : Registry) : Prop :=
  (∀ t, t ∈ made → fits t) ∧ ∀ i t, r !! i = Some t ↔ t ∈ made ∧ id_value t = i.

Lemma scalar_id_ok made r t :
  registry_ok made r → fits t → scalar_id t r = (Ok (id_value t), <[id_value t := t]> r) ∧ registry_ok (made ++ [t]) (<[id_value t := t]> r).
Proof.
  intros [Hf Hr] Ht. split.
  - unfold scalar_id. rewrite id_layout. done.
  - split; [intros x [Hx|Hx]%elem_of_app; [by apply Hf|apply list_elem_of_singleton in Hx as ->; done]|].
    intros i x. rewrite elem_of_app, list_elem_of_singleton. destruct (decide (i = id_value t)) as [->|Hi].
    + rewrite lookup_insert_eq. split; [intros [= <-]; split; [by right|done]|]. intros [[Hx|Hx] E]; [|by rewrite Hx].
      f_equal. symmetry. apply id_value_inj; [by apply Hf|done|done].
    + rewrite lookup_insert_ne by done. rewrite Hr. split; [intros [? ?]; split; [by left|done]|]. intros [[?|Hx] ?]; [done|]. by subst x.
Qed.

Lemma do_scalar_ok made r c :
  registry_ok made r → call_fits c →
  match do_scalar c r with
  | (Ok t, r') => registry_ok (made ++ [t]) r'
  | (Err _, r') => r' = r
  end.
Proof.
  intros Hr Hc.
  assert (∀ t, fits t → match (scalar_id t ;; mret t) r with (Ok t', r') => registry_ok (made ++ [t']) r' | (Err _, r') => r' = r end) as Hmake.
  { intros t Ht. destruct (scalar_id_ok made r t Hr Ht) as [E Hr']. unfold mbind, M_bind. by rewrite E. }
  destruct c as [size b|size b|e m|e m f nr]; cbn in Hc; cbn [do_scalar]; unfold int_, uint, float_IEEE754, float_.
  - apply Hmake. split; cbn; lia.
  - apply Hmake. split; cbn; lia.
  - unfold assert_. destruct ((0 <? m) && (0 <? e)) eqn:E; [|done]. apply andb_true_iff in E as [E1%Z.ltb_lt E2%Z.ltb_lt].
    apply (Hmake (mkScalar e m true 0 false IEEE_754)). split; cbn; lia.
  - unfold assert_. destruct ((0 <? m) && (0 <? e)) eqn:E; [|done]. apply andb_true_iff in E as [E1%Z.ltb_lt E2%Z.ltb_lt].
    destruct (bool_decide (nr = IEEE_754)); [done|]. apply (Hmake (mkScalar e m true 0 f nr)). split; cbn; lia.
Qed.

Lemma run_scalar_ok made r cs :
  registry_ok made r → Forall call_fits cs → registry_ok (made ++ (run_scalar cs r).1) (run_scalar cs r).2.
Proof.
  intros Hr Hcs. revert made r Hr. induction Hcs as [|c cs Hc _ IH]; intros made r Hr; cbn [run_scalar].
  { cbn. by rewrite app_nil_r. }
  pose proof (do_scalar_ok made r c Hr Hc) as H1. destruct (do_scalar c r) as [[t|e] r'].
  - specialize (IH _ _ H1). destruct (run_scalar cs r') as [l r'']. cbn in *. by rewrite <-app_assoc in IH.
  - subst r'. specialize (IH _ _ Hr). by destruct (run_scalar cs r) as [l r''].
Qed.

(** ** Ranges *)

(** The values an integer type stores. *)
Definition stored (t : ScalarType) (z : Z) : Prop :=
  if signed t then - 2 ^ mantissa t ≤ z < 2 ^ mantissa t else 0 ≤ z < 2 ^ mantissa t.

Lemma shl1_ok n : 0 ≤ n → shl1 n = Ok (2 ^ n).
Proof. intros Hn. unfold shl1. destruct (Z.ltb_spec n 0); [lia|]. by rewrite Z.shiftl_1_l. Qed.

Lemma int_range t :
  exponent t = 0 → 0 ≤ mantissa t → size_bits t < 64 ∨ (size_bits t = 64 ∧ signed t = true) →
  ∃ lo hi, scalar_min t = Ok (Some (IntValue lo)) ∧ scalar_max t = Ok (Some (IntValue hi)) ∧
    ∀ v, lo ≤ v ≤ hi ↔ ∃ z, stored t z ∧ v = z - bias t.
Proof.
  intros He Hm Hs. unfold scalar_min, scalar_max, _raw_min, _raw_max, is_floating_point, is_signed. rewrite bool_decide_eq_true_2 by done. cbn [negb].
  assert (size_bits t <=? 64 = true) as -> by (apply Z.leb_le; lia).
  assert ((size_bits t <? 64) || bool_decide (size_bits t = 64) && signed t = true) as ->.
  { destruct Hs as [Hs|[Hs ->]]; [apply orb_true_iff; left; by apply Z.ltb_lt|]. rewrite bool_decide_eq_true_2 by done. apply orb_true_r. }
  rewrite orb_true_r, (shl1_ok (mantissa t)) by done. unfold stored. assert (0 < 2 ^ mantissa t) by (apply Z.pow_pos_nonneg; lia).
  destruct (signed t) eqn:Esig; cbn [mbind res_bind].
  - unfold size_bits. rewrite He, Esig. cbn [Z.b2z]. rewrite shl1_ok by lia. cbn [mbind res_bind minus_bias].
    replace (0 + mantissa t + 1 - 1) with (mantissa t) by lia. eexists _, _. split; [reflexivity|]. split; [reflexivity|].
    intros v. split; [intros Hv; exists (v + bias t); lia|intros (z & Hz & ->); lia].
  - eexists _, _. split; [reflexivity|]. split; [reflexivity|]. intros v. split; [intros Hv; exists (v + bias t); lia|intros (z & Hz & ->); lia].
Qed.

(** The patterns of a floating point type that are finite numbers, by exponent and mantissa
    field: with infinities as in IEEE 754, with one NaN of all ones, or all of them. *)
Definition finite_pattern (t : ScalarType) (E M : Z) : Prop :=
  0 ≤ E < 2 ^ exponent t ∧ 0 ≤ M < 2 ^ mantissa t ∧
  match nan_repr t with
  | IEEE_754 => E ≠ 2 ^ exponent t - 1
  | EXTD_RANGE_MAX_MIN => ¬ (E = 2 ^ exponent t - 1 ∧ M = 2 ^ mantissa t - 1)
  | NAN_NONE => True
  end.

(** The value of a pattern of [w] bits of mantissa, its exponent counted from [k]: the lowest
    exponent is that of the subnormal numbers. *)
Definition pattern_value (w k E M : Z) : Z := (if E =? 0 then M else 2 ^ w + M) * 2 ^ (Z.max E 1 + k).

(** The magnitude of a pattern, and of the double with the given bits, times [2 ^ 1074]. *)
Definition scaled (t : ScalarType) (E M : Z) : Z :=
  pattern_value (mantissa t) (1074 - (2 ^ (exponent t - 1) - 1) - mantissa t) E M.
Definition double_scaled (bits : Z) : Z := pattern_value 52 (-1) (bits / 2 ^ 52 mod 2 ^ 11) (bits mod 2 ^ 52).

Lemma pattern_value_mono w k E M E' M' :
  0 ≤ w → 0 ≤ 1 + k → 0 ≤ E → 0 ≤ M < 2 ^ w → 0 ≤ M' → E < E' ∨ (E = E' ∧ M ≤ M') →
  pattern_value w k E M ≤ pattern_value w k E' M'.
Proof.
  intros Hw Hk HE HM HM' [Hlt|[<- Hle]]; unfold pattern_value.
  - destruct (Z.eqb_spec E' 0); [lia|]. assert (0 < 2 ^ w) by (apply Z.pow_pos_nonneg; lia).
    destruct (Z.eqb_spec E 0) as [->|HE0].
    + assert (2 ^ (Z.max 0 1 + k) ≤ 2 ^ (Z.max E' 1 + k)) by (apply Z.pow_le_mono_r; lia).
      assert (0 < 2 ^ (Z.max 0 1 + k)) by (apply Z.pow_pos_nonneg; lia). nia.
    + assert (2 * 2 ^ (Z.max E 1 + k) ≤ 2 ^ (Z.max E' 1 + k)) by (rewrite <-Z.pow_succ_r by lia; apply Z.pow_le_mono_r; lia).
      assert (0 < 2 ^ (Z.max E 1 + k)) by (apply Z.pow_pos_nonneg; lia). nia.
  - assert (0 < 2 ^ (Z.max E 1 + k)) by (apply Z.pow_pos_nonneg; lia). destruct (E =? 0); nia.
Qed.

(** Widening the mantissa to that of a double keeps the value of a normal number. *)
Lemma widen_value w k E M D :
  0 ≤ w ≤ 52 → 1 ≤ E → 1 ≤ D → 0 ≤ E + k → D - 1 + (52 - w) = E + k →
  pattern_value 52 (-1) D (M * 2 ^ (52 - w)) = pattern_value w k E M.
Proof.
  intros Hw HE HD Hk Heq. unfold pattern_value. destruct (Z.eqb_spec D 0); [lia|]. destruct (Z.eqb_spec E 0); [lia|].
  rewrite !Z.max_l by lia. rewrite <-Heq. replace (2 ^ 52) with (2 ^ w * 2 ^ (52 - w)) by (rewrite <-Z.pow_add_r by lia; f_equal; lia).
  rewrite <-Z.mul_add_distr_r, <-Z.mul_assoc, <-Z.pow_add_r by lia. do 2 f_equal. lia.
Qed.

(** The floating point types whose greatest value the code knows. *)
Definition known_float (t : ScalarType) : Prop :=
  signed t = true ∧ bias t = 0 ∧ 2 ≤ exponent t ≤ 11 ∧ 1 ≤ mantissa t ≤ 52 ∧
  if bool_decide (nan_repr t = IEEE_754) then _finite_values_only t = false else _finite_values_only t = true ∧ exponent t < 11.

(** The greatest finite pattern. *)
Definition top_exponent (t : ScalarType) : Z := if bool_decide (nan_repr t = IEEE_754) then 2 ^ exponent t - 2 else 2 ^ exponent t - 1.
Definition top_mantissa (t : ScalarType) : Z := if bool_decide (nan_repr t = EXTD_RANGE_MAX_MIN) then 2 ^ mantissa t - 2 else 2 ^ mantissa t - 1.

Lemma top_pattern t :
  known_float t →
  finite_pattern t (top_exponent t) (top_mantissa t) ∧ 1 ≤ top_exponent t ∧
  ∀ E M, finite_pattern t E M → E < top_exponent t ∨ (E = top_exponent t ∧ M ≤ top_mantissa t).
Proof.
  intros (_ & _ & He & Hm & _).
  assert (2 ^ 2 ≤ 2 ^ exponent t) by (apply Z.pow_le_mono_r; lia). assert (2 ^ 1 ≤ 2 ^ mantissa t) by (apply Z.pow_le_mono_r; lia).
  unfold finite_pattern, top_exponent, top_mantissa. destruct (nan_repr t); cbn [bool_decide decide decide_rel NanRepr_eq_dec NanRepr_rec NanRepr_rect];
    repeat case_bool_decide; try done; split_and!; try lia; intros E M; lia.
Qed.

Lemma max_int_spec t :
  known_float t →
  let D := top_exponent t - (2 ^ (exponent t - 1) - 1) + 1023 in
  _floating_point_max_int t = Ok (top_mantissa t * 2 ^ (52 - mantissa t) + D * 2 ^ 52) ∧
  1 ≤ D < 2 ^ 11 - 1 ∧ 0 ≤ top_mantissa t * 2 ^ (52 - mantissa t) < 2 ^ 52.
Proof.
  intros Hk. pose proof (top_pattern t Hk) as ((_ & Htm & _) & _ & _). destruct Hk as (Hs & Hb & He & Hm & Hn). cbn zeta.
  assert (2 ^ exponent t = 2 * 2 ^ (exponent t - 1)) as E2 by (rewrite <-Z.pow_succ_r by lia; f_equal; lia).
  assert (2 ^ 1 ≤ 2 ^ (exponent t - 1)) by (apply Z.pow_le_mono_r; lia).
  assert (2 ^ (exponent t - 1) ≤ 2 ^ 10) by (apply Z.pow_le_mono_r; lia).
  assert (0 ≤ top_mantissa t * 2 ^ (52 - mantissa t) < 2 ^ 52) as Hman.
  { assert (2 ^ 52 = 2 ^ mantissa t * 2 ^ (52 - mantissa t)) as -> by (rewrite <-Z.pow_add_r by lia; f_equal; lia).
    assert (0 < 2 ^ (52 - mantissa t)) by (apply Z.pow_pos_nonneg; lia). nia. }
  assert (nan_repr t ≠ IEEE_754 → 2 ^ (exponent t - 1) ≤ 2 ^ 9) as H9.
  { intros Hne. rewrite bool_decide_eq_false_2 in Hn by done. apply Z.pow_le_mono_r; lia. }
  split; [|split; [|exact Hman]].
  - unfold _floating_point_max_int. assert ((mantissa t <=? 52) && (exponent t <=? 11) = true) as -> by (apply andb_true_iff; lia).
    cbn [negb]. rewrite (shl1_ok (mantissa t)), (shl1_ok (exponent t)), (shl1_ok (exponent t - 1)) by lia. cbn [mbind res_bind].
    set (mm := if bool_decide (nan_repr t = EXTD_RANGE_MAX_MIN) then _ else _).
    assert (mm = top_mantissa t) as -> by (unfold mm, top_mantissa; destruct (bool_decide (nan_repr t = EXTD_RANGE_MAX_MIN)); lia).
    set (me := if _ || _ then _ else _). assert (me = Ok (top_exponent t)) as ->.
    { unfold me, top_exponent. clear -Hn. destruct (nan_repr t), (Z.ltb_spec (exponent t) 11);
        repeat case_bool_decide; try done; cbn -[Z.pow] in *; first [f_equal; lia|lia]. }
    cbn [mbind res_bind]. f_equal. change (Z.shiftl 1 10 - 1) with 1023. rewrite (Z.shiftl_mul_pow2 (top_mantissa t)) by lia.
    rewrite lor_shiftl by done. done.
  - unfold top_exponent. case_bool_decide; [lia|]. specialize (H9 ltac:(done)). lia.
Qed.

Lemma double_scaled_fields D X : 0 ≤ D < 2 ^ 11 → 0 ≤ X < 2 ^ 52 → double_scaled (X + D * 2 ^ 52) = pattern_value 52 (-1) D X.
Proof. intros HD HX. unfold double_scaled. rewrite Z.div_add, Z.mod_add, Z.div_small, (Z.mod_small X), Z.add_0_l, Z.mod_small by lia. done. Qed.

Lemma float_range t :
  known_float t →
  ∃ bits, scalar_max t = Ok (Some (DoubleBits bits)) ∧ scalar_min t = Ok (Some (DoubleBits (bits + 2 ^ 63))) ∧
    0 ≤ bits < 2047 * 2 ^ 52 ∧
    (∃ E M, finite_pattern t E M ∧ scaled t E M = double_scaled bits) ∧
    ∀ E M, finite_pattern t E M → scaled t E M ≤ double_scaled bits.
Proof.
  intros Hk. pose proof (max_int_spec t Hk) as (Emax & HD & HX). pose proof (top_pattern t Hk) as (Htop & Hte & Hall).
  destruct Hk as (Hs & Hb & He & Hm & Hn).
  set (D := top_exponent t - (2 ^ (exponent t - 1) - 1) + 1023) in *. set (X := top_mantissa t * 2 ^ (52 - mantissa t)) in *.
  exists (X + D * 2 ^ 52). unfold scalar_max, scalar_min, _raw_max, _raw_min, _floating_point_max, is_floating_point, is_signed.
  rewrite bool_decide_eq_false_2 by lia. cbn [negb]. rewrite Hs, Emax, Hb. cbn [mbind res_bind].
  assert (2 ^ (exponent t - 1) ≤ 2 ^ 10) as H10 by (apply Z.pow_le_mono_r; lia).
  assert (double_scaled (X + D * 2 ^ 52) = scaled t (top_exponent t) (top_mantissa t)) as Ed.
  { rewrite double_scaled_fields by lia. unfold X, scaled. apply widen_value; unfold D; lia. }
  rewrite lor_shiftl by lia. unfold unpack_double.
  assert ((0 <=? X + D * 2 ^ 52) && (X + D * 2 ^ 52 <? 2 ^ 64) = true) as -> by (apply andb_true_iff; lia).
  assert ((0 <=? X + D * 2 ^ 52 + 1 * 2 ^ 63) && (X + D * 2 ^ 52 + 1 * 2 ^ 63 <? 2 ^ 64) = true) as -> by (apply andb_true_iff; lia).
  cbn [mbind res_bind minus_bias]. rewrite bool_decide_eq_true_2 by done. split_and!; [done|done|lia|lia|by eauto|].
  intros E M HEM. rewrite Ed. destruct HEM as (HE & HM & HEM). apply pattern_value_mono; [lia|lia|lia|done|destruct Htop; lia|]. by apply Hall.
Qed.

(** ** Properties *)

(** C39: after any sequence of constructor calls, failed ones included, whose sizes fit the
    identifier, the table takes the identifier of every type that was returned back to that type,
    rejects every other identifier, and different types have different identifiers of at most 58
    bits, whose fields are the fields of the type. *)
Theorem scalar_ids_correct cs :
  Forall call_fits cs →
  let '(made, r) := run_scalar cs ∅ in
  (∀ t, t ∈ made → fits t ∧ 0 ≤ id_value t < 2 ^ 58 ∧ decode_id (id_value t) = t ∧ from_id (id_value t) r = (Ok t, r)) ∧
  (∀ t t', t ∈ made → t' ∈ made → id_value t = id_value t' → t = t') ∧
  (∀ i, (∀ t, t ∈ made → id_value t ≠ i) → from_id i r = (Err ValueError, r)).
Proof.
  intros Hcs. pose proof (run_scalar_ok [] ∅ cs) as H. destruct (run_scalar cs ∅) as [made r]. cbn in H.
  destruct H as [Hf Hr]; [|done|].
  { split; [by intros t ?%elem_of_nil|]. intros i t. rewrite lookup_empty. split; [done|]. by intros [?%elem_of_nil _]. }
  split_and!.
  - intros t Ht. split_and!; [by apply Hf|apply id_range|apply id_range|by apply decode_id_value, Hf|].
    unfold from_id, mbind, M_bind, gets, lift_opt. by rewrite (proj2 (Hr _ t) (conj Ht eq_refl)).
  - intros t t' Ht Ht'. by apply id_value_inj; apply Hf.
  - intros i Hi. unfold from_id, mbind, M_bind, gets, lift_opt. destruct (r !! i) as [t|] eqn:E; [|done].
    apply Hr in E as [Ht E]. by destruct (Hi t Ht).
Qed.

(** The least and greatest values of an integer type, with its bias, are exactly the ends of
    the range of what it stores less the bias; those of a signed floating point type, whether it has
    infinities, one NaN or neither, are the two doubles of opposite sign whose magnitude is the
    greatest of the magnitudes of its finite patterns. *)
Theorem scalar_range_correct t :
  (exponent t = 0 → 0 ≤ mantissa t → size_bits t < 64 ∨ (size_bits t = 64 ∧ signed t = true) →
   ∃ lo hi, scalar_min t = Ok (Some (IntValue lo)) ∧ scalar_max t = Ok (Some (IntValue hi)) ∧
     ∀ v, lo ≤ v ≤ hi ↔ ∃ z, stored t z ∧ v = z - bias t) ∧
  (known_float t →
   ∃ bits, scalar_max t = Ok (Some (DoubleBits bits)) ∧ scalar_min t = Ok (Some (DoubleBits (bits + 2 ^ 63))) ∧
     0 ≤ bits < 2047 * 2 ^ 52 ∧
     (∃ E M, finite_pattern t E M ∧ scaled t E M = double_scaled bits) ∧
     ∀ E M, finite_pattern t E M → scaled t E M ≤ double_scaled bits).
Proof. split; [apply int_range|apply float_range]. Qed.

(** ** Witnesses *)

Definition the_calls : list scalar_call :=
  [MakeInt 4 None; MakeUint 4 None; MakeInt 8 None; MakeUint 8 None; MakeFloat 4 3 true EXTD_RANGE_MAX_MIN; MakeIEEE 5 2;
   MakeIEEE 8 7; MakeIEEE 5 10; MakeFloat 3 2 true NAN_NONE; MakeFloat 2 3 true NAN_NONE; MakeFloat 2 1 true NAN_NONE;
   MakeUint 2 (Some 2); MakeUint 3 (Some 4); MakeUint 4 (Some 8); MakeUint 8 (Some 128); MakeFloat 4 3 true IEEE_754].

(** The types of [scalar_types]; the last call is refused. *)
Lemma scalar_ids_correct_witness :
  length (run_scalar the_calls ∅).1 = 15%nat ∧
  let t := mkScalar 4 3 true 0 true EXTD_RANGE_MAX_MIN in
  id_value t = 2814749767172868 ∧ from_id (id_value t) (run_scalar the_calls ∅).2 = (Ok t, (run_scalar the_calls ∅).2).
Proof.
  assert (Forall call_fits the_calls) as Hc by (unfold the_calls; repeat apply List.Forall_cons; try apply List.Forall_nil; cbn; lia).
  split; [by vm_compute|]. split; [by vm_compute|]. pose proof (scalar_ids_correct the_calls Hc) as H.
  assert (mkScalar 4 3 true 0 true EXTD_RANGE_MAX_MIN ∈ (run_scalar the_calls ∅).1) as Hin by (apply (bool_decide_unpack _); by vm_compute).
  destruct (run_scalar the_calls ∅) as [made r]. destruct H as [H _]. exact (proj2 (proj2 (proj2 (H _ Hin)))).
Defined.

(** [uint4b8] has the values from -8 to 7; the greatest value of [float8_e4m3fn] is 448. *)
Lemma scalar_range_correct_witness :
  let q := mkScalar 0 4 false 8 false IEEE_754 in
  let f := mkScalar 4 3 true 0 true EXTD_RANGE_MAX_MIN in
  scalar_min q = Ok (Some (IntValue (-8))) ∧ scalar_max q = Ok (Some (IntValue 7)) ∧
  (∀ v, -8 ≤ v ≤ 7 ↔ ∃ z, stored q z ∧ v = z - 8) ∧
  scalar_max f = Ok (Some (DoubleBits 0x407C000000000000)) ∧ double_scaled 0x407C000000000000 = 448 * 2 ^ 1074 ∧
  (∀ E M, finite_pattern f E M → scaled f E M ≤ 448 * 2 ^ 1074).
Proof.
  intros q f.
  destruct (proj1 (scalar_range_correct q)) as (lo & hi & Hlo & Hhi & Hv); [done|by vm_compute|left; by vm_compute|].
  destruct (proj2 (scalar_range_correct f)) as (bits & Hmax & _ & _ & _ & Hle); [by repeat split; vm_compute|].
  assert (double_scaled 0x407C000000000000 = 448 * 2 ^ 1074) as E by by vm_compute.
  vm_compute in Hlo, Hhi, Hmax. injection Hlo as <-. injection Hhi as <-. injection Hmax as <-.
  split_and!; [by vm_compute|by vm_compute|exact Hv|by vm_compute|exact E|rewrite <-E; exact Hle].
Defined.

(** ** Names and the type without a mantissa *)

(** Comparing an enum member with an int, [is_ieee_754] never holds: the IEEE types get the suffix
    of types with a non-standard NaN. *)
Example float16_name : scalar_str (mkScalar 5 10 true 0 false IEEE_754) = "float16_e5m10n"%string.
Proof. by vm_compute. Qed.

(** [float8_e8m0fnu.max()] packs a negative int. *)
Example e8m0_has_no_max : scalar_max (mkScalar 8 0 false 0 true EXTD_RANGE_MAX_MIN) = Err OtherException.
Proof. by vm_compute. Qed.
