(* ===== verification/LogitsProcessors.v ===== *)
(** * Batch updates and logits processors

    [vllm/v1/sample/logits_processor]: the builder that records what changes in the persistent
    batch of a worker ([state.py]), the update it hands out ([interface.py]) and the processors that
    keep a state per index of the batch and follow it by these updates ([builtin.py]).  The class
    [LogitsProcessorLaws] is what a processor promises: its entry at each index is the one the
    request at that index asks for.  Tensors on the device are modelled by the lists they are
    built from; applying them to the logits is left out. *)

From stdpp Require Import base list gmap sorting.
From Stdlib Require Import ZArith Lia Floats.SpecFloat.
From S2P Require Import Prelude.
Local Open Scope Z_scope.

(** ** Requests and updates *)

(** [SamplingType] *)
Inductive SamplingType := GREEDY | RANDOM | RANDOM_SEED.

(** [SamplingParams], the fields that the batch and the processors read; a set or dict is a
    list, and a float a double. *)
Record SamplingParams := mkSampling {
  temperature : spec_float;
  seed : option Z;
  top_p : spec_float;
  top_k : Z;
  min_p : spec_float;
  frequency_penalty : spec_float;
  presence_penalty : spec_float;
  repetition_penalty : spec_float;
  logprobs : option Z;
  min_tokens : Z;
  all_stop_token_ids : list Z;
  logit_bias : option (list (Z * spec_float));
  allowed_token_ids : option (list Z);
  bad_words : option (list (list Z));
  thinking_token_budget : option Z
}.

(** The output tokens of a request are one list object, shared by the request, the batch and the
    processors: an address, whose contents a heap gives. *)
Abbreviation Address := Z.
Abbreviation Heap := (Address → list Z).

(** [AddedRequest] without the index *)
Record SlotInfo := mkInfo { params : SamplingParams; prompt_tok_ids : option (list Z); output_tok_ids : Address }.

Inductive MoveDirectionality := UNIDIRECTIONAL | SWAP.
#[export] Instance MoveDirectionality_eq_dec : EqDecision MoveDirectionality.
Proof. solve_decision. Defined.

Abbreviation MovedRequest := (nat * nat * MoveDirectionality)%type.

Record BatchUpdate := mkUpdate {
  batch_size : nat;
  removed : list nat;
  added : list (nat * SlotInfo);
  moved : list MovedRequest
}.

(** ** The builder *)

Record BatchUpdateBuilder := mkBuilder {
  _removed : list nat;
  _is_removed_sorted : bool;
  b_added : list (nat * SlotInfo);
  b_moved : list MovedRequest;
  batch_changed : bool
}.

Definition BatchUpdateBuilder_init : BatchUpdateBuilder := mkBuilder [] false [] [] false.
Definition set_removed l (b : BatchUpdateBuilder) := mkBuilder l (_is_removed_sorted b) (b_added b) (b_moved b) (batch_changed b).
Definition set_batch_changed v (b : BatchUpdateBuilder) := mkBuilder (_removed b) (_is_removed_sorted b) (b_added b) (b_moved b) v.
Definition added_append x (b : BatchUpdateBuilder) := mkBuilder (_removed b) (_is_removed_sorted b) (b_added b ++ [x]) (b_moved b) (batch_changed b).
Definition moved_append x (b : BatchUpdateBuilder) := mkBuilder (_removed b) (_is_removed_sorted b) (b_added b) (b_moved b ++ [x]) (batch_changed b).

Definition _ensure_removed_sorted : M BatchUpdateBuilder unit :=
  modify (λ b, if _is_removed_sorted b then b
               else mkBuilder (merge_sort (flip le) (_removed b)) true (b_added b) (b_moved b) (batch_changed b)).

(** The property [removed], the list itself. *)
Definition builder_removed : M BatchUpdateBuilder (list nat) := _ensure_removed_sorted ;; gets _removed.

Definition removed_append (index : nat) : M BatchUpdateBuilder unit :=
  is_sorted ← gets _is_removed_sorted;
  if (is_sorted : bool) then raise RuntimeError
  else modify (λ b, set_removed (_removed b ++ [index]) b) ;; modify (set_batch_changed true).

Definition has_removed (b : BatchUpdateBuilder) : bool := negb (bool_decide (_removed b = [])).

Definition peek_removed : M BatchUpdateBuilder (option nat) :=
  h ← gets has_removed;
  if (h : bool) then _ensure_removed_sorted ;; gets (λ b, last (_removed b)) else mret None.

Definition pop_removed : M BatchUpdateBuilder (option nat) :=
  h ← gets has_removed;
  if (h : bool) then
    _ensure_removed_sorted ;;
    i ← gets (λ b, last (_removed b));
    modify (λ b, set_removed (removelast (_removed b)) b) ;;
    mret i
  else mret None.

Definition builder_reset : M BatchUpdateBuilder bool :=
  changed ← gets batch_changed;
  modify (λ _, BatchUpdateBuilder_init) ;;
  mret changed.

Definition get_and_reset (size : nat) : M BatchUpdateBuilder (option BatchUpdate) :=
  b ← gets Datatypes.id;
  modify (λ b, mkBuilder (_removed b) false (b_added b) (b_moved b) false) ;;
  if bool_decide (_removed b = []) && bool_decide (length (b_moved b) = 0%nat) && bool_decide (length (b_added b) = 0%nat) then mret None
  else
    modify (λ b, mkBuilder [] (_is_removed_sorted b) [] [] (batch_changed b)) ;;
    mret (Some (mkUpdate size (_removed b) (b_added b) (b_moved b))).

(** ** Processors with a dict of entries *)

Section process_dict.
Context {T : Type} (truthy : T → bool) (new_state : SlotInfo → option T).
Implicit Types (acc : list (nat * T) * bool).

(** The three loops over a dict of entries and the flag [updated]. *)
Definition process_added acc (x : nat * SlotInfo) : list (nat * T) * bool :=
  let '(entries, updated) := acc in
  match new_state x.2 with
  | Some state => (dict_set entries x.1 state, true)
  | None => (dict_del entries x.1, if dict_get entries x.1 then true else updated)
  end.
Definition process_removed acc (index : nat) : list (nat * T) * bool :=
  let '(entries, updated) := acc in
  (dict_del entries index, match dict_get entries index with Some x => truthy x || updated | None => updated end).
Definition process_moved acc (m : MovedRequest) : list (nat * T) * bool :=
  let '(entries, updated) := acc in
  let '(a_index, b_index, direct) := m in
  let a_entry := dict_get entries a_index in
  let entries := dict_del entries a_index in
  let b_entry := dict_get entries b_index in
  let entries := dict_del entries b_index in
  let '(entries, updated) := match a_entry with Some x => (dict_set entries b_index x, true) | None => (entries, updated) end in
  match b_entry with
  | Some y => (if bool_decide (direct = SWAP) then dict_set entries a_index y else entries, true)
  | None => (entries, updated)
  end.

Definition process_dict_updates (entries : list (nat * T)) (batch_update : option BatchUpdate) : list (nat * T) * bool :=
  match batch_update with
  | None => (entries, false)
  | Some u =>
      let acc := foldl process_added (entries, false) (added u) in
      if bool_decide (length acc.1 = 0%nat) then acc
      else foldl process_moved (foldl process_removed acc (removed u)) (moved u)
  end.
End process_dict.

(** *** [LogitBiasLogitsProcessor] *)

Record LogitBias := mkLogitBias { biases : list (nat * list (Z * spec_float)); bias_slice : list (nat * Z * spec_float) }.
Definition LogitBias_init : LogitBias := mkLogitBias [] [].

(** [params.logit_bias or None] *)
Definition logit_bias_of (i : SlotInfo) : option (list (Z * spec_float)) :=
  match logit_bias (params i) with Some [] => None | b => b end.
Definition slice_of_biases (e : list (nat * list (Z * spec_float))) : list (nat * Z * spec_float) :=
  concat (map (λ '(req, lb), map (λ '(tok, bias), (req, tok, bias)) lb) e).
Definition logit_bias_update (u : option BatchUpdate) (p : LogitBias) : LogitBias :=
  let '(e, needs_update) := process_dict_updates (λ lb, negb (bool_decide (length lb = 0%nat))) logit_bias_of (biases p) u in
  mkLogitBias e (if needs_update then slice_of_biases e else bias_slice p).

(** *** [MinTokensLogitsProcessor] *)

Abbreviation MinTokensEntry := (Z * Address * list Z)%type.
Record MinTokens := mkMinTokens { min_toks : list (nat * MinTokensEntry); stop_slice : list (nat * Z) }.
Definition MinTokens_init : MinTokens := mkMinTokens [] [].

Section with_heap.
Context (h : Heap).

(** [MinTokensLogitsProcessor.add_request] *)
Definition min_tokens_of (i : SlotInfo) : option MinTokensEntry :=
  let m := min_tokens (params i) in
  if bool_decide (m = 0) || (m <=? Z.of_nat (length (h (output_tok_ids i)))) then None
  else Some (m, output_tok_ids i, all_stop_token_ids (params i)).
Definition attained (e : MinTokensEntry) : bool := let '(m, out, _) := e in m <=? Z.of_nat (length (h out)).
Definition slice_of_stops (e : list (nat * MinTokensEntry)) : list (nat * Z) :=
  concat (map (λ '(req, (_, _, stop)), map (λ tok, (req, tok)) stop) e).
Definition min_tokens_update (u : option BatchUpdate) (p : MinTokens) : MinTokens :=
  let '(e, needs_update) := process_dict_updates (λ _, true) min_tokens_of (min_toks p) u in
  let to_remove := map fst (filter (λ x, attained x.2 = true) e) in
  let '(e, needs_update) :=
    if bool_decide (length to_remove = 0%nat) then (e, needs_update) else (foldl dict_del e to_remove, true) in
  mkMinTokens e (if (needs_update : bool) then slice_of_stops e else stop_slice p).
End with_heap.

(** *** [MinPLogitsProcessor] *)

(** Rounding a double to a float32. *)
Definition float32 (f : spec_float) : spec_float :=
  match f with S754_finite s m e => binary_normalize 24 128 (if s then Zneg m else Zpos m) e s | _ => f end.
(** [bool(x)] of a float *)
Definition float_bool (f : spec_float) : bool := match f with S754_zero _ => false | _ => true end.
Definition zero_float : spec_float := S754_zero false.

(** [min_p_cpu] has an element for each index of the batch. *)
Record MinP := mkMinP { min_p_count : Z; min_p_cpu : list spec_float; min_p_slice : list spec_float }.
Definition MinP_init (max_num_reqs : nat) : MinP := mkMinP 0 (replicate max_num_reqs zero_float) [].

Definition get_min_p_by_index (p : MinP) (index : nat) : spec_float := default zero_float (min_p_cpu p !! index).

(** A float32 compares with a double at the precision of the float32. *)
Definition float32_ne (x : spec_float) (y : spec_float) : bool := negb (SFeqb x (float32 y)).

Definition min_p_added (acc : MinP * bool) (x : nat * SlotInfo) : MinP * bool :=
  let '(p, needs_update) := acc in
  let '(index, info) := x in
  let mp := min_p (params info) in
  let min_p_before := get_min_p_by_index p index in
  if float32_ne min_p_before mp then
    (mkMinP (if float_bool mp && negb (float_bool min_p_before) then min_p_count p + 1
             else if negb (float_bool mp) && float_bool min_p_before then min_p_count p - 1 else min_p_count p)
       (<[index := float32 mp]> (min_p_cpu p)) (min_p_slice p), true)
  else acc.
Definition min_p_removed (p : MinP) (index : nat) : MinP :=
  if float_bool (get_min_p_by_index p index) then mkMinP (min_p_count p - 1) (<[index := zero_float]> (min_p_cpu p)) (min_p_slice p) else p.
Definition min_p_moved (acc : MinP * bool) (m : MovedRequest) : MinP * bool :=
  let '(p, needs_update) := acc in
  let '(adx, bdx, direct) := m in
  let min_p_a := get_min_p_by_index p adx in
  let min_p_b := get_min_p_by_index p bdx in
  let '(cpu, needs_update) :=
    if negb (SFeqb min_p_a min_p_b) then
      let cpu := <[bdx := min_p_a]> (min_p_cpu p) in
      (if bool_decide (direct = SWAP) then <[adx := min_p_b]> cpu else cpu, true)
    else (min_p_cpu p, needs_update) in
  if bool_decide (direct = UNIDIRECTIONAL) then
    (mkMinP (if float_bool min_p_b then min_p_count p - 1 else min_p_count p)
       (if float_bool min_p_a then <[adx := zero_float]> cpu else cpu) (min_p_slice p), needs_update)
  else (mkMinP (min_p_count p) cpu (min_p_slice p), needs_update).
Definition min_p_update (u : option BatchUpdate) (p : MinP) : MinP :=
  match u with
  | None => p
  | Some u =>
      let '(p, needs_update) := foldl min_p_added (p, false) (added u) in
      let '(p, needs_update) :=
        if bool_decide (min_p_count p = 0) then (p, needs_update)
        else
          let '(p, needs_update) :=
            if bool_decide (length (removed u) = 0%nat) then (p, needs_update) else (foldl min_p_removed p (removed u), true) in
          foldl min_p_moved (p, needs_update) (moved u) in
      if negb (bool_decide (min_p_count p = 0)) && (needs_update || negb (bool_decide (length (min_p_slice p) = batch_size u)))
      then mkMinP (min_p_count p) (min_p_cpu p) (take (batch_size u) (min_p_cpu p)) else p
  end.

(** *** [ThinkingTokenBudgetLogitsProcessor] *)

Record ThinkState := mkThink {
  in_think : bool;
  in_end : bool;
  check_count_down : Z;
  think_count : Z;
  end_count : Z;
  think_output : Address;
  think_budget : Z;
  prev_output_length : Z
}.

Section thinking.
Context (reasoning_start_token_ids reasoning_end_token_ids : list Z).

(** [for i in range(len(target_list) - len(token_ids), -1, -1)], [n] positions to go. *)
Fixpoint find_last (target_list token_ids : list Z) (n : nat) : Z :=
  match n with
  | O => -1
  | S i => if bool_decide (take (length token_ids) (drop i target_list) = token_ids) then Z.of_nat i else find_last target_list token_ids i
  end.
Definition _find_last_sequence_index (target_list token_ids : list Z) : Z :=
  if bool_decide (length token_ids = 0%nat) then -1
  else find_last target_list token_ids (Z.to_nat (Z.of_nat (length target_list) - Z.of_nat (length token_ids) + 1)).

(** With the output list that the caller stores. *)
Definition _init_state_entry (prompt : option (list Z)) (budget : Z) (out : Address) : ThinkState :=
  match prompt with
  | None => mkThink false (false && bool_decide (budget = 0)) budget 0 0 out budget 0
  | Some prompt_tok_ids =>
      let last_start := _find_last_sequence_index prompt_tok_ids reasoning_start_token_ids in
      let last_end := _find_last_sequence_index prompt_tok_ids reasoning_end_token_ids in
      let thinking := last_end <? last_start in
      let count := if thinking then Z.of_nat (length prompt_tok_ids) - (last_start + Z.of_nat (length reasoning_start_token_ids)) else 0 in
      mkThink thinking (thinking && bool_decide (budget = 0)) budget count 0 out budget 0
  end.

(** The part of [_update_think_state] that looks for the start and end sequences: the new
    [in_think] and [think_count]. *)
Definition scan_think (output : list Z) (prev_length : Z) (s : ThinkState) : bool * Z :=
  let current_length := Z.of_nat (length output) in
  let start_len := Z.of_nat (length reasoning_start_token_ids) in
  let end_len := Z.of_nat (length reasoning_end_token_ids) in
  let check_start_idx := Z.max 0 (prev_length - Z.max start_len end_len + 1) in
  let recent_tokens := slice_from check_start_idx output in
  let recent_start_pos := _find_last_sequence_index recent_tokens reasoning_start_token_ids in
  let recent_end_pos := _find_last_sequence_index recent_tokens reasoning_end_token_ids in
  let entering := (true, current_length - (check_start_idx + recent_start_pos + start_len)) in
  if (0 <=? recent_start_pos) && (0 <=? recent_end_pos) then if recent_end_pos <? recent_start_pos then entering else (false, 0)
  else if 0 <=? recent_start_pos then entering
  else if 0 <=? recent_end_pos then (false, 0)
  else if in_think s then (true, think_count s + (current_length - prev_length)) else (in_think s, think_count s).

Definition _update_think_state (h : Heap) (s : ThinkState) : ThinkState :=
  if negb (in_end s) && (0 <? check_count_down s) then
    mkThink (in_think s) (in_end s) (check_count_down s - 1) (think_count s) (end_count s) (think_output s) (think_budget s) (prev_output_length s)
  else
    let output := h (think_output s) in
    let current_length := Z.of_nat (length output) in
    if bool_decide (length output = 0%nat) || (current_length <=? prev_output_length s) then s
    else if in_end s then
      let ended := Z.of_nat (length reasoning_end_token_ids) <=? end_count s + 1 in
      mkThink (in_think s) (negb ended) (if ended then think_budget s else check_count_down s) (think_count s)
        (if ended then 0 else end_count s + 1) (think_output s) (think_budget s) current_length
    else
      let '(thinking, count) := scan_think output (prev_output_length s) s in
      if thinking && (think_budget s <=? count) then
        mkThink false true (think_budget s) count 0 (think_output s) (think_budget s) current_length
      else
        let down := if thinking then Z.max 0 (Z.max 0 (think_budget s - count) - 1) else think_budget s in
        mkThink thinking false down count (end_count s) (think_output s) (think_budget s) current_length.

Definition think_added (e : list (nat * ThinkState)) (x : nat * SlotInfo) : list (nat * ThinkState) :=
  match thinking_token_budget (params x.2) with
  | Some budget => dict_set e x.1 (_init_state_entry (prompt_tok_ids x.2) budget (output_tok_ids x.2))
  | None => dict_del e x.1
  end.
Definition think_moved (e : list (nat * ThinkState)) (m : MovedRequest) : list (nat * ThinkState) :=
  let '(i1, i2, direction) := m in
  if bool_decide (direction = SWAP) then
    let state1 := dict_get e i1 in
    let e := dict_del e i1 in
    let state2 := dict_get e i2 in
    let e := dict_del e i2 in
    let e := match state1 with Some s => dict_set e i2 s | None => e end in
    match state2 with Some s => dict_set e i1 s | None => e end
  else
    match dict_get e i1 with Some s => dict_set (dict_del e i1) i2 s | None => dict_del e i1 end.
Definition think_update (h : Heap) (u : option BatchUpdate) (e : list (nat * ThinkState)) : list (nat * ThinkState) :=
  let e := match u with Some u => foldl think_moved (foldl dict_del (foldl think_added e (added u)) (removed u)) (moved u) | None => e end in
  map (λ x, (x.1, _update_think_state h x.2)) e.
End thinking.

(** ** What an update means *)

(** The request at each index. *)
Abbreviation Slots := (nat → option SlotInfo).

(** The documented order: removed, added, moved. *)
Definition slot_remove (s : Slots) (i : nat) : Slots := λ j, if decide (j = i) then None else s j.
Definition slot_add (s : Slots) (x : nat * SlotInfo) : Slots := λ j, if decide (j = x.1) then Some x.2 else s j.
Definition slot_move (s : Slots) (m : MovedRequest) : Slots :=
  let '(a, b, direct) := m in
  λ j, if decide (j = b) then s a else if decide (j = a) then (if decide (direct = SWAP) then s b else None) else s j.
Definition apply_update (s : Slots) (u : BatchUpdate) : Slots :=
  foldl slot_move (foldl slot_add (foldl slot_remove s (removed u)) (added u)) (moved u).
Definition apply_updates (s : Slots) (u : option BatchUpdate) : Slots := match u with Some u => apply_update s u | None => s end.

(** What the batch guarantees of its updates: no index is both removed and added, a request does
    not move to its own index, and the indices are those of a batch of at most [n]. *)
Definition update_ok (n : nat) (u : BatchUpdate) : Prop :=
  (∀ i, i ∈ removed u → (i < n)%nat ∧ i ∉ (added u).*1) ∧
  (∀ a b d, (a, b, d) ∈ moved u → (a < n)%nat ∧ (b < n)%nat ∧ (d = UNIDIRECTIONAL → a ≠ b)) ∧
  ∀ i x, (i, x) ∈ added u → (i < n)%nat.

(** Output lists grow. *)
Definition grows (h h' : Heap) : Prop := ∀ a, (length (h a) ≤ length (h' a))%nat.

(** A processor: after an update its entry at each index is what it wants for the request there.
    [lp_accepts] says which requests it takes, and [lp_ok] that its state is in order for a batch of
    at most [n] requests. *)
Class LogitsProcessor (P E : Type) := {
  lp_update : Heap → option BatchUpdate → P → P;
  lp_entry : P → nat → option E;
  lp_wanted : Heap → SlotInfo → option E;
  lp_accepts : SlotInfo → Prop;
  lp_ok : nat → P → Prop
}.
Definition lp_in_step `{LogitsProcessor P E} (n : nat) (h : Heap) (s : Slots) (p : P) : Prop :=
  lp_ok n p ∧ ∀ i, lp_entry p i = s i ≫= lp_wanted h.
Class LogitsProcessorLaws (P E : Type) `{LogitsProcessor P E} :=
  lp_update_correct n h h' s u p :
    lp_in_step n h s p → grows h h' → (∀ u', u = Some u' → update_ok n u') →
    (∀ u' i x, u = Some u' → (i, x) ∈ added u' → lp_accepts x) →
    lp_in_step n h' (apply_updates s u) (lp_update h' u p).

(** *** Removals and additions commute *)

Lemma slot_remove_other s l i : i ∉ l → foldl slot_remove s l i = s i.
Proof.
  revert s. induction l as [|k l IH]; intros s Hi; [done|]. apply not_elem_of_cons in Hi as [Hne Hi].
  cbn. rewrite IH by done. unfold slot_remove. by rewrite decide_False.
Qed.

Lemma slot_remove_in s l i : i ∈ l → foldl slot_remove s l i = None.
Proof.
  revert s. induction l as [|k l IH]; intros s Hi; [by apply elem_of_nil in Hi|]. cbn. destruct (decide (i ∈ l)) as [Hl|Hl]; [by apply IH|].
  apply elem_of_cons in Hi as [->|Hi]; [|done]. rewrite slot_remove_other by done. unfold slot_remove. by rewrite decide_True.
Qed.

Lemma slot_add_other s l i : i ∉ l.*1 → foldl slot_add s l i = s i.
Proof.
  revert s. induction l as [|[k x] l IH]; intros s Hi; [done|]. apply not_elem_of_cons in Hi as [Hne Hi].
  cbn. rewrite IH by done. unfold slot_add. by rewrite decide_False.
Qed.

Lemma slot_add_ext s s' l i : i ∈ l.*1 ∨ s i = s' i → foldl slot_add s l i = foldl slot_add s' l i.
Proof.
  revert s s'. induction l as [|[k x] l IH]; intros s s' Hs; cbn.
  { by destruct Hs as [?%elem_of_nil|?]. }
  apply IH. unfold slot_add. cbn. destruct (decide (i = k)); [by right|]. destruct Hs as [[?|?]%elem_of_cons|?]; auto; done.
Qed.

Lemma slot_move_ext s s' l : (∀ i, s i = s' i) → ∀ i, foldl slot_move s l i = foldl slot_move s' l i.
Proof.
  revert s s'. induction l as [|[[a b] d] l IH]; intros s s' Hs i; cbn; [apply Hs|]. apply IH. intros j. unfold slot_move. by rewrite !Hs.
Qed.

(** The processors go through the additions first. *)
Lemma apply_update_added_first s u i :
  (∀ i, i ∈ removed u → i ∉ (added u).*1) → apply_update s u i = foldl slot_move (foldl slot_remove (foldl slot_add s (added u)) (removed u)) (moved u) i.
Proof.
  intros Hd. unfold apply_update. apply slot_move_ext. intros j. destruct (decide (j ∈ removed u)) as [Hj|Hj].
  - rewrite slot_add_other by by apply Hd. by rewrite !slot_remove_in.
  - rewrite (slot_remove_other (foldl slot_add s (added u))) by done. apply slot_add_ext. right. by apply slot_remove_other.
Qed.

(** ** Processors with a dict *)

Section process_dict_laws.
Context {T : Type} (truthy : T → bool) (new_state : SlotInfo → option T) (rel : option SlotInfo → option T → Prop).
Context (rel_none : rel None None).

(** The entry of each index fits the request there. *)
Definition entries_ok (s : Slots) (e : list (nat * T)) : Prop := NoDup e.*1 ∧ ∀ i, rel (s i) (dict_get e i).

Lemma process_added_ok s acc x :
  entries_ok s acc.1 → rel (Some x.2) (new_state x.2) → entries_ok (slot_add s x) (process_added new_state acc x).1.
Proof.
  destruct acc as [e b], x as [k i]. cbn. intros [Hnd He] Hr. unfold slot_add. cbn. destruct (new_state i) as [t|].
  - split; [by apply dict_set_NoDup|]. intros j. cbn. rewrite dict_get_set. by destruct (decide (j = k)).
  - split; [by apply dict_del_NoDup|]. intros j. cbn. rewrite dict_get_del by done. by destruct (decide (j = k)).
Qed.

Lemma process_removed_ok s acc i : entries_ok s acc.1 → entries_ok (slot_remove s i) (process_removed truthy acc i).1.
Proof.
  destruct acc as [e b]. cbn. intros [Hnd He]. split; [by apply dict_del_NoDup|]. intros j. unfold slot_remove.
  rewrite dict_get_del by done. by destruct (decide (j = i)).
Qed.

Lemma dict_set_opt_get (e : list (nat * T)) k (o : option T) j :
  dict_get (match o with Some x => dict_set e k x | None => e end) j = if decide (j = k) then match o with Some x => Some x | None => dict_get e k end else dict_get e j.
Proof. destruct o; [rewrite dict_get_set; by destruct (decide (j = k))|]. by destruct (decide (j = k)) as [->|]. Qed.

Lemma process_moved_ok s acc m : entries_ok s acc.1 → entries_ok (slot_move s m) (process_moved acc m).1.
Proof.
  destruct acc as [e u], m as [[a b] d]. cbn. intros [Hnd He].
  assert (NoDup (dict_del e a).*1) as Hnd1 by by apply dict_del_NoDup.
  assert (NoDup (dict_del (dict_del e a) b).*1) as Hnd2 by by apply dict_del_NoDup.
  pose proof (He a) as Ha. pose proof (He b) as Hb.
  destruct (dict_get e a) as [x|] eqn:Ea, (dict_get (dict_del e a) b) as [y|] eqn:Eb; rewrite dict_get_del in Eb by done;
    try (destruct d; rewrite ?bool_decide_eq_true_2, ?bool_decide_eq_false_2 by done); cbn;
    (split; [by repeat apply dict_set_NoDup|]; intros j; rewrite ?dict_get_set, ?dict_get_del by done; specialize (He j));
    repeat case_decide; subst; simplify_eq; rewrite ?Ea in *; try congruence; try done.
Qed.

Lemma fold_process_ok {A} (f : list (nat * T) * bool → A → list (nat * T) * bool) (g : Slots → A → Slots) (l : list A) (P : A → Prop) :
  (∀ s acc x, P x → entries_ok s acc.1 → entries_ok (g s x) (f acc x).1) →
  ∀ s acc, Forall P l → entries_ok s acc.1 → entries_ok (foldl g s l) (foldl f acc l).1.
Proof. intros Hf s acc HP. revert s acc. induction HP as [|x l Hx _ IH]; intros s acc He; [done|]. cbn. by apply IH, Hf. Qed.

Lemma process_empty b (rs : list nat) (ms : list MovedRequest) :
  (foldl process_moved (foldl (process_removed truthy) ([], b) rs) ms).1 = [].
Proof.
  assert (∃ b', foldl (process_removed truthy) ([], b) rs = ([], b')) as (b' & ->) by (induction rs as [|r rs IH]; [eauto|exact IH]).
  assert (∃ b'', foldl process_moved ([], b') ms = ([], b'')) as (b'' & ->); [|done].
  induction ms as [|[[i j] d] ms IH]; [eauto|exact IH].
Qed.

Lemma process_dict_updates_ok s e u :
  entries_ok s e → (∀ u' i, u = Some u' → i ∈ removed u' → i ∉ (added u').*1) →
  (∀ u' i x, u = Some u' → (i, x) ∈ added u' → rel (Some x) (new_state x)) →
  entries_ok (apply_updates s u) (process_dict_updates truthy new_state e u).1.
Proof.
  intros He Hu Hrel. destruct u as [u|]; [|done]. cbn [apply_updates process_dict_updates]. pose proof (λ i, Hu u i eq_refl) as Hd.
  assert (entries_ok (foldl slot_add s (added u)) (foldl (process_added new_state) (e, false) (added u)).1) as Hadd.
  { apply (fold_process_ok _ _ _ (λ x, rel (Some x.2) (new_state x.2))).
    - intros; by apply process_added_ok.
    - apply Forall_forall. intros [i x] Hx. by eapply Hrel.
    - done. }
  set (acc := foldl (process_added new_state) (e, false) (added u)) in *.
  assert (entries_ok (apply_update s u) (foldl process_moved (foldl (process_removed truthy) acc (removed u)) (moved u)).1) as [Hnd Hall].
  { assert (entries_ok (foldl slot_move (foldl slot_remove (foldl slot_add s (added u)) (removed u)) (moved u))
      (foldl process_moved (foldl (process_removed truthy) acc (removed u)) (moved u)).1) as [Hnd Hall].
    { apply (fold_process_ok _ _ _ (λ _, True)); [intros; by apply process_moved_ok|by apply Forall_forall|].
      apply (fold_process_ok _ _ _ (λ _, True)); [intros; by apply process_removed_ok|by apply Forall_forall|done]. }
    split; [done|]. intros i. by rewrite (apply_update_added_first _ _ _ Hd). }
  case_bool_decide as E; [|by split]. destruct acc as [[|] b]; [|done]. rewrite process_empty in Hnd, Hall. by split.
Qed.

(** *** The flag [updated] *)

(** Without the flag the entries are as they were. *)
Definition truthy_entry (x : nat * T) : Prop := truthy x.2 = true.
Definition flag_ok (e0 : list (nat * T)) (acc : list (nat * T) * bool) : Prop :=
  Forall truthy_entry acc.1 ∧ (acc.2 = false → acc.1 = e0).

Lemma dict_del_unmapped (e : list (nat * T)) k : dict_get e k = None → dict_del e k = e.
Proof. induction e as [|[k' x] e IH]; [done|]. cbn. destruct (decide (k = k')); [done|]. intros H. by rewrite IH. Qed.
Lemma dict_del_Forall (P : nat * T → Prop) e k : Forall P e → Forall P (dict_del e k).
Proof. induction 1 as [|[k' x] e Hx He IH]; [constructor|]. cbn. destruct (decide (k = k')); [done|]. by constructor. Qed.
Lemma dict_set_Forall (P : nat * T → Prop) e k x : (∀ k, P (k, x)) → Forall P e → Forall P (dict_set e k x).
Proof. intros Hx. induction 1 as [|[k' y] e Hy He IH]; cbn; [by constructor|]. destruct (decide (k = k')); by constructor. Qed.
Lemma dict_get_Forall (P : T → Prop) (e : list (nat * T)) k x : Forall (λ y, P y.2) e → dict_get e k = Some x → P x.
Proof. intros He Hx%dict_get_Some. by apply (proj1 (Forall_forall _ _) He (k, x)). Qed.

Lemma process_added_flag e0 acc x :
  (∀ t, new_state x.2 = Some t → truthy t = true) → flag_ok e0 acc → flag_ok e0 (process_added new_state acc x).
Proof.
  destruct acc as [e b], x as [k i]. cbn. intros Ht [He Hb]. cbn in *. destruct (new_state i) as [t|].
  - split; [|done]. apply dict_set_Forall; [|done]. intros ?. by apply Ht.
  - split; [by apply dict_del_Forall|]. cbn. destruct (dict_get e k) eqn:Ek; [done|]. intros Hf. rewrite dict_del_unmapped by done. auto.
Qed.

Lemma process_removed_flag e0 acc i : flag_ok e0 acc → flag_ok e0 (process_removed truthy acc i).
Proof.
  destruct acc as [e b]. intros [He Hb]. cbn in *. split; [by apply dict_del_Forall|]. cbn.
  destruct (dict_get e i) as [x|] eqn:Ei; [by rewrite (dict_get_Forall (λ t, truthy t = true) _ _ _ He Ei)|]. intros Hf. rewrite dict_del_unmapped by done. auto.
Qed.

Lemma process_moved_flag e0 acc m : flag_ok e0 acc → flag_ok e0 (process_moved acc m).
Proof.
  destruct acc as [e u], m as [[a b] d]. intros [He Hb]. cbn in *.
  assert (Forall truthy_entry (dict_del (dict_del e a) b)) as Hd by by do 2 apply dict_del_Forall.
  assert (∀ x k j e', dict_get e k = Some x ∨ dict_get (dict_del e a) k = Some x → Forall truthy_entry e' → Forall truthy_entry (dict_set e' j x)) as Hset.
  { intros x k j e' Hk Hf. apply dict_set_Forall; [|done]. intros ?. unfold truthy_entry. cbn.
    destruct Hk as [Hk|Hk]; (eapply (dict_get_Forall (λ t, truthy t = true)); [|exact Hk]); [done|by apply dict_del_Forall]. }
  destruct (dict_get e a) as [x|] eqn:Ea, (dict_get (dict_del e a) b) as [y|] eqn:Eb; split; cbn; try done;
    try (case_bool_decide; eauto; done); try (by eapply Hset; eauto).
  intros Hf. rewrite (dict_del_unmapped e a), (dict_del_unmapped e b); [auto| |done]. by rewrite <-(dict_del_unmapped e a).
Qed.

Lemma foldl_inv {A B} (f : A → B → A) (P : A → Prop) (Q : B → Prop) l a :
  (∀ a b, Q b → P a → P (f a b)) → Forall Q l → P a → P (foldl f a l).
Proof. intros Hf Hl. revert a. induction Hl as [|b l Hb _ IH]; intros a Ha; [done|]. cbn. by apply IH, Hf. Qed.

Lemma process_dict_updates_flag e u :
  (∀ x t, new_state x = Some t → truthy t = true) → Forall truthy_entry e →
  flag_ok e (process_dict_updates truthy new_state e u).
Proof.
  intros Ht He. destruct u as [u|]; [|by split]. cbn [process_dict_updates].
  assert (flag_ok e (foldl (process_added new_state) (e, false) (added u))) as Hadd.
  { apply (foldl_inv _ (flag_ok e) (λ _, True)); [intros a b _; apply process_added_flag, Ht|by apply Forall_forall|by split]. }
  case_bool_decide; [done|].
  apply (foldl_inv _ (flag_ok e) (λ _, True)); [intros a b _; apply process_moved_flag|by apply Forall_forall|].
  apply (foldl_inv _ (flag_ok e) (λ _, True)); [intros a b _; apply process_removed_flag|by apply Forall_forall|done].
Qed.
End process_dict_laws.

(** ** The processors keep their promise *)

#[export] Instance logit_bias_processor : LogitsProcessor LogitBias (list (Z * spec_float)) := {|
  lp_update _ := logit_bias_update;
  lp_entry p i := dict_get (biases p) i;
  lp_wanted _ := logit_bias_of;
  lp_accepts _ := True;
  lp_ok _ p := NoDup (biases p).*1 ∧ Forall (truthy_entry (λ lb, negb (bool_decide (length lb = 0%nat)))) (biases p) ∧
               bias_slice p = slice_of_biases (biases p)
|}.

#[export] Instance logit_bias_laws : LogitsProcessorLaws LogitBias (list (Z * spec_float)).
Proof.
  intros n h h' s u p [(Hnd & Htr & Hsl) He] _ Hu _. cbn in *. unfold logit_bias_update.
  set (truthy := λ lb : list (Z * spec_float), _) in *.
  pose proof (process_dict_updates_ok truthy logit_bias_of (λ so eo, eo = match so with Some x => logit_bias_of x | None => None end) eq_refl s (biases p) u) as Hok.
  pose proof (process_dict_updates_flag truthy logit_bias_of (biases p) u) as Hfl.
  destruct (process_dict_updates truthy logit_bias_of (biases p) u) as [e b]. cbn in *.
  destruct Hok as [Hnd' He']; [by split|intros u' i Hu' Hi; by apply (Hu u' Hu')|done|].
  destruct Hfl as [Htr' Hf]; [|done|].
  { intros x t. unfold logit_bias_of, truthy. destruct (logit_bias (params x)) as [[|]|]; [done| |done]. by intros [= <-]. }
  split; [|done]. split; [done|]. split; [done|]. cbn. destruct b; [done|]. cbn in Hf. by rewrite Hf.
Qed.

(** *** Minimum of tokens *)

Lemma dict_get_foldl_del {T} (e : list (nat * T)) l i :
  NoDup e.*1 → dict_get (foldl dict_del e l) i = if decide (i ∈ l) then None else dict_get e i.
Proof.
  revert e. induction l as [|k l IH]; intros e Hnd; cbn [foldl]; [by rewrite decide_False by apply not_elem_of_nil|].
  rewrite IH by by apply dict_del_NoDup. rewrite dict_get_del by done. destruct (decide (i ∈ l)) as [Hl|Hl].
  - by rewrite decide_True by by right.
  - destruct (decide (i = k)) as [->|Hk]; [by rewrite decide_True by left|]. rewrite decide_False; [done|]. by apply not_elem_of_cons.
Qed.

Lemma foldl_del_NoDup {T} (e : list (nat * T)) l : NoDup e.*1 → NoDup (foldl dict_del e l).*1.
Proof. revert e. induction l as [|k l IH]; intros e Hnd; cbn [foldl]; [done|]. by apply IH, dict_del_NoDup. Qed.

#[export] Instance min_tokens_processor : LogitsProcessor MinTokens MinTokensEntry := {|
  lp_update := min_tokens_update;
  lp_entry p i := dict_get (min_toks p) i;
  lp_wanted := min_tokens_of;
  lp_accepts _ := True;
  lp_ok _ p := NoDup (min_toks p).*1 ∧ stop_slice p = slice_of_stops (min_toks p)
|}.

(** Entries of before that are not attained, and new ones, are what is wanted now. *)
Lemma min_tokens_wanted h h' x eo :
  grows h h' → eo = min_tokens_of h x ∨ eo = min_tokens_of h' x →
  match eo with Some e => if attained h' e then None else eo | None => None end = min_tokens_of h' x.
Proof.
  intros Hg Heo. specialize (Hg (output_tok_ids x)). unfold min_tokens_of in *.
  set (m := min_tokens (params x)) in *. set (o := output_tok_ids x) in *.
  destruct (bool_decide (m = 0)); cbn [orb] in *.
  { by destruct Heo as [->| ->]. }
  destruct (Z.leb_spec m (Z.of_nat (length (h' o)))) as [Hle|Hgt].
  - destruct Heo as [->| ->]; [|done]. destruct (m <=? Z.of_nat (length (h o))); [done|]. cbn. by rewrite (proj2 (Z.leb_le _ _) Hle).
  - assert (eo = Some (m, o, all_stop_token_ids (params x))) as ->.
    { destruct Heo as [->|]; [|done]. destruct (Z.leb_spec m (Z.of_nat (length (h o)))); [lia|done]. }
    cbn. by rewrite (proj2 (Z.leb_gt _ _) Hgt).
Qed.

#[export] Instance min_tokens_laws : LogitsProcessorLaws MinTokens MinTokensEntry.
Proof.
  intros n h h' s u p [(Hnd & Hsl) He] Hg Hu _. cbn in *. unfold min_tokens_update.
  pose proof (process_dict_updates_ok (λ _, true) (min_tokens_of h')
    (λ so eo, match so with Some x => eo = min_tokens_of h x ∨ eo = min_tokens_of h' x | None => eo = None end) eq_refl s (min_toks p) u) as Hok.
  pose proof (process_dict_updates_flag (λ _ : MinTokensEntry, true) (min_tokens_of h') (min_toks p) u) as Hfl.
  destruct (process_dict_updates (λ _ : MinTokensEntry, true) (min_tokens_of h') (min_toks p) u) as [e b]. cbn [fst snd] in *.
  destruct Hok as [Hnd' He'].
  { split; [done|]. intros i. rewrite He. destruct (s i); [by left|done]. }
  { intros u' i Hu' Hi. by apply (Hu u' Hu'). }
  { intros u' i x _ _. by right. }
  destruct Hfl as [_ Hf]; [done|by apply Forall_forall|]. cbn [fst snd] in Hf.
  set (dead := map fst (filter (λ x : nat * MinTokensEntry, attained h' x.2 = true) e)).
  assert (∀ i, i ∈ dead ↔ ∃ x, dict_get e i = Some x ∧ attained h' x = true) as Hdead.
  { intros i. unfold dead. rewrite list_elem_of_fmap. split.
    - intros ([k x] & -> & [Ha Hx]%list_elem_of_filter). exists x. split; [by apply dict_get_elem|done].
    - intros (x & Hx%dict_get_Some & Ha). exists (i, x). split; [done|]. by apply list_elem_of_filter. }
  assert (∀ i, dict_get (foldl dict_del e dead) i = apply_updates s u i ≫= min_tokens_of h') as Hget.
  { intros i. rewrite dict_get_foldl_del by done. specialize (He' i). specialize (Hdead i). destruct (apply_updates s u i) as [x|]; cbn.
    - rewrite <-(min_tokens_wanted h h' x (dict_get e i) Hg He'). destruct (dict_get e i) as [y|].
      + destruct (attained h' y) eqn:Ea; [rewrite decide_True; [done|]; apply Hdead; by exists y|].
        rewrite decide_False; [done|]. intros (z & [= <-] & Hz)%Hdead. congruence.
      + by destruct (decide (i ∈ dead)).
    - rewrite He'. by destruct (decide (i ∈ dead)). }
  case_bool_decide as E.
  - assert (dead = []) as Hnil by by destruct dead. rewrite Hnil in Hget. split; [|done]. split; [done|]. cbn. destruct b; [done|]. by rewrite Hf.
  - split; [|done]. split; [by apply foldl_del_NoDup|done].
Qed.

(** *** Min-p *)

Definition plain (f : spec_float) : Prop := match f with S754_nan | S754_zero true => False | _ => True end.
Definition nonzero (f : spec_float) : option spec_float := if float_bool f then Some f else None.
Definition count_nonzero (l : list spec_float) : Z := sumZ (map (λ f, Z.b2z (float_bool f)) l).

#[export] Instance min_p_processor : LogitsProcessor MinP spec_float := {|
  lp_update _ := min_p_update;
  lp_entry p i := nonzero (get_min_p_by_index p i);
  lp_wanted _ x := nonzero (float32 (min_p (params x)));
  lp_accepts x := plain (float32 (min_p (params x))) ∧ float_bool (float32 (min_p (params x))) = float_bool (min_p (params x));
  lp_ok n p := (n ≤ length (min_p_cpu p))%nat ∧ Forall plain (min_p_cpu p) ∧ min_p_count p = count_nonzero (min_p_cpu p)
|}.

Lemma SFeqb_plain x y : plain x → plain y → SFeqb x y = true → x = y.
Proof.
  destruct x as [[]|[]| |sx mx ex], y as [[]|[]| |sy my ey]; try done; try (by destruct sy); try (by destruct sx).
  intros _ _. unfold SFeqb. cbn. change (PosDef.Pos.compare_cont Eq mx my) with (Pos.compare mx my).
  destruct sx, sy; try done; destruct (Z.compare_spec ex ey); subst; try done; destruct (Pos.compare_spec mx my); cbn; intros; subst; done.
Qed.

Lemma count_insert l i x f :
  l !! i = Some f → count_nonzero (<[i := x]> l) = count_nonzero l - Z.b2z (float_bool f) + Z.b2z (float_bool x).
Proof.
  revert i. induction l as [|g l IH]; intros [|i] Hf; cbn in *; simplify_eq; unfold count_nonzero in *; simpl; [lia|].
  etrans; [exact (f_equal (Z.add (Z.b2z (float_bool g))) (IH _ Hf))|lia].
Qed.

Lemma get_min_p_in p i : (i < length (min_p_cpu p))%nat → min_p_cpu p !! i = Some (get_min_p_by_index p i).
Proof. intros [f Hf]%lookup_lt_is_Some. unfold get_min_p_by_index. by rewrite Hf. Qed.

Lemma get_min_p_plain p i : Forall plain (min_p_cpu p) → plain (get_min_p_by_index p i).
Proof. intros Hp. unfold get_min_p_by_index. destruct (min_p_cpu p !! i) as [f|] eqn:E; [|done]. by apply (Forall_lookup_1 _ _ _ _ Hp E). Qed.

Lemma get_min_p_insert c l i x sl j :
  (i < length l)%nat → get_min_p_by_index (mkMinP c (<[i := x]> l) sl) j = if decide (j = i) then x else default zero_float (l !! j).
Proof.
  intros Hi. unfold get_min_p_by_index. cbn. destruct (decide (j = i)) as [->|Hj]; [by rewrite list_lookup_insert_eq|by rewrite list_lookup_insert_ne by done].
Qed.

Lemma count_nonneg l : 0 ≤ count_nonzero l.
Proof. unfold count_nonzero. induction l as [|f l IH]; cbn; [done|]. destruct (float_bool f); cbn [Z.b2z]; lia. Qed.

Lemma count_zero l i : count_nonzero l = 0 → nonzero (default zero_float (l !! i)) = None.
Proof.
  revert i. induction l as [|f l IH]; intros i Hc; [done|]. unfold count_nonzero in Hc. cbn in Hc. pose proof (count_nonneg l) as Hl. unfold count_nonzero in Hl.
  unfold nonzero. destruct (float_bool f) eqn:E; cbn in Hc; [lia|]. destruct i as [|i]; cbn; [by rewrite E|]. apply (IH i). exact Hc.
Qed.

(** The state of the processor in the middle of an update. *)
Definition min_p_in_step (n : nat) (s : Slots) (p : MinP) : Prop :=
  lp_ok n p ∧ ∀ i, nonzero (get_min_p_by_index p i) = s i ≫= λ x, nonzero (float32 (min_p (params x))).

(** Writing [x] at an index, with the count moved along. *)
Lemma min_p_write n s s' p i x c sl :
  min_p_in_step n s p → (i < n)%nat → plain x →
  c = min_p_count p - Z.b2z (float_bool (get_min_p_by_index p i)) + Z.b2z (float_bool x) →
  (∀ j, j ≠ i → s' j = s j) → nonzero x = (s' i ≫= λ x, nonzero (float32 (min_p (params x)))) →
  min_p_in_step n s' (mkMinP c (<[i := x]> (min_p_cpu p)) sl).
Proof.
  intros [(Hn & Hp & Hc) Hs] Hi Hx -> Hs' Hxi. cbn in *. split.
  - cbn -[insert count_nonzero]. split_and!; [by rewrite length_insert|by apply Forall_insert|].
    rewrite (count_insert _ _ _ _ (get_min_p_in p i ltac:(lia))). lia.
  - intros j. rewrite get_min_p_insert by lia. destruct (decide (j = i)) as [->|Hj]; [done|]. rewrite Hs' by done. apply Hs.
Qed.

Lemma min_p_added_step n s acc x :
  min_p_in_step n s acc.1 → (x.1 < n)%nat → lp_accepts (P:=MinP) x.2 → min_p_in_step n (slot_add s x) (min_p_added acc x).1.
Proof.
  destruct acc as [p b], x as [i x]. cbn. intros Hp Hi [Hpl Hb]. unfold float32_ne.
  assert (∀ j, j ≠ i → slot_add s (i, x) j = s j) as Hother by (intros j Hj; unfold slot_add; by rewrite decide_False).
  assert (slot_add s (i, x) i = Some x) as Hat by (unfold slot_add; by rewrite decide_True).
  destruct (SFeqb _ _) eqn:E; cbn.
  - destruct Hp as [Hok Hs]. split; [done|]. intros j. destruct (decide (j = i)) as [->|Hj]; [|by rewrite Hother].
    rewrite Hat. cbn. f_equal. apply SFeqb_plain; [|done|done]. apply get_min_p_plain, Hok.
  - eapply min_p_write; [exact Hp|done|done| |done|by rewrite Hat].
    rewrite Hb. destruct (float_bool (min_p (params x))), (float_bool (get_min_p_by_index p i)); cbn; lia.
Qed.

Lemma min_p_removed_step n s p i : min_p_in_step n s p → (i < n)%nat → min_p_in_step n (slot_remove s i) (min_p_removed p i).
Proof.
  intros Hp Hi. unfold min_p_removed.
  assert (∀ j, j ≠ i → slot_remove s i j = s j) as Hother by (intros j Hj; unfold slot_remove; by rewrite decide_False).
  assert (slot_remove s i i = None) as Hat by (unfold slot_remove; by rewrite decide_True).
  destruct (float_bool _) eqn:E.
  - eapply min_p_write; [exact Hp|done|done| |done|by rewrite Hat]. rewrite E. cbn. lia.
  - destruct Hp as [Hok Hs]. split; [done|]. intros j. destruct (decide (j = i)) as [->|Hj]; [|by rewrite Hother].
    rewrite Hat. unfold nonzero. by rewrite E.
Qed.

(** A move first gives position [b] the value of [a] ... *)
Section min_p_move.
Context (n : nat) (s : Slots) (p : MinP) (a b : nat) (Hp : min_p_in_step n s p) (Ha : (a < n)%nat) (Hb : (b < n)%nat).
Let fa := get_min_p_by_index p a.
Let fb := get_min_p_by_index p b.
Let cpu1 := <[b := fa]> (min_p_cpu p).
Let p1 := mkMinP (min_p_count p - Z.b2z (float_bool fb) + Z.b2z (float_bool fa)) cpu1 (min_p_slice p).
Let s1 : Slots := λ j, if decide (j = b) then s a else s j.

#[local] Lemma min_p_target : min_p_in_step n s1 p1 ∧ get_min_p_by_index p1 a = fa.
Proof.
  destruct (Hp) as [(Hn & Hpl & Hc) Hs]. cbn in Hn. split.
  - eapply min_p_write; [exact Hp|done|by apply get_min_p_plain|done|..]; unfold s1;
      [intros j Hj; by rewrite decide_False|rewrite decide_True by done; apply Hs].
  - unfold p1, cpu1. rewrite get_min_p_insert by lia. by destruct (decide (a = b)).
Qed.

(** ... and then leaves nothing at [a], ... *)
#[local] Lemma min_p_oneway : a ≠ b →
  min_p_in_step n (slot_move s (a, b, UNIDIRECTIONAL))
    (mkMinP (min_p_count p - Z.b2z (float_bool fb)) (if float_bool fa then <[a := zero_float]> cpu1 else cpu1) (min_p_slice p)).
Proof.
  intros Hd. destruct min_p_target as [H1 Ega].
  assert (∀ j, j ≠ a → slot_move s (a, b, UNIDIRECTIONAL) j = s1 j) as Hj
    by (intros j Hj; unfold slot_move, s1; destruct (decide (j = b)); [done|by rewrite decide_False]).
  assert (slot_move s (a, b, UNIDIRECTIONAL) a = None) as Hza by (unfold slot_move; by rewrite decide_False, decide_True by done).
  destruct (float_bool fa) eqn:Ea.
  - apply (min_p_write n s1 _ p1 a zero_float); [exact H1|done|done|rewrite Ega, Ea; cbn; lia|done|by rewrite Hza].
  - destruct H1 as [(?&?&Hc1) Hs1]. split; [split_and!; [done|done|cbn in Hc1 |- *; lia]|].
    intros j. destruct (decide (j = a)) as [->|Hja]; [|rewrite Hj by done; apply Hs1].
    rewrite Hza. change (nonzero (get_min_p_by_index p1 a) = None). rewrite Ega. unfold nonzero. by rewrite Ea.
Qed.

(** ... or, as a swap, the value of [b]. *)
#[local] Lemma min_p_swapped : min_p_in_step n (slot_move s (a, b, SWAP)) (mkMinP (min_p_count p) (<[a := fb]> cpu1) (min_p_slice p)).
Proof.
  destruct min_p_target as [H1 Ega]. destruct (Hp) as [(Hn & _) Hs]. cbn in Hn.
  apply (min_p_write n s1 _ p1 a fb); [exact H1|done|by apply get_min_p_plain, Hp|rewrite Ega; cbn; lia|..]; unfold slot_move, s1.
  - intros j Hj. destruct (decide (j = b)); [done|]. by rewrite decide_False.
  - destruct (decide (a = b)) as [->|]; rewrite ?decide_True by done; apply Hs.
Qed.

(** Equal values are not written. *)
#[local] Lemma min_p_equal : SFeqb fa fb = true → fa = fb ∧ cpu1 = min_p_cpu p.
Proof.
  destruct (Hp) as [(Hn & Hpl & Hc) Hs]. cbn in Hn. intros E%SFeqb_plain; [|by apply get_min_p_plain..].
  split; [done|]. unfold cpu1. rewrite E. apply list_insert_id. apply get_min_p_in. lia.
Qed.

Lemma min_p_moved_one u d : (d = UNIDIRECTIONAL → a ≠ b) → min_p_in_step n (slot_move s (a, b, d)) (min_p_moved (p, u) (a, b, d)).1.
Proof.
  intros Hd. unfold min_p_moved. destruct (Hp) as [(Hn & _) _]. cbn in Hn. fold fa fb. destruct d.
  - pose proof (min_p_oneway (Hd eq_refl)) as H2.
    rewrite (bool_decide_eq_true_2 (UNIDIRECTIONAL = UNIDIRECTIONAL)), (bool_decide_eq_false_2 (UNIDIRECTIONAL = SWAP)) by done.
    replace (if float_bool fb then min_p_count p - 1 else min_p_count p) with (min_p_count p - Z.b2z (float_bool fb)) by (destruct (float_bool fb); cbn; lia).
    destruct (SFeqb fa fb) eqn:E; cbn; [rewrite (proj2 (min_p_equal E)) in H2|]; exact H2.
  - pose proof min_p_swapped as H2.
    rewrite (bool_decide_eq_false_2 (SWAP = UNIDIRECTIONAL)), (bool_decide_eq_true_2 (SWAP = SWAP)) by done.
    destruct (SFeqb fa fb) eqn:E; cbn; [|exact H2]. destruct (min_p_equal E) as [E1 E2].
    assert (<[a := fb]> cpu1 = min_p_cpu p) as E3; [|by rewrite E3 in H2].
    rewrite E2, <-E1. apply list_insert_id, get_min_p_in. lia.
Qed.
End min_p_move.

Lemma min_p_moved_step n s acc a b d :
  min_p_in_step n s acc.1 → (a < n)%nat → (b < n)%nat → (d = UNIDIRECTIONAL → a ≠ b) →
  min_p_in_step n (slot_move s (a, b, d)) (min_p_moved acc (a, b, d)).1.
Proof. destruct acc as [p u]. intros Hp Ha Hb Hd. by apply min_p_moved_one. Qed.

Lemma foldl_steps {A B} (f : A → B → A) (g : Slots → B → Slots) (P : Slots → A → Prop) (Q : B → Prop) l :
  (∀ s a x, Q x → P s a → P (g s x) (f a x)) → ∀ s a, Forall Q l → P s a → P (foldl g s l) (foldl f a l).
Proof. intros Hf s a HQ. revert s a. induction HQ as [|x l Hx _ IH]; intros s a Ha; [done|]. cbn. by apply IH, Hf. Qed.

(** With no value in use the update changes nothing more. *)
Lemma min_p_none n s p : min_p_in_step n s p → min_p_count p = 0 → ∀ i, s i ≫= (λ x, nonzero (float32 (min_p (params x)))) = None.
Proof. intros [(_ & _ & Hc) Hs] H0 i. rewrite <-Hs. unfold get_min_p_by_index. apply count_zero. congruence. Qed.

Lemma slots_none {A} (f : SlotInfo → option A) s (rs : list nat) (ms : list MovedRequest) :
  (∀ i, s i ≫= f = None) → ∀ i, foldl slot_move (foldl slot_remove s rs) ms i ≫= f = None.
Proof.
  intros Hs. apply (foldl_inv slot_move (λ s, ∀ i, s i ≫= f = None) (λ _, True)); [|by apply Forall_forall|].
  - intros s' [[a b] d] _ Hs' i. unfold slot_move. repeat case_decide; try done; apply Hs'.
  - apply (foldl_inv slot_remove (λ s, ∀ i, s i ≫= f = None) (λ _, True)); [|by apply Forall_forall|done].
    intros s' k _ Hs' i. unfold slot_remove. case_decide; [done|apply Hs'].
Qed.

#[export] Instance min_p_laws : LogitsProcessorLaws MinP spec_float.
Proof.
  intros n h h' s u p Hp _ Hu Hacc. destruct u as [u|]; [|exact Hp]. destruct (Hu u eq_refl) as (Hrem & Hmov & Hadd). specialize (λ i x, Hacc u i x eq_refl).
  assert (min_p_in_step n (apply_update s u) (min_p_update (Some u) p)) as Hfin; [|exact Hfin].
  cbn [min_p_update]. destruct (foldl min_p_added (p, false) (added u)) as [p1 b1] eqn:E1.
  assert (min_p_in_step n (foldl slot_add s (added u)) p1) as H1.
  { assert (p1 = (foldl min_p_added (p, false) (added u)).1) as -> by by rewrite E1.
    apply (foldl_steps _ _ (λ s acc, min_p_in_step n s acc.1) (λ x, (x.1 < n)%nat ∧ lp_accepts (P:=MinP) x.2)); [|apply Forall_forall|exact Hp].
    - intros s' acc x [Hx1 Hx2] Ha. by apply min_p_added_step.
    - intros [i x] Hx. split; [by eapply Hadd|by eapply Hacc]. }
  set (s2 := foldl slot_move (foldl slot_remove (foldl slot_add s (added u)) (removed u)) (moved u)).
  assert (∀ q, min_p_in_step n s2 q → min_p_in_step n (apply_update s u) q) as Hswap.
  { intros q [Hok Hs2]. split; [done|]. intros i. rewrite apply_update_added_first; [apply Hs2|]. intros k Hk. by apply Hrem. }
  assert (∀ q c, min_p_in_step n s2 q → min_p_in_step n s2 (mkMinP (min_p_count q) (min_p_cpu q) c)) as Hslice by by intros q c [Hok Hs2].
  apply Hswap. clear Hswap. case_bool_decide as Hc.
  - assert (min_p_in_step n s2 p1) as H2; [|destruct (negb _ && _); [by apply Hslice|done]].
    split; [apply H1|]. intros i. unfold s2. rewrite slots_none by by eapply min_p_none. unfold get_min_p_by_index. apply count_zero.
    destruct H1 as [(_ & _ & H1) _]. congruence.
  - set (acc := if bool_decide _ then _ else _).
    assert (min_p_in_step n (foldl slot_remove (foldl slot_add s (added u)) (removed u)) acc.1) as H2.
    { assert (acc.1 = foldl min_p_removed p1 (removed u)) as ->.
      { unfold acc. case_bool_decide as El; [|done]. by destruct (removed u). }
      apply (foldl_steps _ _ (min_p_in_step n) (λ i, (i < n)%nat)); [|apply Forall_forall; intros i Hi; by apply Hrem|done].
      intros s' q i Hi Hq. by apply min_p_removed_step. }
    assert (min_p_in_step n s2 (foldl min_p_moved acc (moved u)).1) as H3.
    { apply (foldl_steps _ _ (λ s acc, min_p_in_step n s acc.1) (λ m, (m.1.1 < n)%nat ∧ (m.1.2 < n)%nat ∧ (m.2 = UNIDIRECTIONAL → m.1.1 ≠ m.1.2))); [|apply Forall_forall|done].
      - intros s' a [[i j] d] (Hi & Hj & Hd) Ha. by apply min_p_moved_step.
      - intros [[i j] d] Hm. by apply Hmov. }
    destruct acc as [q b2]. destruct (foldl min_p_moved (q, b2) (moved u)) as [q' b3]. cbn [fst] in H3.
    destruct (negb _ && _); [by apply Hslice|done].
Qed.

(** *** Two processors *)

Definition both {E F} (a : option E) (b : option F) : option (option E * option F) :=
  match a, b with None, None => None | _, _ => Some (a, b) end.

Lemma both_inj {E F} (a c : option E) (b d : option F) : both a b = both c d → a = c ∧ b = d.
Proof. by destruct a, b, c, d; intros [=]; subst. Qed.

#[export] Instance pair_processor {P E Q F} `{LogitsProcessor P E, LogitsProcessor Q F} : LogitsProcessor (P * Q) (option E * option F) := {|
  lp_update h u p := (lp_update h u p.1, lp_update h u p.2);
  lp_entry p i := both (lp_entry p.1 i) (lp_entry p.2 i);
  lp_wanted h x := both (lp_wanted (P:=P) h x) (lp_wanted (P:=Q) h x);
  lp_accepts x := lp_accepts (P:=P) x ∧ lp_accepts (P:=Q) x;
  lp_ok n p := lp_ok n p.1 ∧ lp_ok n p.2
|}.

#[export] Instance pair_laws {P E Q F} `{LogitsProcessorLaws P E, LogitsProcessorLaws Q F} : LogitsProcessorLaws (P * Q) (option E * option F).
Proof.
  intros n h h' s u p [[Hp Hq] He] Hg Hu Hacc.
  assert (∀ i, lp_entry p.1 i = (s i ≫= lp_wanted h) ∧ lp_entry p.2 i = (s i ≫= lp_wanted h)) as He'.
  { intros i. specialize (He i). apply both_inj. by destruct (s i). }
  destruct (lp_update_correct n h h' s u p.1) as [Hp' HP]; [split; [done|]; intros i; apply He'|done..|intros; by eapply Hacc|].
  destruct (lp_update_correct n h h' s u p.2) as [Hq' HQ]; [split; [done|]; intros i; apply He'|done..|intros; by eapply Hacc|].
  split; [by split|]. intros i. cbn [lp_entry lp_update pair_processor]. cbn [fst snd]. rewrite HP, HQ. by destruct (apply_updates s u i).
Qed.

(** ** A run of updates *)

(** The three processors of a batch of at most [n] requests, fed with updates, each with the output
    lists of its time; and the requests that the updates describe. *)
Definition processors_init (n : nat) : LogitBias * MinTokens * MinP := (LogitBias_init, MinTokens_init, MinP_init n).
Definition processors_run (n : nat) (us : list (Heap * option BatchUpdate)) : LogitBias * MinTokens * MinP :=
  foldl (λ p x, lp_update x.1 x.2 p) (processors_init n) us.
Definition slots_run (us : list (Heap * option BatchUpdate)) : Slots := foldl (λ s x, apply_updates s x.2) (λ _, None) us.

(** The output lists grow from one update to the next, and each update is one of the batch with values
    of min-p that a float32 keeps apart from zero. *)
Definition updates_ok (n : nat) (us : list (Heap * option BatchUpdate)) : Prop :=
  (∀ k x y, us !! k = Some x → us !! S k = Some y → grows x.1 y.1) ∧
  ∀ h u, (h, Some u) ∈ us → update_ok n u ∧ ∀ i x, (i, x) ∈ added u → lp_accepts (P:=MinP) x.

Lemma processors_run_in_step n us h o :
  updates_ok n (us ++ [(h, o)]) → lp_in_step n h (slots_run (us ++ [(h, o)])) (processors_run n (us ++ [(h, o)])).
Proof.
  revert h o. induction us as [|[h1 o1] us IH] using rev_ind; intros h o [Hg Hu].
  - apply (lp_update_correct n (λ _, []) h (λ _, None) o (processors_init n)).
    + split; [|by intros i; cbn; unfold get_min_p_by_index; cbn; destruct (replicate n zero_float !! i) as [f|] eqn:Ef; [apply lookup_replicate in Ef as [-> _]|]].
      cbn. split_and!; [constructor|constructor|done|constructor|done|by rewrite length_replicate|by apply Forall_replicate|].
      clear. induction n as [|n IH]; [done|]. unfold count_nonzero in *. cbn. by rewrite <-IH.
    + intros a. cbn. lia.
    + intros u ->. apply (Hu h). by left.
    + intros u i x -> Hx. split; [done|]. eapply (Hu h); [by left|exact Hx].
  - unfold slots_run, processors_run. rewrite (foldl_app _ (us ++ [(h1, o1)])), (foldl_app (λ p x, lp_update x.1 x.2 p) (us ++ [(h1, o1)])). apply (lp_update_correct n h1 h).
    + apply IH. split.
      * intros k x y Hx Hy. apply (Hg k); [by apply lookup_app_l_Some|]. by apply lookup_app_l_Some.
      * intros h' u Hin. apply (Hu h'). apply elem_of_app. by left.
    + apply (Hg (length us) (h1, o1) (h, o)).
      * rewrite <-app_assoc. by apply list_lookup_middle.
      * apply list_lookup_middle. rewrite length_app. cbn. lia.
    + cbn [snd]. intros u ->. apply (Hu h). apply elem_of_app. right. by left.
    + cbn [snd]. intros u i x -> Hx. split; [done|]. eapply (Hu h); [apply elem_of_app; right; by left|exact Hx].
Qed.

(** C17: fed with any sequence of batch updates, the builtin processors stay in step with the
    batch: at each index the logit bias is that of the request there, the minimum of tokens is
    pending exactly when the request has one and is short of it, and min-p is the rounded value of the
    request; the count and the index lists handed to the device agree with these entries. *)
Theorem processors_follow_batch n us h o :
  updates_ok n (us ++ [(h, o)]) →
  let '(lb, mt, mp) := processors_run n (us ++ [(h, o)]) in
  let s := slots_run (us ++ [(h, o)]) in
  (∀ i, dict_get (biases lb) i = s i ≫= logit_bias_of) ∧ bias_slice lb = slice_of_biases (biases lb) ∧
  (∀ i, dict_get (min_toks mt) i = s i ≫= min_tokens_of h) ∧ stop_slice mt = slice_of_stops (min_toks mt) ∧
  (∀ i, nonzero (get_min_p_by_index mp i) = s i ≫= λ x, nonzero (float32 (min_p (params x)))) ∧ min_p_count mp = count_nonzero (min_p_cpu mp).
Proof.
  intros Hok. pose proof (processors_run_in_step n us h o Hok) as [[[Hlb Hmt] Hmp] He]. destruct (processors_run n (us ++ [(h, o)])) as [[lb mt] mp]. cbn zeta.
  assert (∀ i, dict_get (biases lb) i = (slots_run (us ++ [(h, o)]) i ≫= logit_bias_of) ∧ dict_get (min_toks mt) i = (slots_run (us ++ [(h, o)]) i ≫= min_tokens_of h) ∧
    nonzero (get_min_p_by_index mp i) = (slots_run (us ++ [(h, o)]) i ≫= λ x, nonzero (float32 (min_p (params x))))) as H.
  { intros i. specialize (He i). cbn in He. destruct (slots_run _ i) as [x|]; cbn in *.
    - apply both_inj in He as [He ?]. by apply both_inj in He as [? ?].
    - by destruct (dict_get (biases lb) i), (dict_get (min_toks mt) i), (nonzero _). }
  split_and!; [intros i; apply H|apply Hlb|intros i; apply H|apply Hmt|intros i; apply H|apply Hmp].
Qed.

(** ** The thinking budget does not follow a move *)

(** A request without a budget that moves to the index of a removed one with a budget is left with
    the budget and the state of the other. *)
Definition no_sampling (budget : option Z) : SamplingParams :=
  mkSampling zero_float None zero_float 0 zero_float zero_float zero_float zero_float None 0 [] None None None budget.
Example thinking_budget_stays :
  let h : Heap := λ _, [7] in
  let first := mkUpdate 2 [] [(0%nat, mkInfo (no_sampling (Some 5)) None 0); (1%nat, mkInfo (no_sampling None) None 1)] [] in
  let second := mkUpdate 1 [] [] [(1%nat, 0%nat, UNIDIRECTIONAL)] in
  let e := think_update [1] [2] h (Some second) (think_update [1] [2] h (Some first) []) in
  apply_update (apply_update (λ _, None) first) second 0%nat = Some (mkInfo (no_sampling None) None 1) ∧
  (think_budget <$> dict_get e 0%nat) = Some 5.
Proof. by vm_compute. Qed.

(** Two requests join, the second with a minimum of one token and a bias; then the first leaves and
    the second, short of its minimum no more, moves to its index. *)
Lemma processors_follow_batch_witness :
  let bias := Some [(7, S754_finite false 1 0)] in
  let half := S754_finite false 4503599627370496 (-53) in
  let p := mkSampling zero_float None zero_float 0 half zero_float zero_float zero_float None 1 [2] bias None None None in
  let us := [((λ _, []) : Heap, Some (mkUpdate 2 [] [(0%nat, mkInfo (no_sampling None) None 0); (1%nat, mkInfo p None 1)] []))] in
  let h : Heap := λ _, [5] in
  let o := Some (mkUpdate 1 [] [] [(1%nat, 0%nat, UNIDIRECTIONAL)]) in
  let '(lb, mt, mp) := processors_run 4 (us ++ [(h, o)]) in
  dict_get (biases lb) 0%nat = bias ∧ dict_get (min_toks mt) 0%nat = None ∧ min_p_count mp = 1.
Proof.
  cbv zeta.
  set (p := mkSampling _ _ _ _ _ _ _ _ _ _ _ _ _ _ _).
  set (us := [((λ _, []) : Heap, Some (mkUpdate 2 [] [(0%nat, mkInfo (no_sampling None) None 0); (1%nat, mkInfo p None 1)] []))]).
  set (o := Some (mkUpdate 1 [] [] [(1%nat, 0%nat, UNIDIRECTIONAL)])).
  pose proof (processors_follow_batch 4 us (λ _, [5]) o) as H. destruct (processors_run 4 (us ++ [(λ _, [5], o)])) as [[lb mt] mp] eqn:E.
  destruct H as (H1 & _ & H2 & _).
  - split.
    + intros [|[|k]] x y Hx Hy; cbn in *; simplify_eq. intros a. cbn. lia.
    + intros h u [Hin|[Hin|Hin%elem_of_nil]%elem_of_cons]%elem_of_cons; [| |done]; injection Hin as -> ->.
      * split; [split_and!|].
        -- by intros i ?%elem_of_nil.
        -- by intros a b d ?%elem_of_nil.
        -- intros i x [Hx|[Hx|Hx%elem_of_nil]%elem_of_cons]%elem_of_cons; [| |done]; injection Hx as -> ->; lia.
        -- intros i x [Hx|[Hx|Hx%elem_of_nil]%elem_of_cons]%elem_of_cons; [| |done]; injection Hx as -> ->; by vm_compute.
      * split; [split_and!|].
        -- by intros i ?%elem_of_nil.
        -- intros a b d [Hm|Hm%elem_of_nil]%elem_of_cons; [|done]. injection Hm as -> -> ->. repeat split; lia.
        -- by intros i x ?%elem_of_nil.
        -- by intros i x ?%elem_of_nil.
  - split; [by rewrite H1|]. split; [by rewrite H2|]. by vm_compute in E; simplify_eq.
Defined.
