(* ===== verification/BlockTable.v ===== *)
(** * Block tables of the worker

    [vllm/v1/worker/block_table.py]: the table of a KV cache group with a row of block ids for each
    request of the batch, the tables of all groups, and the kernel that maps each token to its slot
    in the cache.  An array of numpy is a list of fixed length; rows are indexed by the non-negative
    indices of the batch. *)

From stdpp Require Import base list.
From Stdlib Require Import ZArith Lia.
From S2P Require Import Prelude.
Local Open Scope Z_scope.

(** ** Arrays *)

(** [a[i]] and [a[i] = x] *)
Definition arr_get {A} (l : list A) (i : nat) : res A := match l !! i with Some x => Ok x | None => Err IndexError end.
Definition arr_set {A} (l : list A) (i : nat) (x : A) : res (list A) :=
  if bool_decide (i < length l)%nat then Ok (<[i := x]> l) else Err IndexError.

(** [a[i:j] = vs] of numpy: the slice is clipped to the array, and one value fills any slice. *)
Definition slice_set {A} (i j : nat) (vs : list A) (l : list A) : res (list A) :=
  let j' := (j `min` length l)%nat in
  let i' := (i `min` length l)%nat in
  let width := (j' - i')%nat in
  if bool_decide (length vs = width) then Ok (take i' l ++ vs ++ drop (i' + width) l)
  else match vs with
       | [v] => Ok (take i' l ++ replicate width v ++ drop (i' + width) l)
       | _ => Err ValueError
       end.

(** ** [BlockTable] *)

Record BlockTable := mkBlockTable {
  block_size : Z;
  blocks_per_kv_block : nat;
  use_hybrid_blocks : bool;
  max_num_blocks_per_req : nat;
  max_num_batched_tokens : nat;
  block_table : list (list Z);
  block_table_gpu : list (list Z);
  num_blocks_per_row : list nat;
  slot_mapping : list Z;
  total_cp_world_size : Z;
  total_cp_rank : Z;
  cp_kv_cache_interleave_size : Z
}.
Definition set_block_table f (t : BlockTable) := mkBlockTable (block_size t) (blocks_per_kv_block t) (use_hybrid_blocks t) (max_num_blocks_per_req t) (max_num_batched_tokens t) (f (block_table t)) (block_table_gpu t) (num_blocks_per_row t) (slot_mapping t) (total_cp_world_size t) (total_cp_rank t) (cp_kv_cache_interleave_size t).
Definition set_gpu f (t : BlockTable) := mkBlockTable (block_size t) (blocks_per_kv_block t) (use_hybrid_blocks t) (max_num_blocks_per_req t) (max_num_batched_tokens t) (block_table t) (f (block_table_gpu t)) (num_blocks_per_row t) (slot_mapping t) (total_cp_world_size t) (total_cp_rank t) (cp_kv_cache_interleave_size t).
Definition set_num_blocks f (t : BlockTable) := mkBlockTable (block_size t) (blocks_per_kv_block t) (use_hybrid_blocks t) (max_num_blocks_per_req t) (max_num_batched_tokens t) (block_table t) (block_table_gpu t) (f (num_blocks_per_row t)) (slot_mapping t) (total_cp_world_size t) (total_cp_rank t) (cp_kv_cache_interleave_size t).
Definition set_slot_mapping f (t : BlockTable) := mkBlockTable (block_size t) (blocks_per_kv_block t) (use_hybrid_blocks t) (max_num_blocks_per_req t) (max_num_batched_tokens t) (block_table t) (block_table_gpu t) (num_blocks_per_row t) (f (slot_mapping t)) (total_cp_world_size t) (total_cp_rank t) (cp_kv_cache_interleave_size t).

(** The sizes and ranks of prefill and decode context parallelism, [pcp] and [dcp]. *)
Definition BlockTable_init (size : Z) (max_num_reqs max_blocks max_tokens : nat) (kernel_block_size interleave : Z)
    (pcp_world_size pcp_rank dcp_world_size dcp_rank : Z) : res BlockTable :=
  let make bs per hybrid :=
    let max_blocks := (max_blocks * per)%nat in
    mkBlockTable bs per hybrid max_blocks max_tokens (replicate max_num_reqs (replicate max_blocks 0)) (replicate max_num_reqs (replicate max_blocks 0))
      (replicate max_num_reqs 0%nat) (replicate max_tokens 0) (pcp_world_size * dcp_world_size) (pcp_rank * dcp_world_size + dcp_rank) interleave in
  if bool_decide (kernel_block_size = size) then Ok (make size 1%nat false)
  else
    r ← py_mod size kernel_block_size;
    if negb (bool_decide (r = 0)) then Err ValueError
    else q ← py_div size kernel_block_size; Ok (make kernel_block_size (Z.to_nat q) true).

Definition map_to_kernel_blocks (ids : list Z) (per : nat) : list Z :=
  if bool_decide (per = 1%nat) then ids else concat (map (λ b, map (λ k, b * Z.of_nat per + Z.of_nat k) (seq 0 per)) ids).

(** The ids that go into a row. *)
Definition kernel_ids (t : BlockTable) (ids : list Z) : list Z :=
  if use_hybrid_blocks t then map_to_kernel_blocks ids (blocks_per_kv_block t) else ids.

Definition append_row (ids : list Z) (row_idx : nat) : M BlockTable unit :=
  if bool_decide (length ids = 0%nat) then mret tt
  else
    t ← gets Datatypes.id;
    let ids := kernel_ids t ids in
    start ← lift_res (arr_get (num_blocks_per_row t) row_idx);
    modify (set_num_blocks (<[row_idx := (start + length ids)%nat]>)) ;;
    row ← lift_res (arr_get (block_table t) row_idx);
    row' ← lift_res (slice_set start (start + length ids) ids row);
    modify (set_block_table (<[row_idx := row']>)).

Definition add_row (ids : list Z) (row_idx : nat) : M BlockTable unit :=
  t ← gets Datatypes.id;
  counts ← lift_res (arr_set (num_blocks_per_row t) row_idx 0%nat);
  modify (set_num_blocks (λ _, counts)) ;;
  append_row ids row_idx.

Definition clear_row (row_idx : nat) : M BlockTable unit :=
  t ← gets Datatypes.id;
  num_blocks ← lift_res (arr_get (num_blocks_per_row t) row_idx);
  (if bool_decide (0 < num_blocks)%nat then
     row ← lift_res (arr_get (block_table t) row_idx);
     modify (set_block_table (<[row_idx := replicate (num_blocks `min` length row) 0 ++ drop num_blocks row]>))
   else mret tt) ;;
  modify (set_num_blocks (<[row_idx := 0%nat]>)).

Definition move_row (src tgt : nat) : M BlockTable unit :=
  t ← gets Datatypes.id;
  num_blocks ← lift_res (arr_get (num_blocks_per_row t) src);
  from ← lift_res (arr_get (block_table t) src);
  to ← lift_res (arr_get (block_table t) tgt);
  modify (set_block_table (<[tgt := take num_blocks from ++ drop num_blocks to]>)) ;;
  modify (set_num_blocks (<[tgt := num_blocks]>)).

Definition swap_row (src tgt : nat) : M BlockTable unit :=
  t ← gets Datatypes.id;
  ns ← lift_res (arr_get (num_blocks_per_row t) src);
  nt ← lift_res (arr_get (num_blocks_per_row t) tgt);
  modify (set_num_blocks (λ l, <[tgt := ns]> (<[src := nt]> l))) ;;
  rs ← lift_res (arr_get (block_table t) src);
  rt ← lift_res (arr_get (block_table t) tgt);
  modify (set_block_table (λ l, <[tgt := rs]> (<[src := rt]> l))).

Definition commit_block_table (num_reqs : nat) : M BlockTable unit :=
  modify (λ t, set_gpu (λ gpu, take num_reqs (block_table t) ++ drop num_reqs gpu) t).

Definition clear : M BlockTable unit :=
  let zero := map (λ row : list Z, replicate (length row) 0) in
  modify (set_gpu zero) ;; modify (set_block_table zero).

Definition get_device_tensor (t : BlockTable) (num_reqs : nat) : list (list Z) := take num_reqs (block_table_gpu t).

(** ** Slots *)

Definition PAD_SLOT_ID : Z := -1.

(** The body of [_compute_slot_mapping_kernel] for one token: the number of the block in the row, and
    the slot in that block, or the padding when the token belongs to another rank. *)
Definition block_index (t : BlockTable) (pos : Z) : Z := pos / (block_size t * total_cp_world_size t).
Definition is_local (t : BlockTable) (pos : Z) : bool :=
  let virtual_block_size := block_size t * total_cp_world_size t in
  let virtual_block_offset := pos - block_index t pos * virtual_block_size in
  bool_decide ((virtual_block_offset / cp_kv_cache_interleave_size t) mod total_cp_world_size t = total_cp_rank t).
Definition local_block_offset (t : BlockTable) (pos : Z) : Z :=
  let virtual_block_offset := pos - block_index t pos * (block_size t * total_cp_world_size t) in
  (virtual_block_offset / (total_cp_world_size t * cp_kv_cache_interleave_size t)) * cp_kv_cache_interleave_size t +
    virtual_block_offset mod cp_kv_cache_interleave_size t.
Definition slot_id (t : BlockTable) (row : list Z) (pos : Z) : Z :=
  let block_number := default 0 (row !! Z.to_nat (block_index t pos)) in
  if is_local t pos then block_number * block_size t + local_block_offset t pos else PAD_SLOT_ID.

(** The program of request [r] stores the slots of its tokens, from [start] on. *)
Fixpoint store_slots (t : BlockTable) (row : list Z) (positions : list Z) (start : nat) (n : nat) (mapping : list Z) : list Z :=
  match n with
  | O => mapping
  | S n => store_slots t row positions (S start) n (<[start := slot_id t row (default 0 (positions !! start))]> mapping)
  end.
Definition request_slots (t : BlockTable) (query_start_loc : list nat) (positions : list Z) (mapping : list Z) (r : nat) : list Z :=
  let start_idx := default 0%nat (query_start_loc !! r) in
  let end_idx := default 0%nat (query_start_loc !! S r) in
  store_slots t (default [] (block_table_gpu t !! r)) positions start_idx (end_idx - start_idx) mapping.

(** The programs write different parts of the mapping; the last one pads the rest. *)
Definition compute_slot_mapping (num_reqs : nat) (query_start_loc : list nat) (positions : list Z) : M BlockTable unit :=
  modify (λ t, set_slot_mapping (λ mapping,
    take (length positions) (foldl (request_slots t query_start_loc positions) mapping (seq 0 num_reqs)) ++
    replicate (max_num_batched_tokens t - length positions) PAD_SLOT_ID) t).

(** ** [MultiGroupBlockTable] *)

(** [for i, block_table in enumerate(self.block_tables)] *)
Fixpoint each_table (i : nat) (f : nat → M BlockTable unit) (ts : list BlockTable) : res unit * list BlockTable :=
  match ts with
  | [] => (Ok tt, [])
  | t :: ts =>
      let '(r, t') := f i t in
      match r with
      | Ok _ => let '(r, ts') := each_table (S i) f ts in (r, t' :: ts')
      | Err e => (Err e, t' :: ts)
      end
  end.

(** [block_ids[i]] for the tables of each group. *)
Definition with_ids (ids : list (list Z)) (f : list Z → M BlockTable unit) (i : nat) : M BlockTable unit :=
  l ← lift_res (arr_get ids i); f l.
Definition mg_append_row (ids : list (list Z)) (row_idx : nat) : M (list BlockTable) unit := each_table 0 (with_ids ids (λ l, append_row l row_idx)).
Definition mg_add_row (ids : list (list Z)) (row_idx : nat) : M (list BlockTable) unit := each_table 0 (with_ids ids (λ l, add_row l row_idx)).
Definition mg_clear_row (row_idx : nat) : M (list BlockTable) unit := each_table 0 (λ _, clear_row row_idx).
Definition mg_move_row (src tgt : nat) : M (list BlockTable) unit := each_table 0 (λ _, move_row src tgt).
Definition mg_swap_row (src tgt : nat) : M (list BlockTable) unit := each_table 0 (λ _, swap_row src tgt).
Definition mg_compute_slot_mapping (num_reqs : nat) (query_start_loc : list nat) (positions : list Z) : M (list BlockTable) unit :=
  each_table 0 (λ _, compute_slot_mapping num_reqs query_start_loc positions).
Definition mg_commit_block_table (num_reqs : nat) : M (list BlockTable) unit := each_table 0 (λ _, commit_block_table num_reqs).
Definition mg_clear : M (list BlockTable) unit := each_table 0 (λ _, clear).

(** [max_num_blocks]: one entry for each group, by default what a request of the greatest length needs. *)
Definition MultiGroupBlockTable_init (max_num_reqs : nat) (max_model_len : Z) (max_tokens : nat) (block_sizes kernel_block_sizes : list Z)
    (max_num_blocks : option (list Z)) (interleave pcp_world_size pcp_rank dcp_world_size dcp_rank : Z) : res (list BlockTable) :=
  if negb (bool_decide (length kernel_block_sizes = length block_sizes)) then Err ValueError
  else
    let max_num_blocks := default (map (λ bs, cdiv max_model_len (bs * (dcp_world_size * pcp_world_size))) block_sizes) max_num_blocks in
    if negb (bool_decide (length max_num_blocks = length block_sizes)) then Err ValueError
    else map_res (λ '(bs, (ks, mb)), BlockTable_init bs max_num_reqs (Z.to_nat mb) max_tokens ks interleave pcp_world_size pcp_rank dcp_world_size dcp_rank)
           (zip block_sizes (zip kernel_block_sizes max_num_blocks)).

(** ** Rows *)

(** The block ids of a row in use. *)
Definition row_blocks (t : BlockTable) (i : nat) : option (list Z) :=
  n ← num_blocks_per_row t !! i; cells ← block_table t !! i; Some (take n cells).

(** A table of [n] rows. *)
Definition table_ok (n : nat) (t : BlockTable) : Prop :=
  length (num_blocks_per_row t) = n ∧ length (block_table t) = n ∧
  (∀ i row, block_table t !! i = Some row → length row = max_num_blocks_per_req t) ∧
  ∀ i k, num_blocks_per_row t !! i = Some k → (k ≤ max_num_blocks_per_req t)%nat.

(** What no operation on rows changes. *)
Definition same_shape (t t' : BlockTable) : Prop :=
  block_size t' = block_size t ∧ blocks_per_kv_block t' = blocks_per_kv_block t ∧ use_hybrid_blocks t' = use_hybrid_blocks t ∧
  max_num_blocks_per_req t' = max_num_blocks_per_req t.

Lemma same_shape_ids t t' ids : same_shape t t' → kernel_ids t' ids = kernel_ids t ids.
Proof. intros (_ & E1 & E2 & _). unfold kernel_ids. by rewrite E1, E2. Qed.

Lemma kernel_ids_app t a b : kernel_ids t (a ++ b) = kernel_ids t a ++ kernel_ids t b.
Proof.
  unfold kernel_ids, map_to_kernel_blocks. destruct (use_hybrid_blocks t); [|done]. case_bool_decide; [done|]. by rewrite map_app, concat_app.
Qed.

Lemma kernel_ids_nil t : kernel_ids t [] = [].
Proof. unfold kernel_ids, map_to_kernel_blocks. destruct (use_hybrid_blocks t); [|done]. by case_bool_decide. Qed.

Lemma arr_get_ok {A} (l : list A) i x : l !! i = Some x → arr_get l i = Ok x.
Proof. intros E. unfold arr_get. by rewrite E. Qed.

Lemma slice_set_ok {A} i (vs l : list A) :
  (i + length vs ≤ length l)%nat → slice_set i (i + length vs) vs l = Ok (take i l ++ vs ++ drop (i + length vs) l).
Proof.
  intros Hl. unfold slice_set. rewrite !Nat.min_l by lia. replace (i + length vs - i)%nat with (length vs) by lia. by rewrite bool_decide_eq_true_2.
Qed.

Lemma row_lookup n t i :
  table_ok n t → (i < n)%nat →
  ∃ k cells, num_blocks_per_row t !! i = Some k ∧ block_table t !! i = Some cells ∧
    length cells = max_num_blocks_per_req t ∧ (k ≤ length cells)%nat ∧ row_blocks t i = Some (take k cells).
Proof.
  intros (H1 & H2 & H3 & H4) Hi. destruct (lookup_lt_is_Some_2 (num_blocks_per_row t) i) as [k Hk]; [lia|].
  destruct (lookup_lt_is_Some_2 (block_table t) i) as [cells Hc]; [lia|]. exists k, cells.
  pose proof (H3 _ _ Hc). pose proof (H4 _ _ Hk). split_and!; try done; [lia|]. unfold row_blocks. by rewrite Hk; cbn; rewrite Hc.
Qed.

(** Writing the count and the cells of row [i] leaves the other rows as they are. *)
Lemma write_row n t i k cells :
  table_ok n t → (i < n)%nat → length cells = max_num_blocks_per_req t → (k ≤ length cells)%nat →
  let t' := set_num_blocks (<[i := k]>) (set_block_table (<[i := cells]>) t) in
  table_ok n t' ∧ ∀ j, row_blocks t' j = if decide (j = i) then Some (take k cells) else row_blocks t j.
Proof.
  intros (H1 & H2 & H3 & H4) Hi Hc Hk. cbn zeta. split.
  - unfold table_ok. cbn -[insert]. rewrite !length_insert. split_and!; [done|done|..].
    + intros j row. destruct (decide (j = i)) as [->|Hj]; [rewrite list_lookup_insert_eq by lia; by intros [= <-]|rewrite list_lookup_insert_ne by done; apply H3].
    + intros j m. destruct (decide (j = i)) as [->|Hj]; [rewrite list_lookup_insert_eq by lia; intros [= <-]; lia|rewrite list_lookup_insert_ne by done; apply H4].
  - intros j. unfold row_blocks. cbn -[insert mbind]. destruct (decide (j = i)) as [->|Hj].
    + by rewrite !list_lookup_insert_eq by lia.
    + by rewrite !list_lookup_insert_ne by done.
Qed.

(** An operation that keeps the shape of a table and whose effect on the rows is [f]. *)
Definition row_op (n : nat) (m : M BlockTable unit) (t : BlockTable) (f : nat → option (list Z)) : Prop :=
  wp m (λ _ t', table_ok n t' ∧ same_shape t t' ∧ ∀ j, row_blocks t' j = f j) no_exn t.

(** Reads an element known to be there. *)
Ltac arr_step H :=
  unfold Datatypes.id; cbn [num_blocks_per_row block_table set_num_blocks set_block_table];
  rewrite (arr_get_ok _ _ _ H); apply wp_lift_res; [|done]; intros ? [= <-]; cbn beta; wp_steps.

Lemma append_row_spec n t i ids ks :
  table_ok n t → row_blocks t i = Some ks → (length ks + length (kernel_ids t ids) ≤ max_num_blocks_per_req t)%nat →
  row_op n (append_row ids i) t (λ j, if decide (j = i) then Some (ks ++ kernel_ids t ids) else row_blocks t j).
Proof.
  intros Hok Hks Hcap. unfold row_op, append_row. case_bool_decide as He.
  { destruct ids; [|done]. apply wp_ret. split; [done|]. split; [done|]. intros j. rewrite kernel_ids_nil, app_nil_r. destruct (decide (j = i)) as [->|]; done. }
  assert (i < n)%nat as Hi.
  { destruct Hok as (<- & _). unfold row_blocks in Hks. destruct (num_blocks_per_row t !! i) eqn:E; [|done]. by eapply lookup_lt_Some. }
  destruct (row_lookup n t i Hok Hi) as (k & cells & Hk & Hc & Hlen & Hle & Hrow). rewrite Hrow in Hks. injection Hks as <-.
  rewrite length_take, Nat.min_l in Hcap by lia.
  wp_steps. arr_step Hk.
  arr_step Hc.
  rewrite slice_set_ok by lia. apply wp_lift_res; [|done]. intros a [= <-]. apply wp_modify.
  set (cells' := take k cells ++ _ ++ _).
  assert (length cells' = max_num_blocks_per_req t) as Hlen'.
  { unfold cells'. rewrite !length_app, length_take, length_drop. cbn -[kernel_ids]. lia. }
  destruct (write_row n t i (k + length (kernel_ids t ids)) cells' Hok Hi Hlen' ltac:(lia)) as [Hok' Hr].
  split; [exact Hok'|]. split; [done|]. intros j. etrans; [apply Hr|]. destruct (decide (j = i)); [|done]. f_equal.
  unfold cells'. rewrite app_assoc, take_app_length'; [done|]. rewrite length_app, length_take. cbn -[kernel_ids]. lia.
Qed.

Lemma add_row_spec n t i ids :
  table_ok n t → (i < n)%nat → (length (kernel_ids t ids) ≤ max_num_blocks_per_req t)%nat →
  row_op n (add_row ids i) t (λ j, if decide (j = i) then Some (kernel_ids t ids) else row_blocks t j).
Proof.
  intros Hok Hi Hcap. unfold row_op, add_row. destruct (row_lookup n t i Hok Hi) as (k & cells & Hk & Hc & Hlen & Hle & Hrow).
  wp_steps. unfold Datatypes.id, arr_set. rewrite bool_decide_eq_true_2 by (by eapply lookup_lt_Some). apply wp_lift_res; [|done]. intros a [= <-]. wp_steps.
  assert (set_num_blocks (λ _, <[i := 0%nat]> (num_blocks_per_row t)) t = set_num_blocks (<[i := 0%nat]>) (set_block_table (<[i := cells]>) t)) as ->.
  { unfold set_num_blocks, set_block_table. cbn -[insert]. by rewrite (list_insert_id (block_table t)). }
  destruct (write_row n t i 0 cells Hok Hi Hlen ltac:(lia)) as [Hok' Hr]. set (t1 := set_num_blocks _ _) in *.
  assert (row_blocks t1 i = Some []) as Hr1 by by rewrite Hr, decide_True.
  assert (same_shape t t1) as Hs by done.
  eapply wp_mono; [apply (append_row_spec n t1 i ids [] Hok' Hr1); rewrite (same_shape_ids t t1) by done; cbn; exact Hcap| |done].
  cbn beta. intros _ t' (Hok2 & Hs2 & Hr2). split; [done|]. split; [exact Hs2|]. intros j. rewrite Hr2, Hr, (same_shape_ids t t1) by done. by destruct (decide (j = i)).
Qed.

Lemma clear_row_spec n t i :
  table_ok n t → (i < n)%nat → row_op n (clear_row i) t (λ j, if decide (j = i) then Some [] else row_blocks t j).
Proof.
  intros Hok Hi. unfold row_op, clear_row. destruct (row_lookup n t i Hok Hi) as (k & cells & Hk & Hc & Hlen & Hle & Hrow).
  wp_steps. arr_step Hk.
  - arr_step Hc. set (cells' := replicate _ _ ++ _).
    assert (length cells' = max_num_blocks_per_req t) as Hlen' by (unfold cells'; rewrite length_app, length_replicate, length_drop; lia).
    destruct (write_row n t i 0 cells' Hok Hi Hlen' ltac:(lia)) as [Hok' Hr]. split; [exact Hok'|]. by split.
  - destruct (write_row n t i 0 cells Hok Hi Hlen ltac:(lia)) as [Hok' Hr].
    assert (set_num_blocks (<[i := 0%nat]>) t = set_num_blocks (<[i := 0%nat]>) (set_block_table (<[i := cells]>) t)) as E.
    { unfold set_num_blocks, set_block_table. cbn -[insert]. by rewrite (list_insert_id (block_table t)). }
    rewrite <-E in Hok', Hr. split; [exact Hok'|]. by split.
Qed.

Lemma move_row_spec n t src tgt :
  table_ok n t → (src < n)%nat → (tgt < n)%nat →
  row_op n (move_row src tgt) t (λ j, if decide (j = tgt) then row_blocks t src else row_blocks t j).
Proof.
  intros Hok Hs Ht. unfold row_op, move_row.
  destruct (row_lookup n t src Hok Hs) as (k & cells & Hk & Hc & Hlen & Hle & Hrow).
  destruct (row_lookup n t tgt Hok Ht) as (k' & cells' & Hk' & Hc' & Hlen' & Hle' & Hrow').
  wp_steps. arr_step Hk.
  arr_step Hc.
  arr_step Hc'. set (new := take _ _ ++ _).
  assert (length new = max_num_blocks_per_req t) as Hnew by (unfold new; rewrite length_app, length_take, length_drop; lia).
  destruct (write_row n t tgt k new Hok Ht Hnew ltac:(lia)) as [Hok' Hr]. split; [exact Hok'|]. split; [done|]. intros j. etrans; [apply Hr|].
  destruct (decide (j = tgt)); [|done]. rewrite Hrow. f_equal. unfold new. rewrite take_app_length'; [done|]. rewrite length_take. lia.
Qed.

Lemma swap_row_spec n t src tgt :
  table_ok n t → (src < n)%nat → (tgt < n)%nat →
  row_op n (swap_row src tgt) t (λ j, if decide (j = tgt) then row_blocks t src else if decide (j = src) then row_blocks t tgt else row_blocks t j).
Proof.
  intros Hok Hs Ht. unfold row_op, swap_row.
  destruct (row_lookup n t src Hok Hs) as (k & cells & Hk & Hc & Hlen & Hle & Hrow).
  destruct (row_lookup n t tgt Hok Ht) as (k' & cells' & Hk' & Hc' & Hlen' & Hle' & Hrow').
  wp_steps. arr_step Hk.
  arr_step Hk'.
  arr_step Hc.
  arr_step Hc'.
  destruct (write_row n t src k' cells' Hok Hs Hlen' Hle') as [Hok1 Hr1]. set (t1 := set_num_blocks _ (set_block_table _ t)) in Hok1, Hr1.
  destruct (write_row n t1 tgt k cells Hok1 Ht Hlen Hle) as [Hok2 Hr2].
  split; [exact Hok2|]. split; [done|]. intros j. etrans; [apply Hr2|]. rewrite Hr1, Hrow, Hrow'. done.
Qed.

(** *** All groups *)

Lemma each_table_spec i (f : nat → M BlockTable unit) (R : nat → BlockTable → BlockTable → Prop) ts :
  (∀ g t, ts !! g = Some t → wp (f (i + g)%nat) (λ _ t', R (i + g)%nat t t') no_exn t) →
  wp (each_table i f) (λ _ ts', length ts' = length ts ∧ ∀ g t', ts' !! g = Some t' → ∃ t, ts !! g = Some t ∧ R (i + g)%nat t t') no_exn ts.
Proof.
  revert i. induction ts as [|t ts IH]; intros i Hf; unfold wp; cbn [each_table].
  { split; [done|]. intros g t' Hg. by rewrite lookup_nil in Hg. }
  pose proof (Hf 0%nat t eq_refl) as H0. rewrite Nat.add_0_r in H0. unfold wp in H0. destruct (f i t) as [[[]|e] t']; [|done].
  specialize (IH (S i)). unfold wp in IH. destruct (each_table (S i) f ts) as [[[]|e] ts']; cycle 1.
  { apply IH. intros g t0 Hg. specialize (Hf (S g) t0 Hg). by rewrite Nat.add_succ_r in Hf. }
  destruct IH as [Hl Hts]; [intros g t0 Hg; specialize (Hf (S g) t0 Hg); by rewrite Nat.add_succ_r in Hf|].
  split; [cbn; lia|]. intros [|g] t0 Hg; cbn in Hg.
  - injection Hg as <-. exists t. split; [done|]. by rewrite Nat.add_0_r.
  - destruct (Hts g t0 Hg) as (t1 & Ht1 & HR). exists t1. split; [done|]. by rewrite Nat.add_succ_r.
Qed.

(** ** The slot mapping *)

(** Context parallelism: the interleaving divides the block size. *)
Definition parallel_ok (t : BlockTable) : Prop :=
  0 < block_size t ∧ 0 < total_cp_world_size t ∧ 0 ≤ total_cp_rank t < total_cp_world_size t ∧
  0 < cp_kv_cache_interleave_size t ∧ block_size t mod cp_kv_cache_interleave_size t = 0.

Section slots.
Context (t : BlockTable) (Hp : parallel_ok t).
Local Abbreviation B := (block_size t).
Local Abbreviation W := (total_cp_world_size t).
Local Abbreviation I := (cp_kv_cache_interleave_size t).

(** The offset of a position in its virtual block. *)
Lemma virtual_offset pos : pos - block_index t pos * (B * W) = pos mod (B * W).
Proof. unfold block_index. destruct Hp as (HB & HW & _). rewrite Z.mod_eq by nia. lia. Qed.

Lemma local_offset_range pos : 0 ≤ local_block_offset t pos < B.
Proof.
  unfold local_block_offset. rewrite virtual_offset. pose proof Hp as (HB & HW & _ & HI & Hd).
  pose proof (Z.mod_pos_bound pos (B * W) ltac:(nia)) as Ho. set (o := pos mod (B * W)) in *.
  apply Z.mod_divide in Hd as [k Hk]; [|lia]. pose proof (Z.mod_pos_bound o I HI).
  assert (0 ≤ o / (W * I)) by (apply Z.div_pos; nia).
  assert (o / (W * I) < k) by (apply Z.div_lt_upper_bound; nia). nia.
Qed.

(** A local position is determined by its block and its offset. *)
Lemma local_offset_inj p q :
  is_local t p = true → is_local t q = true → block_index t p = block_index t q → local_block_offset t p = local_block_offset t q → p = q.
Proof.
  unfold is_local, local_block_offset. rewrite !virtual_offset. pose proof Hp as (HB & HW & _ & HI & _).
  intros Lp%bool_decide_eq_true Lq%bool_decide_eq_true Hb Ho.
  assert (∀ x, x = block_index t x * (B * W) + x mod (B * W)) as Hx by (intros x; pose proof (virtual_offset x); lia).
  rewrite (Hx p), (Hx q), Hb. f_equal. set (a := p mod (B * W)) in *. set (b := q mod (B * W)) in *.
  assert (∀ x, x = (x / (W * I)) * (W * I) + (x / I mod W) * I + x mod I) as Hsplit.
  { intros x. rewrite (Z.mul_comm W I), <-Z.div_div by lia. pose proof (Z.div_mod x I ltac:(lia)). pose proof (Z.div_mod (x / I) W ltac:(lia)). nia. }
  rewrite (Hsplit a), (Hsplit b), Lp, Lq.
  pose proof (Z.mod_pos_bound a I HI). pose proof (Z.mod_pos_bound b I HI).
  assert (a / (W * I) = b / (W * I) ∧ a mod I = b mod I) as [-> ->]; [|done].
  destruct (Z.lt_total (a / (W * I)) (b / (W * I))) as [|[|]]; nia.
Qed.

Lemma slot_range row pos : is_local t pos = true →
  let b := default 0 (row !! Z.to_nat (block_index t pos)) in b * B ≤ slot_id t row pos < (b + 1) * B.
Proof. intros Hl. unfold slot_id. rewrite Hl. pose proof (local_offset_range pos). nia. Qed.

(** Slots of the same block come from the same position of that block. *)
Lemma slot_inj row row' p q :
  is_local t p = true → is_local t q = true → slot_id t row p = slot_id t row' q →
  default 0 (row !! Z.to_nat (block_index t p)) = default 0 (row' !! Z.to_nat (block_index t q)) ∧ local_block_offset t p = local_block_offset t q.
Proof.
  intros Lp Lq E. pose proof (local_offset_range p). pose proof (local_offset_range q). unfold slot_id in E. rewrite Lp, Lq in E.
  set (b := default 0 (row !! _)) in *. set (c := default 0 (row' !! _)) in *. destruct (Z.lt_total b c) as [|[|]]; nia.
Qed.
End slots.

(** *** Storing the slots *)

Lemma length_store_slots t row ps i n m : length (store_slots t row ps i n m) = length m.
Proof. revert i m. induction n as [|n IH]; intros i m; [done|]. cbn [store_slots]. by rewrite IH, length_insert. Qed.

Lemma store_slots_lookup t row ps i n m j :
  (i + n ≤ length m)%nat →
  store_slots t row ps i n m !! j = if decide (i ≤ j < i + n)%nat then Some (slot_id t row (default 0 (ps !! j))) else m !! j.
Proof.
  revert i m. induction n as [|n IH]; intros i m Hl; cbn [store_slots]; [rewrite decide_False by lia; done|].
  rewrite IH by (rewrite length_insert; lia). destruct (decide (S i ≤ j < S i + n)%nat); [rewrite decide_True by lia; done|].
  destruct (decide (j = i)) as [->|Hj]; [rewrite decide_True by lia; by rewrite list_lookup_insert_eq by lia|].
  rewrite list_lookup_insert_ne by done. by rewrite decide_False by lia.
Qed.

(** The start of the tokens of each request, in order. *)
Definition starts_ok (num_reqs : nat) (starts : list nat) (num_tokens : nat) : Prop :=
  length starts = S num_reqs ∧ starts !! 0%nat = Some 0%nat ∧ starts !! num_reqs = Some num_tokens ∧
  ∀ r a b, starts !! r = Some a → starts !! S r = Some b → (a ≤ b)%nat.

Lemma starts_mono k starts n r r' a b :
  starts_ok k starts n → (r ≤ r')%nat → starts !! r = Some a → starts !! r' = Some b → (a ≤ b)%nat.
Proof.
  intros (Hl & _ & _ & Hm) Hr. revert b. induction Hr as [|r' Hr IH]; intros b Ha Hb; [by simplify_eq|].
  destruct (lookup_lt_is_Some_2 starts r') as [c Hc]; [apply lookup_lt_Some in Hb; lia|]. specialize (IH c Ha Hc). specialize (Hm r' c b Hc Hb). lia.
Qed.

Lemma request_slots_lookup t k starts ps m :
  starts_ok k starts (length ps) → (length ps ≤ length m)%nat →
  ∀ j r, (j ≤ k)%nat → (r < k)%nat → ∀ i, (default 0 (starts !! r) ≤ i < default 0 (starts !! S r))%nat →
  let m' := foldl (request_slots t starts ps) m (seq 0 j) in
  length m' = length m ∧ ((r < j)%nat → m' !! i = Some (slot_id t (default [] (block_table_gpu t !! r)) (default 0 (ps !! i)))).
Proof.
  intros Hs Hm j r. induction j as [|j IH]; intros Hj Hr i Hi; [split; [done|lia]|]. cbn zeta in *.
  rewrite seq_S, foldl_app. cbn [foldl]. destruct (IH ltac:(lia) Hr i Hi) as [Hl Hat]. set (m1 := foldl _ m (seq 0 j)) in *.
  unfold request_slots. rewrite length_store_slots. split; [done|]. intros Hrj. cbn [Nat.add].
  destruct Hs as (Hlen & H0 & Hk & Hmono). pose proof (conj Hlen (conj H0 (conj Hk Hmono))) as Hs.
  destruct (lookup_lt_is_Some_2 starts j) as [a Ha]; [lia|]. destruct (lookup_lt_is_Some_2 starts (S j)) as [b Hb]; [lia|].
  destruct (lookup_lt_is_Some_2 starts r) as [c Hc]; [lia|]. destruct (lookup_lt_is_Some_2 starts (S r)) as [d Hd]; [lia|].
  rewrite Ha, Hb. cbn. rewrite Hc, Hd in Hi. cbn in Hi. pose proof (Hmono _ _ _ Ha Hb).
  pose proof (starts_mono k starts (length ps) (S j) k b (length ps) Hs ltac:(lia) Hb Hk).
  rewrite store_slots_lookup by lia. destruct (decide (r = j)) as [->|Hne]; [rewrite decide_True; [done|simplify_eq; lia]|].
  pose proof (starts_mono k starts (length ps) (S r) j d a Hs ltac:(lia) Hd Ha).
  rewrite decide_False by lia. apply Hat. lia.
Qed.

(** The tokens of a step have room: each is at a position of a block of its request's row on the
    device, and the blocks in use belong to one place of one row. *)
Definition tokens_ok (t : BlockTable) (k : nat) (starts : list nat) (ps : list Z) (used : nat → nat) : Prop :=
  (∀ r, (r < k)%nat → ∃ row, block_table_gpu t !! r = Some row ∧ (used r ≤ length row)%nat) ∧
  (∀ r i, (r < k)%nat → (default 0 (starts !! r) ≤ i < default 0 (starts !! S r))%nat → ∃ p, ps !! i = Some p ∧ 0 ≤ p ∧ (Z.to_nat (block_index t p) < used r)%nat) ∧
  ∀ r r' i j row row' b, (i < used r)%nat → (j < used r')%nat → block_table_gpu t !! r = Some row → block_table_gpu t !! r' = Some row' →
    row !! i = Some b → row' !! j = Some b → r = r' ∧ i = j.

(** The same table on another rank. *)
Definition on_rank (rank : Z) (t : BlockTable) : BlockTable :=
  mkBlockTable (block_size t) (blocks_per_kv_block t) (use_hybrid_blocks t) (max_num_blocks_per_req t) (max_num_batched_tokens t) (block_table t)
    (block_table_gpu t) (num_blocks_per_row t) (slot_mapping t) (total_cp_world_size t) rank (cp_kv_cache_interleave_size t).

(** C14: the kernel gives each token of each request the slot of its position in that request's row,
    pads the mapping after the last token, places a local token inside its block, never gives two
    local tokens, of one request or of two, the same slot, and of all ranks of context parallelism
    exactly one keeps a given position. *)
Theorem compute_slot_mapping_correct t k starts ps used :
  parallel_ok t → starts_ok k starts (length ps) → tokens_ok t k starts ps used →
  length (slot_mapping t) = max_num_batched_tokens t → (length ps ≤ max_num_batched_tokens t)%nat →
  wp (compute_slot_mapping k starts ps) (λ _ t',
    let token r i := (r < k)%nat ∧ (default 0 (starts !! r) ≤ i < default 0 (starts !! S r))%nat in
    let pos i := default 0 (ps !! i) in
    let row r := default [] (block_table_gpu t !! r) in
    (∀ r i, token r i → slot_mapping t' !! i = Some (slot_id t (row r) (pos i))) ∧
    (∀ i, (length ps ≤ i < max_num_batched_tokens t)%nat → slot_mapping t' !! i = Some PAD_SLOT_ID) ∧
    (∀ r i, token r i → is_local t (pos i) = true →
       let b := default 0 (row r !! Z.to_nat (block_index t (pos i))) in b * block_size t ≤ slot_id t (row r) (pos i) < (b + 1) * block_size t) ∧
    (∀ r i r' i', token r i → token r' i' → is_local t (pos i) = true → is_local t (pos i') = true →
       slot_mapping t' !! i = slot_mapping t' !! i' → r = r' ∧ pos i = pos i') ∧
    ∀ p, 0 ≤ p → exists! rank, 0 ≤ rank < total_cp_world_size t ∧
      is_local (on_rank rank t) p = true) no_exn t.
Proof.
  intros Hp Hs (Hrows & Htok & Hdisj) Hlen Hmax. apply wp_modify. cbn zeta. cbn [set_slot_mapping slot_mapping].
  set (m' := foldl _ (slot_mapping t) (seq 0 k)).
  assert (∀ r i, (r < k)%nat → (default 0 (starts !! r) ≤ i < default 0 (starts !! S r))%nat → (i < length ps)%nat ∧ length m' = length (slot_mapping t) ∧
    m' !! i = Some (slot_id t (default [] (block_table_gpu t !! r)) (default 0 (ps !! i)))) as Hm'.
  { intros r i Hr Hi. destruct (Htok r i Hr Hi) as (p & Hpi & _). apply lookup_lt_Some in Hpi. split; [done|].
    destruct (request_slots_lookup t k starts ps (slot_mapping t) Hs ltac:(lia) k r ltac:(lia) Hr i Hi) as [Hl Hat]. split; [done|]. by apply Hat. }
  assert (∀ l, length (foldl (request_slots t starts ps) (slot_mapping t) l) = length (slot_mapping t)) as Hlm.
  { intros l. generalize (slot_mapping t). induction l as [|r l IH]; intros m; [done|]. cbn. rewrite IH. apply length_store_slots. }
  assert (∀ r i, (r < k)%nat → (default 0 (starts !! r) ≤ i < default 0 (starts !! S r))%nat →
    (take (length ps) m' ++ replicate (max_num_batched_tokens t - length ps) PAD_SLOT_ID) !! i = Some (slot_id t (default [] (block_table_gpu t !! r)) (default 0 (ps !! i)))) as Hat.
  { intros r i Hr Hi. destruct (Hm' r i Hr Hi) as (Hi' & Hl & E). rewrite lookup_app_l by (rewrite length_take; lia). by rewrite lookup_take_lt. }
  split; [intros r i [Hr Hi]; by apply Hat|]. split.
  { intros i [Hi1 Hi2]. rewrite lookup_app_r by (rewrite length_take; lia). apply lookup_replicate_2. rewrite length_take. unfold m'. rewrite Hlm. lia. }
  split; [intros r i _ Hl; by apply slot_range|]. split.
  - intros r i r' i' [Hr Hi] [Hr' Hi'] Li Li' E. rewrite (Hat r i Hr Hi), (Hat r' i' Hr' Hi') in E. injection E as E.
    apply (slot_inj t Hp) in E as [Eb Eo]; [|done..].
    destruct (Htok r i Hr Hi) as (p & Hpi & Hp0 & Hpu). destruct (Htok r' i' Hr' Hi') as (q & Hqi & Hq0 & Hqu).
    destruct (Hrows r Hr) as (row & Hrow & Hu). destruct (Hrows r' Hr') as (row' & Hrow' & Hu').
    rewrite Hpi, Hqi, Hrow, Hrow' in *. cbn in *.
    destruct (lookup_lt_is_Some_2 row (Z.to_nat (block_index t p))) as [b Hb]; [lia|].
    destruct (lookup_lt_is_Some_2 row' (Z.to_nat (block_index t q))) as [c Hc]; [lia|]. rewrite Hb, Hc in Eb. cbn in Eb. subst c.
    destruct (Hdisj r r' _ _ row row' b Hpu Hqu Hrow Hrow' Hb Hc) as [Er Ei]. split; [done|].
    apply (local_offset_inj t Hp); [done|done| |done]. destruct Hp as (HB & HW & _).
    assert (∀ x, 0 ≤ x → 0 ≤ block_index t x) as Hnn by (intros x Hx; apply Z.div_pos; nia). apply Z2Nat.inj; auto.
  - intros p _. unfold is_local, block_index. cbn. destruct Hp as (HB & HW & _ & HI & _). set (v := _ mod _). exists v.
    split; [split; [by apply Z.mod_pos_bound|by apply bool_decide_eq_true]|]. by intros rank [_ E%bool_decide_eq_true].
Qed.

(** Two requests on the second of two ranks, in blocks of four that interleave by two. *)
Definition slots_example : BlockTable :=
  mkBlockTable 4 1 false 2 16 [] [[3; 5]; [7; 0]] [2%nat; 1%nat] (replicate 16 0) 2 1 2.

Lemma compute_slot_mapping_correct_witness :
  let positions := [0; 1; 2; 3; 4; 5; 6; 7; 8; 9; 10; 4; 5; 6] in
  slot_mapping (compute_slot_mapping 2 [0%nat; 11%nat; 14%nat] positions slots_example).2 =
    [-1; -1; 12; 13; -1; -1; 14; 15; -1; -1; 20; -1; -1; 30; -1; -1] ∧
  exists! rank, 0 ≤ rank < 2 ∧ is_local (on_rank rank slots_example) 6 = true.
Proof.
  intros positions. split; [by vm_compute|].
  pose proof (compute_slot_mapping_correct slots_example 2 [0%nat; 11%nat; 14%nat] positions (λ r, match r with O => 2%nat | _ => 1%nat end)) as H.
  unfold wp in H. destruct (compute_slot_mapping _ _ _ _) as [[[]|e] t'] eqn:E; [|by vm_compute in E].
  destruct H as (_ & _ & _ & _ & H); [by repeat split; vm_compute|..|done|by vm_compute; lia|by apply (H 6)].
  - split_and!; [done..|]. intros [|[|[|r]]] a b Ha Hb; vm_compute in Ha, Hb; simplify_eq; lia.
  - split_and!.
    + intros [|[|r]] Hr; [eexists; split; [done|]; cbn; lia..|lia].
    + intros [|[|r]] i Hr Hi; [| |lia]; cbn in Hi; do 14 (destruct i as [|i]; [first [lia|eexists; split; [reflexivity|]; vm_compute; split; [done|lia]]|]); lia.
    + intros [|[|r]] [|[|r']] [|[|i]] [|[|j]] row row' b Hi Hj Hrow Hrow'; cbn in Hi, Hj, Hrow, Hrow'; try lia; try done; injection Hrow as <-; injection Hrow' as <-; cbn; intros; simplify_eq; done.
Defined.
