(* ===== verification/InputBatch.v ===== *)
(** * The persistent batch of a worker

    [vllm/v1/worker/gpu_input_batch.py]: the batch that a model runner keeps between steps.  Each
    request has an index, and what the runner and the sampler need of it is spread over arrays
    with an element per index ([Row]), dicts by index, sets and dicts by request id, the block tables
    and the lists of output and draft tokens.  Removing a request leaves a hole, adding fills holes,
    and [condense] moves the last requests into the holes that are left.

    An array is modelled by its elements of one index, gathered in a [Row]; arrays on the device,
    filled from these by slices, are left out with the [SamplingMetadata] that holds them. *)

From stdpp Require Import base list gmap strings.
From Stdlib Require Import ZArith Lia Floats.SpecFloat.
From S2P Require Import Prelude FreeQueue Request LogitsProcessors BlockTable.
Local Open Scope Z_scope.

(** ** Requests *)

Record LoRARequest := mkLoRA { lora_name : string; lora_int_id : Z }.
Record PoolingParams := mkPooling { requires_token_ids : bool }.

(** [CachedRequestState]; a generator and a pooling state are objects, known by their ids, and the
    output tokens a list object, known by its address. *)
Record CachedRequestState := mkCached {
  req_id : string;
  prompt_token_ids : option (list Z);
  sampling_params : option SamplingParams;
  generator : option Z;
  block_ids : list (list Z);
  req_num_computed_tokens : Z;
  output_token_ids : Address;
  lora_request : option LoRARequest;
  req_prompt_embeds_of : option (list bytes);
  pooling_params_of : option PoolingParams;
  pooling_states_of : option Z
}.

(** [__post_init__] and [num_tokens] *)
Definition req_num_prompt_tokens (r : CachedRequestState) : res Z := length_from_prompt_token_ids_or_embeds (prompt_token_ids r) (req_prompt_embeds_of r).
Definition req_num_tokens (h : Heap) (r : CachedRequestState) : res Z := n ← req_num_prompt_tokens r; Ok (n + Z.of_nat (length (h (output_token_ids r)))).

(** [get_token_id] *)
Definition get_token_id (h : Heap) (r : CachedRequestState) (idx : Z) : res Z :=
  n ← req_num_prompt_tokens r;
  if idx <? n then match prompt_token_ids r with None => Err ValueError | Some l => py_get l idx end
  else if idx - n <? Z.of_nat (length (h (output_token_ids r))) then py_get (h (output_token_ids r)) (idx - n)
  else Ok (-1).

(** [SamplingParams.sampling_type]; the bound is the double nearest to 1e-5. *)
Definition SAMPLING_EPS : spec_float := S754_finite false 5902958103587057 (-69).
Definition sampling_type (p : SamplingParams) : SamplingType :=
  if SFltb (temperature p) SAMPLING_EPS then GREEDY else match seed p with Some _ => RANDOM_SEED | None => RANDOM end.

(** ** The batch *)

(** The elements of the arrays at one index. *)
Record Row := mkRow {
  token_ids : list Z;
  is_token_ids : list bool;
  num_tokens_no_spec : nat;
  num_prompt_tokens : nat;
  num_computed_tokens : Z;
  request_lora_mapping : Z;
  temperature_cpu : spec_float;
  top_p_cpu : spec_float;
  top_k_cpu : Z;
  frequency_penalties_cpu : spec_float;
  presence_penalties_cpu : spec_float;
  repetition_penalties_cpu : spec_float;
  num_accepted_tokens : Z;
  logits_processing_needs_token_ids : bool
}.
Definition set_token_ids f (b : Row) : Row := mkRow (f (token_ids b)) (is_token_ids b) (num_tokens_no_spec b) (num_prompt_tokens b) (num_computed_tokens b) (request_lora_mapping b) (temperature_cpu b) (top_p_cpu b) (top_k_cpu b) (frequency_penalties_cpu b) (presence_penalties_cpu b) (repetition_penalties_cpu b) (num_accepted_tokens b) (logits_processing_needs_token_ids b).
Definition set_is_token_ids f (b : Row) : Row := mkRow (token_ids b) (f (is_token_ids b)) (num_tokens_no_spec b) (num_prompt_tokens b) (num_computed_tokens b) (request_lora_mapping b) (temperature_cpu b) (top_p_cpu b) (top_k_cpu b) (frequency_penalties_cpu b) (presence_penalties_cpu b) (repetition_penalties_cpu b) (num_accepted_tokens b) (logits_processing_needs_token_ids b).
Definition set_num_tokens_no_spec f (b : Row) : Row := mkRow (token_ids b) (is_token_ids b) (f (num_tokens_no_spec b)) (num_prompt_tokens b) (num_computed_tokens b) (request_lora_mapping b) (temperature_cpu b) (top_p_cpu b) (top_k_cpu b) (frequency_penalties_cpu b) (presence_penalties_cpu b) (repetition_penalties_cpu b) (num_accepted_tokens b) (logits_processing_needs_token_ids b).
Definition set_num_prompt_tokens f (b : Row) : Row := mkRow (token_ids b) (is_token_ids b) (num_tokens_no_spec b) (f (num_prompt_tokens b)) (num_computed_tokens b) (request_lora_mapping b) (temperature_cpu b) (top_p_cpu b) (top_k_cpu b) (frequency_penalties_cpu b) (presence_penalties_cpu b) (repetition_penalties_cpu b) (num_accepted_tokens b) (logits_processing_needs_token_ids b).
Definition set_num_computed_tokens f (b : Row) : Row := mkRow (token_ids b) (is_token_ids b) (num_tokens_no_spec b) (num_prompt_tokens b) (f (num_computed_tokens b)) (request_lora_mapping b) (temperature_cpu b) (top_p_cpu b) (top_k_cpu b) (frequency_penalties_cpu b) (presence_penalties_cpu b) (repetition_penalties_cpu b) (num_accepted_tokens b) (logits_processing_needs_token_ids b).
Definition set_request_lora_mapping f (b : Row) : Row := mkRow (token_ids b) (is_token_ids b) (num_tokens_no_spec b) (num_prompt_tokens b) (num_computed_tokens b) (f (request_lora_mapping b)) (temperature_cpu b) (top_p_cpu b) (top_k_cpu b) (frequency_penalties_cpu b) (presence_penalties_cpu b) (repetition_penalties_cpu b) (num_accepted_tokens b) (logits_processing_needs_token_ids b).
Definition set_temperature_cpu f (b : Row) : Row := mkRow (token_ids b) (is_token_ids b) (num_tokens_no_spec b) (num_prompt_tokens b) (num_computed_tokens b) (request_lora_mapping b) (f (temperature_cpu b)) (top_p_cpu b) (top_k_cpu b) (frequency_penalties_cpu b) (presence_penalties_cpu b) (repetition_penalties_cpu b) (num_accepted_tokens b) (logits_processing_needs_token_ids b).
Definition set_top_p_cpu f (b : Row) : Row := mkRow (token_ids b) (is_token_ids b) (num_tokens_no_spec b) (num_prompt_tokens b) (num_computed_tokens b) (request_lora_mapping b) (temperature_cpu b) (f (top_p_cpu b)) (top_k_cpu b) (frequency_penalties_cpu b) (presence_penalties_cpu b) (repetition_penalties_cpu b) (num_accepted_tokens b) (logits_processing_needs_token_ids b).
Definition set_top_k_cpu f (b : Row) : Row := mkRow (token_ids b) (is_token_ids b) (num_tokens_no_spec b) (num_prompt_tokens b) (num_computed_tokens b) (request_lora_mapping b) (temperature_cpu b) (top_p_cpu b) (f (top_k_cpu b)) (frequency_penalties_cpu b) (presence_penalties_cpu b) (repetition_penalties_cpu b) (num_accepted_tokens b) (logits_processing_needs_token_ids b).
Definition set_frequency_penalties_cpu f (b : Row) : Row := mkRow (token_ids b) (is_token_ids b) (num_tokens_no_spec b) (num_prompt_tokens b) (num_computed_tokens b) (request_lora_mapping b) (temperature_cpu b) (top_p_cpu b) (top_k_cpu b) (f (frequency_penalties_cpu b)) (presence_penalties_cpu b) (repetition_penalties_cpu b) (num_accepted_tokens b) (logits_processing_needs_token_ids b).
Definition set_presence_penalties_cpu f (b : Row) : Row := mkRow (token_ids b) (is_token_ids b) (num_tokens_no_spec b) (num_prompt_tokens b) (num_computed_tokens b) (request_lora_mapping b) (temperature_cpu b) (top_p_cpu b) (top_k_cpu b) (frequency_penalties_cpu b) (f (presence_penalties_cpu b)) (repetition_penalties_cpu b) (num_accepted_tokens b) (logits_processing_needs_token_ids b).
Definition set_repetition_penalties_cpu f (b : Row) : Row := mkRow (token_ids b) (is_token_ids b) (num_tokens_no_spec b) (num_prompt_tokens b) (num_computed_tokens b) (request_lora_mapping b) (temperature_cpu b) (top_p_cpu b) (top_k_cpu b) (frequency_penalties_cpu b) (presence_penalties_cpu b) (f (repetition_penalties_cpu b)) (num_accepted_tokens b) (logits_processing_needs_token_ids b).
Definition set_num_accepted_tokens f (b : Row) : Row := mkRow (token_ids b) (is_token_ids b) (num_tokens_no_spec b) (num_prompt_tokens b) (num_computed_tokens b) (request_lora_mapping b) (temperature_cpu b) (top_p_cpu b) (top_k_cpu b) (frequency_penalties_cpu b) (presence_penalties_cpu b) (repetition_penalties_cpu b) (f (num_accepted_tokens b)) (logits_processing_needs_token_ids b).
Definition set_logits_processing_needs_token_ids f (b : Row) : Row := mkRow (token_ids b) (is_token_ids b) (num_tokens_no_spec b) (num_prompt_tokens b) (num_computed_tokens b) (request_lora_mapping b) (temperature_cpu b) (top_p_cpu b) (top_k_cpu b) (frequency_penalties_cpu b) (presence_penalties_cpu b) (repetition_penalties_cpu b) (num_accepted_tokens b) (f (logits_processing_needs_token_ids b)).

Record InputBatch := mkInputBatch {
  is_pooling_model : bool;
  max_num_reqs : nat;
  max_model_len : nat;
  vocab_size : Z;
  _req_ids : list (option string);
  req_id_to_index : gmap string nat;
  rows : list Row;
  req_prompt_embeds : gmap nat (list bytes);
  block_tables : list BlockTable;
  greedy_reqs : gset string;
  random_reqs : gset string;
  top_p_reqs : gset string;
  top_k_reqs : gset string;
  frequency_penalties_reqs : gset string;
  presence_penalties_reqs : gset string;
  repetition_penalties_reqs : gset string;
  lora_id_to_request_ids : gmap Z (gset string);
  lora_id_to_lora_request : gmap Z LoRARequest;
  generators : gmap nat Z;
  num_logprobs : gmap string Z;
  builder : BatchUpdateBuilder;
  has_allowed_token_ids : gset string;
  allowed_token_ids_mask : option (list (list bool));
  bad_words_token_ids : gmap nat (list (list Z));
  req_output_token_ids : list (option Address);
  spec_token_ids : list (list Z);
  pooling_params : gmap string PoolingParams;
  pooling_states : gmap string Z;
  prev_req_id_to_index : option (gmap string nat)
}.
Definition set_req_ids f (b : InputBatch) : InputBatch := mkInputBatch (is_pooling_model b) (max_num_reqs b) (max_model_len b) (vocab_size b) (f (_req_ids b)) (req_id_to_index b) (rows b) (req_prompt_embeds b) (block_tables b) (greedy_reqs b) (random_reqs b) (top_p_reqs b) (top_k_reqs b) (frequency_penalties_reqs b) (presence_penalties_reqs b) (repetition_penalties_reqs b) (lora_id_to_request_ids b) (lora_id_to_lora_request b) (generators b) (num_logprobs b) (builder b) (has_allowed_token_ids b) (allowed_token_ids_mask b) (bad_words_token_ids b) (req_output_token_ids b) (spec_token_ids b) (pooling_params b) (pooling_states b) (prev_req_id_to_index b).
Definition set_req_id_to_index f (b : InputBatch) : InputBatch := mkInputBatch (is_pooling_model b) (max_num_reqs b) (max_model_len b) (vocab_size b) (_req_ids b) (f (req_id_to_index b)) (rows b) (req_prompt_embeds b) (block_tables b) (greedy_reqs b) (random_reqs b) (top_p_reqs b) (top_k_reqs b) (frequency_penalties_reqs b) (presence_penalties_reqs b) (repetition_penalties_reqs b) (lora_id_to_request_ids b) (lora_id_to_lora_request b) (generators b) (num_logprobs b) (builder b) (has_allowed_token_ids b) (allowed_token_ids_mask b) (bad_words_token_ids b) (req_output_token_ids b) (spec_token_ids b) (pooling_params b) (pooling_states b) (prev_req_id_to_index b).
Definition set_rows f (b : InputBatch) : InputBatch := mkInputBatch (is_pooling_model b) (max_num_reqs b) (max_model_len b) (vocab_size b) (_req_ids b) (req_id_to_index b) (f (rows b)) (req_prompt_embeds b) (block_tables b) (greedy_reqs b) (random_reqs b) (top_p_reqs b) (top_k_reqs b) (frequency_penalties_reqs b) (presence_penalties_reqs b) (repetition_penalties_reqs b) (lora_id_to_request_ids b) (lora_id_to_lora_request b) (generators b) (num_logprobs b) (builder b) (has_allowed_token_ids b) (allowed_token_ids_mask b) (bad_words_token_ids b) (req_output_token_ids b) (spec_token_ids b) (pooling_params b) (pooling_states b) (prev_req_id_to_index b).
Definition set_req_prompt_embeds f (b : InputBatch) : InputBatch := mkInputBatch (is_pooling_model b) (max_num_reqs b) (max_model_len b) (vocab_size b) (_req_ids b) (req_id_to_index b) (rows b) (f (req_prompt_embeds b)) (block_tables b) (greedy_reqs b) (random_reqs b) (top_p_reqs b) (top_k_reqs b) (frequency_penalties_reqs b) (presence_penalties_reqs b) (repetition_penalties_reqs b) (lora_id_to_request_ids b) (lora_id_to_lora_request b) (generators b) (num_logprobs b) (builder b) (has_allowed_token_ids b) (allowed_token_ids_mask b) (bad_words_token_ids b) (req_output_token_ids b) (spec_token_ids b) (pooling_params b) (pooling_states b) (prev_req_id_to_index b).
Definition set_block_tables f (b : InputBatch) : InputBatch := mkInputBatch (is_pooling_model b) (max_num_reqs b) (max_model_len b) (vocab_size b) (_req_ids b) (req_id_to_index b) (rows b) (req_prompt_embeds b) (f (block_tables b)) (greedy_reqs b) (random_reqs b) (top_p_reqs b) (top_k_reqs b) (frequency_penalties_reqs b) (presence_penalties_reqs b) (repetition_penalties_reqs b) (lora_id_to_request_ids b) (lora_id_to_lora_request b) (generators b) (num_logprobs b) (builder b) (has_allowed_token_ids b) (allowed_token_ids_mask b) (bad_words_token_ids b) (req_output_token_ids b) (spec_token_ids b) (pooling_params b) (pooling_states b) (prev_req_id_to_index b).
Definition set_greedy_reqs f (b : InputBatch) : InputBatch := mkInputBatch (is_pooling_model b) (max_num_reqs b) (max_model_len b) (vocab_size b) (_req_ids b) (req_id_to_index b) (rows b) (req_prompt_embeds b) (block_tables b) (f (greedy_reqs b)) (random_reqs b) (top_p_reqs b) (top_k_reqs b) (frequency_penalties_reqs b) (presence_penalties_reqs b) (repetition_penalties_reqs b) (lora_id_to_request_ids b) (lora_id_to_lora_request b) (generators b) (num_logprobs b) (builder b) (has_allowed_token_ids b) (allowed_token_ids_mask b) (bad_words_token_ids b) (req_output_token_ids b) (spec_token_ids b) (pooling_params b) (pooling_states b) (prev_req_id_to_index b).
Definition set_random_reqs f (b : InputBatch) : InputBatch := mkInputBatch (is_pooling_model b) (max_num_reqs b) (max_model_len b) (vocab_size b) (_req_ids b) (req_id_to_index b) (rows b) (req_prompt_embeds b) (block_tables b) (greedy_reqs b) (f (random_reqs b)) (top_p_reqs b) (top_k_reqs b) (frequency_penalties_reqs b) (presence_penalties_reqs b) (repetition_penalties_reqs b) (lora_id_to_request_ids b) (lora_id_to_lora_request b) (generators b) (num_logprobs b) (builder b) (has_allowed_token_ids b) (allowed_token_ids_mask b) (bad_words_token_ids b) (req_output_token_ids b) (spec_token_ids b) (pooling_params b) (pooling_states b) (prev_req_id_to_index b).
Definition set_top_p_reqs f (b : InputBatch) : InputBatch := mkInputBatch (is_pooling_model b) (max_num_reqs b) (max_model_len b) (vocab_size b) (_req_ids b) (req_id_to_index b) (rows b) (req_prompt_embeds b) (block_tables b) (greedy_reqs b) (random_reqs b) (f (top_p_reqs b)) (top_k_reqs b) (frequency_penalties_reqs b) (presence_penalties_reqs b) (repetition_penalties_reqs b) (lora_id_to_request_ids b) (lora_id_to_lora_request b) (generators b) (num_logprobs b) (builder b) (has_allowed_token_ids b) (allowed_token_ids_mask b) (bad_words_token_ids b) (req_output_token_ids b) (spec_token_ids b) (pooling_params b) (pooling_states b) (prev_req_id_to_index b).
Definition set_top_k_reqs f (b : InputBatch) : InputBatch := mkInputBatch (is_pooling_model b) (max_num_reqs b) (max_model_len b) (vocab_size b) (_req_ids b) (req_id_to_index b) (rows b) (req_prompt_embeds b) (block_tables b) (greedy_reqs b) (random_reqs b) (top_p_reqs b) (f (top_k_reqs b)) (frequency_penalties_reqs b) (presence_penalties_reqs b) (repetition_penalties_reqs b) (lora_id_to_request_ids b) (lora_id_to_lora_request b) (generators b) (num_logprobs b) (builder b) (has_allowed_token_ids b) (allowed_token_ids_mask b) (bad_words_token_ids b) (req_output_token_ids b) (spec_token_ids b) (pooling_params b) (pooling_states b) (prev_req_id_to_index b).
Definition set_frequency_penalties_reqs f (b : InputBatch) : InputBatch := mkInputBatch (is_pooling_model b) (max_num_reqs b) (max_model_len b) (vocab_size b) (_req_ids b) (req_id_to_index b) (rows b) (req_prompt_embeds b) (block_tables b) (greedy_reqs b) (random_reqs b) (top_p_reqs b) (top_k_reqs b) (f (frequency_penalties_reqs b)) (presence_penalties_reqs b) (repetition_penalties_reqs b) (lora_id_to_request_ids b) (lora_id_to_lora_request b) (generators b) (num_logprobs b) (builder b) (has_allowed_token_ids b) (allowed_token_ids_mask b) (bad_words_token_ids b) (req_output_token_ids b) (spec_token_ids b) (pooling_params b) (pooling_states b) (prev_req_id_to_index b).
Definition set_presence_penalties_reqs f (b : InputBatch) : InputBatch := mkInputBatch (is_pooling_model b) (max_num_reqs b) (max_model_len b) (vocab_size b) (_req_ids b) (req_id_to_index b) (rows b) (req_prompt_embeds b) (block_tables b) (greedy_reqs b) (random_reqs b) (top_p_reqs b) (top_k_reqs b) (frequency_penalties_reqs b) (f (presence_penalties_reqs b)) (repetition_penalties_reqs b) (lora_id_to_request_ids b) (lora_id_to_lora_request b) (generators b) (num_logprobs b) (builder b) (has_allowed_token_ids b) (allowed_token_ids_mask b) (bad_words_token_ids b) (req_output_token_ids b) (spec_token_ids b) (pooling_params b) (pooling_states b) (prev_req_id_to_index b).
Definition set_repetition_penalties_reqs f (b : InputBatch) : InputBatch := mkInputBatch (is_pooling_model b) (max_num_reqs b) (max_model_len b) (vocab_size b) (_req_ids b) (req_id_to_index b) (rows b) (req_prompt_embeds b) (block_tables b) (greedy_reqs b) (random_reqs b) (top_p_reqs b) (top_k_reqs b) (frequency_penalties_reqs b) (presence_penalties_reqs b) (f (repetition_penalties_reqs b)) (lora_id_to_request_ids b) (lora_id_to_lora_request b) (generators b) (num_logprobs b) (builder b) (has_allowed_token_ids b) (allowed_token_ids_mask b) (bad_words_token_ids b) (req_output_token_ids b) (spec_token_ids b) (pooling_params b) (pooling_states b) (prev_req_id_to_index b).
Definition set_lora_id_to_request_ids f (b : InputBatch) : InputBatch := mkInputBatch (is_pooling_model b) (max_num_reqs b) (max_model_len b) (vocab_size b) (_req_ids b) (req_id_to_index b) (rows b) (req_prompt_embeds b) (block_tables b) (greedy_reqs b) (random_reqs b) (top_p_reqs b) (top_k_reqs b) (frequency_penalties_reqs b) (presence_penalties_reqs b) (repetition_penalties_reqs b) (f (lora_id_to_request_ids b)) (lora_id_to_lora_request b) (generators b) (num_logprobs b) (builder b) (has_allowed_token_ids b) (allowed_token_ids_mask b) (bad_words_token_ids b) (req_output_token_ids b) (spec_token_ids b) (pooling_params b) (pooling_states b) (prev_req_id_to_index b).
Definition set_lora_id_to_lora_request f (b : InputBatch) : InputBatch := mkInputBatch (is_pooling_model b) (max_num_reqs b) (max_model_len b) (vocab_size b) (_req_ids b) (req_id_to_index b) (rows b) (req_prompt_embeds b) (block_tables b) (greedy_reqs b) (random_reqs b) (top_p_reqs b) (top_k_reqs b) (frequency_penalties_reqs b) (presence_penalties_reqs b) (repetition_penalties_reqs b) (lora_id_to_request_ids b) (f (lora_id_to_lora_request b)) (generators b) (num_logprobs b) (builder b) (has_allowed_token_ids b) (allowed_token_ids_mask b) (bad_words_token_ids b) (req_output_token_ids b) (spec_token_ids b) (pooling_params b) (pooling_states b) (prev_req_id_to_index b).
Definition set_generators f (b : InputBatch) : InputBatch := mkInputBatch (is_pooling_model b) (max_num_reqs b) (max_model_len b) (vocab_size b) (_req_ids b) (req_id_to_index b) (rows b) (req_prompt_embeds b) (block_tables b) (greedy_reqs b) (random_reqs b) (top_p_reqs b) (top_k_reqs b) (frequency_penalties_reqs b) (presence_penalties_reqs b) (repetition_penalties_reqs b) (lora_id_to_request_ids b) (lora_id_to_lora_request b) (f (generators b)) (num_logprobs b) (builder b) (has_allowed_token_ids b) (allowed_token_ids_mask b) (bad_words_token_ids b) (req_output_token_ids b) (spec_token_ids b) (pooling_params b) (pooling_states b) (prev_req_id_to_index b).
Definition set_num_logprobs f (b : InputBatch) : InputBatch := mkInputBatch (is_pooling_model b) (max_num_reqs b) (max_model_len b) (vocab_size b) (_req_ids b) (req_id_to_index b) (rows b) (req_prompt_embeds b) (block_tables b) (greedy_reqs b) (random_reqs b) (top_p_reqs b) (top_k_reqs b) (frequency_penalties_reqs b) (presence_penalties_reqs b) (repetition_penalties_reqs b) (lora_id_to_request_ids b) (lora_id_to_lora_request b) (generators b) (f (num_logprobs b)) (builder b) (has_allowed_token_ids b) (allowed_token_ids_mask b) (bad_words_token_ids b) (req_output_token_ids b) (spec_token_ids b) (pooling_params b) (pooling_states b) (prev_req_id_to_index b).
Definition set_builder f (b : InputBatch) : InputBatch := mkInputBatch (is_pooling_model b) (max_num_reqs b) (max_model_len b) (vocab_size b) (_req_ids b) (req_id_to_index b) (rows b) (req_prompt_embeds b) (block_tables b) (greedy_reqs b) (random_reqs b) (top_p_reqs b) (top_k_reqs b) (frequency_penalties_reqs b) (presence_penalties_reqs b) (repetition_penalties_reqs b) (lora_id_to_request_ids b) (lora_id_to_lora_request b) (generators b) (num_logprobs b) (f (builder b)) (has_allowed_token_ids b) (allowed_token_ids_mask b) (bad_words_token_ids b) (req_output_token_ids b) (spec_token_ids b) (pooling_params b) (pooling_states b) (prev_req_id_to_index b).
Definition set_has_allowed_token_ids f (b : InputBatch) : InputBatch := mkInputBatch (is_pooling_model b) (max_num_reqs b) (max_model_len b) (vocab_size b) (_req_ids b) (req_id_to_index b) (rows b) (req_prompt_embeds b) (block_tables b) (greedy_reqs b) (random_reqs b) (top_p_reqs b) (top_k_reqs b) (frequency_penalties_reqs b) (presence_penalties_reqs b) (repetition_penalties_reqs b) (lora_id_to_request_ids b) (lora_id_to_lora_request b) (generators b) (num_logprobs b) (builder b) (f (has_allowed_token_ids b)) (allowed_token_ids_mask b) (bad_words_token_ids b) (req_output_token_ids b) (spec_token_ids b) (pooling_params b) (pooling_states b) (prev_req_id_to_index b).
Definition set_allowed_token_ids_mask f (b : InputBatch) : InputBatch := mkInputBatch (is_pooling_model b) (max_num_reqs b) (max_model_len b) (vocab_size b) (_req_ids b) (req_id_to_index b) (rows b) (req_prompt_embeds b) (block_tables b) (greedy_reqs b) (random_reqs b) (top_p_reqs b) (top_k_reqs b) (frequency_penalties_reqs b) (presence_penalties_reqs b) (repetition_penalties_reqs b) (lora_id_to_request_ids b) (lora_id_to_lora_request b) (generators b) (num_logprobs b) (builder b) (has_allowed_token_ids b) (f (allowed_token_ids_mask b)) (bad_words_token_ids b) (req_output_token_ids b) (spec_token_ids b) (pooling_params b) (pooling_states b) (prev_req_id_to_index b).
Definition set_bad_words_token_ids f (b : InputBatch) : InputBatch := mkInputBatch (is_pooling_model b) (max_num_reqs b) (max_model_len b) (vocab_size b) (_req_ids b) (req_id_to_index b) (rows b) (req_prompt_embeds b) (block_tables b) (greedy_reqs b) (random_reqs b) (top_p_reqs b) (top_k_reqs b) (frequency_penalties_reqs b) (presence_penalties_reqs b) (repetition_penalties_reqs b) (lora_id_to_request_ids b) (lora_id_to_lora_request b) (generators b) (num_logprobs b) (builder b) (has_allowed_token_ids b) (allowed_token_ids_mask b) (f (bad_words_token_ids b)) (req_output_token_ids b) (spec_token_ids b) (pooling_params b) (pooling_states b) (prev_req_id_to_index b).
Definition set_req_output_token_ids f (b : InputBatch) : InputBatch := mkInputBatch (is_pooling_model b) (max_num_reqs b) (max_model_len b) (vocab_size b) (_req_ids b) (req_id_to_index b) (rows b) (req_prompt_embeds b) (block_tables b) (greedy_reqs b) (random_reqs b) (top_p_reqs b) (top_k_reqs b) (frequency_penalties_reqs b) (presence_penalties_reqs b) (repetition_penalties_reqs b) (lora_id_to_request_ids b) (lora_id_to_lora_request b) (generators b) (num_logprobs b) (builder b) (has_allowed_token_ids b) (allowed_token_ids_mask b) (bad_words_token_ids b) (f (req_output_token_ids b)) (spec_token_ids b) (pooling_params b) (pooling_states b) (prev_req_id_to_index b).
Definition set_spec_token_ids f (b : InputBatch) : InputBatch := mkInputBatch (is_pooling_model b) (max_num_reqs b) (max_model_len b) (vocab_size b) (_req_ids b) (req_id_to_index b) (rows b) (req_prompt_embeds b) (block_tables b) (greedy_reqs b) (random_reqs b) (top_p_reqs b) (top_k_reqs b) (frequency_penalties_reqs b) (presence_penalties_reqs b) (repetition_penalties_reqs b) (lora_id_to_request_ids b) (lora_id_to_lora_request b) (generators b) (num_logprobs b) (builder b) (has_allowed_token_ids b) (allowed_token_ids_mask b) (bad_words_token_ids b) (req_output_token_ids b) (f (spec_token_ids b)) (pooling_params b) (pooling_states b) (prev_req_id_to_index b).
Definition set_pooling_params f (b : InputBatch) : InputBatch := mkInputBatch (is_pooling_model b) (max_num_reqs b) (max_model_len b) (vocab_size b) (_req_ids b) (req_id_to_index b) (rows b) (req_prompt_embeds b) (block_tables b) (greedy_reqs b) (random_reqs b) (top_p_reqs b) (top_k_reqs b) (frequency_penalties_reqs b) (presence_penalties_reqs b) (repetition_penalties_reqs b) (lora_id_to_request_ids b) (lora_id_to_lora_request b) (generators b) (num_logprobs b) (builder b) (has_allowed_token_ids b) (allowed_token_ids_mask b) (bad_words_token_ids b) (req_output_token_ids b) (spec_token_ids b) (f (pooling_params b)) (pooling_states b) (prev_req_id_to_index b).
Definition set_pooling_states f (b : InputBatch) : InputBatch := mkInputBatch (is_pooling_model b) (max_num_reqs b) (max_model_len b) (vocab_size b) (_req_ids b) (req_id_to_index b) (rows b) (req_prompt_embeds b) (block_tables b) (greedy_reqs b) (random_reqs b) (top_p_reqs b) (top_k_reqs b) (frequency_penalties_reqs b) (presence_penalties_reqs b) (repetition_penalties_reqs b) (lora_id_to_request_ids b) (lora_id_to_lora_request b) (generators b) (num_logprobs b) (builder b) (has_allowed_token_ids b) (allowed_token_ids_mask b) (bad_words_token_ids b) (req_output_token_ids b) (spec_token_ids b) (pooling_params b) (f (pooling_states b)) (prev_req_id_to_index b).
Definition set_prev_req_id_to_index f (b : InputBatch) : InputBatch := mkInputBatch (is_pooling_model b) (max_num_reqs b) (max_model_len b) (vocab_size b) (_req_ids b) (req_id_to_index b) (rows b) (req_prompt_embeds b) (block_tables b) (greedy_reqs b) (random_reqs b) (top_p_reqs b) (top_k_reqs b) (frequency_penalties_reqs b) (presence_penalties_reqs b) (repetition_penalties_reqs b) (lora_id_to_request_ids b) (lora_id_to_lora_request b) (generators b) (num_logprobs b) (builder b) (has_allowed_token_ids b) (allowed_token_ids_mask b) (bad_words_token_ids b) (req_output_token_ids b) (spec_token_ids b) (pooling_params b) (pooling_states b) (f (prev_req_id_to_index b)).

(** The arrays that [torch.empty] makes hold whatever was in memory: [uninit]. *)
Definition Row_init (max_model_len : nat) (uninit : Row) : Row :=
  mkRow (replicate max_model_len 0) (replicate max_model_len false) 0 0 0 0 (temperature_cpu uninit) (top_p_cpu uninit) (top_k_cpu uninit)
    (frequency_penalties_cpu uninit) (presence_penalties_cpu uninit) (repetition_penalties_cpu uninit) 1 false.
Definition InputBatch_init (max_num_reqs max_model_len max_num_batched_tokens : nat) (vocab_size : Z) (block_sizes kernel_block_sizes : list Z)
    (max_num_blocks_per_req : option (list Z)) (is_pooling_model : bool) (interleave pcp_world_size pcp_rank dcp_world_size dcp_rank : Z)
    (uninit : nat → Row) : res InputBatch :=
  tables ← MultiGroupBlockTable_init max_num_reqs (Z.of_nat max_model_len) max_num_batched_tokens block_sizes kernel_block_sizes max_num_blocks_per_req
             interleave pcp_world_size pcp_rank dcp_world_size dcp_rank;
  Ok (mkInputBatch is_pooling_model max_num_reqs max_model_len vocab_size [] ∅ (map (λ i, Row_init max_model_len (uninit i)) (seq 0 max_num_reqs)) ∅ tables
    ∅ ∅ ∅ ∅ ∅ ∅ ∅ ∅ ∅ ∅ ∅ BatchUpdateBuilder_init ∅ None ∅ [] (replicate max_num_reqs []) ∅ ∅ None).

Definition num_reqs (b : InputBatch) : nat := size (req_id_to_index b).

Definition builderL : lens InputBatch BatchUpdateBuilder := Lens builder (λ x, set_builder (λ _, x)).
Definition tablesL : lens InputBatch (list BlockTable) := Lens block_tables (λ x, set_block_tables (λ _, x)).

Definition upd_row (i : nat) (f : Row → Row) : M InputBatch unit :=
  b ← gets Datatypes.id; r ← lift_res (arr_get (rows b) i); modify (set_rows (<[i := f r]>)).
(** An element of a Python list at an index of the batch. *)
Definition set_at {A} (get : InputBatch → list A) (set : (list A → list A) → InputBatch → InputBatch) (i : nat) (x : A) : M InputBatch unit :=
  b ← gets Datatypes.id; l ← lift_res (arr_set (get b) i x); modify (set (λ _, l)).
Definition get_at {A} (get : InputBatch → list A) (i : nat) : M InputBatch A := b ← gets Datatypes.id; lift_res (arr_get (get b) i).

(** [token_ids_cpu[i, a:e] = vs] and [is_token_ids[i, a:e] = v] *)
Definition write_tokens (i a e : nat) (vs : list Z) : M InputBatch unit :=
  b ← gets Datatypes.id; r ← lift_res (arr_get (rows b) i);
  l ← lift_res (slice_set a e vs (token_ids r));
  modify (set_rows (<[i := set_token_ids (λ _, l) r]>)).
Definition fill_slice {A} (a e : nat) (v : A) (l : list A) : list A :=
  let e := (e `min` length l)%nat in let a := (a `min` length l)%nat in take a l ++ replicate (e - a) v ++ drop (a + (e - a)) l.
Definition write_is_token (i a e : nat) (v : bool) : M InputBatch unit := upd_row i (set_is_token_ids (fill_slice a e v)).

(** ** Adding a request *)

(** What the logits processors are told of a request. *)
Definition info_of (r : CachedRequestState) (p : SamplingParams) : SlotInfo := mkInfo p (prompt_token_ids r) (output_token_ids r).

Definition _register_add_request (r : CachedRequestState) : M InputBatch nat :=
  o ← zoom builderL pop_removed;
  new_req_index ← (match o with Some i => mret i | None => gets num_reqs end);
  b ← gets Datatypes.id;
  assert_ (bool_decide (new_req_index < max_num_reqs b)%nat) ;;
  zoom builderL (modify (set_batch_changed true)) ;;
  (match sampling_params r with Some p => zoom builderL (modify (added_append (new_req_index, info_of r p))) | None => mret tt end) ;;
  mret new_req_index.

(** The row of the mask of a request that allows only some tokens. *)
Fixpoint allow_tokens (ids : list Z) (mask : list bool) : res (list bool) :=
  match ids with
  | [] => Ok mask
  | t :: ids =>
      let j := py_index (Z.of_nat (length mask)) t in
      if (0 <=? j) && (j <? Z.of_nat (length mask)) then allow_tokens ids (<[Z.to_nat j := false]> mask) else Err IndexError
  end.
Definition add_allowed (id : string) (i : nat) (ids : list Z) : M InputBatch unit :=
  modify (set_has_allowed_token_ids (λ s, {[id]} ∪ s)) ;;
  b ← gets Datatypes.id;
  let vocab := Z.to_nat (vocab_size b) in
  let mask := default (replicate (max_num_reqs b) (replicate vocab false)) (allowed_token_ids_mask b) in
  modify (set_allowed_token_ids_mask (λ _, Some (<[i := replicate vocab true]> mask))) ;;
  row ← lift_res (allow_tokens ids (replicate vocab true));
  modify (set_allowed_token_ids_mask (λ _, Some (<[i := row]> mask))).

(** The member of a set of ids: in it when the parameter asks for it. *)
Definition add_if (c : bool) (id : string) (s : gset string) : gset string := if c then {[id]} ∪ s else s.
Definition one_float : spec_float := S754_finite false 4503599627370496 (-52).

(** The sampling part of [add_request]. *)
Definition uses_top_p (p : SamplingParams) : bool := SFltb (top_p p) one_float.
Definition uses_top_k (vocab : Z) (p : SamplingParams) : bool := (0 <? top_k p) && (top_k p <? vocab).
Definition is_greedy (p : SamplingParams) : bool := match sampling_type p with GREEDY => true | _ => false end.
Definition uses_frequency (p : SamplingParams) : bool := negb (SFeqb (frequency_penalty p) zero_float).
Definition uses_presence (p : SamplingParams) : bool := negb (SFeqb (presence_penalty p) zero_float).
Definition uses_repetition (p : SamplingParams) : bool := negb (SFeqb (repetition_penalty p) one_float).
Definition logprobs_of (vocab : Z) (p : SamplingParams) : option Z := (λ n, if bool_decide (n = -1) then vocab else n) <$> logprobs p.
Definition nonempty_list {A} (o : option (list A)) : option (list A) := match o with Some [] => None | _ => o end.

Definition add_sampling (r : CachedRequestState) (i : nat) (p : SamplingParams) : M InputBatch unit :=
  let id := req_id r in
  vocab ← gets vocab_size;
  upd_row i (λ row, set_temperature_cpu (λ _, if is_greedy p then zero_float else float32 (temperature p)) row) ;;
  modify (λ b, set_random_reqs (add_if (negb (is_greedy p)) id) (set_greedy_reqs (add_if (is_greedy p) id) b)) ;;
  upd_row i (set_top_p_cpu (λ _, float32 (top_p p))) ;;
  modify (set_top_p_reqs (add_if (uses_top_p p) id)) ;;
  modify (set_top_k_reqs (add_if (uses_top_k vocab p) id)) ;;
  upd_row i (set_top_k_cpu (λ _, if uses_top_k vocab p then top_k p else vocab)) ;;
  upd_row i (set_frequency_penalties_cpu (λ _, float32 (frequency_penalty p))) ;;
  modify (set_frequency_penalties_reqs (add_if (uses_frequency p) id)) ;;
  upd_row i (set_presence_penalties_cpu (λ _, float32 (presence_penalty p))) ;;
  modify (set_presence_penalties_reqs (add_if (uses_presence p) id)) ;;
  upd_row i (set_repetition_penalties_cpu (λ _, float32 (repetition_penalty p))) ;;
  modify (set_repetition_penalties_reqs (add_if (uses_repetition p) id)) ;;
  (match generator r with Some g => modify (set_generators (<[i := g]>)) | None => mret tt end) ;;
  (match logprobs_of vocab p with Some n => modify (set_num_logprobs (<[id := n]>)) | None => mret tt end) ;;
  (match nonempty_list (allowed_token_ids p) with Some ids => add_allowed id i ids | None => mret tt end) ;;
  (match nonempty_list (bad_words p) with Some w => modify (set_bad_words_token_ids (<[i := w]>)) | None => mret tt end).

Definition add_lora (id : string) (i : nat) (l : option LoRARequest) : M InputBatch unit :=
  match l with
  | Some l =>
      let lora_id := lora_int_id l in
      upd_row i (set_request_lora_mapping (λ _, lora_id)) ;;
      modify (set_lora_id_to_request_ids (λ m, <[lora_id := {[id]} ∪ default ∅ (m !! lora_id)]> m)) ;;
      modify (set_lora_id_to_lora_request (<[lora_id := l]>))
  | None => upd_row i (set_request_lora_mapping (λ _, 0))
  end.

(** The tokens of a request: its prompt, if it has token ids, and its output. *)
Definition add_tokens (h : Heap) (r : CachedRequestState) (i : nat) : M InputBatch unit :=
  n ← lift_res (req_num_prompt_tokens r);
  let start_idx := Z.to_nat n in
  let out := h (output_token_ids r) in
  let end_idx := (start_idx + length out)%nat in
  upd_row i (set_num_prompt_tokens (λ _, start_idx)) ;;
  (match prompt_token_ids r with
   | Some ids => write_tokens i 0 start_idx ids ;; write_is_token i 0 start_idx true
   | None => write_is_token i 0 start_idx false
   end) ;;
  (match req_prompt_embeds_of r with Some e => modify (set_req_prompt_embeds (<[i := e]>)) | None => mret tt end) ;;
  write_tokens i start_idx end_idx out ;;
  write_is_token i start_idx end_idx true ;;
  upd_row i (set_num_tokens_no_spec (λ _, end_idx)).

(** The lists of the batch, which grow by one or have a hole filled. *)
Definition add_lists (r : CachedRequestState) (i : nat) : M InputBatch unit :=
  b ← gets Datatypes.id;
  if bool_decide (i = length (_req_ids b)) then
    modify (set_req_ids (λ l, l ++ [Some (req_id r)])) ;;
    modify (set_req_output_token_ids (λ l, l ++ [Some (output_token_ids r)])) ;;
    modify (set_spec_token_ids (λ l, l ++ [[]]))
  else
    set_at _req_ids set_req_ids i (Some (req_id r)) ;;
    set_at req_output_token_ids set_req_output_token_ids i (Some (output_token_ids r)) ;;
    set_at spec_token_ids set_spec_token_ids i [].

Definition add_request (h : Heap) (r : CachedRequestState) : M InputBatch nat :=
  i ← _register_add_request r;
  add_lists r i ;;
  modify (set_req_id_to_index (<[req_id r := i]>)) ;;
  add_tokens h r i ;;
  upd_row i (set_num_computed_tokens (λ _, req_num_computed_tokens r)) ;;
  zoom tablesL (mg_add_row (block_ids r) i) ;;
  (match sampling_params r with
   | Some p => add_sampling r i p
   | None =>
       match pooling_params_of r with
       | Some p =>
           s ← lift_opt AssertionError (pooling_states_of r);
           modify (set_pooling_params (<[req_id r := p]>)) ;;
           modify (set_pooling_states (<[req_id r := s]>)) ;;
           upd_row i (set_logits_processing_needs_token_ids (λ _, requires_token_ids p))
       | None => raise NotImplementedError
       end
   end) ;;
  upd_row i (set_num_accepted_tokens (λ _, 1)) ;;
  add_lora (req_id r) i (lora_request r) ;;
  mret i.

(** ** Draft tokens *)

(** Returns the number of drafts, which the caller keeps as [request.prev_num_draft_len]. *)
Definition update_req_spec_token_ids (id : string) (scheduled_spec_tokens : gmap string (list Z)) : M InputBatch nat :=
  b ← gets Datatypes.id;
  i ← lift_opt KeyError (req_id_to_index b !! id);
  set_at spec_token_ids set_spec_token_ids i [] ;;
  let spec := default [] (scheduled_spec_tokens !! id) in
  if bool_decide (length spec = 0%nat) then mret 0%nat
  else
    r ← get_at rows i;
    let start_index := num_tokens_no_spec r in
    write_tokens i start_index (start_index + length spec) spec ;;
    set_at spec_token_ids set_spec_token_ids i spec ;;
    mret (length spec).

(** ** Removing a request *)

Definition remove_lora (id : string) (i : nat) : M InputBatch unit :=
  r ← get_at rows i;
  let lora_id := request_lora_mapping r in
  if bool_decide (lora_id = 0) then mret tt
  else
    b ← gets Datatypes.id;
    old ← lift_opt (A:=gset string) KeyError (lora_id_to_request_ids b !! lora_id);
    let ids : gset string := old ∖ {[id]} in
    modify (set_lora_id_to_request_ids (<[lora_id := ids]>)) ;;
    (if bool_decide (ids = ∅) then
       modify (set_lora_id_to_request_ids (delete lora_id)) ;;
       lift_opt KeyError (lora_id_to_lora_request b !! lora_id) ;;
       modify (set_lora_id_to_lora_request (delete lora_id))
     else mret tt) ;;
    upd_row i (set_request_lora_mapping (λ _, 0)).

(** What is discarded of the sampling parameters. *)
Definition discard_sampling (id : string) (i : nat) (b : InputBatch) : InputBatch :=
  let d := λ s : gset string, s ∖ {[id]} in
  set_bad_words_token_ids (delete i)
    (set_allowed_token_ids_mask (fmap (M:=option) (λ m, <[i := replicate (Z.to_nat (vocab_size b)) false]> m))
    (set_has_allowed_token_ids d
    (set_prev_req_id_to_index (fmap (M:=option) (delete id))
    (set_num_logprobs (delete id)
    (set_generators (delete i)
    (set_repetition_penalties_reqs d (set_presence_penalties_reqs d (set_frequency_penalties_reqs d
    (set_top_k_reqs d (set_top_p_reqs d (set_random_reqs d (set_greedy_reqs d b)))))))))))).

Definition remove_request (id : string) : M InputBatch (option nat) :=
  b ← gets Datatypes.id;
  match req_id_to_index b !! id with
  | None => mret None
  | Some i =>
      modify (set_req_id_to_index (delete id)) ;;
      zoom builderL (removed_append i) ;;
      set_at _req_ids set_req_ids i None ;;
      set_at req_output_token_ids set_req_output_token_ids i None ;;
      set_at spec_token_ids set_spec_token_ids i [] ;;
      zoom tablesL (mg_clear_row i) ;;
      remove_lora id i ;;
      (if is_pooling_model b then modify (set_pooling_params (delete id)) ;; modify (set_pooling_states (delete id))
       else modify (discard_sampling id i)) ;;
      mret (Some i)
  end.

(** ** Moving requests *)

Definition _get_active_token_count (b : InputBatch) (i : nat) : res nat :=
  r ← arr_get (rows b) i; s ← arr_get (spec_token_ids b) i; Ok (num_tokens_no_spec r + length s)%nat.

(** [to[:n] = from[:n]] *)
Definition copy_prefix {A} (n : nat) (from to : list A) : list A := take n from ++ drop n to.

(** The elements of the arrays that two requests exchange: [r] with those of [q]. *)
Definition swap_columns (sampling : bool) (n : nat) (q r : Row) : Row :=
  mkRow (copy_prefix n (token_ids q) (token_ids r)) (copy_prefix n (is_token_ids q) (is_token_ids r))
    (num_tokens_no_spec q) (num_prompt_tokens q) (num_computed_tokens q) (request_lora_mapping q)
    (temperature_cpu (if sampling then q else r)) (top_p_cpu (if sampling then q else r)) (top_k_cpu (if sampling then q else r))
    (frequency_penalties_cpu (if sampling then q else r)) (presence_penalties_cpu (if sampling then q else r)) (repetition_penalties_cpu (if sampling then q else r))
    (num_accepted_tokens (if sampling then q else r)) (logits_processing_needs_token_ids r).

(** [swap_dict_values] *)
Definition swap_dict_values {A} (i1 i2 : nat) (m : gmap nat A) : gmap nat A :=
  let v1 := m !! i1 in
  let v2 := m !! i2 in
  let m := match v1 with Some v => <[i2 := v]> m | None => delete i2 m end in
  match v2 with Some v => <[i1 := v]> m | None => delete i1 m end.

(** [l[i1], l[i2] = l[i2], l[i1]] *)
Definition swap_at {A} (i1 i2 : nat) (l : list A) : list A :=
  match l !! i1, l !! i2 with Some x, Some y => <[i2 := x]> (<[i1 := y]> l) | _, _ => l end.

(** A row of a tensor copied to another. *)
Definition copy_row {A} (from to : nat) (l : list A) : list A := match l !! from with Some x => <[to := x]> l | None => l end.
(** [t[i1], t[i2] = t[i2], t[i1]] on the rows of a tensor: both reads are views, so the second
    assignment copies what the first has written. *)
Definition swap_views {A} (i1 i2 : nat) (l : list A) : list A := copy_row i1 i2 (copy_row i2 i1 l).

Definition swap_states (i1 i2 : nat) : M InputBatch unit :=
  b ← gets Datatypes.id;
  old_id_i1 ← get_at _req_ids i1;
  old_id_i2 ← get_at _req_ids i2;
  n1 ← lift_res (_get_active_token_count b i1);
  n2 ← lift_res (_get_active_token_count b i2);
  let n := (n1 `max` n2)%nat in
  modify (set_req_ids (swap_at i1 i2)) ;;
  modify (set_req_output_token_ids (swap_at i1 i2)) ;;
  modify (set_spec_token_ids (swap_at i1 i2)) ;;
  id1 ← lift_opt AssertionError old_id_i1;
  id2 ← lift_opt AssertionError old_id_i2;
  k1 ← lift_opt KeyError (req_id_to_index b !! id1);
  k2 ← lift_opt KeyError (req_id_to_index b !! id2);
  modify (set_req_id_to_index (λ m, <[id2 := k1]> (<[id1 := k2]> m))) ;;
  r1 ← get_at rows i1;
  r2 ← get_at rows i2;
  let sampling := negb (is_pooling_model b) in
  modify (set_rows (λ l, <[i2 := swap_columns sampling n r1 r2]> (<[i1 := swap_columns sampling n r2 r1]> l))) ;;
  modify (set_req_prompt_embeds (swap_dict_values i1 i2)) ;;
  zoom tablesL (mg_swap_row i1 i2) ;;
  if is_pooling_model b then mret tt
  else
    zoom builderL (modify (moved_append (i1, i2, SWAP))) ;;
    modify (set_generators (swap_dict_values i1 i2)) ;;
    modify (set_bad_words_token_ids (swap_dict_values i1 i2)) ;;
    modify (set_allowed_token_ids_mask (fmap (M:=option) (swap_views i1 i2))).

(** [m[to] = m.pop(from)], if there is an element. *)
Definition pop_to {A} (from to : nat) (m : gmap nat A) : gmap nat A :=
  match m !! from with Some v => <[to := v]> (delete from m) | None => m end.

(** The elements of the arrays that move down: [r] becomes [q], its tokens up to [n]. *)
Definition move_columns := swap_columns.

(** [while last_req_index in empty_req_indices: last_req_index -= 1], at most [fuel] times. *)
Fixpoint skip_empty (fuel : nat) (empty : list nat) (last : Z) : res Z :=
  match fuel with
  | O => Err OutOfFuel
  | S fuel => if (0 <=? last) && bool_decide (Z.to_nat last ∈ empty) then skip_empty fuel empty (last - 1) else Ok last
  end.

(** One move of [condense]. *)
Definition condense_move (last_req_index empty_index : nat) : M InputBatch unit :=
  zoom builderL pop_removed ;;
  o ← get_at _req_ids last_req_index;
  out ← get_at req_output_token_ids last_req_index;
  id ← lift_opt AssertionError o;
  set_at _req_ids set_req_ids empty_index (Some id) ;;
  set_at _req_ids set_req_ids last_req_index None ;;
  set_at req_output_token_ids set_req_output_token_ids empty_index out ;;
  set_at req_output_token_ids set_req_output_token_ids last_req_index None ;;
  modify (set_req_id_to_index (<[id := empty_index]>)) ;;
  b ← gets Datatypes.id;
  num_tokens ← lift_res (_get_active_token_count b last_req_index);
  modify (set_spec_token_ids (swap_at last_req_index empty_index)) ;;
  set_at spec_token_ids set_spec_token_ids last_req_index [] ;;
  q ← get_at rows last_req_index;
  upd_row empty_index (move_columns (negb (is_pooling_model b)) num_tokens q) ;;
  modify (set_req_prompt_embeds (pop_to last_req_index empty_index)) ;;
  zoom tablesL (mg_move_row last_req_index empty_index) ;;
  if is_pooling_model b then mret tt
  else
    zoom builderL (modify (moved_append (last_req_index, empty_index, UNIDIRECTIONAL))) ;;
    modify (set_generators (pop_to last_req_index empty_index)) ;;
    modify (set_allowed_token_ids_mask (fmap (M:=option) (copy_row last_req_index empty_index))) ;;
    modify (set_bad_words_token_ids (pop_to last_req_index empty_index)).

(** [while empty_req_indices]; the list is that of the builder, which [pop_removed] shortens. *)
Fixpoint condense_loop (fuel : nat) (last_req_index : Z) : M InputBatch unit :=
  match fuel with
  | O => raise OutOfFuel
  | S fuel =>
      empty ← gets (λ b, _removed (builder b));
      if bool_decide (length empty = 0%nat) then mret tt
      else
        last_req_index ← lift_res (skip_empty (S (Z.to_nat (last_req_index + 1))) empty last_req_index);
        o ← zoom builderL peek_removed;
        empty_index ← lift_opt AssertionError o;
        if last_req_index <=? Z.of_nat empty_index then mret tt
        else condense_move (Z.to_nat last_req_index) empty_index ;; condense_loop fuel (last_req_index - 1)
  end.

Definition condense : M InputBatch unit :=
  n ← gets num_reqs;
  empty ← zoom builderL builder_removed;
  if bool_decide (length empty = 0%nat) then mret tt
  else if bool_decide (n = 0%nat) then
    modify (set_req_ids (λ _, [])) ;; modify (set_req_output_token_ids (λ _, [])) ;; modify (set_spec_token_ids (λ _, []))
  else
    condense_loop (S (length empty)) (Z.of_nat n + Z.of_nat (length empty) - 1) ;;
    modify (set_req_ids (take n)) ;; modify (set_req_output_token_ids (take n)) ;; modify (set_spec_token_ids (take n)).

(** ** Metadata *)

(** [refresh_metadata]: the processors get the update; whether the sampling metadata is made anew. *)
Definition refresh_metadata `{LogitsProcessor P E} (h : Heap) (p : P) : M InputBatch (P * bool) :=
  b ← gets Datatypes.id;
  if is_pooling_model b then changed ← zoom builderL builder_reset; mret (p, changed)
  else u ← zoom builderL (get_and_reset (num_reqs b)); mret (lp_update h u p, bool_decide (is_Some u)).

Definition all_greedy (b : InputBatch) : bool := bool_decide (random_reqs b = ∅).
Definition all_random (b : InputBatch) : bool := bool_decide (greedy_reqs b = ∅).
Definition no_top_p (b : InputBatch) : bool := bool_decide (top_p_reqs b = ∅).
Definition no_top_k (b : InputBatch) : bool := bool_decide (top_k_reqs b = ∅).
Definition no_penalties (b : InputBatch) : bool :=
  bool_decide (presence_penalties_reqs b = ∅) && bool_decide (frequency_penalties_reqs b = ∅) && bool_decide (repetition_penalties_reqs b = ∅).
Definition max_num_logprobs (b : InputBatch) : option Z :=
  match py_max (map snd (map_to_list (num_logprobs b))) with Ok n => Some n | Err _ => None end.
Definition no_allowed_token_ids (b : InputBatch) : bool := bool_decide (has_allowed_token_ids b = ∅).

(** The LoRA id of each sampled and of each scheduled token; the active LoRAs. *)
Definition make_lora_inputs (num_scheduled_tokens num_sampled_tokens : list nat) (b : InputBatch) : list Z * list Z * list LoRARequest :=
  let mapping := map request_lora_mapping (take (num_reqs b) (rows b)) in
  let repeat counts := concat (zip_with (λ x n, replicate n x) mapping counts) in
  (repeat num_sampled_tokens, repeat num_scheduled_tokens, map snd (map_to_list (lora_id_to_lora_request b))).

(** [_make_prompt_token_ids_cpu_tensor]: the prompts, padded with a token outside the vocabulary. *)
Definition _make_prompt_token_ids_cpu_tensor (b : InputBatch) : res (list (list Z)) :=
  let rs := take (num_reqs b) (rows b) in
  max_prompt_len ← py_max (map (λ r, Z.of_nat (num_prompt_tokens r)) rs);
  Ok (map (λ r, let n := Z.to_nat max_prompt_len in take (num_prompt_tokens r) (take n (token_ids r)) ++ replicate (n - num_prompt_tokens r) (vocab_size b)) rs).

Definition get_pooling_params (b : InputBatch) : res (list PoolingParams) :=
  if negb (bool_decide (length (_req_ids b) = size (pooling_params b))) then Err AssertionError
  else map_res (λ o, match o with Some id => match pooling_params b !! id with Some p => Ok p | None => Err KeyError end | None => Err KeyError end) (_req_ids b).
