(* ===== verification/BatchInvariant.v ===== *)
(** * The batch as a map of requests

    What the persistent batch of InputBatch.v stands for: a map from request ids to entries, with
    the tokens, drafts, blocks and parameters of each request.  Adding and removing a request insert
    and delete its entry; [condense] and [swap_states] only move entries between indices, which the
    map does not show.  The pending update of the builder describes the same moves to the logits
    processors. *)

From stdpp Require Import base list gmap strings sorting.
From Stdlib Require Import ZArith Lia Floats.SpecFloat.
From S2P Require Import Prelude FreeQueue Request LogitsProcessors BlockTable InputBatch.
Local Open Scope Z_scope.

(** ** Entries *)

(** A position of the prompt given by an embedding has no token. *)
Record Entry := mkEntry {
  e_req : CachedRequestState;
  e_params : SamplingParams;
  e_tokens : list (option Z);
  e_spec : list Z;
  e_prompt : nat;
  e_computed : Z;
  e_blocks : list (list Z);
  e_accepted : Z
}.

Definition entry_info (e : Entry) : SlotInfo := info_of (e_req e) (e_params e).
Definition lora_of (e : Entry) : Z := match lora_request (e_req e) with Some l => lora_int_id l | None => 0 end.

(** The tokens and then the drafts stand at the start of the row. *)
Definition tokens_rep (ts : list (option Z)) (spec : list Z) (ids : list Z) (is_token : list bool) : Prop :=
  (∀ k o, ts !! k = Some o → is_token !! k = Some (bool_decide (is_Some o)) ∧ ∀ t, o = Some t → ids !! k = Some t) ∧
  ∀ k t, spec !! k = Some t → ids !! (length ts + k)%nat = Some t.

(** The elements of the arrays for an entry. *)
Definition row_rep (max_len : nat) (vocab : Z) (e : Entry) (row : Row) : Prop :=
  (e_prompt e ≤ length (e_tokens e) ∧ length (e_tokens e) + length (e_spec e) ≤ max_len)%nat ∧
  tokens_rep (e_tokens e) (e_spec e) (token_ids row) (is_token_ids row) ∧
  num_tokens_no_spec row = length (e_tokens e) ∧ num_prompt_tokens row = e_prompt e ∧ num_computed_tokens row = e_computed e ∧
  request_lora_mapping row = lora_of e ∧ num_accepted_tokens row = e_accepted e ∧
  let p := e_params e in
  temperature_cpu row = (if is_greedy p then zero_float else float32 (temperature p)) ∧ top_p_cpu row = float32 (top_p p) ∧
  top_k_cpu row = (if uses_top_k vocab p then top_k p else vocab) ∧ frequency_penalties_cpu row = float32 (frequency_penalty p) ∧
  presence_penalties_cpu row = float32 (presence_penalty p) ∧ repetition_penalties_cpu row = float32 (repetition_penalty p).

(** The blocks of each group are those of the table's row. *)
Definition blocks_rep (ts : list BlockTable) (i : nat) (blocks : list (list Z)) : Prop :=
  ∀ g t, ts !! g = Some t → ∃ l, blocks !! g = Some l ∧ row_blocks t i = Some (kernel_ids t l).

(** The entry [e] at index [i]. *)
Record slot_rep (b : InputBatch) (i : nat) (e : Entry) : Prop := {
  sr_row : ∃ row, rows b !! i = Some row ∧ row_rep (max_model_len b) (vocab_size b) e row;
  sr_spec : spec_token_ids b !! i = Some (e_spec e);
  sr_out : req_output_token_ids b !! i = Some (Some (output_token_ids (e_req e)));
  sr_blocks : blocks_rep (block_tables b) i (e_blocks e);
  sr_generator : generators b !! i = generator (e_req e);
  sr_bad_words : bad_words_token_ids b !! i = nonempty_list (bad_words (e_params e));
  sr_mask : ∀ ids, nonempty_list (allowed_token_ids (e_params e)) = Some ids →
    ∃ m row, allowed_token_ids_mask b = Some m ∧ m !! i = Some row ∧ allow_tokens ids (replicate (Z.to_nat (vocab_size b)) true) = Ok row;
  sr_embeds : ∀ x, req_prompt_embeds_of (e_req e) = Some x → req_prompt_embeds b !! i = Some x
}.

(** ** Moving an entry *)

(** Two rows with the same first [n] tokens and the same other elements. *)
Definition same_row (n : nat) (r r' : Row) : Prop :=
  take n (token_ids r') = take n (token_ids r) ∧ take n (is_token_ids r') = take n (is_token_ids r) ∧
  num_tokens_no_spec r' = num_tokens_no_spec r ∧ num_prompt_tokens r' = num_prompt_tokens r ∧ num_computed_tokens r' = num_computed_tokens r ∧
  request_lora_mapping r' = request_lora_mapping r ∧ num_accepted_tokens r' = num_accepted_tokens r ∧
  temperature_cpu r' = temperature_cpu r ∧ top_p_cpu r' = top_p_cpu r ∧ top_k_cpu r' = top_k_cpu r ∧
  frequency_penalties_cpu r' = frequency_penalties_cpu r ∧ presence_penalties_cpu r' = presence_penalties_cpu r ∧ repetition_penalties_cpu r' = repetition_penalties_cpu r.

Lemma same_row_refl n r : same_row n r r.
Proof. by split_and!. Qed.

Lemma take_lookup_eq {A} n (l l' : list A) k x : take n l' = take n l → (k < n)%nat → l !! k = Some x → l' !! k = Some x.
Proof. intros E Hk Hx. rewrite <-(lookup_take_lt l' n) by done. by rewrite E, lookup_take_lt. Qed.

Lemma row_rep_same max_len vocab e n r r' :
  row_rep max_len vocab e r → (length (e_tokens e) + length (e_spec e) ≤ n)%nat → same_row n r r' → row_rep max_len vocab e r'.
Proof.
  intros (Hcap & [Ht Hs] & H) Hn (E1 & E2 & Hr). unfold row_rep.
  destruct Hr as (-> & -> & -> & -> & -> & -> & -> & -> & -> & -> & ->). split; [done|]. split; [|done]. split.
  - intros k o Hk. destruct (Ht k o Hk) as [H1 H2]. apply lookup_lt_Some in Hk. split; [eapply take_lookup_eq; eauto; lia|].
    intros t Ho. eapply take_lookup_eq; eauto. lia.
  - intros k t Hk. pose proof (lookup_lt_Some _ _ _ Hk). eapply take_lookup_eq; eauto. lia.
Qed.

(** Index [j] of [b'] has what index [i] of [b] had; [n] tokens were copied. *)
Record moved_to (b b' : InputBatch) (i j : nat) : Prop := {
  mt_len : max_model_len b' = max_model_len b;
  mt_vocab : vocab_size b' = vocab_size b;
  mt_row : ∀ r s, rows b !! i = Some r → spec_token_ids b !! i = Some s → ∃ n r', (num_tokens_no_spec r + length s ≤ n)%nat ∧ rows b' !! j = Some r' ∧ same_row n r r';
  mt_spec : spec_token_ids b' !! j = spec_token_ids b !! i;
  mt_out : req_output_token_ids b' !! j = req_output_token_ids b !! i;
  mt_blocks : ∀ l, blocks_rep (block_tables b) i l → blocks_rep (block_tables b') j l;
  mt_generator : generators b' !! j = generators b !! i;
  mt_bad_words : bad_words_token_ids b' !! j = bad_words_token_ids b !! i;
  mt_mask : ∀ m row, allowed_token_ids_mask b = Some m → m !! i = Some row → ∃ m', allowed_token_ids_mask b' = Some m' ∧ m' !! j = Some row;
  mt_embeds : ∀ x, req_prompt_embeds b !! i = Some x → req_prompt_embeds b' !! j = Some x
}.

Lemma slot_rep_moved b b' i j e : slot_rep b i e → moved_to b b' i j → slot_rep b' j e.
Proof.
  intros [(row & Hrow & Hrep) Hspec Hout Hbl Hgen Hbad Hmask Hemb] [El Ev Mrow Mspec Mout Mbl Mgen Mbad Mmask Memb].
  split; try congruence; auto.
  - destruct (Mrow row _ Hrow Hspec) as (n & r' & Hn & Hr' & Hsame). exists r'. split; [done|]. rewrite El, Ev.
    eapply row_rep_same; [done| |done]. destruct Hrep as (_ & _ & E & _). by rewrite <-E.
  - intros ids Hids. destruct (Hmask ids Hids) as (m & mrow & Hm & Hi & Ha). destruct (Mmask m mrow Hm Hi) as (m' & Hm' & Hj).
    exists m', mrow. by rewrite Ev.
Qed.

(** ** The tables *)

(** What an operation on all tables did to their rows. *)
Definition tables_to (n : nat) (ts ts' : list BlockTable) (f : nat → BlockTable → nat → option (list Z)) : Prop :=
  length ts' = length ts ∧
  ∀ g t', ts' !! g = Some t' → ∃ t, ts !! g = Some t ∧ table_ok n t' ∧ same_shape t t' ∧ ∀ j, row_blocks t' j = f g t j.

Definition all_tables_ok (n : nat) (ts : list BlockTable) : Prop := ∀ g t, ts !! g = Some t → table_ok n t.

Lemma mg_spec n m f ts :
  (∀ g t, ts !! g = Some t → row_op n (m g) t (f g t)) → wp (each_table 0 m) (λ _ ts', tables_to n ts ts' f) no_exn ts.
Proof.
  intros Hm. eapply wp_mono; [apply (each_table_spec 0 m (λ g t t', table_ok n t' ∧ same_shape t t' ∧ ∀ j, row_blocks t' j = f g t j)); exact Hm| |done].
  intros _ ts' [Hl Hts]. split; [done|]. intros g t' Hg. destruct (Hts g t' Hg) as (t & Ht & ? & ? & ?). by exists t.
Qed.

Lemma tables_to_ok n ts ts' f : tables_to n ts ts' f → all_tables_ok n ts'.
Proof. intros [_ H] g t' Hg. by destruct (H g t' Hg) as (t & _ & ? & _). Qed.

Lemma tables_to_rep n ts ts' f i j l l' :
  tables_to n ts ts' f → blocks_rep ts i l →
  (∀ g t x, ts !! g = Some t → l !! g = Some x → ∃ y, l' !! g = Some y ∧ f g t j = Some (kernel_ids t y)) → blocks_rep ts' j l'.
Proof.
  intros [_ H] Hl Hf g t' Hg. destruct (H g t' Hg) as (t & Ht & _ & Hs & Hr). destruct (Hl g t Ht) as (x & Hx & _).
  destruct (Hf g t x Ht Hx) as (y & Hy & E). exists y. split; [done|]. by rewrite Hr, E, (same_shape_ids t t').
Qed.

(** A row that keeps its blocks, at the same index or at another. *)
Lemma tables_to_same n ts ts' f i j l :
  tables_to n ts ts' f → (∀ g t, ts !! g = Some t → f g t j = row_blocks t i) → blocks_rep ts i l → blocks_rep ts' j l.
Proof.
  intros Ht Hf Hl. eapply tables_to_rep; [done|done|]. intros g t x Hg Hx. exists x. split; [done|]. rewrite Hf by done.
  destruct (Hl g t Hg) as (y & Hy & E). by simplify_eq.
Qed.

(** ** The whole batch *)

(** An index that holds a request. *)
Definition holds (b : InputBatch) (i : nat) (id : string) : Prop := _req_ids b !! i = Some (Some id).

Record batch_ok (b : InputBatch) (sp : gmap string Entry) : Prop := {
  bo_pool : is_pooling_model b = false;
  bo_out : length (req_output_token_ids b) = length (_req_ids b);
  bo_spec : (length (_req_ids b) ≤ length (spec_token_ids b))%nat;
  bo_spare : ∀ j l, (length (_req_ids b) ≤ j)%nat → spec_token_ids b !! j = Some l → l = [];
  bo_room : (length (_req_ids b) ≤ max_num_reqs b)%nat;
  bo_rows : length (rows b) = max_num_reqs b;
  bo_row_len : ∀ i r, rows b !! i = Some r → length (token_ids r) = max_model_len b ∧ length (is_token_ids r) = max_model_len b;
  bo_tables : all_tables_ok (max_num_reqs b) (block_tables b);
  bo_mask : ∀ m, allowed_token_ids_mask b = Some m → length m = max_num_reqs b;
  bo_index : ∀ id i, req_id_to_index b !! id = Some i ↔ holds b i id;
  bo_dom : ∀ id, is_Some (req_id_to_index b !! id) ↔ is_Some (sp !! id);
  bo_slot : ∀ id i e, holds b i id → sp !! id = Some e → slot_rep b i e;
  bo_key : ∀ id e, sp !! id = Some e → req_id (e_req e) = id ∧ sampling_params (e_req e) = Some (e_params e) ∧ (∀ l, lora_request (e_req e) = Some l → lora_int_id l ≠ 0);
  bo_free : ∀ i, (∀ id, ¬ holds b i id) → generators b !! i = None ∧ bad_words_token_ids b !! i = None
}.

(** The members of a set are the requests whose parameters ask for it. *)
Definition set_of (sp : gmap string Entry) (P : Entry → bool) (s : gset string) : Prop := ∀ id, id ∈ s ↔ ∃ e, sp !! id = Some e ∧ P e = true.

(** The requests of each LoRA, for the LoRAs in use. *)
Definition lora_ok (sp : gmap string Entry) (m : gmap Z (gset string)) (k : gmap Z LoRARequest) : Prop :=
  (∀ l id, (∃ s, m !! l = Some s ∧ id ∈ s) ↔ ∃ e, sp !! id = Some e ∧ lora_of e = l ∧ l ≠ 0) ∧
  (∀ l s, m !! l = Some s → s ≠ ∅) ∧ ∀ l, is_Some (k !! l) ↔ is_Some (m !! l).

Record sets_ok (b : InputBatch) (sp : gmap string Entry) : Prop := {
  so_greedy : set_of sp (λ e, is_greedy (e_params e)) (greedy_reqs b);
  so_random : set_of sp (λ e, negb (is_greedy (e_params e))) (random_reqs b);
  so_top_p : set_of sp (λ e, uses_top_p (e_params e)) (top_p_reqs b);
  so_top_k : set_of sp (λ e, uses_top_k (vocab_size b) (e_params e)) (top_k_reqs b);
  so_frequency : set_of sp (λ e, uses_frequency (e_params e)) (frequency_penalties_reqs b);
  so_presence : set_of sp (λ e, uses_presence (e_params e)) (presence_penalties_reqs b);
  so_repetition : set_of sp (λ e, uses_repetition (e_params e)) (repetition_penalties_reqs b);
  so_allowed : set_of sp (λ e, bool_decide (is_Some (nonempty_list (allowed_token_ids (e_params e))))) (has_allowed_token_ids b);
  so_logprobs : ∀ id, num_logprobs b !! id = (sp !! id ≫= λ e, logprobs_of (vocab_size b) (e_params e));
  so_lora : lora_ok sp (lora_id_to_request_ids b) (lora_id_to_lora_request b)
}.

Lemma set_of_insert sp P s id e : sp !! id = None → set_of sp P s → set_of (<[id := e]> sp) P (add_if (P e) id s).
Proof.
  intros Hn Hs x. unfold add_if. destruct (decide (x = id)) as [->|Hx].
  - rewrite lookup_insert_eq. destruct (P e) eqn:E.
    + split; [intros _; by exists e|]. intros _. apply elem_of_union. left. by apply elem_of_singleton.
    + rewrite (Hs id), Hn. split; [by intros (? & ? & _)|]. intros (e' & [= <-] & ?). congruence.
  - rewrite lookup_insert_ne by done. rewrite <-(Hs x). destruct (P e); [|done]. rewrite elem_of_union, elem_of_singleton. tauto.
Qed.

Lemma set_of_delete sp P s id : set_of sp P s → set_of (delete id sp) P (s ∖ {[id]}).
Proof.
  intros Hs x. rewrite elem_of_difference, elem_of_singleton, (Hs x). destruct (decide (x = id)) as [->|Hx].
  - rewrite lookup_delete_eq. split; [tauto|]. by intros (? & ? & _).
  - rewrite lookup_delete_ne by done. tauto.
Qed.

(** ** The builder *)

Definition desc := StronglySorted (flip le).

Lemma ensure_sorted_spec b :
  NoDup (_removed b) → (_is_removed_sorted b = true → desc (_removed b)) →
  wp _ensure_removed_sorted (λ _ b', _is_removed_sorted b' = true ∧ desc (_removed b') ∧ _removed b' ≡ₚ _removed b ∧
    b_added b' = b_added b ∧ b_moved b' = b_moved b) no_exn b.
Proof.
  intros Hnd Hs. apply wp_modify. destruct (_is_removed_sorted b) eqn:E; [by split_and!; auto|]. cbn. split; [done|]. split; [|by split_and!; [apply merge_sort_Permutation|..]].
  apply Sorted_StronglySorted; [intros x y z; cbn; lia|]. apply Sorted_merge_sort. intros x y. cbn. lia.
Qed.

Lemma desc_last l i : desc l → last l = Some i → (∀ j, j ∈ l → (i ≤ j)%nat) ∧ l = removelast l ++ [i] ∧ desc (removelast l).
Proof.
  intros Hd Hl. apply last_Some in Hl as [l' ->]. rewrite removelast_last. split; [|split; [done|]].
  - intros j [Hj| ->%list_elem_of_singleton]%elem_of_app; [|done]. induction l' as [|x l' IH]; [by apply elem_of_nil in Hj|].
    cbn in Hd. apply StronglySorted_inv in Hd as [Hd Hf]. apply elem_of_cons in Hj as [->|Hj]; [|by apply IH].
    apply (proj1 (Forall_forall _ _) Hf i). apply elem_of_app. right. by apply list_elem_of_singleton.
  - induction l' as [|x l' IH]; [constructor|]. cbn in Hd. apply StronglySorted_inv in Hd as [Hd Hf]. constructor; [by apply IH|]. by apply Forall_app in Hf as [? _].
Qed.

Lemma has_removed_nil b : has_removed b = false → _removed b = [].
Proof. unfold has_removed. by intros ?%negb_false_iff%bool_decide_eq_true. Qed.

Lemma last_some {A} (l : list A) : l ≠ [] → ∃ x, last l = Some x.
Proof. intros Hl. destruct l as [|x l] using rev_ind; [done|]. exists x. by rewrite last_snoc. Qed.

Lemma pop_removed_spec b :
  NoDup (_removed b) → (_is_removed_sorted b = true → desc (_removed b)) →
  wp pop_removed (λ o b', b_added b' = b_added b ∧ b_moved b' = b_moved b ∧
    match o with
    | None => _removed b = [] ∧ b' = b
    | Some i => _is_removed_sorted b' = true ∧ desc (_removed b') ∧ _removed b ≡ₚ i :: _removed b' ∧ ∀ j, j ∈ _removed b → (i ≤ j)%nat
    end) no_exn b.
Proof.
  intros Hnd Hs. unfold pop_removed. wp_steps.
  - eapply wp_mono; [by apply ensure_sorted_spec| |done]. cbn beta. intros _ b1 (Hs1 & Hd1 & Hp1 & Ha1 & Hm1). wp_steps.
    destruct (last_some (_removed b1)) as [i Hi].
    { intros E. rewrite E in Hp1. unfold has_removed in Hif. apply Permutation_nil in Hp1. by rewrite Hp1 in Hif. }
    rewrite Hi. destruct (desc_last _ _ Hd1 Hi) as (Hmin & El & Hd). cbn. split_and!; try done.
    + rewrite <-Hp1, El at 1. by rewrite Permutation_app_comm.
    + intros j Hj. apply Hmin. by rewrite Hp1.
  - split; [done|]. split; [done|]. split; [by apply has_removed_nil|done].
Qed.

Lemma peek_removed_spec b :
  NoDup (_removed b) → (_is_removed_sorted b = true → desc (_removed b)) → _removed b ≠ [] →
  wp peek_removed (λ o b', b_added b' = b_added b ∧ b_moved b' = b_moved b ∧ _is_removed_sorted b' = true ∧ desc (_removed b') ∧ _removed b' ≡ₚ _removed b ∧
    ∃ i, o = Some i ∧ i ∈ _removed b ∧ ∀ j, j ∈ _removed b → (i ≤ j)%nat) no_exn b.
Proof.
  intros Hnd Hs Hne. unfold peek_removed. wp_steps; [|by apply has_removed_nil in Hif].
  eapply wp_mono; [by apply ensure_sorted_spec| |done]. cbn beta. intros _ b1 (Hs1 & Hd1 & Hp1 & Ha1 & Hm1). wp_steps.
  split_and!; try done. destruct (last_some (_removed b1)) as [i Hi]; [intros E; rewrite E in Hp1; by apply Permutation_nil in Hp1|].
  exists i. destruct (desc_last _ _ Hd1 Hi) as (Hmin & El & Hd). split_and!; [done|..].
  - rewrite <-Hp1, El. apply elem_of_app. right. by left.
  - intros j Hj. apply Hmin. by rewrite Hp1.
Qed.

(** ** Holes *)

(** The holes below [limit] are those the builder knows; from [limit] on nothing is held. *)
Record holes_ok (b : InputBatch) (limit : nat) : Prop := {
  ho_limit : (limit ≤ length (_req_ids b))%nat;
  ho_NoDup : NoDup (_removed (builder b));
  ho_hole : ∀ i, i ∈ _removed (builder b) → _req_ids b !! i = Some None;
  ho_known : ∀ i, _req_ids b !! i = Some None → i ∈ _removed (builder b) ∨ (limit ≤ i)%nat;
  ho_above : ∀ i id, (limit ≤ i)%nat → ¬ holds b i id;
  ho_sorted : _is_removed_sorted (builder b) = true → desc (_removed (builder b))
}.

(** ** The pending update *)

Definition slot_info (b : InputBatch) (sp : gmap string Entry) : Slots :=
  λ i, o ← _req_ids b !! i; id ← o; entry_info <$> sp !! id.
Definition pending (b : InputBatch) : BatchUpdate := mkUpdate (num_reqs b) (_removed (builder b)) (b_added (builder b)) (b_moved (builder b)).

(** Applied to the requests [s0] of the last refresh, the update gives the present ones. *)
Record pending_ok (s0 : Slots) (b : InputBatch) (sp : gmap string Entry) : Prop := {
  po_update : update_ok (max_num_reqs b) (pending b);
  po_moved : ∀ i a c d, i ∈ _removed (builder b) → (a, c, d) ∈ b_moved (builder b) → a ≠ i ∧ c ≠ i;
  po_apply : ∀ i, apply_update s0 (pending b) i = slot_info b sp i
}.

Lemma slot_remove_fold s l i : foldl slot_remove s l i = if decide (i ∈ l) then None else s i.
Proof. destruct (decide (i ∈ l)); [by apply slot_remove_in|by apply slot_remove_other]. Qed.

(** Slots that differ at one index, which no move touches. *)
Lemma slot_move_away s s' l k :
  (∀ j, j ≠ k → s j = s' j) → (∀ a c d, (a, c, d) ∈ l → a ≠ k ∧ c ≠ k) → ∀ j, j ≠ k → foldl slot_move s l j = foldl slot_move s' l j.
Proof.
  revert s s'. induction l as [|[[a c] d] l IH]; intros s s' Hs Hl j Hj; [by apply Hs|]. cbn.
  destruct (Hl a c d) as [Ha Hc]; [by left|]. apply IH; [|intros; eapply Hl; by right|done].
  intros i Hi. unfold slot_move. rewrite !Hs by done. done.
Qed.

(** *** LoRAs *)

Lemma lora_ok_insert sp m k id e l lr :
  sp !! id = None → lora_of e = l → l ≠ 0 → lora_ok sp m k → lora_ok (<[id := e]> sp) (<[l := {[id]} ∪ default ∅ (m !! l)]> m) (<[l := lr]> k).
Proof.
  intros Hn He Hl (H1 & H2 & H3). split_and!.
  - intros l' x. destruct (decide (l' = l)) as [->|Hl'].
    + rewrite lookup_insert_eq. destruct (decide (x = id)) as [->|Hx].
      * rewrite lookup_insert_eq. split; [intros _; by exists e|]. intros _. eexists. split; [done|]. apply elem_of_union. left. by apply elem_of_singleton.
      * rewrite lookup_insert_ne by done. rewrite <-H1. split.
        -- intros (s & [= <-] & [?%elem_of_singleton|Hs]%elem_of_union); [done|]. destruct (m !! l) as [s|]; [by exists s|by apply elem_of_empty in Hs].
        -- intros (s & -> & Hs). eexists. split; [done|]. apply elem_of_union. by right.
    + rewrite lookup_insert_ne by done. rewrite H1. destruct (decide (x = id)) as [->|Hx]; [|by rewrite lookup_insert_ne].
      rewrite lookup_insert_eq, Hn. split; [by intros (? & ? & _)|]. intros (e' & [= <-] & ? & _). congruence.
  - intros l' s. destruct (decide (l' = l)) as [->|Hl']; [rewrite lookup_insert_eq|rewrite lookup_insert_ne by done; apply H2].
    intros [= <-] E. apply (not_elem_of_empty (C:=gset string) id). rewrite <-E. apply elem_of_union. left. by apply elem_of_singleton.
  - intros l'. destruct (decide (l' = l)) as [->|Hl']; [rewrite !lookup_insert_eq; by split|]. rewrite !lookup_insert_ne by done. apply H3.
Qed.

Lemma lora_ok_insert_0 sp m k id e : sp !! id = None → lora_of e = 0 → lora_ok sp m k → lora_ok (<[id := e]> sp) m k.
Proof.
  intros Hn He (H1 & H2 & H3). split; [|done]. intros l x. rewrite H1. destruct (decide (x = id)) as [->|Hx]; [|by rewrite lookup_insert_ne].
  rewrite lookup_insert_eq, Hn. split; [by intros (? & ? & _)|]. intros (e' & [= <-] & ? & ?). congruence.
Qed.

Lemma lora_ok_delete_0 sp m k id e : sp !! id = Some e → lora_of e = 0 → lora_ok sp m k → lora_ok (delete id sp) m k.
Proof.
  intros Hn He (H1 & H2 & H3). split; [|done]. intros l x. rewrite H1. destruct (decide (x = id)) as [->|Hx]; [|by rewrite lookup_delete_ne].
  rewrite lookup_delete_eq, Hn. split; [|by intros (? & ? & _)]. intros (e' & [= <-] & ? & ?). congruence.
Qed.

Lemma lora_ok_delete sp m k id e s :
  sp !! id = Some e → m !! lora_of e = Some s → lora_ok sp m k →
  let s' := s ∖ {[id]} in let l := lora_of e in
  lora_ok (delete id sp) (if bool_decide (s' = ∅) then delete l (<[l := s']> m) else <[l := s']> m) (if bool_decide (s' = ∅) then delete l k else k).
Proof.
  intros Hsp Hs (H1 & H2 & H3). cbn zeta. set (l := lora_of e) in *. set (s' := s ∖ {[id]}).
  assert (∀ x, x ∈ s' ↔ ∃ e0, delete id sp !! x = Some e0 ∧ lora_of e0 = l ∧ l ≠ 0) as Hs'.
  { intros x. unfold s'. rewrite elem_of_difference, elem_of_singleton. destruct (decide (x = id)) as [->|Hx].
    - rewrite lookup_delete_eq. split; [tauto|by intros (? & ? & _)].
    - rewrite lookup_delete_ne by done. rewrite <-H1. split; [intros [? _]; by exists s|]. intros (s0 & ? & ?). by simplify_eq. }
  assert (∀ l' x, l' ≠ l → (∃ s0, m !! l' = Some s0 ∧ x ∈ s0) ↔ ∃ e0, delete id sp !! x = Some e0 ∧ lora_of e0 = l' ∧ l' ≠ 0) as Hother.
  { intros l' x Hl. rewrite H1. destruct (decide (x = id)) as [->|Hx]; [|by rewrite lookup_delete_ne]. rewrite lookup_delete_eq, Hsp.
    split; [|by intros (? & ? & _)]. intros (e0 & [= <-] & ? & _). by destruct Hl. }
  case_bool_decide as Ee; split_and!.
  - intros l' x. destruct (decide (l' = l)) as [->|Hl].
    + rewrite lookup_delete_eq, <-Hs', Ee. split; [by intros (? & ? & _)|by intros ?%elem_of_empty].
    + rewrite lookup_delete_ne, lookup_insert_ne by done. by apply Hother.
  - intros l' s0. destruct (decide (l' = l)) as [->|Hl]; [by rewrite lookup_delete_eq|]. rewrite lookup_delete_ne, lookup_insert_ne by done. apply H2.
  - intros l'. destruct (decide (l' = l)) as [->|Hl]; [by rewrite !lookup_delete_eq|]. rewrite !lookup_delete_ne, lookup_insert_ne by done. apply H3.
  - intros l' x. destruct (decide (l' = l)) as [->|Hl].
    + rewrite lookup_insert_eq, <-Hs'. split; [by intros (? & [= <-] & ?)|]. intros ?. by eexists.
    + rewrite lookup_insert_ne by done. by apply Hother.
  - intros l' s0. destruct (decide (l' = l)) as [->|Hl]; [rewrite lookup_insert_eq; by intros [= <-]|]. rewrite lookup_insert_ne by done. apply H2.
  - intros l'. destruct (decide (l' = l)) as [->|Hl]; [|rewrite lookup_insert_ne by done; apply H3]. rewrite lookup_insert_eq, H3, Hs. by split.
Qed.

(** ** Reading and writing *)

Lemma wp_get_at {A} (get : InputBatch → list A) i x Q E b : get b !! i = Some x → Q x b → wp (get_at get i) Q E b.
Proof. intros Hx HQ. unfold get_at. wp_steps. unfold Datatypes.id. rewrite (arr_get_ok _ _ _ Hx). done. Qed.

Lemma wp_set_at {A} (get : InputBatch → list A) set i x Q E b :
  (i < length (get b))%nat → Q tt (set (λ _, <[i := x]> (get b)) b) → wp (set_at get set i x) Q E b.
Proof. intros Hi HQ. unfold set_at. wp_steps. unfold Datatypes.id, arr_set. by rewrite bool_decide_eq_true_2. Qed.

Lemma wp_upd_row i f r Q E b : rows b !! i = Some r → Q tt (set_rows (<[i := f r]>) b) → wp (upd_row i f) Q E b.
Proof. intros Hr HQ. unfold upd_row. wp_steps. unfold Datatypes.id. rewrite (arr_get_ok _ _ _ Hr). done. Qed.

Lemma holds_lt b i id : holds b i id → (i < length (_req_ids b))%nat.
Proof. apply lookup_lt_Some. Qed.

Lemma holds_entry b sp i id : batch_ok b sp → holds b i id → ∃ e, sp !! id = Some e ∧ req_id_to_index b !! id = Some i ∧ slot_rep b i e.
Proof.
  intros Hb Hi. pose proof (proj2 (bo_index _ _ Hb id i) Hi) as Hx. destruct (proj1 (bo_dom _ _ Hb id)) as [e He]; [by eexists|].
  exists e. split; [done|]. split; [done|]. by apply (bo_slot _ _ Hb id).
Qed.

Lemma row_exists b sp i : batch_ok b sp → (i < max_num_reqs b)%nat → ∃ r, rows b !! i = Some r.
Proof. intros Hb Hi. apply lookup_lt_is_Some_2. by rewrite (bo_rows _ _ Hb). Qed.

(** ** Removing a request *)

Lemma remove_lora_spec b sp id i e r :
  sp !! id = Some e → rows b !! i = Some r → request_lora_mapping r = lora_of e →
  lora_ok sp (lora_id_to_request_ids b) (lora_id_to_lora_request b) →
  wp (remove_lora id i) (λ _ b', ∃ m k f,
    b' = set_rows (λ _, f) (set_lora_id_to_lora_request (λ _, k) (set_lora_id_to_request_ids (λ _, m) b)) ∧
    lora_ok (delete id sp) m k ∧ (f = rows b ∨ f = <[i := set_request_lora_mapping (λ _, 0) r]> (rows b))) no_exn b.
Proof.
  intros He Hr Hl Hok. unfold remove_lora. wp_steps. apply (wp_get_at _ _ _ _ _ _ Hr). wp_steps.
  - apply bool_decide_eq_true in Hif. exists (lora_id_to_request_ids b), (lora_id_to_lora_request b), (rows b). split; [by destruct b|]. split; [|by left].
    eapply lora_ok_delete_0; [done|congruence|done].
  - apply bool_decide_eq_false in Hif. unfold Datatypes.id. rewrite Hl in *.
    destruct (proj2 (proj1 Hok (lora_of e) id)) as (s & Hs & _); [by exists e|].
    eapply wp_lift_some; [exact Hs|]. wp_steps; pose proof (lora_ok_delete sp _ _ id e s He Hs Hok) as Hd; cbn zeta in Hd; rewrite Hif0 in Hd.
    + destruct (proj2 (proj2 (proj2 Hok) (lora_of e))) as [lr Hlr]; [by eexists|]. eapply wp_lift_some; [exact Hlr|]. wp_steps.
      apply (wp_upd_row _ _ r); [done|]. do 3 eexists. split; [|split; [exact Hd|by right]]. done.
    + apply (wp_upd_row _ _ r); [done|]. do 3 eexists. split; [|split; [exact Hd|by right]]. done.
Qed.

(** Between the removals and the end of a step: whether requests can still be removed or added. *)
Definition may_remove (b : InputBatch) : Prop := b_added (builder b) = [] ∧ b_moved (builder b) = [] ∧ _is_removed_sorted (builder b) = false.

(** What the operations never change. *)
Definition same_sizes (b b' : InputBatch) : Prop :=
  max_num_reqs b' = max_num_reqs b ∧ max_model_len b' = max_model_len b ∧ vocab_size b' = vocab_size b ∧
  Forall2 same_shape (block_tables b) (block_tables b').

Lemma same_sizes_refl b : same_sizes b b.
Proof. split_and!; [done..|]. apply Forall2_same_length_lookup_2; [done|]. intros g t t' Ht Ht'. by simplify_eq. Qed.

(** The whole state in the middle of a step: [limit] is the length of the lists except in [condense]. *)
Record in_order (s0 : Slots) (b : InputBatch) (sp : gmap string Entry) (limit : nat) : Prop := {
  io_batch : batch_ok b sp;
  io_sets : sets_ok b sp;
  io_holes : holes_ok b limit;
  io_pending : pending_ok s0 b sp
}.

Lemma set_of_sets b b' sp :
  sets_ok b sp → vocab_size b' = vocab_size b → greedy_reqs b' = greedy_reqs b → random_reqs b' = random_reqs b → top_p_reqs b' = top_p_reqs b →
  top_k_reqs b' = top_k_reqs b → frequency_penalties_reqs b' = frequency_penalties_reqs b → presence_penalties_reqs b' = presence_penalties_reqs b →
  repetition_penalties_reqs b' = repetition_penalties_reqs b → has_allowed_token_ids b' = has_allowed_token_ids b → num_logprobs b' = num_logprobs b →
  lora_id_to_request_ids b' = lora_id_to_request_ids b → lora_id_to_lora_request b' = lora_id_to_lora_request b → sets_ok b' sp.
Proof. intros [] E1 E2 E3 E4 E5 E6 E7 E8 E9 E10 E11 E12. split; rewrite ?E1, ?E2, ?E3, ?E4, ?E5, ?E6, ?E7, ?E8, ?E9, ?E10, ?E11, ?E12; done. Qed.

Lemma tables_shape n ts ts' f : tables_to n ts ts' f → Forall2 same_shape ts ts'.
Proof.
  intros [Hl H]. apply Forall2_same_length_lookup_2; [done|]. intros g t t' Ht Ht'. destruct (H g t' Ht') as (t0 & Ht0 & _ & ? & _). by simplify_eq.
Qed.

(** The state of the batch after a request is removed from index [i]. *)
Definition removed_state (b : InputBatch) (id : string) (i : nat) (ts : list BlockTable) m k f : InputBatch :=
  discard_sampling id i
    (set_rows (λ _, f) (set_lora_id_to_lora_request (λ _, k) (set_lora_id_to_request_ids (λ _, m)
      (set_block_tables (λ _, ts) (set_spec_token_ids (λ _, <[i := []]> (spec_token_ids b)) (set_req_output_token_ids (λ _, <[i := None]> (req_output_token_ids b))
        (set_req_ids (λ _, <[i := None]> (_req_ids b)) (set_builder (λ _, set_batch_changed true (set_removed (_removed (builder b) ++ [i]) (builder b)))
          (set_req_id_to_index (delete id) b))))))))).

Section remove.
Context (s0 : Slots) (b : InputBatch) (sp : gmap string Entry) (id : string) (i : nat) (e : Entry).
Context (Hb : batch_ok b sp) (Hs : sets_ok b sp) (Hi : holds b i id) (He : sp !! id = Some e).
Context (ts : list BlockTable) (m : gmap Z (gset string)) (k : gmap Z LoRARequest) (f : list Row).
Context (Hts : tables_to (max_num_reqs b) (block_tables b) ts (λ _ t j, if decide (j = i) then Some [] else row_blocks t j)).
Context (Hlora : lora_ok (delete id sp) m k) (Hf : ∃ r, rows b !! i = Some r ∧ (f = rows b ∨ f = <[i := set_request_lora_mapping (λ _, 0) r]> (rows b))).
Local Abbreviation b' := (removed_state b id i ts m k f).

Lemma remove_holds j x : holds b' j x ↔ holds b j x ∧ x ≠ id.
Proof.
  unfold holds. cbn -[insert lookup]. destruct (decide (j = i)) as [->|Hj].
  - rewrite list_lookup_insert_eq by (by eapply holds_lt). split; [done|]. intros [H Hne]. unfold holds in Hi. simplify_eq.
  - rewrite list_lookup_insert_ne by done. split; [|tauto]. intros H. split; [done|]. intros ->.
    apply (bo_index _ _ Hb) in H, Hi. congruence.
Qed.

Lemma remove_rows j r : f !! j = Some r → ∃ r0, rows b !! j = Some r0 ∧ (r = r0 ∨ j = i ∧ r = set_request_lora_mapping (λ _, 0) r0).
Proof.
  destruct Hf as (r1 & Hr1 & [->| ->]); [eauto|]. destruct (decide (j = i)) as [->|Hj].
  - rewrite list_lookup_insert_eq by (by eapply lookup_lt_Some). intros [= <-]. eauto.
  - rewrite list_lookup_insert_ne by done. eauto.
Qed.

Lemma remove_moved j : j ≠ i → moved_to b b' j j.
Proof.
  intros Hj. split; try done.
  - intros r s Hr Hsp. exists (num_tokens_no_spec r + length s)%nat, r. split; [done|]. split; [|apply same_row_refl].
    cbn -[insert lookup]. destruct Hf as (r1 & _ & [->| ->]); [done|]. by rewrite list_lookup_insert_ne.
  - cbn -[insert lookup]. by rewrite list_lookup_insert_ne.
  - cbn -[insert lookup]. by rewrite list_lookup_insert_ne.
  - intros l Hl. eapply tables_to_same; [exact Hts| |exact Hl]. intros g t _. cbn beta. by rewrite decide_False.
  - cbn -[insert lookup delete]. by rewrite lookup_delete_ne.
  - cbn -[insert lookup delete]. by rewrite lookup_delete_ne.
  - intros mask row Hm Hrow. cbn -[insert lookup delete]. rewrite Hm. cbn -[insert lookup]. eexists. split; [done|]. by rewrite list_lookup_insert_ne.
Qed.

Lemma remove_batch_ok : batch_ok b' (delete id sp).
Proof.
  assert (i < length (_req_ids b))%nat as Hlt by by eapply holds_lt. pose proof (bo_spec _ _ Hb). pose proof (bo_room _ _ Hb).
  split.
  - exact (bo_pool _ _ Hb).
  - cbn -[insert]. rewrite !length_insert. apply Hb.
  - cbn -[insert]. rewrite !length_insert. apply Hb.
  - cbn -[insert lookup]. rewrite length_insert. intros j l Hj. destruct (decide (j = i)) as [->|Hne]; [lia|].
    rewrite list_lookup_insert_ne by done. by apply (bo_spare _ _ Hb).
  - cbn -[insert]. rewrite length_insert. apply Hb.
  - cbn. destruct Hf as (r & _ & [->| ->]); rewrite ?length_insert; apply Hb.
  - cbn. intros j r Hr. destruct (remove_rows j r Hr) as (r0 & Hr0 & [->|[_ ->]]); exact (bo_row_len _ _ Hb j r0 Hr0).
  - cbn. by eapply tables_to_ok.
  - cbn -[insert]. intros mask. destruct (allowed_token_ids_mask b) as [m0|] eqn:Em; [|done]. intros [= <-]. rewrite length_insert. by apply (bo_mask _ _ Hb).
  - intros x j. rewrite remove_holds. cbn -[delete lookup]. destruct (decide (x = id)) as [->|Hx].
    + rewrite lookup_delete_eq. split; [done|tauto].
    + rewrite lookup_delete_ne by done. rewrite (bo_index _ _ Hb). tauto.
  - intros x. cbn -[delete lookup]. destruct (decide (x = id)) as [->|Hx]; [by rewrite !lookup_delete_eq|]. rewrite !lookup_delete_ne by done. apply Hb.
  - intros x j ex [Hh Hx]%remove_holds Hex. rewrite lookup_delete_ne in Hex by done. apply (slot_rep_moved b b' j j).
    + by apply (bo_slot _ _ Hb x).
    + apply remove_moved. intros ->. unfold holds in *. congruence.
  - intros x ex Hex. apply lookup_delete_Some in Hex as [_ Hex]. by apply (bo_key _ _ Hb).
  - intros j Hj. cbn -[delete lookup]. destruct (decide (j = i)) as [->|Hne]; [by rewrite !lookup_delete_eq|]. rewrite !lookup_delete_ne by done.
    apply (bo_free _ _ Hb). intros x Hx. apply (Hj x), remove_holds. split; [done|]. intros ->. apply Hne.
    apply (bo_index _ _ Hb) in Hx. pose proof (proj2 (bo_index _ _ Hb id i) Hi). congruence.
Qed.

Lemma remove_sets_ok : sets_ok b' (delete id sp).
Proof.
  destruct Hs. split; try (by apply set_of_delete); [|exact Hlora].
  intros x. cbn -[delete lookup]. destruct (decide (x = id)) as [->|Hx]; [by rewrite !lookup_delete_eq|]. by rewrite !lookup_delete_ne by done.
Qed.

Lemma remove_holes_ok : holes_ok b (length (_req_ids b)) → may_remove b → holes_ok b' (length (_req_ids b')).
Proof.
  intros [_ Hnd Hho Hkn Hab Hso] (_ & _ & Hfl). assert (i < length (_req_ids b))%nat as Hlt by by eapply holds_lt.
  split.
  - done.
  - cbn. apply NoDup_app. split; [done|]. split; [|apply NoDup_singleton]. intros j Hj ->%list_elem_of_singleton. apply Hho in Hj. unfold holds in Hi. congruence.
  - cbn -[insert lookup]. intros j [Hj| ->%list_elem_of_singleton]%elem_of_app; [|by apply list_lookup_insert_eq].
    destruct (decide (j = i)) as [->|]; [by apply list_lookup_insert_eq|]. rewrite list_lookup_insert_ne by done. by apply Hho.
  - cbn -[insert lookup]. rewrite length_insert. intros j Hj. destruct (decide (j = i)) as [->|Hne]; [left; apply elem_of_app; right; by left|].
    rewrite list_lookup_insert_ne in Hj by done. destruct (Hkn j Hj) as [?|?]; [left; apply elem_of_app; by left|by right].
  - intros j x. cbn -[insert lookup]. rewrite length_insert. intros Hj Hx%holds_lt. cbn -[insert] in Hx. rewrite length_insert in Hx. lia.
  - cbn. by rewrite Hfl.
Qed.

Lemma remove_pending_ok : pending_ok s0 b sp → may_remove b → pending_ok s0 b' (delete id sp).
Proof.
  intros [(Hr & Hm & Ha) Hpm Hap] (Hadd & Hmov & _). assert (i < length (_req_ids b))%nat as Hlt by by eapply holds_lt. pose proof (bo_room _ _ Hb).
  split.
  - unfold update_ok. cbn. rewrite Hadd, Hmov. split_and!; [|by intros ? ? ? ?%elem_of_nil|by intros ? ? ?%elem_of_nil].
    intros j [Hj| ->%list_elem_of_singleton]%elem_of_app; (split; [|apply not_elem_of_nil]); [by apply Hr|lia].
  - cbn. rewrite Hmov. by intros ? ? ? ? _ ?%elem_of_nil.
  - intros j. specialize (Hap j). unfold apply_update in *. cbn -[slot_info] in *. rewrite Hadd, Hmov in *. cbn [foldl] in *. rewrite !slot_remove_fold in *.
    unfold slot_info in *. cbn -[insert lookup delete]. destruct (decide (j = i)) as [->|Hne].
    + rewrite list_lookup_insert_eq by done. rewrite decide_True; [done|]. apply elem_of_app. right. by left.
    + rewrite list_lookup_insert_ne by done. rewrite (decide_ext (j ∈ _removed (builder b) ++ [i]) (j ∈ _removed (builder b))), Hap.
      2:{ rewrite elem_of_app, list_elem_of_singleton. tauto. }
      destruct (_req_ids b !! j) as [[x|]|] eqn:E; [|done..]. cbn -[lookup delete]. rewrite lookup_delete_ne; [done|]. intros Hx.
      apply Hne. assert (holds b j id) as Hj by by rewrite Hx. apply (bo_index _ _ Hb) in Hj. pose proof (proj2 (bo_index _ _ Hb id i) Hi). congruence.
Qed.
End remove.

Lemma remove_request_spec s0 b sp rid :
  in_order s0 b sp (length (_req_ids b)) → may_remove b →
  wp (remove_request rid) (λ _ b', in_order s0 b' (delete rid sp) (length (_req_ids b')) ∧ may_remove b' ∧ same_sizes b b') no_exn b.
Proof.
  intros [Hb Hs Hh Hp] Hm. unfold remove_request. wp_steps. unfold Datatypes.id. destruct (req_id_to_index b !! rid) as [i|] eqn:Ei; cycle 1.
  { apply wp_ret. rewrite delete_id; [|apply eq_None_not_Some; rewrite <-(bo_dom _ _ Hb); rewrite Ei; by intros [? ?]].
    split; [by split|]. split; [done|]. apply same_sizes_refl. }
  apply (bo_index _ _ Hb) in Ei as Hi. destruct (holds_entry b sp i rid Hb Hi) as (e & He & _ & Hrep).
  destruct (sr_row _ _ _ Hrep) as (r & Hr & Hrow). assert (i < length (_req_ids b))%nat as Hlt by by eapply holds_lt.
  pose proof (bo_spec _ _ Hb). pose proof (bo_out _ _ Hb) as Hout. pose proof (bo_room _ _ Hb). destruct (Hm) as (Hadd & Hmov & Hfl).
  wp_steps. unfold removed_append. wp_steps.
  { cbn in Hif. congruence. }
  apply wp_set_at; [done|]. wp_steps. apply wp_set_at; [cbn; lia|]. wp_steps. apply wp_set_at; [cbn; lia|]. wp_steps.
  eapply wp_mono; [apply (mg_spec (max_num_reqs b)); intros g t Ht; apply clear_row_spec; [by apply (bo_tables _ _ Hb g)|lia]| |done].
  cbn beta. intros _ ts Hts. wp_steps.
  eapply wp_mono; [apply (remove_lora_spec _ sp rid i e r); [done|done|apply Hrow|apply (so_lora _ _ Hs)]| |done].
  cbn beta. intros _ b1 (m & k & f & -> & Hlora & Hf). wp_steps.
  { by rewrite (bo_pool _ _ Hb) in Hif0. }
  assert (∃ r0, rows b !! i = Some r0 ∧ (f = rows b ∨ f = <[i := set_request_lora_mapping (λ _, 0) r0]> (rows b))) as Hf' by by exists r.
  cbn beta in Hts.
  match goal with |- in_order _ ?b1 _ _ ∧ _ => change b1 with (removed_state b rid i ts m k f) end.
  split; [split|split].
  - by eapply remove_batch_ok.
  - by eapply remove_sets_ok.
  - by eapply remove_holes_ok.
  - by eapply remove_pending_ok.
  - done.
  - split_and!; try done. by eapply tables_shape.
Qed.

(** ** Counting *)

Lemma num_reqs_count b sp : batch_ok b sp → num_reqs b = length (omap (λ o : option string, o) (_req_ids b)).
Proof.
  intros Hb. unfold num_reqs. set (l := omap (λ o : option string, o) (_req_ids b)).
  assert (∀ x, x ∈ l ↔ ∃ i, holds b i x) as Hl.
  { intros x. unfold l. rewrite list_elem_of_omap. split.
    - intros (o & Ho & ->). apply list_elem_of_lookup in Ho as [i Hi]. by exists i.
    - intros [i Hi]. exists (Some x). split; [by eapply list_elem_of_lookup_2|done]. }
  assert (NoDup l) as Hnd.
  { unfold l. assert (∀ i j x, _req_ids b !! i = Some (Some x) → _req_ids b !! j = Some (Some x) → i = j) as Hinj.
    { intros i j x Hi Hj. apply (bo_index _ _ Hb) in Hi, Hj. congruence. }
    clear -Hinj. induction (_req_ids b) as [|o ids IH]; [constructor|]. destruct o as [x|]; cbn.
    - constructor; [|apply IH; intros i j y Hi Hj; by specialize (Hinj (S i) (S j) y Hi Hj) as [= ->]].
      intros (o & Ho & ->)%list_elem_of_omap. apply list_elem_of_lookup in Ho as [i Hi]. by specialize (Hinj 0%nat (S i) x eq_refl Hi).
    - apply IH. intros i j y Hi Hj. by specialize (Hinj (S i) (S j) y Hi Hj) as [= ->]. }
  rewrite <-(size_list_to_set (C:=gset string) l Hnd), <-size_dom. f_equal. apply set_eq. intros x.
  rewrite elem_of_dom, elem_of_list_to_set, Hl. split; [intros [i Hi]; exists i; by apply (bo_index _ _ Hb)|intros [i Hi]; exists i; by apply (bo_index _ _ Hb)].
Qed.

Lemma num_reqs_size b sp : batch_ok b sp → num_reqs b = size sp.
Proof.
  intros Hb. unfold num_reqs. rewrite <-!size_dom. f_equal. apply set_eq. intros x. rewrite !elem_of_dom. apply Hb.
Qed.

Lemma omap_all_some {A} (l : list (option A)) : (∀ i, l !! i ≠ Some None) → length (omap (λ o, o) l) = length l.
Proof.
  intros Hl. induction l as [|[x|] l IH]; [done| |by destruct (Hl 0%nat)]. cbn. f_equal. apply IH. intros i. apply (Hl (S i)).
Qed.

(** ** Adding a request *)

(** A request that fits. *)
Record req_ok (b : InputBatch) (h : Heap) (r : CachedRequestState) (p : SamplingParams) (n : nat) : Prop := {
  rq_params : sampling_params r = Some p;
  rq_prompt : req_num_prompt_tokens r = Ok (Z.of_nat n);
  rq_len : (n + length (h (output_token_ids r)) ≤ max_model_len b)%nat;
  rq_blocks : ∀ g t, block_tables b !! g = Some t → ∃ l, block_ids r !! g = Some l ∧ (length (kernel_ids t l) ≤ max_num_blocks_per_req t)%nat;
  rq_lora : ∀ l, lora_request r = Some l → lora_int_id l ≠ 0;
  rq_allowed : ∀ ids, nonempty_list (allowed_token_ids p) = Some ids → ∃ row, allow_tokens ids (replicate (Z.to_nat (vocab_size b)) true) = Ok row
}.

Definition prompt_tokens (r : CachedRequestState) (n : nat) : list (option Z) :=
  match prompt_token_ids r with Some l => Some <$> l | None => replicate n None end.
Definition entry_of (h : Heap) (r : CachedRequestState) (p : SamplingParams) (n : nat) : Entry :=
  mkEntry r p (prompt_tokens r n ++ (Some <$> h (output_token_ids r))) [] n (req_num_computed_tokens r) (block_ids r) 1.

Lemma prompt_length r n l : req_num_prompt_tokens r = Ok (Z.of_nat n) → prompt_token_ids r = Some l → length l = n.
Proof.
  unfold req_num_prompt_tokens, length_from_prompt_token_ids_or_embeds. intros H E. rewrite E in H. destruct (req_prompt_embeds_of r); [case_bool_decide; [|done]|]; injection H as H; lia.
Qed.

Lemma length_prompt_tokens r n : req_num_prompt_tokens r = Ok (Z.of_nat n) → length (prompt_tokens r n) = n.
Proof. intros Hn. unfold prompt_tokens. destruct (prompt_token_ids r) as [l|] eqn:El; [rewrite length_fmap; by eapply prompt_length|by rewrite length_replicate]. Qed.

Lemma length_entry h r p n : req_num_prompt_tokens r = Ok (Z.of_nat n) → length (e_tokens (entry_of h r p n)) = (n + length (h (output_token_ids r)))%nat.
Proof. intros Hn. cbn. by rewrite length_app, length_fmap, length_prompt_tokens. Qed.

Definition may_add (b : InputBatch) : Prop := b_moved (builder b) = [].

Lemma register_spec s0 b sp r p h n :
  in_order s0 b sp (length (_req_ids b)) → may_add b → (size sp < max_num_reqs b)%nat → req_ok b h r p n →
  wp (_register_add_request r) (λ i b', ∃ c, b' = set_builder (λ _, c) b ∧ (i < max_num_reqs b)%nat ∧
    b_added c = b_added (builder b) ++ [(i, info_of r p)] ∧ b_moved c = b_moved (builder b) ∧ NoDup (_removed c) ∧
    (_is_removed_sorted c = true → desc (_removed c)) ∧ (∀ j, j ∈ _removed (builder b) ↔ j = i ∧ (i < length (_req_ids b))%nat ∨ j ∈ _removed c) ∧ i ∉ _removed c ∧
    (i = length (_req_ids b) ∨ _req_ids b !! i = Some None)) no_exn b.
Proof.
  intros [Hb Hs Hh Hp] Hm Hsize [Hpar _ _ _ _ _]. unfold _register_add_request. wp_steps.
  eapply wp_mono; [apply pop_removed_spec; apply Hh| |done]. cbn beta. cbn [builderL lget lset].
  assert (∀ i c, (i < max_num_reqs b)%nat → b_added c = b_added (builder b) → b_moved c = b_moved (builder b) → NoDup (_removed c) →
    (_is_removed_sorted c = true → desc (_removed c)) → (∀ j, j ∈ _removed (builder b) ↔ j = i ∧ (i < length (_req_ids b))%nat ∨ j ∈ _removed c) → i ∉ _removed c →
    i = length (_req_ids b) ∨ _req_ids b !! i = Some None →
    wp (b ← gets Datatypes.id; assert_ (bool_decide (i < max_num_reqs b)%nat) ;; zoom builderL (modify (set_batch_changed true)) ;;
        (match sampling_params r with Some p => zoom builderL (modify (added_append (i, info_of r p))) | None => mret tt end) ;; mret i)
      (λ i b', ∃ c, b' = set_builder (λ _, c) b ∧ (i < max_num_reqs b)%nat ∧
        b_added c = b_added (builder b) ++ [(i, info_of r p)] ∧ b_moved c = b_moved (builder b) ∧ NoDup (_removed c) ∧
        (_is_removed_sorted c = true → desc (_removed c)) ∧ (∀ j, j ∈ _removed (builder b) ↔ j = i ∧ (i < length (_req_ids b))%nat ∨ j ∈ _removed c) ∧ i ∉ _removed c ∧
        (i = length (_req_ids b) ∨ _req_ids b !! i = Some None)) no_exn (set_builder (λ _, c) b)) as Htail.
  { intros i c Hi Ha Hmv Hnd Hsd Hr Hni Hpos. wp_steps. unfold Datatypes.id. apply wp_assert; [by apply bool_decide_eq_true|]. wp_steps. rewrite Hpar. wp_steps.
    exists (added_append (i, info_of r p) (set_batch_changed true c)). split; [done|]. split; [done|]. cbn. by rewrite Ha. }
  intros [i|] c (Ha & Hmv & H).
  - destruct H as (Hfl & Hd & Hperm & Hmin). cbn beta iota. apply wp_bind, wp_ret. pose proof (ho_NoDup _ _ Hh) as Hnd. rewrite Hperm in Hnd. apply NoDup_cons in Hnd as [Hni Hnd].
    assert (_req_ids b !! i = Some None) as Hhole by (apply (ho_hole _ _ Hh); rewrite Hperm; by left).
    apply Htail; try done; [|intros j|by right].
    + apply lookup_lt_Some in Hhole. pose proof (bo_room _ _ Hb). lia.
    + rewrite Hperm, elem_of_cons. apply lookup_lt_Some in Hhole. split; [intros [->|?]; [by left|by right]|]. intros [[-> _]|?]; [by left|by right].
  - destruct H as [Hnil ->]. cbn beta iota. apply wp_bind, wp_gets.
    assert (num_reqs b = length (_req_ids b)) as En.
    { rewrite (num_reqs_count b sp Hb). apply omap_all_some. intros i Hi. destruct (ho_known _ _ Hh i Hi) as [Hin|Hle]; [rewrite Hnil in Hin; by apply elem_of_nil in Hin|].
      apply lookup_lt_Some in Hi. lia. }
    change (num_reqs (set_builder (λ _, builder b) b)) with (num_reqs b).
    apply Htail; try done; [rewrite (num_reqs_size b sp Hb); lia|rewrite Hnil; constructor|apply Hh|intros j|rewrite Hnil; apply not_elem_of_nil|by left].
    rewrite Hnil, En. split; [by intros ?%elem_of_nil|]. intros [[_ ?]|?%elem_of_nil]; [lia|done].
Qed.

(** The lists after a request is put at index [i]. *)
Record lists_added (b : InputBatch) (r : CachedRequestState) (i : nat) (I : list (option string)) (O : list (option Address)) (S : list (list Z)) : Prop := {
  la_len : length I = (length (_req_ids b) `max` (i + 1))%nat;
  la_out : length O = length I;
  la_spec : (length I ≤ length S)%nat;
  la_id : I !! i = Some (Some (req_id r));
  la_o : O !! i = Some (Some (output_token_ids r));
  la_s : S !! i = Some [];
  la_ids : ∀ j, j ≠ i → I !! j = _req_ids b !! j;
  la_os : ∀ j, j ≠ i → O !! j = req_output_token_ids b !! j;
  la_ss : ∀ j l, j ≠ i → spec_token_ids b !! j = Some l → S !! j = Some l;
  la_spare : ∀ j l, (length I ≤ j)%nat → S !! j = Some l → l = []
}.

Lemma add_lists_spec b sp r i b1 :
  batch_ok b sp → i = length (_req_ids b) ∨ _req_ids b !! i = Some None → _req_ids b1 = _req_ids b → req_output_token_ids b1 = req_output_token_ids b → spec_token_ids b1 = spec_token_ids b →
  wp (add_lists r i) (λ _ b', ∃ I O S, b' = set_spec_token_ids (λ _, S) (set_req_output_token_ids (λ _, O) (set_req_ids (λ _, I) b1)) ∧ lists_added b r i I O S) no_exn b1.
Proof.
  intros Hb Hi E1 E2 E3. pose proof (bo_out _ _ Hb) as Ho. pose proof (bo_spec _ _ Hb) as Hsp. unfold add_lists. wp_steps; unfold Datatypes.id in *; rewrite E1 in Hif.
  - apply bool_decide_eq_true in Hif. subst i.
    exists (_req_ids b ++ [Some (req_id r)]), (req_output_token_ids b ++ [Some (output_token_ids r)]), (spec_token_ids b ++ [[]]).
    split; [by rewrite <-E1, <-E2, <-E3|]. split; rewrite ?length_app; cbn; try lia.
    + by apply list_lookup_middle.
    + by rewrite <-Ho, list_lookup_middle.
    + destruct (lookup_lt_is_Some_2 (spec_token_ids b ++ [[]]) (length (_req_ids b))) as [l Hl]; [rewrite length_app; cbn; lia|]. rewrite Hl. f_equal.
      apply lookup_app_Some in Hl as [Hl|[_ Hl]]; [by apply (bo_spare _ _ Hb) in Hl|]. by apply list_lookup_singleton_Some in Hl as [_ <-].
    + intros j Hj. destruct (decide (j < length (_req_ids b))%nat); [by rewrite lookup_app_l|]. rewrite !lookup_ge_None_2; [done|lia|rewrite length_app; cbn; lia].
    + intros j Hj. rewrite <-Ho in Hj. destruct (decide (j < length (req_output_token_ids b))%nat); [by rewrite lookup_app_l|]. rewrite !lookup_ge_None_2; [done|lia|rewrite length_app; cbn; lia].
    + intros j l _ Hl. by rewrite lookup_app_l by by eapply lookup_lt_Some.
    + intros j l Hj Hl. apply lookup_app_Some in Hl as [Hl|[_ Hl]]; [apply (bo_spare _ _ Hb) in Hl; [done|lia]|]. by apply list_lookup_singleton_Some in Hl as [_ <-].
  - apply bool_decide_eq_false in Hif. destruct Hi as [|Hi]; [done|]. apply lookup_lt_Some in Hi as Hlt.
    apply wp_set_at; [by rewrite E1|]. wp_steps. apply wp_set_at; [cbn; rewrite E2; lia|]. wp_steps. apply wp_set_at; [cbn; rewrite E3; lia|].
    cbn -[insert]. exists (<[i := Some (req_id r)]> (_req_ids b)), (<[i := Some (output_token_ids r)]> (req_output_token_ids b)), (<[i := []]> (spec_token_ids b)).
    split; [by rewrite <-E1, <-E2, <-E3|]. split; rewrite ?length_insert; try lia; try (rewrite list_lookup_insert_eq by lia; done).
    + intros j Hj. by rewrite list_lookup_insert_ne.
    + intros j Hj. by rewrite list_lookup_insert_ne.
    + intros j l Hj Hl. by rewrite list_lookup_insert_ne.
    + intros j l Hj. rewrite list_lookup_insert_ne by lia. by apply (bo_spare _ _ Hb).
Qed.

(** *** Slices *)

Lemma splice_lookup {A} a (vs l : list A) k :
  (a + length vs ≤ length l)%nat →
  (take a l ++ vs ++ drop (a + length vs) l) !! k = if decide (a ≤ k < a + length vs)%nat then vs !! (k - a)%nat else l !! k.
Proof.
  intros Hl. destruct (decide (k < a)%nat) as [Hk|Hk].
  - rewrite decide_False by lia. rewrite lookup_app_l by (rewrite length_take; lia). by rewrite lookup_take_lt.
  - rewrite lookup_app_r by (rewrite length_take; lia). rewrite length_take, Nat.min_l by lia. case_decide as Hd.
    + by rewrite lookup_app_l by lia.
    + rewrite lookup_app_r by lia. rewrite lookup_drop. f_equal. lia.
Qed.

Lemma length_splice {A} a (vs l : list A) : (a + length vs ≤ length l)%nat → length (take a l ++ vs ++ drop (a + length vs) l) = length l.
Proof. intros Hl. rewrite !length_app, length_take, length_drop. lia. Qed.

Lemma fill_slice_splice {A} a e (v : A) l : (a ≤ e)%nat → (e ≤ length l)%nat → fill_slice a e v l = take a l ++ replicate (e - a) v ++ drop (a + length (replicate (e - a) v)) l.
Proof. intros Ha He. unfold fill_slice. rewrite !Nat.min_l by lia. by rewrite length_replicate. Qed.

Lemma fill_slice_lookup {A} a e (v : A) l k :
  (a ≤ e)%nat → (e ≤ length l)%nat → fill_slice a e v l !! k = if decide (a ≤ k < e)%nat then Some v else l !! k.
Proof.
  intros Ha He. rewrite fill_slice_splice, splice_lookup by (rewrite ?length_replicate; lia). rewrite length_replicate.
  replace (a + (e - a))%nat with e by lia. case_decide; [apply lookup_replicate_2; lia|done].
Qed.

Lemma length_fill_slice {A} a e (v : A) l : (a ≤ e)%nat → (e ≤ length l)%nat → length (fill_slice a e v l) = length l.
Proof. intros Ha He. rewrite fill_slice_splice, length_splice by (rewrite ?length_replicate; lia). done. Qed.

Lemma wp_write_tokens i a vs r Q E b :
  rows b !! i = Some r → (a + length vs ≤ length (token_ids r))%nat →
  Q tt (set_rows (<[i := set_token_ids (λ _, take a (token_ids r) ++ vs ++ drop (a + length vs) (token_ids r)) r]>) b) → wp (write_tokens i a (a + length vs) vs) Q E b.
Proof. intros Hr Hl HQ. unfold write_tokens. wp_steps. unfold Datatypes.id. rewrite (arr_get_ok _ _ _ Hr). unfold wp. cbn -[slice_set]. by rewrite slice_set_ok. Qed.

(** Writes to the same row: the last one counts. *)
Lemma set_rows_one i x b : set_rows (<[i := x]>) b = set_rows (λ _, <[i := x]> (rows b)) b.
Proof. done. Qed.
Lemma set_rows_again i x y b : set_rows (<[i := x]>) (set_rows (λ _, <[i := y]> (rows b)) b) = set_rows (λ _, <[i := x]> (rows b)) b.
Proof. unfold set_rows. cbn -[insert]. by rewrite list_insert_insert_eq. Qed.
Lemma set_rows_embeds f g b : set_rows f (set_req_prompt_embeds g b) = set_req_prompt_embeds g (set_rows f b).
Proof. done. Qed.
Lemma row_set_at i x y b : rows b !! i = Some y → rows (set_rows (λ _, <[i := x]> (rows b)) b) !! i = Some x.
Proof. intros H. cbn -[insert lookup]. apply list_lookup_insert_eq. by eapply lookup_lt_Some. Qed.

(** *** Tokens *)

Definition opt_insert {A} (i : nat) (o : option A) (m : gmap nat A) : gmap nat A := match o with Some x => <[i := x]> m | None => m end.

(** Rows that differ in the fields written with the tokens only. *)
Definition other_columns (r r' : Row) : Prop :=
  num_computed_tokens r' = num_computed_tokens r ∧ request_lora_mapping r' = request_lora_mapping r ∧ logits_processing_needs_token_ids r' = logits_processing_needs_token_ids r.

Lemma embeds_modify i (o : option (list bytes)) Q E b :
  Q tt (set_req_prompt_embeds (opt_insert i o) b) → wp (match o with Some e => modify (set_req_prompt_embeds (<[i := e]>)) | None => mret tt end) Q E b.
Proof. destruct o; [done|]. intros HQ. apply wp_ret. by destruct b. Qed.

Lemma add_tokens_spec h r i p n row b0 b :
  req_ok b0 h r p n → max_model_len b0 = max_model_len b → rows b !! i = Some row →
  length (token_ids row) = max_model_len b → length (is_token_ids row) = max_model_len b →
  wp (add_tokens h r i) (λ _ b', ∃ row', b' = set_req_prompt_embeds (opt_insert i (req_prompt_embeds_of r)) (set_rows (λ _, <[i := row']> (rows b)) b) ∧
    length (token_ids row') = max_model_len b ∧ length (is_token_ids row') = max_model_len b ∧
    tokens_rep (e_tokens (entry_of h r p n)) [] (token_ids row') (is_token_ids row') ∧
    num_tokens_no_spec row' = length (e_tokens (entry_of h r p n)) ∧ num_prompt_tokens row' = n) no_exn b.
Proof.
  intros Hrq Elen Hrow L1 L2. pose proof (rq_prompt _ _ _ _ _ Hrq) as Hn. pose proof (rq_len _ _ _ _ _ Hrq) as Hlen. rewrite Elen in Hlen.
  unfold add_tokens. wp_steps. apply wp_lift_res; [intros a Ha; rewrite Hn in Ha; injection Ha as <-|intros ? Ha; congruence]. rewrite Nat2Z.id.
  set (out := h (output_token_ids r)) in *. wp_steps. apply (wp_upd_row _ _ row); [done|]. wp_steps.
  set (r1 := set_num_prompt_tokens (λ _, n) row). set (is_tok := bool_decide (is_Some (prompt_token_ids r))).
  (* the prompt *)
  assert (∃ ids, length ids = max_model_len b ∧ (∀ l, prompt_token_ids r = Some l → ∀ k, (k < n)%nat → ids !! k = l !! k) ∧
    ∀ Q, Q tt (set_rows (λ _, <[i := set_is_token_ids (fill_slice 0 n is_tok) (set_token_ids (λ _, ids) r1)]> (rows b)) b) →
    wp (match prompt_token_ids r with Some ids => write_tokens i 0 n ids ;; write_is_token i 0 n true | None => write_is_token i 0 n false end) Q no_exn
      (set_rows (<[i := r1]>) b)) as (ids & Hids & Hl & Hwp).
  { unfold is_tok. destruct (prompt_token_ids r) as [l|] eqn:El.
    - pose proof (prompt_length r n l Hn El) as <-. exists (take 0 (token_ids r1) ++ l ++ drop (0 + length l) (token_ids r1)).
      rewrite length_splice by (cbn; lia). split; [done|]. split.
      + intros l' [= <-] k Hk. rewrite splice_lookup by (cbn; lia). rewrite decide_True by lia. by rewrite Nat.sub_0_r.
      + intros Q HQ. apply wp_bind. rewrite set_rows_one. apply (wp_write_tokens i 0 l r1); [by eapply row_set_at|cbn; lia|].
        rewrite set_rows_again. unfold write_is_token. eapply wp_upd_row; [by eapply row_set_at|]. rewrite set_rows_again. exact HQ.
    - exists (token_ids row). split; [done|]. split; [done|]. intros Q HQ. unfold write_is_token. rewrite set_rows_one.
      eapply wp_upd_row; [by eapply row_set_at|]. rewrite set_rows_again. exact HQ. }
  apply Hwp. clear Hwp. apply wp_bind, embeds_modify. apply wp_bind.
  eapply wp_write_tokens; [by eapply row_set_at|cbn -[fill_slice]; lia|]. rewrite set_rows_embeds, set_rows_again. apply wp_bind. unfold write_is_token.
  eapply wp_upd_row; [by eapply row_set_at|]. rewrite set_rows_embeds, set_rows_again.
  eapply wp_upd_row; [by eapply row_set_at|]. rewrite set_rows_embeds, set_rows_again.
  eexists. split; [reflexivity|]. cbn -[fill_slice entry_of].
  pose proof (length_entry h r p n Hn) as Ele. fold out in Ele.
  assert (length (fill_slice 0 n is_tok (is_token_ids row)) = max_model_len b) as Hf by (rewrite length_fill_slice; lia).
  split; [by rewrite length_splice by lia|]. split; [by rewrite length_fill_slice by lia|]. split; [|by rewrite Ele]. split; [|by intros k t Hk; rewrite lookup_nil in Hk].
  intros k o Hk. rewrite fill_slice_lookup, splice_lookup by lia. cbn in Hk. pose proof (length_prompt_tokens r n Hn) as Epl.
  apply lookup_app_Some in Hk as [Hk|[Hge Hk]].
  - pose proof (lookup_lt_Some _ _ _ Hk) as Hlt. rewrite !decide_False by lia. rewrite fill_slice_lookup by lia. rewrite decide_True by lia. unfold prompt_tokens, is_tok in *.
    destruct (prompt_token_ids r) as [l|] eqn:El.
    + apply list_lookup_fmap_Some in Hk as (t & -> & Hk). split; [by rewrite !bool_decide_eq_true_2 by by eexists|]. intros t' [= ->]. rewrite (Hl l eq_refl) by lia. done.
    + apply lookup_replicate in Hk as [-> _]. split; [by rewrite !bool_decide_eq_false_2 by by intros [? ?]|done].
  - rewrite Epl in *. apply list_lookup_fmap_Some in Hk as (t & -> & Hk). apply lookup_lt_Some in Hk as Hlt. fold out in Hlt. rewrite !decide_True by lia.
    split; [by rewrite bool_decide_eq_true_2 by by eexists|]. intros t' [= ->]. done.
Qed.

(** *** Sampling parameters *)

Definition sampled_row (vocab : Z) (p : SamplingParams) (row : Row) : Row :=
  mkRow (token_ids row) (is_token_ids row) (num_tokens_no_spec row) (num_prompt_tokens row) (num_computed_tokens row) (request_lora_mapping row)
    (if is_greedy p then zero_float else float32 (temperature p)) (float32 (top_p p)) (if uses_top_k vocab p then top_k p else vocab)
    (float32 (frequency_penalty p)) (float32 (presence_penalty p)) (float32 (repetition_penalty p)) (num_accepted_tokens row) (logits_processing_needs_token_ids row).

Definition sampled_sets (vocab : Z) (p : SamplingParams) (rid : string) (b : InputBatch) : InputBatch :=
  set_repetition_penalties_reqs (add_if (uses_repetition p) rid) (set_presence_penalties_reqs (add_if (uses_presence p) rid)
    (set_frequency_penalties_reqs (add_if (uses_frequency p) rid) (set_top_k_reqs (add_if (uses_top_k vocab p) rid) (set_top_p_reqs (add_if (uses_top_p p) rid)
      (set_random_reqs (add_if (negb (is_greedy p)) rid) (set_greedy_reqs (add_if (is_greedy p) rid) b)))))).

Lemma generators_modify i (o : option Z) Q E b :
  Q tt (set_generators (opt_insert i o) b) → wp (match o with Some e => modify (set_generators (<[i := e]>)) | None => mret tt end) Q E b.
Proof. destruct o; [done|]. intros HQ. apply wp_ret. by destruct b. Qed.
Lemma bad_words_modify i (o : option (list (list Z))) Q E b :
  Q tt (set_bad_words_token_ids (opt_insert i o) b) → wp (match o with Some e => modify (set_bad_words_token_ids (<[i := e]>)) | None => mret tt end) Q E b.
Proof. destruct o; [done|]. intros HQ. apply wp_ret. by destruct b. Qed.
Lemma logprobs_modify x (o : option Z) Q E b :
  Q tt (set_num_logprobs (λ m, match o with Some n => <[x := n]> m | None => m end) b) →
  wp (match o with Some n => modify (set_num_logprobs (<[x := n]>)) | None => mret tt end) Q E b.
Proof. destruct o; [done|]. intros HQ. apply wp_ret. by destruct b. Qed.

(** The mask after the row of index [i] is written, or not. *)
Definition mask_added (vocab : Z) (n i : nat) (o : option (list Z)) (m m' : option (list (list bool))) : Prop :=
  (∀ ids, o = Some ids → ∃ l row, m' = Some l ∧ l !! i = Some row ∧ allow_tokens ids (replicate (Z.to_nat vocab) true) = Ok row) ∧
  (∀ l j x, m = Some l → j ≠ i → l !! j = Some x → ∃ l', m' = Some l' ∧ l' !! j = Some x) ∧
  ∀ l, m' = Some l → length l = n.

Lemma add_allowed_spec rid i o b :
  (i < max_num_reqs b)%nat → (∀ l, allowed_token_ids_mask b = Some l → length l = max_num_reqs b) →
  (∀ ids, o = Some ids → ∃ row, allow_tokens ids (replicate (Z.to_nat (vocab_size b)) true) = Ok row) →
  wp (match o with Some ids => add_allowed rid i ids | None => mret tt end) (λ _ b', ∃ m',
    b' = set_allowed_token_ids_mask (λ _, m') (set_has_allowed_token_ids (add_if (bool_decide (is_Some o)) rid) b) ∧
    mask_added (vocab_size b) (max_num_reqs b) i o (allowed_token_ids_mask b) m') no_exn b.
Proof.
  intros Hi Hm Ho. destruct o as [ids|]; cycle 1.
  { apply wp_ret. exists (allowed_token_ids_mask b). split; [by destruct b|]. split; [done|]. split; [|done]. intros l j x -> _ Hx. by exists l. }
  destruct (Ho ids eq_refl) as [row Hrow]. unfold add_allowed. wp_steps. unfold Datatypes.id. cbn [vocab_size max_num_reqs allowed_token_ids_mask set_has_allowed_token_ids].
  apply wp_lift_res; [intros a Ha; rewrite Hrow in Ha; injection Ha as <-|intros ? Ha; congruence]. wp_steps.
  set (mask := default (replicate (max_num_reqs b) (replicate (Z.to_nat (vocab_size b)) false)) (allowed_token_ids_mask b)). assert (length mask = max_num_reqs b) as Hl.
  { unfold mask. destruct (allowed_token_ids_mask b) as [l|]; [by apply Hm|]. cbn. by rewrite length_replicate. }
  exists (Some (<[i := row]> mask)). split; [reflexivity|]. split; [|split].
  - intros ids' [= <-]. eexists _, row. split; [done|]. split; [|done]. apply list_lookup_insert_eq. lia.
  - intros l j x E Hj Hx. eexists. split; [done|]. rewrite !list_lookup_insert_ne by done. unfold mask. by rewrite E.
  - intros l [= <-]. by rewrite !length_insert.
Qed.

(** Computes a batch field by field. *)
Ltac batch_cbv := cbv beta iota delta [lset lget tablesL builderL is_pooling_model max_num_reqs max_model_len vocab_size _req_ids req_id_to_index rows req_prompt_embeds block_tables greedy_reqs random_reqs top_p_reqs top_k_reqs frequency_penalties_reqs presence_penalties_reqs repetition_penalties_reqs lora_id_to_request_ids lora_id_to_lora_request generators num_logprobs builder has_allowed_token_ids allowed_token_ids_mask bad_words_token_ids req_output_token_ids spec_token_ids pooling_params pooling_states prev_req_id_to_index set_req_ids set_req_id_to_index set_rows set_req_prompt_embeds set_block_tables set_greedy_reqs set_random_reqs set_top_p_reqs set_top_k_reqs set_frequency_penalties_reqs set_presence_penalties_reqs set_repetition_penalties_reqs set_lora_id_to_request_ids set_lora_id_to_lora_request set_generators set_num_logprobs set_builder set_has_allowed_token_ids set_allowed_token_ids_mask set_bad_words_token_ids set_req_output_token_ids set_spec_token_ids set_pooling_params set_pooling_states set_prev_req_id_to_index].

(** Steps through a write to the row [i]. *)
Ltac row_step := eapply wp_upd_row; [cbn -[insert lookup]; first [eassumption|apply list_lookup_insert_eq; rewrite ?length_insert; by eapply lookup_lt_Some]|].

Lemma add_sampling_spec h b0 r i p n row b :
  req_ok b0 h r p n → vocab_size b0 = vocab_size b → rows b !! i = Some row → (i < max_num_reqs b)%nat →
  (∀ l, allowed_token_ids_mask b = Some l → length l = max_num_reqs b) →
  wp (add_sampling r i p) (λ _ b', ∃ m',
    b' = set_bad_words_token_ids (opt_insert i (nonempty_list (bad_words p))) (set_allowed_token_ids_mask (λ _, m')
      (set_has_allowed_token_ids (add_if (bool_decide (is_Some (nonempty_list (allowed_token_ids p)))) (req_id r))
        (set_num_logprobs (λ m, match logprobs_of (vocab_size b) p with Some n => <[req_id r := n]> m | None => m end)
          (set_generators (opt_insert i (generator r))
            (sampled_sets (vocab_size b) p (req_id r) (set_rows (λ _, <[i := sampled_row (vocab_size b) p row]> (rows b)) b)))))) ∧
    mask_added (vocab_size b) (max_num_reqs b) i (nonempty_list (allowed_token_ids p)) (allowed_token_ids_mask b) m') no_exn b.
Proof.
  intros Hrq Ev Hrow Hi Hm. unfold add_sampling. apply wp_bind, wp_gets.
  apply wp_bind; row_step. apply wp_bind, wp_modify. apply wp_bind; row_step. apply wp_bind, wp_modify. apply wp_bind, wp_modify. apply wp_bind; row_step.
  apply wp_bind; row_step. apply wp_bind, wp_modify. apply wp_bind; row_step. apply wp_bind, wp_modify. apply wp_bind; row_step. apply wp_bind, wp_modify.
  apply wp_bind, generators_modify, wp_bind, logprobs_modify, wp_bind.
  eapply wp_mono; [apply add_allowed_spec; [done|exact Hm|intros ids Hids; cbn; rewrite <-Ev; by apply (rq_allowed _ _ _ _ _ Hrq)]| |done].
  cbn beta. intros _ b1 (m' & -> & Hmask). apply bad_words_modify. exists m'. split; [|exact Hmask].
  unfold sampled_sets. destruct b. batch_cbv. by rewrite !list_insert_insert_eq.
Qed.

(** *** The whole addition *)

Lemma add_lora_spec sp rid i e r b row :
  sp !! rid = None → e_req e = r → (∀ l, lora_request r = Some l → lora_int_id l ≠ 0) → rows b !! i = Some row →
  lora_ok sp (lora_id_to_request_ids b) (lora_id_to_lora_request b) →
  wp (add_lora rid i (lora_request r)) (λ _ b', ∃ m k,
    b' = set_lora_id_to_lora_request (λ _, k) (set_lora_id_to_request_ids (λ _, m) (set_rows (λ _, <[i := set_request_lora_mapping (λ _, lora_of e) row]> (rows b)) b)) ∧
    lora_ok (<[rid := e]> sp) m k) no_exn b.
Proof.
  intros Hsp He Hnz Hrow Hok. unfold add_lora, lora_of. rewrite He. destruct (lora_request r) as [l|] eqn:El.
  - wp_steps. eapply wp_upd_row; [done|]. wp_steps. do 2 eexists. split; [by destruct b|].
    apply lora_ok_insert; [done|unfold lora_of; by rewrite He, El|by apply Hnz|done].
  - eapply wp_upd_row; [done|]. exists (lora_id_to_request_ids b), (lora_id_to_lora_request b). split; [by destruct b|].
    apply lora_ok_insert_0; [done|unfold lora_of; by rewrite He, El|done].
Qed.

Definition added_row (vocab : Z) (r : CachedRequestState) (p : SamplingParams) (lora : Z) (row1 : Row) : Row :=
  set_request_lora_mapping (λ _, lora) (set_num_accepted_tokens (λ _, 1) (sampled_row vocab p (set_num_computed_tokens (λ _, req_num_computed_tokens r) row1))).

(** The state of the batch after a request is added at index [i]. *)
Definition added_state (b : InputBatch) (r : CachedRequestState) (p : SamplingParams) (i : nat) I O S (c : BatchUpdateBuilder) (row : Row) (ts : list BlockTable) m k mask : InputBatch :=
  set_lora_id_to_lora_request (λ _, k) (set_lora_id_to_request_ids (λ _, m)
    (set_bad_words_token_ids (opt_insert i (nonempty_list (bad_words p))) (set_allowed_token_ids_mask (λ _, mask)
      (set_has_allowed_token_ids (add_if (bool_decide (is_Some (nonempty_list (allowed_token_ids p)))) (req_id r))
        (set_num_logprobs (λ m, match logprobs_of (vocab_size b) p with Some n => <[req_id r := n]> m | None => m end)
          (set_generators (opt_insert i (generator r))
            (sampled_sets (vocab_size b) p (req_id r)
              (set_block_tables (λ _, ts) (set_req_prompt_embeds (opt_insert i (req_prompt_embeds_of r)) (set_req_id_to_index (<[req_id r := i]>)
                (set_spec_token_ids (λ _, S) (set_req_output_token_ids (λ _, O) (set_req_ids (λ _, I) (set_builder (λ _, c) (set_rows (λ _, <[i := row]> (rows b)) b))))))))))))))).

Section add.
Context (s0 : Slots) (b : InputBatch) (sp : gmap string Entry) (r : CachedRequestState) (p : SamplingParams) (h : Heap) (n : nat).
Context (Hio : in_order s0 b sp (length (_req_ids b))) (Hmay : may_add b) (Hrq : req_ok b h r p n) (Hnew : sp !! req_id r = None).
Context (i : nat) (Hi : (i < max_num_reqs b)%nat) (Hpos : i = length (_req_ids b) ∨ _req_ids b !! i = Some None).
Context (I : list (option string)) (O : list (option Address)) (S : list (list Z)) (HL : lists_added b r i I O S).
Context (row1 : Row) (ts : list BlockTable) (m : gmap Z (gset string)) (k : gmap Z LoRARequest) (mask : option (list (list bool))) (c : BatchUpdateBuilder).
Local Abbreviation e := (entry_of h r p n).
Context (Hrow1 : length (token_ids row1) = max_model_len b ∧ length (is_token_ids row1) = max_model_len b ∧
    tokens_rep (e_tokens e) [] (token_ids row1) (is_token_ids row1) ∧ num_tokens_no_spec row1 = length (e_tokens e) ∧ num_prompt_tokens row1 = n).
Context (Hts : tables_to (max_num_reqs b) (block_tables b) ts (λ g t j, if decide (j = i) then kernel_ids t <$> block_ids r !! g else row_blocks t j)).
Context (Hlora : lora_ok (<[req_id r := e]> sp) m k) (Hmask : mask_added (vocab_size b) (max_num_reqs b) i (nonempty_list (allowed_token_ids p)) (allowed_token_ids_mask b) mask).
Local Abbreviation b' := (added_state b r p i I O S c (added_row (vocab_size b) r p (lora_of e) row1) ts m k mask).

Lemma add_no_holder x : ¬ holds b i x.
Proof. destruct Hpos as [->|H]; unfold holds; [by rewrite lookup_ge_None_2|by rewrite H]. Qed.

Lemma add_holds j x : holds b' j x ↔ j = i ∧ x = req_id r ∨ j ≠ i ∧ holds b j x.
Proof.
  unfold holds. cbn -[insert lookup]. destruct (decide (j = i)) as [->|Hj].
  - rewrite (la_id _ _ _ _ _ _ HL). split; [intros [= <-]; by left|]. intros [[_ ->]|[? _]]; done.
  - rewrite (la_ids _ _ _ _ _ _ HL) by done. split; [by right|]. intros [[? _]|[_ ?]]; done.
Qed.

Lemma add_moved j x : holds b j x → moved_to b b' j j.
Proof.
  intros Hj. assert (j ≠ i) as Hne by (intros ->; by eapply add_no_holder). pose proof (holds_lt _ _ _ Hj) as Hlt. destruct Hio as [Hb _ _ _].
  split; try done.
  - intros q s Hq Hs. exists (num_tokens_no_spec q + length s)%nat, q. split; [done|]. split; [|apply same_row_refl].
    cbn -[insert lookup]. by rewrite list_lookup_insert_ne.
  - cbn -[insert lookup]. pose proof (bo_spec _ _ Hb). destruct (lookup_lt_is_Some_2 (spec_token_ids b) j) as [l Hl]; [lia|].
    rewrite Hl. by apply (la_ss _ _ _ _ _ _ HL).
  - cbn -[insert lookup]. by apply (la_os _ _ _ _ _ _ HL).
  - intros l Hl. eapply tables_to_same; [exact Hts| |exact Hl]. intros g t _. cbn beta. by rewrite decide_False.
  - cbn -[insert lookup]. unfold opt_insert. destruct (generator r); [by rewrite lookup_insert_ne|done].
  - cbn -[insert lookup]. unfold opt_insert. destruct (nonempty_list (bad_words p)); [by rewrite lookup_insert_ne|done].
  - intros l mrow Hm Hl. cbn. destruct Hmask as (_ & Hfr & _). by eapply Hfr.
  - intros emb Hemb. cbn -[insert lookup]. unfold opt_insert. destruct (req_prompt_embeds_of r); [by rewrite lookup_insert_ne|done].
Qed.

Lemma add_slot : slot_rep b' i e.
Proof.
  destruct Hio as [Hb Hs _ _]. destruct Hrow1 as (R1 & R2 & R3 & R4 & R5). assert (i < length (rows b))%nat as Hir by (by rewrite (bo_rows _ _ Hb)).
  assert (∀ x, ¬ holds b i x) as Hno by apply add_no_holder. destruct (bo_free _ _ Hb i Hno) as [Hg Hbw].
  split.
  - eexists. cbn -[insert lookup]. split; [by apply list_lookup_insert_eq|]. unfold row_rep. cbn -[tokens_rep entry_of]. split_and!; try done.
    all: pose proof (rq_len _ _ _ _ _ Hrq); pose proof (length_entry h r p n (rq_prompt _ _ _ _ _ Hrq)) as Hle; cbn in *; lia.
  - apply HL.
  - apply HL.
  - intros g t' Hg'. destruct Hts as [_ Hall]. destruct (Hall g t' Hg') as (t & Ht & _ & Hsh & Hr). destruct (rq_blocks _ _ _ _ _ Hrq g t Ht) as (l & Hl & _).
    exists l. split; [done|]. rewrite Hr, decide_True, Hl by done. cbn. by rewrite (same_shape_ids t t').
  - cbn -[insert lookup]. unfold opt_insert. destruct (generator r); [by rewrite lookup_insert_eq|done].
  - cbn -[insert lookup]. unfold opt_insert. destruct (nonempty_list (bad_words p)); [by rewrite lookup_insert_eq|done].
  - intros ids Hids. cbn. destruct Hmask as (Hat & _). destruct (Hat ids Hids) as (l & mrow & ? & ? & ?). by exists l, mrow.
  - intros x Hx. cbn in Hx. cbn -[insert lookup]. unfold opt_insert. rewrite Hx. by rewrite lookup_insert_eq.
Qed.

Lemma add_batch_ok : batch_ok b' (<[req_id r := e]> sp).
Proof.
  destruct Hio as [Hb Hs _ _]. pose proof (bo_room _ _ Hb). destruct Hrow1 as (R1 & R2 & _).
  assert (req_id_to_index b !! req_id r = None) as Hix by (apply eq_None_not_Some; rewrite (bo_dom _ _ Hb), Hnew; by intros [? ?]).
  split.
  - apply (bo_pool _ _ Hb).
  - apply HL.
  - apply HL.
  - apply HL.
  - cbn. rewrite (la_len _ _ _ _ _ _ HL). lia.
  - cbn -[insert]. rewrite length_insert. apply Hb.
  - cbn -[insert lookup]. intros j q Hq. destruct (decide (j = i)) as [->|Hj].
    + rewrite list_lookup_insert_eq in Hq by (by rewrite (bo_rows _ _ Hb)). injection Hq as <-. done.
    + rewrite list_lookup_insert_ne in Hq by done. by apply (bo_row_len _ _ Hb j).
  - by eapply tables_to_ok.
  - apply Hmask.
  - intros x j. rewrite add_holds. cbn -[insert lookup]. destruct (decide (x = req_id r)) as [->|Hx].
    + rewrite lookup_insert_eq. split; [intros [= ->]; by left|]. intros [[-> _]|[_ Hj]]; [done|]. apply (bo_index _ _ Hb) in Hj. congruence.
    + rewrite lookup_insert_ne by done. rewrite (bo_index _ _ Hb). split; [|intros [[_ ?]|[_ ?]]; done]. intros Hj. right. split; [|done]. intros ->. by eapply add_no_holder.
  - intros x. cbn -[insert lookup]. destruct (decide (x = req_id r)) as [->|Hx]; [by rewrite !lookup_insert_eq|]. rewrite !lookup_insert_ne by done. apply Hb.
  - intros x j ex [[-> ->]|[Hj Hh]]%add_holds Hex.
    + rewrite lookup_insert_eq in Hex. injection Hex as <-. apply add_slot.
    + destruct (decide (x = req_id r)) as [->|Hx]; [apply (bo_index _ _ Hb) in Hh; congruence|]. rewrite lookup_insert_ne in Hex by done.
      apply (slot_rep_moved b b' j j); [by apply (bo_slot _ _ Hb x)|by eapply add_moved].
  - intros x ex. destruct (decide (x = req_id r)) as [->|Hx].
    + rewrite lookup_insert_eq. intros [= <-]. cbn. split; [done|]. split; [apply Hrq|]. apply (rq_lora _ _ _ _ _ Hrq).
    + rewrite lookup_insert_ne by done. apply (bo_key _ _ Hb).
  - intros j Hj. assert (j ≠ i) as Hne by (intros ->; apply (Hj (req_id r)), add_holds; by left).
    destruct (bo_free _ _ Hb j) as [E1 E2]; [intros x Hx; apply (Hj x), add_holds; by right|].
    cbn -[insert lookup]. unfold opt_insert. split; [destruct (generator r)|destruct (nonempty_list (bad_words p))]; by rewrite ?lookup_insert_ne.
Qed.

Lemma add_sets_ok : sets_ok b' (<[req_id r := e]> sp).
Proof.
  destruct Hio as [_ [] _ _]. split; [..|exact Hlora].
  - by apply (set_of_insert _ (λ e, is_greedy (e_params e)) _ _ e).
  - by apply (set_of_insert _ (λ e, negb (is_greedy (e_params e))) _ _ e).
  - by apply (set_of_insert _ (λ e, uses_top_p (e_params e)) _ _ e).
  - by apply (set_of_insert _ (λ e, uses_top_k (vocab_size b) (e_params e)) _ _ e).
  - by apply (set_of_insert _ (λ e, uses_frequency (e_params e)) _ _ e).
  - by apply (set_of_insert _ (λ e, uses_presence (e_params e)) _ _ e).
  - by apply (set_of_insert _ (λ e, uses_repetition (e_params e)) _ _ e).
  - by apply (set_of_insert _ (λ e, bool_decide (is_Some (nonempty_list (allowed_token_ids (e_params e))))) _ _ e).
  - intros x. cbn -[insert lookup]. destruct (decide (x = req_id r)) as [->|Hx].
    + rewrite lookup_insert_eq. cbn. specialize (so_logprobs0 (req_id r)). rewrite Hnew in so_logprobs0. destruct (logprobs_of (vocab_size b) p); [by rewrite lookup_insert_eq|done].
    + rewrite lookup_insert_ne by done. rewrite <-so_logprobs0. destruct (logprobs_of (vocab_size b) p); [by rewrite lookup_insert_ne|done].
Qed.

Context (Hc1 : b_added c = b_added (builder b) ++ [(i, info_of r p)]) (Hc2 : b_moved c = b_moved (builder b)) (Hc3 : NoDup (_removed c))
  (Hc4 : _is_removed_sorted c = true → desc (_removed c)) (Hc5 : ∀ j, j ∈ _removed (builder b) ↔ j = i ∧ (i < length (_req_ids b))%nat ∨ j ∈ _removed c) (Hc6 : i ∉ _removed c).

Lemma add_holes_ok : holes_ok b' (length (_req_ids b')).
Proof.
  destruct Hio as [Hb _ [Hli Hnd Hho Hkn Hab Hso] _]. pose proof (la_len _ _ _ _ _ _ HL) as HlI. split.
  - done.
  - done.
  - cbn. intros j Hj. assert (j ≠ i) by (by intros ->). rewrite (la_ids _ _ _ _ _ _ HL) by done. apply Hho, Hc5. by right.
  - cbn. intros j Hj. destruct (decide (j = i)) as [->|Hne]; [rewrite (la_id _ _ _ _ _ _ HL) in Hj; done|].
    rewrite (la_ids _ _ _ _ _ _ HL) in Hj by done. destruct (Hkn j Hj) as [Hin|Hle]; [|apply lookup_lt_Some in Hj; lia].
    apply Hc5 in Hin as [[? _]|?]; [done|by left].
  - intros j x Hj Hx%holds_lt. cbn in *. lia.
  - done.
Qed.

Lemma add_pending_ok : pending_ok s0 b' (<[req_id r := e]> sp).
Proof.
  destruct Hio as [Hb _ Hh [(Hr & Hmv & Ha) Hpm Hap]]. split.
  - unfold update_ok. cbn in *. rewrite Hc1, Hc2. split_and!; [|exact Hmv|].
    + intros j Hj. destruct (Hr j) as [Hlt Hna]; [apply Hc5; by right|]. split; [done|]. rewrite fmap_app. cbn. intros [?| ->%list_elem_of_singleton]%elem_of_app; done.
    + intros j x [Hx|[= -> ->]%list_elem_of_singleton]%elem_of_app; [by eapply Ha|done].
  - cbn. intros j a d dir Hj Hm. rewrite Hc2 in Hm. apply (Hpm j a d dir); [|done]. apply Hc5. by right.
  - intros j. specialize (Hap j). unfold apply_update in *. cbn -[slot_info] in *. unfold may_add in Hmay. rewrite Hc1, Hc2, Hmay in *. rewrite foldl_app. cbn [foldl] in *.
    unfold slot_info in *. cbn -[insert lookup] in *. unfold slot_add at 1. cbn [fst snd]. destruct (decide (j = i)) as [->|Hj].
    + rewrite (la_id _ _ _ _ _ _ HL). cbn -[insert lookup]. by rewrite lookup_insert_eq.
    + rewrite (la_ids _ _ _ _ _ _ HL) by done. rewrite (slot_add_ext _ (foldl slot_remove s0 (_removed (builder b)))).
      * rewrite Hap. destruct (_req_ids b !! j) as [[x|]|] eqn:E; [|done..]. cbn -[insert lookup]. rewrite lookup_insert_ne; [done|]. intros Hx.
        assert (holds b j x) as Hh' by done. apply (bo_index _ _ Hb) in Hh'. destruct (proj1 (bo_dom _ _ Hb x)) as [ex Hex]; [by eexists|]. congruence.
      * right. rewrite !slot_remove_fold. apply decide_ext. rewrite (Hc5 j). tauto.
Qed.
End add.

Lemma mg_add_row_spec b sp h r p n i :
  batch_ok b sp → req_ok b h r p n → (i < max_num_reqs b)%nat →
  wp (mg_add_row (block_ids r) i) (λ _ ts, tables_to (max_num_reqs b) (block_tables b) ts
    (λ g t j, if decide (j = i) then kernel_ids t <$> block_ids r !! g else row_blocks t j)) no_exn (block_tables b).
Proof.
  intros Hb Hrq Hi. apply mg_spec. intros g t Ht. destruct (rq_blocks _ _ _ _ _ Hrq g t Ht) as (l & Hl & Hcap). unfold row_op, with_ids.
  rewrite (arr_get_ok _ _ _ Hl). apply wp_bind, wp_lift_res; [intros a [= <-]|intros e [=]]. eapply wp_mono; [apply add_row_spec; [by apply (bo_tables _ _ Hb g)|done|done]| |done].
  cbn beta. intros _ t' (Hok & Hsh & Hr). split; [done|]. split; [done|]. intros j. rewrite Hr. destruct (decide (j = i)); [by rewrite Hl|done].
Qed.

Lemma batch_add_spec s0 b sp r p h n :
  in_order s0 b sp (length (_req_ids b)) → may_add b → sp !! req_id r = None → (size sp < max_num_reqs b)%nat → req_ok b h r p n →
  wp (add_request h r) (λ i b', in_order s0 b' (<[req_id r := entry_of h r p n]> sp) (length (_req_ids b')) ∧ may_add b' ∧ same_sizes b b' ∧
    b_added (builder b') = b_added (builder b) ++ [(i, info_of r p)] ∧ holds b' i (req_id r)) no_exn b.
Proof.
  intros Hio Hmay Hnew Hsize Hrq. pose proof (io_batch _ _ _ _ Hio) as Hb. unfold add_request. apply wp_bind.
  eapply wp_mono; [by apply (register_spec s0 b sp r p h n)| |done].
  cbn beta. intros i b1 (c & -> & Hi & Hc1 & Hc2 & Hc3 & Hc4 & Hc5 & Hc6 & Hpos). apply wp_bind.
  eapply wp_mono; [by apply (add_lists_spec b sp r i)| |done].
  cbn beta. intros _ b2 (I & O & S & -> & HL). apply wp_bind, wp_modify, wp_bind.
  destruct (row_exists b sp i Hb Hi) as [row Hrow]. destruct (bo_row_len _ _ Hb i row Hrow) as [L1 L2].
  eapply wp_mono; [by apply (add_tokens_spec h r i p n row b)| |done].
  cbn beta. intros _ b3 (row' & -> & Hrow'). apply wp_bind; row_step. apply wp_bind, wp_zoom.
  eapply wp_mono; [by apply (mg_add_row_spec b sp h r p n i)| |done].
  cbn beta. intros _ ts Hts. rewrite (rq_params _ _ _ _ _ Hrq). apply wp_bind.
  eapply wp_mono; [apply (add_sampling_spec h b r i p n (set_num_computed_tokens (λ _, req_num_computed_tokens r) row')); [done|done| |done|apply (bo_mask _ _ Hb)]| |done].
  { cbn -[insert lookup]. apply list_lookup_insert_eq. rewrite length_insert. by eapply lookup_lt_Some. }
  cbn beta. intros _ b4 (mask & -> & Hmask). apply wp_bind; row_step. apply wp_bind.
  eapply wp_mono; [eapply (add_lora_spec sp (req_id r) i (entry_of h r p n) r); [done|done|apply (rq_lora _ _ _ _ _ Hrq)| |apply (so_lora _ _ (io_sets _ _ _ _ Hio))]| |done].
  { cbn -[insert lookup]. apply list_lookup_insert_eq. rewrite !length_insert. by eapply lookup_lt_Some. }
  cbn beta. intros _ b5 (m & k & -> & Hlora). apply wp_ret.
  match goal with |- in_order _ ?x _ _ ∧ _ =>
    assert (x = added_state b r p i I O S c (added_row (vocab_size b) r p (lora_of (entry_of h r p n)) row') ts m k mask) as -> end.
  { unfold added_state, added_row, sampled_sets. clear. destruct b. batch_cbv. by rewrite !list_insert_insert_eq. }
  split; [split|split; [|split; [|split]]].
  - by eapply add_batch_ok.
  - by eapply add_sets_ok.
  - by eapply add_holes_ok.
  - by eapply add_pending_ok.
  - unfold may_add. cbn. by rewrite Hc2.
  - split_and!; [done..|]. by eapply tables_shape.
  - exact Hc1.
  - by apply (la_id _ _ _ _ _ _ HL).
Qed.

(** ** Draft tokens *)

Definition with_spec (spec : list Z) (e : Entry) : Entry := mkEntry (e_req e) (e_params e) (e_tokens e) spec (e_prompt e) (e_computed e) (e_blocks e) (e_accepted e).

Lemma lookup_update (sp : gmap string Entry) {A} (f : Entry → option A) id e e' x :
  sp !! id = Some e → f e' = f e → <[id := e']> sp !! x ≫= f = sp !! x ≫= f.
Proof. intros He Hf. destruct (decide (x = id)) as [->|Hx]; [by rewrite lookup_insert_eq, He|by rewrite lookup_insert_ne]. Qed.

Lemma lookup_update_ex (sp : gmap string Entry) (P : Entry → Prop) id e e' x :
  sp !! id = Some e → (P e' ↔ P e) → (∃ e0, <[id := e']> sp !! x = Some e0 ∧ P e0) ↔ ∃ e0, sp !! x = Some e0 ∧ P e0.
Proof.
  intros He HP. destruct (decide (x = id)) as [->|Hx]; [|by rewrite lookup_insert_ne]. rewrite lookup_insert_eq, He.
  split; intros (? & [= <-] & ?); eexists; (split; [done|by apply HP]).
Qed.

Lemma set_of_update sp P s id e e' : sp !! id = Some e → P e' = P e → set_of sp P s → set_of (<[id := e']> sp) P s.
Proof. intros He HP Hs x. rewrite (lookup_update_ex sp (λ e, P e = true) id e) by (rewrite ?HP; done). apply Hs. Qed.

Definition written (b : InputBatch) (i : nat) (spec : list Z) (row : Row) (ts : list BlockTable) : InputBatch :=
  set_block_tables (λ _, ts) (set_rows (λ _, <[i := row]> (rows b)) (set_spec_token_ids (λ _, <[i := spec]> (spec_token_ids b)) b)).

(** An entry whose request stays the same while its row, its drafts and its blocks are written. *)
Section write.
Context (s0 : Slots) (b : InputBatch) (sp : gmap string Entry) (limit : nat) (id : string) (i : nat) (e e' : Entry) (row row' : Row).
Context (Hio : in_order s0 b sp limit) (Hi : holds b i id) (He : sp !! id = Some e) (Hrow : rows b !! i = Some row).
Context (Hreq : e_req e' = e_req e) (Hpar : e_params e' = e_params e).
Context (ts : list BlockTable) (Hblocks : blocks_rep ts i (e_blocks e')) (Hother : ∀ j l, j ≠ i → blocks_rep (block_tables b) j l → blocks_rep ts j l) (Hok : all_tables_ok (max_num_reqs b) ts).
Context (Hrep : row_rep (max_model_len b) (vocab_size b) e' row') (Hlen : length (token_ids row') = max_model_len b ∧ length (is_token_ids row') = max_model_len b).
Local Abbreviation b' := (written b i (e_spec e') row' ts).

Lemma write_moved j : j ≠ i → moved_to b b' j j.
Proof.
  intros Hj. split; try done.
  - intros q s Hq Hs. exists (num_tokens_no_spec q + length s)%nat, q. split; [done|]. split; [|apply same_row_refl]. cbn -[insert lookup]. by rewrite list_lookup_insert_ne.
  - cbn -[insert lookup]. by rewrite list_lookup_insert_ne.
  - intros bl. by apply Hother.
  - by intros mask mrow Hm Hl; exists mask.
Qed.

Lemma write_slot : slot_rep b' i e'.
Proof.
  destruct (holds_entry b sp i id (io_batch _ _ _ _ Hio) Hi) as (e0 & He0 & _ & Hslot). rewrite He in He0. injection He0 as <-. destruct Hslot. destruct Hlen.
  split; rewrite ?Hreq, ?Hpar; try done.
  - exists row'. split; [|done]. cbn -[insert lookup]. apply list_lookup_insert_eq. by eapply lookup_lt_Some.
  - cbn -[insert lookup]. apply list_lookup_insert_eq. by eapply lookup_lt_Some.
Qed.

Lemma write_batch_ok : batch_ok b' (<[id := e']> sp).
Proof.
  pose proof (io_batch _ _ _ _ Hio) as Hb. pose proof (holds_lt _ _ _ Hi). pose proof (bo_spec _ _ Hb).
  split; try apply Hb; try done.
  - cbn -[insert]. rewrite length_insert. apply Hb.
  - cbn -[insert lookup]. intros j l Hj. destruct (decide (j = i)) as [->|Hne]; [lia|]. rewrite list_lookup_insert_ne by done. by apply (bo_spare _ _ Hb).
  - cbn -[insert]. rewrite length_insert. apply Hb.
  - cbn -[insert lookup]. intros j q Hq. destruct (decide (j = i)) as [->|Hne].
    + rewrite list_lookup_insert_eq in Hq by (by eapply lookup_lt_Some). by injection Hq as <-.
    + rewrite list_lookup_insert_ne in Hq by done. by apply (bo_row_len _ _ Hb j).
  - intros x. rewrite (bo_dom _ _ Hb x). destruct (decide (x = id)) as [->|Hx]; [rewrite lookup_insert_eq, He; by split|by rewrite lookup_insert_ne].
  - intros x j ex Hj Hex. destruct (decide (j = i)) as [->|Hne].
    + assert (x = id) as -> by (unfold holds in Hj, Hi; cbn in Hj; congruence). rewrite lookup_insert_eq in Hex. injection Hex as <-. apply write_slot.
    + rewrite lookup_insert_ne in Hex.
      2:{ intros <-. apply Hne. apply (bo_index _ _ Hb) in Hj. pose proof (proj2 (bo_index _ _ Hb id i) Hi). congruence. }
      apply (slot_rep_moved b _ j); [by apply (bo_slot _ _ Hb x)|by apply write_moved].
  - intros x ex Hex. destruct (decide (x = id)) as [->|Hx]; [|rewrite lookup_insert_ne in Hex by done; by apply (bo_key _ _ Hb)].
    rewrite lookup_insert_eq in Hex. injection Hex as <-. rewrite Hreq, Hpar. by apply (bo_key _ _ Hb).
Qed.

Lemma write_in_order : in_order s0 b' (<[id := e']> sp) limit.
Proof.
  assert (lora_of e' = lora_of e) as Hlora by (unfold lora_of; by rewrite Hreq).
  assert (∀ j, slot_info b' (<[id := e']> sp) j = slot_info b sp j) as Hinfo.
  { unfold slot_info. cbn -[insert lookup]. intros j. destruct (_req_ids b !! j) as [[x|]|]; [|done..]. cbn -[insert lookup].
    destruct (decide (x = id)) as [->|Hx]; [|by rewrite lookup_insert_ne]. rewrite lookup_insert_eq, He. change (Some (entry_info e') = Some (entry_info e)). unfold entry_info. by rewrite Hreq, Hpar. }
  destruct Hio as [_ [] Hh Hp]. split; [exact write_batch_ok|split|by destruct Hh|].
  all: try (eapply set_of_update; [exact He|cbn beta; by rewrite Hpar|done]).
  - intros x. rewrite (lookup_update sp (λ e, logprobs_of (vocab_size b') (e_params e)) id e e' x He) by (by rewrite Hpar). apply so_logprobs0.
  - destruct so_lora0 as (L1 & L2 & L3). split_and!; [|exact L2|exact L3]. intros l x. rewrite (lookup_update_ex sp (λ e, lora_of e = l ∧ l ≠ 0) id e) by (rewrite ?Hlora; done). apply L1.
  - destruct Hp as [P1 P2 P3]. split; [exact P1|exact P2|]. intros j. rewrite Hinfo. apply P3.
Qed.
End write.

Lemma update_req_spec_token_ids_spec s0 b sp limit id e drafts :
  in_order s0 b sp limit → sp !! id = Some e → (length (e_tokens e) + length (default [] (drafts !! id)) ≤ max_model_len b)%nat →
  wp (update_req_spec_token_ids id drafts) (λ k b', k = length (default [] (drafts !! id)) ∧
    in_order s0 b' (<[id := with_spec (default [] (drafts !! id)) e]> sp) limit ∧ builder b' = builder b ∧ _req_ids b' = _req_ids b ∧ same_sizes b b') no_exn b.
Proof.
  intros Hio He Hcap. set (spec := default [] (drafts !! id)) in *. pose proof (io_batch _ _ _ _ Hio) as Hb.
  destruct (proj2 (bo_dom _ _ Hb id)) as [i Hix]; [by eexists|]. apply (bo_index _ _ Hb) in Hix as Hi.
  destruct (holds_entry b sp i id Hb Hi) as (e0 & He0 & _ & Hslot). rewrite He in He0. injection He0 as <-.
  destruct (sr_row _ _ _ Hslot) as (row & Hrow & Hrep). destruct (bo_row_len _ _ Hb i row Hrow) as [L1 L2]. pose proof (sr_spec _ _ _ Hslot) as Hsp. pose proof (lookup_lt_Some _ _ _ Hsp).
  pose proof (same_sizes_refl b) as Hsame.
  destruct (Hrep) as (Hple & [Ht Hs] & Hn & Hrest).
  unfold update_req_spec_token_ids. apply wp_bind, wp_gets. change (Datatypes.id b) with b. apply wp_bind. eapply wp_lift_some; [exact Hix|].
  apply wp_bind, wp_set_at; [done|]. cbn zeta. fold spec. clearbody spec. case_bool_decide as Hd.
  - apply wp_ret. split; [by rewrite Hd|]. apply length_zero_iff_nil in Hd as Ee. split; [|done]. rewrite Ee.
    replace (set_spec_token_ids _ b) with (written b i [] row (block_tables b)).
    + eapply (write_in_order _ _ _ _ _ _ e (with_spec [] e)); try done; [apply Hslot|apply Hb|]. unfold row_rep. cbn. split; [lia|]. split; [split; [done|by intros k t Hk; rewrite lookup_nil in Hk]|done].
    + unfold written, set_rows, set_block_tables. cbn -[insert]. by rewrite list_insert_id.
  - apply wp_bind. eapply wp_get_at; [exact Hrow|]. cbn zeta. rewrite Hn. apply wp_bind, (wp_write_tokens _ _ _ row); [done|lia|].
    apply wp_bind, wp_set_at; [cbn -[insert]; by rewrite length_insert|]. apply wp_ret. split; [done|].
    set (row' := set_token_ids _ row).
    match goal with |- in_order _ ?x _ _ ∧ _ =>
      assert (x = written b i spec row' (block_tables b)) as -> end.
    { unfold written. clear. destruct b. batch_cbv. by rewrite list_insert_insert_eq. }
    split; [|done]. eapply (write_in_order _ _ _ _ _ _ e (with_spec spec e)); try done; [apply Hslot|apply Hb|..].
    + unfold row_rep. cbn -[take drop]. split; [lia|]. split; [|done]. split; cbn -[take drop].
      * intros k o Hk. destruct (Ht k o Hk) as [H1 H2]. split; [done|]. intros t Ho. apply lookup_lt_Some in Hk. rewrite splice_lookup by lia.
        rewrite decide_False by lia. by apply H2.
      * intros k t Hk. pose proof (lookup_lt_Some _ _ _ Hk). rewrite splice_lookup by lia. rewrite decide_True by lia. by replace (_ + k - _)%nat with k by lia.
    + cbn -[take drop]. by rewrite length_splice by lia.
Qed.
