(* ===== verification/BatchMoves.v ===== *)
(** * Moving requests in the batch

    [swap_states] and [condense] move entries between indices: they leave the map of requests as it
    is, keep the pending update in step and, for [condense], leave no hole.  The loop of [condense]
    is followed with the bound [limit]: from there on no index holds a request. *)

From stdpp Require Import base list gmap strings sorting.
From Stdlib Require Import ZArith Lia Floats.SpecFloat.
From S2P Require Import Prelude FreeQueue Request LogitsProcessors BlockTable InputBatch BatchInvariant.
Local Open Scope Z_scope.

(** ** Exchanging two requests *)

Lemma length_copy_prefix {A} n (l l' : list A) : length l = length l' → length (copy_prefix n l l') = length l'.
Proof. intros E. unfold copy_prefix. rewrite length_app, length_take, length_drop. lia. Qed.

Lemma take_copy_prefix {A} n (l l' : list A) : length l = length l' → take n (copy_prefix n l l') = take n l.
Proof.
  intros E. unfold copy_prefix. destruct (decide (n ≤ length l)%nat).
  - rewrite take_app_le by (rewrite length_take; lia). by rewrite take_take, Nat.min_id.
  - rewrite (drop_ge l') by lia. by rewrite app_nil_r, take_take, Nat.min_id.
Qed.

Lemma swap_columns_same n q r :
  length (token_ids q) = length (token_ids r) → length (is_token_ids q) = length (is_token_ids r) → same_row n q (swap_columns true n q r).
Proof. intros E1 E2. split_and!; try done; cbn; by apply take_copy_prefix. Qed.

Lemma swap_at_lookup {A} i1 i2 (l : list A) x y j :
  l !! i1 = Some x → l !! i2 = Some y → swap_at i1 i2 l !! j = if decide (j = i2) then Some x else if decide (j = i1) then Some y else l !! j.
Proof.
  intros Hx Hy. unfold swap_at. rewrite Hx, Hy. apply lookup_lt_Some in Hx as H1. apply lookup_lt_Some in Hy as H2.
  destruct (decide (j = i2)) as [->|N2]; [by rewrite list_lookup_insert_eq by by rewrite length_insert|]. rewrite list_lookup_insert_ne by done.
  destruct (decide (j = i1)) as [->|N1]; [by rewrite list_lookup_insert_eq|by rewrite list_lookup_insert_ne].
Qed.

Lemma length_swap_at {A} i1 i2 (l : list A) : length (swap_at i1 i2 l) = length l.
Proof. unfold swap_at. destruct (l !! i1), (l !! i2); by rewrite ?length_insert. Qed.

Lemma swap_dict_lookup {A} i1 i2 (m : gmap nat A) j : i1 ≠ i2 →
  swap_dict_values i1 i2 m !! j = if decide (j = i2) then m !! i1 else if decide (j = i1) then m !! i2 else m !! j.
Proof.
  intros Hne. unfold swap_dict_values.
  assert (∀ (k k' : nat) (m' : gmap nat A), (match m !! k with Some v => <[k' := v]> m' | None => delete k' m' end) !! j = if decide (j = k') then m !! k else m' !! j) as H.
  { intros k k' m'. destruct (decide (j = k')) as [->|]; destruct (m !! k); by rewrite ?lookup_insert_eq, ?lookup_delete_eq, ?lookup_insert_ne, ?lookup_delete_ne. }
  rewrite H. destruct (decide (j = i1)) as [->|]; [by rewrite decide_False by done|]. by rewrite H.
Qed.

Lemma copy_row_lookup {A} i j (l : list A) x k : l !! i = Some x → (j < length l)%nat → copy_row i j l !! k = if decide (k = j) then Some x else l !! k.
Proof.
  intros Hx Hj. unfold copy_row. rewrite Hx. destruct (decide (k = j)) as [->|]; [by apply list_lookup_insert_eq|by rewrite list_lookup_insert_ne].
Qed.

Lemma length_copy_row {A} i j (l : list A) : length (copy_row i j l) = length l.
Proof. unfold copy_row. destruct (l !! i); by rewrite ?length_insert. Qed.

Definition swapped_state (b : InputBatch) (i1 i2 : nat) (id1 id2 : string) (n : nat) (r1 r2 : Row) (ts : list BlockTable) : InputBatch :=
  set_allowed_token_ids_mask (fmap (M:=option) (swap_views i1 i2)) (set_bad_words_token_ids (swap_dict_values i1 i2) (set_generators (swap_dict_values i1 i2)
    (set_builder (moved_append (i1, i2, SWAP)) (set_block_tables (λ _, ts) (set_req_prompt_embeds (swap_dict_values i1 i2)
      (set_rows (λ l, <[i2 := swap_columns true n r1 r2]> (<[i1 := swap_columns true n r2 r1]> l))
        (set_req_id_to_index (λ m, <[id2 := i1]> (<[id1 := i2]> m))
          (set_spec_token_ids (swap_at i1 i2) (set_req_output_token_ids (swap_at i1 i2) (set_req_ids (swap_at i1 i2) b)))))))))).

Section swap.
Context (s0 : Slots) (b : InputBatch) (sp : gmap string Entry) (i1 i2 : nat) (id1 id2 : string) (e1 e2 : Entry) (n : nat) (r1 r2 : Row) (ts : list BlockTable).
Context (Hb : batch_ok b sp) (H1 : holds b i1 id1) (H2 : holds b i2 id2) (Hne : i1 ≠ i2).
Context (He1 : sp !! id1 = Some e1) (He2 : sp !! id2 = Some e2) (Hr1 : rows b !! i1 = Some r1) (Hr2 : rows b !! i2 = Some r2).
Context (Hn1 : (num_tokens_no_spec r1 + length (e_spec e1) ≤ n)%nat) (Hn2 : (num_tokens_no_spec r2 + length (e_spec e2) ≤ n)%nat).
Context (Hmask : nonempty_list (allowed_token_ids (e_params e1)) = None).
Context (Hts : tables_to (max_num_reqs b) (block_tables b) ts
  (λ _ t j, if decide (j = i2) then row_blocks t i1 else if decide (j = i1) then row_blocks t i2 else row_blocks t j)).
Local Abbreviation b' := (swapped_state b i1 i2 id1 id2 n r1 r2 ts).

(** Where the entry of index [j] goes. *)
Definition swapped (j : nat) : nat := if decide (j = i2) then i1 else if decide (j = i1) then i2 else j.

Lemma swapped_twice j : swapped (swapped j) = j.
Proof. unfold swapped. repeat case_decide; congruence. Qed.

Lemma swap_ids j : _req_ids b' !! j = _req_ids b !! swapped j.
Proof. cbn -[lookup]. rewrite (swap_at_lookup _ _ _ _ _ _ H1 H2). unfold swapped. repeat case_decide; congruence. Qed.

Lemma swap_holds j x : holds b' j x ↔ holds b (swapped j) x.
Proof. unfold holds. by rewrite swap_ids. Qed.

(** Every list and dict has moved along. *)
Lemma swap_moved j mask :
  (∀ m row, mask = Some m → m !! swapped j = Some row → ∃ m', allowed_token_ids_mask b' = Some m' ∧ m' !! j = Some row) →
  (j < length (_req_ids b))%nat → moved_to (set_allowed_token_ids_mask (λ _, mask) b) b' (swapped j) j.
Proof.
  intros Hm Hj. pose proof (holds_lt _ _ _ H1) as L1. pose proof (holds_lt _ _ _ H2) as L2. pose proof (bo_spec _ _ Hb). pose proof (bo_out _ _ Hb).
  destruct (bo_row_len _ _ Hb _ _ Hr1) as [T1 S1]. destruct (bo_row_len _ _ Hb _ _ Hr2) as [T2 S2].
  pose proof (sr_spec _ _ _ (bo_slot _ _ Hb _ _ _ H1 He1)) as Sp1. pose proof (sr_spec _ _ _ (bo_slot _ _ Hb _ _ _ H2 He2)) as Sp2.
  pose proof (sr_out _ _ _ (bo_slot _ _ Hb _ _ _ H1 He1)) as O1. pose proof (sr_out _ _ _ (bo_slot _ _ Hb _ _ _ H2 He2)) as O2.
  apply lookup_lt_Some in Hr1 as R1. apply lookup_lt_Some in Hr2 as R2.
  split.
  - done.
  - done.
  - intros q s Hq Hs. cbn -[lookup insert swapped] in *. unfold swapped in Hq, Hs. destruct (decide (j = i2)) as [->|N2].
    + exists n, (swap_columns true n r1 r2). split; [by simplify_eq|]. split; [apply list_lookup_insert_eq; by rewrite length_insert|]. simplify_eq. apply swap_columns_same; congruence.
    + rewrite list_lookup_insert_ne by done. destruct (decide (j = i1)) as [->|N1].
      * exists n, (swap_columns true n r2 r1). split; [by simplify_eq|]. split; [by apply list_lookup_insert_eq|]. simplify_eq. apply swap_columns_same; congruence.
      * rewrite list_lookup_insert_ne by done. exists (num_tokens_no_spec q + length s)%nat, q. split; [done|]. split; [done|apply same_row_refl].
  - cbn -[lookup]. rewrite (swap_at_lookup _ _ _ _ _ _ Sp1 Sp2). unfold swapped. repeat case_decide; congruence.
  - cbn -[lookup]. rewrite (swap_at_lookup _ _ _ _ _ _ O1 O2). unfold swapped. repeat case_decide; congruence.
  - intros l Hl. eapply tables_to_same; [exact Hts| |exact Hl]. intros g t _. cbn beta. unfold swapped. by repeat case_decide.
  - cbn -[lookup]. rewrite swap_dict_lookup by done. unfold swapped. by repeat case_decide.
  - cbn -[lookup]. rewrite swap_dict_lookup by done. unfold swapped. by repeat case_decide.
  - exact Hm.
  - intros x. cbn -[lookup]. rewrite swap_dict_lookup by done. unfold swapped. by repeat case_decide.
Qed.

Lemma swap_mask j m row : allowed_token_ids_mask b = Some m → j ≠ i2 → m !! swapped j = Some row → swap_views i1 i2 m !! j = Some row.
Proof.
  intros Hm Hj Hrow. pose proof (bo_mask _ _ Hb m Hm) as Hl. pose proof (bo_room _ _ Hb). pose proof (holds_lt _ _ _ H1). pose proof (holds_lt _ _ _ H2).
  destruct (lookup_lt_is_Some_2 m i2) as [y Hy]; [lia|]. unfold swap_views.
  rewrite (copy_row_lookup _ _ _ y); [|by rewrite (copy_row_lookup _ _ _ y), decide_True by (done || lia)|rewrite length_copy_row; lia].
  rewrite decide_False by done. rewrite (copy_row_lookup _ _ _ y) by (done || lia).
  unfold swapped in Hrow. rewrite decide_False in Hrow by done. case_decide; congruence.
Qed.

Lemma swap_slot j x ex : holds b' j x → sp !! x = Some ex → slot_rep b' j ex.
Proof.
  intros Hj Hx. apply swap_holds in Hj. pose proof (bo_slot _ _ Hb _ _ _ Hj Hx) as Hs.
  assert (j < length (_req_ids b))%nat as Hlt.
  { pose proof (holds_lt _ _ _ H1). pose proof (holds_lt _ _ _ H2). apply holds_lt in Hj. unfold swapped in Hj. repeat case_decide; lia. }
  destruct (decide (j = i2)) as [->|N2].
  - assert (swapped i2 = i1) as E by (unfold swapped; by rewrite decide_True). rewrite E in *. assert (x = id1) as -> by (unfold holds in *; congruence). simplify_eq.
    apply (slot_rep_moved (set_allowed_token_ids_mask (λ _, None) b) _ i1).
    + destruct Hs. split; try done. rewrite Hmask. done.
    + pose proof (swap_moved i2 None) as Hmv. rewrite E in Hmv. by apply Hmv.
  - apply (slot_rep_moved b _ (swapped j)); [done|].
    assert (b = set_allowed_token_ids_mask (λ _, allowed_token_ids_mask b) b) as E by by destruct b. rewrite E. apply swap_moved; [|done].
    intros m row Hm Hrow. exists (swap_views i1 i2 m). split; [cbn; by rewrite Hm|]. by apply swap_mask.
Qed.

Lemma swap_batch_ok : batch_ok b' sp.
Proof.
  pose proof (bo_room _ _ Hb). pose proof (holds_lt _ _ _ H1). pose proof (holds_lt _ _ _ H2). pose proof (bo_spec _ _ Hb). pose proof (bo_out _ _ Hb).
  split.
  - apply (bo_pool _ _ Hb).
  - cbn. rewrite !length_swap_at. apply Hb.
  - cbn. rewrite !length_swap_at. apply Hb.
  - cbn -[lookup]. rewrite length_swap_at. intros j l Hj. pose proof (sr_spec _ _ _ (bo_slot _ _ Hb _ _ _ H1 He1)) as Sp1. pose proof (sr_spec _ _ _ (bo_slot _ _ Hb _ _ _ H2 He2)) as Sp2.
    rewrite (swap_at_lookup _ _ _ _ _ _ Sp1 Sp2), !decide_False by lia. by apply (bo_spare _ _ Hb).
  - cbn. rewrite length_swap_at. apply Hb.
  - cbn -[insert]. rewrite !length_insert. apply Hb.
  - cbn -[lookup insert]. intros j q Hq. destruct (bo_row_len _ _ Hb _ _ Hr1) as [T1 S1]. destruct (bo_row_len _ _ Hb _ _ Hr2) as [T2 S2].
    apply list_lookup_insert_Some in Hq as [(_ & <- & _)|[_ Hq]]; [cbn; rewrite !length_copy_prefix by congruence; done|].
    apply list_lookup_insert_Some in Hq as [(_ & <- & _)|[_ Hq]]; [cbn; rewrite !length_copy_prefix by congruence; done|]. by apply (bo_row_len _ _ Hb j).
  - by eapply tables_to_ok.
  - cbn. intros m. destruct (allowed_token_ids_mask b) as [m0|] eqn:Em; [|done]. intros [= <-]. unfold swap_views. rewrite !length_copy_row. by apply (bo_mask _ _ Hb).
  - intros x j. rewrite swap_holds, <-(bo_index _ _ Hb). cbn -[lookup insert].
    pose proof (proj2 (bo_index _ _ Hb _ _) H1) as X1. pose proof (proj2 (bo_index _ _ Hb _ _) H2) as X2.
    assert (id1 ≠ id2) as Hid by congruence. unfold swapped. destruct (decide (x = id2)) as [->|N2].
    + rewrite lookup_insert_eq, X2. repeat case_decide; split; congruence.
    + rewrite lookup_insert_ne by done. destruct (decide (x = id1)) as [->|N1]; [rewrite lookup_insert_eq, X1; repeat case_decide; split; congruence|].
      rewrite lookup_insert_ne by done. repeat case_decide; subst; try done; split; intros Hx; exfalso; apply (bo_index _ _ Hb) in Hx; unfold holds in *; congruence.
  - intros x. cbn -[lookup insert]. rewrite <-(bo_dom _ _ Hb x). destruct (decide (x = id2)) as [->|N2]; [rewrite lookup_insert_eq, (proj2 (bo_index _ _ Hb _ _) H2); by split|].
    rewrite lookup_insert_ne by done. destruct (decide (x = id1)) as [->|N1]; [rewrite lookup_insert_eq, (proj2 (bo_index _ _ Hb _ _) H1); by split|by rewrite lookup_insert_ne].
  - intros x j ex. apply swap_slot.
  - apply (bo_key _ _ Hb).
  - intros j Hj. cbn -[lookup]. rewrite !swap_dict_lookup by done.
    assert (j ≠ i2) as N2 by (intros ->; apply (Hj id1), swap_holds; unfold swapped; by rewrite decide_True).
    assert (j ≠ i1) as N1 by (intros ->; apply (Hj id2), swap_holds; unfold swapped; by rewrite decide_False, decide_True by done).
    rewrite !decide_False by done. apply (bo_free _ _ Hb). intros x Hx. apply (Hj x), swap_holds. unfold swapped. by rewrite !decide_False by done.
Qed.

Lemma swap_pending_ok : (∀ i x, i ∈ _removed (builder b) → ¬ holds b i x) → pending_ok s0 b sp → pending_ok s0 b' sp.
Proof.
  intros Hrem [(Hr & Hm & Ha) Hpm Hap]. pose proof (bo_room _ _ Hb). pose proof (holds_lt _ _ _ H1). pose proof (holds_lt _ _ _ H2). split.
  - unfold update_ok. cbn in *. split_and!; [exact Hr| |exact Ha].
    intros a c d [Hin|[= -> -> ->]%list_elem_of_singleton]%elem_of_app; [by apply Hm|]. repeat split; lia || done.
  - cbn. intros i a c d Hi [Hin|[= -> -> ->]%list_elem_of_singleton]%elem_of_app; [by eapply Hpm|].
    split; intros ->; [by apply (Hrem i id1)|by apply (Hrem i id2)].
  - intros j. unfold apply_update in *. cbn -[slot_info] in *. rewrite foldl_app. cbn [foldl]. unfold slot_move at 1.
    assert (slot_info b' sp j = slot_info b sp (swapped j)) as ->.
    { unfold slot_info. by rewrite swap_ids. }
    rewrite <-Hap. unfold swapped. by repeat case_decide.
Qed.
End swap.

Lemma swap_states_spec s0 b sp i1 i2 id1 id2 :
  batch_ok b sp → sets_ok b sp → pending_ok s0 b sp → (∀ i x, i ∈ _removed (builder b) → ¬ holds b i x) →
  holds b i1 id1 → holds b i2 id2 → i1 ≠ i2 → (∀ e1, sp !! id1 = Some e1 → nonempty_list (allowed_token_ids (e_params e1)) = None) →
  wp (swap_states i1 i2) (λ _ b', batch_ok b' sp ∧ sets_ok b' sp ∧ pending_ok s0 b' sp ∧ same_sizes b b' ∧ _removed (builder b') = _removed (builder b) ∧
    b_added (builder b') = b_added (builder b) ∧ ∀ j, _req_ids b' !! j = _req_ids b !! swapped i1 i2 j) no_exn b.
Proof.
  intros Hb Hs Hp Hrem H1 H2 Hne Hmask.
  destruct (holds_entry b sp i1 id1 Hb H1) as (e1 & He1 & X1 & S1). destruct (holds_entry b sp i2 id2 Hb H2) as (e2 & He2 & X2 & S2).
  destruct (sr_row _ _ _ S1) as (r1 & Hr1 & _). destruct (sr_row _ _ _ S2) as (r2 & Hr2 & _).
  pose proof (holds_lt _ _ _ H1) as L1. pose proof (holds_lt _ _ _ H2) as L2. pose proof (bo_room _ _ Hb).
  unfold swap_states. apply wp_bind, wp_gets. change (Datatypes.id b) with b. apply wp_bind, (wp_get_at _ _ _ _ _ _ H1), wp_bind, (wp_get_at _ _ _ _ _ _ H2).
  unfold _get_active_token_count. rewrite (arr_get_ok _ _ _ Hr1), (arr_get_ok _ _ _ (sr_spec _ _ _ S1)), (arr_get_ok _ _ _ Hr2), (arr_get_ok _ _ _ (sr_spec _ _ _ S2)).
  apply wp_bind, wp_lift_res; [|done]. intros n1 [= <-]. apply wp_bind, wp_lift_res; [|done]. intros n2 [= <-].
  apply wp_bind, wp_modify, wp_bind, wp_modify, wp_bind, wp_modify, wp_bind. eapply wp_lift_some; [done|]. apply wp_bind. eapply wp_lift_some; [done|].
  apply wp_bind. eapply wp_lift_some; [exact X1|]. apply wp_bind. eapply wp_lift_some; [exact X2|]. apply wp_bind, wp_modify.
  apply wp_bind, (wp_get_at _ _ r1); [done|]. apply wp_bind, (wp_get_at _ _ r2); [done|]. rewrite (bo_pool _ _ Hb). cbn [negb].
  apply wp_bind, wp_modify, wp_bind, wp_modify, wp_bind, wp_zoom.
  eapply wp_mono; [apply (mg_spec (max_num_reqs b)); intros g t Ht; apply swap_row_spec; [by apply (bo_tables _ _ Hb g)|lia..]| |done].
  cbn beta. intros _ ts Hts. apply wp_bind, wp_zoom, wp_modify, wp_bind, wp_modify, wp_bind, wp_modify, wp_modify.
  set (n := ((_ + _) `max` (_ + _))%nat). assert (num_tokens_no_spec r1 + length (e_spec e1) ≤ n ∧ num_tokens_no_spec r2 + length (e_spec e2) ≤ n)%nat as [N1 N2] by (unfold n; lia). clearbody n.
  match goal with |- batch_ok ?x _ ∧ _ => assert (x = swapped_state b i1 i2 id1 id2 n r1 r2 ts) as -> end.
  { unfold swapped_state. clear. destruct b. by batch_cbv. }
  split_and!; try done.
  - eapply swap_batch_ok; [exact Hb|exact H1|exact H2|done|exact He1|exact He2|done..|by apply Hmask|exact Hts].
  - by eapply set_of_sets.
  - by eapply (swap_pending_ok _ _ sp).
  - split_and!; [done..|by eapply tables_shape].
  - intros j. by eapply swap_ids.
Qed.

(** ** Moving requests into holes *)

Lemma pop_to_lookup {A} i j (m : gmap nat A) k : i ≠ j → m !! j = None → pop_to i j m !! k = if decide (k = j) then m !! i else if decide (k = i) then None else m !! k.
Proof.
  intros Hne Hj. unfold pop_to. destruct (m !! i) as [v|] eqn:E.
  - destruct (decide (k = j)) as [->|N1]; [by rewrite lookup_insert_eq|]. rewrite lookup_insert_ne by done.
    destruct (decide (k = i)) as [->|N2]; [by rewrite lookup_delete_eq|by rewrite lookup_delete_ne].
  - repeat case_decide; congruence.
Qed.

Definition condensed_state (b : InputBatch) (l m : nat) (id : string) (o : option Address) (n : nat) (q r : Row) (ts : list BlockTable) (c : BatchUpdateBuilder) : InputBatch :=
  set_bad_words_token_ids (pop_to l m) (set_allowed_token_ids_mask (fmap (M:=option) (copy_row l m)) (set_generators (pop_to l m)
    (set_builder (λ _, moved_append (l, m, UNIDIRECTIONAL) c) (set_block_tables (λ _, ts) (set_req_prompt_embeds (pop_to l m)
      (set_rows (<[m := swap_columns true n q r]>)
        (set_spec_token_ids (λ s, <[l := []]> (swap_at l m s)) (set_req_id_to_index (<[id := m]>)
          (set_req_output_token_ids (λ s, <[l := None]> (<[m := o]> s)) (set_req_ids (λ s, <[l := None]> (<[m := Some id]> s)) b)))))))))).

Section condense.
Context (s0 : Slots) (b : InputBatch) (sp : gmap string Entry) (l m : nat) (id : string) (e : Entry) (n : nat) (q r : Row) (ts : list BlockTable).
Context (Hb : batch_ok b sp) (Hl : holds b l id) (Hm : _req_ids b !! m = Some None) (Hml : (m < l)%nat) (He : sp !! id = Some e).
Context (Hq : rows b !! l = Some q) (Hr : rows b !! m = Some r) (Hn : (num_tokens_no_spec q + length (e_spec e) ≤ n)%nat).
Context (Hts : tables_to (max_num_reqs b) (block_tables b) ts (λ _ t j, if decide (j = m) then row_blocks t l else row_blocks t j)).
Context (c : BatchUpdateBuilder).
Local Abbreviation b' := (condensed_state b l m id (Some (output_token_ids (e_req e))) n q r ts c).

Lemma hole_not_held x : ¬ holds b m x.
Proof. unfold holds. by rewrite Hm. Qed.

Lemma condense_ids j : _req_ids b' !! j = if decide (j = l) then Some None else if decide (j = m) then Some (Some id) else _req_ids b !! j.
Proof.
  pose proof (holds_lt _ _ _ Hl). cbn -[lookup insert]. destruct (decide (j = l)) as [->|Nl]; [apply list_lookup_insert_eq; by rewrite length_insert|].
  rewrite list_lookup_insert_ne by done. destruct (decide (j = m)) as [->|Nm]; [apply list_lookup_insert_eq; lia|by rewrite list_lookup_insert_ne].
Qed.

Lemma condense_holds j x : holds b' j x ↔ (j = m ∧ x = id) ∨ (j ≠ m ∧ j ≠ l ∧ holds b j x).
Proof.
  unfold holds. rewrite condense_ids. destruct (decide (j = l)) as [->|Nl]; [split; [done|]; intros [[? _]|(_ & ? & _)]; [lia|done]|].
  destruct (decide (j = m)) as [->|Nm]; [split; [intros [= <-]; by left|]; by intros [[_ ->]|(? & _)]|].
  split; [by right|]. by intros [[? _]|(_ & _ & ?)].
Qed.

(** The index that an entry at index [j] of the new batch comes from. *)
Definition condense_from (j : nat) : nat := if decide (j = m) then l else j.

Lemma condense_moved j : j ≠ l → (j < length (_req_ids b))%nat → moved_to b b' (condense_from j) j.
Proof.
  intros Hj Hlt. pose proof (holds_lt _ _ _ Hl) as Ll. pose proof (bo_spec _ _ Hb). pose proof (bo_out _ _ Hb). pose proof (bo_room _ _ Hb).
  pose proof (bo_slot _ _ Hb _ _ _ Hl He) as Hs. destruct (bo_row_len _ _ Hb _ _ Hq) as [T1 S1]. destruct (bo_row_len _ _ Hb _ _ Hr) as [T2 S2].
  destruct (lookup_lt_is_Some_2 (spec_token_ids b) m) as [sm Hsm]; [lia|]. destruct (bo_free _ _ Hb m hole_not_held) as [G W].
  assert (l ≠ m) as Hne by lia. unfold condense_from. split; try done.
  - intros q' s Hq' Hs'. cbn -[lookup insert]. destruct (decide (j = m)) as [->|N].
    + exists n, (swap_columns true n q r). rewrite (sr_spec _ _ _ Hs) in Hs'. split; [by simplify_eq|]. split; [apply list_lookup_insert_eq; by eapply lookup_lt_Some|].
      simplify_eq. apply swap_columns_same; congruence.
    + exists (num_tokens_no_spec q' + length s)%nat, q'. split; [done|]. split; [by rewrite list_lookup_insert_ne|apply same_row_refl].
  - cbn -[lookup insert]. rewrite list_lookup_insert_ne by done. rewrite (swap_at_lookup _ _ _ _ _ _ (sr_spec _ _ _ Hs) Hsm).
    destruct (decide (j = m)) as [->|N]; [by rewrite (sr_spec _ _ _ Hs)|by rewrite decide_False].
  - cbn -[lookup insert]. rewrite list_lookup_insert_ne by done. destruct (decide (j = m)) as [->|N]; [|by rewrite list_lookup_insert_ne].
    rewrite (sr_out _ _ _ Hs). apply list_lookup_insert_eq. lia.
  - intros bl Hbl. eapply tables_to_same; [exact Hts| |exact Hbl]. intros g t _. cbn beta. by case_decide.
  - cbn -[lookup insert]. rewrite pop_to_lookup by done. case_decide; [done|by rewrite decide_False].
  - cbn -[lookup insert]. rewrite pop_to_lookup by done. case_decide; [done|by rewrite decide_False].
  - intros mask row Hmask Hrow. cbn -[lookup insert]. rewrite Hmask. eexists. split; [done|]. pose proof (bo_mask _ _ Hb mask Hmask) as Hlen.
    destruct (lookup_lt_is_Some_2 mask l) as [x Hx]; [lia|]. rewrite (copy_row_lookup _ _ _ x) by (done || lia). case_decide; congruence.
  - intros x Hx. cbn -[lookup insert]. unfold pop_to. destruct (decide (j = m)) as [->|N].
    + rewrite Hx. by rewrite lookup_insert_eq.
    + destruct (req_prompt_embeds b !! l) as [v|] eqn:E; [|done]. by rewrite lookup_insert_ne, lookup_delete_ne.
Qed.

Lemma condense_batch_ok : batch_ok b' sp.
Proof.
  pose proof (holds_lt _ _ _ Hl) as Ll. pose proof (bo_spec _ _ Hb). pose proof (bo_out _ _ Hb). pose proof (bo_room _ _ Hb).
  pose proof (bo_slot _ _ Hb _ _ _ Hl He) as Hs. destruct (bo_row_len _ _ Hb _ _ Hq) as [T1 S1]. destruct (bo_row_len _ _ Hb _ _ Hr) as [T2 S2].
  destruct (lookup_lt_is_Some_2 (spec_token_ids b) m) as [sm Hsm]; [lia|]. destruct (bo_free _ _ Hb m hole_not_held) as [G W].
  assert (l ≠ m) as Hne by lia. pose proof (proj2 (bo_index _ _ Hb _ _) Hl) as X.
  split.
  - apply (bo_pool _ _ Hb).
  - cbn -[insert]. rewrite !length_insert. apply Hb.
  - cbn -[insert]. rewrite !length_insert, length_swap_at. apply Hb.
  - cbn -[lookup insert]. rewrite !length_insert. intros j s Hj. rewrite list_lookup_insert_ne by lia.
    rewrite (swap_at_lookup _ _ _ _ _ _ (sr_spec _ _ _ Hs) Hsm), !decide_False by lia. by apply (bo_spare _ _ Hb).
  - cbn -[insert]. rewrite !length_insert. apply Hb.
  - cbn -[insert]. rewrite !length_insert. apply Hb.
  - cbn -[lookup insert]. intros j x Hx. apply list_lookup_insert_Some in Hx as [(_ & <- & _)|[_ Hx]]; [|by apply (bo_row_len _ _ Hb j)].
    cbn. rewrite !length_copy_prefix by congruence. done.
  - by eapply tables_to_ok.
  - cbn. intros k. destruct (allowed_token_ids_mask b) as [m0|] eqn:Em; [|done]. intros [= <-]. rewrite length_copy_row. by apply (bo_mask _ _ Hb).
  - intros x j. rewrite condense_holds. cbn -[lookup insert]. destruct (decide (x = id)) as [->|N].
    + rewrite lookup_insert_eq. split; [intros [= ->]; by left|]. intros [[-> _]|(_ & Nl & Hj)]; [done|]. apply (bo_index _ _ Hb) in Hj. congruence.
    + rewrite lookup_insert_ne by done. rewrite (bo_index _ _ Hb). split; [|intros [[_ ?]|(_ & _ & ?)]; done]. intros Hj. right. split; [|split; [|done]].
      * intros ->. by eapply hole_not_held.
      * intros ->. unfold holds in *. congruence.
  - intros x. cbn -[lookup insert]. rewrite <-(bo_dom _ _ Hb x). destruct (decide (x = id)) as [->|N]; [rewrite lookup_insert_eq, X; by split|by rewrite lookup_insert_ne].
  - intros x j ex Hj Hex. apply (slot_rep_moved b _ (condense_from j)).
    + apply condense_holds in Hj as [[-> ->]|(N1 & N2 & Hj)]; unfold condense_from; [rewrite decide_True by done|rewrite decide_False by done]; by eapply (bo_slot _ _ Hb).
    + apply condense_holds in Hj as [[-> ->]|(N1 & N2 & Hj)]; apply condense_moved; try lia. by apply holds_lt in Hj.
  - apply (bo_key _ _ Hb).
  - intros j Hj. cbn -[lookup]. rewrite !pop_to_lookup by done. assert (j ≠ m) as N by (intros ->; apply (Hj id), condense_holds; by left).
    destruct (decide (j = m)) as [?|_]; [done|]. destruct (decide (j = l)) as [->|Nl]; [done|].
    apply (bo_free _ _ Hb). intros x Hx. apply (Hj x), condense_holds. by right.
Qed.

Context (Hperm : _removed (builder b) ≡ₚ m :: _removed c) (Hsorted : desc (_removed c)) (Hadd : b_added c = b_added (builder b)) (Hmov : b_moved c = b_moved (builder b)).

Lemma condense_holes_ok : holes_ok b (S l) → holes_ok b' l.
Proof.
  intros [Hli Hnd Hho Hkn Hab Hso]. rewrite Hperm in Hnd. apply NoDup_cons in Hnd as [Hni Hnd]. pose proof (holds_lt _ _ _ Hl). split.
  - cbn -[insert]. rewrite !length_insert. lia.
  - done.
  - intros i Hi. rewrite condense_ids. case_decide; [done|]. rewrite decide_False; [|by intros ->]. apply Hho. rewrite Hperm. by right.
  - intros i. rewrite condense_ids. case_decide; [intros _; right; lia|]. case_decide; [done|]. intros Hi.
    destruct (Hkn i Hi) as [Hin|?]; [|right; lia]. rewrite Hperm in Hin. apply elem_of_cons in Hin as [->|?]; [done|by left].
  - intros i x Hi [[-> _]|(N & Nl & Hh)]%condense_holds; [lia|]. apply (Hab i x); [lia|done].
  - done.
Qed.

Lemma condense_pending_ok : holes_ok b (S l) → pending_ok s0 b sp → pending_ok s0 b' sp.
Proof.
  intros Hh [(Pr & Pm & Pa) Ppm Pap]. pose proof (ho_NoDup _ _ Hh) as Hnd. rewrite Hperm in Hnd. apply NoDup_cons in Hnd as [Hni Hnd].
  pose proof (bo_room _ _ Hb). pose proof (holds_lt _ _ _ Hl). cbn in Pr, Pm, Pa.
  assert (∀ i, i ∈ _removed c → i ∈ _removed (builder b)) as Hsub by (intros i Hi; rewrite Hperm; by right).
  assert (m ∈ _removed (builder b)) as Hmin by (rewrite Hperm; by left). split.
  - unfold update_ok. cbn. rewrite Hadd, Hmov. split_and!; [intros i Hi; by apply Pr, Hsub| |done].
    intros a d dir [?|[= -> -> ->]%list_elem_of_singleton]%elem_of_app; [by apply Pm|]. repeat split; lia.
  - cbn. rewrite Hmov. intros i a d dir Hi [Hin|[= -> -> ->]%list_elem_of_singleton]%elem_of_app; [eapply Ppm; [by apply Hsub|exact Hin]|].
    split; intros <-; [|done]. apply Hsub in Hi. apply (ho_hole _ _ Hh) in Hi. unfold holds in Hl. congruence.
  - intros j. unfold apply_update in *. cbn -[slot_info] in *. rewrite Hadd, Hmov, foldl_app. cbn [foldl]. unfold slot_move at 1.
    assert (∀ k, k ≠ m → foldl slot_move (foldl slot_add (foldl slot_remove s0 (_removed c)) (b_added (builder b))) (b_moved (builder b)) k = slot_info b sp k) as Haway.
    { intros k Hk. rewrite <-Pap. apply (slot_move_away _ _ _ m); [|intros a d dir Hin; by eapply (Ppm m)|done]. intros i Hi. apply slot_add_ext. right. rewrite !slot_remove_fold.
      apply decide_ext. rewrite Hperm, elem_of_cons. tauto. }
    unfold slot_info in *. rewrite condense_ids. destruct (decide (j = m)) as [->|N].
    + rewrite Haway by lia. rewrite decide_False by lia. unfold holds in Hl. by rewrite Hl.
    + destruct (decide (j = l)) as [->|Nl]; [done|]. by apply Haway.
Qed.
End condense.

(** The smallest hole that the builder knows, and the last request. *)
Lemma condense_move_spec s0 b sp l m id :
  in_order s0 b sp (S l) → holds b l id → (m < l)%nat → _is_removed_sorted (builder b) = true →
  m ∈ _removed (builder b) → (∀ j, j ∈ _removed (builder b) → (m ≤ j)%nat) →
  wp (condense_move l m) (λ _ b', in_order s0 b' sp l ∧ same_sizes b b' ∧ _is_removed_sorted (builder b') = true ∧
    _removed (builder b) ≡ₚ m :: _removed (builder b') ∧ b_added (builder b') = b_added (builder b)) no_exn b.
Proof.
  intros [Hb Hs Hh Hp] Hl Hml Hsorted Hm Hmin. destruct (holds_entry b sp l id Hb Hl) as (e & He & X & Hslot).
  destruct (sr_row _ _ _ Hslot) as (q & Hq & _). pose proof (holds_lt _ _ _ Hl) as Ll. pose proof (bo_room _ _ Hb). pose proof (bo_out _ _ Hb). pose proof (bo_spec _ _ Hb).
  destruct (row_exists b sp m Hb) as [r Hr]; [lia|]. pose proof (ho_hole _ _ Hh m Hm) as Hhole.
  unfold condense_move. apply wp_bind, wp_zoom.
  eapply wp_mono; [apply pop_removed_spec; apply Hh| |done]. cbn beta. cbn [builderL lget lset].
  intros o c (Ha & Hmv & Hc). destruct o as [i|]; [|destruct Hc as [Hnil _]; rewrite Hnil in Hm; by apply elem_of_nil in Hm].
  destruct Hc as (Hcs & Hcd & Hperm & Hi). assert (i = m) as -> by (apply Nat.le_antisymm; [by apply Hi|apply Hmin; rewrite Hperm; by left]).
  apply wp_bind, (wp_get_at _ _ (Some id)); [exact Hl|]. apply wp_bind, (wp_get_at _ _ (Some (output_token_ids (e_req e)))); [exact (sr_out _ _ _ Hslot)|].
  apply wp_bind. eapply wp_lift_some; [done|].
  apply wp_bind, wp_set_at; [cbn; lia|]. apply wp_bind, wp_set_at; [cbn -[insert]; rewrite length_insert; lia|].
  apply wp_bind, wp_set_at; [cbn; lia|]. apply wp_bind, wp_set_at; [cbn -[insert]; rewrite length_insert; lia|].
  apply wp_bind, wp_modify, wp_bind, wp_gets. unfold Datatypes.id, _get_active_token_count.
  cbn [rows spec_token_ids set_builder set_req_ids set_req_output_token_ids set_req_id_to_index]. rewrite (arr_get_ok _ _ _ Hq), (arr_get_ok _ _ _ (sr_spec _ _ _ Hslot)).
  apply wp_bind, wp_lift_res; [|done]. intros k [= <-]. apply wp_bind, wp_modify. apply wp_bind, wp_set_at; [cbn; rewrite length_swap_at; lia|].
  apply wp_bind, (wp_get_at _ _ q); [done|].
  match goal with |- context [negb (is_pooling_model ?x)] => change (is_pooling_model x) with (is_pooling_model b) end. rewrite (bo_pool _ _ Hb). cbn [negb].
  apply wp_bind, (wp_upd_row _ _ r); [done|]. apply wp_bind, wp_modify, wp_bind, wp_zoom.
  eapply wp_mono; [apply (mg_spec (max_num_reqs b)); intros g t Ht; apply move_row_spec; [by apply (bo_tables _ _ Hb g)|lia..]| |done].
  cbn beta. intros _ ts Hts.
  apply wp_bind, wp_zoom, wp_modify, wp_bind, wp_modify, wp_bind, wp_modify, wp_modify.
  set (n := (num_tokens_no_spec q + length (e_spec e))%nat). assert (num_tokens_no_spec q + length (e_spec e) ≤ n)%nat as N by done. clearbody n.
  match goal with |- in_order _ ?x _ _ ∧ _ => assert (x = condensed_state b l m id (Some (output_token_ids (e_req e))) n q r ts c) as -> end.
  { unfold condensed_state, move_columns. clear. destruct b. by batch_cbv. }
  split; [split|split; [split_and!; [done..|by eapply tables_shape]|done]].
  - by eapply condense_batch_ok.
  - by eapply set_of_sets.
  - by eapply condense_holes_ok.
  - by eapply condense_pending_ok.
Qed.

Lemma skip_empty_spec fuel empty last :
  (Z.to_nat (last + 1) < fuel)%nat → -1 ≤ last →
  ∃ k, skip_empty fuel empty last = Ok k ∧ -1 ≤ k ≤ last ∧ (k = -1 ∨ Z.to_nat k ∉ empty) ∧ ∀ j, k < Z.of_nat j ≤ last → j ∈ empty.
Proof.
  revert last. induction fuel as [|fuel IH]; intros last Hf Hl; [lia|]. cbn [skip_empty]. destruct (Z.leb_spec 0 last); cycle 1.
  { exists last. split_and!; [done|lia|lia|left; lia|lia]. }
  cbn [andb]. case_bool_decide as Hin; [|exists last; split_and!; [done|lia|lia|by right|lia]].
  destruct (IH (last - 1)) as (k & -> & Hk & Hni & Hall); [lia|lia|]. exists k. split_and!; [done|lia|lia|done|].
  intros j Hj. destruct (decide (Z.of_nat j = last)) as [<-|]; [by rewrite Nat2Z.id in Hin|]. apply Hall. lia.
Qed.

(** A batch without holes up to [k], and nothing above. *)
Record dense_to (b : InputBatch) (k : nat) : Prop := {
  dt_held : ∀ i, (i < k)%nat → ∃ id, holds b i id;
  dt_removed : ∀ i, i ∈ _removed (builder b) → (k ≤ i)%nat
}.

Lemma no_holes_dense b k : holes_ok b k → (∀ i, i ∈ _removed (builder b) → (k ≤ i)%nat) → dense_to b k.
Proof.
  intros Hh Hr. split; [|done]. intros i Hi. pose proof (ho_limit _ _ Hh). destruct (lookup_lt_is_Some_2 (_req_ids b) i) as [[x|] Hx]; [lia|by exists x|].
  destruct (ho_known _ _ Hh i Hx) as [Hin|]; [apply Hr in Hin|]; lia.
Qed.

Lemma holes_below b k k' : holes_ok b k → (k' ≤ k)%nat → (∀ i, (k' ≤ i < k)%nat → i ∈ _removed (builder b)) → holes_ok b k'.
Proof.
  intros [H1 H2 H3 H4 H5 H6] Hk Hin. split; [lia|done|done|..|done].
  - intros i Hi. destruct (H4 i Hi); [by left|right; lia].
  - intros i x Hi. destruct (decide (k ≤ i)%nat); [by apply H5|]. unfold holds. rewrite (H3 i); [done|]. apply Hin. lia.
Qed.

Lemma same_sizes_trans b b' b'' : same_sizes b b' → same_sizes b' b'' → same_sizes b b''.
Proof.
  intros (E1 & E2 & E3 & Ht) (F1 & F2 & F3 & Ht'). split_and!; [congruence..|]. eapply Forall2_trans; [|exact Ht|exact Ht'].
  intros t t' t'' (?&?&?&?) (?&?&?&?). split_and!; congruence.
Qed.

Lemma batch_ok_builder b sp c : batch_ok b sp → batch_ok (set_builder (λ _, c) b) sp.
Proof. intros Hb. split; try apply Hb. intros x i e Hi He. destruct (bo_slot _ _ Hb x i e Hi He). by split. Qed.

(** Sorting the removed indices changes nothing. *)
Lemma reordered s0 b sp limit c :
  in_order s0 b sp limit → _removed c ≡ₚ _removed (builder b) → b_added c = b_added (builder b) → b_moved c = b_moved (builder b) → desc (_removed c) →
  in_order s0 (set_builder (λ _, c) b) sp limit.
Proof.
  intros [Hb Hs [H1 H2 H3 H4 H5 H6] Hp] Cp Ca Cm Cd. split.
  - by apply batch_ok_builder.
  - by eapply set_of_sets.
  - split; cbn; [done|by rewrite Cp| | |done|done].
    + intros i Hi. apply H3. by rewrite <-Cp.
    + intros i Hi. rewrite Cp. by apply H4.
  - destruct Hp as [(P1 & P2 & P3) P4 P5]. cbn in P1, P2, P3. split.
    + unfold update_ok. cbn. rewrite Ca, Cm. split_and!; [|done|done]. intros i Hi. apply P1. by rewrite <-Cp.
    + cbn. rewrite Cm. intros i a d dir Hi. apply P4. by rewrite <-Cp.
    + intros j. change (slot_info _ sp j) with (slot_info b sp j). rewrite <-P5. unfold apply_update. cbn. rewrite Ca, Cm.
      apply slot_move_ext. intros i. apply slot_add_ext. right. rewrite !slot_remove_fold. apply decide_ext. by rewrite Cp.
Qed.

Lemma condense_loop_spec s0 sp fuel b limit :
  in_order s0 b sp limit → _is_removed_sorted (builder b) = true → (length (_removed (builder b)) < fuel)%nat → (∃ i x, holds b i x) →
  wp (condense_loop fuel (Z.of_nat limit - 1)) (λ _ b', ∃ k, in_order s0 b' sp k ∧ same_sizes b b' ∧ b_added (builder b') = b_added (builder b) ∧ dense_to b' k) no_exn b.
Proof.
  revert b limit. induction fuel as [|fuel IH]; intros b limit Hio Hsorted Hfuel Hex; [lia|]. destruct (Hio) as [Hb Hs Hh Hp]. cbn [condense_loop].
  apply wp_bind, wp_gets. case_bool_decide as Hnil.
  { apply wp_ret. exists limit. split; [done|]. split; [apply same_sizes_refl|]. split; [done|]. apply no_holes_dense; [done|]. apply length_zero_iff_nil in Hnil. rewrite Hnil. by intros i ?%elem_of_nil. }
  destruct (skip_empty_spec (S (Z.to_nat (Z.of_nat limit - 1 + 1))) (_removed (builder b)) (Z.of_nat limit - 1)) as (k & Ek & Hk & Hni & Hall); [lia|lia|].
  apply wp_bind. rewrite Ek. apply wp_lift_res; [|done]. intros ? [= <-].
  assert (0 ≤ k) as Hk0.
  { destruct (decide (k = -1)) as [->|]; [|lia]. destruct Hex as (i & x & Hi). exfalso. destruct (decide (limit ≤ i)%nat) as [Hle|Hle]; [by apply (ho_above _ _ Hh i x)|].
    assert (i ∈ _removed (builder b)) as Hin by (apply Hall; lia). apply (ho_hole _ _ Hh) in Hin. unfold holds in Hi. congruence. }
  destruct Hni as [?|Hni]; [lia|]. destruct (Z_of_nat_complete k Hk0) as [l ->]. rewrite Nat2Z.id in Hni.
  assert (holes_ok b (S l)) as Hh' by (apply (holes_below b limit); [done|lia|intros i Hi; apply Hall; lia]).
  assert (_removed (builder b) ≠ []) as Hne by by (intros E; rewrite E in Hnil).
  apply wp_bind, wp_zoom. eapply wp_mono; [apply peek_removed_spec; [apply Hh|apply Hh|done]| |done].
  cbn beta. cbn [builderL lget lset]. intros o c (Ca & Cm & Cs & Cd & Cp & m & -> & Hm & Hmin). apply wp_bind. eapply wp_lift_some; [done|].
  set (b1 := set_builder (λ _, c) b).
  assert (in_order s0 b1 sp (S l)) as Hio1 by (apply reordered; [by split|done..]).
  destruct (Z.leb_spec (Z.of_nat l) (Z.of_nat m)) as [Hle|Hlt].
  - apply wp_ret. exists (S l). split; [done|]. split; [exact (same_sizes_refl b)|]. split; [done|]. apply no_holes_dense; [apply Hio1|]. cbn. intros i Hi. rewrite Cp in Hi.
    pose proof (Hmin i Hi). assert (m ≠ l) by by (intros ->). lia.
  - rewrite Nat2Z.id. destruct (lookup_lt_is_Some_2 (_req_ids b) l) as [[id|] Hid]; [pose proof (ho_limit _ _ Hh'); lia| |].
    2:{ destruct (ho_known _ _ Hh' l Hid); [done|lia]. }
    apply wp_bind. eapply wp_mono; [apply (condense_move_spec s0 b1 sp l m id); [done|done|lia|done|by apply (elem_of_Permutation_proper m _ _ Cp)|intros j Hj; by apply Hmin, (elem_of_Permutation_proper j _ _ Cp)]| |done].
    cbn beta. intros _ b2 (Hio2 & Hsz & Hs2 & Hperm & Ha2). eapply wp_mono; [apply (IH b2 l)| |done]; [done|done| |..].
    + assert (length (_removed (builder b)) = S (length (_removed (builder b2)))) as E; [|lia]. rewrite <-Cp. cbn in Hperm. by rewrite Hperm.
    + destruct Hex as (i & x & Hi). destruct (holds_entry b sp i x Hb Hi) as (e & He & _).
      destruct (proj2 (bo_dom _ _ (io_batch _ _ _ _ Hio2) x)) as [j Hj]; [by eexists|]. exists j, x. by apply (bo_index _ _ (io_batch _ _ _ _ Hio2)).
    + cbn beta. intros _ b3 (k & Hio3 & Hsz3 & Ha3 & Hd). exists k. split; [done|]. split; [exact (same_sizes_trans b b2 b3 Hsz Hsz3)|]. split; [|done]. rewrite Ha3, Ha2. exact Ca.
Qed.

(** Holes and requests make up the lists. *)
Lemma holes_count {A} (ids : list (option A)) (R : list nat) :
  NoDup R → (∀ i, i ∈ R ↔ ids !! i = Some None) → (length (omap (λ o, o) ids) + length R)%nat = length ids.
Proof.
  revert R. induction ids as [|o ids IH] using rev_ind; intros R Hnd HR.
  { destruct R as [|i R]; [done|]. exfalso. assert (i ∈ i :: R) as Hi by left. by apply HR in Hi. }
  assert (∀ i, ids !! i = Some None ↔ i ∈ R ∧ i ≠ length ids) as Hids.
  { intros i. rewrite HR. split.
    - intros Hi. split; [by apply lookup_app_l_Some|]. apply lookup_lt_Some in Hi. lia.
    - intros [[Hi|[Hge Hi]]%lookup_app_Some Hne]; [done|]. apply list_lookup_singleton_Some in Hi. lia. }
  rewrite omap_app, !length_app. cbn [length]. destruct o as [x|]; cbn.
  - rewrite <-(IH R Hnd); [lia|]. intros i. rewrite Hids. split; [|tauto]. intros Hi. split; [done|]. intros ->. apply HR in Hi. by rewrite list_lookup_middle in Hi.
  - assert (length ids ∈ R) as Hin by (apply HR; by apply list_lookup_middle). apply elem_of_Permutation in Hin as [R' HR']. rewrite HR' in Hnd. apply NoDup_cons in Hnd as [Hni Hnd].
    rewrite HR'. cbn. rewrite <-(IH R' Hnd); [lia|]. intros i. rewrite Hids, HR', elem_of_cons. split; [|tauto]. intros Hi. split; [by right|]. by intros ->.
Qed.

Lemma length_ids b sp : batch_ok b sp → holes_ok b (length (_req_ids b)) → (num_reqs b + length (_removed (builder b)))%nat = length (_req_ids b).
Proof.
  intros Hb Hh. rewrite (num_reqs_count b sp Hb). apply holes_count; [apply Hh|]. intros i. split; [apply Hh|]. intros Hi.
  destruct (ho_known _ _ Hh i Hi); [done|]. apply lookup_lt_Some in Hi. lia.
Qed.

(** A batch without holes, as a step uses it. *)
Record settled (s0 : Slots) (b : InputBatch) (sp : gmap string Entry) : Prop := {
  se_batch : batch_ok b sp;
  se_sets : sets_ok b sp;
  se_pending : pending_ok s0 b sp;
  se_dense : ∀ i, _req_ids b !! i ≠ Some None;
  se_removed : ∀ i, i ∈ _removed (builder b) → (length (_req_ids b) ≤ i)%nat
}.

Definition trimmed (k : nat) (b : InputBatch) : InputBatch := set_spec_token_ids (take k) (set_req_output_token_ids (take k) (set_req_ids (take k) b)).

Lemma trimmed_holds k b i x : holds (trimmed k b) i x ↔ holds b i x ∧ (i < k)%nat.
Proof. unfold holds. cbn -[lookup]. by rewrite lookup_take_Some. Qed.

Lemma trimmed_settled s0 b sp k : in_order s0 b sp k → dense_to b k → settled s0 (trimmed k b) sp ∧ num_reqs b = k ∧ length (_req_ids (trimmed k b)) = k.
Proof.
  intros [Hb Hs Hh Hp] [Hd Hr]. pose proof (ho_limit _ _ Hh) as Hk. pose proof (bo_out _ _ Hb). pose proof (bo_spec _ _ Hb). pose proof (bo_room _ _ Hb).
  assert (length (_req_ids (trimmed k b)) = k) as Hlen by (cbn; rewrite length_take; lia).
  assert (∀ i x, holds (trimmed k b) i x ↔ holds b i x) as Hholds.
  { intros i x. rewrite trimmed_holds. split; [tauto|]. intros Hi. split; [done|]. destruct (decide (i < k)%nat); [done|]. exfalso. apply (ho_above _ _ Hh i x); [lia|done]. }
  assert (batch_ok (trimmed k b) sp) as Hb'.
  { split; try apply Hb.
    - cbn. rewrite !length_take. lia.
    - cbn. rewrite !length_take. lia.
    - rewrite Hlen. intros j l Hj Hl. cbn -[lookup] in Hl. apply lookup_take_Some in Hl as [_ ?]. lia.
    - rewrite Hlen. cbn. lia.
    - intros x i. rewrite Hholds. apply (bo_index _ _ Hb).
    - intros x i e Hi He. apply trimmed_holds in Hi as [Hi Hlt]. pose proof (bo_slot _ _ Hb x i e Hi He) as Hsl. destruct Hsl. split; try done; cbn -[lookup]; by rewrite lookup_take_lt.
    - intros i Hi. apply (bo_free _ _ Hb). intros x Hx. by apply (Hi x), Hholds. }
  assert (∀ i, _req_ids (trimmed k b) !! i ≠ Some None) as Hdense.
  { intros i Hi. cbn -[lookup] in Hi. apply lookup_take_Some in Hi as [Hi Hlt]. destruct (Hd i Hlt) as [x Hx]. unfold holds in Hx. congruence. }
  split; [split; try done|split; [|done]].
  - by eapply set_of_sets.
  - destruct Hp as [P1 P2 P3]. split; [done|done|]. intros i. change (pending (trimmed k b)) with (pending b). rewrite P3. unfold slot_info. cbn -[lookup].
    destruct (decide (i < k)%nat); [by rewrite lookup_take_lt|]. rewrite lookup_take_ge by lia. destruct (_req_ids b !! i) as [[x|]|] eqn:E; [|done..].
    exfalso. apply (ho_above _ _ Hh i x); [lia|done].
  - rewrite Hlen. exact Hr.
  - change (num_reqs b) with (num_reqs (trimmed k b)). rewrite (num_reqs_count _ sp Hb'), omap_all_some; done.
Qed.

Lemma condense_spec s0 b sp :
  in_order s0 b sp (length (_req_ids b)) → wp condense (λ _ b', settled s0 b' sp ∧ same_sizes b b' ∧ b_added (builder b') = b_added (builder b)) no_exn b.
Proof.
  intros Hio. destruct (Hio) as [Hb Hs Hh Hp]. pose proof (length_ids b sp Hb Hh) as Hlen. unfold condense. apply wp_bind, wp_gets, wp_bind, wp_zoom.
  unfold builder_removed. apply wp_bind. eapply wp_mono; [apply ensure_sorted_spec; apply Hh| |done].
  cbn beta. cbn [builderL lget lset]. intros _ c (Cs & Cd & Cp & Ca & Cm). apply wp_gets. set (b1 := set_builder (λ _, c) b). change (lset builderL c b) with b1.
  assert (in_order s0 b1 sp (length (_req_ids b1))) as Hio1 by by apply reordered.
  case_bool_decide as Hnil.
  { apply wp_ret. apply length_zero_iff_nil in Hnil. assert (dense_to b1 (length (_req_ids b1))) as Hd.
    { apply no_holes_dense; [apply Hio1|]. cbn. rewrite Hnil. by intros i ?%elem_of_nil. }
    destruct (trimmed_settled s0 b1 sp _ Hio1 Hd) as [Hse _]. split; [|exact (conj (same_sizes_refl b) Ca)]. destruct Hio1 as [Hb1 Hs1 Hh1 Hp1]. split; try done.
    - intros i Hi. destruct (ho_known _ _ Hh1 i Hi) as [Hin|]; [cbn in Hin; rewrite Hnil in Hin; by apply elem_of_nil in Hin|]. apply lookup_lt_Some in Hi. lia.
    - cbn. rewrite Hnil. by intros i ?%elem_of_nil. }
  case_bool_decide as Hzero.
  - assert (∀ i x, ¬ holds b1 i x) as Hno.
    { intros i x Hi. destruct (holds_entry b1 sp i x (io_batch _ _ _ _ Hio1) Hi) as (e & He & _). rewrite (num_reqs_size b sp Hb) in Hzero. apply map_size_empty_inv in Hzero. by rewrite Hzero in He. }
    assert (in_order s0 b1 sp 0) as Hio0.
    { destruct Hio1 as [Hb1 Hs1 [H1 H2 H3 H4 H5 H6] Hp1]. split; [done|done|split; try done; [lia|right; lia]|done]. }
    destruct (trimmed_settled s0 b1 sp 0 Hio0) as [Hse _]; [split; [lia|lia]|].
    apply wp_bind, wp_modify, wp_bind, wp_modify, wp_modify. exact (conj Hse (conj (same_sizes_refl b) Ca)).
  - apply wp_bind. replace (Z.of_nat (num_reqs b) + Z.of_nat (length (_removed c)) - 1) with (Z.of_nat (length (_req_ids b1)) - 1) by (cbn; rewrite Cp; lia).
    eapply wp_mono; [apply (condense_loop_spec s0 sp); [exact Hio1|done|cbn; lia|]| |done].
    + destruct (map_choose sp) as (x & e & He); [intros E; by rewrite (num_reqs_size b sp Hb), E, map_size_empty in Hzero|].
      destruct (proj2 (bo_dom _ _ Hb x)) as [i Hi]; [by eexists|]. exists i, x. by apply (bo_index _ _ Hb).
    + cbn beta. intros _ b2 (k & Hio2 & Hsz & Ha2 & Hd). destruct (trimmed_settled s0 b2 sp k Hio2 Hd) as (Hse & Hk & _).
      assert (num_reqs b = k) as -> by (rewrite <-Hk, (num_reqs_size b sp Hb); symmetry; apply num_reqs_size, Hio2).
      apply wp_bind, wp_modify, wp_bind, wp_modify, wp_modify. exact (conj Hse (conj Hsz (eq_trans Ha2 Ca))).
Qed.
