(* ===== verification/BatchTheorems.v ===== *)
(** * The persistent batch through its calls

    Appended blocks and written tokens, the refresh at the end of a step, a new batch, and the calls a
    model runner makes between them as a relation over abstract maps of requests; what holds after any
    sequence of calls; and what moves leave behind that the map does not show. *)

From stdpp Require Import base list gmap strings sorting.
From Stdlib Require Import ZArith Lia Floats.SpecFloat.
From S2P Require Import Prelude FreeQueue Request LogitsProcessors BlockTable InputBatch BatchInvariant BatchMoves.
Local Open Scope Z_scope.

(** *** New blocks and new tokens of a request in the batch *)

Definition with_blocks (bl : list (list Z)) (e : Entry) : Entry := mkEntry (e_req e) (e_params e) (e_tokens e) (e_spec e) (e_prompt e) (e_computed e) bl (e_accepted e).
Definition with_tokens (ts : list (option Z)) (computed accepted : Z) (e : Entry) : Entry :=
  mkEntry (e_req e) (e_params e) ts (e_spec e) (e_prompt e) computed (e_blocks e) accepted.

(** New blocks for each group, and room for them. *)
Definition blocks_fit (b : InputBatch) (e : Entry) (new : list (list Z)) : Prop :=
  ∀ g t, block_tables b !! g = Some t → ∃ l l', e_blocks e !! g = Some l ∧ new !! g = Some l' ∧ (length (kernel_ids t (l ++ l')) ≤ max_num_blocks_per_req t)%nat.

Lemma written_same b i spec row : rows b !! i = Some row → spec_token_ids b !! i = Some spec → ∀ ts, written b i spec row ts = set_block_tables (λ _, ts) b.
Proof. intros Hr Hs ts. unfold written, set_rows, set_spec_token_ids. cbn -[insert]. by rewrite !list_insert_id. Qed.

Lemma append_blocks_spec s0 b sp limit id i e new :
  in_order s0 b sp limit → holds b i id → sp !! id = Some e → blocks_fit b e new →
  wp (zoom tablesL (mg_append_row new i)) (λ _ b', in_order s0 b' (<[id := with_blocks (zip_with app (e_blocks e) new) e]> sp) limit ∧
    builder b' = builder b ∧ _req_ids b' = _req_ids b ∧ same_sizes b b') no_exn b.
Proof.
  intros Hio Hi He Hfit. pose proof (io_batch _ _ _ _ Hio) as Hb. destruct (holds_entry b sp i id Hb Hi) as (e0 & He0 & _ & Hslot). rewrite He in He0. injection He0 as <-.
  destruct (sr_row _ _ _ Hslot) as (row & Hrow & Hrep). pose proof (sr_spec _ _ _ Hslot) as Hsp.
  apply wp_zoom. eapply wp_mono; [apply (mg_spec (max_num_reqs b) _ (λ g t j, if decide (j = i) then (l ← e_blocks e !! g; l' ← new !! g; Some (kernel_ids t (l ++ l'))) else row_blocks t j))| |done].
  - intros g t Ht. destruct (Hfit g t Ht) as (l & l' & Hl & Hl' & Hcap). destruct (sr_blocks _ _ _ Hslot g t Ht) as (l0 & Hl0 & Hr). simplify_eq. rewrite kernel_ids_app, length_app in Hcap.
    unfold row_op, with_ids. rewrite (arr_get_ok _ _ _ Hl'). apply wp_bind, wp_lift_res; [intros a [= <-]|done].
    eapply wp_mono; [apply append_row_spec; [by apply (bo_tables _ _ Hb g)|exact Hr|lia]| |done].
    cbn beta. intros _ t' (Hok & Hsh & Hr'). split; [done|]. split; [done|]. intros j. rewrite Hr', Hl, Hl'. cbn. by rewrite kernel_ids_app.
  - cbn beta. intros _ ts Hts. cbn [tablesL lset]. rewrite <-(written_same b i (e_spec e) row Hrow Hsp).
    split; [|split; [done|split; [done|split_and!; [done..|by eapply tables_shape]]]].
    eapply (write_in_order _ _ _ _ _ _ e (with_blocks (zip_with app (e_blocks e) new) e)); try done.
    + eapply tables_to_rep; [exact Hts|apply Hslot|]. intros g t x Hg Hx. destruct (Hfit g t Hg) as (l & l' & Hl & Hl' & _). exists (l ++ l'). split.
      * cbn. rewrite lookup_zip_with, Hl, Hl'. done.
      * cbn beta. rewrite decide_True, Hl, Hl' by done. done.
    + intros j l Hj Hl. eapply tables_to_same; [exact Hts| |exact Hl]. intros g t _. cbn beta. by rewrite decide_False.
    + by eapply tables_to_ok.
    + by apply (bo_row_len _ _ Hb i).
Qed.

Lemma write_row_spec s0 b sp limit id i e ts computed accepted row :
  in_order s0 b sp limit → holds b i id → sp !! id = Some e → let e' := with_tokens ts computed accepted e in
  row_rep (max_model_len b) (vocab_size b) e' row → length (token_ids row) = max_model_len b → length (is_token_ids row) = max_model_len b →
  in_order s0 (set_rows (<[i := row]>) b) (<[id := e']> sp) limit.
Proof.
  intros Hio Hi He e' Hrep L1 L2. pose proof (io_batch _ _ _ _ Hio) as Hb. destruct (holds_entry b sp i id Hb Hi) as (e0 & He0 & _ & Hslot). rewrite He in He0. injection He0 as <-.
  destruct (sr_row _ _ _ Hslot) as (row0 & Hrow & _). replace (set_rows _ b) with (written b i (e_spec e') row (block_tables b)).
  - eapply (write_in_order _ _ _ _ _ _ e e'); try done; [apply Hslot|apply Hb].
  - unfold written, set_rows, set_spec_token_ids, set_block_tables. cbn -[insert]. rewrite (list_insert_id (spec_token_ids b)); [done|apply Hslot].
Qed.

(** ** The end of a step *)

(** The processors get the update, and the batch is ready for the next step. *)
Lemma refresh_spec `{LogitsProcessorLaws P E} s0 b sp h h' (p : P) :
  settled s0 b sp → lp_in_step (max_num_reqs b) h s0 p → grows h h' → (∀ i x, (i, x) ∈ b_added (builder b) → lp_accepts x) →
  wp (refresh_metadata h' p) (λ r b', in_order (slot_info b' sp) b' sp (length (_req_ids b')) ∧ may_remove b' ∧ b_added (builder b') = [] ∧ max_num_reqs b' = max_num_reqs b ∧
    lp_in_step (max_num_reqs b) h' (slot_info b' sp) r.1 ∧ _req_ids b' = _req_ids b) no_exn b.
Proof.
  intros [Hb Hs [Pu Pm Pa] Hd Hr] Hin Hg Hacc. unfold refresh_metadata. apply wp_bind, wp_gets. change (Datatypes.id b) with b. rewrite (bo_pool _ _ Hb).
  assert (∀ c, _removed c = [] → _is_removed_sorted c = false → b_added c = [] → b_moved c = [] → in_order (slot_info b sp) (set_builder (λ _, c) b) sp (length (_req_ids b)) ∧ may_remove (set_builder (λ _, c) b)) as Hc.
  { intros c C1 C2 C3 C4. split; [|by split]. split.
    - by apply batch_ok_builder.
    - by eapply set_of_sets.
    - split; cbn; rewrite ?C1, ?C2; [done|constructor|by intros i ?%elem_of_nil| | |done].
      + intros i Hi. by destruct (Hd i).
      + intros i x Hi Hx%holds_lt. cbn in Hx. lia.
    - split; [unfold update_ok| |]; cbn; rewrite ?C1, ?C3, ?C4; [split_and!; [by intros i ?%elem_of_nil|by intros ? ? ? ?%elem_of_nil|by intros ? ? ?%elem_of_nil]|by intros ? ? ? ? ?%elem_of_nil|].
      intros i. unfold apply_update, pending. cbn. by rewrite ?C1, ?C3, ?C4. }
  assert (∀ u, (∀ u', u = Some u' → u' = pending b) → (∀ i, apply_updates s0 u i = slot_info b sp i) → lp_in_step (max_num_reqs b) h' (slot_info b sp) (lp_update h' u p)) as Hstep.
  { intros u Hu Hap. destruct (lp_update_correct (max_num_reqs b) h h' s0 u p Hin Hg) as [L1 L2].
    - intros u' E'. by rewrite (Hu u' E').
    - intros u' i x E' Hx. rewrite (Hu u' E') in Hx. by apply (Hacc i).
    - split; [done|]. intros i. by rewrite L2, Hap. }
  apply wp_bind, wp_zoom. unfold get_and_reset. apply wp_bind, wp_gets, wp_bind, wp_modify. unfold Datatypes.id. cbn [builderL lget].
  destruct (bool_decide (_removed (builder b) = []) && _ && _) eqn:Enil.
  - apply andb_true_iff in Enil as [[E1%bool_decide_eq_true E2%bool_decide_eq_true]%andb_true_iff E3%bool_decide_eq_true].
    apply length_zero_iff_nil in E2, E3. apply wp_ret, wp_ret. cbn [builderL lset fst].
    destruct (Hc (mkBuilder (_removed (builder b)) false (b_added (builder b)) (b_moved (builder b)) false)) as [Hc1 Hc2]; [done..|]. split; [exact Hc1|]. split; [exact Hc2|].
    split; [exact E3|]. split; [done|]. split; [|done]. apply Hstep; [done|]. intros i. rewrite <-Pa. unfold apply_update. cbn. by rewrite E1, E2, E3.
  - apply wp_bind, wp_modify, wp_ret, wp_ret. cbn [builderL lset fst].
    destruct (Hc (mkBuilder [] false [] [] false)) as [Hc1 Hc2]; [done..|]. split; [exact Hc1|]. split; [exact Hc2|]. split; [done|]. split; [done|]. split; [|done].
    apply Hstep; [by intros u' [= <-]|exact Pa].
Qed.

(** ** A new batch *)

Lemma BlockTable_init_ok size n mb mt ks il a b c d t : BlockTable_init size n mb mt ks il a b c d = Ok t → table_ok n t.
Proof.
  assert (∀ bs per hybrid, table_ok n (mkBlockTable bs per hybrid (mb * per) mt (replicate n (replicate (mb * per) 0)) (replicate n (replicate (mb * per) 0))
    (replicate n 0%nat) (replicate mt 0) (a * c) (b * c + d) il)) as Hm.
  { intros bs per hybrid. unfold table_ok. cbn -[replicate lookup]. rewrite !length_replicate. split_and!; try done.
    - intros i row [-> _]%lookup_replicate. by rewrite length_replicate.
    - intros i k [-> _]%lookup_replicate. lia. }
  unfold BlockTable_init. case_bool_decide; [by intros [= <-]|]. unfold py_mod, py_div. case_bool_decide; [done|]. cbn. case_bool_decide; [|done]. cbn. by intros [= <-].
Qed.

Lemma InputBatch_init_in_order n len mt vocab bss kss mb il a1 a2 a3 a4 uninit b :
  InputBatch_init n len mt vocab bss kss mb false il a1 a2 a3 a4 uninit = Ok b →
  in_order (λ _, None) b ∅ (length (_req_ids b)) ∧ may_remove b ∧ max_num_reqs b = n.
Proof.
  unfold InputBatch_init. destruct (MultiGroupBlockTable_init _ _ _ _ _ _ _ _ _ _ _) as [ts|] eqn:Et; [|done]. intros [= <-].
  assert (all_tables_ok n ts) as Hts.
  { revert Et. unfold MultiGroupBlockTable_init. do 2 (case_bool_decide; [|done]; cbn [negb]). rewrite map_res_ok. intros Hall g t Hg.
    destruct (Forall2_lookup_r _ _ _ _ _ Hall Hg) as ([bs [ks k]] & _ & E). by eapply BlockTable_init_ok. }
  split; [split|by split].
  - split; cbn -[replicate seq].
    + done.
    + done.
    + lia.
    + intros j l _ [-> _]%lookup_replicate. done.
    + lia.
    + by rewrite length_map, length_seq.
    + intros i r (k & -> & _)%list_lookup_fmap_Some. cbn. by rewrite !length_replicate.
    + done.
    + done.
    + intros x i. unfold holds. cbn. by rewrite lookup_empty.
    + intros x. by rewrite !lookup_empty.
    + intros x i e Hi. by unfold holds in Hi.
    + intros x e He. by rewrite lookup_empty in He.
    + intros i _. by rewrite !lookup_empty.
  - assert (∀ P, set_of ∅ P (∅ : gset string)) as Hset.
    { intros P x. rewrite lookup_empty. split; [by intros ?%elem_of_empty|by intros (? & ? & _)]. }
    split; try apply Hset.
    + intros x. cbn. by rewrite !lookup_empty.
    + split_and!; cbn.
      * intros l x. rewrite !lookup_empty. split; by intros (? & ? & _).
      * intros l s. by rewrite lookup_empty.
      * intros l. by rewrite !lookup_empty.
  - split; cbn; [lia|constructor|by intros i ?%elem_of_nil|done| |done]. intros i x _ Hx. by unfold holds in Hx.
  - split; cbn; [|by intros ? ? ? ? ?%elem_of_nil|done]. split_and!; [by intros ? ?%elem_of_nil|by intros ? ? ? ?%elem_of_nil|by intros ? ? ?%elem_of_nil].
Qed.

(** ** The calls of a runner *)

Definition is_ok {A} (r : res A) : bool := match r with Ok _ => true | Err _ => false end.

Lemma wp_returns {T A} (m : M T A) Q s r s' : wp m Q no_exn s → m s = (r, s') → ∃ a, r = Ok a ∧ Q a s'.
Proof. intros Hm Hr. destruct (wp_no_exn_run m Q s Hm) as (a & t & E & HQ). rewrite Hr in E. injection E as -> ->. by exists a. Qed.


(** A step of the runner removes requests, then adds some and tells the batch of new tokens, blocks and
    drafts, condenses it, may reorder it, and refreshes the metadata. *)
Inductive phase := Removing | Adding | Settled.

Section calls.
Context `{LogitsProcessorLaws P E} (n : nat).

(** The batch, the requests and entries it stands for, the processors, and whether the last call
    returned.  Between calls the output lists grow. *)
Inductive calls : phase → Heap → InputBatch → gmap string Entry → P → bool → Prop :=
| calls_init h b p len mt vocab bss kss mb il a1 a2 a3 a4 uninit :
    InputBatch_init n len mt vocab bss kss mb false il a1 a2 a3 a4 uninit = Ok b → lp_in_step n h (λ _, None) p →
    calls Removing h b ∅ p true
| calls_grow ph h h' b sp p : calls ph h b sp p true → grows h h' → calls ph h' b sp p true
| calls_remove h b sp p id r b' :
    calls Removing h b sp p true → remove_request id b = (r, b') → calls Removing h b' (delete id sp) p (is_ok r)
| calls_add ph h b sp p req prm k r b' :
    calls ph h b sp p true → ph ≠ Settled → sp !! req_id req = None → (size sp < n)%nat → req_ok b h req prm k → lp_accepts (info_of req prm) →
    add_request h req b = (r, b') → calls Adding h b' (<[req_id req := entry_of h req prm k]> sp) p (is_ok r)
| calls_tokens ph h b sp p i id e ts computed accepted row :
    calls ph h b sp p true → ph ≠ Settled → holds b i id → sp !! id = Some e →
    row_rep (max_model_len b) (vocab_size b) (with_tokens ts computed accepted e) row → length (token_ids row) = max_model_len b → length (is_token_ids row) = max_model_len b →
    calls ph h (set_rows (<[i := row]>) b) (<[id := with_tokens ts computed accepted e]> sp) p true
| calls_blocks ph h b sp p i id e new r b' :
    calls ph h b sp p true → ph ≠ Settled → holds b i id → sp !! id = Some e → blocks_fit b e new →
    zoom tablesL (mg_append_row new i) b = (r, b') → calls ph h b' (<[id := with_blocks (zip_with app (e_blocks e) new) e]> sp) p (is_ok r)
| calls_drafts ph h b sp p id e drafts r b' :
    calls ph h b sp p true → ph ≠ Settled → sp !! id = Some e → (length (e_tokens e) + length (default [] (drafts !! id)) ≤ max_model_len b)%nat →
    update_req_spec_token_ids id drafts b = (r, b') → calls ph h b' (<[id := with_spec (default [] (drafts !! id)) e]> sp) p (is_ok r)
| calls_condense ph h b sp p r b' :
    calls ph h b sp p true → ph ≠ Settled → condense b = (r, b') → calls Settled h b' sp p (is_ok r)
| calls_swap h b sp p i1 i2 id1 id2 r b' :
    calls Settled h b sp p true → holds b i1 id1 → holds b i2 id2 → i1 ≠ i2 →
    (∀ e1, sp !! id1 = Some e1 → nonempty_list (allowed_token_ids (e_params e1)) = None) →
    swap_states i1 i2 b = (r, b') → calls Settled h b' sp p (is_ok r)
| calls_refresh h b sp p r b' p' :
    calls Settled h b sp p true → refresh_metadata h p b = (r, b') → (∀ x, r = Ok x → p' = x.1) → calls Removing h b' sp p' (is_ok r).

(** What holds between the calls. *)
Definition calls_ok (ph : phase) (h : Heap) (b : InputBatch) (sp : gmap string Entry) (p : P) : Prop :=
  ∃ s0 h0, max_num_reqs b = n ∧ grows h0 h ∧ lp_in_step n h0 s0 p ∧ (∀ i x, (i, x) ∈ b_added (builder b) → lp_accepts x) ∧
    match ph with
    | Removing => in_order s0 b sp (length (_req_ids b)) ∧ may_remove b
    | Adding => in_order s0 b sp (length (_req_ids b)) ∧ may_add b
    | Settled => settled s0 b sp
    end.

Lemma calls_ok_unsettled ph h b sp p : calls_ok ph h b sp p → ph ≠ Settled →
  ∃ s0 h0, max_num_reqs b = n ∧ grows h0 h ∧ lp_in_step n h0 s0 p ∧ (∀ i x, (i, x) ∈ b_added (builder b) → lp_accepts x) ∧
    in_order s0 b sp (length (_req_ids b)) ∧ may_add b ∧ (ph = Removing → may_remove b).
Proof. intros (s0 & h0 & H1 & H2 & H3 & H4 & H5) Hph. exists s0, h0. destruct ph; [| |done]; destruct H5 as [H5 H6]; split_and!; try done. apply H6. Qed.

(** A call that leaves the lists of indices and the builder alone. *)
Lemma calls_ok_update ph h b sp p b' sp' :
  calls_ok ph h b sp p → ph ≠ Settled → (∀ s0, in_order s0 b sp (length (_req_ids b)) → in_order s0 b' sp' (length (_req_ids b))) →
  builder b' = builder b → _req_ids b' = _req_ids b → max_num_reqs b' = max_num_reqs b → calls_ok ph h b' sp' p.
Proof.
  intros (s0 & h0 & H1 & H2 & H3 & H4 & H5) Hph Hio E1 E2 E3. exists s0, h0. rewrite E1, E2, E3. split_and!; try done.
  destruct ph; [| |done]; (destruct H5 as [H5 H6]; split; [by apply Hio|]); unfold may_remove, may_add in *; by rewrite E1.
Qed.

Lemma grows_trans h1 h2 h3 : grows h1 h2 → grows h2 h3 → grows h1 h3.
Proof. intros H1 H2 a. specialize (H1 a). specialize (H2 a). lia. Qed.

Lemma calls_invariant ph h b sp p ok : calls ph h b sp p ok → ok = true ∧ calls_ok ph h b sp p.
Proof.
  induction 1 as [h b p len mt vocab bss kss mb il a1 a2 a3 a4 uninit Hb Hp|ph h h' b sp p _ [_ IH] Hg|h b sp p id r b' _ [_ IH] Hr|ph h b sp p req prm k r b' _ [_ IH] Hph Hnew Hsize Hrq Hacc Hr
    |ph h b sp p i id e ts computed accepted row _ [_ IH] Hph Hi He Hrep L1 L2|ph h b sp p i id e new r b' _ [_ IH] Hph Hi He Hfit Hr|ph h b sp p id e drafts r b' _ [_ IH] Hph He Hcap Hr
    |ph h b sp p r b' _ [_ IH] Hph Hr|h b sp p i1 i2 id1 id2 r b' _ [_ IH] H1 H2 Hne Hmask Hr|h b sp p r b' p' _ [_ IH] Hr Hp'].
  - split; [done|]. destruct (InputBatch_init_in_order _ _ _ _ _ _ _ _ _ _ _ _ _ _ Hb) as (Hio & Hm & En). exists (λ _, None), h. destruct (Hm) as (-> & _).
    split; [exact En|]. split; [intros a; lia|]. split; [done|]. split; [by intros ? ? ?%elem_of_nil|done].
  - split; [done|]. destruct IH as (s0 & h0 & H1 & H2 & H3). exists s0, h0. split; [done|]. split; [by eapply grows_trans|done].
  - destruct IH as (s0 & h0 & H1 & H2 & H3 & H4 & Hio & Hm). destruct (wp_returns _ _ _ _ _ (remove_request_spec s0 b sp id Hio Hm) Hr) as (x & -> & Hio' & Hm' & Hsz).
    split; [done|]. exists s0, h0. destruct Hsz as (E1 & _). destruct (Hm') as (-> & _). rewrite E1. split_and!; try done. by intros ? ? ?%elem_of_nil.
  - destruct (calls_ok_unsettled _ _ _ _ _ IH Hph) as (s0 & h0 & H1 & H2 & H3 & H4 & Hio & Hm & _).
    destruct (wp_returns _ _ _ _ _ (batch_add_spec s0 b sp req prm h k Hio Hm Hnew ltac:(lia) Hrq) Hr) as (i & -> & Hio' & Hm' & (E1 & _) & Ea & _).
    split; [done|]. exists s0, h0. rewrite E1, Ea. split_and!; try done. intros j x [?|[= -> ->]%list_elem_of_singleton]%elem_of_app; [by eapply H4|done].
  - split; [done|]. eapply calls_ok_update; [exact IH|done| |done..]. intros s0 Hio. by eapply write_row_spec.
  - destruct (calls_ok_unsettled _ _ _ _ _ IH Hph) as (s1 & _ & _ & _ & _ & _ & Hio1 & _).
    destruct (wp_returns _ _ _ _ _ (append_blocks_spec _ _ _ _ _ _ _ _ Hio1 Hi He Hfit) Hr) as (x & -> & _ & E1 & E2 & E3 & _).
    split; [done|]. eapply calls_ok_update; [exact IH|done| |done..]. intros s0 Hio.
    by destruct (wp_returns _ _ _ _ _ (append_blocks_spec _ _ _ _ _ _ _ _ Hio Hi He Hfit) Hr) as (_ & _ & Hio' & _).
  - destruct (calls_ok_unsettled _ _ _ _ _ IH Hph) as (s1 & _ & _ & _ & _ & _ & Hio1 & _).
    destruct (wp_returns _ _ _ _ _ (update_req_spec_token_ids_spec _ _ _ _ _ _ _ Hio1 He Hcap) Hr) as (x & -> & _ & _ & E1 & E2 & E3 & _).
    split; [done|]. eapply calls_ok_update; [exact IH|done| |done..]. intros s0 Hio.
    by destruct (wp_returns _ _ _ _ _ (update_req_spec_token_ids_spec _ _ _ _ _ _ _ Hio He Hcap) Hr) as (_ & _ & _ & Hio' & _).
  - destruct (calls_ok_unsettled _ _ _ _ _ IH Hph) as (s0 & h0 & H1 & H2 & H3 & H4 & Hio & _).
    destruct (wp_returns _ _ _ _ _ (condense_spec s0 b sp Hio) Hr) as (x & -> & Hse & (E1 & _) & Ea). split; [done|]. exists s0, h0. rewrite E1, Ea. by split_and!.
  - destruct IH as (s0 & h0 & N & G & In & Hacc & Hse). destruct (Hse) as [Hb Hs Hp Hd Hrm].
    destruct (wp_returns _ _ _ _ _ (swap_states_spec s0 b sp i1 i2 id1 id2 Hb Hs Hp ltac:(intros i x Hi Hx%holds_lt; apply Hrm in Hi; lia) H1 H2 Hne Hmask) Hr)
      as (x & -> & Hb' & Hs' & Hp' & (E1 & _) & Er & Ea & Hids). split; [done|].
    exists s0, h0. rewrite E1, Ea. split_and!; try done. split; try done; [intros j; rewrite Hids; apply Hd|]. rewrite Er. intros j Hj. apply Hrm in Hj.
    apply lookup_ge_None_1. rewrite Hids. apply holds_lt in H1, H2. unfold swapped. rewrite !decide_False by lia. by apply lookup_ge_None_2.
  - destruct IH as (s0 & h0 & N & G & In & Hacc & Hse). rewrite <-N in In.
    destruct (wp_returns _ _ _ _ _ (refresh_spec s0 b sp h0 h p Hse In G Hacc) Hr) as (x & -> & Hio & Hm & Ea & E1 & In' & _). split; [done|].
    exists (slot_info b' sp), h. rewrite E1, Ea, (Hp' x eq_refl), <-N. split_and!; try done; [by intros a|by intros ? ? ?%elem_of_nil].
Qed.
End calls.

(** ** What a runner reads off the batch *)

Lemma calls_facts `{LogitsProcessorLaws P E} n ph h b sp (p : P) : calls_ok n ph h b sp p →
  batch_ok b sp ∧ sets_ok b sp ∧ max_num_reqs b = n ∧
  (ph = Settled → length (_req_ids b) = num_reqs b ∧ ∀ i, (i < num_reqs b)%nat → ∃ id, holds b i id).
Proof.
  intros (s0 & h0 & H1 & H2 & H3 & H4 & H5).
  assert (batch_ok b sp ∧ sets_ok b sp) as [Hb Hs] by (destruct ph; [destruct H5 as [[] _]|destruct H5 as [[] _]|destruct H5]; done).
  split; [done|]. split; [done|]. split; [done|]. intros ->. destruct H5 as [_ _ _ Hd _].
  assert (num_reqs b = length (_req_ids b)) as E'' by (rewrite (num_reqs_count b sp Hb); by apply omap_all_some).
  split; [done|]. intros i Hi. rewrite E'' in Hi. apply lookup_lt_is_Some_2 in Hi as [[id|] Hid]; [by exists id|by destruct (Hd i)].
Qed.

Lemma num_reqs_room b sp : batch_ok b sp → (num_reqs b ≤ max_num_reqs b)%nat.
Proof.
  intros Hb. rewrite (num_reqs_count b sp Hb). etrans; [|apply (bo_room _ _ Hb)]. generalize (_req_ids b). intros l.
  induction l as [|[x|] l IH]; cbn; lia.
Qed.

Lemma set_of_empty sp P s : set_of sp P s → bool_decide (s = ∅) = true ↔ ∀ id e, sp !! id = Some e → P e = false.
Proof.
  intros Hs. rewrite bool_decide_eq_true. split.
  - intros -> id e He. destruct (P e) eqn:EP; [|done]. exfalso. apply (not_elem_of_empty (C:=gset string) id), Hs. by exists e.
  - intros Hall. apply set_eq. intros x. rewrite (Hs x). split; [|by intros ?%elem_of_empty]. intros (e & He & HP). by rewrite (Hall x e He) in HP.
Qed.

(** [take (num_reqs b) (rows b)] are the rows of the requests, in order. *)
Lemma batch_rows b sp : batch_ok b sp → (∀ i, (i < num_reqs b)%nat → ∃ id, holds b i id) →
  length (take (num_reqs b) (rows b)) = num_reqs b ∧
  ∀ i row, take (num_reqs b) (rows b) !! i = Some row → ∃ id e, holds b i id ∧ sp !! id = Some e ∧ row_rep (max_model_len b) (vocab_size b) e row ∧
    length (token_ids row) = max_model_len b.
Proof.
  intros Hb Hd. pose proof (num_reqs_room b sp Hb). rewrite length_take, (bo_rows _ _ Hb). split; [lia|].
  intros i row [Hrow Hi]%lookup_take_Some. destruct (Hd i Hi) as [id Hid]. destruct (holds_entry b sp i id Hb Hid) as (e & He & _ & Hslot).
  destruct (sr_row _ _ _ Hslot) as (row' & Hrow' & Hrep). simplify_eq. exists id, e. split_and!; try done. by apply (bo_row_len _ _ Hb i).
Qed.

(** The log probabilities a request asks for, all of the vocabulary for [-1]. *)
Definition wanted_logprobs (vocab : Z) (q : SamplingParams) : option Z :=
  match logprobs q with Some k => Some (if bool_decide (k = -1) then vocab else k) | None => None end.

Lemma wanted_logprobs_of vocab q : logprobs_of vocab q = wanted_logprobs vocab q.
Proof. unfold logprobs_of, wanted_logprobs. by destruct (logprobs q). Qed.

Lemma max_logprobs_spec b (sp : gmap string Entry) :
  (∀ id, num_logprobs b !! id = (sp !! id ≫= λ e, wanted_logprobs (vocab_size b) (e_params e))) →
  match max_num_logprobs b with
  | Some m => (∃ id e, sp !! id = Some e ∧ wanted_logprobs (vocab_size b) (e_params e) = Some m) ∧
      ∀ id e k, sp !! id = Some e → wanted_logprobs (vocab_size b) (e_params e) = Some k → k ≤ m
  | None => ∀ id e, sp !! id = Some e → logprobs (e_params e) = None
  end.
Proof.
  intros Hl. unfold max_num_logprobs. destruct (py_max _) as [m|err] eqn:E.
  2:{ intros id e He. specialize (Hl id). rewrite He in Hl. cbn in Hl. unfold wanted_logprobs in Hl.
    destruct (num_logprobs b !! id) as [k|] eqn:Ek; [|by destruct (logprobs (e_params e))].
    apply elem_of_map_to_list in Ek. by destruct (map_to_list (num_logprobs b)); [apply elem_of_nil in Ek|]. }
  apply py_max_ok in E as [Hin Hmax]. split.
  - apply list_elem_of_fmap in Hin as ([id k] & -> & Hin). apply elem_of_map_to_list in Hin. rewrite Hl in Hin. destruct (sp !! id) as [e|] eqn:He; [|done]. by exists id, e.
  - intros id e k He Hk. apply Hmax. apply list_elem_of_fmap. exists (id, k). split; [done|]. apply elem_of_map_to_list. by rewrite Hl, He.
Qed.

Lemma lora_in_use (sp : gmap string Entry) m k l : lora_ok sp m k → is_Some (k !! l) ↔ ∃ id e, sp !! id = Some e ∧ lora_of e = l ∧ l ≠ 0.
Proof.
  intros (L1 & L2 & L3). rewrite L3. split.
  - intros [s Hs]. destruct (set_choose_L s (L2 l s Hs)) as [id Hid]. exists id. apply L1. by exists s.
  - intros (id & He). apply L1 in He as (s & Hs & _). by exists s.
Qed.

Lemma batch_row b sp i id e : batch_ok b sp → (∀ i, (i < num_reqs b)%nat → ∃ id, holds b i id) → holds b i id → sp !! id = Some e → length (_req_ids b) = num_reqs b →
  ∃ row, take (num_reqs b) (rows b) !! i = Some row ∧ row_rep (max_model_len b) (vocab_size b) e row ∧ length (token_ids row) = max_model_len b.
Proof.
  intros Hb Hd Hi He Hl. destruct (sr_row _ _ _ (bo_slot _ _ Hb _ _ _ Hi He)) as (row & Hrow & Hrep). exists row.
  rewrite lookup_take_lt by (rewrite <-Hl; by eapply holds_lt). split; [done|]. split; [done|]. by apply (bo_row_len _ _ Hb i).
Qed.

Lemma lora_inputs_spec b sp scheduled sampled :
  batch_ok b sp → length (_req_ids b) = num_reqs b → (∀ i, (i < num_reqs b)%nat → ∃ id, holds b i id) →
  ∃ loras, length loras = num_reqs b ∧ (∀ i id e, holds b i id → sp !! id = Some e → loras !! i = Some (lora_of e)) ∧
    (make_lora_inputs scheduled sampled b).1 = (concat (zip_with (λ l k, replicate k l) loras sampled), concat (zip_with (λ l k, replicate k l) loras scheduled)).
Proof.
  intros Hb Hl Hd. exists (map request_lora_mapping (take (num_reqs b) (rows b))). split; [rewrite length_map; by eapply batch_rows|]. split; [|done].
  intros i id e Hi He. destruct (batch_row b sp i id e) as (row & Hrow & Hrep & _); [done..|]. rewrite list_lookup_fmap, Hrow. cbn. f_equal. apply Hrep.
Qed.

Lemma prompt_tensor_spec b sp :
  batch_ok b sp → length (_req_ids b) = num_reqs b → (∀ i, (i < num_reqs b)%nat → ∃ id, holds b i id) → sp ≠ ∅ →
  ∃ tensor, _make_prompt_token_ids_cpu_tensor b = Ok tensor ∧ length tensor = num_reqs b ∧
    ∀ i id e, holds b i id → sp !! id = Some e → ∃ row, tensor !! i = Some row ∧
      (∀ k t, (k < e_prompt e)%nat → e_tokens e !! k = Some (Some t) → row !! k = Some t) ∧
      ∀ k, (e_prompt e ≤ k < length row)%nat → row !! k = Some (vocab_size b).
Proof.
  intros Hb Hl Hd Hne. unfold _make_prompt_token_ids_cpu_tensor. destruct (batch_rows b sp Hb Hd) as [Hlen _].
  destruct (py_max _) as [m|] eqn:Em; cycle 1.
  { exfalso. assert (size sp ≠ 0%nat) as Hsz by by apply map_size_non_empty_iff. rewrite <-(num_reqs_size b sp Hb), <-Hlen in Hsz.
    by destruct (take (num_reqs b) (rows b)). }
  apply py_max_ok in Em as [_ Hmax]. eexists. split; [done|]. split; [by rewrite length_map|]. intros i id e Hi He.
  destruct (batch_row b sp i id e) as (row & Hrow & (Hcap & [Ht _] & _ & Hp & _) & Hrl); [done..|]. eexists. split; [by rewrite list_lookup_fmap, Hrow|]. cbn beta zeta.
  assert (Z.of_nat (e_prompt e) ≤ m) as Hpm.
  { apply Hmax, list_elem_of_fmap. exists row. split; [by rewrite Hp|]. by eapply list_elem_of_lookup_2. }
  rewrite Hp. set (n := Z.to_nat m). assert (length (take (e_prompt e) (take n (token_ids row))) = e_prompt e) as Hpl by (rewrite !length_take; lia). split.
  - intros k t Hk Htk. destruct (Ht k (Some t) Htk) as [_ Hat]. rewrite lookup_app_l by lia. rewrite !lookup_take_lt by lia. by apply Hat.
  - intros k [Hk Hkl]. rewrite length_app, Hpl, length_replicate in Hkl. rewrite lookup_app_r by lia. apply lookup_replicate_2. lia.
Qed.

(** C4: whatever sequence of removals, additions, token, block and draft updates, condensing,
    swaps (of a first request without allowed tokens) and refreshes a runner performs, no call raises;
    the batch holds exactly the requests of the abstract map, each at an index of its own with its
    tokens, drafts, blocks and sampling parameters (the row of the token mask only where the request
    restricts its token ids, see [condense_leaves_mask]); after condensing the indices are dense; and
    a refresh brings any lawful logits processor in step with the request at each index. *)
Theorem persistent_batch_correct {P E} `{LogitsProcessorLaws P E} n ph h b sp (p : P) ok :
  calls n ph h b sp p ok →
  ok = true ∧
  (∀ id, is_Some (req_id_to_index b !! id) ↔ is_Some (sp !! id)) ∧
  (∀ id e i, sp !! id = Some e → req_id_to_index b !! id = Some i → holds b i id ∧ (i < n)%nat ∧ slot_rep b i e) ∧
  (∀ id1 id2 i, req_id_to_index b !! id1 = Some i → req_id_to_index b !! id2 = Some i → id1 = id2) ∧
  num_reqs b = size sp ∧ (size sp ≤ n)%nat ∧
  (ph = Settled → length (_req_ids b) = num_reqs b ∧ ∀ i, (i < num_reqs b)%nat → ∃ id, holds b i id) ∧
  (ph = Settled → wp (refresh_metadata h p) (λ r b', _req_ids b' = _req_ids b ∧
     ∀ i id e, holds b i id → sp !! id = Some e → lp_entry r.1 i = lp_wanted h (info_of (e_req e) (e_params e))) no_exn b).
Proof.
  intros Hc. destruct (calls_invariant n _ _ _ _ _ _ Hc) as [Hok Hinv]. destruct (calls_facts n _ _ _ _ _ Hinv) as (Hb & Hs & Hn & Hd).
  split; [done|]. split; [apply (bo_dom _ _ Hb)|]. split; [|split; [|split; [by apply num_reqs_size|split; [|split; [done|]]]]].
  - intros id e i He Hi. apply (bo_index _ _ Hb) in Hi. split; [done|]. split; [|by apply (bo_slot _ _ Hb id)].
    apply holds_lt in Hi. pose proof (bo_room _ _ Hb). lia.
  - intros id1 id2 i H1 H2. apply (bo_index _ _ Hb) in H1, H2. unfold holds in *. congruence.
  - rewrite <-(num_reqs_size b sp Hb), <-Hn. by eapply num_reqs_room.
  - intros ->. destruct Hinv as (s0 & h0 & N & G & In & Hacc & Hse). rewrite <-N in In.
    eapply wp_mono; [by apply (refresh_spec s0 b sp h0 h p)| |done]. cbn beta. intros r b' (_ & _ & _ & _ & [_ Hstep] & Hids).
    split; [done|]. intros i id e Hi He. rewrite Hstep. unfold slot_info. rewrite Hids. unfold holds in Hi. rewrite Hi. cbn -[lookup]. by rewrite He.
Qed.

(** C40: what the sampler and the kernels are told follows from the requests in the batch: each flag
    says whether no request uses its parameter, each request has its number of log probabilities, the
    greatest of them is that of the requests and there is none exactly if no request asks for any, the LoRAs are those in use, each token gets the LoRA of its request, and the prompt
    tensor has each request's prompt at its index, padded with a token outside the vocabulary. *)
Theorem batch_metadata_correct {P E} `{LogitsProcessorLaws P E} n ph h b sp (p : P) ok :
  calls n ph h b sp p ok →
  let none (f : SamplingParams → bool) := ∀ id e, sp !! id = Some e → f (e_params e) = false in
  let greedy q := match sampling_type q with GREEDY => true | _ => false end in
  (all_greedy b = true ↔ none (λ q, negb (greedy q))) ∧ (all_random b = true ↔ none greedy) ∧
  (no_top_p b = true ↔ none (λ q, SFltb (top_p q) one_float)) ∧
  (no_top_k b = true ↔ none (λ q, (0 <? top_k q) && (top_k q <? vocab_size b))) ∧
  (no_penalties b = true ↔ none (λ q, negb (SFeqb (presence_penalty q) zero_float)) ∧
     none (λ q, negb (SFeqb (frequency_penalty q) zero_float)) ∧ none (λ q, negb (SFeqb (repetition_penalty q) one_float))) ∧
  (no_allowed_token_ids b = true ↔ ∀ id e, sp !! id = Some e → default [] (allowed_token_ids (e_params e)) = []) ∧
  (∀ id, num_logprobs b !! id = (sp !! id ≫= λ e, wanted_logprobs (vocab_size b) (e_params e))) ∧
  (match max_num_logprobs b with
   | Some m => (∃ id e, sp !! id = Some e ∧ wanted_logprobs (vocab_size b) (e_params e) = Some m) ∧
       ∀ id e k, sp !! id = Some e → wanted_logprobs (vocab_size b) (e_params e) = Some k → k ≤ m
   | None => ∀ id e, sp !! id = Some e → logprobs (e_params e) = None
   end) ∧
  (∀ l, is_Some (lora_id_to_lora_request b !! l) ↔ ∃ id e, sp !! id = Some e ∧ lora_of e = l ∧ l ≠ 0) ∧
  (ph = Settled → ∀ scheduled sampled, ∃ loras, length loras = num_reqs b ∧
     (∀ i id e, holds b i id → sp !! id = Some e → loras !! i = Some (lora_of e)) ∧
     (make_lora_inputs scheduled sampled b).1 = (concat (zip_with (λ l k, replicate k l) loras sampled), concat (zip_with (λ l k, replicate k l) loras scheduled))) ∧
  (ph = Settled → sp ≠ ∅ → ∃ tensor, _make_prompt_token_ids_cpu_tensor b = Ok tensor ∧ length tensor = num_reqs b ∧
     ∀ i id e, holds b i id → sp !! id = Some e → ∃ row, tensor !! i = Some row ∧
       (∀ k t, (k < e_prompt e)%nat → e_tokens e !! k = Some (Some t) → row !! k = Some t) ∧
       ∀ k, (e_prompt e ≤ k < length row)%nat → row !! k = Some (vocab_size b)).
Proof.
  intros Hc. destruct (calls_invariant n _ _ _ _ _ _ Hc) as [_ Hinv]. destruct (calls_facts n _ _ _ _ _ Hinv) as (Hb & Hs & Hn & Hd). cbn zeta.
  destruct Hs as [S1 S2 S3 S4 S5 S6 S7 S8 S9 S10].
  split; [by apply (set_of_empty sp _ _ S2)|]. split; [by apply (set_of_empty sp _ _ S1)|]. split; [by apply (set_of_empty sp _ _ S3)|]. split; [by apply (set_of_empty sp _ _ S4)|].
  split. { unfold no_penalties. rewrite !andb_true_iff, (set_of_empty _ _ _ S6), (set_of_empty _ _ _ S5), (set_of_empty _ _ _ S7). tauto. }
  split. { unfold no_allowed_token_ids. rewrite (set_of_empty sp _ _ S8). apply forall_proper. intros id. apply forall_proper. intros e.
    destruct (allowed_token_ids (e_params e)) as [[|]|]; cbn; naive_solver. }
  assert (∀ id, num_logprobs b !! id = (sp !! id ≫= λ e, wanted_logprobs (vocab_size b) (e_params e))) as Hlp.
  { intros id. rewrite S9. destruct (sp !! id) as [e|]; [apply wanted_logprobs_of|done]. }
  split; [exact Hlp|]. split; [by apply max_logprobs_spec|]. split; [intros l; by eapply lora_in_use|].
  split; intros Hph; specialize (Hd Hph) as [Hl Hd].
  - intros scheduled sampled. by apply (lora_inputs_spec b sp).
  - by apply (prompt_tensor_spec b sp).
Qed.

(** ** An example *)

(** Two requests join a batch of at most two; the first leaves, and the second moves to its index. *)
Definition ex_row : Row := mkRow [] [] 0 0 0 0 zero_float zero_float 0 zero_float zero_float zero_float 0 false.
Definition ex_batch : InputBatch :=
  match InputBatch_init 2 8 8 10 [4] [4] None false 1 1 0 1 0 (λ _, ex_row) with
  | Ok b => b
  | Err _ => mkInputBatch false 0 0 0 [] ∅ [] ∅ [] ∅ ∅ ∅ ∅ ∅ ∅ ∅ ∅ ∅ ∅ ∅ BatchUpdateBuilder_init ∅ None ∅ [] [] ∅ ∅ None
  end.
Definition ex_heap : Heap := λ _, [].
Definition ex_params : SamplingParams :=
  mkSampling one_float None one_float 0 zero_float zero_float zero_float one_float (Some 2) 0 [] (Some [(7, one_float)]) None None None.
Definition ex_req (id : string) (lora : option LoRARequest) : CachedRequestState := mkCached id (Some [1; 2]) (Some ex_params) None [[3]] 0 0 lora None None None.
Definition ex_a : CachedRequestState := ex_req "a" None.
Definition ex_b : CachedRequestState := ex_req "b" (Some (mkLoRA "l" 5)).
Definition ex_added : InputBatch := (add_request ex_heap ex_b (add_request ex_heap ex_a ex_batch).2).2.
Definition ex_settled : InputBatch := (condense ex_added).2.
Definition ex_refreshed := refresh_metadata ex_heap LogitBias_init ex_settled.
Definition ex_proc : LogitBias := match ex_refreshed.1 with Ok x => x.1 | Err _ => LogitBias_init end.
Definition ex_removed : InputBatch := (remove_request "a" ex_refreshed.2).2.
Definition ex_final : InputBatch := (condense ex_removed).2.
Definition ex_map : gmap string Entry :=
  delete "a" (<["b" := entry_of ex_heap ex_b ex_params 2]> (<["a" := entry_of ex_heap ex_a ex_params 2]> ∅)).

Lemma ex_req_ok id lora b :
  map (λ t, (length (kernel_ids t [3]), max_num_blocks_per_req t)) (block_tables b) = [(1%nat, 2%nat)] → max_model_len b = 8%nat →
  (∀ l, lora = Some l → lora_int_id l ≠ 0) → req_ok b ex_heap (ex_req id lora) ex_params 2.
Proof.
  intros Eb El Hl. split; [done|done|rewrite El; cbn; lia| |done|done]. intros g t Ht. exists [3].
  assert ((length (kernel_ids t [3]), max_num_blocks_per_req t) ∈ [(1%nat, 2%nat)]) as Hin.
  { rewrite <-Eb. apply list_elem_of_fmap. exists t. split; [done|]. by eapply list_elem_of_lookup_2. }
  apply list_elem_of_singleton in Hin. injection Hin as -> ->. destruct g as [|g]; [split; [done|lia]|].
  apply (f_equal length) in Eb. rewrite length_map in Eb. apply lookup_lt_Some in Ht. cbn in Eb. lia.
Qed.

(** A call that returned, as the relation has it. *)
Lemma calls_ran `{LogitsProcessor P E} n ph h sp (p : P) {A} (x : res A * InputBatch) :
  (∀ r b', x = (r, b') → calls n ph h b' sp p (is_ok r)) → is_ok x.1 = true → calls n ph h x.2 sp p true.
Proof. intros Hx Hok. rewrite <-Hok. apply Hx. by destruct x. Qed.

Lemma ex_calls_added : calls 2 Adding ex_heap ex_added (<["b" := entry_of ex_heap ex_b ex_params 2]> (<["a" := entry_of ex_heap ex_a ex_params 2]> ∅)) LogitBias_init true.
Proof.
  apply (calls_ran 2 Adding ex_heap _ LogitBias_init (add_request ex_heap ex_b (add_request ex_heap ex_a ex_batch).2)); [|by vm_compute].
  intros r b. apply (calls_add 2 Adding); [|done|by vm_compute|vm_compute; lia| |done]; [|apply ex_req_ok; [by vm_compute|by vm_compute|by intros l [= <-]]].
  apply (calls_ran 2 Adding ex_heap _ LogitBias_init (add_request ex_heap ex_a ex_batch)); [|by vm_compute].
  intros r1 b1. apply (calls_add 2 Removing); [|done|done|vm_compute; lia|apply ex_req_ok; [by vm_compute|by vm_compute|done]|done].
  apply (calls_init 2 ex_heap ex_batch LogitBias_init 8 8 10 [4] [4] None 1 1 0 1 0 (λ _, ex_row)); [by vm_compute|].
  split; [by split; [constructor|]|done].
Qed.

Lemma ex_calls_refreshed : calls 2 Removing ex_heap ex_refreshed.2 (<["b" := entry_of ex_heap ex_b ex_params 2]> (<["a" := entry_of ex_heap ex_a ex_params 2]> ∅)) ex_proc true.
Proof.
  apply (calls_ran 2 Removing ex_heap _ ex_proc ex_refreshed); [|by vm_compute]. intros r b Hr. apply (calls_refresh 2 ex_heap ex_settled _ LogitBias_init r b ex_proc); [|exact Hr|].
  - apply (calls_ran 2 Settled ex_heap _ LogitBias_init (condense ex_added)); [|by vm_compute]. intros r1 b1. apply (calls_condense 2 Adding); [exact ex_calls_added|done].
  - intros x Hx. unfold ex_proc. rewrite Hr. cbn [fst]. by rewrite Hx.
Qed.

Lemma ex_calls : calls 2 Settled ex_heap ex_final ex_map ex_proc true.
Proof.
  apply (calls_ran 2 Settled ex_heap _ ex_proc (condense ex_removed)); [|by vm_compute]. intros r b. apply (calls_condense 2 Removing); [|done].
  apply (calls_ran 2 Removing ex_heap _ ex_proc (remove_request "a" ex_refreshed.2)); [|by vm_compute]. intros r1 b1. apply calls_remove. exact ex_calls_refreshed.
Qed.

Lemma persistent_batch_correct_witness :
  req_id_to_index ex_final !! "b" = Some 0%nat ∧ num_reqs ex_final = 1%nat ∧ slot_rep ex_final 0 (entry_of ex_heap ex_b ex_params 2).
Proof.
  destruct (persistent_batch_correct 2 Settled ex_heap ex_final ex_map ex_proc true ex_calls) as (_ & _ & Hslot & _ & Hn & _).
  assert (req_id_to_index ex_final !! "b" = Some 0%nat) as Hi by by vm_compute.
  split; [exact Hi|]. split; [rewrite Hn; by vm_compute|]. by apply (Hslot "b").
Defined.

Lemma batch_metadata_correct_witness :
  max_num_logprobs ex_final = Some 2 ∧ ∃ tensor, _make_prompt_token_ids_cpu_tensor ex_final = Ok tensor ∧ length tensor = 1%nat.
Proof.
  destruct (batch_metadata_correct 2 Settled ex_heap ex_final ex_map ex_proc true ex_calls) as (_ & _ & _ & _ & _ & _ & _ & _ & _ & _ & Ht).
  split; [by vm_compute|]. destruct (Ht eq_refl) as (tensor & E & Hl & _); [by intros Hm%(f_equal size)|]. exists tensor. split; [exact E|]. rewrite Hl. by vm_compute.
Defined.

(** ** What moves leave behind *)

Definition ex_allows (id : string) (allowed : option (list Z)) : CachedRequestState :=
  mkCached id (Some [1; 2])
    (Some (mkSampling one_float None one_float 0 zero_float zero_float zero_float one_float None 0 [] None allowed None None)) None [[3]] 0 0 None None None None.
Definition ex_mask_row (i : nat) (b : InputBatch) : option (list bool) := m ← allowed_token_ids_mask b; m !! i.
Definition ex_only_1 : list bool := [true; false; true; true; true; true; true; true; true; true].

(** A swap copies the mask of the second request over that of the first, which loses it. *)
Example swap_loses_mask :
  let b := (add_request ex_heap (ex_allows "b" None) (add_request ex_heap (ex_allows "a" (Some [1])) ex_batch).2).2 in
  let b' := (swap_states 0 1 b).2 in
  ex_mask_row 0 b = Some ex_only_1 ∧ req_id_to_index b' !! "a" = Some 1%nat ∧ ex_mask_row 1 b' = Some (replicate 10 false).
Proof. by vm_compute. Qed.

(** Condensing leaves the mask of a moved request at its old index, where the next request gets it. *)
Example condense_leaves_mask :
  let b := (add_request ex_heap (ex_allows "b" (Some [1])) (add_request ex_heap (ex_allows "a" None) ex_batch).2).2 in
  let b := (refresh_metadata ex_heap LogitBias_init (condense b).2).2 in
  let b := (refresh_metadata ex_heap LogitBias_init (condense (remove_request "a" b).2).2).2 in
  let b := (condense (add_request ex_heap (ex_allows "c" None) b).2).2 in
  req_id_to_index b !! "c" = Some 1%nat ∧ no_allowed_token_ids b = false ∧ ex_mask_row 1 b = Some ex_only_1.
Proof. by vm_compute. Qed.

(** The flag that a pooling request needs its prompt tokens stays at its old index too. *)
Definition ex_pools (id : string) (needs : bool) : CachedRequestState := mkCached id (Some [1; 2]) None None [[3]] 0 0 None None (Some (mkPooling needs)) (Some 0).
Definition ex_pooling_batch : InputBatch :=
  match InputBatch_init 2 8 8 10 [4] [4] None true 1 1 0 1 0 (λ _, ex_row) with Ok b => b | Err _ => ex_batch end.

Example condense_leaves_pooling_flag :
  let b := (add_request ex_heap (ex_pools "b" true) (add_request ex_heap (ex_pools "a" false) ex_pooling_batch).2).2 in
  let b := (refresh_metadata ex_heap LogitBias_init (condense b).2).2 in
  let b := (condense (remove_request "a" b).2).2 in
  _req_ids b = [Some "b"] ∧ get_pooling_params b = Ok [mkPooling true] ∧ (logits_processing_needs_token_ids <$> take (num_reqs b) (rows b)) = [false].
Proof. by vm_compute. Qed.
